(* ===== verification/_CoqProject ===== *)
-Q . S2P
Prelude.v
QaiModel.v
QaiKernel.v
QaiFidelity.v
QaiTa.v
SwLog.v
HandleDb.v
TeeMm.v
Bitstring.v
Notif.v
Dirfile.v
Htree.v
HtreeInv.v
HtreeSync.v
HtreeWrite.v
HtreeFile.v
HtreeExample.v
HtreeIntegrity.v
Mutex.v
RecMutex.v
Lockdep.v
LockdepCycle.v
LockdepOrder.v
LockdepSystem.v
TransferList.v
TransferListSpec.v
TransferListProps.v
Threads.v
TaManager.v
TaManagerInv.v
TaManagerSess.v
TaManagerCtx.v
TaManagerCalls.v
TaManagerOpen.v
TaManagerSafe.v
Shm.v
ShmMsg.v
ShmInv.v
ShmMem.v
ShmObj.v
ShmMap.v
ShmCalls.v
ShmSafe.v
ShmExample.v
Pobj.v
Pkcs11Attrs.v
Pkcs11Pin.v
Pkcs11Session.v
Pkcs11SessionInv.v
Pkcs11SessionSafe.v
Pkcs11Boot.v
Pkcs11Entry.v
Base64.v
