(* ===== verification/Prelude.v ===== *)
(** * Verification of the Raspberry Pi 5 OP-TEE repository

    The repository builds a trusted execution environment for the Raspberry Pi 5: Trusted Firmware-A
    loads the OP-TEE kernel ([src/optee_os]), which runs trusted applications (TAs) isolated from the
    normal world; the port adds a log that the secure world writes into normal-world memory and a
    tool that reads it, and a trusted application for quantum-inspired inference
    ([src/optee_examples/qai_ta]). This library translates the parts of that code that carry its
    logic into Rocq functions and proves what makes them correct. It is a shallow embedding: a C
    function is a function of the same name, in the state monad of this file when it reads or writes
    state.

    ** Conventions

    - Integers are [Z]; every operation that can wrap is written with [uwrap]/[swrap] at the C width
      ([u8] ... [u64], [i32], ...). A signed overflow, an access outside an array or buffer and a use
      of freed memory are the outcome [Undef]; [panic()] and a failed assertion are [Panic]; an error
      code of type TEE_Result is [Err]. A theorem that a call returns says that it is none of these.
    - Bytes are integers below 256, memory is a list of bytes, read and written little-endian
      ([rd], [wr], [le_bytes], [le_val]).
    - Loops are structural, counted ([for_]), or take fuel; where they take fuel the theorems say
      how much is enough (the length of the list or buffer the loop walks, the size of the ring), so
      that termination is part of the statement.
    - Memory allocation is an oracle, an argument of the functions that allocate; theorems hold for
      every oracle unless they name a condition on it. In [HandleDb], [Pkcs11Attrs] and for the data of
      the PKCS#11 TA it answers by the size asked for, the same during a call.
    - Threads are interleaved at the granularity of the code's spin-locked sections and atomic
      accesses, and of single accesses to the header in [SwLog], whose reader takes no lock; a state
      reachable in any interleaving is [reachable].

    ** Files, and the code they model

    - [Prelude]: this file. Machine integers, outcomes and the state monad with its notation
      ([let!], [do!]), byte buffers, rules for loops, the predicate [safe ov] (a run that
      returns or ends with an error code, does not panic and is not undefined, but for a signed overflow
      where [ov] allows it) with its hint database and tactics, and its refinement [runs], with one
      postcondition for results and one for error codes, for runs that are defined.
    - [QaiModel]: [qai_ta/ta/inference.c], [hai_infer.c], [model_params.h], [model_hai.h]. The three
      integer models, the batch inference and the XOR cipher.
    - [QaiKernel], [QaiFidelity]: [qai_ta/ta/fidelity_kernel.c]. The state-vector simulator over an
      abstract floating-point type (class [Num]); the simulation of its in-place array passes by
      whole-vector gates; the kernel of two feature vectors as a reference circuit, and, for
      arithmetic with the laws of a ring ([NumLaws]; the rationals are an instance), the fidelity of
      a vector with itself.
    - [QaiTa]: [qai_ta/ta/qai_ta.c] and [include/qai_ta.h]. Entry points and command handlers over
      the client's parameters; uses the three files above.
    - [SwLog]: [core/arch/arm/plat-rpi5/sw_log.c] (writer) and [tools/optee-sw-log.c] (reader).
    - [HandleDb]: [core/kernel/handle.c] and [ta/pkcs11/src/handle.c] (modules [Core], [Pkcs11]),
      both instances of the interface [HandleTable] with the laws [HandleTableLaws]; the client
      theorem on histories of calls is proved once from the laws.
    - [TeeMm]: [core/mm/tee_mm.c], pools of physical memory.
    - [Bitstring]: [lib/libutils/ext/include/bitstring.h]; [Notif]:
      [core/kernel/notif_default.c], over it; [Dirfile]: [core/tee/fs_dirfile.c], over it and an
      abstract file ([Fops], [FopsLaws]).
    - [Htree]: [core/tee/fs_htree.c] and [core/include/tee/fs_htree.h], the hash tree of a secure
      storage file: two versions of every node and block in a store, found by type, index and
      version ([fs]: the open file, the store, a source of random bytes, the outcome of the coming
      calls), over an abstract cryptographic library (class [HtEnv], laws [HtLaws]). [HtreeInv] has
      the relation between the tree in memory and the committed one, [HtreeSync] and [HtreeWrite]
      commits and block access, [HtreeFile] whole sessions, [HtreeIntegrity] what opening a
      manipulated store can return, [HtreeExample] an instance of the class and runs.
    - [Lockdep]: [core/kernel/lockdep.c], [core/include/kernel/lockdep.h] and
      [core/kernel/mutex_lockdep.c], the graph of lock orders and the queues of owned locks;
      [LockdepCycle]: the depth-first search finds a cycle if there is one; [LockdepOrder]: the calls
      refine operations on a relation between locks; [LockdepSystem]: threads that take checked
      locks.
    - [TransferList]: [core/kernel/transfer_list.c], lists of tagged entries that boot stages hand
      over in memory; [TransferListSpec]: the calls on a well-formed list; [TransferListProps]: lists
      of unknown origin, relocation, the theorems and runs.
    - [Threads]: programs of threads made of sections that run without interruption, systems of such
      threads and a logic ([ok]) for them that says which resources each thread owns.
    - [TaManager]: [core/kernel/tee_ta_manager.c] with the parts of [user_ta.c], [pseudo_ta.c],
      [ts_manager.c], [core/tee/entry_std.c] and [tee_svc.c] that open, enter and close sessions of
      trusted applications: programs of sections under tee_ta_mutex, for any number of threads.
      [TaManagerInv]: what threads own and the invariant of the shared state in these terms;
      [TaManagerSess], [TaManagerCtx], [TaManagerOpen], [TaManagerCalls]: the
      operations on sessions and on contexts, opening and closing in it; [TaManagerSafe]: commands,
      statistics, whole programs, the theorems and runs. What trusted applications do is an interface
      ([ts_ops] with the laws [ops_ok]) that the programs of threads discharge.
    - [Shm]: [core/mm/mobj_dyn_shm.c], memory of the normal world that is registered by its pages and
      named by a cookie, with [core/kernel/msg_param.c] (lists of pages), [core/include/mm/mobj.h] and
      the page mapping of [core/mm/core_mmu.c], over [TeeMm] and the counters of [RecMutex]; [ShmMsg]:
      the parameters of messages ([core/tee/entry_std.c]) and their mapping for pseudo TAs
      ([core/kernel/pseudo_ta.c]), served by any number of threads. [ShmInv]: what threads own
      (references, mappings, releases) and the invariant; [ShmMem]: windows in the address space;
      [ShmObj]: reference counts and releasing; [ShmMap]: making, mapping and accessing objects;
      [ShmCalls]: lists of pages and parameters; [ShmSafe]: whole calls and the theorems;
      [ShmExample]: a platform and runs.
    - [Mutex]: [core/kernel/wait_queue.c] and [core/kernel/mutex.c]; [RecMutex]:
      [core/kernel/refcount.c] and the recursive mutexes of [mutex.c], over [Mutex].
    - [Pobj]: [core/tee/tee_pobj.c], the table of open persistent objects.
    - [Pkcs11Attrs]: [ta/pkcs11/src/serializer.c] and [attributes.c], serialized attribute lists.
    - [Pkcs11Pin]: the PINs and identities of a token ([check_so_pin()], [check_user_pin()],
      [set_pin()] of [ta/pkcs11/src/pkcs11_token.c], the hashing and storage of
      [persistent_token.c], [lib/libutee/tee_uuid_from_str.c]).
    - [Pkcs11Session]: clients, sessions, login, commands and objects of the PKCS#11 TA
      ([pkcs11_token.c], [object.c], the object list of [persistent_token.c]), on one state [world],
      over [HandleDb.Pkcs11], [Pkcs11Attrs] and [Pkcs11Pin]. [Pkcs11SessionInv] has its invariant
      [world_ok] and the calls that use objects, PINs and login states; [Pkcs11SessionSafe] those
      that open and close sessions, log out, create objects and initialise tokens. [Pkcs11Boot]:
      [pkcs11_init()] and [init_persistent_db()]. [Pkcs11Entry]: [entry.c], the commands over
      client bytes, and sequences of calls ([ta_step]).
    - [Base64]: [lib/libutils/ext/base64.c].

    ** What the theorems show

    - The QAI TA: every invocation a client can send is memory safe and does not panic, and it is
      defined but for the overflow of a model on features outside a range that is given (C1); the
      simulator computes its reference circuit (C2) and the kernel block (C35); the protected path
      agrees with the plain one (C31) and delivers the model's output ([cmd_infer_plain_delivers]);
      the integer models are exact in ranges of their inputs (C32, [qai_hai_infer_labels]); a vector
      has fidelity one with itself ([self_fidelity]). The baseline model overflows on accepted input
      ([infer_baseline_overflow]).
    - The PKCS#11 TA: every sequence of commands from its start keeps the invariant, and no command
      panics or follows a dangling pointer (C3), as long as storage and memory work as [allowed] says and
      but for the states [so_login_panics], [init_token_leaves_handles] and [create_no_memory_panics]
      show; what login and logout achieve (C14, C15); under the same conditions every command is
      answered by the function that serves it and leaves the sessions and objects of other clients as
      they were (C16); the lockout of a guessed PIN and the effect of a new one (C17, C34); the start,
      with the panics it has when a database cannot be read or memory runs out (C33); the serialized attribute lists refine a list of pairs (C21),
      matching ([pkcs11_attributes_match]), parsing of client bytes (C36).
    - The hash tree: a session that writes blocks and commits leaves the old file or the new one,
      whatever calls fail and wherever it stops (C4); blocks read back as written (C26); creation
      (C27); opening a store that the normal world has changed fails or gives the contents that the
      root hash was made of, unless two of the inputs hashed for the two trees collide (C5). [truncate_loses_file],
      [reset_loses_file] and [zero_head_resets_file] are runs in which the code loses a file.
    - Lock dependencies: acquiring a lock is refused when it closes a cycle of lock orders, and else
      only for lack of memory (C11); the other calls (C28); threads whose acquisitions the checker
      accepts never wait for each other in a circle (C6).
    - The TA manager: whatever the normal world and trusted applications ask for, in every
      interleaving, no thread uses a freed session or context, and no assertion fails when trusted
      applications make no calls (C7); a trusted application that is not concurrent is run by one
      thread at a time, and so are the single-instance ones that are not concurrent together (C8);
      nothing stays locked, busy or counted when the threads are done (C19); identifiers of sessions
      (C39). The first three hold up to the race of [cancel_during_failed_open] and to a reference count
      of 2^32 - 1 ([stopped]); [open_session_to_itself_panics],
      [stats_from_user_ta_panics] and [timeout_seconds_lost] are other runs that go wrong.
    - Shared memory: whatever messages the normal world sends and whatever it writes into the lists
      of pages meanwhile, in every interleaving, every access goes to the buffer that is meant and
      that is non-secure, and no object or mapping is used after it is gone (C9); a trusted
      application gets references to bytes that exist, in objects that cannot be released under it
      (C10); releasing a buffer loses no wake-up, and no reference, mapping or window is left behind
      (C20). At most 2^20 threads are assumed, far above CFG_NUM_THREADS, so that no counter of
      references wraps. No assertion fails but the one of the look-up of a cookie whose object is being
      released ([shm_lookup_panics]); [copy_in_error_keeps_reference] and
      [register_documented_attr_refused] are other observations.
    - Transfer lists: a list written by another boot stage can be searched whatever its bytes (C24);
      the calls find, add, void, resize and move entries of a list (C25). The examples of
      [TransferListProps] are runs in which they lose an entry, panic or read out of bounds.
    - Memory pools: first-fit allocation that is complete (C13), freeing (C38), allocation at an
      address and look-up ([tee_mm_alloc2_spec], [tee_mm_find_spec]), and the widths at which the
      code stops working ([tee_mm_width_limits]).
    - Mutexes: mutual exclusion, no lost wakeup, the policy of the queue, recursive nesting (C12, C18,
      [wq_wake_next_policy], C37).
    - The log: the reader shows what was written, in every interleaving of their accesses but the one of
      [follow_race], in which it shows a ring of stale bytes (C22), confinement of the writer
      ([sw_log_putc_confined]), round trip ([log_roundtrip]); [main_once_silent]: the tool without [-f]
      shows nothing.
    - Storage: sharing of persistent objects (C23), the directory file over a storage whose
      reads and writes may fail (C29, [dirfile_open_spec], [dirfile_remove_find],
      [dirfile_get_tmp_fresh]).
    - Handles: the two databases are finite maps (C30, [pkcs11_handles_refine]). Notifications
      ([notif_values_spec]). Base64 round trip (C40).

    ** Not modelled

    Trusted Firmware-A, U-Boot, the cryptographic libraries, optee_client and optee_test are
    vendored. Of the OP-TEE kernel, the parts not listed above: threads and RPC (assembly and
    register state), virtual memory of user TAs and the formats of MMU tables, the storage back ends
    (files and replay-protected memory; the hash tree and the directory file are verified over
    abstract ones), memory references of FF-A, the secure data path and protected memory (other
    configurations), the mapping of parameters into user TAs, drivers. The TA manager and the
    parameters of messages are verified separately, each with any behaviour of the other. Of the
    PKCS#11 TA: processing, key generation, the policy on attributes, and the commands that build
    templates, start searches, copy objects, read and change attributes, or only report on slots,
    tokens and mechanisms. The host programs of the QAI TA (input, output and timing around calls of
    the client library). Within the modelled parts: tracing, statistics of allocators,
    virtualization, power management. Concurrent writes of the normal world to shared buffers are
    modelled where the core reads lists of pages and messages, not during a TA's call; rounding of
    floating-point numbers is left to the class [Num]. *)
From stdpp Require Export base tactics list list_numbers numbers option sets.
From Stdlib Require Export ZArith Lia Bool.

Declare Scope tee_scope.
Delimit Scope tee_scope with tee.
Global Open Scope Z_scope.
Global Open Scope tee_scope.

(** ** Machine integers *)

(** [uwrap w z]: the value an unsigned [w]-bit C object holds after [z] is stored in it. *)
Definition uwrap (w z : Z) : Z := z mod 2 ^ w.

(** [swrap w z]: conversion of [z] to a signed [w]-bit type (two's complement, as the
    compilers the repository builds with define it). *)
Definition swrap (w z : Z) : Z := (z + 2 ^ (w - 1)) mod 2 ^ w - 2 ^ (w - 1).

Abbreviation u8 := (uwrap 8).
Abbreviation u16 := (uwrap 16).
Abbreviation u32 := (uwrap 32).
Abbreviation u64 := (uwrap 64).
Abbreviation i8 := (swrap 8).
Abbreviation i32 := (swrap 32).
Abbreviation i64 := (swrap 64).

Definition is_u (w z : Z) : Prop := 0 <= z < 2 ^ w.
Definition is_s (w z : Z) : Prop := - 2 ^ (w - 1) <= z < 2 ^ (w - 1).

(** [schk w z]: the result [z] of a signed [w]-bit operation, [None] when it does not fit: signed
    overflow is undefined behaviour in C. *)
Definition schk (w z : Z) : option Z :=
  if (- 2 ^ (w - 1) <=? z) && (z <? 2 ^ (w - 1)) then Some z else None.

(** [ADD_OVERFLOW(a, b, &res)] on an unsigned [w]-bit result: the flag and the stored value. *)
Definition add_overflow (w a b : Z) : bool * Z := (2 ^ w <=? a + b, uwrap w (a + b)).

(** [MUL_OVERFLOW(a, b, &res)], likewise. *)
Definition mul_overflow (w a b : Z) : bool * Z := (2 ^ w <=? a * b, uwrap w (a * b)).

Lemma pow2_pos w : 0 <= w -> 0 < 2 ^ w.
Proof. intros; apply Z.pow_pos_nonneg; lia. Qed.

Lemma uwrap_small w z : is_u w z -> uwrap w z = z.
Proof. intros H. apply Z.mod_small, H. Qed.

Lemma uwrap_range w z : 0 <= w -> is_u w (uwrap w z).
Proof. intros H. apply Z.mod_pos_bound, pow2_pos, H. Qed.

Lemma uwrap_idemp w z : uwrap w (uwrap w z) = uwrap w z.
Proof. apply Zmod_mod. Qed.

Lemma uwrap_le w z : 0 <= w -> 0 <= z -> uwrap w z <= z.
Proof. intros Hw Hz. apply Z.mod_le; [lia | by apply pow2_pos]. Qed.

Lemma swrap_small w z : 0 < w -> is_s w z -> swrap w z = z.
Proof.
  intros Hw [Hl Hh]. unfold swrap.
  assert (2 ^ w = 2 * 2 ^ (w - 1)) as E by (rewrite <- Z.pow_succ_r by lia; f_equal; lia).
  rewrite Z.mod_small by lia. lia.
Qed.

Lemma swrap_range w z : 0 < w -> is_s w (swrap w z).
Proof.
  intros Hw. unfold swrap, is_s.
  assert (2 ^ w = 2 * 2 ^ (w - 1)) as E by (rewrite <- Z.pow_succ_r by lia; f_equal; lia).
  pose proof (Z.mod_pos_bound (z + 2 ^ (w - 1)) (2 ^ w) ltac:(apply pow2_pos; lia)). lia.
Qed.

Lemma schk_Some w z r : schk w z = Some r <-> r = z /\ is_s w z.
Proof.
  unfold schk, is_s. destruct (_ && _) eqn:E.
  - apply andb_true_iff in E as [?%Z.leb_le ?%Z.ltb_lt]. naive_solver.
  - apply andb_false_iff in E as [?%Z.leb_gt|?%Z.ltb_ge]; (split; [done | lia]).
Qed.

Lemma schk_in w z : is_s w z -> schk w z = Some z.
Proof. intros. by apply schk_Some. Qed.

Lemma schk_out w z : ~ is_s w z -> schk w z = None.
Proof. intros H. destruct (schk w z) eqn:E; [|done]. by apply schk_Some in E as [_ ?]. Qed.

(** ** Outcomes of C code

    A call returns a value, returns an error code, stops the TEE (a [panic()] or a failing
    [assert()]), or has undefined behaviour. [NoMoreRandom] is the end of the random draws a model
    was given, for a loop that draws until it is satisfied; [OutOfFuel] the end of the turns a loop or
    the depth a recursion was given. *)
Inductive ub : Set := SignedOverflow | OutOfBounds | UseAfterFree | NoMoreRandom | OutOfFuel | ShiftRange.

Inductive outcome (A : Type) : Type :=
| Ret (a : A)
| Err (e : Z)
| Panic
| Undef (u : ub).
Arguments Ret {A} a.
Arguments Err {A} e.
Arguments Panic {A}.
Arguments Undef {A} u.

(** Code that threads a mutable state [S]; the state survives an error return. *)
Definition M (S A : Type) : Type := S -> outcome A * S.

Definition ret {S A} (a : A) : M S A := fun s => (Ret a, s).
Definition err {S A} (e : Z) : M S A := fun s => (Err e, s).
Definition panic {S A} : M S A := fun s => (Panic, s).
Definition undef {S A} (u : ub) : M S A := fun s => (Undef u, s).
Definition get {S} : M S S := fun s => (Ret s, s).
Definition put {S} (s' : S) : M S unit := fun _ => (Ret tt, s').
Definition modify {S} (f : S -> S) : M S unit := fun s => (Ret tt, f s).

Definition bind {S A B} (m : M S A) (k : A -> M S B) : M S B := fun s =>
  match m s with
  | (Ret a, s') => k a s'
  | (Err e, s') => (Err e, s')
  | (Panic, s') => (Panic, s')
  | (Undef u, s') => (Undef u, s')
  end.

Notation "'let!' x := m 'in' k" := (bind m (fun x => k))
  (at level 10, x name, m at level 100, k at level 200) : tee_scope.
Notation "'do!' m 'in' k" := (bind m (fun _ => k))
  (at level 10, m at level 100, k at level 200) : tee_scope.

(** [if (c) return e;] *)
Definition guard_err {S} (c : bool) (e : Z) : M S unit := if c then err e else ret tt.
(** [assert(c)] *)
Definition assert_ {S} (c : bool) : M S unit := if c then ret tt else panic.
(** A value C leaves undefined when it is absent. *)
Definition of_opt {S A} (u : ub) (o : option A) : M S A :=
  match o with Some a => ret a | None => undef u end.

Lemma bind_ret_l {S A B} (a : A) (k : A -> M S B) s : bind (ret a) k s = k a s.
Proof. done. Qed.

(** Stepping over a call whose result is known. *)
Lemma bind_run {S A B} (m : M S A) (k : A -> M S B) s a s' : m s = (Ret a, s') -> bind m k s = k a s'.
Proof. unfold bind. by intros ->. Qed.

Lemma bind_Ret {S A B} (m : M S A) (k : A -> M S B) s b s' :
  bind m k s = (Ret b, s') <-> exists a s1, m s = (Ret a, s1) /\ k a s1 = (Ret b, s').
Proof. unfold bind. destruct (m s) as [[] ?]; naive_solver. Qed.

Lemma bind_assoc {S A B C} (m : M S A) (k : A -> M S B) (h : B -> M S C) s :
  bind (bind m k) h s = bind m (fun a => bind (k a) h) s.
Proof. unfold bind. by destruct (m s) as [[] ?]. Qed.

(** ** GlobalPlatform result codes used by the modelled code (tee_api_defines.h) *)
Definition TEE_SUCCESS : Z := 0x00000000.
Definition TEE_ERROR_CORRUPT_OBJECT : Z := 0xF0100001.
Definition TEE_ERROR_STORAGE_NOT_AVAILABLE : Z := 0xF0100003.
Definition TEE_ERROR_GENERIC : Z := 0xFFFF0000.
Definition TEE_ERROR_ACCESS_CONFLICT : Z := 0xFFFF0003.
Definition TEE_ERROR_BAD_PARAMETERS : Z := 0xFFFF0006.
Definition TEE_ERROR_BAD_STATE : Z := 0xFFFF0007.
Definition TEE_ERROR_ITEM_NOT_FOUND : Z := 0xFFFF0008.
Definition TEE_ERROR_OUT_OF_MEMORY : Z := 0xFFFF000C.
Definition TEE_ERROR_SECURITY : Z := 0xFFFF000F.
Definition TEE_ERROR_SHORT_BUFFER : Z := 0xFFFF0010.
Definition TEE_ERROR_TIMEOUT : Z := 0xFFFF3001.

(** ** Byte buffers

    A buffer is the list of its bytes, each a [Z] in [0, 256). An access outside the list is
    [None]: C gives it no meaning. *)
Definition byte_ok (b : Z) : Prop := 0 <= b < 256.
Abbreviation bytes_ok := (Forall byte_ok).

Definition lenZ {A} (l : list A) : Z := Z.of_nat (length l).

Definition rd {A} (buf : list A) (off n : Z) : option (list A) :=
  if (0 <=? off) && (0 <=? n) && (off + n <=? lenZ buf)
  then Some (take (Z.to_nat n) (drop (Z.to_nat off) buf)) else None.

Definition wr {A} (buf : list A) (off : Z) (data : list A) : option (list A) :=
  if (0 <=? off) && (off + lenZ data <=? lenZ buf)
  then Some (take (Z.to_nat off) buf ++ data ++ drop (Z.to_nat off + length data)%nat buf)
  else None.

(** Little-endian layout of an [n]-byte integer. *)
Fixpoint le_bytes (n : nat) (z : Z) : list Z :=
  match n with
  | O => []
  | S k => z mod 256 :: le_bytes k (z / 256)
  end.

Fixpoint le_val (l : list Z) : Z :=
  match l with
  | [] => 0
  | b :: t => b + 256 * le_val t
  end.

Lemma lenZ_nonneg {A} (l : list A) : 0 <= lenZ l.
Proof. unfold lenZ; lia. Qed.

Lemma lenZ_app {A} (l k : list A) : lenZ (l ++ k) = lenZ l + lenZ k.
Proof. unfold lenZ. rewrite length_app. lia. Qed.

Lemma length_le_bytes n z : length (le_bytes n z) = n.
Proof. revert z. induction n; intros; simpl; [done | by rewrite IHn]. Qed.

Lemma le_bytes_ok n z : bytes_ok (le_bytes n z).
Proof.
  revert z. induction n; intros; simpl; constructor; [|apply IHn].
  apply Z.mod_pos_bound. lia.
Qed.

Lemma le_val_le_bytes n z : le_val (le_bytes n z) = z mod 2 ^ (8 * Z.of_nat n).
Proof.
  revert z. induction n as [|n IH]; intros z; simpl le_val; simpl le_bytes.
  - by rewrite Z.mod_1_r.
  - rewrite IH. replace (8 * Z.of_nat (S n)) with (8 + 8 * Z.of_nat n) by lia.
    rewrite Z.pow_add_r by lia. change (2 ^ 8) with 256.
    rewrite Z.rem_mul_r; [done | lia | apply pow2_pos; lia].
Qed.

Lemma le_val_range l : bytes_ok l -> 0 <= le_val l < 2 ^ (8 * lenZ l).
Proof.
  unfold lenZ. induction 1 as [|b l [Hb Hb'] _ IH]; simpl length; [simpl; lia|].
  replace (8 * Z.of_nat (S (length l))) with (8 + 8 * Z.of_nat (length l)) by lia.
  rewrite Z.pow_add_r by lia. change (2 ^ 8) with 256. simpl. lia.
Qed.

Lemma le_bytes_le_val l : bytes_ok l -> le_bytes (length l) (le_val l) = l.
Proof.
  induction 1 as [|b l Hb _ IH]; [done|]. simpl. destruct Hb.
  assert ((b + 256 * le_val l) mod 256 = b) as -> by (Z.div_mod_to_equations; lia).
  assert ((b + 256 * le_val l) / 256 = le_val l) as -> by (Z.div_mod_to_equations; lia).
  by rewrite IH.
Qed.

Lemma rd_Some {A} (buf : list A) off n d :
  rd buf off n = Some d ->
  0 <= off /\ 0 <= n /\ off + n <= lenZ buf /\ lenZ d = n /\
  d = take (Z.to_nat n) (drop (Z.to_nat off) buf).
Proof.
  unfold rd. destruct (_ && _) eqn:E; [|done]. intros [= <-].
  apply andb_true_iff in E as [[? ?]%andb_true_iff ?].
  repeat split; try lia. unfold lenZ in *. rewrite length_take, length_drop. lia.
Qed.

Lemma rd_in {A} (buf : list A) off n :
  0 <= off -> 0 <= n -> off + n <= lenZ buf ->
  rd buf off n = Some (take (Z.to_nat n) (drop (Z.to_nat off) buf)).
Proof. intros. unfold rd. by rewrite !(proj2 (Z.leb_le _ _)) by lia. Qed.

Lemma wr_in {A} (buf : list A) off d :
  0 <= off -> off + lenZ d <= lenZ buf ->
  wr buf off d = Some (take (Z.to_nat off) buf ++ d ++ drop (Z.to_nat off + length d)%nat buf).
Proof. intros. unfold wr. by rewrite !(proj2 (Z.leb_le _ _)) by lia. Qed.

Lemma wr_Some {A} (buf : list A) off d buf' :
  wr buf off d = Some buf' -> 0 <= off /\ off + lenZ d <= lenZ buf /\ length buf' = length buf.
Proof.
  unfold wr. destruct (_ && _) eqn:E; [|done]. intros [= <-].
  apply andb_true_iff in E as [? ?]. unfold lenZ in *.
  repeat split; [lia..|]. rewrite !length_app, length_take, length_drop. lia.
Qed.

(** Reading back what was written. *)
Lemma rd_wr_same {A} (buf : list A) off d buf' :
  wr buf off d = Some buf' -> rd buf' off (lenZ d) = Some d.
Proof.
  intros H. pose proof (wr_Some _ _ _ _ H) as (? & ? & HL).
  rewrite rd_in; [|unfold lenZ in *; lia..]. unfold wr in H.
  destruct (_ && _); [|done]. injection H as <-. unfold lenZ in *.
  rewrite drop_app_length' by (rewrite length_take; lia).
  by rewrite take_app_length' by lia.
Qed.

(** A write leaves the bytes outside its range alone. *)
Lemma rd_wr_other {A} (buf : list A) off d buf' off' n :
  wr buf off d = Some buf' -> off' + n <= off \/ off + lenZ d <= off' ->
  rd buf' off' n = rd buf off' n.
Proof.
  intros H Hd. pose proof (wr_Some _ _ _ _ H) as (H1 & H2 & HL). unfold rd, lenZ in *.
  rewrite HL. destruct (_ && _) eqn:E; [|done]. f_equal.
  apply andb_true_iff in E as [[? ?]%andb_true_iff ?].
  unfold wr, lenZ in H. destruct (_ && _); [|done]. injection H as <-.
  apply list_eq. intros i.
  destruct (decide (i < Z.to_nat n)%nat); [|rewrite !lookup_take_ge by lia; done].
  rewrite !lookup_take_lt by lia. rewrite !lookup_drop.
  destruct Hd.
  - rewrite lookup_app_l by (rewrite length_take; lia). by rewrite lookup_take_lt by lia.
  - rewrite app_assoc, lookup_app_r by (rewrite length_app, length_take; lia).
    rewrite lookup_drop. f_equal. rewrite length_app, length_take. lia.
Qed.

Lemma wr_bytes_ok buf off d buf' :
  wr buf off d = Some buf' -> bytes_ok buf -> bytes_ok d -> bytes_ok buf'.
Proof.
  unfold wr. destruct (_ && _); [|done]. intros [= <-] Hb Hd.
  apply Forall_app; split; [by apply Forall_take|].
  apply Forall_app; split; [done | by apply Forall_drop].
Qed.

(** Reading and writing at a known place of a byte string. *)
Lemma rd_at {A} (p d s : list A) off n : off = lenZ p -> n = lenZ d -> rd (p ++ d ++ s) off n = Some d.
Proof.
  intros -> ->. rewrite rd_in; [|pose proof (lenZ_nonneg p); pose proof (lenZ_nonneg d);
    pose proof (lenZ_nonneg s); rewrite ?lenZ_app; lia..].
  unfold lenZ. rewrite !Nat2Z.id, drop_app_length. by rewrite take_app_length.
Qed.

Lemma wr_at {A} (p d s d' : list A) off :
  off = lenZ p -> lenZ d' = lenZ d -> wr (p ++ d ++ s) off d' = Some (p ++ d' ++ s).
Proof.
  intros -> Hd. rewrite wr_in; [|pose proof (lenZ_nonneg p); pose proof (lenZ_nonneg s); rewrite ?lenZ_app; lia..].
  unfold lenZ in *. rewrite Nat2Z.id, take_app_length.
  rewrite <- drop_drop, drop_app_length.
  replace (length d') with (length d) by lia. by rewrite drop_app_length.
Qed.

(** ** Automation *)

Create HintDb tee.
#[export] Hint Resolve uwrap_small uwrap_range swrap_small swrap_range schk_in lenZ_nonneg
  le_bytes_ok : tee.
#[export] Hint Rewrite @lenZ_app @length_app length_le_bytes @length_take @length_drop
  @length_replicate @length_insert uwrap_idemp : tee.

(** Turns the boolean tests of the code that are in the context into the propositions they decide. *)
Ltac bool_hyps :=
  repeat match goal with
  | H : (_ && _) = true |- _ => apply andb_true_iff in H as [? ?]
  | H : (_ && _) = false |- _ => apply andb_false_iff in H
  | H : (_ || _) = true |- _ => apply orb_true_iff in H
  | H : (_ || _) = false |- _ => apply orb_false_iff in H as [? ?]
  | H : negb _ = true |- _ => apply negb_true_iff in H
  | H : negb _ = false |- _ => apply negb_false_iff in H
  | H : (_ =? _) = true |- _ => apply Z.eqb_eq in H
  | H : (_ =? _) = false |- _ => apply Z.eqb_neq in H
  | H : (_ <? _) = true |- _ => apply Z.ltb_lt in H
  | H : (_ <? _) = false |- _ => apply Z.ltb_ge in H
  | H : (_ <=? _) = true |- _ => apply Z.leb_le in H
  | H : (_ <=? _) = false |- _ => apply Z.leb_gt in H
  end.

(** Case analysis on the next test the goal (or a hypothesis) is stuck on. *)
Ltac case_test :=
  match goal with
  | |- context [if ?b then _ else _] => let E := fresh "E" in destruct b eqn:E
  | |- context [match ?o with Some _ => _ | None => _ end] =>
      let E := fresh "E" in destruct o eqn:E
  end.
Ltac case_test_in H :=
  match type of H with
  | context [if ?b then _ else _] => let E := fresh "E" in destruct b eqn:E
  | context [match ?o with Some _ => _ | None => _ end] =>
      let E := fresh "E" in destruct o eqn:E
  end.
Ltac case_tests := repeat (case_test; try done).

(** One step of a monadic run that is known to have returned. *)
Ltac inv_bind H :=
  let a := fresh "a" in let s := fresh "s" in let H1 := fresh "Hrun" in
  apply bind_Ret in H as (a & s & H1 & H).

(** ** Loops

    [for_ k i body a] is [for (; k iterations; i++) a = body(i, a)], counting [i] up from its
    initial value; C's bounded [for] loops are instances, so they terminate by construction. *)
Fixpoint for_ {S A} (k : nat) (i : Z) (body : Z -> A -> M S A) (a : A) : M S A :=
  match k with
  | O => ret a
  | Datatypes.S k' => let! a' := body i a in for_ k' (i + 1) body a'
  end.

(** [a[i]] *)
Definition idx {S A} (l : list A) (i : Z) : M S A :=
  of_opt OutOfBounds (if 0 <=? i then l !! Z.to_nat i else None).

(** [a[i] = v] *)
Definition set_idx {S A} (l : list A) (i : Z) (v : A) : M S (list A) :=
  if (0 <=? i) && (i <? lenZ l) then ret (<[Z.to_nat i := v]> l) else undef OutOfBounds.

(** A signed [w]-bit arithmetic result. *)
Definition sint {S} (w z : Z) : M S Z := of_opt SignedOverflow (schk w z).

Lemma sint_in {S} w z (s : S) : is_s w z -> sint w z s = (Ret z, s).
Proof. intros H. unfold sint. by rewrite schk_in. Qed.

Lemma sint_out {S} w z (s : S) : ~ is_s w z -> sint w z s = (Undef SignedOverflow, s).
Proof. intros H. unfold sint. by rewrite schk_out. Qed.

Lemma idx_in {S A} (l : list A) i x (s : S) :
  0 <= i -> l !! Z.to_nat i = Some x -> idx l i s = (Ret x, s).
Proof. intros ? H. unfold idx. rewrite (proj2 (Z.leb_le _ _)) by lia. by rewrite H. Qed.

(** The rule for counted loops: an invariant on the loop counter, the loop variable and the state
    that every iteration carries over. *)
Lemma for_inv_st {S A} (P : Z -> A -> S -> Prop) (body : Z -> A -> M S A) k i a (s : S) :
  (forall j a s, i <= j < i + Z.of_nat k -> P j a s ->
     exists a' s', body j a s = (Ret a', s') /\ P (j + 1) a' s') ->
  P i a s ->
  exists a' s', for_ k i body a s = (Ret a', s') /\ P (i + Z.of_nat k) a' s'.
Proof.
  revert i a s. induction k as [|k IH]; intros i a s Hb HP.
  - exists a, s. split; [done|]. by rewrite Z.add_0_r.
  - destruct (Hb i a s ltac:(lia) HP) as (a1 & s1 & E1 & HP1).
    destruct (IH (i + 1) a1 s1) as (a2 & s2 & E2 & HP2); [|done|].
    + intros. apply Hb; [lia | done].
    + exists a2, s2. simpl. unfold bind. rewrite E1. split; [done|].
      replace (i + Z.of_nat (Datatypes.S k)) with (i + 1 + Z.of_nat k) by lia. done.
Qed.

(** The same for a body that leaves the state alone. *)
Lemma for_inv {S A} (P : Z -> A -> Prop) (body : Z -> A -> M S A) k i a (s : S) :
  (forall j a, i <= j < i + Z.of_nat k -> P j a ->
     exists a', body j a s = (Ret a', s) /\ P (j + 1) a') ->
  P i a ->
  exists a', for_ k i body a s = (Ret a', s) /\ P (i + Z.of_nat k) a'.
Proof.
  intros Hb HP.
  destruct (for_inv_st (fun j a s' => P j a /\ s' = s) body k i a s) as (a' & s' & E & H & ->);
    [|done|eauto].
  intros j b s' Hj [Hp ->]. destruct (Hb j b Hj Hp) as (b' & E & H'). eauto.
Qed.

(** ** Memory safety of a run

    [safe ov m Q s]: from [s], [m] makes no out-of-bounds access, uses no freed memory and does not panic;
    when it returns a value, [Q] holds of the value and the final state. Error returns are allowed; a
    signed operation may overflow only if [ov] holds ([safe False]: the run is defined). The rules
    follow the structure of the code. *)
Definition safe {S A} (ov : Prop) (m : M S A) (Q : A -> S -> Prop) (s : S) : Prop :=
  match m s with
  | (Ret a, s') => Q a s'
  | (Err _, _) => True
  | (Undef SignedOverflow, _) => ov
  | (Panic, _) | (Undef _, _) => False
  end.

Lemma safe_ret {ov} {S A} (a : A) (Q : A -> S -> Prop) s : Q a s -> safe ov (ret a) Q s.
Proof. done. Qed.

Lemma safe_bind {ov} {S A B} (m : M S A) (k : A -> M S B) (Q : B -> S -> Prop) s :
  safe ov m (fun a s' => safe ov (k a) Q s') s -> safe ov (bind m k) Q s.
Proof. unfold safe, bind. by destruct (m s) as [[] ?]. Qed.

Lemma safe_mono {ov} {S A} (m : M S A) (P Q : A -> S -> Prop) s :
  safe ov m P s -> (forall a s', P a s' -> Q a s') -> safe ov m Q s.
Proof. unfold safe. destruct (m s) as [[| | |[]] ?]; eauto. Qed.

Lemma safe_get {ov} {S} (Q : S -> S -> Prop) s : Q s s -> safe ov get Q s.
Proof. done. Qed.

Lemma safe_guard {ov} {S} c e (Q : unit -> S -> Prop) s : (c = false -> Q tt s) -> safe ov (guard_err c e) Q s.
Proof. unfold guard_err, safe. destruct c; simpl; auto. Qed.

(** A run that may overflow, where that is allowed. *)
Lemma safe_weaken {ov : Prop} {S A} (m : M S A) (Q : A -> S -> Prop) s : ov -> safe True m Q s -> safe ov m Q s.
Proof. unfold safe. by destruct (m s) as [[| | |[]] ?]. Qed.

Lemma safe_sint {S} w z (Q : Z -> S -> Prop) s : (is_s w z -> Q z s) -> safe True (sint w z) Q s.
Proof.
  intros H. unfold sint, safe. destruct (schk w z) as [r|] eqn:E; simpl; [|done].
  apply schk_Some in E as [-> ?]. auto.
Qed.

Lemma safe_idx {ov} {S A} (l : list A) i (Q : A -> S -> Prop) s :
  0 <= i < lenZ l -> (forall x, l !! Z.to_nat i = Some x -> Q x s) -> safe ov (idx l i) Q s.
Proof.
  intros Hi H. unfold lenZ in Hi.
  destruct (lookup_lt_is_Some_2 l (Z.to_nat i)) as [x Hx]; [lia|].
  unfold safe. rewrite (idx_in l i x) by (lia || done). auto.
Qed.

Lemma safe_set_idx {ov} {S A} (l : list A) i v (Q : list A -> S -> Prop) s :
  0 <= i < lenZ l -> Q (<[Z.to_nat i := v]> l) s -> safe ov (set_idx l i v) Q s.
Proof.
  intros Hi H. unfold safe, set_idx.
  by rewrite (proj2 (Z.leb_le _ _)), (proj2 (Z.ltb_lt _ _)) by lia.
Qed.

Lemma safe_of_opt {ov} {S A} u (o : option A) (Q : A -> S -> Prop) s a :
  o = Some a -> Q a s -> safe ov (of_opt u o) Q s.
Proof. by intros -> H. Qed.

Lemma safe_for {ov} {S A} (I : Z -> A -> S -> Prop) (body : Z -> A -> M S A) k i a (s : S) :
  (forall j a s, i <= j < i + Z.of_nat k -> I j a s -> safe ov (body j a) (I (j + 1)) s) ->
  I i a s -> safe ov (for_ k i body a) (I (i + Z.of_nat k)) s.
Proof.
  revert i a s. induction k as [|k IH]; intros i a s Hb HI.
  - simpl. rewrite Z.add_0_r. done.
  - simpl. apply safe_bind. eapply safe_mono; [apply Hb; [lia | done]|]. intros a' s' HI'.
    replace (i + Z.of_nat (Datatypes.S k)) with (i + 1 + Z.of_nat k) by lia.
    apply IH; [|done]. intros j b t Hj. apply Hb. lia.
Qed.

Lemma safe_run {ov} {S A} (m : M S A) (Q : A -> S -> Prop) s a s' :
  m s = (Ret a, s') -> Q a s' -> safe ov m Q s.
Proof. unfold safe. by intros ->. Qed.

(** ** Packed 32-bit words *)

(** The first [n] little-endian 32-bit words of a byte string. *)
Fixpoint words32 (n : nat) (l : list Z) : list Z :=
  match n with
  | O => []
  | S k => le_val (take 4 l) :: words32 k (drop 4 l)
  end.

Definition bytes32 (ws : list Z) : list Z := ws ≫= le_bytes 4.

Lemma length_words32 n l : length (words32 n l) = n.
Proof. revert l. induction n; intros; simpl; [done | by rewrite IHn]. Qed.

Lemma length_bytes32 ws : length (bytes32 ws) = (4 * length ws)%nat.
Proof.
  unfold bytes32. induction ws as [|w ws IH]; [done|]. rewrite bind_cons, length_app, length_le_bytes, IH.
  simpl. lia.
Qed.

Lemma bytes32_ok ws : bytes_ok (bytes32 ws).
Proof.
  unfold bytes32. induction ws as [|w ws IH]; [constructor|]. rewrite bind_cons.
  apply Forall_app. split; [apply le_bytes_ok | done].
Qed.

Lemma words32_bytes32 ws k :
  words32 (length ws) (bytes32 ws ++ k) = u32 <$> ws.
Proof.
  unfold bytes32. induction ws as [|w ws IH]; [done|]. rewrite bind_cons, <- app_assoc, fmap_cons.
  cbn [words32 length].
  rewrite take_app_length' by (by rewrite length_le_bytes).
  rewrite drop_app_length' by (by rewrite length_le_bytes).
  rewrite IH. f_equal. apply le_val_le_bytes.
Qed.

Lemma words32_range n l : bytes_ok l -> Forall (is_u 32) (words32 n l).
Proof.
  revert l. induction n; intros l H; simpl; constructor.
  - pose proof (le_val_range (take 4 l) (Forall_take _ _ _ H)) as R. unfold is_u, lenZ in *.
    rewrite length_take in R. split; [lia|]. eapply Z.lt_le_trans; [apply R|].
    apply Z.pow_le_mono_r; lia.
  - apply IHn. by apply Forall_drop.
Qed.

(** ** Flag words *)

(** [f & bit] as a condition. *)
Definition has (f bit : Z) : bool := negb (Z.land f bit =? 0).

Lemma has_bit f k : 0 <= k -> has f (2 ^ k) = Z.testbit f k.
Proof.
  intros Hk. unfold has.
  assert (Z.land f (2 ^ k) = if Z.testbit f k then 2 ^ k else 0) as ->.
  { apply Z.bits_inj'. intros n Hn. rewrite Z.land_spec, Z.pow2_bits_eqb by done.
    destruct (k =? n) eqn:E; bool_hyps.
    - subst n. rewrite andb_true_r. destruct (Z.testbit f k); [by rewrite Z.pow2_bits_true | by rewrite Z.bits_0].
    - rewrite andb_false_r. destruct (Z.testbit f k); [|by rewrite Z.bits_0].
      by rewrite Z.pow2_bits_false. }
  pose proof (pow2_pos k Hk). destruct (Z.testbit f k); [|done].
  by rewrite (proj2 (Z.eqb_neq _ _)) by lia.
Qed.

(** Setting ([f |= m]) and clearing ([f &= ~m]) flags, seen by a test of one of them. *)
Lemma has_lor f m k : 0 <= k -> has (Z.lor f m) (2 ^ k) = has f (2 ^ k) || Z.testbit m k.
Proof. intros Hk. by rewrite !has_bit, Z.lor_spec. Qed.

Lemma has_ldiff f m k : 0 <= k -> has (Z.ldiff f m) (2 ^ k) = has f (2 ^ k) && negb (Z.testbit m k).
Proof. intros Hk. by rewrite !has_bit, Z.ldiff_spec. Qed.

(** ** Return codes *)

(** Runs [m] for its return code: 0 when it returns normally. *)
Definition rc_of {S A} (m : M S A) : M S Z := fun s =>
  match m s with
  | (Ret _, s') => (Ret 0, s')
  | (Err e, s') => (Ret e, s')
  | (Panic, s') => (Panic, s')
  | (Undef u, s') => (Undef u, s')
  end.

(** ** Runs that end

    [runs m Q E s]: from [s], [m] ends with a value that satisfies [Q], or with an error code that
    satisfies [E]; it neither panics nor has undefined behaviour. *)
Definition runs {S A} (m : M S A) (Q : A -> S -> Prop) (E : Z -> S -> Prop) (s : S) : Prop :=
  match m s with
  | (Ret a, s') => Q a s'
  | (Err e, s') => E e s'
  | _ => False
  end.

Lemma runs_ret {S A} (a : A) (Q : A -> S -> Prop) E s : Q a s -> runs (ret a) Q E s.
Proof. done. Qed.

Lemma runs_err {S A} e (Q : A -> S -> Prop) (E : Z -> S -> Prop) s : E e s -> runs (err e) Q E s.
Proof. done. Qed.

Lemma runs_bind {S A B} (m : M S A) (k : A -> M S B) (Q : B -> S -> Prop) E s :
  runs m (fun a s' => runs (k a) Q E s') E s -> runs (bind m k) Q E s.
Proof. unfold runs, bind. by destruct (m s) as [[] ?]. Qed.

Lemma runs_mono {S A} (m : M S A) (P Q : A -> S -> Prop) (E F : Z -> S -> Prop) s :
  runs m P E s -> (forall a s', P a s' -> Q a s') -> (forall e s', E e s' -> F e s') -> runs m Q F s.
Proof. unfold runs. destruct (m s) as [[] ?]; eauto. Qed.

Lemma runs_get {S} (Q : S -> S -> Prop) E s : Q s s -> runs get Q E s.
Proof. done. Qed.

Lemma runs_modify {S} f (Q : unit -> S -> Prop) E s : Q tt (f s) -> runs (modify f) Q E s.
Proof. done. Qed.

Lemma runs_guard {S} c e (Q : unit -> S -> Prop) (E : Z -> S -> Prop) s :
  (c = true -> E e s) -> (c = false -> Q tt s) -> runs (guard_err c e) Q E s.
Proof. unfold guard_err. destruct c; intros; [apply runs_err | apply runs_ret]; auto. Qed.

Lemma runs_assert {S} c (Q : unit -> S -> Prop) E s : c = true -> Q tt s -> runs (assert_ c) Q E s.
Proof. by intros ->. Qed.

Lemma runs_eq {S A} (m : M S A) (Q : A -> S -> Prop) E s a s' : m s = (Ret a, s') -> Q a s' -> runs m Q E s.
Proof. unfold runs. by intros ->. Qed.

(** The outcome is that of the call. *)
Lemma runs_outcome {S A} (m : M S A) (Q : A -> S -> Prop) (E : Z -> S -> Prop) s : runs m Q E s ->
  runs m (fun a s' => Q a s' /\ fst (m s) = Ret a) (fun e s' => E e s' /\ fst (m s) = Err e) s.
Proof. unfold runs. destruct (m s) as [[] ?]; done. Qed.

Lemma runs_conj {S A} (m : M S A) (P Q : A -> S -> Prop) (E F : Z -> S -> Prop) s :
  runs m P E s -> runs m Q F s -> runs m (fun a s' => P a s' /\ Q a s') (fun e s' => E e s' /\ F e s') s.
Proof. unfold runs. destruct (m s) as [[] ?]; intros; done. Qed.

(** One step of the code. *)
Ltac run_step :=
  match goal with
  | |- runs (bind _ _) _ _ _ => apply runs_bind
  | |- runs (ret _) _ _ _ => apply runs_ret
  | |- runs (err _) _ _ _ => apply runs_err
  | |- runs get _ _ _ => apply runs_get
  | |- runs (modify _) _ _ _ => apply runs_modify
  | |- runs (guard_err _ _) _ _ _ => apply runs_guard; intros ?
  | |- runs (if ?b then _ else _) _ _ _ => let E := fresh "E" in destruct b eqn:E
  | |- runs (match ?o with Some _ => _ | None => _ end) _ _ _ => let E := fresh "E" in destruct o eqn:E
  end; cbv beta.

(** [TAILQ_FOREACH] and [LIST_FOREACH], with the elements of the list as it was at the start. *)
Fixpoint for_each {S A} (l : list A) (body : A -> M S unit) : M S unit :=
  match l with
  | [] => ret tt
  | x :: r => do! body x in for_each r body
  end.

Lemma runs_for_each {S A} (I : list A -> S -> Prop) E (body : A -> M S unit) l s :
  (forall x r s, I (x :: r) s -> runs (body x) (fun _ => I r) E s) -> I l s ->
  runs (for_each l body) (fun _ => I []) E s.
Proof.
  intros Hb. revert s. induction l as [|x r IH]; intros s HI; [done|].
  cbn [for_each]. apply runs_bind. eapply runs_mono; [by apply Hb | |done]. cbv beta. auto.
Qed.

(** Counted loops. *)
Lemma runs_for {S A} (I : Z -> A -> S -> Prop) E (body : Z -> A -> M S A) k i a (s : S) :
  (forall j a s, i <= j < i + Z.of_nat k -> I j a s -> runs (body j a) (I (j + 1)) E s) -> I i a s ->
  runs (for_ k i body a) (I (i + Z.of_nat k)) E s.
Proof.
  revert i a s. induction k as [|k IH]; intros i a s Hb HI; cbn [for_].
  - apply runs_ret. by rewrite Z.add_0_r.
  - apply runs_bind. eapply runs_mono; [apply Hb; [lia|done]| |done]. intros a' s' HI'.
    replace (i + Z.of_nat (Datatypes.S k)) with (i + 1 + Z.of_nat k) by lia. apply IH; [|done]. intros. apply Hb; [lia|done].
Qed.
