(* ===== verification/QaiModel.v ===== *)
(** * The inference models of the QAI trusted application

    optee_examples/qai_ta/ta/: the interface constants of include/qai_ta.h, the parameters of
    model_params.h and model_hai.h, and the integer kernels of inference.c and hai_infer.c. Signed
    arithmetic that leaves its type is undefined behaviour, and the run says so; the theorems give
    input ranges on which every kernel is defined and computes the exact integer score. *)
From S2P Require Import Prelude.

(** ** include/qai_ta.h *)

Definition QAI_MAX_FEATURES : Z := 16.
Definition QAI_FEATURE_COUNT : Z := 4.
Definition QAI_PROT_KEY_LEN : Z := 16.
Definition QAI_FP_SCALE : Z := 1000.
Definition QAI_HAI_FEAT : Z := 16.
Definition QAI_HAI_MAX_ROWS : Z := 32.
Definition QAI_HAI_MODEL_TINYML : Z := 0.
Definition QAI_HAI_MODEL_PAIRWISE_FAKE : Z := 1.

(** enum qai_model_id *)
Definition QAI_MODEL_BASELINE : Z := 0.
Definition QAI_MODEL_TINYML : Z := 1.
Definition QAI_MODEL_QAI : Z := 2.

Record qai_output := mk_qai_output {
  prediction : Z;
  confidence : Z;
  score : Z;
  model_id : Z;
}.

(** ** model_params.h *)

Definition qai_baseline_w : list Z := [1; 1; 1; 1].
Definition qai_baseline_bias : Z := 0.
Definition qai_baseline_threshold : Z := 0.
Definition qai_tinyml_w : list Z := [441; 775; -300; 232].
Definition qai_tinyml_bias : Z := 12.
Definition qai_tinyml_threshold : Z := 0.
Definition qai_theta : list Z := [99; 146; -64; 47].
Definition qai_gamma : list Z := [5; -2; 2; 0].
Definition qai_qai_bias : Z := -1.
Definition qai_qai_threshold : Z := 0.
Definition qai_prot_key : list Z :=
  [0x51; 0x41; 0x49; 0x2d; 0x4f; 0x50; 0x54; 0x45;
   0x45; 0x2d; 0x50; 0x49; 0x35; 0x2d; 0x4b; 0x31].

(** ** model_hai.h *)

Definition hai_tinyml_w : list Z :=
  [1859; 1667; -536; 488; -1264; 160; -579; -284; 144; -259; 298; 183; -170; 222; -124; 156].
Definition hai_tinyml_bias : Z := 2334.
Definition hai_pairwise_fake_theta : list Z :=
  [2141; 1403; -813; 739; -1562; -137; -477; 153; 166; -104; 885; 1244; -134; 30; -151; -529].
Definition hai_pairwise_fake_gamma : list Z :=
  [-532; 67; 168; 51; 17; 315; -459; 24; -92; -6; 1038; 155; -9; 1; 27; -604].
Definition hai_pairwise_fake_bias : Z := 3262.

(** ** inference.c *)

Section Inference.
Context {S : Type}.

Definition abs_i32 (v : Z) : M S Z := if v <? 0 then sint 32 (- v) else ret v.

Definition fill_result (sc threshold mid : Z) : M S qai_output :=
  let! conf := abs_i32 sc in
  ret (mk_qai_output (if sc >? threshold then 1 else 0) conf sc mid).

Definition feature_lim (n : Z) : Z := if n <? QAI_FEATURE_COUNT then n else QAI_FEATURE_COUNT.

(** One accumulation step [acc += w[i] * x[i]] on a [w]-bit signed accumulator. *)
Definition mac (w : Z) (ws x : list Z) (i acc : Z) : M S Z :=
  let! wi := idx ws i in
  let! xi := idx x i in
  let! p := sint w (wi * xi) in
  sint w (acc + p).

Definition qai_infer_baseline (x : list Z) (n : Z) : M S qai_output :=
  let lim := feature_lim n in
  let! sc := for_ (Z.to_nat lim) 0 (mac 32 qai_baseline_w x) qai_baseline_bias in
  fill_result sc qai_baseline_threshold QAI_MODEL_BASELINE.

Definition qai_infer_tinyml (x : list Z) (n : Z) : M S qai_output :=
  let lim := feature_lim n in
  let! acc := for_ (Z.to_nat lim) 0 (mac 64 qai_tinyml_w x) qai_tinyml_bias in
  fill_result (i32 (Z.quot acc QAI_FP_SCALE)) qai_tinyml_threshold QAI_MODEL_TINYML.

(** The interaction step [acc += gamma[i] * x[i] * x[(i + 1) % lim]]. *)
Definition interact (lim : Z) (x : list Z) (i acc : Z) : M S Z :=
  let j := u32 (i + 1) mod lim in
  let! g := idx qai_gamma i in
  let! xi := idx x i in
  let! xj := idx x j in
  let! p := sint 64 (g * xi) in
  let! p := sint 64 (p * xj) in
  sint 64 (acc + p).

Definition qai_infer_qai (x : list Z) (n : Z) : M S qai_output :=
  let lim := feature_lim n in
  let! acc := for_ (Z.to_nat lim) 0 (mac 64 qai_theta x) qai_qai_bias in
  let! acc := for_ (Z.to_nat lim) 0 (interact lim x) acc in
  fill_result (i32 (Z.quot acc QAI_FP_SCALE)) qai_qai_threshold QAI_MODEL_QAI.

(** [buf[i] ^= qai_prot_key[i % QAI_PROT_KEY_LEN]] *)
Definition xor_step (i : Z) (b : list Z) : M S (list Z) :=
  let! bi := idx b i in
  let! ki := idx qai_prot_key (i mod QAI_PROT_KEY_LEN) in
  set_idx b i (Z.lxor bi ki).

Definition qai_xor_crypt (buf : list Z) (len : Z) : M S (list Z) :=
  for_ (Z.to_nat len) 0 xor_step buf.

(** ** hai_infer.c *)

Definition HAI_S : Z := QAI_FP_SCALE.

Definition hai_tinyml_one (x : list Z) : M S Z :=
  let! acc := sint 64 (hai_tinyml_bias * HAI_S) in
  let! acc := for_ (Z.to_nat QAI_HAI_FEAT) 0 (mac 64 hai_tinyml_w x) acc in
  ret (if acc >? 0 then 1 else 0).

Definition hai_interact (x : list Z) (i acc : Z) : M S Z :=
  let j := u32 (i + 1) mod QAI_HAI_FEAT in
  let! xi := idx x i in
  let! xj := idx x j in
  let! prod := sint 64 (xi * xj) in
  let! g := idx hai_pairwise_fake_gamma i in
  let! gp := sint 64 (g * prod) in
  sint 64 (acc + Z.quot gp HAI_S).

Definition hai_pairwise_fake_one (x : list Z) : M S Z :=
  let! acc := sint 64 (hai_pairwise_fake_bias * HAI_S) in
  let! acc := for_ (Z.to_nat QAI_HAI_FEAT) 0 (mac 64 hai_pairwise_fake_theta x) acc in
  let! acc := for_ (Z.to_nat QAI_HAI_FEAT) 0 (hai_interact x) acc in
  ret (if acc >? 0 then 1 else 0).

(** TEE_Time *)
Record TEE_Time := mk_TEE_Time { seconds : Z; millis : Z }.

(** The elapsed time in milliseconds; the same statements close hai_infer.c's [qai_hai_infer] and
    are fidelity_kernel.c's [delta_ms]. *)
Definition delta_ms (t0 t1 : TEE_Time) : M S Z :=
  let sec := u32 (seconds t1 - seconds t0) in
  let! ms := sint 32 (i32 (millis t1) - i32 (millis t0)) in
  if ms <? 0
  then let! ms' := sint 32 (ms + 1000) in ret (u32 (u32 (u32 (sec - 1) * 1000) + u32 ms'))
  else ret (u32 (u32 (sec * 1000) + u32 ms)).

(** [rows] is the [int32_t] array behind the header of the input, [pred0] what the caller's stack
    array [pred] holds on entry, [t0] and [t1] the two readings of the system time. *)
Definition qai_hai_infer (t0 t1 : TEE_Time) (model : Z) (rows : list Z) (n reps : Z)
    (pred0 : list Z) : M S (list Z * Z) :=
  do! guard_err ((n =? 0) || (n >? QAI_HAI_MAX_ROWS) || (reps =? 0)) TEE_ERROR_BAD_PARAMETERS in
  do! guard_err (negb (model =? QAI_HAI_MODEL_TINYML) &&
                 negb (model =? QAI_HAI_MODEL_PAIRWISE_FAKE)) TEE_ERROR_BAD_PARAMETERS in
  let! pred := for_ (Z.to_nat reps) 0 (fun _ pred =>
    for_ (Z.to_nat n) 0 (fun i pred =>
      let x := drop (Z.to_nat (i * QAI_HAI_FEAT)) rows in
      let! v := (if model =? QAI_HAI_MODEL_TINYML
                 then hai_tinyml_one x else hai_pairwise_fake_one x) in
      set_idx pred i v) pred) pred0 in
  let! ms := delta_ms t0 t1 in
  ret (pred, ms).

End Inference.

(** The documented demo of the baseline model: features [10; 20; -5; 3] score 28. *)
Example baseline_demo :
  qai_infer_baseline ([10; 20; -5; 3] ++ replicate 12 0) 4 tt
  = (Ret (mk_qai_output 1 28 28 QAI_MODEL_BASELINE), tt).
Proof. reflexivity. Qed.

(** ** Reference definitions

    The scores as exact integers, and the ranges the bounds are stated with. *)

Definition sumZ (l : list Z) : Z := foldr Z.add 0 l.
Definition dotZ (ws xs : list Z) : Z := sumZ (zip_with Z.mul ws xs).
Definition sabs (ws : list Z) : Z := sumZ (Z.abs <$> ws).
Definition within (B : Z) (xs : list Z) : Prop := Forall (fun x => Z.abs x <= B) xs.

(** [x_i * x_{(i+1) mod lim}] for [i < lim]. *)
Definition ring_products (lim : nat) (x : list Z) : list Z :=
  (fun i => x !!! i * x !!! ((i + 1) mod lim)%nat) <$> seq 0 lim.

Definition verdict (sc mid : Z) : qai_output :=
  mk_qai_output (if sc >? 0 then 1 else 0) (Z.abs sc) sc mid.

Lemma sumZ_app l k : sumZ (l ++ k) = sumZ l + sumZ k.
Proof. unfold sumZ. induction l; simpl; lia. Qed.

Lemma sumZ_abs_le l : Z.abs (sumZ l) <= sabs l.
Proof. unfold sabs, sumZ. induction l; csimpl; lia. Qed.

Lemma sabs_nonneg l : 0 <= sabs l.
Proof. pose proof (sumZ_abs_le l). lia. Qed.

Lemma sabs_take l i : sabs (take i l) <= sabs l.
Proof.
  rewrite <- (take_drop i l) at 2. unfold sabs. rewrite fmap_app, sumZ_app.
  pose proof (sabs_nonneg (drop i l)). unfold sabs in *. lia.
Qed.

Lemma dotZ_snoc ws xs w x :
  length ws = length xs -> dotZ (ws ++ [w]) (xs ++ [x]) = dotZ ws xs + w * x.
Proof. intros H. unfold dotZ. rewrite zip_with_app by done. rewrite sumZ_app. simpl. lia. Qed.

Lemma dotZ_le ws xs B : within B xs -> 0 <= B -> Z.abs (dotZ ws xs) <= sabs ws * B.
Proof.
  intros H HB. revert ws. induction H as [|x xs Hx _ IH]; intros [|w ws];
    unfold dotZ, sabs, sumZ in *; csimpl; try nia.
  - pose proof (sabs_nonneg ws). unfold sabs, sumZ in *. nia.
  - specialize (IH ws). nia.
Qed.

Lemma within_take B xs i : within B xs -> within B (take i xs).
Proof. apply Forall_take. Qed.

Lemma within_lookup B xs i x : within B xs -> xs !! i = Some x -> Z.abs x <= B.
Proof. intros H Hi. by apply (Forall_lookup_1 _ _ _ _ H Hi). Qed.

(** The accumulation loops compute the exact dot product when the sum of the absolute weights
    times the feature bound fits the accumulator. *)
Lemma mac_loop {S} (s : S) w ws x B k a :
  0 < w -> 0 <= B -> within B x -> (k <= length ws)%nat -> (k <= length x)%nat ->
  Z.abs a + sabs ws * B < 2 ^ (w - 1) ->
  for_ k 0 (mac w ws x) a s = (Ret (a + dotZ (take k ws) (take k x)), s).
Proof.
  intros Hw HB Hx Hkw Hkx Hb.
  destruct (for_inv (fun i acc => acc = a + dotZ (take (Z.to_nat i) ws) (take (Z.to_nat i) x))
              (mac w ws x) k 0 a s) as (a' & E & ->).
  - intros j acc Hj ->.
    destruct (lookup_lt_is_Some_2 ws (Z.to_nat j)) as [wj Ew]; [lia|].
    destruct (lookup_lt_is_Some_2 x (Z.to_nat j)) as [xj Ex]; [lia|].
    assert (take (Datatypes.S (Z.to_nat j)) ws = take (Z.to_nat j) ws ++ [wj]) as Tw
      by (by apply take_S_r).
    assert (take (Datatypes.S (Z.to_nat j)) x = take (Z.to_nat j) x ++ [xj]) as Tx
      by (by apply take_S_r).
    set (d := dotZ (take (Z.to_nat j) ws) (take (Z.to_nat j) x)).
    assert (dotZ (take (Datatypes.S (Z.to_nat j)) ws) (take (Datatypes.S (Z.to_nat j)) x)
            = d + wj * xj) as D.
    { rewrite Tw, Tx. apply dotZ_snoc. rewrite !length_take. lia. }
    pose proof (dotZ_le (take (Datatypes.S (Z.to_nat j)) ws)
                  (take (Datatypes.S (Z.to_nat j)) x) B (within_take _ _ _ Hx) HB) as L.
    pose proof (sabs_take ws (Datatypes.S (Z.to_nat j))) as T1.
    assert (Z.abs (wj * xj) <= sabs ws * B) as L2.
    { pose proof (within_lookup _ _ _ _ Hx Ex).
      assert (Z.abs wj <= sabs (take (Datatypes.S (Z.to_nat j)) ws)).
      { rewrite Tw. unfold sabs. rewrite fmap_app, sumZ_app. simpl.
        pose proof (sabs_nonneg (take (Z.to_nat j) ws)). unfold sabs in *. lia. }
      rewrite Z.abs_mul. nia. }
    exists (a + (d + wj * xj)). split.
    + unfold mac, bind. rewrite (idx_in ws j wj), (idx_in x j xj) by (lia || done).
      rewrite sint_in by (unfold is_s; lia). fold d.
      rewrite sint_in by (unfold is_s; nia). f_equal. f_equal. lia.
    + rewrite <- D. f_equal. f_equal; f_equal; lia.
  - simpl. rewrite !take_0. unfold dotZ. simpl. lia.
  - rewrite E. by rewrite Z.add_0_l, Nat2Z.id.
Qed.

Lemma abs_i32_ok {S} (s : S) v : is_s 32 v -> v <> - 2 ^ 31 -> abs_i32 v s = (Ret (Z.abs v), s).
Proof.
  intros Hv Hm. unfold abs_i32. destruct (v <? 0) eqn:E; bool_hyps.
  - rewrite sint_in by (unfold is_s in *; simpl in *; lia). by rewrite Z.abs_neq by lia.
  - by rewrite Z.abs_eq by lia.
Qed.

Lemma fill_result_ok {S} (s : S) sc mid :
  is_s 32 sc -> sc <> - 2 ^ 31 -> fill_result sc 0 mid s = (Ret (verdict sc mid), s).
Proof. intros H1 H2. unfold fill_result, bind. by rewrite abs_i32_ok. Qed.

Lemma feature_lim_range n : 0 < n -> 0 < feature_lim n <= 4 /\ feature_lim n <= n.
Proof.
  intros Hn. unfold feature_lim, QAI_FEATURE_COUNT. destruct (n <? 4) eqn:E; bool_hyps; lia.
Qed.

(** A loop that adds one bounded term per iteration computes the exact sum of the terms. *)
Lemma acc_loop {S} (s : S) (body : Z -> Z -> M S Z) (t : Z -> Z) T k a :
  (forall i acc, 0 <= i < Z.of_nat k -> Z.abs acc <= Z.abs a + i * T ->
     body i acc s = (Ret (acc + t i), s) /\ Z.abs (t i) <= T) ->
  for_ k 0 body a s = (Ret (a + sumZ (t <$> seqZ 0 (Z.of_nat k))), s) /\
  Z.abs (sumZ (t <$> seqZ 0 (Z.of_nat k))) <= Z.of_nat k * T.
Proof.
  intros Hb.
  destruct (for_inv (fun i acc => acc = a + sumZ (t <$> seqZ 0 i) /\
                                  Z.abs (sumZ (t <$> seqZ 0 i)) <= i * T)
              body k 0 a s) as (a' & E & -> & L).
  - intros j acc Hj [-> L]. destruct (Hb j (a + sumZ (t <$> seqZ 0 j))) as [E Ht]; [lia..|].
    exists (a + sumZ (t <$> seqZ 0 j) + t j).
    assert (sumZ (t <$> seqZ 0 (j + 1)) = sumZ (t <$> seqZ 0 j) + t j) as X.
    { rewrite seqZ_app by lia. rewrite fmap_app, sumZ_app. rewrite Z.add_0_l.
      change (seqZ j 1) with [0 + j]. rewrite Z.add_0_l. simpl. lia. }
    rewrite X. split; [done|]. split; lia.
  - simpl. split; lia.
  - rewrite Z.add_0_l in *. done.
Qed.

Definition interact_term (lim : Z) (x : list Z) (i : Z) : Z :=
  qai_gamma !!! Z.to_nat i * x !!! Z.to_nat i * x !!! Z.to_nat ((i + 1) mod lim).

Definition hai_term (x : list Z) (i : Z) : Z :=
  Z.quot (hai_pairwise_fake_gamma !!! Z.to_nat i *
          (x !!! Z.to_nat i * x !!! Z.to_nat ((i + 1) mod 16))) 1000.

Lemma idx_total {S} (s : S) (l : list Z) i :
  0 <= i < lenZ l -> idx l i s = (Ret (l !!! Z.to_nat i), s).
Proof.
  intros Hi. apply idx_in; [lia|]. apply list_lookup_lookup_total_lt. unfold lenZ in Hi. lia.
Qed.

Lemma within_total B x i : within B x -> 1 <= B -> Z.abs (x !!! i) <= B.
Proof.
  intros H HB. destruct (x !! i) eqn:E.
  - rewrite (list_lookup_total_correct _ _ _ E). by eapply within_lookup.
  - rewrite list_lookup_total_alt, E. simpl. lia.
Qed.

Lemma ring_index i lim : 0 <= i < lim -> lim <= 16 -> u32 (i + 1) = i + 1 /\ 0 <= (i + 1) mod lim < lim.
Proof.
  intros. split; [apply uwrap_small; unfold is_u; lia | apply Z.mod_pos_bound; lia].
Qed.

Lemma abs_mul_le a b A B : Z.abs a <= A -> Z.abs b <= B -> Z.abs (a * b) <= A * B.
Proof. intros. rewrite Z.abs_mul. nia. Qed.

Lemma abs_quot_le a b : 0 < b -> Z.abs (Z.quot a b) <= Z.abs a / b.
Proof.
  intros. rewrite <- Z.quot_abs by lia. rewrite (Z.abs_eq b) by lia.
  rewrite Z.quot_div_nonneg by lia. lia.
Qed.

Lemma quot_bound a b c : 0 < b -> Z.abs a < b * c -> Z.abs (Z.quot a b) < c.
Proof.
  intros Hb Ha. pose proof (abs_quot_le a b Hb).
  assert (Z.abs a / b < c) by (apply Z.div_lt_upper_bound; lia). lia.
Qed.

Lemma interact_loop {S} (s : S) lim x a :
  0 < lim <= 4 -> lim <= lenZ x -> within (2 ^ 18) x -> Z.abs a <= 2 ^ 40 ->
  for_ (Z.to_nat lim) 0 (interact lim x) a s
    = (Ret (a + sumZ (interact_term lim x <$> seqZ 0 lim)), s) /\
  Z.abs (sumZ (interact_term lim x <$> seqZ 0 lim)) <= lim * (5 * 2 ^ 36).
Proof.
  intros Hl Hx Hw Ha.
  pose proof (acc_loop s (interact lim x) (interact_term lim x) (5 * 2 ^ 36) (Z.to_nat lim) a) as L.
  rewrite Z2Nat.id in L by lia. apply L. intros i acc Hi Hacc.
  destruct (ring_index i lim) as [Hu Hj]; [lia..|].
  assert (Z.abs (qai_gamma !!! Z.to_nat i) <= 5) as Hg.
  { apply (within_total 5); [|lia]. by repeat constructor. }
  pose proof (within_total _ _ (Z.to_nat i) Hw ltac:(lia)) as Hxi.
  pose proof (within_total _ _ (Z.to_nat ((i + 1) mod lim)) Hw ltac:(lia)) as Hxj.
  pose proof (abs_mul_le _ _ _ _ Hg Hxi) as P1.
  pose proof (abs_mul_le _ _ _ _ P1 Hxj) as P2.
  assert (i * (5 * 2 ^ 36) <= 4 * (5 * 2 ^ 36)) by nia.
  split; [|unfold interact_term; lia].
  unfold interact, bind. rewrite Hu.
  rewrite !idx_total by (lia || (change (lenZ qai_gamma) with 4; lia)).
  rewrite sint_in by (unfold is_s; lia). rewrite sint_in by (unfold is_s; lia).
  by rewrite sint_in by (unfold is_s; lia).
Qed.

Lemma hai_interact_loop {S} (s : S) x a :
  lenZ x >= 16 -> within 90000000 x -> Z.abs a <= 2 ^ 60 ->
  for_ (Z.to_nat QAI_HAI_FEAT) 0 (hai_interact x) a s
    = (Ret (a + sumZ (hai_term x <$> seqZ 0 16)), s).
Proof.
  intros Hx Hw Ha. apply (acc_loop s (hai_interact x) (hai_term x) 8407800000000000 16 a).
  intros i acc Hi Hacc.
  destruct (ring_index i 16) as [Hu Hj]; [lia..|].
  assert (Z.abs (hai_pairwise_fake_gamma !!! Z.to_nat i) <= 1038) as Hg.
  { apply (within_total 1038); [|lia]. by repeat constructor. }
  pose proof (within_total _ _ (Z.to_nat i) Hw ltac:(lia)) as Hxi.
  pose proof (within_total _ _ (Z.to_nat ((i + 1) mod 16)) Hw ltac:(lia)) as Hxj.
  pose proof (abs_mul_le _ _ _ _ Hxi Hxj) as P1.
  pose proof (abs_mul_le _ _ _ _ Hg P1) as P2.
  assert (Z.abs (hai_term x i) < 8407800000000001) by (apply quot_bound; lia).
  split; [|lia].
  unfold hai_interact, bind. change QAI_HAI_FEAT with 16. rewrite Hu.
  rewrite !idx_total by lia.
  rewrite sint_in by (unfold is_s; lia).
  rewrite idx_total by (change (lenZ hai_pairwise_fake_gamma) with 16; lia).
  rewrite sint_in by (unfold is_s; lia). change HAI_S with 1000. fold (hai_term x i).
  by rewrite sint_in by (unfold is_s; lia).
Qed.

Lemma dot_ones lim x : (lim <= 4)%nat -> dotZ (take lim qai_baseline_w) (take lim x) = sumZ (take lim x).
Proof.
  intros H. unfold qai_baseline_w.
  do 5 (destruct lim as [|lim]; [destruct x as [|? [|? [|? [|? ?]]]];
    unfold dotZ, sumZ; simpl; rewrite ?take_0; simpl; lia|]). lia.
Qed.

(** Discharges the side conditions of [mac_loop]; [W] gives the sum of the absolute weights. *)
Ltac mac_side W :=
  first [ done | rewrite W; reflexivity
        | unfold lenZ in *; try change (Z.to_nat QAI_HAI_FEAT) with 16%nat; simpl; lia ].

(** ** Theorems *)

(** The baseline model. On every feature vector whose entries are below 2^29 in absolute value
    the 32-bit accumulator never overflows: the run is defined and returns the sum of the first
    [min(n, 4)] features, its sign as the prediction and its absolute value as the confidence. *)
Lemma qai_infer_baseline_exact {S} (s : S) x n
    (Hn : 0 < n) (Hx : lenZ x >= 16) (Hb : within (2 ^ 29 - 1) x) :
  qai_infer_baseline x n s
  = (Ret (verdict (sumZ (take (Z.to_nat (feature_lim n)) x)) QAI_MODEL_BASELINE), s).
Proof.
  pose proof (feature_lim_range n Hn) as [Hl _]. unfold lenZ in Hx.
  assert (sabs qai_baseline_w = 4) as W by reflexivity.
  unfold qai_infer_baseline, bind.
  rewrite (mac_loop s 32 _ x (2 ^ 29 - 1))
    by mac_side W.
  rewrite dot_ones by lia. change qai_baseline_bias with 0. rewrite Z.add_0_l.
  pose proof (dotZ_le (take (Z.to_nat (feature_lim n)) qai_baseline_w)
    (take (Z.to_nat (feature_lim n)) x) _ (within_take _ _ _ Hb) ltac:(lia)) as L.
  rewrite dot_ones in L by lia.
  pose proof (sabs_take qai_baseline_w (Z.to_nat (feature_lim n))).
  change qai_baseline_threshold with 0. apply fill_result_ok; unfold is_s; lia.
Qed.

(** The TinyML model. For features up to 2^30 in absolute value the milli-unit accumulator and
    its conversion to 32 bits are exact: the score is the weighted sum plus bias, divided by the
    fixed-point scale and truncated towards zero. *)
Lemma qai_infer_tinyml_exact {S} (s : S) x n
    (Hn : 0 < n) (Hx : lenZ x >= 16) (Hb : within (2 ^ 30) x) :
  let lim := Z.to_nat (feature_lim n) in
  qai_infer_tinyml x n s
  = (Ret (verdict (Z.quot (qai_tinyml_bias + dotZ (take lim qai_tinyml_w) (take lim x)) QAI_FP_SCALE)
            QAI_MODEL_TINYML), s).
Proof.
  intros lim. pose proof (feature_lim_range n Hn) as [Hl _]. unfold lenZ in Hx.
  assert (sabs qai_tinyml_w = 1748) as W by reflexivity.
  pose proof (dotZ_le (take lim qai_tinyml_w) (take lim x) _ (within_take _ _ _ Hb) ltac:(lia)) as L.
  pose proof (sabs_take qai_tinyml_w lim).
  unfold qai_infer_tinyml, bind. rewrite (mac_loop s 64 _ x (2 ^ 30))
    by mac_side W. fold lim.
  assert (Z.abs (Z.quot (qai_tinyml_bias + dotZ (take lim qai_tinyml_w) (take lim x)) QAI_FP_SCALE)
          < 2 ^ 31) by (apply quot_bound; unfold QAI_FP_SCALE, qai_tinyml_bias; lia).
  rewrite swrap_small by (unfold is_s; lia).
  change qai_tinyml_threshold with 0. apply fill_result_ok; unfold is_s; lia.
Qed.

(** The quantum-inspired model. For features up to 2^18 in absolute value the linear term and
    the ring of pairwise interactions are accumulated without overflow and the 32-bit score is the
    exact scaled sum. *)
Lemma qai_infer_qai_exact {S} (s : S) x n
    (Hn : 0 < n) (Hx : lenZ x >= 16) (Hb : within (2 ^ 18) x) :
  let lim := feature_lim n in
  qai_infer_qai x n s
  = (Ret (verdict (Z.quot (qai_qai_bias + dotZ (take (Z.to_nat lim) qai_theta) (take (Z.to_nat lim) x)
                           + sumZ (interact_term lim x <$> seqZ 0 lim)) QAI_FP_SCALE)
            QAI_MODEL_QAI), s).
Proof.
  intros lim. pose proof (feature_lim_range n Hn) as [Hl _]. fold lim in Hl.
  assert (sabs qai_theta = 356) as W by reflexivity.
  pose proof (dotZ_le (take (Z.to_nat lim) qai_theta) (take (Z.to_nat lim) x) _
    (within_take _ _ _ Hb) ltac:(lia)) as L.
  pose proof (sabs_take qai_theta (Z.to_nat lim)).
  set (a := qai_qai_bias + dotZ (take (Z.to_nat lim) qai_theta) (take (Z.to_nat lim) x)) in *.
  assert (Z.abs a <= 2 ^ 28) by (unfold a, qai_qai_bias; lia).
  destruct (interact_loop s lim x a) as [E L2]; [lia..|done|lia|].
  unfold qai_infer_qai, bind. fold lim. rewrite (mac_loop s 64 _ x (2 ^ 18))
    by mac_side W.
  fold a. rewrite E.
  assert (Z.abs (Z.quot (a + sumZ (interact_term lim x <$> seqZ 0 lim)) QAI_FP_SCALE) < 2 ^ 31)
    by (apply quot_bound; unfold QAI_FP_SCALE; lia).
  rewrite swrap_small by (unfold is_s; lia).
  change qai_qai_threshold with 0. apply fill_result_ok; unfold is_s; lia.
Qed.

(** C32. the three models compute exactly. The score of each is the mathematical value of its
    formula, with no overflow on the way, its sign the prediction and its absolute value the
    confidence: the sum of the first [min(n, 4)] features for the baseline model, when they are below
    2^29 in absolute value; the weighted sum plus bias divided by the fixed-point scale, truncated
    towards zero, for the TinyML model, up to 2^30; and that with the ring of pairwise interactions
    for the quantum-inspired model, up to 2^18. *)
Theorem qai_infer_exact {S} (s : S) x n (Hn : 0 < n) (Hx : lenZ x >= 16) :
  let lim := Z.to_nat (feature_lim n) in
  (within (2 ^ 29 - 1) x -> qai_infer_baseline x n s = (Ret (verdict (sumZ (take lim x)) QAI_MODEL_BASELINE), s)) /\
  (within (2 ^ 30) x -> qai_infer_tinyml x n s =
     (Ret (verdict (Z.quot (qai_tinyml_bias + dotZ (take lim qai_tinyml_w) (take lim x)) QAI_FP_SCALE) QAI_MODEL_TINYML), s)) /\
  (within (2 ^ 18) x -> qai_infer_qai x n s =
     (Ret (verdict (Z.quot (qai_qai_bias + dotZ (take lim qai_theta) (take lim x)
                            + sumZ (interact_term (feature_lim n) x <$> seqZ 0 (feature_lim n))) QAI_FP_SCALE) QAI_MODEL_QAI), s)).
Proof.
  split; [|split]; intros Hb; [by apply qai_infer_baseline_exact | by apply qai_infer_tinyml_exact | by apply qai_infer_qai_exact].
Qed.

Lemma hai_tinyml_one_ok {S} (s : S) x (Hx : lenZ x >= 16) (Hb : Forall (is_s 32) x) :
  hai_tinyml_one x s
  = (Ret (if hai_tinyml_bias * 1000 + dotZ hai_tinyml_w (take 16 x) >? 0 then 1 else 0), s).
Proof.
  assert (within (2 ^ 31) x) as Hw.
  { eapply Forall_impl; [exact Hb|]. unfold is_s. intros. simpl in *. lia. }
  assert (sabs hai_tinyml_w = 8393) as W by reflexivity.
  unfold hai_tinyml_one, bind. change HAI_S with 1000.
  rewrite sint_in by (unfold is_s, hai_tinyml_bias; lia).
  rewrite (mac_loop s 64 _ x (2 ^ 31)) by mac_side W.
  done.
Qed.

Lemma hai_pairwise_fake_one_ok {S} (s : S) x (Hx : lenZ x >= 16) (Hb : within 90000000 x) :
  hai_pairwise_fake_one x s
  = (Ret (if hai_pairwise_fake_bias * 1000 + dotZ hai_pairwise_fake_theta (take 16 x)
             + sumZ (hai_term x <$> seqZ 0 16) >? 0 then 1 else 0), s).
Proof.
  assert (sabs hai_pairwise_fake_theta = 10668) as W by reflexivity.
  unfold hai_pairwise_fake_one, bind. change HAI_S with 1000.
  rewrite sint_in by (unfold is_s, hai_pairwise_fake_bias; lia).
  rewrite (mac_loop s 64 _ x 90000000)
    by mac_side W.
  pose proof (dotZ_le (take (Z.to_nat QAI_HAI_FEAT) hai_pairwise_fake_theta)
    (take (Z.to_nat QAI_HAI_FEAT) x) _ (within_take _ _ _ Hb) ltac:(lia)) as L.
  pose proof (sabs_take hai_pairwise_fake_theta (Z.to_nat QAI_HAI_FEAT)).
  rewrite hai_interact_loop by (done || (unfold hai_pairwise_fake_bias; lia)). done.
Qed.

(** What [qai_hai_infer] labels row [i] with. *)
Definition hai_label (model : Z) (x : list Z) : Z :=
  if model =? QAI_HAI_MODEL_TINYML
  then if hai_tinyml_bias * 1000 + dotZ hai_tinyml_w (take 16 x) >? 0 then 1 else 0
  else if hai_pairwise_fake_bias * 1000 + dotZ hai_pairwise_fake_theta (take 16 x)
          + sumZ (hai_term x <$> seqZ 0 16) >? 0 then 1 else 0.

Definition hai_row (rows : list Z) (i : Z) : list Z := drop (Z.to_nat (i * QAI_HAI_FEAT)) rows.

Lemma set_idx_in {S A} (s : S) (l : list A) i v :
  0 <= i < lenZ l -> set_idx l i v s = (Ret (<[Z.to_nat i := v]> l), s).
Proof.
  intros. unfold set_idx.
  by rewrite (proj2 (Z.leb_le _ _)), (proj2 (Z.ltb_lt _ _)) by lia.
Qed.

(** Storing the [i]-th of a sequence of results extends the written prefix. *)
Lemma insert_prefix {A} (f : Z -> A) (l : list A) i :
  0 <= i < lenZ l ->
  <[Z.to_nat i := f i]> ((f <$> seqZ 0 i) ++ drop (Z.to_nat i) l)
  = (f <$> seqZ 0 (i + 1)) ++ drop (Z.to_nat (i + 1)) l.
Proof.
  intros Hi. unfold lenZ in Hi.
  destruct (lookup_lt_is_Some_2 l (Z.to_nat i)) as [v Ev]; [lia|].
  rewrite (drop_S _ _ _ Ev). rewrite insert_app_r_alt by (rewrite length_fmap, length_seqZ; lia).
  rewrite length_fmap, length_seqZ, Nat.sub_diag. simpl.
  rewrite seqZ_app by lia. rewrite fmap_app, <- app_assoc. f_equal.
  change (seqZ (0 + i) 1) with [0 + (0 + i)]. simpl. rewrite !Z.add_0_l. f_equal. f_equal. lia.
Qed.

Lemma hai_pass {S} (s : S) (one : list Z -> M S Z) (f : list Z -> Z) rows n pred0 :
  0 <= n <= lenZ pred0 ->
  (forall i, 0 <= i < n -> one (hai_row rows i) s = (Ret (f (hai_row rows i)), s)) ->
  for_ (Z.to_nat n) 0 (fun i pred =>
      let! v := one (hai_row rows i) in set_idx pred i v) pred0 s
  = (Ret ((f ∘ hai_row rows <$> seqZ 0 n) ++ drop (Z.to_nat n) pred0), s).
Proof.
  intros Hn Hone.
  destruct (for_inv (fun i p => p = (f ∘ hai_row rows <$> seqZ 0 i) ++ drop (Z.to_nat i) pred0)
    (fun i pred => let! v := one (hai_row rows i) in set_idx pred i v) (Z.to_nat n) 0 pred0 s)
    as (p & E & ->).
  - intros j p Hj ->. eexists. split; [|apply insert_prefix; lia].
    unfold bind. rewrite Hone by lia. rewrite set_idx_in; [done|].
    unfold lenZ in *. rewrite length_app, length_fmap, length_seqZ, length_drop. lia.
  - done.
  - rewrite E. by rewrite Z.add_0_l, Z2Nat.id by lia.
Qed.

Lemma for_fixed {S A} (s : S) (body : Z -> A -> M S A) k i a b :
  (forall j, body j a s = (Ret b, s)) -> (forall j, body j b s = (Ret b, s)) -> (0 < k)%nat ->
  for_ k i body a s = (Ret b, s).
Proof.
  intros Ha Hb Hk. destruct k as [|k]; [lia|]. simpl. unfold bind. rewrite Ha.
  clear Hk Ha. revert i. induction k as [|k IH]; intros i; [done|]. simpl.
  unfold bind. by rewrite Hb.
Qed.

Lemma delta_ms_ok {S} (s : S) t0 t1 :
  0 <= millis t0 < 1000 -> 0 <= millis t1 < 1000 ->
  delta_ms t0 t1 s
  = (Ret (u32 ((seconds t1 - seconds t0) * 1000 + (millis t1 - millis t0))), s).
Proof.
  intros H0 H1. unfold delta_ms, bind.
  rewrite !(swrap_small 32) by (unfold is_s; simpl; lia).
  rewrite sint_in by (unfold is_s; simpl; lia).
  destruct (_ <? 0) eqn:E; bool_hyps; [rewrite sint_in by (unfold is_s; simpl; lia)|];
    unfold ret, uwrap; do 2 f_equal; change (2 ^ 32) with 4294967296;
    Z.div_mod_to_equations; lia.
Qed.

(** HAI inference. For a valid model, 1 to 32 rows that lie inside the input, a non-zero
    repetition count and features the selected model is defined on, the call succeeds: the first
    [n] predictions are the labels of the [n] rows (repetitions change nothing), the rest of the
    prediction array is untouched, and the elapsed time is the difference of the two clock readings
    in milliseconds, modulo 2^32. *)
Theorem qai_hai_infer_labels {S} (s : S) t0 t1 model rows n reps pred0
    (Hn : 0 < n <= 32) (Hr : 0 < reps) (Hm : model = 0 \/ model = 1)
    (Hrows : n * 16 <= lenZ rows) (Hp : lenZ pred0 = 32)
    (Hb : Forall (is_s 32) rows) (Hpw : model = 1 -> within 90000000 rows)
    (Ht0 : 0 <= millis t0 < 1000) (Ht1 : 0 <= millis t1 < 1000) :
  qai_hai_infer t0 t1 model rows n reps pred0 s
  = (Ret ((hai_label model ∘ hai_row rows <$> seqZ 0 n) ++ drop (Z.to_nat n) pred0,
          u32 ((seconds t1 - seconds t0) * 1000 + (millis t1 - millis t0))), s).
Proof.
  unfold qai_hai_infer, QAI_HAI_MAX_ROWS, QAI_HAI_MODEL_TINYML, QAI_HAI_MODEL_PAIRWISE_FAKE.
  rewrite (proj2 (Z.eqb_neq n 0)), (proj2 (Z.eqb_neq reps 0)) by lia.
  destruct (n >? 32) eqn:E; [lia|]. simpl orb. unfold guard_err at 1. rewrite bind_ret_l.
  assert (negb (model =? 0) && negb (model =? 1) = false) as -> by (destruct Hm; subst; done).
  unfold guard_err. rewrite bind_ret_l.
  assert (forall i, 0 <= i < n -> lenZ (hai_row rows i) >= 16) as Hlen.
  { intros i Hi. unfold hai_row, lenZ, QAI_HAI_FEAT in *. rewrite length_drop. lia. }
  assert (forall i, 0 <= i < n ->
    (if model =? 0 then hai_tinyml_one (hai_row rows i) else hai_pairwise_fake_one (hai_row rows i)) s
    = (Ret (hai_label model (hai_row rows i)), s)) as Hone.
  { intros i Hi. unfold hai_label. destruct Hm; subst; simpl Z.eqb; cbv iota.
    - apply hai_tinyml_one_ok; [by apply Hlen | by apply Forall_drop].
    - apply hai_pairwise_fake_one_ok; [by apply Hlen | by apply Forall_drop, Hpw]. }
  set (out := (hai_label model ∘ hai_row rows <$> seqZ 0 n) ++ drop (Z.to_nat n) pred0).
  assert (lenZ out = 32) as Hout.
  { unfold out, lenZ in *. rewrite length_app, length_fmap, length_seqZ, length_drop. lia. }
  assert (drop (Z.to_nat n) out = drop (Z.to_nat n) pred0) as Hd.
  { unfold out. apply drop_app_length'. rewrite length_fmap, length_seqZ. lia. }
  unfold bind at 1. rewrite (for_fixed s _ _ _ pred0 out); [| | |lia].
  - unfold bind. by rewrite delta_ms_ok.
  - intros _. apply (hai_pass s (fun x => if model =? 0 then hai_tinyml_one x
      else hai_pairwise_fake_one x) (hai_label model)); [lia | done].
  - intros _. unfold out at 2. rewrite <- Hd.
    apply (hai_pass s (fun x => if model =? 0 then hai_tinyml_one x
      else hai_pairwise_fake_one x) (hai_label model)); [lia | done].
Qed.

(** The key stream applied to the first [len] bytes of a buffer. *)
Definition xor_prefix (len : nat) (buf : list Z) : list Z :=
  imap (fun i b => if decide (i < len)%nat then Z.lxor b (qai_prot_key !!! (i mod 16)%nat) else b) buf.

Lemma lookup_xor_prefix len buf i :
  xor_prefix len buf !! i
  = (fun b => if decide (i < len)%nat then Z.lxor b (qai_prot_key !!! (i mod 16)%nat) else b)
      <$> buf !! i.
Proof. apply list_lookup_imap. Qed.

Lemma qai_xor_crypt_ok {S} (s : S) buf len :
  0 <= len <= lenZ buf -> qai_xor_crypt buf len s = (Ret (xor_prefix (Z.to_nat len) buf), s).
Proof.
  intros Hlen. unfold qai_xor_crypt.
  destruct (for_inv (fun i b => b = xor_prefix (Z.to_nat i) buf) xor_step (Z.to_nat len) 0 buf s)
    as (b & E & ->); [| |rewrite E; rewrite Z.add_0_l, Z2Nat.id by lia; done].
  - intros j b Hj ->. unfold lenZ in Hlen.
    destruct (lookup_lt_is_Some_2 buf (Z.to_nat j)) as [v Ev]; [lia|].
    eexists. split.
    + unfold xor_step, bind. rewrite (idx_in _ j v); [|lia|].
      2: { rewrite lookup_xor_prefix, Ev. simpl. by rewrite decide_False by lia. }
      rewrite idx_total; [|change (lenZ qai_prot_key) with 16; apply Z.mod_pos_bound; done].
      rewrite set_idx_in; [done|]. unfold lenZ, xor_prefix. rewrite length_imap. lia.
    + change QAI_PROT_KEY_LEN with 16. apply list_eq. intros i. rewrite lookup_xor_prefix.
      destruct (decide (i = Z.to_nat j)) as [->|Hne].
      * rewrite list_lookup_insert_eq by (unfold xor_prefix; rewrite length_imap; lia).
        rewrite Ev. simpl. rewrite decide_True by lia. do 3 f_equal.
        rewrite Z2Nat.inj_mod by lia. done.
      * rewrite list_lookup_insert_ne by done. rewrite lookup_xor_prefix.
        destruct (buf !! i); [|done]. simpl. f_equal.
        destruct (decide (i < Z.to_nat j)%nat), (decide (i < Z.to_nat (j + 1))%nat);
          done || lia.
  - apply list_eq. intros i. rewrite lookup_xor_prefix.
    by destruct (buf !! i).
Qed.

(** The protected path's cipher is its own inverse: encrypting [len] bytes of a buffer and
    decrypting them again gives the buffer back, and bytes after the first [len] never change. *)
Lemma qai_xor_crypt_involutive {S} (s : S) buf len (Hlen : 0 <= len <= lenZ buf) :
  exists c, qai_xor_crypt buf len s = (Ret c, s) /\
    qai_xor_crypt c len s = (Ret buf, s) /\
    drop (Z.to_nat len) c = drop (Z.to_nat len) buf.
Proof.
  exists (xor_prefix (Z.to_nat len) buf). split; [by apply qai_xor_crypt_ok|].
  assert (lenZ (xor_prefix (Z.to_nat len) buf) = lenZ buf) as HL
    by (unfold lenZ, xor_prefix; by rewrite length_imap).
  split.
  - rewrite qai_xor_crypt_ok by lia. do 2 f_equal. apply list_eq. intros i.
    rewrite !lookup_xor_prefix. destruct (buf !! i); [|done]. simpl. f_equal.
    case_decide; [|done]. by rewrite Z.lxor_assoc, Z.lxor_nilpotent, Z.lxor_0_r.
  - apply list_eq. intros i. rewrite !lookup_drop, lookup_xor_prefix.
    destruct (buf !! _); [|done]. simpl. by rewrite decide_False by lia.
Qed.

(** ** Witnesses *)

Lemma qai_infer_exact_witness :
  let x := [10; 20; -5; 3] ++ replicate 12 0 in
  qai_infer_baseline x 4 tt = (Ret (mk_qai_output 1 28 28 QAI_MODEL_BASELINE), tt) /\
  qai_infer_tinyml x 4 tt = (Ret (mk_qai_output 1 22 22 QAI_MODEL_TINYML), tt) /\
  qai_infer_qai x 4 tt = (Ret (mk_qai_output 1 5 5 QAI_MODEL_QAI), tt).
Proof.
  intros x. destruct (qai_infer_exact tt x 4 ltac:(lia) ltac:(done)) as (H1 & H2 & H3).
  split; [|split]; [apply H1 | apply H2 | apply H3]; repeat constructor; done.
Defined.

Lemma qai_hai_infer_witness :
  qai_hai_infer (mk_TEE_Time 5 900) (mk_TEE_Time 7 100) 1 (replicate 32 1000) 2 3 (replicate 32 9) tt
  = (Ret ([1; 1] ++ replicate 30 9, 1200), tt).
Proof.
  apply (qai_hai_infer_labels tt (mk_TEE_Time 5 900) (mk_TEE_Time 7 100) 1 (replicate 32 1000) 2 3
    (replicate 32 9)); try done; try lia; [repeat constructor; done |
    intros _; repeat constructor; done].
Defined.
