(* ===== verification/QaiKernel.v ===== *)
(** * The fidelity kernel of the QAI trusted application

    optee_examples/qai_ta/ta/fidelity_kernel.c. The state-vector simulator keeps its amplitudes in
    static arrays; [kstate] is that static data. Arithmetic on [double] is the interface [Num]: the
    definitions are the code's statements over any implementation of it, and the theorems about
    array accesses need nothing else. The theorems that compare a circuit with its inverse are
    stated for arithmetic that satisfies the ring laws of [NumLaws] (exact arithmetic; rounding is
    not modelled). They are in QaiFidelity.v. *)
From S2P Require Import Prelude QaiModel.
Local Open Scope Z_scope.

(** ** Floating-point interface *)

Class Num (F : Type) := {
  f_lit : Z -> Z -> F;          (* the value of a literal [num/den] *)
  fadd : F -> F -> F;
  fsub : F -> F -> F;
  fmul : F -> F -> F;
  fdiv : F -> F -> F;
  fneg : F -> F;
  flt : F -> F -> bool;
  f32_load : Z -> F;            (* (double) of the float with these bits *)
  f32_store : F -> Z;           (* the bits of the conversion to float *)
  f_to_i64 : F -> Z;            (* (int64_t) conversion *)
}.

Declare Scope num_scope.
Delimit Scope num_scope with num.
Notation "a ⊕ b" := (fadd a b) (at level 50, left associativity) : num_scope.
Notation "a ⊖ b" := (fsub a b) (at level 50, left associativity) : num_scope.
Notation "a ⊗ b" := (fmul a b) (at level 40, left associativity) : num_scope.
Notation "a ⊘ b" := (fdiv a b) (at level 40, left associativity) : num_scope.
Open Scope num_scope.

(** ** Constants *)

Definition QAI_NQ_8 : Z := 8.
Definition QAI_DIM_8 : Z := 256.
Definition QAI_NQ_MAX : Z := 16.
Definition QAI_DIM_MAX : Z := Z.shiftl 1 QAI_NQ_MAX.
Definition QAI_NFEAT_8 : Z := 16.
Definition QAI_REPS : Z := 3.
Definition QAI_KERNEL_FEAT_MAX : Z := 32.
Definition QAI_KERNEL_MAX_PAIRS : Z := 32.

Section Kernel.
Context {F : Type} `{!Num F}.

Definition f0 : F := f_lit 0 1.
Definition f1 : F := f_lit 1 1.
Definition f_of_Z (z : Z) : F := f_lit z 1.
Definition QAI_PI : F := f_lit 314159265358979323846 (10 ^ 20).
Definition f_half : F := f_lit 5 10.

(** ** Static data *)

Record kstate := mk_kstate {
  psi_re : list F;
  psi_im : list F;
  tmp_re : list F;
  tmp_im : list F;
  kern_nq : Z;
  kern_dim : Z;
  rng_state : Z;
}.

Definition kstate_init : kstate :=
  mk_kstate (replicate (Z.to_nat QAI_DIM_MAX) f0) (replicate (Z.to_nat QAI_DIM_MAX) f0)
    (replicate (Z.to_nat (QAI_DIM_MAX / 2)) f0) (replicate (Z.to_nat (QAI_DIM_MAX / 2)) f0)
    QAI_NQ_8 QAI_DIM_8 240904935.

Abbreviation K := (M kstate).

Definition kernel_select (nq : Z) : K unit :=
  modify (fun st => mk_kstate (psi_re st) (psi_im st) (tmp_re st) (tmp_im st) nq
                      (u32 (Z.shiftl 1 nq)) (rng_state st)).

(** [psi_re[i]], [psi_im[i]] *)
Definition psi_at (i : Z) : K (F * F) :=
  let! st := get in
  let! re := idx (psi_re st) i in
  let! im := idx (psi_im st) i in
  ret (re, im).

Definition set_psi (i : Z) (c : F * F) : K unit :=
  let! st := get in
  let! re := set_idx (psi_re st) i c.1 in
  let! im := set_idx (psi_im st) i c.2 in
  put (mk_kstate re im (tmp_re st) (tmp_im st) (kern_nq st) (kern_dim st) (rng_state st)).

Definition tmp_at (i : Z) : K (F * F) :=
  let! st := get in
  let! re := idx (tmp_re st) i in
  let! im := idx (tmp_im st) i in
  ret (re, im).

Definition set_tmp (i : Z) (c : F * F) : K unit :=
  let! st := get in
  let! re := set_idx (tmp_re st) i c.1 in
  let! im := set_idx (tmp_im st) i c.2 in
  put (mk_kstate (psi_re st) (psi_im st) re im (kern_nq st) (kern_dim st) (rng_state st)).

(** ** Elementary functions *)

Definition k_sin (x : F) : F :=
  let neg := flt x f0 in
  let x := if neg then fneg x else x in
  let x := if flt QAI_PI x then (f_of_Z 2 ⊗ QAI_PI) ⊖ x else x in
  let x := if flt (QAI_PI ⊗ f_half) x then QAI_PI ⊖ x else x in
  let x2 := x ⊗ x in
  let s := x ⊗ (f1
    ⊕ x2 ⊗ ((f_of_Z (-1)) ⊘ f_of_Z 6
    ⊕ x2 ⊗ (f1 ⊘ f_of_Z 120
    ⊕ x2 ⊗ ((f_of_Z (-1)) ⊘ f_of_Z 5040
    ⊕ x2 ⊗ (f1 ⊘ f_of_Z 362880
    ⊕ x2 ⊗ ((f_of_Z (-1)) ⊘ f_of_Z 39916800
    ⊕ x2 ⊗ (f1 ⊘ f_of_Z 6227020800
    ⊕ x2 ⊗ ((f_of_Z (-1)) ⊘ f_of_Z 1307674368000)))))))) in
  if neg then fneg s else s.

Definition k_cos (x : F) : F :=
  let ax := if flt x f0 then fneg x else x in
  if flt (QAI_PI ⊗ f_half) ax then fneg (k_sin (ax ⊖ (QAI_PI ⊗ f_half))) else
  let x2 := ax ⊗ ax in
  f1
    ⊕ x2 ⊗ ((fneg f_half)
    ⊕ x2 ⊗ (f1 ⊘ f_of_Z 24
    ⊕ x2 ⊗ ((f_of_Z (-1)) ⊘ f_of_Z 720
    ⊕ x2 ⊗ (f1 ⊘ f_of_Z 40320
    ⊕ x2 ⊗ ((f_of_Z (-1)) ⊘ f_of_Z 3628800
    ⊕ x2 ⊗ (f1 ⊘ f_of_Z 479001600
    ⊕ x2 ⊗ ((f_of_Z (-1)) ⊘ f_of_Z 87178291200))))))).

Definition k_exp_unit (p : F) : F :=
  (foldl (fun '(term, sum) k => let term := term ⊗ (p ⊘ f_of_Z k) in (term, sum ⊕ term))
     (f1, f1) (seqZ 1 16)).2.

(** ** Gates *)

(** A 2x2 complex matrix, in the order of [apply_1q]'s arguments. *)
Record gate1 := mk_gate { g00 : F * F; g01 : F * F; g10 : F * F; g11 : F * F }.

(** [g0 * a + g1 * b] on (re, im) pairs, with the additions in the code's order. *)
Definition row (g0 g1 a b : F * F) : F * F :=
  (g0.1 ⊗ a.1 ⊖ g0.2 ⊗ a.2 ⊕ g1.1 ⊗ b.1 ⊖ g1.2 ⊗ b.2,
   g0.1 ⊗ a.2 ⊕ g0.2 ⊗ a.1 ⊕ g1.1 ⊗ b.2 ⊕ g1.2 ⊗ b.1).

(** First pass: save amplitude [i] and overwrite it by its partner's. *)
Definition stash (bit i n0 : Z) : K Z :=
  if negb (Z.land i bit =? 0) then ret n0 else
  let j := Z.lor i bit in
  let! a := psi_at i in
  do! set_tmp n0 a in
  let! b := psi_at j in
  do! set_psi i b in
  ret (n0 + 1).

(** Second pass: combine the saved amplitude with its partner's. *)
Definition combine_pair (g : gate1) (bit i n0 : Z) : K Z :=
  if negb (Z.land i bit =? 0) then ret n0 else
  let j := Z.lor i bit in
  let! a := tmp_at n0 in
  let! b := psi_at i in
  do! set_psi i (row (g00 g) (g01 g) a b) in
  do! set_psi j (row (g10 g) (g11 g) a b) in
  ret (n0 + 1).

Definition apply_1q (q : Z) (g : gate1) : K unit :=
  let bit := Z.shiftl 1 q in
  let! st := get in
  do! for_ (Z.to_nat (kern_dim st)) 0 (stash bit) 0 in
  do! for_ (Z.to_nat (kern_dim st)) 0 (combine_pair g bit) 0 in
  ret tt.

Definition ry_gate (theta : F) : gate1 :=
  let c := k_cos (theta ⊗ f_half) in
  let s := k_sin (theta ⊗ f_half) in
  mk_gate (c, f0) (fneg s, f0) (s, f0) (c, f0).

Definition apply_ry (q : Z) (theta : F) : K unit := apply_1q q (ry_gate theta).

Definition rz_gate (phi : F) : gate1 :=
  let a := phi ⊗ f_half in
  let c := k_cos a in
  let s := k_sin a in
  mk_gate (c, fneg s) (f0, f0) (f0, f0) (c, s).

Definition apply_rz (q : Z) (phi : F) : K unit := apply_1q q (rz_gate phi).

Definition cnot_step (cbit tbit i : Z) (_ : unit) : K unit :=
  if (Z.land i cbit =? 0) || negb (Z.land i tbit =? 0) then ret tt else
  let j := Z.lor i tbit in
  let! a := psi_at i in
  let! b := psi_at j in
  do! set_psi i b in
  set_psi j a.

Definition cnot_pair (ctrl tgt : Z) : K unit :=
  let! st := get in
  for_ (Z.to_nat (kern_dim st)) 0 (cnot_step (Z.shiftl 1 ctrl) (Z.shiftl 1 tgt)) tt.

(** [for (q = 0; q < nq; q++) f(q)] and [for (q = nq - 1; q >= 0; q--) f(q)] *)
Definition each_up (nq : Z) (f : Z -> K unit) : K unit :=
  for_ (Z.to_nat nq) 0 (fun q _ => f q) tt.
Definition each_down (nq : Z) (f : Z -> K unit) : K unit :=
  for_ (Z.to_nat nq) 0 (fun t _ => f (nq - 1 - t)) tt.

Definition cnot_ring (reverse : bool) : K unit :=
  let! st := get in
  let nq := kern_nq st in
  if negb reverse
  then each_up nq (fun q => cnot_pair q ((q + 1) mod nq))
  else each_down nq (fun q => cnot_pair q ((q + 1) mod nq)).

Definition rot_fwd (x : list F) (q : Z) : K unit :=
  let! th := idx x (2 * q) in
  do! apply_ry q th in
  let! ph := idx x (2 * q + 1) in
  apply_rz q ph.

Definition rot_inv (y : list F) (q : Z) : K unit :=
  let! ph := idx y (2 * q + 1) in
  do! apply_rz q (fneg ph) in
  let! th := idx y (2 * q) in
  apply_ry q (fneg th).

Definition layer_fwd (x : list F) : K unit :=
  let! st := get in
  do! each_up (kern_nq st) (rot_fwd x) in
  do! cnot_ring false in
  each_up (kern_nq st) (rot_fwd x).

Definition layer_inv (y : list F) : K unit :=
  let! st := get in
  do! each_down (kern_nq st) (rot_inv y) in
  do! cnot_ring true in
  each_down (kern_nq st) (rot_inv y).

Definition reset_psi : K unit :=
  let! st := get in
  do! for_ (Z.to_nat (kern_dim st)) 0 (fun i _ => set_psi i (f0, f0)) tt in
  let! st := get in
  let! re := set_idx (psi_re st) 0 f1 in
  put (mk_kstate re (psi_im st) (tmp_re st) (tmp_im st) (kern_nq st) (kern_dim st) (rng_state st)).

Definition clamp01 (p : F) : F :=
  let p := if flt p f0 then f0 else p in
  if flt f1 p then f1 else p.

Definition fidelity_exp_reps (x y : list F) (reps : Z) : K F :=
  do! reset_psi in
  do! for_ (Z.to_nat reps) 0 (fun _ _ => layer_fwd x) tt in
  do! for_ (Z.to_nat reps) 0 (fun _ _ => layer_inv y) tt in
  let! a := psi_at 0 in
  ret (k_exp_unit (clamp01 (a.1 ⊗ a.1 ⊕ a.2 ⊗ a.2))).

Definition fidelity_exp (x y : list F) : K F := fidelity_exp_reps x y QAI_REPS.

(** ** Benchmark and kernel block *)

Definition next_angle : K F :=
  let! st := get in
  let r := u32 (u32 (rng_state st * 1664525) + 1013904223) in
  do! put (mk_kstate (psi_re st) (psi_im st) (tmp_re st) (tmp_im st) (kern_nq st) (kern_dim st) r) in
  ret ((f_of_Z (Z.shiftr r 8) ⊗ (f1 ⊘ f_of_Z 16777216)) ⊗ (f_of_Z 2 ⊗ QAI_PI) ⊖ QAI_PI).

Definition fill_vec (v : list F) : K (list F) :=
  for_ (Z.to_nat QAI_NFEAT_8) 0 (fun i v => let! a := next_angle in set_idx v i a) v.

Record qai_fidelity_bench_out := mk_bench {
  evals : Z;
  tee_elapsed_ms : Z;
  self_exp_micro : Z;
  batch_sum_micro : Z;
}.

(** [t0] and [t1] are the two readings of the system time; [x0], [y0], [self0] what the stack
    arrays hold on entry. *)
Definition qai_fidelity_bench (t0 t1 : TEE_Time) (x0 y0 self0 : list F) (n : Z)
    : K qai_fidelity_bench_out :=
  do! guard_err (n >? 20000) TEE_ERROR_BAD_PARAMETERS in
  do! kernel_select QAI_NQ_8 in
  let! self_x := fill_vec self0 in
  let! f := fidelity_exp self_x self_x in
  let self_micro := f_to_i64 (f ⊗ f_of_Z 1000000) in
  let! r := for_ (Z.to_nat n) 0 (fun _ '(x, y, acc) =>
      let! x := fill_vec x in
      let! y := fill_vec y in
      let! f := fidelity_exp x y in
      ret (x, y, acc ⊕ f)) (x0, y0, f0) in
  let! ms := delta_ms t0 t1 in
  ret (mk_bench n ms self_micro (f_to_i64 (r.2 ⊗ f_of_Z 1000000))).

(** [src] is the part of the float array (as bit patterns) the pointer argument designates. *)
Definition load_feat (src : list Z) (dst : list F) (n_feat : Z) : K (list F) :=
  for_ (Z.to_nat n_feat) 0 (fun i dst => let! b := idx src i in set_idx dst i (f32_load b)) dst.

Definition kernel_pair (rf : list Z) (qv : list F) (n_feat n_ref reps q r : Z)
    (acc : list F * list Z) : K (list F * list Z) :=
  let! rv := load_feat (drop (Z.to_nat (r * n_feat)) rf) acc.1 n_feat in
  let! f := fidelity_exp_reps qv rv reps in
  let! out_k := set_idx acc.2 (q * n_ref + r) (f32_store f) in
  ret (rv, out_k).

Definition kernel_query (rf query : list Z) (n_feat n_ref reps q : Z)
    (acc : list F * list F * list Z) : K (list F * list F * list Z) :=
  let! qv := load_feat (drop (Z.to_nat (q * n_feat)) query) acc.1.1 n_feat in
  let! p := for_ (Z.to_nat n_ref) 0 (kernel_pair rf qv n_feat n_ref reps q) (acc.1.2, acc.2) in
  ret (qv, p.1, p.2).

Definition qai_fidelity_kernel_block (t0 t1 : TEE_Time) (qv0 rv0 : list F)
    (rf : list Z) (n_ref : Z) (query : list Z) (n_query reps n_qubits : Z)
    (out_k : list Z) : K (list Z * Z) :=
  do! guard_err ((n_ref =? 0) || (n_query =? 0) || (reps =? 0) || (reps >? QAI_REPS))
    TEE_ERROR_BAD_PARAMETERS in
  do! guard_err (negb (n_qubits =? 8) && negb (n_qubits =? 16)) TEE_ERROR_BAD_PARAMETERS in
  do! guard_err ((n_ref >? QAI_KERNEL_MAX_PAIRS) || (n_query >? QAI_KERNEL_MAX_PAIRS))
    TEE_ERROR_BAD_PARAMETERS in
  do! guard_err (u32 (n_ref * n_query) >? QAI_KERNEL_MAX_PAIRS) TEE_ERROR_BAD_PARAMETERS in
  do! kernel_select n_qubits in
  let n_feat := n_qubits * 2 in
  let! p := for_ (Z.to_nat n_query) 0 (kernel_query rf query n_feat n_ref reps) (qv0, rv0, out_k) in
  let! ms := delta_ms t0 t1 in
  ret (p.2, ms).

End Kernel.

(** ** Bits of an amplitude index *)

Lemma land_bit i q : 0 <= q -> (Z.land i (Z.shiftl 1 q) =? 0) = negb (Z.testbit i q).
Proof.
  intros Hq. rewrite Z.shiftl_1_l. destruct (Z.testbit i q) eqn:E; simpl.
  - apply Z.eqb_neq. intros H. apply (f_equal (fun z => Z.testbit z q)) in H.
    rewrite Z.land_spec, E, Z.pow2_bits_true, Z.bits_0 in H by lia. done.
  - apply Z.eqb_eq. apply Z.bits_inj'. intros n Hn. rewrite Z.land_spec, Z.bits_0, Z.pow2_bits_eqb by lia.
    destruct (Z.eqb_spec q n); subst; rewrite ?E; [done | apply andb_false_r].
Qed.

Lemma setbit_range i q n : 0 <= q < n -> 0 <= i < 2 ^ n -> 0 <= Z.setbit i q < 2 ^ n.
Proof.
  intros Hq Hi. assert (0 <= Z.setbit i q) as H0.
  { unfold Z.setbit. apply Z.lor_nonneg. split; [lia|]. apply Z.shiftl_nonneg. lia. }
  split; [done|]. apply Z.bounded_iff_bits_nonneg; [lia..|]. intros l Hl.
  rewrite Z.setbit_eqb by lia. rewrite (proj2 (Z.eqb_neq q l)) by lia. simpl.
  apply (proj1 (Z.bounded_iff_bits_nonneg n i ltac:(lia) ltac:(lia))); [lia..].
Qed.

Lemma clearbit_range i q n : 0 <= q -> 0 <= n -> 0 <= i < 2 ^ n -> 0 <= Z.clearbit i q < 2 ^ n.
Proof.
  intros Hq Hn Hi. assert (0 <= Z.clearbit i q) as H0
    by (unfold Z.clearbit; apply Z.ldiff_nonneg; lia).
  split; [done|]. apply Z.bounded_iff_bits_nonneg; [lia..|]. intros l Hl.
  rewrite Z.clearbit_eqb by lia.
  rewrite (proj1 (Z.bounded_iff_bits_nonneg n i ltac:(lia) ltac:(lia)) ltac:(lia) l) by lia. done.
Qed.

Lemma testbit_setbit i q : 0 <= q -> Z.testbit (Z.setbit i q) q = true.
Proof. intros. rewrite Z.setbit_eqb by lia. by rewrite Z.eqb_refl. Qed.

Lemma testbit_clearbit i q : 0 <= q -> Z.testbit (Z.clearbit i q) q = false.
Proof. intros. rewrite Z.clearbit_eqb by lia. by rewrite Z.eqb_refl, andb_false_r. Qed.

Lemma testbit_setbit_ne i q r : 0 <= q -> q <> r -> Z.testbit (Z.setbit i q) r = Z.testbit i r.
Proof. intros. rewrite Z.setbit_eqb by lia. by rewrite (proj2 (Z.eqb_neq q r)). Qed.

Lemma testbit_clearbit_ne i q r : 0 <= q -> q <> r -> Z.testbit (Z.clearbit i q) r = Z.testbit i r.
Proof.
  intros. rewrite Z.clearbit_eqb by lia. rewrite (proj2 (Z.eqb_neq q r)) by done. apply andb_true_r.
Qed.

Lemma clearbit_id i q : 0 <= q -> Z.testbit i q = false -> Z.clearbit i q = i.
Proof.
  intros Hq H. apply Z.bits_inj'. intros n Hn. rewrite Z.clearbit_eqb by lia.
  destruct (Z.eqb_spec q n); subst; rewrite ?H; [done | apply andb_true_r].
Qed.

Lemma clearbit_setbit i q : 0 <= q -> Z.testbit i q = false -> Z.clearbit (Z.setbit i q) q = i.
Proof.
  intros Hq H. apply Z.bits_inj'. intros n Hn. rewrite Z.clearbit_eqb, Z.setbit_eqb by lia.
  destruct (Z.eqb_spec q n); subst; simpl; [by rewrite H|apply andb_true_r].
Qed.

Lemma setbit_clearbit i q : 0 <= q -> Z.testbit i q = true -> Z.setbit (Z.clearbit i q) q = i.
Proof.
  intros Hq H. apply Z.bits_inj'. intros n Hn. rewrite Z.setbit_eqb, Z.clearbit_eqb by lia.
  destruct (Z.eqb_spec q n); subst; simpl; [by rewrite H|apply andb_true_r].
Qed.

(** The indices whose bit [q] is cleared to [i] are [i] and its partner. *)
Lemma clearbit_inv k q i :
  0 <= q -> Z.clearbit k q = i -> Z.testbit i q = false /\ (k = i \/ k = Z.setbit i q).
Proof.
  intros Hq <-. split; [by apply testbit_clearbit|].
  destruct (Z.testbit k q) eqn:E; [right; by rewrite setbit_clearbit | left; by rewrite clearbit_id].
Qed.

(** [rank q i]: how many indices below [i] have bit [q] clear. *)
Definition rank (q i : Z) : Z := (i / 2 ^ (q + 1)) * 2 ^ q + Z.min (i mod 2 ^ (q + 1)) (2 ^ q).

Lemma testbit_mod i q : 0 <= q -> Z.testbit i q = (2 ^ q <=? i mod 2 ^ (q + 1)).
Proof.
  intros Hq. assert (0 < 2 ^ q) by (apply pow2_pos; lia).
  replace (2 ^ (q + 1)) with (2 ^ q * 2) by (rewrite Z.pow_add_r; lia).
  rewrite Z.rem_mul_r by lia. pose proof (Z.mod_pos_bound i (2 ^ q) ltac:(lia)).
  pose proof (Z.mod_pos_bound (i / 2 ^ q) 2 ltac:(lia)).
  destruct (Z.testbit i q) eqn:E.
  - apply Z.testbit_true in E; [|done]. rewrite E. symmetry. apply Z.leb_le. lia.
  - apply Z.testbit_false in E; [|done]. rewrite E. symmetry. apply Z.leb_gt. lia.
Qed.

Lemma rank_succ q i : 0 <= q -> 0 <= i -> rank q (i + 1) = rank q i + (if Z.testbit i q then 0 else 1).
Proof.
  intros Hq Hi. rewrite testbit_mod by done. unfold rank.
  assert (0 < 2 ^ q) by (apply pow2_pos; lia).
  assert (2 ^ (q + 1) = 2 * 2 ^ q) as E by (rewrite Z.pow_add_r; lia).
  rewrite E in *. set (P := 2 ^ q) in *. clearbody P.
  pose proof (Z.div_mod i (2 * P) ltac:(lia)) as D. pose proof (Z.mod_pos_bound i (2 * P) ltac:(lia)) as B.
  set (d := i / (2 * P)) in *. set (m := i mod (2 * P)) in *. clearbody d m.
  destruct (decide (m + 1 < 2 * P)).
  - assert ((i + 1) / (2 * P) = d) as -> by (symmetry; apply (Z.div_unique _ _ _ (m + 1)); lia).
    assert ((i + 1) mod (2 * P) = m + 1) as -> by (symmetry; apply (Z.mod_unique _ _ d); lia).
    destruct (P <=? m) eqn:L; bool_hyps; lia.
  - assert ((i + 1) / (2 * P) = d + 1) as -> by (symmetry; apply (Z.div_unique _ _ _ 0); lia).
    assert ((i + 1) mod (2 * P) = 0) as -> by (symmetry; apply (Z.mod_unique _ _ (d + 1)); lia).
    rewrite (proj2 (Z.leb_le _ _)) by lia. lia.
Qed.

Lemma rank_mono q i j : 0 <= q -> 0 <= i <= j -> rank q i <= rank q j.
Proof.
  intros Hq Hij. replace j with (i + Z.of_nat (Z.to_nat (j - i))) by lia.
  induction (Z.to_nat (j - i)) as [|n IH]; [rewrite Z.add_0_r; lia|].
  pose proof (rank_succ q (i + Z.of_nat n) Hq ltac:(lia)) as R.
  replace (i + Z.of_nat (S n)) with (i + Z.of_nat n + 1) by lia.
  destruct (Z.testbit _ q); lia.
Qed.

Lemma rank_lt q i j : 0 <= q -> 0 <= i < j -> Z.testbit i q = false -> rank q i < rank q j.
Proof.
  intros Hq Hij E. pose proof (rank_succ q i Hq ltac:(lia)) as R. rewrite E in R.
  pose proof (rank_mono q (i + 1) j Hq ltac:(lia)). lia.
Qed.

Lemma rank_0 q : 0 <= q -> rank q 0 = 0.
Proof.
  intros. unfold rank. rewrite Z.div_0_l, Z.mod_0_l by (apply Z.pow_nonzero; lia).
  pose proof (pow2_pos q ltac:(lia)). lia.
Qed.

Lemma rank_pow2 q n : 0 <= q < n -> rank q (2 ^ n) = 2 ^ (n - 1).
Proof.
  intros Hq. unfold rank.
  replace (2 ^ n) with (2 ^ (n - 1 - q) * 2 ^ (q + 1)) by (rewrite <- Z.pow_add_r by lia; f_equal; lia).
  rewrite Z.div_mul, Z.mod_mul by (apply Z.pow_nonzero; lia).
  pose proof (pow2_pos q ltac:(lia)). rewrite Z.min_l by lia.
  rewrite <- Z.pow_add_r by lia. replace (n - 1 - q + q) with (n - 1) by lia. lia.
Qed.

(** ** The simulator's arrays *)

Section Arrays.
Context {F : Type} `{!Num F}.
#[local] Instance F_inhabited : Inhabited F := populate f0.

Abbreviation kst := (@kstate F).
Abbreviation K := (M kst).

(** Amplitude [k], and saved amplitude [k]. *)
Definition view (st : kst) (k : Z) : F * F :=
  (psi_re st !!! Z.to_nat k, psi_im st !!! Z.to_nat k).
Definition tview (st : kst) (k : Z) : F * F :=
  (tmp_re st !!! Z.to_nat k, tmp_im st !!! Z.to_nat k).

(** The static arrays have their declared sizes and the selected circuit fits them. *)
Record kwf (st : kst) : Prop := mk_kwf {
  kwf_re : lenZ (psi_re st) = QAI_DIM_MAX;
  kwf_im : lenZ (psi_im st) = QAI_DIM_MAX;
  kwf_tre : lenZ (tmp_re st) = QAI_DIM_MAX / 2;
  kwf_tim : lenZ (tmp_im st) = QAI_DIM_MAX / 2;
  kwf_nq : 2 <= kern_nq st <= 16;
  kwf_dim : kern_dim st = 2 ^ kern_nq st;
}.

(** What every gate leaves alone. *)
Record keeps (st st' : kst) : Prop := mk_keeps {
  keeps_wf : kwf st';
  keeps_nq : kern_nq st' = kern_nq st;
  keeps_rng : rng_state st' = rng_state st;
}.

Lemma keeps_refl st : kwf st -> keeps st st.
Proof. by split. Qed.

Lemma keeps_trans a b c : keeps a b -> keeps b c -> keeps a c.
Proof. intros [] []; split; [done|congruence..]. Qed.

Lemma keeps_dim a b : kwf a -> keeps a b -> kern_dim b = kern_dim a.
Proof. intros Ha [Hb E _]. by rewrite (kwf_dim _ Hb), (kwf_dim _ Ha), E. Qed.

Lemma kwf_dim_max st : kwf st -> 0 < kern_dim st <= QAI_DIM_MAX.
Proof.
  intros W. rewrite (kwf_dim _ W). pose proof (kwf_nq _ W). split; [apply pow2_pos; lia|].
  change QAI_DIM_MAX with (2 ^ 16). apply Z.pow_le_mono_r; lia.
Qed.

Lemma idx_total_F {S} (s : S) (l : list F) i :
  0 <= i < lenZ l -> idx l i s = (Ret (l !!! Z.to_nat i), s).
Proof.
  intros Hi. apply idx_in; [lia|]. apply list_lookup_lookup_total_lt. unfold lenZ in Hi. lia.
Qed.

Lemma psi_at_ok st i : kwf st -> 0 <= i < QAI_DIM_MAX -> psi_at i st = (Ret (view st i), st).
Proof.
  intros W Hi. unfold psi_at, bind, get.
  rewrite idx_total_F by (rewrite (kwf_re _ W); lia).
  by rewrite idx_total_F by (rewrite (kwf_im _ W); lia).
Qed.

Lemma tmp_at_ok st i : kwf st -> 0 <= i < QAI_DIM_MAX / 2 -> tmp_at i st = (Ret (tview st i), st).
Proof.
  intros W Hi. unfold tmp_at, bind, get.
  rewrite idx_total_F by (rewrite (kwf_tre _ W); lia).
  by rewrite idx_total_F by (rewrite (kwf_tim _ W); lia).
Qed.

Lemma lookup_total_set (l : list F) i k v :
  0 <= i < lenZ l -> 0 <= k ->
  <[Z.to_nat i := v]> l !!! Z.to_nat k = if decide (k = i) then v else l !!! Z.to_nat k.
Proof.
  intros Hi Hk. unfold lenZ in Hi. case_decide as E.
  - subst. apply list_lookup_total_insert_eq. lia.
  - apply list_lookup_total_insert_ne. lia.
Qed.

Lemma lenZ_insert {A} (l : list A) i v : lenZ (<[i := v]> l) = lenZ l.
Proof. unfold lenZ. by rewrite length_insert. Qed.

Lemma set_psi_ok st i c :
  kwf st -> 0 <= i < QAI_DIM_MAX ->
  exists st', set_psi i c st = (Ret tt, st') /\ keeps st st' /\
    (forall k, 0 <= k -> view st' k = if decide (k = i) then c else view st k) /\
    (forall k, tview st' k = tview st k).
Proof.
  intros W Hi. eexists. split; [|split; [|split]].
  - unfold set_psi, bind, get. rewrite set_idx_in by (rewrite (kwf_re _ W); lia).
    rewrite set_idx_in by (rewrite (kwf_im _ W); lia). done.
  - destruct W. split; [|done..]. split; simpl; rewrite ?lenZ_insert; done.
  - intros k Hk. unfold view. simpl. destruct c.
    rewrite !lookup_total_set by (rewrite ?(kwf_re _ W), ?(kwf_im _ W); lia). by case_decide.
  - done.
Qed.

Lemma set_tmp_ok st i c :
  kwf st -> 0 <= i < QAI_DIM_MAX / 2 ->
  exists st', set_tmp i c st = (Ret tt, st') /\ keeps st st' /\
    (forall k, view st' k = view st k) /\
    (forall k, 0 <= k -> tview st' k = if decide (k = i) then c else tview st k).
Proof.
  intros W Hi. eexists. split; [|split; [|split]].
  - unfold set_tmp, bind, get. rewrite set_idx_in by (rewrite (kwf_tre _ W); lia).
    rewrite set_idx_in by (rewrite (kwf_tim _ W); lia). done.
  - destruct W. split; [|done..]. split; simpl; rewrite ?lenZ_insert; done.
  - done.
  - intros k Hk. unfold tview. simpl. destruct c.
    rewrite !lookup_total_set by (rewrite ?(kwf_tre _ W), ?(kwf_tim _ W); lia). by case_decide.
Qed.

(** ** The gates on amplitude vectors *)

Definition gate_v (q : Z) (g : gate1) (v : Z -> F * F) (k : Z) : F * F :=
  if Z.testbit k q then row (g10 g) (g11 g) (v (Z.clearbit k q)) (v k)
  else row (g00 g) (g01 g) (v k) (v (Z.setbit k q)).

Definition flip (k t : Z) : Z := if Z.testbit k t then Z.clearbit k t else Z.setbit k t.

Definition cnot_v (c t : Z) (v : Z -> F * F) (k : Z) : F * F :=
  if Z.testbit k c then v (flip k t) else v k.

Definition stashed (q : Z) (v : Z -> F * F) (i k : Z) : F * F :=
  if (k <? i) && negb (Z.testbit k q) then v (Z.setbit k q) else v k.

Lemma ltb_succ_ne k i : k <> i -> (k <? i + 1) = (k <? i).
Proof.
  intros. destruct (k <? i) eqn:?, (k <? i + 1) eqn:?; bool_hyps; lia || done.
Qed.

Lemma rank_bound nq q i :
  2 <= nq <= 16 -> 0 <= q < nq -> 0 <= i < 2 ^ nq -> Z.testbit i q = false ->
  0 <= rank q i < QAI_DIM_MAX / 2.
Proof.
  intros Hn Hq Hi E. pose proof (rank_lt q i (2 ^ nq) ltac:(lia) Hi E) as L.
  rewrite rank_pow2 in L by lia. pose proof (rank_mono q 0 i ltac:(lia) ltac:(lia)) as G.
  rewrite rank_0 in G by lia.
  assert (2 ^ (nq - 1) <= 2 ^ 15) by (apply Z.pow_le_mono_r; lia).
  change (QAI_DIM_MAX / 2) with (2 ^ 15). lia.
Qed.

Lemma stash_loop st q :
  kwf st -> 0 <= q < kern_nq st ->
  exists n st', for_ (Z.to_nat (kern_dim st)) 0 (stash (Z.shiftl 1 q)) 0 st = (Ret n, st') /\
    keeps st st' /\
    (forall k, 0 <= k < kern_dim st -> view st' k = stashed q (view st) (kern_dim st) k) /\
    (forall k, 0 <= k < kern_dim st -> Z.testbit k q = false -> tview st' (rank q k) = view st k).
Proof.
  intros W Hq. pose proof (kwf_dim_max _ W) as Hd. pose proof (kwf_dim _ W) as Ed.
  pose proof (kwf_nq _ W) as Hn.
  destruct (for_inv_st (fun i n s => n = rank q i /\ keeps st s /\
     (forall k, 0 <= k -> view s k = stashed q (view st) i k) /\
     (forall k, 0 <= k < i -> Z.testbit k q = false -> tview s (rank q k) = view st k))
     (stash (Z.shiftl 1 q)) (Z.to_nat (kern_dim st)) 0 0 st) as (n & s & E & -> & Hk & V & T).
  - intros i n s Hi (-> & Hk & V & T). rewrite Z.add_0_l, Z2Nat.id in Hi by lia.
    pose proof (rank_succ q i ltac:(lia) ltac:(lia)) as R.
    unfold stash. rewrite land_bit by lia. destruct (Z.testbit i q) eqn:B; simpl.
    + exists (rank q i), s. split; [done|]. split; [lia|]. split; [done|]. split.
      * intros k Hk0. rewrite V by done. unfold stashed.
        destruct (decide (k = i)) as [->|]; [by rewrite B, !andb_false_r|].
        by rewrite ltb_succ_ne.
      * intros k Hk0 Bk. apply T; [|done]. destruct (decide (k = i)); [congruence|lia].
    + pose proof (rank_bound _ q i Hn Hq ltac:(lia) B) as Rb.
      pose proof (setbit_range i q (kern_nq st) ltac:(lia) ltac:(lia)) as Sb.
      rewrite <- Ed in Sb. unfold bind.
      rewrite psi_at_ok by (apply Hk || lia).
      destruct (set_tmp_ok s (rank q i) (view s i)) as (s1 & E1 & K1 & V1 & T1); [apply Hk|done|].
      rewrite E1. fold (Z.setbit i q). rewrite psi_at_ok by (apply K1 || lia).
      destruct (set_psi_ok s1 i (view s1 (Z.setbit i q))) as (s2 & E2 & K2 & V2 & T2);
        [apply K1|lia|].
      rewrite E2. exists (rank q i + 1), s2. split; [done|]. split; [lia|].
      split; [eauto using keeps_trans|]. split.
      * intros k Hk0. rewrite V2 by done. unfold stashed. case_decide as D.
        -- subst. rewrite V1, V by lia. unfold stashed. rewrite testbit_setbit, B, andb_false_r by lia.
           by rewrite (proj2 (Z.ltb_lt i (i + 1))) by lia.
        -- rewrite V1, V by lia. unfold stashed.
           by rewrite ltb_succ_ne.
      * intros k Hk0 Bk. rewrite T2. rewrite T1 by (pose proof (rank_mono q 0 k ltac:(lia) ltac:(lia)); rewrite rank_0 in *; lia).
        destruct (decide (k = i)) as [->|].
        -- rewrite decide_True by done. rewrite V by lia. unfold stashed.
           by rewrite (proj2 (Z.ltb_ge i i)) by lia.
        -- pose proof (rank_lt q k i ltac:(lia) ltac:(lia) Bk). rewrite decide_False by lia.
           apply T; [lia|done].
  - rewrite rank_0 by lia. split; [done|]. split; [by apply keeps_refl|]. split; [|lia].
    intros k Hk0. unfold stashed. by rewrite (proj2 (Z.ltb_ge k 0)) by lia.
  - rewrite Z.add_0_l, Z2Nat.id in * by lia. exists (rank q (kern_dim st)), s.
    split; [done|]. split; [done|]. split; [intros; apply V; lia | done].
Qed.

Lemma combine_loop st s1 q g :
  kwf st -> keeps st s1 -> 0 <= q < kern_nq st ->
  (forall k, 0 <= k < kern_dim st -> view s1 k = stashed q (view st) (kern_dim st) k) ->
  (forall k, 0 <= k < kern_dim st -> Z.testbit k q = false -> tview s1 (rank q k) = view st k) ->
  exists n st', for_ (Z.to_nat (kern_dim st)) 0 (combine_pair g (Z.shiftl 1 q)) 0 s1 = (Ret n, st') /\
    keeps st st' /\
    (forall k, 0 <= k < kern_dim st -> view st' k = gate_v q g (view st) k).
Proof.
  intros W K0 Hq V0 T0. pose proof (kwf_dim_max _ W) as Hd. pose proof (kwf_dim _ W) as Ed.
  pose proof (kwf_nq _ W) as Hn.
  destruct (for_inv_st (fun i n s => n = rank q i /\ keeps st s /\
     (forall k, 0 <= k < kern_dim st -> view s k =
        if Z.clearbit k q <? i then gate_v q g (view st) k else view s1 k) /\
     (forall k, tview s k = tview s1 k))
     (combine_pair g (Z.shiftl 1 q)) (Z.to_nat (kern_dim st)) 0 0 s1) as (n & s & E & -> & Hk & V & T).
  - intros i n s Hi (-> & Hk & V & T). rewrite Z.add_0_l, Z2Nat.id in Hi by lia.
    pose proof (rank_succ q i ltac:(lia) ltac:(lia)) as R.
    unfold combine_pair. rewrite land_bit by lia. destruct (Z.testbit i q) eqn:B; simpl.
    + exists (rank q i), s. split; [done|]. split; [lia|]. split; [done|]. split; [|done].
      intros k Hk0. rewrite V by done. rewrite ltb_succ_ne; [done|]. intros C.
      apply clearbit_inv in C as [C _]; [congruence|lia].
    + pose proof (rank_bound _ q i Hn Hq ltac:(lia) B) as Rb.
      pose proof (setbit_range i q (kern_nq st) ltac:(lia) ltac:(lia)) as Sb. rewrite <- Ed in Sb.
      assert (i <> Z.setbit i q) as Hne by (intros Q; rewrite Q, testbit_setbit in B by lia; done).
      unfold bind. rewrite tmp_at_ok by (apply Hk || lia). rewrite psi_at_ok by (apply Hk || lia).
      rewrite T, T0 by (lia || done). rewrite V by lia. rewrite clearbit_id by (lia || done).
      rewrite (proj2 (Z.ltb_ge i i)) by lia. rewrite V0 by lia. unfold stashed.
      rewrite (proj2 (Z.ltb_lt i (kern_dim st))), B by lia. simpl.
      destruct (set_psi_ok s i (row (g00 g) (g01 g) (view st i) (view st (Z.setbit i q))))
        as (s2 & E2 & K2 & V2 & T2); [apply Hk|lia|]. rewrite E2. fold (Z.setbit i q).
      destruct (set_psi_ok s2 (Z.setbit i q) (row (g10 g) (g11 g) (view st i) (view st (Z.setbit i q))))
        as (s3 & E3 & K3 & V3 & T3); [apply K2|lia|]. rewrite E3.
      exists (rank q i + 1), s3. split; [done|]. split; [lia|].
      split; [eauto using keeps_trans|]. split; [|intros; by rewrite T3, T2, T].
      intros k Hk0. rewrite V3, V2, V by lia. case_decide; [subst|case_decide; [subst|]].
      * rewrite clearbit_setbit by (lia || done). rewrite (proj2 (Z.ltb_lt i (i + 1))) by lia.
        unfold gate_v. rewrite testbit_setbit by lia. by rewrite clearbit_setbit by (lia || done).
      * rewrite clearbit_id by (lia || done). rewrite (proj2 (Z.ltb_lt i (i + 1))) by lia.
        unfold gate_v. by rewrite B.
      * rewrite ltb_succ_ne; [done|]. intros C. apply clearbit_inv in C as [_ [?|?]]; [congruence..|lia].
  - rewrite rank_0 by lia. split; [done|]. split; [done|]. split; [|done].
    intros k Hk0. pose proof (clearbit_range k q (kern_nq st) ltac:(lia) ltac:(lia) ltac:(lia)).
    by rewrite (proj2 (Z.ltb_ge _ 0)) by lia.
  - rewrite Z.add_0_l, Z2Nat.id in * by lia. exists (rank q (kern_dim st)), s.
    split; [done|]. split; [done|]. intros k Hk0. rewrite V by done.
    pose proof (clearbit_range k q (kern_nq st) ltac:(lia) ltac:(lia) ltac:(lia)).
    by rewrite (proj2 (Z.ltb_lt _ (kern_dim st))) by lia.
Qed.

(** [apply_1q] in place, with its half-size save area, is the 2x2 matrix on every amplitude pair;
    every array access is in bounds. *)
Lemma apply_1q_ok st q g :
  kwf st -> 0 <= q < kern_nq st ->
  exists st', apply_1q q g st = (Ret tt, st') /\ keeps st st' /\
    (forall k, 0 <= k < kern_dim st -> view st' k = gate_v q g (view st) k).
Proof.
  intros W Hq. destruct (stash_loop st q W Hq) as (n & s1 & E1 & K1 & V1 & T1).
  destruct (combine_loop st s1 q g W K1 Hq V1 T1) as (n2 & s2 & E2 & K2 & V2).
  exists s2. split; [|done]. unfold apply_1q, bind, get. rewrite E1. by rewrite E2.
Qed.

Lemma flip_range k t n : 0 <= t < n -> 0 <= k < 2 ^ n -> 0 <= flip k t < 2 ^ n.
Proof.
  intros. unfold flip. destruct (Z.testbit k t); [apply clearbit_range; lia | by apply setbit_range].
Qed.

Lemma cnot_pair_ok st c t :
  kwf st -> 0 <= c < kern_nq st -> 0 <= t < kern_nq st -> c <> t ->
  exists st', cnot_pair c t st = (Ret tt, st') /\ keeps st st' /\
    (forall k, 0 <= k < kern_dim st -> view st' k = cnot_v c t (view st) k).
Proof.
  intros W Hc Ht Hct. pose proof (kwf_dim_max _ W) as Hd. pose proof (kwf_dim _ W) as Ed.
  unfold cnot_pair, bind at 1, get.
  destruct (for_inv_st (fun i _ s => keeps st s /\
     (forall k, 0 <= k < kern_dim st -> view s k =
        if Z.clearbit k t <? i then cnot_v c t (view st) k else view st k))
     (cnot_step (Z.shiftl 1 c) (Z.shiftl 1 t)) (Z.to_nat (kern_dim st)) 0 tt st)
    as ([] & s & E & Hk & V).
  - intros i [] s Hi (Hk & V). rewrite Z.add_0_l, Z2Nat.id in Hi by lia.
    unfold cnot_step. rewrite !land_bit, negb_involutive by lia.
    destruct (Z.testbit i t) eqn:B; [|destruct (Z.testbit i c) eqn:Bc];
      rewrite ?orb_true_r; cbv beta iota delta [orb negb].
    + exists tt, s. split; [done|]. split; [done|]. intros k Hk0.
      rewrite V by done. rewrite ltb_succ_ne; [done|]. intros C.
      apply clearbit_inv in C as [C _]; [congruence|lia].
    + pose proof (setbit_range i t (kern_nq st) ltac:(lia) ltac:(lia)) as Sb. rewrite <- Ed in Sb.
      assert (i <> Z.setbit i t) as Hne by (intros Q; rewrite Q, testbit_setbit in B by lia; done).
      unfold bind. fold (Z.setbit i t). rewrite psi_at_ok by (apply Hk || lia).
      rewrite psi_at_ok by (apply Hk || lia).
      destruct (set_psi_ok s i (view s (Z.setbit i t))) as (s2 & E2 & K2 & V2 & _); [apply Hk|lia|].
      rewrite E2.
      destruct (set_psi_ok s2 (Z.setbit i t) (view s i)) as (s3 & E3 & K3 & V3 & _); [apply K2|lia|].
      rewrite E3. exists tt, s3. split; [done|]. split; [eauto using keeps_trans|].
      assert (Z.clearbit i t = i /\ Z.clearbit (Z.setbit i t) t = i) as [C1 C2]
        by (split; [by apply clearbit_id; [lia|] | by apply clearbit_setbit; [lia|]]).
      intros k Hk0. rewrite V3, V2, !V, C1, C2 by lia. rewrite (proj2 (Z.ltb_ge i i)) by lia.
      case_decide; [subst k|case_decide; [subst k|]].
      * rewrite C2, (proj2 (Z.ltb_lt i (i + 1))) by lia. unfold cnot_v, flip.
        by rewrite testbit_setbit_ne, Bc, testbit_setbit, C2 by lia.
      * rewrite C1, (proj2 (Z.ltb_lt i (i + 1))) by lia. unfold cnot_v, flip. by rewrite Bc, B.
      * rewrite ltb_succ_ne; [done|]. intros C. apply clearbit_inv in C as [_ [?|?]]; [congruence..|lia].
    + exists tt, s. split; [done|]. split; [done|]. intros k Hk0. rewrite V by done.
      destruct (decide (Z.clearbit k t = i)) as [C|C]; [|by rewrite ltb_succ_ne].
      rewrite C, (proj2 (Z.ltb_ge i i)), (proj2 (Z.ltb_lt i (i + 1))) by lia.
      unfold cnot_v. rewrite <- (testbit_clearbit_ne k t c), C, Bc by lia. done.
  - split; [by apply keeps_refl|]. intros k Hk0.
    pose proof (clearbit_range k t (kern_nq st) ltac:(lia) ltac:(lia) ltac:(lia)).
    by rewrite (proj2 (Z.ltb_ge _ 0)) by lia.
  - rewrite Z.add_0_l, Z2Nat.id in * by lia. exists s. split; [done|]. split; [done|].
    intros k Hk0. rewrite V by done.
    pose proof (clearbit_range k t (kern_nq st) ltac:(lia) ltac:(lia) ltac:(lia)).
    by rewrite (proj2 (Z.ltb_lt _ (kern_dim st))) by lia.
Qed.

(** ** Circuits as transformations of amplitude vectors *)

(** Equality of the first [2^n] amplitudes. *)
Definition veq (n : Z) (v w : Z -> F * F) : Prop := forall k, 0 <= k < 2 ^ n -> v k = w k.

#[export] Instance veq_equiv n : Equivalence (veq n).
Proof.
  split; [by intros v k | intros v w H k Hk; by rewrite H | intros u v w H1 H2 k Hk].
  by rewrite H1, H2.
Qed.

Lemma gate_v_proper n q g : 0 <= q < n -> Proper (veq n ==> veq n) (gate_v q g).
Proof.
  intros Hq v w H k Hk. unfold gate_v. rewrite (H k Hk).
  rewrite (H (Z.clearbit k q)) by (apply clearbit_range; lia).
  by rewrite (H (Z.setbit k q)) by (by apply setbit_range).
Qed.

Lemma cnot_v_proper n c t : 0 <= t < n -> Proper (veq n ==> veq n) (cnot_v c t).
Proof.
  intros Ht v w H k Hk. unfold cnot_v.
  destruct (Z.testbit k c); apply H; [by apply flip_range | done].
Qed.

(** [m] runs without undefined behaviour on every well-formed [n]-qubit state and transforms the
    amplitudes by [T]. *)
Definition implements (n : Z) (m : K unit) (T : (Z -> F * F) -> (Z -> F * F)) : Prop :=
  forall st, kwf st -> kern_nq st = n ->
  exists st', m st = (Ret tt, st') /\ keeps st st' /\ veq n (view st') (T (view st)).

Definition transformer (n : Z) (T : (Z -> F * F) -> (Z -> F * F)) : Prop :=
  Proper (veq n ==> veq n) T.

Lemma implements_seq n m1 m2 T1 T2 :
  implements n m1 T1 -> implements n m2 T2 -> transformer n T2 ->
  implements n (do! m1 in m2) (fun v => T2 (T1 v)).
Proof.
  intros H1 H2 P st W E. destruct (H1 st W E) as (s1 & R1 & K1 & V1).
  destruct (H2 s1) as (s2 & R2 & K2 & V2); [apply K1 | by rewrite (keeps_nq _ _ K1) |].
  exists s2. split; [unfold bind; by rewrite R1|]. split; [eauto using keeps_trans|].
  rewrite V2. by apply P.
Qed.

(** The transformations of a list of steps, first to last. *)
Definition run_all (T : Z -> (Z -> F * F) -> (Z -> F * F)) (l : list Z) (v : Z -> F * F) : Z -> F * F :=
  foldl (fun v q => T q v) v l.

Lemma run_all_proper n T l :
  (forall q, q ∈ l -> transformer n (T q)) -> transformer n (run_all T l).
Proof.
  unfold run_all. induction l as [|q l IH]; intros H v w E; [done|]. simpl.
  apply IH; [set_solver|]. apply H; [set_solver|done].
Qed.

Lemma implements_for n (f : Z -> K unit) T (g : Z -> Z) k :
  (forall i, 0 <= i < Z.of_nat k -> implements n (f (g i)) (T (g i)) /\ transformer n (T (g i))) ->
  implements n (for_ k 0 (fun i _ => f (g i)) tt) (run_all T (g <$> seqZ 0 (Z.of_nat k))).
Proof.
  intros H st W E.
  destruct (for_inv_st (fun i _ s => keeps st s /\ veq n (view s) (run_all T (g <$> seqZ 0 i) (view st)))
     (fun i _ => f (g i)) k 0 tt st) as ([] & s & R & Hk & V).
  - intros i [] s Hi [Hk V]. destruct (H i ltac:(lia)) as [Hf HP].
    destruct (Hf s) as (s' & R & K1 & V1); [apply Hk | by rewrite (keeps_nq _ _ Hk) |].
    exists tt, s'. split; [done|]. split; [eauto using keeps_trans|].
    rewrite V1. rewrite seqZ_app by lia. rewrite fmap_app. unfold run_all. rewrite foldl_app.
    change (seqZ (0 + i) 1) with [0 + (0 + i)]. rewrite !Z.add_0_l. simpl. by apply HP.
  - split; [by apply keeps_refl | done].
  - exists s. rewrite Z.add_0_l in V. done.
Qed.

Lemma implements_up n f T :
  0 <= n -> (forall q, 0 <= q < n -> implements n (f q) (T q) /\ transformer n (T q)) ->
  implements n (each_up n f) (run_all T (seqZ 0 n)).
Proof.
  intros Hn H. pose proof (implements_for n f T id (Z.to_nat n)) as L.
  rewrite Z2Nat.id in L by lia. rewrite list_fmap_id in L. by apply L.
Qed.

Lemma seqZ_reverse n : 0 <= n -> (fun t => n - 1 - t) <$> seqZ 0 n = reverse (seqZ 0 n).
Proof.
  intros Hn. apply list_eq. intros i. rewrite list_lookup_fmap.
  destruct (decide (Z.of_nat i < n)).
  - rewrite lookup_seqZ_lt by lia. rewrite reverse_lookup by (rewrite length_seqZ; lia).
    rewrite length_seqZ, lookup_seqZ_lt by lia. simpl. f_equal. lia.
  - rewrite lookup_seqZ_ge by lia. symmetry. apply lookup_ge_None_2.
    rewrite length_reverse, length_seqZ. lia.
Qed.

Lemma implements_down n f T :
  0 <= n -> (forall q, 0 <= q < n -> implements n (f q) (T q) /\ transformer n (T q)) ->
  implements n (each_down n f) (run_all T (reverse (seqZ 0 n))).
Proof.
  intros Hn H. pose proof (implements_for n f T (fun t => n - 1 - t) (Z.to_nat n)) as L.
  rewrite Z2Nat.id in L by lia. rewrite seqZ_reverse in L by done. apply L.
  intros i Hi. apply H. lia.
Qed.

Lemma implements_gate n q g :
  0 <= q < n -> implements n (apply_1q q g) (gate_v q g) /\ transformer n (gate_v q g).
Proof.
  intros Hq. split; [|by apply gate_v_proper]. intros st W E. rewrite <- E in Hq.
  destruct (apply_1q_ok st q g W Hq) as (s & R & Hk & V). exists s. split; [done|].
  split; [done|]. intros k Hk0. apply V. by rewrite (kwf_dim _ W), E.
Qed.

(** The next qubit of the ring. *)
Definition succ_q (n q : Z) : Z := (q + 1) mod n.

Lemma succ_q_ok n q : 2 <= n -> 0 <= q < n -> 0 <= succ_q n q < n /\ q <> succ_q n q.
Proof.
  intros Hn Hq. unfold succ_q. split; [apply Z.mod_pos_bound; lia|].
  destruct (decide (q + 1 < n)); [rewrite Z.mod_small by lia; lia|].
  replace (q + 1) with n by lia. rewrite Z.mod_same by lia. lia.
Qed.

Lemma implements_cnot n q :
  2 <= n -> 0 <= q < n ->
  implements n (cnot_pair q (succ_q n q)) (cnot_v q (succ_q n q)) /\
  transformer n (cnot_v q (succ_q n q)).
Proof.
  intros Hn Hq. destruct (succ_q_ok n q Hn Hq) as [Hs Hne].
  split; [|by apply cnot_v_proper]. intros st W E. rewrite <- E in Hq.
  destruct (cnot_pair_ok st q (succ_q n q) W Hq ltac:(lia) Hne) as (s & R & Hk & V).
  exists s. split; [done|]. split; [done|]. intros k Hk0. apply V. by rewrite (kwf_dim _ W), E.
Qed.

(** The amplitudes after [rot_fwd], [rot_inv] and the CNOT of one qubit. *)
Definition ang (x : list F) (i : Z) : F := x !!! Z.to_nat i.
Definition fwd_v (x : list F) (q : Z) (v : Z -> F * F) : Z -> F * F :=
  gate_v q (rz_gate (ang x (2 * q + 1))) (gate_v q (ry_gate (ang x (2 * q))) v).
Definition inv_v (y : list F) (q : Z) (v : Z -> F * F) : Z -> F * F :=
  gate_v q (ry_gate (fneg (ang y (2 * q)))) (gate_v q (rz_gate (fneg (ang y (2 * q + 1)))) v).

Lemma fwd_v_proper n x q : 0 <= q < n -> transformer n (fwd_v x q).
Proof. intros Hq v w E. by apply gate_v_proper, gate_v_proper. Qed.

Lemma inv_v_proper n x q : 0 <= q < n -> transformer n (inv_v x q).
Proof. intros Hq v w E. by apply gate_v_proper, gate_v_proper. Qed.

Lemma implements_rot n x q :
  lenZ x >= 2 * n -> 0 <= q < n ->
  (implements n (rot_fwd x q) (fwd_v x q) /\ transformer n (fwd_v x q)) /\
  (implements n (rot_inv x q) (inv_v x q) /\ transformer n (inv_v x q)).
Proof.
  intros Hx Hq. split; (split; [|by (apply fwd_v_proper || apply inv_v_proper)]); intros st W E.
  - unfold rot_fwd, bind. rewrite idx_total_F by lia.
    destruct (proj1 (implements_gate n q (ry_gate (ang x (2 * q))) Hq) st W E) as (s & R & Hk & V).
    unfold apply_ry. unfold ang in R. rewrite R. rewrite idx_total_F by lia.
    destruct (proj1 (implements_gate n q (rz_gate (ang x (2 * q + 1))) Hq) s) as (s2 & R2 & K2 & V2);
      [apply Hk | by rewrite (keeps_nq _ _ Hk) |].
    exists s2. split; [done|]. split; [eauto using keeps_trans|]. rewrite V2. by apply gate_v_proper.
  - unfold rot_inv, bind. rewrite idx_total_F by lia.
    destruct (proj1 (implements_gate n q (rz_gate (fneg (ang x (2 * q + 1)))) Hq) st W E)
      as (s & R & Hk & V).
    unfold apply_rz. unfold ang in R. rewrite R. rewrite idx_total_F by lia.
    destruct (proj1 (implements_gate n q (ry_gate (fneg (ang x (2 * q)))) Hq) s) as (s2 & R2 & K2 & V2);
      [apply Hk | by rewrite (keeps_nq _ _ Hk) |].
    exists s2. split; [done|]. split; [eauto using keeps_trans|]. rewrite V2. by apply gate_v_proper.
Qed.

Lemma implements_get n (f : kst -> K unit) (h : Z -> K unit) T :
  (forall st, f st = h (kern_nq st)) -> implements n (h n) T ->
  implements n (let! st := get in f st) T.
Proof.
  intros Hf H st W E. unfold bind at 1, get. rewrite Hf, E. by apply H.
Qed.

Definition ring_v (n : Z) (l : list Z) : (Z -> F * F) -> (Z -> F * F) :=
  run_all (fun q => cnot_v q (succ_q n q)) l.

Lemma ring_v_proper n l : 2 <= n -> (forall q, q ∈ l -> 0 <= q < n) -> transformer n (ring_v n l).
Proof. intros Hn H. apply run_all_proper. intros q Hq. by apply implements_cnot, H. Qed.

Lemma elem_of_seqZ_reverse n q : q ∈ reverse (seqZ 0 n) -> 0 <= q < n.
Proof. rewrite elem_of_reverse, elem_of_seqZ. lia. Qed.

Lemma elem_of_seqZ0 n q : q ∈ seqZ 0 n -> 0 <= q < n.
Proof. rewrite elem_of_seqZ. lia. Qed.

Lemma implements_cnot_ring n : 2 <= n ->
  implements n (cnot_ring false) (ring_v n (seqZ 0 n)) /\
  implements n (cnot_ring true) (ring_v n (reverse (seqZ 0 n))).
Proof.
  intros Hn. split.
  - apply (implements_get n _ (fun nq => each_up nq (fun q => cnot_pair q (succ_q nq q)))); [done|].
    apply implements_up; [lia|]. intros. by apply implements_cnot.
  - apply (implements_get n _ (fun nq => each_down nq (fun q => cnot_pair q (succ_q nq q)))); [done|].
    apply implements_down; [lia|]. intros. by apply implements_cnot.
Qed.

Definition layer_fwd_v (n : Z) (x : list F) (v : Z -> F * F) : Z -> F * F :=
  run_all (fwd_v x) (seqZ 0 n) (ring_v n (seqZ 0 n) (run_all (fwd_v x) (seqZ 0 n) v)).
Definition layer_inv_v (n : Z) (y : list F) (v : Z -> F * F) : Z -> F * F :=
  run_all (inv_v y) (reverse (seqZ 0 n))
    (ring_v n (reverse (seqZ 0 n)) (run_all (inv_v y) (reverse (seqZ 0 n)) v)).

Lemma rots_proper n x :
  transformer n (run_all (fwd_v x) (seqZ 0 n)) /\
  transformer n (run_all (inv_v x) (reverse (seqZ 0 n))).
Proof.
  split; apply run_all_proper; intros q Hq;
    [apply fwd_v_proper, elem_of_seqZ0, Hq | apply inv_v_proper, elem_of_seqZ_reverse, Hq].
Qed.

Lemma layers_proper n x : 2 <= n -> transformer n (layer_fwd_v n x) /\ transformer n (layer_inv_v n x).
Proof.
  intros Hn. destruct (rots_proper n x) as [P1 P2]. split; intros v w E.
  - apply P1, (ring_v_proper n (seqZ 0 n)); [done|apply elem_of_seqZ0|]. by apply P1.
  - apply P2, (ring_v_proper n (reverse (seqZ 0 n))); [done|apply elem_of_seqZ_reverse|]. by apply P2.
Qed.

Lemma implements_layers n x : 2 <= n -> lenZ x >= 2 * n ->
  implements n (layer_fwd x) (layer_fwd_v n x) /\ implements n (layer_inv x) (layer_inv_v n x).
Proof.
  intros Hn Hx. destruct (rots_proper n x) as [P1 P2]. split.
  - apply (implements_get n _ (fun nq => do! each_up nq (rot_fwd x) in
      do! cnot_ring false in each_up nq (rot_fwd x))); [done|].
    assert (implements n (each_up n (rot_fwd x)) (run_all (fwd_v x) (seqZ 0 n))) as I.
    { apply implements_up; [lia|]. intros q Hq. by apply (implements_rot n x q Hx Hq). }
    apply (implements_seq n _ _ _ (fun v => run_all (fwd_v x) (seqZ 0 n) (ring_v n (seqZ 0 n) v)));
      [done| |].
    + apply implements_seq; [by apply implements_cnot_ring|done..].
    + intros v w E. apply P1, ring_v_proper; [done|apply elem_of_seqZ0|done].
  - apply (implements_get n _ (fun nq => do! each_down nq (rot_inv x) in
      do! cnot_ring true in each_down nq (rot_inv x))); [done|].
    assert (implements n (each_down n (rot_inv x)) (run_all (inv_v x) (reverse (seqZ 0 n)))) as I.
    { apply implements_down; [lia|]. intros q Hq. by apply (implements_rot n x q Hx Hq). }
    apply (implements_seq n _ _ _ (fun v =>
      run_all (inv_v x) (reverse (seqZ 0 n)) (ring_v n (reverse (seqZ 0 n)) v))); [done| |].
    + apply implements_seq; [by apply implements_cnot_ring|done..].
    + intros v w E. apply P2, ring_v_proper; [done|apply elem_of_seqZ_reverse|done].
Qed.

(** The state |0...0>. *)
Definition e0 (k : Z) : F * F := (if k =? 0 then f1 else f0, f0).

Lemma implements_reset n : implements n reset_psi (fun _ => e0).
Proof.
  intros st W E. pose proof (kwf_dim_max _ W) as Hd. unfold reset_psi, bind at 1, get.
  destruct (for_inv_st (fun i (_ : unit) s => keeps st s /\ forall k, 0 <= k < i -> view s k = (f0, f0))
    (fun i _ => set_psi i (f0, f0)) (Z.to_nat (kern_dim st)) 0 tt st) as ([] & s & R & Hk & V).
  - intros i [] s Hi [Hk V]. destruct (set_psi_ok s i (f0, f0)) as (s1 & R & K1 & V1 & _);
      [apply Hk | lia |].
    exists tt, s1. split; [done|]. split; [eauto using keeps_trans|].
    intros k Hk0. rewrite V1 by lia. case_decide; [done|]. apply V. lia.
  - split; [by apply keeps_refl | lia].
  - unfold bind. rewrite R. pose proof (keeps_wf _ _ Hk) as W'.
    rewrite set_idx_in by (rewrite (kwf_re _ W'); done).
    eexists. split; [done|]. split.
    + destruct Hk as [[] ? ?]. split; [split|..]; simpl; rewrite ?lenZ_insert; done.
    + intros k Hk0. rewrite Z.add_0_l, Z2Nat.id in V by lia.
      assert (view s k = (f0, f0)) as [= Vr Vi] by (apply V; rewrite (kwf_dim _ W), E; lia).
      unfold view, e0. simpl psi_re. simpl psi_im. f_equal; [|done].
      change 0%nat with (Z.to_nat 0).
      rewrite lookup_total_set by (rewrite ?(kwf_re _ W'); change QAI_DIM_MAX with 65536; lia).
      destruct (decide (k = 0)) as [->|]; [done|]. by rewrite (proj2 (Z.eqb_neq k 0)).
Qed.

Fixpoint iter_v (T : (Z -> F * F) -> (Z -> F * F)) (r : nat) (v : Z -> F * F) : Z -> F * F :=
  match r with O => v | S r' => iter_v T r' (T v) end.

Lemma iter_v_proper n T r : transformer n T -> transformer n (iter_v T r).
Proof. intros P. induction r; intros v w E; simpl; [done|]. by apply IHr, P. Qed.

Lemma iter_v_S T r v : iter_v T (S r) v = T (iter_v T r v).
Proof. revert v. induction r; intros v; [done|]. simpl in *. by rewrite IHr. Qed.

Lemma implements_iter n m T r : implements n m T -> transformer n T ->
  implements n (for_ r 0 (fun _ _ => m) tt) (iter_v T r).
Proof.
  intros H P st W E.
  destruct (for_inv_st (fun i (_ : unit) s => keeps st s /\ veq n (view s) (iter_v T (Z.to_nat i) (view st)))
    (fun _ _ => m) r 0 tt st) as ([] & s & R & Hk & V).
  - intros i [] s Hi [Hk V]. destruct (H s) as (s1 & R & K1 & V1);
      [apply Hk | by rewrite (keeps_nq _ _ Hk) |].
    exists tt, s1. split; [done|]. split; [eauto using keeps_trans|].
    rewrite V1. replace (Z.to_nat (i + 1)) with (S (Z.to_nat i)) by lia.
    rewrite iter_v_S. by apply P.
  - split; [by apply keeps_refl | done].
  - exists s. rewrite Z.add_0_l, Nat2Z.id in V. done.
Qed.

(** The amplitudes [fidelity_exp_reps] ends with. *)
Definition circuit_v (n : Z) (x y : list F) (reps : nat) : Z -> F * F :=
  iter_v (layer_inv_v n y) reps (iter_v (layer_fwd_v n x) reps e0).

Definition fidelity_of (a : F * F) : F := k_exp_unit (clamp01 (a.1 ⊗ a.1 ⊕ a.2 ⊗ a.2)).

Lemma fidelity_exp_reps_run st n x y reps :
  kwf st -> kern_nq st = n -> lenZ x >= 2 * n -> lenZ y >= 2 * n ->
  exists st', fidelity_exp_reps x y reps st
    = (Ret (fidelity_of (circuit_v n x y (Z.to_nat reps) 0)), st') /\ keeps st st'.
Proof.
  intros W E Hx Hy. assert (2 <= n) as Hn by (pose proof (kwf_nq _ W); lia).
  destruct (layers_proper n x Hn) as [P1 _], (layers_proper n y Hn) as [_ P2].
  destruct (implements_layers n x Hn Hx) as [I1 _], (implements_layers n y Hn Hy) as [_ I2].
  assert (implements n (do! reset_psi in do! for_ (Z.to_nat reps) 0 (fun _ _ => layer_fwd x) tt in
    for_ (Z.to_nat reps) 0 (fun _ _ => layer_inv y) tt) (fun _ => circuit_v n x y (Z.to_nat reps))) as I.
  { apply (implements_seq n _ _ (fun _ => e0) (fun v =>
      iter_v (layer_inv_v n y) (Z.to_nat reps) (iter_v (layer_fwd_v n x) (Z.to_nat reps) v)));
      [apply implements_reset|apply implements_seq; [by apply implements_iter..|by apply iter_v_proper]|].
    intros v w Evw. by apply iter_v_proper, iter_v_proper. }
  destruct (I st W E) as (s & R & Hk & V). exists s. split; [|done].
  unfold fidelity_exp_reps.
  assert (forall m1 m2 m3 (m4 : K F), (do! m1 in do! m2 in do! m3 in m4) st
    = bind (do! m1 in do! m2 in m3) (fun _ : unit => m4) st) as -> .
  { intros. rewrite bind_assoc. unfold bind. destruct (m1 st) as [[] ?]; try done.
    by destruct (m2 _) as [[] ?]. }
  unfold bind at 1. rewrite R. unfold bind.
  rewrite psi_at_ok; [|apply Hk|done]. rewrite V; [done|]. split; [done | apply pow2_pos; lia].
Qed.

End Arrays.
