(* ===== verification/QaiFidelity.v ===== *)
(** * Theorems about the fidelity kernel

    What [fidelity_exp_reps] and [qai_fidelity_kernel_block] of fidelity_kernel.c compute: the
    agreement with the reference circuit for any arithmetic, the cancellation of a circuit with its
    own inverse for arithmetic that satisfies [NumLaws], and the rationals as an instance. *)
From S2P Require Import Prelude QaiModel QaiKernel.
From Stdlib Require Import Ring Qcanon Qround.
Local Open Scope Z_scope.

(** ** A circuit and its inverse, in exact arithmetic *)

(** The laws of exact arithmetic the comparison of a circuit with its inverse needs: a commutative
    ring, and a sign test. IEEE doubles satisfy them up to rounding only. *)
Class NumLaws (F : Type) `{!Num F} := {
  num_ring : ring_theory (f0 : F) f1 fadd fmul fsub fneg eq;
  flt_neg : forall x : F, flt x f0 = true -> flt (fneg x) f0 = false;
  flt_zero : forall x : F, flt x f0 = false -> flt (fneg x) f0 = false -> x = f0;
  pi_pos : flt (QAI_PI : F) f0 = false;
  half_pi_pos : flt (QAI_PI ⊗ f_half : F) f0 = false;
}.

Section Exact.
Context {F : Type} `{!Num F} `{!NumLaws F}.
#[local] Existing Instance F_inhabited.
Add Ring Fring : (num_ring (F := F)).

Lemma fneg_fneg (x : F) : fneg (fneg x) = x.
Proof. ring. Qed.

Lemma k_sin_neg (x : F) : k_sin (fneg x) = fneg (k_sin x).
Proof.
  unfold k_sin. destruct (flt x f0) eqn:E1.
  - rewrite (flt_neg _ E1), fneg_fneg. done.
  - destruct (flt (fneg x) f0) eqn:E2; [by rewrite fneg_fneg|].
    rewrite (flt_zero _ E1 E2). replace (fneg f0) with (f0 : F) by ring.
    rewrite pi_pos, half_pi_pos. ring.
Qed.

Lemma k_cos_neg (x : F) : k_cos (fneg x) = k_cos x.
Proof.
  unfold k_cos. destruct (flt x f0) eqn:E1; [by rewrite (flt_neg _ E1)|].
  destruct (flt (fneg x) f0) eqn:E2; [by rewrite fneg_fneg|].
  rewrite (flt_zero _ E1 E2). by replace (fneg f0) with (f0 : F) by ring.
Qed.

Definition scale (c : F) (v : Z -> F * F) (k : Z) : F * F := (c ⊗ (v k).1, c ⊗ (v k).2).

(** Multiplying all amplitudes commutes with the transformation. *)
Definition linear (n : Z) (T : (Z -> F * F) -> (Z -> F * F)) : Prop :=
  forall c v, veq n (T (scale c v)) (scale c (T v)).

Lemma scale_proper n c : transformer n (scale c).
Proof. intros v w E k Hk. unfold scale. by rewrite (E k Hk). Qed.

Lemma scale_scale n a b v : veq n (scale a (scale b v)) (scale (a ⊗ b) v).
Proof. intros k _. unfold scale; simpl. f_equal; ring. Qed.

Lemma scale_1 n v : veq n (scale f1 v) v.
Proof. intros k _. unfold scale. destruct (v k); simpl. f_equal; ring. Qed.

Lemma gate_v_linear n q g : linear n (gate_v q g).
Proof.
  intros c v k _. unfold gate_v, scale, row. destruct (Z.testbit k q); simpl; f_equal; ring.
Qed.

Lemma cnot_v_linear n c t : linear n (cnot_v c t).
Proof. intros a v k _. unfold cnot_v, scale. by destruct (Z.testbit k c). Qed.

Lemma linear_comp n T1 T2 : linear n T1 -> linear n T2 -> transformer n T2 ->
  linear n (fun v => T2 (T1 v)).
Proof. intros L1 L2 P c v. etransitivity; [by apply P, L1 | apply L2]. Qed.

(** [c^2 + s^2] for the half-angle pair a rotation by [t] uses. *)
Definition norm2 (t : F) : F :=
  k_cos (t ⊗ f_half) ⊗ k_cos (t ⊗ f_half) ⊕ k_sin (t ⊗ f_half) ⊗ k_sin (t ⊗ f_half).

Definition lam (x : list F) (q : Z) : F := norm2 (ang x (2 * q)) ⊗ norm2 (ang x (2 * q + 1)).

(** Two gates on the same qubit are the gate of the matrix product. *)
Definition cmul (a b : F * F) : F * F := (a.1 ⊗ b.1 ⊖ a.2 ⊗ b.2, a.1 ⊗ b.2 ⊕ a.2 ⊗ b.1).
Definition cadd (a b : F * F) : F * F := (a.1 ⊕ b.1, a.2 ⊕ b.2).
Definition gate_mul (a b : gate1) : gate1 :=
  mk_gate (cadd (cmul (g00 a) (g00 b)) (cmul (g01 a) (g10 b)))
          (cadd (cmul (g00 a) (g01 b)) (cmul (g01 a) (g11 b)))
          (cadd (cmul (g10 a) (g00 b)) (cmul (g11 a) (g10 b)))
          (cadd (cmul (g10 a) (g01 b)) (cmul (g11 a) (g11 b))).

Lemma row_mul (a0 a1 b00 b01 b10 b11 u w : F * F) :
  row a0 a1 (row b00 b01 u w) (row b10 b11 u w)
  = row (cadd (cmul a0 b00) (cmul a1 b10)) (cadd (cmul a0 b01) (cmul a1 b11)) u w.
Proof. unfold row, cadd, cmul; simpl. f_equal; ring. Qed.

Lemma gate_v_mul q a b v k : 0 <= q -> gate_v q a (gate_v q b v) k = gate_v q (gate_mul a b) v k.
Proof.
  intros Hq. unfold gate_v. destruct (Z.testbit k q) eqn:B.
  - rewrite testbit_clearbit, setbit_clearbit by done. apply row_mul.
  - rewrite testbit_setbit, clearbit_setbit by done. apply row_mul.
Qed.

Definition diag (c : F) : gate1 := mk_gate (c, f0) (f0, f0) (f0, f0) (c, f0).

Lemma gate_v_diag q c v k : gate_v q (diag c) v k = scale c v k.
Proof.
  unfold gate_v, scale, row, diag; simpl. destruct (Z.testbit k q); f_equal; ring.
Qed.

Lemma ry_undo t : gate_mul (ry_gate (fneg t)) (ry_gate t) = diag (norm2 t).
Proof.
  unfold gate_mul, ry_gate, diag, norm2, cadd, cmul.
  replace (fneg t ⊗ f_half) with (fneg (t ⊗ f_half)) by ring. rewrite k_sin_neg, k_cos_neg.
  cbn [g00 g01 g10 g11 fst snd]. f_equal; f_equal; ring.
Qed.

Lemma rz_undo t : gate_mul (rz_gate (fneg t)) (rz_gate t) = diag (norm2 t).
Proof.
  unfold gate_mul, rz_gate, diag, norm2, cadd, cmul.
  replace (fneg t ⊗ f_half) with (fneg (t ⊗ f_half)) by ring. rewrite k_sin_neg, k_cos_neg.
  cbn [g00 g01 g10 g11 fst snd]. f_equal; f_equal; ring.
Qed.

Lemma gate_undo n q a b c v : 0 <= q < n -> gate_mul a b = diag c ->
  veq n (gate_v q a (gate_v q b v)) (scale c v).
Proof. intros Hq E k Hk. by rewrite gate_v_mul, E, gate_v_diag by lia. Qed.

(** Undoing one qubit's rotations restores the vector up to [lam]. *)
Lemma rot_undo n x q v : 0 <= q < n -> veq n (inv_v x q (fwd_v x q v)) (scale (lam x q) v).
Proof.
  intros Hq. unfold inv_v, fwd_v, lam.
  etransitivity; [apply gate_v_proper, (gate_undo n q _ _ _ _ Hq (rz_undo _)); done|].
  etransitivity; [apply gate_v_linear|].
  etransitivity; [apply scale_proper, (gate_undo n q _ _ _ _ Hq (ry_undo _))|].
  etransitivity; [apply scale_scale|]. intros k _. unfold scale; simpl. f_equal; ring.
Qed.

Lemma flip_flip k t : 0 <= t -> flip (flip k t) t = k.
Proof.
  intros Ht. unfold flip. destruct (Z.testbit k t) eqn:B.
  - by rewrite testbit_clearbit, setbit_clearbit by done.
  - by rewrite testbit_setbit, clearbit_setbit by done.
Qed.

Lemma cnot_undo n q v : 2 <= n -> 0 <= q < n ->
  veq n (cnot_v q (succ_q n q) (cnot_v q (succ_q n q) v)) (scale f1 v).
Proof.
  intros Hn Hq. destruct (succ_q_ok n q Hn Hq) as [Hs Hne]. rewrite (scale_1 n v).
  intros k Hk. unfold cnot_v. destruct (Z.testbit k q) eqn:B; [|done].
  assert (Z.testbit (flip k (succ_q n q)) q = true) as ->; [|by rewrite flip_flip by lia].
  unfold flip. destruct (Z.testbit k (succ_q n q));
    [rewrite testbit_clearbit_ne | rewrite testbit_setbit_ne]; done || lia.
Qed.

Definition prodF (l : list F) : F := foldr fmul f1 l.

(** Steps undone in the opposite order. *)
Lemma undo_all n T T' (c : Z -> F) l :
  (forall q, q ∈ l -> transformer n (T' q) /\ linear n (T' q)) ->
  (forall q v, q ∈ l -> veq n (T' q (T q v)) (scale (c q) v)) ->
  forall v, veq n (run_all T' (reverse l) (run_all T l v)) (scale (prodF (c <$> l)) v).
Proof.
  induction l as [|q l IH]; intros HP HU v; [by rewrite (scale_1 n v)|].
  unfold run_all. rewrite reverse_cons, foldl_app. simpl.
  destruct (HP q ltac:(set_solver)) as [Pq Lq].
  etransitivity; [apply Pq, (IH ltac:(set_solver) ltac:(set_solver))|].
  etransitivity; [apply Lq|].
  etransitivity; [apply scale_proper, HU; set_solver|].
  etransitivity; [apply scale_scale|]. intros k _. unfold scale, prodF; simpl.
  change (list_fmap Z F c l) with (c <$> l). f_equal; ring.
Qed.

(** Losses of one layer and its inverse. *)
Definition layer_loss (n : Z) (x : list F) : F := prodF (lam x <$> seqZ 0 n).

Lemma ring_undo n (v : Z -> F * F) : 2 <= n -> veq n (ring_v n (reverse (seqZ 0 n)) (ring_v n (seqZ 0 n) v)) v.
Proof.
  intros Hn. etransitivity; [apply (undo_all n _ _ (fun _ => f1))|].
  - intros q Hq%elem_of_seqZ0. split; [by apply implements_cnot | apply cnot_v_linear].
  - intros q w Hq%elem_of_seqZ0. by apply cnot_undo.
  - assert (prodF ((fun _ => f1) <$> seqZ 0 n) = f1) as ->; [|apply scale_1].
    generalize (seqZ 0 n) as l. unfold prodF. induction l; csimpl; [done|]. rewrite IHl. ring.
Qed.

Lemma rots_undo n x v :
  veq n (run_all (inv_v x) (reverse (seqZ 0 n)) (run_all (fwd_v x) (seqZ 0 n) v))
    (scale (layer_loss n x) v).
Proof.
  apply undo_all.
  - intros q Hq%elem_of_seqZ0. split; [by apply inv_v_proper|].
    apply (linear_comp n _ (gate_v q _)); [apply gate_v_linear..|by apply gate_v_proper].
  - intros q w Hq%elem_of_seqZ0. by apply rot_undo.
Qed.

Lemma run_all_linear n T l :
  (forall q, q ∈ l -> transformer n (T q) /\ linear n (T q)) -> linear n (run_all T l).
Proof.
  unfold run_all. induction l as [|q l IH]; intros H c v; [done|]. simpl.
  etransitivity; [|apply IH; set_solver].
  apply (run_all_proper n T l); [intros; apply H; set_solver|]. apply H. set_solver.
Qed.

Lemma layer_undo n x v : 2 <= n ->
  veq n (layer_inv_v n x (layer_fwd_v n x v)) (scale (layer_loss n x ⊗ layer_loss n x) v).
Proof.
  intros Hn. destruct (rots_proper n x) as [_ P2].
  assert (transformer n (ring_v n (reverse (seqZ 0 n)))) as PR
    by (apply ring_v_proper; [done | apply elem_of_seqZ_reverse]).
  assert (linear n (ring_v n (reverse (seqZ 0 n)))) as LR.
  { apply run_all_linear. intros q Hq%elem_of_seqZ_reverse.
    split; [by apply implements_cnot | apply cnot_v_linear]. }
  assert (linear n (run_all (inv_v x) (reverse (seqZ 0 n)))) as LI.
  { apply run_all_linear. intros q Hq%elem_of_seqZ_reverse. split; [by apply inv_v_proper|].
    apply (linear_comp n _ (gate_v q _)); [apply gate_v_linear..|by apply gate_v_proper]. }
  unfold layer_inv_v, layer_fwd_v.
  etransitivity; [apply P2, PR, rots_undo|].
  etransitivity; [apply P2, LR|]. etransitivity; [apply LI|].
  etransitivity; [apply scale_proper, P2, (ring_undo n _ Hn)|].
  etransitivity; [apply scale_proper, rots_undo | apply scale_scale].
Qed.

Lemma layer_inv_linear n x : 2 <= n -> linear n (layer_inv_v n x).
Proof.
  intros Hn c v. destruct (rots_proper n x) as [_ P2].
  assert (linear n (run_all (inv_v x) (reverse (seqZ 0 n)))) as LI.
  { apply run_all_linear. intros q Hq%elem_of_seqZ_reverse. split; [by apply inv_v_proper|].
    apply (linear_comp n _ (gate_v q _)); [apply gate_v_linear..|by apply gate_v_proper]. }
  unfold layer_inv_v. etransitivity; [apply P2|apply LI].
  apply (linear_comp n (run_all (inv_v x) (reverse (seqZ 0 n))) (ring_v n (reverse (seqZ 0 n)))); [done| |].
  - apply run_all_linear. intros q Hq%elem_of_seqZ_reverse.
    split; [by apply implements_cnot | apply cnot_v_linear].
  - apply ring_v_proper; [done | apply elem_of_seqZ_reverse].
Qed.

Fixpoint powF (c : F) (r : nat) : F := match r with O => f1 | S r' => c ⊗ powF c r' end.

(** The whole circuit against its own inverse multiplies the initial state by the losses. *)
Lemma circuit_self n x r : 2 <= n ->
  veq n (circuit_v n x x r) (scale (powF (layer_loss n x ⊗ layer_loss n x) r) e0).
Proof.
  intros Hn. unfold circuit_v. generalize (@e0 F Num0) as v. destruct (layers_proper n x Hn) as [P1 P2].
  induction r as [|r IH]; intros v; [by rewrite (scale_1 n v)|].
  rewrite iter_v_S. simpl iter_v at 2. etransitivity; [apply P2, IH|].
  etransitivity; [by apply layer_inv_linear|].
  etransitivity; [apply scale_proper, (layer_undo n x v Hn)|].
  etransitivity; [apply scale_scale|]. intros k _. unfold scale; simpl. f_equal; ring.
Qed.

End Exact.

(** ** The kernel block *)

Section Block.
Context {F : Type} `{!Num F}.
#[local] Existing Instance F_inhabited.

(** The features of vector [i] of a float array. *)
Definition feat (src : list Z) (n_feat i : Z) : list F :=
  (fun j => f32_load (src !!! Z.to_nat (i * n_feat + j))) <$> seqZ 0 n_feat.

Lemma lenZ_feat src n i : 0 <= n -> lenZ (feat src n i) = n.
Proof. intros. unfold feat, lenZ. rewrite length_fmap, length_seqZ. lia. Qed.

Lemma load_feat_ok (st : @kstate F) src dst n i :
  0 <= i -> 0 <= n <= lenZ dst -> i * n + n <= lenZ src ->
  load_feat (drop (Z.to_nat (i * n)) src) dst n st
  = (Ret (feat src n i ++ drop (Z.to_nat n) dst), st).
Proof.
  intros Hi Hn Hs. unfold load_feat.
  set (f := fun j => f32_load (src !!! Z.to_nat (i * n + j)) : F).
  destruct (for_inv (fun j d => d = (f <$> seqZ 0 j) ++ drop (Z.to_nat j) dst)
    (fun j d => let! b := idx (drop (Z.to_nat (i * n)) src) j in set_idx d j (f32_load b))
    (Z.to_nat n) 0 dst st) as (d & E & ->).
  - intros j d Hj ->. eexists. split; [|apply (insert_prefix f); lia].
    unfold bind. rewrite (idx_in _ j (src !!! Z.to_nat (i * n + j))); [|lia|].
    2: { rewrite lookup_drop. replace (Z.to_nat (i * n) + Z.to_nat j)%nat with (Z.to_nat (i * n + j)) by lia.
         apply list_lookup_lookup_total_lt. unfold lenZ in *. lia. }
    rewrite set_idx_in; [done|]. unfold lenZ in *.
    rewrite length_app, length_fmap, length_seqZ, length_drop. lia.
  - done.
  - rewrite E, Z.add_0_l, Z2Nat.id by lia. done.
Qed.

(** A circuit reads the first two angles per qubit only. *)
Definition ang_eq (n : Z) (x x' : list F) : Prop := forall i, 0 <= i < 2 * n -> ang x i = ang x' i.

Lemma run_all_ext (T T' : Z -> (Z -> F * F) -> (Z -> F * F)) l v :
  (forall q w, q ∈ l -> T q w = T' q w) -> run_all T l v = run_all T' l v.
Proof.
  unfold run_all. revert v. induction l as [|q l IH]; intros v H; [done|]. simpl.
  rewrite H by set_solver. apply IH. set_solver.
Qed.

Lemma layers_ext n x x' v : ang_eq n x x' ->
  layer_fwd_v n x v = layer_fwd_v n x' v /\ layer_inv_v n x v = layer_inv_v n x' v.
Proof.
  intros H.
  assert (forall w, run_all (fwd_v x) (seqZ 0 n) w = run_all (fwd_v x') (seqZ 0 n) w) as R1.
  { intros w. apply run_all_ext. intros q u Hq%elem_of_seqZ0. unfold fwd_v. by rewrite !H by lia. }
  assert (forall w, run_all (inv_v x) (reverse (seqZ 0 n)) w
                    = run_all (inv_v x') (reverse (seqZ 0 n)) w) as R2.
  { intros w. apply run_all_ext. intros q u Hq%elem_of_seqZ_reverse. unfold inv_v. by rewrite !H by lia. }
  unfold layer_fwd_v, layer_inv_v. by rewrite !R1, !R2.
Qed.

Lemma circuit_ext n x x' y y' r : ang_eq n x x' -> ang_eq n y y' ->
  circuit_v n x y r = circuit_v n x' y' r.
Proof.
  intros Hx Hy. unfold circuit_v.
  assert (forall w, iter_v (layer_fwd_v n x) r w = iter_v (layer_fwd_v n x') r w) as ->.
  { induction r; intros w; simpl; [done|]. by rewrite (proj1 (layers_ext n x x' w Hx)), IHr. }
  generalize (iter_v (layer_fwd_v n x') r e0) as w. induction r; intros w; simpl; [done|].
  by rewrite (proj2 (layers_ext n y y' w Hy)), IHr.
Qed.

Lemma ang_app n (l k : list F) : lenZ l = 2 * n -> ang_eq n (l ++ k) l.
Proof.
  intros H i Hi. unfold ang, lenZ in *. rewrite !list_lookup_total_alt.
  by rewrite lookup_app_l by lia.
Qed.

(** Entry [i] of the kernel block: query [i / n_ref] against reference [i mod n_ref]. *)
Definition kernel_entry (rf query : list Z) (nq n_ref reps i : Z) : Z :=
  f32_store (fidelity_of (circuit_v nq (feat query (nq * 2) (i / n_ref))
    (feat rf (nq * 2) (i mod n_ref)) (Z.to_nat reps) 0)).

Section Loops.
Context (st0 : @kstate F) (rf query out0 : list Z) (nq n_ref n_query reps : Z).
Context (Hq : nq = 8 \/ nq = 16) (Hr : 0 < n_ref) (Hnq : 0 < n_query).
Context (Hrf : n_ref * (nq * 2) <= lenZ rf) (Hqy : n_query * (nq * 2) <= lenZ query).
Context (Hout : n_query * n_ref <= lenZ out0).
Context (E0 : kern_nq st0 = nq).

Definition block_prefix (i : Z) : list Z :=
  (kernel_entry rf query nq n_ref reps <$> seqZ 0 i) ++ drop (Z.to_nat i) out0.

Lemma lenZ_block_prefix i : 0 <= i <= lenZ out0 -> lenZ (block_prefix i) = lenZ out0.
Proof.
  intros Hi. unfold block_prefix, lenZ in *.
  rewrite length_app, length_fmap, length_seqZ, length_drop. lia.
Qed.

Lemma kernel_pair_ok st qv rv q r k :
  0 <= q < n_query -> 0 <= r < n_ref -> keeps st0 st -> lenZ rv = 32 ->
  qv = feat query (nq * 2) q ++ k ->
  exists st' rv', kernel_pair rf qv (nq * 2) n_ref reps q r (rv, block_prefix (q * n_ref + r)) st
    = (Ret (rv', block_prefix (q * n_ref + r + 1)), st') /\ keeps st0 st' /\ lenZ rv' = 32.
Proof.
  intros Hqi Hri Hk Hrv ->. unfold kernel_pair, bind. simpl fst. simpl snd.
  assert (0 <= q * n_ref + r < lenZ out0) as Hi by nia.
  rewrite load_feat_ok; [|lia|lia|nia].
  pose proof (lenZ_feat rf (nq * 2) r ltac:(lia)) as L1.
  pose proof (lenZ_feat query (nq * 2) q ltac:(lia)) as L2.
  destruct (fidelity_exp_reps_run st nq (feat query (nq * 2) q ++ k)
    (feat rf (nq * 2) r ++ drop (Z.to_nat (nq * 2)) rv) reps) as (s1 & R & K1);
    [apply Hk | by rewrite (keeps_nq _ _ Hk) | rewrite lenZ_app, L2; pose proof (lenZ_nonneg k); lia
    | rewrite lenZ_app, L1; pose proof (lenZ_nonneg (drop (Z.to_nat (nq * 2)) rv)); lia |].
  rewrite R. rewrite set_idx_in by (rewrite lenZ_block_prefix; lia).
  exists s1. eexists. split; [|split; [eauto using keeps_trans|]].
  - unfold ret. do 3 f_equal. unfold block_prefix. rewrite <- insert_prefix by lia. f_equal.
    unfold kernel_entry.
    rewrite (circuit_ext nq (feat query (nq * 2) q ++ k) (feat query (nq * 2) q)
      (feat rf (nq * 2) r ++ drop (Z.to_nat (nq * 2)) rv) (feat rf (nq * 2) r)) by (apply ang_app; lia).
    replace ((q * n_ref + r) / n_ref) with q by (apply (Z.div_unique _ _ _ r); lia).
    by replace ((q * n_ref + r) mod n_ref) with r by (apply (Z.mod_unique _ _ q); lia).
  - rewrite lenZ_app, L1. unfold lenZ in *. rewrite length_drop. lia.
Qed.

Lemma kernel_query_ok st qv rv q :
  0 <= q < n_query -> keeps st0 st -> lenZ qv = 32 -> lenZ rv = 32 ->
  exists st' qv' rv', kernel_query rf query (nq * 2) n_ref reps q (qv, rv, block_prefix (q * n_ref)) st
    = (Ret (qv', rv', block_prefix ((q + 1) * n_ref)), st') /\ keeps st0 st' /\
      lenZ qv' = 32 /\ lenZ rv' = 32.
Proof.
  intros Hqi Hk Hqv Hrv. unfold kernel_query, bind at 1. simpl fst. simpl snd.
  rewrite load_feat_ok; [|lia|lia|nia].
  set (qv' := feat query (nq * 2) q ++ drop (Z.to_nat (nq * 2)) qv).
  assert (lenZ qv' = 32) as Hqv'.
  { unfold qv'. rewrite lenZ_app, lenZ_feat by lia. unfold lenZ in *. rewrite length_drop. lia. }
  destruct (for_inv_st (fun r a s => keeps st0 s /\ lenZ a.1 = 32 /\ a.2 = block_prefix (q * n_ref + r))
    (kernel_pair rf qv' (nq * 2) n_ref reps q) (Z.to_nat n_ref) 0 (rv, block_prefix (q * n_ref)) st)
    as ([rv' out] & s & R & Hk' & Hrv' & Eo); simpl in *.
  - intros r [rv1 out] s Hr1 (K1 & L1 & Eo). simpl in L1, Eo. subst out.
    destruct (kernel_pair_ok s qv' rv1 q r (drop (Z.to_nat (nq * 2)) qv)) as (s' & rv2 & R & K2 & L2);
      [lia..|done|done|done|].
    exists (rv2, block_prefix (q * n_ref + r + 1)), s'. split; [done|]. split; [done|]. split; [done|].
    simpl. f_equal. lia.
  - simpl. rewrite Z.add_0_r. done.
  - rewrite Z2Nat.id, Z.add_0_l in * by lia. exists s, qv', rv'. unfold bind.
    rewrite R. subst out. split; [|done]. simpl. unfold ret. by replace ((q + 1) * n_ref) with (q * n_ref + n_ref) by lia.
Qed.

Lemma kernel_loop st qv rv :
  keeps st0 st -> lenZ qv = 32 -> lenZ rv = 32 ->
  exists st' qv' rv', for_ (Z.to_nat n_query) 0 (kernel_query rf query (nq * 2) n_ref reps)
      (qv, rv, out0) st = (Ret (qv', rv', block_prefix (n_query * n_ref)), st') /\ keeps st0 st'.
Proof.
  intros Hk Hqv Hrv.
  destruct (for_inv_st (fun q a s => keeps st0 s /\ lenZ a.1.1 = 32 /\ lenZ a.1.2 = 32 /\
      a.2 = block_prefix (q * n_ref))
    (kernel_query rf query (nq * 2) n_ref reps) (Z.to_nat n_query) 0 (qv, rv, out0) st)
    as ([[qv' rv'] out] & s & R & Hk' & _ & _ & Eo); simpl in *.
  - intros q [[qv1 rv1] out] s Hq1 (K1 & L1 & L2 & Eo). simpl in L1, L2, Eo. subst out.
    destruct (kernel_query_ok s qv1 rv1 q) as (s' & qv2 & rv2 & R & K2 & L3 & L4); [lia|done..|].
    exists (qv2, rv2, block_prefix ((q + 1) * n_ref)), s'. done.
  - done.
  - rewrite Z2Nat.id in Eo by lia. subst out. eauto.
Qed.

End Loops.

(** C2. the simulator agrees with the mathematical circuit. On a well-formed state every array
    access of [reset_psi], the gate passes with their save area, the CNOT ring and the layers is in
    bounds, the call returns, and its result is [k_exp_unit] (the partial sum of the exponential series
    that the code returns) of the squared modulus, clamped to [0, 1], of amplitude zero of the
    reference circuit, in which each gate acts on the whole vector at once. *)
Theorem fidelity_exp_reps_refines (st : @kstate F) x y reps
    (W : kwf st) (Hx : lenZ x >= 2 * kern_nq st) (Hy : lenZ y >= 2 * kern_nq st) :
  exists st', fidelity_exp_reps x y reps st
    = (Ret (fidelity_of (circuit_v (kern_nq st) x y (Z.to_nat reps) 0)), st') /\ keeps st st'.
Proof. by apply fidelity_exp_reps_run. Qed.

Lemma kernel_block_run (st : @kstate F) t0 t1 qv0 rv0 rf query out_k
    n_ref n_query reps n_qubits
    (Hw : kwf st) (Hq : n_qubits = 8 \/ n_qubits = 16)
    (Hr : 0 < n_ref <= 32) (Hn : 0 < n_query <= 32) (Hp : n_ref * n_query <= 32)
    (Hreps : 0 < reps <= 3)
    (Hrf : n_ref * (n_qubits * 2) <= lenZ rf) (Hqy : n_query * (n_qubits * 2) <= lenZ query)
    (Hout : n_query * n_ref <= lenZ out_k) (Hqv : lenZ qv0 = 32) (Hrv : lenZ rv0 = 32)
    (Ht0 : 0 <= millis t0 < 1000) (Ht1 : 0 <= millis t1 < 1000) :
  exists st', qai_fidelity_kernel_block t0 t1 qv0 rv0 rf n_ref query n_query reps n_qubits out_k st
    = (Ret ((kernel_entry rf query n_qubits n_ref reps <$> seqZ 0 (n_query * n_ref))
              ++ drop (Z.to_nat (n_query * n_ref)) out_k,
            u32 ((seconds t1 - seconds t0) * 1000 + (millis t1 - millis t0))), st') /\
    kwf st'.
Proof.
  unfold qai_fidelity_kernel_block, QAI_REPS, QAI_KERNEL_MAX_PAIRS.
  rewrite (proj2 (Z.eqb_neq n_ref 0)), (proj2 (Z.eqb_neq n_query 0)), (proj2 (Z.eqb_neq reps 0)) by lia.
  rewrite uwrap_small by (unfold is_u; nia).
  assert ((reps >? 3) = false /\ (n_ref >? 32) = false /\ (n_query >? 32) = false /\
    (n_ref * n_query >? 32) = false) as (-> & -> & -> & ->) by (repeat split; lia).
  assert (negb (n_qubits =? 8) && negb (n_qubits =? 16) = false) as -> by (destruct Hq; subst; done).
  simpl orb. unfold guard_err. rewrite !bind_ret_l. unfold bind at 1, kernel_select, modify.
  set (st1 := mk_kstate _ _ _ _ _ _ _).
  assert (kwf st1) as W1.
  { destruct Hw. unfold st1. split; try done; simpl; [destruct Hq; subst; lia|].
    destruct Hq; subst; reflexivity. }
  destruct (kernel_loop st1 rf query out_k n_qubits n_ref n_query reps Hq ltac:(lia) ltac:(lia)
    Hrf Hqy Hout eq_refl st1 qv0 rv0) as (s & qv & rv & R & Hk); [by apply keeps_refl|done..|].
  unfold bind. rewrite R. simpl. rewrite delta_ms_ok by done. exists s. split; [done | apply Hk].
Qed.

(** C35. the kernel block. With the argument checks of [qai_fidelity_kernel_block] satisfied and
    arrays that hold the announced vectors, the call returns: entry [q * n_ref + r] of the output is
    the kernel of query [q] and reference [r], entries past the block are untouched, and no array
    access leaves its bounds. *)
Theorem qai_fidelity_kernel_block_entries (st : @kstate F) t0 t1 qv0 rv0 rf query out_k
    n_ref n_query reps n_qubits
    (Hw : kwf st) (Hq : n_qubits = 8 \/ n_qubits = 16)
    (Hr : 0 < n_ref <= 32) (Hn : 0 < n_query <= 32) (Hp : n_ref * n_query <= 32)
    (Hreps : 0 < reps <= 3)
    (Hrf : n_ref * (n_qubits * 2) <= lenZ rf) (Hqy : n_query * (n_qubits * 2) <= lenZ query)
    (Hout : n_query * n_ref <= lenZ out_k) (Hqv : lenZ qv0 = 32) (Hrv : lenZ rv0 = 32)
    (Ht0 : 0 <= millis t0 < 1000) (Ht1 : 0 <= millis t1 < 1000) :
  exists st', qai_fidelity_kernel_block t0 t1 qv0 rv0 rf n_ref query n_query reps n_qubits out_k st
    = (Ret ((kernel_entry rf query n_qubits n_ref reps <$> seqZ 0 (n_query * n_ref))
              ++ drop (Z.to_nat (n_query * n_ref)) out_k,
            u32 ((seconds t1 - seconds t0) * 1000 + (millis t1 - millis t0))), st').
Proof. destruct (kernel_block_run st t0 t1 qv0 rv0 rf query out_k n_ref n_query reps n_qubits) as (s & R & _); eauto. Qed.

End Block.

Section SelfFidelity.
Context {F : Type} `{!Num F} `{!NumLaws F}.
#[local] Existing Instance F_inhabited.
Add Ring Fring2 : (num_ring (F := F)).

(** a vector against itself. In exact arithmetic the inverse layers undo the forward layers up
    to the factor [c^2 + s^2] of each rotation: the fidelity of [x] with itself is that of the
    accumulated factor, and when the sine and cosine used satisfy [c^2 + s^2 = 1] it is
    [exp(1)] as [k_exp_unit] computes it, whatever the vector and the number of repetitions. *)
Theorem self_fidelity (st : @kstate F) x reps
    (W : kwf st) (Hx : lenZ x >= 2 * kern_nq st) :
  let kappa := powF (layer_loss (kern_nq st) x ⊗ layer_loss (kern_nq st) x) (Z.to_nat reps) in
  (exists st', fidelity_exp_reps x x reps st
     = (Ret (k_exp_unit (clamp01 (kappa ⊗ kappa))), st') /\ keeps st st') /\
  ((forall q, 0 <= q < kern_nq st -> lam x q = f1) -> kappa = f1).
Proof.
  intros kappa. split.
  - destruct (fidelity_exp_reps_run st (kern_nq st) x x reps W eq_refl Hx Hx) as (s & R & Hk).
    exists s. split; [|done]. rewrite R. do 2 f_equal. pose proof (kwf_nq _ W).
    rewrite (circuit_self (kern_nq st) x (Z.to_nat reps)) by
      (lia || (split; [lia | apply pow2_pos; lia])).
    unfold fidelity_of, scale, e0. simpl. fold kappa. f_equal. f_equal. ring.
  - intros H. assert (layer_loss (kern_nq st) x = f1) as L.
    { unfold layer_loss, prodF.
      assert (forall l, (forall q, q ∈ l -> lam x q = f1) -> foldr fmul f1 (lam x <$> l) = f1) as G.
      { induction l as [|q l IH]; intros Hl; [done|]. rewrite fmap_cons. simpl.
        rewrite IH, (Hl q) by set_solver. ring. }
      apply G. intros q Hq%elem_of_seqZ0. by apply H. }
    unfold kappa. rewrite L. generalize (Z.to_nat reps) as r. induction r; simpl; [done|].
    rewrite IHr. ring.
Qed.

End SelfFidelity.

(** ** The rationals as an implementation of the interface

    Exact arithmetic; the conversions read bit patterns as fixed-point numbers, which is all the
    witnesses below need of them. *)
#[export] Instance Num_Qc : Num Qc := {
  f_lit n d := Q2Qc (QArith_base.Qmake n (Z.to_pos d));
  fadd := Qcplus; fsub := Qcminus; fmul := Qcmult; fdiv := Qcdiv; fneg := Qcopp;
  flt a b := if Qclt_le_dec a b then true else false;
  f32_load z := Q2Qc (QArith_base.Qmake z 65536);
  f32_store q := Qround.Qfloor (Qcmult q (Q2Qc (QArith_base.inject_Z 65536)));
  f_to_i64 q := Qround.Qfloor q;
}.

Lemma Qc_flt_true a b : flt a b = true <-> Qclt a b.
Proof.
  simpl. destruct (Qclt_le_dec a b) as [H|H]; [done|]. split; [done|].
  intros C. by apply Qcle_not_lt in H.
Qed.

Lemma Qc_flt_false a b : flt a b = false <-> Qcle b a.
Proof.
  simpl. destruct (Qclt_le_dec a b) as [H|H]; [|done]. split; [done|].
  intros C. by apply Qclt_not_le in H.
Qed.

#[export] Instance NumLaws_Qc : NumLaws Qc.
Proof.
  split.
  - exact Qcrt.
  - intros x Hx%Qc_flt_true. apply Qc_flt_false. change (f0 : Qc) with (0%Qc) in *.
    change (fneg x) with (Qcopp x). apply Qclt_le_weak in Hx. apply Qcopp_le_compat in Hx. done.
  - intros x Hx%Qc_flt_false Hn%Qc_flt_false. change (f0 : Qc) with (0%Qc) in *.
    change (fneg x) with (Qcopp x) in Hn. apply Qcle_antisym; [|done].
    apply Qcopp_le_compat in Hn. by rewrite Qcopp_involutive in Hn.
  - apply Qc_flt_false. vm_compute. done.
  - apply Qc_flt_false. vm_compute. done.
Qed.

Lemma kwf_init {F} `{!Num F} : kwf (kstate_init (F := F)).
Proof.
  unfold kstate_init. split; cbn [psi_re psi_im tmp_re tmp_im kern_nq kern_dim];
    [unfold lenZ; rewrite length_replicate; by apply Z2Nat.id .. | |]; done.
Qed.

(** ** Witnesses *)

Definition init_Qc : @kstate Qc := kstate_init.

Lemma fidelity_exp_reps_witness :
  exists st', fidelity_exp_reps (replicate 16 (f1 : Qc)) (replicate 16 f0) 3 init_Qc
    = (Ret (fidelity_of (circuit_v (kern_nq init_Qc) (replicate 16 f1) (replicate 16 f0) (Z.to_nat 3) 0)),
       st') /\ keeps init_Qc st'.
Proof.
  apply (fidelity_exp_reps_refines init_Qc (replicate 16 (f1 : Qc)) (replicate 16 f0) 3);
    [apply kwf_init | change (kern_nq init_Qc) with 8; unfold lenZ; rewrite length_replicate; lia ..].
Defined.

Lemma qai_fidelity_kernel_block_witness :
  exists st', qai_fidelity_kernel_block (mk_TEE_Time 1 0) (mk_TEE_Time 1 7)
      (replicate 32 (f0 : Qc)) (replicate 32 f0) (replicate 16 0) 1 (replicate 32 0) 2 3 8
      (replicate 5 9) init_Qc
    = (Ret ((kernel_entry (F := Qc) (replicate 16 0) (replicate 32 0) 8 1 3 <$> seqZ 0 (2 * 1))
              ++ drop (Z.to_nat (2 * 1)) (replicate 5 9),
            u32 ((seconds (mk_TEE_Time 1 7) - seconds (mk_TEE_Time 1 0)) * 1000
                 + (millis (mk_TEE_Time 1 7) - millis (mk_TEE_Time 1 0)))), st').
Proof.
  apply (qai_fidelity_kernel_block_entries init_Qc (mk_TEE_Time 1 0) (mk_TEE_Time 1 7)
    (replicate 32 (f0 : Qc)) (replicate 32 f0) (replicate 16 0) (replicate 32 0) (replicate 5 9) 1 2 3 8).
  all: lazymatch goal with
       | |- kwf _ => apply kwf_init
       | |- _ \/ _ => left; reflexivity
       | |- context [lenZ _] => unfold lenZ; rewrite length_replicate; lia
       | |- _ => simpl; lia
       end.
Defined.

Lemma self_fidelity_witness :
  let kappa := powF (layer_loss (kern_nq init_Qc) (replicate 16 (f0 : Qc))
                     ⊗ layer_loss (kern_nq init_Qc) (replicate 16 f0)) (Z.to_nat 3) in
  (exists st', fidelity_exp_reps (replicate 16 (f0 : Qc)) (replicate 16 f0) 3 init_Qc
     = (Ret (k_exp_unit (clamp01 (kappa ⊗ kappa))), st') /\ keeps init_Qc st') /\
  ((forall q, 0 <= q < kern_nq init_Qc -> lam (replicate 16 (f0 : Qc)) q = f1) -> kappa = f1).
Proof.
  apply (self_fidelity init_Qc (replicate 16 (f0 : Qc)) 3);
    [apply kwf_init | change (kern_nq init_Qc) with 8; unfold lenZ; rewrite length_replicate; lia].
Defined.
