(* ===== verification/QaiTa.v ===== *)
(** * The QAI trusted application's commands

    optee_examples/qai_ta/ta/qai_ta.c: the entry points and command handlers, over the parameters a
    client passes. A memory reference is the list of its bytes; reads and writes outside it are
    undefined behaviour. The TA runs on AArch64: [size_t] has 64 bits and integers are stored
    little-endian. Concurrent changes of the shared buffers by the normal world are not modelled. *)
From Stdlib Require Import QArith.Qcanon.
From S2P Require Import Prelude QaiModel QaiKernel QaiFidelity.
Local Open Scope Z_scope.

(** ** Parameters and state *)

(** A TEE_Param: both members of the union; a handler reads the one its parameter types name. *)
Record TEE_Param := mk_param {
  memref_buffer : list Z;
  memref_size : Z;
  value_a : Z;
  value_b : Z;
}.

Definition TEE_PARAM_TYPE_NONE : Z := 0.
Definition TEE_PARAM_TYPE_VALUE_INPUT : Z := 1.
Definition TEE_PARAM_TYPE_MEMREF_INPUT : Z := 5.
Definition TEE_PARAM_TYPE_MEMREF_OUTPUT : Z := 6.

Definition TEE_PARAM_TYPES (t0 t1 t2 t3 : Z) : Z :=
  Z.lor (Z.lor (Z.lor t0 (Z.shiftl t1 4)) (Z.shiftl t2 8)) (Z.shiftl t3 12).

(** Structures of include/qai_ta.h *)
Record qai_input := mk_input { num_features : Z; features : list Z }.
Definition sizeof_qai_input : Z := 68.
Definition sizeof_qai_protected_input : Z := 72.
Definition sizeof_qai_output : Z := 16.
Definition sizeof_qai_info : Z := 28.
Definition sizeof_qai_fidelity_bench : Z := 24.
Definition sizeof_qai_kernel_block_in : Z := 12.
Definition sizeof_qai_kernel_block_out : Z := 8.
Definition sizeof_qai_hai_infer_in : Z := 12.
Definition sizeof_qai_hai_infer_out : Z := 8.

Definition TA_QAI_CMD_INFER_BASELINE : Z := 0.
Definition TA_QAI_CMD_INFER_TINYML : Z := 1.
Definition TA_QAI_CMD_INFER_QAI : Z := 2.
Definition TA_QAI_CMD_INFER_PROTECTED : Z := 3.
Definition TA_QAI_CMD_GET_INFO : Z := 4.
Definition TA_QAI_CMD_BENCH_FIDELITY : Z := 5.
Definition TA_QAI_CMD_QOC_BLOCK : Z := 6.
Definition TA_QAI_CMD_HAI_INFER : Z := 7.
Definition TA_QAI_CMD_QMOC_BLOCK : Z := 8.

Definition output_bytes (o : qai_output) : list Z :=
  bytes32 [prediction o; confidence o; score o; model_id o].

(** The [int32_t] values of the first [n] words of a byte string. *)
Definition ints32 (n : nat) (l : list Z) : list Z := i32 <$> words32 n l.

Definition input_of_bytes (b : list Z) : qai_input :=
  mk_input (le_val (take 4 b)) (ints32 16 (drop 4 b)).

Section Ta.
Context {F : Type} `{!Num F}.

(** Global state of an invocation: the parameters (in shared buffers) and the kernel's statics. *)
Record ta_state := mk_ta { params : list TEE_Param; kern : @kstate F }.

Abbreviation T := (M ta_state).

(** What the handlers read from their environment: the system time before and after the timed part,
    and the contents of uninitialised stack arrays ([pred]; the benchmark's [x], [y] and [self_x];
    the block's [qv] and [rv]). *)
Record ta_env := mk_env {
  env_t0 : TEE_Time;
  env_t1 : TEE_Time;
  env_pred : list Z;
  env_x : list F;
  env_y : list F;
  env_self : list F;
  env_qv : list F;
  env_rv : list F;
}.

Definition param (i : Z) : T TEE_Param := let! st := get in idx (params st) i.

Definition set_param (i : Z) (p : TEE_Param) : T unit :=
  let! st := get in
  let! ps := set_idx (params st) i p in
  put (mk_ta ps (kern st)).

Definition run_kernel {A} (m : M (@kstate F) A) : T A := fun st =>
  let (r, k) := m (kern st) in (r, mk_ta (params st) k).

(** [TEE_MemMove(dst, p->memref.buffer + off, n)] *)
Definition mem_in (p : TEE_Param) (off n : Z) : T (list Z) :=
  of_opt OutOfBounds (rd (memref_buffer p) off n).

(** [TEE_MemMove(p->memref.buffer + off, src, n)] *)
Definition mem_out (i off : Z) (src : list Z) : T unit :=
  let! p := param i in
  let! b := of_opt OutOfBounds (wr (memref_buffer p) off src) in
  set_param i (mk_param b (memref_size p) (value_a p) (value_b p)).

Definition set_size (i n : Z) : T unit :=
  let! p := param i in
  set_param i (mk_param (memref_buffer p) n (value_a p) (value_b p)).

(** ** Entry points *)

Definition TA_OpenSessionEntryPoint (param_types : Z) : T unit :=
  let exp := TEE_PARAM_TYPES TEE_PARAM_TYPE_NONE TEE_PARAM_TYPE_NONE TEE_PARAM_TYPE_NONE
               TEE_PARAM_TYPE_NONE in
  guard_err (negb (param_types =? exp)) TEE_ERROR_BAD_PARAMETERS.

Definition copy_input (i : Z) : T qai_input :=
  let! p := param i in
  do! guard_err (memref_size p <? sizeof_qai_input) TEE_ERROR_BAD_PARAMETERS in
  let! b := mem_in p 0 sizeof_qai_input in
  let inp := input_of_bytes b in
  do! guard_err ((num_features inp =? 0) || (num_features inp >? QAI_MAX_FEATURES))
    TEE_ERROR_BAD_PARAMETERS in
  ret inp.

Definition write_output (i : Z) (out : qai_output) : T unit :=
  let! p := param i in
  do! guard_err (memref_size p <? sizeof_qai_output) TEE_ERROR_SHORT_BUFFER in
  do! mem_out i 0 (output_bytes out) in
  set_size i sizeof_qai_output.

(** The model switch of [cmd_infer_plain] and [cmd_infer_protected]. *)
Definition infer_model (mid : Z) (x : list Z) (n : Z) : T qai_output :=
  if mid =? QAI_MODEL_BASELINE then qai_infer_baseline x n
  else if mid =? QAI_MODEL_TINYML then qai_infer_tinyml x n
  else if mid =? QAI_MODEL_QAI then qai_infer_qai x n
  else err TEE_ERROR_BAD_PARAMETERS.

Definition cmd_infer_plain (param_types mid : Z) : T unit :=
  let exp := TEE_PARAM_TYPES TEE_PARAM_TYPE_MEMREF_INPUT TEE_PARAM_TYPE_MEMREF_OUTPUT
               TEE_PARAM_TYPE_NONE TEE_PARAM_TYPE_NONE in
  do! guard_err (negb (param_types =? exp)) TEE_ERROR_BAD_PARAMETERS in
  let! inp := copy_input 0 in
  let! out := infer_model mid (features inp) (num_features inp) in
  write_output 1 out.

Definition cmd_infer_protected (param_types : Z) : T unit :=
  let exp := TEE_PARAM_TYPES TEE_PARAM_TYPE_MEMREF_INPUT TEE_PARAM_TYPE_MEMREF_OUTPUT
               TEE_PARAM_TYPE_NONE TEE_PARAM_TYPE_NONE in
  do! guard_err (negb (param_types =? exp)) TEE_ERROR_BAD_PARAMETERS in
  let! p := param 0 in
  do! guard_err (memref_size p <? sizeof_qai_protected_input) TEE_ERROR_BAD_PARAMETERS in
  let! pin := mem_in p 0 sizeof_qai_protected_input in
  let nf := le_val (take 4 pin) in
  let mid := le_val (take 4 (drop 4 pin)) in
  let cipher := drop 8 pin in
  do! guard_err ((nf =? 0) || (nf >? QAI_MAX_FEATURES)) TEE_ERROR_BAD_PARAMETERS in
  let feat_bytes := u32 (nf * 4) in
  let! plain := qai_xor_crypt cipher feat_bytes in
  (* in.features: zeroed, then the first feat_bytes bytes copied *)
  let! src := of_opt OutOfBounds (rd plain 0 feat_bytes) in
  let! fb := of_opt OutOfBounds (wr (replicate 64 0) 0 src) in
  let! out := infer_model mid (ints32 16 fb) nf in
  write_output 1 out.

Definition cmd_get_info (param_types : Z) : T unit :=
  let exp := TEE_PARAM_TYPES TEE_PARAM_TYPE_MEMREF_OUTPUT TEE_PARAM_TYPE_NONE
               TEE_PARAM_TYPE_NONE TEE_PARAM_TYPE_NONE in
  do! guard_err (negb (param_types =? exp)) TEE_ERROR_BAD_PARAMETERS in
  let! p := param 0 in
  do! guard_err (memref_size p <? sizeof_qai_info) TEE_ERROR_SHORT_BUFFER in
  let info := [1; QAI_FEATURE_COUNT;
               4 * lenZ qai_baseline_w + 4; 4 * lenZ qai_tinyml_w + 4;
               4 * lenZ qai_theta + 4 * lenZ qai_gamma + 4; 4 * 1024; 32 * 1024] in
  do! mem_out 0 0 (bytes32 info) in
  set_size 0 sizeof_qai_info.

Definition cmd_bench_fidelity (e : ta_env) (param_types : Z) : T unit :=
  let exp := TEE_PARAM_TYPES TEE_PARAM_TYPE_VALUE_INPUT TEE_PARAM_TYPE_MEMREF_OUTPUT
               TEE_PARAM_TYPE_NONE TEE_PARAM_TYPE_NONE in
  do! guard_err (negb (param_types =? exp)) TEE_ERROR_BAD_PARAMETERS in
  let! p1 := param 1 in
  do! guard_err (memref_size p1 <? sizeof_qai_fidelity_bench) TEE_ERROR_SHORT_BUFFER in
  let! p0 := param 0 in
  let! o := run_kernel (qai_fidelity_bench (env_t0 e) (env_t1 e) (env_x e) (env_y e) (env_self e)
                          (value_a p0)) in
  do! mem_out 1 0 (le_bytes 4 (evals o) ++ le_bytes 4 (tee_elapsed_ms o) ++
                   le_bytes 8 (self_exp_micro o) ++ le_bytes 8 (batch_sum_micro o)) in
  set_size 1 sizeof_qai_fidelity_bench.

Definition cmd_hai_infer (e : ta_env) (param_types : Z) : T unit :=
  let exp := TEE_PARAM_TYPES TEE_PARAM_TYPE_MEMREF_INPUT TEE_PARAM_TYPE_MEMREF_OUTPUT
               TEE_PARAM_TYPE_NONE TEE_PARAM_TYPE_NONE in
  do! guard_err (negb (param_types =? exp)) TEE_ERROR_BAD_PARAMETERS in
  let! p0 := param 0 in
  do! guard_err (memref_size p0 <? sizeof_qai_hai_infer_in) TEE_ERROR_BAD_PARAMETERS in
  let! hdr := mem_in p0 0 sizeof_qai_hai_infer_in in
  let model := le_val (take 4 hdr) in
  let n := le_val (take 4 (drop 4 hdr)) in
  let reps := le_val (take 4 (drop 8 hdr)) in
  let need_in := u32 (sizeof_qai_hai_infer_in + u32 (n * QAI_HAI_FEAT) * 4) in
  let need_out := u32 (sizeof_qai_hai_infer_out + n) in
  let! p1 := param 1 in
  do! guard_err ((memref_size p0 <? need_in) || (memref_size p1 <? need_out))
    TEE_ERROR_SHORT_BUFFER in
  let body := drop (Z.to_nat sizeof_qai_hai_infer_in) (memref_buffer p0) in
  let rows := ints32 (length body / 4)%nat body in
  let! r := qai_hai_infer (env_t0 e) (env_t1 e) model rows n (if reps =? 0 then 1 else reps)
              (env_pred e) in
  do! mem_out 1 0 (bytes32 [r.2; n]) in
  let! pb := of_opt OutOfBounds (rd (u8 <$> r.1) 0 n) in
  do! mem_out 1 sizeof_qai_hai_infer_out pb in
  set_size 1 need_out.

Definition cmd_kernel_block_reps (e : ta_env) (param_types reps : Z) : T unit :=
  let exp := TEE_PARAM_TYPES TEE_PARAM_TYPE_MEMREF_INPUT TEE_PARAM_TYPE_MEMREF_OUTPUT
               TEE_PARAM_TYPE_NONE TEE_PARAM_TYPE_NONE in
  do! guard_err (negb (param_types =? exp)) TEE_ERROR_BAD_PARAMETERS in
  let! p0 := param 0 in
  do! guard_err (memref_size p0 <? sizeof_qai_kernel_block_in) TEE_ERROR_BAD_PARAMETERS in
  let! hdr := mem_in p0 0 sizeof_qai_kernel_block_in in
  let n_ref := le_val (take 4 hdr) in
  let n_query := le_val (take 4 (drop 4 hdr)) in
  let n_qubits := le_val (take 4 (drop 8 hdr)) in
  do! guard_err (negb (n_qubits =? 8) && negb (n_qubits =? 16)) TEE_ERROR_BAD_PARAMETERS in
  let n_feat := u32 (n_qubits * 2) in
  let need_in := u32 (sizeof_qai_kernel_block_in + u32 (u32 (n_ref + n_query) * n_feat) * 4) in
  let need_out := u32 (sizeof_qai_kernel_block_out + u32 (n_ref * n_query) * 4) in
  let! p1 := param 1 in
  do! guard_err ((memref_size p0 <? need_in) || (memref_size p1 <? need_out))
    TEE_ERROR_SHORT_BUFFER in
  let body := drop (Z.to_nat sizeof_qai_kernel_block_in) (memref_buffer p0) in
  let vecs := words32 (length body / 4)%nat body in
  let query := drop (Z.to_nat (u32 (n_ref * n_feat))) vecs in
  let obody := drop (Z.to_nat sizeof_qai_kernel_block_out) (memref_buffer p1) in
  let k := words32 (length obody / 4)%nat obody in
  let! r := run_kernel (qai_fidelity_kernel_block (env_t0 e) (env_t1 e) (env_qv e) (env_rv e)
                          vecs n_ref query n_query reps n_qubits k) in
  (* the kernel stored its results in the output buffer *)
  do! mem_out 1 sizeof_qai_kernel_block_out (bytes32 r.1) in
  do! mem_out 1 0 (bytes32 [r.2; u32 (n_ref * n_query)]) in
  set_size 1 need_out.

Definition cmd_kernel_block (e : ta_env) (param_types : Z) : T unit :=
  cmd_kernel_block_reps e param_types 3.

Definition cmd_qmoc_block (e : ta_env) (param_types : Z) : T unit :=
  cmd_kernel_block_reps e param_types 1.

Definition TA_InvokeCommandEntryPoint (e : ta_env) (cmd_id param_types : Z) : T unit :=
  if cmd_id =? TA_QAI_CMD_INFER_BASELINE then cmd_infer_plain param_types QAI_MODEL_BASELINE
  else if cmd_id =? TA_QAI_CMD_INFER_TINYML then cmd_infer_plain param_types QAI_MODEL_TINYML
  else if cmd_id =? TA_QAI_CMD_INFER_QAI then cmd_infer_plain param_types QAI_MODEL_QAI
  else if cmd_id =? TA_QAI_CMD_INFER_PROTECTED then cmd_infer_protected param_types
  else if cmd_id =? TA_QAI_CMD_GET_INFO then cmd_get_info param_types
  else if cmd_id =? TA_QAI_CMD_BENCH_FIDELITY then cmd_bench_fidelity e param_types
  else if cmd_id =? TA_QAI_CMD_QOC_BLOCK then cmd_kernel_block e param_types
  else if cmd_id =? TA_QAI_CMD_HAI_INFER then cmd_hai_infer e param_types
  else if cmd_id =? TA_QAI_CMD_QMOC_BLOCK then cmd_qmoc_block e param_types
  else err TEE_ERROR_BAD_PARAMETERS.


(** ** Memory safety *)

(** The type of parameter [i] in a [param_types] word. *)
Definition ptype (pt i : Z) : Z := Z.land (Z.shiftr pt (4 * i)) 15.
Definition is_memref (t : Z) : Prop := 5 <= t <= 7.

Record memref_ok (p : TEE_Param) : Prop := mk_memref_ok {
  mo_size : 0 <= memref_size p <= lenZ (memref_buffer p);
  mo_bytes : bytes_ok (memref_buffer p);
}.

(** What the TEE guarantees of an invocation: four parameters, those that [pt] declares as memory
    references designate that much memory; nothing is known of the others. The kernel's static
    arrays have their declared sizes. *)
Record ta_ok (pt : Z) (st : ta_state) : Prop := mk_ta_ok {
  to_len : length (params st) = 4%nat;
  to_memref : forall i p, 0 <= i -> params st !! Z.to_nat i = Some p -> is_memref (ptype pt i) -> memref_ok p;
  to_kern : kwf (kern st);
}.

Record env_ok (e : ta_env) : Prop := mk_env_ok {
  eo_t0 : 0 <= millis (env_t0 e) < 1000;
  eo_t1 : 0 <= millis (env_t1 e) < 1000;
  eo_pred : lenZ (env_pred e) = QAI_HAI_MAX_ROWS;
  eo_x : lenZ (env_x e) = QAI_NFEAT_8;
  eo_y : lenZ (env_y e) = QAI_NFEAT_8;
  eo_self : lenZ (env_self e) = QAI_NFEAT_8;
  eo_qv : lenZ (env_qv e) = QAI_KERNEL_FEAT_MAX;
  eo_rv : lenZ (env_rv e) = QAI_KERNEL_FEAT_MAX;
}.

(** The memory behind parameter [i]. *)
Definition plen (st : ta_state) (i : Z) : Z :=
  match params st !! Z.to_nat i with Some p => lenZ (memref_buffer p) | None => 0 end.

Lemma safe_param {ov} pt st i (Q : TEE_Param -> ta_state -> Prop) :
  ta_ok pt st -> 0 <= i < 4 ->
  (forall p, params st !! Z.to_nat i = Some p -> Q p st) -> safe ov (param i) Q st.
Proof.
  intros W Hi H. unfold param. apply safe_bind, safe_get, safe_idx; [|done].
  unfold lenZ. rewrite (to_len _ _ W). lia.
Qed.

Lemma safe_set_param {ov} pt st i p q (Q : unit -> ta_state -> Prop) :
  ta_ok pt st -> 0 <= i < 4 -> params st !! Z.to_nat i = Some p ->
  (is_memref (ptype pt i) -> memref_ok q) -> lenZ (memref_buffer q) = lenZ (memref_buffer p) ->
  (forall st', ta_ok pt st' -> (forall j, 0 <= j -> plen st' j = plen st j) -> Q tt st') ->
  safe ov (set_param i q) Q st.
Proof.
  intros W Hi Hp Hq Hl H. unfold set_param. apply safe_bind, safe_get, safe_bind, safe_set_idx.
  { unfold lenZ. rewrite (to_len _ _ W). lia. }
  apply H.
  - destruct W as [L Hm K]. split; simpl; [by rewrite length_insert | | done].
    intros j r Hj. destruct (decide (j = i)) as [->|Hne].
    + rewrite list_lookup_insert_eq by lia. intros [= <-]. done.
    + rewrite list_lookup_insert_ne by lia. by apply Hm.
  - intros j Hj. unfold plen. simpl. destruct (decide (j = i)) as [->|Hne].
    + rewrite list_lookup_insert_eq by (rewrite (to_len _ _ W); lia). by rewrite Hp.
    + by rewrite list_lookup_insert_ne by lia.
Qed.

Lemma safe_mem_in {ov} st p off n (Q : list Z -> ta_state -> Prop) :
  memref_ok p -> 0 <= off -> 0 <= n -> off + n <= memref_size p ->
  (forall b, b = take (Z.to_nat n) (drop (Z.to_nat off) (memref_buffer p)) -> lenZ b = n -> bytes_ok b -> Q b st) ->
  safe ov (mem_in p off n) Q st.
Proof.
  intros [Hs Hb] Ho Hn Hr H. unfold mem_in. eapply safe_of_opt; [apply rd_in; lia|]. apply H; [done|..].
  - unfold lenZ in *. rewrite length_take, length_drop. lia.
  - apply Forall_take, Forall_drop, Hb.
Qed.

Lemma safe_mem_out {ov} pt st i off src (Q : unit -> ta_state -> Prop) :
  ta_ok pt st -> 0 <= i < 4 -> is_memref (ptype pt i) -> bytes_ok src ->
  0 <= off -> off + lenZ src <= plen st i ->
  (forall st', ta_ok pt st' -> (forall j, 0 <= j -> plen st' j = plen st j) -> Q tt st') ->
  safe ov (mem_out i off src) Q st.
Proof.
  intros W Hi Hm Hb Ho Hr H. unfold mem_out. apply safe_bind, (safe_param pt); [done..|].
  intros p Hp. unfold plen in Hr. rewrite Hp in Hr.
  destruct (to_memref _ _ W i p ltac:(lia) Hp Hm) as [S B].
  pose proof (wr_in (memref_buffer p) off src Ho Hr) as Ew.
  pose proof (wr_Some _ _ _ _ Ew) as (_ & _ & L).
  apply safe_bind. eapply safe_of_opt; [exact Ew|].
  eapply (safe_set_param pt); [done..| |by unfold lenZ; simpl; rewrite L | done].
  intros _. split; simpl; [unfold lenZ in *; lia | by eapply wr_bytes_ok].
Qed.

Lemma safe_set_size {ov} pt st i n (Q : unit -> ta_state -> Prop) :
  ta_ok pt st -> 0 <= i < 4 -> is_memref (ptype pt i) -> 0 <= n <= plen st i ->
  (forall st', ta_ok pt st' -> Q tt st') -> safe ov (set_size i n) Q st.
Proof.
  intros W Hi Hm Hr H. unfold set_size. apply safe_bind, (safe_param pt); [done..|].
  intros p Hp. destruct (to_memref _ _ W i p ltac:(lia) Hp Hm) as [S B].
  unfold plen in Hr. rewrite Hp in Hr.
  eapply (safe_set_param pt); [done..| |done|auto]. intros _. by split.
Qed.

Lemma plen_ok pt st i p :
  ta_ok pt st -> 0 <= i -> params st !! Z.to_nat i = Some p -> is_memref (ptype pt i) ->
  memref_ok p /\ 0 <= memref_size p <= plen st i.
Proof.
  intros W Hi Hp Hm. pose proof (to_memref _ _ W i p Hi Hp Hm) as O. split; [done|].
  unfold plen. rewrite Hp. apply O.
Qed.

(** The inference code leaves the parameters alone and stays inside the feature array. *)
Definition pure_safe {S A} (m : M S A) (Q : A -> Prop) : Prop := forall s : S, safe True m (fun a s' => s' = s /\ Q a) s.

Lemma pure_ret {S A} (a : A) (Q : A -> Prop) : Q a -> pure_safe (S := S) (ret a) Q.
Proof. intros H s. by apply safe_ret. Qed.

Lemma pure_bind {S A B} (m : M S A) (k : A -> M S B) (P : A -> Prop) Q :
  pure_safe m P -> (forall a, P a -> pure_safe (k a) Q) -> pure_safe (bind m k) Q.
Proof.
  intros Hm Hk s. apply safe_bind. eapply safe_mono; [apply Hm|]. intros a s' [-> Ha]. by apply Hk.
Qed.

Lemma pure_sint {S} w z : pure_safe (S := S) (sint w z) (fun r => is_s w r).
Proof. intros s. by apply safe_sint. Qed.

Lemma pure_idx {S A} (l : list A) i : 0 <= i < lenZ l -> pure_safe (S := S) (idx l i) (fun _ => True).
Proof. intros H s. by apply safe_idx. Qed.

Lemma pure_set_idx {S A} (l : list A) i v :
  0 <= i < lenZ l -> pure_safe (S := S) (set_idx l i v) (fun l' => lenZ l' = lenZ l).
Proof. intros H s. apply safe_set_idx; [done|]. split; [done|]. unfold lenZ. by rewrite length_insert. Qed.

Lemma pure_for {S A} (I : A -> Prop) (body : Z -> A -> M S A) k a :
  (forall j a, 0 <= j < Z.of_nat k -> I a -> pure_safe (body j a) I) -> I a ->
  pure_safe (for_ k 0 body a) I.
Proof.
  intros H Ha s. apply (safe_for (fun _ a s' => s' = s /\ I a)); [|done].
  intros j b t Hj [-> Hb]. apply H; [lia | done].
Qed.

Lemma pure_mono {S A} (m : M S A) (P Q : A -> Prop) :
  pure_safe m P -> (forall a, P a -> Q a) -> pure_safe m Q.
Proof. intros H HPQ s. eapply safe_mono; [apply H|]. intros a s' [-> ?]. auto. Qed.

Lemma mac_pure {S} w ws x i acc :
  0 <= i < lenZ ws -> i < lenZ x -> pure_safe (S := S) (mac w ws x i acc) (fun _ => True).
Proof.
  intros. unfold mac. eapply pure_bind; [apply pure_idx; lia | intros wi _].
  eapply pure_bind; [apply pure_idx; lia | intros xi _].
  eapply pure_bind; [apply pure_sint | intros p _]. by eapply pure_mono; [apply pure_sint|].
Qed.

Lemma fill_result_pure {S} sc t mid : pure_safe (S := S) (fill_result sc t mid) (fun _ => True).
Proof.
  unfold fill_result, abs_i32. eapply (pure_bind _ _ (fun _ => True)); [|intros; by apply pure_ret].
  destruct (sc <? 0); [eapply pure_mono; [apply pure_sint | done] | by apply pure_ret].
Qed.

Lemma interact_pure {S} lim x i acc :
  0 <= i < lim -> lim <= 4 -> lim <= lenZ x -> pure_safe (S := S) (interact lim x i acc) (fun _ => True).
Proof.
  intros. destruct (ring_index i lim) as [E B]; [lia..|].
  unfold interact. rewrite E.
  eapply pure_bind; [apply pure_idx; unfold lenZ, qai_gamma; simpl; lia | intros g _].
  do 2 (eapply pure_bind; [apply pure_idx; lia | intros ? _]).
  do 2 (eapply pure_bind; [apply pure_sint | intros ? _]). by eapply pure_mono; [apply pure_sint|].
Qed.

(** Features for which a model's arithmetic stays in its types. *)
Definition model_range (mid : Z) : Z :=
  if mid =? QAI_MODEL_BASELINE then 2 ^ 29 - 1 else if mid =? QAI_MODEL_TINYML then 2 ^ 30 else 2 ^ 18.

Lemma infer_model_pure mid x n : 0 < n <= 16 -> lenZ x = 16 ->
  pure_safe (S := ta_state) (infer_model mid x n) (fun _ => True).
Proof.
  intros Hn Hx. pose proof (feature_lim_range n ltac:(lia)) as [L1 L2].
  assert (forall w ws a, lenZ ws = 4 ->
    pure_safe (S := ta_state) (for_ (Z.to_nat (feature_lim n)) 0 (mac w ws x) a) (fun _ => True)) as Hmac.
  { intros. apply (pure_for (fun _ => True)); [|done]. intros. apply mac_pure; lia. }
  unfold infer_model. repeat case_test.
  - eapply pure_bind; [by apply Hmac | intros; apply fill_result_pure].
  - eapply pure_bind; [by apply Hmac | intros; apply fill_result_pure].
  - eapply pure_bind; [by apply Hmac | intros a _].
    eapply pure_bind; [|intros; apply fill_result_pure].
    apply (pure_for (fun _ => True)); [|done]. intros. apply interact_pure; lia.
  - by intros s.
Qed.

Lemma for_ext {S A} (b1 b2 : Z -> A -> M S A) k i a s :
  (forall j c t, i <= j < i + Z.of_nat k -> b1 j c t = b2 j c t) -> for_ k i b1 a s = for_ k i b2 a s.
Proof.
  revert i a s. induction k as [|k IH]; intros i a s H; simpl; [done|]. unfold bind. rewrite H by lia.
  destruct (b2 i a s) as [[] ?]; try done. apply IH. intros. apply H. lia.
Qed.

(** A model only looks at the announced features. *)
Lemma infer_model_ext mid x y n s :
  0 < n -> (forall i, (i < Z.to_nat n)%nat -> x !! i = y !! i) ->
  infer_model mid x n s = infer_model mid y n s.
Proof.
  intros Hn H. pose proof (feature_lim_range n Hn) as [L1 L2].
  assert (forall i (t : ta_state), 0 <= i < feature_lim n -> idx x i t = idx y i t) as Hi.
  { intros i t Hi. unfold idx. by rewrite H by lia. }
  assert (forall w ws a (t : ta_state), for_ (Z.to_nat (feature_lim n)) 0 (mac w ws x) a t
    = for_ (Z.to_nat (feature_lim n)) 0 (mac w ws y) a t) as Hm.
  { intros. apply for_ext. intros. unfold mac, bind.
    destruct (idx ws j _) as [[] ?]; try done. by rewrite Hi by lia. }
  unfold infer_model, qai_infer_baseline, qai_infer_tinyml, qai_infer_qai. repeat case_test; try done.
  - unfold bind. by rewrite Hm.
  - unfold bind. by rewrite Hm.
  - unfold bind at 1. rewrite Hm. unfold bind at 2. destruct (for_ _ _ _ _ _) as [[a| | |] t]; try done.
    unfold bind. rewrite (for_ext (interact (feature_lim n) x) (interact (feature_lim n) y)); [done|].
    intros j c u Hj. destruct (ring_index j (feature_lim n)) as [Eu B]; [lia..|].
    unfold interact, bind. rewrite Eu. destruct (idx qai_gamma j u) as [[] ?]; try done.
    rewrite Hi by lia. destruct (idx y j _) as [[] ?]; try done. by rewrite Hi by lia.
Qed.

(** A model that may overflow does so only on features out of its range. *)
Lemma infer_model_safe {ov : Prop} mid x n st (Q : qai_output -> ta_state -> Prop) : 0 < n <= 16 -> lenZ x = 16 ->
  (~ within (model_range mid) (take (Z.to_nat n) x) -> ov) -> (forall o, Q o st) -> safe ov (infer_model mid x n) Q st.
Proof.
  intros Hn Hx Hov HQ. destruct (decide (within (model_range mid) (take (Z.to_nat n) x))) as [Hw|Hw].
  2: { apply safe_weaken; [auto|]. eapply safe_mono; [by apply infer_model_pure|]. intros o s' [-> _]. auto. }
  set (y := take (Z.to_nat n) x ++ replicate (16 - Z.to_nat n) 0).
  assert (lenZ y >= 16) as Hy by (unfold y, lenZ in *; rewrite length_app, length_take, length_replicate; lia).
  assert (within (model_range mid) y) as Hwy.
  { apply Forall_app. split; [done|]. apply Forall_replicate. unfold model_range. repeat case_test; cbn; lia. }
  unfold safe. rewrite (infer_model_ext mid x y n st); [|lia|].
  2: { intros i Hi. unfold y. rewrite lookup_app_l by (rewrite length_take; unfold lenZ in Hx; lia). by rewrite lookup_take_lt. }
  unfold model_range in Hwy. unfold infer_model. destruct (mid =? QAI_MODEL_BASELINE); [rewrite qai_infer_baseline_exact by (done || lia); auto|].
  destruct (mid =? QAI_MODEL_TINYML); [rewrite qai_infer_tinyml_exact by (done || lia); auto|].
  destruct (mid =? QAI_MODEL_QAI); [rewrite qai_infer_qai_exact by (done || lia); auto|done].
Qed.

Lemma hai_interact_pure {S} x i acc :
  0 <= i < 16 -> 16 <= lenZ x -> pure_safe (S := S) (hai_interact x i acc) (fun _ => True).
Proof.
  intros. destruct (ring_index i 16) as [E B]; [lia..|]. unfold hai_interact.
  change QAI_HAI_FEAT with 16. rewrite E.
  do 2 (eapply pure_bind; [apply pure_idx; lia | intros ? _]).
  eapply pure_bind; [apply pure_sint | intros ? _].
  eapply pure_bind; [apply pure_idx; unfold lenZ, hai_pairwise_fake_gamma; simpl; lia | intros g _].
  eapply pure_bind; [apply pure_sint | intros ? _]. by eapply pure_mono; [apply pure_sint|].
Qed.

Lemma hai_one_pure {S} model x : 16 <= lenZ x ->
  pure_safe (S := S) (if model =? QAI_HAI_MODEL_TINYML then hai_tinyml_one x else hai_pairwise_fake_one x)
    (fun _ => True).
Proof.
  intros Hx.
  assert (forall ws a, lenZ ws = 16 -> pure_safe (S := S)
    (for_ (Z.to_nat QAI_HAI_FEAT) 0 (mac 64 ws x) a) (fun _ => True)) as Hmac.
  { intros. apply (pure_for (fun _ => True)); [|done]. intros j b Hj _. change QAI_HAI_FEAT with 16 in Hj. apply mac_pure; lia. }
  case_test.
  - eapply pure_bind; [apply pure_sint | intros a _].
    eapply pure_bind; [by apply Hmac | intros; by apply pure_ret].
  - eapply pure_bind; [apply pure_sint | intros a _].
    eapply pure_bind; [by apply Hmac | intros b _].
    eapply pure_bind; [|intros; by apply pure_ret].
    apply (pure_for (fun _ => True)); [|done]. intros j c Hj _. change QAI_HAI_FEAT with 16 in Hj. apply hai_interact_pure; lia.
Qed.

Lemma delta_ms_pure {S} t0 t1 : pure_safe (S := S) (delta_ms t0 t1) (fun _ => True).
Proof.
  unfold delta_ms. eapply pure_bind; [apply pure_sint | intros ms _]. case_test; [|by apply pure_ret].
  eapply pure_bind; [apply pure_sint | intros; by apply pure_ret].
Qed.

Lemma qai_hai_infer_pure {S} t0 t1 model rows n reps pred0 :
  0 <= n -> lenZ pred0 = 32 -> (n <= 32 -> n * 16 <= lenZ rows) ->
  pure_safe (S := S) (qai_hai_infer t0 t1 model rows n reps pred0)
    (fun r => n <= 32 /\ lenZ r.1 = 32).
Proof.
  intros Hn Hp Hrows s. unfold qai_hai_infer.
  apply safe_bind, safe_guard. intros G1. apply safe_bind, safe_guard. intros _.
  unfold QAI_HAI_MAX_ROWS in G1. bool_hyps.
  match goal with |- safe _ ?m _ _ => assert (pure_safe m (fun r => n <= 32 /\ lenZ r.1 = 32)) as X; [|apply X] end.
  eapply (pure_bind _ _ (fun p => lenZ p = 32)).
  - apply (pure_for (fun p => lenZ p = 32)); [|done]. intros r pr _ Hpr.
    apply (pure_for (fun p => lenZ p = 32)); [|done]. intros i p Hi Hl.
    eapply pure_bind; [apply hai_one_pure | intros v _].
    + change QAI_HAI_FEAT with 16. unfold lenZ in *. rewrite length_drop. lia.
    + eapply pure_mono; [apply pure_set_idx; lia | simpl; intros; lia].
  - intros p Hl. eapply pure_bind; [apply delta_ms_pure | intros ms _]. apply pure_ret. simpl. lia.
Qed.

(** Only the pairwise model can overflow. *)
Lemma qai_hai_infer_safe {S} {ov : Prop} (s : S) t0 t1 model rows n reps pred0 (Q : list Z * Z -> S -> Prop) :
  0 <= n -> 0 < reps -> lenZ pred0 = 32 -> (n <= 32 -> n * 16 <= lenZ rows) -> Forall (is_s 32) rows ->
  0 <= millis t0 < 1000 -> 0 <= millis t1 < 1000 ->
  (model = QAI_HAI_MODEL_PAIRWISE_FAKE /\ ~ within 90000000 rows -> ov) ->
  (forall r, n <= 32 -> lenZ r.1 = 32 -> Q r s) -> safe ov (qai_hai_infer t0 t1 model rows n reps pred0) Q s.
Proof.
  intros Hn Hr Hp Hrows Hs Ht0 Ht1 Hov HQ.
  destruct ((n =? 0) || (n >? QAI_HAI_MAX_ROWS) || (reps =? 0)) eqn:G1; [unfold qai_hai_infer; by rewrite G1|].
  destruct (negb (model =? QAI_HAI_MODEL_TINYML) && negb (model =? QAI_HAI_MODEL_PAIRWISE_FAKE)) eqn:G2;
    [unfold qai_hai_infer; by rewrite G1, G2|].
  unfold QAI_HAI_MAX_ROWS in G1. bool_hyps.
  assert (model = QAI_HAI_MODEL_TINYML \/ model = QAI_HAI_MODEL_PAIRWISE_FAKE) as Hm by (destruct G2; bool_hyps; auto).
  destruct (decide (model = QAI_HAI_MODEL_PAIRWISE_FAKE /\ ~ within 90000000 rows)) as [Hw|Hw].
  - apply safe_weaken; [auto|]. eapply safe_mono; [by apply qai_hai_infer_pure|]. intros r s' (-> & ? & ?). auto.
  - eapply safe_run; [apply qai_hai_infer_labels; try done; try lia|].
    + intros ->. destruct (decide (within 90000000 rows)); [done|]. by destruct Hw.
    + apply HQ; [lia|]. cbn. unfold lenZ in *. rewrite length_app, length_fmap, length_seqZ, length_drop. lia.
Qed.

Lemma safe_run_kernel {ov} {A} (m : M (@kstate F) A) pt st (Q : A -> ta_state -> Prop) (P : A -> Prop) :
  ta_ok pt st -> safe ov m (fun a k => kwf k /\ P a) (kern st) ->
  (forall a st', P a -> ta_ok pt st' -> params st' = params st -> Q a st') ->
  safe ov (run_kernel m) Q st.
Proof.
  intros [L Hm K] Hs H. unfold safe, run_kernel in *. destruct (m (kern st)) as [[a|e| |[]] k]; try done.
  destruct Hs as [Hk Ha]. apply H; [done | by split | done].
Qed.

Lemma fill_vec_safe {ov} (st : @kstate F) v (Q : list F -> @kstate F -> Prop) :
  kwf st -> lenZ v = 16 ->
  (forall v' st', lenZ v' = 16 -> kwf st' -> kern_nq st' = kern_nq st -> Q v' st') -> safe ov (fill_vec v) Q st.
Proof.
  intros W Hv H. unfold fill_vec.
  eapply safe_mono; [apply (safe_for (fun _ v' s => lenZ v' = 16 /\ kwf s /\ kern_nq s = kern_nq st))|];
    [|done|by intros ?? (?&?&?); apply H].
  intros j v' s Hj (L & W' & E). change (Z.to_nat QAI_NFEAT_8) with 16%nat in Hj.
  apply safe_bind. unfold next_angle. apply safe_bind, safe_get, safe_bind. simpl.
  apply safe_ret, safe_set_idx; [lia|]. split; [unfold lenZ in *; by rewrite length_insert|].
  destruct W'. split; [by split | done].
Qed.

Lemma fidelity_exp_safe {ov} (st : @kstate F) x y (Q : F -> @kstate F -> Prop) :
  kwf st -> kern_nq st = 8 -> lenZ x = 16 -> lenZ y = 16 ->
  (forall f st', kwf st' -> kern_nq st' = 8 -> Q f st') -> safe ov (fidelity_exp x y) Q st.
Proof.
  intros W E Hx Hy H.
  destruct (fidelity_exp_reps_run st 8 x y QAI_REPS W E ltac:(lia) ltac:(lia)) as (st' & R & [W' N' _]).
  eapply safe_run; [exact R|]. apply H; [done | lia].
Qed.

Lemma qai_fidelity_bench_safe {ov} (st : @kstate F) t0 t1 x y sf n :
  kwf st -> lenZ x = 16 -> lenZ y = 16 -> lenZ sf = 16 -> 0 <= millis t0 < 1000 -> 0 <= millis t1 < 1000 ->
  safe ov (qai_fidelity_bench t0 t1 x y sf n) (fun _ k => kwf k /\ True) st.
Proof.
  intros W Hx Hy Hs Ht0 Ht1. unfold qai_fidelity_bench. apply safe_bind, safe_guard. intros _.
  apply safe_bind. unfold kernel_select, modify, safe at 1.
  apply safe_bind, fill_vec_safe; [destruct W; by split | done |]. simpl. intros v s Hv Ws Es.
  apply safe_bind, fidelity_exp_safe; [done..|]. intros f s1 W1 E1.
  apply safe_bind. eapply safe_mono.
  - apply (safe_for (fun _ (a : list F * list F * F) k => lenZ a.1.1 = 16 /\ lenZ a.1.2 = 16 /\ kwf k /\ kern_nq k = 8)); [|done].
    intros j [[x' y'] acc] k _ (L1 & L2 & Wk & Ek).
    apply safe_bind, fill_vec_safe; [done..|]. intros x2 k2 Lx Wk2 Ek2.
    apply safe_bind, fill_vec_safe; [done..|]. intros y2 k3 Ly Wk3 Ek3.
    apply safe_bind, fidelity_exp_safe; [done|lia|done|done|]. intros f' k4 Wk4 Ek4. by apply safe_ret.
  - intros a k (_ & _ & Wk & _). apply safe_bind. eapply safe_run; [by apply delta_ms_ok|]. by apply safe_ret.
Qed.

Lemma qai_fidelity_kernel_block_safe {ov} (st : @kstate F) t0 t1 qv rv rf n_ref query n_query reps n_qubits out_k :
  kwf st -> lenZ qv = 32 -> lenZ rv = 32 -> 0 <= millis t0 < 1000 -> 0 <= millis t1 < 1000 ->
  0 <= n_ref -> 0 <= n_query -> 0 <= reps ->
  (n_ref <= 32 -> n_query <= 32 -> (n_qubits = 8 \/ n_qubits = 16) ->
     n_ref * (n_qubits * 2) <= lenZ rf /\ n_query * (n_qubits * 2) <= lenZ query /\ n_query * n_ref <= lenZ out_k) ->
  safe ov (qai_fidelity_kernel_block t0 t1 qv rv rf n_ref query n_query reps n_qubits out_k)
    (fun r k => kwf k /\ (lenZ r.1 = lenZ out_k /\ n_ref <= 32 /\ n_query <= 32)) st.
Proof.
  intros W Hqv Hrv Ht0 Ht1 Hr Hq Hreps H.
  destruct ((n_ref =? 0) || (n_query =? 0) || (reps =? 0) || (reps >? QAI_REPS)) eqn:G1;
    [unfold qai_fidelity_kernel_block; by rewrite G1|].
  destruct (negb (n_qubits =? 8) && negb (n_qubits =? 16)) eqn:G2;
    [unfold qai_fidelity_kernel_block; by rewrite G1, G2|].
  destruct ((n_ref >? QAI_KERNEL_MAX_PAIRS) || (n_query >? QAI_KERNEL_MAX_PAIRS)) eqn:G3;
    [unfold qai_fidelity_kernel_block; by rewrite G1, G2, G3|].
  destruct (u32 (n_ref * n_query) >? QAI_KERNEL_MAX_PAIRS) eqn:G4;
    [unfold qai_fidelity_kernel_block; by rewrite G1, G2, G3, G4|].
  unfold QAI_REPS, QAI_KERNEL_MAX_PAIRS in *. bool_hyps.
  assert (n_qubits = 8 \/ n_qubits = 16) as Hnq by (destruct G2; bool_hyps; lia).
  rewrite uwrap_small in G4 by (unfold is_u; nia).
  destruct (H ltac:(lia) ltac:(lia) Hnq) as (R1 & R2 & R3).
  destruct (kernel_block_run st t0 t1 qv rv rf query out_k n_ref n_query reps n_qubits)
    as (s & R & Ws); [done|done|lia..|].
  eapply safe_run; [exact R|]. split; [done|]. split; [|lia]. simpl. unfold lenZ in *.
  rewrite length_app, length_fmap, length_seqZ, length_drop. lia.
Qed.

(** Every call from a well-formed state is memory safe and leaves a well-formed state. *)
Definition cmd_safe (ov : Prop) (pt : Z) (m : T unit) (st : ta_state) : Prop :=
  ta_ok pt st -> safe ov m (fun _ st' => ta_ok pt st') st.

Lemma write_output_safe {ov} pt i out st :
  0 <= i < 4 -> is_memref (ptype pt i) -> cmd_safe ov pt (write_output i out) st.
Proof.
  intros Hi Hm W. apply safe_bind, (safe_param pt); [done..|]. intros p Hp.
  destruct (plen_ok pt st i p W ltac:(lia) Hp Hm) as [O L].
  apply safe_bind, safe_guard. unfold sizeof_qai_output. intros G. bool_hyps.
  apply safe_bind, (safe_mem_out pt); [done|done|done|apply bytes32_ok|lia|unfold lenZ; simpl; lia|].
  intros st1 W1 P1. apply (safe_set_size pt); [done..| |done]. rewrite P1; lia.
Qed.

Lemma length_ints32 n l : lenZ (ints32 n l) = Z.of_nat n.
Proof. unfold ints32, lenZ. by rewrite length_fmap, length_words32. Qed.

Lemma le_val_nonneg l : bytes_ok l -> 0 <= le_val l.
Proof. intros H. apply (le_val_range l H). Qed.

Lemma le_val4 l : bytes_ok l -> is_u 32 (le_val (take 4 l)).
Proof.
  intros H. pose proof (le_val_range (take 4 l) (Forall_take _ _ _ H)) as R. unfold is_u, lenZ in *.
  rewrite length_take in R. split; [lia|]. eapply Z.lt_le_trans; [apply R|]. apply Z.pow_le_mono_r; lia.
Qed.

(** ** The features of a request

    As the handlers read them from the first parameter: word [i] of the buffer, the announced features
    of a plain request, those of a protected one after deciphering, the rows of an HAI request. *)
Definition word (b : list Z) (i : nat) : Z := le_val (take 4 (drop (4 * i) b)).
Definition plain_features (b : list Z) : list Z := ints32 (Z.to_nat (word b 0)) (drop 4 b).
Definition protected_features (b : list Z) : list Z :=
  ints32 (Z.to_nat (word b 0)) (xor_prefix (Z.to_nat (4 * word b 0)) (take 64 (drop 8 b))).
Definition hai_rows (b : list Z) : list Z := let body := drop 12 b in ints32 (length body / 4)%nat body.

(** The requests whose arithmetic may overflow: a feature is out of the range of the selected model. The
    commands without an integer model, and HAI requests for the TinyML model, are not among them. *)
Definition out_of_range (cmd_id : Z) (b : list Z) : Prop :=
  if cmd_id =? TA_QAI_CMD_INFER_BASELINE then ~ within (model_range QAI_MODEL_BASELINE) (plain_features b)
  else if cmd_id =? TA_QAI_CMD_INFER_TINYML then ~ within (model_range QAI_MODEL_TINYML) (plain_features b)
  else if cmd_id =? TA_QAI_CMD_INFER_QAI then ~ within (model_range QAI_MODEL_QAI) (plain_features b)
  else if cmd_id =? TA_QAI_CMD_INFER_PROTECTED then ~ within (model_range (word b 1)) (protected_features b)
  else if cmd_id =? TA_QAI_CMD_HAI_INFER then word b 0 = QAI_HAI_MODEL_PAIRWISE_FAKE /\ ~ within 90000000 (hai_rows b)
  else False.

(** Words depend on their bytes only. *)
Lemma words32_take k n l : (k <= n)%nat -> take k (words32 n l) = words32 k l.
Proof. revert n l. induction k as [|k IH]; intros [|n] l Hk; try done; [lia|]. cbn. f_equal. apply IH. lia. Qed.

Lemma words32_ext k a b : take (4 * k) a = take (4 * k) b -> words32 k a = words32 k b.
Proof.
  revert a b. induction k as [|k IH]; intros a b E; [done|]. cbn [words32]. f_equal.
  - f_equal. replace 4%nat with (4 `min` (4 * S k))%nat by lia. by rewrite <- !take_take, E.
  - apply IH. replace (4 * S k)%nat with (4 + 4 * k)%nat in E by lia. apply (f_equal (drop 4)) in E. by rewrite !skipn_firstn_comm, (Nat.add_comm 4), Nat.add_sub in E.
Qed.

Lemma ints32_take_ext k n a b : (k <= n)%nat -> take (4 * k) a = take (4 * k) b -> take k (ints32 n a) = ints32 k b.
Proof. intros Hk E. unfold ints32. rewrite <- fmap_take, words32_take by done. by rewrite (words32_ext k a b). Qed.

Lemma word_take n b i : (4 * i + 4 <= n)%nat -> word (take n b) i = word b i.
Proof. intros Hn. unfold word. rewrite skipn_firstn_comm, take_take. do 2 f_equal. lia. Qed.

Lemma cmd_infer_plain_safe {ov : Prop} pt mid st :
  (forall p, params st !! 0%nat = Some p -> ~ within (model_range mid) (plain_features (memref_buffer p)) -> ov) ->
  cmd_safe ov pt (cmd_infer_plain pt mid) st.
Proof.
  intros Hov W. apply safe_bind, safe_guard. intros Hpt. bool_hyps. subst pt.
  apply safe_bind. unfold copy_input. apply safe_bind, (safe_param _ _ _ _ W); [done|]. intros p Hp.
  destruct (plen_ok _ st 0 p W ltac:(lia) Hp ltac:(done)) as [O L].
  apply safe_bind, safe_guard. unfold sizeof_qai_input. intros G. bool_hyps.
  apply safe_bind, safe_mem_in; [done|lia..|]. intros b Eb Hb Hok.
  apply safe_bind, safe_guard. unfold QAI_MAX_FEATURES. intros G2. bool_hyps.
  apply safe_ret, safe_bind. pose proof (le_val_nonneg (take 4 b) ltac:(by apply Forall_take)).
  assert (word (memref_buffer p) 0 = le_val (take 4 b)) as Ew by (subst b; symmetry; apply (word_take 68 _ 0); lia).
  apply infer_model_safe; [simpl in *; lia | apply length_ints32 | |].
  - intros Hw. apply (Hov p Hp). intros Hr. apply Hw. cbn [num_features features input_of_bytes]. unfold plain_features in Hr. rewrite Ew in Hr.
    rewrite (ints32_take_ext _ _ _ (drop 4 (memref_buffer p))); [done|simpl in *; lia|].
    assert (Z.to_nat (le_val (take 4 b)) <= 16)%nat as H16 by (simpl in *; lia). subst b. rewrite drop_0, skipn_firstn_comm in *. rewrite take_take. f_equal. change (Z.to_nat 68 - 4)%nat with 64%nat. lia.
  - intros o. by apply write_output_safe.
Qed.

Lemma cmd_infer_protected_safe {ov : Prop} pt st :
  (forall p, params st !! 0%nat = Some p -> ~ within (model_range (word (memref_buffer p) 1)) (protected_features (memref_buffer p)) -> ov) ->
  cmd_safe ov pt (cmd_infer_protected pt) st.
Proof.
  intros Hov W. apply safe_bind, safe_guard. intros Hpt. bool_hyps. subst pt.
  apply safe_bind, (safe_param _ _ _ _ W); [done|]. intros p Hp.
  destruct (plen_ok _ st 0 p W ltac:(lia) Hp ltac:(done)) as [O L].
  apply safe_bind, safe_guard. unfold sizeof_qai_protected_input. intros G. bool_hyps.
  apply safe_bind, safe_mem_in; [done|lia..|]. intros b Eb Hb Hok.
  apply safe_bind, safe_guard. unfold QAI_MAX_FEATURES. intros G2. bool_hyps.
  set (nf := le_val (take 4 b)) in *.
  pose proof (le_val_nonneg (take 4 b) ltac:(by apply Forall_take)) as Hnf. fold nf in Hnf.
  rewrite (uwrap_small 32 (nf * 4)) by (unfold is_u; lia).
  assert (lenZ (drop 8 b) = 64) as H64 by (unfold lenZ in *; rewrite length_drop; lia).
  apply safe_bind. eapply safe_run; [apply qai_xor_crypt_ok; lia|].
  assert (lenZ (xor_prefix (Z.to_nat (nf * 4)) (drop 8 b)) = 64) as H64'.
  { unfold xor_prefix, lenZ in *. rewrite length_imap. lia. }
  apply safe_bind. eapply safe_of_opt; [apply rd_in; lia|].
  apply safe_bind. eapply safe_of_opt.
  { apply wr_in; [lia|]. unfold lenZ in *. rewrite length_take, drop_0, length_replicate. lia. }
  assert (word (memref_buffer p) 0 = nf /\ word (memref_buffer p) 1 = le_val (take 4 (drop 4 b))) as [E0 E1]
    by (subst b; split; symmetry; [apply (word_take 72 _ 0)|apply (word_take 72 _ 1)]; lia).
  assert (drop 8 b = take 64 (drop 8 (memref_buffer p))) as E8 by (subst b; by rewrite drop_0, skipn_firstn_comm).
  apply safe_bind, infer_model_safe; [lia | apply length_ints32 | |].
  - intros Hw. apply (Hov p Hp). rewrite E1. intros Hr. apply Hw. unfold protected_features in Hr. rewrite E0, <- E8, (Z.mul_comm 4) in Hr.
    rewrite (ints32_take_ext _ _ _ (xor_prefix (Z.to_nat (nf * 4)) (drop 8 b))); [done|lia|].
    assert (length (take (Z.to_nat (nf * 4)) (xor_prefix (Z.to_nat (nf * 4)) (drop 8 b))) = 4 * Z.to_nat nf)%nat as Ht
      by (rewrite length_take; unfold lenZ in H64'; lia).
    change (Z.to_nat 0) with 0%nat. rewrite take_0, app_nil_l, drop_0, take_app_length' by done. f_equal. lia.
  - intros o. by apply write_output_safe.
Qed.

Lemma cmd_get_info_safe {ov : Prop} pt st : cmd_safe ov pt (cmd_get_info pt) st.
Proof.
  intros W. apply safe_bind, safe_guard. intros Hpt. bool_hyps. subst pt.
  apply safe_bind, (safe_param _ _ _ _ W); [done|]. intros p Hp.
  destruct (plen_ok _ st 0 p W ltac:(lia) Hp ltac:(done)) as [O L].
  apply safe_bind, safe_guard. unfold sizeof_qai_info. intros G. bool_hyps.
  apply safe_bind, (safe_mem_out _ _ _ _ _ _ W);
    [done|done|apply bytes32_ok|lia|unfold lenZ; simpl; lia|].
  intros st1 W1 P1. apply (safe_set_size _ _ _ _ _ W1); [done|done| |done]. rewrite P1; lia.
Qed.

Lemma cmd_bench_fidelity_safe {ov : Prop} pt e st : env_ok e -> cmd_safe ov pt (cmd_bench_fidelity e pt) st.
Proof.
  intros He W. apply safe_bind, safe_guard. intros Hpt. bool_hyps. subst pt.
  apply safe_bind, (safe_param _ _ _ _ W); [done|]. intros p Hp.
  destruct (plen_ok _ st 1 p W ltac:(lia) Hp ltac:(done)) as [O L].
  apply safe_bind, safe_guard. unfold sizeof_qai_fidelity_bench. intros G. bool_hyps.
  apply safe_bind, (safe_param _ _ _ _ W); [done|]. intros p0 Hp0.
  apply safe_bind. eapply (safe_run_kernel _ _ _ _ (fun _ => True)); [done| |].
  { apply qai_fidelity_bench_safe; [apply W | apply He ..]. }
  intros o st1 _ W1 P1. assert (plen st1 1 = plen st 1) as E1 by (unfold plen; by rewrite P1).
  apply safe_bind, (safe_mem_out _ _ _ _ _ _ W1); [done|done| |lia| |].
  { repeat (apply Forall_app; split); apply le_bytes_ok. }
  { unfold lenZ. rewrite !length_app, !length_le_bytes. lia. }
  intros st2 W2 P2. apply (safe_set_size _ _ _ _ _ W2); [done|done| |done]. rewrite P2; lia.
Qed.

Lemma div4_ge (n : nat) k : 4 * k <= Z.of_nat n -> k <= Z.of_nat (n / 4).
Proof. intros H. rewrite Nat2Z.inj_div. apply Z.div_le_lower_bound; lia. Qed.

Lemma div4_le (n : nat) : 4 * Z.of_nat (n / 4) <= Z.of_nat n.
Proof. rewrite Nat2Z.inj_div. apply Z.mul_div_le. lia. Qed.

Lemma ints32_range n l : Forall (is_s 32) (ints32 n l).
Proof. unfold ints32. apply Forall_fmap, Forall_true. intros z. by apply (swrap_range 32). Qed.

Lemma cmd_hai_infer_safe {ov : Prop} pt e st : env_ok e ->
  (forall p, params st !! 0%nat = Some p -> word (memref_buffer p) 0 = QAI_HAI_MODEL_PAIRWISE_FAKE /\ ~ within 90000000 (hai_rows (memref_buffer p)) -> ov) ->
  cmd_safe ov pt (cmd_hai_infer e pt) st.
Proof.
  intros He Hov W. apply safe_bind, safe_guard. intros Hpt. bool_hyps. subst pt.
  apply safe_bind, (safe_param _ _ _ _ W); [done|]. intros p Hp.
  destruct (plen_ok _ st 0 p W ltac:(lia) Hp ltac:(done)) as [O L].
  apply safe_bind, safe_guard. change sizeof_qai_hai_infer_in with 12. intros G. bool_hyps.
  apply safe_bind, safe_mem_in; [done|lia..|]. intros b Eb Hb Hok.
  set (n := le_val (take 4 (drop 4 b))).
  pose proof (le_val4 (drop 4 b) ltac:(by apply Forall_drop)) as Hn. fold n in Hn.
  apply safe_bind, (safe_param _ _ _ _ W); [done|]. intros p1 Hp1.
  destruct (plen_ok _ st 1 p1 W ltac:(lia) Hp1 ltac:(done)) as [O1 L1].
  apply safe_bind, safe_guard. intros G2. bool_hyps. unfold sizeof_qai_hai_infer_out, QAI_HAI_FEAT in *.
  apply safe_bind. apply qai_hai_infer_safe.
  - apply Hn.
  - pose proof (le_val4 (drop 8 b) ltac:(by apply Forall_drop)) as [Hr _]. case_test; bool_hyps; lia.
  - apply He.
  - intros Hn32. rewrite length_ints32, length_drop. apply div4_ge.
    rewrite (uwrap_small 32 (n * 16)), uwrap_small in H by (unfold is_u in *; lia).
    pose proof (mo_size _ O). unfold lenZ in *. lia.
  - apply ints32_range.
  - apply He.
  - apply He.
  - intros [Hm Hw]. apply (Hov p Hp). split; [|done]. rewrite <- Hm. subst b. symmetry. apply (word_take 12 _ 0). lia.
  - intros r Hn32 Hlen.
    rewrite (uwrap_small 32 (8 + n)) in * by (unfold is_u in *; lia). destruct Hn as [Hn _].
    apply safe_bind, (safe_mem_out _ _ _ _ _ _ W); [done|done|apply bytes32_ok|lia|unfold lenZ; simpl; lia|].
    intros st1 W1 P1. apply safe_bind.
    eapply safe_of_opt; [apply rd_in; [lia..|]; unfold lenZ in *; rewrite length_fmap; lia|].
    apply safe_bind, (safe_mem_out _ _ _ _ _ _ W1); [done|done| |lia| |].
    { apply Forall_take, Forall_drop, Forall_fmap, Forall_true. intros z. apply (uwrap_range 8). lia. }
    { rewrite P1 by lia. unfold lenZ. rewrite length_take, length_drop. lia. }
    intros st2 W2 P2. apply (safe_set_size _ _ _ _ _ W2); [done|done| |done]. rewrite P2, P1; lia.
Qed.

Lemma cmd_kernel_block_reps_safe {ov : Prop} pt e reps st : env_ok e -> 0 <= reps -> cmd_safe ov pt (cmd_kernel_block_reps e pt reps) st.
Proof.
  intros He Hreps W. apply safe_bind, safe_guard. intros Hpt. bool_hyps. subst pt.
  apply safe_bind, (safe_param _ _ _ _ W); [done|]. intros p Hp.
  destruct (plen_ok _ st 0 p W ltac:(lia) Hp ltac:(done)) as [O L].
  apply safe_bind, safe_guard. change sizeof_qai_kernel_block_in with 12. intros G. bool_hyps.
  apply safe_bind, safe_mem_in; [done|lia..|]. intros b Eb Hb Hok.
  set (n_ref := le_val (take 4 b)). set (n_query := le_val (take 4 (drop 4 b))).
  set (nq := le_val (take 4 (drop 8 b))).
  pose proof (le_val4 b Hok) as Hr. fold n_ref in Hr.
  pose proof (le_val4 (drop 4 b) ltac:(by apply Forall_drop)) as Hq. fold n_query in Hq.
  pose proof (le_val4 (drop 8 b) ltac:(by apply Forall_drop)) as Hnq0. fold nq in Hnq0.
  apply safe_bind, safe_guard. intros G2.
  assert (nq = 8 \/ nq = 16) as Hnq by (bool_hyps; destruct G2; bool_hyps; lia).
  apply safe_bind, (safe_param _ _ _ _ W); [done|]. intros p1 Hp1.
  destruct (plen_ok _ st 1 p1 W ltac:(lia) Hp1 ltac:(done)) as [O1 L1].
  apply safe_bind, safe_guard. intros G3. bool_hyps. unfold sizeof_qai_kernel_block_out in *.
  rewrite (uwrap_small 32 (nq * 2)) in * by (unfold is_u in *; lia).
  pose proof (mo_size _ O) as S0. pose proof (mo_size _ O1) as S1.
  assert (plen st 1 = lenZ (memref_buffer p1)) as EL by (unfold plen; by rewrite Hp1).
  set (need_out := u32 (8 + u32 (n_ref * n_query) * 4)) in *.
  assert (0 <= need_out) as Hno by (apply uwrap_range; lia).
  apply safe_bind. eapply (safe_run_kernel _ _ _ _
    (fun r => lenZ r.1 = Z.of_nat (length (drop 8 (memref_buffer p1)) / 4) /\
              n_ref <= 32 /\ n_query <= 32)); [done| |].
  - eapply safe_mono; [apply qai_fidelity_kernel_block_safe|]; [apply W|apply He..|apply Hr|apply Hq|done| |].
    2: { intros r k (Wk & Hl & Hs). split; [done|]. split; [|done]. rewrite Hl. unfold lenZ. by rewrite length_words32. }
    intros Hr32 Hq32 _. unfold is_u in Hr, Hq.
    rewrite (uwrap_small 32 (n_ref + n_query)) in * by (unfold is_u; lia).
    rewrite (uwrap_small 32 ((n_ref + n_query) * (nq * 2))) in * by (unfold is_u; nia).
    rewrite (uwrap_small 32 (12 + _)) in * by (unfold is_u; nia).
    unfold need_out in *. rewrite (uwrap_small 32 (n_ref * n_query)) in * by (unfold is_u; nia).
    rewrite (uwrap_small 32 (8 + _)) in * by (unfold is_u; nia).
    rewrite (uwrap_small 32 (n_ref * (nq * 2))) by (unfold is_u; nia).
    assert (lenZ (words32 (length (drop (Z.to_nat 12) (memref_buffer p)) / 4)
       (drop (Z.to_nat 12) (memref_buffer p))) >= (n_ref + n_query) * (nq * 2)) as LV.
    { unfold lenZ in *. rewrite length_words32, length_drop. apply Z.le_ge, div4_ge. lia. }
    split; [nia|]. split; [unfold lenZ in *; rewrite length_drop; nia|].
    unfold lenZ in *. rewrite length_words32, length_drop. apply div4_ge. nia.
  - intros r st1 (Hl & Hr32 & Hq32) W1 P1.
    assert (plen st1 1 = plen st 1) as E1 by (unfold plen; by rewrite P1).
    pose proof (div4_le (length (drop 8 (memref_buffer p1)))) as D. rewrite length_drop in *.
    assert (8 <= lenZ (memref_buffer p1)) as H8.
    { destruct Hr, Hq. unfold need_out in *. rewrite (uwrap_small 32 (n_ref * n_query)) in * by (unfold is_u; nia).
      rewrite (uwrap_small 32 (8 + _)) in * by (unfold is_u; nia). nia. }
    apply safe_bind, (safe_mem_out _ _ _ _ _ _ W1); [done|done|apply bytes32_ok|lia| |].
    { unfold lenZ in *. rewrite length_bytes32. lia. }
    intros st2 W2 P2. apply safe_bind, (safe_mem_out _ _ _ _ _ _ W2);
      [done|done|apply bytes32_ok|lia|rewrite P2 by lia; unfold lenZ in *; simpl; lia|].
    intros st3 W3 P3. apply (safe_set_size _ _ _ _ _ W3); [done|done| |done]. rewrite P3, P2; lia.
Qed.

(** ** The protected path *)

(** A computation that neither reads nor changes the state. *)
Definition indep {S A} (m : M S A) : Prop := exists o, forall s, m s = (o, s).

Lemma indep_bind {S A B} (m : M S A) (k : A -> M S B) :
  indep m -> (forall a, indep (k a)) -> indep (bind m k).
Proof.
  intros [o Ho] Hk. unfold bind. destruct o as [a|e| |u].
  - destruct (Hk a) as [o' H']. exists o'. intros s. rewrite Ho. apply H'.
  - exists (Err e). intros s. by rewrite Ho.
  - exists Panic. intros s. by rewrite Ho.
  - exists (Undef u). intros s. by rewrite Ho.
Qed.

Lemma indep_ret {S A} (a : A) : indep (S := S) (ret a).
Proof. by exists (Ret a). Qed.

Lemma indep_of_opt {S A} u (o : option A) : indep (S := S) (of_opt u o).
Proof. destruct o as [a|]; [by exists (Ret a) | by exists (Undef u)]. Qed.

Lemma indep_for {S A} (body : Z -> A -> M S A) k i a :
  (forall j b, indep (body j b)) -> indep (for_ k i body a).
Proof.
  intros H. revert i a. induction k; intros i a; simpl; [apply indep_ret|]. by apply indep_bind.
Qed.

Lemma infer_model_indep mid x n : indep (infer_model mid x n).
Proof.
  assert (forall w ws k a, indep (S := ta_state) (for_ k 0 (mac w ws x) a)) as Hm.
  { intros. apply indep_for. intros. repeat (apply indep_bind; [apply indep_of_opt | intros]). apply indep_of_opt. }
  assert (forall sc t m, indep (S := ta_state) (fill_result sc t m)) as Hf.
  { intros. apply indep_bind; [|intros; apply indep_ret]. unfold abs_i32. case_test; [apply indep_of_opt | apply indep_ret]. }
  unfold infer_model. repeat case_test; try (apply indep_bind; [done | intros]; try apply Hf).
  - apply indep_bind; [|intros; apply Hf]. apply indep_for. intros.
    repeat (apply indep_bind; [apply indep_of_opt | intros]). apply indep_of_opt.
  - by exists (Err TEE_ERROR_BAD_PARAMETERS).
Qed.

Lemma param_1 a p l k : param 1 (mk_ta (a :: p :: l) k) = (Ret p, mk_ta (a :: p :: l) k).
Proof. done. Qed.

Lemma set_param_1 a p l k q :
  set_param 1 q (mk_ta (a :: p :: l) k) = (Ret tt, mk_ta (a :: q :: l) k).
Proof.
  unfold set_param, bind, get, set_idx. simpl.
  by rewrite (proj2 (Z.ltb_lt 1 _)) by (unfold lenZ; simpl; lia).
Qed.

(** [write_output] on parameter 1. *)
Lemma write_output_run a p l k out :
  write_output 1 out (mk_ta (a :: p :: l) k) =
  if memref_size p <? sizeof_qai_output then (Err TEE_ERROR_SHORT_BUFFER, mk_ta (a :: p :: l) k)
  else match wr (memref_buffer p) 0 (output_bytes out) with
       | Some b => (Ret tt, mk_ta (a :: mk_param b sizeof_qai_output (value_a p) (value_b p) :: l) k)
       | None => (Undef OutOfBounds, mk_ta (a :: p :: l) k)
       end.
Proof.
  unfold write_output, mem_out, set_size, bind at 1. rewrite param_1. unfold guard_err, bind at 1.
  case_test; [done|]. unfold ret. unfold bind at 1 2. rewrite param_1. unfold bind at 1.
  destruct (wr _ _ _) as [b|]; [|done]. cbn [of_opt]. unfold ret. rewrite set_param_1. unfold bind.
  by rewrite param_1, set_param_1.
Qed.

(** It does not depend on parameter 0. *)
Lemma write_output_frame out l k :
  exists o l', forall a, write_output 1 out (mk_ta (a :: l) k) = (o, mk_ta (a :: l') k).
Proof.
  destruct l as [|p l]; [by exists (Undef OutOfBounds), []|].
  destruct (memref_size p <? sizeof_qai_output) eqn:G.
  { exists (Err TEE_ERROR_SHORT_BUFFER), (p :: l). intros a. by rewrite write_output_run, G. }
  destruct (wr (memref_buffer p) 0 (output_bytes out)) as [b|] eqn:Ew; do 2 eexists; intros a;
    by rewrite write_output_run, G, Ew.
Qed.

(** A request for parameter 0 of the plain and of the protected commands. *)
Definition memref_of (b : list Z) : TEE_Param := mk_param b (lenZ b) 0 0.
Definition plain_request (n : Z) (fb : list Z) : TEE_Param := memref_of (le_bytes 4 n ++ fb).
Definition protected_request (n mid : Z) (c : list Z) : TEE_Param :=
  memref_of (le_bytes 4 n ++ le_bytes 4 mid ++ c).

Definition infer_types : Z :=
  TEE_PARAM_TYPES TEE_PARAM_TYPE_MEMREF_INPUT TEE_PARAM_TYPE_MEMREF_OUTPUT
    TEE_PARAM_TYPE_NONE TEE_PARAM_TYPE_NONE.

Lemma le_val_4 z : is_u 32 z -> le_val (le_bytes 4 z) = z.
Proof. intros H. rewrite le_val_le_bytes. by apply (uwrap_small 32). Qed.

Lemma take_le4 z l : take 4 (le_bytes 4 z ++ l) = le_bytes 4 z.
Proof. by apply take_app_length'. Qed.

Lemma drop_le4 z l : drop 4 (le_bytes 4 z ++ l) = l.
Proof. by apply drop_app_length'. Qed.

(** A well-formed plain request reaches the model with the features it holds. *)
Lemma cmd_infer_plain_run n fb mid l k :
  0 < n <= 16 -> length fb = 64%nat ->
  cmd_infer_plain infer_types mid (mk_ta (plain_request n fb :: l) k)
  = bind (infer_model mid (ints32 16 fb) n) (write_output 1) (mk_ta (plain_request n fb :: l) k).
Proof.
  intros Hn Hl. unfold cmd_infer_plain. change (TEE_PARAM_TYPES _ _ _ _) with infer_types.
  rewrite Z.eqb_refl. simpl negb. unfold guard_err at 1. rewrite bind_ret_l.
  assert (copy_input 0 (mk_ta (plain_request n fb :: l) k)
    = (Ret (mk_input n (ints32 16 fb)), mk_ta (plain_request n fb :: l) k)) as E.
  { unfold copy_input, bind at 1. change (param 0 _) with
      (@Ret TEE_Param (plain_request n fb), mk_ta (plain_request n fb :: l) k). cbv beta iota.
    assert (memref_size (plain_request n fb) = 68) as ->.
    { change (lenZ (le_bytes 4 n ++ fb) = 68). unfold lenZ. by rewrite length_app, Hl. }
    unfold guard_err at 1. simpl (if 68 <? _ then _ else _). rewrite bind_ret_l.
    unfold mem_in. cbn [memref_buffer plain_request memref_of].
    change sizeof_qai_input with 68.
    rewrite rd_in by (unfold lenZ; rewrite ?length_app, ?length_le_bytes, ?Hl; lia).
    rewrite drop_0, take_ge by (rewrite length_app, length_le_bytes, Hl; lia).
    cbn [of_opt]. rewrite bind_ret_l. unfold input_of_bytes. rewrite take_le4, drop_le4.
    rewrite le_val_4 by (unfold is_u; lia). cbn [num_features]. unfold QAI_MAX_FEATURES.
    rewrite (proj2 (Z.eqb_neq n 0)) by lia. by replace (n >? 16) with false by lia. }
  unfold bind at 1. by rewrite E.
Qed.

(** A well-formed protected request reaches the model with the deciphered features, zero-padded. *)
Lemma cmd_infer_protected_run n mid c l k :
  0 < n <= 16 -> is_u 32 mid -> length c = 64%nat ->
  cmd_infer_protected infer_types (mk_ta (protected_request n mid c :: l) k)
  = bind (infer_model mid (ints32 16 (take (Z.to_nat (4 * n)) (xor_prefix (Z.to_nat (4 * n)) c)
            ++ drop (Z.to_nat (4 * n)) (replicate 64 0))) n)
      (write_output 1) (mk_ta (protected_request n mid c :: l) k).
Proof.
  intros Hn Hm Hl. unfold cmd_infer_protected. change (TEE_PARAM_TYPES _ _ _ _) with infer_types.
  rewrite Z.eqb_refl. simpl negb. unfold guard_err at 1. rewrite bind_ret_l.
  unfold bind at 1. change (param 0 _) with
    (@Ret TEE_Param (protected_request n mid c), mk_ta (protected_request n mid c :: l) k). cbv beta iota.
  assert (memref_size (protected_request n mid c) = 72) as ->.
  { change (lenZ (le_bytes 4 n ++ le_bytes 4 mid ++ c) = 72). unfold lenZ. by rewrite !length_app, Hl. }
  unfold guard_err at 1. simpl (if 72 <? _ then _ else _). rewrite bind_ret_l.
  unfold mem_in. cbn [memref_buffer protected_request memref_of].
  change sizeof_qai_protected_input with 72.
  rewrite rd_in by (unfold lenZ; rewrite ?length_app, ?length_le_bytes, ?Hl; lia).
  rewrite drop_0, take_ge by (rewrite !length_app, !length_le_bytes, Hl; lia).
  cbn [of_opt]. rewrite bind_ret_l. rewrite take_le4, drop_le4, take_le4.
  rewrite (le_val_4 n) by (unfold is_u; lia). rewrite (le_val_4 mid) by done.
  replace (drop 8 (le_bytes 4 n ++ le_bytes 4 mid ++ c)) with c
    by (rewrite app_assoc; symmetry; by apply drop_app_length').
  unfold QAI_MAX_FEATURES. rewrite (proj2 (Z.eqb_neq n 0)) by lia. replace (n >? 16) with false by lia.
  unfold guard_err. simpl orb. cbv iota. rewrite bind_ret_l.
  replace (n * 4) with (4 * n) by lia. rewrite uwrap_small by (unfold is_u; lia).
  unfold bind at 1. rewrite qai_xor_crypt_ok by (unfold lenZ; lia). cbv beta iota.
  assert (length (xor_prefix (Z.to_nat (4 * n)) c) = 64%nat) as Hx
    by (unfold xor_prefix; by rewrite length_imap).
  rewrite rd_in by (unfold lenZ; lia). cbn [of_opt]. rewrite bind_ret_l, drop_0.
  assert (length (take (Z.to_nat (4 * n)) (xor_prefix (Z.to_nat (4 * n)) c)) = Z.to_nat (4 * n)) as Ht
    by (rewrite length_take; lia).
  rewrite wr_in by (unfold lenZ; rewrite ?Ht, ?length_replicate; lia). cbn [of_opt]. rewrite bind_ret_l.
  rewrite Ht. change (Z.to_nat 0) with 0%nat. by rewrite take_0, app_nil_l, Nat.add_0_l.
Qed.

Lemma ints32_prefix n a b i :
  take (4 * n) a = take (4 * n) b -> (i < n)%nat -> (n <= 16)%nat -> ints32 16 a !! i = ints32 16 b !! i.
Proof.
  intros E Hi Hn. unfold ints32. rewrite !list_lookup_fmap. f_equal.
  assert (forall m i a, (i < m)%nat -> words32 m a !! i = Some (le_val (take 4 (drop (4 * i) a)))) as W.
  { clear. induction m as [|m IH]; intros i a Hi; [lia|]. destruct i as [|i]; simpl words32; [done|].
    simpl. rewrite IH, drop_drop by lia. do 4 f_equal. lia. }
  rewrite !W by lia. do 2 f_equal.
  rewrite !take_drop_commute. f_equal.
  replace (4 * i + 4)%nat with ((4 * i + 4) `min` (4 * n))%nat by lia. by rewrite <- !take_take, E.
Qed.

Lemma xor_prefix_twice len buf : xor_prefix len (xor_prefix len buf) = buf.
Proof.
  apply list_eq. intros i. rewrite !lookup_xor_prefix. destruct (buf !! i); [|done]. simpl. f_equal.
  case_decide; [|done]. by rewrite Z.lxor_assoc, Z.lxor_nilpotent, Z.lxor_0_r.
Qed.

(** ** Properties *)

(** C1. Safety of the whole command interface. Whatever command, parameter types and buffer contents a
    client sends, a well-formed invocation returns or is refused with an error code: the TA does not
    panic and makes no access outside the parameter buffers, the stack arrays and the static arrays (in
    particular the 32-bit wrap-around of the computed buffer sizes is never exploitable, and a value
    parameter is never used as a pointer), and the sizes it reports never exceed the buffers. The one
    exception: a signed operation of an integer model may overflow, which is undefined, but only if the
    request holds a feature out of that model's range (2^29 - 1 in absolute value for the baseline, 2^30
    for the TinyML and 2^18 for the QAI model, 90000000 for the pairwise HAI model; the HAI TinyML model
    and the other commands never overflow). *)
Theorem TA_InvokeCommandEntryPoint_safe e cmd_id pt st (He : env_ok e) (W : ta_ok pt st) :
  match TA_InvokeCommandEntryPoint e cmd_id pt st with
  | (Ret _, st') => ta_ok pt st'
  | (Err _, _) => True
  | (Undef SignedOverflow, _) => exists p, params st !! 0%nat = Some p /\ out_of_range cmd_id (memref_buffer p)
  | (Panic, _) | (Undef _, _) => False
  end.
Proof.
  set (ov := exists p, params st !! 0%nat = Some p /\ out_of_range cmd_id (memref_buffer p)).
  change (safe ov (TA_InvokeCommandEntryPoint e cmd_id pt) (fun _ st' => ta_ok pt st') st).
  assert (forall p, params st !! 0%nat = Some p -> out_of_range cmd_id (memref_buffer p) -> ov) as Hov by (intros p Hp Ho; by exists p).
  unfold TA_InvokeCommandEntryPoint, cmd_kernel_block, cmd_qmoc_block. unfold out_of_range in Hov.
  repeat case_test; bool_hyps; subst;
    first [by apply cmd_infer_plain_safe | by apply cmd_infer_protected_safe
          | by apply cmd_get_info_safe | by apply cmd_bench_fidelity_safe
          | by apply cmd_hai_infer_safe | by apply cmd_kernel_block_reps_safe | done].
Qed.

(** C31. the protected path computes what the plain path does. A request whose features were
    enciphered with [qai_xor_crypt] gives the same outcome (value, error code or undefined
    behaviour) and the same output parameters as the plain command on the clear features, for every
    model id, valid or not. *)
Theorem protected_matches_plain n mid fb l k
    (Hn : 0 < n <= QAI_MAX_FEATURES) (Hm : is_u 32 mid) (Hl : length fb = 64%nat) :
  exists c o l', qai_xor_crypt fb (4 * n) (mk_ta l k) = (Ret c, mk_ta l k) /\
    cmd_infer_plain infer_types mid (mk_ta (plain_request n fb :: l) k)
      = (o, mk_ta (plain_request n fb :: l') k) /\
    cmd_infer_protected infer_types (mk_ta (protected_request n mid c :: l) k)
      = (o, mk_ta (protected_request n mid c :: l') k).
Proof.
  unfold QAI_MAX_FEATURES in Hn. set (w := Z.to_nat (4 * n)).
  assert (length (xor_prefix w fb) = 64%nat) as Hx by (unfold xor_prefix; by rewrite length_imap).
  exists (xor_prefix w fb). rewrite cmd_infer_plain_run, cmd_infer_protected_run by done. fold w.
  rewrite xor_prefix_twice. unfold bind.
  destruct (infer_model_indep mid (ints32 16 fb) n) as [o Ho].
  rewrite (infer_model_ext mid (ints32 16 (take w fb ++ _)) (ints32 16 fb) n), !Ho; [|lia|].
  2: { intros i Hi. apply (ints32_prefix (Z.to_nat n)); [|done|lia].
       replace (4 * Z.to_nat n)%nat with w by lia. rewrite take_app_length'; [done|]. rewrite length_take. lia. }
  assert (qai_xor_crypt fb (4 * n) (mk_ta l k) = (Ret (xor_prefix w fb), mk_ta l k)) as E
    by (apply qai_xor_crypt_ok; unfold lenZ; lia).
  destruct o as [out|er| |u]; [|by do 2 eexists..].
  destruct (write_output_frame out l k) as (o' & l' & Hw). exists o', l'. by rewrite !Hw.
Qed.

(** a plain inference delivers the model's result. When the model returns [o] on the features
    of a valid request, the command writes the 16 bytes of [o] at the start of the output buffer,
    leaves the rest of the buffer and every other parameter alone and reports size 16; an output
    buffer below 16 bytes gives TEE_ERROR_SHORT_BUFFER and changes nothing. *)
Theorem cmd_infer_plain_delivers n fb mid p l k o
    (Hn : 0 < n <= QAI_MAX_FEATURES) (Hl : length fb = 64%nat)
    (Hp : memref_size p = lenZ (memref_buffer p))
    (Ho : infer_model mid (ints32 16 fb) n (mk_ta (plain_request n fb :: p :: l) k)
          = (Ret o, mk_ta (plain_request n fb :: p :: l) k)) :
  cmd_infer_plain infer_types mid (mk_ta (plain_request n fb :: p :: l) k)
  = if memref_size p <? sizeof_qai_output
    then (Err TEE_ERROR_SHORT_BUFFER, mk_ta (plain_request n fb :: p :: l) k)
    else (Ret tt, mk_ta (plain_request n fb ::
            mk_param (output_bytes o ++ drop 16 (memref_buffer p)) sizeof_qai_output
              (value_a p) (value_b p) :: l) k).
Proof.
  rewrite cmd_infer_plain_run by done. unfold bind. rewrite Ho, write_output_run.
  case_test; [done|]. unfold sizeof_qai_output in E. bool_hyps.
  by rewrite wr_in by (rewrite ?Hp in *; unfold output_bytes, lenZ in *; rewrite ?length_bytes32; simpl; lia).
Qed.

(** The baseline model overflows on accepted input. A request with two features 2^31-1 and 1
    passes every check of the command, and the 32-bit accumulation then has undefined behaviour. *)
Theorem infer_baseline_overflow e k l :
  let rq := plain_request 2 (le_bytes 4 2147483647 ++ le_bytes 4 1 ++ replicate 56 0) in
  TA_InvokeCommandEntryPoint e TA_QAI_CMD_INFER_BASELINE infer_types (mk_ta (rq :: l) k)
  = (Undef SignedOverflow, mk_ta (rq :: l) k).
Proof. vm_compute. done. Qed.

End Ta.

(** ** Witnesses *)

Definition env_Qc : @ta_env Qc :=
  mk_env (mk_TEE_Time 5 998) (mk_TEE_Time 6 3) (replicate 32 0) (replicate 16 f0) (replicate 16 f0)
    (replicate 16 f0) (replicate 32 f0) (replicate 32 f0).

Definition none_param : TEE_Param := mk_param [] 0 0 0.

(** A plain request in range that is answered, and one that overflows. *)
Definition answered_st : ta_state := mk_ta [plain_request 4 (bytes32 [10; 20; -5; 3] ++ replicate 48 0); memref_of (replicate 20 7); none_param; none_param] init_Qc.
Definition overflow_st : ta_state := mk_ta [plain_request 2 (le_bytes 4 2147483647 ++ le_bytes 4 1 ++ replicate 56 0); memref_of (replicate 20 7); none_param; none_param] init_Qc.

Lemma TA_InvokeCommandEntryPoint_witness :
  (exists st', TA_InvokeCommandEntryPoint env_Qc TA_QAI_CMD_INFER_BASELINE infer_types answered_st = (Ret tt, st') /\ ta_ok infer_types st') /\
  (exists p, params overflow_st !! 0%nat = Some p /\ out_of_range TA_QAI_CMD_INFER_BASELINE (memref_buffer p)).
Proof.
  assert (forall a b : TEE_Param, memref_ok a -> memref_ok b -> ta_ok infer_types (mk_ta [a; b; none_param; none_param] init_Qc)) as K.
  { intros a b Ha Hb. split; [done| |apply kwf_init]. intros i p Hi Hp Hm. destruct (Z.to_nat i) as [|[|[|[|]]]] eqn:Ei; simpl in Hp; try done; injection Hp as <-; first [done | split; [done|constructor]]. }
  assert (env_ok env_Qc) as He by (split; try (split; [|]; done); done).
  assert (ta_ok infer_types answered_st) as W1 by (apply K; (split; [done | vm_compute; repeat constructor; done])).
  assert (ta_ok infer_types overflow_st) as W2 by (apply K; (split; [done | vm_compute; repeat constructor; done])).
  pose proof (TA_InvokeCommandEntryPoint_safe env_Qc TA_QAI_CMD_INFER_BASELINE infer_types answered_st He W1) as S1.
  pose proof (TA_InvokeCommandEntryPoint_safe env_Qc TA_QAI_CMD_INFER_BASELINE infer_types overflow_st He W2) as S2.
  split.
  - destruct (TA_InvokeCommandEntryPoint env_Qc TA_QAI_CMD_INFER_BASELINE infer_types answered_st) as [o st'] eqn:E.
    assert (o = Ret tt) as -> by (apply (f_equal fst) in E; cbn [fst] in E; rewrite <- E; unfold answered_st; generalize init_Qc; intros; vm_compute; reflexivity).
    exists st'. done.
  - unfold overflow_st in S2. rewrite infer_baseline_overflow in S2. exact S2.
Defined.

Lemma protected_matches_plain_witness :
  exists c o l', qai_xor_crypt (bytes32 [7; 8] ++ replicate 56 9) (4 * 2)
      (mk_ta [memref_of (replicate 16 0)] init_Qc) = (Ret c, mk_ta [memref_of (replicate 16 0)] init_Qc) /\
    cmd_infer_plain infer_types 1
      (mk_ta [plain_request 2 (bytes32 [7; 8] ++ replicate 56 9); memref_of (replicate 16 0)] init_Qc)
      = (o, mk_ta (plain_request 2 (bytes32 [7; 8] ++ replicate 56 9) :: l') init_Qc) /\
    cmd_infer_protected infer_types
      (mk_ta [protected_request 2 1 c; memref_of (replicate 16 0)] init_Qc)
      = (o, mk_ta (protected_request 2 1 c :: l') init_Qc).
Proof.
  apply (protected_matches_plain 2 1 (bytes32 [7; 8] ++ replicate 56 9)
           [memref_of (replicate 16 0)] init_Qc); done.
Defined.

Lemma cmd_infer_plain_delivers_witness :
  let fb := bytes32 [10; 20; -5; 3] ++ replicate 48 0 in
  cmd_infer_plain infer_types 0 (mk_ta [plain_request 4 fb; memref_of (replicate 20 7)] init_Qc)
  = (Ret tt, mk_ta [plain_request 4 fb; mk_param (bytes32 [1; 28; 28; 0] ++ [7; 7; 7; 7]) 16 0 0] init_Qc).
Proof.
  intros fb. apply (cmd_infer_plain_delivers 4 fb 0 (memref_of (replicate 20 7)) [] init_Qc
    (mk_qai_output 1 28 28 0)); [done | done | done |].
  generalize init_Qc. intros k. reflexivity.
Defined.
