(* ===== verification/SwLog.v ===== *)
(** * The secure-world log ring

    The writer of optee_os/core/arch/arm/plat-rpi5/sw_log.c and the reader of tools/optee-sw-log.c,
    which share a header and a ring of bytes in normal-world memory. The abstract component is a
    bounded queue of bytes; [queue_rel] relates the shared memory and the reader's position to it. *)
From stdpp Require Import relations.
From S2P Require Import Prelude.
Local Open Scope Z_scope.

Definition RPI5_SW_LOG_MAGIC : Z := 0x4f504c47.
Definition RPI5_SW_LOG_HDR_SIZE : Z := 16.
Definition RPI5_SW_LOG_PADDR : Z := 0x08400000.
Definition RPI5_SW_LOG_SIZE : Z := 0x00010000.

(** Offsets in struct rpi5_sw_log_hdr *)
Definition off_magic : Z := 0.
Definition off_write_pos : Z := 4.
Definition off_generation : Z := 8.
Definition off_reserved : Z := 12.

(** ** The writer *)

(** The static variables of sw_log.c, and the bytes of the log region. *)
Record sw_state := mk_sw {
  region : list Z;
  sw_log_pa : Z;
  sw_log_va_base : Z;
  sw_log_size : Z;
}.

Abbreviation W := (M sw_state).

(** Accesses relative to [sw_log_va_base]. *)
Definition io_read32 (off : Z) : W Z :=
  let! st := get in
  let! b := of_opt OutOfBounds (rd (region st) off 4) in
  ret (le_val b).

Definition io_write (off : Z) (b : list Z) : W unit :=
  let! st := get in
  let! r := of_opt OutOfBounds (wr (region st) off b) in
  put (mk_sw r (sw_log_pa st) (sw_log_va_base st) (sw_log_size st)).

Definition io_write32 (off v : Z) : W unit := io_write off (le_bytes 4 v).
Definition io_write8 (off v : Z) : W unit := io_write off [u8 v].

(** [sw_log_putc()] up to the store of the character: the position and the generation that go to the
    header next. *)
Definition sw_log_store (ch : Z) : W (Z * Z) :=
  let! st := get in
  let data_size := u32 (sw_log_size st - RPI5_SW_LOG_HDR_SIZE) in
  let! pos := io_read32 off_write_pos in
  let! gen := io_read32 off_generation in
  let '(pos, gen) := if data_size <=? pos then (0, u32 (gen + 1)) else (pos, gen) in
  let data_off := u32 (RPI5_SW_LOG_HDR_SIZE + pos) in
  do! io_write8 data_off ch in
  let pos := u32 (pos + 1) in
  ret (if data_size <=? pos then (0, u32 (gen + 1)) else (pos, gen)).

(** The generation and the position are two stores; [sw_log_lock] keeps other writers out, not the
    reader. *)
Definition sw_log_putc (ch : Z) : W unit :=
  let! st := get in
  if (sw_log_size st =? 0) || (sw_log_va_base st =? 0) then ret tt
  else
    let! h := sw_log_store ch in
    do! io_write32 off_generation (snd h) in
    io_write32 off_write_pos (fst h).

Definition plat_trace_init : W unit :=
  modify (fun st => mk_sw (region st) RPI5_SW_LOG_PADDR (sw_log_va_base st) (sw_log_size st)).

(** [va]: what [phys_to_virt] returns for the region. *)
Definition rpi5_sw_log_init (va : Z) : W unit :=
  do! plat_trace_init in
  if va =? 0 then err TEE_ERROR_GENERIC
  else
    do! modify (fun st => mk_sw (region st) (sw_log_pa st) va (sw_log_size st)) in
    let! magic := io_read32 off_magic in
    do! (if negb (magic =? RPI5_SW_LOG_MAGIC) then
           do! io_write32 off_magic RPI5_SW_LOG_MAGIC in
           do! io_write32 off_write_pos 0 in
           do! io_write32 off_generation 0 in
           io_write32 off_reserved 0
         else ret tt) in
    modify (fun st => mk_sw (region st) (sw_log_pa st) (sw_log_va_base st) RPI5_SW_LOG_SIZE).

(** [str]: the memory from the string pointer on. *)
Fixpoint plat_trace_ext_puts (str : list Z) : W unit :=
  match str with
  | [] => undef OutOfBounds
  | c :: p => if c =? 0 then ret tt else do! sw_log_putc c in plat_trace_ext_puts p
  end.

(** ** The reader *)

Record reader := mk_reader { read_pos : Z; read_gen : Z }.

Definition hdr_write_pos (r : list Z) : Z := le_val (take 4 (drop 4 r)).
Definition hdr_generation (r : list Z) : Z := le_val (take 4 (drop 8 r)).
Definition hdr_magic (r : list Z) : Z := le_val (take 4 r).
Definition data_size (r : list Z) : Z := u32 (lenZ r - RPI5_SW_LOG_HDR_SIZE).

(** An iteration of the loop of [drain_new] stops or emits a byte. [drain_with]: after it has read [wp]
    and [gen] from the header, on the mapped region [r]. *)
Inductive drained := Stop | Emit (b : Z) (rd : reader) | Fault.

Definition drain_with (wp gen : Z) (r : list Z) (rd : reader) : drained :=
  if (read_pos rd =? wp) && (read_gen rd =? gen) then Stop
  else match r !! Z.to_nat (RPI5_SW_LOG_HDR_SIZE + read_pos rd) with
       | None => Fault
       | Some b =>
           let rp := u32 (read_pos rd + 1) in
           Emit b (if data_size r <=? rp then mk_reader 0 gen else mk_reader rp (read_gen rd))
       end.

(** The iteration while the writer is idle. *)
Definition drain_iter (r : list Z) (rd : reader) : drained := drain_with (hdr_write_pos r) (hdr_generation r) r rd.

(** [drain_new] while the writer is idle: the bytes printed and the reader's position, [None] when
    the iterations granted do not reach the end of the loop. *)
Fixpoint drain_new (fuel : nat) (r : list Z) (rd : reader) : option (list Z * reader) :=
  match fuel with
  | O => None
  | S k => match drain_iter r rd with
           | Stop => Some ([], rd)
           | Fault => None
           | Emit b rd' => match drain_new k r rd' with
                           | Some (out, rd'') => Some (b :: out, rd'')
                           | None => None
                           end
           end
  end.

(** The polling loop of [map_log]; [view t] is the region at the [t]-th look at the magic. *)
Fixpoint map_poll (fuel : nat) (tries : nat) (view : nat -> list Z) (wait_magic : bool)
    : option (nat * reader) :=
  match fuel with
  | O => None
  | S k => let r := view tries in
           if hdr_magic r =? RPI5_SW_LOG_MAGIC
           then Some (tries, mk_reader (hdr_write_pos r) (hdr_generation r))
           else if negb wait_magic || (600 <? Z.of_nat tries) then None
           else map_poll k (S tries) view wait_magic
  end.

(** The loop gives up at the 602nd look, so 602 iterations are all it can make. *)
Definition map_log (view : nat -> list Z) (wait_magic : bool) : option (nat * reader) :=
  map_poll 602 0 view wait_magic.

(** [main] without [-f] on a region [r] that does not change: exit status and output. *)
Definition main_once (fuel : nat) (r : list Z) : option (Z * list Z) :=
  match map_log (fun _ => r) false with
  | None => Some (1, [])
  | Some (_, rd) => match drain_new fuel r rd with
                    | Some (out, _) => Some (0, out)
                    | None => None
                    end
  end.

(** ** The shared memory as a queue *)

Lemma rd1_lookup (r : list Z) n : 0 <= n -> rd r n 1 = (fun b => [b]) <$> r !! Z.to_nat n.
Proof.
  intros Hn. unfold rd. destruct (r !! Z.to_nat n) eqn:E.
  - assert (n < lenZ r) by (apply lookup_lt_Some in E; unfold lenZ; lia).
    rewrite !(proj2 (Z.leb_le _ _)) by lia. simpl. f_equal.
    rewrite (drop_S _ _ _ E). simpl. by rewrite take_0.
  - apply lookup_ge_None in E. rewrite (proj2 (Z.leb_gt (n + 1) _)) by (unfold lenZ; lia).
    by rewrite andb_false_r.
Qed.

Lemma rd_hdr (r : list Z) off : 16 < lenZ r -> 0 <= off <= 12 -> rd r off 4 = Some (take 4 (drop (Z.to_nat off) r)).
Proof. intros. by rewrite rd_in by lia. Qed.

(** A configured log over a region of [sz] bytes. *)
Record log_ok (sz : Z) (st : sw_state) : Prop := mk_log_ok {
  lo_range : 16 < sz < 2 ^ 32;
  lo_len : lenZ (region st) = sz;
  lo_size : sw_log_size st = sz;
  lo_va : sw_log_va_base st <> 0;
  lo_bytes : bytes_ok (region st);
}.

Definition wpos (st : sw_state) : Z := hdr_write_pos (region st).
Definition wgen (st : sw_state) : Z := hdr_generation (region st).
Definition ring (st : sw_state) (i : Z) : option Z := region st !! Z.to_nat (16 + i).

Lemma le_val4_range l : bytes_ok l -> is_u 32 (le_val (take 4 l)).
Proof. intros H. apply (Forall_inv (words32_range 1 l H)). Qed.

Lemma io_write_run sz st off b :
  log_ok sz st -> 0 <= off -> off + lenZ b <= sz -> bytes_ok b ->
  exists st', io_write off b st = (Ret tt, st') /\ log_ok sz st' /\
    wr (region st) off b = Some (region st').
Proof.
  intros O H1 H2 Hb. pose proof (lo_len _ _ O) as HL.
  pose proof (wr_in (region st) off b H1 ltac:(lia)) as E.
  unfold io_write, bind, get. rewrite E. simpl. eexists. split; [reflexivity|]. split; [|done].
  destruct O as [O1 O2 O3 O4 O5]. split; simpl; try done.
  - apply wr_Some in E as (_ & _ & EL). unfold lenZ in *. lia.
  - by eapply wr_bytes_ok.
Qed.

(** The position a character goes to, and the header after it. *)
Definition put_pos (D pos : Z) : Z := if D <=? pos then 0 else pos.
Definition put_gen (D pos gen : Z) : Z := if D <=? pos then u32 (gen + 1) else gen.
Definition next_pos (D p : Z) : Z := if D <=? p + 1 then 0 else p + 1.
Definition next_gen (D p g : Z) : Z := if D <=? p + 1 then u32 (g + 1) else g.

Lemma hdr_read sz st off : log_ok sz st -> 0 <= off <= 12 ->
  io_read32 off st = (Ret (le_val (take 4 (drop (Z.to_nat off) (region st)))), st).
Proof.
  intros O Ho. unfold io_read32, bind, get. rewrite rd_hdr; [done| |done].
  rewrite (lo_len _ _ O). apply (lo_range _ _ O).
Qed.

Lemma ring_other sz st off b st' i : log_ok sz st -> wr (region st) off b = Some (region st') -> 0 <= i ->
  16 + i + 1 <= off \/ off + lenZ b <= 16 + i -> ring st' i = ring st i.
Proof.
  intros O W Hi Hd. assert (forall a b : option Z, (fun x => [x]) <$> a = (fun x => [x]) <$> b -> a = b) as Inj by (intros [] []; simpl; congruence).
  apply Inj. unfold ring. rewrite <- (rd1_lookup (region st')) by lia. rewrite (rd_wr_other _ _ _ _ _ 1 W) by lia. by rewrite rd1_lookup by lia.
Qed.

(** A word of the header after a store elsewhere, and after a store to it. *)
Lemma hdr_other sz st st' off b o : log_ok sz st -> log_ok sz st' -> wr (region st) off b = Some (region st') -> 0 <= o <= 12 ->
  o + 4 <= off \/ off + lenZ b <= o -> take 4 (drop (Z.to_nat o) (region st')) = take 4 (drop (Z.to_nat o) (region st)).
Proof.
  intros O O' W Ho Hd. pose proof (lo_len _ _ O). pose proof (lo_len _ _ O'). pose proof (lo_range _ _ O).
  pose proof (rd_wr_other _ _ _ _ o 4 W ltac:(lia)) as E. rewrite !rd_hdr in E by lia. by apply (inj Some) in E.
Qed.

Lemma hdr_same sz st st' o v : log_ok sz st -> log_ok sz st' -> wr (region st) o (le_bytes 4 v) = Some (region st') -> 0 <= o <= 12 -> is_u 32 v ->
  le_val (take 4 (drop (Z.to_nat o) (region st'))) = v.
Proof.
  intros O O' W Ho Hv. pose proof (lo_len _ _ O'). pose proof (lo_range _ _ O). pose proof (rd_wr_same _ _ _ _ W) as E. change (lenZ _) with 4 in E.
  rewrite rd_hdr in E by lia. apply (inj Some) in E. rewrite E, le_val_le_bytes. by apply (uwrap_small 32).
Qed.

(** A store to the generation, and to the write position. *)
Lemma store_generation sz st g : log_ok sz st -> is_u 32 g ->
  exists st', io_write32 off_generation g st = (Ret tt, st') /\ log_ok sz st' /\ wpos st' = wpos st /\ wgen st' = g /\ forall i, 0 <= i -> ring st' i = ring st i.
Proof.
  intros O Hg. pose proof (lo_range _ _ O). destruct (io_write_run sz st 8 (le_bytes 4 g) O) as (s1 & R1 & O1 & W1); [lia|unfold lenZ; rewrite length_le_bytes; lia|apply le_bytes_ok|].
  exists s1. split; [done|]. split; [done|]. split; [|split].
  - unfold wpos, hdr_write_pos. f_equal. apply (hdr_other sz st s1 8 (le_bytes 4 g) 4); (done || by left).
  - by apply (hdr_same sz st s1 8 g).
  - intros i Hi. apply (ring_other sz st 8 (le_bytes 4 g)); try done. right. unfold lenZ. rewrite length_le_bytes. lia.
Qed.

Lemma store_write_pos sz st p : log_ok sz st -> is_u 32 p ->
  exists st', io_write32 off_write_pos p st = (Ret tt, st') /\ log_ok sz st' /\ wpos st' = p /\ wgen st' = wgen st /\ forall i, 0 <= i -> ring st' i = ring st i.
Proof.
  intros O Hp. pose proof (lo_range _ _ O). destruct (io_write_run sz st 4 (le_bytes 4 p) O) as (s1 & R1 & O1 & W1); [lia|unfold lenZ; rewrite length_le_bytes; lia|apply le_bytes_ok|].
  exists s1. split; [done|]. split; [done|]. split; [|split].
  - by apply (hdr_same sz st s1 4 p).
  - unfold wgen, hdr_generation. f_equal. apply (hdr_other sz st s1 4 (le_bytes 4 p) 8); (done || by right).
  - intros i Hi. apply (ring_other sz st 4 (le_bytes 4 p)); try done. right. unfold lenZ. rewrite length_le_bytes. lia.
Qed.

(** Storing a character: it lands at the write position, nothing else changes. Holds for any header
    contents: the normal world can write the header. *)
Lemma sw_log_store_run sz st ch : log_ok sz st ->
  let D := sz - 16 in let p := put_pos D (wpos st) in let g := put_gen D (wpos st) (wgen st) in
  exists st', sw_log_store ch st = (Ret (next_pos D p, next_gen D p g), st') /\ log_ok sz st' /\ wpos st' = wpos st /\ wgen st' = wgen st /\
    0 <= p < D /\ is_u 32 (next_pos D p) /\ is_u 32 (next_gen D p g) /\
    (forall i, 0 <= i < D -> ring st' i = if i =? p then Some (u8 ch) else ring st i).
Proof.
  intros O D p g. pose proof (lo_range _ _ O) as R.
  assert (is_u 32 (wpos st)) as Up by (apply le_val4_range, Forall_drop, (lo_bytes _ _ O)).
  assert (is_u 32 (wgen st)) as Ug by (apply le_val4_range, Forall_drop, (lo_bytes _ _ O)).
  assert (0 <= p < D) as Hp by (unfold p, put_pos, is_u in *; destruct (D <=? wpos st) eqn:?; lia).
  assert (is_u 32 g) as Hg by (unfold g, put_gen; destruct (D <=? wpos st); [apply uwrap_range; lia | done]).
  destruct (io_write_run sz st (16 + p) [u8 ch] O) as (s1 & R1 & O1 & W1);
    [lia|unfold lenZ; simpl; lia|repeat constructor; apply (uwrap_range 8); lia|].
  exists s1. split.
  { unfold sw_log_store. rewrite (bind_run _ _ _ st st) by done. rewrite (lo_size _ _ O).
    unfold RPI5_SW_LOG_HDR_SIZE. rewrite (uwrap_small 32 (sz - 16)) by (unfold is_u; lia).
    rewrite (bind_run _ _ _ (wpos st) st) by (by apply (hdr_read sz)).
    rewrite (bind_run _ _ _ (wgen st) st) by (by apply (hdr_read sz)).
    fold D. assert ((if D <=? wpos st then (0, u32 (wgen st + 1)) else (wpos st, wgen st)) = (p, g)) as ->
      by (unfold p, g, put_pos, put_gen; by destruct (D <=? wpos st)).
    rewrite (uwrap_small 32 (16 + p)), (uwrap_small 32 (p + 1)) by (unfold is_u; lia).
    rewrite (bind_run _ _ _ _ _ R1). unfold next_pos, next_gen. by destruct (D <=? p + 1). }
  split; [done|]. split; [unfold wpos, hdr_write_pos; f_equal; apply (hdr_other sz st s1 (16 + p) [u8 ch] 4); (done || left; lia)|].
  split; [unfold wgen, hdr_generation; f_equal; apply (hdr_other sz st s1 (16 + p) [u8 ch] 8); (done || left; lia)|]. split; [done|].
  split; [unfold next_pos, is_u; case_test; lia|]. split; [unfold next_gen; case_test; [apply uwrap_range; lia | done]|].
  intros i Hi. destruct (i =? p) eqn:E; bool_hyps.
  - subst i. unfold ring. pose proof (rd_wr_same _ _ _ _ W1) as E1. change (lenZ _) with 1 in E1. rewrite rd1_lookup in E1 by lia.
    destruct (region s1 !! Z.to_nat (16 + p)); simpl in E1; congruence.
  - apply (ring_other sz st (16 + p) [u8 ch]); try done; [lia|]. change (lenZ [u8 ch]) with 1. lia.
Qed.

(** One character: the byte lands at the write position and the header moves on. *)
Lemma sw_log_putc_run sz st ch : log_ok sz st ->
  let D := sz - 16 in let p := put_pos D (wpos st) in let g := put_gen D (wpos st) (wgen st) in
  exists st', sw_log_putc ch st = (Ret tt, st') /\ log_ok sz st' /\
    wpos st' = next_pos D p /\ wgen st' = next_gen D p g /\
    (forall i, 0 <= i < D -> ring st' i = if i =? p then Some (u8 ch) else ring st i).
Proof.
  intros O D p g. pose proof (lo_range _ _ O) as R. destruct (sw_log_store_run sz st ch O) as (s1 & R1 & O1 & _ & _ & _ & Hnp & Hng & Hr). fold D p g in R1, Hnp, Hng, Hr.
  destruct (store_generation sz s1 _ O1 Hng) as (s2 & R2 & O2 & _ & G2 & Hr2). destruct (store_write_pos sz s2 _ O2 Hnp) as (s3 & R3 & O3 & P3 & G3 & Hr3).
  exists s3. split.
  { unfold sw_log_putc. rewrite (bind_run _ _ _ st st) by done. rewrite (lo_size _ _ O).
    rewrite (proj2 (Z.eqb_neq sz 0)), (proj2 (Z.eqb_neq _ 0)) by (lia || apply (lo_va _ _ O)).
    cbn [orb]. rewrite (bind_run _ _ _ _ _ R1). cbn [fst snd]. by rewrite (bind_run _ _ _ _ _ R2). }
  split; [done|]. split; [done|]. split; [congruence|]. intros i Hi. by rewrite Hr3, Hr2, Hr by lia.
Qed.

(** The bytes written and not yet read are [q], oldest first. *)
Record queue_rel (sz : Z) (st : sw_state) (rd : reader) (q : list Z) : Prop := mk_queue_rel {
  qr_log : log_ok sz st;
  qr_pos : 0 <= read_pos rd < sz - 16;
  qr_gen : is_u 32 (read_gen rd);
  qr_len : lenZ q <= sz - 16;
  qr_wpos : wpos st = (read_pos rd + lenZ q) mod (sz - 16);
  qr_wgen : wgen st = u32 (read_gen rd + (read_pos rd + lenZ q) / (sz - 16));
  qr_data : forall i, 0 <= i < lenZ q ->
    ring st ((read_pos rd + i) mod (sz - 16)) = q !! Z.to_nat i;
}.

(** Euclidean division of a ring position, which is below twice the ring size. *)
Lemma ring_div D x : 0 < D -> 0 <= x < 2 * D ->
  x / D = (if D <=? x then 1 else 0) /\ x mod D = (if D <=? x then x - D else x).
Proof.
  intros HD Hx. destruct (D <=? x) eqn:E; bool_hyps.
  - split; [symmetry; apply (Z.div_unique _ _ _ (x - D)); lia | symmetry; apply (Z.mod_unique _ _ 1); lia].
  - split; [apply Z.div_small; lia | apply Z.mod_small; lia].
Qed.

(** Splits every test of a ring position. *)
Ltac ring_cases :=
  repeat match goal with
  | H : context [if ?b then _ else _] |- _ => let E := fresh "E" in destruct b eqn:E; bool_hyps
  | |- context [if ?b then _ else _] => let E := fresh "E" in destruct b eqn:E; bool_hyps
  end.

(** Writing is enqueueing, as long as the ring has room. *)
Lemma sw_log_putc_enqueue sz st rd q ch : queue_rel sz st rd q -> lenZ q < sz - 16 ->
  exists st', sw_log_putc ch st = (Ret tt, st') /\ queue_rel sz st' rd (q ++ [u8 ch]).
Proof.
  intros [O Hp Hg Hl Ew Eg Hd] Hroom. set (D := sz - 16) in *.
  destruct (sw_log_putc_run sz st ch O) as (st' & R & O' & Wp & Wg & Rg). fold D in Wp, Wg, Rg.
  exists st'. split; [done|]. pose proof (lenZ_nonneg q) as Hq.
  pose proof (Z.mod_pos_bound (read_pos rd + lenZ q) D ltac:(lia)) as Bw. rewrite <- Ew in Bw.
  unfold put_pos, put_gen in *. rewrite (proj2 (Z.leb_gt D (wpos st))) in * by lia.
  destruct (ring_div D (read_pos rd + lenZ q)) as [Dq Dm]; [lia..|].
  destruct (ring_div D (read_pos rd + lenZ (q ++ [u8 ch]))) as [Dq' Dm'];
    [lia|rewrite lenZ_app; change (lenZ [u8 ch]) with 1; lia|].
  rewrite Dm in Ew. rewrite Dq in Eg.
  split; fold D; try done; rewrite ?lenZ_app; change (lenZ [u8 ch]) with 1; [lia | | |].
  - rewrite lenZ_app in Dm'. change (lenZ [u8 ch]) with 1 in Dm'. rewrite Wp, Dm'. unfold next_pos.
    ring_cases; lia.
  - rewrite lenZ_app in Dq'. change (lenZ [u8 ch]) with 1 in Dq'. rewrite Wg, Dq'. unfold next_gen. rewrite Eg.
    unfold uwrap, is_u in *. ring_cases; rewrite ?Zplus_mod_idemp_l; try (f_equal; lia);
      rewrite ?Z.add_0_r; try (apply Z.mod_small; lia); lia.
  - intros i Hi. destruct (ring_div D (read_pos rd + i)) as [Dq2 Dm2]; [lia..|].
    rewrite Rg by (rewrite Dm2; ring_cases; lia).
    destruct (decide (i = lenZ q)) as [->|Hne].
    + rewrite Dm, Ew, Z.eqb_refl. symmetry. unfold lenZ. rewrite Nat2Z.id. by apply list_lookup_middle.
    + assert ((read_pos rd + i) mod D =? wpos st = false) as -> by (rewrite Dm2, Ew; ring_cases; lia).
      rewrite Hd by lia. symmetry. apply lookup_app_l. unfold lenZ in *. lia.
Qed.

Lemma data_size_eq sz st : log_ok sz st -> data_size (region st) = sz - 16.
Proof.
  intros O. unfold data_size. rewrite (lo_len _ _ O). pose proof (lo_range _ _ O).
  apply uwrap_small. unfold is_u, RPI5_SW_LOG_HDR_SIZE. lia.
Qed.

(** An iteration of the reader stops exactly on the empty queue and otherwise dequeues. *)
Lemma drain_iter_empty sz st rd : queue_rel sz st rd [] -> drain_iter (region st) rd = Stop.
Proof.
  intros [O Hp Hg Hl Ew Eg _]. unfold drain_iter, drain_with. fold (wpos st) (wgen st).
  change (lenZ (@nil Z)) with 0 in *. rewrite Z.add_0_r in *.
  rewrite Z.mod_small in Ew by lia. rewrite Z.div_small, Z.add_0_r, uwrap_small in Eg by (lia || done).
  by rewrite Ew, Eg, !Z.eqb_refl.
Qed.

Lemma drain_iter_dequeue sz st rd b q : queue_rel sz st rd (b :: q) ->
  exists rd', drain_iter (region st) rd = Emit b rd' /\ queue_rel sz st rd' q.
Proof.
  intros [O Hp Hg Hl Ew Eg Hd]. unfold drain_iter, drain_with. fold (wpos st) (wgen st).
  rewrite (data_size_eq sz) by done. set (D := sz - 16) in *. pose proof (lo_range _ _ O) as R.
  assert (lenZ (b :: q) = lenZ q + 1) as HL by (unfold lenZ; simpl; lia). rewrite HL in *.
  pose proof (lenZ_nonneg q) as Hq.
  destruct (ring_div D (read_pos rd + (lenZ q + 1))) as [Dq Dm]; [lia..|]. rewrite Dm in Ew. rewrite Dq in Eg.
  assert ((read_pos rd =? wpos st) && (read_gen rd =? wgen st) = false) as ->.
  { apply andb_false_iff. rewrite !Z.eqb_neq. destruct (decide (lenZ q + 1 = D)); [right|left; ring_cases; lia].
    rewrite Eg. ring_cases; [|lia]. unfold uwrap, is_u in *. intros C.
    destruct (decide (read_gen rd + 1 = 2 ^ 32)) as [E1|]; [rewrite E1, Z_mod_same_full in C; lia|].
    rewrite Z.mod_small in C; lia. }
  assert (ring st (read_pos rd) = Some b) as Hb.
  { pose proof (Hd 0 ltac:(lia)) as H0. rewrite Z.add_0_r, Z.mod_small in H0 by lia. done. }
  unfold ring in Hb. unfold RPI5_SW_LOG_HDR_SIZE. rewrite Hb.
  rewrite (uwrap_small 32 (read_pos rd + 1)) by (unfold is_u; lia). eexists. split; [reflexivity|].
  assert (forall r', read_pos r' = (read_pos rd + 1) mod D -> is_u 32 (read_gen r') ->
    read_pos r' + lenZ q < 2 * D -> wgen st = u32 (read_gen r' + (read_pos r' + lenZ q) / D) ->
    queue_rel sz st r' q) as Mk.
  { intros r' Ep' Gp' Lp' Eg'. destruct (ring_div D (read_pos rd + 1)) as [_ Dp]; [lia..|]. rewrite Dp in Ep'.
    destruct (ring_div D (read_pos r' + lenZ q)) as [_ Dm']; [lia|split; [ring_cases; lia|done]|].
    split; fold D; try done; [ring_cases; lia|lia|rewrite Ew, Dm'; ring_cases; lia|].
    intros i Hi. specialize (Hd (i + 1) ltac:(lia)). rewrite Z2Nat.inj_add in Hd by lia.
    rewrite Nat.add_1_r in Hd. simpl in Hd. rewrite <- Hd. f_equal. rewrite Ep'.
    destruct (ring_div D (read_pos rd + (i + 1))) as [_ ->]; [lia..|].
    destruct (ring_div D ((if D <=? read_pos rd + 1 then read_pos rd + 1 - D else read_pos rd + 1) + i)) as [_ ->];
      ring_cases; lia. }
  destruct (D <=? read_pos rd + 1) eqn:E; bool_hyps; apply Mk; simpl.
  - symmetry. replace (read_pos rd + 1) with D by lia. apply Z_mod_same_full.
  - apply le_val4_range, Forall_drop, (lo_bytes _ _ O).
  - lia.
  - rewrite Z.div_small, Z.add_0_r by lia. symmetry. apply uwrap_small.
    apply le_val4_range, Forall_drop, (lo_bytes _ _ O).
  - symmetry. apply Z.mod_small. lia.
  - done.
  - lia.
  - replace (read_pos rd + 1 + lenZ q) with (read_pos rd + (lenZ q + 1)) by lia. by rewrite Dq.
Qed.

Lemma puts_enqueue sz st rd q str rest :
  queue_rel sz st rd q -> lenZ q + lenZ str <= sz - 16 -> Forall (fun c => c <> 0) str ->
  exists st', plat_trace_ext_puts (str ++ 0 :: rest) st = (Ret tt, st') /\
    queue_rel sz st' rd (q ++ (u8 <$> str)).
Proof.
  revert st q. induction str as [|c str IH]; intros st q Q L Hnz; simpl.
  - exists st. by rewrite app_nil_r.
  - apply Forall_cons in Hnz as [Hc Hnz]. rewrite (proj2 (Z.eqb_neq c 0)) by done.
    assert (lenZ (c :: str) = lenZ str + 1) as E by (unfold lenZ; simpl; lia).
    pose proof (lenZ_nonneg str). destruct (sw_log_putc_enqueue sz st rd q c Q) as (s1 & R & Q1); [lia|].
    destruct (IH s1 (q ++ [u8 c]) Q1) as (s2 & R2 & Q2); [|done|].
    { rewrite lenZ_app. change (lenZ [u8 c]) with 1. lia. }
    exists s2. rewrite (bind_run _ _ _ _ _ R). split; [done|]. by rewrite <- app_assoc in Q2.
Qed.

Lemma drain_queue sz st rd q k : queue_rel sz st rd q -> (length q < k)%nat ->
  exists rd', drain_new k (region st) rd = Some (q, rd') /\ queue_rel sz st rd' [].
Proof.
  revert rd k. induction q as [|b q IH]; intros rd [|k] Q Hk; simpl in *; try lia.
  - rewrite (drain_iter_empty sz) by done. eauto.
  - destruct (drain_iter_dequeue sz st rd b q Q) as (rd1 & -> & Q1).
    destruct (IH rd1 k Q1) as (rd2 & -> & Q2); [lia|]. eauto.
Qed.

(** Attaching a reader to a log whose write position is inside the ring. *)
Lemma attach_empty sz st :
  log_ok sz st -> wpos st < sz - 16 -> queue_rel sz st (mk_reader (wpos st) (wgen st)) [].
Proof.
  intros O Hw. assert (is_u 32 (wpos st)) as Up by (apply le_val4_range, Forall_drop, (lo_bytes _ _ O)).
  assert (is_u 32 (wgen st)) as Ug by (apply le_val4_range, Forall_drop, (lo_bytes _ _ O)).
  unfold is_u in Up. pose proof (lo_range _ _ O).
  split; simpl; change (lenZ (@nil Z)) with 0; rewrite ?Z.add_0_r; try done; try lia.
  - symmetry. apply Z.mod_small. lia.
  - rewrite Z.div_small, Z.add_0_r by lia. symmetry. by apply uwrap_small.
Qed.

(** ** Interleaved execution

    The writer and a following reader in any order, one access to the header at a time. The writer
    stores a character, then the generation, then the position; the reader reads the position, then
    the generation, then ends an iteration of [drain_new] (which may find nothing). Each sees the
    stores of the other in program order. A character is stored only while the reader is less than
    one ring behind. *)
Inductive writer_at := WIdle | WData (pos gen : Z) | WGen (pos : Z).
Inductive reader_at := RIdle | RPos (wp : Z) | RHdr (wp gen : Z).

Record system := mk_system {
  sys_log : sw_state;
  sys_writer : writer_at;
  sys_reader : reader;
  sys_at : reader_at;
  written : list Z;
  shown : list Z;
}.

(** The writer wraps, and its position is still to be stored, while the reader is at the last byte. *)
Definition torn (sz : Z) (w : writer_at) (rd : reader) : Prop := w = WGen 0 /\ read_pos rd = sz - 16 - 1.

Inductive sys_step (sz : Z) : system -> system -> Prop :=
| step_store st st' rd at_ ws out ch pos gen :
    lenZ ws - lenZ out < sz - 16 -> sw_log_store ch st = (Ret (pos, gen), st') ->
    sys_step sz (mk_system st WIdle rd at_ ws out) (mk_system st' (WData pos gen) rd at_ (ws ++ [u8 ch]) out)
| step_gen st st' rd at_ ws out pos gen :
    io_write32 off_generation gen st = (Ret tt, st') ->
    sys_step sz (mk_system st (WData pos gen) rd at_ ws out) (mk_system st' (WGen pos) rd at_ ws out)
| step_pos st st' rd at_ ws out pos :
    io_write32 off_write_pos pos st = (Ret tt, st') ->
    sys_step sz (mk_system st (WGen pos) rd at_ ws out) (mk_system st' WIdle rd at_ ws out)
| step_read_pos st w rd ws out :
    sys_step sz (mk_system st w rd RIdle ws out) (mk_system st w rd (RPos (hdr_write_pos (region st))) ws out)
| step_read_gen st w rd wp ws out :
    ~ torn sz w rd ->
    sys_step sz (mk_system st w rd (RPos wp) ws out) (mk_system st w rd (RHdr wp (hdr_generation (region st))) ws out)
| step_emit st w rd rd' wp gen ws out b :
    drain_with wp gen (region st) rd = Emit b rd' ->
    sys_step sz (mk_system st w rd (RHdr wp gen) ws out) (mk_system st w rd' RIdle ws (out ++ [b]))
| step_stop st w rd wp gen ws out :
    drain_with wp gen (region st) rd = Stop ->
    sys_step sz (mk_system st w rd (RHdr wp gen) ws out) (mk_system st w rd RIdle ws out).

(** The header for a writer [n] bytes ahead of the reader. *)
Definition ahead_pos (sz : Z) (rd : reader) (n : Z) : Z := (read_pos rd + n) mod (sz - 16).
Definition ahead_gen (sz : Z) (rd : reader) (n : Z) : Z := u32 (read_gen rd + (read_pos rd + n) / (sz - 16)).

(** The header and the writer, [n] bytes being published and [m] more stored. *)
Definition writer_inv (sz : Z) (st : sw_state) (w : writer_at) (rd : reader) (n m : Z) : Prop :=
  match w with
  | WIdle => m = 0 /\ wgen st = ahead_gen sz rd n
  | WData pos gen => m = 1 /\ wgen st = ahead_gen sz rd n /\ pos = ahead_pos sz rd (n + 1) /\ gen = ahead_gen sz rd (n + 1)
  | WGen pos => m = 1 /\ wgen st = ahead_gen sz rd (n + 1) /\ pos = ahead_pos sz rd (n + 1)
  end.

(** What the reader has read of the header was there when [j], then [k] bytes were ahead of it. *)
Definition reader_inv (sz : Z) (rd : reader) (at_ : reader_at) (n m : Z) : Prop :=
  match at_ with
  | RIdle => True
  | RPos wp => exists j, 0 <= j <= n /\ wp = ahead_pos sz rd j
  | RHdr wp gen => exists j k, 0 <= j <= n /\ wp = ahead_pos sz rd j /\ j <= k <= n + m /\ gen = ahead_gen sz rd k /\
      (sz - 16 <= read_pos rd + k -> 1 <= n)
  end.

(** [q] has been published and not yet read; [pend] is a character whose put has not ended. *)
Record ring_inv (sz : Z) (st : sw_state) (w : writer_at) (rd : reader) (at_ : reader_at) (q pend : list Z) : Prop := mk_ring_inv {
  ri_log : log_ok sz st;
  ri_pos : 0 <= read_pos rd < sz - 16;
  ri_gen : is_u 32 (read_gen rd);
  ri_len : lenZ q + lenZ pend <= sz - 16;
  ri_wpos : wpos st = ahead_pos sz rd (lenZ q);
  ri_data : forall i, 0 <= i < lenZ q + lenZ pend -> ring st ((read_pos rd + i) mod (sz - 16)) = (q ++ pend) !! Z.to_nat i;
  ri_writer : writer_inv sz st w rd (lenZ q) (lenZ pend);
  ri_reader : reader_inv sz rd at_ (lenZ q) (lenZ pend);
}.

Definition sys_inv (sz : Z) (s : system) : Prop :=
  exists q pend, written s = shown s ++ q ++ pend /\ ring_inv sz (sys_log s) (sys_writer s) (sys_reader s) (sys_at s) q pend.

Lemma ring_inv_idle sz st rd at_ q : ring_inv sz st WIdle rd at_ q [] -> queue_rel sz st rd q.
Proof.
  intros [O Hp Hg Hl Ew Hd [_ Eg] _]. change (lenZ (@nil Z)) with 0 in *. rewrite Z.add_0_r in *. rewrite app_nil_r in Hd. by split.
Qed.

Lemma queue_ring_inv sz st rd q : queue_rel sz st rd q -> ring_inv sz st WIdle rd RIdle q [].
Proof.
  intros [O Hp Hg Hl Ew Eg Hd]. split; try done; change (lenZ (@nil Z)) with 0; rewrite ?Z.add_0_r, ?app_nil_r; done.
Qed.

(** More stored or published does not matter to the reader. *)
Lemma reader_inv_grows sz rd at_ n m n' m' : reader_inv sz rd at_ n m -> n <= n' -> n + m <= n' + m' -> reader_inv sz rd at_ n' m'.
Proof.
  destruct at_ as [|wp|wp gen]; cbn [reader_inv]; [done|..].
  - intros (j & Hj & E) H1 H2. exists j. split; [lia|done].
  - intros (j & k & Hj & E & Hk & E2 & H) H1 H2. exists j, k. split_and!; (done || lia).
Qed.

Lemma store_inv sz st st' rd at_ q ch pos gen : ring_inv sz st WIdle rd at_ q [] -> lenZ q < sz - 16 -> sw_log_store ch st = (Ret (pos, gen), st') ->
  ring_inv sz st' (WData pos gen) rd at_ q [u8 ch].
Proof.
  intros [O Hp Hg Hl Ew Hd [_ Eg] Hr] Hroom R. change (lenZ (@nil Z)) with 0 in *. rewrite Z.add_0_r in *. rewrite app_nil_r in Hd. pose proof (lenZ_nonneg q) as Hq.
  destruct (sw_log_store_run sz st ch O) as (s1 & R1 & O1 & Ew1 & Eg1 & _ & _ & _ & Rg). rewrite R in R1. simplify_eq. set (D := sz - 16) in *.
  unfold ahead_pos, ahead_gen in *. fold D in Ew, Eg |- *. destruct (ring_div D (read_pos rd + lenZ q)) as [Dq Dm]; [lia..|].
  destruct (ring_div D (read_pos rd + (lenZ q + 1))) as [Dq' Dm']; [lia..|].
  assert (0 <= wpos st < D) as Bw by (rewrite Ew; apply Z.mod_pos_bound; lia).
  unfold put_pos, put_gen in *. rewrite (proj2 (Z.leb_gt D (wpos st))) in * by lia.
  split; fold D; change (lenZ [u8 ch]) with 1; try done.
  - lia.
  - unfold ahead_pos. fold D. congruence.
  - intros i Hi. destruct (ring_div D (read_pos rd + i)) as [Dq2 Dm2]; [lia..|].
    rewrite Rg by (rewrite Dm2; ring_cases; lia). destruct (decide (i = lenZ q)) as [->|Hne].
    + rewrite Dm, Ew, Dm, Z.eqb_refl. symmetry. unfold lenZ. rewrite Nat2Z.id. by apply list_lookup_middle.
    + assert ((read_pos rd + i) mod D =? wpos st = false) as -> by (rewrite Dm2, Ew, Dm; ring_cases; lia).
      rewrite Hd by lia. symmetry. apply lookup_app_l. unfold lenZ in *. lia.
  - cbn [writer_inv]. unfold ahead_pos, ahead_gen. fold D. split; [done|]. split; [congruence|]. rewrite Eg, Dq, Dm', Dq', Ew, Dm. unfold next_pos, next_gen. split.
    + ring_cases; lia.
    + unfold uwrap, is_u in *. ring_cases; rewrite ?Zplus_mod_idemp_l; try (f_equal; lia); rewrite ?Z.add_0_r; try (apply Z.mod_small; lia); lia.
  - eapply reader_inv_grows; [exact Hr|lia|lia].
Qed.

Lemma lenZ_zero {A} (l : list A) : lenZ l = 0 -> l = [].
Proof. destruct l; [done|]. unfold lenZ. simpl. lia. Qed.

Lemma ahead_is_u sz rd n : 16 < sz < 2 ^ 32 -> is_u 32 (ahead_pos sz rd n) /\ is_u 32 (ahead_gen sz rd n).
Proof.
  intros Hs. unfold ahead_pos, ahead_gen, is_u. pose proof (Z.mod_pos_bound (read_pos rd + n) (sz - 16) ltac:(lia)).
  split; [lia|]. apply (uwrap_range 32). lia.
Qed.

Lemma data_in_ring sz (rd : reader) i : 16 < sz -> 0 <= (read_pos rd + i) mod (sz - 16).
Proof. intros. apply Z.mod_pos_bound. lia. Qed.

Lemma gen_inv sz st st' rd at_ q pend pos gen : ring_inv sz st (WData pos gen) rd at_ q pend -> io_write32 off_generation gen st = (Ret tt, st') ->
  ring_inv sz st' (WGen pos) rd at_ q pend.
Proof.
  intros [O Hp Hg Hl Ew Hd (Hm & Eg & -> & ->) Hr] R. pose proof (lo_range _ _ O) as Rz.
  destruct (store_generation sz st (ahead_gen sz rd (lenZ q + 1)) O) as (s1 & R1 & O1 & P1 & G1 & Rg); [by apply ahead_is_u|]. rewrite R in R1. simplify_eq.
  split; try done; [congruence|]. intros i Hi. rewrite Rg by (apply data_in_ring; lia). by apply Hd.
Qed.

Lemma pos_inv sz st st' rd at_ q pend pos : ring_inv sz st (WGen pos) rd at_ q pend -> io_write32 off_write_pos pos st = (Ret tt, st') ->
  ring_inv sz st' WIdle rd at_ (q ++ pend) [].
Proof.
  intros [O Hp Hg Hl Ew Hd (Hm & Eg & ->) Hr] R. pose proof (lo_range _ _ O) as Rz.
  destruct (store_write_pos sz st (ahead_pos sz rd (lenZ q + 1)) O) as (s1 & R1 & O1 & P1 & G1 & Rg); [by apply ahead_is_u|]. rewrite R in R1. simplify_eq.
  split; rewrite ?app_nil_r; change (lenZ (@nil Z)) with 0; rewrite ?lenZ_app, ?Hm, ?Z.add_0_r in *; try done.
  - intros i Hi. rewrite Rg by (apply data_in_ring; lia). by apply Hd.
  - split; [done|congruence].
  - eapply reader_inv_grows; [exact Hr|lia|lia].
Qed.

Lemma read_pos_inv sz st w rd q pend : ring_inv sz st w rd RIdle q pend -> ring_inv sz st w rd (RPos (hdr_write_pos (region st))) q pend.
Proof. intros [O Hp Hg Hl Ew Hd Hw _]. split; try done. exists (lenZ q). split; [|done]. pose proof (lenZ_nonneg q). lia. Qed.

Lemma read_gen_inv sz st w rd wp q pend : ~ torn sz w rd -> ring_inv sz st w rd (RPos wp) q pend ->
  ring_inv sz st w rd (RHdr wp (hdr_generation (region st))) q pend.
Proof.
  intros Ht [O Hp Hg Hl Ew Hd Hw (j & Hj & E)]. split; try done. pose proof (lo_range _ _ O) as Rz. exists j.
  assert (hdr_generation (region st) = wgen st) as -> by done. destruct w as [|pos gen|pos]; cbn [writer_inv] in Hw.
  - exists (lenZ q). destruct Hw as [Hm Hw]. split_and!; (done || lia).
  - exists (lenZ q). destruct Hw as (Hm & Hw & _). split_and!; (done || lia).
  - exists (lenZ q + 1). destruct Hw as (Hm & Hw & Epos). split_and!; try (done || lia). intros Hwrap.
    destruct (decide (lenZ q = 0)) as [E0|]; [|lia]. exfalso. apply Ht. split; [|lia]. subst pos. f_equal. unfold ahead_pos.
    rewrite E0. replace (read_pos rd + (0 + 1)) with (sz - 16) by lia. apply Z_mod_same_full.
Qed.

Lemma stop_inv sz st w rd at_ q pend : ring_inv sz st w rd at_ q pend -> ring_inv sz st w rd RIdle q pend.
Proof. by intros [O Hp Hg Hl Ew Hd Hw _]. Qed.

(** The reader after a byte: the header is where it was, seen from one byte further. *)
Lemma ahead_next sz rd gen n : 16 < sz < 2 ^ 32 -> 0 <= read_pos rd < sz - 16 -> (read_pos rd + 1 = sz - 16 -> gen = ahead_gen sz rd 1) ->
  let rd' := if sz - 16 <=? read_pos rd + 1 then mk_reader 0 gen else mk_reader (read_pos rd + 1) (read_gen rd) in
  ahead_pos sz rd' n = ahead_pos sz rd (n + 1) /\ ahead_gen sz rd' n = ahead_gen sz rd (n + 1).
Proof.
  intros Hs Hp Hg. set (D := sz - 16) in *. destruct (D <=? read_pos rd + 1) eqn:E; bool_hyps; cbv zeta; unfold ahead_pos, ahead_gen; cbn [read_pos read_gen]; fold D.
  - assert (read_pos rd + 1 = D) as E1 by lia. specialize (Hg E1). unfold ahead_gen in Hg. fold D in Hg. rewrite Hg, E1.
    replace (read_pos rd + (n + 1)) with (n + 1 * D) by lia. rewrite Z_mod_plus_full, Z_div_plus_full, Z_div_same_full by lia. split; [f_equal; lia|].
    unfold uwrap. rewrite Zplus_mod_idemp_l. f_equal. change (0 + n) with n. lia.
  - by replace (read_pos rd + 1 + n) with (read_pos rd + (n + 1)) by lia.
Qed.

(** A byte is emitted only if one has been published. *)
Lemma emit_published sz rd wp gen n m : 0 <= n -> 0 <= read_pos rd < sz - 16 -> is_u 32 (read_gen rd) -> reader_inv sz rd (RHdr wp gen) n m -> n + m <= sz - 16 ->
  (read_pos rd =? wp) && (read_gen rd =? gen) = false -> 1 <= n /\ (read_pos rd + 1 = sz - 16 -> gen = ahead_gen sz rd 1).
Proof.
  intros Hn Hp Hg (j & k & Hj & -> & Hk & -> & Hw) Hl Hns. unfold ahead_pos, ahead_gen in *. set (D := sz - 16) in *.
  assert (1 <= k) as Hk1.
  { destruct (decide (1 <= k)); [done|exfalso]. assert (j = 0 /\ k = 0) as [-> ->] by lia. rewrite !Z.add_0_r in Hns.
    rewrite Z.mod_small, Z.div_small, Z.add_0_r, (uwrap_small 32) in Hns by (lia || done). by rewrite !Z.eqb_refl in Hns. }
  split.
  - destruct (decide (1 <= n)); [done|]. apply Hw. destruct (decide (D <= read_pos rd + k)); [done|exfalso]. assert (j = 0) as -> by lia.
    rewrite Z.add_0_r, Z.mod_small, (Z.div_small (_ + k)), Z.add_0_r, (uwrap_small 32) in Hns by (lia || done). by rewrite !Z.eqb_refl in Hns.
  - intros E. rewrite E, Z_div_same_full by lia. destruct (ring_div D (read_pos rd + k)) as [-> _]; [lia..|]. by rewrite (proj2 (Z.leb_le _ _)) by lia.
Qed.

Lemma emit_inv sz st w rd rd' wp gen q pend b : ring_inv sz st w rd (RHdr wp gen) q pend -> drain_with wp gen (region st) rd = Emit b rd' ->
  exists q', q = b :: q' /\ ring_inv sz st w rd' RIdle q' pend.
Proof.
  intros [O Hp Hg Hl Ew Hd Hw Hr] E. pose proof (lo_range _ _ O) as Rz. pose proof (lenZ_nonneg q). pose proof (lenZ_nonneg pend). unfold drain_with in E.
  destruct (_ && _) eqn:Es; [done|]. destruct (emit_published sz rd wp gen (lenZ q) (lenZ pend)) as [Hq Hgen]; [done..|]. destruct q as [|b' q]; [done|].
  assert (lenZ (b' :: q) = lenZ q + 1) as HL by (unfold lenZ; simpl; lia). rewrite HL in *. pose proof (lenZ_nonneg q).
  pose proof (Hd 0 ltac:(lia)) as Hb0. rewrite Z.add_0_r, Z.mod_small in Hb0 by lia. unfold ring in Hb0. unfold RPI5_SW_LOG_HDR_SIZE in E. rewrite Hb0 in E. cbn in E.
  rewrite (data_size_eq sz), (uwrap_small 32) in E by (done || unfold is_u; lia). injection E as <- Erd. exists q. split; [done|].
  pose proof (fun n => ahead_next sz rd gen n Rz Hp Hgen) as Ha. rewrite Erd in Ha. cbv zeta in Ha.
  split; try done.
  - subst rd'. destruct (_ <=? _) eqn:E1; bool_hyps; cbn [read_pos]; lia.
  - subst rd'. destruct (_ <=? _) eqn:E1; bool_hyps; cbn [read_gen]; [|done]. rewrite Hgen by lia. by apply ahead_is_u.
  - lia.
  - rewrite Ew. symmetry. apply Ha.
  - intros i Hi. destruct (Ha i) as [Hi' _]. unfold ahead_pos in Hi'. rewrite Hi', Hd by lia. by rewrite Z2Nat.inj_add, Nat.add_1_r by lia.
  - destruct w; cbn [writer_inv] in *; rewrite !(proj1 (Ha _)) || idtac; rewrite ?(proj2 (Ha _)); done.
Qed.

Lemma sys_step_inv sz s s' : sys_step sz s s' -> sys_inv sz s -> sys_inv sz s'.
Proof.
  intros Hs (q & pend & Eq & Q). unfold sys_inv. destruct Hs as [st st' rd at_ ws out ch pos gen L R|st st' rd at_ ws out pos gen R|st st' rd at_ ws out pos R|st w rd ws out
    |st w rd wp ws out Ht|st w rd rd' wp gen ws out b E|st w rd wp gen ws out E]; cbn [sys_log sys_writer sys_reader sys_at written shown] in *.
  - pose proof (ri_writer _ _ _ _ _ _ _ Q) as [Hm _]. apply lenZ_zero in Hm as ->. rewrite app_nil_r in Eq. subst ws. rewrite lenZ_app in L.
    exists q, [u8 ch]. split; [by rewrite <- app_assoc|]. eapply store_inv; [done|lia|done].
  - exists q, pend. split; [done|]. by eapply gen_inv.
  - exists (q ++ pend), []. split; [by rewrite app_nil_r|]. by eapply pos_inv.
  - exists q, pend. split; [done|]. by apply read_pos_inv.
  - exists q, pend. split; [done|]. by apply read_gen_inv.
  - destruct (emit_inv _ _ _ _ _ _ _ _ _ _ Q E) as (q' & -> & Q'). exists q', pend. split; [|done]. rewrite Eq. by rewrite <- !app_assoc.
  - exists q, pend. split; [done|]. by eapply stop_inv.
Qed.

(** ** Properties *)

(** the writer is confined to its region. Whatever the header in normal-world memory holds,
    a put returns, changes one data byte of the ring and the header, keeps the region's size, and
    leaves a write position inside the ring. *)
Theorem sw_log_putc_confined sz st ch (O : log_ok sz st) :
  exists st' p, sw_log_putc ch st = (Ret tt, st') /\ log_ok sz st' /\ 0 <= p < sz - 16 /\
    0 <= wpos st' < sz - 16 /\ ring st' p = Some (u8 ch) /\
    (forall i, 0 <= i < sz - 16 -> i <> p -> ring st' i = ring st i).
Proof.
  destruct (sw_log_putc_run sz st ch O) as (st' & R & O' & Wp & Wg & Rg).
  exists st', (put_pos (sz - 16) (wpos st)). pose proof (lo_range _ _ O).
  assert (is_u 32 (wpos st)) as [Up _] by (apply le_val4_range, Forall_drop, (lo_bytes _ _ O)).
  assert (0 <= put_pos (sz - 16) (wpos st) < sz - 16) as Hp by (unfold put_pos; case_test; bool_hyps; lia).
  split; [done|]. split; [done|]. split; [done|]. split; [|split].
  - rewrite Wp. unfold next_pos. case_test; bool_hyps; lia.
  - by rewrite Rg, Z.eqb_refl.
  - intros i Hi Hne. rewrite Rg by done. by rewrite (proj2 (Z.eqb_neq _ _)).
Qed.

(** what the secure world prints is what the reader shows. From a reader that has caught up,
    printing a string of at most one ring and then draining emits exactly the bytes of the string,
    the loop of [drain_new] terminating right after them, and the reader has caught up again. *)
Theorem log_roundtrip sz st rd str rest
    (Q : queue_rel sz st rd []) (L : lenZ str <= sz - 16) (Hnz : Forall (fun c => c <> 0) str) :
  exists st' rd', plat_trace_ext_puts (str ++ 0 :: rest) st = (Ret tt, st') /\
    drain_new (S (length str)) (region st') rd = Some (u8 <$> str, rd') /\
    queue_rel sz st' rd' [].
Proof.
  destruct (puts_enqueue sz st rd [] str rest Q) as (st' & R & Q'); [done|done|].
  destruct (drain_queue sz st' rd (u8 <$> str) (S (length str)) Q') as (rd' & D & Q2);
    [rewrite length_fmap; lia|]. eauto.
Qed.

(** C22. Following is faithful. The writer stores a character, the generation and the position one after the
    other, and the reader of [drain_new] reads the position, the generation and the byte one after the
    other, without a lock. In every interleaving of these accesses, seen in program order, from a reader
    that has caught up with an idle writer, in which a character is stored only while the reader is less
    than one ring behind, and in which the reader at the last byte of the ring does not read the
    generation between the two header stores of the put of that byte: what has been shown is a prefix of
    what was written, and whenever the writer is idle, [drain_new] terminates having shown exactly the
    rest. In the excluded interleaving the reader shows a ring of stale bytes (follow_race). *)
Theorem follow_faithful sz st s
    (O : log_ok sz st) (Hw : wpos st < sz - 16)
    (Hs : rtc (sys_step sz) (mk_system st WIdle (mk_reader (wpos st) (wgen st)) RIdle [] []) s) :
  exists rest, written s = shown s ++ rest /\
    (sys_writer s = WIdle -> sys_at s = RIdle ->
     exists rd', drain_new (S (length rest)) (region (sys_log s)) (sys_reader s) = Some (rest, rd')).
Proof.
  assert (sys_inv sz s) as (q & pend & E & Q).
  { remember (mk_system st _ _ _ [] []) as s0 eqn:E0.
    assert (sys_inv sz s0) as I by (subst s0; exists [], []; split; [done|by apply queue_ring_inv, attach_empty]).
    clear E0. induction Hs as [|x y z Hxy _ IH]; [done|]. apply IH. by eapply sys_step_inv. }
  exists (q ++ pend). split; [done|]. intros Ew Ea. rewrite Ew, Ea in Q. pose proof (ri_writer _ _ _ _ _ _ _ Q) as [Hm _]. apply lenZ_zero in Hm as ->.
  rewrite app_nil_r. destruct (drain_queue sz (sys_log s) (sys_reader s) q (S (length q)) (ring_inv_idle _ _ _ _ _ Q)) as (rd' & D & _); [lia|].
  by exists rd'.
Qed.

(** Iterations until the reader reaches the write position: at most to the end of the ring, where
    it adopts the generation, and from there to the write position. *)
Lemma drain_same_gen sz st rd k :
  log_ok sz st -> wpos st < sz - 16 -> 0 <= read_pos rd <= wpos st -> read_gen rd = wgen st ->
  wpos st - read_pos rd < Z.of_nat k -> exists out rd', drain_new k (region st) rd = Some (out, rd').
Proof.
  intros O Hw. revert rd. induction k as [|k IH]; intros rd Hp Hg Hk; [lia|]. simpl.
  unfold drain_iter, drain_with. fold (wpos st) (wgen st). rewrite (data_size_eq sz) by done.
  pose proof (lo_range _ _ O). pose proof (lo_len _ _ O) as HL. unfold lenZ in HL.
  destruct ((read_pos rd =? wpos st) && _) eqn:E; [eauto|].
  rewrite Hg, Z.eqb_refl, andb_true_r in E. bool_hyps.
  destruct (lookup_lt_is_Some_2 (region st) (Z.to_nat (RPI5_SW_LOG_HDR_SIZE + read_pos rd))) as [b Eb];
    [unfold RPI5_SW_LOG_HDR_SIZE; lia|]. rewrite Eb.
  rewrite uwrap_small by (unfold is_u; lia). rewrite (proj2 (Z.leb_gt _ _)) by lia.
  destruct (IH (mk_reader (read_pos rd + 1) (read_gen rd))) as (out & rd' & ->); simpl; [lia|done|lia|eauto].
Qed.

Lemma drain_any sz st rd k :
  log_ok sz st -> wpos st < sz - 16 -> 0 <= read_pos rd < sz - 16 ->
  (sz - 16 - read_pos rd) + (sz - 16) < Z.of_nat k ->
  exists out rd', drain_new k (region st) rd = Some (out, rd').
Proof.
  intros O Hw. revert rd. induction k as [|k IH]; intros rd Hp Hk; [lia|]. simpl.
  unfold drain_iter, drain_with. fold (wpos st) (wgen st). rewrite (data_size_eq sz) by done.
  pose proof (lo_range _ _ O). pose proof (lo_len _ _ O) as HL. unfold lenZ in HL.
  assert (is_u 32 (wpos st)) as [Up _] by (apply le_val4_range, Forall_drop, (lo_bytes _ _ O)).
  destruct ((read_pos rd =? wpos st) && _) eqn:E; [eauto|].
  destruct (lookup_lt_is_Some_2 (region st) (Z.to_nat (RPI5_SW_LOG_HDR_SIZE + read_pos rd))) as [b Eb];
    [unfold RPI5_SW_LOG_HDR_SIZE; lia|]. rewrite Eb.
  rewrite uwrap_small by (unfold is_u; lia). destruct (sz - 16 <=? read_pos rd + 1) eqn:E2; bool_hyps.
  - destruct (drain_same_gen sz st (mk_reader 0 (wgen st)) k) as (out & rd' & ->); simpl; [done|done|lia|done|lia|eauto].
  - destruct (IH (mk_reader (read_pos rd + 1) (read_gen rd))) as (out & rd' & ->); simpl; [lia|lia|eauto].
Qed.

(** Draining a paused log always terminates, however far the reader has been overtaken: for
    any generation counters, [drain_new] stops within two rings when both positions are in the
    ring. *)
Lemma drain_new_terminates sz st rd
    (O : log_ok sz st) (Hw : wpos st < sz - 16) (Hp : 0 <= read_pos rd < sz - 16) :
  exists out rd', drain_new (Z.to_nat (2 * sz)) (region st) rd = Some (out, rd').
Proof. pose proof (lo_range _ _ O). apply (drain_any sz); [done..|]. lia. Qed.

(** Without [-f] the tool shows nothing. On any mapped region that carries the magic,
    [map_log] starts the reader at the write position, so [main] exits with status 0 and an empty
    output, whatever has been logged before. *)
Lemma main_once_silent r k (Hm : hdr_magic r = RPI5_SW_LOG_MAGIC) :
  main_once (S k) r = Some (0, []).
Proof.
  unfold main_once, map_log. simpl. rewrite Hm, Z.eqb_refl. simpl. unfold drain_iter, drain_with. simpl.
  by rewrite !Z.eqb_refl.
Qed.

(** ** Witnesses *)

(** A 24-byte region: header with write position 6 of 8, generation 3. *)
Definition small_log : sw_state :=
  mk_sw (le_bytes 4 RPI5_SW_LOG_MAGIC ++ le_bytes 4 6 ++ le_bytes 4 3 ++ le_bytes 4 0 ++ [1; 2; 3; 4; 5; 6; 7; 8])
    RPI5_SW_LOG_PADDR 4096 24.

Lemma small_log_ok : log_ok 24 small_log.
Proof. split; [lia | done | done | done | vm_compute; repeat constructor; done]. Qed.

Lemma sw_log_putc_confined_witness :
  exists st' p, sw_log_putc 65 small_log = (Ret tt, st') /\ log_ok 24 st' /\ 0 <= p < 24 - 16 /\
    0 <= wpos st' < 24 - 16 /\ ring st' p = Some (u8 65) /\
    (forall i, 0 <= i < 24 - 16 -> i <> p -> ring st' i = ring small_log i).
Proof. apply (sw_log_putc_confined 24 small_log 65), small_log_ok. Defined.

Lemma log_roundtrip_witness :
  exists st' rd', plat_trace_ext_puts ([72; 105; 33] ++ 0 :: [99]) small_log = (Ret tt, st') /\
    drain_new 4 (region st') (mk_reader 6 3) = Some (u8 <$> [72; 105; 33], rd') /\
    queue_rel 24 st' rd' [].
Proof.
  apply (log_roundtrip 24 small_log (mk_reader 6 3) [72; 105; 33] [99]).
  - apply (attach_empty 24 small_log small_log_ok). vm_compute. done.
  - done.
  - repeat constructor; done.
Defined.

(** Runs of the system, a letter for each step: what the writer does next, and what the reader does. *)
Inductive turn := Put (ch : Z) | Writer | Reader.

Definition turn_step (s : system) (t : turn) : option system :=
  let st := sys_log s in let rd := sys_reader s in
  match t, sys_writer s, sys_at s with
  | Put ch, WIdle, a => match sw_log_store ch st with (Ret (p, g), st') => Some (mk_system st' (WData p g) rd a (written s ++ [u8 ch]) (shown s)) | _ => None end
  | Writer, WData p g, a => match io_write32 off_generation g st with (Ret _, st') => Some (mk_system st' (WGen p) rd a (written s) (shown s)) | _ => None end
  | Writer, WGen p, a => match io_write32 off_write_pos p st with (Ret _, st') => Some (mk_system st' WIdle rd a (written s) (shown s)) | _ => None end
  | Reader, w, RIdle => Some (mk_system st w rd (RPos (hdr_write_pos (region st))) (written s) (shown s))
  | Reader, w, RPos wp => Some (mk_system st w rd (RHdr wp (hdr_generation (region st))) (written s) (shown s))
  | Reader, w, RHdr wp gen => match drain_with wp gen (region st) rd with
      | Emit b rd' => Some (mk_system st w rd' RIdle (written s) (shown s ++ [b]))
      | Stop => Some (mk_system st w rd RIdle (written s) (shown s))
      | Fault => None
      end
  | _, _, _ => None
  end.

Definition turns (l : list turn) (s : system) : option system := foldl (fun s t => s ≫= fun s => turn_step s t) (Some s) l.

(** What [sys_step] asks of the step besides. *)
Definition turn_allowed (sz : Z) (s : system) (t : turn) : bool :=
  match t, sys_at s with
  | Put _, _ => lenZ (written s) - lenZ (shown s) <? sz - 16
  | Reader, RPos _ => negb (match sys_writer s with WGen p => (p =? 0) && (read_pos (sys_reader s) =? sz - 16 - 1) | _ => false end)
  | _, _ => true
  end.

Lemma turn_is_step sz s t s' : turn_allowed sz s t = true -> turn_step s t = Some s' -> sys_step sz s s'.
Proof.
  destruct s as [st w rd a ws out]. unfold turn_allowed, turn_step. cbn [sys_log sys_writer sys_reader sys_at written shown]. intros Ha E.
  destruct t; cbn beta iota zeta in *; destruct w, a; try done;
    repeat match goal with
    | H : context [match ?m with _ => _ end] |- _ => let E := fresh "E" in destruct m eqn:E; try discriminate H
    end; repeat match goal with u : unit |- _ => destruct u end; simplify_eq; bool_hyps; try (by econstructor).
  all: apply step_read_gen; intros [[= Hw] Hr]. lia.
Qed.

Lemma turns_reach sz l s s' : turns l s = Some s' ->
  forallb (fun i => match turns (take i l) s, l !! i with Some x, Some t => turn_allowed sz x t | _, _ => true end) (seq 0 (length l)) = true ->
  rtc (sys_step sz) s s'.
Proof.
  revert s'. induction l as [|t l IH] using rev_ind; intros s' E Ha; [injection E as <-; constructor|]. unfold turns in E. rewrite foldl_app in E. cbn [foldl] in E.
  rewrite length_app, Nat.add_1_r, seq_S, forallb_app in Ha. apply andb_true_iff in Ha as [Ha Hl]. cbn [forallb plus] in Hl.
  rewrite take_app_length, list_lookup_middle, andb_true_r in Hl by done. fold (turns l s) in E. destruct (turns l s) as [x|] eqn:Ex; [|done]. cbn [mbind option_bind] in E.
  eapply rtc_r; [apply (IH x eq_refl)|by eapply turn_is_step]. apply forallb_forall. intros i Hi. rewrite forallb_forall in Ha. specialize (Ha i Hi).
  apply in_seq in Hi. by rewrite take_app_le, lookup_app_l in Ha by lia.
Qed.

Definition attached (st : sw_state) : system := mk_system st WIdle (mk_reader (wpos st) (wgen st)) RIdle [] [].

(** Two characters are put; the reader reads the position before the second is published and the
    generation after it, and is then at the last byte of the ring. *)
Definition two_puts : list turn := [Put 65; Writer; Writer; Put 66; Reader; Writer; Reader; Reader; Writer].

Lemma follow_faithful_witness : exists s rest, turns two_puts (attached small_log) = Some s /\ written s = [65; 66] /\ shown s = [65] /\ written s = shown s ++ rest /\
  (sys_writer s = WIdle -> sys_at s = RIdle ->
   exists rd', drain_new (S (length rest)) (region (sys_log s)) (sys_reader s) = Some (rest, rd')).
Proof.
  destruct (turns two_puts (attached small_log)) as [s|] eqn:E; [|vm_compute in E; discriminate E].
  destruct (follow_faithful 24 small_log s small_log_ok) as (rest & H); [reflexivity|exact (turns_reach 24 two_puts (attached small_log) s E eq_refl)|].
  exists s, rest. split; [reflexivity|]. vm_compute in E. injection E as <-. split; [reflexivity|]. split; [reflexivity|exact H].
Defined.

(** The interleaving that [torn] excludes: the reader has caught up at the last byte of the ring and
    reads the generation between the two header stores of the put of that byte. It shows the byte,
    finds the old position, and shows the ring once more. *)
Example follow_race :
  let wrap := [Put 66; Writer; Reader; Reader; Reader; Reader; Writer; Reader; Reader] in
  match turns ([Put 65; Writer; Writer; Reader; Reader; Reader] ++ wrap ++ concat (replicate 8 [Reader; Reader; Reader])) (attached small_log) with
  | Some s => written s = [65; 66] /\ shown s = [65; 66; 1; 2; 3; 4; 5; 6; 65; 66] /\ sys_writer s = WIdle
  | None => False
  end.
Proof. vm_compute. done. Qed.
