(* ===== verification/HandleDb.v ===== *)
(** * Handle databases

    optee_os/core/kernel/handle.c (module [Core]) and optee_os/ta/pkcs11/src/handle.c (module
    [Pkcs11]): a growing array of pointers indexed by handles. Both implement the interface
    [HandleTable], a finite map from handles to pointers; what clients rely on is proved once
    against the interface. A pointer is a [Z], 0 is NULL; the [db] argument is the state (never
    NULL). [realloc] is given by [may_alloc], which says whether an allocation of a size succeeds,
    and [junk], what fresh memory holds. *)
From stdpp Require Import gmap.
From S2P Require Import Prelude.
Local Open Scope Z_scope.

(** ** The interface *)

Class HandleTable (T : Type) := {
  ht_wf : T -> Prop;
  ht_contents : T -> gmap Z Z;          (* live handles *)
  ht_ptr_ok : Z -> Prop;                (* pointers that may be registered *)
  ht_get : Z -> T -> outcome (option Z) * T;
  ht_put : Z -> T -> outcome Z * T;
  ht_lookup : Z -> T -> outcome Z * T;
}.

Class HandleTableLaws (T : Type) `{!HandleTable T} := {
  ht_get_law : forall p t, ht_wf t -> ht_ptr_ok p ->
    exists r t', ht_get p t = (Ret r, t') /\ ht_wf t' /\
      match r with
      | Some h => ht_contents t !! h = None /\ ht_contents t' = <[h := p]> (ht_contents t)
      | None => t' = t
      end;
  ht_put_law : forall h t, ht_wf t ->
    exists t', ht_put h t = (Ret (default 0 (ht_contents t !! h)), t') /\ ht_wf t' /\
      ht_contents t' = delete h (ht_contents t);
  ht_lookup_law : forall h t, ht_wf t -> ht_lookup h t = (Ret (default 0 (ht_contents t !! h)), t);
}.

(** Histories of a table and the map they denote. *)
Inductive hop := HGet (p : Z) | HPut (h : Z).

Section Client.
Context {T : Type} `{!HandleTable T} `{!HandleTableLaws T}.

(** Runs a history: the handles allocated, and the final table. *)
Fixpoint run_ops (ops : list hop) (t : T) : outcome (list (option Z)) * T :=
  match ops with
  | [] => (Ret [], t)
  | HGet p :: ops' =>
      match ht_get p t with
      | (Ret r, t1) => match run_ops ops' t1 with
                       | (Ret rs, t2) => (Ret (r :: rs), t2)
                       | (o, t2) => (o, t2)
                       end
      | (_, t1) => (Panic, t1)
      end
  | HPut h :: ops' =>
      match ht_put h t with
      | (Ret _, t1) => run_ops ops' t1
      | (_, t1) => (Panic, t1)
      end
  end.

(** The map a history denotes, given the handles its allocations returned. *)
Fixpoint denote (ops : list hop) (rs : list (option Z)) (m : gmap Z Z) : gmap Z Z :=
  match ops, rs with
  | HGet p :: ops', Some h :: rs' => denote ops' rs' (<[h := p]> m)
  | HGet _ :: ops', None :: rs' => denote ops' rs' m
  | HPut h :: ops', _ => denote ops' rs (delete h m)
  | _, _ => m
  end.

(** Allocations never return a live handle. *)
Fixpoint fresh_handles (ops : list hop) (rs : list (option Z)) (m : gmap Z Z) : Prop :=
  match ops, rs with
  | HGet p :: ops', Some h :: rs' => m !! h = None /\ fresh_handles ops' rs' (<[h := p]> m)
  | HGet _ :: ops', None :: rs' => fresh_handles ops' rs' m
  | HPut h :: ops', _ => fresh_handles ops' rs (delete h m)
  | _, _ => True
  end.

Definition op_ok (o : hop) : Prop := match o with HGet p => ht_ptr_ok p | HPut _ => True end.

Lemma run_ops_spec ops t : ht_wf t -> Forall op_ok ops ->
  exists rs t', run_ops ops t = (Ret rs, t') /\ ht_wf t' /\
    fresh_handles ops rs (ht_contents t) /\ ht_contents t' = denote ops rs (ht_contents t).
Proof.
  revert t. induction ops as [|[p|h] ops IH]; intros t W Hok; simpl.
  - exists [], t. done.
  - apply Forall_cons in Hok as [Hp Hok].
    destruct (ht_get_law p t W Hp) as (r & t1 & E & W1 & Hr). rewrite E.
    destruct (IH t1 W1 Hok) as (rs & t2 & E2 & W2 & F2 & C2). rewrite E2.
    exists (r :: rs), t2. split; [done|]. split; [done|].
    destruct r as [h|]; [destruct Hr as [Hf Hc]; rewrite Hc in *; done | by subst t1].
  - apply Forall_cons in Hok as [_ Hok].
    destruct (ht_put_law h t W) as (t1 & E & W1 & C1). rewrite E.
    destruct (IH t1 W1 Hok) as (rs & t2 & E2 & W2 & F2 & C2). rewrite C1 in *.
    exists rs, t2. rewrite E2. done.
Qed.

Lemma lookup_after ops t rs t' h : ht_wf t -> Forall op_ok ops -> run_ops ops t = (Ret rs, t') ->
  ht_lookup h t' = (Ret (default 0 (denote ops rs (ht_contents t) !! h)), t').
Proof.
  intros W Hok R. destruct (run_ops_spec ops t W Hok) as (rs2 & t2 & R2 & W2 & _ & C2).
  rewrite R in R2. injection R2 as <- <-. rewrite ht_lookup_law by done. by rewrite C2.
Qed.
End Client.

(** ** What both files share *)

Record handle_db := mk_db { ptrs : list Z; max_ptrs : Z }.
Definition HANDLE_DB_INITIAL_MAX_PTRS : Z := 4.

Abbreviation H := (M handle_db).

(** [for (; n < max; n++) if (!db->ptrs[n]) ...]: the first free slot. *)
Fixpoint find_slot (k : nat) (n : Z) : H (option Z) :=
  match k with
  | O => ret None
  | S k' => let! db := get in
            let! p := idx (ptrs db) n in
            if p =? 0 then ret (Some n) else find_slot k' (n + 1)
  end.

Definition set_ptr (n p : Z) : H unit :=
  let! db := get in
  let! l := set_idx (ptrs db) n p in
  put (mk_db l (max_ptrs db)).

Section Grow.
Context (may_alloc : Z -> bool) (junk : Z).

(** [realloc] of the array to [n] entries, then clearing the new ones; [w] is the width of the
    counters ([size_t] or [uint32_t]). [false]: the allocation failed. *)
Definition grow (w : Z) : H bool :=
  let! db := get in
  let new_max := if negb (max_ptrs db =? 0) then uwrap w (max_ptrs db * 2)
                 else HANDLE_DB_INITIAL_MAX_PTRS in
  if may_alloc (u64 (new_max * 8)) then
    let p := take (Z.to_nat new_max) (ptrs db) ++
             replicate (Z.to_nat new_max - length (ptrs db)) junk in
    let! l := of_opt OutOfBounds
                (wr p (max_ptrs db) (replicate (Z.to_nat (uwrap w (new_max - max_ptrs db))) 0)) in
    do! put (mk_db l new_max) in
    ret true
  else ret false.
End Grow.

(** ** core/kernel/handle.c *)
Module Core.
Section Core.
Context (may_alloc : Z -> bool) (junk : Z).

(** The destructor is called on the returned pointers, in this order. *)
Definition handle_db_destroy : H (list Z) :=
  let! db := get in
  let! l := of_opt OutOfBounds (rd (ptrs db) 0 (max_ptrs db)) in
  do! put (mk_db [] 0) in
  ret (List.filter (fun p => negb (p =? 0)) l).

Definition handle_db_is_empty : H bool :=
  let! db := get in
  let! l := of_opt OutOfBounds (rd (ptrs db) 0 (max_ptrs db)) in
  ret (forallb (fun p => p =? 0) l).

Definition handle_get (ptr : Z) : H Z :=
  if ptr =? 0 then ret (-1)
  else
    let! db := get in
    let! s := find_slot (Z.to_nat (max_ptrs db)) 0 in
    match s with
    | Some n => do! set_ptr n ptr in ret (i32 n)
    | None =>
        let n := max_ptrs db in
        let! ok := grow may_alloc junk 64 in
        if ok then do! set_ptr n ptr in ret (i32 n) else ret (-1)
    end.

Definition handle_put (handle : Z) : H Z :=
  let! db := get in
  if (handle <? 0) || (max_ptrs db <=? handle) then ret 0
  else let! p := idx (ptrs db) handle in
       do! set_ptr handle 0 in ret p.

Definition handle_lookup (handle : Z) : H Z :=
  let! db := get in
  if (handle <? 0) || (max_ptrs db <=? handle) then ret 0
  else idx (ptrs db) handle.
End Core.
End Core.

(** ** ta/pkcs11/src/handle.c *)
Module Pkcs11.
(** [(void * )~0] *)
Definition INVALID_HANDLE_PTR : Z := 2 ^ 64 - 1.

Section Pkcs11.
Context (may_alloc : Z -> bool) (junk : Z).

Definition handle_db_init : H unit := put (mk_db [] 0).
Definition handle_db_destroy : H unit := put (mk_db [] 0).

Definition handle_get (ptr : Z) : H Z :=
  if (ptr =? 0) || (ptr =? INVALID_HANDLE_PTR) then ret 0
  else
    let! db := get in
    let! s := find_slot (Z.to_nat (max_ptrs db - 1)) 1 in
    match s with
    | Some n => do! set_ptr n ptr in ret n
    | None =>
        let n := Z.max 1 (max_ptrs db) in
        let! ok := grow may_alloc junk 32 in
        if ok then do! set_ptr n ptr in ret n else ret 0
    end.

Definition handle_is_valid (db : handle_db) (handle : Z) : bool :=
  negb (handle =? 0) && (handle <? max_ptrs db).

Definition handle_put (handle : Z) : H Z :=
  let! db := get in
  if negb (handle_is_valid db handle) then ret 0
  else let! p := idx (ptrs db) handle in
       do! set_ptr handle 0 in ret p.

Definition handle_lookup (handle : Z) : H Z :=
  let! db := get in
  if negb (handle_is_valid db handle) then ret 0
  else let! p := idx (ptrs db) handle in
       if p =? INVALID_HANDLE_PTR then ret 0 else idx (ptrs db) handle.

Definition handle_invalidate (handle : Z) : H unit :=
  let! db := get in
  if handle_is_valid db handle then
    let! p := idx (ptrs db) handle in
    if p =? 0 then panic else set_ptr handle INVALID_HANDLE_PTR
  else ret tt.

Fixpoint find_ptr (k : nat) (n ptr : Z) : H Z :=
  match k with
  | O => ret 0
  | S k' => let! db := get in
            let! p := idx (ptrs db) n in
            if p =? ptr then ret n else find_ptr k' (n + 1) ptr
  end.

Definition handle_lookup_handle (ptr : Z) : H Z :=
  if negb (ptr =? 0) && negb (ptr =? INVALID_HANDLE_PTR)
  then let! db := get in find_ptr (Z.to_nat (max_ptrs db - 1)) 1 ptr
  else ret 0.
End Pkcs11.
End Pkcs11.

(** ** Contents of the array *)

(** The non-NULL slots from [lo] on. *)
Definition slots (lo : Z) (db : handle_db) : gmap Z Z :=
  filter (fun kv => lo <= kv.1 /\ kv.2 <> 0) (map_seqZ 0 (ptrs db)).

Lemma slots_Some lo db h p :
  slots lo db !! h = Some p <-> (lo <= h /\ 0 <= h /\ ptrs db !! Z.to_nat h = Some p /\ p <> 0).
Proof.
  unfold slots. rewrite map_lookup_filter_Some, lookup_map_seqZ_Some, Z.sub_0_r. simpl. naive_solver.
Qed.

Lemma slots_default lo db h p : lo <= h -> 0 <= h -> ptrs db !! Z.to_nat h = Some p ->
  default 0 (slots lo db !! h) = p.
Proof.
  intros H1 H2 H3. destruct (decide (p = 0)) as [->|Hp].
  - destruct (slots lo db !! h) as [q|] eqn:E; [|done]. apply slots_Some in E as (_ & _ & E & ?).
    rewrite H3 in E. by injection E as <-.
  - by rewrite (proj2 (slots_Some lo db h p)).
Qed.

Lemma slots_none lo db h : h < lo \/ h < 0 \/ lenZ (ptrs db) <= h -> slots lo db !! h = None.
Proof.
  intros Hh. apply eq_None_ne_Some. intros p (? & ? & E & _)%slots_Some.
  apply lookup_lt_Some in E. unfold lenZ in *. lia.
Qed.

Lemma slots_free lo db n : ptrs db !! Z.to_nat n = Some 0 -> slots lo db !! n = None.
Proof.
  intros Hn. apply eq_None_ne_Some. intros p (? & ? & E & ?)%slots_Some. rewrite Hn in E. by injection E as <-.
Qed.

Lemma slots_insert lo db n p : lo <= n -> 0 <= n < lenZ (ptrs db) -> p <> 0 ->
  slots lo (mk_db (<[Z.to_nat n := p]> (ptrs db)) (max_ptrs db)) = <[n := p]> (slots lo db).
Proof.
  intros Hl Hn Hp. apply map_eq. intros h. apply option_eq. intros q. rewrite slots_Some. simpl.
  destruct (decide (h = n)) as [->|Hne].
  - rewrite list_lookup_insert_eq by (unfold lenZ in *; lia). rewrite lookup_insert_eq. naive_solver lia.
  - rewrite lookup_insert_ne by done. rewrite slots_Some.
    split; intros (? & ? & E & ?); rewrite list_lookup_insert_ne in * by lia; done.
Qed.

Lemma slots_delete lo db n : lo <= n -> 0 <= n < lenZ (ptrs db) ->
  slots lo (mk_db (<[Z.to_nat n := 0]> (ptrs db)) (max_ptrs db)) = delete n (slots lo db).
Proof.
  intros Hl Hn. apply map_eq. intros h. apply option_eq. intros q. rewrite slots_Some. simpl.
  destruct (decide (h = n)) as [->|Hne].
  - rewrite list_lookup_insert_eq by (unfold lenZ in *; lia). rewrite lookup_delete_eq. naive_solver.
  - rewrite lookup_delete_ne by done. rewrite slots_Some.
    split; intros (? & ? & E & ?); rewrite list_lookup_insert_ne in * by lia; done.
Qed.

Lemma slots_extend lo l k m m' : slots lo (mk_db (l ++ replicate k 0) m) = slots lo (mk_db l m').
Proof.
  apply map_eq. intros h. apply option_eq. intros q. rewrite !slots_Some. simpl.
  split; intros (? & ? & E & ?); repeat split; try done.
  - apply lookup_app_Some in E as [E|[_ E]]; [done|]. by apply lookup_replicate in E as [-> _].
  - by apply lookup_app_l_Some.
Qed.

(** The array has [max_ptrs] entries; its size in bytes is one the allocator can give. *)
Record db_wf (db : handle_db) : Prop := mk_db_wf {
  dw_len : lenZ (ptrs db) = max_ptrs db;
  dw_max : max_ptrs db <= 2 ^ 30;
}.

Lemma find_slot_spec db k n : db_wf db -> 0 <= n -> n + Z.of_nat k <= max_ptrs db ->
  exists r, find_slot k n db = (Ret r, db) /\
    match r with
    | Some i => n <= i < n + Z.of_nat k /\ ptrs db !! Z.to_nat i = Some 0
    | None => True
    end.
Proof.
  intros W. revert n. induction k as [|k IH]; intros n Hn Hk; [by exists None|].
  destruct (lookup_lt_is_Some_2 (ptrs db) (Z.to_nat n)) as [p Ep].
  { pose proof (dw_len _ W). unfold lenZ in *. lia. }
  simpl. rewrite (bind_run _ _ _ db db) by done. rewrite (bind_run _ _ _ p db) by (by apply idx_in).
  destruct (p =? 0) eqn:E; bool_hyps.
  - exists (Some n). subst p. split; [done|]. split; [lia | done].
  - destruct (IH (n + 1)) as (r & R & Hr); [lia..|]. exists r. split; [done|]. destruct r; [|done].
    split; [lia | apply Hr].
Qed.

Lemma set_ptr_run db n p : db_wf db -> 0 <= n < max_ptrs db ->
  set_ptr n p db = (Ret tt, mk_db (<[Z.to_nat n := p]> (ptrs db)) (max_ptrs db)) /\
  db_wf (mk_db (<[Z.to_nat n := p]> (ptrs db)) (max_ptrs db)).
Proof.
  intros [L B] Hn. split.
  - unfold set_ptr, set_idx, bind, get. rewrite (proj2 (Z.leb_le 0 n)), (proj2 (Z.ltb_lt n _)) by lia. done.
  - split; simpl; [unfold lenZ in *; by rewrite length_insert | done].
Qed.

Section GrowSpec.
Context (may_alloc : Z -> bool) (junk : Z).
(** The heap is smaller than 8 GiB. *)
Context (Hheap : forall n, may_alloc n = true -> n <= 2 ^ 33).

Lemma grow_spec w db : db_wf db -> 32 <= w <= 64 ->
  (grow may_alloc junk w db = (Ret false, db)) \/
  (exists db', grow may_alloc junk w db = (Ret true, db') /\ db_wf db' /\
     max_ptrs db < max_ptrs db' /\ 2 <= max_ptrs db' /\
     ptrs db' = ptrs db ++ replicate (Z.to_nat (max_ptrs db' - max_ptrs db)) 0).
Proof.
  intros [L B] Hw. unfold grow. rewrite (bind_run _ _ _ db db) by done.
  assert (2 ^ 32 <= 2 ^ w) as Hpw by (apply Z.pow_le_mono_r; lia).
  pose proof (lenZ_nonneg (ptrs db)) as Hnn.
  assert (exists m, (if negb (max_ptrs db =? 0) then uwrap w (max_ptrs db * 2) else HANDLE_DB_INITIAL_MAX_PTRS) = m /\
    max_ptrs db < m <= 2 ^ 31 /\ (max_ptrs db = 0 -> m = 4) /\ (max_ptrs db <> 0 -> m = max_ptrs db * 2)) as (m & -> & Hm & H4 & H2).
  { eexists. split; [reflexivity|]. destruct (max_ptrs db =? 0) eqn:E; bool_hyps; cbn [negb].
    - unfold HANDLE_DB_INITIAL_MAX_PTRS. lia.
    - rewrite uwrap_small by (unfold is_u; lia). lia. }
  rewrite (uwrap_small 64) by (unfold is_u; lia).
  destruct (may_alloc (m * 8)) eqn:A; [right|by left]. apply Hheap in A.
  rewrite (uwrap_small w (m - max_ptrs db)) by (unfold is_u; lia).
  unfold lenZ in L. rewrite (take_ge (ptrs db)) by lia.
  rewrite wr_in; [|lia|unfold lenZ; rewrite length_app, !length_replicate; lia].
  eexists. split; [reflexivity|]. cbn [ptrs max_ptrs].
  rewrite take_app_length' by lia. rewrite drop_ge by (rewrite length_app, !length_replicate; lia).
  rewrite app_nil_r. split; [|split; [lia|split; [|done]]].
  - split; cbn [ptrs max_ptrs]; [unfold lenZ; rewrite length_app, length_replicate; lia | lia].
  - destruct (decide (max_ptrs db = 0)); lia.
Qed.

(** Allocation in a table whose handles start at [lo]: the free slot found, or the first slot after
    growing. *)
Lemma alloc_spec lo w db p : db_wf db -> (lo = 0 \/ lo = 1) -> 32 <= w <= 64 -> p <> 0 ->
  let body := (let! s := find_slot (Z.to_nat (max_ptrs db - lo)) lo in
     match s with
     | Some n => do! set_ptr n p in ret (Some n)
     | None => let! ok := grow may_alloc junk w in
               if ok then do! set_ptr (Z.max lo (max_ptrs db)) p in ret (Some (Z.max lo (max_ptrs db)))
               else ret None
     end) in
  exists r db', body db = (Ret r, db') /\ db_wf db' /\
    match r with
    | Some h => lo <= h < 2 ^ 30 /\ slots lo db !! h = None /\ slots lo db' = <[h := p]> (slots lo db) /\
                (forall x, x ∈ ptrs db' -> x = p \/ x = 0 \/ x ∈ ptrs db)
    | None => db' = db
    end.
Proof.
  intros W Hlo Hw Hp body. pose proof (lenZ_nonneg (ptrs db)) as Hnn. rewrite (dw_len _ W) in Hnn.
  pose proof (dw_max _ W) as Hmax. unfold body.
  assert (forall d n, db_wf d -> lo <= n < max_ptrs d -> ptrs d !! Z.to_nat n = Some 0 ->
    slots lo d = slots lo db -> (forall x, x ∈ ptrs d -> x = 0 \/ x ∈ ptrs db) ->
    exists r db', (do! set_ptr n p in ret (Some n)) d = (Ret r, db') /\ db_wf db' /\
      match r with
      | Some h => lo <= h < 2 ^ 30 /\ slots lo db !! h = None /\ slots lo db' = <[h := p]> (slots lo db) /\
                  (forall x, x ∈ ptrs db' -> x = p \/ x = 0 \/ x ∈ ptrs db)
      | None => db' = db
      end) as Fin.
  { intros d n Wd Hn Hf Es Hx. destruct (set_ptr_run d n p Wd ltac:(lia)) as [R Wd'].
    do 2 eexists. rewrite (bind_run _ _ _ _ _ R). split; [reflexivity|]. split; [done|].
    pose proof (dw_max _ Wd). split; [lia|]. split; [rewrite <- Es; by apply slots_free|].
    split; [rewrite <- Es; apply slots_insert; [lia|rewrite (dw_len _ Wd); lia|done]|].
    intros x [i Hi]%list_elem_of_lookup. simpl in Hi. apply list_lookup_insert_Some in Hi as [(_ & <- & _)|[_ Hi]];
      [by left|right]. apply Hx. by eapply list_elem_of_lookup_2. }
  destruct (decide (lo <= max_ptrs db)) as [Hle|Hlt].
  - destruct (find_slot_spec db (Z.to_nat (max_ptrs db - lo)) lo W) as (r & R & Hr); [lia..|].
    rewrite (bind_run _ _ _ _ _ R). destruct r as [n|].
    + apply Fin; [done|lia|apply Hr|done|auto].
    + destruct (grow_spec w db W Hw) as [G|(d & G & Wd & Hgt & H2 & Ed)].
      * rewrite (bind_run _ _ _ _ _ G). by exists None, db.
      * rewrite (bind_run _ _ _ _ _ G). rewrite Z.max_r by lia. apply Fin; [done|lia| | |].
        -- rewrite Ed, lookup_app_r by (pose proof (dw_len _ W); unfold lenZ in *; lia).
           apply lookup_replicate. split; [done|]. pose proof (dw_len _ W). unfold lenZ in *. lia.
        -- destruct d as [l m], db as [l0 m0]. simpl in *. subst l. apply slots_extend.
        -- rewrite Ed. intros x [|Hx]%elem_of_app; [by right|]. left. by apply elem_of_replicate in Hx as [-> _].
  - replace (Z.to_nat (max_ptrs db - lo)) with 0%nat by lia.
    rewrite (bind_run _ _ _ None db) by done.
    destruct (grow_spec w db W Hw) as [G|(d & G & Wd & Hgt & H2 & Ed)];
      rewrite (bind_run _ _ _ _ _ G); [by exists None, db|]. rewrite Z.max_l by lia. apply Fin; [done|lia| | |].
    + assert (ptrs db = []) as En by (apply length_zero_iff_nil; pose proof (dw_len _ W); unfold lenZ in *; lia).
      rewrite Ed, En. apply lookup_replicate. split; [done|]. lia.
    + destruct d as [l m], db as [l0 m0]. simpl in *. subst l. apply slots_extend.
    + rewrite Ed. intros x [|Hx]%elem_of_app; [by right|]. left. by apply elem_of_replicate in Hx as [-> _].
Qed.

End GrowSpec.

(** Releasing and looking up slot [h]. *)
Lemma slot_read db h : db_wf db -> 0 <= h < max_ptrs db -> exists p, ptrs db !! Z.to_nat h = Some p.
Proof.
  intros W Hh. apply lookup_lt_is_Some_2. pose proof (dw_len _ W). unfold lenZ in *. lia.
Qed.

Lemma release_run db h p : db_wf db -> 0 <= h < max_ptrs db -> ptrs db !! Z.to_nat h = Some p ->
  (let! p := idx (ptrs db) h in do! set_ptr h 0 in ret p) db
  = (Ret p, mk_db (<[Z.to_nat h := 0]> (ptrs db)) (max_ptrs db)).
Proof.
  intros W Hh Hp. rewrite (bind_run _ _ _ p db) by (apply idx_in; [lia|done]).
  destruct (set_ptr_run db h 0 W Hh) as [R _]. by rewrite (bind_run _ _ _ _ _ R).
Qed.

(** Maps the failure value of [handle_get] to [None]. *)
Definition opt_handle (bad : Z -> bool) (r : outcome Z * handle_db) : outcome (option Z) * handle_db :=
  match r with
  | (Ret h, d) => (Ret (if bad h then None else Some h), d)
  | (Err e, d) => (Err e, d)
  | (Panic, d) => (Panic, d)
  | (Undef u, d) => (Undef u, d)
  end.

Section Instances.
Context (may_alloc : Z -> bool) (junk : Z).

Definition core_table : HandleTable handle_db := {|
  ht_wf := db_wf;
  ht_contents := slots 0;
  ht_ptr_ok p := p <> 0;
  ht_get p db := opt_handle (fun h => h <? 0) (Core.handle_get may_alloc junk p db);
  ht_put := Core.handle_put;
  ht_lookup := Core.handle_lookup;
|}.

Definition pkcs11_table : HandleTable handle_db := {|
  ht_wf db := db_wf db /\ Pkcs11.INVALID_HANDLE_PTR ∉ ptrs db;
  ht_contents := slots 1;
  ht_ptr_ok p := p <> 0 /\ p <> Pkcs11.INVALID_HANDLE_PTR;
  ht_get p db := opt_handle (fun h => h =? 0) (Pkcs11.handle_get may_alloc junk p db);
  ht_put h := if h <? 0 then fun db => (Ret 0, db) else Pkcs11.handle_put h;
  ht_lookup h := if h <? 0 then fun db => (Ret 0, db) else Pkcs11.handle_lookup h;
|}.

Context (Hheap : forall n, may_alloc n = true -> n <= 2 ^ 33).

(** [handle_get] is [alloc_spec]'s body up to the way it reports failure. *)
Lemma core_get_body p db : db_wf db -> p <> 0 ->
  exists r db', Core.handle_get may_alloc junk p db = (Ret (default (-1) r), db') /\ db_wf db' /\
    match r with
    | Some h => 0 <= h < 2 ^ 30 /\ slots 0 db !! h = None /\ slots 0 db' = <[h := p]> (slots 0 db)
    | None => db' = db
    end.
Proof.
  intros W Hp. pose proof (lenZ_nonneg (ptrs db)) as Hnn. rewrite (dw_len _ W) in Hnn.
  destruct (alloc_spec may_alloc junk Hheap 0 64 db p W) as (r & db' & R & W' & Hr); [by left|lia|done|].
  exists r, db'. split; [|split; [done|destruct r; naive_solver]].
  unfold Core.handle_get. rewrite (proj2 (Z.eqb_neq p 0)) by done. rewrite (bind_run _ _ _ db db) by done.
  rewrite Z.sub_0_r, Z.max_r in R by lia. apply bind_Ret in R as (s & d & Es & R). rewrite (bind_run _ _ _ _ _ Es).
  assert (forall n dd, 0 <= n -> (do! set_ptr n p in ret (Some n)) dd = (Ret r, db') ->
    (do! set_ptr n p in ret (i32 n)) dd = (Ret (default (-1) r), db')) as Fin.
  { intros n dd Hn0 X. apply bind_Ret in X as (u & d1 & E1 & X). rewrite (bind_run _ _ _ _ _ E1).
    injection X as <- <-. unfold ret. simpl. do 2 f_equal. apply swrap_small; [lia|]. unfold is_s. lia. }
  destruct s as [n|].
  - destruct (find_slot_spec db (Z.to_nat (max_ptrs db)) 0 W) as (s' & Es' & Hs'); [lia..|].
    rewrite Es in Es'. injection Es' as <- _. apply Fin; [lia|done].
  - apply bind_Ret in R as (ok & d1 & E1 & R). rewrite (bind_run _ _ _ _ _ E1).
    destruct ok; [by apply Fin|]. injection R as <- <-. done.
Qed.

Lemma core_laws : @HandleTableLaws handle_db core_table.
Proof.
  split; simpl.
  - intros p db W Hp. destruct (core_get_body p db W Hp) as (r & db' & E & W' & Hr). rewrite E. simpl.
    destruct r as [h|]; simpl.
    + destruct Hr as (Hh & ? & ?). rewrite (proj2 (Z.ltb_ge h 0)) by lia. by exists (Some h), db'.
    + by exists None, db'.
  - intros h db W. unfold Core.handle_put. rewrite (bind_run _ _ _ db db) by done.
    destruct ((h <? 0) || (max_ptrs db <=? h)) eqn:G.
    + assert (slots 0 db !! h = None) as E.
      { apply slots_none. rewrite (dw_len _ W). bool_hyps. destruct G; bool_hyps; lia. }
      exists db. rewrite E. split; [done|]. split; [done|]. by rewrite delete_id.
    + bool_hyps. destruct (slot_read db h W ltac:(lia)) as [p Ep].
      rewrite (release_run db h p) by (done || lia). rewrite (slots_default 0 db h p) by (done || lia).
      eexists. split; [reflexivity|]. split; [by apply set_ptr_run|]. apply slots_delete; [lia|].
      rewrite (dw_len _ W). lia.
  - intros h db W. unfold Core.handle_lookup. rewrite (bind_run _ _ _ db db) by done.
    destruct ((h <? 0) || (max_ptrs db <=? h)) eqn:G.
    + rewrite slots_none; [done|]. rewrite (dw_len _ W). bool_hyps. destruct G; bool_hyps; lia.
    + bool_hyps. destruct (slot_read db h W ltac:(lia)) as [p Ep].
      rewrite (slots_default 0 db h p) by (done || lia). apply idx_in; [lia|done].
Qed.

Lemma pkcs11_get_body p db : db_wf db -> p <> 0 -> p <> Pkcs11.INVALID_HANDLE_PTR ->
  exists r db', Pkcs11.handle_get may_alloc junk p db = (Ret (default 0 r), db') /\ db_wf db' /\
    match r with
    | Some h => 1 <= h < 2 ^ 30 /\ slots 1 db !! h = None /\ slots 1 db' = <[h := p]> (slots 1 db) /\
                (forall x, x ∈ ptrs db' -> x = p \/ x = 0 \/ x ∈ ptrs db)
    | None => db' = db
    end.
Proof.
  intros W Hp Hi.
  destruct (alloc_spec may_alloc junk Hheap 1 32 db p W) as (r & db' & R & W' & Hr); [by right|lia|done|].
  exists r, db'. split; [|split; [done|destruct r; naive_solver]].
  unfold Pkcs11.handle_get. rewrite (proj2 (Z.eqb_neq p 0)), (proj2 (Z.eqb_neq p _)) by done.
  cbn [orb]. rewrite (bind_run _ _ _ db db) by done.
  apply bind_Ret in R as (s & d & Es & R). rewrite (bind_run _ _ _ _ _ Es).
  assert (forall n dd, (do! set_ptr n p in ret (Some n)) dd = (Ret r, db') ->
    (do! set_ptr n p in ret n) dd = (Ret (default 0 r), db')) as Fin.
  { intros n dd X. apply bind_Ret in X as (u & d1 & E1 & X). rewrite (bind_run _ _ _ _ _ E1).
    injection X as <- <-. done. }
  destruct s as [n|]; [by apply Fin|].
  apply bind_Ret in R as (ok & d1 & E1 & R). rewrite (bind_run _ _ _ _ _ E1).
  destruct ok; [by apply Fin|]. injection R as <- <-. done.
Qed.

Lemma pkcs11_valid db h : db_wf db -> 0 <= h ->
  negb (Pkcs11.handle_is_valid db h) = true -> slots 1 db !! h = None.
Proof.
  intros W Hh G. unfold Pkcs11.handle_is_valid in G. bool_hyps. apply slots_none. rewrite (dw_len _ W).
  destruct G; bool_hyps; lia.
Qed.

Lemma pkcs11_laws : @HandleTableLaws handle_db pkcs11_table.
Proof.
  split; simpl.
  - intros p db [W Hn] [Hp Hi]. destruct (pkcs11_get_body p db W Hp Hi) as (r & db' & E & W' & Hr). rewrite E. simpl.
    destruct r as [h|]; simpl.
    + destruct Hr as (Hh & ? & ? & Hx). rewrite (proj2 (Z.eqb_neq h 0)) by lia. do 2 eexists. split; [done|].
      split; [|done]. split; [done|]. intros Hin. apply Hx in Hin as [?|[?|?]]; done.
    + subst db'. by exists None, db.
  - intros h db [W Hn]. destruct (h <? 0) eqn:Hs; bool_hyps.
    { exists db. rewrite slots_none by lia. split; [done|]. split; [done|].
      by rewrite delete_id by (apply slots_none; lia). }
    unfold Pkcs11.handle_put. rewrite (bind_run _ _ _ db db) by done.
    destruct (negb (Pkcs11.handle_is_valid db h)) eqn:G.
    + pose proof (pkcs11_valid db h W Hs G) as E. exists db. rewrite E. split; [done|]. split; [done|]. by rewrite delete_id.
    + unfold Pkcs11.handle_is_valid in G. bool_hyps. destruct (slot_read db h W ltac:(lia)) as [p Ep].
      rewrite (release_run db h p) by (done || lia). rewrite (slots_default 1 db h p) by (done || lia).
      eexists. split; [reflexivity|]. split; [split; [by apply set_ptr_run|]|apply slots_delete; [lia|rewrite (dw_len _ W); lia]].
      intros [i Hx]%list_elem_of_lookup. simpl in Hx.
      apply list_lookup_insert_Some in Hx as [(_ & Hx & _)|[_ Hx]]; [done|]. apply Hn. by eapply list_elem_of_lookup_2.
  - intros h db [W Hn]. destruct (h <? 0) eqn:Hs; bool_hyps; [by rewrite slots_none by lia|].
    unfold Pkcs11.handle_lookup. rewrite (bind_run _ _ _ db db) by done.
    destruct (negb (Pkcs11.handle_is_valid db h)) eqn:G.
    + by rewrite (pkcs11_valid db h W Hs G).
    + unfold Pkcs11.handle_is_valid in G. bool_hyps. destruct (slot_read db h W ltac:(lia)) as [p Ep].
      rewrite (slots_default 1 db h p) by (done || lia). rewrite (bind_run _ _ _ p db) by (apply idx_in; [lia|done]).
      rewrite (proj2 (Z.eqb_neq p _)); [apply idx_in; [lia|done]|]. intros ->. apply Hn.
      by eapply list_elem_of_lookup_2.
Qed.
End Instances.

Lemma empty_wf : db_wf (mk_db [] 0).
Proof. by split. Qed.

Lemma slots_empty lo : slots lo (mk_db [] 0) = ∅.
Proof. apply map_eq. intros h. rewrite slots_none; [done|]. unfold lenZ. simpl. lia. Qed.

(** ** Databases with invalidated handles

    What the functions of the PKCS#11 TA do on any database, slots marked invalid included. *)

Lemma pkcs11_lookup_run db h : db_wf db -> 0 <= h ->
  Pkcs11.handle_lookup h db =
  (Ret (match slots 1 db !! h with Some p => if p =? Pkcs11.INVALID_HANDLE_PTR then 0 else p | None => 0 end), db).
Proof.
  intros W Hh. unfold Pkcs11.handle_lookup. rewrite (bind_run _ _ _ db db) by done.
  destruct (negb (Pkcs11.handle_is_valid db h)) eqn:G; [by rewrite (pkcs11_valid db h W Hh G)|].
  unfold Pkcs11.handle_is_valid in G. bool_hyps. destruct (slot_read db h W ltac:(lia)) as [p Ep].
  rewrite (bind_run _ _ _ p db) by (apply idx_in; [lia|done]).
  destruct (decide (p = 0)) as [->|Hp].
  - rewrite slots_free by done. cbn [Z.eqb Pkcs11.INVALID_HANDLE_PTR]. apply idx_in; [lia|done].
  - rewrite (proj2 (slots_Some 1 db h p)) by (split_and!; (done || lia)).
    case_test; [done|]. apply idx_in; [lia|done].
Qed.

Lemma pkcs11_put_run db h : db_wf db -> 0 <= h ->
  exists x db', Pkcs11.handle_put h db = (Ret x, db') /\ db_wf db' /\ slots 1 db' = delete h (slots 1 db).
Proof.
  intros W Hh. unfold Pkcs11.handle_put. rewrite (bind_run _ _ _ db db) by done.
  destruct (negb (Pkcs11.handle_is_valid db h)) eqn:G.
  - exists 0, db. pose proof (pkcs11_valid db h W Hh G). by rewrite delete_id.
  - unfold Pkcs11.handle_is_valid in G. bool_hyps. destruct (slot_read db h W ltac:(lia)) as [p Ep].
    rewrite (release_run db h p) by (done || lia). do 2 eexists. split; [reflexivity|].
    split; [apply set_ptr_run; [done|lia]|]. apply slots_delete; [lia|]. rewrite (dw_len _ W). lia.
Qed.

Lemma pkcs11_invalidate_run db h q : db_wf db -> slots 1 db !! h = Some q ->
  exists db', Pkcs11.handle_invalidate h db = (Ret tt, db') /\ db_wf db' /\
    slots 1 db' = <[h := Pkcs11.INVALID_HANDLE_PTR]> (slots 1 db).
Proof.
  intros W (Hl & H0 & Ep & Hq)%slots_Some. pose proof (lookup_lt_Some _ _ _ Ep) as Hlt. pose proof (dw_len _ W) as L.
  unfold lenZ in L. unfold Pkcs11.handle_invalidate, Pkcs11.handle_is_valid. rewrite (bind_run _ _ _ db db) by done.
  rewrite (proj2 (Z.eqb_neq h 0)), (proj2 (Z.ltb_lt h _)) by lia. cbn [negb andb].
  rewrite (bind_run _ _ _ q db) by (apply idx_in; [lia|done]). rewrite (proj2 (Z.eqb_neq q 0)) by done.
  destruct (set_ptr_run db h Pkcs11.INVALID_HANDLE_PTR W ltac:(lia)) as [-> W']. eexists. split; [done|]. split; [done|].
  apply slots_insert; [lia | unfold lenZ; lia | done].
Qed.

Lemma find_ptr_run db k n p : db_wf db -> 1 <= n -> n + Z.of_nat k <= max_ptrs db -> p <> 0 ->
  exists h, Pkcs11.find_ptr k n p db = (Ret h, db) /\
    ((h = 0 /\ forall i, n <= i < n + Z.of_nat k -> slots 1 db !! i <> Some p) \/ slots 1 db !! h = Some p).
Proof.
  intros W. revert n. induction k as [|k IH]; intros n Hn Hk Hp.
  { exists 0. split; [done|]. left. split; [done|]. lia. }
  destruct (slot_read db n W ltac:(lia)) as [q Eq]. cbn [Pkcs11.find_ptr].
  rewrite (bind_run _ _ _ db db) by done. rewrite (bind_run _ _ _ q db) by (apply idx_in; [lia|done]).
  destruct (q =? p) eqn:E; bool_hyps.
  - subst q. exists n. split; [done|]. right. apply slots_Some. split_and!; (done || lia).
  - destruct (IH (n + 1)) as (h & R & Hh); [lia..|done|]. exists h. split; [done|].
    destruct Hh as [[-> Hh]|Hh]; [left|by right]. split; [done|]. intros i Hi.
    destruct (decide (i = n)) as [->|]; [|apply Hh; lia]. intros (_ & _ & Hs & _)%slots_Some. congruence.
Qed.

Lemma pkcs11_find_run db p : db_wf db -> p <> 0 -> p <> Pkcs11.INVALID_HANDLE_PTR ->
  exists h, Pkcs11.handle_lookup_handle p db = (Ret h, db) /\
    ((h = 0 /\ forall i, slots 1 db !! i <> Some p) \/ (1 <= h /\ slots 1 db !! h = Some p)).
Proof.
  intros W Hp Hi. unfold Pkcs11.handle_lookup_handle. rewrite (proj2 (Z.eqb_neq p 0)), (proj2 (Z.eqb_neq p _)) by done.
  cbn [negb andb]. rewrite (bind_run _ _ _ db db) by done. pose proof (lenZ_nonneg (ptrs db)) as Hl. rewrite (dw_len _ W) in Hl.
  assert (forall i, slots 1 db !! i = Some p -> 1 <= i < max_ptrs db) as Hr.
  { intros i (? & ? & E & _)%slots_Some. apply lookup_lt_Some in E. pose proof (dw_len _ W). unfold lenZ in *. lia. }
  destruct (decide (max_ptrs db = 0)) as [E0|E0].
  - exists 0. rewrite E0. split; [done|]. left. split; [done|]. intros i Hs%Hr. lia.
  - destruct (find_ptr_run db (Z.to_nat (max_ptrs db - 1)) 1 p W) as (h & R & Hh); [lia..|done|]. exists h. split; [done|].
    destruct Hh as [[-> Hh]|Hh]; [left | right; split; [apply Hr in Hh; lia | done]]. split; [done|].
    intros i Hs. apply (Hh i); [|done]. apply Hr in Hs. lia.
Qed.

(** ** Properties *)

(** C30. the kernel's handle database is a finite map. Over every history of allocations (of
    non-NULL pointers) and releases from the initial database, every call returns, an allocation
    either fails without changing anything or returns a handle that is not live, and looking up any
    handle, stale, negative or out of range included, gives the pointer of its last allocation if it
    is live and NULL otherwise. *)
Theorem core_handles_refine may_alloc junk ops h
    (Hheap : forall n, may_alloc n = true -> n <= 2 ^ 33)
    (Hops : Forall (fun o => match o with HGet p => p <> 0 | HPut _ => True end) ops) :
  exists rs db, run_ops (HandleTable0 := core_table may_alloc junk) ops (mk_db [] 0) = (Ret rs, db) /\
    fresh_handles ops rs ∅ /\
    Core.handle_lookup h db = (Ret (default 0 (denote ops rs ∅ !! h)), db).
Proof.
  pose proof (core_laws may_alloc junk Hheap) as L.
  destruct (run_ops_spec (HandleTable0 := core_table may_alloc junk) ops (mk_db [] 0) empty_wf Hops)
    as (rs & db & R & _ & F & _).
  exists rs, db. split; [done|]. simpl in F. rewrite slots_empty in F. split; [done|].
  pose proof (lookup_after (HandleTable0 := core_table may_alloc junk) ops (mk_db [] 0) rs db h empty_wf Hops R) as X.
  simpl in X. by rewrite slots_empty in X.
Qed.

(** The PKCS#11 TA's handle database is the same map with handles from 1 on: an allocation
    never returns 0, the value that reports failure, and lookups agree with the map. *)
Theorem pkcs11_handles_refine may_alloc junk ops h
    (Hheap : forall n, may_alloc n = true -> n <= 2 ^ 33) (Hh : 0 <= h)
    (Hops : Forall (fun o => match o with HGet p => p <> 0 /\ p <> Pkcs11.INVALID_HANDLE_PTR
                                        | HPut _ => True end) ops) :
  exists rs db, run_ops (HandleTable0 := pkcs11_table may_alloc junk) ops (mk_db [] 0) = (Ret rs, db) /\
    fresh_handles ops rs ∅ /\
    Pkcs11.handle_lookup h db = (Ret (default 0 (denote ops rs ∅ !! h)), db).
Proof.
  pose proof (pkcs11_laws may_alloc junk Hheap) as L.
  assert (@ht_wf _ (pkcs11_table may_alloc junk) (mk_db [] 0)) as W0 by (split; [apply empty_wf | by intros ?%elem_of_nil]).
  destruct (run_ops_spec (HandleTable0 := pkcs11_table may_alloc junk) ops (mk_db [] 0) W0 Hops)
    as (rs & db & R & _ & F & _).
  exists rs, db. split; [done|]. simpl in F. rewrite slots_empty in F. split; [done|].
  pose proof (lookup_after (HandleTable0 := pkcs11_table may_alloc junk) ops (mk_db [] 0) rs db h W0 Hops R) as X.
  simpl in X. rewrite slots_empty, (proj2 (Z.ltb_ge h 0)) in X by done. done.
Qed.

(** An invalidated handle stays allocated. After [handle_invalidate] of a live handle, looking
    it up gives NULL, an allocation still does not return it, and releasing it makes its slot free. *)
Lemma handle_invalidate_reserves may_alloc junk db h p
    (Hheap : forall n, may_alloc n = true -> n <= 2 ^ 33)
    (W : db_wf db) (Hh : 1 <= h < max_ptrs db) (Hl : exists q, q <> 0 /\ ptrs db !! Z.to_nat h = Some q)
    (Hp : p <> 0) (Hi : p <> Pkcs11.INVALID_HANDLE_PTR) :
  exists db1, Pkcs11.handle_invalidate h db = (Ret tt, db1) /\
    Pkcs11.handle_lookup h db1 = (Ret 0, db1) /\
    (exists h2 db2, Pkcs11.handle_get may_alloc junk p db1 = (Ret h2, db2) /\ h2 <> h) /\
    (exists x db3, Pkcs11.handle_put h db1 = (Ret x, db3) /\ ptrs db3 !! Z.to_nat h = Some 0).
Proof.
  destruct Hl as (q & Hq & El). destruct (set_ptr_run db h Pkcs11.INVALID_HANDLE_PTR W ltac:(lia)) as [R W1].
  set (db1 := mk_db _ _) in *. exists db1.
  assert (ptrs db1 !! Z.to_nat h = Some Pkcs11.INVALID_HANDLE_PTR) as E1.
  { apply list_lookup_insert_eq. pose proof (dw_len _ W). unfold lenZ in *. lia. }
  assert (Pkcs11.handle_is_valid db h = true /\ Pkcs11.handle_is_valid db1 h = true) as [V V1].
  { unfold Pkcs11.handle_is_valid. simpl. rewrite (proj2 (Z.eqb_neq h 0)), (proj2 (Z.ltb_lt h _)) by lia. done. }
  split; [|split; [|split]].
  - unfold Pkcs11.handle_invalidate. rewrite (bind_run _ _ _ db db), V by done.
    rewrite (bind_run _ _ _ q db) by (apply idx_in; [lia|done]). by rewrite (proj2 (Z.eqb_neq q 0)).
  - unfold Pkcs11.handle_lookup. rewrite (bind_run _ _ _ db1 db1), V1 by done. cbn [negb].
    by rewrite (bind_run _ _ _ _ db1) by (apply idx_in; [lia|done]).
  - destruct (pkcs11_get_body may_alloc junk Hheap p db1 W1 Hp Hi) as (r & db2 & G & _ & Hr).
    do 2 eexists. split; [done|]. destruct r as [h2|]; simpl; [|lia]. intros ->.
    destruct Hr as (_ & Hn & _). assert (slots 1 db1 !! h = Some Pkcs11.INVALID_HANDLE_PTR) as E2; [|congruence].
    apply slots_Some. split; [lia|]. split; [lia|]. by split.
  - unfold Pkcs11.handle_put. rewrite (bind_run _ _ _ db1 db1), V1 by done. cbn [negb].
    rewrite (release_run db1 h _ W1) by (done || (simpl; lia)). do 2 eexists. split; [reflexivity|].
    simpl. apply list_lookup_insert_eq. rewrite length_insert. pose proof (dw_len _ W). unfold lenZ in *. lia.
Qed.

(** ** Witnesses *)

Lemma core_handles_refine_witness :
  exists rs db, run_ops (HandleTable0 := core_table (fun n => n <=? 64) 170)
      [HGet 10; HGet 20; HPut 0; HGet 30] (mk_db [] 0) = (Ret rs, db) /\
    fresh_handles [HGet 10; HGet 20; HPut 0; HGet 30] rs ∅ /\
    Core.handle_lookup 0 db = (Ret (default 0 (denote [HGet 10; HGet 20; HPut 0; HGet 30] rs ∅ !! 0)), db).
Proof.
  apply (core_handles_refine (fun n => n <=? 64) 170 [HGet 10; HGet 20; HPut 0; HGet 30] 0).
  - intros n H%Z.leb_le. lia.
  - repeat constructor; done.
Defined.

Lemma pkcs11_handles_refine_witness :
  exists rs db, run_ops (HandleTable0 := pkcs11_table (fun n => n <=? 64) 170)
      [HGet 10; HGet 20; HPut 1; HGet 30] (mk_db [] 0) = (Ret rs, db) /\
    fresh_handles [HGet 10; HGet 20; HPut 1; HGet 30] rs ∅ /\
    Pkcs11.handle_lookup 1 db = (Ret (default 0 (denote [HGet 10; HGet 20; HPut 1; HGet 30] rs ∅ !! 1)), db).
Proof.
  apply (pkcs11_handles_refine (fun n => n <=? 64) 170 [HGet 10; HGet 20; HPut 1; HGet 30] 1).
  - intros n H%Z.leb_le. lia.
  - lia.
  - repeat constructor; done.
Defined.
