(* ===== verification/TeeMm.v ===== *)
(** * The block allocator

    optee_os/core/mm/tee_mm.c with tee_mm.h: pools of fixed-size blocks, allocated from the low end
    or, with TEE_MM_POOL_HI_ALLOC, from the high end, first fit, in a singly linked list sorted by
    address behind a sentinel. The list is [chain], its first element the sentinel; a node's address
    is [eid]. AArch64 widths: [paddr_t] and [size_t] have 64 bits, block counts 32. [malloc] is an
    argument: the address of the new node, or [None]. The spin lock makes each operation atomic, so
    an operation is one transition; CFG_WITH_STATS is off, as by default. *)
From Stdlib Require Import Sorted.
From S2P Require Import Prelude.
Local Open Scope Z_scope.

(** ** Data *)

Record tee_mm_entry := mk_entry { eid : Z; offset : Z; size : Z }.

#[export] Instance tee_mm_entry_eq_dec : EqDecision tee_mm_entry.
Proof. solve_decision. Defined.

Record tee_mm_pool := mk_pool {
  chain : list tee_mm_entry;   (* [[]]: pool->entry is NULL *)
  lo : Z;
  psz : Z;                     (* pool->size *)
  hi_alloc : bool;             (* pool->flags & TEE_MM_POOL_HI_ALLOC *)
  shift : Z;
}.

Abbreviation P := (M tee_mm_pool).

Definition with_chain (p : tee_mm_pool) (c : list tee_mm_entry) : tee_mm_pool :=
  mk_pool c (lo p) (psz p) (hi_alloc p) (shift p).

(** ** Operations *)

(** The macros of util.h on 64-bit values; [s] is the size 1 << shift. *)
Definition ROUNDUP2 (v s : Z) : Z := Z.ldiff (u64 (v + (s - 1))) (s - 1).
Definition ROUNDDOWN2 (v s : Z) : Z := Z.ldiff v (s - 1).

(** [node]: the sentinel's address. Returns false when it cannot be allocated. *)
Definition tee_mm_init (node : option Z) (l sz sh : Z) (hi : bool) : P bool :=
  let! s := sint 32 (Z.shiftl 1 sh) in
  let l' := ROUNDUP2 l s in
  let rounded := u64 (l' - l) in
  let sz' := ROUNDDOWN2 (u64 (sz - rounded)) s in
  do! assert_ (Z.shiftr sz' sh <? 2 ^ 32 - 1) in
  match node with
  | None => do! put (mk_pool [] l' sz' hi sh) in ret false
  | Some a =>
      let off := if hi then u32 (Z.shiftr (u64 (sz' - 1)) sh + 1) else 0 in
      do! put (mk_pool [mk_entry a off 0] l' sz' hi sh) in
      ret true
  end.

(** [while (entry->next && go(entry, entry->next)) entry = entry->next;]: the entries passed, the
    entry it stops at, and the list behind that entry. *)
Fixpoint scan (go : tee_mm_entry -> tee_mm_entry -> bool) (e : tee_mm_entry)
    (next : list tee_mm_entry) : list tee_mm_entry * tee_mm_entry * list tee_mm_entry :=
  match next with
  | [] => ([], e, [])
  | n :: r => if go e n
              then match scan go n r with (p, e', r') => (e :: p, e', r') end
              else ([], e, next)
  end.

(** [tee_mm_add(entry, nn)], the list being [passed ++ entry :: next]. *)
Definition tee_mm_add (passed : list tee_mm_entry) (e nn : tee_mm_entry) (next : list tee_mm_entry)
    : P unit :=
  modify (fun p => with_chain p (passed ++ e :: nn :: next)).

Definition tee_mm_alloc_flags (node : option Z) (sz : Z) : P (option tee_mm_entry) :=
  let! pool := get in
  match chain pool, node with
  | [], _ => ret None
  | _, None => ret None
  | head :: rest, Some a =>
      let psize := if sz =? 0 then 0 else u64 (Z.shiftr (sz - 1) (shift pool) + 1) in
      let '(passed, entry, next) :=
        if hi_alloc pool
        then scan (fun e n => psize >? u32 (offset e - offset n - size n)) head rest
        else scan (fun e n => psize >? u32 (offset n - size e - offset e)) head rest in
      let! fits :=
        match next with
        | _ :: _ => ret true
        | [] =>
            if hi_alloc pool
            then ret (negb (u32 (Z.shiftl (offset entry) (shift pool)) <? sz))
            else do! (if psz pool =? 0 then panic else ret tt) in
                 let remaining := u64 (psz pool - u32 (Z.shiftl (u32 (offset entry + size entry)) (shift pool))) in
                 ret (negb (remaining <? sz))
        end in
      if fits then
        let nn := mk_entry a (if hi_alloc pool then u32 (offset entry - psize)
                              else u32 (offset entry + size entry)) (u32 psize) in
        do! tee_mm_add passed entry nn next in
        ret (Some nn)
      else ret None
  end.

Definition tee_mm_alloc (node : option Z) (sz : Z) : P (option tee_mm_entry) := tee_mm_alloc_flags node sz.

Definition fit_in_gap (pool : tee_mm_pool) (e : tee_mm_entry) (next : list tee_mm_entry)
    (offslo offshi : Z) : bool :=
  if hi_alloc pool then
    negb ((offshi >? offset e) ||
          match next with n :: _ => offslo <? u32 (offset n + size n) | [] => false end ||
          (u64 (u64 (Z.shiftl offshi (shift pool)) - 1) >? psz pool))
  else
    negb ((offslo <? u32 (offset e + size e)) ||
          match next with n :: _ => offshi >? offset n | [] => false end ||
          (u64 (Z.shiftl offshi (shift pool)) >? psz pool)).

Definition tee_mm_alloc2 (node : option Z) (base sz : Z) : P (option tee_mm_entry) :=
  let! pool := get in
  match chain pool with
  | [] => ret None
  | head :: rest =>
      if (u64 (base + sz) <? base) || (base <? lo pool) then ret None
      else match node with
      | None => ret None
      | Some a =>
          let offslo := Z.shiftr (base - lo pool) (shift pool) in
          let offshi := u64 (Z.shiftr (u64 (base - lo pool + sz - 1)) (shift pool) + 1) in
          let '(passed, entry, next) :=
            if hi_alloc pool
            then scan (fun _ n => offshi <? u32 (offset n + size n)) head rest
            else scan (fun _ n => offslo >? offset n) head rest in
          if fit_in_gap pool entry next offslo offshi then
            let mm := mk_entry a (u32 offslo) (u32 (u64 (offshi - offslo))) in
            do! tee_mm_add passed entry mm next in
            ret (Some mm)
          else ret None
      end
  end.

(** [p]: the pointer to the entry to free, [None] for NULL; otherwise its address and whether its field
    [pool] is set, as it is in the entries that are allocated from a pool ([entry_ptr]). *)
Definition tee_mm_free (p : option (Z * bool)) : P unit :=
  match p with
  | None | Some (_, false) => ret tt
  | Some (a, true) =>
      let! pool := get in
      match chain pool with
      | [] => undef OutOfBounds
      | head :: rest =>
          match scan (fun _ n => negb (eid n =? a)) head rest with
          | (passed, entry, _ :: r) => put (with_chain pool (passed ++ entry :: r))
          | (_, _, []) => panic
          end
      end
  end.

Definition entry_ptr (e : tee_mm_entry) : option (Z * bool) := Some (eid e, true).

(** The loop of [tee_mm_final], which frees the first entry until none is left. *)
Fixpoint final_loop (k : nat) : P unit :=
  match k with
  | O => ret tt
  | S k' => let! pool := get in
            match chain pool with
            | _ :: n :: _ => do! tee_mm_free (entry_ptr n) in final_loop k'
            | _ => ret tt
            end
  end.

Definition tee_mm_final : P unit :=
  let! pool := get in
  match chain pool with
  | [] => ret tt
  | _ :: rest => do! final_loop (length rest) in
                 modify (fun p => with_chain p [])
  end.

Definition tee_mm_get_bytes (pool : tee_mm_pool) (mm : tee_mm_entry) : Z :=
  u32 (Z.shiftl (size mm) (shift pool)).

Definition tee_mm_addr_is_within_range (pool : tee_mm_pool) (addr : Z) : bool :=
  (lo pool <=? addr) && (addr <=? u64 (lo pool + u64 (psz pool - 1))).

Definition tee_mm_is_empty (pool : tee_mm_pool) : bool :=
  match chain pool with [] => true | [_] => true | _ => false end.

Definition tee_mm_find (pool : tee_mm_pool) (addr : Z) : outcome (option tee_mm_entry) :=
  let off := u16 (Z.shiftr (u64 (addr - lo pool)) (shift pool)) in
  if negb (tee_mm_addr_is_within_range pool addr) then Ret None
  else match chain pool with
       | [] => Undef OutOfBounds
       | _ :: rest =>
           Ret (List.find (fun e => (offset e <=? off) && (off <? u32 (offset e + size e))) rest)
       end.

Definition tee_mm_validate (pool : tee_mm_pool) (addr : Z) : bool :=
  match tee_mm_find pool addr with Ret (Some _) => true | _ => false end.

Definition tee_mm_get_smem (pool : tee_mm_pool) (mm : tee_mm_entry) : Z :=
  u64 (u32 (Z.shiftl (offset mm) (shift pool)) + lo pool).

(** ** The invariant *)

Definition fin (e : tee_mm_entry) : Z := offset e + size e.
Definition nb (p : tee_mm_pool) : Z := Z.shiftr (psz p) (shift p).

(** [a] ends where [b] starts, or before. *)
Definition before (a b : tee_mm_entry) : Prop := 0 <= size a /\ 0 <= size b /\ fin a <= offset b.
Definition ordered (hi : bool) (a b : tee_mm_entry) : Prop := if hi then before b a else before a b.

Record entry_ok (p : tee_mm_pool) (e : tee_mm_entry) : Prop := mk_entry_ok {
  eo_off : 0 <= offset e;
  eo_size : 0 <= size e;
  eo_end : fin e <= nb p;
}.

(** The parameters of a pool: block size below 2^31, between one block and 4 GiB, a whole number of
    blocks. *)
Record geometry (p : tee_mm_pool) : Prop := mk_geometry {
  ge_shift : 0 <= shift p < 31;
  ge_size : 0 < psz p < 2 ^ 32;
  ge_whole : psz p = nb p * 2 ^ shift p;
  ge_lo : 0 <= lo p /\ lo p + psz p < 2 ^ 64;
}.

(** The sentinel marks the end allocation starts from; the entries are sorted away from it, inside
    the pool, at distinct addresses. *)
Record pool_inv (p : tee_mm_pool) (head : tee_mm_entry) (rest : list tee_mm_entry) : Prop := mk_pool_inv {
  pi_geo : geometry p;
  pi_chain : chain p = head :: rest;
  pi_head : offset head = (if hi_alloc p then nb p else 0) /\ size head = 0;
  pi_sorted : Sorted (ordered (hi_alloc p)) (head :: rest);
  pi_ok : Forall (entry_ok p) (head :: rest);
  pi_nodup : NoDup (eid <$> head :: rest);
}.

#[export] Instance ordered_trans hi : Transitive (ordered hi).
Proof. intros a b c. unfold ordered, before, fin. destruct hi; lia. Qed.

Lemma Sorted_insert {A} (R : A -> A -> Prop) p e n r :
  Sorted R (p ++ e :: r) -> R e n -> (forall x, head r = Some x -> R n x) -> Sorted R (p ++ e :: n :: r).
Proof.
  intros S Hn Hx. induction p as [|a p IH]; simpl in *.
  - inversion_clear S as [|?? Sr Hr]. constructor; [|by constructor]. constructor; [done|].
    destruct r as [|x r]; constructor. by apply Hx.
  - inversion_clear S as [|?? Sr Hr]. constructor; [by apply IH|].
    destruct p; simpl in *; inversion_clear Hr; by constructor.
Qed.

Lemma Sorted_remove {A} (R : A -> A -> Prop) `{!Transitive R} p e n r :
  Sorted R (p ++ e :: n :: r) -> Sorted R (p ++ e :: r).
Proof.
  intros S. induction p as [|a p IH]; simpl in *.
  - inversion_clear S as [|?? Sn Hn]. inversion_clear Hn as [|?? He]. inversion_clear Sn as [|?? Sr Hr].
    constructor; [done|]. destruct r as [|x r]; constructor. inversion_clear Hr. by etransitivity.
  - inversion_clear S as [|?? Sr Hr]. constructor; [by apply IH|].
    destruct p; simpl in *; inversion_clear Hr; by constructor.
Qed.

(** Adjacent elements of a sorted list. *)
Lemma Sorted_adjacent {A} (R : A -> A -> Prop) p e n r : Sorted R (p ++ e :: n :: r) -> R e n.
Proof.
  intros S. induction p as [|a p IH]; simpl in *; inversion_clear S as [|?? Sr Hr]; [|auto].
  by inversion_clear Hr.
Qed.

Lemma scan_split go e next p e' r : scan go e next = (p, e', r) -> e :: next = p ++ e' :: r.
Proof.
  revert e p. induction next as [|n next IH]; intros e p; simpl; [by intros [= <- <- <-]|].
  destruct (go e n); [|by intros [= <- <- <-]].
  destruct (scan go n next) as [[p1 e1] r1] eqn:E. intros [= <- <- <-]. simpl. f_equal. by apply IH.
Qed.

Lemma scan_stop go e next p e' n r : scan go e next = (p, e', n :: r) -> go e' n = false.
Proof.
  revert e p. induction next as [|m next IH]; intros e p; simpl; [by intros [=]|].
  destruct (go e m) eqn:G; [|by intros [= <- <- <- <-]].
  destruct (scan go m next) as [[p1 e1] r1] eqn:E. intros [= <- -> ->]. by eapply IH.
Qed.

(** A property carried along the entries the scan passes. *)
Lemma scan_carry (R : tee_mm_entry -> Prop) (ord : tee_mm_entry -> tee_mm_entry -> Prop) go e next p e' r :
  scan go e next = (p, e', r) -> Sorted ord (e :: next) -> R e ->
  (forall x y, ord x y -> go x y = true -> y ∈ next -> R x -> R y) -> R e'.
Proof.
  revert e p. induction next as [|n next IH]; intros e p; simpl; [by intros [= <- <- <-]|].
  destruct (go e n) eqn:G; [|by intros [= <- <- <-]].
  destruct (scan go n next) as [[p1 e1] r1] eqn:E. intros [= <- <- <-] S Re Hstep.
  inversion_clear S as [|?? Sn Hn]. inversion_clear Hn as [|?? Hord].
  eapply (IH n p1 E Sn); [eapply Hstep; [exact Hord|done|set_solver|done]|].
  intros x y Hxy Gxy Hy. apply Hstep; [done|done|set_solver].
Qed.

(** ** Blocks and bytes *)

(** [(sz - 1 >> shift) + 1] blocks cover [sz] bytes and no fewer do. *)
Lemma blocks_le s sz k : 0 <= s -> 0 < sz -> (Z.shiftr (sz - 1) s + 1 <= k <-> sz <= k * 2 ^ s).
Proof.
  intros Hs Hz. rewrite Z.shiftr_div_pow2 by done. assert (0 < 2 ^ s) by (apply pow2_pos; done).
  pose proof (Z.div_mod (sz - 1) (2 ^ s) ltac:(lia)) as D.
  pose proof (Z.mod_pos_bound (sz - 1) (2 ^ s) ltac:(lia)) as B.
  split; intros H0; nia.
Qed.

Lemma blocks_pos s sz : 0 <= s -> 0 < sz -> 0 < Z.shiftr (sz - 1) s + 1.
Proof. intros Hs Hz. assert (0 <= Z.shiftr (sz - 1) s) by (apply Z.shiftr_nonneg; lia). lia. Qed.

Lemma nb_range p : geometry p -> 0 < nb p < 2 ^ 32 /\ nb p * 2 ^ shift p < 2 ^ 32.
Proof.
  intros [Hs Hz Hw _]. assert (0 < 2 ^ shift p) by (apply pow2_pos; lia). nia.
Qed.

(** A block offset of the pool in bytes does not overflow 32 bits. *)
Lemma byte_off p k : geometry p -> 0 <= k <= nb p -> u32 (Z.shiftl k (shift p)) = k * 2 ^ shift p.
Proof.
  intros G Hk. pose proof (nb_range p G) as [H1 H2]. pose proof (ge_shift _ G).
  rewrite Z.shiftl_mul_pow2 by lia. assert (0 < 2 ^ shift p) by (apply pow2_pos; lia).
  apply uwrap_small. unfold is_u. nia.
Qed.

Definition blocks (p : tee_mm_pool) (sz : Z) : Z := if sz =? 0 then 0 else Z.shiftr (sz - 1) (shift p) + 1.

Lemma blocks_wrap p sz : geometry p -> is_u 64 sz ->
  (if sz =? 0 then 0 else u64 (Z.shiftr (sz - 1) (shift p) + 1)) = blocks p sz.
Proof.
  intros G [H1 H2]. unfold blocks. destruct (sz =? 0) eqn:E; [done|]. bool_hyps. pose proof (ge_shift _ G).
  pose proof (blocks_pos (shift p) sz ltac:(lia) ltac:(lia)).
  pose proof (proj2 (blocks_le (shift p) sz sz ltac:(lia) ltac:(lia))) as B.
  assert (0 < 2 ^ shift p) by (apply pow2_pos; lia). specialize (B ltac:(nia)).
  apply uwrap_small. unfold is_u. lia.
Qed.

Lemma blocks_fit p sz k : geometry p -> 0 <= sz -> 0 <= k -> (blocks p sz <= k <-> sz <= k * 2 ^ shift p).
Proof.
  intros G Hz Hk. pose proof (ge_shift _ G). assert (0 < 2 ^ shift p) by (apply pow2_pos; lia).
  unfold blocks. destruct (sz =? 0) eqn:E; bool_hyps; [nia|]. apply blocks_le; lia.
Qed.

Lemma blocks_nonneg p sz : geometry p -> 0 <= sz -> 0 <= blocks p sz.
Proof.
  intros G Hz. unfold blocks. destruct (sz =? 0) eqn:E; bool_hyps; [lia|].
  pose proof (blocks_pos (shift p) sz). pose proof (ge_shift _ G). lia.
Qed.

(** ** Allocation *)

(** [k] blocks from [o] on lie in the pool and touch no entry. *)
Definition free_range (p : tee_mm_pool) (rest : list tee_mm_entry) (o k : Z) : Prop :=
  0 <= o /\ o + k <= nb p /\ forall x, x ∈ rest -> o + k <= offset x \/ fin x <= o.

(** Where a new entry goes: between [e] and [next], the list having been [head :: rest]. *)
Record placed (p : tee_mm_pool) (head : tee_mm_entry) (rest passed : list tee_mm_entry)
    (e nn : tee_mm_entry) (next : list tee_mm_entry) : Prop := mk_placed {
  pl_split : head :: rest = passed ++ e :: next;
  pl_ok : entry_ok p nn;
  pl_left : ordered (hi_alloc p) e nn;
  pl_right : forall x, List.hd_error next = Some x -> ordered (hi_alloc p) nn x;
}.

Lemma inv_entry p head rest x : pool_inv p head rest -> x ∈ head :: rest -> entry_ok p x.
Proof. intros I Hx. by apply (proj1 (Forall_forall _ _) (pi_ok _ _ _ I)). Qed.

Lemma scan_mem go head rest passed e next : scan go head rest = (passed, e, next) ->
  e ∈ head :: rest /\ (forall n r, next = n :: r -> n ∈ head :: rest).
Proof. intros E. rewrite (scan_split _ _ _ _ _ _ E). split; [set_solver|]. intros n r ->. set_solver. Qed.

(** The scan predicates compare block counts exactly: 32-bit arithmetic does not wrap on a pool. *)
Lemma gap_lo p x y : geometry p -> entry_ok p x -> entry_ok p y -> before x y ->
  u32 (offset y - size x - offset x) = offset y - fin x.
Proof.
  intros G [X1 X2 X3] [Y1 Y2 Y3] B. pose proof (nb_range p G) as [? _]. unfold before, fin in *.
  rewrite uwrap_small by (unfold is_u; lia). lia.
Qed.

Lemma gap_hi p x y : geometry p -> entry_ok p x -> entry_ok p y -> before y x ->
  u32 (offset x - offset y - size y) = offset x - fin y.
Proof.
  intros G [X1 X2 X3] [Y1 Y2 Y3] B. pose proof (nb_range p G) as [? _]. unfold before, fin in *.
  rewrite uwrap_small by (unfold is_u; lia). lia.
Qed.

Definition alloc_post p head rest a sz : Prop :=
  (tee_mm_alloc_flags (Some a) sz p = (Ret None, p) /\ forall o, ~ free_range p rest o (blocks p sz)) \/
  (exists passed e next nn, tee_mm_alloc_flags (Some a) sz p
      = (Ret (Some nn), with_chain p (passed ++ e :: nn :: next)) /\
    eid nn = a /\ size nn = blocks p sz /\ placed p head rest passed e nn next).

Lemma alloc_lo p head rest a sz : pool_inv p head rest -> hi_alloc p = false -> is_u 64 sz ->
  alloc_post p head rest a sz.
Proof.
  intros I Hhi Hsz. pose proof (pi_geo _ _ _ I) as G. pose proof (nb_range p G) as [Hnb _].
  unfold alloc_post, tee_mm_alloc_flags. rewrite (bind_run _ _ _ p p) by done.
  rewrite (pi_chain _ _ _ I), Hhi, blocks_wrap by done.
  pose proof (blocks_nonneg p sz G (proj1 Hsz)) as Hk. set (k := blocks p sz) in *.
  destruct (scan _ head rest) as [[passed e] next] eqn:Es.
  destruct (scan_mem _ _ _ _ _ _ Es) as [He Hnext]. pose proof (inv_entry _ _ _ _ I He) as Oe.
  pose proof (scan_split _ _ _ _ _ _ Es) as Sp.
  pose proof (pi_sorted _ _ _ I) as Srt. rewrite Hhi in Srt.
  assert (u32 (offset e + size e) = fin e) as Ef.
  { destruct Oe. unfold fin in *. apply uwrap_small. unfold is_u. lia. }
  assert (fin e + k <= nb p -> forall nx, next = nx ->
    (forall x, List.hd_error nx = Some x -> fin e + k <= offset x) ->
    placed p head rest passed e (mk_entry a (fin e) k) next) as Mk.
  { intros Hend nx <- Hx. destruct Oe. split; [done|..]; rewrite ?Hhi.
    - split; simpl; unfold fin in *; simpl; lia.
    - unfold ordered, before. simpl. lia.
    - intros x Hx'. pose proof (Hx x Hx'). destruct next as [|n r]; [done|]. injection Hx' as ->.
      pose proof (inv_entry _ _ _ _ I (Hnext _ _ eq_refl)) as []. unfold ordered, before, fin. simpl. unfold fin in *. lia. }
  assert (u32 k = k \/ nb p < k) as Huk.
  { destruct (decide (k <= nb p)); [left; apply uwrap_small; unfold is_u; lia | by right; lia]. }
  rewrite Ef. destruct next as [|n r].
  - pose proof (ge_size _ G). rewrite (proj2 (Z.eqb_neq (psz p) 0)) by lia.
    unfold bind, ret, tee_mm_add, modify. cbv beta iota.
    rewrite byte_off by (done || (destruct Oe; unfold fin in *; lia)).
    assert (u64 (psz p - fin e * 2 ^ shift p) = (nb p - fin e) * 2 ^ shift p) as ->.
    { rewrite (ge_whole _ G) at 1. rewrite <- Z.mul_sub_distr_r.
      apply uwrap_small. pose proof (nb_range p G) as [_ Hb]. destruct Oe.
      pose proof (ge_shift _ G). assert (0 < 2 ^ shift p) by (apply pow2_pos; lia). unfold is_u, fin in *. nia. }
    pose proof (blocks_fit p sz (nb p - fin e) G (proj1 Hsz) ltac:(destruct Oe; lia)) as Bf. fold k in Bf.
    destruct (_ <? sz) eqn:Fit; bool_hyps; cbn [negb].
    + left. split; [done|]. intros o (Ho1 & Ho2 & Ho3). assert (e ∈ head :: rest /\ fin e <= o); [|lia].
      apply (scan_carry (fun x => x ∈ head :: rest /\ fin x <= o) (ordered false) _ _ _ _ _ _ Es Srt).
      * destruct (pi_head _ _ _ I) as [H1 H2]. rewrite Hhi in H1. unfold fin. split; [set_solver | lia].
      * intros x y Hxy Gxy Hy [Hm Hx]. split; [set_solver|]. destruct (Ho3 y Hy) as [Hl|]; [|done]. exfalso.
        rewrite (gap_lo p) in Gxy; [lia|done|by eapply inv_entry|eapply inv_entry; [done|set_solver]|done].
    + right. exists passed, e, [], (mk_entry a (fin e) k). destruct Huk as [Huk|Huk]; [|destruct Oe; unfold fin in *; lia].
      rewrite Huk. split; [done|]. split; [done|]. split; [done|].
      apply (Mk ltac:(lia) [] eq_refl). done.
  - right. exists passed, e, (n :: r), (mk_entry a (fin e) k).
    pose proof (inv_entry _ _ _ _ I (Hnext _ _ eq_refl)) as On. pose proof (scan_stop _ _ _ _ _ _ _ Es) as St. simpl in St.
    rewrite Sp in Srt. pose proof (Sorted_adjacent _ _ _ _ _ Srt) as Adj.
    rewrite (gap_lo p) in St by done. unfold fin in On.
    assert (fin e + k <= offset n) as Hgap by lia. destruct On as [On1 On2 On3].
    destruct Huk as [Huk|Huk]; [|destruct Oe; unfold fin in *; lia].
    unfold bind, ret, tee_mm_add, modify. cbv beta iota. rewrite Huk. split; [done|]. split; [done|]. split; [done|].
    apply (Mk ltac:(unfold fin in *; lia) (n :: r) eq_refl). intros x [= <-]. done.
Qed.

Lemma alloc_hi p head rest a sz : pool_inv p head rest -> hi_alloc p = true -> is_u 64 sz ->
  alloc_post p head rest a sz.
Proof.
  intros I Hhi Hsz. pose proof (pi_geo _ _ _ I) as G. pose proof (nb_range p G) as [Hnb _].
  unfold alloc_post, tee_mm_alloc_flags. rewrite (bind_run _ _ _ p p) by done.
  rewrite (pi_chain _ _ _ I), Hhi, blocks_wrap by done.
  pose proof (blocks_nonneg p sz G (proj1 Hsz)) as Hk. set (k := blocks p sz) in *.
  destruct (scan _ head rest) as [[passed e] next] eqn:Es.
  destruct (scan_mem _ _ _ _ _ _ Es) as [He Hnext]. pose proof (inv_entry _ _ _ _ I He) as Oe.
  pose proof (scan_split _ _ _ _ _ _ Es) as Sp.
  pose proof (pi_sorted _ _ _ I) as Srt. rewrite Hhi in Srt.
  assert (offset e <= nb p) as Hoe by (destruct Oe; unfold fin in *; lia).
  assert (k <= offset e -> forall nx, next = nx ->
    (forall x, List.hd_error nx = Some x -> fin x + k <= offset e) ->
    placed p head rest passed e (mk_entry a (offset e - k) k) next) as Mk.
  { intros Hend nx <- Hx. destruct Oe. split; [done|..]; rewrite ?Hhi.
    - split; unfold fin in *; simpl; lia.
    - unfold ordered, before, fin. simpl. lia.
    - intros x Hx'. pose proof (Hx x Hx'). destruct next as [|n r]; [done|]. injection Hx' as ->.
      pose proof (inv_entry _ _ _ _ I (Hnext _ _ eq_refl)) as []. unfold ordered, before, fin in *. simpl. lia. }
  assert (k <= offset e -> u32 k = k /\ u32 (offset e - k) = offset e - k) as Huk.
  { intros. destruct Oe. split; apply uwrap_small; unfold is_u; lia. }
  destruct next as [|n r].
  - unfold bind, ret, tee_mm_add, modify. cbv beta iota.
    rewrite byte_off by (done || (destruct Oe; lia)).
    pose proof (blocks_fit p sz (offset e) G (proj1 Hsz) ltac:(destruct Oe; lia)) as Bf. fold k in Bf.
    destruct (_ <? sz) eqn:Fit; bool_hyps; cbn [negb].
    + left. split; [done|]. intros o (Ho1 & Ho2 & Ho3). assert (e ∈ head :: rest /\ o + k <= offset e); [|lia].
      apply (scan_carry (fun x => x ∈ head :: rest /\ o + k <= offset x) (ordered true) _ _ _ _ _ _ Es Srt).
      * destruct (pi_head _ _ _ I) as [H1 H2]. rewrite Hhi in H1. split; [set_solver | lia].
      * intros x y Hxy Gxy Hy [Hm Hx]. split; [set_solver|]. destruct (Ho3 y Hy) as [|Hl]; [done|]. exfalso.
        rewrite (gap_hi p) in Gxy; [lia|done|by eapply inv_entry|eapply inv_entry; [done|set_solver]|done].
    + right. exists passed, e, [], (mk_entry a (offset e - k) k). destruct Huk as [Hu1 Hu2]; [lia|].
      rewrite Hu1, Hu2. split; [done|]. split; [done|]. split; [done|]. apply (Mk ltac:(lia) [] eq_refl). done.
  - right. exists passed, e, (n :: r), (mk_entry a (offset e - k) k).
    pose proof (inv_entry _ _ _ _ I (Hnext _ _ eq_refl)) as On. pose proof (scan_stop _ _ _ _ _ _ _ Es) as St. simpl in St.
    rewrite Sp in Srt. pose proof (Sorted_adjacent _ _ _ _ _ Srt) as Adj.
    rewrite (gap_hi p) in St by done. destruct On as [On1 On2 On3]. unfold fin in On3, St.
    destruct Huk as [Hu1 Hu2]; [lia|].
    unfold bind, ret, tee_mm_add, modify. cbv beta iota. rewrite Hu1, Hu2. split; [done|]. split; [done|]. split; [done|].
    apply (Mk ltac:(lia) (n :: r) eq_refl). intros x [= <-]. unfold fin. lia.
Qed.

(** ** Preservation *)

Lemma geometry_chain p c : geometry p -> geometry (with_chain p c).
Proof. intros [? ? ? ?]. by split. Qed.

Lemma entries_chain p c l : Forall (entry_ok p) l -> Forall (entry_ok (with_chain p c)) l.
Proof. intros H. apply (Forall_impl _ _ _ H). intros e [? ? ?]. by split. Qed.

Lemma NoDup_insert_mid (l1 l2 : list Z) a : NoDup (l1 ++ l2) -> a ∉ l1 ++ l2 -> NoDup (l1 ++ a :: l2).
Proof.
  intros H Ha. assert (l1 ++ a :: l2 ≡ₚ a :: (l1 ++ l2)) as -> by (by rewrite Permutation_middle).
  by apply NoDup_cons.
Qed.

Lemma insert_inv p head rest passed e nn next :
  pool_inv p head rest -> placed p head rest passed e nn next -> eid nn ∉ eid <$> head :: rest ->
  exists rest', passed ++ e :: nn :: next = head :: rest' /\
    pool_inv (with_chain p (head :: rest')) head rest' /\
    (forall x, x ∈ rest' <-> x = nn \/ x ∈ rest).
Proof.
  intros [G C Hh S O D] [Sp On Hl Hr] Hf.
  assert (exists rest', passed ++ e :: nn :: next = head :: rest' /\ (forall x, x ∈ rest' <-> x = nn \/ x ∈ rest))
    as (rest' & E & M).
  { destruct passed as [|x passed]; simpl in *; injection Sp as <- ->; eexists; (split; [reflexivity|]); set_solver. }
  exists rest'. split; [done|]. split; [|done]. rewrite Sp in S, O, D, Hf.
  split; [by apply geometry_chain | done | exact Hh | rewrite <- E; by apply Sorted_insert | apply entries_chain; rewrite <- E | rewrite <- E].
  - apply Forall_app in O as [O1 O2]. apply Forall_app. split; [done|].
    apply Forall_cons in O2 as [O2 O3]. constructor; [done | by constructor].
  - rewrite fmap_app in *. rewrite !fmap_cons in *. rewrite (cons_middle (eid e)), app_assoc in D, Hf.
    rewrite (cons_middle (eid e)), app_assoc. by apply NoDup_insert_mid.
Qed.

Lemma remove_inv p head rest passed e nn next rest' :
  pool_inv p head rest -> head :: rest = passed ++ e :: nn :: next -> head :: rest' = passed ++ e :: next ->
  pool_inv (with_chain p (head :: rest')) head rest'.
Proof.
  intros [G C Hh S O D] Sp E. rewrite Sp in S, O, D.
  split; [by apply geometry_chain | done | exact Hh | rewrite E; exact (Sorted_remove _ _ _ _ _ S) | apply entries_chain; rewrite E | rewrite E].
  - apply Forall_app in O as [O1 O2]. apply Forall_app. split; [done|].
    apply Forall_cons in O2 as [O2 O3]. apply Forall_cons in O3 as [_ O3]. by constructor.
  - rewrite fmap_app in *. rewrite !fmap_cons in *. rewrite (cons_middle (eid e)), app_assoc in D |- *.
    rewrite cons_middle, app_assoc in D.
    apply NoDup_app in D as (D1 & D2 & D3). apply NoDup_app in D1 as (D1 & D1' & _).
    apply NoDup_app. split; [done|]. split; [|done]. intros x Hx. apply D2. set_solver.
Qed.

(** Looking for a node by address finds it when it is listed behind the sentinel. *)
Lemma scan_node a passed e nn next head rest :
  head :: rest = passed ++ e :: nn :: next -> eid nn = a -> NoDup (eid <$> head :: rest) ->
  scan (fun _ n => negb (eid n =? a)) head rest = (passed, e, nn :: next).
Proof.
  revert head rest. induction passed as [|x passed IH]; intros head rest E Ea D; simpl in *; injection E as -> ->.
  - simpl. by rewrite Ea, Z.eqb_refl.
  - destruct passed as [|y passed]; simpl in *.
    + assert (eid e <> a) as Hne.
      { intros C. apply NoDup_cons in D as [_ D]. apply NoDup_cons in D as [D _]. apply D. rewrite C, <- Ea. set_solver. }
      rewrite (proj2 (Z.eqb_neq _ _) Hne). simpl. by rewrite Ea, Z.eqb_refl.
    + assert (eid y <> a) as Hne.
      { intros C. apply NoDup_cons in D as [_ D]. apply NoDup_cons in D as [D _]. apply D. rewrite C, <- Ea.
        rewrite fmap_app, !fmap_cons. set_solver. }
      rewrite (proj2 (Z.eqb_neq _ _) Hne). cbn [negb].
      rewrite (IH y (passed ++ e :: nn :: next)); [done|done|done|]. by apply NoDup_cons in D as [_ D].
Qed.

Lemma scan_node_none a e next : a ∉ eid <$> next ->
  exists p e', scan (fun _ n => negb (eid n =? a)) e next = (p, e', []).
Proof.
  revert e. induction next as [|n next IH]; intros e Ha; simpl; [eauto|].
  rewrite fmap_cons in Ha. apply not_elem_of_cons in Ha as [H1 H2].
  rewrite (proj2 (Z.eqb_neq _ _)) by done. cbn [negb]. destruct (IH n H2) as (p & e' & ->). eauto.
Qed.

(** Freeing the entry that was just placed gives the old list back. *)
Lemma free_run p head rest passed e nn next : pool_inv p head rest -> head :: rest = passed ++ e :: nn :: next ->
  tee_mm_free (entry_ptr nn) p = (Ret tt, with_chain p (passed ++ e :: next)).
Proof.
  intros I E. unfold tee_mm_free, entry_ptr. rewrite (bind_run _ _ _ p p) by done. rewrite (pi_chain _ _ _ I).
  rewrite (scan_node (eid nn) passed e nn next head rest); [done|done|done|]. apply I.
Qed.

(** Entries of the list are pairwise apart. *)
Lemma inv_disjoint p head rest x y : pool_inv p head rest -> x ∈ rest -> y ∈ rest -> eid x <> eid y ->
  fin x <= offset y \/ fin y <= offset x.
Proof.
  intros [_ _ _ S _ D] Hx Hy Hne. apply Sorted_StronglySorted in S; [|apply ordered_trans].
  apply StronglySorted_inv in S as [S _]. clear D.
  induction rest as [|z rest IH]; [set_solver|]. apply StronglySorted_inv in S as [S F].
  rewrite Forall_forall in F. unfold ordered, before in F.
  apply elem_of_cons in Hx as [->|Hx], Hy as [->|Hy]; [done| | |by apply IH];
    [specialize (F y Hy) | specialize (F x Hx)]; destruct (hi_alloc p); lia.
Qed.

(** ** Allocation at an address *)

Section Alloc2.
Context (p : tee_mm_pool) (head : tee_mm_entry) (rest : list tee_mm_entry) (base sz : Z).
Context (I : pool_inv p head rest) (Hpos : forall x, x ∈ rest -> 0 < size x).
Context (Hbase : lo p <= base) (Hsz : 0 < sz) (Hend : base + sz < 2 ^ 64).
Context (Htop : base - lo p + sz <= 2 ^ 64 - 2 ^ shift p).

Definition blo : Z := Z.shiftr (base - lo p) (shift p).
Definition bhi : Z := Z.shiftr (base - lo p + sz - 1) (shift p) + 1.

Lemma blo_bhi : 0 <= blo < bhi /\ bhi * 2 ^ shift p < 2 ^ 64.
Proof.
  pose proof (ge_shift _ (pi_geo _ _ _ I)). assert (0 < 2 ^ shift p) as Hp by (apply pow2_pos; lia).
  unfold blo, bhi. rewrite !Z.shiftr_div_pow2 by lia.
  pose proof (Z.div_le_mono (base - lo p) (base - lo p + sz - 1) (2 ^ shift p) ltac:(lia) ltac:(lia)).
  pose proof (Z.div_pos (base - lo p) (2 ^ shift p) ltac:(lia) ltac:(lia)).
  pose proof (Z.mul_div_le (base - lo p + sz - 1) (2 ^ shift p) ltac:(lia)). nia.
Qed.

Lemma shl_bhi : u64 (Z.shiftl bhi (shift p)) = bhi * 2 ^ shift p.
Proof.
  pose proof blo_bhi. pose proof (ge_shift _ (pi_geo _ _ _ I)). assert (0 < 2 ^ shift p) by (apply pow2_pos; lia).
  rewrite Z.shiftl_mul_pow2 by lia. apply uwrap_small. unfold is_u. nia.
Qed.

Lemma bhi_le_nb : bhi * 2 ^ shift p <= psz p <-> bhi <= nb p.
Proof.
  pose proof (ge_whole _ (pi_geo _ _ _ I)) as ->. pose proof (ge_shift _ (pi_geo _ _ _ I)).
  assert (0 < 2 ^ shift p) by (apply pow2_pos; lia). nia.
Qed.

Definition scan2 : list tee_mm_entry * tee_mm_entry * list tee_mm_entry :=
  if hi_alloc p then scan (fun _ n => bhi <? u32 (offset n + size n)) head rest
  else scan (fun _ n => blo >? offset n) head rest.

Lemma fin32 x : x ∈ head :: rest -> u32 (offset x + size x) = fin x.
Proof.
  intros Hx. destruct (inv_entry _ _ _ _ I Hx). pose proof (nb_range _ (pi_geo _ _ _ I)) as [? _].
  apply uwrap_small. unfold is_u, fin in *. lia.
Qed.

(** [fit_in_gap] after the scan holds exactly when no entry is touched. *)
Lemma fit_lo passed e next : hi_alloc p = false -> scan2 = (passed, e, next) ->
  fit_in_gap p e next blo bhi = true <->
  fin e <= blo /\ (forall n, List.hd_error next = Some n -> bhi <= offset n) /\ bhi <= nb p.
Proof.
  intros Hhi Es. unfold scan2 in Es. rewrite Hhi in Es. destruct (scan_mem _ _ _ _ _ _ Es) as [He _].
  unfold fit_in_gap. rewrite Hhi, fin32, shl_bhi by done. rewrite <- bhi_le_nb.
  destruct next as [|n r]; simpl; (split; [intros F; bool_hyps|intros (F1 & F2 & F3)]).
  - split; [done|]. split; [done|lia].
  - apply negb_true_iff, orb_false_iff. split; [apply orb_false_iff; split; [lia|done]|lia].
  - split; [done|]. split; [by intros m [= <-]; lia|lia].
  - specialize (F2 n eq_refl). apply negb_true_iff, orb_false_iff. split; [apply orb_false_iff; split; lia|lia].
Qed.

Lemma fit_hi passed e next : hi_alloc p = true -> scan2 = (passed, e, next) ->
  fit_in_gap p e next blo bhi = true <->
  bhi <= offset e /\ (forall n, List.hd_error next = Some n -> fin n <= blo).
Proof.
  intros Hhi Es. unfold scan2 in Es. rewrite Hhi in Es. destruct (scan_mem _ _ _ _ _ _ Es) as [He Hn].
  destruct (inv_entry _ _ _ _ I He) as [E1 E2 E3]. unfold fin in E3.
  pose proof blo_bhi as [Hb Hb2]. pose proof (ge_shift _ (pi_geo _ _ _ I)).
  assert (0 < 2 ^ shift p) by (apply pow2_pos; lia).
  unfold fit_in_gap. rewrite Hhi, shl_bhi. rewrite (uwrap_small 64 (_ - 1)) by (unfold is_u; nia).
  destruct next as [|n r]; [|rewrite (fin32 n) by (by eapply Hn)]; simpl; (split; [intros F; bool_hyps|intros (F1 & F2)]).
  - split; [lia|done].
  - pose proof (proj2 bhi_le_nb ltac:(lia)). apply negb_true_iff, orb_false_iff.
    split; [apply orb_false_iff; split; [lia|done]|lia].
  - split; [lia|]. by intros m [= <-]; lia.
  - specialize (F2 n eq_refl). pose proof (proj2 bhi_le_nb ltac:(lia)). apply negb_true_iff, orb_false_iff.
    split; [apply orb_false_iff; split; lia|lia].
Qed.

(** The entry the scan stops at is the sentinel or one the scan passed over. *)
Lemma scan2_entry passed e next : scan2 = (passed, e, next) -> free_range p rest blo (bhi - blo) ->
  (if hi_alloc p then bhi <= offset e else fin e <= blo).
Proof.
  intros Es (F1 & F2 & F3). pose proof blo_bhi as [Hb _]. unfold scan2 in Es.
  destruct (pi_head _ _ _ I) as [H1 H2]. pose proof (pi_sorted _ _ _ I) as S.
  destruct (hi_alloc p) eqn:Hhi.
  - apply (scan_carry (fun x => bhi <= offset x) (ordered true) _ _ _ _ _ _ Es S); [lia|].
    intros x y _ Gy Hy _. rewrite fin32 in Gy by set_solver. bool_hyps. destruct (F3 y Hy); lia.
  - apply (scan_carry (fun x => fin x <= blo) (ordered false) _ _ _ _ _ _ Es S); [unfold fin; lia|].
    intros x y _ Gy Hy _. destruct (F3 y Hy); [lia|done].
Qed.

Lemma free_fits passed e next : scan2 = (passed, e, next) -> free_range p rest blo (bhi - blo) ->
  fit_in_gap p e next blo bhi = true.
Proof.
  intros Es F. pose proof (scan2_entry _ _ _ Es F) as He. destruct F as (F1 & F2 & F3). pose proof blo_bhi as [Hb _].
  assert (forall n, List.hd_error next = Some n -> n ∈ rest) as Hin.
  { intros n Hn. destruct next as [|m r]; [done|]. injection Hn as ->. unfold scan2 in Es.
    assert (head :: rest = passed ++ e :: n :: r) as Sp by (destruct (hi_alloc p); by eapply scan_split).
    destruct passed; simpl in Sp; injection Sp as ? ->; set_solver. }
  destruct (hi_alloc p) eqn:Hhi.
  - apply (fit_hi passed); [done|done|]. split; [done|]. intros n Hn. destruct next as [|m r]; [done|]. injection Hn as ->.
    pose proof (Hin n eq_refl) as Hr. unfold scan2 in Es. rewrite Hhi in Es. apply scan_stop in Es.
    rewrite fin32 in Es by set_solver. bool_hyps. pose proof (Hpos n Hr). destruct (F3 n Hr); unfold fin in *; lia.
  - apply (fit_lo passed); [done|done|]. split; [done|]. split; [|lia]. intros n Hn. destruct next as [|m r]; [done|]. injection Hn as ->.
    pose proof (Hin n eq_refl) as Hr. unfold scan2 in Es. rewrite Hhi in Es. apply scan_stop in Es.
    pose proof (Hpos n Hr). destruct (F3 n Hr); unfold fin in *; lia.
Qed.

Lemma fit_placed a passed e next : scan2 = (passed, e, next) -> fit_in_gap p e next blo bhi = true ->
  bhi <= nb p /\ placed p head rest passed e (mk_entry a blo (bhi - blo)) next.
Proof.
  intros Es Fit. pose proof blo_bhi as [Hb _].
  assert (head :: rest = passed ++ e :: next) as Sp by (unfold scan2 in Es; destruct (hi_alloc p); by eapply scan_split).
  assert (e ∈ head :: rest /\ forall n, List.hd_error next = Some n -> n ∈ head :: rest) as [He Hn].
  { rewrite Sp. split; [set_solver|]. intros n Hn. destruct next; [done|]. injection Hn as ->. set_solver. }
  destruct (inv_entry _ _ _ _ I He) as [E1 E2 E3]. unfold fin in E3.
  destruct (hi_alloc p) eqn:Hhi.
  - apply (fit_hi passed) in Fit as [F1 F2]; [|done..]. split; [lia|]. split; rewrite ?Hhi; [done|split; unfold fin; simpl; lia|..].
    + unfold ordered, before, fin. simpl. lia.
    + intros n Hx. pose proof (F2 n Hx). destruct (inv_entry _ _ _ _ I (Hn n Hx)). unfold ordered, before, fin in *. simpl. lia.
  - apply (fit_lo passed) in Fit as (F1 & F2 & F3); [|done..]. split; [lia|]. split; rewrite ?Hhi; [done|split; unfold fin; simpl; lia|..].
    + unfold ordered, before, fin in *. simpl. lia.
    + intros n Hx. pose proof (F2 n Hx). destruct (inv_entry _ _ _ _ I (Hn n Hx)). unfold ordered, before, fin in *. simpl. lia.
Qed.

Lemma alloc2_run a :
  (tee_mm_alloc2 (Some a) base sz p = (Ret None, p) /\ ~ free_range p rest blo (bhi - blo)) \/
  (exists passed e next, tee_mm_alloc2 (Some a) base sz p
      = (Ret (Some (mk_entry a blo (bhi - blo))), with_chain p (passed ++ e :: mk_entry a blo (bhi - blo) :: next)) /\
    placed p head rest passed e (mk_entry a blo (bhi - blo)) next).
Proof.
  pose proof blo_bhi as [Hb Hb2]. pose proof (ge_lo _ (pi_geo _ _ _ I)) as [Hlo _].
  pose proof (ge_shift _ (pi_geo _ _ _ I)). assert (0 < 2 ^ shift p) by (apply pow2_pos; lia).
  unfold tee_mm_alloc2. rewrite (bind_run _ _ _ p p) by done. rewrite (pi_chain _ _ _ I).
  rewrite (uwrap_small 64 (base + sz)) by (unfold is_u; lia).
  rewrite (proj2 (Z.ltb_ge (base + sz) base)), (proj2 (Z.ltb_ge base (lo p))) by lia. cbn [orb].
  rewrite (uwrap_small 64 (base - lo p + sz - 1)) by (unfold is_u; lia). fold bhi blo.
  rewrite (uwrap_small 64 bhi) by (unfold is_u; nia). fold scan2.
  destruct scan2 as [[passed e] next] eqn:Es. destruct (fit_in_gap p e next blo bhi) eqn:Fit.
  - right. destruct (fit_placed a _ _ _ Es Fit) as [Hn Pl]. pose proof (nb_range _ (pi_geo _ _ _ I)) as [? _].
    rewrite (uwrap_small 64 (bhi - blo)), (uwrap_small 32 blo), (uwrap_small 32 (bhi - blo)) by (unfold is_u; lia).
    exists passed, e, next. split; [done|exact Pl].
  - left. split; [done|]. intros F. rewrite (free_fits _ _ _ Es F) in Fit. done.
Qed.
End Alloc2.

(** ** Addresses *)

Lemma ldiff_mask v s : 0 <= s -> Z.ldiff v (2 ^ s - 1) = v / 2 ^ s * 2 ^ s.
Proof.
  intros Hs. replace (2 ^ s - 1) with (Z.ones s) by (rewrite Z.ones_equiv; lia).
  rewrite Z.ldiff_ones_r, Z.shiftr_div_pow2, Z.shiftl_mul_pow2 by done. done.
Qed.

(** The bytes of an entry lie inside the pool. *)
Lemma smem_bounds p e : geometry p -> entry_ok p e ->
  tee_mm_get_smem p e = lo p + offset e * 2 ^ shift p /\
  tee_mm_get_bytes p e = size e * 2 ^ shift p /\
  tee_mm_get_smem p e + tee_mm_get_bytes p e <= lo p + psz p.
Proof.
  intros G [E1 E2 E3]. pose proof (nb_range p G) as [H1 H2]. pose proof (ge_whole _ G) as Hw.
  pose proof (ge_lo _ G). pose proof (ge_shift _ G). assert (0 < 2 ^ shift p) by (apply pow2_pos; lia).
  unfold tee_mm_get_smem, tee_mm_get_bytes, fin in *.
  rewrite !byte_off by (done || lia).
  assert (offset e * 2 ^ shift p + size e * 2 ^ shift p <= nb p * 2 ^ shift p) by nia.
  rewrite (uwrap_small 64) by (unfold is_u; nia). nia.
Qed.

(** The block of an address of the pool. *)
Lemma block_range p addr : geometry p -> tee_mm_addr_is_within_range p addr = true ->
  u64 (addr - lo p) = addr - lo p /\ 0 <= Z.shiftr (addr - lo p) (shift p) < nb p.
Proof.
  intros G R. unfold tee_mm_addr_is_within_range in R. pose proof (ge_size _ G). pose proof (ge_lo _ G).
  rewrite (uwrap_small 64 (psz p - 1)) in R by (unfold is_u; lia). rewrite uwrap_small in R by (unfold is_u; lia).
  bool_hyps. split; [apply uwrap_small; unfold is_u; lia|]. pose proof (ge_shift _ G).
  assert (0 < 2 ^ shift p) by (apply pow2_pos; lia). rewrite Z.shiftr_div_pow2 by lia.
  split; [apply Z.div_pos; lia|]. apply Z.div_lt_upper_bound; [lia|]. pose proof (ge_whole _ G). lia.
Qed.

Lemma init_geometry l sz sh : 0 <= sh < 31 -> 0 <= l -> 2 * 2 ^ sh <= sz < 2 ^ 32 -> l + sz < 2 ^ 64 ->
  let l' := ROUNDUP2 l (2 ^ sh) in let sz' := ROUNDDOWN2 (u64 (sz - u64 (l' - l))) (2 ^ sh) in
  l <= l' /\ l' + sz' <= l + sz /\ 0 < sz' /\ sz' = Z.shiftr sz' sh * 2 ^ sh.
Proof.
  intros Hsh Hl Hsz Hend. assert (0 < 2 ^ sh) as Hp by (apply pow2_pos; lia).
  unfold ROUNDUP2, ROUNDDOWN2. rewrite !ldiff_mask by lia.
  rewrite (uwrap_small 64 (l + _)) by (unfold is_u; lia).
  set (l' := (l + (2 ^ sh - 1)) / 2 ^ sh * 2 ^ sh).
  assert (l <= l' < l + 2 ^ sh) as Hl'.
  { unfold l'. pose proof (Z.div_mod (l + (2 ^ sh - 1)) (2 ^ sh) ltac:(lia)).
    pose proof (Z.mod_pos_bound (l + (2 ^ sh - 1)) (2 ^ sh) ltac:(lia)). lia. }
  rewrite (uwrap_small 64 (l' - l)), (uwrap_small 64 (sz - _)) by (unfold is_u; lia).
  pose proof (Z.div_mod (sz - (l' - l)) (2 ^ sh) ltac:(lia)).
  pose proof (Z.mod_pos_bound (sz - (l' - l)) (2 ^ sh) ltac:(lia)).
  pose proof (Z.div_le_lower_bound (sz - (l' - l)) (2 ^ sh) 1 ltac:(lia) ltac:(lia)).
  rewrite Z.shiftr_div_pow2, Z.div_mul by lia. nia.
Qed.

(** ** Properties *)

(** Initialisation. For a region of at least two blocks and less than 4 GiB, [tee_mm_init]
    establishes the invariant with no entries, and the pool lies inside the region it was given. *)
Lemma tee_mm_init_inv l sz sh hi a st
    (Hsh : 0 <= sh < 31) (Hl : 0 <= l) (Hsz : 2 * 2 ^ sh <= sz < 2 ^ 32 - 1) (Hend : l + sz < 2 ^ 64) :
  exists p head, tee_mm_init (Some a) l sz sh hi st = (Ret true, p) /\ pool_inv p head [] /\
    l <= lo p /\ lo p + psz p <= l + sz /\ hi_alloc p = hi.
Proof.
  destruct (init_geometry l sz sh Hsh Hl ltac:(lia) Hend) as (H1 & H2 & H3 & H4).
  assert (2 ^ sh <= 2 ^ 30) as Hs by (apply Z.pow_le_mono_r; lia).
  unfold tee_mm_init. rewrite Z.shiftl_1_l.
  rewrite (bind_run _ _ _ (2 ^ sh) st) by (apply sint_in; unfold is_s; lia).
  set (l' := ROUNDUP2 l (2 ^ sh)) in *. set (sz' := ROUNDDOWN2 _ _) in *.
  assert (0 < 2 ^ sh) as Hp by (apply pow2_pos; lia).
  assert (0 < Z.shiftr sz' sh < 2 ^ 32 - 1) as Hn.
  { clearbody sz'. set (n := Z.shiftr sz' sh) in *. clearbody n. nia. }
  rewrite (proj2 (Z.ltb_lt _ (2 ^ 32 - 1))) by lia. unfold assert_. rewrite bind_ret_l.
  assert (u32 (Z.shiftr (u64 (sz' - 1)) sh + 1) = Z.shiftr sz' sh) as Ho.
  { rewrite (uwrap_small 64) by (unfold is_u; lia). rewrite H4 at 1. rewrite !Z.shiftr_div_pow2 in * by lia.
    set (n := sz' / 2 ^ sh) in *.
    assert ((n * 2 ^ sh - 1) / 2 ^ sh = n - 1) as -> by (symmetry; apply (Z.div_unique _ _ _ (2 ^ sh - 1)); lia).
    rewrite uwrap_small by (unfold is_u; lia). lia. }
  rewrite Ho. do 2 eexists. split; [reflexivity|]. split; [|done].
  split; [split; unfold nb; simpl; lia | done | by destruct hi | by repeat constructor | | apply NoDup_singleton].
  constructor; [|constructor]. split; unfold fin, nb; simpl; destruct hi; simpl; lia.
Qed.

(** [tee_mm_alloc] on a well-formed pool. *)
Lemma alloc_run p head rest a sz : pool_inv p head rest -> is_u 64 sz -> a ∉ eid <$> head :: rest ->
  (tee_mm_alloc (Some a) sz p = (Ret None, p) /\ forall o, ~ free_range p rest o (blocks p sz)) \/
  (exists nn rest', tee_mm_alloc (Some a) sz p = (Ret (Some nn), with_chain p (head :: rest')) /\
     eid nn = a /\ size nn = blocks p sz /\ pool_inv (with_chain p (head :: rest')) head rest' /\
     (forall x, x ∈ rest' <-> x = nn \/ x ∈ rest) /\
     (forall x, x ∈ rest -> fin nn <= offset x \/ fin x <= offset nn)).
Proof.
  intros I Hsz Hf. assert (alloc_post p head rest a sz) as Post
    by (destruct (hi_alloc p) eqn:Hhi; [by apply alloc_hi | by apply alloc_lo]).
  destruct Post as [N|(passed & e & next & nn & R & Ea & Es & Pl)]; [by left|right].
  rewrite <- Ea in Hf. destruct (insert_inv p head rest passed e nn next I Pl Hf) as (rest' & E & I' & M).
  exists nn, rest'. unfold tee_mm_alloc. rewrite R, E. do 5 (split; [done|]). intros x Hx.
  apply (inv_disjoint _ _ _ nn x I'); [apply M; by left|apply M; by right|].
  intros C. apply Hf. rewrite C. apply list_elem_of_fmap_2. set_solver.
Qed.

(** Freeing an entry removes it. *)
Lemma free_entry p head rest x : pool_inv p head rest -> x ∈ rest ->
  exists rest', tee_mm_free (entry_ptr x) p = (Ret tt, with_chain p (head :: rest')) /\
    pool_inv (with_chain p (head :: rest')) head rest' /\ rest ≡ₚ x :: rest'.
Proof.
  intros I Hx. apply list_elem_of_split in Hx as (l1 & l2 & ->). exists (l1 ++ l2).
  assert (exists passed e, head :: l1 = passed ++ [e]) as (passed & e & Ep).
  { destruct (exists_last (l := head :: l1)) as (q & e & E); [done|]. by exists q, e. }
  assert (head :: l1 ++ x :: l2 = passed ++ e :: x :: l2) as E1.
  { change (head :: l1 ++ x :: l2) with ((head :: l1) ++ x :: l2). rewrite Ep. by rewrite <- app_assoc. }
  assert (head :: l1 ++ l2 = passed ++ e :: l2) as E2.
  { change (head :: l1 ++ l2) with ((head :: l1) ++ l2). rewrite Ep. by rewrite <- app_assoc. }
  rewrite E2. split; [by apply (free_run p head (l1 ++ x :: l2))|].
  split; [rewrite <- E2; by apply (remove_inv p head (l1 ++ x :: l2) passed e x l2) | by rewrite Permutation_middle].
Qed.

(** C13. Allocation. On a well-formed pool, for every request size, and with memory for the new entry,
    tee_mm_alloc keeps the invariant; a granted entry has at least the requested bytes, lies inside the
    pool and overlaps no other entry, and the other entries are unchanged. It is refused, leaving the
    pool as it was, only when no position of the pool has that many free blocks: first fit is complete. *)
Theorem tee_mm_alloc_spec p head rest a sz
    (I : pool_inv p head rest) (Hsz : is_u 64 sz) (Hf : a ∉ eid <$> head :: rest) :
  (tee_mm_alloc (Some a) sz p = (Ret None, p) /\ forall o, ~ free_range p rest o (blocks p sz)) \/
  (exists nn p' rest', tee_mm_alloc (Some a) sz p = (Ret (Some nn), p') /\ pool_inv p' head rest' /\
     (forall x, x ∈ rest' <-> x = nn \/ x ∈ rest) /\ sz <= tee_mm_get_bytes p' nn /\
     lo p <= tee_mm_get_smem p' nn /\
     tee_mm_get_smem p' nn + tee_mm_get_bytes p' nn <= lo p + psz p /\
     (forall x, x ∈ rest -> fin nn <= offset x \/ fin x <= offset nn)).
Proof.
  destruct (alloc_run p head rest a sz I Hsz Hf) as [N|(nn & rest' & R & _ & Es & I' & M & D)]; [by left|right].
  exists nn, (with_chain p (head :: rest')), rest'. do 3 (split; [done|]). pose proof (pi_geo _ _ _ I) as G.
  assert (entry_ok (with_chain p (head :: rest')) nn) as O by (apply (inv_entry _ _ _ _ I'), elem_of_cons; right; apply M; by left).
  destruct (smem_bounds (with_chain p (head :: rest')) nn) as (S1 & S2 & S3); [apply I'|done|]. destruct O as [O1 O2 O3].
  pose proof (ge_shift _ G). assert (0 < 2 ^ shift p) by (apply pow2_pos; lia).
  split; [rewrite S2, Es; simpl; apply blocks_fit; [done|apply Hsz|by apply blocks_nonneg, Hsz|done]|].
  split; [rewrite S1; simpl; nia|]. by split.
Qed.

(** allocation at an address. For a non-empty range at or above the pool's base,
    [tee_mm_alloc2] grants exactly the blocks that cover the range when none of them belongs to an
    entry (the invariant is kept and nothing else changes), and refuses it, leaving the pool as it
    was, exactly when one does or the range leaves the pool. *)
Theorem tee_mm_alloc2_spec p head rest a base sz
    (I : pool_inv p head rest) (Hpos : forall x, x ∈ rest -> 0 < size x)
    (Hbase : lo p <= base) (Hsz : 0 < sz) (Hend : base + sz < 2 ^ 64)
    (Htop : base - lo p + sz <= 2 ^ 64 - 2 ^ shift p) (Hf : a ∉ eid <$> head :: rest) :
  let nn := mk_entry a (blo p base) (bhi p base sz - blo p base) in
  (tee_mm_alloc2 (Some a) base sz p = (Ret None, p) /\
     ~ free_range p rest (blo p base) (bhi p base sz - blo p base)) \/
  (exists p' rest', tee_mm_alloc2 (Some a) base sz p = (Ret (Some nn), p') /\ pool_inv p' head rest' /\
     (forall x, x ∈ rest' <-> x = nn \/ x ∈ rest) /\
     free_range p rest (blo p base) (bhi p base sz - blo p base)).
Proof.
  intros nn. destruct (alloc2_run p head rest base sz I Hpos Hbase Hsz Hend Htop a)
    as [N|(passed & e & next & R & Pl)]; [by left|right]. fold nn in R, Pl.
  destruct (insert_inv p head rest passed e nn next I Pl Hf) as (rest' & E & I' & M).
  exists (with_chain p (head :: rest')), rest'. rewrite R, E. split; [done|]. split; [done|]. split; [done|].
  pose proof (pl_ok _ _ _ _ _ _ _ Pl) as [O1 O2 O3]. unfold fin in O3. simpl in O1, O2, O3.
  split; [done|]. split; [lia|]. intros x Hx.
  destruct (inv_disjoint _ _ _ nn x I') as [H|H]; [apply M; by left|apply M; by right| | |by right].
  - intros C. apply Hf. simpl in C. rewrite C. apply list_elem_of_fmap_2. set_solver.
  - left. unfold fin in H. simpl in H. lia.
Qed.

(** C38. freeing. Freeing an entry removes it and nothing else and keeps the invariant; freeing what
    was just allocated restores the pool exactly; freeing NULL, or an entry whose pool is not set, does
    nothing; a pointer with its pool set that is not in the list of the pool, such as the head of the
    list, panics. *)
Theorem tee_mm_free_spec p head rest (I : pool_inv p head rest) :
  (forall x, x ∈ rest -> exists rest', tee_mm_free (entry_ptr x) p = (Ret tt, with_chain p (head :: rest')) /\
     pool_inv (with_chain p (head :: rest')) head rest' /\ rest ≡ₚ x :: rest') /\
  (forall a, a ∉ eid <$> rest -> tee_mm_free (Some (a, true)) p = (Panic, p)) /\
  tee_mm_free None p = (Ret tt, p) /\ (forall a, tee_mm_free (Some (a, false)) p = (Ret tt, p)) /\
  (forall a sz nn p', is_u 64 sz -> a ∉ eid <$> head :: rest ->
     tee_mm_alloc (Some a) sz p = (Ret (Some nn), p') -> tee_mm_free (entry_ptr nn) p' = (Ret tt, p)).
Proof.
  split; [|split; [|split; [|split]]].
  - intros x Hx. by apply free_entry.
  - intros a Ha. unfold tee_mm_free, entry_ptr. rewrite (bind_run _ _ _ p p) by done. rewrite (pi_chain _ _ _ I).
    by destruct (scan_node_none a head rest Ha) as (q & e' & ->).
  - done.
  - done.
  - intros a sz nn p' Hsz Ha R. assert (alloc_post p head rest a sz) as Post
      by (destruct (hi_alloc p) eqn:Hhi; [by apply alloc_hi | by apply alloc_lo]).
    unfold tee_mm_alloc in R. destruct Post as [[N _]|(passed & e & next & nn' & R' & Ea & Es & Pl)]; [congruence|].
    rewrite R in R'. injection R' as <- ->. rewrite <- Ea in Ha.
    destruct (insert_inv p head rest passed e nn next I Pl Ha) as (rest' & E & I' & M). rewrite E.
    rewrite (free_run _ head rest' passed e nn next I') by done. rewrite <- (pl_split _ _ _ _ _ _ _ Pl).
    rewrite <- (pi_chain _ _ _ I). by destruct p.
Qed.

Lemma find_some (f : tee_mm_entry -> bool) l x : List.find f l = Some x -> x ∈ l /\ f x = true.
Proof. intros H. apply List.find_some in H as [H1 H2]. by rewrite list_elem_of_In. Qed.

(** looking up an address. In a pool of at most 65536 blocks, [tee_mm_find] returns the entry
    that covers the address's block, if there is one, and NULL otherwise; addresses outside the pool
    give NULL. *)
Theorem tee_mm_find_spec p head rest addr
    (I : pool_inv p head rest) (Hnb : nb p <= 65536) :
  exists r, tee_mm_find p addr = Ret r /\
    match r with
    | Some e => e ∈ rest /\ tee_mm_addr_is_within_range p addr = true /\
                offset e <= Z.shiftr (addr - lo p) (shift p) < fin e
    | None => tee_mm_addr_is_within_range p addr = false \/
              (forall e, e ∈ rest -> ~ (offset e <= Z.shiftr (addr - lo p) (shift p) < fin e))
    end.
Proof.
  unfold tee_mm_find. rewrite (pi_chain _ _ _ I).
  destruct (tee_mm_addr_is_within_range p addr) eqn:R; cbn [negb]; [|by exists None; split; [|left]].
  destruct (block_range p addr (pi_geo _ _ _ I) R) as [Eb Hb]. rewrite Eb, (uwrap_small 16) by (unfold is_u; lia).
  eexists. split; [reflexivity|]. set (b := Z.shiftr (addr - lo p) (shift p)) in *.
  assert (forall e, e ∈ rest -> u32 (offset e + size e) = fin e) as Hf.
  { intros e He. destruct (inv_entry _ _ _ _ I (list_elem_of_further _ _ _ He)) as [E1 E2 E3].
    pose proof (nb_range _ (pi_geo _ _ _ I)) as [? _]. apply uwrap_small. unfold is_u, fin in *. lia. }
  destruct (List.find _ rest) as [e|] eqn:F.
  - apply find_some in F as [He Ht]. rewrite Hf in Ht by done. bool_hyps. done.
  - right. intros e He [B1 B2]. pose proof (List.find_none _ _ F e) as N. simpl in N.
    rewrite Hf, (proj2 (Z.leb_le _ _)), (proj2 (Z.ltb_lt _ _)) in N by done. discriminate N. by apply list_elem_of_In.
Qed.

Lemma tee_mm_find_truncates :
  let p := mk_pool [mk_entry 1 0 0; mk_entry 2 65536 1] 0x40000000 (131072 * 4096) false 12 in
  pool_inv p (mk_entry 1 0 0) [mk_entry 2 65536 1] /\
  tee_mm_find p (tee_mm_get_smem p (mk_entry 2 65536 1)) = Ret None.
Proof.
  split; [|vm_compute; done].
  split; [split; vm_compute; intuition congruence | done | done | repeat constructor; done | | ].
  - repeat constructor; vm_compute; done.
  - vm_compute. apply NoDup_ListNoDup. repeat constructor; simpl; lia.
Qed.

(** where the machine widths of the pool's arithmetic stop being enough. In a pool of 131072
    pages with the single entry at page 65536, the entry's own address is not found: the block
    offset is truncated to 16 bits. And [tee_mm_init] accepts an 8 GiB pool, but the end of the
    last entry is computed in 32 bits: after an allocation of 4 GiB a second one of 8 GiB is
    granted, which ends 4 GiB past the end of the pool. *)
Theorem tee_mm_width_limits st :
  (let p := mk_pool [mk_entry 1 0 0; mk_entry 2 65536 1] 0x40000000 (131072 * 4096) false 12 in
   pool_inv p (mk_entry 1 0 0) [mk_entry 2 65536 1] /\
   tee_mm_find p (tee_mm_get_smem p (mk_entry 2 65536 1)) = Ret None) /\
  exists p1 p2 p3 e1 e2, tee_mm_init (Some 1) 0x100000000 (2 ^ 33) 12 false st = (Ret true, p1) /\
    tee_mm_alloc (Some 2) (2 ^ 32) p1 = (Ret (Some e1), p2) /\
    tee_mm_alloc (Some 3) (2 ^ 33) p2 = (Ret (Some e2), p3) /\
    fin e2 * 4096 = psz p3 + 2 ^ 32.
Proof.
  split; [exact tee_mm_find_truncates|].
  do 5 eexists. repeat (split; [vm_compute; reflexivity|]). vm_compute. done.
Qed.

(** ** Witnesses *)

(** Ten pages at 1 MiB; entries at pages 0-1 and 4-6. *)
Definition ex_head : tee_mm_entry := mk_entry 1 0 0.
Definition ex_rest : list tee_mm_entry := [mk_entry 2 0 2; mk_entry 3 4 3].
Definition ex_pool : tee_mm_pool := mk_pool (ex_head :: ex_rest) 0x100000 (10 * 4096) false 12.

Lemma ex_pool_inv : pool_inv ex_pool ex_head ex_rest.
Proof.
  split; [split; vm_compute; intuition congruence | done | done | repeat constructor; done | | ].
  - repeat constructor; vm_compute; done.
  - vm_compute. apply NoDup_ListNoDup. repeat constructor; simpl; lia.
Qed.

Lemma ex_fresh a : 3 < a -> a ∉ eid <$> ex_head :: ex_rest.
Proof. intros Ha. unfold ex_head, ex_rest. simpl. rewrite !not_elem_of_cons. repeat split; [lia..|apply not_elem_of_nil]. Qed.

Lemma tee_mm_alloc_spec_witness :
  (tee_mm_alloc (Some 9) 5000 ex_pool = (Ret None, ex_pool) /\ forall o, ~ free_range ex_pool ex_rest o (blocks ex_pool 5000)) \/
  (exists nn p' rest', tee_mm_alloc (Some 9) 5000 ex_pool = (Ret (Some nn), p') /\ pool_inv p' ex_head rest' /\
     (forall x, x ∈ rest' <-> x = nn \/ x ∈ ex_rest) /\ 5000 <= tee_mm_get_bytes p' nn /\
     lo ex_pool <= tee_mm_get_smem p' nn /\
     tee_mm_get_smem p' nn + tee_mm_get_bytes p' nn <= lo ex_pool + psz ex_pool /\
     (forall x, x ∈ ex_rest -> fin nn <= offset x \/ fin x <= offset nn)).
Proof.
  apply (tee_mm_alloc_spec ex_pool ex_head ex_rest 9 5000);
    [apply ex_pool_inv | unfold is_u; lia | apply ex_fresh; lia].
Defined.

Lemma tee_mm_alloc2_spec_witness :
  let nn := mk_entry 9 (blo ex_pool 0x102000) (bhi ex_pool 0x102000 100 - blo ex_pool 0x102000) in
  (tee_mm_alloc2 (Some 9) 0x102000 100 ex_pool = (Ret None, ex_pool) /\
     ~ free_range ex_pool ex_rest (blo ex_pool 0x102000) (bhi ex_pool 0x102000 100 - blo ex_pool 0x102000)) \/
  (exists p' rest', tee_mm_alloc2 (Some 9) 0x102000 100 ex_pool = (Ret (Some nn), p') /\ pool_inv p' ex_head rest' /\
     (forall x, x ∈ rest' <-> x = nn \/ x ∈ ex_rest) /\
     free_range ex_pool ex_rest (blo ex_pool 0x102000) (bhi ex_pool 0x102000 100 - blo ex_pool 0x102000)).
Proof.
  apply (tee_mm_alloc2_spec ex_pool ex_head ex_rest 9 0x102000 100);
    [apply ex_pool_inv | | simpl; lia | lia | lia | simpl; lia | apply ex_fresh; lia].
  intros x Hx. unfold ex_rest in Hx. apply elem_of_cons in Hx as [->|Hx]; [simpl; lia|].
  apply elem_of_cons in Hx as [->|Hx]; [simpl; lia | by apply not_elem_of_nil in Hx].
Defined.

Lemma tee_mm_free_spec_witness :
  exists rest', tee_mm_free (Some (3, true)) ex_pool = (Ret tt, with_chain ex_pool (ex_head :: rest')) /\
    pool_inv (with_chain ex_pool (ex_head :: rest')) ex_head rest' /\ ex_rest ≡ₚ mk_entry 3 4 3 :: rest'.
Proof.
  apply (proj1 (tee_mm_free_spec ex_pool ex_head ex_rest ex_pool_inv) (mk_entry 3 4 3)).
  unfold ex_rest. set_solver.
Defined.

Lemma tee_mm_find_spec_witness :
  exists r, tee_mm_find ex_pool 0x105010 = Ret r /\
    match r with
    | Some e => e ∈ ex_rest /\ tee_mm_addr_is_within_range ex_pool 0x105010 = true /\
                offset e <= Z.shiftr (0x105010 - lo ex_pool) (shift ex_pool) < fin e
    | None => tee_mm_addr_is_within_range ex_pool 0x105010 = false \/
              (forall e, e ∈ ex_rest -> ~ (offset e <= Z.shiftr (0x105010 - lo ex_pool) (shift ex_pool) < fin e))
    end.
Proof. apply (tee_mm_find_spec ex_pool ex_head ex_rest 0x105010); [apply ex_pool_inv | vm_compute; congruence]. Defined.
