(* ===== verification/Bitstring.v ===== *)
(** * Bit strings

    The macros of optee_os/lib/libutils/ext/include/bitstring.h on arrays of bytes, and what they do
    to the bits. [None] is an access outside the array. *)
From S2P Require Import Prelude.
Local Open Scope Z_scope.

Abbreviation bitstr := (list Z).

Definition _bit_byte (bit : Z) : Z := Z.shiftr bit 3.
Definition _bit_mask (bit : Z) : Z := Z.shiftl 1 (Z.land bit 7).
Definition bitstr_size (nbits : Z) : Z := Z.shiftr (nbits + 7) 3.

Definition byte_at (name : bitstr) (i : Z) : option Z := if 0 <=? i then name !! Z.to_nat i else None.

(** [name[i] = f(name[i])] *)
Definition upd (name : bitstr) (i : Z) (f : Z -> Z) : option bitstr :=
  match byte_at name i with
  | Some b => Some (<[Z.to_nat i := u8 (f b)]> name)
  | None => None
  end.

Definition bit_test (name : bitstr) (bit : Z) : option bool :=
  match byte_at name (_bit_byte bit) with
  | Some b => Some (negb (Z.land b (_bit_mask bit) =? 0))
  | None => None
  end.

Definition bit_set (name : bitstr) (bit : Z) : option bitstr :=
  upd name (_bit_byte bit) (fun b => Z.lor b (_bit_mask bit)).

Definition bit_clear (name : bitstr) (bit : Z) : option bitstr :=
  upd name (_bit_byte bit) (fun b => Z.land b (Z.lnot (_bit_mask bit))).

(** [while (++i < stop) name[i] = v;], [k] iterations *)
Fixpoint fill_bytes (k : nat) (name : bitstr) (i v : Z) : option bitstr :=
  match k with
  | O => Some name
  | S k' => match upd name (i + 1) (fun _ => v) with
            | Some n' => fill_bytes k' n' (i + 1) v
            | None => None
            end
  end.

Definition bit_nclear (name : bitstr) (start stop : Z) : option bitstr :=
  let sb := _bit_byte start in
  let eb := _bit_byte stop in
  if sb =? eb
  then upd name sb (fun b => Z.land b (Z.lor (Z.shiftr 255 (8 - Z.land start 7))
                                             (Z.shiftl 255 (Z.land stop 7 + 1))))
  else
    match upd name sb (fun b => Z.land b (Z.shiftr 255 (8 - Z.land start 7))) with
    | None => None
    | Some n1 =>
        match fill_bytes (Z.to_nat (eb - sb - 1)) n1 sb 0 with
        | None => None
        | Some n2 => upd n2 eb (fun b => Z.land b (Z.shiftl 255 (Z.land stop 7 + 1)))
        end
    end.

(** [for (_lb = b; _lb & 1; ++value, _lb >>= 1);]: a byte that is not 0xff has a clear bit, so eight
    iterations are enough. *)
Fixpoint skip_ones (k : nat) (lb value : Z) : Z :=
  match k with
  | O => value
  | S k' => if negb (Z.land lb 1 =? 0) then skip_ones k' (Z.shiftr lb 1) (value + 1) else value
  end.

Fixpoint ffc_bytes (k : nat) (name : bitstr) (byte : Z) : option Z :=
  match k with
  | O => Some (-1)
  | S k' => match byte_at name byte with
            | None => None
            | Some b => if negb (b =? 255) then Some (skip_ones 8 b (Z.shiftl byte 3))
                        else ffc_bytes k' name (byte + 1)
            end
  end.

Definition bit_ffc (name : bitstr) (nbits : Z) : option Z :=
  match (if nbits >? 0 then ffc_bytes (Z.to_nat (_bit_byte (nbits - 1) + 1)) name 0 else Some (-1)) with
  | None => None
  | Some value => Some (if nbits <=? value then -1 else value)
  end.

Fixpoint skip_zeros (k : nat) (lb value : Z) : Z :=
  match k with
  | O => value
  | S k' => if Z.land lb 1 =? 0 then skip_zeros k' (Z.shiftr lb 1) (value + 1) else value
  end.

Fixpoint ffs_bytes (k : nat) (name : bitstr) (byte mask : Z) : option Z :=
  match k with
  | O => Some (-1)
  | S k' => match byte_at name byte with
            | None => None
            | Some b => if negb (Z.land b mask =? 0) then Some (skip_zeros 8 (Z.land b mask) (Z.shiftl byte 3))
                        else ffs_bytes k' name (byte + 1) 255
            end
  end.

Definition bit_ffs_from (name : bitstr) (nbits startbit : Z) : option Z :=
  match (if nbits >? 0
         then ffs_bytes (Z.to_nat (_bit_byte (nbits - 1) - _bit_byte startbit + 1)) name
                (_bit_byte startbit) (u8 (Z.shiftl 255 (Z.rem startbit 8)))
         else Some (-1)) with
  | None => None
  | Some value => Some (if nbits <=? value then -1 else value)
  end.

Definition bit_ffs (name : bitstr) (nbits : Z) : option Z := bit_ffs_from name nbits 0.

(** ** Bits *)

(** Bit [i] of the array. *)
Definition bit_at (name : bitstr) (i : Z) : bool :=
  match byte_at name (i / 8) with Some b => Z.testbit b (i mod 8) | None => false end.

Lemma bit_byte_div i : _bit_byte i = i / 8.
Proof. unfold _bit_byte. by rewrite Z.shiftr_div_pow2. Qed.

Lemma land7 i : Z.land i 7 = i mod 8.
Proof. change 7 with (Z.ones 3). by rewrite Z.land_ones. Qed.

Lemma mask_pow i : _bit_mask i = 2 ^ (i mod 8).
Proof. unfold _bit_mask. rewrite land7, Z.shiftl_1_l. done. Qed.

Lemma byte_at_in name i : 0 <= i < lenZ name -> exists b, byte_at name i = Some b /\ name !! Z.to_nat i = Some b.
Proof.
  intros Hi. unfold byte_at. rewrite (proj2 (Z.leb_le 0 i)) by lia.
  destruct (lookup_lt_is_Some_2 name (Z.to_nat i)) as [b Hb]; [unfold lenZ in *; lia|]. eauto.
Qed.

Lemma bitstr_size_ge n i : 0 <= i < n -> i / 8 < bitstr_size n.
Proof. intros. unfold bitstr_size. rewrite Z.shiftr_div_pow2 by lia. change (2 ^ 3) with 8. Z.div_mod_to_equations. lia. Qed.

(** The effect of [upd] on the bits. *)
Lemma upd_bits name i f : 0 <= i < lenZ name -> exists b name', upd name i f = Some name' /\
  byte_at name i = Some b /\ lenZ name' = lenZ name /\
  (forall j, 0 <= j -> bit_at name' j = if j / 8 =? i then Z.testbit (f b) (j mod 8) else bit_at name j).
Proof.
  intros Hi. destruct (byte_at_in name i Hi) as (b & Eb & El). unfold upd. rewrite Eb.
  exists b. eexists. split; [reflexivity|]. split; [done|]. split; [unfold lenZ; by rewrite length_insert|].
  intros j Hj. unfold bit_at, byte_at. rewrite (proj2 (Z.leb_le 0 (j / 8))) by (apply Z.div_pos; lia).
  destruct (j / 8 =? i) eqn:E; bool_hyps.
  - rewrite E. rewrite list_lookup_insert_eq by (unfold lenZ in *; lia). unfold uwrap.
    rewrite Z.mod_pow2_bits_low; [done|]. pose proof (Z.mod_pos_bound j 8 ltac:(lia)). lia.
  - rewrite list_lookup_insert_ne; [done|]. intros C. apply E.
    pose proof (Z.div_pos j 8 ltac:(lia) ltac:(lia)). apply Z2Nat.inj; lia.
Qed.

Lemma same_bit i j : i / 8 = j / 8 -> (i = j <-> i mod 8 = j mod 8).
Proof. intros E. pose proof (Z.div_mod i 8). pose proof (Z.div_mod j 8). lia. Qed.

Lemma bit_test_spec name i : 0 <= i < 8 * lenZ name -> bit_test name i = Some (bit_at name i).
Proof.
  intros Hi. unfold bit_test, bit_at. rewrite bit_byte_div.
  destruct (byte_at_in name (i / 8)) as (b & -> & _);
    [split; [apply Z.div_pos; lia | apply Z.div_lt_upper_bound; lia]|].
  f_equal. rewrite mask_pow. pose proof (Z.mod_pos_bound i 8 ltac:(lia)) as Hm.
  destruct (Z.testbit b (i mod 8)) eqn:T; [apply negb_true_iff, Z.eqb_neq | apply negb_false_iff, Z.eqb_eq].
  - intros C. apply (f_equal (fun z => Z.testbit z (i mod 8))) in C.
    rewrite Z.land_spec, T, Z.pow2_bits_true, Z.bits_0 in C by lia. done.
  - apply Z.bits_inj'. intros n Hn. rewrite Z.land_spec, Z.bits_0, Z.pow2_bits_eqb by lia.
    destruct (Z.eqb_spec (i mod 8) n); subst; rewrite ?T; [done | apply andb_false_r].
Qed.

Lemma bit_set_spec name i : 0 <= i < 8 * lenZ name -> exists name', bit_set name i = Some name' /\
  lenZ name' = lenZ name /\ forall j, 0 <= j -> bit_at name' j = (j =? i) || bit_at name j.
Proof.
  intros Hi. unfold bit_set. rewrite bit_byte_div, mask_pow.
  destruct (upd_bits name (i / 8) (fun b => Z.lor b (2 ^ (i mod 8)))) as (b & n' & U & Eb & L & B);
    [split; [apply Z.div_pos; lia | apply Z.div_lt_upper_bound; lia]|].
  exists n'. split; [done|]. split; [done|]. intros j Hj. rewrite B by done.
  pose proof (Z.mod_pos_bound i 8 ltac:(lia)). pose proof (Z.mod_pos_bound j 8 ltac:(lia)).
  destruct (j / 8 =? i / 8) eqn:E; bool_hyps.
  - rewrite Z.lor_spec, Z.pow2_bits_eqb by lia. unfold bit_at. rewrite E, Eb.
    pose proof (same_bit j i E). rewrite orb_comm. f_equal.
    destruct (Z.eqb_spec (i mod 8) (j mod 8)), (Z.eqb_spec j i); done || lia.
  - destruct (Z.eqb_spec j i); [subst; done|]. done.
Qed.

Lemma bit_clear_spec name i : 0 <= i < 8 * lenZ name -> exists name', bit_clear name i = Some name' /\
  lenZ name' = lenZ name /\ forall j, 0 <= j -> bit_at name' j = negb (j =? i) && bit_at name j.
Proof.
  intros Hi. unfold bit_clear. rewrite bit_byte_div, mask_pow.
  destruct (upd_bits name (i / 8) (fun b => Z.land b (Z.lnot (2 ^ (i mod 8))))) as (b & n' & U & Eb & L & B);
    [split; [apply Z.div_pos; lia | apply Z.div_lt_upper_bound; lia]|].
  exists n'. split; [done|]. split; [done|]. intros j Hj. rewrite B by done.
  pose proof (Z.mod_pos_bound i 8 ltac:(lia)). pose proof (Z.mod_pos_bound j 8 ltac:(lia)).
  destruct (j / 8 =? i / 8) eqn:E; bool_hyps.
  - rewrite Z.land_spec, Z.lnot_spec, Z.pow2_bits_eqb by lia. unfold bit_at. rewrite E, Eb.
    pose proof (same_bit j i E). rewrite andb_comm. f_equal. f_equal.
    destruct (Z.eqb_spec (i mod 8) (j mod 8)), (Z.eqb_spec j i); done || lia.
  - destruct (Z.eqb_spec j i); [subst; done|]. done.
Qed.

Lemma testbit_255 k : 0 <= k -> Z.testbit 255 k = (k <? 8).
Proof. intros. change 255 with (Z.ones 8). apply Z.testbit_ones_nonneg; lia. Qed.

Lemma low_mask s j : 0 <= s < 8 -> 0 <= j < 8 -> Z.testbit (Z.shiftr 255 (8 - s)) j = (j <? s).
Proof.
  intros. rewrite Z.shiftr_spec by lia. rewrite testbit_255 by lia.
  destruct (Z.ltb_spec j s), (Z.ltb_spec (j + (8 - s)) 8); done || lia.
Qed.

Lemma high_mask e j : 0 <= e < 8 -> 0 <= j < 8 -> Z.testbit (Z.shiftl 255 (e + 1)) j = (e <? j).
Proof.
  intros. rewrite Z.shiftl_spec by lia. destruct (Z.ltb_spec e j).
  - rewrite testbit_255 by lia. apply Z.ltb_lt. lia.
  - by rewrite Z.testbit_neg_r by lia.
Qed.

Lemma fill_bytes_spec k name i v : -1 <= i -> i + Z.of_nat k < lenZ name ->
  exists name', fill_bytes k name i v = Some name' /\ lenZ name' = lenZ name /\
    forall j, 0 <= j -> bit_at name' j =
      if (i <? j / 8) && (j / 8 <=? i + Z.of_nat k) then Z.testbit v (j mod 8) else bit_at name j.
Proof.
  revert name i. induction k as [|k IH]; intros name i Hi Hk; simpl.
  - exists name. split; [done|]. split; [done|]. intros j Hj.
    destruct (Z.ltb_spec i (j / 8)), (Z.leb_spec (j / 8) (i + Z.of_nat 0)); done || lia.
  - destruct (upd_bits name (i + 1) (fun _ => v)) as (b & n1 & -> & _ & L1 & B1); [lia|].
    destruct (IH n1 (i + 1)) as (n2 & -> & L2 & B2); [lia..|].
    exists n2. split; [done|]. split; [lia|]. intros j Hj. rewrite B2, B1 by done.
    destruct (Z.ltb_spec (i + 1) (j / 8)), (Z.leb_spec (j / 8) (i + 1 + Z.of_nat k)),
      (Z.ltb_spec i (j / 8)), (Z.leb_spec (j / 8) (i + Z.of_nat (S k))), (Z.eqb_spec (j / 8) (i + 1)); done || lia.
Qed.

Lemma bit_nclear_spec name start stop : 0 <= start <= stop -> stop < 8 * lenZ name ->
  exists name', bit_nclear name start stop = Some name' /\ lenZ name' = lenZ name /\
    forall j, 0 <= j -> bit_at name' j = negb ((start <=? j) && (j <=? stop)) && bit_at name j.
Proof.
  intros Hs He. unfold bit_nclear. rewrite !bit_byte_div, !land7.
  pose proof (Z.mod_pos_bound start 8 ltac:(lia)) as Ms. pose proof (Z.mod_pos_bound stop 8 ltac:(lia)) as Me.
  pose proof (Z.div_mod start 8 ltac:(lia)) as Ds. pose proof (Z.div_mod stop 8 ltac:(lia)) as De.
  assert (0 <= start / 8 <= stop / 8) as Hd by (split; [apply Z.div_pos; lia | apply Z.div_le_mono; lia]).
  assert (stop / 8 < lenZ name) as Hl by (apply Z.div_lt_upper_bound; lia).
  destruct (Z.eqb_spec (start / 8) (stop / 8)) as [Es|Es].
  - destruct (upd_bits name (start / 8) (fun b => Z.land b (Z.lor (Z.shiftr 255 (8 - start mod 8))
      (Z.shiftl 255 (stop mod 8 + 1))))) as (b & n' & -> & Eb & L & B); [lia|].
    exists n'. split; [done|]. split; [done|]. intros j Hj. rewrite B by done.
    pose proof (Z.mod_pos_bound j 8 ltac:(lia)) as Mj. pose proof (Z.div_mod j 8 ltac:(lia)) as Dj.
    destruct (Z.eqb_spec (j / 8) (start / 8)) as [Ej|Ej].
    + rewrite Z.land_spec, Z.lor_spec, low_mask, high_mask by lia. unfold bit_at. rewrite Ej, Eb.
      rewrite andb_comm. f_equal.
      destruct (Z.ltb_spec (j mod 8) (start mod 8)), (Z.ltb_spec (stop mod 8) (j mod 8)),
        (Z.leb_spec start j), (Z.leb_spec j stop); done || lia.
    + destruct (Z.leb_spec start j), (Z.leb_spec j stop); try done. exfalso. apply Ej.
      pose proof (Z.div_le_mono start j 8). pose proof (Z.div_le_mono j stop 8). lia.
  - destruct (upd_bits name (start / 8) (fun b => Z.land b (Z.shiftr 255 (8 - start mod 8))))
      as (b & n1 & -> & Eb & L1 & B1); [lia|].
    destruct (fill_bytes_spec (Z.to_nat (stop / 8 - start / 8 - 1)) n1 (start / 8) 0) as (n2 & -> & L2 & B2); [lia..|].
    destruct (upd_bits n2 (stop / 8) (fun b => Z.land b (Z.shiftl 255 (stop mod 8 + 1))))
      as (b3 & n3 & -> & Eb3 & L3 & B3); [lia|].
    exists n3. split; [done|]. split; [lia|]. intros j Hj. rewrite B3 by done.
    pose proof (Z.mod_pos_bound j 8 ltac:(lia)) as Mj. pose proof (Z.div_mod j 8 ltac:(lia)) as Dj.
    destruct (Z.eqb_spec (j / 8) (stop / 8)) as [Ej|Ej].
    + assert (bit_at n2 j = bit_at name j) as Ek.
      { rewrite B2, B1 by done. destruct (Z.ltb_spec (start / 8) (j / 8)), (Z.leb_spec (j / 8) (start / 8 + Z.of_nat (Z.to_nat (stop / 8 - start / 8 - 1)))),
          (Z.eqb_spec (j / 8) (start / 8)); done || lia. }
      rewrite Z.land_spec, high_mask, <- Ek by lia. unfold bit_at. rewrite Ej, Eb3. rewrite andb_comm. f_equal.
      destruct (Z.ltb_spec (stop mod 8) (j mod 8)), (Z.leb_spec start j), (Z.leb_spec j stop); done || lia.
    + rewrite B2 by done.
      destruct (Z.ltb_spec (start / 8) (j / 8)), (Z.leb_spec (j / 8) (start / 8 + Z.of_nat (Z.to_nat (stop / 8 - start / 8 - 1))));
        simpl; rewrite ?Z.bits_0, ?B1 by done.
      * destruct (Z.leb_spec start j), (Z.leb_spec j stop); done || lia.
      * destruct (Z.eqb_spec (j / 8) (start / 8)); [lia|]. destruct (Z.leb_spec start j), (Z.leb_spec j stop); done || lia.
      * destruct (Z.eqb_spec (j / 8) (start / 8)) as [Ej2|]; [|destruct (Z.leb_spec start j), (Z.leb_spec j stop); done || lia].
        rewrite Z.land_spec, low_mask by lia. unfold bit_at. rewrite Ej2, Eb. rewrite andb_comm. f_equal.
        destruct (Z.ltb_spec (j mod 8) (start mod 8)), (Z.leb_spec start j), (Z.leb_spec j stop); done || lia.
      * lia.
Qed.

Lemma testbit_0 b : negb (Z.land b 1 =? 0) = Z.testbit b 0.
Proof.
  rewrite Z.bit0_odd. change 1 with (Z.ones 1). rewrite Z.land_ones by lia. change (2 ^ 1) with 2.
  rewrite Zodd_mod. destruct (Z.mod_pos_bound b 2); [lia|].
  destruct (Z.eqb_spec (b mod 2) 0), (Zeq_bool (b mod 2) 1) eqn:E; try done; [apply Zeq_bool_eq in E; lia|].
  apply Zeq_bool_neq in E. lia.
Qed.

Lemma skip_ones_spec k b v : exists t, skip_ones k b v = v + t /\ 0 <= t <= Z.of_nat k /\
  (forall j, 0 <= j < t -> Z.testbit b j = true) /\ (t < Z.of_nat k -> Z.testbit b t = false).
Proof.
  revert b v. induction k as [|k IH]; intros b v; simpl.
  - exists 0. split; [lia|]. split; [lia|]. split; [lia|lia].
  - rewrite testbit_0. destruct (Z.testbit b 0) eqn:E.
    + destruct (IH (Z.shiftr b 1) (v + 1)) as (t & -> & Ht & H1 & H2). exists (t + 1). split; [lia|]. split; [lia|]. split.
      * intros j Hj. destruct (decide (j = 0)) as [->|]; [done|]. specialize (H1 (j - 1) ltac:(lia)).
        rewrite Z.shiftr_spec in H1 by lia. by rewrite Z.sub_add in H1.
      * intros Hk. specialize (H2 ltac:(lia)). by rewrite Z.shiftr_spec in H2 by lia.
    + exists 0. split; [lia|]. split; [lia|]. split; [lia|done].
Qed.

Lemma skip_zeros_spec k b v : exists t, skip_zeros k b v = v + t /\ 0 <= t <= Z.of_nat k /\
  (forall j, 0 <= j < t -> Z.testbit b j = false) /\ (t < Z.of_nat k -> Z.testbit b t = true).
Proof.
  revert b v. induction k as [|k IH]; intros b v; simpl.
  - exists 0. split; [lia|]. split; [lia|]. split; [lia|lia].
  - pose proof (testbit_0 b) as E0. destruct (Z.land b 1 =? 0) eqn:E; simpl in E0.
    + destruct (IH (Z.shiftr b 1) (v + 1)) as (t & -> & Ht & H1 & H2). exists (t + 1). split; [lia|]. split; [lia|]. split.
      * intros j Hj. destruct (decide (j = 0)) as [->|]; [done|]. specialize (H1 (j - 1) ltac:(lia)).
        rewrite Z.shiftr_spec in H1 by lia. by rewrite Z.sub_add in H1.
      * intros Hk. specialize (H2 ltac:(lia)). by rewrite Z.shiftr_spec in H2 by lia.
    + exists 0. split; [lia|]. split; [lia|]. split; [lia|done].
Qed.

(** A byte with all eight bits set is 0xff; a byte with none set is 0. *)
Lemma byte_bits b : byte_ok b -> (forall j, 8 <= j -> Z.testbit b j = false).
Proof. intros [H1 H2] j Hj. apply (proj1 (Z.bounded_iff_bits_nonneg 8 b ltac:(lia) H1) H2). done. Qed.

Lemma byte_full b : byte_ok b -> (forall j, 0 <= j < 8 -> Z.testbit b j = true) -> b = 255.
Proof.
  intros Hb H. apply Z.bits_inj'. intros n Hn. rewrite testbit_255 by done.
  destruct (Z.ltb_spec n 8); [by apply H | by apply byte_bits].
Qed.

Lemma byte_zero b : byte_ok b -> (forall j, 0 <= j < 8 -> Z.testbit b j = false) -> b = 0.
Proof.
  intros Hb H. apply Z.bits_inj'. intros n Hn. rewrite Z.bits_0.
  destruct (Z.ltb_spec n 8); [by apply H | by apply byte_bits].
Qed.

Lemma bit_at_byte name i b t : byte_at name i = Some b -> 0 <= t < 8 -> bit_at name (8 * i + t) = Z.testbit b t.
Proof.
  intros Hb Ht. unfold bit_at.
  replace ((8 * i + t) / 8) with i by (apply (Z.div_unique _ _ _ t); lia).
  replace ((8 * i + t) mod 8) with t by (apply (Z.mod_unique _ _ i); lia). by rewrite Hb.
Qed.

(** The result of a search among the bits below [nbits]. *)
Definition first_bit (name : bitstr) (v : bool) (lo nbits r : Z) : Prop :=
  (r = -1 /\ forall j, lo <= j < nbits -> bit_at name j = negb v) \/
  (lo <= r < nbits /\ bit_at name r = v /\ forall j, lo <= j < r -> bit_at name j = negb v).

Lemma ffc_bytes_spec k name i : bytes_ok name -> 0 <= i -> i + Z.of_nat k <= lenZ name ->
  exists r, ffc_bytes k name i = Some r /\ first_bit name false (8 * i) (8 * (i + Z.of_nat k)) r.
Proof.
  intros Hok. revert i. induction k as [|k IH]; intros i Hi Hk; cbn [ffc_bytes].
  - exists (-1). split; [done|]. left. split; [done|]. lia.
  - destruct (byte_at_in name i) as (b & Eb & El); [lia|]. rewrite Eb.
    assert (byte_ok b) as Hb by (by apply (Forall_lookup_1 _ _ _ _ Hok El)).
    destruct (Z.eqb_spec b 255) as [->|Hne]; cbn [negb].
    + destruct (IH (i + 1)) as (r & -> & F); [lia..|]. exists r. split; [done|].
      assert (forall j, 8 * i <= j < 8 * (i + 1) -> bit_at name j = true) as Hfull.
      { intros j Hj. replace j with (8 * i + (j - 8 * i)) by lia. rewrite (bit_at_byte _ _ 255) by (done || lia).
        rewrite testbit_255 by lia. apply Z.ltb_lt. lia. }
      destruct F as [[-> F]|(F1 & F2 & F3)]; [left|right].
      * split; [done|]. intros j Hj. destruct (decide (j < 8 * (i + 1))); [apply Hfull; lia | apply F; lia].
      * split; [lia|]. split; [done|]. intros j Hj. destruct (decide (j < 8 * (i + 1))); [apply Hfull; lia | apply F3; lia].
    + destruct (skip_ones_spec 8 b (Z.shiftl i 3)) as (t & -> & Ht & H1 & H2).
      rewrite Z.shiftl_mul_pow2 by lia. eexists. split; [reflexivity|].
      assert (t < 8) as Ht8.
      { destruct (decide (t < 8)); [done|]. exfalso. apply Hne, byte_full; [done|]. intros. apply H1. lia. }
      right. replace (i * 2 ^ 3 + t) with (8 * i + t) by lia. split; [lia|]. split.
      * rewrite (bit_at_byte _ _ b) by (done || lia). apply H2. lia.
      * intros j Hj. replace j with (8 * i + (j - 8 * i)) by lia. rewrite (bit_at_byte _ _ b) by (done || lia).
        apply H1. lia.
Qed.

Lemma bit_ffc_spec name nbits : bytes_ok name -> 0 <= nbits <= 8 * lenZ name ->
  exists r, bit_ffc name nbits = Some r /\ first_bit name false 0 nbits r.
Proof.
  intros Hok Hn. unfold bit_ffc. destruct (nbits >? 0) eqn:E.
  - rewrite bit_byte_div. assert (0 <= (nbits - 1) / 8 < lenZ name) as Hd
      by (split; [apply Z.div_pos; lia | apply Z.div_lt_upper_bound; lia]).
    destruct (ffc_bytes_spec (Z.to_nat ((nbits - 1) / 8 + 1)) name 0 Hok) as (r & -> & F); [lia..|].
    pose proof (Z.div_mod (nbits - 1) 8 ltac:(lia)) as D. pose proof (Z.mod_pos_bound (nbits - 1) 8 ltac:(lia)).
    eexists. split; [reflexivity|]. destruct F as [[-> F]|(F1 & F2 & F3)].
    + rewrite (proj2 (Z.leb_gt nbits (-1))) by lia. left. split; [done|]. intros. apply F. lia.
    + destruct (Z.leb_spec nbits r); [left|right].
      * split; [done|]. intros. apply F3. lia.
      * split; [lia|]. split; [done|]. intros. apply F3. lia.
  - exists (-1). rewrite (proj2 (Z.leb_gt nbits (-1))) by lia. split; [done|]. left. split; [done|]. lia.
Qed.

Lemma ffs_bytes_spec k name i s : bytes_ok name -> 0 <= i -> 0 <= s < 8 -> i + Z.of_nat k <= lenZ name ->
  exists r, ffs_bytes k name i (u8 (Z.shiftl 255 s)) = Some r /\
    first_bit name true (8 * i + s) (8 * (i + Z.of_nat k)) r.
Proof.
  intros Hok. revert i s. induction k as [|k IH]; intros i s Hi Hs Hk; cbn [ffs_bytes].
  - exists (-1). split; [done|]. left. split; [done|]. lia.
  - destruct (byte_at_in name i) as (b & Eb & El); [lia|]. rewrite Eb.
    assert (byte_ok b) as Hb by (by apply (Forall_lookup_1 _ _ _ _ Hok El)).
    set (m := Z.land b (u8 (Z.shiftl 255 s))).
    assert (forall j, 0 <= j < 8 -> Z.testbit m j = (s <=? j) && Z.testbit b j) as Hm.
    { intros j Hj. unfold m, uwrap. rewrite Z.land_spec, Z.mod_pow2_bits_low, Z.shiftl_spec by lia. rewrite andb_comm.
      f_equal. destruct (Z.leb_spec s j); [rewrite testbit_255 by lia; apply Z.ltb_lt; lia | apply Z.testbit_neg_r; lia]. }
    assert (byte_ok m) as Hbm.
    { assert (0 <= m) as Hm0 by (apply Z.land_nonneg; left; apply Hb). split; [done|]. change 256 with (2 ^ 8).
      apply (Z.bounded_iff_bits_nonneg 8 m); [lia|done|]. intros l Hl. unfold m.
      rewrite Z.land_spec, (byte_bits b) by (done || lia). done. }
    destruct (Z.eqb_spec m 0) as [E0|Hne]; cbn [negb].
    + destruct (IH (i + 1) 0) as (r & R & F); [lia..|]. exists r. split; [exact R|].
      assert (forall j, 8 * i + s <= j < 8 * (i + 1) -> bit_at name j = false) as Hz.
      { intros j Hj. replace j with (8 * i + (j - 8 * i)) by lia. rewrite (bit_at_byte _ _ b) by (done || lia).
        specialize (Hm (j - 8 * i) ltac:(lia)). rewrite E0, Z.bits_0, (proj2 (Z.leb_le s _)) in Hm by lia. done. }
      destruct F as [[-> F]|(F1 & F2 & F3)]; [left|right].
      * split; [done|]. intros j Hj. destruct (decide (j < 8 * (i + 1))); [apply Hz; lia | apply F; lia].
      * split; [lia|]. split; [done|]. intros j Hj. destruct (decide (j < 8 * (i + 1))); [apply Hz; lia | apply F3; lia].
    + destruct (skip_zeros_spec 8 m (Z.shiftl i 3)) as (t & -> & Ht & H1 & H2).
      rewrite Z.shiftl_mul_pow2 by lia. eexists. split; [reflexivity|].
      assert (t < 8) as Ht8.
      { destruct (decide (t < 8)); [done|]. exfalso. apply Hne, byte_zero; [done|]. intros. apply H1. lia. }
      specialize (H2 ltac:(lia)). rewrite Hm in H2 by lia. apply andb_true_iff in H2 as [Hst H2]. bool_hyps.
      right. replace (i * 2 ^ 3 + t) with (8 * i + t) by lia. split; [lia|]. split.
      * by rewrite (bit_at_byte _ _ b) by (done || lia).
      * intros j Hj. replace j with (8 * i + (j - 8 * i)) by lia. rewrite (bit_at_byte _ _ b) by (done || lia).
        specialize (H1 (j - 8 * i) ltac:(lia)). rewrite Hm, (proj2 (Z.leb_le s _)) in H1 by lia. done.
Qed.

Lemma bit_ffs_from_spec name nbits start : bytes_ok name -> 0 <= start < nbits -> nbits <= 8 * lenZ name ->
  exists r, bit_ffs_from name nbits start = Some r /\ first_bit name true start nbits r.
Proof.
  intros Hok Hs Hn. unfold bit_ffs_from. replace (nbits >? 0) with true by lia.
  rewrite !bit_byte_div, Z.rem_mod_nonneg by lia.
  assert (0 <= (nbits - 1) / 8 < lenZ name) as Hd
    by (split; [apply Z.div_pos; lia | apply Z.div_lt_upper_bound; lia]).
  pose proof (Z.div_le_mono start (nbits - 1) 8 ltac:(lia) ltac:(lia)) as Hle.
  pose proof (Z.div_pos start 8 ltac:(lia) ltac:(lia)). pose proof (Z.mod_pos_bound start 8 ltac:(lia)).
  destruct (ffs_bytes_spec (Z.to_nat ((nbits - 1) / 8 - start / 8 + 1)) name (start / 8) (start mod 8) Hok)
    as (r & -> & F); [lia..|].
  pose proof (Z.div_mod (nbits - 1) 8 ltac:(lia)) as D. pose proof (Z.mod_pos_bound (nbits - 1) 8 ltac:(lia)).
  rewrite <- (Z.div_mod start 8) in F by lia.
  eexists. split; [reflexivity|]. destruct F as [[-> F]|(F1 & F2 & F3)].
  - rewrite (proj2 (Z.leb_gt nbits (-1))) by lia. left. split; [done|]. intros. apply F. lia.
  - destruct (Z.leb_spec nbits r); [left|right].
    + split; [done|]. intros. apply F3. lia.
    + split; [lia|]. split; [done|]. intros. apply F3. lia.
Qed.

Lemma upd_bytes_ok name i f name' : upd name i f = Some name' -> bytes_ok name -> bytes_ok name'.
Proof.
  unfold upd. destruct (byte_at name i); [|done]. intros [= <-] H. apply Forall_insert; [done|].
  apply (uwrap_range 8). lia.
Qed.

(** The operations keep the array an array of bytes. *)
Lemma bit_set_ok name i name' : bit_set name i = Some name' -> bytes_ok name -> bytes_ok name'.
Proof. apply upd_bytes_ok. Qed.

Lemma bit_clear_ok name i name' : bit_clear name i = Some name' -> bytes_ok name -> bytes_ok name'.
Proof. apply upd_bytes_ok. Qed.

Lemma fill_bytes_ok k name i v name' : fill_bytes k name i v = Some name' -> bytes_ok name -> bytes_ok name'.
Proof.
  revert name i. induction k as [|k IH]; intros name i; simpl; [by intros [= <-]|].
  destruct (upd name (i + 1) _) as [n1|] eqn:E; [|done]. intros F H. by eapply IH, upd_bytes_ok.
Qed.

Lemma bit_nclear_ok name a b name' : bit_nclear name a b = Some name' -> bytes_ok name -> bytes_ok name'.
Proof.
  unfold bit_nclear. case_test; [apply upd_bytes_ok|].
  destruct (upd name _ _) as [n1|] eqn:E1; [|done]. destruct (fill_bytes _ _ _ _) as [n2|] eqn:E2; [|done].
  intros E3 H. eapply upd_bytes_ok; [done|]. eapply fill_bytes_ok; [done|]. by eapply upd_bytes_ok.
Qed.
