(* ===== verification/Notif.v ===== *)
(** * Asynchronous notifications

    optee_os/core/kernel/notif_default.c without CFG_NS_VIRTUALIZATION: the bitmap of allocated
    notification values and the bitmap of pending ones, both kept with the bit-string macros. The
    spin lock makes each function one transition. *)
From S2P Require Import Prelude Bitstring.
Local Open Scope Z_scope.

Definition NOTIF_ASYNC_VALUE_MAX : Z := 63.
Definition NOTIF_VALUE_DO_BOTTOM_HALF : Z := 0.

Record notif_vm_bitmap := mk_nvb {
  alloc_values_inited : bool;
  values : bitstr;
  alloc_values : bitstr;
  raised : Z;              (* interrupts raised so far *)
}.

Abbreviation N := (M notif_vm_bitmap).

Definition set_alloc (b : bitstr) : N unit :=
  modify (fun n => mk_nvb (alloc_values_inited n) (values n) b (raised n)).
Definition set_values (b : bitstr) : N unit :=
  modify (fun n => mk_nvb (alloc_values_inited n) b (alloc_values n) (raised n)).

(** [can_raise]: [interrupt_can_raise_pi] of the main interrupt chip. *)
Definition notif_alloc_async_value (can_raise : bool) : N Z :=
  do! assert_ can_raise in
  let! n := get in
  do! (if negb (alloc_values_inited n) then
         let! b := of_opt OutOfBounds (bit_set (alloc_values n) NOTIF_VALUE_DO_BOTTOM_HALF) in
         put (mk_nvb true (values n) b (raised n))
       else ret tt) in
  let! n := get in
  let! bit := of_opt OutOfBounds (bit_ffc (alloc_values n) (NOTIF_ASYNC_VALUE_MAX + 1)) in
  do! guard_err (bit <? 0) TEE_ERROR_OUT_OF_MEMORY in
  let! b := of_opt OutOfBounds (bit_set (alloc_values n) bit) in
  do! set_alloc b in
  ret bit.

Definition notif_free_async_value (val : Z) : N unit :=
  do! assert_ (val <? NOTIF_ASYNC_VALUE_MAX) in
  let! n := get in
  let! t := of_opt OutOfBounds (bit_test (alloc_values n) val) in
  do! assert_ t in
  let! b := of_opt OutOfBounds (bit_clear (alloc_values n) val) in
  set_alloc b.

(** The value, and the flags value_valid and value_pending. *)
Definition notif_get_value : N (Z * bool * bool) :=
  let! n := get in
  let! bit := of_opt OutOfBounds (bit_ffs (values n) (NOTIF_ASYNC_VALUE_MAX + 1)) in
  if negb (0 <=? bit) then ret (0, false, (0 <=? bit))
  else
    let res := bit in
    let! b := of_opt OutOfBounds (bit_clear (values n) res) in
    do! set_values b in
    let! bit := of_opt OutOfBounds (bit_ffs b (NOTIF_ASYNC_VALUE_MAX + 1)) in
    ret (res, true, (0 <=? bit)).

Definition notif_send_async (value : Z) : N unit :=
  do! assert_ (value <=? NOTIF_ASYNC_VALUE_MAX) in
  let! n := get in
  let! b := of_opt OutOfBounds (bit_set (values n) value) in
  put (mk_nvb (alloc_values_inited n) b (alloc_values n) (raised n + 1)).

(** The static initial state. *)
Definition notif_zero : notif_vm_bitmap := mk_nvb false (replicate 8 0) (replicate 8 0) 0.

(** ** Well-formed states *)

Record nvb_ok (n : notif_vm_bitmap) : Prop := mk_nvb_ok {
  no_values : lenZ (values n) = 8 /\ bytes_ok (values n);
  no_alloc : lenZ (alloc_values n) = 8 /\ bytes_ok (alloc_values n);
  no_init : alloc_values_inited n = true -> bit_at (alloc_values n) 0 = true;
}.

Definition pending (n : notif_vm_bitmap) (v : Z) : bool := bit_at (values n) v.
(** Value 0, the bottom half, is reserved from the start. *)
Definition allocated (n : notif_vm_bitmap) (v : Z) : bool := (v =? 0) || bit_at (alloc_values n) v.

Lemma first_bit_get name v nbits r : first_bit name v 0 nbits r -> 0 <= r ->
  r < nbits /\ bit_at name r = v /\ forall j, 0 <= j < r -> bit_at name j = negb v.
Proof. intros [[-> _]|(H1 & H2 & H3)] Hr; [lia|]. split; [lia|]. by split. Qed.

Lemma first_bit_none name v nbits r : first_bit name v 0 nbits r -> r < 0 ->
  forall j, 0 <= j < nbits -> bit_at name j = negb v.
Proof. intros [[-> H]|(H1 & _)] Hr; [done|lia]. Qed.

(** The allocation bitmap with the reserved value marked. *)
Lemma alloc_init n : nvb_ok n ->
  exists n', (if negb (alloc_values_inited n) then
      let! b := of_opt OutOfBounds (bit_set (alloc_values n) NOTIF_VALUE_DO_BOTTOM_HALF) in
      put (mk_nvb true (values n) b (raised n)) else ret tt) n = (Ret tt, n') /\ nvb_ok n' /\
    values n' = values n /\ raised n' = raised n /\
    forall v, 0 <= v -> bit_at (alloc_values n') v = allocated n v.
Proof.
  intros [V [Al Ao] I]. unfold allocated. destruct (alloc_values_inited n) eqn:E; cbn [negb].
  - exists n. split; [done|]. split; [by split; rewrite ?E|]. split; [done|]. split; [done|]. intros v Hv.
    destruct (Z.eqb_spec v 0); [subst; by apply I | done].
  - destruct (bit_set_spec (alloc_values n) 0) as (b & Eb & Lb & Bb); [lia|].
    change NOTIF_VALUE_DO_BOTTOM_HALF with 0. rewrite Eb. eexists. split; [reflexivity|].
    split; [|done]. split; simpl; [done| |by rewrite Bb].
    split; [lia|]. by eapply bit_set_ok.
Qed.

(** What allocating and freeing a value do. *)
Definition alloc_free_ok (n : notif_vm_bitmap) : Prop :=
  (exists n', nvb_ok n' /\ values n' = values n /\
    ((notif_alloc_async_value true n = (Err TEE_ERROR_OUT_OF_MEMORY, n') /\
        forall v, 0 <= v <= 63 -> allocated n v = true) \/
     (exists v, notif_alloc_async_value true n = (Ret v, n') /\ 1 <= v <= 63 /\ allocated n v = false /\
        (forall u, 0 <= u < v -> allocated n u = true) /\
        (forall u, 0 <= u -> allocated n' u = (u =? v) || allocated n u)))) /\
  (forall v, 1 <= v < 63 -> bit_at (alloc_values n) v = true ->
    exists n', notif_free_async_value v n = (Ret tt, n') /\ nvb_ok n' /\ values n' = values n /\
      forall u, 0 <= u -> allocated n' u = negb (u =? v) && allocated n u).

(** What sending and fetching a value do. *)
Definition send_get_ok (n : notif_vm_bitmap) : Prop :=
  (forall v, 0 <= v <= 63 -> exists n', notif_send_async v n = (Ret tt, n') /\ nvb_ok n' /\
     raised n' = raised n + 1 /\ forall u, 0 <= u -> pending n' u = (u =? v) || pending n u) /\
  ((notif_get_value n = (Ret (0, false, false), n) /\ forall u, 0 <= u <= 63 -> pending n u = false) \/
   (exists v more n', notif_get_value n = (Ret (v, true, more), n') /\ nvb_ok n' /\ 0 <= v <= 63 /\
      pending n v = true /\ (forall u, 0 <= u < v -> pending n u = false) /\
      (forall u, 0 <= u -> pending n' u = negb (u =? v) && pending n u) /\
      (more = true <-> exists u, 0 <= u <= 63 /\ pending n' u = true))).

Lemma alloc_free_sound n (W : nvb_ok n) : alloc_free_ok n.
Proof.
  split.
  - destruct (alloc_init n W) as (n1 & R1 & W1 & V1 & _ & B1). destruct W1 as [Wv [Al Ao] Wi].
    destruct (bit_ffc_spec (alloc_values n1) 64 Ao) as (r & Er & F); [lia|].
    unfold notif_alloc_async_value, assert_. rewrite bind_ret_l, (bind_run _ _ _ n n) by done.
    rewrite (bind_run _ _ _ _ _ R1), (bind_run _ _ _ n1 n1) by done. change (NOTIF_ASYNC_VALUE_MAX + 1) with 64.
    rewrite Er. cbn [of_opt]. rewrite bind_ret_l. destruct (Z.ltb_spec r 0) as [Hr|Hr].
    + exists n1. split; [by split|]. split; [done|]. left. split; [done|]. intros v Hv. rewrite <- B1 by lia.
      apply (first_bit_none _ _ _ _ F Hr). lia.
    + destruct (first_bit_get _ _ _ _ F Hr) as (H1 & H2 & H3).
      destruct (bit_set_spec (alloc_values n1) r) as (b & Eb & Lb & Bb); [lia|].
      unfold guard_err. rewrite bind_ret_l, Eb. cbn [of_opt]. rewrite bind_ret_l.
      assert (r <> 0) as Hr0 by (intros ->; rewrite B1 in H2 by lia; done).
      eexists. split; [|split; [|right; exists r; split; [reflexivity|]]]; simpl.
      * split; simpl; [done|split; [lia|by eapply bit_set_ok]|].
        intros Hi. rewrite Bb by lia. rewrite (Wi Hi). apply orb_true_r.
      * done.
      * split; [lia|]. split; [by rewrite <- B1|].
        split; [intros u Hu; rewrite <- B1 by lia; by apply H3|]. intros u Hu. unfold allocated at 1. simpl.
        rewrite Bb, B1 by lia. unfold allocated. destruct (u =? 0), (u =? r); done.
  - intros v Hv Hb. destruct W as [Wv [Al Ao] Wi].
    destruct (bit_clear_spec (alloc_values n) v) as (b & Eb & Lb & Bb); [lia|].
    unfold notif_free_async_value, assert_. change NOTIF_ASYNC_VALUE_MAX with 63.
    rewrite (proj2 (Z.ltb_lt v 63)) by lia. rewrite bind_ret_l, (bind_run _ _ _ n n) by done.
    rewrite bit_test_spec, Hb by lia. cbn [of_opt]. rewrite !bind_ret_l, Eb. cbn [of_opt]. rewrite bind_ret_l.
    eexists. split; [reflexivity|]. split; [|split; [done|]].
    + split; simpl; [done|split; [lia|by eapply bit_clear_ok]|].
      intros Hi. rewrite Bb by lia. rewrite (Wi Hi). rewrite (proj2 (Z.eqb_neq 0 v)) by lia. done.
    + intros u Hu. unfold allocated. simpl. rewrite Bb by done.
      destruct (Z.eqb_spec u 0), (Z.eqb_spec u v); try done; lia.
Qed.

Lemma send_get_sound n (W : nvb_ok n) : send_get_ok n.
Proof.
  destruct W as [[Vl Vo] Wa Wi]. split.
  - intros v Hv. destruct (bit_set_spec (values n) v) as (b & Eb & Lb & Bb); [lia|].
    unfold notif_send_async, assert_. change NOTIF_ASYNC_VALUE_MAX with 63.
    rewrite (proj2 (Z.leb_le v 63)) by lia. rewrite bind_ret_l, (bind_run _ _ _ n n) by done. rewrite Eb.
    cbn [of_opt]. rewrite bind_ret_l. eexists. split; [reflexivity|]. split; [|split; [done|exact Bb]].
    split; simpl; [split; [lia|by eapply bit_set_ok]|done|done].
  - unfold notif_get_value. rewrite (bind_run _ _ _ n n) by done. change (NOTIF_ASYNC_VALUE_MAX + 1) with 64.
    unfold bit_ffs. destruct (bit_ffs_from_spec (values n) 64 0 Vo) as (r & -> & F); [lia..|].
    cbn [of_opt]. rewrite bind_ret_l. destruct (Z.leb_spec 0 r) as [Hr|Hr]; cbn [negb].
    + right. destruct (first_bit_get _ _ _ _ F Hr) as (H1 & H2 & H3).
      destruct (bit_clear_spec (values n) r) as (b & Eb & Lb & Bb); [lia|]. rewrite Eb. cbn [of_opt]. rewrite bind_ret_l.
      pose proof (bit_clear_ok _ _ _ Eb Vo) as Ob.
      destruct (bit_ffs_from_spec b 64 0 Ob) as (r2 & E2 & F2); [lia..|].
      rewrite (bind_run _ _ _ tt (mk_nvb (alloc_values_inited n) b (alloc_values n) (raised n))) by done.
      rewrite E2. cbn [of_opt]. rewrite bind_ret_l. do 3 eexists. split; [reflexivity|].
      split; [split; simpl; [split; [lia|done]|done|done]|]. split; [lia|]. split; [done|]. split; [done|].
      split; [exact Bb|]. unfold pending. simpl. split.
      * intros Hm. bool_hyps. destruct (first_bit_get _ _ _ _ F2 Hm) as (G1 & G2 & _). exists r2. split; [lia|done].
      * intros (u & Hu & Hp). apply Z.leb_le. destruct (decide (0 <= r2)); [done|].
        rewrite (first_bit_none _ _ _ _ F2 ltac:(lia) u ltac:(lia)) in Hp. done.
    + left. split; [done|]. intros u Hu. apply (first_bit_none _ _ _ _ F Hr). lia.
Qed.

(** ** Properties *)

(** Notification values. On a well-formed state [notif_alloc_async_value] returns the least value
    in 1..63 that is not allocated, marks exactly it, and leaves the pending notifications alone; when
    all are allocated it returns TEE_ERROR_OUT_OF_MEMORY. Freeing an allocated value below 63 unmarks
    exactly it. A sent value is pending until it is fetched; [notif_get_value] returns the least pending
    value, exactly once, with value_pending telling whether others remain, and reports value_valid =
    false exactly when none is pending. Each of them keeps the state well-formed. *)
Theorem notif_values_spec n : nvb_ok n -> alloc_free_ok n /\ send_get_ok n.
Proof. intros W. split; [by apply alloc_free_sound|by apply send_get_sound]. Qed.

(** The last value can be allocated but not freed: the assertion excludes it. *)
Example notif_free_last_panics :
  let full := mk_nvb true (replicate 8 0) (replicate 7 255 ++ [127]) 0 in
  match notif_alloc_async_value true full with
  | (Ret v, n') => v = 63 /\ fst (notif_free_async_value v n') = Panic
  | _ => False
  end.
Proof. vm_compute. done. Qed.

(** ** Witnesses *)

Lemma notif_zero_ok : nvb_ok notif_zero.
Proof. split; [split; [done|repeat constructor; done] | split; [done|repeat constructor; done] | done]. Qed.

(** On the state after the start, with the value 17 then sent. *)
Lemma notif_values_witness : nvb_ok notif_zero /\ alloc_free_ok notif_zero /\ send_get_ok notif_zero /\
  fst (notif_alloc_async_value true notif_zero) = Ret 1 /\
  fst ((let! _ := notif_send_async 17 in notif_get_value) notif_zero) = Ret (17, true, false).
Proof.
  destruct (notif_values_spec notif_zero notif_zero_ok) as [H1 H2].
  split; [apply notif_zero_ok|]. split; [exact H1|]. split; [exact H2|]. vm_compute. done.
Defined.
