(* ===== verification/Dirfile.v ===== *)
(** * The directory file of the secure storage

    optee_os/core/tee/fs_dirfile.c: a file of fixed-size entries that maps an object (TA uuid and
    object id) to a numbered file and its hash, and a bit string of the file numbers in use. The
    storage below is the interface [Fops] (struct tee_fs_dirfile_operations); [FopsLaws] says what
    the directory relies on (reads and writes may fail, and a failing write may leave anything), and an
    in-memory file with faults implements it. Loops that end at the end of the
    file take an iteration bound; the theorems show that one more than the number of entries is
    enough. [realloc] succeeds according to [may_alloc]. Indices are below 2^31. *)
From S2P Require Import Prelude Bitstring.
Local Open Scope Z_scope.

Definition TEE_OBJECT_ID_MAX_LEN : Z := 64.
Definition TEE_FS_HTREE_HASH_SIZE : Z := 32.
Definition OID_EMPTY_NAME : Z := 1.

(** ** The file below *)

Class Fops (FH : Type) := {
  fop_read : Z -> Z -> FH -> outcome (list Z) * FH;            (* pos, len *)
  fop_write : Z -> list Z -> FH -> outcome unit * FH;          (* pos, data *)
  fop_contents : FH -> list Z;
}.

(** Overwriting, or extending at the end. *)
Definition overwrite (c : list Z) (pos : Z) (d : list Z) : list Z :=
  take (Z.to_nat pos) c ++ d ++ drop (Z.to_nat pos + length d) c.

(** An error of the storage. TEE_ERROR_ITEM_NOT_FOUND is not one: the directory takes it for the end of
    the file. *)
Definition fails (e : Z) : Prop := e <> 0 /\ e <> TEE_ERROR_ITEM_NOT_FOUND.

(** A read may fail, now and not the next time, and leaves the contents as they are. A write that
    succeeds writes what is asked for; one that fails may leave anything behind. *)
Class FopsLaws (FH : Type) `{!Fops FH} := {
  fop_read_law : forall fh pos len, 0 <= pos -> 0 <= len ->
    exists r fh', fop_read pos len fh = (r, fh') /\ fop_contents fh' = fop_contents fh /\
      (r = Ret (take (Z.to_nat len) (drop (Z.to_nat pos) (fop_contents fh))) \/ exists e, r = Err e /\ fails e);
  fop_write_law : forall fh pos d, 0 <= pos <= lenZ (fop_contents fh) ->
    exists r fh', fop_write pos d fh = (r, fh') /\
      (r = Ret tt /\ fop_contents fh' = overwrite (fop_contents fh) pos d \/ exists e, r = Err e /\ e <> 0);
}.

(** ** Entries *)

Record dirfile_entry := mk_dent {
  uuid : list Z;
  oid : list Z;
  oidlen : Z;
  hash : list Z;
  file_number : Z;
}.

Definition sizeof_dirfile_entry : Z := 120.

Definition dent_bytes (d : dirfile_entry) : list Z :=
  uuid d ++ oid d ++ le_bytes 4 (oidlen d) ++ hash d ++ le_bytes 4 (file_number d).

Definition dent_of (b : list Z) : dirfile_entry :=
  mk_dent (take 16 b) (take 64 (drop 16 b)) (le_val (take 4 (drop 80 b)))
    (take 32 (drop 84 b)) (le_val (take 4 (drop 116 b))).

Definition dent_zero : dirfile_entry := mk_dent (replicate 16 0) (replicate 64 0) 0 (replicate 32 0) 0.

(** struct tee_fs_dirfile_fileh *)
Record fileh := mk_fileh { fh_file_number : Z; fh_hash : list Z; fh_idx : Z }.

Section Dir.
Context {FH : Type} `{!Fops FH}.
Context (may_alloc : Z -> bool) (junk : Z).

(** struct tee_fs_dirfile_dirh, with the file behind it *)
Record dirh := mk_dirh { fh : FH; nbits : Z; files : bitstr; ndents : Z }.

Abbreviation D := (M dirh).

Definition oid0 (d : dirfile_entry) : Z := default 0 (oid d !! 0%nat).

Definition is_free (d : dirfile_entry) : D bool :=
  do! assert_ (negb (oidlen d =? 0) || (oid0 d =? 0) || (oid0 d =? OID_EMPTY_NAME)) in
  ret ((oidlen d =? 0) && (oid0 d =? 0)).

(** [bitstr_size(idx + 1)] bytes: the old ones, then what fresh memory holds. *)
Definition maybe_grow_files (idx : Z) : D unit :=
  let! d := get in
  if idx <? nbits d then ret tt
  else
    let sz := bitstr_size (idx + 1) in
    if may_alloc sz then
      let p := take (Z.to_nat sz) (files d) ++ replicate (Z.to_nat sz - length (files d)) (u8 junk) in
      let! b := of_opt OutOfBounds (bit_nclear p (nbits d) idx) in
      put (mk_dirh (fh d) (idx + 1) b (ndents d))
    else err TEE_ERROR_OUT_OF_MEMORY.

Definition set_file (idx : Z) : D unit :=
  do! maybe_grow_files idx in
  let! d := get in
  let! b := of_opt OutOfBounds (bit_set (files d) idx) in
  put (mk_dirh (fh d) (nbits d) b (ndents d)).

Definition clear_file (idx : Z) : D unit :=
  let! d := get in
  if idx <? nbits d then
    let! b := of_opt OutOfBounds (bit_clear (files d) idx) in
    put (mk_dirh (fh d) (nbits d) b (ndents d))
  else ret tt.

Definition test_file (idx : Z) : D bool :=
  let! d := get in
  if idx <? nbits d then of_opt OutOfBounds (bit_test (files d) idx) else ret false.

Definition read_file (pos len : Z) : D (list Z) := fun d =>
  let (r, f) := fop_read pos len (fh d) in (r, mk_dirh f (nbits d) (files d) (ndents d)).

Definition read_dent (idx : Z) : D dirfile_entry :=
  let! b := read_file (sizeof_dirfile_entry * idx) sizeof_dirfile_entry in
  do! guard_err (negb (lenZ b =? sizeof_dirfile_entry)) TEE_ERROR_ITEM_NOT_FOUND in
  ret (dent_of b).

Definition write_dent (n : Z) (dent : dirfile_entry) : D unit :=
  let! d := get in
  let (r, f) := fop_write (sizeof_dirfile_entry * n) (dent_bytes dent) (fh d) in
  match r with
  | Ret _ => put (mk_dirh f (nbits d) (files d) (if ndents d <=? n then n + 1 else ndents d))
  | Err e => do! put (mk_dirh f (nbits d) (files d) (ndents d)) in err e
  | Panic => panic
  | Undef u => undef u
  end.

(** Handles the end of file as a value: [None] for TEE_ERROR_ITEM_NOT_FOUND. *)
Definition try_read (idx : Z) : D (option dirfile_entry) := fun d =>
  match read_dent idx d with
  | (Ret e, d') => (Ret (Some e), d')
  | (Err r, d') => if r =? TEE_ERROR_ITEM_NOT_FOUND then (Ret None, d') else (Err r, d')
  | (Panic, d') => (Panic, d')
  | (Undef u, d') => (Undef u, d')
  end.

(** The loop of [tee_fs_dirfile_open]: the index it ends at; [None] when the bound is reached. *)
Fixpoint open_loop (fuel : nat) (n : Z) : D (option Z) :=
  match fuel with
  | O => ret None
  | S k =>
      let! r := try_read n in
      match r with
      | None => ret (Some n)
      | Some dent =>
          let! free := is_free dent in
          if free then open_loop k (n + 1)
          else
            let! used := test_file (i32 (file_number dent)) in
            if used then do! write_dent n dent_zero in open_loop k (n + 1)
            else do! set_file (i32 (file_number dent)) in open_loop k (n + 1)
      end
  end.

(** After the file [f] has been opened. *)
Definition tee_fs_dirfile_open (fuel : nat) : D (option unit) :=
  let! r := open_loop fuel 0 in
  match r with
  | None => ret None
  | Some n => let! d := get in
              do! put (mk_dirh (fh d) (nbits d) (files d) n) in ret (Some tt)
  end.

(** Returns the file number of the new handle. *)
Definition tee_fs_dirfile_get_tmp : D Z :=
  let! d := get in
  let! i := (if negb (nbits d =? 0) then
               let! i := of_opt OutOfBounds (bit_ffc (files d) (nbits d)) in
               ret (if i =? -1 then nbits d else i)
             else ret 0) in
  do! set_file i in
  ret i.

(** memcmp of the object id: the first [oidlen] bytes of the 64-byte field. *)
Definition same_object (dent : dirfile_entry) (u o : list Z) : bool :=
  bool_decide (uuid dent = u) && bool_decide (take (length o) (oid dent) = o).

Fixpoint find_loop (fuel : nat) (n : Z) (u o : list Z) : D (option fileh) :=
  match fuel with
  | O => ret None
  | S k =>
      let! dent := read_dent n in
      let! free := is_free dent in
      if free then find_loop k (n + 1) u o
      else if negb (oidlen dent =? lenZ o) then find_loop k (n + 1) u o
      else
        let! t := test_file (i32 (file_number dent)) in
        do! assert_ t in
        if same_object dent u o
        then ret (Some (mk_fileh (file_number dent) (hash dent) n))
        else find_loop k (n + 1) u o
  end.

Definition tee_fs_dirfile_find (fuel : nat) (u o : list Z) : D (option fileh) := find_loop fuel 0 u o.

Fixpoint empty_loop (fuel : nat) (n : Z) : D (option Z) :=
  match fuel with
  | O => ret None
  | S k =>
      let! r := try_read n in
      match r with
      | None => ret (Some n)
      | Some dent => let! free := is_free dent in
                     if free then ret (Some n) else empty_loop k (n + 1)
      end
  end.

Definition find_empty_idx (fuel : nat) : D (option Z) := empty_loop fuel 0.

(** [tee_fs_dirfile_find] with the missing object as a value. *)
Definition try_find (fuel : nat) (u o : list Z) : D (option (option fileh)) := fun d =>
  match tee_fs_dirfile_find fuel u o d with
  | (Ret (Some f), d') => (Ret (Some (Some f)), d')
  | (Ret None, d') => (Ret None, d')
  | (Err r, d') => if r =? TEE_ERROR_ITEM_NOT_FOUND then (Ret (Some None), d') else (Err r, d')
  | (Panic, d') => (Panic, d')
  | (Undef x, d') => (Undef x, d')
  end.

(** The entry [tee_fs_dirfile_rename] writes. *)
Definition renamed (u : list Z) (f : fileh) (o : list Z) : dirfile_entry :=
  mk_dent u
    (if negb (lenZ o =? 0) then o ++ replicate (64 - length o) 0 else OID_EMPTY_NAME :: replicate 63 0)
    (lenZ o) (fh_hash f) (fh_file_number f).

(** Returns the handle's index; [None]: iteration bound reached. *)
Definition tee_fs_dirfile_rename (fuel : nat) (u : list Z) (f : fileh) (o : list Z) : D (option Z) :=
  do! guard_err (lenZ o >? TEE_OBJECT_ID_MAX_LEN) TEE_ERROR_BAD_PARAMETERS in
  let! i := (if fh_idx f <? 0 then
               let! r := try_find fuel u o in
               match r with
               | None => ret None
               | Some (Some f2) => ret (Some (fh_idx f2))
               | Some None => find_empty_idx fuel
               end
             else ret (Some (fh_idx f))) in
  match i with
  | None => ret None
  | Some i => do! write_dent i (renamed u f o) in ret (Some i)
  end.

Definition tee_fs_dirfile_remove (f : fileh) : D unit :=
  let! dent := read_dent (fh_idx f) in
  let! free := is_free dent in
  if free then ret tt
  else
    let fn := file_number dent in
    do! assert_ (fh_file_number f =? fn) in
    let! t := test_file (i32 fn) in
    do! assert_ t in
    do! write_dent (fh_idx f) dent_zero in
    clear_file (i32 fn).

Definition tee_fs_dirfile_update_hash (f : fileh) : D unit :=
  let! dent := read_dent (fh_idx f) in
  do! assert_ (file_number dent =? fh_file_number f) in
  let! t := test_file (i32 (file_number dent)) in
  do! assert_ t in
  write_dent (fh_idx f) (mk_dent (uuid dent) (oid dent) (oidlen dent) (fh_hash f) (file_number dent)).

Fixpoint next_loop (fuel : nat) (i : Z) (u : list Z) : D (option (Z * dirfile_entry)) :=
  match fuel with
  | O => ret None
  | S k =>
      let! dent := read_dent i in
      if bool_decide (uuid dent = u) then
        let! free := is_free dent in
        if free then next_loop k (i + 1) u else ret (Some (i, dent))
      else next_loop k (i + 1) u
  end.

(** [oidlen0]: the size of the caller's buffer. Returns the new index and the object id. *)
Definition tee_fs_dirfile_get_next (fuel : nat) (u : list Z) (idx oidlen0 : Z) : D (option (Z * list Z)) :=
  let i := if idx + 1 <? 0 then 0 else idx + 1 in
  let! r := next_loop fuel i u in
  match r with
  | None => ret None
  | Some (i, dent) =>
      do! guard_err (oidlen0 <? oidlen dent) TEE_ERROR_SHORT_BUFFER in
      let! o := of_opt OutOfBounds (rd (oid dent) 0 (oidlen dent)) in
      ret (Some (i, o))
  end.

End Dir.
Arguments dirh : clear implicits.

(** ** Layout *)

Record dent_wf (d : dirfile_entry) : Prop := mk_dent_wf {
  dw_uuid : length (uuid d) = 16%nat;
  dw_oid : length (oid d) = 64%nat;
  dw_hash : length (hash d) = 32%nat;
  dw_oidlen : 0 <= oidlen d <= 64;
  dw_num : 0 <= file_number d < 2 ^ 31 - 1;
  dw_name : oidlen d = 0 -> oid0 d = 0 \/ oid0 d = 1;
}.

Definition used (d : dirfile_entry) : bool := negb ((oidlen d =? 0) && (oid0 d =? 0)).

Lemma length_dent_bytes d : dent_wf d -> length (dent_bytes d) = 120%nat.
Proof.
  intros [H1 H2 H3 _ _ _]. unfold dent_bytes. rewrite !length_app, !length_le_bytes. lia.
Qed.

Lemma dent_roundtrip d : dent_wf d -> dent_of (dent_bytes d) = d.
Proof.
  intros [H1 H2 H3 H4 H5 _]. unfold dent_of, dent_bytes. destruct d as [u o ol h fn]. cbn [uuid oid oidlen hash file_number] in *.
  set (l1 := le_bytes 4 ol). set (l2 := le_bytes 4 fn).
  assert (length l1 = 4%nat /\ length l2 = 4%nat) as [L1 L2] by done.
  assert (drop 16 (u ++ o ++ l1 ++ h ++ l2) = o ++ l1 ++ h ++ l2) as -> by (apply drop_app_length'; lia).
  assert (drop 80 (u ++ o ++ l1 ++ h ++ l2) = l1 ++ h ++ l2) as ->
    by (rewrite (app_assoc u); apply drop_app_length'; rewrite length_app; lia).
  assert (drop 84 (u ++ o ++ l1 ++ h ++ l2) = h ++ l2) as ->
    by (rewrite (app_assoc o), (app_assoc u); apply drop_app_length'; rewrite !length_app; lia).
  assert (drop 116 (u ++ o ++ l1 ++ h ++ l2) = l2) as ->
    by (rewrite (app_assoc l1), (app_assoc o), (app_assoc u); apply drop_app_length'; rewrite !length_app; lia).
  rewrite !take_app_length' by lia. rewrite take_ge by lia. unfold l1, l2.
  rewrite !le_val_le_bytes. f_equal; apply Z.mod_small; simpl; lia.
Qed.

Definition layout (ents : list dirfile_entry) : list Z := ents ≫= dent_bytes.

Lemma length_layout ents : Forall dent_wf ents -> length (layout ents) = (120 * length ents)%nat.
Proof.
  unfold layout. induction 1 as [|e ents He _ IH]; [done|]. rewrite bind_cons, length_app, IH, length_dent_bytes by done.
  simpl. lia.
Qed.

Lemma layout_app a b : layout (a ++ b) = layout a ++ layout b.
Proof. unfold layout. by rewrite bind_app. Qed.

(** The file, seen as its entries. *)
Lemma layout_split ents n e : ents !! n = Some e ->
  layout ents = layout (take n ents) ++ dent_bytes e ++ layout (drop (S n) ents).
Proof.
  intros H. rewrite <- (take_drop_middle _ _ _ H) at 1. by rewrite layout_app.
Qed.

Lemma read_layout ents n e : Forall dent_wf ents -> ents !! n = Some e ->
  take 120 (drop (120 * n) (layout ents)) = dent_bytes e.
Proof.
  intros W H. rewrite (layout_split _ _ _ H).
  assert (length (layout (take n ents)) = (120 * n)%nat) as L.
  { rewrite length_layout by (by apply Forall_take). rewrite length_take. apply lookup_lt_Some in H. lia. }
  rewrite drop_app_length' by done. apply take_app_length'. symmetry. apply length_dent_bytes.
  by apply (Forall_lookup_1 _ _ _ _ W H).
Qed.

Lemma overwrite_layout ents n e : Forall dent_wf ents -> dent_wf e -> (n <= length ents)%nat ->
  overwrite (layout ents) (120 * Z.of_nat n) (dent_bytes e) = layout (take n ents ++ e :: drop (S n) ents).
Proof.
  intros W We Hn. unfold overwrite. replace (Z.to_nat (120 * Z.of_nat n)) with (120 * n)%nat by lia.
  rewrite length_dent_bytes by done. rewrite layout_app.
  change (layout (e :: drop (S n) ents)) with (dent_bytes e ++ layout (drop (S n) ents)).
  assert (length (layout (take n ents)) = (120 * n)%nat) as L.
  { rewrite length_layout by (by apply Forall_take). rewrite length_take. lia. }
  assert (layout ents = layout (take n ents) ++ layout (drop n ents)) as -> by (by rewrite <- layout_app, take_drop).
  f_equal; [by apply take_app_length'|]. f_equal. rewrite drop_app_ge by lia. rewrite L. replace (120 * n + 120 - 120 * n)%nat with 120%nat by lia.
  destruct (drop n ents) as [|x r] eqn:E.
  - rewrite (drop_ge ents (S n)); [done|]. apply (f_equal length) in E. rewrite length_drop in E. simpl in E. lia.
  - assert (drop (S n) ents = r) as ->.
    { replace (S n) with (n + 1)%nat by lia. rewrite <- drop_drop, E. done. }
    change (layout (x :: r)) with (dent_bytes x ++ layout r). apply drop_app_length'. symmetry. apply length_dent_bytes.
    apply (Forall_drop _ n) in W. rewrite E in W. by apply Forall_cons in W as [? _].
Qed.

(** The entries after a write. *)
Definition write_ent (ents : list dirfile_entry) (n : nat) (e : dirfile_entry) : list dirfile_entry :=
  take n ents ++ e :: drop (S n) ents.

Lemma lookup_write_ent ents n e i : (n <= length ents)%nat ->
  write_ent ents n e !! i = if decide (i = n) then Some e else ents !! i.
Proof.
  intros Hn. unfold write_ent. destruct (decide (i = n)) as [->|Hne].
  - rewrite list_lookup_middle; [done|]. rewrite length_take. lia.
  - destruct (decide (i < n)%nat).
    + rewrite lookup_app_l by (rewrite length_take; lia). by apply lookup_take_lt.
    + rewrite lookup_app_r by (rewrite length_take; lia). rewrite length_take.
      replace (i - n `min` length ents)%nat with (S (i - S n)) by lia. simpl. rewrite lookup_drop. f_equal. lia.
Qed.

Lemma write_ent_wf ents n e : Forall dent_wf ents -> dent_wf e -> Forall dent_wf (write_ent ents n e).
Proof. intros H He. apply Forall_app. split; [by apply Forall_take|]. constructor; [done|by apply Forall_drop]. Qed.

Lemma length_write_ent ents n e : (n <= length ents)%nat -> (length ents <= length (write_ent ents n e))%nat.
Proof. intros. unfold write_ent. rewrite length_app, length_take. simpl. rewrite length_drop. lia. Qed.

(** ** Primitive operations on a represented directory *)

Section Spec.
Context {FH : Type} `{!Fops FH} `{!FopsLaws FH}.
Implicit Types (d : dirh FH).

Record files_ok d : Prop := mk_files_ok {
  fo_nbits : 0 <= nbits d < 2 ^ 31;
  fo_len : lenZ (files d) = bitstr_size (nbits d);
  fo_bytes : bytes_ok (files d);
}.

(** File number [i] is in use. *)
Definition fbit d (i : Z) : bool := (i <? nbits d) && bit_at (files d) i.

Definition repr d (ents : list dirfile_entry) : Prop :=
  fop_contents (fh d) = layout ents /\ Forall dent_wf ents.

Lemma bitstr_size_8 n : 0 <= n -> n <= 8 * bitstr_size n /\ 0 <= bitstr_size n.
Proof. intros. unfold bitstr_size. rewrite Z.shiftr_div_pow2 by lia. change (2 ^ 3) with 8. Z.div_mod_to_equations. lia. Qed.

Lemma bitstr_size_mono m n : 0 <= m <= n -> bitstr_size m <= bitstr_size n.
Proof. intros. unfold bitstr_size. rewrite !Z.shiftr_div_pow2 by lia. apply Z.div_le_mono; lia. Qed.

Lemma is_free_run e d : dent_wf e -> is_free e d = (Ret (negb (used e)), d).
Proof.
  intros W. unfold is_free, used, assert_. rewrite negb_involutive. pose proof (dw_name _ W) as N.
  destruct (Z.eqb_spec (oidlen e) 0) as [E|E]; cbn [negb orb]; [|done].
  destruct (N E) as [->| ->]; done.
Qed.

Lemma test_file_run d i : files_ok d -> 0 <= i -> test_file i d = (Ret (fbit d i), d).
Proof.
  intros [Hn Hl Hb] Hi. unfold test_file, fbit. rewrite (bind_run _ _ _ d d) by done.
  destruct (Z.ltb_spec i (nbits d)); [|done]. pose proof (bitstr_size_8 (nbits d) ltac:(lia)).
  by rewrite bit_test_spec by lia.
Qed.

Lemma clear_file_run d i : files_ok d -> 0 <= i ->
  exists d', clear_file i d = (Ret tt, d') /\ files_ok d' /\ fh d' = fh d /\ nbits d' = nbits d /\
    forall j, 0 <= j -> fbit d' j = negb (j =? i) && fbit d j.
Proof.
  intros [Hn Hl Hb] Hi. unfold clear_file, fbit. rewrite (bind_run _ _ _ d d) by done.
  destruct (Z.ltb_spec i (nbits d)) as [Hlt|Hge].
  - pose proof (bitstr_size_8 (nbits d) ltac:(lia)).
    destruct (bit_clear_spec (files d) i) as (b & Eb & Lb & Bb); [lia|]. rewrite Eb. cbn [of_opt]. rewrite bind_ret_l.
    eexists. split; [reflexivity|]. split; [split; simpl; [done|lia|by eapply bit_clear_ok]|].
    split; [done|]. split; [done|]. intros j Hj. simpl. rewrite Bb by done. destruct (j <? nbits d), (j =? i); done.
  - exists d. split; [done|]. split; [by split|]. split; [done|]. split; [done|]. intros j Hj.
    destruct (Z.eqb_spec j i); [subst|done]. by rewrite (proj2 (Z.ltb_ge i (nbits d))).
Qed.

Lemma bit_at_prefix (a b : bitstr) j : 0 <= j < 8 * lenZ a -> bit_at (a ++ b) j = bit_at a j.
Proof.
  intros Hj. unfold bit_at, byte_at. assert (0 <= j / 8 < lenZ a) as Hd
    by (split; [apply Z.div_pos; lia | apply Z.div_lt_upper_bound; lia]).
  rewrite (proj2 (Z.leb_le 0 (j / 8))) by lia. rewrite lookup_app_l; [done|]. unfold lenZ in *. lia.
Qed.

Lemma set_file_run may_alloc junk d i : files_ok d -> 0 <= i < 2 ^ 31 - 1 ->
  set_file may_alloc junk i d = (Err TEE_ERROR_OUT_OF_MEMORY, d) \/
  (exists d', set_file may_alloc junk i d = (Ret tt, d') /\ files_ok d' /\ fh d' = fh d /\
    nbits d <= nbits d' /\ i < nbits d' /\
    forall j, 0 <= j -> fbit d' j = (j =? i) || fbit d j).
Proof.
  intros [Hn Hl Hb] Hi. unfold set_file. destruct (Z.ltb_spec i (nbits d)) as [Hlt|Hge].
  - right. assert (maybe_grow_files may_alloc junk i d = (Ret tt, d)) as G.
    { unfold maybe_grow_files. rewrite (bind_run _ _ _ d d) by done. by rewrite (proj2 (Z.ltb_lt i (nbits d))). }
    rewrite (bind_run _ _ _ _ _ G), (bind_run _ _ _ d d) by done. pose proof (bitstr_size_8 (nbits d) ltac:(lia)).
    destruct (bit_set_spec (files d) i) as (b & Eb & Lb & Bb); [lia|].
    rewrite Eb. cbn [of_opt]. rewrite bind_ret_l.
    eexists. split; [reflexivity|]. split; [split; simpl; [done|lia|by eapply bit_set_ok]|].
    split; [done|]. split; [done|]. split; [done|]. intros j Hj. unfold fbit. simpl. rewrite Bb by done.
    destruct (Z.eqb_spec j i); [subst; by rewrite (proj2 (Z.ltb_lt i (nbits d)))|]. done.
  - destruct (may_alloc (bitstr_size (i + 1))) eqn:A; [right|left; unfold maybe_grow_files, bind at 1 2, get at 1;
      by rewrite (proj2 (Z.ltb_ge i (nbits d))), A].
    set (sz := bitstr_size (i + 1)).
    pose proof (bitstr_size_8 (i + 1) ltac:(lia)) as [S1 S2]. fold sz in S1, S2.
    pose proof (bitstr_size_mono (nbits d) (i + 1) ltac:(lia)) as Sm. fold sz in Sm.
    pose proof (bitstr_size_8 (nbits d) ltac:(lia)) as [N1 N2].
    set (p := take (Z.to_nat sz) (files d) ++ replicate (Z.to_nat sz - length (files d)) (u8 junk)).
    assert (take (Z.to_nat sz) (files d) = files d) as Et by (apply take_ge; unfold lenZ in *; lia).
    assert (lenZ p = sz) as Lp.
    { unfold p. rewrite Et. unfold lenZ in *. rewrite length_app, length_replicate. lia. }
    assert (bytes_ok p) as Op.
    { unfold p. rewrite Et. apply Forall_app. split; [done|]. apply Forall_replicate, (uwrap_range 8). lia. }
    destruct (bit_nclear_spec p (nbits d) i) as (b & Eb & Lb & Bb); [lia..|].
    destruct (bit_set_spec b i) as (b2 & Eb2 & Lb2 & Bb2); [lia|].
    assert (maybe_grow_files may_alloc junk i d = (Ret tt, mk_dirh (fh d) (i + 1) b (ndents d))) as G.
    { unfold maybe_grow_files. rewrite (bind_run _ _ _ d d) by done. rewrite (proj2 (Z.ltb_ge i (nbits d))) by done.
      rewrite A. fold sz p. by rewrite Eb. }
    rewrite (bind_run _ _ _ _ _ G). unfold bind, get. cbn [files]. rewrite Eb2.
    eexists. split; [reflexivity|]. split.
    { split; simpl; [lia|unfold sz in *; lia|]. eapply bit_set_ok; [done|]. by eapply bit_nclear_ok. }
    split; [done|]. split; [simpl; lia|]. split; [simpl; lia|]. intros j Hj. unfold fbit. simpl. rewrite Bb2, Bb by done.
    destruct (Z.eqb_spec j i); [subst; by rewrite (proj2 (Z.ltb_lt i (i + 1))) by lia|].
    destruct (Z.ltb_spec j (nbits d)).
    + rewrite (proj2 (Z.ltb_lt j (i + 1))) by lia. rewrite (proj2 (Z.leb_gt (nbits d) j)) by lia. simpl.
      unfold p. rewrite Et. apply bit_at_prefix. lia.
    + destruct (Z.ltb_spec j (i + 1)); [|done]. rewrite (proj2 (Z.leb_le (nbits d) j)), (proj2 (Z.leb_le j i)) by lia. done.
Qed.

(** Reading changes nothing but the state of the storage. *)
Record same d d' : Prop := mk_same {
  sm_contents : fop_contents (fh d') = fop_contents (fh d);
  sm_nbits : nbits d' = nbits d;
  sm_files : files d' = files d;
  sm_ndents : ndents d' = ndents d;
}.

Lemma same_refl d : same d d. Proof. done. Qed.
Lemma same_trans d1 d2 d3 : same d1 d2 -> same d2 d3 -> same d1 d3.
Proof. intros [] []. split; congruence. Qed.
Lemma same_repr d d' ents : same d d' -> repr d ents -> repr d' ents.
Proof. intros [E _ _ _] [R W]. split; [congruence|done]. Qed.
Lemma same_files d d' : same d d' -> files_ok d -> files_ok d'.
Proof. intros [_ E1 E2 _] []. split; congruence. Qed.
Lemma same_fbit d d' j : same d d' -> fbit d' j = fbit d j.
Proof. intros [_ E1 E2 _]. unfold fbit. congruence. Qed.

Lemma read_dent_run d ents n : repr d ents -> 0 <= n ->
  runs (read_dent n) (fun e d' => same d d' /\ ents !! Z.to_nat n = Some e)
    (fun r d' => same d d' /\ (r = TEE_ERROR_ITEM_NOT_FOUND /\ ents !! Z.to_nat n = None \/ fails r)) d.
Proof.
  intros [Hc W] Hn. unfold read_dent, sizeof_dirfile_entry. apply runs_bind.
  destruct (fop_read_law (fh d) (120 * n) 120) as (r & f & Er & Ef & Hr); [lia..|]. unfold runs at 1, read_file. rewrite Er.
  assert (same d (mk_dirh f (nbits d) (files d) (ndents d))) as Hs by done.
  destruct Hr as [-> | (e & -> & He)]; [|split; [done|by right]]. rewrite Hc.
  replace (Z.to_nat (120 * n)) with (120 * Z.to_nat n)%nat by lia. change (Z.to_nat 120) with 120%nat.
  destruct (ents !! Z.to_nat n) as [e|] eqn:E.
  - rewrite (read_layout ents (Z.to_nat n) e) by done. pose proof (Forall_lookup_1 _ _ _ _ W E) as We.
    assert (lenZ (dent_bytes e) = 120) as -> by (unfold lenZ; rewrite length_dent_bytes by done; done).
    unfold guard_err. cbn [Z.eqb negb]. apply runs_bind, runs_ret, runs_ret. split; [done|]. by rewrite dent_roundtrip.
  - apply lookup_ge_None in E. rewrite drop_ge by (rewrite length_layout by done; lia). apply runs_bind, runs_err. split; [done|by left].
Qed.

Lemma try_read_run d ents n : repr d ents -> 0 <= n ->
  runs (try_read n) (fun x d' => same d d' /\ x = ents !! Z.to_nat n) (fun r _ => fails r) d.
Proof.
  intros R Hn. pose proof (read_dent_run d ents n R Hn) as H. unfold runs, try_read in *. destruct (read_dent n d) as [[e|r| |] d']; try done.
  - by destruct H as [? ->].
  - destruct H as [Hs [[-> ->]|[H1 H2]]]; [done|]. by rewrite (proj2 (Z.eqb_neq _ _) H2).
Qed.

Lemma write_dent_run d ents n e : repr d ents -> dent_wf e -> 0 <= n <= lenZ ents ->
  runs (write_dent n e) (fun _ d' => repr d' (write_ent ents (Z.to_nat n) e) /\ nbits d' = nbits d /\ files d' = files d) (fun r _ => r <> 0) d.
Proof.
  intros [Hc W] We Hn. unfold write_dent. apply runs_bind, runs_get. unfold sizeof_dirfile_entry.
  destruct (fop_write_law (fh d) (120 * n) (dent_bytes e)) as (r & f & Er & Hr); [rewrite Hc; unfold lenZ in *; rewrite length_layout by done; lia|]. rewrite Er.
  destruct Hr as [[-> Ec]|(x & -> & Hx)]; [|done]. unfold runs, put. split; [|done]. split; simpl.
  - rewrite Ec, Hc. rewrite <- (Z2Nat.id n) at 1 by lia. apply overwrite_layout; [done|done|]. unfold lenZ in *. lia.
  - by apply write_ent_wf.
Qed.

(** ** The directory as a map *)

(** The entry names the object [o] of TA [u]. *)
Definition matches (e : dirfile_entry) (u o : list Z) : bool :=
  used e && (oidlen e =? lenZ o) && same_object e u o.

Fixpoint lookup_ent (ents : list dirfile_entry) (u o : list Z) (n : Z) : option fileh :=
  match ents with
  | [] => None
  | e :: r => if matches e u o then Some (mk_fileh (file_number e) (hash e) n) else lookup_ent r u o (n + 1)
  end.

(** Two used entries have different file numbers and name different objects. *)
Definition apart (ents : list dirfile_entry) : Prop := forall i j a b,
  ents !! i = Some a -> ents !! j = Some b -> used a = true -> used b = true -> i <> j ->
  file_number a <> file_number b /\ forall u o, ~ (matches a u o = true /\ matches b u o = true).

Record dir_inv d (ents : list dirfile_entry) : Prop := mk_dir_inv {
  di_repr : repr d ents;
  di_files : files_ok d;
  di_bits : forall e, e ∈ ents -> used e = true -> fbit d (file_number e) = true;
  di_apart : apart ents;
}.

Lemma matches_used e u o : matches e u o = true -> used e = true.
Proof. unfold matches. intros H. by bool_hyps. Qed.

(** An entry names one object only. *)
Lemma matches_inj e u o u' o' : matches e u o = true -> matches e u' o' = true -> (u', o') = (u, o).
Proof.
  unfold matches, same_object. intros H H'. bool_hyps.
  repeat match goal with X : bool_decide _ = true |- _ => apply bool_decide_eq_true in X end.
  assert (length o = length o') as L by (unfold lenZ in *; lia). congruence.
Qed.

Lemma num_i32 e : dent_wf e -> i32 (file_number e) = file_number e.
Proof. intros W. pose proof (dw_num _ W). apply swrap_small; [lia|]. unfold is_s. lia. Qed.

Lemma same_inv d d' ents : same d d' -> dir_inv d ents -> dir_inv d' ents.
Proof.
  intros Hs [R F B A]. split; [by eapply same_repr|by eapply same_files| |done]. intros e He Ue. rewrite (same_fbit _ _ _ Hs). by apply B.
Qed.

(** The search for an object answers [g], unless the storage fails. *)
Definition answers {A} (g : option A) d (x : option A) d' : Prop := same d d' /\ is_Some g /\ x = g.
Definition answers_not {A} (g : option A) d (r : Z) d' : Prop := same d d' /\ (r = TEE_ERROR_ITEM_NOT_FOUND /\ g = None \/ fails r).

Definition finds (fuel : nat) (u o : list Z) d (g : option fileh) : Prop :=
  runs (tee_fs_dirfile_find fuel u o) (answers g d) (answers_not g d) d.

Lemma find_loop_run fuel d ents n u o : dir_inv d ents -> 0 <= n <= lenZ ents -> lenZ ents - n < Z.of_nat fuel ->
  runs (find_loop fuel n u o) (answers (lookup_ent (drop (Z.to_nat n) ents) u o n) d) (answers_not (lookup_ent (drop (Z.to_nat n) ents) u o n) d) d.
Proof.
  revert d n. induction fuel as [|fuel IH]; intros d n I Hn Hf; [lia|]. pose proof I as [R F B A].
  cbn [find_loop]. apply runs_bind. eapply runs_mono; [apply (read_dent_run d ents n R ltac:(lia))|cbv beta|cbv beta].
  - intros e d1 [Hs E]. pose proof (Forall_lookup_1 _ _ _ _ (proj2 R) E) as We.
    apply runs_bind, (runs_eq _ _ _ _ _ _ (is_free_run e d1 We)). pose proof (same_inv _ _ _ Hs I) as I1.
    assert (runs (find_loop fuel (n + 1) u o) (answers (lookup_ent (drop (S (Z.to_nat n)) ents) u o (n + 1)) d)
      (answers_not (lookup_ent (drop (S (Z.to_nat n)) ents) u o (n + 1)) d) d1) as Next.
    { replace (S (Z.to_nat n)) with (Z.to_nat (n + 1)) by lia.
      eapply runs_mono; [apply IH; [done|apply lookup_lt_Some in E; unfold lenZ in *; lia|lia]|..].
      - intros x d2 [? ?]. split; [by eapply same_trans|done].
      - intros x d2 [? ?]. split; [by eapply same_trans|done]. }
    rewrite (drop_S _ _ _ E). cbn [lookup_ent]. unfold matches.
    destruct (used e) eqn:U; cbn [negb andb]; [|done].
    destruct (oidlen e =? lenZ o); cbn [negb andb]; [|done].
    rewrite num_i32 by done. apply runs_bind. eapply runs_eq; [apply (test_file_run d1 (file_number e) (di_files _ _ I1)); apply dw_num; done|].
    apply runs_bind, runs_assert; [apply (di_bits _ _ I1); [by eapply list_elem_of_lookup_2|done]|].
    destruct (same_object e u o); [apply runs_ret|exact Next]. by split.
  - intros r d1 [Hs [[-> E]|Hr]]; (split; [done|]); [left|by right]. split; [done|]. apply lookup_ge_None in E. by rewrite drop_ge by done.
Qed.

Lemma find_run fuel d ents u o : dir_inv d ents -> lenZ ents < Z.of_nat fuel -> finds fuel u o d (lookup_ent ents u o 0).
Proof.
  intros I Hf. pose proof (find_loop_run fuel d ents 0 u o I ltac:(pose proof (lenZ_nonneg ents); lia) ltac:(lia)) as H.
  by rewrite drop_0 in H.
Qed.

Lemma lookup_ent_Some ents u o n f : lookup_ent ents u o n = Some f ->
  exists i e, ents !! i = Some e /\ matches e u o = true /\ f = mk_fileh (file_number e) (hash e) (n + Z.of_nat i) /\
    forall j a, (j < i)%nat -> ents !! j = Some a -> matches a u o = false.
Proof.
  revert n. induction ents as [|e ents IH]; intros n; simpl; [done|].
  destruct (matches e u o) eqn:M.
  - intros [= <-]. exists 0%nat, e. split; [done|]. split; [done|]. split; [f_equal; lia|]. intros. lia.
  - intros (i & a & E & Ma & -> & H)%IH. exists (S i), a. split; [done|]. split; [done|]. split; [f_equal; lia|].
    intros [|j] b Hj Hb; [by injection Hb as <-|]. apply (H j b); [lia|done].
Qed.


Lemma write_ent_S x ents i e : write_ent (x :: ents) (S i) e = x :: write_ent ents i e.
Proof. done. Qed.


Lemma lookup_write_miss ents i e u o n : (i <= length ents)%nat -> matches e u o = false ->
  (forall a, ents !! i = Some a -> matches a u o = false) ->
  lookup_ent (write_ent ents i e) u o n = lookup_ent ents u o n.
Proof.
  intros Hi Me. revert i n Hi. induction ents as [|x ents IH]; intros [|i] n Hi Hb; simpl in Hi; try lia.
  - simpl. by rewrite Me.
  - simpl. by rewrite Me, (Hb x) by done.
  - rewrite write_ent_S. simpl. destruct (matches x u o); [done|]. apply IH; [lia|]. intros a Ha. by apply Hb.
Qed.




Lemma apart_write ents i e : apart ents -> (i <= length ents)%nat ->
  (forall j a, j <> i -> ents !! j = Some a -> used a = true -> used e = true ->
     file_number a <> file_number e /\ forall u o, ~ (matches a u o = true /\ matches e u o = true)) ->
  apart (write_ent ents i e).
Proof.
  intros A Hi H j k a b. rewrite !lookup_write_ent by done. intros Ea Eb Ua Ub Hne.
  destruct (decide (j = i)), (decide (k = i)); subst; try done.
  - injection Ea as <-. destruct (H k b) as [H1 H2]; [done..|]. split; [congruence|]. intros u o [??]. by apply (H2 u o).
  - injection Eb as <-. destruct (H j a) as [H1 H2]; [done..|]. split; [congruence|]. intros u o [??]. by apply (H2 u o).
  - by apply (A j k).
Qed.

(** Writing one entry of a well-formed directory. *)
Lemma dir_inv_write d ents i e d' : dir_inv d ents -> repr d' (write_ent ents i e) ->
  nbits d' = nbits d -> files d' = files d -> (i <= length ents)%nat ->
  (used e = true -> fbit d (file_number e) = true) ->
  (forall j a, j <> i -> ents !! j = Some a -> used a = true -> used e = true ->
     file_number a <> file_number e /\ forall u o, ~ (matches a u o = true /\ matches e u o = true)) ->
  dir_inv d' (write_ent ents i e).
Proof.
  intros [R F B A] R' En Ef Hi He Ha. split; [done| | |by apply apart_write].
  - destruct F. split; congruence.
  - intros x [j Hx]%list_elem_of_lookup U. rewrite lookup_write_ent in Hx by done. unfold fbit in *. rewrite En, Ef.
    destruct (decide (j = i)); [injection Hx as <-; by apply He|]. apply B; [by eapply list_elem_of_lookup_2|done].
Qed.




(** ** Properties *)


Lemma dent_zero_wf : dent_wf dent_zero.
Proof. split; simpl; try done; try lia. by left. Qed.

(** Removing an object. Removing the file a lookup returned either fails with an error of the storage
    or, no assertion failing, leaves a consistent directory in which the object is not found, every
    other object is found as before and the file number is free. *)
Theorem dirfile_remove_find fuel d0 d ents u o f
    (I0 : dir_inv d0 ents) (Hfuel : lenZ ents < Z.of_nat fuel)
    (Hf : tee_fs_dirfile_find fuel u o d0 = (Ret (Some f), d)) :
  runs (tee_fs_dirfile_remove f)
    (fun _ d' => exists ents', dir_inv d' ents' /\ fbit d' (fh_file_number f) = false /\
       forall k, lenZ ents' < Z.of_nat k -> lenZ ents < Z.of_nat k ->
         finds k u o d' None /\ forall u' o', (u', o') <> (u, o) -> exists g, finds k u' o' d g /\ finds k u' o' d' g)
    (fun r _ => r <> 0) d.
Proof.
  pose proof (find_run fuel d0 ents u o I0 Hfuel) as Fr. unfold finds, runs in Fr. rewrite Hf in Fr. destruct Fr as (Hs & _ & E). symmetry in E.
  pose proof (same_inv _ _ _ Hs I0) as I. apply lookup_ent_Some in E as (i & e & Ei & Me & -> & Hb). rewrite Z.add_0_l in *. clear Hs Hf I0 d0.
  pose proof I as [R F B A]. pose proof (Forall_lookup_1 _ _ _ _ (proj2 R) Ei) as We.
  pose proof (lookup_lt_Some _ _ _ Ei) as Hi. pose proof (matches_used _ _ _ Me) as Ue.
  assert (e ∈ ents) as He by (by eapply list_elem_of_lookup_2).
  unfold tee_fs_dirfile_remove. cbn [fh_idx fh_file_number]. apply runs_bind.
  eapply runs_mono; [apply (read_dent_run d ents (Z.of_nat i) R); lia|cbv beta|cbv beta; by intros r d1 [_ [[-> _]|[? _]]]].
  intros e' d1 [Hs E']. rewrite Nat2Z.id, Ei in E'. injection E' as <-. pose proof (same_inv _ _ _ Hs I) as I1.
  apply runs_bind, (runs_eq _ _ _ _ _ _ (is_free_run e d1 We)). rewrite Ue. cbn [negb]. apply runs_bind, runs_assert; [apply Z.eqb_refl|].
  rewrite num_i32 by done. apply runs_bind. eapply runs_eq; [apply (test_file_run d1 (file_number e) (di_files _ _ I1)); apply dw_num; done|].
  apply runs_bind, runs_assert; [by apply (di_bits _ _ I1)|]. apply runs_bind.
  eapply runs_mono; [apply (write_dent_run d1 ents (Z.of_nat i) dent_zero (di_repr _ _ I1) dent_zero_wf); unfold lenZ; lia|cbv beta|done].
  intros _ d' (R' & En & Ef). rewrite Nat2Z.id in R'.
  assert (dir_inv d' (write_ent ents i dent_zero)) as I2 by (eapply (dir_inv_write d1); [done..|lia|done|done]).
  destruct (clear_file_run d' (file_number e) (di_files _ _ I2) ltac:(apply dw_num; done)) as (d2 & Ec & F2 & Ff2 & En2 & B2).
  apply (runs_eq _ _ _ _ _ _ Ec). exists (write_ent ents i dent_zero).
  assert (forall j a, write_ent ents i dent_zero !! j = Some a -> used a = true -> j <> i /\ ents !! j = Some a) as Old.
  { intros j a Ha Ua. rewrite lookup_write_ent in Ha by lia. destruct (decide (j = i)); [by injection Ha as <-|done]. }
  assert (dir_inv d2 (write_ent ents i dent_zero)) as I3.
  { split; [destruct I2 as [[R1 R2] _ _ _]; split; [by rewrite Ff2|done]|done| |apply I2].
    intros a Ha Ua. rewrite B2 by (apply dw_num, (proj1 (Forall_forall _ _) (proj2 R')); done).
    rewrite (di_bits _ _ I2 a Ha Ua), andb_true_r. apply negb_true_iff, Z.eqb_neq.
    apply list_elem_of_lookup in Ha as [j Ha]. destruct (Old j a Ha Ua) as [Hj Ha'].
    by apply (A j i a e Ha' Ei Ua Ue). }
  split; [done|]. split; [rewrite B2, Z.eqb_refl by (apply dw_num; done); done|].
  intros k Hk Hk0. split.
  - pose proof (find_run k d2 _ u o I3 Hk) as H. destruct (lookup_ent (write_ent ents i dent_zero) u o 0) as [g|] eqn:E2; [|done]. exfalso.
    apply lookup_ent_Some in E2 as (j & a & Ea & Ma & _). destruct (Old j a Ea (matches_used _ _ _ Ma)) as [Hj Ha].
    destruct (A j i a e Ha Ei (matches_used _ _ _ Ma) Ue Hj) as [_ N]. by apply (N u o).
  - intros u' o' Hne. exists (lookup_ent ents u' o' 0). split; [by apply find_run|]. pose proof (find_run k d2 _ u' o' I3 Hk) as H.
    rewrite lookup_write_miss in H; [done|lia|done|].
    intros a Ha. rewrite Ei in Ha. injection Ha as <-. destruct (matches e u' o') eqn:M; [|done].
    exfalso. by apply Hne, (matches_inj _ _ _ _ _ Me).
Qed.

(** temporary files. [tee_fs_dirfile_get_tmp] returns a file number that was not in use, so
    that no entry names it, and marks it in use, changing no other number and no entry; it fails
    only for lack of memory. *)
Theorem dirfile_get_tmp_fresh may_alloc junk d ents (I : dir_inv d ents) (Hroom : nbits d < 2 ^ 31 - 1) :
  tee_fs_dirfile_get_tmp may_alloc junk d = (Err TEE_ERROR_OUT_OF_MEMORY, d) \/
  (exists v d', tee_fs_dirfile_get_tmp may_alloc junk d = (Ret v, d') /\ dir_inv d' ents /\
     0 <= v <= nbits d /\ fbit d v = false /\
     (forall e, e ∈ ents -> used e = true -> file_number e <> v) /\
     (forall j, 0 <= j -> fbit d' j = (j =? v) || fbit d j)).
Proof.
  pose proof I as [R F B A]. pose proof F as [Hn Hl Hb]. pose proof (bitstr_size_8 (nbits d) ltac:(lia)).
  assert (exists v, 0 <= v <= nbits d /\ fbit d v = false /\
    tee_fs_dirfile_get_tmp may_alloc junk d = (do! set_file may_alloc junk v in ret v) d) as (v & Hv & Fv & ->).
  { unfold tee_fs_dirfile_get_tmp. rewrite (bind_run _ _ _ d d) by done.
    destruct (Z.eqb_spec (nbits d) 0) as [E|E]; cbn [negb].
    - exists 0. split; [lia|]. split; [|done]. unfold fbit. by rewrite E.
    - destruct (bit_ffc_spec (files d) (nbits d) Hb) as (r & Er & Fb); [lia|]. rewrite Er. cbn [of_opt].
      rewrite bind_assoc, bind_ret_l. destruct Fb as [[-> _]|(H1 & H2 & _)].
      + exists (nbits d). split; [lia|]. split; [|done]. unfold fbit. by rewrite Z.ltb_irrefl.
      + exists r. split; [lia|]. split; [unfold fbit; by rewrite H2, andb_false_r|].
        by rewrite (proj2 (Z.eqb_neq r (-1))) by lia. }
  destruct (set_file_run may_alloc junk d v F) as [Es|(d' & Es & F' & Ff & _ & _ & B')]; [lia|left|right].
  - unfold bind. by rewrite Es.
  - rewrite (bind_run _ _ _ _ _ Es). exists v, d'. split; [done|]. split; [|split; [done|split; [done|split; [|done]]]].
    + split; [destruct R; split; [by rewrite Ff|done]|done| |done].
      intros e He Ue. rewrite B' by (apply dw_num, (proj1 (Forall_forall _ _) (proj2 R)); done).
      by rewrite (B e He Ue), orb_true_r.
    + intros e He Ue C. rewrite <- C, (B e He Ue) in Fv. done.
Qed.

(** ** Opening *)

(** The first [n] entries have different numbers, and exactly those are marked in use. *)
Record scanned d (ents : list dirfile_entry) (n : nat) : Prop := mk_scanned {
  sc_bits : forall j, 0 <= j -> fbit d j = true <->
    exists i e, (i < n)%nat /\ ents !! i = Some e /\ used e = true /\ file_number e = j;
  sc_diff : forall i j a b, (i < j < n)%nat -> ents !! i = Some a -> ents !! j = Some b ->
    used a = true -> used b = true -> file_number a <> file_number b;
}.

(** What clearing duplicates keeps: used entries stay where they are, and every file number that was
    named still is. *)
Definition deduped (ents ents' : list dirfile_entry) : Prop :=
  length ents' = length ents /\
  (forall i e, ents' !! i = Some e -> used e = true -> ents !! i = Some e) /\
  (forall i e, ents !! i = Some e -> used e = true ->
     exists j a, ents' !! j = Some a /\ used a = true /\ file_number a = file_number e).

Lemma scanned_free d ents n e : scanned d ents n -> ents !! n = Some e -> used e = false -> scanned d ents (S n).
Proof.
  intros [B D] E U. split.
  - intros j Hj. rewrite B by done. split; intros (i & a & Hi & Ha & Ua & Fa); exists i, a.
    + split; [lia|done].
    + split; [|done]. destruct (decide (i = n)) as [->|]; [|lia]. rewrite E in Ha. injection Ha as <-. congruence.
  - intros i j a b Hij Ha Hb Ua Ub. apply (D i j); try done. destruct (decide (j = n)) as [->|]; [|lia].
    rewrite E in Hb. injection Hb as <-. congruence.
Qed.

Lemma scanned_clear d d' ents n : (n < length ents)%nat -> scanned d ents n ->
  nbits d' = nbits d -> files d' = files d -> scanned d' (write_ent ents n dent_zero) (S n).
Proof.
  intros Hn [B D] En Ef. eapply scanned_free; [|by rewrite lookup_write_ent, decide_True by (lia || done)|done].
  split.
  - intros j Hj. unfold fbit. rewrite En, Ef. fold (fbit d j). rewrite B by done.
    split; intros (i & a & Hi & Ha & Ua & Fa); exists i, a; (split; [done|]); (split; [|done]);
      rewrite lookup_write_ent, decide_False in * by lia; done.
  - intros i j a b Hij. rewrite !lookup_write_ent, !decide_False by lia. by apply D.
Qed.

Lemma scanned_set d d' ents n e : scanned d ents n -> ents !! n = Some e -> used e = true ->
  0 <= file_number e -> fbit d (file_number e) = false ->
  (forall j, 0 <= j -> fbit d' j = (j =? file_number e) || fbit d j) -> scanned d' ents (S n).
Proof.
  intros [B D] E U Hp Hb B'. split.
  - intros j Hj. rewrite B', orb_true_iff, Z.eqb_eq, B by done. split.
    + intros [->|(i & a & Hi & Ha)]; [by exists n, e; split; [lia|]|]. exists i, a. split; [lia|done].
    + intros (i & a & Hi & Ha & Ua & Fa). destruct (decide (i = n)) as [->|].
      * left. rewrite E in Ha. by injection Ha as <-.
      * right. exists i, a. split; [lia|done].
  - intros i j a b Hij Ha Hb' Ua Ub. destruct (decide (j = n)) as [->|]; [|by apply (D i j); try done; lia].
    rewrite E in Hb'. injection Hb' as <-. intros C. rewrite <- C in Hb.
    rewrite (proj2 (B (file_number a) ltac:(lia))) in Hb; [done|]. exists i, a. split; [lia|done].
Qed.

Lemma same_scanned d d' ents n : same d d' -> scanned d ents n -> scanned d' ents n.
Proof. intros Hs [B D]. split; [|done]. intros j Hj. rewrite (same_fbit _ _ _ Hs). by apply B. Qed.

(** Clearing entry [n], which repeats a number, and then the entries after it. *)
Lemma deduped_clear d ents ents' n e : scanned d ents n -> ents !! n = Some e -> 0 <= file_number e -> fbit d (file_number e) = true ->
  deduped (write_ent ents n dent_zero) ents' -> deduped ents ents'.
Proof.
  intros Sc E Hp Fb (L & K & N). pose proof (lookup_lt_Some _ _ _ E) as Hlt.
  assert (length (write_ent ents n dent_zero) = length ents) as Hl by (unfold write_ent; rewrite length_app, length_take; simpl; rewrite length_drop; lia).
  split; [lia|]. split.
  - intros i a Ha Ua. specialize (K i a Ha Ua). rewrite lookup_write_ent in K by lia. destruct (decide (i = n)); [by injection K as <-|done].
  - intros i a Ha Ua. destruct (decide (i = n)) as [->|].
    + rewrite E in Ha. injection Ha as <-. apply (sc_bits _ _ _ Sc) in Fb as (j & b & Hj & Hb & Ub & Fn); [|lia].
      destruct (N j b) as (j' & c & Hc & Uc & Fc); [by rewrite lookup_write_ent, decide_False by lia|done|].
      exists j', c. split; [done|]. split; [done|congruence].
    + apply (N i a); [by rewrite lookup_write_ent, decide_False by lia|done].
Qed.

Lemma open_loop_run may_alloc junk fuel d ents n :
  repr d ents -> files_ok d -> scanned d ents n -> (n <= length ents)%nat -> (length ents - n < fuel)%nat ->
  runs (open_loop may_alloc junk fuel (Z.of_nat n)) (fun x d' => exists ents', x = Some (lenZ ents') /\
     repr d' ents' /\ files_ok d' /\ scanned d' ents' (length ents') /\ deduped ents ents') (fun r _ => r <> 0) d.
Proof.
  revert d ents n. induction fuel as [|fuel IH]; intros d0 ents n R0 F0 Sc0 Hn Hf; [lia|]. cbn [open_loop]. apply runs_bind.
  eapply runs_mono; [apply (try_read_run d0 ents (Z.of_nat n) R0); lia|cbv beta|by intros r d []]. rewrite Nat2Z.id. intros x d [Hs ->].
  pose proof (same_repr _ _ _ Hs R0) as R. pose proof (same_files _ _ Hs F0) as F. pose proof (same_scanned _ _ _ _ Hs Sc0) as Sc.
  replace (Z.of_nat n + 1) with (Z.of_nat (S n)) by lia. destruct (ents !! n) as [e|] eqn:E.
  - pose proof (Forall_lookup_1 _ _ _ _ (proj2 R) E) as We. pose proof (lookup_lt_Some _ _ _ E) as Hlt.
    apply runs_bind, (runs_eq _ _ _ _ _ _ (is_free_run e d We)). destruct (used e) eqn:U; cbn [negb]; [|apply IH; [done|done|by eapply scanned_free|lia|lia]].
    rewrite num_i32 by done. pose proof (dw_num _ We) as Hnum. apply runs_bind. eapply runs_eq; [apply (test_file_run d (file_number e) F); lia|].
    destruct (fbit d (file_number e)) eqn:Fb; apply runs_bind.
    + eapply runs_mono; [apply (write_dent_run d ents (Z.of_nat n) dent_zero R dent_zero_wf); unfold lenZ; lia|cbv beta|done].
      intros _ d1 (R1 & En & Ef). rewrite Nat2Z.id in R1.
      assert (length (write_ent ents n dent_zero) = length ents) as Hl by (unfold write_ent; rewrite length_app, length_take; simpl; rewrite length_drop; lia).
      eapply runs_mono; [apply (IH d1 (write_ent ents n dent_zero) (S n) R1); [destruct F; split; congruence|by eapply scanned_clear|lia|lia]|cbv beta|done].
      intros x d2 (ents2 & -> & R2 & F2 & S2 & Dd). exists ents2. split_and!; [done..|]. eapply (deduped_clear d); (done || lia).
    + destruct (set_file_run may_alloc junk d (file_number e) F) as [Es|(d1 & Es & F1 & Ff & _ & _ & B1)]; [lia|unfold runs; by rewrite Es|].
      apply (runs_eq _ _ _ _ _ _ Es). apply (IH d1 ents (S n)); [destruct R; split; [by rewrite Ff|done]|done| |lia|lia].
      by eapply scanned_set; try done; lia.
  - apply runs_ret. apply lookup_ge_None in E. assert (n = length ents) as -> by lia. exists ents. split_and!; [done..|].
    split; [done|]. split; [done|]. eauto.
Qed.

(** opening a directory. From a handle with an empty table on any well-formed file in which no
    two used entries name the same object, [tee_fs_dirfile_open] ends, either with an error of the
    storage or the allocator, or in a consistent directory: entries that repeat a file number have
    been cleared, nothing else has changed, and exactly the numbers named by an entry are in use. *)
Theorem dirfile_open_spec may_alloc junk fuel f ents
    (Hc : fop_contents f = layout ents) (Hw : Forall dent_wf ents) (Hfuel : (length ents < fuel)%nat)
    (Hkeys : forall i j a b u o, ents !! i = Some a -> ents !! j = Some b -> i <> j ->
       ~ (matches a u o = true /\ matches b u o = true)) :
  runs (tee_fs_dirfile_open may_alloc junk fuel)
    (fun x d' => x = Some tt /\ exists ents', dir_inv d' ents' /\ deduped ents ents' /\ ndents d' = lenZ ents' /\
       forall j, 0 <= j -> fbit d' j = true <-> exists e, e ∈ ents' /\ used e = true /\ file_number e = j)
    (fun r _ => r <> 0) (mk_dirh f 0 [] 0).
Proof.
  set (d0 := mk_dirh f 0 [] 0).
  assert (repr d0 ents) as R0 by done. assert (files_ok d0) as F0 by (split; simpl; [lia|done|constructor]).
  assert (scanned d0 ents 0) as S0.
  { split; [|intros; lia]. intros j Hj. unfold fbit. simpl. rewrite (proj2 (Z.ltb_ge j 0)) by done. split; [done|].
    intros (i & e & Hi & _). lia. }
  unfold tee_fs_dirfile_open. apply runs_bind.
  eapply runs_mono; [apply (open_loop_run may_alloc junk fuel d0 ents 0 R0 F0 S0); lia|cbv beta|done].
  intros x d' (ents' & -> & R & F & Sc & Dd). apply runs_bind, runs_get, runs_bind. unfold put. eapply runs_eq; [done|]. apply runs_ret.
  split; [done|]. exists ents'. destruct Sc as [B Df]. split; [|split; [done|split; [done|]]].
  - split; [done|by destruct F| |].
    + intros e [i He]%list_elem_of_lookup U. apply (B (file_number e)).
      { apply dw_num. by apply (Forall_lookup_1 _ _ _ _ (proj2 R) He). }
      exists i, e. split; [by eapply lookup_lt_Some|done].
    + intros i j a b Ha Hb Ua Ub Hne. pose proof (lookup_lt_Some _ _ _ Ha). pose proof (lookup_lt_Some _ _ _ Hb).
      destruct Dd as (_ & K & _). split; [|intros u o; by apply (Hkeys i j a b u o (K i a Ha Ua) (K j b Hb Ub))].
      destruct (decide (i < j)%nat); [apply (Df i j a b); done|]. apply not_eq_sym, (Df j i b a); try done. lia.
  - intros j Hj. change (fbit d' j = true <-> exists e, e ∈ ents' /\ used e = true /\ file_number e = j).
    rewrite B by done. split.
    + intros (i & e & _ & He & Ue & Fe). exists e. split; [by eapply list_elem_of_lookup_2|done].
    + intros (e & [i He]%list_elem_of_lookup & Ue & Fe). exists i, e. split; [by eapply lookup_lt_Some|done].
Qed.
End Spec.

(** ** An implementation of the storage interface

    A file in memory that can hold [cap] bytes; a write past that writes the first half of the data and
    fails, and the reads at the head of [faults] that are marked fail. *)
Record mem_file := mk_mem { bytes : list Z; cap : Z; faults : list bool }.

#[export] Instance Fops_mem : Fops mem_file := {
  fop_read pos len f :=
    (if default false (head (faults f)) then Err TEE_ERROR_CORRUPT_OBJECT else Ret (take (Z.to_nat len) (drop (Z.to_nat pos) (bytes f))),
     mk_mem (bytes f) (cap f) (tail (faults f)));
  fop_write pos d f := if pos + lenZ d <=? cap f then (Ret tt, mk_mem (overwrite (bytes f) pos d) (cap f) (faults f))
                       else (Err TEE_ERROR_STORAGE_NOT_AVAILABLE, mk_mem (overwrite (bytes f) pos (take 60 d)) (cap f) (faults f));
  fop_contents := bytes;
}.

#[export] Instance FopsLaws_mem : FopsLaws mem_file.
Proof.
  split; intros f pos d; cbn.
  - intros _ _. do 2 eexists. split; [reflexivity|]. split; [done|]. destruct (default false (head (faults f))); [right|by left]. by eexists.
  - intros Hp. destruct (pos + lenZ d <=? cap f); do 2 eexists; (split; [reflexivity|]); [by left|right; by eexists].
Qed.

(** ** Witnesses *)

Definition ex_uuid : list Z := replicate 16 7.
Definition ex_dent (n : Z) (o : list Z) : dirfile_entry :=
  mk_dent ex_uuid (o ++ replicate (64 - length o) 0) (lenZ o) (replicate 32 n) n.
Definition ex_ents : list dirfile_entry := [ex_dent 0 [65]; dent_zero; ex_dent 1 [66; 66]].
Definition ex_dir : dirh mem_file := mk_dirh (mk_mem (layout ex_ents) 1000 []) 3 [7] 3.

Lemma ex_ents_wf : Forall dent_wf ex_ents.
Proof. repeat constructor; vm_compute; try done; try (intros; by left). Qed.

Lemma ex_apart : apart ex_ents.
Proof.
  intros i j a b Ha Hb Ua Ub Hij. split.
  - destruct i as [|[|[|i]]], j as [|[|[|j]]]; simpl in Ha, Hb; try done; injection Ha as <-; injection Hb as <-; done.
  - intros u o [Ma Mb]. unfold matches in *. bool_hyps.
    destruct i as [|[|[|i]]], j as [|[|[|j]]]; simpl in Ha, Hb; try done; injection Ha as <-; injection Hb as <-;
      unfold ex_dent, lenZ in *; simpl in *; lia.
Qed.

Lemma ex_dir_inv : dir_inv ex_dir ex_ents.
Proof.
  split.
  - split; [done|apply ex_ents_wf].
  - split; simpl; [lia|done|by repeat constructor].
  - intros e He U. unfold ex_ents in He.
    repeat (apply elem_of_cons in He as [->|He]; [first [done | vm_compute; done]|]). by apply not_elem_of_nil in He.
  - apply ex_apart.
Qed.


(** A read that fails during the search for the object, and a write that fails: the call fails. *)
Example rename_fails :
  let f := mk_fileh 2 (replicate 32 5) (-1) in
  let dir cap faults := mk_dirh (mk_mem (layout ex_ents) cap faults) 3 [7] 3 in
  fst (tee_fs_dirfile_rename 9 ex_uuid f [67] (dir 1000 [false; true])) = Err TEE_ERROR_CORRUPT_OBJECT /\
  fst (tee_fs_dirfile_rename 9 ex_uuid f [67] (dir 200 [])) = Err TEE_ERROR_STORAGE_NOT_AVAILABLE.
Proof. vm_compute. done. Qed.

Lemma dirfile_remove_find_witness :
  runs (tee_fs_dirfile_remove (mk_fileh 1 (replicate 32 1) 2))
    (fun _ d' => exists ents', dir_inv d' ents' /\ fbit d' 1 = false /\
       forall k, lenZ ents' < Z.of_nat k -> lenZ ex_ents < Z.of_nat k ->
         finds k ex_uuid [66; 66] d' None /\
         forall u' o', (u', o') <> (ex_uuid, [66; 66]) -> exists g, finds k u' o' ex_dir g /\ finds k u' o' d' g)
    (fun r _ => r <> 0) ex_dir.
Proof.
  apply (dirfile_remove_find 9 ex_dir ex_dir ex_ents ex_uuid [66; 66] (mk_fileh 1 (replicate 32 1) 2));
    [apply ex_dir_inv | done | vm_compute; done].
Defined.

Lemma dirfile_get_tmp_fresh_witness :
  tee_fs_dirfile_get_tmp (fun _ => true) 99 ex_dir = (Err TEE_ERROR_OUT_OF_MEMORY, ex_dir) \/
  (exists v d', tee_fs_dirfile_get_tmp (fun _ => true) 99 ex_dir = (Ret v, d') /\ dir_inv d' ex_ents /\
     0 <= v <= nbits ex_dir /\ fbit ex_dir v = false /\
     (forall e, e ∈ ex_ents -> used e = true -> file_number e <> v) /\
     (forall j, 0 <= j -> fbit d' j = (j =? v) || fbit ex_dir j)).
Proof. apply (dirfile_get_tmp_fresh (fun _ => true) 99 ex_dir ex_ents); [apply ex_dir_inv | done]. Defined.

Lemma dirfile_open_spec_witness :
  runs (tee_fs_dirfile_open (fun _ => true) 99 4)
    (fun x d' => x = Some tt /\ exists ents', dir_inv d' ents' /\ deduped ex_ents ents' /\ ndents d' = lenZ ents' /\
       forall j, 0 <= j -> fbit d' j = true <-> exists e, e ∈ ents' /\ used e = true /\ file_number e = j)
    (fun r _ => r <> 0) (mk_dirh (mk_mem (layout ex_ents) 1000 []) 0 [] 0).
Proof.
  apply (dirfile_open_spec (fun _ => true) 99 4 (mk_mem (layout ex_ents) 1000 []) ex_ents).
  - done.
  - apply ex_ents_wf.
  - simpl. lia.
  - intros i j a b u o Ha Hb Hij [Ma Mb].
    destruct (ex_apart i j a b Ha Hb (matches_used _ _ _ Ma) (matches_used _ _ _ Mb) Hij) as [_ N]. by apply (N u o).
Defined.
