(* ===== verification/Htree.v ===== *)
(** * The hash tree of secure storage files

    optee_os/core/tee/fs_htree.c with include/tee/fs_htree.h. A file is a binary tree of nodes, one
    per data block, kept in memory ([tee_fs_htree]) and in two versions per element in storage of the
    normal world ([stor], by type, index and version). A struct copied to or from storage is its
    bytes. The cryptographic library is the class [HtEnv] with the laws [HtLaws]; a call into it, an
    RPC to the normal world and an allocation take their outcome from [events] (all succeed when the
    list is used up), and a failing write may or may not have reached the storage. [*ht_arg] is
    [cur]; NULL is [None]. *)
From stdpp Require Import gmap.
From S2P Require Import Prelude.
Local Open Scope Z_scope.

(** ** Cryptography and configuration *)

Class HtEnv := {
  sha256 : list Z -> list Z;
  gcm_enc : list Z -> list Z -> list Z -> list Z -> list Z * list Z;      (* key, iv, aad, plain: cipher, tag *)
  gcm_dec : list Z -> list Z -> list Z -> list Z -> list Z -> option (list Z);  (* key, iv, aad, cipher, tag *)
  fek_enc : list Z -> list Z;                                             (* tee_fs_fek_crypt() for the TA *)
  fek_dec : list Z -> list Z;
  random : nat -> nat -> list Z;                                          (* n-th draw, of a size *)
  block_size : nat;
  CFG_REE_FS_HTREE_HASH_SIZE_COMPAT : bool;
}.

(** What the library promises: sizes, and that decryption undoes encryption. *)
Class HtLaws `{HtEnv} := {
  sha256_len m : length (sha256 m) = 32%nat;
  gcm_len k iv aad p : length (fst (gcm_enc k iv aad p)) = length p;
  gcm_tag_len k iv aad p : length (snd (gcm_enc k iv aad p)) = 16%nat;
  gcm_dec_enc k iv aad p : gcm_dec k iv aad (fst (gcm_enc k iv aad p)) (snd (gcm_enc k iv aad p)) = Some p;
  gcm_dec_len k iv aad c t p : gcm_dec k iv aad c t = Some p -> length p = length c;
  fek_enc_len k : length k = 16%nat -> length (fek_enc k) = 16%nat;
  fek_dec_enc k : length k = 16%nat -> fek_dec (fek_enc k) = k;
  random_len i n : length (random i n) = n;
}.

(** ** Data *)

Definition HTREE_NODE_COMMITTED_BLOCK : Z := 2 ^ 0.
Definition HTREE_NODE_COMMITTED_CHILD (n : Z) : Z := 2 ^ (1 + n).
Definition BLOCK_NUM_TO_NODE_ID (num : Z) : Z := num + 1.
Definition UINT_MAX : Z := 0xffffffff.

Definition TEE_FS_HTREE_TYPE_HEAD : Z := 0.
Definition TEE_FS_HTREE_TYPE_NODE : Z := 1.
Definition TEE_FS_HTREE_TYPE_BLOCK : Z := 2.
Abbreviation key := (Z * Z * Z)%type.

(** [struct tee_fs_htree_node_image], 66 bytes. *)
Record node_image := mk_image { hash : list Z; iv : list Z; tag : list Z; flags : Z }.
Definition image_bytes (n : node_image) : list Z := hash n ++ iv n ++ tag n ++ le_bytes 2 (flags n).
Definition bytes_image (b : list Z) : node_image :=
  mk_image (take 32 b) (take 16 (drop 32 b)) (take 16 (drop 48 b)) (le_val (take 2 (drop 64 b))).

(** [struct tee_fs_htree_imeta], 16 bytes with its padding. *)
Record htree_imeta := mk_imeta { length_ : Z; max_node_id : Z; imeta_pad : Z }.
Definition imeta_bytes (m : htree_imeta) : list Z := le_bytes 8 (length_ m) ++ le_bytes 4 (max_node_id m) ++ le_bytes 4 (imeta_pad m).
Definition bytes_imeta (b : list Z) : htree_imeta :=
  mk_imeta (le_val (take 8 b)) (le_val (take 4 (drop 8 b))) (le_val (take 4 (drop 12 b))).
(** [struct tee_fs_htree_meta]. *)
Definition meta_bytes (m : htree_imeta) : list Z := le_bytes 8 (length_ m).

(** [struct tee_fs_htree_image], 68 bytes. *)
Record htree_image := mk_head { head_iv : list Z; head_tag : list Z; enc_fek : list Z; head_imeta : list Z; counter : Z }.
Definition head_bytes (h : htree_image) : list Z :=
  head_iv h ++ head_tag h ++ enc_fek h ++ head_imeta h ++ le_bytes 4 (counter h).
Definition bytes_head (b : list Z) : htree_image :=
  mk_head (take 16 b) (take 16 (drop 16 b)) (take 16 (drop 32 b)) (take 16 (drop 48 b)) (le_val (take 4 (drop 64 b))).

Definition zeros (n : nat) : list Z := replicate n 0.
Definition zero_image : node_image := mk_image (zeros 32) (zeros 16) (zeros 16) 0.
Definition zero_head (c : Z) : htree_image := mk_head (zeros 16) (zeros 16) (zeros 16) (zeros 16) c.

(** [struct htree_node *]: the root has no parent, every other node one. *)
Inductive htree_node :=
| NULL
| Node (id : Z) (dirty block_updated : bool) (node : node_image) (child0 child1 : htree_node).

Record tee_fs_htree := mk_htree {
  root : htree_node; head : htree_image; fek : list Z; imeta : htree_imeta; ht_dirty : bool }.

(** The outcome of an external call; [wrote]: a failing write reached the storage. *)
Record event := mk_event { code : Z; wrote : bool }.

Record fs := mk_fs { cur : option tee_fs_htree; stor : gmap key (list Z); seed : nat; events : list event }.

Abbreviation H := (M fs).

Section Code.
Context {henv : HtEnv}.

(** ** External calls *)

Definition set_cur (o : option tee_fs_htree) (s : fs) : fs := mk_fs o (stor s) (seed s) (events s).
Definition set_stor (f : gmap key (list Z) -> gmap key (list Z)) (s : fs) : fs := mk_fs (cur s) (f (stor s)) (seed s) (events s).

Definition ext : H event := fun s =>
  match events s with
  | [] => (Ret (mk_event 0 true), s)
  | e :: r => (Ret e, mk_fs (cur s) (stor s) (seed s) r)
  end.

(** A call that can only fail or succeed. *)
Definition ext_call : H unit := let! e := ext in guard_err (negb (code e =? 0)) (code e).
(** [calloc]. *)
Definition calloc : H unit := let! e := ext in guard_err (negb (code e =? 0)) TEE_ERROR_OUT_OF_MEMORY.

Definition crypto_rng_read (n : nat) : H (list Z) :=
  do! ext_call in
  fun s => (Ret (random (seed s) n), mk_fs (cur s) (stor s) (S (seed s)) (events s)).

(** [ht->...] and updates of it. *)
Definition ht : H tee_fs_htree := let! s := get in of_opt UseAfterFree (cur s).
Definition set_ht (t : tee_fs_htree) : H unit := modify (set_cur (Some t)).
Definition with_root (r : htree_node) (t : tee_fs_htree) : tee_fs_htree := mk_htree r (head t) (fek t) (imeta t) (ht_dirty t).
Definition with_head (h : htree_image) (t : tee_fs_htree) : tee_fs_htree := mk_htree (root t) h (fek t) (imeta t) (ht_dirty t).
Definition with_fek (k : list Z) (t : tee_fs_htree) : tee_fs_htree := mk_htree (root t) (head t) k (imeta t) (ht_dirty t).
Definition with_imeta (m : htree_imeta) (t : tee_fs_htree) : tee_fs_htree := mk_htree (root t) (head t) (fek t) m (ht_dirty t).
Definition with_dirty (d : bool) (t : tee_fs_htree) : tee_fs_htree := mk_htree (root t) (head t) (fek t) (imeta t) d.

Definition rpc_read (k : key) (dlen : Z) : H (list Z) :=
  do! ext_call in
  do! ext_call in
  let! s := get in
  let data := default [] (stor s !! k) in
  do! guard_err (negb (lenZ data =? dlen)) TEE_ERROR_CORRUPT_OBJECT in
  ret data.

Definition rpc_write_final (k : key) (data : list Z) : H unit :=
  let! e := ext in
  do! (if (code e =? 0) || wrote e then modify (set_stor (<[k := data]>)) else ret tt) in
  guard_err (negb (code e =? 0)) (code e).

Definition rpc_write (k : key) (data : list Z) : H unit := do! ext_call in rpc_write_final k data.

Definition rpc_read_head (vers : Z) : H htree_image :=
  let! b := rpc_read (TEE_FS_HTREE_TYPE_HEAD, 0, vers) 68 in ret (bytes_head b).
Definition rpc_read_node (node_id vers : Z) : H node_image :=
  let! b := rpc_read (TEE_FS_HTREE_TYPE_NODE, node_id - 1, vers) 66 in ret (bytes_image b).
Definition rpc_write_head (vers : Z) (h : htree_image) : H unit := rpc_write (TEE_FS_HTREE_TYPE_HEAD, 0, vers) (head_bytes h).
Definition rpc_write_node (node_id vers : Z) (n : node_image) : H unit :=
  rpc_write (TEE_FS_HTREE_TYPE_NODE, node_id - 1, vers) (image_bytes n).

(** ** Walking the tree *)

(** What a callback did to the parent of its node: [dirty] is set and its flags are new. *)
Definition touch_parent (f : option Z) (n : htree_node) : htree_node :=
  match f, n with
  | Some f, Node id _ u im c0 c1 => Node id true u (mk_image (hash im) (iv im) (tag im) f) c0 c1
  | _, _ => n
  end.

Definition image_of (n : htree_node) : node_image := match n with NULL => zero_image | Node _ _ _ im _ _ => im end.
Definition child (n : htree_node) (b : Z) : htree_node :=
  match n with NULL => NULL | Node _ _ _ _ c0 c1 => if b =? 0 then c0 else c1 end.
Definition set_child (b : Z) (c n : htree_node) : htree_node :=
  match n with
  | NULL => NULL
  | Node i d u im c0 c1 => if b =? 0 then Node i d u im c c1 else Node i d u im c0 c
  end.

(** A callback gets the flags of the parent ([None] for the root, which has none) and the node, with
    its children done; it returns the node and the flags of the parent if it changed them. *)
Abbreviation traverse_cb_t := (option Z -> htree_node -> H (htree_node * option Z)).

Fixpoint traverse_post_order (cb : traverse_cb_t) (parent : option Z) (node : htree_node) : H (htree_node * option Z) :=
  match node with
  | NULL => ret (NULL, None)
  | Node id d u im c0 c1 =>
      let! r0 := traverse_post_order cb (Some (flags im)) c0 in
      let n := touch_parent (snd r0) (Node id d u im (fst r0) c1) in
      let! r1 := traverse_post_order cb (Some (flags (image_of n))) c1 in
      let n := touch_parent (snd r1) (set_child 1 (fst r1) n) in
      cb parent n
  end.

Definition htree_traverse_post_order (cb : traverse_cb_t) : H unit :=
  let! t := ht in
  let! r := traverse_post_order cb None (root t) in
  let! t := ht in
  set_ht (with_root (fst r) t).

(** [sizeof(unsigned int) * 8 - __builtin_clz(node_id)] *)
Definition node_id_to_level (node_id : Z) : H Z :=
  do! assert_ (negb (node_id =? 0) && (node_id <? UINT_MAX)) in ret (Z.log2 node_id + 1).

Definition node_id (n : htree_node) : Z := match n with NULL => 0 | Node id _ _ _ _ _ => id end.

(** The loop of [find_closest_node()]: [k] levels remain below [node]. *)
Fixpoint closest (k : nat) (id : Z) (node : htree_node) : htree_node :=
  match k with
  | O => node
  | S k' =>
      match child node (Z.land (Z.shiftr id (Z.of_nat k')) 1) with
      | NULL => node
      | c => closest k' id c
      end
  end.

(** A change made through the pointer [find_closest_node()] returns. *)
Fixpoint upd_closest (k : nat) (id : Z) (f : htree_node -> htree_node) (node : htree_node) : htree_node :=
  match k with
  | O => f node
  | S k' =>
      match node with
      | NULL => NULL
      | Node i d u im c0 c1 =>
          if Z.land (Z.shiftr id (Z.of_nat k')) 1 =? 0
          then match c0 with NULL => f node | c => Node i d u im (upd_closest k' id f c) c1 end
          else match c1 with NULL => f node | c => Node i d u im c0 (upd_closest k' id f c) end
      end
  end.

Definition find_closest_node (id : Z) : H htree_node :=
  let! level := node_id_to_level id in
  let! t := ht in
  ret (closest (Z.to_nat (level - 1)) id (root t)).

(** A change of the node that [find_closest_node()] finds. *)
Definition upd_node (id : Z) (f : htree_node -> htree_node) : H unit :=
  let! level := node_id_to_level id in
  let! t := ht in
  set_ht (with_root (upd_closest (Z.to_nat (level - 1)) id f (root t)) t).

Definition find_node (id : Z) : H (option htree_node) :=
  let! n := find_closest_node id in
  ret (if node_id n =? id then Some n else None).

Definition is_null (n : htree_node) : bool := match n with NULL => true | _ => false end.

(** The loop that adds missing nodes; [last] is the id of [node]. *)
Definition add_nodes (from : Z) (count : nat) (last : Z) : H Z :=
  for_ count from (fun n _ =>
    let! node := find_closest_node n in
    if node_id node =? n then ret n else
    do! assert_ (Z.shiftr n 1 =? node_id node) in
    do! assert_ (is_null (child node (Z.land n 1))) in
    do! calloc in
    do! upd_node n (set_child (Z.land n 1) (Node n false false zero_image NULL NULL)) in
    ret n) last.

(** [get_node()]: the node returned is the one with id [id]. *)
Definition get_node (create : bool) (id : Z) : H unit :=
  let! node := find_closest_node id in
  if node_id node =? id then ret tt else
  do! guard_err (negb create) TEE_ERROR_GENERIC in
  let! last := add_nodes (node_id node + 1) (Z.to_nat (id - node_id node)) (node_id node) in
  let! t := ht in
  if max_node_id (imeta t) <? last
  then set_ht (with_imeta (mk_imeta (length_ (imeta t)) (uwrap 32 last) (imeta_pad (imeta t))) t) else ret tt.

(** ** Reading the tree *)

Definition get_idx_from_counter (counter0 counter1 : Z) : Z :=
  if negb (has counter0 1) then
    if negb (has counter1 1) then 0 else if counter1 <? counter0 then 0 else 1
  else if has counter1 1 then 1 else -1.

Definition with_image (im : node_image) (n : htree_node) : htree_node :=
  match n with NULL => NULL | Node i d u _ c0 c1 => Node i d u im c0 c1 end.
Definition with_id (i : Z) (n : htree_node) : htree_node :=
  match n with NULL => NULL | Node _ d u im c0 c1 => Node i d u im c0 c1 end.

Definition mod_ht (f : tee_fs_htree -> tee_fs_htree) : H unit := let! t := ht in set_ht (f t).
Definition mod_root (f : htree_node -> htree_node) : H unit := mod_ht (fun t => with_root (f (root t)) t).

Definition init_head_from_data (hash_ : option (list Z)) (min_counter : Z) : H unit :=
  do! match hash_ with
  | Some h =>
      let! n := rpc_read_node 1 0 in
      do! mod_root (with_image n) in
      if bool_decide (hash n = h) then let! hd := rpc_read_head 0 in mod_ht (with_head hd) else
      let! n := rpc_read_node 1 1 in
      do! mod_root (with_image n) in
      if bool_decide (hash n = h) then let! hd := rpc_read_head 1 in mod_ht (with_head hd) else
      err TEE_ERROR_CORRUPT_OBJECT
  | None =>
      let! h0 := rpc_read_head 0 in
      let! h1 := rpc_read_head 1 in
      let idx := get_idx_from_counter (counter h0) (counter h1) in
      do! guard_err (idx <? 0) TEE_ERROR_SECURITY in
      let! n := rpc_read_node 1 idx in
      do! mod_root (with_image n) in
      mod_ht (with_head (if idx =? 0 then h0 else h1))
  end in
  let! t := ht in
  do! guard_err (counter (head t) <? min_counter) TEE_ERROR_SECURITY in
  mod_root (with_id 1).

(** The loop of [init_tree_from_data()], for the node ids from [id]. *)
Fixpoint init_nodes (fuel : nat) (id : Z) : H unit :=
  match fuel with
  | O => undef OutOfFuel
  | S k =>
      let! t := ht in
      if id <=? max_node_id (imeta t) then
        let! p := find_node (Z.shiftr id 1) in
        match p with
        | None => err TEE_ERROR_GENERIC
        | Some p =>
            let committed_version := if has (flags (image_of p)) (HTREE_NODE_COMMITTED_CHILD (Z.land id 1)) then 1 else 0 in
            let! im := rpc_read_node id committed_version in
            do! get_node true id in
            do! upd_node id (with_image im) in
            init_nodes k (id + 1)
        end
      else ret tt
  end.

Definition init_tree_from_data : H unit :=
  let! t := ht in init_nodes (S (Z.to_nat (max_node_id (imeta t)))) 2.

(** ** Hashes and authenticated encryption *)

(** The bytes hashed for a node: its image after the hash, the metadata for the root, the hashes of
    its children. *)
Definition hash_input (meta : option (list Z)) (n : htree_node) : list Z :=
  match n with
  | NULL => []
  | Node _ _ _ im c0 c1 =>
      (iv im ++ tag im ++ le_bytes 2 (flags im)) ++ default [] meta ++
      match c0 with NULL => [] | Node _ _ _ i0 _ _ => hash i0 end ++
      match c1 with NULL => [] | Node _ _ _ i1 _ _ => hash i1 end
  end.

Definition calc_node_hash (meta : option (list Z)) (n : htree_node) : H (list Z) :=
  do! ext_call in ret (sha256 (hash_input meta n)).

(** The additional data of [authenc_init()]; [ni] is the iv of a node image, [None] for the head. *)
Definition authenc_aad (t : tee_fs_htree) (ni : option (list Z)) : list Z :=
  match ni with
  | Some v => enc_fek (head t) ++ v
  | None => take (if CFG_REE_FS_HTREE_HASH_SIZE_COMPAT then 16 else 32) (hash (image_of (root t))) ++
      le_bytes 4 (counter (head t)) ++ enc_fek (head t) ++ head_iv (head t)
  end.

Definition authenc_decrypt (aad iv_ tag_ crypt : list Z) : H (list Z) :=
  do! ext_call in
  let! t := ht in
  match gcm_dec (fek t) iv_ aad crypt tag_ with
  | Some p => ret p
  | None => err TEE_ERROR_CORRUPT_OBJECT
  end.

Definition verify_root : H unit :=
  do! ext_call in
  do! mod_ht (fun t => with_fek (fek_dec (enc_fek (head t))) t) in
  let! t := ht in
  let! p := authenc_decrypt (authenc_aad t None) (head_iv (head t)) (head_tag (head t)) (head_imeta (head t)) in
  mod_ht (with_imeta (bytes_imeta p)).

(** The metadata are hashed with the root only. *)
Definition meta_for (parent : option Z) (meta : list Z) : option (list Z) :=
  match parent with Some _ => None | None => Some meta end.

Definition verify_node (meta : list Z) (parent : option Z) (n : htree_node) : H (htree_node * option Z) :=
  let! digest := calc_node_hash (meta_for parent meta) n in
  do! guard_err (negb (bool_decide (digest = hash (image_of n)))) TEE_ERROR_CORRUPT_OBJECT in
  ret (n, None).

Definition verify_tree : H unit :=
  do! ext_call in
  let! t := ht in
  htree_traverse_post_order (verify_node (meta_bytes (imeta t))).

Definition with_hash (h : list Z) (n : htree_node) : htree_node :=
  with_image (mk_image h (iv (image_of n)) (tag (image_of n)) (flags (image_of n))) n.

Definition set_node_dirty (n : htree_node) : htree_node :=
  match n with NULL => NULL | Node i _ u im c0 c1 => Node i true u im c0 c1 end.

Definition init_root_node : H unit :=
  do! ext_call in
  do! mod_root (fun r => set_node_dirty (with_id 1 r)) in
  let! t := ht in
  let! h := calc_node_hash (Some (meta_bytes (imeta t))) (root t) in
  mod_root (with_hash h).

(** ** Writing the tree *)

Definition htree_sync_node_to_storage (parent : option Z) (n : htree_node) : H (htree_node * option Z) :=
  match n with
  | NULL => ret (NULL, None)
  | Node id d u im c0 c1 =>
      do! assert_ (implb u d) in
      if negb d then ret (n, None) else
      let! t := ht in
      let f := HTREE_NODE_COMMITTED_CHILD (Z.land id 1) in
      let parent' := match parent with Some pf => Some (Z.lxor pf f) | None => None end in
      let vers := match parent' with
                  | Some pf => if has pf f then 1 else 0
                  | None => if has (counter (head t)) 1 then 0 else 1
                  end in
      let! h := calc_node_hash (meta_for parent (meta_bytes (imeta t))) n in
      let im' := mk_image h (iv im) (tag im) (flags im) in
      do! rpc_write_node id vers im' in
      ret (Node id false false im' c0 c1, parent')
  end.

(** [authenc_init()] and [authenc_encrypt_final()] for the head: a new iv, tag and ciphertext. *)
Definition update_root : H unit :=
  do! mod_ht (fun t => with_head (mk_head (head_iv (head t)) (head_tag (head t)) (enc_fek (head t)) (head_imeta (head t))
    (uwrap 32 (counter (head t) + 1))) t) in
  let! v := crypto_rng_read 16 in
  do! mod_ht (fun t => with_head (mk_head v (head_tag (head t)) (enc_fek (head t)) (head_imeta (head t)) (counter (head t))) t) in
  do! ext_call in
  mod_ht (fun t =>
    let r := gcm_enc (fek t) (head_iv (head t)) (authenc_aad t None) (imeta_bytes (imeta t)) in
    with_head (mk_head (head_iv (head t)) (snd r) (enc_fek (head t)) (fst r) (counter (head t))) t).

Definition tee_fs_htree_close : H unit := modify (set_cur None).

(** An error closes the tree. *)
Definition closing {A} (m : H A) : H A := fun s =>
  match m s with
  | (Err e, s') => (Err e, set_cur None s')
  | r => r
  end.

(** [if (!ht) return TEE_ERROR_CORRUPT_OBJECT;] *)
Definition opened : H unit := let! s := get in guard_err (match cur s with Some _ => false | None => true end) TEE_ERROR_CORRUPT_OBJECT.

(** The hash and counter handed out, unless nothing was to be done. *)
Definition tee_fs_htree_sync_to_storage : H (option (list Z * Z)) :=
  do! opened in
  let! t := ht in
  if negb (ht_dirty t) then ret None else
  do! ext_call in
  closing (
    do! htree_traverse_post_order htree_sync_node_to_storage in
    do! update_root in
    let! t := ht in
    do! rpc_write_head (Z.land (counter (head t)) 1) (head t) in
    do! mod_ht (with_dirty false) in
    let! t := ht in
    ret (Some (hash (image_of (root t)), counter (head t)))).

(** [get_block_node()] *)
Definition get_block_node (create : bool) (block_num : Z) : H Z :=
  do! get_node create (BLOCK_NUM_TO_NODE_ID block_num) in ret (BLOCK_NUM_TO_NODE_ID block_num).

Definition block_vers (n : htree_node) : Z := if has (flags (image_of n)) HTREE_NODE_COMMITTED_BLOCK then 1 else 0.

(** [if (!node->block_updated) node->node.flags ^= HTREE_NODE_COMMITTED_BLOCK;] *)
Definition flip_block (n : htree_node) : htree_node :=
  match n with
  | NULL => NULL
  | Node i d u im c0 c1 => if u then n else
      Node i d u (mk_image (hash im) (iv im) (tag im) (Z.lxor (flags im) HTREE_NODE_COMMITTED_BLOCK)) c0 c1
  end.

Definition set_iv_tag (v g : list Z) (n : htree_node) : htree_node :=
  match n with NULL => NULL | Node i d u im c0 c1 => Node i d u (mk_image (hash im) v g (flags im)) c0 c1 end.

Definition set_updated (n : htree_node) : htree_node :=
  match n with NULL => NULL | Node i _ _ im c0 c1 => Node i true true im c0 c1 end.

Definition tee_fs_htree_write_block (block_num : Z) (block : list Z) : H unit :=
  do! opened in
  closing (
    let! id := get_block_node true block_num in
    do! upd_node id flip_block in
    let! n := find_closest_node id in
    do! ext_call in
    let! v := crypto_rng_read 16 in
    do! upd_node id (fun n => set_iv_tag v (tag (image_of n)) n) in
    do! ext_call in
    let! t := ht in
    let r := gcm_enc (fek t) v (authenc_aad t (Some v)) block in
    do! upd_node id (set_iv_tag v (snd r)) in
    do! rpc_write_final (TEE_FS_HTREE_TYPE_BLOCK, block_num, block_vers n) (fst r) in
    do! upd_node id set_updated in
    mod_ht (with_dirty true)).

Definition tee_fs_htree_read_block (block_num : Z) : H (list Z) :=
  do! opened in
  closing (
    let! id := get_block_node false block_num in
    let! n := find_closest_node id in
    let! enc_block := rpc_read (TEE_FS_HTREE_TYPE_BLOCK, block_num, block_vers n) (Z.of_nat block_size) in
    let! t := ht in
    authenc_decrypt (authenc_aad t (Some (iv (image_of n)))) (iv (image_of n)) (tag (image_of n)) enc_block).

(** The loop of [tee_fs_htree_truncate()]. *)
Fixpoint truncate_loop (fuel : nat) (id : Z) : H unit :=
  match fuel with
  | O => undef OutOfFuel
  | S k =>
      let! t := ht in
      let m := max_node_id (imeta t) in
      if id <? m then
        let! n := find_closest_node m in
        do! assert_ (node_id n =? m) in
        do! assert_ (is_null (child n 0) && is_null (child n 1)) in
        do! assert_ (negb (m =? 1)) in
        do! upd_node (Z.shiftr m 1) (set_child (Z.land m 1) NULL) in
        do! mod_ht (fun t => with_dirty true (with_imeta (mk_imeta (length_ (imeta t)) (uwrap 32 (m - 1)) (imeta_pad (imeta t))) t)) in
        truncate_loop k id
      else ret tt
  end.

Definition tee_fs_htree_truncate (block_num : Z) : H unit :=
  do! opened in
  let! t := ht in
  truncate_loop (S (Z.to_nat (max_node_id (imeta t)))) (BLOCK_NUM_TO_NODE_ID block_num).

(** [tee_fs_htree_get_meta(ht)->length = len; tee_fs_htree_meta_set_dirty(ht);] *)
Definition tee_fs_htree_get_meta : H (option Z) := let! s := get in
  ret (match cur s with Some t => Some (length_ (imeta t)) | None => None end).
Definition set_length (len : Z) : H unit :=
  mod_ht (fun t => with_imeta (mk_imeta len (max_node_id (imeta t)) (imeta_pad (imeta t))) t).
Definition tee_fs_htree_meta_set_dirty : H unit :=
  mod_ht (fun t => with_dirty true (with_root (set_node_dirty (root t)) t)).

(** ** Creating and opening *)

Definition create_and_sync (min_counter : Z) : H (option (list Z)) :=
  let! s := get in
  do! guard_err (match cur s with Some _ => false | None => true end) TEE_ERROR_GENERIC in
  let! k := crypto_rng_read 16 in
  do! mod_ht (with_fek k) in
  do! ext_call in
  do! mod_ht (fun t => with_head (mk_head (head_iv (head t)) (head_tag (head t)) (fek_enc (fek t)) (head_imeta (head t)) (counter (head t))) t) in
  do! init_root_node in
  do! mod_ht (with_dirty true) in
  let! r := tee_fs_htree_sync_to_storage in
  do! rpc_write_head 0 (zero_head min_counter) in
  ret (fst <$> r).

Definition ht_head_is_partially_done (h : htree_image) : bool :=
  (counter h =? 0) && bool_decide (head_tag h = zeros 16).

(** The hash handed out, when one is. *)
Definition tee_fs_htree_open (create : bool) (hash_ : option (list Z)) (min_counter : Z) : H (option (list Z)) :=
  do! calloc in
  do! set_ht (mk_htree (Node 0 false false zero_image NULL NULL) (zero_head 0) (zeros 16) (mk_imeta 0 0 0) false) in
  closing (
    if create then create_and_sync min_counter else
    do! init_head_from_data hash_ min_counter in
    let! t := ht in
    let! h := (if ht_head_is_partially_done (head t) then create_and_sync min_counter else ret None) in
    do! verify_root in
    do! init_tree_from_data in
    do! verify_tree in
    ret h).
End Code.
