(* ===== verification/HtreeInv.v ===== *)
(** * The hash tree: what storage holds, and opening it

    The invariant of optee_os/core/tee/fs_htree.c (modelled in [Htree]): [committed t s], the storage
    [s] holds the tree [t] in its committed versions. Opening such storage yields exactly [t]. *)
From stdpp Require Import gmap.
From S2P Require Import Prelude Htree.
Local Open Scope Z_scope.

(** ** Layouts *)

Record image_ok (im : node_image) : Prop := mk_image_ok {
  im_hash : length (hash im) = 32%nat; im_iv : length (iv im) = 16%nat; im_tag : length (tag im) = 16%nat; im_flags : is_u 16 (flags im) }.
Record head_ok (h : htree_image) : Prop := mk_head_ok {
  hd_iv : length (head_iv h) = 16%nat; hd_tag : length (head_tag h) = 16%nat; hd_fek : length (enc_fek h) = 16%nat;
  hd_imeta : length (head_imeta h) = 16%nat; hd_counter : is_u 32 (counter h) }.
Definition imeta_ok (m : htree_imeta) : Prop := is_u 64 (length_ m) /\ is_u 32 (max_node_id m) /\ is_u 32 (imeta_pad m).

Lemma le_val_small n z : is_u (8 * Z.of_nat n) z -> le_val (le_bytes n z) = z.
Proof. intros Hz. rewrite le_val_le_bytes. by apply uwrap_small. Qed.

Lemma bytes_image_image im : image_ok im -> bytes_image (image_bytes im) = im.
Proof.
  intros [H1 H2 H3 H4]. destruct im as [h v g f]; simpl in *. unfold bytes_image, image_bytes. cbn [hash iv tag flags]. f_equal.
  - by rewrite take_app_length'.
  - rewrite drop_app_length' by done. by rewrite take_app_length'.
  - rewrite app_assoc, drop_app_length' by (rewrite length_app; lia). by rewrite take_app_length'.
  - rewrite !app_assoc, drop_app_length' by (rewrite !length_app; lia). rewrite take_ge by (by rewrite length_le_bytes).
    by apply (le_val_small 2).
Qed.

Lemma length_image im : image_ok im -> lenZ (image_bytes im) = 66.
Proof. intros [H1 H2 H3 _]. unfold lenZ, image_bytes. rewrite !length_app, length_le_bytes. lia. Qed.

Lemma bytes_head_head h : head_ok h -> bytes_head (head_bytes h) = h.
Proof.
  intros [H1 H2 H3 H4 H5]. destruct h as [v g k m c]; simpl in *. unfold bytes_head, head_bytes. cbn [head_iv head_tag enc_fek head_imeta counter]. f_equal.
  - by rewrite take_app_length'.
  - rewrite drop_app_length' by done. by rewrite take_app_length'.
  - rewrite app_assoc, drop_app_length' by (rewrite length_app; lia). by rewrite take_app_length'.
  - rewrite 2!app_assoc, drop_app_length' by (rewrite !length_app; lia). by rewrite take_app_length'.
  - rewrite !app_assoc, drop_app_length' by (rewrite !length_app; lia). rewrite take_ge by (by rewrite length_le_bytes).
    by apply (le_val_small 4).
Qed.

Lemma length_head h : head_ok h -> lenZ (head_bytes h) = 68.
Proof. intros [H1 H2 H3 H4 _]. unfold lenZ, head_bytes. rewrite !length_app, length_le_bytes. lia. Qed.

Lemma bytes_imeta_imeta m : imeta_ok m -> bytes_imeta (imeta_bytes m) = m.
Proof.
  intros (H1 & H2 & H3). destruct m as [l x p]; simpl in *. unfold bytes_imeta, imeta_bytes. cbn [length_ max_node_id imeta_pad].
  f_equal.
  - rewrite take_app_length' by (by rewrite length_le_bytes). by apply (le_val_small 8).
  - rewrite drop_app_length' by (by rewrite length_le_bytes). rewrite take_app_length' by (by rewrite length_le_bytes). by apply (le_val_small 4).
  - rewrite app_assoc, drop_app_length' by (by rewrite length_app, !length_le_bytes). rewrite take_ge by (by rewrite length_le_bytes).
    by apply (le_val_small 4).
Qed.

(** ** Shape and paths *)

(** The tree below node [p] of a tree that has the nodes 1 to [n]. *)
Fixpoint shaped (n p : Z) (t : htree_node) : Prop :=
  match t with
  | NULL => n < p
  | Node id _ _ _ c0 c1 => id = p /\ p <= n /\ shaped n (2 * p) c0 /\ shaped n (2 * p + 1) c1
  end.

Definition bit_of (x k : Z) : Z := Z.land (Z.shiftr x k) 1.

Lemma bit_of_mod x k : bit_of x k = Z.shiftr x k mod 2.
Proof. unfold bit_of. change 1 with (Z.ones 1). by rewrite Z.land_ones by lia. Qed.

Lemma bit_range x k : bit_of x k = 0 \/ bit_of x k = 1.
Proof. rewrite bit_of_mod. pose proof (Z.mod_pos_bound (Z.shiftr x k) 2). lia. Qed.

Lemma shiftr_step x k : 0 <= k -> Z.shiftr x k = 2 * Z.shiftr x (k + 1) + bit_of x k.
Proof.
  intros Hk. rewrite bit_of_mod. rewrite <- Z.shiftr_shiftr by lia. rewrite (Z.shiftr_div_pow2 _ 1) by lia.
  change (2 ^ 1) with 2. apply Z.div_mod. lia.
Qed.

Lemma id_split x : 2 * Z.shiftr x 1 + bit_of x 0 = x.
Proof. rewrite <- (Z.shiftr_0_r x) at 3. symmetry. apply (shiftr_step x 0). lia. Qed.

Lemma shiftr_le x k : 0 <= x -> 0 <= k -> Z.shiftr x k <= x.
Proof.
  intros Hx Hk. rewrite Z.shiftr_div_pow2 by done. apply Z.div_le_upper_bound; [by apply pow2_pos|].
  pose proof (pow2_pos k Hk). nia.
Qed.

Lemma shiftr_lt x k : 0 < x -> 0 < k -> Z.shiftr x k < x.
Proof.
  intros Hx Hk. rewrite Z.shiftr_div_pow2 by lia. apply Z.div_lt; [done|]. replace k with (Z.succ (k - 1)) by lia.
  rewrite Z.pow_succ_r by lia. pose proof (pow2_pos (k - 1) ltac:(lia)). lia.
Qed.

Lemma shiftr_log2 x : 0 < x -> Z.shiftr x (Z.log2 x) = 1.
Proof.
  intros Hx. rewrite Z.shiftr_div_pow2 by apply Z.log2_nonneg. pose proof (Z.log2_spec x Hx) as [H1 H2].
  rewrite Z.pow_succ_r in H2 by apply Z.log2_nonneg. symmetry. apply (Z.div_unique x (2 ^ Z.log2 x) 1 (x - 2 ^ Z.log2 x)); lia.
Qed.

Lemma child_shaped n p t b : shaped n p t -> t <> NULL -> b = 0 \/ b = 1 -> shaped n (2 * p + b) (child t b).
Proof.
  destruct t as [|id d u im c0 c1]; [done|]. intros (_ & _ & H0 & H1) _ [-> | ->]; simpl.
  - by replace (2 * p + 0) with (2 * p) by lia.
  - done.
Qed.

Lemma shaped_null n p t : shaped n p t -> t = NULL <-> n < p.
Proof. destruct t; simpl; [tauto|]. intros (_ & ? & _). split; [done|lia]. Qed.

Lemma shaped_id n p t : shaped n p t -> p <= n -> node_id t = p /\ t <> NULL.
Proof. destruct t; simpl; [lia|]. intros (-> & _). done. Qed.

(** The walk towards [id]: nodes of the tree on the way are followed. *)
Lemma closest_in n id k : forall t, shaped n (Z.shiftr id (Z.of_nat k)) t -> 0 < id -> id <= n ->
  shaped n id (closest k id t) /\ closest k id t <> NULL.
Proof.
  induction k as [|k IH]; intros t Hs Hid Hn; cbn [closest].
  - change (Z.of_nat 0) with 0 in Hs. rewrite Z.shiftr_0_r in Hs. split; [done|]. by apply (shaped_id n id).
  - fold (bit_of id (Z.of_nat k)). pose proof (shiftr_le id (Z.of_nat (S k)) ltac:(lia) ltac:(lia)) as Hp.
    assert (t <> NULL) as Ht by (apply (shaped_id n _ t Hs); lia).
    pose proof (child_shaped _ _ _ _ Hs Ht (bit_range id (Z.of_nat k))) as Hc.
    replace (Z.of_nat (S k)) with (Z.of_nat k + 1) in Hc by lia. rewrite <- shiftr_step in Hc by lia.
    pose proof (shiftr_le id (Z.of_nat k) ltac:(lia) ltac:(lia)).
    destruct (child t (bit_of id (Z.of_nat k))) as [|i d u im c0 c1] eqn:E; [simpl in Hc; lia|]. by apply IH.
Qed.

(** The place of a new last node: below its parent, where no child is. *)
Lemma closest_new n k : forall t, shaped n (Z.shiftr (n + 1) (Z.of_nat (S k))) t -> 1 <= n ->
  node_id (closest (S k) (n + 1) t) = Z.shiftr (n + 1) 1 /\ child (closest (S k) (n + 1) t) (bit_of (n + 1) 0) = NULL.
Proof.
  induction k as [|k IH]; intros t Hs Hn.
  - cbn [closest]. change (Z.of_nat 0) with 0. fold (bit_of (n + 1) 0). change (Z.of_nat 1) with 1 in Hs.
    pose proof (shiftr_lt (n + 1) 1 ltac:(lia) ltac:(lia)). destruct (shaped_id n _ t Hs ltac:(lia)) as [Hi Ht].
    pose proof (child_shaped _ _ _ _ Hs Ht (bit_range (n + 1) 0)) as Hc. rewrite id_split in Hc. apply (shaped_null _ _ _) in Hc as [_ Hc].
    rewrite (Hc ltac:(lia)). split; [done|]. by rewrite Hc by lia.
  - set (m := S k) in *. cbn [closest]. fold (bit_of (n + 1) (Z.of_nat m)).
    pose proof (shiftr_lt (n + 1) (Z.of_nat (S m)) ltac:(lia) ltac:(lia)). destruct (shaped_id n _ t Hs ltac:(lia)) as [Hi Ht].
    pose proof (child_shaped _ _ _ _ Hs Ht (bit_range (n + 1) (Z.of_nat m))) as Hc.
    replace (Z.of_nat (S m)) with (Z.of_nat m + 1) in Hc by lia. rewrite <- shiftr_step in Hc by lia.
    pose proof (shiftr_lt (n + 1) (Z.of_nat m) ltac:(lia) ltac:(lia)).
    destruct (child t (bit_of (n + 1) (Z.of_nat m))) as [|i d u im c0 c1] eqn:E; [simpl in Hc; lia|]. by apply IH.
Qed.

Definition level (id : Z) : nat := Z.to_nat (Z.log2 id).

Lemma level_shift id : 0 < id -> Z.shiftr id (Z.of_nat (level id)) = 1.
Proof. intros Hid. unfold level. rewrite Z2Nat.id by apply Z.log2_nonneg. by apply shiftr_log2. Qed.

Lemma level_new n : 1 <= n -> exists k, level (n + 1) = S k.
Proof.
  intros Hn. unfold level. pose proof (Z.log2_le_mono 2 (n + 1) ltac:(lia)). change (Z.log2 2) with 1 in *.
  exists (Z.to_nat (Z.log2 (n + 1) - 1)). lia.
Qed.

(** ** Storage *)

(** The version of a child that the flags of its parent name. *)
Definition cver (im : node_image) (b : Z) : Z := if has (flags im) (HTREE_NODE_COMMITTED_CHILD b) then 1 else 0.

(** Storage holds the tree, its top in version [v] and every other node in the version its parent
    names. *)
Fixpoint stored (s : gmap key (list Z)) (v : Z) (t : htree_node) : Prop :=
  match t with
  | NULL => True
  | Node id _ _ im c0 c1 => image_ok im /\ s !! (TEE_FS_HTREE_TYPE_NODE, id - 1, v) = Some (image_bytes im) /\
      stored s (cver im 0) c0 /\ stored s (cver im 1) c1
  end.

Fixpoint clean (t : htree_node) : Prop :=
  match t with
  | NULL => True
  | Node _ d u _ c0 c1 => d = false /\ u = false /\ clean c0 /\ clean c1
  end.

(** [ev'] is what is left of the outcomes [ev]. *)
Definition later (ev ev' : list event) : Prop := ev = [] -> ev' = [].

Lemma later_refl ev : later ev ev. Proof. by intros H. Qed.
Lemma later_trans ev1 ev2 ev3 : later ev1 ev2 -> later ev2 ev3 -> later ev1 ev3. Proof. unfold later. auto. Qed.
Lemma later_ne ev ev' : later ev ev' -> ev' <> [] -> ev <> []. Proof. unfold later. intros L Hn Hev. auto. Qed.
#[export] Hint Resolve later_refl : core.
#[export] Hint Immediate later_trans later_ne : core.

(** [later] along a chain of steps, and failures that need an outcome in the list. *)
Ltac laters := solve [unfold later in *; auto 12 | intros; eauto | intros; match goal with H : _ -> forall e s, _ |- _ => apply H; [unfold later in *; auto 12|assumption] end | unfold later in *; intros; auto 12].

(** Fields of an updated tree. *)
Ltac fields := unfold with_root, with_head, with_fek, with_imeta, with_dirty, set_cur, set_stor; cbn [root head fek imeta ht_dirty cur stor seed events].

Section Env.
Context {henv : HtEnv} {hlaws : HtLaws}.

(** Every hash in the tree is the hash of its node; [meta] goes into the root's. *)
Fixpoint hashed (meta : option (list Z)) (t : htree_node) : Prop :=
  match t with
  | NULL => True
  | Node _ _ _ im c0 c1 => hash im = sha256 (hash_input meta t) /\ hashed None c0 /\ hashed None c1
  end.

(** ** Reading node by node *)

(** The part of a tree with ids up to [m], as it is read. *)
Fixpoint prune (m : Z) (t : htree_node) : htree_node :=
  match t with
  | NULL => NULL
  | Node id _ _ im c0 c1 => if id <=? m then Node id false false im (prune m c0) (prune m c1) else NULL
  end.

Lemma prune_shaped n m t : forall p, 1 <= p -> shaped n p t -> shaped (Z.min n m) p (prune m t).
Proof.
  induction t as [|id d u im c0 IH0 c1 IH1]; intros p Hp; simpl; [lia|]. intros (-> & Hn & H0 & H1).
  destruct (p <=? m) eqn:E; bool_hyps; simpl; [|lia]. split; [done|]. split; [lia|]. split; [apply IH0; [lia|done]|apply IH1; [lia|done]].
Qed.

Lemma prune_all n t : forall p, shaped n p t -> clean t -> prune n t = t.
Proof.
  induction t as [|id d u im c0 IH0 c1 IH1]; intros p; simpl; [done|]. intros (-> & Hn & H0 & H1) (-> & -> & C0 & C1).
  rewrite (proj2 (Z.leb_le p n)) by lia. by rewrite (IH0 (2 * p)), (IH1 (2 * p + 1)).
Qed.

Lemma not_under_sibling x k j : 0 <= x -> 0 <= k -> 0 <= j -> 1 <= Z.shiftr x (k + 1) ->
  Z.shiftr x j <> 2 * Z.shiftr x (k + 1) + (1 - bit_of x k).
Proof.
  intros Hx Hk Hj Hp E. pose proof (shiftr_step x k Hk) as Hs. pose proof (bit_range x k) as Hb. set (p := Z.shiftr x (k + 1)) in *.
  destruct (Z.lt_trichotomy j k) as [Hlt|[-> |Hgt]]; [| lia |].
  - assert (Z.shiftr x k = Z.shiftr (Z.shiftr x j) (k - j)) as E2 by (rewrite Z.shiftr_shiftr by lia; f_equal; lia).
    rewrite E in E2. assert (Z.shiftr (2 * p + (1 - bit_of x k)) (k - j) <= p) as Hle; [|lia].
    rewrite Z.shiftr_div_pow2 by lia. transitivity ((2 * p + (1 - bit_of x k)) / 2).
    + apply Z.div_le_compat_l; [lia|]. replace (k - j) with (Z.succ (k - j - 1)) by lia. rewrite Z.pow_succ_r by lia.
      pose proof (pow2_pos (k - j - 1) ltac:(lia)). lia.
    + assert ((2 * p + (1 - bit_of x k)) / 2 < p + 1) by (apply Z.div_lt_upper_bound; lia). lia.
  - assert (Z.shiftr x j = Z.shiftr p (j - k - 1)) as E2 by (unfold p; rewrite Z.shiftr_shiftr by lia; f_equal; lia).
    pose proof (shiftr_le p (j - k - 1) ltac:(lia) ltac:(lia)). lia.
Qed.

(** A subtree that does not contain [id] looks the same before and after [id] is read. *)
Lemma prune_other n id t : forall p, shaped n p t -> 1 <= p -> (forall j, 0 <= j -> Z.shiftr id j <> p) -> prune (id - 1) t = prune id t.
Proof.
  induction t as [|i d u im c0 IH0 c1 IH1]; intros p; simpl; [done|]. intros (-> & Hn & H0 & H1) Hp Hj.
  assert (p <> id) as Hne by (intros ->; apply (Hj 0); [done|apply Z.shiftr_0_r]).
  assert (forall j b, 0 <= j -> b = 0 \/ b = 1 -> Z.shiftr id j <> 2 * p + b) as Hc.
  { intros j b Hj0 Hb E. apply (Hj (j + 1)); [lia|]. rewrite <- Z.shiftr_shiftr, E by lia. rewrite Z.shiftr_div_pow2 by lia.
    change (2 ^ 1) with 2. symmetry. apply (Z.div_unique _ 2 p b); lia. }
  destruct (p <=? id - 1) eqn:E1, (p <=? id) eqn:E2; bool_hyps; try lia; [|done].
  rewrite (IH0 (2 * p)), (IH1 (2 * p + 1)); try done; try lia.
  - intros j Hj0. apply (Hc j 1); auto.
  - intros j Hj0. replace (2 * p) with (2 * p + 0) by lia. apply (Hc j 0); auto.
Qed.

Lemma closest_prune n m id k : forall t, shaped n (Z.shiftr id (Z.of_nat k)) t -> 0 < id -> id <= m -> m <= n ->
  image_of (closest k id (prune m t)) = image_of (closest k id t).
Proof.
  induction k as [|k IH]; intros t Hs Hid Hm Hn; cbn [closest].
  - change (Z.of_nat 0) with 0 in Hs. rewrite Z.shiftr_0_r in Hs. destruct t as [|i d u im c0 c1]; simpl in *; [done|].
    destruct Hs as (-> & _). by rewrite (proj2 (Z.leb_le id m)) by lia.
  - fold (bit_of id (Z.of_nat k)). pose proof (shiftr_le id (Z.of_nat (S k)) ltac:(lia) ltac:(lia)) as Hp.
    assert (t <> NULL) as Ht by (apply (shaped_id n _ t Hs); lia).
    pose proof (child_shaped _ _ _ _ Hs Ht (bit_range id (Z.of_nat k))) as Hc.
    replace (Z.of_nat (S k)) with (Z.of_nat k + 1) in Hc by lia. rewrite <- shiftr_step in Hc by lia.
    pose proof (shiftr_le id (Z.of_nat k) ltac:(lia) ltac:(lia)).
    assert (child (prune m t) (bit_of id (Z.of_nat k)) = prune m (child t (bit_of id (Z.of_nat k)))) as ->.
    { destruct t as [|i d u im c0 c1]; [done|]. destruct Hs as (-> & _). cbn [prune]. rewrite (proj2 (Z.leb_le _ m)) by lia.
      unfold child. by destruct (_ =? 0). }
    destruct (child t (bit_of id (Z.of_nat k))) as [|i d u im c0 c1] eqn:E; [simpl in Hc; lia|].
    pose proof Hc as (-> & _). cbn [prune]. rewrite (proj2 (Z.leb_le _ m)) by lia.
    specialize (IH _ Hc Hid Hm Hn). cbn [prune] in IH. rewrite (proj2 (Z.leb_le _ m)) in IH by lia. done.
Qed.

(** Walking one level less deep ends at the parent. *)
Lemma closest_parent n id k : forall t, shaped n (Z.shiftr id (Z.of_nat (S k))) t -> 0 < id -> id <= n ->
  closest (S k) id t = child (closest k (Z.shiftr id 1) t) (bit_of id 0).
Proof.
  induction k as [|k IH]; intros t Hs Hid Hn.
  - change (Z.of_nat 1) with 1 in Hs. cbn [closest]. change (Z.of_nat 0) with 0. fold (bit_of id 0).
    assert (t <> NULL) as Ht by (apply (shaped_id n _ t Hs); pose proof (shiftr_le id 1 ltac:(lia) ltac:(lia)); lia).
    pose proof (child_shaped _ _ _ _ Hs Ht (bit_range id 0)) as Hc. rewrite id_split in Hc. destruct (child t (bit_of id 0)); [simpl in Hc; lia|done].
  - set (m := S k) in *. cbn [closest]. fold (bit_of id (Z.of_nat m)).
    assert (t <> NULL) as Ht by (apply (shaped_id n _ t Hs); pose proof (shiftr_le id (Z.of_nat (S m)) ltac:(lia) ltac:(lia)); lia).
    pose proof (child_shaped _ _ _ _ Hs Ht (bit_range id (Z.of_nat m))) as Hc.
    replace (Z.of_nat (S m)) with (Z.of_nat m + 1) in Hc by lia. rewrite <- shiftr_step in Hc by lia.
    pose proof (shiftr_le id (Z.of_nat m) ltac:(lia) ltac:(lia)).
    assert (bit_of (Z.shiftr id 1) (Z.of_nat k) = bit_of id (Z.of_nat m)) as Hb.
    { unfold bit_of. rewrite Z.shiftr_shiftr by lia. do 2 f_equal. lia. }
    transitivity (child (match child t (bit_of (Z.shiftr id 1) (Z.of_nat k)) with NULL => t | c => closest k (Z.shiftr id 1) c end) (bit_of id 0)); [|done].
    rewrite Hb. destruct (child t (bit_of id (Z.of_nat m))) as [|i d u im c0 c1] eqn:E; [simpl in Hc; lia|]. by apply IH.
Qed.

Lemma stored_closest n s id k : forall v t, shaped n (Z.shiftr id (Z.of_nat k)) t -> 0 < id -> id <= n -> stored s v t ->
  exists v', stored s v' (closest k id t).
Proof.
  induction k as [|k IH]; intros v t Hs Hid Hn Hst; cbn [closest]; [eauto|].
  fold (bit_of id (Z.of_nat k)). pose proof (shiftr_le id (Z.of_nat (S k)) ltac:(lia) ltac:(lia)) as Hp.
  assert (t <> NULL) as Ht by (apply (shaped_id n _ t Hs); lia).
  pose proof (child_shaped _ _ _ _ Hs Ht (bit_range id (Z.of_nat k))) as Hc.
  replace (Z.of_nat (S k)) with (Z.of_nat k + 1) in Hc by lia. rewrite <- shiftr_step in Hc by lia.
  assert (exists w, stored s w (child t (bit_of id (Z.of_nat k)))) as [w Hw].
  { destruct t as [|i d u im c0 c1]; [done|]. destruct Hst as (_ & _ & S0 & S1). unfold child. destruct (_ =? 0); eauto. }
  destruct (child t (bit_of id (Z.of_nat k))) as [|i d u im c0 c1] eqn:E; [eauto|]. by eapply IH.
Qed.

(** Where the node [id] of a stored tree is, and what is there. *)
Lemma stored_node n s v t id k : shaped n 1 t -> stored s v t -> 1 <= Z.shiftr id 1 -> id <= n -> level id = S k ->
  let im := image_of (closest (S k) id t) in
  image_ok im /\ s !! (TEE_FS_HTREE_TYPE_NODE, id - 1, cver (image_of (closest k (Z.shiftr id 1) t)) (bit_of id 0)) = Some (image_bytes im).
Proof.
  intros Hs Hst Hp Hn Hk im. pose proof (shiftr_le id 1) as Hle. assert (0 < id) as Hid by (destruct (Z.lt_trichotomy id 0) as [?|[-> |?]]; [|done|done]; exfalso; assert (Z.shiftr id 1 < 0) by (apply Z.shiftr_neg; lia); lia).
  rewrite <- (level_shift id Hid) in Hs. rewrite Hk in Hs. unfold im. rewrite (closest_parent n) by done.
  destruct (closest_in n (Z.shiftr id 1) k t) as [Hps Hpn]; [|lia|lia|].
  { rewrite Z.shiftr_shiftr by lia. replace (1 + Z.of_nat k) with (Z.of_nat (S k)) by lia. done. }
  destruct (stored_closest n s (Z.shiftr id 1) k v t) as [w Hw]; [|lia|lia|done|].
  { rewrite Z.shiftr_shiftr by lia. replace (1 + Z.of_nat k) with (Z.of_nat (S k)) by lia. done. }
  pose proof (child_shaped _ _ _ _ Hps Hpn (bit_range id 0)) as Hc. rewrite id_split in Hc.
  destruct (closest k (Z.shiftr id 1) t) as [|i d u pim c0 c1]; [done|]. destruct Hw as (_ & _ & S0 & S1). cbn [child image_of] in *.
  destruct (bit_range id 0) as [E|E]; rewrite E in *; simpl in Hc |- *.
  - destruct c0 as [|j d' u' im' a0 a1]; simpl in Hc; [lia|]. destruct Hc as (-> & _). destruct S0 as (? & ? & _). done.
  - destruct c1 as [|j d' u' im' a0 a1]; simpl in Hc; [lia|]. destruct Hc as (-> & _). destruct S1 as (? & ? & _). done.
Qed.

(** A step of a walk that changes the tree. *)
Lemma upd_S m id f i d u im c0 c1 : child (Node i d u im c0 c1) (bit_of id (Z.of_nat m)) <> NULL ->
  upd_closest (S m) id f (Node i d u im c0 c1) =
  if bit_of id (Z.of_nat m) =? 0 then Node i d u im (upd_closest m id f c0) c1 else Node i d u im c0 (upd_closest m id f c1).
Proof. cbn [upd_closest child]. fold (bit_of id (Z.of_nat m)). destruct (bit_of id (Z.of_nat m) =? 0); [by destruct c0|by destruct c1]. Qed.

Lemma closest_S m id t : child t (bit_of id (Z.of_nat m)) <> NULL -> closest (S m) id t = closest m id (child t (bit_of id (Z.of_nat m))).
Proof. cbn [closest]. fold (bit_of id (Z.of_nat m)). by destruct (child t _). Qed.

Lemma upd_nonnull f id : (forall x, x <> NULL -> f x <> NULL) -> forall m t, t <> NULL -> upd_closest m id f t <> NULL.
Proof.
  intros Hf. induction m as [|m IH]; intros t Ht; [by apply Hf|]. destruct t as [|i d u im c0 c1]; [done|]. cbn [upd_closest].
  destruct (_ =? 0); [destruct c0|destruct c1]; try done; by apply Hf.
Qed.

Lemma set_child_nonnull b c x : x <> NULL -> set_child b c x <> NULL.
Proof. destruct x; [done|]. intros _. cbn [set_child]. by destruct (b =? 0). Qed.

(** Adding the next node and setting its image. *)
Lemma read_next n id k : forall t, shaped n (Z.shiftr id (Z.of_nat (S k))) t -> 1 <= Z.shiftr id (Z.of_nat (S k)) -> 0 < id -> id <= n ->
  upd_closest (S k) id (with_image (image_of (closest (S k) id t)))
    (upd_closest (S k) id (set_child (bit_of id 0) (Node id false false zero_image NULL NULL)) (prune (id - 1) t)) = prune id t.
Proof.
  induction k as [|k IH]; intros t Hs Hp1 Hid Hn.
  - change (Z.of_nat 1) with 1 in *. pose proof (shiftr_lt id 1 Hid ltac:(lia)) as Hlt.
    destruct t as [|p d u im c0 c1]; [simpl in Hs; lia|]. destruct Hs as (-> & _ & H0 & H1). set (p := Z.shiftr id 1) in *.
    assert (id = 2 * p + bit_of id 0) as Eid.
    { rewrite <- (Z.shiftr_0_r id) at 1. rewrite (shiftr_step id 0) by lia. done. }
    cbn [prune]. rewrite (proj2 (Z.leb_le p (id - 1))), (proj2 (Z.leb_le p id)) by lia.
    cbn [closest]. change (Z.of_nat 0) with 0. fold (bit_of id 0). assert (forall j, 0 <= j -> Z.shiftr id j <> 2 * p + (1 - bit_of id 0)) as Hsib by (intros; apply (not_under_sibling id 0); try lia; done).
    destruct (bit_range id 0) as [E|E]; rewrite E in *; cbn [child]; change (0 =? 0) with true; change (1 =? 0) with false; cbv iota.
    + destruct c0 as [|i d0 u0 im0 a0 a1]; [simpl in H0; lia|]. destruct H0 as (-> & _ & A0 & A1).
      assert (2 * p = id) as Ei by lia. rewrite Ei in *. cbn [prune]. rewrite Z.leb_refl, (proj2 (Z.leb_gt id (id - 1))) by lia.
      cbn [upd_closest]. change (Z.of_nat 0) with 0. fold (bit_of id 0). rewrite E. change (0 =? 0) with true. cbv iota.
      cbn [set_child]. change (0 =? 0) with true. cbv iota. cbn [upd_closest with_image closest image_of].
      f_equal.
      * f_equal; [destruct a0 as [|j ?]; [done|]|destruct a1 as [|j ?]; [done|]]; simpl in *; [destruct A0 as (-> & _)|destruct A1 as (-> & _)]; by rewrite (proj2 (Z.leb_gt _ id)) by lia.
      * apply (prune_other n id c1 (2 * p + 1)); [by rewrite Ei|lia|]. intros j Hj. pose proof (Hsib j Hj). lia.
    + destruct c1 as [|i d0 u0 im0 a0 a1]; [simpl in H1; lia|]. destruct H1 as (-> & _ & A0 & A1).
      assert (2 * p + 1 = id) as Ei by lia. rewrite Ei in *. cbn [prune]. rewrite Z.leb_refl, (proj2 (Z.leb_gt id (id - 1))) by lia.
      cbn [upd_closest]. change (Z.of_nat 0) with 0. fold (bit_of id 0). rewrite E. change (1 =? 0) with false. cbv iota.
      cbn [set_child]. change (1 =? 0) with false. cbv iota. cbn [upd_closest with_image closest image_of].
      f_equal.
      * apply (prune_other n id c0 (2 * p)); [done|lia|]. intros j Hj. pose proof (Hsib j Hj). lia.
      * f_equal; [destruct a0 as [|j ?]; [done|]|destruct a1 as [|j ?]; [done|]]; simpl in *; [destruct A0 as (-> & _)|destruct A1 as (-> & _)]; by rewrite (proj2 (Z.leb_gt _ id)) by lia.
  - set (m := S k) in *. pose proof (shiftr_lt id (Z.of_nat m) Hid ltac:(lia)) as Hlt. pose proof (shiftr_step id (Z.of_nat m) ltac:(lia)) as Hst.
    replace (Z.of_nat m + 1) with (Z.of_nat (S m)) in Hst by lia.
    destruct t as [|p d u im c0 c1]; [cbn [shaped] in Hs; pose proof (shiftr_le id (Z.of_nat (S m)) ltac:(lia) ltac:(lia)); lia|].
    pose proof Hs as (-> & _ & H0 & H1). set (p := Z.shiftr id (Z.of_nat (S m))) in *.
    assert (forall j, 0 <= j -> Z.shiftr id j <> 2 * p + (1 - bit_of id (Z.of_nat m))) as Hsib.
    { intros j Hj. unfold p. replace (Z.of_nat (S m)) with (Z.of_nat m + 1) by lia. apply not_under_sibling; try lia.
      replace (Z.of_nat m + 1) with (Z.of_nat (S m)) by lia. done. }
    pose proof (bit_range id (Z.of_nat m)) as Hbit. cbn [prune]. rewrite (proj2 (Z.leb_le p (id - 1))), (proj2 (Z.leb_le p id)) by lia.
    assert (forall q c, q = Z.shiftr id (Z.of_nat m) -> shaped n q c -> prune (id - 1) c <> NULL /\ c <> NULL) as Hnn.
    { intros q c -> Hc. destruct c as [|j ? ? ? ? ?]; [cbn [shaped] in Hc; lia|]. destruct Hc as (-> & _). cbn [prune].
      by rewrite (proj2 (Z.leb_le _ (id - 1))) by lia. }
    destruct (bit_range id (Z.of_nat m)) as [E|E].
    + assert (2 * p = Z.shiftr id (Z.of_nat m)) as Ep by lia. destruct (Hnn _ _ Ep H0) as [N1 N2].
      rewrite closest_S by (rewrite E; done). rewrite E. cbn [child]. change (0 =? 0) with true. cbv iota.
      rewrite upd_S by (rewrite E; done). rewrite E. change (0 =? 0) with true. cbv iota.
      rewrite upd_S by (rewrite E; cbn [child]; change (0 =? 0) with true; cbv iota; apply upd_nonnull; [apply set_child_nonnull|done]). rewrite E. change (0 =? 0) with true. cbv iota.
      rewrite IH; [|rewrite <- Ep; done|lia|done|done]. f_equal. apply (prune_other n id c1 (2 * p + 1)); [done|lia|].
      intros j Hj. replace (2 * p + 1) with (2 * p + (1 - bit_of id (Z.of_nat m))) by lia. by apply Hsib.
    + assert (2 * p + 1 = Z.shiftr id (Z.of_nat m)) as Ep by lia. destruct (Hnn _ _ Ep H1) as [N1 N2].
      rewrite closest_S by (rewrite E; done). rewrite E. cbn [child]. change (1 =? 0) with false. cbv iota.
      rewrite upd_S by (rewrite E; done). rewrite E. change (1 =? 0) with false. cbv iota.
      rewrite upd_S by (rewrite E; cbn [child]; change (1 =? 0) with false; cbv iota; apply upd_nonnull; [apply set_child_nonnull|done]). rewrite E. change (1 =? 0) with false. cbv iota.
      rewrite IH; [|rewrite <- Ep; done|lia|done|done]. f_equal. apply (prune_other n id c0 (2 * p)); [done|lia|].
      intros j Hj. replace (2 * p) with (2 * p + (1 - bit_of id (Z.of_nat m))) by lia. by apply Hsib.
Qed.

(** ** Running the code *)

Lemma runs_ext c st sd ev (Q : event -> fs -> Prop) E :
  (forall ev', later ev ev' -> Q (mk_event 0 true) (mk_fs c st sd ev')) ->
  (ev <> [] -> forall e ev', later ev ev' -> Q e (mk_fs c st sd ev')) -> runs ext Q E (mk_fs c st sd ev).
Proof. intros H1 H2. unfold runs, ext. cbn [events]. destruct ev as [|e r]; [by apply H1|]. by apply H2. Qed.

Lemma runs_ext_call c st sd ev (Q : unit -> fs -> Prop) (E : Z -> fs -> Prop) :
  (forall ev', later ev ev' -> Q tt (mk_fs c st sd ev')) ->
  (ev <> [] -> forall e ev', e <> 0 -> E e (mk_fs c st sd ev')) -> runs ext_call Q E (mk_fs c st sd ev).
Proof.
  intros H1 H2. unfold ext_call. apply runs_bind, runs_ext.
  - intros ev' L. apply runs_guard; [done|]. intros _. by apply H1.
  - intros Hne e ev' L. apply runs_guard; intros Hc; bool_hyps; [by apply H2|by apply H1].
Qed.

Lemma runs_calloc c st sd ev (Q : unit -> fs -> Prop) (E : Z -> fs -> Prop) :
  (forall ev', later ev ev' -> Q tt (mk_fs c st sd ev')) ->
  (ev <> [] -> forall ev', E TEE_ERROR_OUT_OF_MEMORY (mk_fs c st sd ev')) -> runs calloc Q E (mk_fs c st sd ev).
Proof.
  intros H1 H2. unfold calloc. apply runs_bind, runs_ext.
  - intros ev' L. apply runs_guard; [done|]. intros _. by apply H1.
  - intros Hne e ev' L. apply runs_guard; intros Hc; bool_hyps; [by apply H2|by apply H1].
Qed.

Lemma runs_rng n c st sd ev (Q : list Z -> fs -> Prop) (E : Z -> fs -> Prop) :
  (forall ev', later ev ev' -> Q (random sd n) (mk_fs c st (S sd) ev')) ->
  (ev <> [] -> forall e ev', e <> 0 -> E e (mk_fs c st sd ev')) -> runs (crypto_rng_read n) Q E (mk_fs c st sd ev).
Proof.
  intros H1 H2. unfold crypto_rng_read. apply runs_bind, runs_ext_call; [|done]. intros ev' L. eapply runs_eq; [reflexivity|]. by apply H1.
Qed.

Lemma runs_rpc_read k dlen c st sd ev (Q : list Z -> fs -> Prop) (E : Z -> fs -> Prop) :
  (forall data ev', later ev ev' -> data = default [] (st !! k) -> lenZ data = dlen -> Q data (mk_fs c st sd ev')) ->
  (forall e ev', (ev <> [] -> e <> 0) -> (ev = [] -> e = TEE_ERROR_CORRUPT_OBJECT /\ lenZ (default [] (st !! k)) <> dlen) -> E e (mk_fs c st sd ev')) ->
  runs (rpc_read k dlen) Q E (mk_fs c st sd ev).
Proof.
  intros H1 H2. unfold rpc_read. apply runs_bind, runs_ext_call; [|intros Hne e ev' He; by apply H2].
  intros ev1 L1. apply runs_bind, runs_ext_call.
  - intros ev2 L2. apply runs_bind, runs_get. cbn [stor]. apply runs_bind, runs_guard; intros Hc; bool_hyps.
    + apply H2; [done|]. done.
    + apply runs_ret. apply H1; [|done..]. intros Hev. by apply L2, L1.
  - intros Hne e ev' He. apply H2; [done|]. intros Hev. by destruct (Hne (L1 Hev)).
Qed.

(** Reading what is there. *)
Lemma runs_rpc_read_some k dlen data c st sd ev (Q : list Z -> fs -> Prop) (E : Z -> fs -> Prop) : st !! k = Some data -> lenZ data = dlen ->
  (forall ev', later ev ev' -> Q data (mk_fs c st sd ev')) -> (ev <> [] -> forall e s, e <> 0 -> stor s = st -> E e s) ->
  runs (rpc_read k dlen) Q E (mk_fs c st sd ev).
Proof.
  intros Hk Hl HQ HE. apply runs_rpc_read.
  - intros d ev' L -> _. rewrite Hk. by apply HQ.
  - intros e ev' H1 H2. rewrite Hk in H2. simpl in H2. destruct ev; [by destruct (H2 eq_refl) as [_ ?]|apply HE; [done|by apply H1|done]].
Qed.

Lemma ht_run t st sd ev : ht (mk_fs (Some t) st sd ev) = (Ret t, mk_fs (Some t) st sd ev).
Proof. done. Qed.

Lemma runs_ht t st sd ev (Q : tee_fs_htree -> fs -> Prop) E : Q t (mk_fs (Some t) st sd ev) -> runs ht Q E (mk_fs (Some t) st sd ev).
Proof. by apply runs_eq. Qed.

Lemma runs_mod_ht f t st sd ev (Q : unit -> fs -> Prop) E : Q tt (mk_fs (Some (f t)) st sd ev) -> runs (mod_ht f) Q E (mk_fs (Some t) st sd ev).
Proof. by apply runs_eq. Qed.

Lemma runs_level id (Q : Z -> fs -> Prop) E s : 0 < id < UINT_MAX -> Q (Z.log2 id + 1) s -> runs (node_id_to_level id) Q E s.
Proof.
  intros Hid HQ. unfold node_id_to_level. apply runs_bind. rewrite (proj2 (Z.eqb_neq id 0)), (proj2 (Z.ltb_lt id UINT_MAX)) by lia.
  apply runs_assert; [done|]. by apply runs_ret.
Qed.

Lemma runs_find_closest id t st sd ev (Q : htree_node -> fs -> Prop) E : 0 < id < UINT_MAX ->
  Q (closest (level id) id (root t)) (mk_fs (Some t) st sd ev) -> runs (find_closest_node id) Q E (mk_fs (Some t) st sd ev).
Proof.
  intros Hid HQ. unfold find_closest_node. apply runs_bind, runs_level; [done|]. apply runs_bind, runs_ht, runs_ret.
  unfold level in HQ. by replace (Z.log2 id + 1 - 1) with (Z.log2 id) by lia.
Qed.

Lemma runs_upd_node id f t st sd ev (Q : unit -> fs -> Prop) E : 0 < id < UINT_MAX ->
  Q tt (mk_fs (Some (with_root (upd_closest (level id) id f (root t)) t)) st sd ev) -> runs (upd_node id f) Q E (mk_fs (Some t) st sd ev).
Proof.
  intros Hid HQ. unfold upd_node. apply runs_bind, runs_level; [done|]. apply runs_bind, runs_ht. apply runs_modify.
  unfold level in HQ. by replace (Z.log2 id + 1 - 1) with (Z.log2 id) by lia.
Qed.

Lemma runs_closing {A} (m : H A) s (Q : A -> fs -> Prop) (E : Z -> fs -> Prop) :
  runs m Q (fun e s' => E e (set_cur None s')) s -> runs (closing m) Q E s.
Proof. unfold runs, closing. intros Hr. by destruct (m s) as [[] s']. Qed.

(** A node of the tree is found. *)
Lemma runs_get_node_in create id n t st sd ev (Q : unit -> fs -> Prop) E : 0 < id < UINT_MAX -> shaped n 1 (root t) -> id <= n ->
  Q tt (mk_fs (Some t) st sd ev) -> runs (get_node create id) Q E (mk_fs (Some t) st sd ev).
Proof.
  intros Hid Hs Hn HQ. unfold get_node. apply runs_bind, runs_find_closest; [done|].
  rewrite <- (level_shift id) in Hs by lia. destruct (closest_in n id (level id) (root t) Hs) as [Hc Hc0]; [lia..|].
  destruct (shaped_id _ _ _ Hc ltac:(lia)) as [-> _]. rewrite Z.eqb_refl. by apply runs_ret.
Qed.

(** The tree with one more node. *)
Definition appended (id : Z) (t : tee_fs_htree) : tee_fs_htree :=
  with_imeta (mk_imeta (length_ (imeta t)) (Z.max (max_node_id (imeta t)) id) (imeta_pad (imeta t)))
    (with_root (upd_closest (level id) id (set_child (bit_of id 0) (Node id false false zero_image NULL NULL)) (root t)) t).

Lemma runs_get_node_new id n t st sd ev (Q : unit -> fs -> Prop) (E : Z -> fs -> Prop) : 1 <= n -> id = n + 1 -> id < UINT_MAX ->
  shaped n 1 (root t) ->
  (forall ev', later ev ev' -> Q tt (mk_fs (Some (appended id t)) st sd ev')) ->
  (ev <> [] -> forall ev', E TEE_ERROR_OUT_OF_MEMORY (mk_fs (Some t) st sd ev')) ->
  runs (get_node true id) Q E (mk_fs (Some t) st sd ev).
Proof.
  intros Hn -> Hmax Hs HQ HE. unfold get_node. apply runs_bind, runs_find_closest; [lia|].
  destruct (level_new n Hn) as [k Hk]. pose proof Hs as Hs1. rewrite <- (level_shift (n + 1)) in Hs1 by lia. rewrite Hk in Hs1 |- *.
  destruct (closest_new n k (root t) Hs1 Hn) as [Hid Hch]. rewrite Hid. pose proof (shiftr_lt (n + 1) 1 ltac:(lia) ltac:(lia)) as Hlt.
  assert (0 <= Z.shiftr (n + 1) 1) as Hnn by (apply Z.shiftr_nonneg; lia).
  rewrite (proj2 (Z.eqb_neq _ _)) by lia. apply runs_bind, runs_guard; [done|]. intros _.
  set (p := Z.shiftr (n + 1) 1) in *. set (t1 := with_root (upd_closest (S k) (n + 1) (set_child (bit_of (n + 1) 0) (Node (n + 1) false false zero_image NULL NULL)) (root t)) t).
  apply runs_bind. unfold add_nodes.
  eapply runs_mono; [apply (runs_for (fun j a s => (j <= n + 1 /\ s = mk_fs (Some t) st sd ev) \/
      (j = n + 2 /\ a = n + 1 /\ exists ev', later ev ev' /\ s = mk_fs (Some t1) st sd ev')) E)| |done].
  - intros j a s Hj [[Hj1 ->]|(-> & _)]; [|lia]. replace (p + 1 + Z.of_nat (Z.to_nat (n + 1 - p))) with (n + 2) in Hj by lia.
    apply runs_bind, runs_find_closest; [lia|]. destruct (decide (j = n + 1)) as [-> |Hne].
    + rewrite Hk, Hid, (proj2 (Z.eqb_neq p _)) by lia. apply runs_bind, runs_assert; [apply Z.eqb_refl|].
      apply runs_bind. fold p. change (Z.land (n + 1) 1) with (bit_of (n + 1) 0). rewrite Hch. apply runs_assert; [done|].
      apply runs_bind, runs_calloc; [|done]. intros ev' L. apply runs_bind, runs_upd_node; [lia|]. apply runs_ret. right.
      split; [lia|]. split; [done|]. exists ev'. split; [done|]. unfold t1. by rewrite Hk.
    + pose proof Hs as Hs2. rewrite <- (level_shift j) in Hs2 by lia. destruct (closest_in n j (level j) (root t) Hs2) as [Hc _]; [lia..|].
      destruct (shaped_id _ _ _ Hc ltac:(lia)) as [-> _]. rewrite Z.eqb_refl. apply runs_ret. left. split; [lia|done].
  - left. split; [lia|done].
  - cbv beta. replace (p + 1 + Z.of_nat (Z.to_nat (n + 1 - p))) with (n + 2) by lia.
    intros a s [[? _]|(_ & -> & ev' & L & ->)]; [lia|]. apply runs_bind, runs_ht.
    specialize (HQ ev' L). unfold appended in HQ. rewrite Hk in HQ. fold t1 in HQ. change (imeta t1) with (imeta t).
    destruct (max_node_id (imeta t) <? n + 1) eqn:E1; bool_hyps.
    + apply runs_modify. rewrite Z.max_r in HQ by lia. rewrite uwrap_small; [exact HQ|]. unfold is_u, UINT_MAX in *. lia.
    + apply runs_ret. rewrite Z.max_l in HQ by lia. destruct t as [r h f [l m pd] d]. exact HQ.
Qed.

(** ** The committed state *)

Definition nodes (m : htree_imeta) : Z := Z.max 1 (max_node_id m).
Definition parity (h : htree_image) : Z := Z.land (counter h) 1.

(** The other copy of the head does not win over [h]. *)
Definition outdated (h : htree_image) (b : list Z) : Prop :=
  lenZ b = 68 /\
  (if parity h =? 0 then get_idx_from_counter (counter h) (counter (bytes_head b))
   else get_idx_from_counter (counter (bytes_head b)) (counter h)) = parity h.

Record committed (t : tee_fs_htree) (s : gmap key (list Z)) : Prop := mk_committed {
  c_shape : shaped (nodes (imeta t)) 1 (root t);
  c_clean : clean (root t);
  c_dirty : ht_dirty t = false;
  c_stored : stored s (parity (head t)) (root t);
  c_hashed : hashed (Some (meta_bytes (imeta t))) (root t);
  c_head : s !! (TEE_FS_HTREE_TYPE_HEAD, 0, parity (head t)) = Some (head_bytes (head t));
  c_other : exists b, s !! (TEE_FS_HTREE_TYPE_HEAD, 0, 1 - parity (head t)) = Some b /\ outdated (head t) b;
  c_head_ok : head_ok (head t);
  c_counter : counter (head t) <> 0;
  c_fek : fek t = fek_dec (enc_fek (head t));
  c_auth : gcm_dec (fek t) (head_iv (head t)) (authenc_aad t None) (head_imeta (head t)) (head_tag (head t)) = Some (imeta_bytes (imeta t));
  c_imeta : imeta_ok (imeta t);
  c_max : max_node_id (imeta t) < UINT_MAX;
}.

Lemma parity_range h : parity h = 0 \/ parity h = 1.
Proof. unfold parity. change (Z.land (counter h) 1) with (bit_of (counter h) 0). apply bit_range. Qed.

(** Verifying a tree whose hashes are right changes nothing. *)
Lemma verify_tree_runs meta node : forall parent c st sd ev (Q : htree_node * option Z -> fs -> Prop) (E : Z -> fs -> Prop),
  hashed (meta_for parent meta) node ->
  (forall ev', later ev ev' -> Q (node, None) (mk_fs c st sd ev')) -> (ev <> [] -> forall e ev', e <> 0 -> E e (mk_fs c st sd ev')) ->
  runs (traverse_post_order (verify_node meta) parent node) Q E (mk_fs c st sd ev).
Proof.
  induction node as [|id d u im c0 IH0 c1 IH1]; intros parent c st sd ev Q E Hh HQ HE; cbn [traverse_post_order].
  - apply runs_ret. by apply HQ.
  - destruct Hh as (Hi & H0 & H1). apply runs_bind. apply IH0; [done| |done]. intros ev1 L1. cbn [fst snd touch_parent].
    apply runs_bind. apply IH1; [done| |intros Hne; apply HE; intros ->; by apply Hne, L1]. intros ev2 L2.
    cbn [fst snd set_child touch_parent]. change (1 =? 0) with false. cbv iota. cbn [touch_parent]. unfold verify_node, calc_node_hash.
    apply runs_bind, runs_bind, runs_ext_call.
    + intros ev3 L3. apply runs_ret. apply runs_bind. cbn [image_of]. rewrite <- Hi, bool_decide_eq_true_2 by done.
      apply runs_guard; [done|]. intros _. apply runs_ret, HQ. intros Hev. by apply L3, L2, L1.
    + intros Hne. apply HE. intros ->. by apply Hne, L2, L1.
Qed.

(** Reading the head that counts. *)
Lemma init_head_runs t0 t min_counter st sd ev (Q : unit -> fs -> Prop) (E : Z -> fs -> Prop) : committed t st ->
  root t0 = Node 0 false false zero_image NULL NULL ->
  (counter (head t) < min_counter -> forall s, stor s = st -> E TEE_ERROR_SECURITY s) ->
  (min_counter <= counter (head t) -> forall ev', later ev ev' -> Q tt (mk_fs (Some (mk_htree (prune 1 (root t)) (head t) (fek t0) (imeta t0) (ht_dirty t0))) st sd ev')) ->
  (ev <> [] -> forall e s, e <> 0 -> stor s = st -> E e s) ->
  runs (init_head_from_data None min_counter) Q E (mk_fs (Some t0) st sd ev).
Proof.
  intros C Hr Hlow HQ HE. destruct (c_other _ _ C) as (b & Hb & Hlen & Hidx). pose proof (c_head_ok _ _ C) as Hok.
  assert (exists b0 b1, st !! (TEE_FS_HTREE_TYPE_HEAD, 0, 0) = Some b0 /\ st !! (TEE_FS_HTREE_TYPE_HEAD, 0, 1) = Some b1 /\
    lenZ b0 = 68 /\ lenZ b1 = 68 /\ get_idx_from_counter (counter (bytes_head b0)) (counter (bytes_head b1)) = parity (head t) /\
    (if parity (head t) =? 0 then bytes_head b0 else bytes_head b1) = head t) as (b0 & b1 & G0 & G1 & L0 & L1 & Hsel & Hhd).
  { pose proof (c_head _ _ C) as Hh. pose proof (length_head _ Hok) as Hl. pose proof (bytes_head_head _ Hok) as Hbh.
    destruct (parity_range (head t)) as [E0|E1]; [rewrite E0 in *|rewrite E1 in *].
    - exists (head_bytes (head t)), b. rewrite Hbh. done.
    - exists b, (head_bytes (head t)). rewrite Hbh. done. }
  assert (exists im, image_ok im /\ st !! (TEE_FS_HTREE_TYPE_NODE, 1 - 1, parity (head t)) = Some (image_bytes im) /\
    prune 1 (root t) = Node 1 false false im NULL NULL) as (im & Him & Hn & Hp).
  { pose proof (c_stored _ _ C) as Hst. pose proof (c_shape _ _ C) as Hs. destruct (root t) as [|id d u im c0 c1].
    - simpl in Hs. unfold nodes in Hs. lia.
    - destruct Hst as (? & ? & _). destruct Hs as (-> & _ & S0 & S1). exists im. split; [done|]. split; [done|]. simpl.
      f_equal; [destruct c0 as [|j ?]; [done|]; destruct S0 as (-> & _)|destruct c1 as [|j ?]; [done|]; destruct S1 as (-> & _)]; done. }
  unfold init_head_from_data. apply runs_bind. unfold rpc_read_head, rpc_read_node.
  apply runs_bind, runs_bind, (runs_rpc_read_some _ _ b0); [done|done| |done]. intros ev1 E1. apply runs_ret.
  apply runs_bind, runs_bind, (runs_rpc_read_some _ _ b1); [done|done| |eauto]. intros ev2 E2. apply runs_ret. cbv zeta. rewrite Hsel.
  apply runs_bind, runs_guard; [intros Hlt; bool_hyps; destruct (parity_range (head t)); lia|]. intros _.
  assert (later ev ev2) as L02 by eauto.
  apply runs_bind, runs_bind, (runs_rpc_read_some _ _ (image_bytes im)); [done|by apply length_image| |eauto]. intros ev3 E3.
  rewrite bytes_image_image by done. apply runs_ret.
  apply runs_bind. unfold mod_root. apply runs_mod_ht. apply runs_mod_ht. cbn [with_root with_head root head fek imeta ht_dirty]. rewrite Hr.
  cbn [with_image]. rewrite Hhd. apply runs_bind, runs_ht. cbn [with_head with_root head]. apply runs_bind, runs_guard; [intros Hlt; bool_hyps; by apply Hlow|]. intros Hmin. bool_hyps.
  apply runs_mod_ht. cbn [with_root with_head root head fek imeta ht_dirty with_id]. rewrite Hp in HQ. apply HQ; [lia|eauto].
Qed.

(** The tree with the nodes up to [m] read. *)
Definition loaded (t : tee_fs_htree) (m : Z) : tee_fs_htree := mk_htree (prune m (root t)) (head t) (fek t) (imeta t) false.

Lemma init_nodes_runs t st sd (Q : unit -> fs -> Prop) (E : Z -> fs -> Prop) fuel : committed t st -> forall id ev,
  2 <= id <= nodes (imeta t) + 1 -> nodes (imeta t) + 1 - id < Z.of_nat fuel ->
  (forall ev', later ev ev' -> Q tt (mk_fs (Some (loaded t (nodes (imeta t)))) st sd ev')) -> (ev <> [] -> forall e s, e <> 0 -> stor s = st -> E e s) ->
  runs (init_nodes fuel id) Q E (mk_fs (Some (loaded t (id - 1))) st sd ev).
Proof.
  intros C. pose proof (c_shape _ _ C) as Hs. pose proof (c_max _ _ C) as Hmax. pose proof (c_imeta _ _ C) as (_ & Hu & _). unfold is_u in Hu.
  induction fuel as [|k IH]; intros id ev Hid Hf HQ HE; [lia|]. cbn [init_nodes]. apply runs_bind, runs_ht. cbn [loaded imeta].
  destruct (id <=? max_node_id (imeta t)) eqn:Eid; bool_hyps; unfold nodes in *.
  2:{ apply runs_ret. replace (id - 1) with (Z.max 1 (max_node_id (imeta t))) by lia. by apply HQ. }
  set (n := Z.max 1 (max_node_id (imeta t))) in *. assert (id <= n) as Hn by lia.
  assert (shaped (id - 1) 1 (prune (id - 1) (root t))) as Hsp.
  { replace (id - 1) with (Z.min n (id - 1)) at 1 by lia. by apply prune_shaped. }
  destruct (level_new (id - 1) ltac:(lia)) as [l Hl]. replace (id - 1 + 1) with id in Hl by lia.
  pose proof (shiftr_lt id 1 ltac:(lia) ltac:(lia)) as Hplt. pose proof (id_split id) as Hsplit. pose proof (bit_range id 0) as Hbit.
  assert (1 <= Z.shiftr id 1) as Hp1 by lia. assert (level (Z.shiftr id 1) = l) as Hlp.
  { unfold level in *. rewrite Z.log2_shiftr by lia. lia. }
  assert (Z.shiftr (Z.shiftr id 1) (Z.of_nat l) = 1) as Hpl by (rewrite <- Hlp; apply level_shift; lia).
  unfold find_node. apply runs_bind, runs_bind, runs_find_closest; [lia|]. change (root (loaded t (id - 1))) with (prune (id - 1) (root t)).
  rewrite Hlp. apply runs_ret.
  destruct (closest_in (id - 1) (Z.shiftr id 1) l (prune (id - 1) (root t))) as [Hc _]; [by rewrite Hpl|lia..|].
  destruct (shaped_id _ _ _ Hc ltac:(lia)) as [-> _]. rewrite Z.eqb_refl.
  rewrite (closest_prune n) by (rewrite ?Hpl; done || lia). cbv zeta. change (Z.land id 1) with (bit_of id 0). fold (cver (image_of (closest l (Z.shiftr id 1) (root t))) (bit_of id 0)).
  destruct (stored_node n st (parity (head t)) (root t) id l Hs (c_stored _ _ C) Hp1 Hn Hl) as [Him Hk].
  unfold rpc_read_node. apply runs_bind, runs_bind, (runs_rpc_read_some _ _ _ _ _ _ _ _ _ Hk); [by apply length_image| |done].
  intros ev1 L1. rewrite bytes_image_image by done. apply runs_ret. apply runs_bind, (runs_get_node_new id (id - 1)); try lia; [done| |].
  2:{ intros Hne ev'. apply HE; [by eauto|done|done]. }
  intros ev2 L2. apply runs_bind, runs_upd_node; [lia|]. unfold appended. cbn [with_root with_imeta root head fek imeta ht_dirty loaded].
  rewrite Z.max_l by lia.
  match goal with |- runs _ _ _ (mk_fs (Some ?T) _ _ _) => replace T with (loaded t (id + 1 - 1)) end.
  - apply IH; [lia|lia|intros; apply HQ; laters|laters].
  - unfold loaded, with_root, with_imeta. cbn [root head fek imeta ht_dirty]. replace (id + 1 - 1) with id by lia.
    f_equal; [|by destruct (imeta t)].
    rewrite Hl. symmetry. apply (read_next n); [|rewrite <- Hl, level_shift; lia|lia|done].
    rewrite <- Hl, level_shift by lia. done.
Qed.

(** Opening storage that holds a committed tree yields that tree; with no failure of an external
    call it succeeds. *)
Lemma open_runs t st c sd ev min_counter : committed t st -> min_counter <= counter (head t) ->
  runs (tee_fs_htree_open false None min_counter) (fun r s => r = None /\ cur s = Some t /\ stor s = st /\ later ev (events s))
    (fun e s => ev <> [] /\ stor s = st) (mk_fs c st sd ev).
Proof.
  intros C Hmin. unfold tee_fs_htree_open. apply runs_bind, runs_calloc; [|done]. intros ev1 L1. apply runs_bind, runs_modify.
  fields. apply runs_closing, runs_bind. eapply (init_head_runs _ t); [done|done|lia| |laters].
  cbn [fek imeta ht_dirty]. intros _ ev2 L2. assert (later ev ev2) as L02 by laters. apply runs_bind, runs_ht. cbn [head].
  unfold ht_head_is_partially_done. rewrite (proj2 (Z.eqb_neq _ _)) by apply C. cbn [andb]. apply runs_bind, runs_ret.
  apply runs_bind. unfold verify_root. apply runs_bind, runs_ext_call; [|laters]. intros ev3 L3. apply runs_bind, runs_mod_ht.
  fields. rewrite <- (c_fek _ _ C). apply runs_bind, runs_ht.
  unfold authenc_decrypt. apply runs_bind, runs_bind, runs_ext_call; [|laters]. intros ev4 L4. apply runs_bind, runs_ht. fields.
  assert (forall f m d, authenc_aad (mk_htree (prune 1 (root t)) (head t) f m d) None = authenc_aad t None) as Haad.
  { intros f m d. unfold authenc_aad. cbn [root head]. do 2 f_equal. pose proof (c_shape _ _ C) as Hs.
    destruct (root t) as [|id d0 u im c0 c1]; [done|]. destruct Hs as (-> & _). done. }
  rewrite Haad, (c_auth _ _ C). apply runs_ret. apply runs_mod_ht. fields.
  rewrite bytes_imeta_imeta by apply C. apply runs_bind. unfold init_tree_from_data. apply runs_bind, runs_ht. cbn [imeta].
  change (mk_htree (prune 1 (root t)) (head t) (fek t) (imeta t) false) with (loaded t (2 - 1)).
  pose proof (c_imeta _ _ C) as (_ & Hu & _). unfold is_u in Hu.
  apply init_nodes_runs; [done|unfold nodes; lia|unfold nodes; lia| |laters]. intros ev5 L5. apply runs_bind. unfold verify_tree.
  assert (later ev ev4) as L04 by laters. apply runs_bind, runs_ext_call; [|laters]. intros ev6 L6. apply runs_bind, runs_ht. unfold htree_traverse_post_order.
  assert (loaded t (nodes (imeta t)) = t) as ->.
  { unfold loaded. rewrite (prune_all _ _ 1); [|apply C|apply C]. rewrite <- (c_dirty _ _ C). by destruct t. }
  apply runs_bind, runs_ht, runs_bind. apply verify_tree_runs; [apply C| |laters]. intros ev7 L7. apply runs_bind, runs_ht.
  apply runs_modify. apply runs_ret. cbn. split; [done|]. split; [by destruct t|]. split; [done|]. laters.
Qed.

(** Storage with a counter below the minimum is not opened. *)
Lemma open_outdated t st sd ev min_counter : committed t st -> counter (head t) < min_counter ->
  runs (tee_fs_htree_open false None min_counter) (fun _ _ => False)
    (fun e s => cur s = None /\ stor s = st /\ (ev = [] -> e = TEE_ERROR_SECURITY)) (mk_fs None st sd ev).
Proof.
  intros C Hmin. unfold tee_fs_htree_open. apply runs_bind, runs_calloc; [|done]. intros ev1 L1. apply runs_bind, runs_modify.
  fields. apply runs_closing, runs_bind. eapply (init_head_runs _ t); [done|done| |lia|].
  - intros _ s Hs. done.
  - intros Hne e s He Hs. split; [done|]. split; [done|]. intros ->. by destruct (Hne (L1 eq_refl)).
Qed.
End Env.
