(* ===== verification/HtreeSync.v ===== *)
(** * The hash tree: changes and their commit

    The changes to a hash tree between two commits and [tee_fs_htree_sync_to_storage()] of
    optee_os/core/tee/fs_htree.c (modelled in [Htree]). [pending t0 t] relates the tree in memory to
    the committed one; every write before that of the head goes to versions the committed tree does
    not use, so whatever fails, storage holds the old tree or the new one. *)
From stdpp Require Import gmap.
From S2P Require Import Prelude Htree HtreeInv.
Local Open Scope Z_scope.

(** ** Flags *)

Lemma has_lxor f m k : 0 <= k -> has (Z.lxor f m) (2 ^ k) = xorb (has f (2 ^ k)) (Z.testbit m k).
Proof. intros Hk. by rewrite !has_bit, Z.lxor_spec. Qed.

Lemma has_flip f k : 0 <= k -> has (Z.lxor f (2 ^ k)) (2 ^ k) = negb (has f (2 ^ k)).
Proof. intros Hk. rewrite has_lxor by done. rewrite Z.pow2_bits_true by done. by destruct (has _ _). Qed.

Lemma has_flip_other f k j : 0 <= k -> 0 <= j -> j <> k -> has (Z.lxor f (2 ^ k)) (2 ^ j) = has f (2 ^ j).
Proof. intros Hk Hj Hne. rewrite has_lxor by done. rewrite Z.pow2_bits_false by done. by rewrite xorb_false_r. Qed.

Lemma lxor_u16 f k : is_u 16 f -> 0 <= k < 16 -> is_u 16 (Z.lxor f (2 ^ k)).
Proof.
  intros [H0 H1] Hk. pose proof (pow2_pos k ltac:(lia)). split; [apply Z.lxor_nonneg; lia|].
  destruct (decide (Z.lxor f (2 ^ k) = 0)) as [->|Hne]; [lia|].
  assert (0 <= Z.lxor f (2 ^ k)) by (apply Z.lxor_nonneg; lia). apply Z.log2_lt_pow2; [lia|].
  eapply Z.le_lt_trans; [apply Z.log2_lxor; lia|]. apply Z.max_lub_lt; [|rewrite Z.log2_pow2; lia].
  destruct (decide (f = 0)) as [->|]; [done|]. apply Z.log2_lt_pow2; lia.
Qed.

(** The version of its block a node image names. *)
Definition bver (im : node_image) : Z := if has (flags im) HTREE_NODE_COMMITTED_BLOCK then 1 else 0.

(** [im] with the flag of child [b] flipped. *)
Definition flip_child (b : Z) (im : node_image) : node_image :=
  mk_image (hash im) (iv im) (tag im) (Z.lxor (flags im) (HTREE_NODE_COMMITTED_CHILD b)).

Lemma flip_child_cver b im : b = 0 \/ b = 1 -> cver (flip_child b im) b = 1 - cver im b.
Proof. intros [-> | ->]; unfold cver, flip_child, HTREE_NODE_COMMITTED_CHILD; simpl flags; rewrite has_flip by lia; by destruct (has _ _). Qed.

Lemma flip_child_other b c im : b = 0 /\ c = 1 \/ b = 1 /\ c = 0 -> cver (flip_child b im) c = cver im c.
Proof. intros [[-> ->]|[-> ->]]; unfold cver, flip_child, HTREE_NODE_COMMITTED_CHILD; simpl flags; by rewrite has_flip_other by lia. Qed.

Lemma flip_child_bver b im : b = 0 \/ b = 1 -> bver (flip_child b im) = bver im.
Proof.
  intros [-> | ->]; unfold bver, flip_child, HTREE_NODE_COMMITTED_CHILD, HTREE_NODE_COMMITTED_BLOCK; simpl flags; by rewrite has_flip_other by lia.
Qed.

Lemma flip_child_ok b im : b = 0 \/ b = 1 -> image_ok im -> image_ok (flip_child b im).
Proof. intros Hb [H1 H2 H3 H4]. split; try done. destruct Hb as [-> | ->]; by apply lxor_u16. Qed.

(** ** Trees in memory against the committed one *)

(** A node against the committed one with its id; [None]: there is none, the node is new. *)
Definition pnode (o : option node_image) (d u : bool) (im : node_image) : Prop :=
  image_ok im /\ (u = true -> d = true) /\
  match o with
  | None => d = true
  | Some im0 => (d = false -> im = im0) /\ cver im 0 = cver im0 0 /\ cver im 1 = cver im0 1 /\
      (u = false -> iv im = iv im0 /\ tag im = tag im0 /\ bver im = bver im0) /\ (u = true -> bver im = 1 - bver im0)
  end.

Definition old_image (t0 : htree_node) : option node_image := match t0 with NULL => None | Node _ _ _ im _ _ => Some im end.

Fixpoint pending (t0 t : htree_node) : Prop :=
  match t with
  | NULL => t0 = NULL
  | Node id d u im c0 c1 => pnode (old_image t0) d u im /\ (t0 <> NULL -> node_id t0 = id) /\
      pending (child t0 0) c0 /\ pending (child t0 1) c1
  end.

(** Some node is to be written. *)
Fixpoint any_dirty (t : htree_node) : bool :=
  match t with
  | NULL => false
  | Node _ d _ _ c0 c1 => d || any_dirty c0 || any_dirty c1
  end.

Fixpoint ids (t : htree_node) : list Z :=
  match t with
  | NULL => []
  | Node id _ _ _ c0 c1 => id :: ids c0 ++ ids c1
  end.

(** The trees hold the same data: they differ in hashes, marks and versions of nodes. *)
Definition same_image (im im' : node_image) : Prop := iv im' = iv im /\ tag im' = tag im /\ bver im' = bver im.

Fixpoint same_data (t t' : htree_node) : Prop :=
  match t, t' with
  | NULL, NULL => True
  | Node id _ _ im c0 c1, Node id' _ _ im' c0' c1' => id' = id /\ same_image im im' /\ same_data c0 c0' /\ same_data c1 c1'
  | _, _ => False
  end.

Lemma same_data_refl t : same_data t t.
Proof. induction t; [done|]. simpl. split; [done|]. split; [done|]. done. Qed.

(** Where nothing is dirty, nothing changed. *)
Lemma not_dirty_eq t : forall t0, pending t0 t -> any_dirty t = false -> clean t0 -> t = t0.
Proof.
  induction t as [|id d u im c0 IH0 c1 IH1]; intros t0; cbn [pending any_dirty]; [by intros ->|].
  intros (Hp & Hid & H0 & H1) Hd Hc. bool_hyps. destruct t0 as [|id0 d0 u0 im0 a0 a1].
  - destruct Hp as (_ & _ & Hp). simpl in Hp. congruence.
  - destruct Hp as (_ & Hu & Him & _). destruct Hc as (-> & -> & C0 & C1). cbn [child] in *. change (0 =? 0) with true in *. change (1 =? 0) with false in *.
    simpl in Hid. rewrite (Hid ltac:(done)). rewrite Him by done. destruct u; [by rewrite Hu in * by done|]. subst d.
    rewrite (IH0 a0), (IH1 a1); done.
Qed.

Lemma child_null b : child NULL b = NULL. Proof. done. Qed.

Lemma pending_null t : pending NULL t -> t <> NULL -> any_dirty t = true.
Proof. destruct t as [|id d u im c0 c1]; [done|]. intros ((_ & _ & Hd) & _) _. simpl in *. by rewrite Hd. Qed.

(** ** Ids of subtrees *)

Definition under (p i : Z) : Prop := exists j, 0 <= j /\ Z.shiftr i j = p.

Lemma ids_under n t : forall p, shaped n p t -> forall i, i ∈ ids t -> under p i.
Proof.
  induction t as [|id d u im c0 IH0 c1 IH1]; intros p Hs i Hi; [by apply elem_of_nil in Hi|].
  destruct Hs as (-> & _ & S0 & S1). simpl in Hi. apply elem_of_cons in Hi as [-> |Hi].
  - exists 0. split; [done|]. apply Z.shiftr_0_r.
  - assert (exists b, (b = 0 \/ b = 1) /\ under (2 * p + b) i) as (b & Hb & j & Hj & E).
    { apply elem_of_app in Hi as [Hi|Hi]; [exists 0|exists 1]; (split; [auto|]).
      - rewrite Z.add_0_r. by apply IH0.
      - by apply IH1. }
    exists (j + 1). split; [lia|]. rewrite <- Z.shiftr_shiftr, E by lia. rewrite Z.shiftr_div_pow2 by lia. change (2 ^ 1) with 2.
    symmetry. apply (Z.div_unique _ 2 p b); lia.
Qed.

Lemma under_self p i : under p i -> 1 <= p -> p <= i.
Proof.
  intros (j & Hj & <-) Hp. assert (0 <= i) by (destruct (decide (0 <= i)); [done|]; assert (Z.shiftr i j < 0) by (apply Z.shiftr_neg; lia); lia).
  by apply shiftr_le.
Qed.

(** The two subtrees of a node have no id in common, nor the node's. *)
Lemma under_disjoint p i : 1 <= p -> under (2 * p) i -> under (2 * p + 1) i -> False.
Proof.
  intros Hp (j & Hj & Ej) (k & Hk & Ek). destruct (Z.lt_trichotomy j k) as [Hlt|[-> |Hlt]]; [| lia |].
  - assert (Z.shiftr i k = Z.shiftr (2 * p) (k - j)) as E by (rewrite <- Ej, Z.shiftr_shiftr by lia; f_equal; lia).
    pose proof (shiftr_lt (2 * p) (k - j) ltac:(lia) ltac:(lia)). lia.
  - assert (Z.shiftr i j = Z.shiftr (2 * p + 1) (j - k)) as E by (rewrite <- Ek, Z.shiftr_shiftr by lia; f_equal; lia).
    rewrite Ej in E. assert (Z.shiftr (2 * p + 1) (j - k) <= p); [|lia]. replace (j - k) with (1 + (j - k - 1)) by lia.
    rewrite <- Z.shiftr_shiftr by lia. rewrite (Z.shiftr_div_pow2 _ 1) by lia. change (2 ^ 1) with 2.
    replace ((2 * p + 1) / 2) with p by (apply (Z.div_unique _ 2 p 1); lia). apply shiftr_le; lia.
Qed.

Lemma stored_frame s s' t : forall v, (forall i w, i ∈ ids t -> s' !! (TEE_FS_HTREE_TYPE_NODE, i - 1, w) = s !! (TEE_FS_HTREE_TYPE_NODE, i - 1, w)) ->
  stored s v t -> stored s' v t.
Proof.
  induction t as [|id d u im c0 IH0 c1 IH1]; intros v Hf; [done|]. intros (H1 & H2 & H3 & H4). simpl in Hf. split; [done|]. split.
  - rewrite Hf; [done|left].
  - split; [apply IH0|apply IH1]; try done; intros i w Hi; apply Hf; right; apply elem_of_app; auto.
Qed.

Lemma pending_ids t : forall t0 i, pending t0 t -> i ∈ ids t0 -> i ∈ ids t.
Proof.
  induction t as [|id d u im c0 IH0 c1 IH1]; intros t0 i; cbn [pending]; [by intros ->|]. intros (_ & Hid & H0 & H1) Hi.
  destruct t0 as [|id0 d0 u0 im0 a0 a1]; [by apply elem_of_nil in Hi|]. simpl in Hi, Hid. rewrite (Hid ltac:(done)) in Hi. simpl.
  cbn [child] in *. apply elem_of_cons in Hi as [-> |Hi]; [left|right]. apply elem_of_app in Hi as [Hi|Hi]; apply elem_of_app; [left|right]; eauto.
Qed.

(** Storage changed only in the nodes [l]. *)
Definition only_nodes (l : list Z) (s s' : gmap key (list Z)) : Prop :=
  forall ty i w, (ty = TEE_FS_HTREE_TYPE_NODE -> i + 1 ∉ l) -> s' !! (ty, i, w) = s !! (ty, i, w).

Lemma only_refl l s : only_nodes l s s. Proof. by intros ty i w. Qed.

Lemma only_trans l1 l2 s1 s2 s3 : only_nodes l1 s1 s2 -> only_nodes l2 s2 s3 -> only_nodes (l1 ++ l2) s1 s3.
Proof. intros H1 H2 ty i w Hn. rewrite H2, H1; [done|..]; intros Hty Hi; apply (Hn Hty), elem_of_app; auto. Qed.

Lemma only_weaken l l' s s' : (forall i, i ∈ l -> i ∈ l') -> only_nodes l s s' -> only_nodes l' s s'.
Proof. intros Hl H1 ty i w Hn. apply H1. intros Hty Hi. by apply (Hn Hty), Hl. Qed.

Lemma stored_only l s s' v t : only_nodes l s s' -> (forall i, i ∈ ids t -> i ∉ l) -> stored s v t -> stored s' v t.
Proof. intros Ho Hd. apply stored_frame. intros i w Hi. apply Ho. intros _. replace (i - 1 + 1) with i by lia. by apply Hd. Qed.

Lemma same_data_shaped n t : forall t' p, same_data t t' -> shaped n p t -> shaped n p t'.
Proof.
  induction t as [|id d u im c0 IH0 c1 IH1]; intros [|id' d' u' im' a0 a1] p; try done. intros (-> & _ & H0 & H1) (-> & Hn & S0 & S1).
  simpl. auto.
Qed.

Lemma same_data_ids t : forall t', same_data t t' -> ids t' = ids t.
Proof.
  induction t as [|id d u im c0 IH0 c1 IH1]; intros [|id' d' u' im' a0 a1]; try done. intros (-> & _ & H0 & H1). simpl.
  by rewrite (IH0 a0), (IH1 a1).
Qed.

Lemma child_bit n p b c : shaped n (2 * p + b) c -> b = 0 \/ b = 1 -> c <> NULL -> Z.land (node_id c) 1 = b.
Proof.
  destruct c as [|id d u im c0 c1]; [done|]. intros (-> & _) Hb _. cbn [node_id]. change 1 with (Z.ones 1). rewrite Z.land_ones by lia.
  change (2 ^ 1) with 2. symmetry. apply (Z.mod_unique _ 2 p b); lia.
Qed.

(** The children of a node have no id in common with each other or with the node. *)
Lemma ids_apart n p c0 c1 : 1 <= p -> shaped n (2 * p) c0 -> shaped n (2 * p + 1) c1 ->
  (forall i, i ∈ ids c0 -> i ∉ ids c1) /\ p ∉ ids c0 /\ p ∉ ids c1.
Proof.
  intros Hp S0 S1. split; [|split].
  - intros i H0 H1. eapply (under_disjoint p i); [done|by eapply ids_under..].
  - intros Hi. apply (ids_under _ _ _ S0), under_self in Hi; lia.
  - intros Hi. apply (ids_under _ _ _ S1), under_self in Hi; lia.
Qed.

(** [im] with the flag of child [b] flipped if [c]. *)
Definition flip_if (c : bool) (b : Z) (im : node_image) : node_image := if c then flip_child b im else im.

Lemma touch_marks (c : bool) b pf id d u im c0 c1 : pf = (if c then Some (Z.lxor (flags im) (HTREE_NODE_COMMITTED_CHILD b)) else None) ->
  touch_parent pf (Node id d u im c0 c1) = Node id (d || c) u (flip_if c b im) c0 c1.
Proof. intros ->. destruct c; simpl; [by rewrite orb_true_r|by rewrite orb_false_r]. Qed.

Lemma flip_if_cver c b im : b = 0 \/ b = 1 -> cver (flip_if c b im) b = if c then 1 - cver im b else cver im b.
Proof. intros Hb. destruct c; [by apply flip_child_cver|done]. Qed.
Lemma flip_if_other c b b' im : b = 0 /\ b' = 1 \/ b = 1 /\ b' = 0 -> cver (flip_if c b im) b' = cver im b'.
Proof. intros Hb. destruct c; [by apply flip_child_other|done]. Qed.
Lemma flip_if_ok c b im : b = 0 \/ b = 1 -> image_ok im -> image_ok (flip_if c b im).
Proof. intros Hb. destruct c; [by apply flip_child_ok|done]. Qed.
Lemma flip_if_same c b im : b = 0 \/ b = 1 -> iv (flip_if c b im) = iv im /\ tag (flip_if c b im) = tag im /\ bver (flip_if c b im) = bver im.
Proof. intros Hb. destruct c; [|done]. split; [done|]. split; [done|]. by apply flip_child_bver. Qed.

Section Sync.
Context {henv : HtEnv} {hlaws : HtLaws}.

Lemma runs_rpc_write_final k data c st sd ev (Q : unit -> fs -> Prop) (E : Z -> fs -> Prop) :
  (forall ev', later ev ev' -> Q tt (mk_fs c (<[k := data]> st) sd ev')) ->
  (ev <> [] -> forall e st' ev', e <> 0 -> st' = st \/ st' = <[k := data]> st -> E e (mk_fs c st' sd ev')) ->
  runs (rpc_write_final k data) Q E (mk_fs c st sd ev).
Proof.
  intros H1 H2. unfold rpc_write_final. apply runs_bind, runs_ext.
  - intros ev' L. apply runs_bind, runs_modify. apply runs_guard; [done|]. intros _. by apply H1.
  - intros Hne e ev' L. destruct (code e =? 0) eqn:E1; bool_hyps; cbn [orb].
    + apply runs_bind, runs_modify. apply runs_guard; [done|]. intros _. by apply H1.
    + destruct (wrote e); [apply runs_bind, runs_modify|apply runs_bind, runs_ret]; apply runs_guard; try done; intros _; apply H2; auto.
Qed.

Lemma runs_rpc_write k data c st sd ev (Q : unit -> fs -> Prop) (E : Z -> fs -> Prop) :
  (forall ev', later ev ev' -> Q tt (mk_fs c (<[k := data]> st) sd ev')) ->
  (ev <> [] -> forall e st' ev', e <> 0 -> st' = st \/ st' = <[k := data]> st -> E e (mk_fs c st' sd ev')) ->
  runs (rpc_write k data) Q E (mk_fs c st sd ev).
Proof.
  intros H1 H2. unfold rpc_write. apply runs_bind, runs_ext_call; [|auto]. intros ev1 L1. apply runs_rpc_write_final.
  - intros ev2 L2. apply H1. laters.
  - intros Hne. apply H2. laters.
Qed.

(** ** The walk that writes the dirty nodes *)

(** The version of a node in use: named by its parent, by the counter for the root. *)
Definition pver (h : htree_image) (parent : option Z) (id : Z) : Z :=
  match parent with
  | Some pf => if has pf (HTREE_NODE_COMMITTED_CHILD (Z.land id 1)) then 1 else 0
  | None => parity h
  end.

Definition pflip (parent : option Z) (id : Z) : option Z :=
  match parent with Some pf => Some (Z.lxor pf (HTREE_NODE_COMMITTED_CHILD (Z.land id 1))) | None => None end.

(** The version a dirty node is written to. *)
Lemma write_version h parent id :
  match pflip parent id with
  | Some pf => if has pf (HTREE_NODE_COMMITTED_CHILD (Z.land id 1)) then 1 else 0
  | None => if has (counter h) 1 then 0 else 1
  end = 1 - pver h parent id.
Proof.
  destruct parent as [pf|]; cbn [pflip pver].
  - unfold HTREE_NODE_COMMITTED_CHILD. rewrite has_flip; [by destruct (has _ _)|]. pose proof (bit_range id 0) as Hb. unfold bit_of in Hb.
    rewrite Z.shiftr_0_r in Hb. lia.
  - change (has (counter h) 1) with (has (counter h) (2 ^ 0)). rewrite has_bit, Z.bit0_odd by lia.
    change (parity h) with (bit_of (counter h) 0). rewrite bit_of_mod, Z.shiftr_0_r, Zmod_odd. by destruct (Z.odd _).
Qed.

(** What the walk makes of the subtree [t], whose committed form is [t0] in version [v]. *)
Record synced (T : tee_fs_htree) (parent : option Z) (t t' : htree_node) (pf : option Z) (st' : gmap key (list Z)) : Prop := mk_synced {
  sy_flags : pf = if any_dirty t then pflip parent (node_id t) else None;
  sy_clean : clean t';
  sy_hashed : hashed (meta_for parent (meta_bytes (imeta T))) t';
  sy_data : same_data t t';
  sy_stored : stored st' (if any_dirty t then 1 - pver (head T) parent (node_id t) else pver (head T) parent (node_id t)) t';
  sy_same : any_dirty t = false -> t' = t;
}.

(** What stays as it was, whatever happens. *)
Record kept (st : gmap key (list Z)) (v : Z) (t0 t : htree_node) (st' : gmap key (list Z)) : Prop := mk_kept {
  ke_old : stored st' v t0;
  ke_only : only_nodes (ids t) st st';
}.

(** The callback on a node whose children are done. *)
Lemma sync_node_runs T parent id u im c0 c1 st sd ev (Q : htree_node * option Z -> fs -> Prop) (E : Z -> fs -> Prop) :
  let h := sha256 (hash_input (meta_for parent (meta_bytes (imeta T))) (Node id true u im c0 c1)) in
  let im' := mk_image h (iv im) (tag im) (flags im) in
  let k := (TEE_FS_HTREE_TYPE_NODE, id - 1, 1 - pver (head T) parent id) in
  (forall ev', later ev ev' -> Q (Node id false false im' c0 c1, pflip parent id) (mk_fs (Some T) (<[k := image_bytes im']> st) sd ev')) ->
  (ev <> [] -> forall e st' ev', e <> 0 -> st' = st \/ st' = <[k := image_bytes im']> st -> E e (mk_fs (Some T) st' sd ev')) ->
  runs (htree_sync_node_to_storage parent (Node id true u im c0 c1)) Q E (mk_fs (Some T) st sd ev).
Proof.
  intros h im' k HQ HE. unfold htree_sync_node_to_storage. apply runs_bind, runs_assert; [by destruct u|]. cbn [negb].
  apply runs_bind, runs_ht. cbv zeta. apply runs_bind. unfold calc_node_hash. apply runs_bind, runs_ext_call; [|intros Hne e ev' He; apply HE; auto].
  intros ev1 L1. apply runs_ret. apply runs_bind. unfold rpc_write_node. fold (pflip parent id). rewrite write_version.
  apply runs_rpc_write.
  - intros ev2 L2. apply runs_ret, HQ. laters.
  - intros Hne. apply HE. laters.
Qed.

Lemma kept_refl st v t0 t : stored st v t0 -> kept st v t0 t st.
Proof. split; [done|apply only_refl]. Qed.

(** The storage of a node and of its children. *)
Lemma stored_children st v t0 b : stored st v t0 -> b = 0 \/ b = 1 -> stored st (cver (image_of t0) b) (child t0 b).
Proof. destruct t0 as [|id d u im c0 c1]; [done|]. intros (_ & _ & H0 & H1) [-> | ->]; done. Qed.

Lemma kept_children n p d u im c0 c1 st st1 st2 v t0 : 1 <= p -> shaped n p (Node p d u im c0 c1) -> pending t0 (Node p d u im c0 c1) ->
  stored st v t0 -> kept st (cver (image_of t0) 0) (child t0 0) c0 st1 -> kept st1 (cver (image_of t0) 1) (child t0 1) c1 st2 ->
  kept st v t0 (Node p d u im c0 c1) st2.
Proof.
  intros Hp (_ & _ & S0 & S1) (_ & Hid & P0 & P1) Hst [K0 O0] [K1 O1]. destruct (ids_apart _ _ _ _ Hp S0 S1) as (Hap & Hp0 & Hp1).
  pose proof (only_trans _ _ _ _ _ O0 O1) as Ho. split.
  - destruct t0 as [|id d0 u0 im0 a0 a1]; [done|]. simpl in Hid. rewrite (Hid ltac:(done)) in *. destruct Hst as (Hi & Hl & H0 & H1).
    cbn [child image_of] in *. change (0 =? 0) with true in *. change (1 =? 0) with false in *. cbv iota in *. split; [done|]. split.
    + rewrite Ho; [done|]. intros _ Hin. replace (p - 1 + 1) with p in Hin by lia. apply elem_of_app in Hin as []; auto.
    + split; [|done]. eapply stored_only; [apply O1| |done]. intros i Hi0. apply Hap. by eapply pending_ids.
  - eapply only_weaken; [|done]. intros i Hi. simpl. by right.
Qed.

Lemma kept_write n p d u im c0 c1 st st2 v t0 w b : 1 <= p -> shaped n p (Node p d u im c0 c1) -> pending t0 (Node p d u im c0 c1) ->
  kept st v t0 (Node p d u im c0 c1) st2 -> (t0 <> NULL -> v <> w) ->
  kept st v t0 (Node p d u im c0 c1) (<[(TEE_FS_HTREE_TYPE_NODE, p - 1, w) := b]> st2).
Proof.
  intros Hp (_ & _ & S0 & S1) (_ & Hid & P0 & P1) [K O] Hv. destruct (ids_apart _ _ _ _ Hp S0 S1) as (Hap & Hp0 & Hp1). split.
  - destruct t0 as [|id d0 u0 im0 a0 a1]; [done|]. simpl in Hid. rewrite (Hid ltac:(done)) in *. destruct K as (Hi & Hl & H0 & H1). split; [done|].
    assert (only_nodes [p] st2 (<[(TEE_FS_HTREE_TYPE_NODE, p - 1, w):=b]> st2)) as Ho.
    { intros ty i x Hn. rewrite lookup_insert_ne; [done|]. intros [= <- <- _]. apply Hn; [done|]. apply list_elem_of_singleton. lia. }
    split; [|split].
    + rewrite lookup_insert_ne; [done|]. intros [= ->]. by apply Hv.
    + eapply stored_only; [done| |done]. intros i Hi0 Hin. apply list_elem_of_singleton in Hin as ->. by apply Hp0, (pending_ids c0 a0).
    + eapply stored_only; [done| |done]. intros i Hi0 Hin. apply list_elem_of_singleton in Hin as ->. by apply Hp1, (pending_ids c1 a1).
  - intros ty i x Hn. rewrite lookup_insert_ne; [by apply O|]. intros [= <- <- _]. apply Hn; [done|]. apply elem_of_cons. left. lia.
Qed.

(** A node written after its children. *)
Lemma synced_write n T parent p d u im c0 c1 a0 a1 pf0 pf1 st1 st2 : let t := Node p d u im c0 c1 in
  let im1 := flip_if (any_dirty c0) 0 im in let im2 := flip_if (any_dirty c1) 1 im1 in
  let h := sha256 (hash_input (meta_for parent (meta_bytes (imeta T))) (Node p true u im2 a0 a1)) in
  let im' := mk_image h (iv im2) (tag im2) (flags im2) in
  1 <= p -> shaped n p t -> image_ok im -> any_dirty t = true ->
  synced T (Some (flags im)) c0 a0 pf0 st1 -> synced T (Some (flags im1)) c1 a1 pf1 st2 -> only_nodes (ids c1) st1 st2 ->
  synced T parent t (Node p false false im' a0 a1) (pflip parent p)
    (<[(TEE_FS_HTREE_TYPE_NODE, p - 1, 1 - pver (head T) parent p) := image_bytes im']> st2).
Proof.
  intros t im1 im2 h im' Hp Hs Him Hd Y0 Y1 O1. pose proof Hs as (_ & _ & S0 & S1). destruct (ids_apart _ _ _ _ Hp S0 S1) as (Hap & Hp0 & Hp1).
  pose proof (same_data_ids _ _ (sy_data _ _ _ _ _ _ Y0)) as I0. pose proof (same_data_ids _ _ (sy_data _ _ _ _ _ _ Y1)) as I1.
  destruct (flip_if_same (any_dirty c0) 0 im ltac:(auto)) as (F1 & F2 & F3). destruct (flip_if_same (any_dirty c1) 1 im1 ltac:(auto)) as (G1 & G2 & G3).
  assert (forall b i, i ∈ ids b -> p ∉ ids b -> i ∉ [p]) as Hnp by (intros b i Hi Hb Hin; apply list_elem_of_singleton in Hin as ->; done).
  set (b := image_bytes im'). set (k := (TEE_FS_HTREE_TYPE_NODE, p - 1, 1 - pver (head T) parent p)).
  assert (only_nodes [p] st2 (<[k := b]> st2)) as Ho.
  { intros ty i x Hn. rewrite lookup_insert_ne; [done|]. intros [= <- <- _]. apply Hn; [done|]. apply list_elem_of_singleton. lia. }
  assert (forall c b v, c = NULL \/ shaped n (2 * p + b) c -> b = 0 \/ b = 1 -> forall im, pver (head T) (Some (flags im)) (node_id c) = v -> c <> NULL -> v = cver im b) as Hcv.
  { intros c b' v [-> |Hc] Hb im'' <- Hne; [done|]. cbn [pver]. by rewrite (child_bit n p b'). }
  split; rewrite ?Hd; try done; unfold t.
  - simpl. split; [done|]. split; [done|]. split; [apply Y0|apply Y1].
  - cbn [hashed]. split; [done|]. split; [apply Y0|apply Y1].
  - simpl. split; [done|]. split; [|split; [apply Y0|apply Y1]]. unfold same_image. cbn [im' iv tag]. change (bver im') with (bver im2).
    unfold im2. rewrite G1, G2, G3. unfold im1. rewrite F1, F2, F3. done.
  - cbn [stored node_id]. split.
    { destruct (flip_if_ok (any_dirty c1) 1 im1 ltac:(auto) (flip_if_ok (any_dirty c0) 0 im ltac:(auto) Him)) as [Z1 Z2 Z3 Z4].
      split; [apply sha256_len|done..]. }
    split; [by rewrite lookup_insert_eq|]. change (cver im' 0) with (cver im2 0). change (cver im' 1) with (cver im2 1). split.
    + eapply stored_only; [apply Ho|rewrite I0; eauto|]. eapply stored_only; [apply O1|rewrite I0; exact Hap|].
      pose proof (sy_stored _ _ _ _ _ _ Y0) as Hst. unfold im2. rewrite flip_if_other by auto. unfold im1. rewrite flip_if_cver by auto.
      destruct c0 as [|j d0 u0 i0 x0 x1]; [by destruct a0, (sy_data _ _ _ _ _ _ Y0)|].
      rewrite <- (Hcv (Node j d0 u0 i0 x0 x1) 0 _ ltac:(right; rewrite Z.add_0_r; done) ltac:(auto) im eq_refl) by done. done.
    + eapply stored_only; [apply Ho|rewrite I1; eauto|].
      pose proof (sy_stored _ _ _ _ _ _ Y1) as Hst. unfold im2. rewrite flip_if_cver by auto.
      destruct c1 as [|j d0 u0 i0 x0 x1]; [by destruct a1, (sy_data _ _ _ _ _ _ Y1)|].
      rewrite <- (Hcv (Node j d0 u0 i0 x0 x1) 1 _ ltac:(auto) ltac:(auto) im1 eq_refl) by done. done.
Qed.

(** The walk over a subtree: it commits the dirty nodes, in versions that the committed tree does not
    use. *)
Lemma sync_nodes_runs T n sd t : forall t0 p parent v mo st ev (Q : htree_node * option Z -> fs -> Prop) (E : Z -> fs -> Prop),
  1 <= p -> pending t0 t -> shaped n p t -> clean t0 -> hashed mo t0 -> stored st v t0 ->
  (t0 <> NULL -> v = pver (head T) parent (node_id t)) -> (any_dirty t = false -> mo = meta_for parent (meta_bytes (imeta T))) ->
  (forall t' pf st' ev', later ev ev' -> synced T parent t t' pf st' -> kept st v t0 t st' -> Q (t', pf) (mk_fs (Some T) st' sd ev')) ->
  (ev <> [] -> forall e st' ev', e <> 0 -> kept st v t0 t st' -> E e (mk_fs (Some T) st' sd ev')) ->
  runs (traverse_post_order htree_sync_node_to_storage parent t) Q E (mk_fs (Some T) st sd ev).
Proof.
  induction t as [|id d u im c0 IH0 c1 IH1]; intros t0 p parent v mo st ev Q E Hp Hpend Hs Hc Hh Hst Hv Hmo HQ HE; cbn [traverse_post_order].
  { simpl in Hpend. subst t0. apply runs_ret. apply HQ; [done|split; done|split; [done|apply only_refl]]. }
  destruct Hpend as (Hn & Hid & P0 & P1). destruct Hs as (-> & Hpn & S0 & S1). destruct (ids_apart _ _ _ _ Hp S0 S1) as (Hap & Hp0 & Hp1).
  assert (clean (child t0 0) /\ clean (child t0 1) /\ hashed None (child t0 0) /\ hashed None (child t0 1)) as (C0 & C1 & H0 & H1).
  { destruct t0 as [|? ? ? ? a0 a1]; [done|]. destruct Hc as (_ & _ & ? & ?), Hh as (_ & ? & ?). done. }
  assert (forall h im' b, b = 0 \/ b = 1 -> cver im' b = cver im b -> child t0 b <> NULL -> pending (child t0 b) (child (Node p d u im c0 c1) b) ->
    cver (image_of t0) b = pver h (Some (flags im')) (node_id (child (Node p d u im c0 c1) b))) as Hver.
  { intros h im' b Hb Hcv Hnn Hpe. assert (child (Node p d u im c0 c1) b <> NULL) as Hcn.
    { intros Hcn. rewrite Hcn in Hpe. simpl in Hpe. done. }
    cbn [pver]. rewrite (child_bit n p b); [|apply child_shaped; [simpl; auto|done|done]|done|done]. fold (cver im' b). rewrite Hcv.
    destruct t0 as [|? ? ? im0 a0 a1]; [done|]. destruct Hn as (_ & _ & _ & E0 & E1 & _). destruct Hb as [-> | ->]; done. }
  assert (forall im' b, b = 0 \/ b = 1 -> let c := child (Node p d u im c0 c1) b in (if any_dirty c then pflip (Some (flags im')) (node_id c) else None) =
     if any_dirty c then Some (Z.lxor (flags im') (HTREE_NODE_COMMITTED_CHILD b)) else None) as Hpf.
  { intros im' b Hb c. destruct (any_dirty c) eqn:Ed; [|done]. cbn [pflip]. rewrite (child_bit n p b); [done| |done|by intros Hcn; rewrite Hcn in Ed].
    apply child_shaped; [simpl; auto|done|done]. }
  pose proof (stored_children _ _ _ 0 Hst ltac:(auto)) as St0. pose proof (stored_children _ _ _ 1 Hst ltac:(auto)) as St1.
  assert (shaped n p (Node p d u im c0 c1)) as Hshape by (simpl; auto).
  assert (pending t0 (Node p d u im c0 c1)) as Hpend by (simpl; auto).
  apply runs_bind. apply (IH0 (child t0 0) (2 * p) _ (cver (image_of t0) 0) None); try done; [lia|intros Hnn; exact (Hver (head T) im 0 ltac:(auto) eq_refl Hnn P0)| |].
  2:{ intros Hne e st' ev' He K. apply HE; [done|done|]. eapply kept_children; try done. apply kept_refl.
      eapply stored_only; [apply K| |done]. intros i Hi1 Hi0. apply (Hap i Hi0). by eapply pending_ids. }
  intros t0' pf0 st1 ev1 L1 Y0 K0. cbn [fst snd]. rewrite (touch_marks (any_dirty c0) 0) by (rewrite (sy_flags _ _ _ _ _ _ Y0); apply (Hpf im 0); auto).
  set (im1 := flip_if (any_dirty c0) 0 im). cbn [image_of].
  assert (stored st1 (cver (image_of t0) 1) (child t0 1)) as St11.
  { eapply stored_only; [apply K0| |done]. intros i Hi1 Hi0. apply (Hap i Hi0). by eapply pending_ids. }
  apply runs_bind. apply (IH1 (child t0 1) (2 * p + 1) _ (cver (image_of t0) 1) None); try done; [lia|intros Hnn; exact (Hver (head T) im1 1 ltac:(auto) ltac:(apply flip_if_other; auto) Hnn P1)| |].
  2:{ intros Hne e st' ev' He K. apply HE; [laters|done|]. by eapply kept_children. }
  intros t1' pf1 st2 ev2 L2 Y1 K1. cbn [fst snd set_child]. change (1 =? 0) with false. cbv iota.
  rewrite (touch_marks (any_dirty c1) 1) by (rewrite (sy_flags _ _ _ _ _ _ Y1); apply (Hpf im1 1); auto).
  set (im2 := flip_if (any_dirty c1) 1 im1).
  assert (kept st v t0 (Node p d u im c0 c1) st2) as K by (by eapply kept_children).
  assert (later ev ev2) as L by laters.
  destruct (any_dirty (Node p d u im c0 c1)) eqn:Ed; pose proof Ed as Ed2; cbn [any_dirty] in Ed2; rewrite Ed2.
  - apply sync_node_runs.
    + intros ev3 L3. apply HQ; [laters| |by eapply kept_write; [..|intros Hnn; rewrite Hv by done; cbn [node_id]; lia]].
      eapply synced_write; [done|done|apply Hn|done|exact Y0|exact Y1|apply K1].
    + intros Hne e st' ev' He Hst'. apply HE; [laters|done|]. destruct Hst' as [-> | ->]; [done|].
      eapply kept_write; [done..|]. intros Hnn. rewrite Hv by done. cbn [node_id]. lia.
  - pose proof (not_dirty_eq _ _ Hpend Ed Hc) as Et. apply orb_false_iff in Ed2 as [Ed2 E1]. apply orb_false_iff in Ed2 as [-> E0].
    assert (u = false) as -> by (destruct Hn as (_ & Hu & _); destruct u; [by discriminate Hu|done]).
    unfold im2, im1. rewrite E0, E1. cbn [flip_if]. rewrite (sy_same _ _ _ _ _ _ Y0 E0), (sy_same _ _ _ _ _ _ Y1 E1).
    unfold htree_sync_node_to_storage. apply runs_bind, runs_assert; [done|]. cbn [negb]. apply runs_ret. apply HQ; [done| |done].
    split; rewrite ?Ed; try done; [by rewrite Et|rewrite Et; by rewrite <- Hmo by done|apply same_data_refl|].
    rewrite <- Hv by (by rewrite <- Et). rewrite Et. apply K.
Qed.

(** ** The commit *)

(** [t] is the tree in memory when [t0] is the committed one. *)
Record changed (t0 t : tee_fs_htree) : Prop := mk_changed {
  ch_pending : pending (root t0) (root t);
  ch_shape : shaped (nodes (imeta t)) 1 (root t);
  ch_head : head t = head t0;
  ch_fek : fek t = fek t0;
  ch_imeta : imeta_ok (imeta t);
  ch_max : max_node_id (imeta t) < UINT_MAX;
  ch_dirty : ht_dirty t = true -> any_dirty (root t) = true;
  ch_same : ht_dirty t = false -> t = t0;
}.

Lemma changed_refl t st : committed t st -> changed t t.
Proof.
  intros C. split; try apply C; try done.
  - pose proof (c_stored _ _ C) as Hst. pose proof (c_clean _ _ C) as Hc. revert Hst Hc. generalize (parity (head t)).
    induction (root t) as [|id d u im c0 IH0 c1 IH1]; intros v; [done|]. intros (Hi & _ & H0 & H1) (-> & -> & C0 & C1).
    simpl. split; [|split; [done|]; split; eauto]. split; [done|]. split; [done|]. done.
  - rewrite (c_dirty _ _ C). done.
Qed.

(** The trees hold the same data under the same key. *)
Record same_file (t t' : tee_fs_htree) : Prop := mk_same_file {
  sf_data : same_data (root t) (root t');
  sf_imeta : imeta t' = imeta t;
  sf_fek : fek t' = fek t;
  sf_enc_fek : enc_fek (head t') = enc_fek (head t);
}.

(** Storage with the same blocks. *)
Definition same_blocks (s s' : gmap key (list Z)) : Prop :=
  forall i w, s' !! (TEE_FS_HTREE_TYPE_BLOCK, i, w) = s !! (TEE_FS_HTREE_TYPE_BLOCK, i, w).

Lemma only_blocks l s s' : only_nodes l s s' -> same_blocks s s'.
Proof. intros Ho i w. by apply Ho. Qed.

Lemma committed_kept t st st' t1 : committed t st -> kept st (parity (head t)) (root t) t1 st' -> committed t st'.
Proof.
  intros C [Ks Ko]. split; try apply C; try done.
  - rewrite Ko by done. apply C.
  - destruct (c_other _ _ C) as (b & Hb & Ho). exists b. split; [|done]. by rewrite Ko.
Qed.

Lemma next_parity h h' : counter h' = counter h + 1 -> parity h' = 1 - parity h.
Proof.
  intros E. unfold parity. change (Z.land (counter h') 1) with (bit_of (counter h') 0). change (Z.land (counter h) 1) with (bit_of (counter h) 0).
  rewrite !bit_of_mod, !Z.shiftr_0_r, E, !Zmod_odd, Z.odd_add. by destruct (Z.odd (counter h)).
Qed.

Lemma has_parity h : has (counter h) 1 = (parity h =? 1).
Proof.
  change (has (counter h) 1) with (has (counter h) (2 ^ 0)). rewrite has_bit, Z.bit0_odd by lia.
  change (parity h) with (bit_of (counter h) 0). rewrite bit_of_mod, Z.shiftr_0_r, Zmod_odd. by destruct (Z.odd _).
Qed.

(** The head before is outdated by the next. *)
Lemma next_outdates h h' : head_ok h -> counter h' = counter h + 1 -> outdated h' (head_bytes h).
Proof.
  intros Ho E. split; [by apply length_head|]. rewrite bytes_head_head by done. unfold get_idx_from_counter. rewrite !has_parity.
  rewrite (next_parity h h' E). destruct (parity_range h) as [E0|E0]; rewrite E0; simpl.
  - by rewrite (proj2 (Z.ltb_ge _ _)) by lia.
  - by rewrite (proj2 (Z.ltb_lt _ _)) by lia.
Qed.

Lemma length_imeta m : length (imeta_bytes m) = 16%nat.
Proof. unfold imeta_bytes. by rewrite !length_app, !length_le_bytes. Qed.

(** The tree after its head is sealed with the iv [v]. *)
Definition sealed (v : list Z) (r : htree_node) (t : tee_fs_htree) : tee_fs_htree :=
  let h := mk_head v (head_tag (head t)) (enc_fek (head t)) (head_imeta (head t)) (counter (head t) + 1) in
  let e := gcm_enc (fek t) v (authenc_aad (mk_htree r h (fek t) (imeta t) (ht_dirty t)) None) (imeta_bytes (imeta t)) in
  mk_htree r (mk_head v (snd e) (enc_fek (head t)) (fst e) (counter (head t) + 1)) (fek t) (imeta t) false.

Lemma update_root_runs t st sd ev (Q : unit -> fs -> Prop) (E : Z -> fs -> Prop) : is_u 32 (counter (head t)) -> counter (head t) < UINT_MAX ->
  (forall ev', later ev ev' -> Q tt (mk_fs (Some (with_dirty (ht_dirty t) (sealed (random sd 16) (root t) t))) st (S sd) ev')) ->
  (ev <> [] -> forall e c sd' ev', e <> 0 -> E e (mk_fs c st sd' ev')) ->
  runs update_root Q E (mk_fs (Some t) st sd ev).
Proof.
  intros Hc Hm HQ HE. unfold update_root. apply runs_bind, runs_mod_ht. fields. unfold is_u, UINT_MAX in *. rewrite (uwrap_small 32) by (unfold is_u; lia).
  apply runs_bind, runs_rng; [|intros; apply HE; auto]. intros ev1 L1. apply runs_bind, runs_mod_ht. fields.
  apply runs_bind, runs_ext_call; [|intros; apply HE; auto; laters]. intros ev2 L2. apply runs_mod_ht. fields. cbn [head_iv head_tag enc_fek head_imeta counter].
  unfold sealed in HQ. unfold with_dirty in HQ. cbn [root head fek imeta ht_dirty] in HQ. apply HQ. laters.
Qed.

(** A tree with its nodes written is committed once its head is in storage. *)
Lemma sealed_ok t r st' st2 v b : is_u 32 (counter (head t)) -> counter (head t) < UINT_MAX -> length v = 16%nat ->
  length (enc_fek (head t)) = 16%nat -> fek t = fek_dec (enc_fek (head t)) -> imeta_ok (imeta t) -> max_node_id (imeta t) < UINT_MAX ->
  shaped (nodes (imeta t)) 1 (root t) -> any_dirty (root t) = true -> synced t None (root t) r None st' ->
  let t' := sealed v r t in
  (forall i w, st2 !! (TEE_FS_HTREE_TYPE_NODE, i, w) = st' !! (TEE_FS_HTREE_TYPE_NODE, i, w)) ->
  st2 !! (TEE_FS_HTREE_TYPE_HEAD, 0, parity (head t')) = Some (head_bytes (head t')) ->
  st2 !! (TEE_FS_HTREE_TYPE_HEAD, 0, 1 - parity (head t')) = Some b -> outdated (head t') b ->
  committed t' st2 /\ same_file t t'.
Proof.
  intros Hc Hu Hv Hk Hf Hm Hmax Hs Hd Y t' Hn Hh Hb Ho.
  assert (parity (head t') = 1 - parity (head t)) as Hp by (apply next_parity; done).
  split; [|split; try done; apply Y]. split; try done.
  - eapply same_data_shaped; [apply Y|done].
  - apply Y.
  - pose proof (sy_stored _ _ _ _ _ _ Y) as Hst. rewrite Hd in Hst. cbn [pver] in Hst. rewrite <- Hp in Hst.
    eapply stored_frame; [|exact Hst]. intros i w _. apply Hn.
  - apply (sy_hashed _ _ _ _ _ _ Y).
  - by exists b.
  - unfold is_u, UINT_MAX in *. split; unfold t', sealed; cbn [head head_iv head_tag enc_fek head_imeta counter]; try done.
    + apply gcm_tag_len.
    + rewrite gcm_len. apply length_imeta.
    + unfold is_u. lia.
  - unfold is_u in Hc. unfold t', sealed; cbn [head counter]. lia.
  - unfold t', sealed. cbn [fek head head_iv head_imeta head_tag imeta]. match goal with |- gcm_dec _ _ ?a _ _ = _ => match goal with |- context [gcm_enc _ _ ?b _] => change a with b end end. apply gcm_dec_enc.
Qed.

(** The new tree is committed once its head is in storage. *)
Lemma sealed_committed t0 t r st st' st2 v : committed t0 st -> changed t0 t -> counter (head t0) < UINT_MAX -> length v = 16%nat ->
  any_dirty (root t) = true -> kept st (parity (head t0)) (root t0) (root t) st' -> synced t None (root t) r None st' ->
  let t' := sealed v r t in
  st2 = <[(TEE_FS_HTREE_TYPE_HEAD, 0, parity (head t')) := head_bytes (head t')]> st' ->
  committed t' st2 /\ same_file t t'.
Proof.
  intros C X Hc Hv Hd K Y t' ->. pose proof (c_head_ok _ _ C) as Ho. pose proof (ch_head _ _ X) as Eh.
  assert (counter (head t') = counter (head t0) + 1) as Ec by (unfold t', sealed; cbn [head counter]; by rewrite Eh).
  pose proof (next_parity _ _ Ec) as Hp.
  assert (fek t = fek_dec (enc_fek (head t))) as Hf by (rewrite Eh, (ch_fek _ _ X); apply C). pose proof Ho as Ho'. rewrite <- Eh in Ho'.
  apply (sealed_ok t r st' _ v (head_bytes (head t0))); try done; try apply X; try apply Ho'.
  - by rewrite Eh.
  - intros i w. by rewrite lookup_insert_ne.
  - by rewrite lookup_insert_eq.
  - change (sealed v r t) with t'. rewrite Hp. rewrite lookup_insert_ne by (intros [=]; lia). rewrite (ke_only _ _ _ _ _ K) by done.
    replace (1 - (1 - parity (head t0))) with (parity (head t0)) by lia. apply C.
  - by apply next_outdates.
Qed.

(** What [tee_fs_htree_sync_to_storage()] leaves: on success the new tree is committed; on an error
    the old or the new one is. The blocks stay. *)
Lemma sync_runs t0 t st sd ev : committed t0 st -> changed t0 t -> counter (head t0) < UINT_MAX ->
  runs tee_fs_htree_sync_to_storage
    (fun r s => exists t', cur s = Some t' /\ committed t' (stor s) /\ same_file t t' /\ same_blocks st (stor s) /\
       counter (head t') = counter (head t0) + Z.b2z (ht_dirty t) /\
       r = (if ht_dirty t then Some (hash (image_of (root t')), counter (head t')) else None))
    (fun e s => ev <> [] /\ same_blocks st (stor s) /\
       (committed t0 (stor s) \/ exists t', committed t' (stor s) /\ same_file t t' /\ counter (head t') = counter (head t0) + 1))
    (mk_fs (Some t) st sd ev).
Proof.
  intros C X Hc. unfold tee_fs_htree_sync_to_storage. apply runs_bind. unfold opened. apply runs_bind, runs_get, runs_guard; [done|]. intros _.
  apply runs_bind, runs_ht. destruct (ht_dirty t) eqn:Ed; cbn [negb].
  2:{ apply runs_ret. rewrite (ch_same _ _ X Ed) in *. exists t0. split; [done|]. split; [done|]. split; [split; try done; apply same_data_refl|]. split; [done|]. split; [cbn [Z.b2z]; lia|done]. }
  pose proof (ch_dirty _ _ X Ed) as Hd. pose proof (c_head_ok _ _ C) as Ho.
  apply runs_bind, runs_ext_call; [|intros; split; [done|]; auto; split; [done|]; auto]. intros ev1 L1. apply runs_closing.
  apply runs_bind. unfold htree_traverse_post_order. apply runs_bind, runs_ht, runs_bind.
  apply (sync_nodes_runs t (nodes (imeta t)) sd (root t) (root t0) 1 None (parity (head t0)) (Some (meta_bytes (imeta t0)))); try apply X; try apply C; try lia.
  { intros _. cbn [pver]. by rewrite (ch_head _ _ X). }
  { by rewrite Hd. }
  2:{ intros Hne e st' ev' He K. split; [laters|]. split; [by eapply only_blocks, K|]. left. by eapply committed_kept. }
  intros r pf st' ev2 L2 Y K. assert (later ev ev2) as L02 by laters. cbn [fst]. apply runs_bind, runs_ht. apply runs_modify. fields.
  assert (pf = None) as -> by (rewrite (sy_flags _ _ _ _ _ _ Y), Hd; done).
  pose proof (committed_kept _ _ _ _ C K) as C'. pose proof (only_blocks _ _ _ (ke_only _ _ _ _ _ K)) as B'.
  apply runs_bind. apply update_root_runs; [cbn [head]; rewrite (ch_head _ _ X); apply Ho|cbn [head]; by rewrite (ch_head _ _ X)| |].
  2:{ intros Hne e c sd' ev' He. split; [laters|]. split; [done|]. by left. }
  intros ev3 L3. unfold with_dirty. cbn [ht_dirty root].
  pose proof (sealed_committed t0 t r st st' _ (random sd 16) C X Hc (random_len _ _) Hd K Y eq_refl) as [C2 F2].
  change (sealed (random sd 16) r (mk_htree r (head t) (fek t) (imeta t) (ht_dirty t))) with (sealed (random sd 16) r t).
  set (t' := sealed (random sd 16) r t) in *.
  assert (counter (head t') = counter (head t0) + 1) as Hcnt by (unfold t', sealed; cbn [head counter]; by rewrite (ch_head _ _ X)).
  assert (same_blocks st (<[(TEE_FS_HTREE_TYPE_HEAD, 0, parity (head t')) := head_bytes (head t')]> st')) as B2.
  { intros i w. rewrite lookup_insert_ne by done. apply B'. }
  apply runs_bind, runs_ht. apply runs_bind. unfold rpc_write_head. cbn [head]. fold (parity (head t')). apply runs_rpc_write.
  - intros ev4 L4. apply runs_bind, runs_mod_ht. apply runs_bind, runs_ht, runs_ret. fields. cbn [cur stor].
    exists t'. split; [done|]. split; [done|]. split; [done|]. split; [done|]. done.
  - intros Hne e st'' ev' He [-> | ->]; (split; [laters|]); (split; [done|]); [by left|right; by exists t'].
Qed.
End Sync.
