(* ===== verification/HtreeWrite.v ===== *)
(** * The hash tree: the blocks of a file

    Reading and writing blocks ([tee_fs_htree_read_block()], [tee_fs_htree_write_block()] of
    optee_os/core/tee/fs_htree.c, modelled in [Htree]) against the contents of a file, and the file
    over a series of writes that a commit ends: storage holds the old contents until the commit, and
    then the new. *)
From stdpp Require Import gmap.
From S2P Require Import Prelude Htree HtreeInv HtreeSync.
Local Open Scope Z_scope.

(** ** Nodes by id *)

Fixpoint node_at (id : Z) (t : htree_node) : option (bool * bool * node_image) :=
  match t with
  | NULL => None
  | Node i d u im c0 c1 => if i =? id then Some (d, u, im) else
      match node_at id c0 with Some x => Some x | None => node_at id c1 end
  end.

Definition image_at (id : Z) (t : htree_node) : option node_image := snd <$> node_at id t.

Lemma node_at_none id t : id ∉ ids t -> node_at id t = None.
Proof.
  induction t as [|i d u im c0 IH0 c1 IH1]; [done|]. intros Hn. simpl in Hn. apply not_elem_of_cons in Hn as [Hi Hn]. rewrite elem_of_app in Hn.
  simpl. rewrite (proj2 (Z.eqb_neq i id)) by done. rewrite IH0, IH1; [done|tauto|tauto].
Qed.

Lemma node_at_some id t x : node_at id t = Some x -> id ∈ ids t.
Proof. intros Hx. destruct (decide (id ∈ ids t)) as [|Hn]; [done|]. by rewrite node_at_none in Hx. Qed.

(** The node [id] of a pending tree against the committed node. *)
Lemma pending_at n t : forall t0 p id d u im, 1 <= p -> shaped n p t -> pending t0 t -> node_at id t = Some (d, u, im) ->
  pnode (image_at id t0) d u im.
Proof.
  induction t as [|i d' u' im' c0 IH0 c1 IH1]; intros t0 p id d u im Hp; [done|]. intros (-> & Hn & S0 & S1) (Hpn & Hid & P0 & P1) Hat.
  destruct (ids_apart _ _ _ _ Hp S0 S1) as (Hap & Hp0 & Hp1). simpl in Hat. destruct (p =? id) eqn:Ei; bool_hyps.
  - simplify_eq. destruct t0 as [|i0 d0 u0 im0 a0 a1]; [done|]. simpl in Hid. rewrite Hid by done. unfold image_at. simpl. by rewrite Z.eqb_refl.
  - assert (image_at id t0 = match image_at id (child t0 0) with Some x => Some x | None => image_at id (child t0 1) end) as ->.
    { destruct t0 as [|i0 d0 u0 im0 a0 a1]; [done|]. unfold image_at. simpl in *. rewrite Hid by done. rewrite (proj2 (Z.eqb_neq p id)) by done.
      by destruct (node_at id a0). }
    destruct (node_at id c0) as [[[d0 u0] im0]|] eqn:E0.
    + simplify_eq. replace (match image_at id (child t0 0) with Some x => Some x | None => image_at id (child t0 1) end) with (image_at id (child t0 0)); [by eapply (IH0 _ (2 * p)); [lia|..]|].
      destruct (image_at id (child t0 0)); [done|]. unfold image_at. rewrite node_at_none; [done|]. intros Hin. apply (Hap id); [by eapply node_at_some|by eapply pending_ids].
    + replace (image_at id (child t0 0)) with (@None node_image); [by eapply (IH1 _ (2 * p + 1)); [lia|..]|].
      unfold image_at. rewrite node_at_none; [done|]. intros Hin. apply (Hap id); [by eapply pending_ids|by eapply node_at_some].
Qed.

Lemma same_data_at id t : forall t', same_data t t' ->
  match image_at id t, image_at id t' with Some im, Some im' => same_image im im' | None, None => True | _, _ => False end.
Proof.
  unfold image_at. induction t as [|i d u im c0 IH0 c1 IH1]; intros [|i' d' u' im' a0 a1]; try done. intros (-> & Him & H0 & H1). simpl.
  destruct (i =? id); [done|]. specialize (IH0 _ H0). specialize (IH1 _ H1). destruct (node_at id c0), (node_at id a0); done.
Qed.

(** ** Replacing a subtree *)

(** [t'], at position [q], is [t] with the subtree [x] at position [id] replaced by [x']. *)
Inductive put (id : Z) (x x' : htree_node) : Z -> htree_node -> htree_node -> Prop :=
| put_here : put id x x' id x x'
| put_left q d u im c0 c1 c0' : put id x x' (2 * q) c0 c0' -> put id x x' q (Node q d u im c0 c1) (Node q d u im c0' c1)
| put_right q d u im c0 c1 c1' : put id x x' (2 * q + 1) c1 c1' -> put id x x' q (Node q d u im c0 c1) (Node q d u im c0 c1').

Lemma under_child q b i : b = 0 \/ b = 1 -> under (2 * q + b) i -> under q i.
Proof.
  intros Hb (j & Hj & E). exists (j + 1). split; [lia|]. rewrite <- Z.shiftr_shiftr, E by lia. rewrite Z.shiftr_div_pow2 by lia. change (2 ^ 1) with 2.
  symmetry. apply (Z.div_unique _ 2 q b); lia.
Qed.

Lemma under_refl i : under i i. Proof. exists 0. split; [done|]. apply Z.shiftr_0_r. Qed.

Lemma put_under id x x' q t t' : put id x x' q t t' -> under q id.
Proof.
  induction 1; [apply under_refl|apply (under_child q 0); [auto|by rewrite Z.add_0_r]|apply (under_child q 1); auto].
Qed.

Lemma put_pending id x x' q t t' : put id x x' q t t' -> (forall x0, pending x0 x -> pending x0 x') -> forall t0, pending t0 t -> pending t0 t'.
Proof. intros Hput Hx. induction Hput; [done|..]; intros t0 (H1 & H2 & H3 & H4); simpl; eauto. Qed.

Lemma put_dirty id x x' q t t' : put id x x' q t t' -> any_dirty x' = true -> any_dirty t' = true.
Proof. intros Hput Hx. induction Hput as [|? ? ? ? ? ? ? ? IH|? ? ? ? ? ? ? ? IH]; [done|..]; simpl; rewrite IH; by rewrite ?orb_true_r. Qed.

(** A subtree that the new last node is not under. *)
Lemma shaped_grow n n' t : forall q, 1 <= q -> shaped n q t -> n <= n' <= n + 1 -> (n' = n + 1 -> ~ under q n') -> shaped n' q t.
Proof.
  induction t as [|i d u im c0 IH0 c1 IH1]; intros q Hq.
  - cbn [shaped]. intros Hs Hn Hu. destruct (decide (n' = n)) as [-> |]; [done|]. destruct (decide (n' = q)) as [-> |]; [|lia]. destruct Hu; [lia|apply under_refl].
  - intros (-> & Hn & S0 & S1) Hn' Hu. cbn [shaped]. split; [done|]. split; [lia|]. split; [apply IH0|apply IH1]; try done; try lia; intros E Hx; apply (Hu E).
    + apply (under_child q 0); [auto|by rewrite Z.add_0_r].
    + apply (under_child q 1); auto.
Qed.

Lemma put_shaped n n' id x x' q t t' : put id x x' q t t' -> 1 <= q -> shaped n q t -> n <= n' <= n + 1 -> (n' = n + 1 -> id = n') ->
  shaped n' id x' -> shaped n' q t'.
Proof.
  intros Hput Hq Hs Hn Hid Hx. induction Hput as [|q d u im c0 c1 c0' Hput IH|q d u im c0 c1 c1' Hput IH]; [done|..]; destruct Hs as (_ & Hqn & S0 & S1); pose proof (put_under _ _ _ _ _ _ Hput) as Hu;
    cbn [shaped]; (split; [done|]); (split; [lia|]); split; try (apply IH; [lia|done]).
  - apply (shaped_grow n); [lia|done|done|]. intros E. rewrite <- (Hid E). intros Hu1. by eapply (under_disjoint q id).
  - apply (shaped_grow n); [lia|done|done|]. intros E. rewrite <- (Hid E). intros Hu1. by eapply (under_disjoint q id).
Qed.

Lemma put_node_at n n' id x x' q t t' : put id x x' q t t' -> 1 <= q -> shaped n q t -> shaped n' q t' -> (forall j, j <> id -> node_at j x' = node_at j x) ->
  forall j, node_at j t' = if j =? id then node_at id x' else node_at j t.
Proof.
  intros Hput Hq Hs Hs' Hx. induction Hput as [|q d u im c0 c1 c0' Hput IH|q d u im c0 c1 c1' Hput IH]; intros j.
  - destruct (j =? id) eqn:E; bool_hyps; [by subst|by apply Hx].
  - destruct Hs as (_ & _ & S0 & S1), Hs' as (_ & _ & T0 & T1). specialize (IH ltac:(lia) S0 T0 j). pose proof (put_under _ _ _ _ _ _ Hput) as Hu.
    simpl. rewrite IH. destruct (j =? id) eqn:E; bool_hyps; [|done]. subst j. apply under_self in Hu as Hle; [|lia].
    rewrite (proj2 (Z.eqb_neq q id)) by lia. destruct (node_at id x') eqn:Ex; [done|].
    rewrite node_at_none; [done|]. intros Hin. eapply (under_disjoint q id); [done|done|]. by eapply ids_under.
  - destruct Hs as (_ & _ & S0 & S1), Hs' as (_ & _ & T0 & T1). specialize (IH ltac:(lia) S1 T1 j). pose proof (put_under _ _ _ _ _ _ Hput) as Hu.
    simpl. rewrite IH. destruct (j =? id) eqn:E; bool_hyps; [|done]. subst j. apply under_self in Hu as Hle; [|lia].
    rewrite (proj2 (Z.eqb_neq q id)) by lia.
    rewrite (node_at_none id c0); [done|]. intros Hin. eapply (under_disjoint q id); [done| |done]. by eapply ids_under.
Qed.

Lemma put_trans id x y z q t t' : put id x y q t t' -> 1 <= q -> forall t'', put id y z q t' t'' -> put id x z q t t''.
Proof.
  induction 1 as [|q d u im c0 c1 c0' Hput IH|q d u im c0 c1 c1' Hput IH]; intros Hq t'' Hz.
  - inversion Hz; subst; [constructor|..]; match goal with H : put _ _ _ _ _ _ |- _ => apply put_under, under_self in H; lia end.
  - pose proof (put_under _ _ _ _ _ _ Hput) as Hu. apply under_self in Hu as Hle; [|lia]. inversion Hz; subst; [lia| |].
    + apply put_left, IH; [lia|done].
    + exfalso. eapply (under_disjoint q id); [done|done|by eapply put_under].
  - pose proof (put_under _ _ _ _ _ _ Hput) as Hu. apply under_self in Hu as Hle; [|lia]. inversion Hz; subst; [lia| |].
    + exfalso. eapply (under_disjoint q id); [done|by eapply put_under|done].
    + apply put_right, IH; [lia|done].
Qed.

(** ** The walks of the code *)

(** A node of the tree, and a change made through the pointer to it. *)
Lemma put_upd n id f k : forall t, shaped n (Z.shiftr id (Z.of_nat k)) t -> 0 < id -> id <= n ->
  put id (closest k id t) (f (closest k id t)) (Z.shiftr id (Z.of_nat k)) t (upd_closest k id f t).
Proof.
  induction k as [|k IH]; intros t Hs Hid Hn.
  - change (Z.of_nat 0) with 0. rewrite Z.shiftr_0_r. constructor.
  - pose proof (shiftr_le id (Z.of_nat (S k)) ltac:(lia) ltac:(lia)) as Hp. destruct t as [|q d u im c0 c1]; [cbn [shaped] in Hs; lia|].
    pose proof Hs as (-> & _). pose proof (child_shaped _ _ _ _ Hs ltac:(done) (bit_range id (Z.of_nat k))) as Hc.
    pose proof (shiftr_step id (Z.of_nat k) ltac:(lia)) as Hst. replace (Z.of_nat k + 1) with (Z.of_nat (S k)) in Hst by lia. rewrite <- Hst in Hc.
    pose proof (shiftr_le id (Z.of_nat k) ltac:(lia) ltac:(lia)). destruct (shaped_id _ _ _ Hc ltac:(lia)) as [_ Hnn].
    rewrite closest_S, upd_S by done. specialize (IH _ Hc Hid Hn). rewrite Hst in IH.
    destruct (bit_range id (Z.of_nat k)) as [E|E]; rewrite E in *; cbn [child] in *; [change (0 =? 0) with true in *|change (1 =? 0) with false in *]; cbv iota in *.
    + apply put_left. by rewrite Z.add_0_r in IH.
    + by apply put_right.
Qed.

(** The next node, added below its parent. *)
Lemma put_append n x k : forall t, shaped n (Z.shiftr (n + 1) (Z.of_nat (S k))) t -> 1 <= n ->
  put (n + 1) NULL x (Z.shiftr (n + 1) (Z.of_nat (S k))) t (upd_closest (S k) (n + 1) (set_child (bit_of (n + 1) 0) x) t).
Proof.
  induction k as [|k IH]; intros t Hs Hn.
  - change (Z.of_nat 1) with 1 in *. pose proof (shiftr_lt (n + 1) 1 ltac:(lia) ltac:(lia)). destruct t as [|q d u im c0 c1]; [cbn [shaped] in Hs; lia|].
    destruct Hs as (-> & _ & S0 & S1). pose proof (id_split (n + 1)) as Hsp. set (q := Z.shiftr (n + 1) 1) in *. cbn [upd_closest]. change (Z.of_nat 0) with 0. fold (bit_of (n + 1) 0).
    destruct (bit_range (n + 1) 0) as [E|E]; rewrite E in *; [change (0 =? 0) with true in *|change (1 =? 0) with false in *]; cbv iota in *.
    + apply (shaped_null _ _ _) in S0 as [_ ->]; [|lia]. cbn [set_child]. change (0 =? 0) with true. cbv iota. apply put_left.
      rewrite Z.add_0_r in Hsp. rewrite Hsp. constructor.
    + apply (shaped_null _ _ _) in S1 as [_ ->]; [|lia]. cbn [set_child]. change (1 =? 0) with false. cbv iota. apply put_right.
      rewrite Hsp. constructor.
  - set (m := S k) in *. pose proof (shiftr_lt (n + 1) (Z.of_nat (S m)) ltac:(lia) ltac:(lia)) as Hp. destruct t as [|q d u im c0 c1]; [cbn [shaped] in Hs; lia|].
    pose proof Hs as (-> & _). pose proof (child_shaped _ _ _ _ Hs ltac:(done) (bit_range (n + 1) (Z.of_nat m))) as Hc.
    pose proof (shiftr_step (n + 1) (Z.of_nat m) ltac:(lia)) as Hst. replace (Z.of_nat m + 1) with (Z.of_nat (S m)) in Hst by lia. rewrite <- Hst in Hc.
    pose proof (shiftr_lt (n + 1) (Z.of_nat m) ltac:(lia) ltac:(lia)). destruct (shaped_id _ _ _ Hc ltac:(lia)) as [_ Hnn].
    rewrite upd_S by done. specialize (IH _ Hc Hn). rewrite Hst in IH.
    destruct (bit_range (n + 1) (Z.of_nat m)) as [E|E]; rewrite E in *; cbn [child] in *; [change (0 =? 0) with true in *|change (1 =? 0) with false in *]; cbv iota in *.
    + apply put_left. by rewrite Z.add_0_r in IH.
    + by apply put_right.
Qed.

(** A change that keeps the place of a node. *)
Definition local (g : htree_node -> htree_node) : Prop := forall i d u im c0 c1, exists d' u' im', g (Node i d u im c0 c1) = Node i d' u' im' c0 c1.

Lemma local_nonnull g x : local g -> x <> NULL -> g x <> NULL.
Proof. intros Hg Hx. destruct x as [|i d u im c0 c1]; [done|]. destruct (Hg i d u im c0 c1) as (? & ? & ? & ->). done. Qed.

Lemma upd_compose f g id : local g -> forall k t, t <> NULL -> upd_closest k id f (upd_closest k id g t) = upd_closest k id (fun x => f (g x)) t.
Proof.
  intros Hg. induction k as [|k IH]; intros t Ht; [done|]. destruct t as [|i d u im c0 c1]; [done|]. cbn [upd_closest].
  destruct (Hg i d u im c0 c1) as (d' & u' & im' & Eg).
  destruct (_ =? 0) eqn:Eb.
  - destruct c0 as [|i0 d0 u0 im0 a0 a1]; [by rewrite Eg, ?Eb|]. rewrite ?Eb.
    destruct (upd_closest k id g (Node i0 d0 u0 im0 a0 a1)) as [|] eqn:E1; [by apply upd_nonnull in E1; [|intros; by apply local_nonnull|]|].
    rewrite <- E1, IH by done. done.
  - destruct c1 as [|i0 d0 u0 im0 a0 a1]; [by rewrite Eg, ?Eb|]. rewrite ?Eb.
    destruct (upd_closest k id g (Node i0 d0 u0 im0 a0 a1)) as [|] eqn:E1; [by apply upd_nonnull in E1; [|intros; by apply local_nonnull|]|].
    rewrite <- E1, IH by done. done.
Qed.

Lemma closest_upd g id : local g -> forall k t, t <> NULL -> closest k id (upd_closest k id g t) = g (closest k id t).
Proof.
  intros Hg. induction k as [|k IH]; intros t Ht; [done|]. destruct t as [|i d u im c0 c1]; [done|]. cbn [upd_closest closest child].
  destruct (Hg i d u im c0 c1) as (d' & u' & im' & Eg). destruct (_ =? 0) eqn:Eb.
  - destruct c0 as [|i0 d0 u0 im0 a0 a1]; [rewrite Eg; cbn [child]; by rewrite ?Eb|]. cbn [child]. rewrite ?Eb.
    destruct (upd_closest k id g (Node i0 d0 u0 im0 a0 a1)) as [|] eqn:E1; [by apply upd_nonnull in E1; [|intros; by apply local_nonnull|]|].
    rewrite <- E1, IH by done. done.
  - destruct c1 as [|i0 d0 u0 im0 a0 a1]; [rewrite Eg; cbn [child]; by rewrite ?Eb|]. cbn [child]. rewrite ?Eb.
    destruct (upd_closest k id g (Node i0 d0 u0 im0 a0 a1)) as [|] eqn:E1; [by apply upd_nonnull in E1; [|intros; by apply local_nonnull|]|].
    rewrite <- E1, IH by done. done.
Qed.

(** The node found is the one with the id. *)
Lemma closest_at n t id : shaped n 1 t -> 0 < id -> id <= n ->
  exists d u im c0 c1, closest (level id) id t = Node id d u im c0 c1 /\ node_at id t = Some (d, u, im).
Proof.
  intros Hs Hid Hn. pose proof Hs as Hs1. rewrite <- (level_shift id Hid) in Hs1. destruct (closest_in n id (level id) t Hs1 Hid Hn) as [Hc Hnn].
  pose proof (put_upd n id (fun x => x) (level id) t Hs1 Hid Hn) as Hput. rewrite level_shift in Hput by done.
  assert (shaped n 1 (upd_closest (level id) id (fun x => x) t)) as Hs2 by (eapply put_shaped; [done|lia|done|lia|lia|done]).
  pose proof (put_node_at _ _ _ _ _ _ _ _ Hput ltac:(lia) Hs Hs2 ltac:(done) id) as Hat. rewrite Z.eqb_refl in Hat.
  assert (forall k t, upd_closest k id (fun x => x) t = t) as Hidt.
  { induction k as [|k IH]; intros x; [done|]. destruct x as [|i d u im c0 c1]; [done|]. cbn [upd_closest]. destruct (_ =? 0); [destruct c0|destruct c1]; by rewrite ?IH. }
  rewrite Hidt in Hat. destruct (closest (level id) id t) as [|i d u im c0 c1]; [done|]. destruct Hc as (-> & _). exists d, u, im, c0, c1. split; [done|].
  rewrite Hat. simpl. by rewrite Z.eqb_refl.
Qed.

Section Blocks.
Context {henv : HtEnv} {hlaws : HtLaws}.

(** ** Contents *)

(** The block [i] of the file: what storage holds for it in the version its node names, decrypted. *)
Definition contents (t : tee_fs_htree) (s : gmap key (list Z)) (i : Z) : option (list Z) :=
  match image_at (BLOCK_NUM_TO_NODE_ID i) (root t) with
  | None => None
  | Some im =>
      match s !! (TEE_FS_HTREE_TYPE_BLOCK, i, bver im) with
      | None => None
      | Some c => if lenZ c =? Z.of_nat block_size then gcm_dec (fek t) (iv im) (enc_fek (head t) ++ iv im) c (tag im) else None
      end
  end.

Lemma contents_same t t' s s' i : same_file t t' -> same_blocks s s' -> contents t' s' i = contents t s i.
Proof.
  intros [Hd _ Hf He] Hb. unfold contents. pose proof (same_data_at (BLOCK_NUM_TO_NODE_ID i) _ _ Hd) as Hat.
  destruct (image_at _ (root t)) as [im|], (image_at _ (root t')) as [im'|]; try done. destruct Hat as (-> & -> & ->). by rewrite Hb, Hf, He.
Qed.

(** Reading a block. *)
Lemma read_block_runs t n i st sd ev : shaped n 1 (root t) -> 0 <= i -> i + 1 <= n -> i + 1 < UINT_MAX -> 0 < Z.of_nat block_size ->
  runs (tee_fs_htree_read_block i)
    (fun r s => cur s = Some t /\ stor s = st /\ contents t st i = Some r)
    (fun e s => cur s = None /\ stor s = st /\ (ev = [] -> e = TEE_ERROR_CORRUPT_OBJECT /\ contents t st i = None))
    (mk_fs (Some t) st sd ev).
Proof.
  intros Hs Hi Hn Hu Hbs. unfold tee_fs_htree_read_block. apply runs_bind. unfold opened. apply runs_bind, runs_get, runs_guard; [done|]. intros _.
  apply runs_closing. apply runs_bind. unfold get_block_node, BLOCK_NUM_TO_NODE_ID. apply runs_bind. apply (runs_get_node_in _ _ n); [lia|done|done|].
  apply runs_ret. apply runs_bind, runs_find_closest; [lia|]. destruct (closest_at n (root t) (i + 1) Hs ltac:(lia) Hn) as (d & u & im & c0 & c1 & -> & Hat).
  unfold block_vers. cbn [image_of]. fold (bver im). unfold contents, image_at, BLOCK_NUM_TO_NODE_ID. rewrite Hat. cbn [fmap option_fmap option_map snd].
  apply runs_bind, runs_rpc_read.
  - intros data ev1 L1 Hdata Hlen. apply runs_bind, runs_ht. unfold authenc_decrypt. apply runs_bind, runs_ext_call.
    + intros ev2 L2. apply runs_bind, runs_ht. cbn [authenc_aad]. destruct (st !! _) as [c|]; simpl in Hdata; subst data; [|unfold lenZ in Hlen; simpl in Hlen; lia].
      rewrite (proj2 (Z.eqb_eq _ _) Hlen). destruct (gcm_dec _ _ _ _ _) as [p|] eqn:Eg.
      * apply runs_ret. done.
      * apply runs_err. done.
    + intros Hne e ev' He. split; [done|]. split; [done|]. intros ->. by destruct (Hne (L1 eq_refl)).
  - intros e ev' H1 H2. split; [done|]. split; [done|]. intros Hev. destruct (H2 Hev) as [-> Hl]. split; [done|].
    destruct (st !! _) as [c|]; [|done]. simpl in Hl. by rewrite (proj2 (Z.eqb_neq _ _)).
Qed.

(** ** Writing a block *)

(** What a write makes of the node of its block, with the iv [v] and tag [g]. *)
Definition rewritten (v g : list Z) (n : htree_node) : htree_node :=
  set_updated (set_iv_tag v g (set_iv_tag v (tag (image_of (flip_block n))) (flip_block n))).

Definition rewritten_image (v g : list Z) (u : bool) (im : node_image) : node_image :=
  mk_image (hash im) v g (if u then flags im else Z.lxor (flags im) HTREE_NODE_COMMITTED_BLOCK).

Lemma rewritten_node v g i d u im c0 c1 : rewritten v g (Node i d u im c0 c1) = Node i true true (rewritten_image v g u im) c0 c1.
Proof. unfold rewritten, rewritten_image. by destruct u. Qed.

Lemma flip_local : local flip_block.
Proof. intros i d u im c0 c1. destruct u; simpl; eauto. Qed.
Lemma iv_tag_local v f : local (fun n => set_iv_tag v (f n) n).
Proof. intros i d u im c0 c1. simpl. eauto. Qed.
Lemma updated_local : local set_updated.
Proof. intros i d u im c0 c1. simpl. eauto. Qed.

Lemma local_compose f g : local f -> local g -> local (fun x => f (g x)).
Proof. intros Hf Hg i d u im c0 c1. destruct (Hg i d u im c0 c1) as (? & ? & ? & ->). apply Hf. Qed.

Lemma rewritten_ok v g u im : length v = 16%nat -> length g = 16%nat -> image_ok im -> image_ok (rewritten_image v g u im).
Proof. intros Hv Hg [H1 H2 H3 H4]. split; try done. unfold rewritten_image. cbn [flags]. destruct u; [done|]. by apply (lxor_u16 _ 0). Qed.

Lemma rewritten_pnode v g o d u im : length v = 16%nat -> length g = 16%nat -> pnode o d u im -> pnode o true true (rewritten_image v g u im).
Proof.
  intros Hv Hg (Him & Hu & Ho). split; [by apply rewritten_ok|split; [done|]].
  - destruct o as [im0|]; [|done]. destruct Ho as (_ & E0 & E1 & Eu & Eb).
    assert (cver (rewritten_image v g u im) 0 = cver im 0 /\ cver (rewritten_image v g u im) 1 = cver im 1) as [-> ->].
    { destruct u; [done|]. unfold cver, rewritten_image, HTREE_NODE_COMMITTED_CHILD, HTREE_NODE_COMMITTED_BLOCK. cbn [flags]. by rewrite !has_flip_other by lia. }
    split; [done|]. split; [done|]. split; [done|]. split; [done|]. intros _. destruct u.
    + unfold bver, rewritten_image. cbn [flags]. by apply Eb.
    + destruct (Eu eq_refl) as (_ & _ & <-). unfold bver, rewritten_image, HTREE_NODE_COMMITTED_BLOCK. cbn [flags]. rewrite has_flip by lia. by destruct (has _ _).
Qed.

(** The steps of [tee_fs_htree_write_block()] once the node exists. *)
Definition write_steps (i : Z) (block : list Z) (id : Z) : H unit :=
  do! upd_node id flip_block in
  let! n := find_closest_node id in
  do! ext_call in
  let! v := crypto_rng_read 16 in
  do! upd_node id (fun n => set_iv_tag v (tag (image_of n)) n) in
  do! ext_call in
  let! t := ht in
  let r := gcm_enc (fek t) v (authenc_aad t (Some v)) block in
  do! upd_node id (set_iv_tag v (snd r)) in
  do! rpc_write_final (TEE_FS_HTREE_TYPE_BLOCK, i, block_vers n) (fst r) in
  do! upd_node id set_updated in
  mod_ht (with_dirty true).

Lemma write_steps_runs t n i block d u im st sd ev (Q : unit -> fs -> Prop) (E : Z -> fs -> Prop) :
  shaped n 1 (root t) -> 0 <= i -> i + 1 <= n -> i + 1 < UINT_MAX -> node_at (i + 1) (root t) = Some (d, u, im) ->
  (forall ev' v, later ev ev' -> length v = 16%nat ->
     let e := gcm_enc (fek t) v (enc_fek (head t) ++ v) block in
     Q tt (mk_fs (Some (with_dirty true (with_root (upd_closest (level (i + 1)) (i + 1) (rewritten v (snd e)) (root t)) t)))
       (<[(TEE_FS_HTREE_TYPE_BLOCK, i, bver (rewritten_image v (snd e) u im)) := fst e]> st) (S sd) ev')) ->
  (ev <> [] -> forall e c sd' ev' st', e <> 0 ->
     (st' = st \/ exists v b, st' = <[(TEE_FS_HTREE_TYPE_BLOCK, i, bver (rewritten_image v v u im)) := b]> st) -> E e (mk_fs c st' sd' ev')) ->
  runs (write_steps i block (i + 1)) Q E (mk_fs (Some t) st sd ev).
Proof.
  intros Hs Hi Hn Hu Hat HQ HE. destruct (closest_at n (root t) (i + 1) Hs ltac:(lia) Hn) as (d' & u' & im' & c0 & c1 & Hc & Hat').
  rewrite Hat in Hat'. simplify_eq. assert (root t <> NULL) as Hr by (apply (shaped_id n 1); [done|lia]). set (k := level (i + 1)) in *.
  unfold write_steps. apply runs_bind, runs_upd_node; [lia|]. apply runs_bind, runs_find_closest; [lia|]. fields. fold k.
  rewrite closest_upd by (done || apply flip_local). rewrite Hc. apply runs_bind, runs_ext_call; [|intros; apply HE; auto]. intros ev1 L1.
  apply runs_bind, runs_rng; [|intros; apply HE; auto; laters]. intros ev2 L2. set (v := random sd 16).
  apply runs_bind, runs_upd_node; [lia|]. fields. apply runs_bind, runs_ext_call; [|intros; apply HE; auto; laters]. intros ev3 L3.
  apply runs_bind, runs_ht. cbv zeta. unfold authenc_aad. fields. apply runs_bind, runs_upd_node; [lia|]. fields.
  set (e := gcm_enc (fek t) v (enc_fek (head t) ++ v) block). fold k.
  assert (forall w g, block_vers (flip_block (Node (i + 1) d' u' im' c0 c1)) = bver (rewritten_image w g u' im')) as Hbv by (by destruct u').
  apply runs_bind, runs_rpc_write_final.
  - intros ev4 L4. apply runs_bind, runs_upd_node; [lia|]. apply runs_mod_ht. fields. fold k.
    specialize (HQ ev4 v ltac:(laters) (random_len _ _)). cbv zeta in HQ. fold e in HQ. rewrite (Hbv v (snd e)).
    rewrite (upd_compose (fun n => set_iv_tag v (tag (image_of n)) n)), (upd_compose (set_iv_tag v (snd e))), (upd_compose set_updated); try done.
    + apply local_compose; [apply (iv_tag_local v (fun _ => snd e))|]. apply (local_compose (fun n => set_iv_tag v (tag (image_of n)) n)); [apply (iv_tag_local v (fun n => tag (image_of n)))|apply flip_local].
    + apply (local_compose (fun n => set_iv_tag v (tag (image_of n)) n)); [apply (iv_tag_local v (fun n => tag (image_of n)))|apply flip_local].
    + apply flip_local.
  - intros Hne e' st' ev' He Hst. apply HE; [laters|done|]. destruct Hst as [-> | ->]; [by left|right]. exists v, (fst e). by rewrite (Hbv v v).
Qed.
(** The tree [t1] with a node [id] that is ready to be rewritten: [t], with the node added if need be. *)
Record ready (t0 t t1 : tee_fs_htree) (id : Z) (u : bool) (im : node_image) : Prop := mk_ready {
  rd_shape : shaped (nodes (imeta t1)) 1 (root t1);
  rd_node : exists d, node_at id (root t1) = Some (d, u, im);
  rd_old v g : length v = 16%nat -> length g = 16%nat -> pnode (image_at id (root t0)) true true (rewritten_image v g u im);
  rd_new v g : length v = 16%nat -> length g = 16%nat ->
    let r := upd_closest (level id) id (rewritten v g) (root t1) in
    pending (root t0) r /\ shaped (nodes (imeta t1)) 1 r /\ any_dirty r = true /\
    (forall j, node_at j r = if j =? id then Some (true, true, rewritten_image v g u im) else node_at j (root t));
  rd_nodes : nodes (imeta t1) = Z.max (nodes (imeta t)) id;
  rd_rest : head t1 = head t /\ fek t1 = fek t /\ imeta_ok (imeta t1) /\ max_node_id (imeta t1) < UINT_MAX;
}.

Lemma ready_in t0 t id : changed t0 t -> 0 < id -> id <= nodes (imeta t) -> exists u im, ready t0 t t id u im.
Proof.
  intros X Hid Hn. pose proof (ch_shape _ _ X) as Hs. destruct (closest_at _ _ _ Hs Hid Hn) as (d & u & im & c0 & c1 & Hc & Hat). exists u, im.
  pose proof Hs as Hs1. rewrite <- (level_shift id Hid) in Hs1. destruct (closest_in _ _ _ _ Hs1 Hid Hn) as [Hx _]. rewrite Hc in Hx.
  split; [done|eauto| | |lia|split; [done|]; split; [done|]; split; apply X].
  - intros v g Hv Hg. eapply rewritten_pnode; [done|done|]. eapply pending_at; [|apply X|apply X|done]. lia.
  - intros v g Hv Hg r. pose proof (put_upd _ id (rewritten v g) (level id) _ Hs1 Hid Hn) as Hput. rewrite level_shift, Hc, rewritten_node in Hput by done. fold r in Hput.
    assert (shaped (nodes (imeta t)) 1 r) as Hr by (eapply put_shaped; [done|lia|done|lia|lia|exact Hx]).
    split; [|split; [done|split]].
    + eapply put_pending; [done| |apply X]. intros x0 (P1 & P2 & P3 & P4). split; [by eapply rewritten_pnode|done].
    + eapply put_dirty; [done|]. done.
    + intros j. rewrite (put_node_at _ _ _ _ _ _ _ _ Hput ltac:(lia) Hs Hr).
      * simpl. by rewrite Z.eqb_refl.
      * intros j' Hne. simpl. by rewrite (proj2 (Z.eqb_neq id j')).
Qed.

Lemma ids_le n t : forall p i, shaped n p t -> i ∈ ids t -> i <= n.
Proof.
  induction t as [|id d u im c0 IH0 c1 IH1]; intros p i; [by intros _ ?%elem_of_nil|]. intros (-> & Hn & S0 & S1) Hi. simpl in Hi.
  apply elem_of_cons in Hi as [-> |Hi]; [done|]. apply elem_of_app in Hi as [Hi|Hi]; eauto.
Qed.

Lemma zero_image_ok : image_ok zero_image. Proof. by split. Qed.

Lemma ready_new t0 t : changed t0 t -> nodes (imeta t) + 1 < UINT_MAX ->
  ready t0 t (appended (nodes (imeta t) + 1) t) (nodes (imeta t) + 1) false zero_image.
Proof.
  intros X Hu. set (n := nodes (imeta t)) in *. pose proof (ch_shape _ _ X) as Hs. fold n in Hs. pose proof (ch_imeta _ _ X) as (M1 & M2 & M3).
  assert (1 <= n /\ max_node_id (imeta t) <= n) as [Hn Hm] by (unfold n, nodes; lia). destruct (level_new n Hn) as [k Hk].
  pose proof Hs as Hs1. rewrite <- (level_shift (n + 1)) in Hs1 by lia. rewrite Hk in Hs1.
  set (new := Node (n + 1) false false zero_image NULL NULL).
  pose proof (put_append n new k _ Hs1 Hn) as Hput. rewrite <- Hk, level_shift in Hput by lia.
  set (r1 := upd_closest (level (n + 1)) (n + 1) (set_child (bit_of (n + 1) 0) new) (root t)) in *.
  assert (shaped (n + 1) (n + 1) new) as Hnew by (unfold new; cbn [shaped]; lia).
  assert (shaped (n + 1) 1 r1) as Hr1 by (eapply put_shaped; [done|lia|done|lia|done|done]).
  assert (forall j, node_at j r1 = if j =? n + 1 then Some (false, false, zero_image) else node_at j (root t)) as Hat.
  { intros j. rewrite (put_node_at _ _ _ _ _ _ _ _ Hput ltac:(lia) Hs Hr1); [simpl; by rewrite Z.eqb_refl|].
    intros j' Hne. simpl. by rewrite (proj2 (Z.eqb_neq (n + 1) j')). }
  assert (nodes (imeta (appended (n + 1) t)) = n + 1) as En by (unfold appended, nodes; cbn [imeta with_imeta max_node_id]; lia).
  assert (image_at (n + 1) (root t0) = None) as Hold.
  { unfold image_at. rewrite node_at_none; [done|]. intros Hin. apply (pending_ids (root t)) in Hin; [|apply X]. apply (ids_le _ _ _ _ Hs) in Hin. lia. }
  split.
  - rewrite En. exact Hr1.
  - exists false. change (root (appended (n + 1) t)) with r1. by rewrite Hat, Z.eqb_refl.
  - intros v g Hv Hg. rewrite Hold. split; [apply rewritten_ok; [done|done|apply zero_image_ok]|done].
  - intros v g Hv Hg r. rewrite En. change (root (appended (n + 1) t)) with r1 in r.
    assert (shaped (n + 1) (Z.shiftr (n + 1) (Z.of_nat (level (n + 1)))) r1) as Hr1' by (by rewrite level_shift by lia).
    pose proof (put_upd _ (n + 1) (rewritten v g) (level (n + 1)) _ Hr1' ltac:(lia) ltac:(lia)) as Hput2. rewrite level_shift in Hput2 by lia. fold r in Hput2.
    assert (closest (level (n + 1)) (n + 1) r1 = new) as Ex.
    { destruct (closest_at _ _ (n + 1) Hr1 ltac:(lia) ltac:(lia)) as (d & u & im & c0 & c1 & Hc & Hat2). rewrite Hat, Z.eqb_refl in Hat2. simplify_eq. rewrite Hc.
      destruct (closest_in _ _ _ _ Hr1' ltac:(lia) ltac:(lia)) as [Hx _]. rewrite Hc in Hx. destruct Hx as (_ & _ & X0 & X1).
      apply (shaped_null _ _ _) in X0 as [_ ->]; [|lia]. apply (shaped_null _ _ _) in X1 as [_ ->]; [|lia]. done. }
    rewrite Ex in Hput2. unfold new in Hput2 at 2. rewrite rewritten_node in Hput2. set (new' := Node (n + 1) true true (rewritten_image v g false zero_image) NULL NULL) in *.
    pose proof (put_trans _ _ _ _ _ _ _ Hput ltac:(lia) _ Hput2) as Hput3.
    assert (shaped (n + 1) (n + 1) new') as Hnew' by (unfold new'; cbn [shaped]; lia).
    assert (shaped (n + 1) 1 r) as Hr by (eapply put_shaped; [exact Hput3|lia|done|lia|done|done]).
    split; [|split; [done|split]].
    + eapply put_pending; [exact Hput3| |apply X]. intros x0 ->. split; [|done]. split; [apply rewritten_ok; [done|done|apply zero_image_ok]|done].
    + by eapply put_dirty.
    + intros j. rewrite (put_node_at _ _ _ _ _ _ _ _ Hput3 ltac:(lia) Hs Hr); [simpl; by rewrite Z.eqb_refl|].
      intros j' Hne. simpl. by rewrite (proj2 (Z.eqb_neq (n + 1) j')).
  - rewrite En. lia.
  - split; [done|]. split; [done|]. split; [|unfold appended; cbn [imeta with_imeta max_node_id]; lia].
    unfold appended. cbn [imeta with_imeta length_ max_node_id imeta_pad]. split; [done|]. split; [|done]. cbn [max_node_id]. unfold is_u, UINT_MAX in *. lia.
Qed.
(** Writing a block in a version the committed tree does not use. *)
Lemma block_written t0 st i w b : committed t0 st -> (forall im, image_at (i + 1) (root t0) = Some im -> bver im <> w) ->
  committed t0 (<[(TEE_FS_HTREE_TYPE_BLOCK, i, w) := b]> st) /\
  (forall j, contents t0 (<[(TEE_FS_HTREE_TYPE_BLOCK, i, w) := b]> st) j = contents t0 st j).
Proof.
  intros C Hw. split.
  - split; try apply C.
    + eapply stored_frame; [|apply C]. intros j x _. by rewrite lookup_insert_ne.
    + rewrite lookup_insert_ne by done. apply C.
    + destruct (c_other _ _ C) as (b' & Hb & Ho). exists b'. split; [|done]. by rewrite lookup_insert_ne.
  - intros j. unfold contents, BLOCK_NUM_TO_NODE_ID. destruct (image_at (j + 1) (root t0)) as [im|] eqn:E; [|done].
    rewrite lookup_insert_ne; [done|]. intros [= -> ->]. by apply (Hw im).
Qed.

(** [f] with the block [i] set to [block]. *)
Definition set_block (i : Z) (block : list Z) (f : Z -> option (list Z)) (j : Z) : option (list Z) := if j =? i then Some block else f j.

(** A change to the tree in memory: what a failed or successful write leaves. *)
Lemma write_block_runs t0 t st sd ev i block : committed t0 st -> changed t0 t -> 0 <= i <= nodes (imeta t) -> i + 1 < UINT_MAX -> length block = block_size ->
  runs (tee_fs_htree_write_block i block)
    (fun _ s => exists t', cur s = Some t' /\ changed t0 t' /\ committed t0 (stor s) /\
       (forall j, contents t0 (stor s) j = contents t0 st j) /\ (forall j, contents t' (stor s) j = set_block i block (contents t st) j) /\
       nodes (imeta t') = Z.max (nodes (imeta t)) (i + 1) /\ later ev (events s))
    (fun e s => ev <> [] /\ cur s = None /\ committed t0 (stor s) /\ (forall j, contents t0 (stor s) j = contents t0 st j))
    (mk_fs (Some t) st sd ev).
Proof.
  intros C X Hi Hu Hlen. unfold tee_fs_htree_write_block. apply runs_bind. unfold opened. apply runs_bind, runs_get, runs_guard; [done|]. intros _.
  apply runs_closing. apply runs_bind. unfold get_block_node, BLOCK_NUM_TO_NODE_ID. apply runs_bind.
  assert (forall t1 u im ev1, ready t0 t t1 (i + 1) u im -> later ev ev1 ->
    runs (let! id := ret (i + 1) in write_steps i block id)
    (fun _ s => exists t', cur s = Some t' /\ changed t0 t' /\ committed t0 (stor s) /\
       (forall j, contents t0 (stor s) j = contents t0 st j) /\ (forall j, contents t' (stor s) j = set_block i block (contents t st) j) /\
       nodes (imeta t') = Z.max (nodes (imeta t)) (i + 1) /\ later ev (events s))
    (fun e s => ev <> [] /\ cur (set_cur None s) = None /\ committed t0 (stor s) /\ (forall j, contents t0 (stor s) j = contents t0 st j))
    (mk_fs (Some t1) st sd ev1)) as Hgo.
  { intros t1 u im ev1 R L1. apply runs_bind, runs_ret. destruct (rd_node _ _ _ _ _ _ R) as [d Hat]. destruct (rd_rest _ _ _ _ _ _ R) as (Rh & Rf & Rm & Ru).
    assert (forall v g x, length v = 16%nat -> length g = 16%nat -> image_at (i + 1) (root t0) = Some x -> bver x <> bver (rewritten_image v g u im)) as Hold.
    { intros v g x Hv Hg Hx. destruct (rd_old _ _ _ _ _ _ R v g Hv Hg) as (_ & _ & Ho). rewrite Hx in Ho. destruct Ho as (_ & _ & _ & _ & Ho).
      rewrite Ho by done. lia. }
    apply (write_steps_runs t1 (nodes (imeta t1)) i block d u im); [apply R|lia|rewrite (rd_nodes _ _ _ _ _ _ R); lia|done|done| |].
    - intros ev2 v L2 Hv e. set (im' := rewritten_image v (snd e) u im). pose proof (gcm_tag_len (fek t1) v (enc_fek (head t1) ++ v) block) as Hg. fold e in Hg.
      destruct (rd_new _ _ _ _ _ _ R v (snd e) Hv Hg) as (Hp & Hsh & Hd & Hna).
      destruct (block_written t0 st i (bver im') (fst e) C) as [C' O']; [intros x Hx; by apply Hold|].
      eexists. split; [done|]. fields. split; [|split; [done|split; [done|split; [|split; [|laters]]]]].
      + split; try done; [cbn [head]; rewrite Rh; apply X|cbn [fek]; rewrite Rf; apply X].
      + intros j. unfold contents, set_block, image_at, BLOCK_NUM_TO_NODE_ID. fields. rewrite Hna. destruct (j =? i) eqn:Ej; bool_hyps.
        * subst j. rewrite Z.eqb_refl. cbn [fmap option_fmap option_map snd]. rewrite lookup_insert_eq. unfold lenZ.
          unfold e at 1. rewrite gcm_len, Hlen, Z.eqb_refl. cbn [im' rewritten_image iv tag]. apply gcm_dec_enc.
        * rewrite (proj2 (Z.eqb_neq (j + 1) (i + 1))) by lia. destruct (node_at (j + 1) (root t)) as [[[d' u'] x]|]; [|done]. cbn [fmap option_fmap option_map snd].
          rewrite lookup_insert_ne by (intros [=]; lia). by rewrite Rf, Rh.
      + cbn [imeta]. apply R.
    - intros Hne e c sd' ev' st' He Hst. split; [laters|]. split; [done|]. destruct Hst as [-> |(v & b & ->)]; [done|].
      apply block_written; [done|]. intros x Hx. change (bver (rewritten_image v v u im)) with (bver (rewritten_image (zeros 16) (zeros 16) u im)). by apply Hold. }
  destruct (decide (i + 1 <= nodes (imeta t))) as [Hin|Hnew].
  - destruct (ready_in t0 t (i + 1) X ltac:(lia) Hin) as (u & im & R). apply (runs_get_node_in _ _ (nodes (imeta t))); [lia|apply X|done|].
    by apply (Hgo t u im).
  - assert (i = nodes (imeta t)) as -> by lia. pose proof (ready_new t0 t X Hu) as R. apply (runs_get_node_new _ (nodes (imeta t))); try done; try lia; try apply X.
    + unfold nodes. lia.
    + intros ev1 L1. by apply (Hgo _ _ _ _ R).
Qed.
End Blocks.
