(* ===== verification/HtreeFile.v ===== *)
(** * The hash tree: a file with atomic updates

    The contract of optee_os/core/tee/fs_htree.c (modelled in [Htree]) with its clients: storage is a
    file, a sequence of blocks with a counter ([file_in]). A session opens the file, writes blocks and
    commits; whatever fails in between, storage holds the file before the session or the one after
    all its writes, never a mixture. *)
From stdpp Require Import gmap.
From S2P Require Import Prelude Htree HtreeInv HtreeSync HtreeWrite.
Local Open Scope Z_scope.

Section File.
Context {henv : HtEnv} {hlaws : HtLaws}.

(** ** Files *)

(** Storage holds the file [f] of [n] blocks, with the counter [c]. *)
Definition file_in (s : gmap key (list Z)) (c n : Z) (f : Z -> option (list Z)) : Prop :=
  exists t, committed t s /\ counter (head t) = c /\ nodes (imeta t) = n /\ forall i, contents t s i = f i.

Definition write_all (ws : list (Z * list Z)) : H unit := for_each ws (fun w => tee_fs_htree_write_block (fst w) (snd w)).

(** A session of a client: open, write blocks, commit. *)
Definition session (min_counter : Z) (ws : list (Z * list Z)) : H (option (list Z * Z)) :=
  do! tee_fs_htree_open false None min_counter in
  do! write_all ws in
  tee_fs_htree_sync_to_storage.

(** The file after the writes [ws], and its size. *)
Definition after (ws : list (Z * list Z)) (f : Z -> option (list Z)) : Z -> option (list Z) :=
  fold_left (fun f w => set_block (fst w) (snd w) f) ws f.
Definition size_after (ws : list (Z * list Z)) (n : Z) : Z := fold_left (fun n w => Z.max n (fst w + 1)) ws n.

(** Blocks of the file or the next one, each of the size of a block. *)
Fixpoint writes_ok (n : Z) (ws : list (Z * list Z)) : Prop :=
  match ws with
  | [] => True
  | w :: r => 0 <= fst w <= n /\ fst w + 1 < UINT_MAX /\ length (snd w) = block_size /\ writes_ok (Z.max n (fst w + 1)) r
  end.

Lemma after_ext ws : forall f g, (forall i, f i = g i) -> forall i, after ws f i = after ws g i.
Proof.
  induction ws as [|w r IH]; intros f g Hfg i; [apply Hfg|]. unfold after. cbn [fold_left]. apply IH. intros j. unfold set_block. by destruct (j =? fst w).
Qed.

(** The state in a session: [t0] is committed with the contents [f0], the tree in memory holds [f]. *)
Record working (t0 : tee_fs_htree) (f0 : Z -> option (list Z)) (ev : list event) (n : Z) (f : Z -> option (list Z)) (s : fs) : Prop := mk_working {
  wk_committed : committed t0 (stor s);
  wk_old : forall j, contents t0 (stor s) j = f0 j;
  wk_tree : exists t, cur s = Some t /\ changed t0 t /\ nodes (imeta t) = n /\ forall j, contents t (stor s) j = f j;
  wk_later : later ev (events s);
}.

(** A series of writes. *)
Lemma write_all_runs t0 f0 ev ws : forall n f s, working t0 f0 ev n f s -> writes_ok n ws ->
  runs (write_all ws) (fun _ => working t0 f0 ev (size_after ws n) (after ws f))
    (fun e s => ev <> [] /\ committed t0 (stor s) /\ (forall j, contents t0 (stor s) j = f0 j)) s.
Proof.
  induction ws as [|[i b] r IH]; intros n f s W Hok; [by apply runs_ret|]. destruct W as [C O (t & Hc & X & Hn & Hf) L], Hok as (Hi & Hu & Hl & Hr).
  destruct s as [c st sd ev1]. cbn [cur stor events fst snd] in *. subst c n. unfold write_all. cbn [for_each]. apply runs_bind.
  eapply runs_mono; [by apply (write_block_runs t0 t)|..]; cbv beta.
  - intros [] s (t' & Hc' & X' & C' & O' & F' & N' & L'). apply IH.
    + split; [done|intros j; by rewrite O'| |laters]. exists t'. split; [done|]. split; [done|]. split; [done|]. intros j. rewrite F'. unfold set_block. by destruct (j =? _).
    + done.
  - intros e s (Hne & _ & C' & O'). split; [laters|]. split; [done|]. intros j. by rewrite O'.
Qed.

Lemma file_next t t' s s' f : committed t' s' -> same_file t t' -> same_blocks s s' -> (forall j, contents t s j = f j) ->
  file_in s' (counter (head t')) (nodes (imeta t)) f.
Proof.
  intros C F B Hf. exists t'. split; [done|]. split; [done|]. split; [by rewrite (sf_imeta _ _ F)|]. intros i. by rewrite (contents_same t t' s s').
Qed.
(** ** Sessions *)

Lemma session_runs s sd ev c n f min_counter ws : file_in s c n f -> min_counter <= c < UINT_MAX -> writes_ok n ws ->
  runs (session min_counter ws)
    (fun _ s' => exists c', c <= c' <= c + 1 /\ file_in (stor s') c' (size_after ws n) (after ws f))
    (fun _ s' => ev <> [] /\ (file_in (stor s') c n f \/ file_in (stor s') (c + 1) (size_after ws n) (after ws f)))
    (mk_fs None s sd ev).
Proof.
  intros (t & C & Hc & Hn & Hf) Hmin Hok. subst c n.
  unfold session. apply runs_bind.
  eapply runs_mono; [apply (open_runs t s None sd ev min_counter C); lia|..]; cbv beta.
  2:{ intros e s' [Hne Hs]. split; [done|]. left. rewrite Hs. by exists t. }
  intros o [c st sd' ev1] (-> & Hc & Hst & L). cbn [cur stor events] in *. subst c st. apply runs_bind. eapply runs_mono; [eapply (write_all_runs t f ev ws (nodes (imeta t)) f)|..]; cbv beta; try done.
  - split; try done. exists t. split; [done|]. split; [by eapply changed_refl|]. done.
  - intros [] [c2 st2 sd2 ev2] [C2 O2 (t2 & Hc2 & X2 & N2 & F2) L2]. cbn [cur stor events] in *. subst c2.
    eapply runs_mono; [apply (sync_runs t t2 st2 sd2 ev2 C2 X2); lia|..]; cbv beta.
    + intros o s3 (t3 & _ & C3 & F3 & B3 & K3 & _). exists (counter (head t3)). split; [destruct (ht_dirty t2); cbn [Z.b2z] in K3; lia|].
      rewrite <- N2. by eapply file_next.
    + intros e s3 (Hne & B3 & [C3|(t3 & C3 & F3 & K3)]); (split; [laters|]); [left|right].
      * exists t. split; [done|]. split; [done|]. split; [done|]. intros j. rewrite <- (O2 j). apply contents_same; [|done]. split; try done. apply same_data_refl.
      * rewrite <- N2, <- K3. by eapply file_next.
  - intros e s2 (Hne & C2 & O2). split; [done|]. left. by exists t.
Qed.

(** C4. A session that opens a file (by its minimum counter, without a root hash, the counter being
    below UINT_MAX), writes any blocks (of the file, or the next ones) and commits is atomic under
    failures: it never runs into undefined behaviour; when it succeeds, storage holds the file with all
    the writes; when it returns an error, some external call (an RPC to the normal world, whose write
    may have been done nevertheless, an allocation or a cryptographic operation) failed, and storage
    holds the file unchanged or the file with all the writes. *)
Theorem htree_session_atomic s sd ev c n f min_counter ws : file_in s c n f -> min_counter <= c < UINT_MAX -> writes_ok n ws ->
  let r := session min_counter ws (mk_fs None s sd ev) in
  match fst r with
  | Ret _ => exists c', c <= c' <= c + 1 /\ file_in (stor (snd r)) c' (size_after ws n) (after ws f)
  | Err _ => ev <> [] /\ (file_in (stor (snd r)) c n f \/ file_in (stor (snd r)) (c + 1) (size_after ws n) (after ws f))
  | _ => False
  end.
Proof.
  intros Hf Hmin Hok r. pose proof (session_runs s sd ev c n f min_counter ws Hf Hmin Hok) as Hr. unfold runs in Hr. unfold r.
  by destruct (session min_counter ws _) as [[] s'].
Qed.

(** Reading a block. *)
Definition read_session (min_counter i : Z) : H (list Z) :=
  do! tee_fs_htree_open false None min_counter in tee_fs_htree_read_block i.

(** C26. Opening a file (by its minimum counter, without a root hash) and reading a block of it returns
    the block of the file and changes nothing in storage; without a failing external call, a block that
    was never written reads as corrupt and every other block is read. A file whose counter is below the
    minimum the client asks for (an old version put back by the normal world) is not opened; only
    failing calls hide the error TEE_ERROR_SECURITY. *)
Theorem htree_read_correct s sd ev c n f min_counter i : file_in s c n f -> 0 <= i < n -> 0 < Z.of_nat block_size ->
  let r := read_session min_counter i (mk_fs None s sd ev) in
  stor (snd r) = s /\
  match fst r with
  | Ret b => min_counter <= c /\ f i = Some b
  | Err e => ev = [] -> if c <? min_counter then e = TEE_ERROR_SECURITY else e = TEE_ERROR_CORRUPT_OBJECT /\ f i = None
  | _ => False
  end.
Proof.
  intros (t & C & <- & <- & Hf) Hi Hb r.
  assert (runs (read_session min_counter i) (fun b s' => stor s' = s /\ min_counter <= counter (head t) /\ f i = Some b)
    (fun e s' => stor s' = s /\ (ev = [] -> if counter (head t) <? min_counter then e = TEE_ERROR_SECURITY else e = TEE_ERROR_CORRUPT_OBJECT /\ f i = None))
    (mk_fs None s sd ev)) as Hr.
  2:{ unfold runs in Hr. unfold r. destruct (read_session min_counter i _) as [[] s']; done. }
  unfold read_session. apply runs_bind. destruct (counter (head t) <? min_counter) eqn:E; bool_hyps.
  - eapply runs_mono; [by apply (open_outdated t s sd ev)|done|]. cbv beta. intros e s' (_ & ? & ?). done.
  - eapply runs_mono; [by apply (open_runs t s None sd ev)|..]; cbv beta; [|by intros e s' [Hne ->]].
    intros o [c' st sd' ev'] (-> & Hc & Hst & L). cbn [cur stor events] in *. subst.
    eapply runs_mono; [apply (read_block_runs t (nodes (imeta t)) i)|..]; cbv beta; try lia; try apply C.
    + pose proof (c_max _ _ C). unfold nodes, UINT_MAX in *. lia.
    + intros b s' (_ & -> & Hb'). rewrite Hf in Hb'. done.
    + intros e s' (_ & -> & Hb'). split; [done|]. intros Hev. rewrite Hf in Hb'. by apply Hb', L.
Qed.

(** ** Creation *)

(** The tree that [create_and_sync()] hands to the commit, with the key [k]. *)
Definition fresh_image : node_image :=
  mk_image (sha256 (hash_input (Some (meta_bytes (mk_imeta 0 0 0))) (Node 1 true false zero_image NULL NULL))) (zeros 16) (zeros 16) 0.
Definition fresh (k : list Z) : tee_fs_htree :=
  mk_htree (Node 1 true false fresh_image NULL NULL) (mk_head (zeros 16) (zeros 16) (fek_enc k) (zeros 16) 0) k (mk_imeta 0 0 0) true.

Lemma zero_head_ok c : is_u 32 c -> head_ok (zero_head c). Proof. intros Hc. by split. Qed.

(** The commit of the tree, and the dummy head after it. *)
Lemma fresh_sync_runs k st sd ev (Q : option (list Z * Z) -> fs -> Prop) (E : Z -> fs -> Prop) : length k = 16%nat ->
  (forall o st' r v ev' sd', later ev ev' -> only_nodes [1] st st' -> length v = 16%nat -> synced (fresh k) None (root (fresh k)) r None st' ->
     let t' := sealed v r (fresh k) in
     Q o (mk_fs (Some t') (<[(TEE_FS_HTREE_TYPE_HEAD, 0, 1) := head_bytes (head t')]> st') sd' ev')) ->
  (ev <> [] -> forall e s, e <> 0 -> E e s) ->
  runs tee_fs_htree_sync_to_storage Q E (mk_fs (Some (fresh k)) st sd ev).
Proof.
  intros Hk HQ HE. unfold tee_fs_htree_sync_to_storage. apply runs_bind. unfold opened. apply runs_bind, runs_get, runs_guard; [done|]. intros _.
  apply runs_bind, runs_ht. cbn [fresh ht_dirty negb]. apply runs_bind, runs_ext_call; [|auto]. intros ev1 L1. apply runs_closing.
  apply runs_bind. unfold htree_traverse_post_order. apply runs_bind, runs_ht, runs_bind. fold (fresh k).
  apply (sync_nodes_runs (fresh k) 1 sd (root (fresh k)) NULL 1 None 0 None); try done; try lia.
  { simpl. split; [|done]. split; [|done]. split; [apply sha256_len|done..]. }
  2:{ intros Hne e st' ev' He _. apply HE; [laters|done]. }
  intros r pf st' ev2 L2 Y K. cbn [fst]. assert (pf = None) as -> by (rewrite (sy_flags _ _ _ _ _ _ Y); done).
  apply runs_bind, runs_ht. apply runs_modify. fields. apply runs_bind. apply update_root_runs; [done|done| |intros; apply HE; [laters|done]].
  intros ev3 L3. unfold with_dirty. cbn [ht_dirty root].
  change (sealed (random sd 16) r (mk_htree r (head (fresh k)) (fek (fresh k)) (imeta (fresh k)) (ht_dirty (fresh k)))) with (sealed (random sd 16) r (fresh k)).
  apply runs_bind, runs_ht. apply runs_bind. unfold rpc_write_head. apply runs_rpc_write; [|intros; apply HE; [laters|done]].
  intros ev4 L4. apply runs_bind, runs_mod_ht. apply runs_bind, runs_ht, runs_ret. fields.
  apply HQ; [laters|apply K|apply random_len|done].
Qed.

Lemma fresh_committed k st r v st' min_counter : length k = 16%nat -> length v = 16%nat -> 0 <= min_counter <= 1 -> st !! (TEE_FS_HTREE_TYPE_BLOCK, 0, 0) = None ->
  only_nodes [1] st st' -> synced (fresh k) None (root (fresh k)) r None st' ->
  let t' := sealed v r (fresh k) in
  file_in (<[(TEE_FS_HTREE_TYPE_HEAD, 0, 0) := head_bytes (zero_head min_counter)]> (<[(TEE_FS_HTREE_TYPE_HEAD, 0, 1) := head_bytes (head t')]> st')) 1 1 (fun _ => None).
Proof.
  intros Hk Hv Hmin Hst Ho Y t'. assert (is_u 32 min_counter) as Hu by (unfold is_u; lia).
  destruct (sealed_ok (fresh k) r st' (<[(TEE_FS_HTREE_TYPE_HEAD, 0, 0) := head_bytes (zero_head min_counter)]> (<[(TEE_FS_HTREE_TYPE_HEAD, 0, 1) := head_bytes (head t')]> st'))
    v (head_bytes (zero_head min_counter))) as [C F]; try done.
  - by apply fek_enc_len.
  - symmetry. by apply fek_dec_enc.
  - intros i w. by rewrite !lookup_insert_ne.
  - change (parity (head (sealed v r (fresh k)))) with 1. rewrite lookup_insert_ne by done. by rewrite lookup_insert_eq.
  - change (1 - parity (head (sealed v r (fresh k)))) with 0. by rewrite lookup_insert_eq.
  - split; [by apply length_head, zero_head_ok|]. rewrite bytes_head_head by (by apply zero_head_ok).
    assert (min_counter = 0 \/ min_counter = 1) as [-> | ->] by lia; done.
  - exists t'. split; [exact C|]. split; [done|]. split; [done|]. intros i. unfold contents. pose proof (same_data_at (BLOCK_NUM_TO_NODE_ID i) _ _ (sf_data _ _ F)) as Hat.
    change (root t') with (root (sealed v r (fresh k))). unfold BLOCK_NUM_TO_NODE_ID in *. unfold image_at at 1 in Hat. cbn [fresh root node_at] in Hat.
    destruct (1 =? i + 1) eqn:Ei; bool_hyps.
    + replace i with 0 in * by lia. destruct (image_at _ _) as [im|]; [|done]. destruct Hat as (_ & _ & Hb). rewrite Hb. change (bver (true, false, fresh_image).2) with 0.
      rewrite !lookup_insert_ne by done. rewrite (Ho TEE_FS_HTREE_TYPE_BLOCK 0 0) by done. by rewrite Hst.
    + by destruct (image_at _ _).
Qed.

Lemma create_runs st sd ev min_counter : 0 <= min_counter <= 1 -> st !! (TEE_FS_HTREE_TYPE_BLOCK, 0, 0) = None ->
  runs (tee_fs_htree_open true None min_counter) (fun _ s => file_in (stor s) 1 1 (fun _ => None)) (fun _ s => ev <> [] /\ cur s = None) (mk_fs None st sd ev).
Proof.
  intros Hmin Hst.
  unfold tee_fs_htree_open. apply runs_bind, runs_calloc; [|done]. intros ev1 L1. apply runs_bind, runs_modify. fields. apply runs_closing. cbn [set_cur cur].
  unfold create_and_sync. apply runs_bind, runs_get. apply runs_bind, runs_guard; [done|]. intros _.
  apply runs_bind, runs_rng; [|intros; split; [laters|done]]. intros ev2 L2. set (k := random sd 16). pose proof (random_len sd 16 : length k = 16%nat) as Hk.
  apply runs_bind, runs_mod_ht. fields. apply runs_bind, runs_ext_call; [|intros; split; [laters|done]]. intros ev3 L3.
  apply runs_bind, runs_mod_ht. fields. apply runs_bind. unfold init_root_node. apply runs_bind, runs_ext_call; [|intros; split; [laters|done]]. intros ev4 L4.
  apply runs_bind. unfold mod_root. apply runs_mod_ht. fields. apply runs_bind, runs_ht. fields. apply runs_bind. unfold calc_node_hash.
  apply runs_bind, runs_ext_call; [|intros; split; [laters|done]]. intros ev5 L5. apply runs_ret. apply runs_mod_ht. fields. apply runs_bind, runs_mod_ht. fields.
  apply runs_bind. match goal with |- runs _ _ _ (mk_fs (Some ?T) _ _ _) => change T with (fresh k) end.
  apply fresh_sync_runs; [done| |intros; split; [laters|done]]. intros o st' r' v ev6 sd6 L6 Ho Hv Y t'.
  apply runs_bind. unfold rpc_write_head. apply runs_rpc_write; [|intros; split; [laters|done]]. intros ev7 L7. apply runs_ret. cbn [stor].
  by apply (fresh_committed k st).
Qed.

(** C27. Creating a file with a minimum counter of 0 or 1 on storage without an old first block yields
    an empty file with the counter 1; an error comes from a failing external call and leaves no tree
    open. *)
Theorem htree_create_correct st sd ev min_counter : 0 <= min_counter <= 1 -> st !! (TEE_FS_HTREE_TYPE_BLOCK, 0, 0) = None ->
  let r := tee_fs_htree_open true None min_counter (mk_fs None st sd ev) in
  match fst r with
  | Ret _ => file_in (stor (snd r)) 1 1 (fun _ => None)
  | Err _ => ev <> [] /\ cur (snd r) = None
  | _ => False
  end.
Proof.
  intros Hmin Hst r. pose proof (create_runs st sd ev min_counter Hmin Hst) as Hr. unfold runs in Hr. unfold r.
  by destruct (tee_fs_htree_open _ _ _ _) as [[] s'].
Qed.
End File.
