(* ===== verification/HtreeExample.v ===== *)
(** * The hash tree: concrete files

    A cryptographic library of checksums that satisfies the laws of [HtLaws], the theorems of
    [HtreeFile] on concrete files, and two behaviours of optee_os/core/tee/fs_htree.c on which a file
    is lost without any failure: shrinking it, and creating it with a minimum counter above 1. *)
From stdpp Require Import gmap.
From S2P Require Import Prelude Htree HtreeInv HtreeSync HtreeWrite HtreeFile.
Local Open Scope Z_scope.

Definition checksum (m : list Z) : Z := foldl (fun a b => (a * 257 + b + 1) mod 2 ^ 61) 1 m.

#[export] Instance checksums : HtEnv := {|
  sha256 m := le_bytes 32 (checksum m);
  gcm_enc k iv aad p := (p, le_bytes 16 (checksum (k ++ iv ++ aad ++ p)));
  gcm_dec k iv aad c t := if bool_decide (t = le_bytes 16 (checksum (k ++ iv ++ aad ++ c))) then Some c else None;
  fek_enc k := k; fek_dec k := k;
  random i n := le_bytes n (Z.of_nat i * 12345 + 17);
  block_size := 4; CFG_REE_FS_HTREE_HASH_SIZE_COMPAT := false |}.

#[export] Instance checksums_laws : HtLaws.
Proof.
  split; intros; cbn [checksums sha256 gcm_enc gcm_dec fek_enc fek_dec random fst snd] in *; try apply length_le_bytes; try done.
  - by rewrite bool_decide_eq_true_2.
  - by case_bool_decide; simplify_eq.
Qed.

Definition empty_storage : fs := mk_fs None ∅ 0 [].

(** ** Sessions *)

Definition created : gmap key (list Z) := stor (snd (tee_fs_htree_open true None 0 empty_storage)).

Lemma runs_final {S A} (m : M S A) (Q : S -> Prop) s : runs m (fun _ => Q) (fun _ _ => False) s -> Q (snd (m s)).
Proof. unfold runs. by destruct (m s) as [[] s']. Qed.

Lemma created_file : file_in created 1 1 (fun _ => None).
Proof.
  apply (runs_final (tee_fs_htree_open true None 0) (fun s => file_in (stor s) 1 1 (fun _ => None)) empty_storage).
  eapply runs_mono; [apply (create_runs ∅ 0 [] 0); [lia|done]|done|]. cbv beta. by intros e s' [Hne _].
Qed.

Definition blocks : list (Z * list Z) := [(0, [1; 2; 3; 4]); (1, [5; 6; 7; 8]); (2, [9; 10; 11; 12]); (1, [0; 0; 0; 1])].

(** Twenty calls succeed, the next one fails although its write is done, one succeeds, one fails. *)
Definition faults : list event := replicate 20 (mk_event 0 true) ++ [mk_event 7 true; mk_event 0 true; mk_event 9 false].

Lemma htree_create_correct_witness :
  let r := tee_fs_htree_open true None 1 (mk_fs None ∅ 0 faults) in
  match fst r with
  | Ret _ => file_in (stor (snd r)) 1 1 (fun _ => None)
  | Err _ => faults <> [] /\ cur (snd r) = None
  | _ => False
  end.
Proof. exact (htree_create_correct ∅ 0 faults 1 ltac:(lia) (lookup_empty _)). Defined.

Lemma htree_session_atomic_witness : writes_ok 1 blocks /\
  let r := session 1 blocks (mk_fs None created 0 faults) in
  match fst r with
  | Ret _ => exists c', 1 <= c' <= 1 + 1 /\ file_in (stor (snd r)) c' (size_after blocks 1) (after blocks (fun _ => None))
  | Err _ => faults <> [] /\ (file_in (stor (snd r)) 1 1 (fun _ => None) \/ file_in (stor (snd r)) (1 + 1) (size_after blocks 1) (after blocks (fun _ => None)))
  | _ => False
  end.
Proof.
  assert (writes_ok 1 blocks) as Hok by (simpl; unfold UINT_MAX; lia). split; [exact Hok|].
  exact (htree_session_atomic created 0 faults 1 1 (fun _ => None) 1 blocks created_file ltac:(unfold UINT_MAX; lia) Hok).
Defined.

Definition written : gmap key (list Z) := stor (snd (session 1 blocks (mk_fs None created 0 []))).

Lemma written_file : exists c, 1 <= c <= 2 /\ file_in written c 3 (after blocks (fun _ => None)).
Proof.
  apply (runs_final (session 1 blocks) (fun s => exists c, 1 <= c <= 2 /\ file_in (stor s) c 3 (after blocks (fun _ => None))) (mk_fs None created 0 [])).
  eapply runs_mono; [apply (session_runs created 0 [] 1 1 (fun _ => None) 1 blocks created_file); [unfold UINT_MAX; lia|simpl; unfold UINT_MAX; lia]|done|].
  cbv beta. by intros e s' [Hne _].
Qed.

Lemma htree_read_correct_witness : exists c, file_in written c 3 (after blocks (fun _ => None)) /\
  let r := read_session 1 2 (mk_fs None written 0 faults) in
  stor (snd r) = written /\
  match fst r with
  | Ret b => 1 <= c /\ after blocks (fun _ => None) 2 = Some b
  | Err e => faults = [] -> if c <? 1 then e = TEE_ERROR_SECURITY else e = TEE_ERROR_CORRUPT_OBJECT /\ after blocks (fun _ => None) 2 = None
  | _ => False
  end.
Proof.
  destruct written_file as (c & Hc & Hf). exists c. split; [exact Hf|].
  exact (htree_read_correct written 0 faults c 3 (after blocks (fun _ => None)) 1 2 Hf ltac:(lia) ltac:(simpl; lia)).
Defined.

(** The blocks read back, without and with failing calls. *)
Lemma read_back : fst (read_session 1 1 (mk_fs None written 0 [])) = Ret [0; 0; 0; 1] /\ fst (read_session 1 2 (mk_fs None written 0 faults)) = Err 7.
Proof. vm_compute. done. Qed.

(** ** Shrinking a file *)

Definition seven : list (Z * list Z) := (fun i => (i, [i; i; i; i])) <$> [0; 1; 2; 3; 4; 5; 6].

(** [ree_fs_ftruncate_internal()] of core/tee/tee_ree_fs.c, for a length that leaves [keep + 1] nodes. *)
Definition shrink (keep len : Z) : H (option (list Z * Z)) :=
  do! tee_fs_htree_open false None 1 in
  do! tee_fs_htree_truncate keep in
  do! set_length len in
  do! tee_fs_htree_meta_set_dirty in
  tee_fs_htree_sync_to_storage.

(** [tee_fs_htree_truncate()] unlinks nodes without marking their parents dirty. A file of seven
    blocks that is shrunk to two is committed without an error, and cannot be opened any more: the
    hash stored for the second node covers children that are gone. *)
Lemma truncate_loses_file :
  let s1 := snd (session 1 seven (mk_fs None created 0 [])) in
  let r := shrink 1 7 (set_cur None s1) in
  fst (read_session 1 1 (set_cur None s1)) = Ret [1; 1; 1; 1] /\
  (exists o, fst r = Ret o) /\ fst (read_session 1 1 (set_cur None (snd r))) = Err TEE_ERROR_CORRUPT_OBJECT.
Proof. vm_compute. split; [done|]. split; [by eexists|done]. Qed.

(** ** A minimum counter above 1 *)

(** A file created with the minimum counter 2 or 3 cannot be opened with that minimum: the commit
    gives its head the counter 1, and the dummy head written after it has a larger one. *)
Lemma reset_loses_file (c : Z) : c = 2 \/ c = 3 ->
  let r := tee_fs_htree_open true None c empty_storage in
  (exists h, fst r = Ret h) /\
  fst (tee_fs_htree_open false None c (set_cur None (snd r))) = Err (if c =? 2 then TEE_ERROR_CORRUPT_OBJECT else TEE_ERROR_SECURITY).
Proof. intros [-> | ->]; vm_compute; (split; [by eexists|done]). Qed.
