(* ===== verification/HtreeIntegrity.v ===== *)
(** * The hash tree: integrity against the normal world

    Storage is in the hands of the normal world. When [tee_fs_htree_open()] of
    optee_os/core/tee/fs_htree.c (modelled in [Htree]) succeeds with the root hash it was given, the
    tree it loads is the only one with that hash, short of a collision of the hash function. *)
From stdpp Require Import gmap.
From S2P Require Import Prelude Htree HtreeInv HtreeSync HtreeWrite HtreeFile HtreeExample.
Local Open Scope Z_scope.

(** ** Results *)

(** [m] from [s] ends with a value that satisfies [Q], or does not end with a value. *)
Definition rets {A} (m : H A) (Q : A -> fs -> Prop) (s : fs) : Prop :=
  match m s with (Ret a, s') => Q a s' | _ => True end.

Lemma rets_ret {A} (a : A) (Q : A -> fs -> Prop) s : Q a s -> rets (ret a) Q s.
Proof. done. Qed.
Lemma rets_get (Q : fs -> fs -> Prop) s : Q s s -> rets get Q s.
Proof. done. Qed.
Lemma rets_bind {A B} (m : H A) (k : A -> H B) (Q : B -> fs -> Prop) s : rets m (fun a s' => rets (k a) Q s') s -> rets (bind m k) Q s.
Proof. unfold rets, bind. by destruct (m s) as [[] ?]. Qed.
Lemma rets_mono {A} (m : H A) (P Q : A -> fs -> Prop) s : rets m P s -> (forall a s', P a s' -> Q a s') -> rets m Q s.
Proof. unfold rets. destruct (m s) as [[] ?]; eauto. Qed.
Lemma rets_guard c e (Q : unit -> fs -> Prop) s : (c = false -> Q tt s) -> rets (guard_err c e) Q s.
Proof. unfold rets, guard_err. destruct c; [done|]. intros HQ. by apply HQ. Qed.
Lemma rets_assert c (Q : unit -> fs -> Prop) s : (c = true -> Q tt s) -> rets (assert_ c) Q s.
Proof. unfold rets, assert_. destruct c; [|done]. intros HQ. by apply HQ. Qed.
Lemma rets_err {A} e (Q : A -> fs -> Prop) s : rets (err e) Q s.
Proof. done. Qed.
Lemma rets_runs {A} (m : H A) (Q : A -> fs -> Prop) s : runs m Q (fun _ _ => True) s -> rets m Q s.
Proof. unfold rets, runs. by destruct (m s) as [[] ?]. Qed.
Lemma rets_closing {A} (m : H A) (Q : A -> fs -> Prop) s : rets m Q s -> rets (closing m) Q s.
Proof. unfold rets, closing. by destruct (m s) as [[] ?]. Qed.

(** ** Trees with right hashes *)

Fixpoint images_ok (t : htree_node) : Prop :=
  match t with
  | NULL => True
  | Node _ _ _ im c0 c1 => image_ok im /\ images_ok c0 /\ images_ok c1
  end.

(** Every item of storage consists of bytes. *)
Definition storage_bytes (s : gmap key (list Z)) : Prop := forall k b, s !! k = Some b -> bytes_ok b.

Lemma read_image_ok b : bytes_ok b -> lenZ b = 66 -> image_ok (bytes_image b).
Proof.
  intros Hb Hl. unfold lenZ in Hl. split; cbn [bytes_image hash iv tag flags]; rewrite ?length_take, ?length_drop; try lia.
  pose proof (le_val_range (take 2 (drop 64 b)) ltac:(apply Forall_take, Forall_drop; done)) as Hr. unfold is_u.
  replace (lenZ (take 2 (drop 64 b))) with 2 in Hr; [done|]. unfold lenZ. rewrite length_take, length_drop. lia.
Qed.

Section Integrity.
Context {henv : HtEnv} {hlaws : HtLaws}.

(** What [verify_tree()] hashes of a tree, node by node; [mo] is the meta data that goes into the hash of the
    top node. *)
Fixpoint hash_inputs (mo : option (list Z)) (t : htree_node) : list (list Z) :=
  match t with
  | NULL => []
  | Node _ _ _ _ c0 c1 => hash_input mo t :: hash_inputs None c0 ++ hash_inputs None c1
  end.

(** Two different strings with one hash, one hashed for each of the trees. *)
Definition collision (mo : option (list Z)) (t : htree_node) (mo' : option (list Z)) (t' : htree_node) : Prop :=
  exists m m', m ∈ hash_inputs mo t /\ m' ∈ hash_inputs mo' t' /\ m <> m' /\ sha256 m = sha256 m'.

(** A collision below is one above. *)
Lemma collision_child mo mo' i d u im i' d' u' im' c0 c1 a0 a1 :
  collision None c0 None a0 \/ collision None c1 None a1 -> collision mo (Node i d u im c0 c1) mo' (Node i' d' u' im' a0 a1).
Proof. intros [(m & m' & H1 & H2 & Hne)|(m & m' & H1 & H2 & Hne)]; exists m, m'; cbn [hash_inputs]; set_solver. Qed.

Definition child_hash (c : htree_node) : list Z := match c with NULL => [] | Node _ _ _ im _ _ => hash im end.

Lemma hash_input_node mo i d u im c0 c1 : hash_input mo (Node i d u im c0 c1) =
  (iv im ++ tag im ++ le_bytes 2 (flags im)) ++ default [] mo ++ child_hash c0 ++ child_hash c1.
Proof. done. Qed.

Lemma child_hash_len c : images_ok c -> length (child_hash c) = if is_null c then 0%nat else 32%nat.
Proof. destruct c; [done|]. by intros [[] _]. Qed.

(** The hash of a tree determines it. *)
Lemma hashed_unique n n' t : forall t' p mo mo', 1 <= p -> shaped n p t -> shaped n' p t' -> images_ok t -> images_ok t' -> clean t -> clean t' ->
  hashed mo t -> hashed mo' t' -> t <> NULL -> t' <> NULL -> length (default [] mo) = length (default [] mo') ->
  hash (image_of t) = hash (image_of t') -> collision mo t mo' t' \/ t = t' /\ default [] mo = default [] mo'.
Proof.
  induction t as [|i d u im c0 IH0 c1 IH1]; intros t' p mo mo' Hp Hs Hs' Ho Ho' Hc Hc' Hh Hh' Hn Hn' Hl E; [done|].
  destruct t' as [|i' d' u' im' a0 a1]; [done|]. cbn [image_of] in E. destruct Hh as (H1 & G0 & G1), Hh' as (H1' & G0' & G1').
  destruct Ho as (O & O0 & O1), Ho' as (O' & O0' & O1'), Hs as (-> & _ & S0 & S1), Hs' as (-> & _ & S0' & S1'), Hc as (-> & -> & C0 & C1), Hc' as (-> & -> & C0' & C1').
  rewrite E, H1' in H1.
  match type of H1 with sha256 ?x = sha256 ?y => destruct (decide (y = x)) as [Ei|Hne]; [|left; exists y, x; cbn [hash_inputs]; split_and!; [by left|by left|done|done]] end. clear H1 H1'. rewrite !hash_input_node in Ei.
  pose proof O as [L1 L2 L3 L4]. pose proof O' as [L1' L2' L3' L4'].
  apply app_inj_1 in Ei as [Eim Ei]; [|rewrite !length_app, !length_le_bytes; lia]. apply app_inj_1 in Ei as [Emo Ech]; [|done].
  apply app_inj_1 in Eim as [Eiv Eim]; [|lia]. apply app_inj_1 in Eim as [Etag Efl]; [|lia].
  assert (flags im = flags im') as Ef by (rewrite <- (le_val_small 2 (flags im)), Efl by done; by apply (le_val_small 2)).
  assert (im = im') as <- by (destruct im, im'; simpl in *; congruence).
  assert (is_null c0 = is_null a0 /\ is_null c1 = is_null a1) as [N0 N1].
  { pose proof (f_equal length Ech) as Hlen. rewrite !length_app, !child_hash_len in Hlen by done.
    pose proof (shaped_null _ _ _ S0). pose proof (shaped_null _ _ _ S1). pose proof (shaped_null _ _ _ S0'). pose proof (shaped_null _ _ _ S1').
    destruct c0, c1, a0, a1; simpl in *; try done; try lia; exfalso; intuition (try discriminate; try lia). }
  apply app_inj_1 in Ech as [E0 E1]; [|by rewrite !child_hash_len, N0].
  assert (collision None c0 None a0 \/ c0 = a0) as [|<-]; [|left; apply collision_child; by left|].
  { destruct c0 as [|], a0 as [|]; try done; [by right|]. destruct (IH0 _ (2 * p) None None ltac:(lia) S0 S0' O0 O0' C0 C0' G0 G0') as [|[-> _]]; auto. }
  assert (collision None c1 None a1 \/ c1 = a1) as [|<-]; [|left; apply collision_child; by right|by right].
  destruct c1 as [|], a1 as [|]; try done; [by right|]. destruct (IH1 _ (2 * p + 1) None None ltac:(lia) S1 S1' O1 O1' C1 C1' G1 G1') as [|[-> _]]; auto.
Qed.

(** ** Loading a tree *)

Lemma rets_read k dlen c st sd ev (Q : list Z -> fs -> Prop) : storage_bytes st ->
  (forall data ev', bytes_ok data -> lenZ data = dlen -> Q data (mk_fs c st sd ev')) -> rets (rpc_read k dlen) Q (mk_fs c st sd ev).
Proof.
  intros Hb HQ. apply rets_runs, runs_rpc_read; [|done]. intros data ev' _ -> Hl. apply HQ; [|done]. destruct (st !! k) as [b|] eqn:E; [|constructor]. by eapply Hb.
Qed.

Lemma rets_ext_call c st sd ev (Q : unit -> fs -> Prop) : (forall ev', Q tt (mk_fs c st sd ev')) -> rets ext_call Q (mk_fs c st sd ev).
Proof. intros HQ. by apply rets_runs, runs_ext_call. Qed.

Lemma rets_ht t st sd ev (Q : tee_fs_htree -> fs -> Prop) : Q t (mk_fs (Some t) st sd ev) -> rets ht Q (mk_fs (Some t) st sd ev).
Proof. done. Qed.
Lemma rets_mod_ht f t st sd ev (Q : unit -> fs -> Prop) : Q tt (mk_fs (Some (f t)) st sd ev) -> rets (mod_ht f) Q (mk_fs (Some t) st sd ev).
Proof. done. Qed.

Lemma rets_read_node id v c st sd ev (Q : node_image -> fs -> Prop) : storage_bytes st ->
  (forall im ev', image_ok im -> Q im (mk_fs c st sd ev')) -> rets (rpc_read_node id v) Q (mk_fs c st sd ev).
Proof. intros Hb HQ. apply rets_bind, rets_read; [done|]. intros data ev' Hd Hl. apply rets_ret, HQ. by apply read_image_ok. Qed.

Lemma rets_read_head v c st sd ev (Q : htree_image -> fs -> Prop) : storage_bytes st ->
  (forall h ev', Q h (mk_fs c st sd ev')) -> rets (rpc_read_head v) Q (mk_fs c st sd ev).
Proof. intros Hb HQ. apply rets_bind, rets_read; [done|]. intros data ev' Hd Hl. apply rets_ret, HQ. Qed.

Lemma rets_init_head h min_counter t im0 st sd ev (Q : unit -> fs -> Prop) : storage_bytes st -> root t = Node 0 false false im0 NULL NULL ->
  (forall t' im ev', image_ok im -> hash im = h -> root t' = Node 1 false false im NULL NULL -> Q tt (mk_fs (Some t') st sd ev')) ->
  rets (init_head_from_data (Some h) min_counter) Q (mk_fs (Some t) st sd ev).
Proof.
  intros Hb Hr HQ. unfold init_head_from_data.
  assert (forall t1 im ev1, image_ok im -> hash im = h -> root t1 = Node 0 false false im NULL NULL ->
    rets (let! t := ht in do! guard_err (counter (head t) <? min_counter) TEE_ERROR_SECURITY in mod_root (with_id 1)) Q (mk_fs (Some t1) st sd ev1)) as Hend.
  { intros t1 im ev1 Him Hh Ht1. apply rets_bind, rets_ht, rets_bind, rets_guard. intros _. apply rets_mod_ht. apply (HQ _ im); [done|done|]. unfold with_root. cbn [root]. by rewrite Ht1. }
  apply rets_bind, rets_bind, rets_read_node; [done|]. intros im ev1 Him. apply rets_bind, rets_mod_ht. case_bool_decide as Eh.
  { apply rets_bind, rets_read_head; [done|]. intros hd ev2. apply rets_mod_ht. apply (Hend _ im); [done|done|]. fields. by rewrite Hr. }
  apply rets_bind, rets_read_node; [done|]. intros im' ev2 Him'. apply rets_bind, rets_mod_ht. case_bool_decide as Eh'; [|apply rets_err].
  apply rets_bind, rets_read_head; [done|]. intros hd ev3. apply rets_mod_ht. apply (Hend _ im'); [done|done|]. fields. by rewrite Hr.
Qed.

(** A tree loaded from storage, with the nodes 1 to [n] and the root hash [h]. *)
Record loads (h : list Z) (n : Z) (t : htree_node) : Prop := mk_loads {
  ld_pos : 1 <= n; ld_shape : shaped n 1 t; ld_ok : images_ok t; ld_clean : clean t; ld_hash : hash (image_of t) = h }.

Lemma put_images id x x' q t t' : put id x x' q t t' -> (images_ok x -> images_ok x') -> images_ok t -> images_ok t'.
Proof. intros Hput Hx. induction Hput; [done|..]; intros (? & ? & ?); simpl; auto. Qed.
Lemma put_clean id x x' q t t' : put id x x' q t t' -> (clean x -> clean x') -> clean t -> clean t'.
Proof. intros Hput Hx. induction Hput; [done|..]; intros (? & ? & ? & ?); simpl; auto. Qed.
Lemma put_top id x x' q t t' : put id x x' q t t' -> q <> id -> image_of t' = image_of t.
Proof. by destruct 1. Qed.

Lemma put_loads h n n' id x x' t t' : put id x x' 1 t t' -> 2 <= id -> n <= n' <= n + 1 -> (n' = n + 1 -> id = n') ->
  shaped n' id x' -> (images_ok x -> images_ok x') -> (clean x -> clean x') -> loads h n t -> loads h n' t'.
Proof.
  intros Hput Hid Hn Hn' Hx Hi Hc [L0 L1 L2 L3 L4]. split; [lia|by eapply put_shaped|by eapply put_images|by eapply put_clean|].
  rewrite (put_top _ _ _ _ _ _ Hput); [done|lia].
Qed.

Lemma find_closest_out id t st sd ev (Q : htree_node -> fs -> Prop) : ~ id < UINT_MAX -> rets (find_closest_node id) Q (mk_fs (Some t) st sd ev).
Proof. intros Hid. apply rets_bind, rets_bind, rets_assert. intros Ha. bool_hyps. lia. Qed.

Lemma rets_find_node id t st sd ev (Q : option htree_node -> fs -> Prop) : 0 < id -> (forall o, Q o (mk_fs (Some t) st sd ev)) ->
  rets (find_node id) Q (mk_fs (Some t) st sd ev).
Proof.
  intros Hid HQ. apply rets_bind. destruct (decide (id < UINT_MAX)) as [Hu|Hu]; [|by apply find_closest_out].
  apply rets_runs, runs_find_closest; [done|]. apply rets_ret, HQ.
Qed.

Lemma with_image_local im : local (with_image im).
Proof. intros i d u im0 c0 c1. simpl. eauto. Qed.

Lemma with_image_images im x : image_ok im -> images_ok x -> images_ok (with_image im x).
Proof. intros Him. destruct x as [|i d u im0 c0 c1]; [done|]. intros (_ & H0 & H1). done. Qed.

Lemma with_image_clean im x : clean x -> clean (with_image im x).
Proof. by destruct x. Qed.

Lemma rets_init_nodes h st sd (Q : unit -> fs -> Prop) fuel : storage_bytes st -> forall id t ev, 2 <= id -> loads h (id - 1) (root t) ->
  (forall t' n ev', loads h n (root t') -> meta_bytes (imeta t') = meta_bytes (imeta t) -> Q tt (mk_fs (Some t') st sd ev')) ->
  rets (init_nodes fuel id) Q (mk_fs (Some t) st sd ev).
Proof.
  intros Hb. induction fuel as [|k IH]; intros id t ev Hid Hl HQ; [done|]. cbn [init_nodes]. apply rets_bind, rets_ht.
  destruct (id <=? max_node_id (imeta t)); [|apply rets_ret; by eapply HQ].
  pose proof (id_split id) as Hsp. pose proof (bit_range id 0) as Hbit. apply rets_bind, rets_find_node; [lia|]. intros [p|]; [|apply rets_err].
  cbv zeta. apply rets_bind, rets_read_node; [done|]. intros im ev1 Him. apply rets_bind. assert (exists n, id = n + 1) as [n ->] by (exists (id - 1); lia). replace (n + 1 - 1) with n in * by lia.
  destruct (decide (n + 1 < UINT_MAX)) as [Hu|Hu]; [|unfold get_node; apply rets_bind; by apply find_closest_out].
  apply rets_runs, (runs_get_node_new _ n); try done; try lia; [apply Hl|]. intros ev2 _. apply rets_bind, rets_runs, runs_upd_node; [lia|].
  destruct (level_new n ltac:(lia)) as [l Hlv]. set (new := Node (n + 1) false false zero_image NULL NULL).
  assert (shaped n (Z.shiftr (n + 1) (Z.of_nat (S l))) (root t)) as Hs1 by (rewrite <- Hlv, level_shift by lia; apply Hl).
  pose proof (put_append n new l _ Hs1 ltac:(lia)) as Hput. rewrite <- Hlv, level_shift in Hput by lia.
  set (r1 := upd_closest (level (n + 1)) (n + 1) (set_child (bit_of (n + 1) 0) new) (root t)) in *.
  assert (loads h (n + 1) r1) as Hl1.
  { eapply (put_loads h n); [exact Hput|done|lia|done|unfold new; cbn [shaped]; lia| |done|done]. intros _. split; [apply zero_image_ok|done]. }
  assert (shaped (n + 1) (Z.shiftr (n + 1) (Z.of_nat (level (n + 1)))) r1) as Hr1 by (rewrite level_shift by lia; apply Hl1).
  pose proof (put_upd _ (n + 1) (with_image im) (level (n + 1)) _ Hr1 ltac:(lia) ltac:(lia)) as Hput2. rewrite level_shift in Hput2 by lia.
  destruct (closest_in _ _ _ _ Hr1 ltac:(lia) ltac:(lia)) as [Hx Hxn].
  apply IH; [lia| |].
  - replace (n + 1 + 1 - 1) with (n + 1) by lia. eapply (put_loads h (n + 1)); [exact Hput2|done|lia|lia| |by apply with_image_images|apply with_image_clean|exact Hl1].
    by destruct (closest (level (n + 1)) (n + 1) r1).
  - intros t' n' ev' Hl' Hm'. by eapply HQ.
Qed.

Lemma rets_verify meta node : forall parent c st sd ev (Q : htree_node * option Z -> fs -> Prop),
  (forall ev', hashed (meta_for parent meta) node -> Q (node, None) (mk_fs c st sd ev')) ->
  rets (traverse_post_order (verify_node meta) parent node) Q (mk_fs c st sd ev).
Proof.
  induction node as [|id d u im c0 IH0 c1 IH1]; intros parent c st sd ev Q HQ; cbn [traverse_post_order]; [apply rets_ret; by apply HQ|].
  apply rets_bind, IH0. intros ev1 H0. cbn [fst snd touch_parent]. apply rets_bind, IH1. intros ev2 H1. cbn [fst snd set_child]. change (1 =? 0) with false. cbv iota.
  cbn [touch_parent]. unfold verify_node, calc_node_hash. apply rets_bind, rets_bind, rets_ext_call. intros ev3. apply rets_ret. apply rets_bind, rets_guard. intros Hd.
  apply negb_false_iff, bool_decide_eq_true_1 in Hd. apply rets_ret, HQ. cbn [hashed]. split; [by symmetry|]. done.
Qed.

Lemma rets_any {A} (m : H A) s : rets m (fun _ _ => True) s.
Proof. unfold rets. by destruct (m s) as [[] ?]. Qed.

Lemma rets_skip {A B} (m : H A) (k : A -> H B) (Q : B -> fs -> Prop) s : (forall a s', rets (k a) Q s') -> rets (bind m k) Q s.
Proof. intros Hk. apply rets_bind. eapply rets_mono; [apply rets_any|]. auto. Qed.

(** A new file hands out its hash. *)
Lemma rets_create min_counter s : rets (create_and_sync min_counter) (fun o _ => o <> None) s.
Proof.
  unfold create_and_sync. do 7 (apply rets_skip; intros ? ?). apply rets_bind. match goal with |- rets _ _ ?x => destruct x as [[t|] st sd ev] end; [|done]. apply rets_mod_ht. apply rets_bind. unfold tee_fs_htree_sync_to_storage.
  apply rets_bind. unfold opened. apply rets_bind, rets_get, rets_guard. intros _. apply rets_bind, rets_ht. fields. cbn [negb].
  apply rets_skip. intros _ s1. apply rets_closing. do 6 (apply rets_skip; intros ? ?). apply rets_ret. apply rets_skip. intros _ s2. by apply rets_ret.
Qed.

(** What a successful opening with a hash has loaded, unless it made a new file. *)
Lemma rets_open h min_counter st sd ev : storage_bytes st ->
  rets (tee_fs_htree_open false (Some h) min_counter)
    (fun o s => o = None -> exists t n, cur s = Some t /\ loads h n (root t) /\ hashed (Some (meta_bytes (imeta t))) (root t)) (mk_fs None st sd ev).
Proof.
  intros Hb. unfold tee_fs_htree_open. apply rets_bind. apply rets_runs, runs_calloc; [|done]. intros ev1 _. apply rets_bind. apply rets_runs, runs_modify.
  fields. apply rets_closing. apply rets_bind. eapply rets_init_head; [done|done|]. intros t im ev2 Him Hh Hr. apply rets_bind, rets_ht.
  apply rets_bind. destruct (ht_head_is_partially_done (head t)).
  { eapply rets_mono; [apply rets_create|]. cbv beta. intros o s' Ho. apply rets_skip. intros _ s1. apply rets_skip. intros _ s2. apply rets_skip. intros _ s3. apply rets_ret. done. }
  apply rets_ret. assert (loads h 1 (root t)) as Hl by (rewrite Hr; split; simpl; [lia|lia|done..]).
  apply rets_bind. unfold verify_root. apply rets_bind, rets_ext_call. intros ev3. apply rets_bind, rets_mod_ht. apply rets_bind, rets_ht. unfold authenc_decrypt.
  apply rets_bind, rets_bind, rets_ext_call. intros ev4. apply rets_bind, rets_ht. destruct (gcm_dec _ _ _ _ _) as [p|]; [|apply rets_err]. apply rets_ret, rets_mod_ht.
  apply rets_bind. unfold init_tree_from_data. apply rets_bind, rets_ht. apply (rets_init_nodes h); [done|lia|done|]. intros t' n ev5 Hl' Hm.
  apply rets_bind. unfold verify_tree. apply rets_bind, rets_ext_call. intros ev6. apply rets_bind, rets_ht. unfold htree_traverse_post_order. apply rets_bind, rets_ht.
  apply rets_bind, rets_verify. intros ev7 Hv. apply rets_bind, rets_ht. apply rets_ret. intros _. exists t', n. split; [by destruct t'|]. done.
Qed.

(** C5. Integrity of a file against the normal world: let [tee_fs_htree_open()] succeed on two
    storages that the normal world made up, with the same root hash (the one the directory file keeps
    for the file) and any outcomes of the external calls, without taking the file for a partly created
    one. Then both have loaded the same tree (the same initialisation vector, tag and version of every
    block, the same number of blocks) and the same file length, or among the strings that the two runs
    hashed to verify their trees there are two different ones with the same hash. *)
Theorem htree_open_integrity h s1 sd1 ev1 min1 r1 s2 sd2 ev2 min2 r2 : storage_bytes s1 -> storage_bytes s2 ->
  tee_fs_htree_open false (Some h) min1 (mk_fs None s1 sd1 ev1) = (Ret None, r1) ->
  tee_fs_htree_open false (Some h) min2 (mk_fs None s2 sd2 ev2) = (Ret None, r2) ->
  exists t1 t2, cur r1 = Some t1 /\ cur r2 = Some t2 /\
    (collision (Some (meta_bytes (imeta t1))) (root t1) (Some (meta_bytes (imeta t2))) (root t2) \/
     root t1 = root t2 /\ meta_bytes (imeta t1) = meta_bytes (imeta t2)).
Proof.
  intros B1 B2 E1 E2. pose proof (rets_open h min1 s1 sd1 ev1 B1) as H1. pose proof (rets_open h min2 s2 sd2 ev2 B2) as H2. unfold rets in H1, H2.
  rewrite E1 in H1. rewrite E2 in H2. destruct (H1 eq_refl) as (t1 & n1 & C1 & L1 & G1), (H2 eq_refl) as (t2 & n2 & C2 & L2 & G2).
  exists t1, t2. split; [done|]. split; [done|]. pose proof L1 as [A0 A1 A2 A3 A4]. pose proof L2 as [D0 D1 D2 D3 D4].
  apply (hashed_unique n1 n2 _ _ 1 (Some (meta_bytes (imeta t1))) (Some (meta_bytes (imeta t2)))); try done.
  - by apply (shaped_id n1 1).
  - by apply (shaped_id n2 1).
  - by rewrite A4.
Qed.
End Integrity.

(** ** Two storages with one tree *)

Definition opened_file : H (option tee_fs_htree) := do! tee_fs_htree_open false None 1 in let! s := get in ret (cur s).
Definition written_hash : list Z :=
  match fst (opened_file (mk_fs None written 0 [])) with Ret (Some t) => hash (image_of (root t)) | _ => [] end.

(** The normal world changes what the tree does not use. *)
Definition tampered : gmap key (list Z) := <[(TEE_FS_HTREE_TYPE_NODE, 0, 1) := zeros 66]> written.

Lemma bytes_written (s : gmap key (list Z)) : bool_decide (map_Forall (fun _ b => bytes_ok b) s) = true -> storage_bytes s.
Proof. intros Hs%bool_decide_eq_true_1 k b Hk. by apply (Hs k b). Qed.

Lemma ret_pair {A} (m : H A) a s : fst (m s) = Ret a -> m s = (Ret a, snd (m s)).
Proof. destruct (m s). by intros <-. Qed.

Lemma htree_open_integrity_witness :
  let r1 := snd (tee_fs_htree_open false (Some written_hash) 0 (mk_fs None written 0 [])) in
  let r2 := snd (tee_fs_htree_open false (Some written_hash) 1 (mk_fs None tampered 3 [])) in
  exists t1 t2, cur r1 = Some t1 /\ cur r2 = Some t2 /\
    (collision (Some (meta_bytes (imeta t1))) (root t1) (Some (meta_bytes (imeta t2))) (root t2) \/
     root t1 = root t2 /\ meta_bytes (imeta t1) = meta_bytes (imeta t2)).
Proof.
  assert (storage_bytes written) as B1 by (apply bytes_written; vm_compute; reflexivity).
  assert (storage_bytes tampered) as B2 by (apply bytes_written; vm_compute; reflexivity).
  assert (fst (tee_fs_htree_open false (Some written_hash) 0 (mk_fs None written 0 [])) = Ret None) as E1 by (vm_compute; reflexivity).
  assert (fst (tee_fs_htree_open false (Some written_hash) 1 (mk_fs None tampered 3 [])) = Ret None) as E2 by (vm_compute; reflexivity).
  exact (htree_open_integrity written_hash written 0 [] 0 _ tampered 3 [] 1 _ B1 B2 (ret_pair _ _ _ E1) (ret_pair _ _ _ E2)).
Defined.

(** ** A file taken for a partly created one *)

(** The normal world clears the heads. [ht_head_is_partially_done()] then holds, also for a file whose
    root hash is known, and [tee_fs_htree_open()] replaces the file by an empty one and succeeds. *)
Definition cleared : gmap key (list Z) :=
  <[(TEE_FS_HTREE_TYPE_HEAD, 0, 0) := zeros 68]> (<[(TEE_FS_HTREE_TYPE_HEAD, 0, 1) := zeros 68]> written).

Lemma zero_head_resets_file :
  let r := tee_fs_htree_open false (Some written_hash) 0 (mk_fs None cleared 0 []) in
  (exists h, fst r = Ret (Some h) /\ h <> written_hash) /\ (length_ ∘ imeta <$> cur (snd r)) = Some 0 /\
  fst (tee_fs_htree_read_block 1 (snd r)) = Err TEE_ERROR_GENERIC /\ fst (read_session 0 1 (mk_fs None written 0 [])) = Ret [0; 0; 0; 1].
Proof. vm_compute. split; [by eexists|done]. Qed.
