(* ===== verification/Mutex.v ===== *)
(** * Mutexes, condition variables and wait queues of the OP-TEE core

    [core/kernel/wait_queue.c], [core/kernel/mutex.c], [core/kernel/refcount.c].

    The code is concurrent: threads of the TEE run it on several cores, and every access to a mutex
    or to a wait queue is made under a spin lock. A spin-locked section is therefore one atomic
    operation of the model ([M mutex]); a thread's program counter records how far it is through
    [mutex_lock()], [condvar_wait()] and the like, and [exec] lets any thread take its next section
    at any time. Sleeping ([do_notif(true, ...)], an RPC to the normal world that may return early)
    is modelled by letting a sleeping thread continue whenever it is scheduled. *)
From stdpp Require Import gmap.
From S2P Require Import Prelude.
#[local] Open Scope Z_scope.

(** ** Wait queues (wait_queue.c) *)

(** [struct wait_queue_elem]; the element lives on the stack of the thread [handle], so the handle
    identifies it. *)
Record wait_queue_elem := Wqe {
  handle : nat;
  done : bool;
  wait_read : bool;
  cv : option Z;
}.

Definition wait_queue := list wait_queue_elem.

Fixpoint slist_add_tail (wq : wait_queue) (e : wait_queue_elem) : wait_queue :=
  match wq with
  | [] => [e]
  | x :: r => x :: slist_add_tail r e
  end.

Definition wq_wait_init_condvar (wq : wait_queue) (id : nat) (c : option Z) (rd : bool) : wait_queue :=
  slist_add_tail wq (Wqe id false rd c).

Definition wq_wait_init (wq : wait_queue) (id : nat) (rd : bool) : wait_queue :=
  wq_wait_init_condvar wq id None rd.

(** [SLIST_REMOVE]: follows the links up to the element; an element that is not on the list makes
    it run past the end. *)
Fixpoint slist_remove (wq : wait_queue) (id : nat) : option (wait_queue_elem * wait_queue) :=
  match wq with
  | [] => None
  | e :: r =>
      if decide (handle e = id) then Some (e, r)
      else '(x, r') ← slist_remove r id; Some (x, e :: r')
  end.

(** [wq_wait_final_helper()], from the return of the sleep on. *)
Definition wq_wait_final_helper (id : nat) : M wait_queue Z :=
  let! wq := get in
  let! p := of_opt OutOfBounds (slist_remove wq id) in
  let '(e, wq') := p in
  do! put wq' in
  ret (if done e then TEE_SUCCESS else TEE_ERROR_TIMEOUT).

Definition set_done (e : wait_queue_elem) : wait_queue_elem :=
  Wqe (handle e) true (wait_read e) (cv e).

(** The [SLIST_FOREACH] of [wq_wake_next()]: [wt] is [wake_read] once [wake_type_assigned]. The
    result is the handle to wake ([do_wakeup]), the wake type and the queue after the scan. *)
Fixpoint wake_scan (wt : option bool) (wq : wait_queue) : option nat * option bool * wait_queue :=
  match wq with
  | [] => (None, wt, [])
  | e :: r =>
      if bool_decide (is_Some (cv e)) || done e then
        let '(h, wt', r') := wake_scan wt r in (h, wt', e :: r')
      else
        let wr := match wt with Some w => w | None => wait_read e end in
        if eqb (wait_read e) wr then (Some (handle e), Some wr, set_done e :: r)
        else let '(h, wt', r') := wake_scan (Some wr) r in (h, wt', e :: r')
  end.

(** Whether [wq_wake_next()] goes round its loop again after an iteration. *)
Definition wake_again (h : option nat) (wt : option bool) : bool :=
  bool_decide (is_Some h) && match wt with Some true => true | _ => false end.

(** The whole loop run by one thread alone; the handles notified, in order. *)
Fixpoint wake_loop (fuel : nat) (wt : option bool) (wq : wait_queue) : option (list nat * wait_queue) :=
  match fuel with
  | O => None
  | S f =>
      let '(h, wt', wq') := wake_scan wt wq in
      if wake_again h wt' then
        '(l, wq'') ← wake_loop f wt' wq'; Some (option_list h ++ l, wq'')
      else Some (option_list h, wq')
  end.

Definition wq_wake_next (wq : wait_queue) : option (list nat * wait_queue) :=
  wake_loop (S (length wq)) None wq.

Fixpoint wq_promote_condvar (wq : wait_queue) (c : Z) (only_one : bool) : wait_queue :=
  match wq with
  | [] => []
  | e :: r =>
      if decide (cv e = Some c) then
        Wqe (handle e) (done e) (wait_read e) None ::
          (if only_one then r else wq_promote_condvar r c only_one)
      else e :: wq_promote_condvar r c only_one
  end.

Definition wq_have_condvar (wq : wait_queue) (c : Z) : bool :=
  existsb (fun e => bool_decide (cv e = Some c)) wq.

Definition wq_is_empty (wq : wait_queue) : bool :=
  match wq with [] => true | _ => false end.

(** ** Mutexes (mutex.c): the spin-locked sections *)

Record mutex := Mutex { wq : wait_queue; state : Z }.

Definition MUTEX_INITIALIZER : mutex := Mutex [] 0.

Definition set_state (v : Z) : M mutex unit := modify (fun m => Mutex (wq m) (swrap 16 v)).
Definition set_wq (q : wait_queue) : M mutex unit := modify (fun m => Mutex q (state m)).

(** One iteration of [__mutex_lock()] up to the release of the spin lock: [can_lock]. *)
Definition mutex_lock_section (id : nat) : M mutex bool :=
  let! m := get in
  let can_lock := state m =? 0 in
  do! (if negb can_lock then set_wq (wq_wait_init (wq m) id false) else set_state (-1)) in
  ret can_lock.

Definition mutex_read_lock_section (id : nat) : M mutex bool :=
  let! m := get in
  let can_lock := negb (state m =? -1) in
  do! (if negb can_lock then set_wq (wq_wait_init (wq m) id true) else set_state (state m + 1)) in
  ret can_lock.

Definition mutex_trylock : M mutex bool :=
  let! m := get in
  let can_lock_write := state m =? 0 in
  do! (if can_lock_write then set_state (-1) else ret tt) in
  ret can_lock_write.

Definition mutex_read_trylock : M mutex bool :=
  let! m := get in
  let can_lock := negb (state m =? -1) in
  do! (if can_lock then set_state (state m + 1) else ret tt) in
  ret can_lock.

(** [__mutex_unlock()] up to [wq_wake_next()]. *)
Definition mutex_unlock_section : M mutex unit :=
  let! m := get in
  do! (if state m =? 0 then panic else ret tt) in
  set_state 0.

(** [__mutex_read_unlock()] up to [wq_wake_next()]; the result is [new_state]. *)
Definition mutex_read_unlock_section : M mutex Z :=
  let! m := get in
  do! (if state m <=? 0 then panic else ret tt) in
  do! set_state (state m - 1) in
  let! m' := get in
  ret (state m').

(** [__condvar_wait_timeout()], the section under the mutex's spin lock; the result is
    [(old_state, new_state)]. *)
Definition condvar_wait_section (id : nat) (c : Z) : M mutex (Z * Z) :=
  let! m := get in
  do! (if state m =? 0 then panic else ret tt) in
  let old_state := state m in
  do! set_wq (wq_wait_init_condvar (wq m) id (Some c) (0 <? state m)) in
  do! set_state (if 1 <? state m then state m - 1 else 0) in
  let! m' := get in
  ret (old_state, state m').

Definition mutex_destroy : M mutex unit :=
  let! m := get in
  do! (if negb (state m =? 0) then panic else ret tt) in
  if negb (wq_is_empty (wq m)) then panic else ret tt.

(** ** Threads using one mutex *)

(** Where a thread is with respect to the mutex. [rd] is the mode: [true] for [mutex_read_lock()].
    - [Try rd]: about to enter the spin-locked section of [mutex_lock()];
    - [Sleep rd]: in [wq_wait_final()], will try again in mode [rd];
    - [Hold rd]: holds the mutex;
    - [Wake wt next]: in the loop of [wq_wake_next()], after which it is done with the mutex
      ([next = None]) or sleeps on a condition variable to lock again in mode [rd]
      ([next = Some rd]). *)
Inductive pc :=
| Idle
| Try (rd : bool)
| Sleep (rd : bool)
| Hold (rd : bool)
| Wake (wt : option bool) (next : option bool).

(** The mutex, the condition variables whose [cv->m] is this mutex, the threads. *)
Record sys := Sys { mx : mutex; cvs : gset Z; thr : list pc }.

Definition sys_init (n : nat) : sys := Sys MUTEX_INITIALIZER ∅ (replicate n Idle).

(** Calls a thread can make, and the internal continuation [Next] of a call in progress. *)
Inductive act :=
| Lock (rd : bool)
| Trylock (rd : bool)
| Unlock
| CvWait (c : Z)
| CvSignal (c : Z) (only_one : bool)
| Next.

(** Runs a section of thread [t] and moves the thread to the program counter [k] gives. *)
Definition run_section {A} (m : M mutex A) (k : A -> pc) (t : nat) (s : sys) : outcome sys :=
  match m (mx s) with
  | (Ret a, m') => Ret (Sys m' (cvs s) (<[t := k a]> (thr s)))
  | (Err e, _) => Err e
  | (Panic, _) => Panic
  | (Undef u, _) => Undef u
  end.

(** A section of wait_queue.c, run under [wq_spin_lock] on the mutex's queue. *)
Definition on_wq {A} (f : M wait_queue A) : M mutex A := fun m =>
  let '(o, q) := f (wq m) in (o, Mutex q (state m)).

Definition after_wake (next : option bool) : pc :=
  match next with Some rd => Sleep rd | None => Idle end.

Definition wake_section (wt : option bool) : M mutex (option nat * option bool) :=
  on_wq (fun q => let '(h, wt', q') := wake_scan wt q in (Ret (h, wt'), q')).

Definition cv_signal (c : Z) (only_one : bool) (linked : gset Z) : M mutex unit :=
  if bool_decide (c ∈ linked) then on_wq (modify (fun q => wq_promote_condvar q c only_one))
  else ret tt.

(** One atomic step of thread [t]; [None] when the thread cannot make it. A thread unlocks in the
    mode it locked. *)
Definition exec (s : sys) (t : nat) (a : act) : option (outcome sys) :=
  p ← thr s !! t;
  match p, a with
  | Idle, Lock rd => Some (Ret (Sys (mx s) (cvs s) (<[t := Try rd]> (thr s))))
  | Idle, Trylock false => Some (run_section mutex_trylock (fun b : bool => if b then Hold false else Idle) t s)
  | Idle, Trylock true => Some (run_section mutex_read_trylock (fun b : bool => if b then Hold true else Idle) t s)
  | Try false, Next =>
      Some (run_section (mutex_lock_section t) (fun b : bool => if b then Hold false else Sleep false) t s)
  | Try true, Next =>
      Some (run_section (mutex_read_lock_section t) (fun b : bool => if b then Hold true else Sleep true) t s)
  | Sleep rd, Next => Some (run_section (on_wq (wq_wait_final_helper t)) (fun _ => Try rd) t s)
  | Hold false, Unlock => Some (run_section mutex_unlock_section (fun _ => Wake None None) t s)
  | Hold true, Unlock =>
      Some (run_section mutex_read_unlock_section
              (fun n => if n =? 0 then Wake None None else Idle) t s)
  | Hold _, CvWait c =>
      Some (run_section (condvar_wait_section t c)
              (fun '(o, n) => if n =? 0 then Wake None (Some (0 <? o)) else Sleep (0 <? o)) t
              (Sys (mx s) (cvs s ∪ {[c]}) (thr s)))
  | (Idle | Hold _), CvSignal c only_one =>
      Some (run_section (cv_signal c only_one (cvs s)) (fun _ => p) t s)
  | Wake wt next, Next =>
      Some (run_section (wake_section wt)
              (fun '(h, wt') => if wake_again h wt' then Wake wt' next else after_wake next) t s)
  | _, _ => None
  end.

Definition holds_lock (p : pc) : bool := match p with Hold _ => true | _ => false end.

(** The callers' discipline for condition variables: [condvar_signal()] and [condvar_broadcast()]
    are called with the mutex held. *)
Definition disciplined (s : sys) (t : nat) (a : act) : bool :=
  match a, thr s !! t with
  | CvSignal _ _, Some p => holds_lock p
  | _, _ => true
  end.

Inductive reachable (disc : bool) (n : nat) : sys -> Prop :=
| reach_init : reachable disc n (sys_init n)
| reach_step s t a s' :
    reachable disc n s -> (disc = true -> disciplined s t a = true) ->
    exec s t a = Some (Ret s') -> reachable disc n s'.

(** A scheduler given by the list of the steps to take. *)
Fixpoint exec_all (disc : bool) (s : sys) (l : list (nat * act)) : option sys :=
  match l with
  | [] => Some s
  | (t, a) :: r =>
      if negb disc || disciplined s t a then
        match exec s t a with Some (Ret s') => exec_all disc s' r | _ => None end
      else None
  end.

Lemma reachable_exec_all disc n s l s' :
  reachable disc n s -> exec_all disc s l = Some s' -> reachable disc n s'.
Proof.
  revert s. induction l as [|[t a] l IH]; intros s Hr H; simplify_eq/=; [done|].
  destruct (negb disc || disciplined s t a) eqn:Ed; [|done].
  destruct (exec s t a) as [[s1| | |]|] eqn:E; try done.
  eapply IH; [|done]. eapply reach_step; [done | | done]. by intros ->.
Qed.

(** ** Facts about the queue operations *)

(** What identifies the elements of a queue: the waiting threads with their modes. *)
Definition key (q : wait_queue) : list (nat * bool) := (fun e => (handle e, wait_read e)) <$> q.

Lemma slist_add_tail_app q e : slist_add_tail q e = q ++ [e].
Proof. induction q as [|x q IH]; simpl; [done | by rewrite IH]. Qed.

Lemma key_add q id c rd : key (wq_wait_init_condvar q id c rd) = key q ++ [(id, rd)].
Proof. unfold wq_wait_init_condvar, key. by rewrite slist_add_tail_app, fmap_app. Qed.

(** A waiter [wq_wake_next()] may wake. *)
Definition active (e : wait_queue_elem) : bool := negb (bool_decide (is_Some (cv e)) || done e).

(** The scan stops at the first active waiter of the wake type, or finds none. *)
Inductive scan_result (wt : option bool) (q : wait_queue) :
  option nat * option bool * wait_queue -> Prop :=
| scan_none wt' :
    (forall e, e ∈ q -> active e = true -> wt = Some (negb (wait_read e))) ->
    scan_result wt q (None, wt', q)
| scan_found l e r :
    q = l ++ e :: r -> active e = true ->
    (forall x, x ∈ l -> active x = true -> wt = Some (negb (wait_read x)) /\ wait_read x <> wait_read e) ->
    (forall w, wt = Some w -> wait_read e = w) ->
    scan_result wt q (Some (handle e), Some (wait_read e), l ++ set_done e :: r).

Lemma wake_scan_spec wt q : scan_result wt q (wake_scan wt q).
Proof.
  revert wt. induction q as [|e q IH]; intros wt; cbn [wake_scan].
  { constructor. intros ? []%elem_of_nil. }
  destruct (bool_decide _ || done e) eqn:Ea.
  - assert (active e = false) as Ha by (unfold active; by rewrite Ea).
    specialize (IH wt). inversion IH as [wt' Hn E|l x r Hq Hx Hl Hw E]; clear IH.
    + constructor. intros y [->|Hy]%elem_of_cons; [congruence | by apply Hn].
    + apply (scan_found _ _ (e :: l) x r); [by rewrite Hq | done | | done].
      intros y [->|Hy]%elem_of_cons; [congruence | by apply Hl].
  - assert (active e = true) as Ha by (unfold active; by rewrite Ea).
    destruct (eqb _ _) eqn:Eb.
    + apply eqb_prop in Eb. rewrite <- Eb.
      apply (scan_found _ _ [] e q); [done | done | intros ? []%elem_of_nil | ].
      intros w ->. done.
    + destruct wt as [w|]; [|by rewrite eqb_reflx in Eb].
      apply eqb_false_iff in Eb.
      assert (w = negb (wait_read e)) as Ew by (destruct w, (wait_read e) eqn:?; done).
      specialize (IH (Some w)). inversion IH as [wt' Hn E|l x r Hq Hx Hl Hw E]; clear IH.
      * constructor. intros y [->|Hy]%elem_of_cons; [by rewrite Ew | by apply Hn].
      * apply (scan_found _ _ (e :: l) x r); [by rewrite Hq | done | | done].
        intros y [->|Hy]%elem_of_cons; [|by apply Hl]. intros _.
        split; [by rewrite Ew | rewrite (Hw w eq_refl); congruence].
Qed.

Lemma key_scan wt q h wt' q' : wake_scan wt q = (h, wt', q') -> key q' = key q.
Proof.
  intros E. pose proof (wake_scan_spec wt q) as H. rewrite E in H. inversion H; subst; [done|].
  unfold key. by rewrite !fmap_app.
Qed.

Lemma key_promote q c o : key (wq_promote_condvar q c o) = key q.
Proof.
  unfold key. induction q as [|e q IH]; [done|]. cbn [wq_promote_condvar].
  destruct (decide _), o; rewrite !fmap_cons; simpl; f_equal; done.
Qed.

Lemma slist_remove_spec q id rd :
  (id, rd) ∈ key q -> NoDup (fst <$> key q) ->
  exists e q', slist_remove q id = Some (e, q') /\ key q ≡ₚ (id, rd) :: key q' /\ e ∈ q.
Proof.
  induction q as [|x q IH]; [by intros []%elem_of_nil|]. cbn [slist_remove key fmap list_fmap].
  intros Hin Hnd. apply NoDup_cons in Hnd as [Hx Hnd]. destruct (decide (handle x = id)) as [Heq|Hne].
  - exists x, q. split; [done|]. apply elem_of_cons in Hin as [[= -> ->]|Hin].
    + split; [done | apply elem_of_cons; auto].
    + destruct Hx. simpl. rewrite Heq. by apply (list_elem_of_fmap_2' _ _ (id, rd)).
  - apply elem_of_cons in Hin as [[= -> ->]|Hin]; [done|].
    destruct (IH Hin Hnd) as (e & q' & -> & HP & He). exists e, (x :: q'). split; [done|].
    split; [|apply elem_of_cons; auto]. unfold key in *. rewrite HP, fmap_cons. apply Permutation_swap.
Qed.

(** ** The locking invariant *)

Definition count_pc (f : pc -> bool) (l : list pc) : Z :=
  foldr (fun p n => Z.b2z (f p) + n) 0 l.

Lemma count_pc_insert f l t p q :
  l !! t = Some p -> count_pc f (<[t := q]> l) = count_pc f l - Z.b2z (f p) + Z.b2z (f q).
Proof.
  revert t. induction l as [|x l IH]; intros [|t] H; simplify_eq/=; [unfold count_pc; lia|].
  unfold count_pc in *. rewrite (IH t H). lia.
Qed.

Lemma count_pc_bounds f l : 0 <= count_pc f l <= lenZ l.
Proof.
  unfold lenZ. induction l as [|x l IH]; [simpl; lia|].
  change (count_pc f (x :: l)) with (Z.b2z (f x) + count_pc f l). cbn [length].
  destruct (f x); cbn [Z.b2z]; lia.
Qed.

Lemma count_pc_pos f l t p : l !! t = Some p -> f p = true -> 1 <= count_pc f l.
Proof.
  intros H Hf. revert t H. induction l as [|x l IH]; intros [|t] H; simplify_eq/=.
  - pose proof (count_pc_bounds f l). unfold count_pc in *. rewrite Hf. simpl. lia.
  - specialize (IH t H). unfold count_pc in *. destruct (f x); simpl; lia.
Qed.

Lemma count_pc_replicate f n : f Idle = false -> count_pc f (replicate n Idle) = 0.
Proof. intros H. induction n; simpl; [done|]. rewrite H. done. Qed.

Definition writer (p : pc) : bool := match p with Hold false => true | _ => false end.
Definition reader (p : pc) : bool := match p with Hold true => true | _ => false end.

(** [m->state] counts the holders: -1 for one writer, otherwise the number of readers. *)
Definition lock_inv (z : Z) (l : list pc) : Prop :=
  (z = -1 /\ count_pc writer l = 1 /\ count_pc reader l = 0) \/
  (z = count_pc reader l /\ count_pc writer l = 0).

(** The mode in which the thread has an element on the queue. *)
Definition waits (p : pc) : option bool :=
  match p with Sleep rd => Some rd | Wake _ next => next | _ => None end.

(** The queue holds exactly one element for each thread that waits. *)
Definition queue_inv (k : list (nat * bool)) (l : list pc) : Prop :=
  NoDup (fst <$> k) /\ forall t rd, (t, rd) ∈ k <-> l !! t ≫= waits = Some rd.

Definition inv (s : sys) : Prop :=
  lock_inv (state (mx s)) (thr s) /\ queue_inv (key (wq (mx s))) (thr s) /\ lenZ (thr s) < 2 ^ 15.

Lemma queue_inv_same k l t p q :
  queue_inv k l -> l !! t = Some p -> waits q = waits p -> queue_inv k (<[t := q]> l).
Proof.
  intros [Hn H] Hp E. split; [done|]. intros t' rd. rewrite H.
  destruct (decide (t' = t)) as [->|Hne].
  - rewrite Hp, list_lookup_insert_eq by (by eapply lookup_lt_Some). simpl. by rewrite E.
  - by rewrite list_lookup_insert_ne by done.
Qed.

Lemma queue_inv_add k l t p q rd :
  queue_inv k l -> l !! t = Some p -> waits p = None -> waits q = Some rd ->
  queue_inv (k ++ [(t, rd)]) (<[t := q]> l).
Proof.
  intros [Hn H] Hp Ep Eq. split.
  - rewrite fmap_app. apply NoDup_app. split; [done|]. split; [|apply NoDup_singleton].
    intros x ([y r] & -> & Hy)%list_elem_of_fmap Hx%list_elem_of_singleton. simpl in Hx. subst y.
    apply H in Hy. rewrite Hp in Hy. simpl in Hy. congruence.
  - intros t' r. rewrite elem_of_app, list_elem_of_singleton, H.
    destruct (decide (t' = t)) as [->|Hne].
    + rewrite Hp, list_lookup_insert_eq by (by eapply lookup_lt_Some). simpl. rewrite Ep, Eq.
      naive_solver.
    + rewrite list_lookup_insert_ne by done. naive_solver.
Qed.

Lemma queue_inv_remove k k' l t p q rd :
  queue_inv k l -> k ≡ₚ (t, rd) :: k' -> l !! t = Some p -> waits q = None ->
  queue_inv k' (<[t := q]> l).
Proof.
  intros [Hn H] HP Hp Eq. rewrite HP in Hn. apply NoDup_cons in Hn as [Ht Hn]. split; [done|].
  intros t' r. destruct (decide (t' = t)) as [->|Hne].
  - rewrite list_lookup_insert_eq by (by eapply lookup_lt_Some). simpl. rewrite Eq. split; [|done].
    intros Hin. destruct Ht. by apply (list_elem_of_fmap_2 fst) in Hin.
  - rewrite list_lookup_insert_ne, <- H, HP, elem_of_cons by done. naive_solver.
Qed.

(** What one step does to the invariant: the program counter of the moving thread, the state and
    the queue. *)
Ltac count_step Hp :=
  rewrite ?(count_pc_insert _ _ _ _ _ Hp); cbn [writer reader Z.b2z].

Ltac lock_step Hp :=
  unfold lock_inv in *; count_step Hp;
  repeat match goal with
  | |- context [count_pc ?f ?l] =>
      lazymatch goal with
      | _ : 0 <= count_pc f l <= _ |- _ => fail
      | _ => pose proof (count_pc_bounds f l)
      end
  end.

(** The invariant in the form a section needs it: who moves, and what the state is. *)
Lemma inv_writer s t : inv s -> thr s !! t = Some (Hold false) ->
  state (mx s) = -1 /\ count_pc writer (thr s) = 1 /\ count_pc reader (thr s) = 0.
Proof.
  intros ([H|[_ H]] & _) Hp; [done|]. pose proof (count_pc_pos writer _ _ _ Hp eq_refl). lia.
Qed.

Lemma inv_reader s t : inv s -> thr s !! t = Some (Hold true) ->
  state (mx s) = count_pc reader (thr s) /\ count_pc writer (thr s) = 0 /\ 1 <= state (mx s).
Proof.
  intros ([(? & ? & H)|[H ?]] & _) Hp; pose proof (count_pc_pos reader _ _ _ Hp eq_refl); lia.
Qed.

Lemma inv_state_range s : inv s -> -1 <= state (mx s) < 2 ^ 15.
Proof.
  intros ([(-> & _)|[-> _]] & _ & Hl); [lia|]. pose proof (count_pc_bounds reader (thr s)). lia.
Qed.

Lemma swrap16_small v : - 2 ^ 15 <= v < 2 ^ 15 -> swrap 16 v = v.
Proof. intros. by apply swrap_small. Qed.

(** The mutex [m] fits the threads once [t] has moved to [q]. *)
Definition fits (m : mutex) (s : sys) (t : nat) (q : pc) : Prop :=
  lock_inv (state m) (<[t := q]> (thr s)) /\ queue_inv (key (wq m)) (<[t := q]> (thr s)).

Lemma inv_section {A} (m : M mutex A) (k : A -> pc) t s a m' :
  inv s -> m (mx s) = (Ret a, m') -> fits m' s t (k a) ->
  exists s', run_section m k t s = Ret s' /\ inv s'.
Proof.
  intros (_ & _ & Hl) E [H1 H2]. unfold run_section. rewrite E. eexists. split; [done|].
  split; [done|]. split; [done|]. simpl. unfold lenZ in *. by rewrite length_insert.
Qed.

(** The four ways a section moves a thread that does not hold the mutex: it stays away from it,
    takes it for writing or reading, or queues up. *)
Section moves.
  Context (s : sys) (t : nat) (p : pc) (Hs : inv s) (Hp : thr s !! t = Some p).

Lemma fits_keep q cvq :
    holds_lock p = false -> holds_lock q = false -> waits q = waits p -> key cvq = key (wq (mx s)) ->
    fits (Mutex cvq (state (mx s))) s t q.
  Proof.
    intros Ep Eq Ew Ek. destruct Hs as (H1 & H2 & _). split; simpl.
    - lock_step Hp. destruct p as [| | |[]|], q as [| | |[]|]; simplify_eq/=; lia.
    - rewrite Ek. by eapply queue_inv_same.
  Qed.

Lemma fits_write :
    holds_lock p = false -> waits p = None -> state (mx s) = 0 ->
    fits (Mutex (wq (mx s)) (swrap 16 (-1))) s t (Hold false).
  Proof.
    intros Ep Ew Ez. destruct Hs as (H1 & H2 & _). split; simpl; [|by eapply queue_inv_same].
    rewrite swrap16_small by lia. lock_step Hp. destruct p as [| | |[]|]; simplify_eq/=; lia.
  Qed.

Lemma fits_read :
    holds_lock p = false -> waits p = None -> state (mx s) <> -1 ->
    fits (Mutex (wq (mx s)) (swrap 16 (state (mx s) + 1))) s t (Hold true).
  Proof.
    intros Ep Ew Ez. destruct Hs as (H1 & H2 & Hl). split; simpl; [|by eapply queue_inv_same].
    pose proof (count_pc_bounds reader (<[t := Hold true]> (thr s))) as Hb.
    rewrite (count_pc_insert _ _ _ _ _ Hp) in Hb. unfold lenZ in *. rewrite length_insert in Hb.
    lock_step Hp. destruct p as [| | |[]|]; simplify_eq/=; rewrite swrap16_small by lia; lia.
  Qed.

Lemma fits_queue rd :
    holds_lock p = false -> waits p = None ->
    fits (Mutex (wq_wait_init (wq (mx s)) t rd) (state (mx s))) s t (Sleep rd).
  Proof.
    intros Ep Ew. destruct Hs as (H1 & H2 & _). split; simpl.
    - lock_step Hp. destruct p as [| | |[]|]; simplify_eq/=; lia.
    - unfold wq_wait_init. rewrite key_add. by eapply queue_inv_add.
  Qed.
End moves.

Lemma mutex_eta m : m = Mutex (wq m) (state m).
Proof. by destruct m. Qed.

(** One lemma per section: it returns, and the invariant carries over. *)
Section sections.
  Context (s : sys) (t : nat) (Hs : inv s).

Lemma exec_trylock (rd : bool) : thr s !! t = Some Idle ->
    exists s', run_section (if rd then mutex_read_trylock else mutex_trylock)
                 (fun b : bool => if b then Hold rd else Idle) t s = Ret s' /\ inv s'.
  Proof.
    intros Hp. assert (fits (mx s) s t Idle) as Hk by
      (rewrite (mutex_eta (mx s)); by apply (fits_keep s t Idle)).
    destruct rd; [destruct (state (mx s) =? -1) eqn:E | destruct (state (mx s) =? 0) eqn:E].
    1: apply (inv_section _ _ _ _ false (mx s) Hs); [|done].
    2: eapply (inv_section _ _ _ _ true _ Hs); [|exact (fits_read s t _ Hs Hp eq_refl eq_refl ltac:(lia))].
    3: eapply (inv_section _ _ _ _ true _ Hs); [|exact (fits_write s t _ Hs Hp eq_refl eq_refl ltac:(lia))].
    4: apply (inv_section _ _ _ _ false (mx s) Hs); [|done].
    all: unfold mutex_read_trylock, mutex_trylock, bind, get; by rewrite E.
  Qed.

Lemma exec_lock (rd : bool) : thr s !! t = Some (Try rd) ->
    exists s', run_section (if rd then mutex_read_lock_section t else mutex_lock_section t)
                 (fun b : bool => if b then Hold rd else Sleep rd) t s = Ret s' /\ inv s'.
  Proof.
    intros Hp.
    destruct rd; [destruct (state (mx s) =? -1) eqn:E | destruct (state (mx s) =? 0) eqn:E].
    1: eapply (inv_section _ _ _ _ false _ Hs); [|exact (fits_queue s t _ Hs Hp true eq_refl eq_refl)].
    2: eapply (inv_section _ _ _ _ true _ Hs); [|exact (fits_read s t _ Hs Hp eq_refl eq_refl ltac:(lia))].
    3: eapply (inv_section _ _ _ _ true _ Hs); [|exact (fits_write s t _ Hs Hp eq_refl eq_refl ltac:(lia))].
    4: eapply (inv_section _ _ _ _ false _ Hs); [|exact (fits_queue s t _ Hs Hp false eq_refl eq_refl)].
    all: unfold mutex_read_lock_section, mutex_lock_section, bind, get; by rewrite E.
  Qed.

Lemma exec_sleep rd : thr s !! t = Some (Sleep rd) ->
    exists s', run_section (on_wq (wq_wait_final_helper t)) (fun _ => Try rd) t s = Ret s' /\ inv s'.
  Proof.
    intros Hp. destruct Hs as (H1 & H2 & _). pose proof H2 as [Hn H].
    destruct (slist_remove_spec (wq (mx s)) t rd) as (e & q' & E & HP & _); [|done|].
    { apply H. by rewrite Hp. }
    apply (inv_section _ _ _ _ (if done e then TEE_SUCCESS else TEE_ERROR_TIMEOUT)
             (Mutex q' (state (mx s))) Hs).
    - unfold on_wq, wq_wait_final_helper, bind, get. by rewrite E.
    - split; simpl; [lock_step Hp; lia | by eapply queue_inv_remove].
  Qed.

Lemma exec_wake wt next : thr s !! t = Some (Wake wt next) ->
    exists s', run_section (wake_section wt)
                 (fun '(h, wt') => if wake_again h wt' then Wake wt' next else after_wake next) t s
               = Ret s' /\ inv s'.
  Proof.
    intros Hp. destruct (wake_scan wt (wq (mx s))) as [[h wt'] q'] eqn:E.
    eapply (inv_section _ _ _ _ (h, wt') (Mutex q' (state (mx s))) Hs).
    - unfold wake_section, on_wq. by rewrite E.
    - destruct (wake_again h wt'), next; (eapply fits_keep; [done | done | done | done | done |];
        by eapply key_scan).
  Qed.

Lemma exec_signal p c o : thr s !! t = Some p ->
    exists s', run_section (cv_signal c o (cvs s)) (fun _ => p) t s = Ret s' /\ inv s' /\
      state (mx s') = state (mx s) /\ thr s' = thr s.
  Proof.
    intros Hp. assert (<[t := p]> (thr s) = thr s) as Et by (by apply list_insert_id).
    destruct Hs as (H1 & H2 & Hl). unfold run_section, cv_signal.
    case_bool_decide; (eexists; split; [done|]); simpl; rewrite Et;
      (split; [|done]); (split; [done|]); (split; [|done]); simpl; by rewrite ?key_promote.
  Qed.

Lemma exec_cvwait rd c : thr s !! t = Some (Hold rd) ->
    exists s', run_section (condvar_wait_section t c)
                 (fun '(o, n) => if n =? 0 then Wake None (Some (0 <? o)) else Sleep (0 <? o)) t
                 (Sys (mx s) (cvs s ∪ {[c]}) (thr s)) = Ret s' /\ inv s'.
  Proof.
    intros Hp. pose proof (inv_state_range _ Hs) as R.
    assert ((0 <? state (mx s)) = rd /\ state (mx s) <> 0) as [Erd Hnz].
    { destruct rd; [pose proof (inv_reader _ _ Hs Hp) | pose proof (inv_writer _ _ Hs Hp)]; lia. }
    set (n := if 1 <? state (mx s) then state (mx s) - 1 else 0).
    assert (fits (Mutex (wq_wait_init_condvar (wq (mx s)) t (Some c) rd) n) s t
              (if n =? 0 then Wake None (Some rd) else Sleep rd)) as Hf.
    { destruct Hs as (H1 & H2 & _). split; simpl.
      - subst n. destruct rd; [pose proof (inv_reader _ _ Hs Hp) | pose proof (inv_writer _ _ Hs Hp)];
          (destruct (1 <? _) eqn:E1; destruct (_ =? 0) eqn:E2; lock_step Hp; lia).
      - rewrite key_add. eapply queue_inv_add; [done | done | done |]. by destruct (n =? 0). }
    rewrite <- Erd in Hf.
    eapply (inv_section _ _ _ (Sys (mx s) (cvs s ∪ {[c]}) (thr s)) (state (mx s), n)); [done | | exact Hf].
    unfold condvar_wait_section, bind, get. simpl. rewrite (proj2 (Z.eqb_neq _ _)) by done.
    unfold set_wq, set_state, modify, ret. simpl. fold n.
    rewrite (swrap16_small n); [done|]. subst n. destruct (1 <? _); lia.
  Qed.

Lemma exec_unlock : thr s !! t = Some (Hold false) ->
    exists s', run_section mutex_unlock_section (fun _ => Wake None None) t s = Ret s' /\ inv s'.
  Proof.
    intros Hp. pose proof (inv_writer _ _ Hs Hp) as (E & Hw & Hr). destruct Hs as (H1 & H2 & _).
    apply (inv_section _ _ _ _ tt (Mutex (wq (mx s)) 0) Hs).
    - unfold mutex_unlock_section, bind, get. by rewrite E.
    - split; simpl; [lock_step Hp; lia | by eapply queue_inv_same].
  Qed.

Lemma exec_read_unlock : thr s !! t = Some (Hold true) ->
    exists s', run_section mutex_read_unlock_section
                 (fun n => if n =? 0 then Wake None None else Idle) t s = Ret s' /\ inv s'.
  Proof.
    intros Hp. pose proof (inv_reader _ _ Hs Hp) as (E & Hw & Hr).
    pose proof (inv_state_range _ Hs) as R. destruct Hs as (H1 & H2 & _).
    apply (inv_section _ _ _ _ (state (mx s) - 1) (Mutex (wq (mx s)) (state (mx s) - 1)) Hs).
    - unfold mutex_read_unlock_section, bind, get. rewrite (proj2 (Z.leb_gt _ _)) by lia.
      unfold set_state, modify, ret. simpl. by rewrite swrap16_small by lia.
    - split; simpl; [|eapply queue_inv_same; [done..|]; by destruct (_ =? _)].
      destruct (_ =? _) eqn:E0; lock_step Hp; lia.
  Qed.
End sections.

(** Every step a thread can take returns normally and preserves the invariant. *)
Lemma exec_inv s t a o : inv s -> exec s t a = Some o -> exists s', o = Ret s' /\ inv s'.
Proof.
  intros Hs. unfold exec. destruct (thr s !! t) as [p|] eqn:Hp; [|done].
  cbn [option_bind mbind]. intros H.
  destruct p as [|[]|rd|[]|wt next], a as [rd'|[]| |c|c o'|]; simplify_eq;
    try (by apply exec_trylock with (rd := true)); try (by apply exec_trylock with (rd := false));
    try (by apply exec_lock with (rd := true)); try (by apply exec_lock with (rd := false));
    try (by apply exec_sleep); try (by apply exec_unlock); try (by apply exec_read_unlock);
    try (by eapply exec_cvwait); try (by apply exec_wake);
    try (by (destruct (exec_signal s t Hs _ c o' Hp) as (s' & E & Hi & _); eauto)).
  eexists. split; [done|]. destruct Hs as (H1 & H2 & Hl). split; [|split]; simpl.
  - lock_step Hp. lia.
  - by eapply queue_inv_same.
  - unfold lenZ in *. by rewrite length_insert.
Qed.

Lemma inv_init n : Z.of_nat n < 2 ^ 15 -> inv (sys_init n).
Proof.
  intros Hn. split; [|split]; simpl.
  - right. by rewrite !count_pc_replicate.
  - split; [constructor|]. intros t rd. split; [by intros []%elem_of_nil|].
    destruct (replicate n Idle !! t) eqn:E; [|done]. by apply lookup_replicate in E as [-> _].
  - unfold lenZ. by rewrite length_replicate.
Qed.

Lemma reachable_inv disc n s : Z.of_nat n < 2 ^ 15 -> reachable disc n s -> inv s.
Proof.
  intros Hn. induction 1 as [|s t a s' _ IH _ E]; [by apply inv_init|].
  by destruct (exec_inv _ _ _ _ IH E) as (? & [= <-] & ?).
Qed.

(** ** No wakeup is lost *)

(** Somebody is on the way to a free mutex: a thread about to try it, a thread that has yet to look
    for a waiter to wake, or a waiter that has been woken. *)
Definition pending (s : sys) : Prop :=
  (exists t rd, thr s !! t = Some (Try rd)) \/
  (exists t next, thr s !! t = Some (Wake None next)) \/
  (exists e, e ∈ wq (mx s) /\ done e = true).

Definition wake_inv (s : sys) : Prop :=
  state (mx s) = 0 -> (exists e, e ∈ wq (mx s) /\ active e = true) -> pending s.

Lemma holder_nonzero s t rd : inv s -> thr s !! t = Some (Hold rd) -> state (mx s) <> 0.
Proof.
  intros Hs Hp. destruct rd; [pose proof (inv_reader _ _ Hs Hp) | pose proof (inv_writer _ _ Hs Hp)]; lia.
Qed.

Lemma lookup_insert_moved (l : list pc) t p q : l !! t = Some p -> <[t := q]> l !! t = Some q.
Proof. intros H. apply list_lookup_insert_eq. by eapply lookup_lt_Some. Qed.

(** A thread that has just moved to [Try] or to the start of the wake loop is pending. *)
Lemma pending_try m c l t p rd : l !! t = Some p -> pending (Sys m c (<[t := Try rd]> l)).
Proof. intros H. left. exists t, rd. by eapply lookup_insert_moved. Qed.

Lemma pending_wake m c l t p next : l !! t = Some p -> pending (Sys m c (<[t := Wake None next]> l)).
Proof. intros H. right; left. exists t, next. by eapply lookup_insert_moved. Qed.

(** What is pending stays so when a thread that is not part of it moves. *)
Lemma pending_frame m c l t p q :
  pending (Sys m c l) -> l !! t = Some p -> (forall rd, p <> Try rd) -> (forall n, p <> Wake None n) ->
  pending (Sys m c (<[t := q]> l)).
Proof.
  intros [(u & rd & H)|[(u & n & H)|H]] Hp H1 H2; simpl in *; [left|right; left|by right; right];
    exists u; eexists; simpl; rewrite list_lookup_insert_ne; try done;
    intros ->; rewrite Hp in H; simplify_eq; by (destruct (H1 rd) || destruct (H2 n)).
Qed.

Lemma wake_inv_wake s t wt next s' :
  wake_inv s -> thr s !! t = Some (Wake wt next) ->
  run_section (wake_section wt)
    (fun '(h, wt') => if wake_again h wt' then Wake wt' next else after_wake next) t s = Ret s' ->
  wake_inv s'.
Proof.
  intros Hw Hp. destruct s as [[q z] c l]. unfold run_section, wake_section, on_wq. simpl in *.
  pose proof (wake_scan_spec wt q) as Hsc. destruct (wake_scan wt q) as [[h wt'] q'].
  intros [= <-] Hz (e & He & Ha). simpl in *.
  inversion Hsc as [? Hn|l1 e1 r1 Hq Ha1 Hl1 Hw1]; subst.
  - assert (wt = Some (negb (wait_read e))) as -> by (by apply Hn).
    apply (pending_frame _ _ _ _ (Wake (Some (negb (wait_read e))) next)); [|done..].
    apply Hw; [done|]. eauto.
  - right; right. exists (set_done e1). split; [|done]. simpl. set_solver.
Qed.

Lemma exec_wake_inv s t a s' :
  inv s -> wake_inv s -> disciplined s t a = true -> exec s t a = Some (Ret s') -> wake_inv s'.
Proof.
  intros Hs Hw Hd E. destruct (exec_inv _ _ _ _ Hs E) as (s1 & [= <-] & Hs').
  assert (forall rd, thr s' !! t = Some (Hold rd) -> wake_inv s') as Hh.
  { intros rd Hh Hz. by destruct (holder_nonzero _ _ _ Hs' Hh). }
  unfold exec, disciplined in *. destruct (thr s !! t) as [p|] eqn:Hp; [|done].
  cbn [option_bind mbind] in E.
  destruct p as [|[]|rd|[]|wt next], a as [rd'|[]| |c|c o'|]; simplify_eq;
    try (by (destruct (exec_signal s t Hs _ c o' Hp) as (s1 & E1 & _ & Ez & Et);
             rewrite E1 in E; injection E as <-; eapply Hh; rewrite Et));
    try (by (eapply wake_inv_wake)).
  1: by intros _ _; eapply pending_try.
  all: unfold run_section, mutex_read_trylock, mutex_trylock, mutex_read_lock_section,
         mutex_lock_section, mutex_unlock_section, mutex_read_unlock_section, condvar_wait_section,
         on_wq, wq_wait_final_helper, of_opt, bind, get in E; simpl in E.
  all: repeat (let F := fresh "F" in
         match type of E with
         | context [if ?b then _ else _] => destruct b eqn:F; simpl in E
         | context [slist_remove ?q ?i] => destruct (slist_remove q i) as [[]|] eqn:F; simpl in E
         end); simplify_eq.
  all: first
    [ by (eapply Hh, lookup_insert_moved)
    | by (intros _ _; eapply pending_try)
    | by (intros _ _; eapply pending_wake)
    | by (intros Hz; simpl in Hz; bool_hyps; lia)
    | destruct s; intros Hz He; eapply pending_frame; [by apply Hw | done..] ].
Qed.

Lemma reachable_wake_inv n s : Z.of_nat n < 2 ^ 15 -> reachable true n s -> wake_inv s.
Proof.
  intros Hn. induction 1 as [|s t a s' Hr IH Hd E].
  - intros _ (e & He & _). by apply elem_of_nil in He.
  - eapply exec_wake_inv; [by eapply reachable_inv | done | by apply Hd | done].
Qed.

(** ** Progress: a free mutex with a pending thread can be taken *)

Definition actives (q : wait_queue) : nat := length (List.filter active q).

(** Thread [t] has an element on the queue that [wq_wake_next()] has marked. *)
Definition woken (t : nat) (q : wait_queue) : Prop := exists e, e ∈ q /\ handle e = t /\ done e = true.

(** Runs in which no thread returns from its sleep before it is woken. *)
Inductive runs : sys -> sys -> Prop :=
| runs_refl s : runs s s
| runs_step s t a s' s'' :
    exec s t a = Some (Ret s') -> (forall rd, thr s !! t = Some (Sleep rd) -> woken t (wq (mx s))) ->
    runs s' s'' -> runs s s''.

(** There is such a run from [s] after which some thread holds the mutex. *)
Definition can_be_taken (s : sys) : Prop :=
  exists s' t rd, runs s s' /\ thr s' !! t = Some (Hold rd).

Lemma can_be_taken_step s t a s' :
  exec s t a = Some (Ret s') -> (forall rd, thr s !! t = Some (Sleep rd) -> woken t (wq (mx s))) ->
  can_be_taken s' -> can_be_taken s.
Proof.
  intros E Hs (s1 & u & rd & El & H). exists s1, u, rd. split; [by econstructor | done].
Qed.

Lemma progress_try s t rd : state (mx s) = 0 -> thr s !! t = Some (Try rd) -> can_be_taken s.
Proof.
  intros Hz Hp. assert (exists s', exec s t Next = Some (Ret s') /\ thr s' !! t = Some (Hold rd))
    as (s' & E & H).
  { unfold exec. rewrite Hp. cbn [mbind option_bind].
    destruct rd; (eexists; split; [unfold run_section, mutex_read_lock_section, mutex_lock_section,
      bind, get; rewrite Hz; done | by eapply lookup_insert_moved]). }
  eapply can_be_taken_step; [done | rewrite Hp; by intros ? |].
  exists s', t, rd. split; [constructor | done].
Qed.

Lemma progress_sleep s t rd :
  inv s -> state (mx s) = 0 -> woken t (wq (mx s)) -> thr s !! t = Some (Sleep rd) -> can_be_taken s.
Proof.
  intros Hs Hz Hk Hp. destruct (exec_sleep s t Hs rd Hp) as (s' & E & _).
  assert (exec s t Next = Some (Ret s')) as E' by (unfold exec; rewrite Hp; simpl; by rewrite E).
  eapply can_be_taken_step; [done | by intros ? ? |].
  unfold run_section, on_wq, wq_wait_final_helper, bind, get, of_opt in E.
  destruct (slist_remove _ _) as [[]|]; simpl in E; [|done]. simplify_eq.
  eapply progress_try; [done|]. by eapply lookup_insert_moved.
Qed.

(** One turn of the wake loop. *)
Lemma wake_turn s t wt next :
  thr s !! t = Some (Wake wt next) ->
  let '(h, wt', q') := wake_scan wt (wq (mx s)) in
  exec s t Next = Some (Ret (Sys (Mutex q' (state (mx s))) (cvs s)
    (<[t := if wake_again h wt' then Wake wt' next else after_wake next]> (thr s)))).
Proof.
  intros Hp. destruct (wake_scan _ _) as [[h wt'] q'] eqn:E. unfold exec. rewrite Hp. simpl.
  unfold run_section, wake_section, on_wq. by rewrite E.
Qed.

Lemma actives_done l e r : active e = true ->
  actives (l ++ e :: r) = S (actives (l ++ set_done e :: r)).
Proof.
  intros He. unfold actives. rewrite !List.filter_app, !length_app. simpl. rewrite He.
  replace (active (set_done e)) with false; [simpl; lia|].
  unfold active, set_done. simpl. by rewrite orb_true_r.
Qed.

(** A waiter that has been woken stays so through the loop. *)
Lemma woken_scan t wt q h wt' q' : wake_scan wt q = (h, wt', q') -> woken t q -> woken t q'.
Proof.
  intros E (e & He & Ht & Hd). pose proof (wake_scan_spec wt q) as Hsc. rewrite E in Hsc.
  inversion Hsc as [|l x r Hq Ha Hl Hw]; subst; [by exists e|].
  exists e. split; [|done]. apply elem_of_app in He as [He|[->|He]%elem_of_cons]; [set_solver| |set_solver].
  unfold active in Ha. rewrite Hd, orb_true_r in Ha. done.
Qed.

Lemma progress_wake n s t wt rd :
  (actives (wq (mx s)) <= n)%nat -> inv s -> state (mx s) = 0 -> woken t (wq (mx s)) ->
  thr s !! t = Some (Wake wt (Some rd)) -> can_be_taken s.
Proof.
  revert s wt. induction n as [n IH] using lt_wf_ind. intros s wt Hn Hs Hz Hk Hp.
  pose proof (wake_turn s t wt (Some rd) Hp) as E. pose proof (wake_scan_spec wt (wq (mx s))) as Hsc.
  destruct (wake_scan _ _) as [[h wt'] q'] eqn:Eq.
  destruct (exec_inv _ _ _ _ Hs E) as (s' & [= <-] & Hs').
  pose proof (woken_scan _ _ _ _ _ _ Eq Hk) as Hk'.
  eapply can_be_taken_step; [exact E | rewrite Hp; by intros ? | ].
  destruct (wake_again h wt') eqn:Ea.
  - inversion Hsc as [|l e r Hq Ha Hl Hw]; subst; [done|]. rewrite Hq, actives_done in Hn by done.
    eapply (IH (pred n)); [lia | simpl; lia | done | done | done | by eapply lookup_insert_moved].
  - eapply progress_sleep; [done | done | done | by eapply lookup_insert_moved].
Qed.

Lemma progress_done s e :
  inv s -> state (mx s) = 0 -> e ∈ wq (mx s) -> done e = true -> can_be_taken s.
Proof.
  intros Hs Hz He Hd. pose proof Hs as (_ & (_ & H) & _).
  assert (thr s !! handle e ≫= waits = Some (wait_read e)) as Hw.
  { apply H. unfold key. by apply (list_elem_of_fmap_2 (fun e => (handle e, wait_read e))). }
  assert (woken (handle e) (wq (mx s))) as Hk by (by exists e).
  destruct (thr s !! handle e) as [p|] eqn:Hp; [|done].
  destruct p as [| |rd|rd|wt [rd|]]; try done.
  - by eapply progress_sleep.
  - by eapply progress_wake.
Qed.

Lemma progress s :
  inv s -> wake_inv s -> state (mx s) = 0 -> (exists e, e ∈ wq (mx s) /\ active e = true) ->
  can_be_taken s.
Proof.
  intros Hs Hw Hz Ha. destruct (Hw Hz Ha) as [(t & rd & Hp)|[(t & next & Hp)|(e & He & Hd)]].
  - by eapply progress_try.
  - pose proof (wake_turn s t None next Hp) as E. pose proof (wake_scan_spec None (wq (mx s))) as Hsc.
    destruct (wake_scan _ _) as [[h wt'] q'].
    destruct (exec_inv _ _ _ _ Hs E) as (s' & [= <-] & Hs').
    eapply can_be_taken_step; [exact E | rewrite Hp; by intros ? |].
    inversion Hsc as [? Hn|l e r Hq Hae Hl Hwt]; subst.
    + destruct Ha as (x & Hx & Hax). by specialize (Hn x Hx Hax).
    + apply (progress_done _ (set_done e)); [done | done | simpl; set_solver | done].
  - by eapply progress_done.
Qed.

(** ** The wake-up policy of [wq_wake_next()] *)

Definition active_reader (e : wait_queue_elem) : bool := active e && wait_read e.

Definition wake_reader (e : wait_queue_elem) : wait_queue_elem :=
  if active_reader e then set_done e else e.

(** Marks the first active waiter. *)
Fixpoint wake_first (q : wait_queue) : wait_queue :=
  match q with
  | [] => []
  | e :: r => if active e then set_done e :: r else e :: wake_first r
  end.

(** Whom the queue's policy wakes: nobody, one writer, or every waiting reader. *)
Definition wake_policy (q : wait_queue) : list nat * wait_queue :=
  match List.filter active q with
  | [] => ([], q)
  | e :: _ => if wait_read e then (handle <$> List.filter active_reader q, wake_reader <$> q)
              else ([handle e], wake_first q)
  end.

Lemma set_done_not_active e : active (set_done e) = false.
Proof. unfold active, set_done. simpl. by rewrite orb_true_r. Qed.

Lemma no_readers q :
  (forall e, e ∈ q -> active_reader e = false) ->
  List.filter active_reader q = [] /\ wake_reader <$> q = q.
Proof.
  induction q as [|e q IH]; intros H; [done|]. destruct IH as [H1 H2]; [set_solver|].
  rewrite fmap_cons. simpl. unfold wake_reader at 1. rewrite (H e) by set_solver. by rewrite H1, H2.
Qed.

(** The scan for readers leaves the active readers before the one it finds out. *)
Lemma scan_readers (l : wait_queue) (P : wait_queue_elem -> Prop) :
  (forall x, x ∈ l -> active x = true -> Some true = Some (negb (wait_read x)) /\ P x) ->
  forall e, e ∈ l -> active_reader e = false.
Proof.
  intros H e He. unfold active_reader. destruct (active e) eqn:Ea; [|done].
  destruct (H e He Ea) as [[=] _]. by destruct (wait_read e).
Qed.

Lemma wake_loop_readers fuel q :
  (actives q < fuel)%nat ->
  wake_loop fuel (Some true) q = Some (handle <$> List.filter active_reader q, wake_reader <$> q).
Proof.
  revert q. induction fuel as [|fuel IH]; intros q Hf; [lia|]. cbn [wake_loop].
  pose proof (wake_scan_spec (Some true) q) as H.
  inversion H as [wt' Hn E|l e r Hq Ha Hl Hw E]; clear H.
  - destruct (no_readers q) as [-> ->]; [|done].
    apply (scan_readers q (fun _ => True)). intros x Hx Hax. split; [by apply Hn | done].
  - subst q. rewrite actives_done in Hf by done. rewrite (Hw true eq_refl). simpl.
    rewrite IH by lia. cbn [mbind option_bind].
    destruct (no_readers l) as [E1 E2]; [by apply (scan_readers l _ Hl)|].
    rewrite !List.filter_app, !fmap_app, !fmap_cons, E1, E2. simpl.
    unfold wake_reader, active_reader. rewrite Ha, (Hw true eq_refl), set_done_not_active. done.
Qed.

Lemma first_active l e r :
  (forall x, x ∈ l -> active x = false) -> active e = true ->
  List.filter active (l ++ e :: r) = e :: List.filter active r /\
  wake_first (l ++ e :: r) = l ++ set_done e :: r.
Proof.
  intros Hl He. induction l as [|x l IH]; simpl; [by rewrite He|].
  rewrite (Hl x) by set_solver. destruct IH as [-> ->]; [set_solver | done].
Qed.

Lemma no_active q : (forall e, e ∈ q -> active e = false) -> List.filter active q = [].
Proof.
  induction q as [|e q IH]; intros H; simpl; [done|]. rewrite (H e) by set_solver. apply IH. set_solver.
Qed.

(** [wq_wake_next()] run to its end wakes whom its comment says: the first waiter that is not
    already woken and not waiting on a condition variable when that is a writer, and every such
    reader of the queue, in queue order, when it is a reader; nobody when there is none. Its loop
    ends within one more turn than the queue has elements. *)
Theorem wq_wake_next_policy (q : wait_queue) : wq_wake_next q = Some (wake_policy q).
Proof.
  unfold wq_wake_next, wake_policy. cbn [wake_loop]. pose proof (wake_scan_spec None q) as H.
  inversion H as [wt' Hn E|l e r Hq Ha Hl Hw E]; clear H.
  - rewrite no_active; [done|]. intros e He. destruct (active e) eqn:Ea; [|done].
    by specialize (Hn e He Ea).
  - assert (forall x, x ∈ l -> active x = false) as Hi.
    { intros x Hx. destruct (active x) eqn:Ea; [|done]. by destruct (Hl x Hx Ea). }
    destruct (first_active l e r Hi Ha) as [E1 E2]. subst q. rewrite E1, E2.
    destruct (wait_read e) eqn:Er; simpl; [|done].
    rewrite wake_loop_readers; cbn [mbind option_bind].
    + destruct (no_readers l) as [F1 F2]; [intros x Hx; unfold active_reader; by rewrite Hi|].
      rewrite !List.filter_app, !fmap_app, !fmap_cons, F1, F2. simpl.
      unfold wake_reader, active_reader. rewrite Ha, Er, set_done_not_active. done.
    + pose proof (List.filter_length_le active (l ++ e :: r)). pose proof (actives_done l e r Ha).
      unfold actives in *. lia.
Qed.

(** ** The theorems *)

Lemma writer_excludes s t u p :
  inv s -> thr s !! t = Some (Hold false) -> thr s !! u = Some p -> u <> t -> holds_lock p = false.
Proof.
  intros Hs Ht Hu Hne. destruct (inv_writer _ _ Hs Ht) as (_ & Hw & Hr).
  destruct p as [| | |rd|]; try done. exfalso.
  assert (<[t := Idle]> (thr s) !! u = Some (Hold rd)) as Hu' by (by rewrite list_lookup_insert_ne).
  destruct rd; [pose proof (count_pc_pos reader _ _ _ Hu' eq_refl) as H
               |pose proof (count_pc_pos writer _ _ _ Hu' eq_refl) as H];
    rewrite (count_pc_insert _ _ _ _ _ Ht) in H; simpl in H; lia.
Qed.

Lemma destroy_idle s : inv s -> Forall (eq Idle) (thr s) -> mutex_destroy (mx s) = (Ret tt, mx s).
Proof.
  intros (Hl & (_ & Hq) & _) Hi.
  pose proof (replicate_as_Forall_2 Idle _ _ eq_refl Hi) as Er.
  assert (state (mx s) = 0) as Hz.
  { unfold lock_inv in Hl. rewrite <- Er, !count_pc_replicate in Hl by done. lia. }
  assert (wq (mx s) = []) as Hw.
  { destruct (wq (mx s)) as [|e q]; [done|].
    assert (thr s !! handle e ≫= waits = Some (wait_read e)) as H by (apply Hq; set_solver).
    destruct (thr s !! handle e) as [p|] eqn:E; [|done].
    by rewrite <- (proj1 (Forall_lookup _ _) Hi _ _ E) in H. }
  unfold mutex_destroy, bind, get. by rewrite Hz, Hw.
Qed.

(** C12. Mutual exclusion. In every state that any interleaving of the threads reaches (fewer than
    2^15 of them, the range of [short state]), a thread that holds the mutex for writing is the
    only holder and the state is -1; while some thread holds it for reading the state is the number
    of readers. Whatever call a thread can make there returns: unlocking never finds the mutex in a
    state that makes it panic, and a thread that stops waiting finds its element on the queue. Once
    every thread is done with the mutex it can be destroyed. *)
Theorem mutex_exclusion (disc : bool) (n : nat) (s : sys) :
  Z.of_nat n < 2 ^ 15 -> reachable disc n s ->
  (forall t, thr s !! t = Some (Hold false) ->
     state (mx s) = -1 /\
     forall u p, thr s !! u = Some p -> u <> t -> holds_lock p = false) /\
  (forall t, thr s !! t = Some (Hold true) -> state (mx s) = count_pc reader (thr s)) /\
  (forall t a o, exec s t a = Some o -> exists s', o = Ret s') /\
  (Forall (eq Idle) (thr s) -> mutex_destroy (mx s) = (Ret tt, mx s)).
Proof.
  intros Hn Hr. pose proof (reachable_inv _ _ _ Hn Hr) as Hs. split_and!.
  - intros t Ht. split; [by apply (inv_writer s t) | intros; by eapply writer_excludes].
  - intros t Ht. by apply (inv_reader s t).
  - intros t a o E. destruct (exec_inv _ _ _ _ Hs E) as (s' & -> & _). eauto.
  - by apply destroy_idle.
Qed.

(** Thread 0 has the mutex, thread 1 sleeps waiting to write, thread 2 is about to read. *)
Definition contended : list (nat * act) :=
  [(0%nat, Lock false); (0%nat, Next); (1%nat, Lock false); (1%nat, Next); (2%nat, Lock true)].

Lemma mutex_exclusion_witness :
  exists s, exec_all true (sys_init 3) contended = Some s /\
    thr s !! 0%nat = Some (Hold false) /\ state (mx s) = -1.
Proof.
  eexists. split; [vm_compute; reflexivity|]. split; [reflexivity|].
  refine (proj1 (proj1 (mutex_exclusion true 3 _ _ _) 0%nat _)); [vm_compute; reflexivity | | reflexivity].
  eapply (reachable_exec_all true 3 _ contended); [constructor | vm_compute; reflexivity].
Defined.

(** C18. No wakeup is lost. When the callers signal condition variables with the mutex held, then
    in every reachable state in which the mutex is free while a thread waits for it, somebody is on
    the way to it: a thread about to try, one that has yet to scan the queue after unlocking, or a
    waiter already woken; and from there the mutex is taken in some run that relies on no spurious
    or timed-out wait. *)
Theorem mutex_no_lost_wakeup (n : nat) (s : sys) :
  Z.of_nat n < 2 ^ 15 -> reachable true n s ->
  state (mx s) = 0 -> (exists e, e ∈ wq (mx s) /\ active e = true) ->
  pending s /\ can_be_taken s.
Proof.
  intros Hn Hr Hz Ha. pose proof (reachable_inv _ _ _ Hn Hr) as Hs.
  pose proof (reachable_wake_inv _ _ Hn Hr) as Hw. split; [by apply Hw | by apply progress].
Qed.

Lemma mutex_no_lost_wakeup_witness :
  exists s, exec_all true (sys_init 3) (contended ++ [(0%nat, Unlock)]) = Some s /\ can_be_taken s.
Proof.
  eexists. split; [vm_compute; reflexivity|].
  refine (proj2 (mutex_no_lost_wakeup 3 _ _ _ _ _)); [vm_compute; reflexivity | | reflexivity |].
  - eapply (reachable_exec_all true 3 _ (contended ++ [(0%nat, Unlock)])); [constructor | vm_compute; reflexivity].
  - exists (Wqe 1 false false None). split; [apply elem_of_cons; by left | reflexivity].
Defined.

(** The discipline matters: a signal sent without the mutex can leave a waiter that nobody is going
    to wake, with the mutex free and every other thread done. *)
Example signal_without_mutex :
  exists s, exec_all false (sys_init 2)
      [(0%nat, Lock false); (0%nat, Next); (0%nat, CvWait 7); (0%nat, Next); (1%nat, CvSignal 7 true)] = Some s /\
    state (mx s) = 0 /\ thr s = [Sleep false; Idle] /\ active <$> wq (mx s) = [true] /\ ~ pending s.
Proof.
  eexists. split; [vm_compute; reflexivity|]. split; [done|]. split; [done|]. split; [done|].
  intros [(t & rd & H)|[(t & nx & H)|(e & He & Hd)]].
  - by destruct t as [|[|[]]].
  - by destruct t as [|[|[]]].
  - by apply list_elem_of_singleton in He as ->.
Qed.
