(* ===== verification/RecMutex.v ===== *)
(** * Recursive mutexes and reference counters of the OP-TEE core

    [core/kernel/refcount.c] and the recursive mutexes of [core/kernel/mutex.c]. A recursive mutex
    adds an owner and a depth to a plain mutex; these are read and written outside any spin lock, so
    every access to them is a step of its own, interleaved with the steps of the other threads and
    with those of the plain mutex ([Mutex.exec]). *)
From stdpp Require Import gmap.
From S2P Require Import Prelude Mutex.
#[local] Open Scope Z_scope.

(** ** Reference counters (refcount.c) *)

(** The loop around [atomic_cas_uint()]: [env] lists the values other threads leave in [r->val]
    before each of the next attempts; afterwards the thread is undisturbed. *)
Fixpoint inc_loop (env : list Z) (oval : Z) : M Z bool :=
  if oval =? 0 then ret false
  else
    match env with
    | [] =>
        let! v := get in
        if v =? oval then do! put (u32 (oval + 1)) in ret true
        else if v =? 0 then ret false
        else do! put (u32 (v + 1)) in ret true
    | e :: env' =>
        do! put e in
        if e =? oval then do! put (u32 (oval + 1)) in ret true
        else inc_loop env' e
    end.

Definition refcount_inc (env : list Z) : M Z bool :=
  let! oval := get in
  inc_loop env oval.

Fixpoint dec_loop (env : list Z) (oval : Z) : M Z bool :=
  do! assert_ (negb (oval =? 0)) in
  match env with
  | [] =>
      let! v := get in
      if v =? oval then do! put (u32 (oval - 1)) in ret (u32 (oval - 1) =? 0)
      else
        do! assert_ (negb (v =? 0)) in
        do! put (u32 (v - 1)) in ret (u32 (v - 1) =? 0)
  | e :: env' =>
      do! put e in
      if e =? oval then do! put (u32 (oval - 1)) in ret (u32 (oval - 1) =? 0)
      else dec_loop env' e
  end.

Definition refcount_dec (env : list Z) : M Z bool :=
  let! oval := get in
  dec_loop env oval.

Definition refcount_set (v : Z) : M Z unit := put v.
Definition refcount_val : M Z Z := get.

(** Whatever the interference, an increment takes a value the counter had to that value plus one,
    and leaves it when that value was 0; a decrement takes it to that value minus one and tells
    whether that is 0, and its assertion fails when that value was 0. *)
Lemma inc_loop_spec env oval :
  exists v, v ∈ oval :: env /\
    inc_loop env oval oval = (Ret (negb (v =? 0)), if v =? 0 then 0 else u32 (v + 1)).
Proof.
  revert oval. induction env as [|e env IH]; intros oval; cbn [inc_loop];
    (destruct (oval =? 0) eqn:E; bool_hyps; [exists oval; subst; split; [by left | done]|]).
  - exists oval. split; [by left|]. unfold bind, get. rewrite Z.eqb_refl, (proj2 (Z.eqb_neq _ _)) by done. done.
  - unfold bind at 1, put at 1. destruct (e =? oval) eqn:E1; bool_hyps.
    + subst e. exists oval. split; [by left|]. by rewrite (proj2 (Z.eqb_neq _ _)) by done.
    + destruct (IH e) as (v & Hv & Ev). exists v. split; [by right | exact Ev].
Qed.

Lemma dec_loop_spec env oval :
  exists v, v ∈ oval :: env /\
    (if v =? 0 then fst (dec_loop env oval oval) = Panic
     else dec_loop env oval oval = (Ret (u32 (v - 1) =? 0), u32 (v - 1))).
Proof.
  revert oval. induction env as [|e env IH]; intros oval; cbn [dec_loop];
    (destruct (oval =? 0) eqn:E; bool_hyps; [exists oval; subst; split; [by left | done]|]).
  - exists oval. split; [by left|]. rewrite (proj2 (Z.eqb_neq oval 0)) by done. unfold assert_, bind, get, ret. simpl.
    rewrite Z.eqb_refl. done.
  - unfold assert_. cbn [negb]. unfold bind at 1, ret at 1. unfold bind at 1, put at 1.
    destruct (e =? oval) eqn:E1; bool_hyps.
    + subst e. exists oval. split; [by left|]. by rewrite (proj2 (Z.eqb_neq _ _)) by done.
    + destruct (IH e) as (v & Hv & Ev). exists v. split; [by right | exact Ev].
Qed.

Lemma refcount_inc_alone v : 0 < v -> refcount_inc [] v = (Ret true, u32 (v + 1)).
Proof.
  intros Hv. unfold refcount_inc, bind, get. cbn [inc_loop]. rewrite (proj2 (Z.eqb_neq v 0)) by lia.
  unfold bind, get. by rewrite Z.eqb_refl.
Qed.

Lemma refcount_dec_alone v : 0 < v < 2 ^ 32 -> refcount_dec [] v = (Ret (v =? 1), v - 1).
Proof.
  intros Hv. unfold refcount_dec. unfold bind at 1, get at 1. cbn [dec_loop].
  rewrite (proj2 (Z.eqb_neq v 0)) by lia. unfold assert_. cbn [negb]. unfold bind, get, ret, put.
  rewrite Z.eqb_refl. rewrite uwrap_small by (unfold is_u; lia).
  replace (v - 1 =? 0) with (v =? 1); [done|]. destruct (v =? 1) eqn:E; bool_hyps; lia.
Qed.

(** ** Recursive mutexes (mutex.c) *)

Definition THREAD_ID_INVALID : Z := -1.

(** Where a thread is. [RHold k] holds the mutex [k] deep; the states before and after it are the
    steps of [__mutex_lock_recursive()] after [__mutex_lock()] has returned and of
    [__mutex_unlock_recursive()] before and after [__mutex_unlock()] is called. *)
Inductive rpc :=
| RIdle
| RLocking
| RGot
| RSet
| RHold (k : Z)
| RDrop
| RRel
| RUnlocking.

(** [struct recursive_mutex] with the threads that use it; [inner] is [m->m]. *)
Record rsys := RSys { inner : sys; owner : Z; lock_depth : Z; rthr : list rpc }.

Definition rsys_init (n : nat) : rsys := RSys (sys_init n) THREAD_ID_INVALID 0 (replicate n RIdle).

Inductive ract := RLock | RUnlock | RNext.

Definition depth_of (p : rpc) : Z := match p with RHold k => k | _ => 0 end.

(** A step of the plain mutex by thread [t], which ends in [k] of its program counter there. *)
Definition inner_step (s : rsys) (t : nat) (a : act) (k : pc -> rpc) : option (outcome rsys) :=
  o ← exec (inner s) t a;
  match o with
  | Ret i => q ← thr i !! t; Some (Ret (RSys i (owner s) (lock_depth s) (<[t := k q]> (rthr s))))
  | Err e => Some (Err e)
  | Panic => Some Panic
  | Undef u => Some (Undef u)
  end.

Definition move (s : rsys) (t : nat) (o d : Z) (p : rpc) : option (outcome rsys) :=
  Some (Ret (RSys (inner s) o d (<[t := p]> (rthr s)))).

(** [__mutex_lock_recursive()], from the point the thread is at. *)
Definition mutex_lock_recursive (s : rsys) (t : nat) (p : rpc) : option (outcome rsys) :=
  let ct := Z.of_nat t in
  match p with
  | RIdle | RHold _ =>
      if owner s =? ct then
        match refcount_inc [] (lock_depth s) with
        | (Ret true, d) => move s t (owner s) d (RHold (depth_of p + 1))
        | _ => Some Panic
        end
      else inner_step s t (Lock false) (fun _ => RLocking)
  | RLocking => inner_step s t Next (fun q => match q with Hold _ => RGot | _ => RLocking end)
  | RGot => if owner s =? THREAD_ID_INVALID then move s t ct (lock_depth s) RSet else Some Panic
  | RSet => move s t (owner s) 1 (RHold 1)
  | _ => None
  end.

(** [__mutex_unlock_recursive()], from the point the thread is at. *)
Definition mutex_unlock_recursive (s : rsys) (t : nat) (p : rpc) : option (outcome rsys) :=
  match p with
  | RHold k =>
      if owner s =? Z.of_nat t then
        match refcount_dec [] (lock_depth s) with
        | (Ret true, d) => move s t (owner s) d RDrop
        | (Ret false, d) => move s t (owner s) d (RHold (k - 1))
        | _ => Some Panic
        end
      else Some Panic
  | RDrop => move s t THREAD_ID_INVALID (lock_depth s) RRel
  | RRel => inner_step s t Unlock (fun _ => RUnlocking)
  | RUnlocking => inner_step s t Next (fun q => match q with Idle => RIdle | _ => RUnlocking end)
  | _ => None
  end.

(** A step of thread [t]: a call, or the next step of the call in progress. *)
Definition rexec (s : rsys) (t : nat) (a : ract) : option (outcome rsys) :=
  p ← rthr s !! t;
  match p, a with
  | (RIdle | RHold _), RLock => mutex_lock_recursive s t p
  | (RLocking | RGot | RSet), RNext => mutex_lock_recursive s t p
  | RHold _, RUnlock => mutex_unlock_recursive s t p
  | (RDrop | RRel | RUnlocking), RNext => mutex_unlock_recursive s t p
  | _, _ => None
  end.

Definition mutex_get_recursive_lock_depth (s : rsys) (t : nat) : outcome Z :=
  if owner s =? Z.of_nat t then Ret (lock_depth s) else Panic.

Definition mutex_destroy_recursive (s : rsys) : outcome unit := fst (mutex_destroy (mx (inner s))).

(** The nesting is less than 2^32 - 1 deep. *)
Definition rop_ok (s : rsys) (t : nat) (a : ract) : bool :=
  match rthr s !! t, a with
  | Some (RHold k), RLock => k <? 2 ^ 32 - 1
  | _, _ => true
  end.

Inductive rreachable (n : nat) : rsys -> Prop :=
| rreach_init : rreachable n (rsys_init n)
| rreach_step s t a s' :
    rreachable n s -> rop_ok s t a = true -> rexec s t a = Some (Ret s') -> rreachable n s'.

(** ** The invariant *)

(** The thread is between the return of [__mutex_lock()] and the call of [__mutex_unlock()]. *)
Definition in_cs (p : rpc) : bool :=
  match p with RGot | RSet | RHold _ | RDrop | RRel => true | _ => false end.

(** Where the thread is in the plain mutex. *)
Definition agree (p : rpc) (q : pc) : Prop :=
  match p with
  | RIdle => q = Idle
  | RLocking => q = Try false \/ q = Sleep false
  | RUnlocking => exists wt, q = Wake wt None
  | _ => q = Hold false
  end.

(** What the thread knows of the owner and the depth. *)
Definition own_ok (t : nat) (p : rpc) (o d : Z) : Prop :=
  match p with
  | RGot | RRel => o = THREAD_ID_INVALID
  | RSet => o = Z.of_nat t
  | RHold k => o = Z.of_nat t /\ d = k /\ 1 <= k < 2 ^ 32
  | RDrop => o = Z.of_nat t /\ d = 0
  | _ => o <> Z.of_nat t
  end.

Record rinv (s : rsys) : Prop := {
  r_inner : inv (inner s);
  r_length : length (rthr s) = length (thr (inner s));
  r_thread t p : rthr s !! t = Some p ->
    exists q, thr (inner s) !! t = Some q /\ agree p q /\ own_ok t p (owner s) (lock_depth s);
  r_owner : owner s <> THREAD_ID_INVALID ->
    exists t p, owner s = Z.of_nat t /\ rthr s !! t = Some p /\ in_cs p = true;
}.

Lemma agree_cs p q : agree p q -> in_cs p = true -> q = Hold false.
Proof. by destruct p. Qed.

Lemma cs_exclusive s t u p p' :
  rinv s -> rthr s !! t = Some p -> in_cs p = true -> rthr s !! u = Some p' -> u <> t -> in_cs p' = false.
Proof.
  intros Hs Hp Hc Hu Hne. destruct (r_thread s Hs t p Hp) as (q & Hq & Ha & _).
  destruct (r_thread s Hs u p' Hu) as (q' & Hq' & Ha' & _).
  rewrite (agree_cs _ _ Ha Hc) in Hq.
  pose proof (writer_excludes _ _ _ _ (r_inner s Hs) Hq Hq' Hne) as Hx.
  destruct (in_cs p') eqn:E; [|done]. by rewrite (agree_cs _ _ Ha' E) in Hx.
Qed.

(** A thread outside only knows that it is not the owner. *)
Lemma own_ok_outside t p o d o' d' :
  in_cs p = false -> own_ok t p o d -> o' <> Z.of_nat t -> own_ok t p o' d'.
Proof. by destruct p. Qed.

(** A step of the thread that has the plain mutex, on the owner and the depth. *)
Lemma rinv_move s t p p' o' d' :
  rinv s -> rthr s !! t = Some p -> in_cs p = true -> in_cs p' = true ->
  own_ok t p' o' d' -> o' = THREAD_ID_INVALID \/ o' = Z.of_nat t ->
  rinv (RSys (inner s) o' d' (<[t := p']> (rthr s))).
Proof.
  intros Hs Hp Hc Hc' Hok Ho. pose proof Hs as [H1 H2 H3 H4].
  assert (t < length (rthr s))%nat as Hlt by (by eapply lookup_lt_Some).
  split; cbn [inner owner lock_depth rthr]; [done | by rewrite length_insert | |].
  - intros u x Hu. destruct (decide (u = t)) as [->|Hne].
    + rewrite list_lookup_insert_eq in Hu by done. injection Hu as <-.
      destruct (H3 t p Hp) as (q & Hq & Ha & _). exists q. split; [done|]. split; [|done].
      rewrite (agree_cs _ _ Ha Hc). by destruct p'.
    + rewrite list_lookup_insert_ne in Hu by done. destruct (H3 u x Hu) as (q & Hq & Ha & Hx).
      exists q. split; [done|]. split; [done|].
      eapply own_ok_outside; [exact (cs_exclusive s t u p x Hs Hp Hc Hu Hne) | exact Hx |].
      unfold THREAD_ID_INVALID in Ho. lia.
  - intros Hno. destruct Ho as [Ho|Ho]; [done|]. exists t, p'. split; [done|].
    by rewrite list_lookup_insert_eq.
Qed.

(** A step of the plain mutex. *)
Lemma rinv_inner s t a p p' q' i :
  rinv s -> rthr s !! t = Some p -> exec (inner s) t a = Some (Ret i) ->
  thr i = <[t := q']> (thr (inner s)) -> agree p' q' -> own_ok t p' (owner s) (lock_depth s) ->
  in_cs p = false \/ owner s = THREAD_ID_INVALID ->
  rinv (RSys i (owner s) (lock_depth s) (<[t := p']> (rthr s))).
Proof.
  intros Hs Hp He Hi Ha Hok Hc. pose proof Hs as [H1 H2 H3 H4].
  assert (t < length (rthr s))%nat as Hlt by (by eapply lookup_lt_Some).
  split; cbn [inner owner lock_depth rthr].
  - by destruct (exec_inv _ _ _ _ H1 He) as (? & [= <-] & ?).
  - by rewrite Hi, !length_insert.
  - intros u x Hu. rewrite Hi. destruct (decide (u = t)) as [->|Hne].
    + rewrite list_lookup_insert_eq in Hu by done. injection Hu as <-. exists q'.
      split; [|done]. apply list_lookup_insert_eq. by rewrite <- H2.
    + rewrite list_lookup_insert_ne in Hu by done. rewrite list_lookup_insert_ne by done. by apply H3.
  - intros Hno. destruct (H4 Hno) as (u & x & Eu & Hu & Hx). exists u, x. split; [done|]. split; [|done].
    rewrite list_lookup_insert_ne; [done|]. intros <-. rewrite Hp in Hu. injection Hu as <-.
    destruct Hc; congruence.
Qed.

(** Where the steps of the plain mutex lead. *)
Lemma run_section_Ret {A} (m : M mutex A) k t s s' :
  run_section m k t s = Ret s' -> exists a, thr s' = <[t := k a]> (thr s).
Proof. unfold run_section. destruct (m (mx s)) as [[a| | |] m']; intros; simplify_eq. by exists a. Qed.

Lemma exec_moves s t q a s' :
  thr s !! t = Some q -> exec s t a = Some (Ret s') ->
  exists q', thr s' = <[t := q']> (thr s) /\
    match q, a with
    | Idle, Lock rd => q' = Try rd
    | Try false, Next => q' = Hold false \/ q' = Sleep false
    | Sleep rd, Next => q' = Try rd
    | Hold false, Unlock => q' = Wake None None
    | Wake _ None, Next => q' = Idle \/ exists wt, q' = Wake wt None
    | _, _ => True
    end.
Proof.
  intros Hq E. unfold exec in E. rewrite Hq in E. cbn [mbind option_bind] in E.
  destruct q as [|[]|rd|[]|wt next], a as [rd'|[]| |c|c o|]; simplify_eq;
    try (apply run_section_Ret in E as [x ->]); try (by eexists; split; [done|]).
  - exists (if x then Hold false else Sleep false). split; [done|]. destruct x; auto.
  - destruct x as [h wt']. eexists. split; [done|]. destruct next; [done|].
    destruct (wake_again h wt'); [right; eauto | by left].
Qed.

Lemma inner_step_inv s t a k p q o :
  rinv s -> rthr s !! t = Some p -> thr (inner s) !! t = Some q ->
  in_cs p = false \/ owner s = THREAD_ID_INVALID ->
  (forall q' i, exec (inner s) t a = Some (Ret i) -> thr i = <[t := q']> (thr (inner s)) ->
     match q, a with
     | Idle, Lock rd => q' = Try rd
     | Try false, Next => q' = Hold false \/ q' = Sleep false
     | Sleep rd, Next => q' = Try rd
     | Hold false, Unlock => q' = Wake None None
     | Wake _ None, Next => q' = Idle \/ exists wt, q' = Wake wt None
     | _, _ => True
     end -> agree (k q') q' /\ own_ok t (k q') (owner s) (lock_depth s)) ->
  inner_step s t a k = Some o -> exists s', o = Ret s' /\ rinv s'.
Proof.
  intros Hs Hp Hq Hc Hk E. unfold inner_step in E.
  destruct (exec (inner s) t a) as [r|] eqn:Er; [|done]. cbn [mbind option_bind] in E.
  destruct (exec_inv _ _ _ _ (r_inner s Hs) Er) as (i & -> & _).
  destruct (exec_moves _ _ _ _ _ Hq Er) as (q' & Hi & Hm).
  rewrite Hi, (lookup_insert_moved _ _ _ _ Hq) in E. simplify_eq/=.
  eexists. split; [done|]. destruct (Hk q' i eq_refl Hi Hm) as [Ha Ho].
  by eapply rinv_inner.
Qed.

(** The owner locking again and unlocking. *)
Lemma hold_lock s t k : rinv s -> rthr s !! t = Some (RHold k) -> k < 2 ^ 32 - 1 ->
  exists s', rexec s t RLock = Some (Ret s') /\ rinv s' /\ rthr s' !! t = Some (RHold (k + 1)).
Proof.
  intros Hs Hp Hk. destruct (r_thread s Hs t _ Hp) as (q & _ & _ & Ho & Hd & H1 & H2).
  unfold rexec. rewrite Hp. cbn [mbind option_bind mutex_lock_recursive mutex_unlock_recursive]. rewrite Ho, Z.eqb_refl, Hd.
  rewrite refcount_inc_alone by lia. rewrite uwrap_small by (unfold is_u; lia).
  eexists. split; [done|]. split; [|cbn [rthr]; apply list_lookup_insert_eq; by eapply lookup_lt_Some].
  eapply rinv_move; [done | done | done | done | | by right]. split; [done|]. simpl. lia.
Qed.

Lemma hold_unlock s t k : rinv s -> rthr s !! t = Some (RHold k) ->
  exists s', rexec s t RUnlock = Some (Ret s') /\ rinv s' /\
    rthr s' !! t = Some (if k =? 1 then RDrop else RHold (k - 1)).
Proof.
  intros Hs Hp. destruct (r_thread s Hs t _ Hp) as (q & _ & _ & Ho & Hd & H1 & H2).
  unfold rexec. rewrite Hp. cbn [mbind option_bind mutex_lock_recursive mutex_unlock_recursive]. rewrite Ho, Z.eqb_refl, Hd.
  rewrite refcount_dec_alone by lia.
  destruct (k =? 1) eqn:E; bool_hyps;
    (eexists; split; [done|]; split; [|cbn [rthr]; apply list_lookup_insert_eq; by eapply lookup_lt_Some];
     eapply rinv_move; [done | done | done | done | | by right]); split; simpl; lia.
Qed.

(** Whoever gets the plain mutex finds no owner. *)
Lemma got_no_owner s t p q a i :
  rinv s -> rthr s !! t = Some p -> in_cs p = false -> thr (inner s) !! t = Some q ->
  exec (inner s) t a = Some (Ret i) -> thr i = <[t := Hold false]> (thr (inner s)) ->
  owner s = THREAD_ID_INVALID.
Proof.
  intros Hs Hp Hc Hq E Hi. destruct (decide (owner s = THREAD_ID_INVALID)) as [|Hno]; [done|]. exfalso.
  destruct (r_owner s Hs Hno) as (u & x & _ & Hu & Hx).
  destruct (exec_inv _ _ _ _ (r_inner s Hs) E) as (? & [= <-] & Hinv).
  destruct (r_thread s Hs u x Hu) as (q' & Hq' & Ha & _). rewrite (agree_cs _ _ Ha Hx) in Hq'.
  assert (u <> t) as Hne by (intros ->; congruence).
  assert (thr i !! t = Some (Hold false)) as H1 by (rewrite Hi; by eapply lookup_insert_moved).
  assert (thr i !! u = Some (Hold false)) as H2 by (by rewrite Hi, list_lookup_insert_ne).
  by pose proof (writer_excludes _ _ _ _ Hinv H1 H2 Hne).
Qed.

(** Every step a thread can take returns normally and preserves the invariant. *)
Lemma rexec_inv s t a o : rinv s -> rop_ok s t a = true -> rexec s t a = Some o -> exists s', o = Ret s' /\ rinv s'.
Proof.
  intros Hs Hok E. pose proof E as E0. unfold rexec in E. destruct (rthr s !! t) as [p|] eqn:Hp; [|done].
  cbn [mbind option_bind] in E. destruct (r_thread s Hs t p Hp) as (q & Hq & Ha & Ho).
  destruct p as [| | | |k| | |], a; try done; simpl in Ha, Ho;
    cbn [mutex_lock_recursive mutex_unlock_recursive] in E.
  - rewrite (proj2 (Z.eqb_neq _ _)) in E by done. subst q.
    eapply inner_step_inv; [done | done | done | by left | | exact E].
    intros q' i _ _ ->. simpl. auto.
  - eapply inner_step_inv; [done | done | done | by left | | exact E].
    intros q' i He Hi Hm. destruct Ha as [-> | ->]; [destruct Hm as [-> | ->] | subst q']; simpl; auto.
    split; [done|]. by eapply (got_no_owner s t RLocking).
  - rewrite Ho, Z.eqb_refl in E. injection E as <-. eexists. split; [done|].
    eapply rinv_move; [done | done | done | done | done | by right].
  - injection E as <-. eexists. split; [done|]. rewrite Ho.
    eapply rinv_move; [done | done | done | done | simpl; lia | by right].
  - destruct (hold_lock s t k Hs Hp) as (s' & E1 & Hs' & _); [unfold rop_ok in Hok; rewrite Hp in Hok; lia|]. simplify_eq. eauto.
  - destruct (hold_unlock s t k Hs Hp) as (s' & E1 & Hs' & _). simplify_eq. eauto.
  - injection E as <-. eexists. split; [done|].
    eapply rinv_move; [done | done | done | done | done | by left].
  - subst q. eapply inner_step_inv; [done | done | done | by right | | exact E].
    intros q' i _ _ ->. simpl. split; [by eexists|]. rewrite Ho. unfold THREAD_ID_INVALID. lia.
  - destruct Ha as [wt ->]. eapply inner_step_inv; [done | done | done | by left | | exact E].
    intros q' i _ _ [-> | [wt' ->]]; simpl; eauto.
Qed.

Lemma rinv_init n : Z.of_nat n < 2 ^ 15 -> rinv (rsys_init n).
Proof.
  intros Hn. split; cbn [inner owner lock_depth rthr rsys_init].
  - by apply inv_init.
  - simpl. by rewrite !length_replicate.
  - intros t p Hp. apply lookup_replicate in Hp as [-> Ht]. exists Idle.
    split; [by apply lookup_replicate|]. split; [done|]. unfold own_ok, THREAD_ID_INVALID. lia.
  - done.
Qed.

Lemma rreachable_rinv n s : Z.of_nat n < 2 ^ 15 -> rreachable n s -> rinv s.
Proof.
  intros Hn. induction 1 as [|s t a s' _ IH Hok E]; [by apply rinv_init|].
  by destruct (rexec_inv _ _ _ _ IH Hok E) as (? & [= <-] & ?).
Qed.

(** C37. Recursive mutexes. In every interleaving of the threads, with the owner and the depth read
    and written step by step outside the spin lock: a thread that holds the mutex is its owner, no
    other thread is between its [__mutex_lock()] and [__mutex_unlock()], and
    [mutex_get_recursive_lock_depth()] is the number of its locks that are not unlocked; it can lock
    again and unlock, one level at a time, the last unlock giving up the mutex; and no assertion of
    the code fails and nothing panics. The nesting stays below 2^32 - 1, where the counter would
    wrap. *)
Theorem recursive_mutex_nesting (n : nat) (s : rsys) :
  Z.of_nat n < 2 ^ 15 -> rreachable n s ->
  (forall t k, rthr s !! t = Some (RHold k) ->
     owner s = Z.of_nat t /\ mutex_get_recursive_lock_depth s t = Ret k /\
     (forall u p, rthr s !! u = Some p -> u <> t -> in_cs p = false) /\
     (k < 2 ^ 32 - 1 -> exists s', rexec s t RLock = Some (Ret s') /\ rthr s' !! t = Some (RHold (k + 1))) /\
     (exists s', rexec s t RUnlock = Some (Ret s') /\
        rthr s' !! t = Some (if k =? 1 then RDrop else RHold (k - 1)))) /\
  (forall t a o, rop_ok s t a = true -> rexec s t a = Some o -> exists s', o = Ret s').
Proof.
  intros Hn Hr. pose proof (rreachable_rinv n s Hn Hr) as Hs. split.
  - intros t k Hp. destruct (r_thread s Hs t _ Hp) as (q & _ & _ & Ho & Hd & _).
    split; [done|]. split; [unfold mutex_get_recursive_lock_depth; rewrite Ho, Z.eqb_refl; by rewrite Hd|].
    split; [intros u p Hu Hne; by eapply (cs_exclusive s t u (RHold k))|]. split.
    + intros Hk. destruct (hold_lock s t k Hs Hp Hk) as (s' & E & _ & H). eauto.
    + destruct (hold_unlock s t k Hs Hp) as (s' & E & _ & H). eauto.
  - intros t a o Hok E. destruct (rexec_inv s t a o Hs Hok E) as (s' & -> & _). eauto.
Qed.

(** A run by a list of steps. *)
Fixpoint rexec_all (s : rsys) (l : list (nat * ract)) : option rsys :=
  match l with
  | [] => Some s
  | (t, a) :: r =>
      if rop_ok s t a then match rexec s t a with Some (Ret s') => rexec_all s' r | _ => None end
      else None
  end.

Lemma rreachable_all n s l s' : rreachable n s -> rexec_all s l = Some s' -> rreachable n s'.
Proof.
  revert s. induction l as [|[t a] l IH]; intros s Hr H; simplify_eq/=; [done|].
  destruct (rop_ok s t a) eqn:Ed; [|done].
  destruct (rexec s t a) as [[s1| | |]|] eqn:E; try done. eapply IH; [|done]. by eapply rreach_step.
Qed.

(** Thread 0 locks twice while thread 1 waits. *)
Definition nested : list (nat * ract) :=
  [(0%nat, RLock); (0%nat, RNext); (1%nat, RLock); (0%nat, RNext); (0%nat, RNext); (1%nat, RNext); (0%nat, RLock)].

Lemma recursive_mutex_nesting_witness :
  exists s, rexec_all (rsys_init 2) nested = Some s /\ mutex_get_recursive_lock_depth s 0 = Ret 2.
Proof.
  eexists. split; [vm_compute; reflexivity|].
  refine (proj1 (proj2 (proj1 (recursive_mutex_nesting 2 _ _ _) 0%nat 2 _))); [reflexivity | | reflexivity].
  refine (rreachable_all 2 _ nested _ (rreach_init 2) _). vm_compute; reflexivity.
Defined.
