(* ===== verification/Lockdep.v ===== *)
(** * Lock dependency checker

    optee_os/core/kernel/lockdep.c with include/kernel/lockdep.h, and its use for mutexes in
    core/kernel/mutex_lockdep.c. Nodes of the lock graph are heap objects, [nodes] maps the live
    addresses to them and [graph] is the TAILQ of their addresses; edges and owned locks hold
    addresses, and following one that was freed is [Undef UseAfterFree]. [queues] has the initialised
    queues of owned locks by the address of their head, which is also the thread id. Each [calloc]
    and [malloc] takes its outcome from [allocs]; when the list is used up they succeed. *)
From stdpp Require Import gmap relations.
From S2P Require Import Prelude.
Local Open Scope Z_scope.

Abbreviation addr := nat.

(** A call stack, up to its terminating zero; [None] is NULL. *)
Abbreviation stack := (option (list Z)).

Definition LOCKDEP_NODE_TEMP_MARK : Z := 2 ^ 0.
Definition LOCKDEP_NODE_PERM_MARK : Z := 2 ^ 1.
Definition LOCKDEP_NODE_BFS_VISITED : Z := 2 ^ 2.

Record lockdep_edge := mk_edge {
  to : addr;
  thread_id : Z;
  call_stack_from : stack;
  call_stack_to : stack;
}.

Record lockdep_node := mk_node { lock_id : Z; edges : list lockdep_edge; flags : Z }.

Record lockdep_lock := mk_lock { node : addr; call_stack : stack }.

Record lockdep := mk_lockdep {
  nodes : gmap addr lockdep_node;
  graph : list addr;
  queues : gmap Z (list lockdep_lock);
  brk : addr;                             (* addresses from here on were never allocated *)
  allocs : list bool;
  console : list (Z * Z * Z);             (* messages about edges: thread, lock acquired, lock held *)
}.

Abbreviation L := (M lockdep).

(** ** Memory *)

Definition set_nodes (f : gmap addr lockdep_node -> gmap addr lockdep_node) (w : lockdep) : lockdep :=
  mk_lockdep (f (nodes w)) (graph w) (queues w) (brk w) (allocs w) (console w).
Definition set_queue (o : Z) (q : list lockdep_lock) (w : lockdep) : lockdep :=
  mk_lockdep (nodes w) (graph w) (<[o := q]> (queues w)) (brk w) (allocs w) (console w).

(** [calloc] or [malloc]: whether it succeeds. *)
Definition calloc : L bool := fun w =>
  match allocs w with
  | [] => (Ret true, w)
  | b :: r => (Ret b, mk_lockdep (nodes w) (graph w) (queues w) (brk w) r (console w))
  end.

(** [*a] and [*a = n]. *)
Definition load (a : addr) : L lockdep_node := let! w := get in of_opt UseAfterFree (nodes w !! a).
Definition store (a : addr) (n : lockdep_node) : L unit :=
  do! load a in modify (set_nodes (<[a := n]>)).
(** [a->flags |= f] *)
Definition or_flags (a : addr) (f : Z) : L unit :=
  let! n := load a in store a (mk_node (lock_id n) (edges n) (Z.lor (flags n) f)).
Definition clear_flags (a : addr) : L unit :=
  let! n := load a in store a (mk_node (lock_id n) (edges n) 0).
Definition queue (o : Z) : L (list lockdep_lock) := let! w := get in of_opt OutOfBounds (queues w !! o).

(** ** The graph *)

(** [TAILQ_FOREACH(node, graph, link) if (node->lock_id == lock_id) ...] *)
Fixpoint find_id (l : list addr) (id : Z) : L (option addr) :=
  match l with
  | [] => ret None
  | a :: r => let! n := load a in if lock_id n =? id then ret (Some a) else find_id r id
  end.

Definition lockdep_add_to_graph (id : Z) : L (option addr) :=
  let! w := get in
  let! found := find_id (graph w) id in
  match found with
  | Some a => ret (Some a)
  | None =>
      let! ok := calloc in
      if negb ok then ret None else
      let! w := get in
      let a := brk w in
      do! put (mk_lockdep (<[a := mk_node id [] 0]> (nodes w)) (graph w ++ [a]) (queues w) (S a) (allocs w) (console w)) in
      ret (Some a)
  end.

(** The entries before the terminator; [None]: there is none, the loop runs off the array. *)
Fixpoint up_to_zero (l : list Z) : option (list Z) :=
  match l with
  | [] => None
  | x :: r => if x =? 0 then Some [] else r' ← up_to_zero r; Some (x :: r')
  end.

Definition dup_call_stack (s : stack) : L stack :=
  match s with
  | None => ret None
  | Some l =>
      let! n := of_opt OutOfBounds (up_to_zero l) in
      let! ok := calloc in
      if negb ok then ret None else ret (Some (n ++ [0]))
  end.

Definition lockdep_add_edge (from to_ : addr) (call_stack_from call_stack_to : stack) (thread_id : Z) : L unit :=
  let! n := load from in
  if existsb (fun e => bool_decide (to e = to_)) (edges n) then ret tt else
  let! ok := calloc in
  do! guard_err (negb ok) TEE_ERROR_OUT_OF_MEMORY in
  let! sf := dup_call_stack call_stack_from in
  let! st := dup_call_stack call_stack_to in
  let! n := load from in
  store from (mk_node (lock_id n) (edges n ++ [mk_edge to_ thread_id sf st]) (flags n)).

(** ** Shortest cycle (breadth first) *)

(** An element of the queue: a node and the ids on the path to it. *)
Record lockdep_bfs := mk_bfs { bfs_node : addr; path : list Z }.

Inductive bfs_turn := Cycle (p : list Z) | NoMemory | Queue (q : list lockdep_bfs).

(** One turn of [STAILQ_FOREACH(e, &n->edges, link)] after another. *)
Fixpoint bfs_edges (id : Z) (qe : lockdep_bfs) (es : list lockdep_edge) (q : list lockdep_bfs) : L bfs_turn :=
  match es with
  | [] => ret (Queue q)
  | e :: r =>
      let! n := load (to e) in
      if lock_id n =? id then
        let! ok := calloc in
        if negb ok then ret NoMemory else ret (Cycle (path qe ++ [0]))
      else if negb (has (flags n) LOCKDEP_NODE_BFS_VISITED) then
        do! or_flags (to e) LOCKDEP_NODE_BFS_VISITED in
        let! ok := calloc in
        if negb ok then ret NoMemory else
        let! ok := calloc in
        if negb ok then ret NoMemory else
        bfs_edges id qe r (q ++ [mk_bfs (to e) (path qe ++ [lock_id n])])
      else bfs_edges id qe r q
  end.

Fixpoint bfs_loop (fuel : nat) (id : Z) (q : list lockdep_bfs) : L (option (list Z)) :=
  match fuel with
  | O => undef OutOfFuel
  | S k =>
      match q with
      | [] => ret None
      | qe :: q' =>
          let! n := load (bfs_node qe) in
          let! t := bfs_edges id qe (edges n) q' in
          match t with
          | Cycle p => ret (Some p)
          | NoMemory => ret None
          | Queue q'' => bfs_loop k id q''
          end
      end
  end.

Definition lockdep_graph_get_shortest_cycle (a : addr) : L (option (list Z)) :=
  do! or_flags a LOCKDEP_NODE_BFS_VISITED in
  let! ok := calloc in
  if negb ok then ret None else
  let! ok := calloc in
  if negb ok then ret None else
  let! n := load a in
  let! w := get in
  bfs_loop (S (S (length (graph w)))) (lock_id n) [mk_bfs a [lock_id n]].

(** ** Topological sorting (depth first) *)

Fixpoint lockdep_visit (fuel : nat) (a : addr) : L unit :=
  match fuel with
  | O => undef OutOfFuel
  | S k =>
      let! n := load a in
      if has (flags n) LOCKDEP_NODE_PERM_MARK then ret tt else
      do! guard_err (has (flags n) LOCKDEP_NODE_TEMP_MARK) TEE_ERROR_BAD_STATE in
      do! or_flags a LOCKDEP_NODE_TEMP_MARK in
      do! for_each (edges n) (fun e => lockdep_visit k (to e)) in
      or_flags a LOCKDEP_NODE_PERM_MARK
  end.

Definition lockdep_graph_sort : L unit :=
  let! w := get in
  do! for_each (graph w) (fun a =>
    let! n := load a in
    if flags n =? 0 then lockdep_visit (S (length (graph w))) a else ret tt) in
  for_each (graph w) clear_flags.

(** ** Reporting a cycle *)

Fixpoint find_edge_to (es : list lockdep_edge) (to_ : Z) : L (option lockdep_edge) :=
  match es with
  | [] => ret None
  | e :: r => let! n := load (to e) in if lock_id n =? to_ then ret (Some e) else find_edge_to r to_
  end.

Fixpoint find_edge_in (l : list addr) (from to_ : Z) : L (option lockdep_edge) :=
  match l with
  | [] => ret None
  | a :: r =>
      let! n := load a in
      if lock_id n =? from then
        let! e := find_edge_to (edges n) to_ in
        match e with Some e => ret (Some e) | None => find_edge_in r from to_ end
      else find_edge_in r from to_
  end.

Definition lockdep_find_edge (from to_ : Z) : L (option lockdep_edge) :=
  let! w := get in find_edge_in (graph w) from to_.

(** The message about an edge: the thread, the lock it acquired and the lock it held. A NULL edge
    is followed. *)
Definition lockdep_print_edge_info (from : Z) (edge : option lockdep_edge) : L (Z * Z * Z) :=
  let! e := of_opt UseAfterFree edge in
  let! n := load (to e) in
  ret (thread_id e, lock_id n, from).

(** The second loop over the cycle: [first] is [cycle[0]], [to_] the lock before [p]. *)
Fixpoint print_edges (first : Z) (to_ : option Z) (p : list Z) : L (list (Z * Z * Z)) :=
  match p with
  | [] => undef OutOfBounds
  | x :: r =>
      if x =? 0 then
        match to_ with
        | None => panic
        | Some from =>
            let! e := lockdep_find_edge from first in
            let! m := lockdep_print_edge_info from e in
            ret [m]
        end
      else
        match to_ with
        | None => print_edges first (Some x) r
        | Some from =>
            let! e := lockdep_find_edge from x in
            let! m := lockdep_print_edge_info from e in
            let! ms := print_edges first (Some x) r in
            ret (m :: ms)
        end
  end.

Definition print (ms : list (Z * Z * Z)) : L unit :=
  modify (fun w => mk_lockdep (nodes w) (graph w) (queues w) (brk w) (allocs w) (console w ++ ms)).

Definition lockdep_print_cycle_info (a : addr) : L unit :=
  let! cycle := lockdep_graph_get_shortest_cycle a in
  match cycle with
  | Some ((x :: _) as c) => do! assert_ (negb (x =? 0)) in let! ms := print_edges x None c in print ms
  | Some [] => undef OutOfBounds
  | None => panic
  end.

(** ** Acquiring and releasing *)

(** [lockdep_get_kernel_stack()] is the argument [acq_stack]. *)
Definition __lockdep_lock_acquire (owned id : Z) (acq_stack : stack) : L unit :=
  let! r := lockdep_add_to_graph id in
  match r with
  | None => err TEE_ERROR_OUT_OF_MEMORY
  | Some a =>
      let! q := queue owned in
      do! for_each q (fun l => lockdep_add_edge (node l) a (call_stack l) acq_stack owned) in
      let! res := rc_of lockdep_graph_sort in
      if negb (res =? 0) then do! lockdep_print_cycle_info a in err res else
      let! ok := calloc in
      do! guard_err (negb ok) TEE_ERROR_OUT_OF_MEMORY in
      let! q := queue owned in
      modify (set_queue owned (q ++ [mk_lock a acq_stack]))
  end.

Definition __lockdep_lock_tryacquire (owned id : Z) (acq_stack : stack) : L unit :=
  let! r := lockdep_add_to_graph id in
  match r with
  | None => err TEE_ERROR_OUT_OF_MEMORY
  | Some a =>
      let! ok := calloc in
      do! guard_err (negb ok) TEE_ERROR_OUT_OF_MEMORY in
      let! q := queue owned in
      modify (set_queue owned (q ++ [mk_lock a acq_stack]))
  end.

(** [TAILQ_FOREACH_REVERSE] with the removal of the first match: on the reversed queue. *)
Fixpoint release_rev (l : list lockdep_lock) (id : Z) : L (option (list lockdep_lock)) :=
  match l with
  | [] => ret None
  | x :: r =>
      let! n := load (node x) in
      if lock_id n =? id then ret (Some r)
      else let! r' := release_rev r id in
           ret (match r' with Some r' => Some (x :: r') | None => None end)
  end.

Definition __lockdep_lock_release (owned id : Z) : L unit :=
  let! q := queue owned in
  let! r := release_rev (rev q) id in
  match r with
  | Some q' => modify (set_queue owned (rev q'))
  | None => err TEE_ERROR_ITEM_NOT_FOUND
  end.

(** ** Deleting *)

Definition lockdep_node_delete (a : addr) : L unit := do! load a in modify (set_nodes (delete a)).

Definition unlink (a : addr) : L unit :=
  modify (fun w => mk_lockdep (nodes w) (filter (.≠ a) (graph w)) (queues w) (brk w) (allocs w) (console w)).

Definition lockdep_graph_delete : L unit :=
  let! w := get in for_each (graph w) (fun a => do! unlink a in lockdep_node_delete a).

Definition lockdep_queue_delete (owned : Z) : L unit :=
  do! queue owned in modify (set_queue owned []).

(** The first loop of [lockdep_node_destroy()] on the edges of a node: matching edges at the head. *)
Fixpoint drop_head (a : addr) (es : list lockdep_edge) : list lockdep_edge :=
  match es with
  | [] => []
  | e :: r => if bool_decide (to e = a) then drop_head a r else es
  end.

(** The second: [edge] is kept, [r] follows it. *)
Fixpoint drop_after (a : addr) (edge : lockdep_edge) (r : list lockdep_edge) : list lockdep_edge :=
  match r with
  | [] => [edge]
  | next :: r' => if bool_decide (to next = a) then drop_after a edge r' else edge :: drop_after a next r'
  end.

Definition drop_edges (a : addr) (es : list lockdep_edge) : list lockdep_edge :=
  match drop_head a es with
  | [] => []
  | edge :: r => drop_after a edge r
  end.

Definition lockdep_node_destroy (a : addr) : L unit :=
  do! unlink a in
  let! w := get in
  do! for_each (graph w) (fun from =>
    let! n := load from in store from (mk_node (lock_id n) (drop_edges a (edges n)) (flags n))) in
  lockdep_node_delete a.

Definition lockdep_lock_destroy (id : Z) : L unit :=
  let! w := get in
  let! r := find_id (graph w) id in
  match r with Some a => lockdep_node_destroy a | None => ret tt end.

(** ** The wrappers of lockdep.h, and mutex_lockdep.c *)

Definition or_panic (m : L unit) : L unit :=
  let! res := rc_of m in if negb (res =? 0) then panic else ret tt.

Definition lockdep_lock_acquire (owned id : Z) (s : stack) : L unit := or_panic (__lockdep_lock_acquire owned id s).
Definition lockdep_lock_tryacquire (owned id : Z) (s : stack) : L unit := or_panic (__lockdep_lock_tryacquire owned id s).
Definition lockdep_lock_release (owned id : Z) : L unit := or_panic (__lockdep_lock_release owned id).

(** The graph and the queues of CFG_NUM_THREADS threads; a thread is its index. *)
Definition mutex_lockdep_init (CFG_NUM_THREADS : nat) (oracle : list bool) : lockdep :=
  mk_lockdep ∅ [] (list_to_map ((fun n => (Z.of_nat n, [])) <$> seq 0 CFG_NUM_THREADS)) 0 oracle [].

Definition mutex_lock_check (thread m : Z) (s : stack) : L unit := lockdep_lock_acquire thread m s.
Definition mutex_trylock_check (thread m : Z) (s : stack) : L unit := lockdep_lock_tryacquire thread m s.
Definition mutex_unlock_check (thread m : Z) : L unit := lockdep_lock_release thread m.
Definition mutex_destroy_check (m : Z) : L unit := lockdep_lock_destroy m.

(** ** Memory and structure of a run *)

(** An arc of the lock graph: from a lock to one acquired while holding it. *)
Definition arc (w : lockdep) (a b : addr) : Prop := exists n, nodes w !! a = Some n /\ b ∈ to <$> edges n.

(** The state but for marks and the outcomes of allocations. *)
Definition skel (w : lockdep) := ((fun n => (lock_id n, edges n)) <$> nodes w, graph w, queues w, brk w, console w).

Definition rest (w : lockdep) := (allocs w, console w).

Definition flag (w : lockdep) (a : addr) : option Z := flags <$> nodes w !! a.

(** The state is well formed: the TAILQ lists the live nodes, one per lock, and no pointer dangles. *)
Record lockdep_wf (w : lockdep) : Prop := mk_wf {
  wf_nodup : NoDup (graph w);
  wf_live a : a ∈ graph w <-> is_Some (nodes w !! a);
  wf_brk a : is_Some (nodes w !! a) -> (a < brk w)%nat;
  wf_ids a b n m : nodes w !! a = Some n -> nodes w !! b = Some m -> lock_id n = lock_id m -> a = b;
  wf_nonzero a n : nodes w !! a = Some n -> lock_id n <> 0;
  wf_edges a b : arc w a b -> is_Some (nodes w !! b);
  wf_owned o q l : queues w !! o = Some q -> l ∈ q -> is_Some (nodes w !! node l) /\
    (forall s, call_stack l = Some s -> is_Some (up_to_zero s));
}.

Definition unmarked (w : lockdep) : Prop := forall a f, flag w a = Some f -> f = 0.
Definition acyclic (w : lockdep) : Prop := forall a, ~ tc (arc w) a a.

(** The invariant between calls. *)
Record lockdep_ok (w : lockdep) : Prop := mk_ok {
  ok_wf : lockdep_wf w; ok_marks : unmarked w; ok_acyclic : acyclic w }.

Lemma skel_node w w' a n : skel w = skel w' -> nodes w !! a = Some n ->
  exists n', nodes w' !! a = Some n' /\ lock_id n' = lock_id n /\ edges n' = edges n.
Proof.
  intros [= H _ _ _ _] Ha. apply (f_equal (.!! a)) in H. rewrite !lookup_fmap, Ha in H.
  destruct (nodes w' !! a) as [n'|]; simplify_eq/=. naive_solver.
Qed.

Lemma skel_live w w' a : skel w = skel w' -> is_Some (nodes w !! a) <-> is_Some (nodes w' !! a).
Proof.
  intros H. split; intros [n Hn].
  - destruct (skel_node _ _ _ _ H Hn) as (n' & ? & _). eauto.
  - destruct (skel_node _ _ _ _ (eq_sym H) Hn) as (n' & ? & _). eauto.
Qed.

Lemma skel_arc w w' a b : skel w = skel w' -> arc w a b -> arc w' a b.
Proof. intros H (n & Hn & Hb). destruct (skel_node _ _ _ _ H Hn) as (n' & Hn' & _ & He). exists n'. by rewrite He. Qed.

Lemma skel_tc w w' a b : skel w = skel w' -> tc (arc w) a b -> tc (arc w') a b.
Proof. intros H. apply tc_congruence with (f := id). intros x y. by apply skel_arc. Qed.

Lemma skel_wf w w' : skel w = skel w' -> lockdep_wf w -> lockdep_wf w'.
Proof.
  intros H [H1 H2 H3 H4 H5 H6 H7]. pose proof H as [= _ Hg Hq Hb _]. split.
  - by rewrite <- Hg.
  - intros a. rewrite <- Hg, H2. by apply skel_live.
  - intros a Ha. rewrite <- Hb. apply H3. by apply (skel_live _ _ _ H).
  - intros a b n m Ha Hn E.
    destruct (skel_node _ _ _ _ (eq_sym H) Ha) as (n' & Ha' & En & _).
    destruct (skel_node _ _ _ _ (eq_sym H) Hn) as (m' & Hm' & Em & _).
    apply (H4 a b n' m'); congruence.
  - intros a n Ha. destruct (skel_node _ _ _ _ (eq_sym H) Ha) as (n' & Ha' & En & _). rewrite <- En. eauto.
  - intros a b Hab. apply (skel_live _ _ _ H). apply (H6 a). by apply (skel_arc _ _ _ _ (eq_sym H)).
  - intros o q l Ho Hl. rewrite <- Hq in Ho. destruct (H7 o q l Ho Hl) as [? ?]. split; [|done].
    by apply (skel_live _ _ _ H).
Qed.

Lemma load_run a n w : nodes w !! a = Some n -> load a w = (Ret n, w).
Proof. intros H. unfold load. rewrite (bind_run _ _ w w w) by done. by rewrite H. Qed.

Lemma store_run a n n' w : nodes w !! a = Some n -> store a n' w = (Ret tt, set_nodes (<[a := n']>) w).
Proof. intros H. unfold store. by rewrite (bind_run _ _ _ _ _ (load_run _ _ _ H)). Qed.

Lemma runs_load a n w (Q : lockdep_node -> lockdep -> Prop) E : nodes w !! a = Some n -> Q n w -> runs (load a) Q E w.
Proof. intros H. apply runs_eq. by apply load_run. Qed.

(** Setting a mark. *)
Lemma or_flags_run a f n w : nodes w !! a = Some n -> exists w', or_flags a f w = (Ret tt, w') /\
  skel w' = skel w /\ rest w' = rest w /\ flag w' a = Some (Z.lor (flags n) f) /\
  (forall b, b <> a -> flag w' b = flag w b).
Proof.
  intros H. unfold or_flags. rewrite (bind_run _ _ _ _ _ (load_run _ _ _ H)). rewrite (store_run _ n) by done.
  eexists. split; [reflexivity|]. split; [|split; [done|split]].
  - unfold skel, set_nodes. simpl. rewrite fmap_insert. simpl. do 4 f_equal.
    apply insert_id. by rewrite lookup_fmap, H.
  - unfold flag. simpl. by rewrite lookup_insert_eq.
  - intros b Hb. unfold flag. simpl. by rewrite lookup_insert_ne.
Qed.

Lemma runs_or_flags a f n w (Q : unit -> lockdep -> Prop) E : nodes w !! a = Some n ->
  (forall w', skel w' = skel w -> rest w' = rest w -> flag w' a = Some (Z.lor (flags n) f) ->
    (forall b, b <> a -> flag w' b = flag w b) -> Q tt w') -> runs (or_flags a f) Q E w.
Proof. intros H HQ. destruct (or_flags_run a f n w H) as (w' & R & H1 & H2 & H3 & H4). eapply runs_eq; eauto. Qed.

(** ** The depth-first search

    A node is white (no mark), grey (TEMP_MARK: its visit has begun) or black (PERM_MARK too). *)
Definition white w a := flag w a = Some 0.
Definition grey w a := flag w a = Some 1.
Definition black w a := flag w a = Some 3.

Record colours (w : lockdep) : Prop := mk_colours {
  col_three a f : flag w a = Some f -> f = 0 \/ f = 1 \/ f = 3;
  col_closed a b : black w a -> arc w a b -> black w b;
  col_acyclic a : black w a -> ~ tc (arc w) a a;
}.

(** The search from [w] has got to [w']. *)
Record progress (w w' : lockdep) : Prop := mk_progress {
  pr_skel : skel w' = skel w;
  pr_allocs : rest w' = rest w;
  pr_grey a : grey w' a <-> grey w a;
  pr_black a : black w a -> black w' a;
}.

#[global] Instance progress_refl : Reflexive progress.
Proof. by split. Qed.
#[global] Instance progress_trans : Transitive progress.
Proof. intros x y z [A1 A2 A3 A4] [B1 B2 B3 B4]. split; [congruence|congruence| |eauto]. intros a. by rewrite B3. Qed.

Definition whites (w : lockdep) : list addr := filter (fun a => flag w a = Some 0) (graph w).

Lemma filter_length_le {A} (P Q : A -> Prop) `{!forall x, Decision (P x)} `{!forall x, Decision (Q x)} l :
  (forall x, Q x -> P x) -> (length (filter Q l) <= length (filter P l))%nat.
Proof.
  intros HPQ. induction l as [|x l IH]; [done|]. rewrite !filter_cons.
  destruct (decide (Q x)), (decide (P x)); simpl; try lia. exfalso. auto.
Qed.

Lemma filter_length_lt {A} (P Q : A -> Prop) `{!forall x, Decision (P x)} `{!forall x, Decision (Q x)} l a :
  (forall x, Q x -> P x) -> a ∈ l -> P a -> ~ Q a -> (length (filter Q l) < length (filter P l))%nat.
Proof.
  intros HPQ Ha HP HQ. induction Ha as [x l|x y l Ha IH]; rewrite !filter_cons.
  - rewrite decide_False, decide_True by done. simpl. pose proof (filter_length_le P Q l HPQ). lia.
  - specialize (IH HP HQ). destruct (decide (Q y)), (decide (P y)); simpl; try lia. exfalso. auto.
Qed.

Lemma progress_whites w w' : progress w w' -> colours w -> colours w' -> (length (whites w') <= length (whites w))%nat.
Proof.
  intros [P1 P2 P3 P4] C C'. unfold whites. pose proof P1 as [= _ Hg _ _ _]. rewrite Hg. apply filter_length_le.
  intros a Ha. assert (is_Some (flag w a)) as [f Hf].
  { unfold flag in *. rewrite fmap_is_Some. apply (skel_live _ _ _ P1). rewrite <- (fmap_is_Some flags). by rewrite Ha. }
  destruct (col_three _ C _ _ Hf) as [-> | [-> | ->]]; [done| |].
  - apply P3 in Hf. unfold grey in Hf. congruence.
  - apply P4 in Hf. unfold black in Hf. congruence.
Qed.

Lemma black_rtc w a b : colours w -> black w a -> rtc (arc w) a b -> black w b.
Proof. intros C Ha Hr. induction Hr as [|x y z Hxy _ IH]; [done|]. apply IH. by eapply col_closed. Qed.

Lemma flag_live w a f : flag w a = Some f -> exists n, nodes w !! a = Some n /\ flags n = f.
Proof. unfold flag. destruct (nodes w !! a) as [n|]; intros [=]. eauto. Qed.

(** The first step of a visit: a white node turns grey. *)
Lemma colours_begin w w1 a : colours w -> white w a -> skel w1 = skel w -> flag w1 a = Some 1 ->
  (forall b, b <> a -> flag w1 b = flag w b) -> colours w1.
Proof.
  intros [C1 C2 C3] Ha Hs Hf Hb.
  assert (forall x, black w1 x -> black w x) as B.
  { intros x Hx. unfold black in *. destruct (decide (x = a)) as [->|]; [congruence|]. by rewrite <- Hb. }
  split.
  - intros x f Hx. destruct (decide (x = a)) as [->|]; [rewrite Hf in Hx; naive_solver|]. rewrite Hb in Hx by done. eauto.
  - intros x y Hx Hxy. pose proof (C2 x y (B x Hx) (skel_arc _ _ _ _ Hs Hxy)) as Hy. unfold black, white in *.
    rewrite Hb; [done|]. intros ->. congruence.
  - intros x Hx Hc. apply (C3 x (B x Hx)). by apply (skel_tc _ _ _ _ Hs).
Qed.

(** The last step: a grey node whose successors are black turns black. *)
Lemma colours_end w w2 a : colours w -> grey w a -> (forall b, arc w a b -> black w b) -> skel w2 = skel w ->
  flag w2 a = Some 3 -> (forall b, b <> a -> flag w2 b = flag w b) -> colours w2.
Proof.
  intros C Ha Hc Hs Hf Hb. pose proof C as [C1 C2 C3].
  assert (forall x, black w x -> x <> a) as N by (intros x Hx ->; unfold black, grey in *; congruence).
  assert (forall x, black w x -> black w2 x) as B by (intros x Hx; unfold black in *; rewrite Hb; [done|auto]).
  assert (forall x, black w2 x -> x = a \/ black w x) as B2.
  { intros x Hx. destruct (decide (x = a)); [by left|right]. unfold black in *. by rewrite <- Hb. }
  split.
  - intros x f Hx. destruct (decide (x = a)) as [->|]; [rewrite Hf in Hx; naive_solver|]. rewrite Hb in Hx by done. eauto.
  - intros x y Hx Hxy. apply (skel_arc _ _ _ _ Hs) in Hxy. apply B. destruct (B2 x Hx) as [->|Hx']; eauto.
  - intros x Hx Ht. apply (skel_tc _ _ _ _ Hs) in Ht. destruct (B2 x Hx) as [->|Hx']; [|by apply (C3 x)].
    assert (exists y, arc w a y /\ rtc (arc w) y a) as (y & Hy & Hr).
    { inversion Ht as [? ? Hay|? y ? Hay Hya]; subst; [eauto using rtc_refl|eauto using tc_rtc]. }
    apply (N a); [|done]. eapply black_rtc; eauto.
Qed.

(** A visit blackens the node and what it reaches, or there is a cycle. *)
Definition found_cycle (w : lockdep) (e : Z) (w' : lockdep) : Prop :=
  e = TEE_ERROR_BAD_STATE /\ skel w' = skel w /\ rest w' = rest w /\ (exists x, tc (arc w) x x) /\
  forall a f, flag w' a = Some f -> f = 0 \/ f = 1 \/ f = 3.

Lemma visit_spec fuel : forall a w, lockdep_wf w -> colours w -> is_Some (nodes w !! a) ->
  (forall g, grey w g -> tc (arc w) g a) -> (length (whites w) < fuel)%nat ->
  runs (lockdep_visit fuel a) (fun _ w' => progress w w' /\ colours w' /\ black w' a) (found_cycle w) w.
Proof.
  induction fuel as [|k IH]; intros a w W C [n Hn] Hg Hf; [lia|]. cbn [lockdep_visit].
  assert (flag w a = Some (flags n)) as Fa by (unfold flag; by rewrite Hn).
  apply runs_bind, (runs_load a n); [done|]. destruct (col_three _ C _ _ Fa) as [E|[E|E]]; rewrite E in Fa |- *.
  2:{ change (has 1 LOCKDEP_NODE_PERM_MARK) with false. change (has 1 LOCKDEP_NODE_TEMP_MARK) with true.
      apply runs_bind, runs_err. split; [done|]. split; [done|]. split; [done|]. split; [eauto|apply C]. }
  2:{ by apply runs_ret. }
  change (has 0 LOCKDEP_NODE_PERM_MARK) with false. change (has 0 LOCKDEP_NODE_TEMP_MARK) with false.
  apply runs_bind, runs_ret, runs_bind, (runs_or_flags _ _ n); [done|]. intros w1 S1 A1 F1 O1. rewrite E in F1.
  pose proof (colours_begin _ _ _ C Fa S1 F1 O1) as C1.
  assert (length (whites w1) < k)%nat as Hk.
  { enough (length (whites w1) < length (whites w))%nat by lia. unfold whites.
    pose proof S1 as [= _ Hgr _ _ _]. rewrite Hgr. apply (filter_length_lt _ _ _ a); [|apply W; eauto|done|by rewrite F1].
    intros x Hx. destruct (decide (x = a)) as [->|]; [congruence|]. by rewrite <- O1. }
  apply runs_bind. eapply runs_mono; [apply (runs_for_each (fun r wi => progress w1 wi /\ colours wi /\
      (forall e, e ∈ edges n -> e ∈ r \/ black wi (to e)) /\ (forall e, e ∈ r -> e ∈ edges n)) (found_cycle w))| |done].
  - intros e r wi (Pi & Ci & Ei & Ri).
    assert (arc w a (to e)) as Hae.
    { exists n. split; [done|]. apply list_elem_of_fmap_2. apply Ri. by left. }
    pose proof (pr_skel _ _ Pi) as Si. rewrite S1 in Si.
    eapply runs_mono; [apply IH|..].
    + eapply skel_wf; [|exact W]. done.
    + done.
    + apply (skel_live _ _ _ (eq_sym Si)). by apply (wf_edges w W a).
    + intros g Hgi. apply (pr_grey _ _ Pi) in Hgi. apply (skel_tc _ _ _ _ (eq_sym Si)).
      destruct (decide (g = a)) as [->|Hne]; [by apply tc_once|]. eapply tc_r; [|done].
      apply Hg. unfold grey in *. by rewrite <- O1.
    + pose proof (progress_whites _ _ Pi C1 Ci). lia.
    + cbv beta. intros _ wj (Pj & Cj & Bj). split; [by transitivity wi|]. split; [done|]. split.
      * intros e' He'. destruct (Ei e' He') as [Hin|Hbl]; [|right; by apply Pj].
        apply elem_of_cons in Hin as [->|]; [by right|by left].
      * intros e' He'. apply Ri. by right.
    + intros ec wj (-> & Sj & Aj & [x Hx] & Fj). split; [done|]. split; [congruence|].
      split; [rewrite Aj, (pr_allocs _ _ Pi); done|]. split; [|done]. exists x. by apply (skel_tc _ _ _ _ Si).
  - split; [done|]. split; [done|]. split; [auto|done].
  - cbv beta. intros _ wi (Pi & Ci & Ei & _). pose proof (pr_skel _ _ Pi) as Si. rewrite S1 in Si.
    assert (grey wi a) as Gi by (by apply Pi). destruct (flag_live _ _ _ Gi) as (ni & Hni & Fi).
    apply (runs_or_flags _ _ ni); [done|]. intros w2 S2 A2 F2 O2. rewrite Fi in F2. change (Z.lor 1 _) with 3 in F2.
    assert (colours w2) as C2.
    { apply (colours_end wi w2 a); try done. intros b Hb. apply (skel_arc _ _ _ _ Si) in Hb as (n' & Hn' & Hb).
      assert (n' = n) as -> by congruence. apply list_elem_of_fmap in Hb as (e & -> & He).
      destruct (Ei e He) as [Hin|]; [|done]. by apply elem_of_nil in Hin. }
    split; [|done]. split.
    + congruence.
    + rewrite A2, (pr_allocs _ _ Pi). done.
    + intros x. unfold grey in *. destruct (decide (x = a)) as [->|Hne]; [rewrite F2, Fa; done|].
      rewrite O2 by done. pose proof (pr_grey _ _ Pi x) as G. unfold grey in G. rewrite G, O1 by done. done.
    + intros x Hx. unfold black in *. assert (x <> a) as Hne by congruence. rewrite O2 by done. apply Pi.
      unfold black. by rewrite O1.
Qed.

Lemma skel_unmarked_eq w w' : skel w' = skel w -> rest w' = rest w -> unmarked w -> unmarked w' -> w' = w.
Proof.
  intros Hs Ha U U'. pose proof Hs as [= _ Hg Hq Hb _]. pose proof Ha as [= Hal Hc].
  destruct w as [N g q b al c], w' as [N' g' q' b' al' c']; simpl in *. subst. f_equal. apply map_eq. intros a. destruct (N !! a) as [n|] eqn:E.
  - destruct (skel_node _ _ _ _ (eq_sym Hs) E) as (n' & E' & Ei & Ee). simpl in E'. rewrite E'. f_equal.
    pose proof (U a (flags n)) as Hn. pose proof (U' a (flags n')) as Hn'. unfold flag in *. simpl in *.
    rewrite E in Hn. rewrite E' in Hn'. destruct n, n'; simpl in *. f_equal; auto.
    rewrite Hn, Hn' by done. done.
  - destruct (N' !! a) as [n'|] eqn:E'; [|done].
    destruct (skel_node _ _ _ _ Hs E') as (n & E2 & _). simpl in E2. congruence.
Qed.

(** Clearing the marks. *)
Lemma clear_flags_spec w0 a w : lockdep_wf w0 -> skel w = skel w0 -> a ∈ graph w0 ->
  runs (clear_flags a) (fun _ w' => skel w' = skel w0 /\ rest w' = rest w /\ flag w' a = Some 0 /\
    forall b, b <> a -> flag w' b = flag w b) (fun _ _ => False) w.
Proof.
  intros W Hs Ha. apply W in Ha as [n0 Hn0]. destruct (skel_node _ _ _ _ (eq_sym Hs) Hn0) as (n & Hn & _).
  unfold clear_flags. apply runs_bind, (runs_load a n); [done|]. eapply runs_eq; [by apply (store_run a n)|].
  split; [|split; [done|split]].
  - rewrite <- Hs. unfold skel, set_nodes. simpl. rewrite fmap_insert. simpl. do 4 f_equal.
    apply insert_id. by rewrite lookup_fmap, Hn.
  - unfold flag. simpl. by rewrite lookup_insert_eq.
  - intros b Hb. unfold flag. simpl. by rewrite lookup_insert_ne.
Qed.

(** [lockdep_graph_sort()] decides whether the graph is acyclic, and then leaves it as it was. *)
Lemma graph_sort_spec w : lockdep_wf w -> unmarked w ->
  runs lockdep_graph_sort (fun _ w' => w' = w /\ acyclic w) (found_cycle w) w.
Proof.
  intros W U. unfold lockdep_graph_sort. apply runs_bind, runs_get, runs_bind.
  assert (colours w) as C0.
  { split; [intros a f Hf; left; eauto| |]; intros a; intros; unfold black in *; (assert (3 = 0) by eauto; done). }
  eapply runs_mono; [apply (runs_for_each (fun r wi => progress w wi /\ colours wi /\
    (forall a, a ∈ graph w -> a ∈ r \/ black wi a) /\ (forall a, a ∈ r -> a ∈ graph w)) (found_cycle w))| |done].
  - intros a r wi (P & C & H1 & H2). pose proof (pr_skel _ _ P) as Hs.
    assert (is_Some (nodes wi !! a)) as [n Hn].
    { apply (skel_live _ _ _ Hs). apply W. apply H2. by left. }
    assert (flag wi a = Some (flags n)) as Fa by (unfold flag; by rewrite Hn).
    assert (forall b, ~ grey wi b) as NG.
    { intros b Hb. apply (pr_grey _ _ P) in Hb. assert (1 = 0) by eauto. done. }
    apply runs_bind, (runs_load a n); [done|].
    assert (forall wj, progress wi wj -> black wj a -> forall x, x ∈ graph w -> x ∈ r \/ black wj x) as Hrest.
    { intros wj Pj Bj x Hx. destruct (H1 x Hx) as [Hin|Hb]; [|right; by apply Pj].
      apply elem_of_cons in Hin as [->|]; [by right|by left]. }
    destruct (flags n =? 0) eqn:E; bool_hyps.
    + pose proof (progress_whites _ _ P C0 C) as Hw. unfold whites in Hw at 2.
      pose proof (length_filter (fun a => flag w a = Some 0) (graph w)) as Hl.
      eapply runs_mono; [apply visit_spec|..]; try done.
      * eapply skel_wf; [|exact W]. done.
      * intros g Hg. by destruct (NG g).
      * lia.
      * cbv beta. intros _ wj (Pj & Cj & Bj). split; [by transitivity wi|]. split; [done|].
        split; [by apply Hrest|]. intros x Hx. apply H2. by right.
      * intros e wj (-> & Sj & Aj & [x Hx] & Fj). split; [done|]. split; [congruence|].
        split; [rewrite Aj; apply P|]. split; [|done]. exists x. by apply (skel_tc _ _ _ _ Hs).
    + apply runs_ret. split; [done|]. split; [done|]. split; [|intros x Hx; apply H2; by right].
      apply Hrest; [done|]. destruct (col_three _ C _ _ Fa) as [|[E1|E3]]; [done| |].
      * destruct (NG a). unfold grey. congruence.
      * unfold black. congruence.
  - split; [done|]. split; [done|]. split; [auto|done].
  - cbv beta. intros _ wi (P & C & H1 & _). pose proof (pr_skel _ _ P) as Hs.
    assert (forall a, a ∈ graph w -> black wi a) as B.
    { intros a Ha. destruct (H1 a Ha) as [Hin|]; [|done]. by apply elem_of_nil in Hin. }
    assert (acyclic w) as Hac.
    { intros a Ht. assert (is_Some (nodes w !! a)) as Ha by (inversion Ht as [? ? (n & Hn & _)|? ? ? (n & Hn & _)]; eauto).
      apply (col_acyclic _ C a); [by apply B, W|]. by apply (skel_tc _ _ _ _ (eq_sym Hs)). }
    eapply runs_mono; [apply (runs_for_each (fun r wj => skel wj = skel w /\ rest wj = rest w /\
      (forall a, a ∈ graph w -> a ∈ r \/ flag wj a = Some 0) /\ (forall a, a ∈ r -> a ∈ graph w)) (fun _ _ => False))| |done].
    + intros a r wj (Sj & Aj & F & R). eapply runs_mono; [apply (clear_flags_spec w); [done..|apply R; by left]| |done].
      cbv beta. intros _ wk (Sk & Ak & Fk & Ok). split; [done|]. split; [congruence|]. split; [|intros x Hx; apply R; by right].
      intros x Hx. destruct (decide (x = a)) as [->|Hne]; [by right|]. rewrite Ok by done.
      destruct (F x Hx) as [Hin|]; [|by right]. apply elem_of_cons in Hin as [|]; [done|by left].
    + split; [done|]. split; [apply P|]. split; [auto|done].
    + cbv beta. intros _ wj (Sj & Aj & F & _). split; [|done]. apply skel_unmarked_eq; try done.
      intros a f Hf. destruct (F a) as [Hin|E0]; [|by apply elem_of_nil in Hin|congruence].
      apply W. destruct (flag_live _ _ _ Hf) as (n & Hn & _). apply (skel_live _ _ _ Sj). eauto.
Qed.

(** ** Adding a node *)

Definition lid (w : lockdep) (a : addr) : option Z := lock_id <$> nodes w !! a.

Lemma lid_live w a x : lid w a = Some x -> exists n, nodes w !! a = Some n /\ lock_id n = x.
Proof. unfold lid. destruct (nodes w !! a) as [n|]; intros [=]; eauto. Qed.

Lemma lid_inj w a b x : lockdep_wf w -> lid w a = Some x -> lid w b = Some x -> a = b.
Proof.
  intros W (n & Hn & <-)%lid_live (m & Hm & E)%lid_live. symmetry. by apply (wf_ids w W b a m n).
Qed.

Lemma arc_live w a b : arc w a b -> is_Some (nodes w !! a).
Proof. intros (n & Hn & _). eauto. Qed.

(** [a] is the node of lock [id], which may be new in [w']. *)
Record grown (id : Z) (a : addr) (w w' : lockdep) : Prop := mk_grown {
  gr_wf : lockdep_wf w';
  gr_id : lid w' a = Some id;
  gr_arc x y : arc w' x y <-> arc w x y;
  gr_lid x i : lid w x = Some i -> lid w' x = Some i;
  gr_new x : is_Some (nodes w' !! x) -> x = a \/ is_Some (nodes w !! x);
  gr_flag x f : flag w' x = Some f -> flag w x = Some f \/ f = 0;
  gr_queues : queues w' = queues w;
  gr_console : console w' = console w;
}.

Lemma find_id_spec w l id : (forall a, a ∈ l -> is_Some (nodes w !! a)) ->
  runs (find_id l id) (fun r w' => w' = w /\ match r with Some a => a ∈ l /\ lid w a = Some id
    | None => forall a, a ∈ l -> lid w a <> Some id end) (fun _ _ => False) w.
Proof.
  induction l as [|a l IH]; intros H; cbn [find_id].
  - apply runs_ret. split; [done|]. intros a Ha. by apply elem_of_nil in Ha.
  - destruct (H a ltac:(by left)) as [n Hn]. apply runs_bind, (runs_load a n); [done|].
    assert (lid w a = Some (lock_id n)) as Hi by (unfold lid; by rewrite Hn).
    destruct (lock_id n =? id) eqn:E; bool_hyps.
    + apply runs_ret. split; [done|]. split; [by left|congruence].
    + eapply runs_mono; [apply IH; intros; apply H; by right| |done]. cbv beta. intros [b|] w' [-> Hr]; (split; [done|]).
      * destruct Hr. split; [by right|done].
      * intros b [->|]%elem_of_cons; [congruence|auto].
Qed.

Lemma graph_insert_wf w a id w' : lockdep_wf w -> id <> 0 -> (forall b, b ∈ graph w -> lid w b <> Some id) -> a = brk w ->
  nodes w' = <[a := mk_node id [] 0]> (nodes w) -> graph w' = graph w ++ [a] -> queues w' = queues w -> brk w' = S a ->
  console w' = console w -> grown id a w w'.
Proof.
  intros W Hid Hno Ha Hn Hg Hq Hb Hcons.
  assert (nodes w !! a = None) as Hf.
  { destruct (nodes w !! a) eqn:E; [|done]. pose proof (wf_brk w W a ltac:(eauto)). lia. }
  assert (forall x y, arc w' x y <-> arc w x y) as Harc.
  { intros x y. unfold arc. rewrite Hn. split; intros (n & Hx & Hy).
    - destruct (decide (x = a)) as [->|Hne].
      + rewrite lookup_insert_eq in Hx. simplify_eq. simpl in Hy. by apply elem_of_nil in Hy.
      + rewrite lookup_insert_ne in Hx by done. eauto.
    - exists n. rewrite lookup_insert_ne by congruence. done. }
  assert (forall b n, nodes w' !! b = Some n -> (b = a /\ lock_id n = id) \/ (b <> a /\ nodes w !! b = Some n)) as Hcase.
  { intros b n Hbn. rewrite Hn in Hbn. destruct (decide (b = a)) as [->|Hne].
    - rewrite lookup_insert_eq in Hbn. left. by simplify_eq.
    - rewrite lookup_insert_ne in Hbn by done. by right. }
  assert (forall b n, nodes w !! b = Some n -> lock_id n <> id) as Hno'.
  { intros b n Hbn E. apply (Hno b); [apply W; eauto|]. unfold lid. rewrite Hbn. simpl. congruence. }
  split; try done.
  - split.
    + rewrite Hg. apply NoDup_app. split; [apply W|]. split; [|apply NoDup_singleton].
      intros x Hx Hxa. apply list_elem_of_singleton in Hxa as ->. apply W in Hx as [? ?]. congruence.
    + intros b. rewrite Hg, elem_of_app, list_elem_of_singleton, (wf_live w W), Hn. destruct (decide (b = a)) as [->|Hne].
      * rewrite lookup_insert_eq. naive_solver.
      * rewrite lookup_insert_ne by done. naive_solver.
    + intros b [n Hbn]. rewrite Hb. destruct (Hcase b n Hbn) as [[-> _]|[_ Hw]]; [lia|].
      pose proof (wf_brk w W b ltac:(eauto)). lia.
    + intros b c n m Hbn Hcm E. destruct (Hcase b n Hbn) as [[-> E1]|[Hne1 H1]], (Hcase c m Hcm) as [[-> E2]|[Hne2 H2]].
      * done.
      * exfalso. apply (Hno' c m); congruence.
      * exfalso. apply (Hno' b n); congruence.
      * by apply (wf_ids w W b c n m).
    + intros b n Hbn. destruct (Hcase b n Hbn) as [[_ E]|[_ H]]; [congruence|by apply (wf_nonzero w W b)].
    + intros b c Hbc. apply Harc in Hbc. apply (wf_edges w W) in Hbc as [n Hc]. rewrite Hn.
      rewrite lookup_insert_ne by congruence. eauto.
    + intros o q l Ho Hl. rewrite Hq in Ho. destruct (wf_owned w W o q l Ho Hl) as [[n Hc] ?]. split; [|done].
      rewrite Hn, lookup_insert_ne by congruence. eauto.
  - unfold lid. by rewrite Hn, lookup_insert_eq.
  - intros x i (n & Hx & <-)%lid_live. unfold lid. rewrite Hn, lookup_insert_ne by congruence. by rewrite Hx.
  - intros x [n Hx]. destruct (Hcase x n Hx) as [[-> _]|[_ ?]]; eauto.
  - intros x f (n & Hx & <-)%flag_live. rewrite Hn in Hx. destruct (decide (x = a)) as [->|Hne].
    + rewrite lookup_insert_eq in Hx. simplify_eq. by right.
    + rewrite lookup_insert_ne in Hx by done. left. unfold flag. by rewrite Hx.
Qed.

Lemma runs_edge_calloc w (Q : bool -> lockdep -> Prop) E :
  (forall b w', skel w' = skel w -> nodes w' = nodes w -> (allocs w = [] -> b = true /\ allocs w' = []) -> Q b w') ->
  runs calloc Q E w.
Proof.
  intros H. unfold runs, calloc. destruct (allocs w) eqn:Ea; apply H; try done.
Qed.

(** Only allocations happened, or nothing. *)
Definition quiet (w w' : lockdep) : Prop := skel w' = skel w /\ nodes w' = nodes w.

Lemma quiet_wf w w' : quiet w w' -> lockdep_wf w -> lockdep_wf w'.
Proof. intros [H _]. by apply skel_wf. Qed.

Lemma quiet_grown id a w w' w'' : quiet w w' -> grown id a w' w'' -> grown id a w w''.
Proof.
  intros [Hs Hn] [G1 G2 G3 G4 G5 G6 G7 G8]. pose proof Hs as [= _ _ Hq _ Hcons]. split; try done.
  - intros x y. rewrite G3. unfold arc. by rewrite Hn.
  - intros x i Hx. apply G4. unfold lid in *. by rewrite Hn.
  - intros x Hx. rewrite <- Hn. by apply G5.
  - intros x f Hx. unfold flag in *. rewrite <- Hn. by apply G6.
  - congruence.
  - congruence.
Qed.

Lemma add_to_graph_spec id w : lockdep_wf w -> id <> 0 ->
  runs (lockdep_add_to_graph id) (fun r w' => match r with Some a => grown id a w w' | None => quiet w w' end /\
    (allocs w = [] -> is_Some r /\ allocs w' = [])) (fun _ _ => False) w.
Proof.
  intros W Hid. unfold lockdep_add_to_graph. apply runs_bind, runs_get, runs_bind.
  eapply runs_mono; [apply find_id_spec; intros a Ha; by apply W| |done]. cbv beta. intros [a|] w' [-> Hr].
  - apply runs_ret. split; [|eauto]. split; try done; try naive_solver.
  - apply runs_bind, runs_edge_calloc. intros b w1 S1 N1 A1. destruct b; cbn [negb].
    + apply runs_bind, runs_get. cbv zeta. apply runs_bind. eapply runs_eq; [reflexivity|]. apply runs_ret.
      split; [|intros Hal; split; [eauto|by apply A1]].
      apply (quiet_grown _ _ w w1); [done|]. pose proof S1 as [= _ Hg _ _ _].
      eapply graph_insert_wf; try done; [eapply quiet_wf; [split; eassumption|done]|].
      rewrite Hg. intros c Hc. unfold lid. rewrite N1. by apply Hr.
    + apply runs_ret. split; [done|]. intros Hal. by destruct (A1 Hal).
Qed.

(** ** Adding arcs *)

(** The arcs [P] were added, and nothing else changed but allocations. *)
Record arcs_added (P : addr -> addr -> Prop) (w w' : lockdep) : Prop := mk_added {
  ad_arc x y : arc w' x y <-> arc w x y \/ P x y;
  ad_lid x : lid w' x = lid w x;
  ad_flag x : flag w' x = flag w x;
  ad_graph : graph w' = graph w;
  ad_queues : queues w' = queues w;
  ad_brk : brk w' = brk w;
  ad_console : console w' = console w;
}.

Lemma added_live P w w' x : arcs_added P w w' -> is_Some (nodes w' !! x) <-> is_Some (nodes w !! x).
Proof. intros H. pose proof (ad_lid _ _ _ H x) as E. unfold lid in E. rewrite <- !(fmap_is_Some lock_id), E. done. Qed.

Lemma added_wf P w w' : arcs_added P w w' -> (forall x y, P x y -> is_Some (nodes w !! y)) -> lockdep_wf w -> lockdep_wf w'.
Proof.
  intros H HP W. pose proof H as [H1 H2 H3 H4 H5 H6 _]. split.
  - rewrite H4. apply W.
  - intros a. rewrite H4, (wf_live w W). symmetry. by eapply added_live.
  - intros a Ha. rewrite H6. apply W. by apply (added_live _ _ _ _ H).
  - intros a b n m Ha Hb E. apply (lid_inj w a b (lock_id n) W); rewrite <- H2; unfold lid; rewrite ?Ha, ?Hb; simpl; congruence.
  - intros a n Ha. assert (lid w a = Some (lock_id n)) as (n' & Hn' & <-)%lid_live by (rewrite <- H2; unfold lid; by rewrite Ha).
    by apply (wf_nonzero w W a).
  - intros a b Hab. apply (added_live _ _ _ _ H). apply H1 in Hab as [Hab|Hab]; [by apply (wf_edges w W a)|eauto].
  - intros o q l Ho Hl. rewrite H5 in Ho. destruct (wf_owned w W o q l Ho Hl). split; [by apply (added_live _ _ _ _ H)|done].
Qed.

Lemma added_refl w w' : quiet w w' -> arcs_added (fun _ _ => False) w w'.
Proof.
  intros [[= _ ? ? ? ?] Hn]. split; try done; intros; unfold lid, flag, arc; rewrite Hn; try done. naive_solver.
Qed.

Lemma added_trans P Q w1 w2 w3 : arcs_added P w1 w2 -> arcs_added Q w2 w3 -> arcs_added (fun x y => P x y \/ Q x y) w1 w3.
Proof.
  intros [A1 A2 A3 A4 A5 A6 A7] [B1 B2 B3 B4 B5 B6 B7]. split; try congruence; [|intros x; congruence..].
  intros x y. rewrite B1, A1. tauto.
Qed.

Lemma added_ext (P Q : addr -> addr -> Prop) w w' : arcs_added P w w' ->
  (forall x y, Q x y \/ arc w x y <-> P x y \/ arc w x y) -> arcs_added Q w w'.
Proof. intros [A1 A2 A3 A4 A5 A6 A7] H. split; try done. intros x y. rewrite A1. specialize (H x y). tauto. Qed.

Lemma quiet_trans w1 w2 w3 : quiet w1 w2 -> quiet w2 w3 -> quiet w1 w3.
Proof. intros [] []. split; congruence. Qed.

Definition terminated (s : stack) : Prop := forall l, s = Some l -> is_Some (up_to_zero l).

Lemma dup_call_stack_spec s w : terminated s ->
  runs (dup_call_stack s) (fun _ w' => quiet w w' /\ (allocs w = [] -> allocs w' = [])) (fun _ _ => False) w.
Proof.
  intros T. destruct s as [l|]; cbn [dup_call_stack]; [|done]. destruct (T l eq_refl) as [n ->]. apply runs_bind, runs_ret.
  apply runs_bind, runs_edge_calloc. intros b w' S' N' A'. assert (quiet w w') by done.
  destruct b; cbn [negb]; apply runs_ret; (split; [done|]); intros Ha; by apply A'.
Qed.

Lemma add_edge_spec f a sf st tid w : is_Some (nodes w !! f) -> terminated sf -> terminated st ->
  runs (lockdep_add_edge f a sf st tid)
    (fun _ w' => arcs_added (fun x y => x = f /\ y = a) w w' /\ (allocs w = [] -> allocs w' = []))
    (fun e w' => e = TEE_ERROR_OUT_OF_MEMORY /\ allocs w <> [] /\ quiet w w') w.
Proof.
  intros [n Hn] Tf Tt. unfold lockdep_add_edge. apply runs_bind, (runs_load f n); [done|].
  destruct (existsb _ _) eqn:E.
  - apply runs_ret. split; [|done]. eapply added_ext; [by apply added_refl|]. intros x y. split; [|tauto].
    intros [[-> ->]|]; [right|by right]. exists n. split; [done|]. apply existsb_exists in E as (e & He & Hd).
    apply bool_decide_eq_true in Hd as <-. apply list_elem_of_fmap_2. by apply list_elem_of_In.
  - apply runs_bind, runs_edge_calloc. intros b w1 S1 N1 A1. destruct b; cbn [negb guard_err]; apply runs_bind.
    2:{ apply runs_err. split; [done|]. split; [intros Ha; by destruct (A1 Ha)|done]. }
    apply runs_ret, runs_bind. eapply runs_mono; [by apply dup_call_stack_spec| |done]. cbv beta. intros sf' w2 [Q2 A2].
    apply runs_bind. eapply runs_mono; [by apply dup_call_stack_spec| |done]. cbv beta. intros st' w3 [Q3 A3].
    assert (quiet w w3) as Q by (eapply quiet_trans; [|exact Q3]; eapply quiet_trans; [|exact Q2]; done).
    destruct Q as [Hs Hn3]. assert (nodes w3 !! f = Some n) as Hf by congruence.
    apply runs_bind, (runs_load f n); [done|]. eapply runs_eq; [by apply (store_run f n)|].
    split; [|intros Ha; simpl; apply A3, A2; by apply A1].
    pose proof Hs as [= _ Hg Hq Hb Hcons]. split; simpl; try done.
    + intros x y. unfold arc. simpl. rewrite Hn3. destruct (decide (x = f)) as [->|Hne].
      * rewrite lookup_insert_eq, Hn. split.
        -- intros (? & [= <-] & Hy). simpl in Hy. rewrite fmap_app, elem_of_app in Hy. destruct Hy as [Hy|Hy].
           ++ left. eauto.
           ++ apply list_elem_of_singleton in Hy as ->. by right.
        -- intros [(? & [= <-] & Hy)|[_ ->]]; eexists; (split; [reflexivity|]); simpl; rewrite fmap_app, elem_of_app; [by left|].
           right. by apply list_elem_of_singleton.
      * rewrite lookup_insert_ne by done. naive_solver.
    + intros x. unfold lid. simpl. rewrite Hn3. destruct (decide (x = f)) as [->|Hne].
      * by rewrite lookup_insert_eq, Hn.
      * by rewrite lookup_insert_ne.
    + intros x. unfold flag. simpl. rewrite Hn3. destruct (decide (x = f)) as [->|Hne].
      * by rewrite lookup_insert_eq, Hn.
      * by rewrite lookup_insert_ne.
Qed.

(** The arcs from the owned locks to the one being acquired. *)
Lemma add_edges_spec q a s o w :
  (forall l, l ∈ q -> is_Some (nodes w !! node l) /\ terminated (call_stack l)) -> terminated s ->
  runs (for_each q (fun l => lockdep_add_edge (node l) a (call_stack l) s o))
    (fun _ w' => arcs_added (fun x y => x ∈ node <$> q /\ y = a) w w' /\ (allocs w = [] -> allocs w' = []))
    (fun e w' => e = TEE_ERROR_OUT_OF_MEMORY /\ allocs w <> [] /\
       exists P, arcs_added P w w' /\ forall x y, P x y -> x ∈ node <$> q /\ y = a) w.
Proof.
  revert w. induction q as [|l q IH]; intros w Hq Ts; cbn [for_each].
  - apply runs_ret. split; [|done]. eapply added_ext; [by apply added_refl|]. intros x y. simpl. rewrite elem_of_nil. tauto.
  - destruct (Hq l ltac:(by left)) as [Hl Tl]. apply runs_bind. eapply runs_mono; [by apply add_edge_spec|..]; cbv beta.
    + intros _ w1 [H1 A1]. eapply runs_mono; [apply IH; [|done]|..]; cbv beta.
      * intros l' Hl'. rewrite (added_live _ _ _ _ H1). apply Hq. by right.
      * intros _ w2 [H2 A2]. split; [|auto]. eapply added_ext; [eapply added_trans; eassumption|].
        intros x y. cbn [fmap list_fmap]. rewrite elem_of_cons. tauto.
      * intros e w2 (-> & Hne & P & H2 & HP). split; [done|]. split; [auto|]. eexists. split; [eapply added_trans; eassumption|].
        intros x y. cbn [fmap list_fmap]. rewrite elem_of_cons. intros [[-> ->]|Hxy]; [tauto|]. apply HP in Hxy. tauto.
    + intros e w1 (-> & Hne & Q). split; [done|]. split; [done|]. eexists. split; [by apply added_refl|]. done.
Qed.

(** ** Cycles through a new arc *)

Section NewArcs.
Context {A : Type} (R R' : A -> A -> Prop) (S : A -> Prop) (a : A).
Hypothesis HR : forall x y, R' x y <-> R x y \/ (S x /\ y = a).

Lemma rtc_old x y : rtc R x y -> rtc R' x y.
Proof. induction 1; [apply rtc_refl|]. eapply rtc_l; [apply HR; by left|done]. Qed.

Lemma rtc_old_or_new x y : rtc R' x y -> rtc R x y \/ exists s, S s /\ rtc R x s /\ rtc R' a y.
Proof.
  induction 1 as [x|x y z Hxy Hyz IH]; [left; apply rtc_refl|].
  apply HR in Hxy as [Hxy|[Hx ->]].
  - destruct IH as [IH|(s & Hs & H1 & H2)]; [left|right]; [by eapply rtc_l|]. exists s. split; [done|].
    split; [by eapply rtc_l|done].
  - right. exists x. split; [done|]. split; [apply rtc_refl|done].
Qed.

(** The arcs from [S] to [a] close a cycle exactly when [a] reaches [S]. *)
Lemma new_cycle : (forall x, ~ tc R x x) -> (exists x, tc R' x x) <-> exists s, S s /\ rtc R a s.
Proof.
  intros Hac. split.
  - intros [x Hx].
    assert (exists y, R' x y /\ rtc R' y x) as (y & Hxy & Hyx).
    { inversion Hx as [? ? H|? y ? H1 H2]; subst; [eauto using rtc_refl|eauto using tc_rtc]. }
    assert (exists s, S s /\ rtc R' a s) as (s & Hs & Has).
    { apply HR in Hxy as [Hxy|[Hs ->]]; [|eauto].
      destruct (rtc_old_or_new _ _ Hyx) as [Ho|(s & Hs & Hys & Hax)].
      - destruct (Hac x). apply rtc_tc in Ho as [->|Ho]; [by apply tc_once|by eapply tc_l].
      - exists s. split; [done|]. eapply rtc_trans; [exact Hax|]. eapply rtc_l; [apply HR; left; exact Hxy|]. by apply rtc_old. }
    destruct (rtc_old_or_new _ _ Has) as [Ho|(s' & Hs' & Hr & _)]; eauto.
  - intros (s & Hs & Hr). exists s. eapply tc_rtc_r; [apply tc_once, HR; right; eauto|]. by apply rtc_old.
Qed.
End NewArcs.
