(* ===== verification/LockdepCycle.v ===== *)
(** * The report of the lock dependency checker

    [lockdep_graph_get_shortest_cycle()] and [lockdep_print_cycle_info()] of
    optee_os/core/kernel/lockdep.c, modelled in [Lockdep]: the breadth-first search returns a
    shortest cycle through a node that lies on one, and the report finds every edge of it. *)
From stdpp Require Import gmap relations.
From S2P Require Import Prelude Lockdep.
Local Open Scope Z_scope.

(** [p] lists the lock ids of a walk from [s] to a node. *)
Inductive walk (w : lockdep) (s : addr) : list Z -> addr -> Prop :=
| walk_start i : lid w s = Some i -> walk w s [i] s
| walk_snoc p b c i : walk w s p b -> arc w b c -> lid w c = Some i -> walk w s (p ++ [i]) c.

(** [p] is a shortest cycle through [s]: the ids along a walk that an arc closes, and no closed walk
    through [s] has fewer arcs. *)
Definition shortest_cycle (w : lockdep) (s : addr) (p : list Z) : Prop :=
  exists a, walk w s p a /\ arc w a s /\ forall k, nsteps (arc w) k s s -> (0 < k)%nat -> (length p <= k)%nat.

Definition visited (w : lockdep) (a : addr) : Prop := exists f, flag w a = Some f /\ Z.testbit f 2 = true.

Lemma walk_nsteps w s p a : walk w s p a -> exists n, length p = S n /\ nsteps (arc w) n s a.
Proof.
  induction 1 as [i Hi|p b c i _ (n & Hn & Hs) Hbc _].
  - exists 0%nat. split; [done|constructor].
  - exists (S n). rewrite length_app, Hn. split; [simpl; lia|]. by eapply nsteps_r.
Qed.

#[global] Instance visited_dec w a : Decision (visited w a).
Proof.
  destruct (flag w a) as [f|] eqn:E.
  - destruct (Z.testbit f 2) eqn:T; [left; by exists f|right; intros (g & Hg & ?); congruence].
  - right. intros (g & Hg & _). congruence.
Defined.

Section Search.
Context (w0 : lockdep) (s : addr) (id : Z).
Hypothesis (W : lockdep_wf w0) (Hid : lid w0 s = Some id).

(** The queue: first the entries with paths of length [n], then those with one more. *)
Record bfs_inv (n : nat) (q1 q2 : list lockdep_bfs) (w : lockdep) : Prop := mk_bfs_inv {
  b_skel : skel w = skel w0;
  b_mem : allocs w = [];
  b_start : visited w s;
  b_walk e : e ∈ q1 ++ q2 -> walk w0 s (path e) (bfs_node e) /\ visited w (bfs_node e);
  b_nodup : NoDup (bfs_node <$> q1 ++ q2);
  b_len1 e : e ∈ q1 -> length (path e) = n;
  b_len2 e : e ∈ q2 -> length (path e) = S n;
  b_min e k : e ∈ q1 ++ q2 -> nsteps (arc w0) k s (bfs_node e) -> (length (path e) <= S k)%nat;
}.

(** The nodes that are finished: all their successors were seen, none is the start. *)
Definition finished (w : lockdep) (b : addr) : Prop := forall c, arc w0 b c -> c <> s /\ visited w c.

(** Visited nodes outside the queue are finished, and so is what is near the start. *)
Record bfs_done (n : nat) (out : addr -> Prop) (w : lockdep) : Prop := mk_bfs_done {
  d_done b : visited w b -> out b -> finished w b;
  d_near k b : nsteps (arc w0) k s b -> (S k < n)%nat -> visited w b /\ out b;
}.

Definition unvisited (w : lockdep) : list addr := filter (fun a => ~ visited w a) (graph w0).

Lemma lid_w w a : skel w = skel w0 -> lid w a = lid w0 a.
Proof.
  intros H. unfold lid. destruct (nodes w !! a) as [n|] eqn:E.
  - destruct (skel_node _ _ _ _ H E) as (m & -> & Ei & _). simpl. congruence.
  - destruct (nodes w0 !! a) as [m|] eqn:E0; [|done]. destruct (skel_node _ _ _ _ (eq_sym H) E0) as (n & Hn & _). congruence.
Qed.

(** Marking a node as visited. *)
Lemma mark_visited a n w : nodes w !! a = Some n -> skel w = skel w0 -> ~ visited w a ->
  runs (or_flags a LOCKDEP_NODE_BFS_VISITED) (fun _ w' => skel w' = skel w0 /\ allocs w' = allocs w /\
    (forall b, visited w' b <-> b = a \/ visited w b) /\ (length (unvisited w') < length (unvisited w))%nat)
    (fun _ _ => False) w.
Proof.
  intros Hn Hs Hv. apply (runs_or_flags a _ n); [done|]. intros w' S' [= A' _] F' O'.
  assert (forall b, visited w' b <-> b = a \/ visited w b) as V.
  { intros b. unfold visited. destruct (decide (b = a)) as [->|Hne].
    - split; [by left|]. intros _. eexists. split; [exact F'|]. by rewrite Z.lor_spec, orb_true_r.
    - rewrite O' by done. naive_solver. }
  split; [congruence|]. split; [done|]. split; [done|]. unfold unvisited. apply (filter_length_lt _ _ _ a).
  - intros x Hx Hx'. apply Hx. apply V. by right.
  - apply W. apply (skel_live _ _ _ Hs). eauto.
  - done.
  - intros Hx. apply Hx. apply V. by left.
Qed.

Lemma not_visited_flag w a n : nodes w !! a = Some n -> has (flags n) LOCKDEP_NODE_BFS_VISITED = true <-> visited w a.
Proof.
  intros Hn. unfold LOCKDEP_NODE_BFS_VISITED. rewrite has_bit by lia. unfold visited, flag. rewrite Hn. simpl. naive_solver.
Qed.

(** The nodes out of the queue [q] and not being processed. *)
Definition outside (a : addr) (q : list lockdep_bfs) (b : addr) : Prop := b <> a /\ b ∉ bfs_node <$> q.

(** Putting a new successor at the end of the queue. *)
Lemma enqueue a n q1 q2 p c i w w' : bfs_inv n q1 q2 w -> bfs_done n (outside a (q1 ++ q2)) w ->
  walk w0 s p a -> length p = n -> arc w0 a c -> lid w0 c = Some i -> ~ visited w c ->
  skel w' = skel w0 -> allocs w' = [] -> (forall b, visited w' b <-> b = c \/ visited w b) ->
  bfs_inv n q1 (q2 ++ [mk_bfs c (p ++ [i])]) w' /\ bfs_done n (outside a (q1 ++ q2 ++ [mk_bfs c (p ++ [i])])) w'.
Proof.
  intros I D Wa Lp Hac Hi Hv Hs Hm V. set (e := mk_bfs c (p ++ [i])).
  assert (forall x, x ∈ q1 ++ q2 ++ [e] <-> x ∈ q1 ++ q2 \/ x = e) as Hin.
  { intros x. rewrite app_assoc, elem_of_app, list_elem_of_singleton. done. }
  assert (forall x, x ∈ bfs_node <$> q1 ++ q2 ++ [e] <-> x ∈ bfs_node <$> q1 ++ q2 \/ x = c) as Hnin.
  { intros x. rewrite app_assoc, fmap_app, elem_of_app. cbn [fmap list_fmap bfs_node e]. by rewrite list_elem_of_singleton. }
  assert (c ∉ bfs_node <$> q1 ++ q2) as Hc.
  { intros (x & -> & Hx)%list_elem_of_fmap. apply Hv. by apply (b_walk _ _ _ _ I). }
  split.
  - split.
    + done.
    + done.
    + apply V. right. apply I.
    + intros x [Hx| ->]%Hin.
      * destruct (b_walk _ _ _ _ I x Hx). split; [done|]. apply V. by right.
      * split; [by eapply walk_snoc|]. apply V. by left.
    + rewrite app_assoc, fmap_app. apply NoDup_app. split; [apply I|]. split; [|apply NoDup_singleton].
      intros x Hx Hx'. apply list_elem_of_singleton in Hx' as ->. done.
    + apply I.
    + intros x [Hx|Hx]%elem_of_app; [by apply (b_len2 _ _ _ _ I)|]. apply list_elem_of_singleton in Hx as ->. simpl.
      rewrite length_app. simpl. lia.
    + intros x k [Hx| ->]%Hin Hk; [by apply (b_min _ _ _ _ I x k)|]. simpl in *. rewrite length_app. simpl.
      destruct (decide (S k < n + 1)%nat) as [Hlt|]; [exfalso|lia]. destruct k as [|k].
      * inversion Hk; subst. apply Hv, I.
      * apply nsteps_inv_r in Hk as (b & Hk & Hb). destruct (d_near _ _ _ D k b Hk ltac:(lia)) as [Vb Ob].
        destruct (d_done _ _ _ D b Vb Ob c Hb). done.
  - split.
    + intros b Vb [Ob1 Ob2] d Hd. rewrite Hnin in Ob2. apply V in Vb as [-> |Vb]; [naive_solver|].
      destruct (d_done _ _ _ D b Vb) with (c := d) as [? ?]; [split; naive_solver|done|]. split; [done|]. apply V. by right.
    + intros k b Hk Hlt. destruct (d_near _ _ _ D k b Hk Hlt) as [Vb [Ob1 Ob2]]. split; [apply V; by right|].
      split; [done|]. rewrite Hnin. intros [?| ->]; done.
Qed.

Lemma bfs_edges_spec a n nd p q1 : walk w0 s p a -> length p = n -> nodes w0 !! a = Some nd -> forall es q2 w,
  bfs_inv n q1 q2 w -> bfs_done n (outside a (q1 ++ q2)) w -> (forall e, e ∈ es -> e ∈ edges nd) ->
  (forall e, e ∈ edges nd -> e ∈ es \/ (to e <> s /\ visited w (to e))) ->
  runs (bfs_edges id (mk_bfs a p) es (q1 ++ q2)) (fun t w' => match t with
    | Cycle c => c = p ++ [0] /\ arc w0 a s /\ skel w' = skel w0 /\ allocs w' = []
    | NoMemory => False
    | Queue q' => exists q2', q' = q1 ++ q2' /\ bfs_inv n q1 q2' w' /\ bfs_done n (outside a q') w' /\ finished w' a /\
        (length q' + length (unvisited w') <= length (q1 ++ q2) + length (unvisited w))%nat
    end) (fun _ _ => False) w.
Proof.
  intros Wa Lp Hnd. induction es as [|e es IH]; intros q2 w I D Hes Hdone; cbn [bfs_edges].
  - apply runs_ret. exists q2. split; [done|]. split; [done|]. split; [done|]. split; [|lia].
    intros c (nd' & Hnd' & Hc). assert (nd' = nd) as -> by congruence. apply list_elem_of_fmap in Hc as (x & -> & Hx).
    destruct (Hdone x Hx) as [Hin|]; [|done]. by apply elem_of_nil in Hin.
  - pose proof (b_skel _ _ _ _ I) as Hs.
    assert (arc w0 a (to e)) as Hae.
    { exists nd. split; [done|]. apply list_elem_of_fmap_2. apply Hes. by left. }
    destruct (wf_edges w0 W _ _ Hae) as [n0 Hn0]. destruct (skel_node _ _ _ _ (eq_sym Hs) Hn0) as (ne & Hne & Ei & _).
    assert (lid w0 (to e) = Some (lock_id ne)) as Hl by (unfold lid; rewrite Hn0; simpl; congruence).
    apply runs_bind, (runs_load (to e) ne); [done|]. cbn [path]. destruct (lock_id ne =? id) eqn:E; bool_hyps.
    + assert (to e = s) as Ht by (apply (lid_inj w0 _ _ id W); congruence). rewrite Ht in Hae.
      apply runs_bind, runs_edge_calloc. intros b w' S' N' A'. destruct (A' (b_mem _ _ _ _ I)) as [-> Hal].
      apply runs_ret. split; [done|]. split; [done|]. split; [congruence|done].
    + assert (to e <> s) as Ht by congruence. destruct (has (flags ne) LOCKDEP_NODE_BFS_VISITED) eqn:V; cbn [negb].
      * apply (not_visited_flag w (to e)) in V; [|done]. apply IH; [done|done|intros; apply Hes; by right|].
        intros x Hx. destruct (Hdone x Hx) as [[-> |Hin]%elem_of_cons|]; [by right|by left|by right].
      * assert (~ visited w (to e)) as Nv.
        { intros HV. apply (not_visited_flag w (to e) ne) in HV; [|done]. congruence. }
        apply runs_bind. eapply runs_mono; [by apply (mark_visited _ ne)| |done]. cbv beta. intros _ w1 (S1 & A1 & V1 & U1).
        rewrite (b_mem _ _ _ _ I) in A1. apply runs_bind, runs_edge_calloc. intros b w2 S2 N2 A2. destruct (A2 A1) as [-> Hal2].
        apply runs_bind, runs_edge_calloc. intros b w3 S3 N3 A3. destruct (A3 Hal2) as [-> Hal3]. cbn [negb].
        assert (forall x, visited w3 x <-> x = to e \/ visited w x) as V3.
        { intros x. rewrite <- V1. unfold visited, flag. by rewrite N3, N2. }
        assert (unvisited w3 = unvisited w1) as U3.
        { unfold unvisited. apply list_filter_iff. intros x. by rewrite V3, V1. }
        destruct (enqueue a n q1 q2 p (to e) (lock_id ne) w w3) as [I3 D3]; try done; [congruence|].
        rewrite <- app_assoc. eapply runs_mono; [apply IH; [done|done|intros; apply Hes; by right|]| |done].
        -- intros x Hx. destruct (Hdone x Hx) as [[-> |Hin]%elem_of_cons|[? ?]]; [right|by left|right]; (split; [done|]); apply V3; auto.
        -- cbv beta. intros [c| |q'] w' Hq; [done..|]. destruct Hq as (q2' & -> & I' & D' & F' & M'). exists q2'.
           split; [done|]. split; [done|]. split; [done|]. split; [done|]. rewrite U3 in M'. rewrite !length_app in *. simpl in *. lia.
Qed.

(** When no entry of the present length is left, the next length is the present one. *)
Lemma next_level n q2 w : bfs_inv n [] q2 w -> bfs_done n (fun b => b ∉ bfs_node <$> q2) w ->
  bfs_inv (S n) q2 [] w /\ bfs_done (S n) (fun b => b ∉ bfs_node <$> q2) w.
Proof.
  intros I D. pose proof I as [I1 I2 I3 I4 I5 I6 I7 I8]. split.
  - split; rewrite ?app_nil_r; try done. intros e He. by apply elem_of_nil in He.
  - split; [apply D|]. intros k b Hk Hlt. destruct (decide (S k < n)%nat) as [|Hge]; [by apply (d_near _ _ _ D k b)|].
    assert (b ∉ bfs_node <$> q2) as Nb.
    { intros (e & -> & He)%list_elem_of_fmap. pose proof (I8 e k He Hk). rewrite (I7 e He) in *. lia. }
    split; [|done]. destruct k as [|k]; [inversion Hk; by subst|].
    apply nsteps_inv_r in Hk as (c & Hk & Hc). destruct (d_near _ _ _ D k c Hk ltac:(lia)) as [Vc Oc].
    by apply (d_done _ _ _ D c Vc Oc).
Qed.

Definition search_found (r : option (list Z)) (w' : lockdep) : Prop :=
  exists p, r = Some (p ++ [0]) /\ shortest_cycle w0 s p /\ skel w' = skel w0 /\ allocs w' = [].

(** Nothing near the start closes a cycle. *)
Lemma near_no_cycle n out w k : bfs_done n out w -> nsteps (arc w0) k s s -> (0 < k)%nat -> (n <= k)%nat.
Proof.
  intros D Hk Hp. destruct k as [|k]; [lia|]. apply nsteps_inv_r in Hk as (b & Hk & Hb).
  destruct (decide (S k < n)%nat) as [Hlt|]; [|lia]. destruct (d_near _ _ _ D k b Hk Hlt) as [Vb Ob].
  by destruct (d_done _ _ _ D b Vb Ob s Hb).
Qed.

(** An exhausted queue: everything the start reaches is finished, so it is on no cycle. *)
Lemma exhausted n w : bfs_inv n [] [] w -> bfs_done n (fun b => b ∉ bfs_node <$> []) w -> ~ tc (arc w0) s s.
Proof.
  intros I D Hc.
  assert (forall b, rtc (arc w0) s b -> visited w b) as Hall.
  { apply rtc_ind_r; [apply I|]. intros x y _ Hxy IHb. by apply (d_done _ _ _ D x IHb (not_elem_of_nil _) y Hxy). }
  apply tc_nsteps in Hc as ([|m] & Hm & Hn); [lia|]. apply nsteps_inv_r in Hn as (b & Hn & Hbs).
  by destruct (d_done _ _ _ D b (Hall b (rtc_nsteps_2 _ _ _ Hn)) (not_elem_of_nil _) s Hbs).
Qed.

(** One turn of the loop. *)
Lemma bfs_turn_spec k n a p q1 q2 w : bfs_inv n (mk_bfs a p :: q1) q2 w ->
  bfs_done n (fun b => b ∉ bfs_node <$> mk_bfs a p :: q1 ++ q2) w ->
  (forall q2' w', bfs_inv n q1 q2' w' -> bfs_done n (fun b => b ∉ bfs_node <$> q1 ++ q2') w' ->
     (length (q1 ++ q2') + length (unvisited w') <= length (q1 ++ q2) + length (unvisited w))%nat ->
     runs (bfs_loop k id (q1 ++ q2')) search_found (fun _ _ => False) w') ->
  runs (bfs_loop (S k) id (mk_bfs a p :: q1 ++ q2)) search_found (fun _ _ => False) w.
Proof.
  intros I D Hk. cbn [bfs_loop bfs_node]. destruct (b_walk _ _ _ _ I (mk_bfs a p) ltac:(by left)) as [Wa Va]. simpl in Wa, Va.
  pose proof (b_len1 _ _ _ _ I (mk_bfs a p) ltac:(by left)) as Lp. simpl in Lp. pose proof (b_skel _ _ _ _ I) as Hs.
  assert (exists nd, nodes w0 !! a = Some nd) as [nd Hnd].
  { destruct Wa as [i Hi|? ? ? i _ _ Hi]; apply lid_live in Hi as (nd & ? & _); eauto. }
  destruct (skel_node _ _ _ _ (eq_sym Hs) Hnd) as (nw & Hnw & _ & Ee).
  apply runs_bind, (runs_load a nw); [done|]. rewrite Ee. apply runs_bind.
  eapply runs_mono; [apply (bfs_edges_spec a n nd p q1 Wa Lp Hnd (edges nd) q2)| |done].
  - pose proof I as [I1 I2 I3 I4 I5 I6 I7 I8]. split; try done.
    + intros e He. apply I4. by right.
    + by apply NoDup_cons in I5 as [_ ?].
    + intros e He. apply I6. by right.
    + intros e m He. apply I8. by right.
  - split.
    + intros b Vb [O1 O2]. apply (d_done _ _ _ D b Vb). cbn [fmap list_fmap bfs_node]. rewrite elem_of_cons. naive_solver.
    + intros m b Hm Hlt. destruct (d_near _ _ _ D m b Hm Hlt) as [Vb Ob]. split; [done|].
      cbn [fmap list_fmap bfs_node] in Ob. rewrite elem_of_cons in Ob. split; naive_solver.
  - done.
  - auto.
  - cbv beta. intros [c| |q'] w' Ht; [|done|].
    + destruct Ht as (-> & Ha & Sw & Aw). apply runs_ret. exists p. split; [done|]. split; [|done]. exists a.
      split; [done|]. split; [done|]. intros m Hm Hp. rewrite Lp. by apply (near_no_cycle _ _ _ _ D).
    + destruct Ht as (q2' & -> & I' & D' & F' & M'). apply Hk; [done| |done]. split.
      * intros b Vb Ob. destruct (decide (b = a)) as [-> |Hne]; [done|]. by apply (d_done _ _ _ D' b Vb).
      * intros m b Hm Hlt. destruct (d_near _ _ _ D' m b Hm Hlt) as [Vb [_ Ob]]. done.
Qed.

Lemma bfs_loop_spec fuel : forall n q1 q2 w, bfs_inv n q1 q2 w -> bfs_done n (fun b => b ∉ bfs_node <$> q1 ++ q2) w ->
  tc (arc w0) s s -> (length (q1 ++ q2) + length (unvisited w) < fuel)%nat ->
  runs (bfs_loop fuel id (q1 ++ q2)) search_found (fun _ _ => False) w.
Proof.
  induction fuel as [|k IH]; intros n q1 q2 w I D Hc Hf; [lia|].
  destruct q1 as [|[a p] q1]; [destruct q2 as [|[a p] q2]|].
  - by destruct (exhausted n w I D).
  - destruct (next_level n (mk_bfs a p :: q2) w I D) as [I' D']. simpl in *. rewrite <- (app_nil_r q2).
    apply (bfs_turn_spec k (S n)); [done|by rewrite app_nil_r|]. intros q2' w' J E M. rewrite app_nil_r in M.
    apply (IH (S n)); [done..|lia].
  - simpl in *. apply (bfs_turn_spec k n); [done..|]. intros q2' w' J E M. apply (IH n); [done..|lia].
Qed.
End Search.

(** [lockdep_graph_get_shortest_cycle()] on a node that lies on a cycle, when memory suffices. *)
Lemma get_shortest_cycle_spec w s : lockdep_wf w -> is_Some (nodes w !! s) -> (forall a, ~ visited w a) -> allocs w = [] ->
  tc (arc w) s s -> runs (lockdep_graph_get_shortest_cycle s) (search_found w s) (fun _ _ => False) w.
Proof.
  intros W [n Hn] Nv Hm Hc. unfold lockdep_graph_get_shortest_cycle.
  assert (lid w s = Some (lock_id n)) as Hi by (unfold lid; by rewrite Hn).
  apply runs_bind. eapply runs_mono; [by apply (mark_visited w W s n w)| |done]. cbv beta. intros _ w1 (S1 & A1 & V1 & _).
  rewrite Hm in A1. apply runs_bind, runs_edge_calloc. intros b w2 S2 N2 A2. destruct (A2 A1) as [-> Hal2].
  apply runs_bind, runs_edge_calloc. intros b w3 S3 N3 A3. destruct (A3 Hal2) as [-> Hal3]. cbn [negb].
  assert (skel w3 = skel w) as Hs by congruence. destruct (skel_node _ _ _ _ (eq_sym Hs) Hn) as (n' & Hn' & Ei & _).
  assert (forall x, visited w3 x <-> x = s) as V3.
  { intros x. transitivity (visited w1 x); [unfold visited, flag; by rewrite N3, N2|]. rewrite V1. naive_solver. }
  apply runs_bind, (runs_load s n'); [done|]. rewrite Ei. apply runs_bind, runs_get.
  pose proof Hs as [= _ Hg _ _ _]. rewrite Hg.
  apply (bfs_loop_spec w s (lock_id n) W Hi (S (S (length (graph w)))) 1 [mk_bfs s [lock_id n]] []); [| |done|].
  - split; try done.
    + by apply V3.
    + intros e He. apply list_elem_of_singleton in He as ->. split; [by constructor|by apply V3].
    + apply NoDup_singleton.
    + intros e He. by apply list_elem_of_singleton in He as ->.
    + intros e He. by apply elem_of_nil in He.
    + intros e k He _. apply list_elem_of_singleton in He as ->. simpl. lia.
  - split.
    + intros b ->%V3 Ob. destruct Ob. by apply list_elem_of_singleton.
    + intros k b _ Hlt. lia.
  - simpl. unfold unvisited. pose proof (length_filter (fun a => ~ visited w3 a) (graph w)). lia.
Qed.

(** ** The report *)

(** The order on lock ids that the graph records. *)
Definition before (w : lockdep) (x y : Z) : Prop := exists a b, lid w a = Some x /\ lid w b = Some y /\ arc w a b.

(** The consecutive pairs of [x :: l] and, at the end, [z]. *)
Fixpoint links (x : Z) (l : list Z) (z : Z) : list (Z * Z) :=
  match l with
  | [] => [(x, z)]
  | y :: r => (x, y) :: links y r z
  end.

Lemma links_snoc x l y z : links x (l ++ [y]) z = links x l y ++ [(y, z)].
Proof. revert x. induction l as [|u l IH]; intros x; simpl; [done|]. by rewrite IH. Qed.

Lemma find_edge_to_spec w es x : (forall e, e ∈ es -> is_Some (nodes w !! to e)) -> (exists e, e ∈ es /\ lid w (to e) = Some x) ->
  runs (find_edge_to es x) (fun r w' => w' = w /\ exists e, r = Some e /\ e ∈ es /\ lid w (to e) = Some x) (fun _ _ => False) w.
Proof.
  induction es as [|e es IH]; intros Hl (e0 & Hin & H0); [by apply elem_of_nil in Hin|]. cbn [find_edge_to].
  destruct (Hl e ltac:(by left)) as [n Hn]. apply runs_bind, (runs_load (to e) n); [done|].
  assert (lid w (to e) = Some (lock_id n)) as Hi by (unfold lid; by rewrite Hn). destruct (lock_id n =? x) eqn:E; bool_hyps.
  - apply runs_ret. split; [done|]. exists e. split; [done|]. split; [by left|congruence].
  - eapply runs_mono; [apply IH; [intros; apply Hl; by right|]| |done].
    + exists e0. apply elem_of_cons in Hin as [-> |]; [congruence|done].
    + cbv beta. intros r w' (-> & e1 & -> & ? & ?). split; [done|]. exists e1. split; [done|]. split; [by right|done].
Qed.

Lemma find_edge_spec w x y : lockdep_wf w -> before w x y ->
  runs (lockdep_find_edge x y) (fun r w' => w' = w /\ exists e, r = Some e /\ lid w (to e) = Some y) (fun _ _ => False) w.
Proof.
  intros W (a & b & Ha & Hb & Hab). unfold lockdep_find_edge. apply runs_bind, runs_get.
  pose proof Hab as (n & Hn & Hbn). assert (lock_id n = x) as Hnx by (unfold lid in Ha; rewrite Hn in Ha; by simplify_eq/=).
  assert (a ∈ graph w) as Hin by (apply W; eauto). assert (forall c, c ∈ graph w -> is_Some (nodes w !! c)) as Hl by apply W.
  revert Hin Hl. generalize (graph w) as l. induction l as [|c l IH]; intros Hin Hl; [by apply elem_of_nil in Hin|].
  cbn [find_edge_in]. destruct (Hl c ltac:(by left)) as [m Hm]. apply runs_bind, (runs_load c m); [done|].
  destruct (lock_id m =? x) eqn:E; bool_hyps.
  - assert (c = a) as -> by (apply (wf_ids w W c a m n); congruence). assert (m = n) as -> by congruence.
    apply runs_bind. eapply runs_mono; [apply (find_edge_to_spec w _ y)| |done].
    + intros e He. apply (wf_edges w W a). exists n. split; [done|]. by apply list_elem_of_fmap_2.
    + apply list_elem_of_fmap in Hbn as (e & -> & He). eauto.
    + cbv beta. intros r w' (-> & e & -> & _ & He). apply runs_ret. eauto.
  - apply IH; [|intros; apply Hl; by right]. apply elem_of_cons in Hin as [-> |]; [congruence|done].
Qed.

(** The pair (held, acquired) of a message. *)
Definition message_link (m : Z * Z * Z) : Z * Z := (snd m, snd (fst m)).

Lemma print_edges_spec w first : lockdep_wf w -> forall l x, Forall (fun i => i <> 0) l ->
  Forall (fun p => before w (fst p) (snd p)) (links x l first) ->
  runs (print_edges first (Some x) (l ++ [0])) (fun ms w' => w' = w /\ message_link <$> ms = links x l first) (fun _ _ => False) w.
Proof.
  intros W. assert (forall x y w1, w1 = w -> before w x y ->
    runs (let! e := lockdep_find_edge x y in lockdep_print_edge_info x e)
      (fun m w' => w' = w /\ message_link m = (x, y)) (fun _ _ => False) w1) as Hedge.
  { intros x y w1 -> Hb. apply runs_bind. eapply runs_mono; [by apply find_edge_spec| |done]. cbv beta.
    intros r w' (-> & e & -> & He). unfold lockdep_print_edge_info. apply runs_bind, runs_ret. apply lid_live in He as (n & Hn & Hi).
    apply runs_bind, (runs_load _ n); [done|]. apply runs_ret. split; [done|]. unfold message_link. simpl. congruence. }
  assert (forall A (m : Z -> L A) x e (k : _ -> L A) w1 Q, runs (let! r := (let! e := lockdep_find_edge x e in lockdep_print_edge_info x e) in k r) Q (fun _ _ => False) w1 ->
     runs (let! r := lockdep_find_edge x e in let! r' := lockdep_print_edge_info x r in k r') Q (fun _ _ => False) w1) as Hassoc.
  { intros A m x e k w1 Q. unfold runs. by rewrite bind_assoc. }
  induction l as [|y l IH]; intros x Hnz Hb; cbn [print_edges app links] in *.
  - change (0 =? 0) with true. cbv iota. apply (Hassoc _ (fun _ => ret [])), runs_bind. inversion Hb; subst.
    eapply runs_mono; [by apply Hedge| |done]. cbv beta. intros m w' [-> Hm]. apply runs_ret. split; [done|]. simpl. by rewrite Hm.
  - inversion Hb; subst. inversion Hnz; subst. rewrite (proj2 (Z.eqb_neq y 0)) by done.
    apply (Hassoc _ (fun _ => ret [])), runs_bind. eapply runs_mono; [by apply Hedge| |done]. cbv beta. intros m w' [-> Hm].
    apply runs_bind. eapply runs_mono; [by apply IH| |done]. cbv beta. intros ms w' [-> Hms]. apply runs_ret. split; [done|].
    cbn [fmap list_fmap]. by rewrite Hm, Hms.
Qed.

Lemma walk_links w s p a : lockdep_wf w -> walk w s p a -> exists i l, p = i :: l /\ lid w s = Some i /\
  Forall (fun j => j <> 0) p /\ forall y b, lid w b = Some y -> arc w a b -> Forall (fun p => before w (fst p) (snd p)) (links i l y).
Proof.
  intros W. assert (forall a i, lid w a = Some i -> i <> 0) as Nz.
  { intros b i (n & Hn & <-)%lid_live. by apply (wf_nonzero w W b). }
  assert (forall q b, walk w s q b -> exists i, lid w b = Some i /\ last q = Some i) as Hlast.
  { intros q b [i Hi|q' c d i _ _ Hi]; exists i; (split; [done|]); [done|by rewrite last_snoc]. }
  induction 1 as [i Hi|p b c i Hw IH Hbc Hi].
  - exists i, []. split; [done|]. split; [done|]. split; [repeat constructor; eauto|]. intros y b Hb Hab. repeat constructor.
    exists s, b. done.
  - destruct IH as (j & l & -> & Hj & Hnz & Hl). exists j, (l ++ [i]). split; [done|]. split; [done|]. split.
    + apply Forall_app. split; [done|]. repeat constructor. eauto.
    + intros y d Hd Hcd. rewrite links_snoc. apply Forall_app. split; [by apply (Hl i c)|].
      repeat constructor. exists c, d. done.
Qed.

(** The report names a shortest cycle through the node, edge by edge. *)
Definition reported (w : lockdep) (s : addr) (ms : list (Z * Z * Z)) : Prop :=
  exists i l, shortest_cycle w s (i :: l) /\ message_link <$> ms = links i l i /\
    Forall (fun p => before w (fst p) (snd p)) (links i l i).

Lemma print_cycle_info_spec w s : lockdep_wf w -> is_Some (nodes w !! s) -> (forall a, ~ visited w a) -> allocs w = [] ->
  tc (arc w) s s ->
  runs (lockdep_print_cycle_info s) (fun _ w' => exists ms, console w' = console w ++ ms /\ reported w s ms) (fun _ _ => False) w.
Proof.
  intros W Hs Nv Hm Hc. unfold lockdep_print_cycle_info. apply runs_bind.
  eapply runs_mono; [by apply get_shortest_cycle_spec| |done]. cbv beta. intros r w' (p & -> & Hp & Sw & _).
  pose proof Hp as (a & Hw & Ha & _). destruct (walk_links w s p a W Hw) as (i & l & -> & Hi & Hnz & Hl).
  pose proof (Hl i s Hi Ha) as Hlk. inversion Hnz; subst. cbn [app]. apply runs_bind.
  rewrite (proj2 (Z.eqb_neq i 0)) by done. apply runs_assert; [done|]. cbn [print_edges].
  rewrite (proj2 (Z.eqb_neq i 0)) by done.
  assert (forall x y, before w x y -> before w' x y) as Hbw.
  { intros x y (b & c & Hb & Hcc & Hbc). exists b, c. rewrite !(lid_w w w') by done. split; [done|]. split; [done|].
    by apply (skel_arc w). }
  apply runs_bind. eapply runs_mono; [apply (print_edges_spec w' i)| |done].
  - by apply (skel_wf w).
  - done.
  - eapply Forall_impl; [exact Hlk|]. intros [x y]. apply Hbw.
  - cbv beta. intros ms w2 [-> Hms]. eapply runs_eq; [reflexivity|]. exists ms. split.
    + simpl. by pose proof Sw as [= _ _ _ _ ->].
    + exists i, l. done.
Qed.
