(* ===== verification/LockdepOrder.v ===== *)
(** * The lock dependency checker as a lock order

    What optee_os/core/kernel/lockdep.c (modelled in [Lockdep]) promises to its callers, in terms of
    lock ids: an order [before] between locks and, for each thread, the list [held] of the locks it
    owns. [__lockdep_lock_acquire()] accepts a lock exactly when it closes no cycle of the order, and
    threads that lock mutexes through mutex_lockdep.c never wait for each other in a circle. *)
From stdpp Require Import gmap relations.
From S2P Require Import Prelude Lockdep LockdepCycle.
Local Open Scope Z_scope.

(** The ids of the locks a thread owns, in the order it acquired them. *)
Definition held (w : lockdep) (o : Z) : list Z :=
  (fun l => default 0 (lid w (node l))) <$> default [] (queues w !! o).

(** Some owned lock was acquired after [id] before, or is [id]. *)
Definition would_deadlock (w : lockdep) (o id : Z) : Prop := exists h, h ∈ held w o /\ rtc (before w) id h.

(** The order with the arcs that acquiring [id] adds. *)
Definition with_arcs (w : lockdep) (o id x y : Z) : Prop := before w x y \/ (x ∈ held w o /\ y = id).

(** ** Ids and addresses *)

Lemma before_tc w x y : lockdep_wf w -> tc (before w) x y -> exists a b, lid w a = Some x /\ lid w b = Some y /\ tc (arc w) a b.
Proof.
  intros W. induction 1 as [x y (a & b & Ha & Hb & Hab)|x y z (a & b & Ha & Hb & Hab) _ (b' & c & Hb' & Hc & Hbc)].
  - exists a, b. eauto using tc_once.
  - assert (b' = b) as -> by (by eapply lid_inj). exists a, c. eauto using tc_l.
Qed.

Lemma nsteps_before w k a b x : lockdep_wf w -> nsteps (arc w) k a b -> lid w a = Some x ->
  exists y, lid w b = Some y /\ nsteps (before w) k x y.
Proof.
  intros W Hn. revert x. induction Hn as [a|k a b c Hab _ IH]; intros x Ha; [eauto using nsteps_O|].
  destruct (wf_edges w W _ _ Hab) as [n Hb]. destruct (IH (lock_id n)) as (y & Hc & Hy); [unfold lid; by rewrite Hb|].
  exists y. split; [done|]. eapply nsteps_l; [|done]. exists a, b. unfold lid at 2. by rewrite Hb.
Qed.

Lemma before_nsteps w k a x y : lockdep_wf w -> nsteps (before w) k x y -> lid w a = Some x ->
  exists b, lid w b = Some y /\ nsteps (arc w) k a b.
Proof.
  intros W Hn. revert a. induction Hn as [x|k x y z (a & b & Ha & Hb & Hab) _ IH]; intros a' Ha'; [eauto using nsteps_O|].
  assert (a' = a) as -> by (by eapply lid_inj). destruct (IH b Hb) as (c & Hc & Hbc). exists c. split; [done|]. by eapply nsteps_l.
Qed.

Lemma before_rtc w a x y : lockdep_wf w -> lid w a = Some x -> rtc (before w) x y -> exists b, lid w b = Some y /\ rtc (arc w) a b.
Proof.
  intros W Ha (k & Hk)%rtc_nsteps. destruct (before_nsteps w k a x y W Hk Ha) as (b & Hb & Hn).
  exists b. split; [done|]. by eapply rtc_nsteps_2.
Qed.

Lemma rtc_before w a b x : lockdep_wf w -> lid w a = Some x -> rtc (arc w) a b -> exists y, lid w b = Some y /\ rtc (before w) x y.
Proof.
  intros W Ha (k & Hk)%rtc_nsteps. destruct (nsteps_before w k a b x W Hk Ha) as (y & Hb & Hn).
  exists y. split; [done|]. by eapply rtc_nsteps_2.
Qed.

Lemma before_acyclic w x : lockdep_wf w -> acyclic w -> ~ tc (before w) x x.
Proof.
  intros W Hac Ht. destruct (before_tc _ _ _ W Ht) as (a & b & Ha & Hb & Hab). assert (a = b) as <- by (by eapply lid_inj).
  by apply (Hac a).
Qed.

Lemma held_elem w o q x : lockdep_wf w -> queues w !! o = Some q -> x ∈ held w o <-> exists a, a ∈ node <$> q /\ lid w a = Some x.
Proof.
  intros W Hq. unfold held. rewrite Hq. simpl. rewrite list_elem_of_fmap. split.
  - intros (l & -> & Hl). exists (node l). split; [by apply list_elem_of_fmap_2|].
    destruct (wf_owned w W o q l Hq Hl) as [[n Hn] _]. unfold lid. by rewrite Hn.
  - intros (a & Ha & Hx). apply list_elem_of_fmap in Ha as (l & -> & Hl). exists l. by rewrite Hx.
Qed.

Lemma held_eq w w' o : (forall a x, lid w a = Some x -> lid w' a = Some x) -> lockdep_wf w -> queues w' !! o = queues w !! o ->
  held w' o = held w o.
Proof.
  intros Hl W Hq. unfold held. rewrite Hq. destruct (queues w !! o) as [q|] eqn:E; [|done]. simpl.
  apply list_fmap_ext. intros i l Hi. apply list_elem_of_lookup_2 in Hi. destruct (wf_owned w W o q l E Hi) as [[n Hn] _].
  assert (lid w (node l) = Some (lock_id n)) as Hid by (unfold lid; by rewrite Hn). by rewrite (Hl _ _ Hid), Hid.
Qed.

Lemma grown_before id a w w' x y : lockdep_wf w -> grown id a w w' -> before w' x y <-> before w x y.
Proof.
  intros W G. split; intros (b & c & Hb & Hc & Hbc).
  - apply (gr_arc _ _ _ _ G) in Hbc. destruct (arc_live _ _ _ Hbc) as [n Hn]. destruct (wf_edges w W _ _ Hbc) as [m Hm].
    assert (forall d i nd, nodes w !! d = Some nd -> lid w' d = Some i -> lid w d = Some i) as Hid.
    { intros d i nd Hd Hi. assert (lid w d = Some (lock_id nd)) as E by (unfold lid; by rewrite Hd).
      pose proof (gr_lid _ _ _ _ G _ _ E). congruence. }
    exists b, c. eauto.
  - exists b, c. split; [by apply G|]. split; [by apply G|]. by apply G.
Qed.

Lemma grown_held id a w w' o : lockdep_wf w -> grown id a w w' -> held w' o = held w o.
Proof. intros W G. apply held_eq; [apply G|done|]. by rewrite (gr_queues _ _ _ _ G). Qed.

Lemma grown_deadlock id a w w' o : lockdep_wf w -> grown id a w w' -> would_deadlock w' o id <-> would_deadlock w o id.
Proof.
  intros W G. unfold would_deadlock. rewrite (grown_held _ _ _ _ o W G).
  assert (forall x y, rtc (before w') x y <-> rtc (before w) x y) as Hr.
  { intros x y. split; apply rtc_congruence with (f := fun z => z); intros u v; by apply (grown_before _ _ _ _ u v W G). }
  split; intros (h & Hh & Hrt); exists h; (split; [done|]); by apply Hr.
Qed.

Lemma grown_ok id a w w' : lockdep_ok w -> grown id a w w' -> lockdep_ok w'.
Proof.
  intros [W U Hac] G. split; [apply G| |].
  - intros x f Hf. destruct (gr_flag _ _ _ _ G x f Hf) as [Hf'| ->]; [by apply (U x)|done].
  - intros x Hx. apply (Hac x). revert Hx. apply tc_congruence with (f := fun z => z). intros ? ?. apply G.
Qed.

Lemma added_held P w w' o : lockdep_wf w -> arcs_added P w w' -> held w' o = held w o.
Proof. intros W H. apply held_eq; [|done|by rewrite (ad_queues _ _ _ H)]. intros a x. by rewrite (ad_lid _ _ _ H). Qed.

Lemma added_unmarked P w w' : arcs_added P w w' -> unmarked w -> unmarked w'.
Proof. intros H U a f. rewrite (ad_flag _ _ _ H). apply U. Qed.

(** The arcs from the owned locks: in ids, and the cycles they close. *)
Section Arcs.
Context (w1 w2 : lockdep) (o id : Z) (a : addr) (q : list lockdep_lock).
Hypothesis (K : lockdep_ok w1) (Ha : lid w1 a = Some id) (Hq : queues w1 !! o = Some q).
Context (P : addr -> addr -> Prop).
Hypothesis (HP : forall x y, P x y -> x ∈ node <$> q /\ y = a) (HA : arcs_added P w1 w2).

Lemma arcs_wf : lockdep_wf w2.
Proof.
  eapply added_wf; [exact HA| |apply K]. intros x y [_ ->]%HP. apply lid_live in Ha as (n & Hn & _). eauto.
Qed.

Lemma arcs_unmarked : unmarked w2.
Proof. eapply added_unmarked; [exact HA|apply K]. Qed.

Lemma arcs_acyclic : ~ would_deadlock w1 o id -> acyclic w2.
Proof.
  intros Hno x Hx. apply Hno.
  assert (exists s, s ∈ node <$> q /\ rtc (arc w1) a s) as (s & Hs & Hr).
  { apply (new_cycle (arc w1) (fun x y => arc w1 x y \/ (x ∈ node <$> q /\ y = a)) (fun s => s ∈ node <$> q) a);
      [done|apply K|]. exists x. revert Hx. apply tc_congruence with (f := fun z => z). intros u v Huv.
    apply (ad_arc _ _ _ HA) in Huv as [?|?]; [by left|right; auto]. }
  destruct (rtc_before w1 a s id (ok_wf _ K) Ha Hr) as (y & Hy & Hb). exists y. split; [|done].
  apply (held_elem w1 o q); [apply K|done|]. eauto.
Qed.

Lemma arcs_before x y : (forall x, x ∈ node <$> q -> P x a) -> before w2 x y <-> with_arcs w1 o id x y.
Proof.
  intros HP'. unfold with_arcs. rewrite (held_elem w1 o q x (ok_wf _ K) Hq). split.
  - intros (b & c & Hb & Hc & Hbc). rewrite (ad_lid _ _ _ HA) in Hb, Hc. apply (ad_arc _ _ _ HA) in Hbc as [Hbc|Hbc].
    + left. exists b, c. done.
    + apply HP in Hbc as [Hbq ->]. right. split; [eauto|congruence].
  - intros [(b & c & Hb & Hc & Hbc)|[(b & Hbq & Hb) ->]].
    + exists b, c. rewrite !(ad_lid _ _ _ HA). split; [done|]. split; [done|]. apply (ad_arc _ _ _ HA). by left.
    + exists b, a. rewrite !(ad_lid _ _ _ HA). split; [done|]. split; [done|]. apply (ad_arc _ _ _ HA). auto.
Qed.

Lemma arcs_cycle : (forall x, x ∈ node <$> q -> P x a) -> would_deadlock w1 o id -> tc (arc w2) a a.
Proof.
  intros HP' (h & Hh & Hr). apply (held_elem w1 o q h (ok_wf _ K) Hq) in Hh as (b & Hbq & Hb).
  destruct (before_rtc w1 a id h (ok_wf _ K) Ha Hr) as (b' & Hb' & Hab). assert (b' = b) as -> by (eapply lid_inj; [apply K|..]; done).
  eapply tc_rtc_l; [|apply tc_once, (ad_arc _ _ _ HA); right; by apply HP'].
  clear - Hab HA. induction Hab; [apply rtc_refl|]. eapply rtc_l; [apply (ad_arc _ _ _ HA); by left|done].
Qed.
End Arcs.

(** The thread owns [id] now, and the order has the arcs. *)
Record acquired (o id : Z) (w w' : lockdep) : Prop := mk_acquired {
  aq_ok : lockdep_ok w';
  aq_before x y : before w' x y <-> with_arcs w o id x y;
  aq_held : held w' o = held w o ++ [id];
  aq_others o' : o' <> o -> held w' o' = held w o';
  aq_queues o' : is_Some (queues w' !! o') <-> is_Some (queues w !! o');
}.

(** Out of memory: arcs may have been added, the rest is as before. *)
Record not_acquired (o id : Z) (w w' : lockdep) : Prop := mk_not_acquired {
  na_ok : lockdep_ok w';
  na_before x y : before w x y -> before w' x y;
  na_new x y : before w' x y -> with_arcs w o id x y;
  na_held o' : held w' o' = held w o';
}.

Lemma quiet_ok w w' : quiet w w' -> lockdep_ok w -> lockdep_ok w'.
Proof.
  intros [Hs Hn] [W U Hac]. split; [by eapply skel_wf|intros a f; unfold flag; rewrite Hn; apply U|].
  intros a Ha. apply (Hac a). by apply (skel_tc _ _ _ _ Hs).
Qed.

Lemma quiet_before w w' x y : quiet w w' -> before w' x y <-> before w x y.
Proof. intros [Hs Hn]. unfold before, lid, arc. by rewrite Hn. Qed.

Lemma quiet_held w w' o : quiet w w' -> held w' o = held w o.
Proof. intros [[= _ _ Hq _ _] Hn]. unfold held, lid. by rewrite Hq, Hn. Qed.

(** Putting the lock at the end of the queue. *)
Lemma pushed w o id a s q : lockdep_ok w -> queues w !! o = Some q -> lid w a = Some id -> terminated s ->
  let w' := set_queue o (q ++ [mk_lock a s]) w in
  lockdep_ok w' /\ (forall x y, before w' x y <-> before w x y) /\ held w' o = held w o ++ [id] /\
  (forall o', o' <> o -> held w' o' = held w o') /\ (forall o', is_Some (queues w' !! o') <-> is_Some (queues w !! o')).
Proof.
  intros [W U Hac] Hq Ha Ts w'. split; [split|].
  - destruct W as [W1 W2 W3 W4 W5 W6 W7]. split; try done. intros o' q' l Ho Hl. simpl in Ho. destruct (decide (o' = o)) as [->|Hne].
    + rewrite lookup_insert_eq in Ho. simplify_eq. apply elem_of_app in Hl as [Hl|Hl]; [by apply (W7 o q)|].
      apply list_elem_of_singleton in Hl as ->. simpl. split; [|done]. apply lid_live in Ha as (n & Hn & _). eauto.
    + rewrite lookup_insert_ne in Ho by done. by apply (W7 o' q').
  - done.
  - done.
  - split; [done|]. unfold held. simpl. split; [|split].
    + rewrite lookup_insert_eq, Hq. simpl. rewrite fmap_app. simpl. unfold lid at 2. simpl. fold (lid w a). by rewrite Ha.
    + intros o' Hne. by rewrite lookup_insert_ne.
    + intros o'. destruct (decide (o' = o)) as [->|Hne]; [rewrite lookup_insert_eq, Hq|rewrite lookup_insert_ne by done]; naive_solver.
Qed.

Lemma runs_queue o q w (Q : list lockdep_lock -> lockdep -> Prop) E : queues w !! o = Some q -> Q q w -> runs (queue o) Q E w.
Proof. intros H HQ. unfold queue. apply runs_bind, runs_get. by rewrite H. Qed.

(** ** Acquiring *)

Section Acquire.
Context (w : lockdep) (o id : Z) (s : stack).
Hypothesis (K : lockdep_ok w) (Hid : id <> 0) (Ts : terminated s).

(** The code up to the sorting: the graph has the node and the arcs. *)
Lemma acquire_arcs (k : addr -> L unit) (Q : unit -> lockdep -> Prop) (E : Z -> lockdep -> Prop) q :
  queues w !! o = Some q ->
  (forall a w1 w2, grown id a w w1 -> arcs_added (fun x y => x ∈ node <$> q /\ y = a) w1 w2 -> (allocs w = [] -> allocs w2 = []) ->
     runs (k a) Q E w2) ->
  (forall w', allocs w <> [] -> (~ would_deadlock w o id -> not_acquired o id w w') -> E TEE_ERROR_OUT_OF_MEMORY w') ->
  runs (let! r := lockdep_add_to_graph id in
        match r with
        | None => err TEE_ERROR_OUT_OF_MEMORY
        | Some a => let! q := queue o in
            do! for_each q (fun l => lockdep_add_edge (node l) a (call_stack l) s o) in k a
        end) Q E w.
Proof.
  intros Hq Hk He. apply runs_bind. eapply runs_mono; [apply add_to_graph_spec; [apply K|done]| |done]. cbv beta.
  intros [a|] w1 [G A1].
  - pose proof (grown_ok _ _ _ _ K G) as K1. assert (queues w1 !! o = Some q) as Hq1 by (by rewrite (gr_queues _ _ _ _ G)).
    apply runs_bind, (runs_queue _ q); [done|]. apply runs_bind. eapply runs_mono; [apply add_edges_spec; [|done]|..]; cbv beta.
    + intros l Hl. destruct (wf_owned w1 (ok_wf _ K1) o q l Hq1 Hl). done.
    + intros _ w2 [H2 A2]. apply (Hk a w1); [done..|]. intros Hal. apply A2, A1, Hal.
    + intros e w2 (-> & Hne & P & H2 & HP). apply He; [intros Hal; apply Hne, A1, Hal|].
      assert (forall x y, before w2 x y -> with_arcs w o id x y) as Hnew.
      { intros x y (b & c & Hb & Hc & Hbc). unfold with_arcs. rewrite <- (grown_before _ _ _ _ x y (ok_wf _ K) G).
        rewrite <- (grown_held _ _ _ _ o (ok_wf _ K) G), (held_elem w1 o q x (ok_wf _ K1) Hq1).
        rewrite (ad_lid _ _ _ H2) in Hb, Hc. apply (ad_arc _ _ _ H2) in Hbc as [Hbc|Hbc].
        - left. exists b, c. done.
        - apply HP in Hbc as [Hbq ->]. right. split; [eauto|]. pose proof (gr_id _ _ _ _ G). congruence. }
      intros Hno. split; [split| |done|].
      * exact (arcs_wf w1 w2 id a q K1 (gr_id _ _ _ _ G) P HP H2).
      * exact (arcs_unmarked w1 w2 K1 P H2).
      * apply (arcs_acyclic w1 w2 o id a q K1 (gr_id _ _ _ _ G) Hq1 P HP H2).
        by rewrite (grown_deadlock id a w w1 o (ok_wf _ K) G).
      * intros x y Hxy. apply (grown_before _ _ _ _ x y (ok_wf _ K) G) in Hxy as (b & c & Hb & Hc & Hbc).
        exists b, c. rewrite !(ad_lid _ _ _ H2). split; [done|]. split; [done|]. apply (ad_arc _ _ _ H2). by left.
      * intros o'. rewrite (added_held _ _ _ _ (ok_wf _ K1) H2). by eapply grown_held; [apply K|].
  - apply runs_err, He; [intros Hal; by destruct (A1 Hal) as [[? ?] _]|]. intros _. split.
    + by eapply quiet_ok.
    + intros x y. by apply quiet_before.
    + intros x y Hxy. left. by apply (quiet_before w w1).
    + intros o'. by apply quiet_held.
Qed.

(** Without a deadlock the lock is acquired; only memory can be missing. *)
Lemma acquire_accepts : is_Some (queues w !! o) -> ~ would_deadlock w o id ->
  runs (__lockdep_lock_acquire o id s) (fun _ => acquired o id w)
    (fun e w' => e = TEE_ERROR_OUT_OF_MEMORY /\ allocs w <> [] /\ not_acquired o id w w') w.
Proof.
  intros [q Hq] Hno. apply (acquire_arcs _ _ _ q); [done| |naive_solver]. intros a w1 w2 G H2 A2.
  pose proof (grown_ok _ _ _ _ K G) as K1. assert (queues w1 !! o = Some q) as Hq1 by (by rewrite (gr_queues _ _ _ _ G)).
  assert (~ would_deadlock w1 o id) as Hno1 by (by rewrite (grown_deadlock id a w w1 o (ok_wf _ K) G)).
  assert (lockdep_ok w2) as K2.
  { split; [exact (arcs_wf w1 w2 id a q K1 (gr_id _ _ _ _ G) _ (fun _ _ h => h) H2)|exact (arcs_unmarked w1 w2 K1 _ H2)|].
    exact (arcs_acyclic w1 w2 o id a q K1 (gr_id _ _ _ _ G) Hq1 _ (fun _ _ h => h) H2 Hno1). }
  assert (forall x y, before w2 x y <-> with_arcs w o id x y) as Hb2.
  { intros x y. rewrite (arcs_before w1 w2 o id a q K1 (gr_id _ _ _ _ G) Hq1 _ (fun _ _ h => h) H2) by done. unfold with_arcs.
    by rewrite (grown_before _ _ _ _ x y (ok_wf _ K) G), (grown_held _ _ _ _ o (ok_wf _ K) G). }
  assert (forall o', held w2 o' = held w o') as Hh2.
  { intros o'. rewrite (added_held _ _ _ _ (ok_wf _ K1) H2). by eapply grown_held; [apply K|]. }
  apply runs_bind. unfold runs, rc_of. pose proof (graph_sort_spec w2 (ok_wf _ K2) (ok_marks _ K2)) as Hsort. unfold runs in Hsort.
  destruct (lockdep_graph_sort w2) as [[[]|e| |] w3]; try done.
  - destruct Hsort as [-> _]. change (0 =? 0) with true. cbn [negb].
    change (runs (let! ok := calloc in do! guard_err (negb ok) TEE_ERROR_OUT_OF_MEMORY in let! q := queue o in
      modify (set_queue o (q ++ [mk_lock a s]))) (fun _ => acquired o id w)
      (fun e w' => e = TEE_ERROR_OUT_OF_MEMORY /\ allocs w <> [] /\ not_acquired o id w w') w2).
    apply runs_bind, runs_edge_calloc. intros b w4 S4 N4 A4. assert (quiet w2 w4) as Q4 by done. apply runs_bind.
    destruct b; cbn [negb guard_err].
    + apply runs_ret, runs_bind. assert (queues w4 !! o = Some q) as Hq4.
      { pose proof S4 as [= _ _ -> _ _]. by rewrite (ad_queues _ _ _ H2). }
      apply (runs_queue _ q); [done|]. apply runs_modify.
      destruct (pushed w4 o id a s q) as (P1 & P2 & P3 & P4 & P5); try done.
      * by eapply quiet_ok.
      * unfold lid. rewrite N4. fold (lid w2 a). rewrite (ad_lid _ _ _ H2). apply G.
      * split; [done| | | |].
        -- intros x y. by rewrite P2, (quiet_before _ _ _ _ Q4), Hb2.
        -- by rewrite P3, (quiet_held _ _ _ Q4), Hh2.
        -- intros o' Hne. by rewrite P4, (quiet_held _ _ _ Q4), Hh2.
        -- intros o'. rewrite P5. pose proof S4 as [= _ _ -> _ _]. by rewrite (ad_queues _ _ _ H2), (gr_queues _ _ _ _ G).
    + apply runs_err. split; [done|]. split; [intros Hal; by destruct (A4 (A2 Hal))|]. split.
      * by eapply quiet_ok.
      * intros x y Hxy. apply (quiet_before _ _ _ _ Q4), Hb2. by left.
      * intros x y Hxy. by apply Hb2, (quiet_before _ _ _ _ Q4).
      * intros o'. by rewrite (quiet_held _ _ _ Q4).
  - destruct Hsort as (_ & _ & _ & [x Hx] & _). by destruct (ok_acyclic _ K2 x).
Qed.

(** A cycle of an order through [id], reported edge by edge; no cycle through [id] is shorter. *)
Definition cycle_report (R : Z -> Z -> Prop) (ms : list (Z * Z * Z)) : Prop :=
  exists l, message_link <$> ms = links id l id /\ Forall (fun p => R (fst p) (snd p)) (links id l id) /\
    forall k, nsteps R k id id -> (0 < k)%nat -> (S (length l) <= k)%nat.

(** With a deadlock the lock is refused, and a shortest cycle reported, when memory suffices. *)
Lemma acquire_refuses : is_Some (queues w !! o) -> would_deadlock w o id -> allocs w = [] ->
  exists w' ms, __lockdep_lock_acquire o id s w = (Err TEE_ERROR_BAD_STATE, w') /\
    console w' = console w ++ ms /\ cycle_report (with_arcs w o id) ms.
Proof.
  intros [q Hq] Hd Hal.
  enough (runs (__lockdep_lock_acquire o id s) (fun _ _ => False) (fun e w' => e = TEE_ERROR_BAD_STATE /\
    exists ms, console w' = console w ++ ms /\ cycle_report (with_arcs w o id) ms) w) as Hr.
  { unfold runs in Hr. destruct (__lockdep_lock_acquire o id s w) as [[|e| |] w']; try done. destruct Hr as (-> & ms & ? & ?). eauto. }
  apply (acquire_arcs _ _ _ q); [done| |by intros w' Hne]. intros a w1 w2 G H2 A2.
  pose proof (grown_ok _ _ _ _ K G) as K1. assert (queues w1 !! o = Some q) as Hq1 by (by rewrite (gr_queues _ _ _ _ G)).
  pose proof (arcs_wf w1 w2 id a q K1 (gr_id _ _ _ _ G) _ (fun _ _ h => h) H2) as W2.
  pose proof (arcs_unmarked w1 w2 K1 _ H2) as U2.
  assert (tc (arc w2) a a) as Hc.
  { apply (arcs_cycle w1 w2 o id a q K1 (gr_id _ _ _ _ G) Hq1 _ H2); [done|].
    by rewrite (grown_deadlock id a w w1 o (ok_wf _ K) G). }
  assert (forall x y, before w2 x y <-> with_arcs w o id x y) as Hb2.
  { intros x y. rewrite (arcs_before w1 w2 o id a q K1 (gr_id _ _ _ _ G) Hq1 _ (fun _ _ h => h) H2) by done. unfold with_arcs.
    by rewrite (grown_before _ _ _ _ x y (ok_wf _ K) G), (grown_held _ _ _ _ o (ok_wf _ K) G). }
  apply runs_bind. unfold runs, rc_of. pose proof (graph_sort_spec w2 W2 U2) as Hsort. unfold runs in Hsort.
  destruct (lockdep_graph_sort w2) as [[[]|e| |] w3]; try done; [by destruct Hsort as [_ Hac]; destruct (Hac a)|].
  destruct Hsort as (-> & S3 & [= A3 _] & _ & F3). change (TEE_ERROR_BAD_STATE =? 0) with false. cbn [negb].
  enough (runs (lockdep_print_cycle_info a) (fun _ w' => exists ms, console w' = console w ++ ms /\
    cycle_report (with_arcs w o id) ms) (fun _ _ => False) w3) as Hp.
  { unfold runs in Hp. unfold bind. destruct (lockdep_print_cycle_info a w3) as [[] w4]; done. }
  assert (lid w3 a = Some id) as Hi3 by (rewrite (lid_w w2 w3) by done; rewrite (ad_lid _ _ _ H2); apply G).
  assert (forall x y, before w3 x y <-> with_arcs w o id x y) as Hb3.
  { intros x y. rewrite <- Hb2. unfold before.
    split; intros (b & c & Hb & Hcc & Hbc); exists b, c; rewrite ?(lid_w w2 w3) in * by done; (split; [done|]); (split; [done|]).
    - by apply (skel_arc w3).
    - by apply (skel_arc w2). }
  eapply runs_mono; [apply print_cycle_info_spec| |done].
  - by eapply skel_wf.
  - apply lid_live in Hi3 as (n & Hn & _). eauto.
  - intros b (f & Hf & Hv). destruct (F3 b f Hf) as [-> | [-> | ->]]; done.
  - rewrite A3. by apply A2.
  - by apply (skel_tc w2).
  - cbv beta. intros _ w' (ms & Hms & i & l & (b & Hw & Hba & Hmin) & Hlk & Hall). exists ms. split.
    { rewrite Hms. f_equal. pose proof S3 as [= _ _ _ _ ->]. by rewrite (ad_console _ _ _ H2), (gr_console _ _ _ _ G). }
    destruct (walk_links w3 a (i :: l) b) as (i' & l' & [= <- <-] & Hi & _); [by eapply skel_wf|done|].
    assert (i = id) as -> by congruence. exists l. split; [done|]. split.
    + eapply Forall_impl; [exact Hall|]. intros [x y]. apply Hb3.
    + intros k Hk Hp. destruct (before_nsteps w3 k a id id) as (c & Hc3 & Hn); [by eapply skel_wf| |done|].
      * revert Hk. apply nsteps_congruence with (f := fun z => z). intros x y. apply Hb3.
      * assert (c = a) as -> by (eapply (lid_inj w3); [by eapply skel_wf|done..]). by apply (Hmin k).
Qed.
End Acquire.

(** ** Acquiring without waiting, releasing *)

Lemma tryacquire_spec w o id s : lockdep_ok w -> id <> 0 -> terminated s -> is_Some (queues w !! o) ->
  runs (__lockdep_lock_tryacquire o id s) (fun _ w' => lockdep_ok w' /\ (forall x y, before w' x y <-> before w x y) /\
      held w' o = held w o ++ [id] /\ (forall o', o' <> o -> held w' o' = held w o') /\
      (forall o', is_Some (queues w' !! o') <-> is_Some (queues w !! o')))
    (fun e w' => e = TEE_ERROR_OUT_OF_MEMORY /\ allocs w <> [] /\ lockdep_ok w' /\
      (forall x y, before w' x y <-> before w x y) /\ forall o', held w' o' = held w o') w.
Proof.
  intros K Hid Ts [q Hq]. unfold __lockdep_lock_tryacquire. apply runs_bind.
  eapply runs_mono; [apply add_to_graph_spec; [apply K|done]| |done]. cbv beta. intros [a|] w1 [G A1].
  2:{ apply runs_err. split; [done|]. split; [intros Hal; by destruct (A1 Hal) as [[? ?] _]|].
      split; [by eapply quiet_ok|]. split; [intros; by apply quiet_before|intros; by apply quiet_held]. }
  pose proof (grown_ok _ _ _ _ K G) as K1.
  assert (forall x y, before w1 x y <-> before w x y) as Hb1 by (intros; by apply (grown_before _ _ _ _ x y (ok_wf _ K) G)).
  assert (forall o', held w1 o' = held w o') as Hh1 by (intros; by apply (grown_held _ _ _ _ o' (ok_wf _ K) G)).
  apply runs_bind, runs_edge_calloc. intros b w2 S2 N2 A2. assert (quiet w1 w2) as Q2 by done. pose proof (quiet_ok _ _ Q2 K1) as K2.
  apply runs_bind. destruct b; cbn [negb guard_err].
  - apply runs_ret, runs_bind. assert (queues w2 !! o = Some q) as Hq2.
    { pose proof S2 as [= _ _ -> _ _]. by rewrite (gr_queues _ _ _ _ G). }
    apply (runs_queue _ q); [done|]. apply runs_modify. destruct (pushed w2 o id a s q) as (P1 & P2 & P3 & P4 & P5); try done.
    { unfold lid. rewrite N2. apply G. }
    split; [done|]. split; [intros x y; by rewrite P2, (quiet_before _ _ _ _ Q2), Hb1|].
    split; [by rewrite P3, (quiet_held _ _ _ Q2), Hh1|]. split; [intros o' Hne; by rewrite P4, (quiet_held _ _ _ Q2), Hh1|].
    intros o'. rewrite P5. pose proof S2 as [= _ _ -> _ _]. by rewrite (gr_queues _ _ _ _ G).
  - apply runs_err. split; [done|]. split; [intros Hal; by destruct (A2 (proj2 (A1 Hal)))|]. split; [done|].
    split; [intros x y; by rewrite (quiet_before _ _ _ _ Q2)|intros o'; by rewrite (quiet_held _ _ _ Q2)].
Qed.

Fixpoint remove_first (x : Z) (l : list Z) : list Z :=
  match l with
  | [] => []
  | y :: r => if y =? x then r else y :: remove_first x r
  end.

(** [l] without the last [x] in it. *)
Definition remove_last (x : Z) (l : list Z) : list Z := rev (remove_first x (rev l)).

Lemma release_rev_spec w l id : (forall x, x ∈ l -> is_Some (nodes w !! node x)) ->
  let ids l := (fun x => default 0 (lid w (node x))) <$> l in
  runs (release_rev l id) (fun r w' => w' = w /\ match r with
    | Some l' => id ∈ ids l /\ ids l' = remove_first id (ids l) /\ forall x, x ∈ l' -> x ∈ l
    | None => id ∉ ids l end) (fun _ _ => False) w.
Proof.
  intros H ids. induction l as [|x l IH]; cbn [release_rev].
  - apply runs_ret. split; [done|]. apply not_elem_of_nil.
  - destruct (H x ltac:(by left)) as [n Hn]. apply runs_bind, (runs_load _ n); [done|].
    assert (ids (x :: l) = lock_id n :: ids l) as -> by (unfold ids; cbn [fmap list_fmap]; unfold lid; by rewrite Hn).
    cbn [remove_first]. destruct (lock_id n =? id) eqn:E; bool_hyps.
    + apply runs_ret. split; [done|]. split; [rewrite E; left|]. split; [done|]. intros; by right.
    + apply runs_bind. eapply runs_mono; [apply IH; intros; apply H; by right| |done]. cbv beta. intros [l'|] w' [-> Hr]; apply runs_ret; (split; [done|]).
      * destruct Hr as (H1 & H2 & H3). split; [by right|]. split.
        -- unfold ids. cbn [fmap list_fmap]. unfold lid at 1. rewrite Hn. simpl. f_equal. exact H2.
        -- intros y [-> |Hy]%elem_of_cons; [by left|right; auto].
      * intros [?|?]%elem_of_cons; congruence.
Qed.

Lemma fmap_rev_ids {A} (f : A -> Z) l : f <$> rev l = rev (f <$> l).
Proof. induction l as [|x l IH]; [done|]. simpl. by rewrite fmap_app, IH. Qed.

(** A thread that owns the lock releases it, most recent first; another gets an error. *)
Lemma release_spec w o id : lockdep_ok w -> is_Some (queues w !! o) ->
  runs (__lockdep_lock_release o id) (fun _ w' => id ∈ held w o /\ lockdep_ok w' /\ (forall x y, before w' x y <-> before w x y) /\
      held w' o = remove_last id (held w o) /\ (forall o', o' <> o -> held w' o' = held w o') /\
      (forall o', is_Some (queues w' !! o') <-> is_Some (queues w !! o')))
    (fun e w' => e = TEE_ERROR_ITEM_NOT_FOUND /\ id ∉ held w o /\ w' = w) w.
Proof.
  intros K [q Hq]. unfold __lockdep_lock_release. apply runs_bind, (runs_queue _ q); [done|]. apply runs_bind.
  assert (held w o = (fun x => default 0 (lid w (node x))) <$> q) as Hh by (unfold held; by rewrite Hq).
  eapply runs_mono; [apply (release_rev_spec w)| |done].
  { intros x Hx. apply (wf_owned w (ok_wf _ K) o q x Hq). by rewrite list_elem_of_In, <- in_rev, <- list_elem_of_In in Hx. }
  cbv beta zeta. rewrite (fmap_rev_ids _ q), <- Hh.
  assert (forall x : Z, x ∈ rev (held w o) <-> x ∈ held w o) as Hrev by (intros x; by rewrite !list_elem_of_In, <- in_rev).
  intros [l'|] w' [-> Hr].
  - destruct Hr as (H1 & H2 & H3). apply runs_modify. apply Hrev in H1. split; [done|].
    assert (forall x, x ∈ rev l' -> x ∈ q) as Hsub.
    { intros x. rewrite list_elem_of_In, <- in_rev, <- list_elem_of_In. intros Hx. apply H3 in Hx.
      by rewrite list_elem_of_In, <- in_rev, <- list_elem_of_In in Hx. }
    split; [|split; [done|split; [|split]]].
    + destruct K as [[W1 W2 W3 W4 W5 W6 W7] U Hac]. split; [|done|done]. split; try done. intros o' q' l Ho Hl. simpl in Ho.
      destruct (decide (o' = o)) as [-> |Hne].
      * rewrite lookup_insert_eq in Ho. simplify_eq. apply (W7 o q); [done|]. by apply Hsub.
      * rewrite lookup_insert_ne in Ho by done. by apply (W7 o' q').
    + unfold held at 1. simpl. rewrite lookup_insert_eq. simpl. unfold remove_last. rewrite <- H2. apply (fmap_rev_ids (fun x => default 0 (lid w (node x)))).
    + intros o' Hne. unfold held. simpl. by rewrite lookup_insert_ne.
    + intros o'. simpl. destruct (decide (o' = o)) as [-> |Hne]; [rewrite lookup_insert_eq, Hq|rewrite lookup_insert_ne by done]; naive_solver.
  - apply runs_err. split; [done|]. split; [|done]. by rewrite <- Hrev.
Qed.

(** ** Destroying *)

Lemma drop_edges_filter a es : drop_edges a es = filter (fun e => to e <> a) es.
Proof.
  assert (forall r e, drop_after a e r = e :: filter (fun e => to e <> a) r) as Ha.
  { induction r as [|x r IH]; intros e; cbn [drop_after]; [done|]. rewrite filter_cons. case_bool_decide.
    - rewrite decide_False by tauto. apply IH.
    - rewrite decide_True by done. by rewrite IH. }
  unfold drop_edges. induction es as [|e es IH]; [done|]. cbn [drop_head]. rewrite filter_cons. case_bool_decide.
  - rewrite decide_False by tauto. apply IH.
  - rewrite decide_True by done. apply Ha.
Qed.

Definition pruned (a : addr) (n : lockdep_node) : lockdep_node := mk_node (lock_id n) (filter (fun e => to e <> a) (edges n)) (flags n).

Lemma node_destroy_run a w : lockdep_wf w -> is_Some (nodes w !! a) ->
  runs (lockdep_node_destroy a) (fun _ w' => nodes w' = delete a (pruned a <$> nodes w) /\ graph w' = filter (.≠ a) (graph w) /\
    queues w' = queues w /\ brk w' = brk w) (fun _ _ => False) w.
Proof.
  intros W Ha. unfold lockdep_node_destroy. apply runs_bind. unfold unlink. apply runs_modify. apply runs_bind, runs_get.
  apply runs_bind. cbn [graph]. set (g := filter (.≠ a) (graph w)).
  assert (forall b, b ∈ g <-> b <> a /\ is_Some (nodes w !! b)) as Hg by (intros b; unfold g; rewrite list_elem_of_filter, (wf_live w W); done).
  assert (NoDup g) as Ng by (apply NoDup_filter, W).
  eapply runs_mono; [apply (runs_for_each (fun r wi => graph wi = g /\ queues wi = queues w /\ brk wi = brk w /\ NoDup r /\
     (forall b, b ∈ r -> b ∈ g) /\
     (forall b, nodes wi !! b = if decide (b ∈ g /\ b ∉ r) then pruned a <$> nodes w !! b else nodes w !! b)) (fun _ _ => False))| |done].
  - intros b r wi (H1 & H2 & H3 & H4 & H5 & H6). apply NoDup_cons in H4 as [Hbr Hr].
    assert (b ∈ g) as Hb by (apply H5; by left). pose proof Hb as [_ [n Hn]]%Hg.
    assert (nodes wi !! b = Some n) as Hni.
    { rewrite H6, decide_False; [done|]. intros [_ Hx]. apply Hx. by left. }
    apply runs_bind, (runs_load b n); [done|]. eapply runs_eq; [by apply (store_run b n)|]. simpl.
    split; [done|]. split; [done|]. split; [done|]. split; [done|]. split; [intros; apply H5; by right|].
    intros c. destruct (decide (c = b)) as [-> |Hne].
    + rewrite lookup_insert_eq, decide_True by done. rewrite Hn. simpl. unfold pruned. by rewrite drop_edges_filter.
    + rewrite lookup_insert_ne, H6 by done. destruct (decide (c ∈ g /\ c ∉ b :: r)) as [[? Hc]|Hc].
      * rewrite decide_True; [done|]. rewrite not_elem_of_cons in Hc. tauto.
      * rewrite decide_False; [done|]. intros [? ?]. apply Hc. rewrite not_elem_of_cons. tauto.
  - split; [done|]. split; [done|]. split; [done|]. split; [done|]. split; [done|]. intros b. rewrite decide_False by tauto. done.
  - cbv beta. intros _ wi (H1 & H2 & H3 & _ & _ & H6). unfold lockdep_node_delete. destruct Ha as [n Hn]. apply runs_bind, (runs_load a n).
    { rewrite H6, decide_False; [done|]. intros [Hx _]. apply Hg in Hx. naive_solver. }
    apply runs_modify. simpl. split; [|done]. apply map_eq. intros b. destruct (decide (b = a)) as [-> |Hne]; [by rewrite !lookup_delete_eq|].
    rewrite !lookup_delete_ne, lookup_fmap, H6 by done. destruct (nodes w !! b) as [m|] eqn:E.
    + rewrite decide_True; [done|]. split; [apply Hg; eauto|apply not_elem_of_nil].
    + by destruct (decide _).
Qed.

(** Destroying a lock that no thread owns forgets its arcs and nothing else. *)
Lemma destroy_spec w id : lockdep_ok w -> (forall o, id ∉ held w o) ->
  runs (lockdep_lock_destroy id) (fun _ w' => lockdep_ok w' /\ (forall x y, before w' x y <-> before w x y /\ x <> id /\ y <> id) /\
    (forall o, held w' o = held w o) /\ queues w' = queues w) (fun _ _ => False) w.
Proof.
  intros K Hno. pose proof (ok_wf _ K) as W. unfold lockdep_lock_destroy. apply runs_bind, runs_get, runs_bind.
  eapply runs_mono; [apply find_id_spec; intros b Hb; by apply W| |done]. cbv beta. intros [a|] w1 [-> Hr].
  2:{ apply runs_ret. split; [done|]. split; [|done]. intros x y. split; [|tauto]. intros (b & c & Hb & Hc & Hbc).
      assert (forall d i, lid w d = Some i -> i <> id) as Hd.
      { intros d i Hd ->. apply (Hr d); [|done]. apply W. apply lid_live in Hd as (n & Hn & _). eauto. }
      split; [exists b, c; done|]. eauto. }
  destruct Hr as [Hin Hid]. eapply runs_mono; [apply node_destroy_run; [done|by apply W]| |done]. cbv beta.
  intros _ w' (Hn & Hg & Hq & Hb).
  assert (forall b n, nodes w' !! b = Some n <-> b <> a /\ exists m, nodes w !! b = Some m /\ n = pruned a m) as Hnodes.
  { intros b n. rewrite Hn, lookup_delete_Some, lookup_fmap, fmap_Some. naive_solver. }
  assert (forall b, b <> a -> lid w' b = lid w b) as Hlid.
  { intros b Hne. unfold lid. rewrite Hn, lookup_delete_ne, lookup_fmap by done. by destruct (nodes w !! b). }
  assert (lid w' a = None) as Hla by (unfold lid; by rewrite Hn, lookup_delete_eq).
  assert (forall b c, arc w' b c <-> arc w b c /\ b <> a /\ c <> a) as Harc.
  { intros b c. unfold arc. split.
    - intros (n & (Hne & m & Hm & ->)%Hnodes & Hc). simpl in Hc. apply list_elem_of_fmap in Hc as (e & -> & He).
      apply list_elem_of_filter in He as [He1 He2]. split; [|done]. exists m. split; [done|]. by apply list_elem_of_fmap_2.
    - intros ((m & Hm & Hc) & Hne & Hca). exists (pruned a m). split; [apply Hnodes; eauto|].
      apply list_elem_of_fmap in Hc as (e & -> & He). simpl. apply list_elem_of_fmap_2. by apply list_elem_of_filter. }
  assert (forall o q l, queues w !! o = Some q -> l ∈ q -> node l <> a) as Howned.
  { intros o q l Ho Hl Hl'. apply (Hno o). apply (held_elem w o q id W Ho). exists (node l). split; [by apply list_elem_of_fmap_2|congruence]. }
  split; [split|split; [|split; [|done]]].
  - split.
    + rewrite Hg. apply NoDup_filter, W.
    + intros b. rewrite Hg, list_elem_of_filter, (wf_live w W). split.
      * intros [Hne [m Hm]]. exists (pruned a m). apply Hnodes. eauto.
      * intros [n (Hne & m & Hm & _)%Hnodes]. eauto.
    + intros b [n (Hne & m & Hm & _)%Hnodes]. rewrite Hb. apply W. eauto.
    + intros b c n m (_ & n' & Hn' & ->)%Hnodes (_ & m' & Hm' & ->)%Hnodes E. by apply (wf_ids w W b c n' m').
    + intros b n (_ & n' & Hn' & ->)%Hnodes. exact (wf_nonzero w W b n' Hn').
    + intros b c (Hbc & _ & Hca)%Harc. apply (wf_edges w W) in Hbc as [m Hm]. exists (pruned a m). apply Hnodes. eauto.
    + intros o q l Ho Hl. rewrite Hq in Ho. destruct (wf_owned w W o q l Ho Hl) as [[m Hm] ?]. split; [|done].
      exists (pruned a m). apply Hnodes. split; [by eapply Howned|eauto].
  - intros b f (n & (_ & m & Hm & ->)%Hnodes & <-)%flag_live. apply (ok_marks _ K b). unfold flag. by rewrite Hm.
  - intros b Hbb. apply (ok_acyclic _ K b). revert Hbb. apply tc_congruence with (f := fun z => z). intros u v. apply Harc.
  - intros x y. split.
    + intros (b & c & Hbx & Hcy & (Hbc & Hba & Hca)%Harc). rewrite Hlid in Hbx, Hcy by done. split; [exists b, c; done|].
      split; intros ->; [apply Hba|apply Hca]; by eapply lid_inj.
    + intros ((b & c & Hbx & Hcy & Hbc) & Hx & Hy). assert (b <> a) as Hba by congruence. assert (c <> a) as Hca by congruence.
      exists b, c. rewrite !Hlid by done. split; [done|]. split; [done|]. by apply Harc.
  - intros o. unfold held. rewrite Hq. destruct (queues w !! o) as [q|] eqn:Eq; [|done]. simpl.
    apply list_fmap_ext. intros i l Hl. rewrite Hlid; [done|]. eapply Howned; [exact Eq|]. by eapply list_elem_of_lookup_2.
Qed.

(** ** Calls that returned *)

(** The error codes of the checker are not zero, which its wrappers take for success. *)
Definition err_nz {A} (m : L A) : Prop := forall w e w', m w = (Err e, w') -> e <> 0.

Lemma nz_bind {A B} (m : L A) (k : A -> L B) : err_nz m -> (forall a, err_nz (k a)) -> err_nz (bind m k).
Proof. intros Hm Hk w e w'. unfold bind. destruct (m w) as [[] w1] eqn:E; try done; [apply Hk|]. intros [= <- _]. by eapply Hm. Qed.
Lemma nz_ret {A} (a : A) : err_nz (ret a). Proof. done. Qed.
Lemma nz_panic {A} : err_nz (A := A) panic. Proof. done. Qed.
Lemma nz_undef {A} u : err_nz (A := A) (undef u). Proof. done. Qed.
Lemma nz_err {A} e : e <> 0 -> err_nz (A := A) (err e). Proof. intros H w e' w' [= <- _]. done. Qed.
Lemma nz_modify f : err_nz (modify f). Proof. done. Qed.
Lemma nz_get : err_nz get. Proof. done. Qed.
Lemma nz_put w : err_nz (put w). Proof. done. Qed.
Lemma nz_of_opt {A} u (o : option A) : err_nz (of_opt u o). Proof. by destruct o. Qed.
Lemma nz_guard b e : e <> 0 -> err_nz (guard_err b e). Proof. intros H w e' w'. destruct b; [|done]. by intros [= <- _]. Qed.
Lemma nz_assert b : err_nz (assert_ b). Proof. by destruct b. Qed.
Lemma nz_calloc : err_nz calloc. Proof. intros w e w'. unfold calloc. by destruct (allocs w). Qed.
Lemma nz_rc {A} (m : L A) : err_nz (rc_of m). Proof. intros w e w'. unfold rc_of. by destruct (m w) as [[] ?]. Qed.
Lemma nz_for_each {A} (l : list A) body : (forall x, err_nz (body x)) -> err_nz (for_each l body).
Proof. intros H. induction l; cbn [for_each]; [apply nz_ret|by apply nz_bind]. Qed.

Ltac nz := repeat first [simple apply nz_bind; [|intros ?] | simple apply nz_ret | simple apply nz_panic | simple apply nz_undef | simple apply nz_modify | simple apply nz_get | simple apply nz_put
  | simple apply nz_of_opt | simple apply nz_guard; done | simple apply nz_assert | simple apply nz_calloc | simple apply nz_rc | simple apply nz_for_each; intros ? | simple apply nz_err; done
  | progress unfold load, store, or_flags, queue, print, lockdep_find_edge, lockdep_print_edge_info
  | match goal with
    | |- err_nz (if ?b then _ else _) => let E := fresh "E" in destruct b eqn:E
    | |- err_nz (match ?x with _ => _ end) => destruct x
    end].

Lemma nz_find_id l id : err_nz (find_id l id). Proof. induction l; cbn [find_id]; nz; done. Qed.
Lemma nz_bfs_edges id qe es q : err_nz (bfs_edges id qe es q). Proof. revert q. induction es; intros q; cbn [bfs_edges]; nz; auto. Qed.
Lemma nz_bfs_loop fuel id q : err_nz (bfs_loop fuel id q).
Proof. revert q. induction fuel; intros q; cbn [bfs_loop]; nz; auto using nz_bfs_edges. Qed.
Lemma nz_find_edge_to es x : err_nz (find_edge_to es x). Proof. induction es; cbn [find_edge_to]; nz; done. Qed.
Lemma nz_find_edge_in l x y : err_nz (find_edge_in l x y).
Proof. induction l; cbn [find_edge_in]; nz; auto using nz_find_edge_to. Qed.
Lemma nz_print_edges first x p : err_nz (print_edges first x p).
Proof. revert x. induction p; intros x; cbn [print_edges]; nz; auto using nz_find_edge_in. Qed.
Lemma nz_release_rev l id : err_nz (release_rev l id). Proof. induction l; cbn [release_rev]; nz; done. Qed.

Lemma nz_add_to_graph id : err_nz (lockdep_add_to_graph id).
Proof. unfold lockdep_add_to_graph. nz. apply nz_find_id. Qed.

Lemma nz_acquire o id s : err_nz (__lockdep_lock_acquire o id s).
Proof.
  unfold __lockdep_lock_acquire, lockdep_add_edge, dup_call_stack, lockdep_print_cycle_info, lockdep_graph_get_shortest_cycle.
  nz; auto using nz_add_to_graph, nz_bfs_loop, nz_print_edges. apply nz_err. by bool_hyps.
Qed.
Lemma nz_tryacquire o id s : err_nz (__lockdep_lock_tryacquire o id s).
Proof. unfold __lockdep_lock_tryacquire. nz; auto using nz_add_to_graph. Qed.
Lemma nz_release o id : err_nz (__lockdep_lock_release o id).
Proof. unfold __lockdep_lock_release. nz; auto using nz_release_rev. Qed.

Lemma or_panic_Ret (m : L unit) w w' u : err_nz m -> or_panic m w = (Ret u, w') -> exists v, m w = (Ret v, w').
Proof.
  intros Hz. unfold or_panic, bind, rc_of. destruct (m w) as [[v|e| |] w1] eqn:E; try done.
  - change (0 =? 0) with true. cbn [negb]. intros [= _ <-]. eauto.
  - rewrite (proj2 (Z.eqb_neq e 0)) by (by eapply Hz). done.
Qed.

Lemma queue_Ret o w q w' : queue o w = (Ret q, w') -> w' = w /\ queues w !! o = Some q.
Proof. unfold queue, bind, get. destruct (queues w !! o); simpl; intros [=]; by subst. Qed.

(** An acquire that returned was accepted, whatever the allocations did. *)
Lemma acquire_Ret w o id s u w' : lockdep_ok w -> id <> 0 -> terminated s -> __lockdep_lock_acquire o id s w = (Ret u, w') ->
  ~ would_deadlock w o id /\ acquired o id w w'.
Proof.
  intros K Hid Ts Hr. enough (is_Some (queues w !! o) /\ ~ would_deadlock w o id) as [Hq Hd].
  { split; [done|]. pose proof (acquire_accepts w o id s K Hid Ts Hq Hd) as Ha. unfold runs in Ha. by rewrite Hr in Ha. }
  unfold __lockdep_lock_acquire in Hr. apply bind_Ret in Hr as ([a|] & w1 & H1 & Hr); [|done].
  pose proof (add_to_graph_spec id w (ok_wf _ K) Hid) as Hg. unfold runs in Hg. rewrite H1 in Hg. destruct Hg as [G _].
  apply bind_Ret in Hr as (q & w1' & [-> Hq]%queue_Ret & Hr). pose proof (grown_ok _ _ _ _ K G) as K1.
  split; [rewrite <- (gr_queues _ _ _ _ G); eauto|]. intros Hd. apply bind_Ret in Hr as ([] & w2 & H2 & Hr).
  pose proof (add_edges_spec q a s o w1) as Hadd. unfold runs in Hadd. rewrite H2 in Hadd. destruct Hadd as [A2 _]; [|done|].
  { intros l Hl. apply (wf_owned w1 (ok_wf _ K1) o q l Hq Hl). }
  assert (tc (arc w2) a a) as Hc.
  { apply (arcs_cycle w1 w2 o id a q K1 (gr_id _ _ _ _ G) Hq _ A2); [done|].
    by rewrite (grown_deadlock id a w w1 o (ok_wf _ K) G). }
  pose proof (graph_sort_spec w2 (arcs_wf w1 w2 id a q K1 (gr_id _ _ _ _ G) _ (fun _ _ h => h) A2)
    (arcs_unmarked w1 w2 K1 _ A2)) as Hsort. unfold runs in Hsort.
  apply bind_Ret in Hr as (res & w3 & H3 & Hr). unfold rc_of in H3. destruct (lockdep_graph_sort w2) as [[|e| |] w3']; try done.
  - destruct Hsort as [_ Hac]. by apply (Hac a).
  - destruct Hsort as (-> & _). simplify_eq. change (TEE_ERROR_BAD_STATE =? 0) with false in Hr. cbn [negb] in Hr.
    by apply bind_Ret in Hr as (? & ? & _ & ?).
Qed.

Lemma mutex_lock_check_Ret w t m s u w' : lockdep_ok w -> m <> 0 -> terminated s -> mutex_lock_check t m s w = (Ret u, w') ->
  ~ would_deadlock w t m /\ acquired t m w w'.
Proof. intros K Hm Ts [v Hr]%or_panic_Ret; [by eapply acquire_Ret|apply nz_acquire]. Qed.

(** ** The start *)

Lemma init_queues n (o : Z) (q : list lockdep_lock) oracle : queues (mutex_lockdep_init n oracle) !! o = Some q -> q = [].
Proof.
  simpl. intros H%elem_of_list_to_map_2. apply list_elem_of_fmap in H as (i & [= _ ->] & _). done.
Qed.

Lemma lockdep_init_ok n oracle : lockdep_ok (mutex_lockdep_init n oracle).
Proof.
  split; [|intros a f; unfold flag; simpl; by rewrite lookup_empty|].
  - split; simpl; try (intros ? ?; by rewrite ?lookup_empty); try (intros ? ? ?; by rewrite ?lookup_empty).
    + constructor.
    + intros a. rewrite lookup_empty, elem_of_nil. split; [done|by intros []].
    + intros a. rewrite lookup_empty. by intros [].
    + intros a b (m & Hm & _). simpl in Hm. by rewrite lookup_empty in Hm.
    + intros o q l Hq Hl. apply (init_queues n o q oracle) in Hq as ->. by apply elem_of_nil in Hl.
  - intros a Ha. inversion Ha as [? ? (m & Hm & _)|? ? ? (m & Hm & _)]; by simpl in Hm; rewrite lookup_empty in Hm.
Qed.

(** A thread that read-locked a mutex does not own it for the checker: releasing it panics. *)
Lemma unlock_unheld_panics w t m : lockdep_ok w -> is_Some (queues w !! t) -> m ∉ held w t -> mutex_unlock_check t m w = (Panic, w).
Proof.
  intros K Hq Hm. pose proof (release_spec w t m K Hq) as Hr. unfold runs in Hr.
  unfold mutex_unlock_check, lockdep_lock_release, or_panic, bind, rc_of.
  destruct (__lockdep_lock_release t m w) as [[|e| |] w']; try done; [by destruct Hr|]. destruct Hr as (-> & _ & ->). done.
Qed.

(** ** Properties *)

(** C11. What acquiring decides. From a state in which the recorded order of locks has no cycle,
    [__lockdep_lock_acquire()] of a lock that was never acquired before one of the owned locks, in the
    sense of the order and its transitive closure, adds the owned locks before it, appends it to the
    owned ones, and keeps the order free of cycles; the only other outcome is TEE_ERROR_OUT_OF_MEMORY,
    after an allocation failed, with the owned locks as before. A lock that was, an own second acquire
    included, is never acquired, whatever allocations fail; if no allocation fails, the call returns
    TEE_ERROR_BAD_STATE and reports, edge by edge, a cycle through the lock than which none is shorter.
    (If one fails, the call may also return TEE_ERROR_OUT_OF_MEMORY or fail the assertion that a cycle
    was found: refused_out_of_memory.) *)
Theorem lockdep_acquire_decides w o id s : lockdep_ok w -> is_Some (queues w !! o) -> id <> 0 -> terminated s ->
  (~ would_deadlock w o id ->
    runs (__lockdep_lock_acquire o id s) (fun _ => acquired o id w)
      (fun e w' => e = TEE_ERROR_OUT_OF_MEMORY /\ allocs w <> [] /\ not_acquired o id w w') w) /\
  (would_deadlock w o id -> allocs w = [] ->
    exists w' ms, __lockdep_lock_acquire o id s w = (Err TEE_ERROR_BAD_STATE, w') /\
      console w' = console w ++ ms /\ cycle_report id (with_arcs w o id) ms) /\
  (would_deadlock w o id -> fst (__lockdep_lock_acquire o id s w) <> Ret tt).
Proof.
  intros K Hq Hid Ts. split_and!; intros; [by apply acquire_accepts|by apply acquire_refuses|]. destruct (__lockdep_lock_acquire o id s w) as [r w'] eqn:E.
  cbn [fst]. intros ->. by apply (acquire_Ret w o id s tt w') in E as [? _].
Qed.

(** C28. The other calls of the checker. [__lockdep_lock_tryacquire()] appends the lock without touching
    the order, or, after an allocation failed, returns TEE_ERROR_OUT_OF_MEMORY with order and owned
    locks as before; [__lockdep_lock_release()] removes the most recent occurrence, or returns
    TEE_ERROR_ITEM_NOT_FOUND exactly when the thread does not own the lock; [lockdep_lock_destroy()] of
    a lock no thread owns removes exactly its pairs from the order. All keep the invariant, so no
    pointer dangles, and leave the other threads' locks alone. *)
Theorem lockdep_calls_refine w o id s : lockdep_ok w -> is_Some (queues w !! o) -> id <> 0 -> terminated s ->
  runs (__lockdep_lock_tryacquire o id s) (fun _ w' => lockdep_ok w' /\ (forall x y, before w' x y <-> before w x y) /\
      held w' o = held w o ++ [id] /\ (forall o', o' <> o -> held w' o' = held w o') /\
      (forall o', is_Some (queues w' !! o') <-> is_Some (queues w !! o')))
    (fun e w' => e = TEE_ERROR_OUT_OF_MEMORY /\ allocs w <> [] /\ lockdep_ok w' /\
      (forall x y, before w' x y <-> before w x y) /\ forall o', held w' o' = held w o') w /\
  runs (__lockdep_lock_release o id) (fun _ w' => id ∈ held w o /\ lockdep_ok w' /\ (forall x y, before w' x y <-> before w x y) /\
      held w' o = remove_last id (held w o) /\ (forall o', o' <> o -> held w' o' = held w o') /\
      (forall o', is_Some (queues w' !! o') <-> is_Some (queues w !! o')))
    (fun e w' => e = TEE_ERROR_ITEM_NOT_FOUND /\ id ∉ held w o /\ w' = w) w /\
  ((forall o', id ∉ held w o') ->
    runs (lockdep_lock_destroy id) (fun _ w' => lockdep_ok w' /\ (forall x y, before w' x y <-> before w x y /\ x <> id /\ y <> id) /\
      (forall o', held w' o' = held w o') /\ queues w' = queues w) (fun _ _ => False) w).
Proof.
  intros K Hq Hid Ts. split; [by apply tryacquire_spec|]. split; [by apply release_spec|]. intros. by apply destroy_spec.
Qed.

(** ** Witnesses *)

Module Example.
(** Thread 0 has locks 8 and 16, thread 1 has 24. *)
Definition run (m : L unit) (w : lockdep) : lockdep := snd (m w).
Definition w1 : lockdep := run (__lockdep_lock_acquire 0 8 None) (mutex_lockdep_init 2 []).
Definition w2 : lockdep := run (__lockdep_lock_acquire 0 16 None) w1.
Definition w3 : lockdep := run (__lockdep_lock_acquire 1 24 None) w2.

Lemma step_ok w o id u w' : lockdep_ok w -> id <> 0 -> __lockdep_lock_acquire o id None w = (Ret u, w') -> lockdep_ok w'.
Proof. intros K Hid Hr. by destruct (acquire_Ret w o id None u w' K Hid ltac:(done) Hr) as [_ [? _ _ _ _]]. Qed.

Lemma w3_ok : lockdep_ok w3.
Proof.
  apply (step_ok w2 1 24 tt); [|done|vm_compute; reflexivity]. apply (step_ok w1 0 16 tt); [|done|vm_compute; reflexivity].
  apply (step_ok (mutex_lockdep_init 2 []) 0 8 tt); [apply lockdep_init_ok|done|vm_compute; reflexivity].
Qed.

Lemma w3_queue : is_Some (queues w3 !! 0).
Proof. vm_compute. eauto. Qed.

Lemma owned_twice : would_deadlock w3 0 8.
Proof. exists 8. split; [vm_compute; left|apply rtc_refl]. Qed.

(** After a refused acquire the marks of the searches stay in the graph, and an acquire that closes
    the same cycle is accepted. *)
Example marks_stay :
  let w := run (__lockdep_lock_acquire 1 16 None) w2 in
  let w := run (__lockdep_lock_acquire 1 8 None) w in
  fst (__lockdep_lock_acquire 1 8 None w) = Ret tt.
Proof. vm_compute. reflexivity. Qed.

(** The second acquire of 8 when the first allocation fails, and when the third does: the search for
    the cycle that is to be reported finds none, and the assertion on it fails. *)
Example refused_out_of_memory :
  let short l := mk_lockdep (nodes w3) (graph w3) (queues w3) (brk w3) l (console w3) in
  fst (__lockdep_lock_acquire 0 8 None (short [false])) = Err TEE_ERROR_OUT_OF_MEMORY /\
  fst (__lockdep_lock_acquire 0 8 None (short [true; true; false])) = Panic.
Proof. vm_compute. done. Qed.
End Example.

Lemma lockdep_acquire_decides_witness :
  (exists w' ms, __lockdep_lock_acquire 0 8 None Example.w3 = (Err TEE_ERROR_BAD_STATE, w') /\
    console w' = console Example.w3 ++ ms /\ cycle_report 8 (with_arcs Example.w3 0 8) ms) /\
  (would_deadlock Example.w3 0 8).
Proof.
  split; [|exact Example.owned_twice].
  exact (proj1 (proj2 (lockdep_acquire_decides Example.w3 0 8 None Example.w3_ok Example.w3_queue ltac:(lia) ltac:(by intros l)))
    Example.owned_twice ltac:(vm_compute; reflexivity)).
Defined.

Lemma lockdep_calls_refine_witness :
  runs (__lockdep_lock_release 0 8) (fun _ w' => 8 ∈ held Example.w3 0 /\ lockdep_ok w' /\
      (forall x y, before w' x y <-> before Example.w3 x y) /\
      held w' 0 = remove_last 8 (held Example.w3 0) /\ (forall o', o' <> 0 -> held w' o' = held Example.w3 o') /\
      (forall o', is_Some (queues w' !! o') <-> is_Some (queues Example.w3 !! o')))
    (fun e w' => e = TEE_ERROR_ITEM_NOT_FOUND /\ 8 ∉ held Example.w3 0 /\ w' = Example.w3) Example.w3.
Proof.
  exact (proj1 (proj2 (lockdep_calls_refine Example.w3 0 8 None Example.w3_ok Example.w3_queue ltac:(lia) ltac:(by intros l)))).
Defined.
