(* ===== verification/LockdepSystem.v ===== *)
(** * Threads that lock mutexes under the lock dependency checker

    The calls of optee_os/core/kernel/mutex_lockdep.c where core/kernel/mutex.c makes them (write
    locks): [__mutex_lock()] calls [mutex_lock_check()] and then waits for the mutex;
    [__mutex_trylock()] takes a free mutex and then calls [mutex_trylock_check()];
    [__mutex_unlock()] calls [mutex_unlock_check()] and then frees the mutex; [mutex_destroy()] calls
    [mutex_destroy_check()] on a mutex that is free and that no thread is locking. A check that
    panics ends the system. Calls that read-lock a mutex are not checked and not part of it. *)
From stdpp Require Import gmap relations.
From S2P Require Import Prelude Lockdep LockdepCycle LockdepOrder.
Local Open Scope Z_scope.

(** Where a thread is: in [__mutex_lock()] after the check, in [__mutex_trylock()] before it, in
    [__mutex_unlock()] after it, or elsewhere. *)
Inductive status := Running | Waiting (m : Z) | Tried (m : Z) | Unlocking (m : Z).

Record system := mk_system {
  ld : lockdep;
  owner : gmap Z Z;                       (* the thread that has a mutex *)
  statuses : gmap Z status;
}.

Definition status_of (s : system) (t : Z) : status := default Running (statuses s !! t).

Inductive mstep (s : system) : system -> Prop :=
| step_lock t m k u ld' : status_of s t = Running -> m <> 0 -> terminated k ->
    mutex_lock_check t m k (ld s) = (Ret u, ld') ->
    mstep s (mk_system ld' (owner s) (<[t := Waiting m]> (statuses s)))
| step_grant t m : status_of s t = Waiting m -> owner s !! m = None ->
    mstep s (mk_system (ld s) (<[m := t]> (owner s)) (<[t := Running]> (statuses s)))
| step_try t m : status_of s t = Running -> m <> 0 -> owner s !! m = None ->
    mstep s (mk_system (ld s) (<[m := t]> (owner s)) (<[t := Tried m]> (statuses s)))
| step_trycheck t m k u ld' : status_of s t = Tried m -> terminated k ->
    mutex_trylock_check t m k (ld s) = (Ret u, ld') ->
    mstep s (mk_system ld' (owner s) (<[t := Running]> (statuses s)))
| step_unlock t m u ld' : status_of s t = Running -> owner s !! m = Some t ->
    mutex_unlock_check t m (ld s) = (Ret u, ld') ->
    mstep s (mk_system ld' (owner s) (<[t := Unlocking m]> (statuses s)))
| step_release t m : status_of s t = Unlocking m ->
    mstep s (mk_system (ld s) (delete m (owner s)) (<[t := Running]> (statuses s)))
| step_destroy m u ld' : owner s !! m = None -> (forall t, status_of s t <> Waiting m) ->
    mutex_destroy_check m (ld s) = (Ret u, ld') ->
    mstep s (mk_system ld' (owner s) (statuses s)).

Definition boot (threads : nat) (oracle : list bool) : system := mk_system (mutex_lockdep_init threads oracle) ∅ ∅.

(** [t] waits for a mutex that [t'] has. *)
Definition waits_for (s : system) (t t' : Z) : Prop := exists m, status_of s t = Waiting m /\ owner s !! m = Some t'.

(** ** The invariant *)

Record sys_ok (s : system) : Prop := mk_sys_ok {
  i_ok : lockdep_ok (ld s);
  i_wait t m : status_of s t = Waiting m ->
    owner s !! m <> Some t /\ exists l, held (ld s) t = l ++ [m] /\ forall h, h ∈ l -> before (ld s) h m;
  i_own t m : owner s !! m = Some t -> m ∈ held (ld s) t \/ status_of s t = Tried m \/ status_of s t = Unlocking m;
  i_held t m : m ∈ held (ld s) t -> owner s !! m = Some t \/ status_of s t = Waiting m;
  i_nodup t : NoDup (held (ld s) t);
  i_mid t m : status_of s t = Tried m \/ status_of s t = Unlocking m -> owner s !! m = Some t /\ m ∉ held (ld s) t;
  i_nonzero t m : status_of s t = Tried m -> m <> 0;
}.

Lemma status_insert (ld' : lockdep) own s t st t' :
  status_of (mk_system ld' own (<[t := st]> (statuses s))) t' = if decide (t' = t) then st else status_of s t'.
Proof.
  unfold status_of. simpl. destruct (decide (t' = t)) as [-> |Hne]; [by rewrite lookup_insert_eq|by rewrite lookup_insert_ne].
Qed.

Lemma remove_first_spec x l : NoDup l -> NoDup (remove_first x l) /\ forall y, y ∈ remove_first x l <-> y ∈ l /\ y <> x.
Proof.
  induction 1 as [|z l Hz Hl [IH1 IH2]]; cbn [remove_first].
  - split; [constructor|]. intros y. rewrite elem_of_nil. tauto.
  - destruct (z =? x) eqn:E; bool_hyps.
    + subst. split; [done|]. intros y. rewrite elem_of_cons. split; [|naive_solver]. intros Hy. split; [by right|]. by intros ->.
    + split; [constructor; [rewrite IH2; tauto|done]|]. intros y. rewrite !elem_of_cons, IH2. naive_solver.
Qed.

Lemma elem_of_rev {A} (x : A) l : x ∈ rev l <-> x ∈ l.
Proof. by rewrite !list_elem_of_In, <- in_rev. Qed.

Lemma NoDup_rev_list {A} (l : list A) : NoDup l -> NoDup (rev l).
Proof. rewrite !NoDup_ListNoDup. apply NoDup_rev. Qed.

Lemma remove_last_spec x l : NoDup l -> NoDup (remove_last x l) /\ forall y, y ∈ remove_last x l <-> y ∈ l /\ y <> x.
Proof.
  intros Hl. destruct (remove_first_spec x (rev l) (NoDup_rev_list _ Hl)) as [H1 H2]. unfold remove_last. split.
  - by apply NoDup_rev_list.
  - intros y. by rewrite elem_of_rev, H2, elem_of_rev.
Qed.

Lemma trycheck_Ret w t m k u w' : lockdep_ok w -> m <> 0 -> terminated k -> mutex_trylock_check t m k w = (Ret u, w') ->
  lockdep_ok w' /\ (forall x y, before w' x y <-> before w x y) /\ held w' t = held w t ++ [m] /\
  forall t', t' <> t -> held w' t' = held w t'.
Proof.
  intros K Hm Tk [v Hr]%or_panic_Ret; [|apply nz_tryacquire].
  assert (is_Some (queues w !! t)) as Hq.
  { unfold __lockdep_lock_tryacquire in Hr. apply bind_Ret in Hr as ([a|] & w1 & H1 & Hr); [|done].
    pose proof (add_to_graph_spec m w (ok_wf _ K) Hm) as Hg. unfold runs in Hg. rewrite H1 in Hg. destruct Hg as [G _].
    apply bind_Ret in Hr as (b & w2 & H2 & Hr). apply bind_Ret in Hr as ([] & w3 & H3 & Hr).
    apply bind_Ret in Hr as (q & w4 & [-> Hq]%queue_Ret & _). rewrite <- (gr_queues _ _ _ _ G).
    unfold guard_err in H3. destruct (negb b); [done|]. injection H3 as <-. unfold calloc in H2.
    destruct (allocs w1); injection H2 as _ <-; eauto. }
  pose proof (tryacquire_spec w t m k K Hm Tk Hq) as H. unfold runs in H. rewrite Hr in H. tauto.
Qed.

Lemma unlock_Ret w t m u w' : lockdep_ok w -> mutex_unlock_check t m w = (Ret u, w') ->
  m ∈ held w t /\ lockdep_ok w' /\ (forall x y, before w' x y <-> before w x y) /\ held w' t = remove_last m (held w t) /\
  forall t', t' <> t -> held w' t' = held w t'.
Proof.
  intros K [v Hr]%or_panic_Ret; [|apply nz_release].
  assert (is_Some (queues w !! t)) as Hq.
  { unfold __lockdep_lock_release in Hr. apply bind_Ret in Hr as (q & w1 & [-> Hq]%queue_Ret & _). eauto. }
  pose proof (release_spec w t m K Hq) as H. unfold runs in H. rewrite Hr in H. tauto.
Qed.

Lemma boot_ok n oracle : sys_ok (boot n oracle).
Proof.
  assert (forall t, held (ld (boot n oracle)) t = []) as Hh.
  { intros t. unfold held. destruct (queues _ !! t) as [q|] eqn:E; [|done]. by rewrite (init_queues _ _ _ _ E). }
  split; try (intros t; rewrite ?Hh); try done.
  - apply lockdep_init_ok.
  - intros m. by rewrite elem_of_nil.
  - constructor.
  - by intros m [?|?].
Qed.

(** A step changes the held locks and the order of one thread at most; the other facts of the
    invariant carry over. *)
Section Step.
Context (s : system) (I : sys_ok s).

(** Facts of a thread whose state and held locks a step leaves alone. *)
Lemma others_wait (own : gmap Z Z) ld' t m : status_of s t = Waiting m -> held ld' t = held (ld s) t ->
  (forall x y, before (ld s) x y -> before ld' x y) -> (own !! m = Some t -> owner s !! m = Some t) ->
  own !! m <> Some t /\ exists l, held ld' t = l ++ [m] /\ forall h, h ∈ l -> before ld' h m.
Proof.
  intros Hw Hh Hb Ho. destruct (i_wait _ I t m Hw) as (Hn & l & Hl & Hlb). split; [auto|]. exists l. rewrite Hh. split; [done|]. auto.
Qed.

Lemma step_lock_ok t m k u ld' : status_of s t = Running -> m <> 0 -> terminated k ->
  mutex_lock_check t m k (ld s) = (Ret u, ld') -> sys_ok (mk_system ld' (owner s) (<[t := Waiting m]> (statuses s))).
Proof.
  intros Hst Hm Tk Hr. destruct (mutex_lock_check_Ret _ _ _ _ _ _ (i_ok _ I) Hm Tk Hr) as [Hno [A1 A2 A3 A4 A5]].
  assert (m ∉ held (ld s) t) as Hnin by (intros Hin; apply Hno; exists m; split; [done|apply rtc_refl]).
  assert (forall t', held ld' t' = if decide (t' = t) then held (ld s) t ++ [m] else held (ld s) t') as Hh.
  { intros t'. destruct (decide (t' = t)) as [-> |]; auto. }
  split; cbn [ld owner]; try done.
  - intros t' m'. rewrite status_insert, (Hh t'). destruct (decide (t' = t)) as [-> |Hne].
    + intros [= <-]. split; [|exists (held (ld s) t); split; [done|]; intros h Hin; apply A2; by right].
      intros Ho. destruct (i_own _ I t m Ho) as [?|[?|?]]; congruence.
    + intros Hw. destruct (i_wait _ I t' m' Hw) as (Hn & l & Hl & Hlb). split; [done|]. exists l. split; [done|].
      intros h Hin. apply A2. left. auto.
  - intros t' m' Ho. rewrite status_insert, (Hh t'). destruct (decide (t' = t)) as [-> |Hne]; [|by apply (i_own _ I)].
    left. apply elem_of_app. left. destruct (i_own _ I t m' Ho) as [?|[?|?]]; [done|congruence..].
  - intros t' m'. rewrite status_insert, (Hh t'). destruct (decide (t' = t)) as [-> |Hne]; [|by apply (i_held _ I)].
    intros [Hin|Hin]%elem_of_app; [|apply list_elem_of_singleton in Hin as ->; by right].
    destruct (i_held _ I t m' Hin) as [?|?]; [by left|congruence].
  - intros t'. rewrite (Hh t'). destruct (decide (t' = t)) as [-> |Hne]; [|apply I]. apply NoDup_app. split; [apply I|].
    split; [|apply NoDup_singleton]. intros x Hx Hx'. by apply list_elem_of_singleton in Hx' as ->.
  - intros t' m'. rewrite status_insert, (Hh t'). destruct (decide (t' = t)) as [-> |Hne]; [naive_solver|apply (i_mid _ I)].
  - intros t' m'. rewrite status_insert. destruct (decide (t' = t)) as [-> |Hne]; [done|apply (i_nonzero _ I)].
Qed.

Lemma step_grant_ok t m : status_of s t = Waiting m -> owner s !! m = None ->
  sys_ok (mk_system (ld s) (<[m := t]> (owner s)) (<[t := Running]> (statuses s))).
Proof.
  intros Hst Hfree. destruct (i_wait _ I t m Hst) as (_ & l & Hl & _).
  assert (m ∈ held (ld s) t) as Hin by (rewrite Hl; apply elem_of_app; right; by apply list_elem_of_singleton).
  split; cbn [ld owner]; try apply I.
  - intros t' m'. rewrite status_insert. destruct (decide (t' = t)) as [-> |Hne]; [done|]. intros Hw.
    destruct (i_wait _ I t' m' Hw) as (Hn & ?). split; [|done]. destruct (decide (m' = m)) as [-> |Hmm].
    + rewrite lookup_insert_eq. congruence.
    + by rewrite lookup_insert_ne.
  - intros t' m'. rewrite status_insert. destruct (decide (m' = m)) as [-> |Hmm].
    + rewrite lookup_insert_eq. intros [= <-]. by left.
    + rewrite lookup_insert_ne by done. intros Ho. destruct (i_own _ I t' m' Ho) as [?|[?|?]]; [by left|..];
        destruct (decide (t' = t)) as [-> |Hne]; try congruence; auto.
  - intros t' m' Hh. rewrite status_insert. destruct (i_held _ I t' m' Hh) as [Ho|Hw].
    + left. rewrite lookup_insert_ne; [done|]. congruence.
    + destruct (decide (t' = t)) as [-> |Hne]; [|by right]. left. rewrite Hst in Hw. injection Hw as <-. by rewrite lookup_insert_eq.
  - intros t' m'. rewrite status_insert. destruct (decide (t' = t)) as [-> |Hne]; [naive_solver|]. intros Hw.
    destruct (i_mid _ I t' m' Hw) as [Ho ?]. split; [|done]. rewrite lookup_insert_ne by congruence. done.
  - intros t' m'. rewrite status_insert. destruct (decide (t' = t)) as [-> |Hne]; [done|apply (i_nonzero _ I)].
Qed.

Lemma step_try_ok t m : status_of s t = Running -> m <> 0 -> owner s !! m = None ->
  sys_ok (mk_system (ld s) (<[m := t]> (owner s)) (<[t := Tried m]> (statuses s))).
Proof.
  intros Hst Hm Hfree. split; cbn [ld owner]; try apply I.
  - intros t' m'. rewrite status_insert. destruct (decide (t' = t)) as [-> |Hne]; [done|]. intros Hw.
    apply (others_wait (<[m := t]> (owner s)) (ld s) t' m' Hw); [done..|].
    destruct (decide (m' = m)) as [-> |Hmm]; [rewrite lookup_insert_eq; congruence|by rewrite lookup_insert_ne].
  - intros t' m'. rewrite status_insert. destruct (decide (m' = m)) as [-> |Hmm].
    + rewrite lookup_insert_eq. intros [= <-]. rewrite decide_True by done. auto.
    + rewrite lookup_insert_ne by done. intros Ho. destruct (i_own _ I t' m' Ho) as [?|[?|?]]; [by left|..];
        destruct (decide (t' = t)) as [-> |Hne]; try congruence; auto.
  - intros t' m' Hh. rewrite status_insert. destruct (i_held _ I t' m' Hh) as [Ho|Hw].
    + left. rewrite lookup_insert_ne; [done|]. congruence.
    + destruct (decide (t' = t)) as [-> |Hne]; [congruence|by right].
  - intros t' m'. rewrite status_insert. destruct (decide (t' = t)) as [-> |Hne].
    + intros [[= <-]|?]; [|done]. rewrite lookup_insert_eq. split; [done|]. intros Hin.
      destruct (i_held _ I t m Hin); congruence.
    + intros Hw. destruct (i_mid _ I t' m' Hw) as [Ho ?]. split; [|done]. rewrite lookup_insert_ne by congruence. done.
  - intros t' m'. rewrite status_insert. destruct (decide (t' = t)) as [-> |Hne]; [by intros [= <-]|apply (i_nonzero _ I)].
Qed.

Lemma step_trycheck_ok t m k u ld' : status_of s t = Tried m -> terminated k ->
  mutex_trylock_check t m k (ld s) = (Ret u, ld') -> sys_ok (mk_system ld' (owner s) (<[t := Running]> (statuses s))).
Proof.
  intros Hst Tk Hr. destruct (i_mid _ I t m ltac:(by left)) as [Hown Hnin].
  destruct (trycheck_Ret _ _ _ _ _ _ (i_ok _ I) (i_nonzero _ I t m Hst) Tk Hr) as (K' & B' & H' & O').
  assert (forall t', held ld' t' = if decide (t' = t) then held (ld s) t ++ [m] else held (ld s) t') as Hh.
  { intros t'. destruct (decide (t' = t)) as [-> |]; auto. }
  split; cbn [ld owner]; try done.
  - intros t' m'. rewrite status_insert. destruct (decide (t' = t)) as [-> |Hne]; [done|]. intros Hw.
    apply (others_wait (owner s) ld' t' m' Hw); [auto| |done]. intros x y. by rewrite B'.
  - intros t' m' Ho. rewrite status_insert, (Hh t'). destruct (decide (t' = t)) as [-> |Hne]; [|by apply (i_own _ I)].
    left. apply elem_of_app. destruct (i_own _ I t m' Ho) as [?|[Hx|?]]; [by left| |congruence].
    right. apply list_elem_of_singleton. congruence.
  - intros t' m'. rewrite status_insert, (Hh t'). destruct (decide (t' = t)) as [-> |Hne]; [|by apply (i_held _ I)].
    intros [Hin|Hin]%elem_of_app; [|apply list_elem_of_singleton in Hin as ->; by left].
    destruct (i_held _ I t m' Hin) as [?|?]; [by left|congruence].
  - intros t'. rewrite (Hh t'). destruct (decide (t' = t)) as [-> |Hne]; [|apply I]. apply NoDup_app. split; [apply I|].
    split; [|apply NoDup_singleton]. intros x Hx Hx'. by apply list_elem_of_singleton in Hx' as ->.
  - intros t' m'. rewrite status_insert, (Hh t'). destruct (decide (t' = t)) as [-> |Hne]; [naive_solver|apply (i_mid _ I)].
  - intros t' m'. rewrite status_insert. destruct (decide (t' = t)) as [-> |Hne]; [done|apply (i_nonzero _ I)].
Qed.

Lemma step_unlock_ok t m u ld' : status_of s t = Running -> owner s !! m = Some t ->
  mutex_unlock_check t m (ld s) = (Ret u, ld') -> sys_ok (mk_system ld' (owner s) (<[t := Unlocking m]> (statuses s))).
Proof.
  intros Hst Hown Hr. destruct (unlock_Ret _ _ _ _ _ (i_ok _ I) Hr) as (Hin & K' & B' & H' & O').
  destruct (remove_last_spec m _ (i_nodup _ I t)) as [Nd Hrem]. rewrite <- H' in Nd, Hrem.
  assert (forall t' x, t' <> t -> x ∈ held ld' t' <-> x ∈ held (ld s) t') as Ho' by (intros t' x Hne; by rewrite O').
  split; cbn [ld owner]; try done.
  - intros t' m'. rewrite status_insert. destruct (decide (t' = t)) as [-> |Hne]; [done|]. intros Hw.
    apply (others_wait (owner s) ld' t' m' Hw); [auto| |done]. intros x y. by rewrite B'.
  - intros t' m' Ho. rewrite status_insert. destruct (decide (t' = t)) as [-> |Hne]; [|rewrite Ho' by done; by apply (i_own _ I)].
    rewrite Hrem. destruct (decide (m' = m)) as [-> |Hmm]; [auto|]. left.
    destruct (i_own _ I t m' Ho) as [?|[?|?]]; [done|congruence..].
  - intros t' m'. rewrite status_insert. destruct (decide (t' = t)) as [-> |Hne]; [|rewrite Ho' by done; by apply (i_held _ I)].
    rewrite Hrem. intros [Hx _]. destruct (i_held _ I t m' Hx) as [?|?]; [by left|congruence].
  - intros t'. destruct (decide (t' = t)) as [-> |Hne]; [done|]. rewrite O' by done. apply I.
  - intros t' m'. rewrite status_insert. destruct (decide (t' = t)) as [-> |Hne].
    + intros [?|[= <-]]; [done|]. split; [done|]. rewrite Hrem. tauto.
    + rewrite Ho' by done. apply (i_mid _ I).
  - intros t' m'. rewrite status_insert. destruct (decide (t' = t)) as [-> |Hne]; [done|apply (i_nonzero _ I)].
Qed.

Lemma step_release_ok t m : status_of s t = Unlocking m ->
  sys_ok (mk_system (ld s) (delete m (owner s)) (<[t := Running]> (statuses s))).
Proof.
  intros Hst. destruct (i_mid _ I t m ltac:(by right)) as [Hown Hnin]. split; cbn [ld owner]; try apply I.
  - intros t' m'. rewrite status_insert. destruct (decide (t' = t)) as [-> |Hne]; [done|]. intros Hw.
    apply (others_wait (delete m (owner s)) (ld s) t' m' Hw); [done..|]. by intros [_ ?]%lookup_delete_Some.
  - intros t' m' [Hne Ho]%lookup_delete_Some. rewrite status_insert. destruct (i_own _ I t' m' Ho) as [?|[?|?]]; [by left|..];
      destruct (decide (t' = t)) as [-> |]; try congruence; auto.
  - intros t' m' Hh. rewrite status_insert. destruct (i_held _ I t' m' Hh) as [Ho|Hw].
    + left. apply lookup_delete_Some. split; [|done]. intros <-. rewrite Hown in Ho. injection Ho as <-. done.
    + destruct (decide (t' = t)) as [-> |Hne]; [congruence|by right].
  - intros t' m'. rewrite status_insert. destruct (decide (t' = t)) as [-> |Hne]; [naive_solver|]. intros Hw.
    destruct (i_mid _ I t' m' Hw) as [Ho ?]. split; [|done]. apply lookup_delete_Some. split; [|done]. congruence.
  - intros t' m'. rewrite status_insert. destruct (decide (t' = t)) as [-> |Hne]; [done|apply (i_nonzero _ I)].
Qed.

Lemma step_destroy_ok m u ld' : owner s !! m = None -> (forall t, status_of s t <> Waiting m) ->
  mutex_destroy_check m (ld s) = (Ret u, ld') -> sys_ok (mk_system ld' (owner s) (statuses s)).
Proof.
  intros Hfree Hnw Hr.
  assert (forall t, m ∉ held (ld s) t) as Hno by (intros t Hin; destruct (i_held _ I t m Hin) as [?|Hw]; [congruence|by apply (Hnw t)]).
  pose proof (destroy_spec (ld s) m (i_ok _ I) Hno) as Hd. unfold runs in Hd. unfold mutex_destroy_check in Hr. rewrite Hr in Hd.
  destruct Hd as (K' & B' & H' & _). split; cbn [ld owner]; try done.
  - intros t' m' Hw. destruct (i_wait _ I t' m' Hw) as (Hn & l & Hl & Hlb). split; [done|]. exists l. rewrite H'. split; [done|].
    intros h Hin. apply B'. split; [auto|]. split; [|intros ->; by apply (Hnw t')].
    intros ->. apply (Hno t'). rewrite Hl. apply elem_of_app. by left.
  - intros t' m'. rewrite H'. apply (i_own _ I).
  - intros t' m'. rewrite H'. apply (i_held _ I).
  - intros t'. rewrite H'. apply I.
  - intros t' m'. rewrite H'. apply (i_mid _ I).
  - apply (i_nonzero _ I).
Qed.

Lemma mstep_ok s' : mstep s s' -> sys_ok s'.
Proof.
  intros Hs. destruct Hs; eauto using step_lock_ok, step_grant_ok, step_try_ok, step_trycheck_ok, step_unlock_ok,
    step_release_ok, step_destroy_ok.
Qed.

(** The holder of a mutex that waits for another acquired the first before the second. *)
Lemma waits_before t t' m m' : status_of s t = Waiting m -> owner s !! m = Some t' -> status_of s t' = Waiting m' ->
  before (ld s) m m'.
Proof.
  intros Ht Ho Ht'. destruct (i_wait _ I t' m' Ht') as (Hn & l & Hl & Hlb).
  destruct (i_own _ I t' m Ho) as [Hin|[?|?]]; [|congruence..]. rewrite Hl in Hin.
  apply elem_of_app in Hin as [Hin|Hin]; [auto|]. apply list_elem_of_singleton in Hin as ->. done.
Qed.

Lemma no_circle t : ~ tc (waits_for s) t t.
Proof.
  assert (forall t t', tc (waits_for s) t t' -> forall m m', status_of s t = Waiting m -> status_of s t' = Waiting m' ->
    tc (before (ld s)) m m') as H.
  { intros t0 t' Ht. induction Ht as [x y (n & Hx & Ho)|x y z (n & Hx & Ho) Hyz IH]; intros m m' Hm Hm'.
    - apply tc_once. assert (n = m) as -> by congruence. by eapply waits_before.
    - assert (n = m) as -> by congruence.
      assert (exists n', status_of s y = Waiting n') as [n' Hy] by (destruct Hyz as [? ? (n' & ? & _)|? ? ? (n' & ? & _)]; eauto).
      eapply tc_l; [by eapply waits_before|by apply IH]. }
  intros Ht. assert (exists m, status_of s t = Waiting m) as [m Hm] by (inversion Ht as [? ? (n' & ? & _)|? ? ? (n' & ? & _)]; eauto).
  apply (before_acyclic (ld s) m); [apply I..|]. by eapply H.
Qed.
End Step.

(** ** Properties *)

(** C6. No circular wait. In every state that threads reach by locking, trying, unlocking and
    destroying mutexes, in any interleaving and whatever allocations fail, no chain of threads that
    each wait for a mutex the next one has closes into a circle: the checks stop the system before a
    deadlock of mutexes can form. *)
Theorem no_circular_wait threads oracle s : rtc mstep (boot threads oracle) s -> forall t, ~ tc (waits_for s) t t.
Proof.
  intros Hr. apply no_circle. revert Hr. apply (rtc_ind_r sys_ok); [apply boot_ok|]. intros x y _ Hxy Hx. by eapply mstep_ok.
Qed.

(** ** Witnesses *)

(** Two threads: 0 has mutex 8 and waits for 16, which 1 has. *)
Module Scenario.
Definition run (m : L unit) (w : lockdep) : lockdep := snd (m w).
Definition w1 : lockdep := run (mutex_lock_check 0 8 None) (mutex_lockdep_init 2 []).
Definition w2 : lockdep := run (mutex_lock_check 1 16 None) w1.
Definition w3 : lockdep := run (mutex_lock_check 0 16 None) w2.
Definition s0 := boot 2 [].
Definition s1 := mk_system w1 ∅ (<[0 := Waiting 8]> ∅).
Definition s2 := mk_system w1 (<[8 := 0]> ∅) (<[0 := Running]> (statuses s1)).
Definition s3 := mk_system w2 (owner s2) (<[1 := Waiting 16]> (statuses s2)).
Definition s4 := mk_system w2 (<[16 := 1]> (owner s2)) (<[1 := Running]> (statuses s3)).
Definition s5 := mk_system w3 (owner s4) (<[0 := Waiting 16]> (statuses s4)).

Lemma reached : rtc mstep s0 s5.
Proof.
  eapply rtc_l; [apply (step_lock s0 0 8 None tt w1); [vm_compute; reflexivity|done|done|vm_compute; reflexivity]|].
  eapply rtc_l; [apply (step_grant s1 0 8); vm_compute; reflexivity|].
  eapply rtc_l; [apply (step_lock s2 1 16 None tt w2); [vm_compute; reflexivity|done|done|vm_compute; reflexivity]|].
  eapply rtc_l; [apply (step_grant s3 1 16); vm_compute; reflexivity|].
  eapply rtc_l; [apply (step_lock s4 0 16 None tt w3); [vm_compute; reflexivity|done|done|vm_compute; reflexivity]|].
  apply rtc_refl.
Qed.

(** Thread 1 asking for 8 now would close the circle: the check panics. *)
Example circle_panics : fst (mutex_lock_check 1 8 None w3) = Panic.
Proof. vm_compute. reflexivity. Qed.
End Scenario.

Lemma no_circular_wait_witness : waits_for Scenario.s5 0 1 /\ ~ tc (waits_for Scenario.s5) 0 0.
Proof.
  split; [exists 16; vm_compute; done|]. exact (no_circular_wait 2 [] Scenario.s5 Scenario.reached 0).
Defined.
