(* ===== verification/TransferList.v ===== *)
(** * Transfer lists

    optee_os/core/kernel/transfer_list.c with include/kernel/transfer_list.h: the list of tagged
    entries that boot stages hand over in memory (Firmware Handoff specification). The state is the
    mapped region, its address and its bytes; pointers are addresses, NULL is 0, and an access
    outside the region is undefined. A header is 24 bytes, the header of an entry 8. Mappings made
    by core_mmu_add_mapping() are arguments. *)
From S2P Require Import Prelude.
Local Open Scope Z_scope.

Record tl_mem := mk_mem { base : Z; bytes : list Z }.
Abbreviation T := (M tl_mem).

(** ** Constants and layout *)

Definition TRANSFER_LIST_SIGNATURE : Z := 0x4a0fb10b.
Definition TRANSFER_LIST_VERSION : Z := 0x0002.
Definition TRANSFER_LIST_INIT_MAX_ALIGN : Z := 3.
Definition TRANSFER_LIST_GRANULE : Z := 8.
Definition TL_FLAGS_HAS_CHECKSUM : Z := 2 ^ 0.
Definition TL_OPS_NONE : Z := 0.
Definition TL_OPS_ALL : Z := 1.
Definition TL_OPS_RO : Z := 2.
Definition TL_OPS_CUS : Z := 3.
Definition TL_TAG_EMPTY : Z := 0.
Definition SMALL_PAGE_SIZE : Z := 4096.

Definition sizeof_header : Z := 24.
Definition sizeof_entry : Z := 8.

Definition load (n : nat) (a : Z) : T Z :=
  let! s := get in
  let! d := of_opt OutOfBounds (rd (bytes s) (a - base s) (Z.of_nat n)) in
  ret (le_val d).

Definition store (n : nat) (a v : Z) : T unit :=
  let! s := get in
  let! b := of_opt OutOfBounds (wr (bytes s) (a - base s) (le_bytes n v)) in
  put (mk_mem (base s) b).

(** [memmove()] of bytes of the caller, and within the region. *)
Definition put_bytes (a : Z) (d : list Z) : T unit :=
  let! s := get in
  let! b := of_opt OutOfBounds (wr (bytes s) (a - base s) d) in
  put (mk_mem (base s) b).

Definition memmove (dst src n : Z) : T unit :=
  let! s := get in
  let! d := of_opt OutOfBounds (rd (bytes s) (src - base s) n) in
  put_bytes dst d.

(** [struct transfer_list_header] *)
Definition tl_signature (tl : Z) : T Z := load 4 tl.
Definition tl_checksum (tl : Z) : T Z := load 1 (tl + 4).
Definition tl_version (tl : Z) : T Z := load 1 (tl + 5).
Definition tl_hdr_size (tl : Z) : T Z := load 1 (tl + 6).
Definition tl_alignment (tl : Z) : T Z := load 1 (tl + 7).
Definition tl_size (tl : Z) : T Z := load 4 (tl + 8).
Definition tl_max_size (tl : Z) : T Z := load 4 (tl + 12).
Definition tl_flags (tl : Z) : T Z := load 4 (tl + 16).

(** [struct transfer_list_entry] *)
Definition te_tag_id (e : Z) : T Z := load 2 e.
Definition te_hdr_size (e : Z) : T Z := load 1 (e + 3).
Definition te_data_size (e : Z) : T Z := load 4 (e + 4).

(** [BIT(a)]: a 32-bit shift. *)
Definition TL_ALIGNMENT_FROM_ORDER (a : Z) : T Z := if a <? 32 then ret (2 ^ a) else undef ShiftRange.

(** ADD_OVERFLOW, ROUNDUP_OVERFLOW, ROUNDUP2_OVERFLOW to 64 bits; [None] is overflow. *)
Definition add_overflow (a b : Z) : option Z := if a + b <? 2 ^ 64 then Some (a + b) else None.
Definition roundup_overflow (v size : Z) : option Z :=
  let m := v mod size in add_overflow v (if m =? 0 then 0 else size - m).
Definition rounddown2 (v size : Z) : Z := Z.land v (Z.lnot (size - 1)).
Definition roundup2_overflow (v size : Z) : option Z :=
  t ← add_overflow v (size - 1); Some (rounddown2 t size).

(** ** Checksum *)

Definition calc_byte_sum (tl : Z) : T Z :=
  let! size := tl_size tl in
  for_ (Z.to_nat size) 0 (fun n cs => let! b := load 1 (tl + n) in ret (u8 (cs + b))) 0.

Definition transfer_list_verify_checksum (tl : Z) : T bool :=
  if tl =? 0 then ret false else
  let! f := tl_flags tl in
  if negb (has f TL_FLAGS_HAS_CHECKSUM) then ret true else
  let! cs := calc_byte_sum tl in ret (cs =? 0).

Definition transfer_list_update_checksum (tl : Z) : T unit :=
  if tl =? 0 then ret tt else
  let! f := tl_flags tl in
  if negb (has f TL_FLAGS_HAS_CHECKSUM) then ret tt else
  let! cs := calc_byte_sum tl in
  let! old := tl_checksum tl in
  let cs := u8 (cs - old) in
  let cs := u8 (256 - cs) in
  do! store 1 (tl + 4) cs in
  let! ok := transfer_list_verify_checksum tl in
  assert_ ok.

Definition transfer_list_check_header (tl : Z) : T Z :=
  if tl =? 0 then ret TL_OPS_NONE else
  let! sig := tl_signature tl in
  if negb (sig =? TRANSFER_LIST_SIGNATURE) then ret TL_OPS_NONE else
  let! max := tl_max_size tl in
  if max =? 0 then ret TL_OPS_NONE else
  let! size := tl_size tl in
  if max <? size then ret TL_OPS_NONE else
  let! hdr := tl_hdr_size tl in
  if negb (hdr =? sizeof_header) then ret TL_OPS_NONE else
  let! ok := transfer_list_verify_checksum tl in
  if negb ok then ret TL_OPS_NONE else
  let! version := tl_version tl in
  if version =? 0 then ret TL_OPS_NONE
  else if version =? TRANSFER_LIST_VERSION then ret TL_OPS_ALL
  else if TRANSFER_LIST_VERSION <? version then ret TL_OPS_RO
  else ret TL_OPS_CUS.

(** ** Walking the list *)

(** The checks of the entry found at [va], for a list that ends at [tl_ev]. *)
Definition valid_entry (tl_ev va : Z) : T Z :=
  if tl_ev <? u64 (va + sizeof_entry) then ret 0 else
  let! h := te_hdr_size va in
  if h <? sizeof_entry then ret 0 else
  let! d := te_data_size va in
  match sz ← add_overflow h d; add_overflow va sz with
  | None => ret 0
  | Some ev => if tl_ev <? ev then ret 0 else ret va
  end.

(** An entry pointer, 0 for NULL; [cur] is 0 at the start. *)
Definition transfer_list_next (tl cur : Z) : T Z :=
  if tl =? 0 then ret 0 else
  let! size := tl_size tl in
  let tl_ev := u64 (tl + size) in
  let! va := (if negb (cur =? 0) then
    let! h := te_hdr_size cur in
    let! d := te_data_size cur in
    ret (sz ← add_overflow h d; va ← add_overflow cur sz; roundup_overflow va TRANSFER_LIST_GRANULE)
  else let! h := tl_hdr_size tl in ret (Some (u64 (tl + h)))) in
  match va with
  | None => ret 0
  | Some va => valid_entry tl_ev va
  end.

(** The loop of [transfer_list_find()]. *)
Fixpoint find_loop (fuel : nat) (tl tl_e tag_id : Z) : T Z :=
  match fuel with
  | O => undef OutOfFuel
  | S k =>
      let! tl_e := transfer_list_next tl tl_e in
      if tl_e =? 0 then ret 0 else
      let! tag := te_tag_id tl_e in
      if tag =? tag_id then ret tl_e else find_loop k tl tl_e tag_id
  end.

(** An entry takes eight bytes at least. *)
Definition transfer_list_find (tl tag_id : Z) : T Z :=
  let! s := get in find_loop (S (length (bytes s))) tl 0 tag_id.

Definition transfer_list_entry_data (tl_e : Z) : T Z :=
  if tl_e =? 0 then ret 0 else let! h := te_hdr_size tl_e in ret (u64 (tl_e + h)).

(** ** Changing the list *)

(** [dummy_te->...] and [*tl_e = (struct transfer_list_entry){ ... }]. *)
Definition store_entry (e tag data_size : Z) : T unit :=
  do! store 2 e tag in
  do! store 1 (e + 2) 0 in
  do! store 1 (e + 3) sizeof_entry in
  store 4 (e + 4) data_size.

(** The end of an entry with [d] bytes of data, rounded up. *)
Definition entry_end (e h d : Z) : option Z :=
  sz ← add_overflow h d; ev ← add_overflow e sz; roundup_overflow ev TRANSFER_LIST_GRANULE.

(** The distance by which the entries that follow move, rounded to the alignment, and the new size
    of the list; the result is the new place of the next entry, [None] if the list grows too large. *)
Definition move_stage (tl size old_ev new_ev : Z) : T (option Z) :=
  let! order := tl_alignment tl in
  let! align := TL_ALIGNMENT_FROM_ORDER order in
  let! max := tl_max_size tl in
  if old_ev <? new_ev then
    match roundup2_overflow (new_ev - old_ev) align with
    | None => ret None
    | Some mov_dis =>
        if max <? u64 (size + mov_dis) then ret None else
        do! store 4 (tl + 8) (size + mov_dis) in ret (Some (u64 (old_ev + mov_dis)))
    end
  else
    let mov_dis := rounddown2 (old_ev - new_ev) align in
    do! store 4 (tl + 8) (size - mov_dis) in ret (Some (u64 (old_ev - mov_dis))).

Definition transfer_list_set_data_size (tl tl_e new_data_size : Z) : T bool :=
  if (tl =? 0) || (tl_e =? 0) then ret false else
  let! size := tl_size tl in
  let tl_old_ev := u64 (tl + size) in
  let! h := te_hdr_size tl_e in
  let! d := te_data_size tl_e in
  match entry_end tl_e h d, entry_end tl_e h new_data_size with
  | Some old_ev, Some new_ev =>
      let! moved := move_stage tl size old_ev new_ev in
      match moved with
      | None => ret false
      | Some r_new_ev =>
          do! (if old_ev <? tl_old_ev then
            do! memmove r_new_ev old_ev (tl_old_ev - old_ev) in
            let gap := u64 (r_new_ev - new_ev) in
            if sizeof_entry <=? gap then store_entry new_ev TL_TAG_EMPTY (gap - sizeof_entry) else ret tt
          else ret tt) in
          do! store 4 (tl_e + 4) new_data_size in
          do! transfer_list_update_checksum tl in
          ret true
      end
  | _, _ => ret false
  end.

Definition transfer_list_rem (tl tl_e : Z) : T bool :=
  if (tl =? 0) || (tl_e =? 0) then ret false else
  let! size := tl_size tl in
  if u64 (tl + size) <? tl_e then ret false else
  do! store 2 tl_e TL_TAG_EMPTY in
  do! store 1 (tl_e + 2) 0 in
  do! transfer_list_update_checksum tl in
  ret true.

(** [data]: the bytes of the caller, [None] for NULL. *)
Definition transfer_list_add (tl tag_id data_size : Z) (data : option (list Z)) : T Z :=
  if tl =? 0 then ret 0 else
  let! max := tl_max_size tl in
  let max_tl_ev := u64 (tl + max) in
  let! size := tl_size tl in
  let tl_ev := u64 (tl + size) in
  match roundup_overflow tl_ev TRANSFER_LIST_GRANULE with
  | None => ret 0
  | Some tl_e =>
      match sz ← add_overflow sizeof_entry data_size; add_overflow tl_e sz with
      | None => ret 0
      | Some ev =>
          if max_tl_ev <? ev then ret 0 else
          do! store_entry tl_e tag_id data_size in
          let! size := tl_size tl in
          do! store 4 (tl + 8) (size + (ev - tl_ev)) in
          do! match data with
              | Some d => let! p := transfer_list_entry_data tl_e in put_bytes p (take (Z.to_nat data_size) d)
              | None => ret tt
              end in
          do! transfer_list_update_checksum tl in
          ret tl_e
      end
  end.

Definition transfer_list_add_with_align (tl tag_id data_size : Z) (data : option (list Z)) (alignment : Z) : T Z :=
  if tl =? 0 then ret 0 else
  let! size := tl_size tl in
  match roundup_overflow (u64 (tl + size)) TRANSFER_LIST_GRANULE with
  | None => ret 0
  | Some tl_ev =>
      let ev := u64 (tl_ev + sizeof_entry) in
      let! align := TL_ALIGNMENT_FROM_ORDER alignment in
      let! filled := (if negb (Z.land ev (align - 1) =? 0) then
        let new_tl_ev := u64 (rounddown2 (u64 (ev + (align - 1))) align - sizeof_entry) in
        do! assert_ (sizeof_entry <? u64 (new_tl_ev - tl_ev)) in
        let! e := transfer_list_add tl TL_TAG_EMPTY (u32 (new_tl_ev - tl_ev - sizeof_entry)) None in
        ret (negb (e =? 0))
      else ret true) in
      if negb filled then ret 0 else
      let! tl_e := transfer_list_add tl tag_id data_size data in
      let! old := tl_alignment tl in
      do! (if old <? alignment then
        do! store 1 (tl + 7) alignment in transfer_list_update_checksum tl
      else ret tt) in
      ret tl_e
  end.

(** ** Placing the list *)

Definition IS_ALIGNED (x a : Z) : bool := Z.land x (a - 1) =? 0.

(** [mapped] is what core_mmu_add_mapping() returns, 0 on failure; the state is that region. *)
Definition transfer_list_init (mapped pa max_size : Z) : T Z :=
  let! align := TL_ALIGNMENT_FROM_ORDER TRANSFER_LIST_INIT_MAX_ALIGN in
  if (pa =? 0) || (max_size =? 0) then ret 0 else
  if negb (IS_ALIGNED pa align) || negb (IS_ALIGNED max_size align) || (max_size <? sizeof_header) then ret 0 else
  if mapped =? 0 then ret 0 else
  let tl := mapped in
  do! put_bytes tl (replicate (Z.to_nat max_size) 0) in
  do! store 4 tl TRANSFER_LIST_SIGNATURE in
  do! store 1 (tl + 5) TRANSFER_LIST_VERSION in
  do! store 1 (tl + 6) sizeof_header in
  do! store 1 (tl + 7) TRANSFER_LIST_INIT_MAX_ALIGN in
  do! store 4 (tl + 8) sizeof_header in
  do! store 4 (tl + 12) max_size in
  do! store 4 (tl + 16) TL_FLAGS_HAS_CHECKSUM in
  do! transfer_list_update_checksum tl in
  ret tl.

Definition get_align_base_addr (pa tl : Z) : T Z :=
  let! order := tl_alignment tl in
  let! align := TL_ALIGNMENT_FROM_ORDER order in
  let align_mask := align - 1 in
  let align_off := Z.land tl align_mask in
  let new_addr := u64 (Z.land pa (Z.lnot align_mask) + align_off) in
  ret (if new_addr <? pa then u64 (new_addr + align) else new_addr).

(** core_mmu_remove_mapping(); [rem]: whether it succeeds. *)
Definition unmap_list (rem : bool) : T unit := if rem then ret tt else panic.

Definition transfer_list_unmap_nosync (rem : bool) (tl : Z) : T unit :=
  let! sz := tl_max_size tl in unmap_list rem.

(** The list at [tl] moves into the region [dst] that core_mmu_add_mapping() maps at [mapped]; the
    result is the new list and its region. *)
Definition transfer_list_relocate (dst : tl_mem) (mapped : Z) (rem : bool) (tl pa max_size : Z) : T (Z * tl_mem) :=
  if (tl =? 0) || (pa =? 0) || (max_size =? 0) then ret (0, dst) else
  let! new_addr := get_align_base_addr pa tl in
  let new_max_size := u64 (max_size - (new_addr - pa)) in
  let! size := tl_size tl in
  if new_max_size <? size then ret (0, dst) else
  if mapped =? 0 then ret (0, dst) else
  let! s := get in
  let! d := of_opt OutOfBounds (rd (bytes s) (tl - base s) size) in
  match (do! put_bytes mapped d in do! store 4 (mapped + 12) new_max_size in transfer_list_update_checksum mapped) dst with
  | (Ret _, dst') => do! transfer_list_unmap_nosync rem tl in ret (mapped, dst')
  | (Err e, _) => err e
  | (Panic, _) => panic
  | (Undef u, _) => undef u
  end.

(** The loop of [transfer_list_map()]: [add pa sz] is core_mmu_add_mapping(). The result is the
    mapped list; the new size is rounded up in the 32 bits of tl->max_size. *)
Fixpoint map_loop (fuel : nat) (add : Z -> Z -> option tl_mem) (rem : bool) (pa sz : Z) : outcome (option tl_mem) :=
  match fuel with
  | O => Undef OutOfFuel
  | S k =>
      match add pa sz with
      | None => Ret None
      | Some s =>
          match fst ((let! ops := transfer_list_check_header (base s) in let! max := tl_max_size (base s) in ret (ops, max)) s) with
          | Ret (ops, max) =>
              if ops =? TL_OPS_NONE then if rem then Ret None else Panic
              else if max <=? sz then Ret (Some s)
              else if rem then map_loop k add rem pa (u32 (max + SMALL_PAGE_SIZE - 1) / SMALL_PAGE_SIZE * SMALL_PAGE_SIZE) else Panic
          | Err e => Err e
          | Panic => Panic
          | Undef u => Undef u
          end
      end
  end.

(** A second turn is the last one unless tl->max_size changes in between ([map_two_turns]). *)
Definition transfer_list_map (add : Z -> Z -> option tl_mem) (rem : bool) (pa : Z) : outcome (option tl_mem) :=
  map_loop 2 add rem pa SMALL_PAGE_SIZE.

(** Cleaning the cache has no effect on the bytes. *)
Definition transfer_list_unmap_sync (rem : bool) (tl : Z) : T unit :=
  let! sz := tl_max_size tl in
  do! transfer_list_update_checksum tl in
  unmap_list rem.
