(* ===== verification/TransferListSpec.v ===== *)
(** * Transfer lists: a list of tagged entries

    [tl_rep s h es]: the region [s] holds a transfer list with the header fields [h] and the entries
    [es]. The calls of optee_os/core/kernel/transfer_list.c (modelled in [TransferList]) find, append,
    void and resize entries of that list and keep its checksum; walking a list whose header was
    checked stays inside it, whatever its bytes. *)
From S2P Require Import Prelude TransferList.
Local Open Scope Z_scope.

(** ** Words in memory *)

Definition word (m : list Z) (off : Z) (n : nat) : option Z := le_val <$> rd m off (Z.of_nat n).

(** The memories agree outside [lo, hi). *)
Definition agree_out (lo hi : Z) (m m' : list Z) : Prop :=
  lenZ m' = lenZ m /\ forall off n, off + n <= lo \/ hi <= off -> rd m' off n = rd m off n.

Lemma agree_refl lo hi m : agree_out lo hi m m. Proof. done. Qed.
Lemma agree_trans lo hi lo' hi' m1 m2 m3 : agree_out lo hi m1 m2 -> agree_out lo' hi' m2 m3 ->
  agree_out (Z.min lo lo') (Z.max hi hi') m1 m3.
Proof. intros [L1 A1] [L2 A2]. split; [congruence|]. intros off n Ho. rewrite A2, A1; [done|lia|lia]. Qed.
Lemma agree_wr m off d m' : wr m off d = Some m' -> agree_out off (off + lenZ d) m m'.
Proof. intros Hw. pose proof (wr_Some _ _ _ _ Hw) as (_ & _ & Hl). split; [unfold lenZ; lia|]. intros o n Ho. by eapply rd_wr_other. Qed.
Lemma agree_word lo hi m m' off n : agree_out lo hi m m' -> off + Z.of_nat n <= lo \/ hi <= off -> word m' off n = word m off n.
Proof. intros [_ A] Ho. unfold word. by rewrite A. Qed.

Lemma word_wr m off n v m' : wr m off (le_bytes n v) = Some m' -> is_u (8 * Z.of_nat n) v -> word m' off n = Some v.
Proof.
  intros Hw Hv. apply rd_wr_same in Hw. unfold word. unfold lenZ in Hw. rewrite length_le_bytes in Hw. rewrite Hw. simpl. f_equal.
  rewrite le_val_le_bytes. by apply uwrap_small.
Qed.

Lemma word_rd m off n v : word m off n = Some v -> exists d, rd m off (Z.of_nat n) = Some d /\ le_val d = v.
Proof. unfold word. destruct (rd _ _ _) as [d|]; [|done]. intros [= <-]. eauto. Qed.

Lemma word_is_u m off n v : bytes_ok m -> word m off n = Some v -> is_u (8 * Z.of_nat n) v.
Proof.
  intros Hm Hw. apply word_rd in Hw as (d & Hd & <-). apply rd_Some in Hd as (_ & _ & _ & Hl & Hd). rewrite <- Hl.
  apply le_val_range. subst d. by apply Forall_take, Forall_drop.
Qed.

(** Reading inside what was read or written. *)
Lemma rd_rd {A} (m : list A) off n d k l : rd m off n = Some d -> 0 <= k -> 0 <= l -> k + l <= n -> rd d k l = rd m (off + k) l.
Proof.
  intros Hd Hk Hl Hkl. apply rd_Some in Hd as (H0 & Hn & Hm & Hld & ->). rewrite !rd_in by (rewrite ?Hld; lia). f_equal.
  rewrite skipn_firstn_comm, take_take, drop_drop. f_equal; [lia|]. f_equal. lia.
Qed.

Lemma rd_wr_inside {A} (m : list A) off d m' k l : wr m off d = Some m' -> 0 <= k -> 0 <= l -> k + l <= lenZ d -> rd m' (off + k) l = rd d k l.
Proof. intros Hw Hk Hl Hkl. apply rd_wr_same in Hw. symmetry. by eapply rd_rd. Qed.

Lemma runs_word n a b m v (Q : Z -> tl_mem -> Prop) E : word m (a - b) n = Some v -> Q v (mk_mem b m) -> runs (load n a) Q E (mk_mem b m).
Proof. intros Hw HQ. apply word_rd in Hw as (d & Hd & <-). unfold load, runs, bind, get. cbn [base bytes]. by rewrite Hd. Qed.

Lemma runs_put_bytes a d b m (Q : unit -> tl_mem -> Prop) E : 0 <= a - b -> a - b + lenZ d <= lenZ m ->
  (forall m', wr m (a - b) d = Some m' -> Q tt (mk_mem b m')) -> runs (put_bytes a d) Q E (mk_mem b m).
Proof. intros H0 H1 HQ. unfold put_bytes, runs, bind, get. cbn [base bytes]. rewrite wr_in by done. apply HQ. by rewrite wr_in. Qed.

Lemma runs_store n a v b m (Q : unit -> tl_mem -> Prop) E : 0 <= a - b -> a - b + Z.of_nat n <= lenZ m ->
  (forall m', wr m (a - b) (le_bytes n v) = Some m' -> Q tt (mk_mem b m')) -> runs (store n a v) Q E (mk_mem b m).
Proof. intros H0 H1 HQ. apply (runs_put_bytes a (le_bytes n v)); [done| |done]. unfold lenZ in *. rewrite length_le_bytes. lia. Qed.

(** ** Sums of bytes *)

Definition zsum (l : list Z) : Z := foldr Z.add 0 l.

Lemma zsum_app l k : zsum (l ++ k) = zsum l + zsum k.
Proof. unfold zsum. induction l as [|x l IH]; simpl; [done|]. rewrite IH. lia. Qed.

Lemma take_S_rd (m : list Z) (n : Z) : 0 <= n < lenZ m -> exists x, rd m n 1 = Some [x] /\ take (S (Z.to_nat n)) m = take (Z.to_nat n) m ++ [x].
Proof.
  intros Hn. unfold lenZ in Hn. destruct (lookup_lt_is_Some_2 m (Z.to_nat n) ltac:(lia)) as [x Hx]. exists x. split; [|by apply take_S_r].
  rewrite rd_in by (unfold lenZ; lia). f_equal. rewrite (drop_S _ x) by done. done.
Qed.

Lemma calc_byte_sum_runs b m size (Q : Z -> tl_mem -> Prop) E : word m 8 4 = Some size -> size <= lenZ m -> 0 <= size ->
  Q (zsum (take (Z.to_nat size) m) mod 256) (mk_mem b m) -> runs (calc_byte_sum b) Q E (mk_mem b m).
Proof.
  intros Hw Hs H0 HQ. unfold calc_byte_sum, tl_size. apply runs_bind, (runs_word _ _ _ _ size); [by replace (b + 8 - b) with 8 by lia|].
  eapply runs_mono; [apply (runs_for (fun i cs s => s = mk_mem b m /\ cs = zsum (take (Z.to_nat i) m) mod 256))| |done].
  - intros i cs s Hi [-> ->]. replace (0 + Z.of_nat (Z.to_nat size)) with size in Hi by lia.
    destruct (take_S_rd m i ltac:(lia)) as (x & Hx & Ht). apply runs_bind, (runs_word _ _ _ _ x).
    + unfold word. change (Z.of_nat 1) with 1. replace (b + i - b) with i by lia. rewrite Hx. simpl. f_equal. lia.
    + apply runs_ret. split; [done|]. replace (Z.to_nat (i + 1)) with (S (Z.to_nat i)) by lia. rewrite Ht, zsum_app. unfold zsum at 3. simpl.
      change (uwrap 8) with (fun z => z mod 256). cbv beta. rewrite Z.add_0_r. by rewrite Zplus_mod_idemp_l.
  - done.
  - intros cs s [-> ->]. replace (0 + Z.of_nat (Z.to_nat size)) with size by lia. done.
Qed.

Lemma zsum_split (l : list Z) off x r n : (length l = off)%nat -> (off < n)%nat -> zsum (take n (l ++ x :: r)) = zsum l + x + zsum (take (n - S off) r).
Proof.
  intros <- Hn. rewrite take_app_ge by lia. rewrite zsum_app. replace (n - length l)%nat with (S (n - S (length l))) by lia. cbn [take]. unfold zsum. simpl. lia.
Qed.

Lemma zsum_wr m off c m' old n : wr m off [c] = Some m' -> rd m off 1 = Some [old] -> off < n -> zsum (take (Z.to_nat n) m') = zsum (take (Z.to_nat n) m) - old + c.
Proof.
  intros Hw Hr Hn. pose proof (wr_Some _ _ _ _ Hw) as (H0 & H1 & _). unfold lenZ in H1. simpl in H1. rewrite wr_in in Hw by (unfold lenZ; simpl; lia).
  injection Hw as <-. apply rd_Some in Hr as (_ & _ & _ & _ & Hr). set (o := Z.to_nat off) in *.
  assert (m = take o m ++ old :: drop (S o) m) as Em.
  { rewrite <- (take_drop o m) at 1. f_equal. destruct (drop o m) as [|y r] eqn:Ed; [done|].
    simpl in Hr. injection Hr as <-. f_equal. replace (S o) with (o + 1)%nat by lia. rewrite <- drop_drop, Ed. done. }
  assert (length (take o m) = o) as Hl by (rewrite length_take; lia).
  change (length [c]) with 1%nat. replace (o + 1)%nat with (S o) by lia. cbn [app].
  rewrite (zsum_split _ o) by lia. pose proof (zsum_split (take o m) o old (drop (S o) m) (Z.to_nat n) Hl ltac:(lia)) as E2. rewrite <- Em in E2. lia.
Qed.

Lemma update_checksum_runs b m size f (Q : unit -> tl_mem -> Prop) E : b <> 0 -> word m 8 4 = Some size -> word m 16 4 = Some f ->
  24 <= size <= lenZ m -> bytes_ok m ->
  (forall m', agree_out 4 5 m m' -> bytes_ok m' -> (has f TL_FLAGS_HAS_CHECKSUM = true -> zsum (take (Z.to_nat size) m') mod 256 = 0) -> Q tt (mk_mem b m')) ->
  runs (transfer_list_update_checksum b) Q E (mk_mem b m).
Proof.
  intros Hb Hs Hf Hsz Hok HQ. unfold transfer_list_update_checksum, tl_flags. rewrite (proj2 (Z.eqb_neq b 0)) by done.
  apply runs_bind, (runs_word _ _ _ _ f); [by replace (b + 16 - b) with 16 by lia|].
  destruct (has f TL_FLAGS_HAS_CHECKSUM) eqn:Ef; cbn [negb]; [|apply runs_ret; apply HQ; [apply agree_refl|done|done]].
  apply runs_bind, (calc_byte_sum_runs b m size); [done|lia|lia|]. set (sum := zsum (take (Z.to_nat size) m)).
  assert (exists old, rd m 4 1 = Some [old]) as [old Hold] by (destruct (take_S_rd m 4 ltac:(lia)) as (x & Hx & _); eauto).
  unfold tl_checksum. apply runs_bind, (runs_word _ _ _ _ old).
  { unfold word. change (Z.of_nat 1) with 1. replace (b + 4 - b) with 4 by lia. rewrite Hold. simpl. f_equal. lia. }
  cbv zeta. set (c := u8 (256 - u8 (sum mod 256 - old))). apply runs_bind, runs_store; [lia|lia|]. replace (b + 4 - b) with 4 by lia. intros m' Hw.
  assert (le_bytes 1 c = [c]) as Ec.
  { simpl. f_equal. unfold c. unfold uwrap. change (2 ^ 8) with 256. apply Z.mod_small. apply Z.mod_pos_bound. lia. }
  pose proof (agree_wr _ _ _ _ Hw) as Ha. unfold lenZ in Ha at 1. rewrite length_le_bytes in Ha. change (4 + Z.of_nat 1) with 5 in Ha.
  assert (zsum (take (Z.to_nat size) m') mod 256 = 0) as Hz.
  { rewrite Ec in Hw. rewrite (zsum_wr _ _ _ _ old _ Hw Hold) by lia. fold sum. unfold c, uwrap. change (2 ^ 8) with 256.
    Z.div_mod_to_equations. lia. }
  apply runs_bind. unfold transfer_list_verify_checksum, tl_flags. rewrite (proj2 (Z.eqb_neq b 0)) by done.
  apply runs_bind, (runs_word _ _ _ _ f); [replace (b + 16 - b) with 16 by lia; rewrite (agree_word _ _ _ _ _ _ Ha); [done|simpl; lia]|].
  rewrite Ef. cbn [negb]. pose proof Ha as [Hl _].
  apply runs_bind, (calc_byte_sum_runs b m' size); [rewrite (agree_word _ _ _ _ _ _ Ha); [done|simpl; lia]|lia|lia|]. rewrite Hz.
  apply runs_ret. apply runs_assert; [done|]. apply HQ; [done| |done]. eapply wr_bytes_ok; [exact Hw|done|apply le_bytes_ok].
Qed.

(** ** The list *)

Record header := mk_hdr { h_order : Z; h_size : Z; h_max : Z; h_flags : Z }.
Record entry := mk_entry { tag : Z; hdr : Z; data : list Z }.

Definition up8 (x : Z) : Z := (x + 7) / 8 * 8.

Definition entry_at (m : list Z) (off : Z) (e : entry) : Prop :=
  word m off 2 = Some (tag e) /\ word m (off + 3) 1 = Some (hdr e) /\ word m (off + 4) 4 = Some (lenZ (data e)) /\
  8 <= hdr e /\ rd m (off + hdr e) (lenZ (data e)) = Some (data e).

(** Where an entry at [off] ends. *)
Definition efin (off : Z) (e : entry) : Z := off + hdr e + lenZ (data e).

(** The entries [es] fill memory from [off] to [off'], none past [fin]. *)
Fixpoint chain (m : list Z) (fin off : Z) (es : list entry) (off' : Z) : Prop :=
  match es with
  | [] => off' = off
  | e :: r => entry_at m off e /\ efin off e <= fin /\ chain m fin (up8 (efin off e)) r off'
  end.

(** The region holds the list; its checksum may be out of date. *)
Record tl_lay (s : tl_mem) (h : header) (es : list entry) : Prop := mk_lay {
  r_base : 0 < base s /\ base s mod 8 = 0 /\ base s + lenZ (bytes s) + 16 < 2 ^ 64;
  r_bytes : bytes_ok (bytes s);
  r_sig : word (bytes s) 0 4 = Some TRANSFER_LIST_SIGNATURE;
  r_version : word (bytes s) 5 1 = Some TRANSFER_LIST_VERSION;
  r_hdr : word (bytes s) 6 1 = Some sizeof_header;
  r_order : word (bytes s) 7 1 = Some (h_order h) /\ 3 <= h_order h < 32;
  r_size : word (bytes s) 8 4 = Some (h_size h) /\ 24 <= h_size h <= h_max h;
  r_max : word (bytes s) 12 4 = Some (h_max h) /\ h_max h <= lenZ (bytes s);
  r_flags : word (bytes s) 16 4 = Some (h_flags h);
  r_chain : chain (bytes s) (h_size h) 24 es (up8 (h_size h));
}.

Definition tl_rep (s : tl_mem) (h : header) (es : list entry) : Prop :=
  tl_lay s h es /\ (has (h_flags h) TL_FLAGS_HAS_CHECKSUM = true -> zsum (take (Z.to_nat (h_size h)) (bytes s)) mod 256 = 0).

Lemma up8_spec x : x <= up8 x < x + 8 /\ up8 x mod 8 = 0.
Proof. unfold up8. split; [Z.div_mod_to_equations; lia|]. apply Z.mod_mul. lia. Qed.
Lemma up8_id x : x mod 8 = 0 -> up8 x = x.
Proof. unfold up8. intros. Z.div_mod_to_equations. lia. Qed.
Lemma up8_add x y : y mod 8 = 0 -> up8 (x + y) = up8 x + y.
Proof. unfold up8. intros. Z.div_mod_to_equations. lia. Qed.
Lemma up8_mono x y : x <= y -> up8 x <= up8 y.
Proof. unfold up8. intros. Z.div_mod_to_equations. lia. Qed.

Lemma chain_app m fin es : forall off r off', chain m fin off (es ++ r) off' <-> exists mid, chain m fin off es mid /\ chain m fin mid r off'.
Proof.
  induction es as [|e es IH]; intros off r off'; simpl.
  - split; [eauto|]. by intros (mid & -> & ?).
  - rewrite IH. split; [intros (H1 & H2 & mid & H3 & H4); eauto 10|]. intros (mid & (H1 & H2 & H3) & H4). eauto.
Qed.

(** What a chain takes: entries start at multiples of eight and have eight bytes at least. *)
Lemma chain_le m fin es : forall off off', chain m fin off es off' -> off mod 8 = 0 ->
  off + 8 * lenZ es <= off' /\ off' mod 8 = 0 /\ (es <> [] -> off' = up8 off' /\ off' <= up8 fin).
Proof.
  induction es as [|e es IH]; intros off off' Hc H8; simpl in Hc.
  - subst. unfold lenZ. simpl. split; [lia|]. done.
  - destruct Hc as ((_ & _ & _ & Hh & _) & Hf & Hc). pose proof (up8_spec (efin off e)) as [Hu1 Hu2]. destruct (IH _ _ Hc Hu2) as (H1 & H2 & H3).
    pose proof (lenZ_nonneg (data e)). unfold efin in *. assert (lenZ (e :: es) = 1 + lenZ es) as -> by (unfold lenZ; simpl; lia).
    split; [|split; [done|]].
    + assert (off + 8 <= up8 (off + hdr e + lenZ (data e))) by lia. lia.
    + intros _. split; [by rewrite up8_id|]. destruct es as [|e' es']; [simpl in Hc; subst; by apply up8_mono|]. by apply H3.
Qed.

Lemma chain_frame m m' fin lo es : forall off off', chain m fin off es off' -> lo <= off -> off mod 8 = 0 ->
  (forall o n, lo <= o -> o + n <= fin -> rd m' o n = rd m o n) -> chain m' fin off es off'.
Proof.
  induction es as [|e es IH]; intros off off' Hc Hlo H8 Hf; simpl in *; [done|]. destruct Hc as ((H1 & H2 & H3 & H4 & H5) & Hfin & Hc).
  pose proof (lenZ_nonneg (data e)). pose proof (up8_spec (efin off e)) as [Hu1 Hu2]. unfold efin in *. unfold word in *.
  split; [|split; [done|apply IH; try done; lia]]. unfold entry_at, word. rewrite !Hf by lia. done.
Qed.

Lemma chain_shift m m' fin d es : forall off off', chain m fin off es off' -> d mod 8 = 0 ->
  (forall o n, off <= o -> 0 <= n -> o + n <= fin -> rd m' (o + d) n = rd m o n) -> chain m' (fin + d) (off + d) es (off' + d).
Proof.
  induction es as [|e es IH]; intros off off' Hc Hd Hf; simpl in *; [by subst|]. destruct Hc as ((H1 & H2 & H3 & H4 & H5) & Hfin & Hc).
  pose proof (lenZ_nonneg (data e)). pose proof (up8_spec (efin off e)) as [Hu1 Hu2]. unfold efin in *. split; [|split; [lia|]].
  - unfold entry_at, word in *. replace (off + d + 3) with (off + 3 + d) by lia. replace (off + d + 4) with (off + 4 + d) by lia.
    replace (off + d + hdr e) with (off + hdr e + d) by lia. rewrite !Hf by lia. done.
  - replace (off + d + hdr e + lenZ (data e)) with (off + hdr e + lenZ (data e) + d) by lia. rewrite up8_add by done.
    apply IH; [done|done|]. intros o n Ho Hn0 Hn. apply Hf; lia.
Qed.

(** Nothing depends on the end but as a bound. *)
Lemma chain_fin m fin fin' es : forall off off', chain m fin off es off' -> fin <= fin' -> chain m fin' off es off'.
Proof. induction es as [|e es IH]; intros off off' Hc Hf; simpl in *; [done|]. destruct Hc as (H1 & H2 & H3). split; [done|]. split; [lia|]. by apply IH. Qed.

Lemma chain_det m m' fin fin' es : forall off o1 o2, chain m fin off es o1 -> chain m' fin' off es o2 -> o1 = o2.
Proof. induction es as [|e es IH]; intros off o1 o2; simpl; [congruence|]. intros (_ & _ & H1) (_ & _ & H2). eauto. Qed.

(** Entries before [off'] do not reach past it. *)
Lemma chain_pre m m' fin es : forall off off', chain m fin off es off' -> off mod 8 = 0 ->
  (forall o n, off <= o -> o + n <= off' -> rd m' o n = rd m o n) -> chain m' fin off es off'.
Proof.
  induction es as [|e es IH]; intros off off' Hc H8 Hf; [done|]. destruct Hc as ((H1 & H2 & H3 & H4 & H5) & Hfin & Hc).
  pose proof (lenZ_nonneg (data e)). pose proof (up8_spec (efin off e)) as [Hu1 Hu2]. destruct (chain_le _ _ _ _ _ Hc Hu2) as (Hle & _). pose proof (lenZ_nonneg es).
  cbn [chain]. unfold efin in *. unfold word in *. split; [|split; [done|apply IH; [done|done|]; intros o n Ho Hn; apply Hf; lia]]. unfold entry_at, word. rewrite !Hf by lia. done.
Qed.

Lemma chain_below m fin fin' es : forall off off', chain m fin off es off' -> off mod 8 = 0 -> off' <= fin' -> chain m fin' off es off'.
Proof.
  induction es as [|e es IH]; intros off off' Hc H8 Hf; [done|]. destruct Hc as (H1 & Hfin & Hc). pose proof (up8_spec (efin off e)) as [Hu1 Hu2].
  destruct (chain_le _ _ _ _ _ Hc Hu2) as (Hle & _). pose proof (lenZ_nonneg es). cbn [chain]. split; [done|]. split; [lia|]. by apply IH.
Qed.

(** ** Walking *)

Lemma roundup8 b x : b mod 8 = 0 -> 0 <= b + x -> b + x + 8 < 2 ^ 64 -> roundup_overflow (b + x) TRANSFER_LIST_GRANULE = Some (b + up8 x).
Proof.
  intros Hb H0 H1. unfold roundup_overflow, add_overflow, TRANSFER_LIST_GRANULE, up8.
  destruct ((b + x) mod 8 =? 0) eqn:E; bool_hyps; (rewrite (proj2 (Z.ltb_lt _ _)) by (Z.div_mod_to_equations; lia)); f_equal; Z.div_mod_to_equations; lia.
Qed.

Lemma add_ok a b : a + b < 2 ^ 64 -> add_overflow a b = Some (a + b).
Proof. intros H. unfold add_overflow. by rewrite (proj2 (Z.ltb_lt _ _)). Qed.

(** The entry at the place [off] where the entries [es] follow. *)
Definition ptr (b off : Z) (es : list entry) : Z := match es with [] => 0 | _ => b + off end.

Section Rep.
Context (s : tl_mem) (h : header) (es : list entry) (R : tl_lay s h es).

Lemma rep_word_range off n v : word (bytes s) off n = Some v -> is_u (8 * Z.of_nat n) v.
Proof. apply word_is_u, R. Qed.

Lemma rep_bounds : 0 < base s /\ base s mod 8 = 0 /\ 24 <= h_size h <= h_max h /\ h_max h <= lenZ (bytes s) /\ base s + lenZ (bytes s) + 16 < 2 ^ 64.
Proof. destruct R as [[? [? ?]] _ _ _ _ _ [? ?] [? ?] _ _]. done. Qed.

(** A field of the header is read. *)
Lemma rep_load n a v (Q : Z -> tl_mem -> Prop) E : word (bytes s) (a - base s) n = Some v -> Q v s -> runs (load n a) Q E s.
Proof. destruct s as [b m]. apply runs_word. Qed.

Lemma rep_tl_size (Q : Z -> tl_mem -> Prop) E : Q (h_size h) s -> runs (tl_size (base s)) Q E s.
Proof. intros HQ. apply (rep_load _ _ (h_size h)); [|done]. replace (base s + 8 - base s) with 8 by lia. apply R. Qed.

Lemma rep_tl_max (Q : Z -> tl_mem -> Prop) E : Q (h_max h) s -> runs (tl_max_size (base s)) Q E s.
Proof. intros HQ. apply (rep_load _ _ (h_max h)); [|done]. replace (base s + 12 - base s) with 12 by lia. apply R. Qed.

Lemma u64_end x : 0 <= x <= lenZ (bytes s) + 8 -> u64 (base s + x) = base s + x.
Proof. intros Hx. pose proof rep_bounds as (? & ? & ? & ? & ?). apply uwrap_small. unfold is_u. lia. Qed.

(** What [transfer_list_next()] makes of the place where the entries [r] follow. *)
Lemma valid_entry_runs off r (Q : Z -> tl_mem -> Prop) E : chain (bytes s) (h_size h) off r (up8 (h_size h)) -> 24 <= off -> off mod 8 = 0 ->
  Q (ptr (base s) off r) s -> runs (valid_entry (base s + h_size h) (base s + off)) Q E s.
Proof.
  intros Hc Ho H8 HQ. pose proof rep_bounds as (B1 & B2 & B3 & B4 & B5). unfold valid_entry. destruct (up8_spec (h_size h)) as [Hu _].
  destruct (chain_le _ _ _ _ _ Hc H8) as (Hle & _). pose proof (lenZ_nonneg r).
  rewrite <- Z.add_assoc. change sizeof_entry with 8. destruct r as [|e r].
  - simpl in Hc. subst off. rewrite uwrap_small by (unfold is_u; lia). rewrite (proj2 (Z.ltb_lt _ _)) by lia. by apply runs_ret.
  - destruct Hc as ((H1 & H2 & H3 & H4 & H5) & Hf & Hc). pose proof (lenZ_nonneg (data e)). unfold efin in Hf. rewrite uwrap_small by (unfold is_u; lia).
    rewrite (proj2 (Z.ltb_ge _ _)) by lia. unfold te_hdr_size, te_data_size. apply runs_bind, (rep_load _ _ (hdr e)); [by replace (base s + off + 3 - base s) with (off + 3) by lia|].
    rewrite (proj2 (Z.ltb_ge _ _)) by lia. apply runs_bind, (rep_load _ _ (lenZ (data e))); [by replace (base s + off + 4 - base s) with (off + 4) by lia|].
    rewrite add_ok by lia. cbn [mbind option_bind]. rewrite add_ok by lia. rewrite (proj2 (Z.ltb_ge _ _)) by lia. by apply runs_ret.
Qed.

(** The first entry. *)
Lemma next_first_runs (Q : Z -> tl_mem -> Prop) E : Q (ptr (base s) 24 es) s -> runs (transfer_list_next (base s) 0) Q E s.
Proof.
  intros HQ. pose proof rep_bounds as (B1 & B2 & B3 & B4 & B5). unfold transfer_list_next. rewrite (proj2 (Z.eqb_neq (base s) 0)) by lia.
  apply runs_bind, rep_tl_size. cbv zeta. rewrite u64_end by lia. apply runs_bind. change (negb (0 =? 0)) with false. cbv iota.
  apply runs_bind, (rep_load _ _ 24); [replace (base s + 6 - base s) with 6 by lia; apply R|]. apply runs_ret. rewrite u64_end by lia.
  apply (valid_entry_runs 24 es); [apply R|lia|done|done].
Qed.

(** The entry after [e]. *)
Lemma next_runs off e r (Q : Z -> tl_mem -> Prop) E : chain (bytes s) (h_size h) off (e :: r) (up8 (h_size h)) -> 24 <= off -> off mod 8 = 0 ->
  Q (ptr (base s) (up8 (efin off e)) r) s -> runs (transfer_list_next (base s) (base s + off)) Q E s.
Proof.
  intros ((H1 & H2 & H3 & H4 & H5) & Hf & Hc) Ho H8 HQ. pose proof rep_bounds as (B1 & B2 & B3 & B4 & B5). pose proof (lenZ_nonneg (data e)).
  destruct (up8_spec (efin off e)) as [Hu Hu8]. unfold transfer_list_next. rewrite (proj2 (Z.eqb_neq (base s) 0)) by lia.
  apply runs_bind, rep_tl_size. cbv zeta. rewrite u64_end by lia. apply runs_bind. rewrite (proj2 (Z.eqb_neq (base s + off) 0)) by lia. cbn [negb].
  unfold te_hdr_size, te_data_size. apply runs_bind, (rep_load _ _ (hdr e)); [by replace (base s + off + 3 - base s) with (off + 3) by lia|].
  apply runs_bind, (rep_load _ _ (lenZ (data e))); [by replace (base s + off + 4 - base s) with (off + 4) by lia|]. apply runs_ret. unfold efin in *.
  rewrite add_ok by lia. cbn [mbind option_bind]. rewrite add_ok by lia. cbn [mbind option_bind].
  replace (base s + off + (hdr e + lenZ (data e))) with (base s + (off + hdr e + lenZ (data e))) by lia. rewrite roundup8 by lia.
  apply (valid_entry_runs _ r); [done|lia|done|done].
Qed.

(** Where the first entry with a tag is. *)
Fixpoint find_off (off : Z) (l : list entry) (t : Z) : option Z :=
  match l with
  | [] => None
  | e :: r => if tag e =? t then Some off else find_off (up8 (efin off e)) r t
  end.

Definition at_off (b : Z) (o : option Z) : Z := match o with Some off => b + off | None => 0 end.

Lemma find_loop_runs t (Q : Z -> tl_mem -> Prop) E fuel : forall cur off r, chain (bytes s) (h_size h) off r (up8 (h_size h)) -> 24 <= off -> off mod 8 = 0 ->
  (length r < fuel)%nat -> (forall (P : Z -> tl_mem -> Prop), P (ptr (base s) off r) s -> runs (transfer_list_next (base s) cur) P E s) ->
  Q (at_off (base s) (find_off off r t)) s -> runs (find_loop fuel (base s) cur t) Q E s.
Proof.
  pose proof rep_bounds as (B1 & _). induction fuel as [|k IH]; intros cur off r Hc Ho H8 Hl Hnext HQ; [lia|]. cbn [find_loop]. apply runs_bind, Hnext.
  destruct r as [|e r]; cbn [ptr]; [by apply runs_ret|]. rewrite (proj2 (Z.eqb_neq (base s + off) 0)) by lia.
  pose proof Hc as ((H1 & H2 & H3 & H4 & H5) & Hf & Hc'). unfold te_tag_id. apply runs_bind, (rep_load _ _ (tag e)); [by replace (base s + off - base s) with off by lia|].
  cbn [find_off] in HQ. destruct (tag e =? t); [by apply runs_ret|]. destruct (up8_spec (efin off e)) as [Hu Hu8]. pose proof (lenZ_nonneg (data e)). unfold efin in *.
  apply (IH _ (up8 (off + hdr e + lenZ (data e))) r); [done|lia|done|simpl in Hl; lia| |done].
  intros P HP. by apply (next_runs off e r).
Qed.

Lemma find_runs t (Q : Z -> tl_mem -> Prop) E : Q (at_off (base s) (find_off 24 es t)) s -> runs (transfer_list_find (base s) t) Q E s.
Proof.
  intros HQ. pose proof rep_bounds as (B1 & B2 & B3 & B4 & B5). unfold transfer_list_find. apply runs_bind, runs_get.
  destruct (chain_le _ _ _ _ _ (r_chain _ _ _ R) ltac:(done)) as (Hle & _). destruct (up8_spec (h_size h)) as [Hu _]. unfold lenZ in *.
  apply (find_loop_runs t Q E _ 0 24 es); [apply R|lia|done|lia|intros P HP; by apply next_first_runs|done].
Qed.
End Rep.

(** ** Changes *)

(** The list with other entries and another size, in memory whose header is otherwise the same. *)
Lemma lay_resize s h es m' size' es' : tl_lay s h es -> lenZ m' = lenZ (bytes s) -> bytes_ok m' ->
  (forall off n, off + n <= 8 \/ 12 <= off /\ off + n <= 24 -> rd m' off n = rd (bytes s) off n) ->
  word m' 8 4 = Some size' -> 24 <= size' <= h_max h -> chain m' size' 24 es' (up8 size') ->
  tl_lay (mk_mem (base s) m') (mk_hdr (h_order h) size' (h_max h) (h_flags h)) es'.
Proof.
  intros [B Y S V D O Z X F C] Hl Hok Hrd Hw Hs Hc. unfold word in S, V, D, O, X, F.
  split; cbn [base bytes h_order h_size h_max h_flags]; unfold word; rewrite ?Hl, ?Hrd by lia; try done.
Qed.

Lemma seal_runs b m h es (Q : unit -> tl_mem -> Prop) E : tl_lay (mk_mem b m) h es ->
  (forall m', tl_rep (mk_mem b m') h es -> agree_out 4 5 m m' -> Q tt (mk_mem b m')) -> runs (transfer_list_update_checksum b) Q E (mk_mem b m).
Proof.
  intros L HQ. pose proof (rep_bounds _ _ _ L) as (B1 & B2 & B3 & B4 & B5). cbn [base bytes] in *. apply (update_checksum_runs b m (h_size h) (h_flags h)); try apply L; try lia.
  intros m' Ha Hok Hs. apply HQ; [|done]. split; [|done]. pose proof Ha as [Hl Hrd]. destruct L as [B Y S V D O Z X F C]. cbn [base bytes] in *. unfold word in S, V, D, O, Z, X, F.
  split; cbn [base bytes]; unfold word; rewrite ?Hl, ?Hrd by lia; try done. eapply (chain_frame m _ _ 24); [done|lia|done|]. intros o n Ho Hn. apply Hrd. lia.
Qed.

Lemma store_entry_runs b m off t d (Q : unit -> tl_mem -> Prop) E : 0 <= off -> off + 8 <= lenZ m -> bytes_ok m -> is_u 16 t -> is_u 32 d ->
  (forall m', agree_out off (off + 8) m m' -> bytes_ok m' -> word m' off 2 = Some t -> word m' (off + 3) 1 = Some 8 -> word m' (off + 4) 4 = Some d -> Q tt (mk_mem b m')) ->
  runs (store_entry (b + off) t d) Q E (mk_mem b m).
Proof.
  intros H0 Hl Hok Ht Hd HQ. unfold store_entry.
  apply runs_bind, runs_store; [lia|lia|]. replace (b + off - b) with off by lia. intros m1 W1.
  pose proof (agree_wr _ _ _ _ W1) as A1. unfold lenZ in A1 at 1. rewrite length_le_bytes in A1. pose proof A1 as [L1 _].
  apply runs_bind, runs_store; [lia|lia|]. replace (b + off + 2 - b) with (off + 2) by lia. intros m2 W2.
  pose proof (agree_wr _ _ _ _ W2) as A2. unfold lenZ in A2 at 1. rewrite length_le_bytes in A2. pose proof A2 as [L2 _].
  apply runs_bind, runs_store; [lia|lia|]. replace (b + off + 3 - b) with (off + 3) by lia. intros m3 W3.
  pose proof (agree_wr _ _ _ _ W3) as A3. unfold lenZ in A3 at 1. rewrite length_le_bytes in A3. pose proof A3 as [L3 _].
  apply runs_store; [lia|lia|]. replace (b + off + 4 - b) with (off + 4) by lia. intros m4 W4.
  pose proof (agree_wr _ _ _ _ W4) as A4. unfold lenZ in A4 at 1. rewrite length_le_bytes in A4. pose proof A4 as [L4 _].
  pose proof (word_wr _ _ _ _ _ W1 Ht) as V1. pose proof (word_wr _ _ _ _ _ W3 ltac:(by unfold is_u)) as V3. pose proof (word_wr _ _ _ _ _ W4 Hd) as V4.
  apply HQ.
  - split; [lia|]. intros o n Ho. destruct A1 as [_ A1], A2 as [_ A2], A3 as [_ A3], A4 as [_ A4]. rewrite A4, A3, A2, A1 by lia. done.
  - eapply wr_bytes_ok; [exact W4| |apply le_bytes_ok]. eapply wr_bytes_ok; [exact W3| |apply le_bytes_ok].
    eapply wr_bytes_ok; [exact W2| |apply le_bytes_ok]. eapply wr_bytes_ok; [exact W1|done|apply le_bytes_ok].
  - rewrite (agree_word _ _ _ _ _ _ A4), (agree_word _ _ _ _ _ _ A3), (agree_word _ _ _ _ _ _ A2) by lia. done.
  - rewrite (agree_word _ _ _ _ _ _ A4) by lia. done.
  - done.
Qed.

Lemma rd_ok m off n d : bytes_ok m -> rd m off n = Some d -> bytes_ok d.
Proof. intros Hm Hd. apply rd_Some in Hd as (_ & _ & _ & _ & ->). by apply Forall_take, Forall_drop. Qed.

(** Reading is possible where memory is. *)
Lemma rd_some {A} (m : list A) off n : 0 <= off -> 0 <= n -> off + n <= lenZ m -> exists d, rd m off n = Some d /\ lenZ d = n.
Proof. intros H0 Hn Hl. rewrite rd_in by done. eexists. split; [done|]. unfold lenZ in *. rewrite length_take, length_drop. lia. Qed.

Definition sized (h : header) (size : Z) : header := mk_hdr (h_order h) size (h_max h) (h_flags h).

(** Appending an entry: [n] bytes of data, the caller's if [dat] has them. *)
Lemma add_runs s h es t n dat : tl_rep s h es -> is_u 16 t -> is_u 32 n -> (forall d, dat = Some d -> lenZ d = n /\ bytes_ok d) ->
  runs (transfer_list_add (base s) t n dat)
    (fun r s' => if up8 (h_size h) + 8 + n <=? h_max h
      then r = base s + up8 (h_size h) /\ base s' = base s /\
        exists d, lenZ d = n /\ (forall d', dat = Some d' -> d = d') /\ tl_rep s' (sized h (up8 (h_size h) + 8 + n)) (es ++ [mk_entry t 8 d])
      else r = 0 /\ s' = s) (fun _ _ => False) s.
Proof.
  intros [L _] Ht Hn Hdat. pose proof (rep_bounds _ _ _ L) as (B1 & B2 & B3 & B4 & B5). destruct (up8_spec (h_size h)) as [Hu Hu8]. unfold transfer_list_add.
  pose proof (rep_word_range _ _ _ L _ _ _ (proj1 (r_max _ _ _ L))) as Hmax. unfold is_u in Hn, Hmax. change (8 * Z.of_nat 4) with 32 in Hmax.
  rewrite (proj2 (Z.eqb_neq (base s) 0)) by lia. apply runs_bind, (rep_tl_max _ _ _ L). apply runs_bind, (rep_tl_size _ _ _ L). cbv zeta. rewrite !(u64_end _ _ _ L) by lia.
  rewrite roundup8 by lia. set (off := up8 (h_size h)) in *. rewrite add_ok by (unfold sizeof_entry; lia). cbn [mbind option_bind]. change sizeof_entry with 8.
  destruct (decide (base s + off + (8 + n) < 2 ^ 64)) as [Hov|Hov].
  2:{ unfold add_overflow. rewrite (proj2 (Z.ltb_ge _ _)) by lia. rewrite (proj2 (Z.leb_gt _ _)) by lia. by apply runs_ret. }
  rewrite add_ok by done. destruct (off + 8 + n <=? h_max h) eqn:Efit; bool_hyps.
  2:{ rewrite (proj2 (Z.ltb_lt _ _)) by lia. by apply runs_ret. }
  rewrite (proj2 (Z.ltb_ge _ _)) by lia. destruct s as [b m]. cbn [base bytes] in *.
  apply runs_bind, store_entry_runs; [lia|lia|apply L|done|done|]. intros m1 A1 K1 T1 H1 D1. pose proof A1 as [L1 R1].
  pose proof (proj1 (r_size _ _ _ L)) as Wsz. cbn [bytes] in Wsz.
  apply runs_bind. unfold tl_size. apply (runs_word _ _ _ _ (h_size h)); [replace (b + 8 - b) with 8 by lia; rewrite (agree_word _ _ _ _ _ _ A1); [done|lia]|].
  replace (h_size h + (b + off + (8 + n) - (b + h_size h))) with (off + 8 + n) by lia. set (size' := off + 8 + n) in *.
  apply runs_bind, runs_store; [lia|lia|]. replace (b + 8 - b) with 8 by lia. intros m2 W2.
  pose proof (agree_wr _ _ _ _ W2) as A2. unfold lenZ in A2 at 1. rewrite length_le_bytes in A2. pose proof A2 as [L2 R2]. change (8 + Z.of_nat 4) with 12 in *.
  pose proof (wr_bytes_ok _ _ _ _ W2 K1 (le_bytes_ok _ _)) as K2. pose proof (word_wr _ _ _ _ _ W2 ltac:(unfold is_u; change (8 * Z.of_nat 4) with 32; lia)) as S2.
  assert (forall m3 d, agree_out (off + 8) size' m2 m3 -> bytes_ok m3 -> rd m3 (off + 8) n = Some d -> lenZ d = n -> (forall d', dat = Some d' -> d = d') ->
    runs (do! transfer_list_update_checksum b in ret (b + off)) (fun r s' => r = b + off /\ base s' = b /\
        exists d, lenZ d = n /\ (forall d', dat = Some d' -> d = d') /\ tl_rep s' (sized h size') (es ++ [mk_entry t 8 d])) (fun _ _ => False) (mk_mem b m3)) as Hend.
  { intros m3 d A3 K3 Hd Hlen Hdd. pose proof A3 as [L3 R3]. apply runs_bind, (seal_runs b m3 (sized h size') (es ++ [mk_entry t 8 d])).
    - apply (lay_resize (mk_mem b m) h es); cbn [base bytes]; [done|lia|done| | |lia|].
      + intros o k Ho. rewrite R3, R2, R1 by lia. done.
      + rewrite (agree_word _ _ _ _ _ _ A3) by lia. done.
      + apply chain_app. exists off. split.
        * eapply chain_fin; [eapply (chain_frame m _ (h_size h) 24); [apply L|lia|done|]|lia]. intros o k Ho Hk. rewrite R3, R2, R1 by lia. done.
        * assert (efin off (mk_entry t 8 d) = size') as Ef by (unfold efin; cbn [hdr data]; lia). cbn [chain]. rewrite Ef. split; [|done].
          split; [cbn [tag]; rewrite (agree_word _ _ _ _ _ _ A3), (agree_word _ _ _ _ _ _ A2) by lia; done|].
          split; [cbn [hdr]; rewrite (agree_word _ _ _ _ _ _ A3), (agree_word _ _ _ _ _ _ A2) by lia; done|].
          cbn [data hdr]. rewrite Hlen. split; [rewrite (agree_word _ _ _ _ _ _ A3), (agree_word _ _ _ _ _ _ A2) by lia; done|]. done.
    - intros m' Hr _. apply runs_ret. split; [done|]. split; [done|]. by exists d. }
  destruct dat as [d|].
  - destruct (Hdat d eq_refl) as [Hd Kd]. apply runs_bind, runs_bind. unfold transfer_list_entry_data. rewrite (proj2 (Z.eqb_neq (b + off) 0)) by lia. unfold te_hdr_size.
    apply runs_bind, (runs_word _ _ _ _ 8); [replace (b + off + 3 - b) with (off + 3) by lia; rewrite (agree_word _ _ _ _ _ _ A2) by lia; done|].
    apply runs_ret. rewrite uwrap_small by (unfold is_u; lia). rewrite take_ge by (unfold lenZ in Hd; lia).
    apply runs_put_bytes; [lia|lia|]. replace (b + off + 8 - b) with (off + 8) by lia. intros m3 W3. pose proof (agree_wr _ _ _ _ W3) as A3.
    replace (off + 8 + lenZ d) with size' in A3 by lia. apply (Hend m3 d); [done|by eapply wr_bytes_ok| |done|by intros d' [= <-]].
    rewrite <- Hd. by eapply rd_wr_same.
  - apply runs_bind, runs_ret. destruct (rd_some m2 (off + 8) n) as (d & Hd & Hlen); [lia|lia|lia|]. apply (Hend m2 d); [apply agree_refl|done|done|done|done].
Qed.

(** Voiding an entry. *)
Lemma rem_runs s h pre e post off : tl_rep s h (pre ++ e :: post) -> chain (bytes s) (h_size h) 24 pre off ->
  runs (transfer_list_rem (base s) (base s + off))
    (fun r s' => r = true /\ base s' = base s /\ tl_rep s' h (pre ++ mk_entry TL_TAG_EMPTY (hdr e) (data e) :: post)) (fun _ _ => False) s.
Proof.
  intros [L _] Hpre. pose proof (rep_bounds _ _ _ L) as (B1 & B2 & B3 & B4 & B5). pose proof (r_chain _ _ _ L) as Hc.
  destruct (chain_le _ _ _ _ _ Hpre ltac:(done)) as (Hle & H8 & _). pose proof (lenZ_nonneg pre).
  apply chain_app in Hc as (mid & Hpre' & Hc). assert (mid = off) as -> by (by eapply chain_det). destruct Hc as ((E1 & E2 & E3 & E4 & E5) & Hf & Hpost).
  pose proof (lenZ_nonneg (data e)). unfold efin in Hf. unfold transfer_list_rem. rewrite (proj2 (Z.eqb_neq (base s) 0)), (proj2 (Z.eqb_neq (base s + off) 0)) by lia. cbn [orb].
  apply runs_bind, (rep_tl_size _ _ _ L). rewrite (u64_end _ _ _ L) by lia. rewrite (proj2 (Z.ltb_ge _ _)) by lia. destruct s as [b m]. cbn [base bytes] in *.
  apply runs_bind, runs_store; [lia|lia|]. replace (b + off - b) with off by lia. intros m1 W1.
  pose proof (agree_wr _ _ _ _ W1) as A1. unfold lenZ in A1 at 1. rewrite length_le_bytes in A1. pose proof A1 as [L1 R1].
  apply runs_bind, runs_store; [lia|lia|]. replace (b + off + 2 - b) with (off + 2) by lia. intros m2 W2.
  pose proof (agree_wr _ _ _ _ W2) as A2. unfold lenZ in A2 at 1. rewrite length_le_bytes in A2. pose proof A2 as [L2 R2].
  pose proof (wr_bytes_ok _ _ _ _ W1 (r_bytes _ _ _ L) (le_bytes_ok _ _)) as K1. pose proof (wr_bytes_ok _ _ _ _ W2 K1 (le_bytes_ok _ _)) as K2.
  assert (forall o n, o + n <= off \/ off + 3 <= o -> rd m2 o n = rd m o n) as R12 by (intros o n Ho; rewrite R2, R1 by lia; done).
  destruct (up8_spec (off + hdr e + lenZ (data e))) as [Hu Hu8]. pose proof (word_wr _ _ _ _ _ W1 ltac:(by unfold is_u)) as V1.
  apply runs_bind, (seal_runs b m2 h (pre ++ mk_entry TL_TAG_EMPTY (hdr e) (data e) :: post)).
  - destruct h as [o z x f]. apply (lay_resize (mk_mem b m) _ _ m2 z _ L); cbn [base bytes]; [lia|done| | |done|].
    + intros p n Ho. apply R12. lia.
    + unfold word. rewrite R12 by lia. apply L.
    + apply chain_app. exists off. split; [eapply chain_pre; [done|done|]; intros p n Ho Hn; apply R12; lia|]. cbn [chain]. unfold efin. cbn [hdr data]. split; [|split; [done|]].
      * unfold entry_at. cbn [tag hdr data]. unfold word in *. split; [rewrite R2 by lia; done|]. rewrite !R12 by lia. done.
      * eapply (chain_frame m _ _ (off + 8)); [done|lia|done|]. intros p n Ho Hn. apply R12. lia.
  - intros m' Hr _. by apply runs_ret.
Qed.

(** Resizing an entry. *)

Definition roundup_to (a x : Z) : Z := (x + (a - 1)) / a * a.

Lemma rounddown2_spec k v : 0 <= k -> rounddown2 v (2 ^ k) = v / 2 ^ k * 2 ^ k.
Proof.
  intros Hk. unfold rounddown2. rewrite <- Z.ldiff_land. replace (2 ^ k - 1) with (Z.ones k) by (rewrite Z.ones_equiv; lia).
  rewrite Z.ldiff_ones_r by done. by rewrite Z.shiftl_mul_pow2, Z.shiftr_div_pow2.
Qed.

Lemma entry_end_spec b off h d : b mod 8 = 0 -> h + d < 2 ^ 64 -> 0 <= b + off -> 0 <= h -> 0 <= d ->
  entry_end (b + off) h d = if b + up8 (off + h + d) <? 2 ^ 64 then Some (b + up8 (off + h + d)) else None.
Proof.
  intros Hb Hd H0 Hh Hd0. unfold entry_end. rewrite add_ok by done. cbn [mbind option_bind]. destruct (up8_spec (off + h + d)) as [Hu _].
  replace (b + off + (h + d)) with (b + (off + h + d)) by lia. set (x := off + h + d) in *. unfold add_overflow at 1.
  replace (b + off + (h + d)) with (b + x) by lia. destruct (b + x <? 2 ^ 64) eqn:E; bool_hyps; cbn [mbind option_bind].
  2:{ by rewrite (proj2 (Z.ltb_ge _ _)) by lia. }
  unfold roundup_overflow, TRANSFER_LIST_GRANULE, add_overflow.
  assert (b + x + (if (b + x) mod 8 =? 0 then 0 else 8 - (b + x) mod 8) = b + up8 x) as ->; [|done].
  unfold up8. destruct ((b + x) mod 8 =? 0) eqn:E8; bool_hyps; Z.div_mod_to_equations; lia.
Qed.

(** How far the entries that follow move. *)
Definition distance (h : header) (off : Z) (e : entry) (n : Z) : Z :=
  let oe := up8 (efin off e) in let ne := up8 (off + hdr e + n) in let a := 2 ^ h_order h in
  if oe <? ne then roundup_to a (ne - oe) else - ((oe - ne) / a * a).

Lemma pow2_8 k : 3 <= k -> exists c, 2 ^ k = 8 * c /\ 0 < c.
Proof. intros Hk. exists (2 ^ (k - 3)). replace k with (3 + (k - 3)) at 1 by lia. rewrite Z.pow_add_r by lia. change (2 ^ 3) with 8. split; [done|]. apply pow2_pos. lia. Qed.

Lemma distance_spec h off e n : 3 <= h_order h -> let oe := up8 (efin off e) in let ne := up8 (off + hdr e + n) in let d := distance h off e n in
  d mod 8 = 0 /\ ne <= oe + d /\ (oe < ne -> 0 <= d < ne - oe + 2 ^ h_order h) /\ (ne <= oe -> d <= 0 /\ ne - oe <= d) /\ (h_order h = 3 -> d = ne - oe).
Proof.
  intros Ho oe ne d. destruct (pow2_8 _ Ho) as (c & Ec & Hc). destruct (up8_spec (efin off e)) as [_ U1]. destruct (up8_spec (off + hdr e + n)) as [_ U2]. fold oe in U1. fold ne in U2.
  unfold d, distance. fold oe ne. assert (forall q, (q * 2 ^ h_order h) mod 8 = 0) as Hm by (intros q; rewrite Ec; replace (q * (8 * c)) with (q * c * 8) by lia; apply Z.mod_mul; lia).
  assert (forall q, (- (q * 2 ^ h_order h)) mod 8 = 0) as Hm' by (intros q; replace (- (q * 2 ^ h_order h)) with ((- q) * 2 ^ h_order h) by lia; apply Hm).
  destruct (oe <? ne) eqn:E; bool_hyps.
  - unfold roundup_to. split; [apply Hm|]. assert (0 < 2 ^ h_order h) by lia. pose proof (Z.div_mod (ne - oe + (2 ^ h_order h - 1)) (2 ^ h_order h) ltac:(lia)) as Hdm.
    pose proof (Z.mod_pos_bound (ne - oe + (2 ^ h_order h - 1)) (2 ^ h_order h) ltac:(lia)). split; [lia|]. split; [lia|]. split; [lia|].
    intros E3. rewrite E3 in *. change (2 ^ 3) with 8 in *. Z.div_mod_to_equations. lia.
  - split; [apply Hm'|]. assert (0 < 2 ^ h_order h) by lia. pose proof (Z.div_mod (oe - ne) (2 ^ h_order h) ltac:(lia)) as Hdm.
    pose proof (Z.mod_pos_bound (oe - ne) (2 ^ h_order h) ltac:(lia)). pose proof (Z.div_pos (oe - ne) (2 ^ h_order h) ltac:(lia) ltac:(lia)).
    split; [lia|]. split; [lia|]. split; [nia|]. intros E3. rewrite E3 in *. change (2 ^ 3) with 8 in *. Z.div_mod_to_equations. lia.
Qed.

(** Moving what follows an entry, and filling the gap. *)
Lemma shift_runs b m oe ne r size (Q : unit -> tl_mem -> Prop) E : 0 <= oe -> 0 <= ne <= r -> r - ne < 2 ^ 32 -> bytes_ok m ->
  (oe < size -> r + (size - oe) <= lenZ m /\ size <= lenZ m) ->
  (forall m', lenZ m' = lenZ m -> bytes_ok m' -> (forall o n, o + n <= ne -> rd m' o n = rd m o n) ->
     (oe < size -> (forall k n, 0 <= k -> 0 <= n -> k + n <= size - oe -> rd m' (r + k) n = rd m (oe + k) n) /\
       (8 <= r - ne -> word m' ne 2 = Some TL_TAG_EMPTY /\ word m' (ne + 3) 1 = Some 8 /\ word m' (ne + 4) 4 = Some (r - ne - 8))) ->
     Q tt (mk_mem b m')) ->
  runs (if b + oe <? b + size then
      do! memmove (b + r) (b + oe) (b + size - (b + oe)) in
      let gap := u64 (b + r - (b + ne)) in
      if sizeof_entry <=? gap then store_entry (b + ne) TL_TAG_EMPTY (gap - sizeof_entry) else ret tt
    else ret tt) Q E (mk_mem b m).
Proof.
  intros H0 Hne Hgap Hok Hl HQ. destruct (b + oe <? b + size) eqn:E1; bool_hyps; [|apply runs_ret; apply HQ; try done; lia].
  assert (oe < size) as Hlt by lia. destruct (Hl Hlt) as [Hl1 Hl2]. apply runs_bind. unfold memmove. apply runs_bind, runs_get. cbn [base bytes].
  replace (b + oe - b) with oe by lia. replace (b + size - (b + oe)) with (size - oe) by lia. destruct (rd_some m oe (size - oe)) as (d & Hd & Hld); [lia..|].
  rewrite Hd. apply runs_bind, runs_ret. apply runs_put_bytes; [lia|lia|]. replace (b + r - b) with r by lia. intros m1 W1.
  pose proof (agree_wr _ _ _ _ W1) as A1. rewrite Hld in A1. pose proof A1 as [L1 R1]. pose proof (wr_bytes_ok _ _ _ _ W1 Hok (rd_ok _ _ _ _ Hok Hd)) as K1.
  assert (forall k n, 0 <= k -> 0 <= n -> k + n <= size - oe -> rd m1 (r + k) n = rd m (oe + k) n) as Hm.
  { intros k n Hk Hn Hkn. rewrite (rd_wr_inside _ _ _ _ k n W1) by lia. by apply (rd_rd _ _ _ _ _ _ Hd). }
  cbv zeta. replace (b + r - (b + ne)) with (r - ne) by lia. rewrite uwrap_small by (unfold is_u; lia). change sizeof_entry with 8.
  destruct (8 <=? r - ne) eqn:E2; bool_hyps.
  - apply store_entry_runs; [lia|lia|done|by unfold is_u|unfold is_u; lia|]. intros m2 A2 K2 T2 H2 D2. pose proof A2 as [L2 R2].
    apply HQ; [lia|done|intros o n Ho; by rewrite R2, R1 by lia|]. intros _. split; [|done]. intros k n Hk Hn Hkn. rewrite R2 by lia. by apply Hm.
  - apply runs_ret. apply HQ; [lia|done|intros o n Ho; by rewrite R1 by lia|]. intros _. split; [done|lia].
Qed.

(** The list once an entry has its new size. *)
Lemma resized_lay s h pre e post off nd m' d : tl_lay s h (pre ++ e :: post) -> chain (bytes s) (h_size h) 24 pre off -> is_u 32 nd ->
  (post <> [] \/ h_order h = 3 /\ h_size h mod 8 = 0) ->
  let oe := up8 (efin off e) in let ne := up8 (off + hdr e + nd) in let dis := distance h off e nd in
  h_size h + dis <= h_max h -> lenZ m' = lenZ (bytes s) -> bytes_ok m' ->
  (forall o n, o + n <= 8 \/ 12 <= o /\ o + n <= off + 4 \/ off + 8 <= o /\ o + n <= ne -> rd m' o n = rd (bytes s) o n) ->
  word m' 8 4 = Some (h_size h + dis) -> word m' (off + 4) 4 = Some nd -> rd m' (off + hdr e) nd = Some d ->
  (oe < h_size h -> (forall k n, 0 <= k -> 0 <= n -> k + n <= h_size h - oe -> rd m' (oe + dis + k) n = rd (bytes s) (oe + k) n) /\
     (8 <= oe + dis - ne -> word m' ne 2 = Some TL_TAG_EMPTY /\ word m' (ne + 3) 1 = Some 8 /\ word m' (ne + 4) 4 = Some (oe + dis - ne - 8))) ->
  exists fill, tl_lay (mk_mem (base s) m') (sized h (h_size h + dis)) (pre ++ mk_entry (tag e) (hdr e) d :: fill ++ post) /\
    Forall (fun x => tag x = TL_TAG_EMPTY) fill.
Proof.
  intros L Hpre Hnd Hcase oe ne dis Hfit Hlen Hok Hrd Hsz Hdsz Hd Hsh. pose proof (rep_bounds _ _ _ L) as (B1 & B2 & B3 & B4 & B5).
  destruct (chain_le _ _ _ _ _ Hpre ltac:(done)) as (Hle & H8 & _). pose proof (lenZ_nonneg pre). pose proof (r_chain _ _ _ L) as Hc. apply chain_app in Hc as (mid & Hpre' & Hc).
  assert (mid = off) as -> by (by eapply chain_det). destruct Hc as ((E1 & E2 & E3 & E4 & E5) & Hf & Hpost). fold oe in Hpost.
  destruct (distance_spec h off e nd (proj1 (proj2 (r_order _ _ _ L)))) as (D8 & Dne & Dg & Ds & D3). fold oe ne dis in D8, Dne, Dg, Ds, D3.
  pose proof (lenZ_nonneg (data e)). destruct (up8_spec (efin off e)) as [U1 U1']. fold oe in U1, U1'. destruct (up8_spec (off + hdr e + nd)) as [U2 U2']. fold ne in U2, U2'.
  unfold is_u in Hnd. unfold efin in U1, Hf. pose proof (rd_Some _ _ _ _ Hd) as (_ & _ & _ & Hld & _).
  assert (entry_at m' off (mk_entry (tag e) (hdr e) d)) as Hent.
  { unfold entry_at, word in *. cbn [tag hdr data]. rewrite Hld. rewrite !Hrd by lia. done. }
  assert (efin off (mk_entry (tag e) (hdr e) d) = off + hdr e + nd) as Ef by (unfold efin; cbn [hdr data]; lia).
  assert (forall fill, chain m' (h_size h + dis) ne (fill ++ post) (up8 (h_size h + dis)) -> off + hdr e + nd <= h_size h + dis -> Forall (fun x => tag x = TL_TAG_EMPTY) fill ->
    exists fill, tl_lay (mk_mem (base s) m') (sized h (h_size h + dis)) (pre ++ mk_entry (tag e) (hdr e) d :: fill ++ post) /\ Forall (fun x => tag x = TL_TAG_EMPTY) fill) as Hend.
  { intros fill Hfill Hb Ht. exists fill. split; [|done]. apply (lay_resize s h _ m' _ _ L); [lia|done| |done|lia|].
    - intros o n Ho. apply Hrd. lia.
    - apply chain_app. exists off. split.
      + assert (chain m' (h_size h) 24 pre off) as Hp by (eapply chain_pre; [done|done|]; intros o n Ho Hn; apply Hrd; lia).
        clear - Hp Hb Hpre Hle E4 Hnd. eapply (chain_below m' (h_size h)); [done|done|]. lia.
      + cbn [chain]. rewrite Ef. split; [done|]. split; [lia|]. done. }
  destruct post as [|e' post'].
  - destruct Hcase as [|[Ho Hs8]]; [done|]. cbn [chain] in Hpost. assert (oe = h_size h) as Eoe by (rewrite <- Hpost; by apply up8_id).
    specialize (D3 Ho). apply (Hend []); [|lia|done]. cbn [app chain]. rewrite (up8_id (h_size h + dis)); [lia|]. replace (h_size h + dis) with ne by lia. done.
  - pose proof Hpost as ((_ & _ & _ & P4 & _) & Pf & _). pose proof (lenZ_nonneg (data e')). unfold efin in Pf. destruct (Hsh ltac:(lia)) as [Hmv Hgap].
    assert (chain m' (h_size h + dis) (oe + dis) (e' :: post') (up8 (h_size h + dis))) as Hnew.
    { rewrite up8_add by done. eapply chain_shift; [exact Hpost|done|]. intros o n Ho Hn0 Hn. replace (o + dis) with (oe + dis + (o - oe)) by lia.
      rewrite Hmv by lia. f_equal. lia. }
    destruct (decide (oe + dis = ne)) as [Eg|Hg]; [apply (Hend []); [by rewrite <- Eg|lia|done]|].
    assert (8 <= oe + dis - ne) as Hg8 by (clear - Hg Dne U1' U2' D8; Z.div_mod_to_equations; lia). destruct (Hgap Hg8) as (G1 & G2 & G3).
    destruct (rd_some m' (ne + 8) (oe + dis - ne - 8)) as (fd & Hfd & Hlfd); [lia..|].
    apply (Hend [mk_entry TL_TAG_EMPTY 8 fd]); [|lia|by repeat constructor]. cbn [app chain]. unfold efin at 1. cbn [hdr data]. rewrite Hlfd.
    split; [split; [done|]; cbn [hdr data]; rewrite Hlfd; done|]. unfold efin. cbn [hdr data]. rewrite Hlfd. replace (ne + 8 + (oe + dis - ne - 8)) with (oe + dis) by lia.
    split; [lia|]. rewrite up8_id by (clear - U1' D8; Z.div_mod_to_equations; lia). done.
Qed.

(** The stage that decides the distance and stores the new size of the list. *)
Lemma move_stage_runs s h es off e nd (Q : option Z -> tl_mem -> Prop) E : tl_lay s h es -> is_u 32 nd -> 0 <= off -> 0 <= hdr e < 256 -> efin off e <= h_size h ->
  let oe := up8 (efin off e) in let ne := up8 (off + hdr e + nd) in let dis := distance h off e nd in base s + ne < 2 ^ 64 ->
  (h_max h < h_size h + dis -> Q None s) ->
  (h_size h + dis <= h_max h -> forall m', wr (bytes s) 8 (le_bytes 4 (h_size h + dis)) = Some m' -> Q (Some (base s + (oe + dis))) (mk_mem (base s) m')) ->
  runs (move_stage (base s) (h_size h) (base s + oe) (base s + ne)) Q E s.
Proof.
  intros L Hnd Hoff Hh Hf oe ne dis Hne HN HS. pose proof (rep_bounds _ _ _ L) as (B1 & B2 & B3 & B4 & B5). pose proof (r_order _ _ _ L) as [Wo Ho].
  pose proof (rep_word_range _ _ _ L _ _ _ (proj1 (r_max _ _ _ L))) as Hmax. change (8 * Z.of_nat 4) with 32 in Hmax. unfold is_u in *.
  destruct (distance_spec h off e nd ltac:(lia)) as (D8 & Dne & Dg & Ds & D3). fold oe ne dis in D8, Dne, Dg, Ds, D3.
  destruct (up8_spec (efin off e)) as [U1 _]. fold oe in U1. destruct (up8_spec (off + hdr e + nd)) as [U2 _]. fold ne in U2. pose proof (lenZ_nonneg (data e)). unfold efin in U1, Hf.
  assert (2 ^ h_order h < 2 ^ 32 /\ 0 < 2 ^ h_order h) as [Ha Ha0] by (split; [apply Z.pow_lt_mono_r; lia|apply pow2_pos; lia]).
  unfold move_stage, tl_alignment. apply runs_bind, (rep_load _ _ _ L _ _ (h_order h)); [by replace (base s + 7 - base s) with 7 by lia|].
  unfold TL_ALIGNMENT_FROM_ORDER. rewrite (proj2 (Z.ltb_lt _ 32)) by lia. apply runs_bind, runs_ret. apply runs_bind, (rep_tl_max _ _ _ L).
  replace (base s + ne - (base s + oe)) with (ne - oe) by lia. replace (base s + oe - (base s + ne)) with (oe - ne) by lia.
  destruct (base s + oe <? base s + ne) eqn:E1; bool_hyps.
  - unfold roundup2_overflow. rewrite add_ok by lia. cbn [mbind option_bind]. rewrite rounddown2_spec by lia. fold (roundup_to (2 ^ h_order h) (ne - oe)).
    assert (roundup_to (2 ^ h_order h) (ne - oe) = dis) as -> by (unfold dis, distance; fold oe ne; by rewrite (proj2 (Z.ltb_lt oe ne)) by lia).
    rewrite uwrap_small by (unfold is_u; lia). destruct (h_max h <? h_size h + dis) eqn:E2; bool_hyps; [apply runs_ret; apply HN; lia|].
    apply runs_bind. destruct s as [b m]. cbn [base bytes] in *. apply runs_store; [lia|lia|]. replace (b + 8 - b) with 8 by lia. intros m' W. apply runs_ret.
    rewrite uwrap_small by (unfold is_u; lia). rewrite <- Z.add_assoc. apply HS; [lia|done].
  - cbv zeta. rewrite rounddown2_spec by lia.
    assert ((oe - ne) / 2 ^ h_order h * 2 ^ h_order h = - dis) as -> by (unfold dis, distance; fold oe ne; rewrite (proj2 (Z.ltb_ge oe ne)) by lia; lia).
    destruct (Ds ltac:(lia)) as [Ds1 Ds2]. apply runs_bind. destruct s as [b m]. cbn [base bytes] in *. replace (h_size h - - dis) with (h_size h + dis) by lia.
    apply runs_store; [lia|lia|]. replace (b + 8 - b) with 8 by lia. intros m' W. apply runs_ret.
    rewrite uwrap_small by (unfold is_u; lia). replace (b + oe - - dis) with (b + (oe + dis)) by lia. apply HS; [lia|done].
Qed.

(** Resizing an entry; the last one only in a list that ends at a multiple of eight and has no entry
    with a larger alignment. *)
Lemma set_size_runs s h pre e post off nd : tl_rep s h (pre ++ e :: post) -> chain (bytes s) (h_size h) 24 pre off -> is_u 32 nd ->
  (post <> [] \/ h_order h = 3 /\ h_size h mod 8 = 0) ->
  runs (transfer_list_set_data_size (base s) (base s + off) nd)
    (fun r s' => if h_max h <? h_size h + distance h off e nd then r = false /\ s' = s
      else r = true /\ base s' = base s /\ exists d fill, lenZ d = nd /\ take (Z.to_nat (Z.min (lenZ (data e)) nd)) d = take (Z.to_nat (Z.min (lenZ (data e)) nd)) (data e) /\
        tl_rep s' (sized h (h_size h + distance h off e nd)) (pre ++ mk_entry (tag e) (hdr e) d :: fill ++ post) /\ Forall (fun x => tag x = TL_TAG_EMPTY) fill)
    (fun _ _ => False) s.
Proof.
  intros [L _] Hpre Hnd Hcase. pose proof (rep_bounds _ _ _ L) as (B1 & B2 & B3 & B4 & B5). destruct (chain_le _ _ _ _ _ Hpre ltac:(done)) as (Hle & H8 & _).
  pose proof (lenZ_nonneg pre). pose proof (r_chain _ _ _ L) as Hc. apply chain_app in Hc as (mid & Hpre' & Hc). assert (mid = off) as -> by (by eapply chain_det).
  destruct Hc as ((E1 & E2 & E3 & E4 & E5) & Hf & Hpost). pose proof (lenZ_nonneg (data e)).
  pose proof (rep_word_range _ _ _ L _ _ _ E2) as Hh. change (8 * Z.of_nat 1) with 8 in Hh. pose proof (rep_word_range _ _ _ L _ _ _ E3) as Hdl. change (8 * Z.of_nat 4) with 32 in Hdl.
  pose proof (rep_word_range _ _ _ L _ _ _ (proj1 (r_max _ _ _ L))) as Hmax. change (8 * Z.of_nat 4) with 32 in Hmax. unfold is_u in *. change (2 ^ 8) with 256 in Hh.
  set (oe := up8 (efin off e)) in *. set (ne := up8 (off + hdr e + nd)) in *. set (dis := distance h off e nd) in *.
  destruct (distance_spec h off e nd (proj1 (proj2 (r_order _ _ _ L)))) as (D8 & Dne & Dg & Ds & D3). fold oe ne dis in D8, Dne, Dg, Ds, D3.
  destruct (up8_spec (efin off e)) as [U1 _]. fold oe in U1. destruct (up8_spec (off + hdr e + nd)) as [U2 _]. fold ne in U2. pose proof Hf as Hf'. unfold efin in Hf', U1.
  unfold transfer_list_set_data_size. rewrite (proj2 (Z.eqb_neq (base s) 0)), (proj2 (Z.eqb_neq (base s + off) 0)) by lia. cbn [orb].
  apply runs_bind, (rep_tl_size _ _ _ L). cbv zeta. rewrite (u64_end _ _ _ L) by lia. unfold te_hdr_size, te_data_size.
  apply runs_bind, (rep_load _ _ _ L _ _ (hdr e)); [by replace (base s + off + 3 - base s) with (off + 3) by lia|].
  apply runs_bind, (rep_load _ _ _ L _ _ (lenZ (data e))); [by replace (base s + off + 4 - base s) with (off + 4) by lia|].
  rewrite !entry_end_spec by lia. fold ne. change (off + hdr e + lenZ (data e)) with (efin off e). fold oe. rewrite (proj2 (Z.ltb_lt (base s + oe) _)) by lia.
  destruct (base s + ne <? 2 ^ 64) eqn:Eov; bool_hyps.
  2:{ rewrite (proj2 (Z.ltb_lt _ _)) by lia. by apply runs_ret. }
  apply runs_bind, (move_stage_runs s h _ off e nd _ _ L); try done; try lia; fold oe ne dis.
  { intros Hno. rewrite (proj2 (Z.ltb_lt (h_max h) _)) by lia. by apply runs_ret. }
  intros Hfit m1 W1. rewrite (proj2 (Z.ltb_ge (h_max h) _)) by lia. destruct s as [b m]. cbn [base bytes] in *.
  pose proof (agree_wr _ _ _ _ W1) as A1. unfold lenZ in A1 at 1. rewrite length_le_bytes in A1. pose proof A1 as [L1 R1]. change (8 + Z.of_nat 4) with 12 in *.
  pose proof (wr_bytes_ok _ _ _ _ W1 (r_bytes _ _ _ L) (le_bytes_ok _ _)) as K1. pose proof (word_wr _ _ _ _ _ W1 ltac:(unfold is_u; change (8 * Z.of_nat 4) with 32; lia)) as S1.
  assert (ne <= oe + dis /\ (post <> [] -> oe + 8 <= h_size h) /\ ne <= h_size h + dis) as (_ & Hpl & Hnf).
  { split; [done|]. destruct post as [|e' post']; [split; [done|]; destruct Hcase as [|[Ho Hs8]]; [done|]; cbn [chain] in Hpost; rewrite up8_id in Hpost by done; lia|].
    destruct Hpost as ((_ & _ & _ & P4 & _) & Pf & _). pose proof (lenZ_nonneg (data e')). unfold efin in Pf. split; [|lia]. intros _. fold oe in Pf. lia. }
  apply runs_bind, (shift_runs b m1 oe ne (oe + dis) (h_size h)); [lia|lia|lia|done|lia|]. intros m2 L2 K2 R2 Sh.
  apply runs_bind, runs_store; [lia|lia|]. replace (b + off + 4 - b) with (off + 4) by lia. intros m3 W3.
  pose proof (agree_wr _ _ _ _ W3) as A3. unfold lenZ in A3 at 1. rewrite length_le_bytes in A3. pose proof A3 as [L3 R3]. replace (off + 4 + Z.of_nat 4) with (off + 8) in * by lia.
  pose proof (wr_bytes_ok _ _ _ _ W3 K2 (le_bytes_ok _ _)) as K3. pose proof (word_wr _ _ _ _ _ W3 ltac:(unfold is_u; change (8 * Z.of_nat 4) with 32; lia)) as S3.
  destruct (rd_some m3 (off + hdr e) nd) as (d & Hd & Hld); [lia..|].
  destruct (resized_lay (mk_mem b m) h pre e post off nd m3 d L Hpre Hnd Hcase) as (fill & L' & Hfill); cbn [base bytes] in *; fold oe ne dis; try done; try lia.
  - intros o n Ho. rewrite R3, R2, R1 by lia. done.
  - unfold word in *. rewrite R3, R2 by lia. done.
  - intros Hlt. destruct (Sh Hlt) as [Sh1 Sh2]. split.
    + intros k n Hk Hn Hkn. rewrite R3, Sh1, R1 by lia. done.
    + intros Hg. destruct (Sh2 Hg) as (G1 & G2 & G3). unfold word in *. rewrite !R3 by lia. done.
  - apply runs_bind, (seal_runs b m3 _ _ _ _ L'). intros m4 Rep4 _. apply runs_ret. split; [done|]. split; [done|]. exists d, fill. split; [done|]. split; [|done].
    set (k := Z.min (lenZ (data e)) nd) in *. assert (0 <= k <= lenZ (data e) /\ k <= nd) as Hk by lia.
    assert (forall l : list Z, k <= lenZ l -> rd l 0 k = Some (take (Z.to_nat k) l)) as Hrd by (intros l Hl; rewrite rd_in by lia; done).
    pose proof (rd_rd _ _ _ _ 0 k Hd ltac:(lia) ltac:(lia) ltac:(lia)) as X1. pose proof (rd_rd _ _ _ _ 0 k E5 ltac:(lia) ltac:(lia) ltac:(lia)) as X2.
    rewrite Hrd in X1, X2 by lia. rewrite R3, R2, R1 in X1 by lia. congruence.
Qed.

(** ** Creating a list *)

(** A store and what later reads see of it. *)
Lemma runs_store_word n a v off b m (Q : unit -> tl_mem -> Prop) E : a = b + off -> 0 <= off -> off + Z.of_nat n <= lenZ m -> is_u (8 * Z.of_nat n) v -> bytes_ok m ->
  (forall m', agree_out off (off + Z.of_nat n) m m' -> word m' off n = Some v -> bytes_ok m' -> lenZ m' = lenZ m -> Q tt (mk_mem b m')) ->
  runs (store n a v) Q E (mk_mem b m).
Proof.
  intros -> H0 H1 Hv Hok HQ. apply runs_store; [lia|lia|]. replace (b + off - b) with off by lia. intros m' W.
  pose proof (agree_wr _ _ _ _ W) as A. unfold lenZ in A at 1. rewrite length_le_bytes in A.
  apply HQ; [done|by eapply word_wr|by eapply wr_bytes_ok; [exact W|done|apply le_bytes_ok]|apply A].
Qed.

Lemma aligned8 x : x mod 8 = 0 -> IS_ALIGNED x 8 = true.
Proof. intros Hx. unfold IS_ALIGNED. change (8 - 1) with (Z.ones 3). rewrite Z.land_ones by lia. change (2 ^ 3) with 8. by rewrite Hx. Qed.

Ltac small_word := unfold is_u, TRANSFER_LIST_SIGNATURE, TRANSFER_LIST_VERSION, TRANSFER_LIST_INIT_MAX_ALIGN, sizeof_header, TL_FLAGS_HAS_CHECKSUM; cbn; lia.

(** A word seen through the later stores. *)
Ltac later_word := repeat first [eassumption | match goal with A : agree_out _ _ ?m ?m' |- word ?m' _ _ = Some _ => rewrite (agree_word _ _ _ _ _ _ A) by (cbn [Z.of_nat Pos.of_succ_nat Pos.succ]; lia) end].

Lemma init_runs s pa max : 0 < base s -> base s mod 8 = 0 -> base s + lenZ (bytes s) + 16 < 2 ^ 64 -> bytes_ok (bytes s) ->
  0 < pa -> pa mod 8 = 0 -> 24 <= max < 2 ^ 32 -> max mod 8 = 0 -> max <= lenZ (bytes s) ->
  runs (transfer_list_init (base s) pa max)
    (fun r s' => r = base s /\ base s' = base s /\ tl_rep s' (mk_hdr TRANSFER_LIST_INIT_MAX_ALIGN sizeof_header max TL_FLAGS_HAS_CHECKSUM) []) (fun _ _ => False) s.
Proof.
  intros B1 B2 B3 Hok Hpa Hpa8 Hmax Hmax8 Hl. destruct s as [b m]. cbn [base bytes] in *. unfold transfer_list_init. apply runs_bind.
  change (TL_ALIGNMENT_FROM_ORDER TRANSFER_LIST_INIT_MAX_ALIGN) with (@ret tl_mem Z 8). apply runs_ret.
  rewrite (proj2 (Z.eqb_neq pa 0)), (proj2 (Z.eqb_neq max 0)), !aligned8, (proj2 (Z.ltb_ge max sizeof_header)), (proj2 (Z.eqb_neq b 0)) by (done || unfold sizeof_header; lia).
  cbn [negb orb]. cbv zeta. apply runs_bind, runs_put_bytes; [lia|unfold lenZ; rewrite length_replicate; unfold lenZ in Hl; lia|]. replace (b - b) with 0 by lia. intros m0 W0.
  pose proof (agree_wr _ _ _ _ W0) as [L0 _]. assert (bytes_ok m0) as K0 by (eapply wr_bytes_ok; [exact W0|done|]; apply Forall_replicate; unfold byte_ok; lia). clear W0 Hok.
  apply runs_bind, (runs_store_word _ _ _ 0); [lia|lia|lia|small_word|done|]. intros m1 A1 V1 K1 L1.
  apply runs_bind, (runs_store_word _ _ _ 5); [lia|lia|lia|small_word|done|]. intros m2 A2 V2 K2 L2.
  apply runs_bind, (runs_store_word _ _ _ 6); [lia|lia|lia|small_word|done|]. intros m3 A3 V3 K3 L3.
  apply runs_bind, (runs_store_word _ _ _ 7); [lia|lia|lia|small_word|done|]. intros m4 A4 V4 K4 L4.
  apply runs_bind, (runs_store_word _ _ _ 8); [lia|lia|lia|small_word|done|]. intros m5 A5 V5 K5 L5.
  apply runs_bind, (runs_store_word _ _ _ 12); [lia|lia|lia|small_word|done|]. intros m6 A6 V6 K6 L6.
  apply runs_bind, (runs_store_word _ _ _ 16); [lia|lia|lia|small_word|done|]. intros m7 A7 V7 K7 L7.
  assert (tl_lay (mk_mem b m7) (mk_hdr TRANSFER_LIST_INIT_MAX_ALIGN sizeof_header max TL_FLAGS_HAS_CHECKSUM) []) as L.
  { constructor; cbn [base bytes h_order h_size h_max h_flags]; try (split; [later_word|]); try later_word; try done; unfold TRANSFER_LIST_INIT_MAX_ALIGN, sizeof_header; lia. }
  apply runs_bind, (seal_runs b m7 _ _ _ _ L). intros m8 R8 _. by apply runs_ret.
Qed.
