(* ===== verification/TransferListProps.v ===== *)
(** * Transfer lists: safety, theorems and examples

    The walk over a list that another boot stage wrote stays inside the mapped region and ends; the
    calls of optee_os/core/kernel/transfer_list.c refine operations on a list of entries, from its
    creation to its relocation; runs of the model on small regions. *)
From S2P Require Import Prelude TransferList TransferListSpec.
Local Open Scope Z_scope.

(** ** Lists of unknown origin *)

(** A mapped region: not at NULL, not at the end of the address space. *)
Record region (s : tl_mem) : Prop := mk_region {
  g_base : 0 < base s;
  g_end : base s + lenZ (bytes s) + 32 < 2 ^ 64;
  g_bytes : bytes_ok (bytes s);
}.

(** What a caller may rely on in an entry pointer: the entry lies between the header and the end. *)
Definition entry_in (s : tl_mem) (size p : Z) : Prop :=
  base s + 24 <= p /\ exists h d, word (bytes s) (p - base s + 3) 1 = Some h /\ word (bytes s) (p - base s + 4) 4 = Some d /\
    8 <= h /\ 0 <= d /\ p + h + d <= base s + size.

Lemma load_Ret n a s v s' : load n a s = (Ret v, s') -> s' = s /\ word (bytes s) (a - base s) n = Some v.
Proof. unfold load, bind, get, word. destruct (rd _ _ _) as [d|]; [|done]. simpl. by intros [= <- <-]. Qed.

(** A test of the code that ended the run with another value. *)
Ltac stop H := match type of H with (if ?b then _ else _) _ = _ => let E := fresh "E" in destruct b eqn:E; [by inversion H; subst|]; bool_hyps end.

Lemma byte_sum_state tl s v s' : calc_byte_sum tl s = (Ret v, s') -> s' = s.
Proof.
  unfold calc_byte_sum. intros H. inv_bind H. apply load_Ret in Hrun as [-> _].
  assert (forall k i c, for_ k i (fun n cs => let! b := load 1 (tl + n) in ret (u8 (cs + b))) c s = (Ret v, s') -> s' = s) as Hk; [|eauto].
  intros k. induction k as [|k IH]; intros i c; cbn [for_]; intros Hf; [by injection Hf|]. inv_bind Hf. inv_bind Hrun.
  apply load_Ret in Hrun0 as [-> _]. injection Hrun as <- <-. by apply IH in Hf.
Qed.

Lemma check_header_Ret s ops s' : transfer_list_check_header (base s) s = (Ret ops, s') -> ops <> TL_OPS_NONE ->
  s' = s /\ word (bytes s) 6 1 = Some 24 /\ exists size max, word (bytes s) 8 4 = Some size /\ word (bytes s) 12 4 = Some max /\ size <= max.
Proof.
  intros H Hops. unfold transfer_list_check_header in H. stop H. inv_bind H. apply load_Ret in Hrun as [-> _]. stop H.
  inv_bind H. apply load_Ret in Hrun as [-> Wmax]. stop H. inv_bind H. apply load_Ret in Hrun as [-> Wsize]. stop H.
  inv_bind H. apply load_Ret in Hrun as [-> Whdr]. stop H. inv_bind H.
  assert (s0 = s) as ->.
  { unfold transfer_list_verify_checksum in Hrun. stop Hrun. inv_bind Hrun. apply load_Ret in Hrun0 as [-> _]. destruct (negb _); [by injection Hrun|].
    inv_bind Hrun. apply byte_sum_state in Hrun0 as ->. by injection Hrun. }
  replace (base s + 12 - base s) with 12 in * by lia. replace (base s + 8 - base s) with 8 in * by lia. replace (base s + 6 - base s) with 6 in * by lia.
  stop H. inv_bind H. apply load_Ret in Hrun0 as [-> _]. change sizeof_header with 24 in *. subst. split; [|eauto 10].
  repeat (match type of H with (if ?b then _ else _) _ = _ => destruct b end); by injection H.
Qed.

Lemma load_at s n a v (Q : Z -> tl_mem -> Prop) E : word (bytes s) (a - base s) n = Some v -> Q v s -> runs (load n a) Q E s.
Proof. destruct s as [b m]. apply runs_word. Qed.

Section Walk.
Context (s : tl_mem) (size : Z) (G : region s) (Whdr : word (bytes s) 6 1 = Some 24) (Wsize : word (bytes s) 8 4 = Some size) (Hsize : 0 <= size <= lenZ (bytes s)).

Lemma field_runs n a (Q : Z -> tl_mem -> Prop) E : 0 <= a - base s -> a - base s + Z.of_nat n <= lenZ (bytes s) ->
  (forall v, word (bytes s) (a - base s) n = Some v -> is_u (8 * Z.of_nat n) v -> Q v s) -> runs (load n a) Q E s.
Proof.
  intros H0 H1 HQ. destruct (rd_some (bytes s) (a - base s) (Z.of_nat n)) as (d & Hd & _); [lia..|].
  assert (word (bytes s) (a - base s) n = Some (le_val d)) as Hw by (unfold word; by rewrite Hd). destruct s as [b m].
  apply (runs_word _ _ _ _ _ _ _ Hw), HQ; [done|]. eapply word_is_u; [apply G|done].
Qed.

Lemma size_runs (Q : Z -> tl_mem -> Prop) E : Q size s -> runs (tl_size (base s)) Q E s.
Proof. intros HQ. apply load_at with size; [|done]. by replace (base s + 8 - base s) with 8 by lia. Qed.

(** Whatever is in memory at a place past the header. *)
Lemma valid_entry_safe va (Q : Z -> tl_mem -> Prop) E : base s + 24 <= va < 2 ^ 64 - 8 -> Q 0 s -> (entry_in s size va -> Q va s) ->
  runs (valid_entry (base s + size) va) Q E s.
Proof.
  intros Hva H0 HQ. destruct G as [B1 B2 B3]. unfold valid_entry. change sizeof_entry with 8. rewrite uwrap_small by (unfold is_u; lia).
  destruct (_ <? _) eqn:E1; bool_hyps; [by apply runs_ret|]. unfold te_hdr_size, te_data_size.
  apply runs_bind, field_runs; [lia|lia|]. intros h Wh Uh. destruct (h <? 8) eqn:E2; bool_hyps; [by apply runs_ret|].
  apply runs_bind, field_runs; [lia|lia|]. intros d Wd Ud. unfold is_u in *. change (2 ^ (8 * Z.of_nat 1)) with 256 in Uh. change (2 ^ (8 * Z.of_nat 4)) with 4294967296 in Ud.
  rewrite add_ok by lia. cbn [mbind option_bind]. destruct (add_overflow va (h + d)) as [ev|] eqn:E3; [|by apply runs_ret].
  unfold add_overflow in E3. destruct (_ <? 2 ^ 64); [|done]. injection E3 as <-. destruct (_ <? _) eqn:E4; bool_hyps; [by apply runs_ret|]. apply runs_ret, HQ.
  split; [lia|]. exists h, d. replace (va - base s + 3) with (va + 3 - base s) by lia. replace (va - base s + 4) with (va + 4 - base s) by lia. split_and!; [done..|lia|lia].
Qed.

Lemma next_safe cur (Q : Z -> tl_mem -> Prop) E : cur = 0 \/ entry_in s size cur -> Q 0 s -> (forall p, entry_in s size p -> cur + 8 <= p -> Q p s) ->
  runs (transfer_list_next (base s) cur) Q E s.
Proof.
  intros Hcur H0 HQ. destruct G as [B1 B2 B3]. unfold transfer_list_next. rewrite (proj2 (Z.eqb_neq (base s) 0)) by lia. apply runs_bind, size_runs. cbv zeta.
  rewrite uwrap_small by (unfold is_u; lia). destruct Hcur as [->|(Hc & h & d & Wh & Wd & Hh & Hd & He)].
  - apply runs_bind. cbn [negb Z.eqb]. unfold tl_hdr_size. apply runs_bind, load_at with 24; [by replace (base s + 6 - base s) with 6 by lia|]. apply runs_ret.
    pose proof (lenZ_nonneg (bytes s)). 
    rewrite uwrap_small by (unfold is_u; lia). apply valid_entry_safe; [lia|done|]. intros He. apply HQ; [done|lia].
  - apply runs_bind. rewrite (proj2 (Z.eqb_neq cur 0)) by lia. cbn [negb]. unfold te_hdr_size, te_data_size.
    apply runs_bind, load_at with h; [by replace (cur + 3 - base s) with (cur - base s + 3) by lia|].
    apply runs_bind, load_at with d; [by replace (cur + 4 - base s) with (cur - base s + 4) by lia|]. apply runs_ret.
    rewrite add_ok by lia. cbn [mbind option_bind]. rewrite add_ok by lia. cbn [mbind option_bind].
    replace (cur + (h + d)) with (0 + (cur + h + d)) by lia. destruct (up8_spec (cur + h + d)) as [Hu _]. rewrite (roundup8 0 (cur + h + d)) by (done || lia). rewrite Z.add_0_l.
    apply valid_entry_safe; [lia|done|]. intros He'. apply HQ; [done|lia].
Qed.

Lemma find_loop_safe t (Q : Z -> tl_mem -> Prop) E : Q 0 s -> (forall p, entry_in s size p -> word (bytes s) (p - base s) 2 = Some t -> Q p s) ->
  forall fuel cur, cur = 0 \/ entry_in s size cur -> base s + size < Z.max (base s) cur + Z.of_nat fuel -> runs (find_loop fuel (base s) cur t) Q E s.
Proof.
  intros H0 HQ. induction fuel as [|k IH]; intros cur Hcur Hf.
  - exfalso. destruct Hcur as [->|(Hc & h & d & _ & _ & Hh & Hd & He)]; [pose proof (g_base _ G); lia|lia].
  - cbn [find_loop]. apply runs_bind, next_safe; [done|by apply runs_ret|]. intros p Hp Hnext. pose proof Hp as (Hp1 & h & d & _ & _ & Hh & Hd & He). pose proof (g_base _ G).
    rewrite (proj2 (Z.eqb_neq p 0)) by lia. unfold te_tag_id. apply runs_bind, field_runs; [lia|lia|]. intros t' Wt _.
    destruct (t' =? t) eqn:Et; bool_hyps; [apply runs_ret; subst; by apply HQ|]. apply IH; [by right|lia].
Qed.

Lemma find_safe t (Q : Z -> tl_mem -> Prop) E : Q 0 s -> (forall p, entry_in s size p -> word (bytes s) (p - base s) 2 = Some t -> Q p s) ->
  runs (transfer_list_find (base s) t) Q E s.
Proof.
  intros H0 HQ. unfold transfer_list_find. apply runs_bind, runs_get. apply find_loop_safe; [done|done|by left|]. pose proof (g_base _ G). unfold lenZ in Hsize. lia.
Qed.
End Walk.

(** What [transfer_list_map()] has checked of a list it returns. *)
Lemma map_loop_Ret add rem pa s fuel : forall sz, map_loop fuel add rem pa sz = Ret (Some s) ->
  exists sz' size max, add pa sz' = Some s /\ word (bytes s) 6 1 = Some 24 /\ word (bytes s) 8 4 = Some size /\ word (bytes s) 12 4 = Some max /\ size <= max <= sz'.
Proof.
  induction fuel as [|k IH]; intros sz H; [done|]. cbn [map_loop] in H. destruct (add pa sz) as [s1|] eqn:Ea; [|done].
  destruct (bind _ _ s1) as [[[ops max]|?| |?] s2] eqn:Er; cbn [fst] in H; try done.
  destruct (ops =? TL_OPS_NONE) eqn:Eo; bool_hyps; [by destruct rem|]. destruct (max <=? sz) eqn:Em; bool_hyps; [|destruct rem; [by apply IH in H|done]].
  injection H as <-. inv_bind Er. apply check_header_Ret in Hrun as (-> & Wh & size & max' & Ws & Wm & Hle); [|inv_bind Er; by injection Er as <- <-].
  inv_bind Er. injection Er as <- <- <-. apply load_Ret in Hrun as [-> Wm']. replace (base s1 + 12 - base s1) with 12 in Wm' by lia. simplify_eq.
  exists sz, size. by eexists.
Qed.

(** The loop of [transfer_list_map()] takes two turns at most, if every mapping shows the same limit
    and rounding that up does not wrap. *)
Lemma map_two_turns add rem pa max k : max + SMALL_PAGE_SIZE <= 2 ^ 32 -> (forall sz s, add pa sz = Some s -> bytes_ok (bytes s) /\ word (bytes s) 12 4 = Some max) ->
  map_loop (2 + k) add rem pa SMALL_PAGE_SIZE = transfer_list_map add rem pa.
Proof.
  intros Hmax Hadd.
  assert (forall s sz ops mx s', add pa sz = Some s -> (let! ops := transfer_list_check_header (base s) in let! max := tl_max_size (base s) in ret (ops, max)) s = (Ret (ops, mx), s') ->
    (ops =? TL_OPS_NONE) = false -> mx = max /\ 0 <= max) as Hmx.
  { intros s sz ops mx s' Ea Er Eo. bool_hyps. destruct (Hadd _ _ Ea) as [Hok Wm]. pose proof (word_is_u _ _ _ _ Hok Wm) as [H0 _].
    inv_bind Er. apply check_header_Ret in Hrun as (-> & _); [|inv_bind Er; by injection Er as <- <-]. inv_bind Er. apply load_Ret in Hrun as [-> Wm'].
    replace (base s + 12 - base s) with 12 in Wm' by lia. injection Er as <- <- <-. split; [congruence|done]. }
  unfold transfer_list_map. cbn [Nat.add map_loop]. destruct (add pa SMALL_PAGE_SIZE) as [s|] eqn:Ea; [|done].
  destruct (bind _ _ s) as [[[ops mx]|?| |?] s'] eqn:Er; cbn [fst]; try done. destruct (ops =? TL_OPS_NONE) eqn:Eo; [done|]. destruct (Hmx _ _ _ _ _ Ea Er Eo) as [-> H0].
  destruct (max <=? SMALL_PAGE_SIZE); [done|]. destruct rem; [|done]. set (sz := u32 _ / _ * _). destruct (add pa sz) as [s2|] eqn:Ea2; [|done].
  destruct (bind _ _ s2) as [[[ops2 mx2]|?| |?] s2'] eqn:Er2; cbn [fst]; try done. destruct (ops2 =? TL_OPS_NONE) eqn:Eo2; [done|]. destruct (Hmx _ _ _ _ _ Ea2 Er2 Eo2) as [-> _].
  rewrite (proj2 (Z.leb_le max sz)); [done|]. unfold sz, SMALL_PAGE_SIZE in *. rewrite uwrap_small by (unfold is_u; lia). Z.div_mod_to_equations. lia.
Qed.

(** The header of a list that the calls built is accepted for all operations. *)
Lemma check_header_runs s h es (Q : Z -> tl_mem -> Prop) E : tl_rep s h es -> Q TL_OPS_ALL s -> runs (transfer_list_check_header (base s)) Q E s.
Proof.
  intros [L Hsum] HQ. pose proof (rep_bounds _ _ _ L) as (B1 & B2 & B3 & B4 & B5). unfold transfer_list_check_header. rewrite (proj2 (Z.eqb_neq (base s) 0)) by lia.
  apply runs_bind, load_at with TRANSFER_LIST_SIGNATURE; [replace (base s - base s) with 0 by lia; apply L|]. rewrite Z.eqb_refl. cbn [negb].
  apply runs_bind, (rep_tl_max _ _ _ L). rewrite (proj2 (Z.eqb_neq (h_max h) 0)) by lia. apply runs_bind, (rep_tl_size _ _ _ L). rewrite (proj2 (Z.ltb_ge _ _)) by lia.
  apply runs_bind, load_at with sizeof_header; [replace (base s + 6 - base s) with 6 by lia; apply L|]. rewrite Z.eqb_refl. cbn [negb].
  apply runs_bind. unfold transfer_list_verify_checksum. rewrite (proj2 (Z.eqb_neq (base s) 0)) by lia.
  apply runs_bind, load_at with (h_flags h); [replace (base s + 16 - base s) with 16 by lia; apply L|].
  assert (forall ok, ok = true -> runs (if negb ok then ret TL_OPS_NONE else let! version := tl_version (base s) in
    if version =? 0 then ret TL_OPS_NONE else if version =? TRANSFER_LIST_VERSION then ret TL_OPS_ALL else if TRANSFER_LIST_VERSION <? version then ret TL_OPS_RO else ret TL_OPS_CUS) Q E s) as Hv.
  { intros ? ->. cbn [negb]. apply runs_bind, load_at with TRANSFER_LIST_VERSION; [replace (base s + 5 - base s) with 5 by lia; apply L|]. by apply runs_ret. }
  destruct (has (h_flags h) TL_FLAGS_HAS_CHECKSUM); cbn [negb]; [|apply runs_ret; by apply Hv].
  destruct s as [b m]. cbn [base bytes] in *. apply runs_bind, (calc_byte_sum_runs b m (h_size h)); [apply L|lia|lia|]. rewrite (Hsum eq_refl). apply runs_ret. by apply Hv.
Qed.

(** ** Relocation *)

(** The address the list is moved to: the first from [pa] on with the offset of the list in its alignment. *)
Definition reloc_addr (h : header) (b pa : Z) : Z :=
  let a := 2 ^ h_order h in let n := pa / a * a + b mod a in if n <? pa then n + a else n.

Lemma reloc_addr_spec h b pa : 0 <= h_order h -> let a := reloc_addr h b pa in pa <= a < pa + 2 ^ h_order h /\ a mod 2 ^ h_order h = b mod 2 ^ h_order h.
Proof.
  intros Ho. unfold reloc_addr. cbv zeta. assert (0 < 2 ^ h_order h) as Hk by (apply pow2_pos; lia). set (a := 2 ^ h_order h) in *. pose proof (Z.div_mod pa a ltac:(lia)).
  pose proof (Z.mod_pos_bound pa a Hk). pose proof (Z.mod_pos_bound b a Hk). set (q := pa / a) in *.
  assert (forall j, (q * a + b mod a + j * a) mod a = b mod a) as Hm by (intros j; replace (q * a + b mod a + j * a) with (b mod a + (q + j) * a) by lia; by rewrite Z.mod_add, Z.mod_mod by lia).
  destruct (_ <? pa) eqn:E1; bool_hyps; (split; [lia|]); [pose proof (Hm 1) as Hj|pose proof (Hm 0) as Hj]; [by rewrite Z.mul_1_l in Hj|by rewrite Z.add_0_r in Hj].
Qed.

Lemma align_base_addr_runs s h es pa (Q : Z -> tl_mem -> Prop) E : tl_lay s h es -> 0 <= pa -> pa + 2 ^ (h_order h + 1) < 2 ^ 64 ->
  Q (reloc_addr h (base s) pa) s -> runs (get_align_base_addr pa (base s)) Q E s.
Proof.
  intros L H0 Hpa HQ. pose proof (r_order _ _ _ L) as [Wo Ho]. unfold reloc_addr in HQ. set (k := h_order h) in *.
  unfold get_align_base_addr. apply runs_bind, load_at with k; [by replace (base s + 7 - base s) with 7 by lia|].
  unfold TL_ALIGNMENT_FROM_ORDER. rewrite (proj2 (Z.ltb_lt _ 32)) by lia. apply runs_bind, runs_ret. cbv zeta.
  fold (rounddown2 pa (2 ^ k)). rewrite rounddown2_spec by lia. replace (2 ^ k - 1) with (Z.ones k) by (rewrite Z.ones_equiv; lia). rewrite Z.land_ones by lia.
  rewrite Z.pow_add_r in Hpa by lia. change (2 ^ 1) with 2 in Hpa. assert (0 < 2 ^ k) as Hk by (apply pow2_pos; lia). set (a := 2 ^ k) in *.
  pose proof (Z.div_mod pa a ltac:(lia)). pose proof (Z.mod_pos_bound pa a Hk). pose proof (Z.mod_pos_bound (base s) a Hk). set (q := pa / a) in *.
  assert (0 <= q) by (apply Z.div_pos; lia). rewrite uwrap_small by (unfold is_u; nia). apply runs_ret. cbv zeta in HQ.
  destruct (_ <? pa) eqn:E1; bool_hyps; [|done]. rewrite uwrap_small by (unfold is_u; nia). done.
Qed.

(** The bytes of a list, copied, and the new limit. *)
Lemma moved_lay s h es m' mx b' : tl_lay s h es -> 0 < b' -> b' mod 8 = 0 -> b' + lenZ m' + 16 < 2 ^ 64 -> bytes_ok m' -> h_size h <= mx <= lenZ m' ->
  word m' 12 4 = Some mx -> (forall o n, 0 <= n -> o + n <= 12 \/ 16 <= o /\ o + n <= h_size h -> rd m' o n = rd (bytes s) o n) ->
  tl_lay (mk_mem b' m') (mk_hdr (h_order h) (h_size h) mx (h_flags h)) es.
Proof.
  intros L Hb H8 He Hok Hmx Wm Hrd. pose proof (rep_bounds _ _ _ L) as (B1 & B2 & B3 & B4 & B5). destruct L as [B Y S V D O Z X F C]. unfold word in S, V, D, O, Z, F.
  split; cbn [base bytes h_order h_size h_max h_flags]; try done; unfold word; rewrite ?Hrd by lia; try done; try lia.
  - split; [apply Z|lia].
  - split; [done|lia].
  - eapply (chain_frame (bytes s) _ _ 24); [done|lia|done|]. intros o n Ho Hf. destruct (decide (0 <= n)) as [Hn|Hn]; [apply Hrd; lia|]. unfold rd. by rewrite (proj2 (Z.leb_gt 0 n)), andb_false_r by lia.
Qed.

(** Moving a list into the region [dst], mapped at its new address. *)
Lemma relocate_runs s h es dst pa max : tl_rep s h es -> 0 < pa -> pa + 2 ^ (h_order h + 1) < 2 ^ 64 -> 0 < max < 2 ^ 32 ->
  let mx := max - (reloc_addr h (base s) pa - pa) in 0 <= mx ->
  0 < base dst -> base dst mod 8 = 0 -> base dst + lenZ (bytes dst) + 16 < 2 ^ 64 -> bytes_ok (bytes dst) -> lenZ (bytes dst) = mx ->
  runs (transfer_list_relocate dst (base dst) true (base s) pa max)
    (fun r s' => s' = s /\ if mx <? h_size h then r = (0, dst)
      else fst r = base dst /\ base (snd r) = base dst /\ tl_rep (snd r) (mk_hdr (h_order h) (h_size h) mx (h_flags h)) es)
    (fun _ _ => False) s.
Proof.
  intros [L _] Hpa Hpa2 Hmax mx Hmx D1 D2 D3 Dok Dl. pose proof (rep_bounds _ _ _ L) as (B1 & B2 & B3 & B4 & B5). pose proof (r_order _ _ _ L) as [_ Ho].
  destruct (reloc_addr_spec h (base s) pa ltac:(lia)) as [Ha _].
  unfold transfer_list_relocate. rewrite (proj2 (Z.eqb_neq (base s) 0)), (proj2 (Z.eqb_neq pa 0)), (proj2 (Z.eqb_neq max 0)) by lia. cbn [orb].
  apply runs_bind, (align_base_addr_runs s h es pa _ _ L); [lia|done|]. rewrite uwrap_small by (unfold is_u; lia). fold mx. cbv zeta. apply runs_bind, (rep_tl_size _ _ _ L).
  destruct (mx <? h_size h) eqn:E1; bool_hyps; [by apply runs_ret|]. rewrite (proj2 (Z.eqb_neq (base dst) 0)) by lia. apply runs_bind, runs_get.
  replace (base s - base s) with 0 by lia. destruct (rd_some (bytes s) 0 (h_size h)) as (d & Hd & Hld); [lia..|]. rewrite Hd. apply runs_bind, runs_ret.
  set (copy := bind (put_bytes _ _) _). assert (runs copy (fun _ s' => base s' = base dst /\ tl_rep s' (mk_hdr (h_order h) (h_size h) mx (h_flags h)) es) (fun _ _ => False) dst) as Hc.
  { destruct dst as [b' m]. cbn [base bytes] in *. apply runs_bind, runs_put_bytes; [lia|lia|]. replace (b' - b') with 0 by lia. intros m1 W1. pose proof (agree_wr _ _ _ _ W1) as [L1 _].
    pose proof (wr_bytes_ok _ _ _ _ W1 Dok (rd_ok _ _ _ _ (r_bytes _ _ _ L) Hd)) as K1.
    apply runs_bind, (runs_store_word _ _ _ 12); [lia|lia|lia|unfold is_u; cbn; lia|done|]. intros m2 A2 V2 K2 L2. pose proof A2 as [_ R2]. change (12 + Z.of_nat 4) with 16 in R2.
    eapply (seal_runs b' m2); [|intros m' R' _; split; [done|exact R']].
    apply (moved_lay s h es m2 mx b' L); [done|done|lia|done|lia|done|]. intros o n Hn Ho'.
    destruct (decide (0 <= o)) as [Ho0|Ho0]; [|unfold rd; by rewrite (proj2 (Z.leb_gt 0 o)) by lia].
    rewrite R2 by lia. replace o with (0 + o) by lia. rewrite (rd_wr_inside _ _ _ _ o n W1) by lia. by rewrite (rd_rd _ _ _ _ o n Hd) by lia. }
  unfold runs in Hc at 1. destruct (copy dst) as [[u|?| |?] dst']; try done. destruct Hc as [Hb Hr]. apply runs_bind. unfold transfer_list_unmap_nosync.
  apply runs_bind, (rep_tl_max _ _ _ L). apply runs_ret, runs_ret. split; [done|]. cbn [fst snd]. done.
Qed.

(** ** Theorems *)

(** C25. A region that holds a list of entries is that list to every call. The header is accepted for
    all operations; transfer_list_find() returns the first entry with the tag, NULL if there is none;
    transfer_list_add() appends an entry with the caller's data, or returns NULL and changes nothing
    when the entry does not fit; transfer_list_rem() voids the entry it is given;
    transfer_list_set_data_size() changes the size of an entry, keeps its data up to the smaller size
    and moves the entries that follow, with void entries in the gap, or returns false and changes
    nothing; and transfer_list_relocate() puts the same list into the new region. The checksum is
    right afterwards, nothing outside the region is accessed and no assertion fails. The last entry
    is resized in a list of a size that is a multiple of eight and of the initial alignment. *)
Theorem transfer_list_refines s h es : tl_rep s h es ->
  runs (transfer_list_check_header (base s)) (fun r s' => r = TL_OPS_ALL /\ s' = s) (fun _ _ => False) s /\
  (forall t, runs (transfer_list_find (base s) t) (fun r s' => r = at_off (base s) (find_off 24 es t) /\ s' = s) (fun _ _ => False) s) /\
  (forall t n dat, is_u 16 t -> is_u 32 n -> (forall d, dat = Some d -> lenZ d = n /\ bytes_ok d) ->
    runs (transfer_list_add (base s) t n dat)
      (fun r s' => if up8 (h_size h) + 8 + n <=? h_max h
        then r = base s + up8 (h_size h) /\ base s' = base s /\
          exists d, lenZ d = n /\ (forall d', dat = Some d' -> d = d') /\ tl_rep s' (sized h (up8 (h_size h) + 8 + n)) (es ++ [mk_entry t 8 d])
        else r = 0 /\ s' = s) (fun _ _ => False) s) /\
  (forall pre e post off, es = pre ++ e :: post -> chain (bytes s) (h_size h) 24 pre off ->
    runs (transfer_list_rem (base s) (base s + off))
      (fun r s' => r = true /\ base s' = base s /\ tl_rep s' h (pre ++ mk_entry TL_TAG_EMPTY (hdr e) (data e) :: post)) (fun _ _ => False) s /\
    forall n, is_u 32 n -> post <> [] \/ h_order h = 3 /\ h_size h mod 8 = 0 ->
    runs (transfer_list_set_data_size (base s) (base s + off) n)
      (fun r s' => let k := Z.to_nat (Z.min (lenZ (data e)) n) in if h_max h <? h_size h + distance h off e n then r = false /\ s' = s
        else r = true /\ base s' = base s /\ exists d fill, lenZ d = n /\ take k d = take k (data e) /\
          tl_rep s' (sized h (h_size h + distance h off e n)) (pre ++ mk_entry (tag e) (hdr e) d :: fill ++ post) /\ Forall (fun x => tag x = TL_TAG_EMPTY) fill)
      (fun _ _ => False) s) /\
  (forall dst pa max, 0 < pa -> pa + 2 ^ (h_order h + 1) < 2 ^ 64 -> 0 < max < 2 ^ 32 ->
    let mx := max - (reloc_addr h (base s) pa - pa) in 0 <= mx ->
    0 < base dst -> base dst mod 8 = 0 -> base dst + lenZ (bytes dst) + 16 < 2 ^ 64 -> bytes_ok (bytes dst) -> lenZ (bytes dst) = mx ->
    runs (transfer_list_relocate dst (base dst) true (base s) pa max)
      (fun r s' => s' = s /\ if mx <? h_size h then r = (0, dst)
        else fst r = base dst /\ base (snd r) = base dst /\ tl_rep (snd r) (mk_hdr (h_order h) (h_size h) mx (h_flags h)) es)
      (fun _ _ => False) s).
Proof.
  intros R. split; [by apply (check_header_runs s h es)|]. split; [intros t; by apply (find_runs s h es (proj1 R))|]. split; [intros; by apply add_runs|].
  split; [|intros; by apply relocate_runs]. intros pre e post off -> Hc. split; [by eapply rem_runs|]. intros n Hn Hcase. by eapply set_size_runs.
Qed.

(** C24. A list that another boot stage wrote and transfer_list_map() returned can be searched whatever
    its bytes: if core_mmu_add_mapping() maps the size it is asked for, transfer_list_find() ends,
    reads nothing outside the mapping, changes nothing, and returns NULL or an entry with the tag
    asked for whose header and data lie between the header and the end of the list. *)
Theorem transfer_list_map_find_safe add rem pa s t : (forall sz s, add pa sz = Some s -> region s /\ lenZ (bytes s) = sz) ->
  transfer_list_map add rem pa = Ret (Some s) ->
  exists size, word (bytes s) 8 4 = Some size /\
    runs (transfer_list_find (base s) t)
      (fun r s' => s' = s /\ (r = 0 \/ entry_in s size r /\ word (bytes s) (r - base s) 2 = Some t)) (fun _ _ => False) s.
Proof.
  intros Hadd Hmap. apply map_loop_Ret in Hmap as (sz & size & max & Ha & Wh & Ws & Wm & Hle). destruct (Hadd _ _ Ha) as [G Hl]. exists size. split; [done|].
  pose proof (word_is_u _ _ _ _ (g_bytes _ G) Ws) as [Hs0 _]. apply (find_safe s size G Wh Ws); [lia|by split; [|left]|]. intros p Hp Wt. split; [done|]. by right.
Qed.

(** ** Examples *)

(** A region of 256 bytes, and a list in it. *)
Definition empty_region : tl_mem := mk_mem 4096 (replicate 256 7).
Definition new_list : T Z := transfer_list_init 4096 8 256.
Definition list0 : tl_mem := snd (new_list empty_region).

Lemma list0_rep : tl_rep list0 (mk_hdr 3 24 256 1) [].
Proof.
  assert (lenZ (bytes empty_region) = 256) as Hl by done.
  pose proof (init_runs empty_region 8 256) as H. rewrite Hl in H. specialize (H ltac:(done) ltac:(done) ltac:(done)).
  specialize (H ltac:(apply Forall_replicate; unfold byte_ok; lia) ltac:(done) ltac:(done) ltac:(lia) ltac:(done) ltac:(lia)).
  unfold runs in H. change (base empty_region) with 4096 in H. fold new_list in H. unfold list0.
  destruct (new_list empty_region) as [[r|?| |?] s']; [|contradiction..]. exact (proj2 (proj2 H)).
Qed.

Lemma transfer_list_refines_witness : tl_rep list0 (mk_hdr 3 24 256 1) [] /\
  runs (transfer_list_add (base list0) 5 2 (Some [1; 2])) (fun r s' => r = base list0 + 24 /\ tl_rep s' (mk_hdr 3 34 256 1) [mk_entry 5 8 [1; 2]]) (fun _ _ => False) list0.
Proof.
  split; [exact list0_rep|]. generalize list0_rep. generalize list0. intros s R. destruct (transfer_list_refines s _ _ R) as (_ & _ & Ha & _).
  eapply runs_mono; [apply (Ha 5 2 (Some [1; 2]))| |done]; [by unfold is_u..|intros d [= <-]; split; [done|]; repeat constructor; unfold byte_ok; lia|].
  cbv beta. change (up8 (h_size _) + 8 + 2 <=? _) with true. cbv iota. intros r s' (-> & _ & d & _ & Hd & Hr). rewrite (Hd [1; 2] eq_refl) in Hr. done.
Defined.

(** The list with one entry of tag 1, mapped. *)
Definition list1 : tl_mem := snd ((do! new_list in transfer_list_add 4096 1 8 None) empty_region).
Definition page1 : tl_mem := mk_mem 4096 (bytes list1 ++ replicate 3840 0).
Definition map_page (pa sz : Z) : option tl_mem := if sz =? SMALL_PAGE_SIZE then Some page1 else None.

Lemma page1_region : region page1 /\ lenZ (bytes page1) = SMALL_PAGE_SIZE.
Proof.
  split; [|vm_compute; reflexivity]. split; [vm_compute; reflexivity..|]. apply Forall_forall. intros x Hx.
  assert (forallb (fun z => (0 <=? z) && (z <? 256)) (bytes page1) = true) as Hb by (vm_compute; reflexivity).
  rewrite forallb_forall in Hb. apply list_elem_of_In, Hb in Hx. unfold byte_ok. bool_hyps. lia.
Qed.

Lemma transfer_list_map_find_safe_witness : transfer_list_map map_page true 8 = Ret (Some page1) /\
  exists size, word (bytes page1) 8 4 = Some size /\
    runs (transfer_list_find (base page1) 1) (fun r s' => s' = page1 /\ (r = 0 \/ entry_in page1 size r /\ word (bytes page1) (r - base page1) 2 = Some 1)) (fun _ _ => False) page1.
Proof.
  assert (transfer_list_map map_page true 8 = Ret (Some page1)) as Hm by (vm_compute; reflexivity). split; [exact Hm|].
  apply (transfer_list_map_find_safe map_page true 8 page1 1); [|exact Hm].
  intros sz s. unfold map_page. destruct (sz =? SMALL_PAGE_SIZE) eqn:E; [|done]. bool_hyps. subst sz. intros [= <-]. exact page1_region.
Defined.

(** Two entries; the first grows and the second moves behind it. *)
Example grow_moves_next : fst ((do! new_list in
    let! a := transfer_list_add 4096 1 8 None in
    let! b := transfer_list_add 4096 2 8 None in
    let! ok := transfer_list_set_data_size 4096 a 24 in
    let! b' := transfer_list_find 4096 2 in
    let! ops := transfer_list_check_header 4096 in
    ret (a, b, ok, b', ops)) empty_region) = Ret (4120, 4136, true, 4152, TL_OPS_ALL).
Proof. vm_compute. reflexivity. Qed.

(** transfer_list_add() leaves a size that is not a multiple of eight when the data size is not;
    a last entry that is then resized is no longer found. *)
Example resize_last_loses_entry : fst ((do! new_list in
    let! a := transfer_list_add 4096 1 5 None in
    let! f := transfer_list_find 4096 1 in
    let! ok := transfer_list_set_data_size 4096 a 16 in
    let! f' := transfer_list_find 4096 1 in
    ret (a, f, ok, f')) empty_region) = Ret (4120, 4120, true, 0).
Proof. vm_compute. reflexivity. Qed.

(** The space before an aligned entry may be exactly the header of a void entry, which the assertion
    of transfer_list_add_with_align() excludes. *)
Example add_with_align_panics : fst ((do! new_list in
    let! a := transfer_list_add 4096 1 16 None in
    transfer_list_add_with_align 4096 2 8 None 4) empty_region) = Panic.
Proof. vm_compute. reflexivity. Qed.

(** The last entry of a list with a larger alignment grows by a multiple of that alignment; nothing
    fills the space behind it, and the entry that is added next is not found. *)
Example aligned_growth_hides_next : fst ((do! new_list in
    let! a := transfer_list_add_with_align 4096 1 8 None 4 in
    let! ok := transfer_list_set_data_size 4096 a 16 in
    let! b := transfer_list_add 4096 2 8 None in
    let! f := transfer_list_find 4096 2 in
    ret (a, ok, b, f)) empty_region) = Ret (4120, true, 4152, 0).
Proof. vm_compute. reflexivity. Qed.

(** A list of more than a page is summed by transfer_list_check_header() while one page is mapped. *)
Example map_sums_past_mapping : transfer_list_map (fun _ sz => if sz =? SMALL_PAGE_SIZE then
    Some (mk_mem 4096 (take 8 (bytes list0) ++ le_bytes 4 4104 ++ le_bytes 4 8192 ++ drop 16 (bytes page1))) else None) true 8 = Undef OutOfBounds.
Proof. vm_compute. reflexivity. Qed.

(** The alignment of a list is not checked before it is used to shift. *)
Example alignment_not_checked : fst ((do! new_list in
    let! a := transfer_list_add 4096 1 8 None in
    do! store 1 4103 32 in
    do! transfer_list_update_checksum 4096 in
    let! ops := transfer_list_check_header 4096 in
    do! assert_ (ops =? TL_OPS_ALL) in
    transfer_list_set_data_size 4096 a 16) empty_region) = Undef ShiftRange.
Proof. vm_compute. reflexivity. Qed.

(** Relocating into less space than the alignment skips: the new limit wraps around. *)
Example relocate_limit_wraps : fst ((let! r := transfer_list_relocate (mk_mem 8192 (replicate 64 0)) 8192 true 4096 4097 4 in
    ret (fst r, fst (tl_max_size 8192 (snd r)))) list0) = Ret (8192, Ret (2 ^ 32 - 3)).
Proof. vm_compute. reflexivity. Qed.
