(* ===== verification/Threads.v ===== *)
(** * Threads

    Programs of threads that share a state, made of sections that run without interruption, and a
    logic for them. A section that has to wait for a condition variable ends in [Block] and is run
    again when the thread has been woken. Between sections any thread may run.

    [ok] is the judgement of the logic, in the style of rely and guarantee: a thread owns a part of
    the resources that the invariant accounts for; each of its sections keeps the invariant and
    changes its own part only. *)
From S2P Require Import Prelude.
Local Open Scope Z_scope.

(** ** Programs *)

Inductive act (S C X : Type) : Type :=
| Go (o : outcome X) (s : S)
| Block (c : C).
Arguments Go {S C X} o s.
Arguments Block {S C X} c.

Inductive proc (S C A : Type) : Type :=
| Done (a : A)
| Step (f : S -> act S C (proc S C A)).
Arguments Done {S C A} a.
Arguments Step {S C A} f.

Fixpoint pbind {S C A B} (p : proc S C A) (k : A -> proc S C B) : proc S C B :=
  match p with
  | Done a => k a
  | Step f => Step (fun s =>
      match f s with
      | Go (Ret p') s' => Go (Ret (pbind p' k)) s'
      | Go (Err e) s' => Go (Err e) s'
      | Go Panic s' => Go Panic s'
      | Go (Undef u) s' => Go (Undef u) s'
      | Block c => Block c
      end)
  end.

Notation "'let*' x := p 'in' k" := (pbind p (fun x => k))
  (at level 10, x name, p at level 100, k at level 200) : tee_scope.
Notation "'do*' p 'in' k" := (pbind p (fun _ => k))
  (at level 10, p at level 100, k at level 200) : tee_scope.

(** A section that does not wait. *)
Definition section {S C A} (m : M S A) : proc S C A := Step (fun s =>
  match m s with
  | (Ret a, s') => Go (Ret (Done a)) s'
  | (Err e, s') => Go (Err e) s'
  | (Panic, s') => Go Panic s'
  | (Undef u, s') => Go (Undef u) s'
  end).

(** A section whose first part is [while (...) condvar_wait(...)]: [inr c] if it has to wait. *)
Definition waiting {S C A} (m : M S (A + C)) : proc S C A := Step (fun s =>
  match m s with
  | (Ret (inl a), s') => Go (Ret (Done a)) s'
  | (Ret (inr c), _) => Block c
  | (Err e, s') => Go (Err e) s'
  | (Panic, s') => Go Panic s'
  | (Undef u, s') => Go (Undef u) s'
  end).

Definition run_list {S C X} (f : X -> proc S C unit) : list X -> proc S C unit :=
  fix go l := match l with [] => Done tt | k :: r => do* f k in go r end.

(** ** The system *)

(** Threads that sleep are kept in the state. *)
Class Machine (S C : Type) := {
  sleeps : nat -> S -> bool;
  enqueue : C * nat -> S -> S;
}.

(** The shared state and the programs of the threads. *)
Record sys (S C : Type) := mk_sys { st : S; thr : list (proc S C unit) }.
Arguments mk_sys {S C} st thr.
Arguments st {S C} _.
Arguments thr {S C} _.

Section System.
Context {S C : Type} `{Machine S C}.

(** The next section of thread [t]; [None] if there is none or the thread sleeps. *)
Definition sys_step (t : nat) (x : sys S C) : option (outcome (sys S C)) :=
  match thr x !! t with
  | Some (Step f) =>
      if sleeps t (st x) then None else
      Some (match f (st x) with
      | Block c => Ret (mk_sys (enqueue (c, t) (st x)) (thr x))
      | Go (Ret p) s => Ret (mk_sys s (<[t := p]> (thr x)))
      | Go (Err e) _ => Err e
      | Go Panic _ => Panic
      | Go (Undef u) _ => Undef u
      end)
  | _ => None
  end.

(** States that are reached from [x0] through states where [stop] is false. *)
Inductive reaches (stop : S -> bool) (x0 : sys S C) : sys S C -> Prop :=
| reach_start : reaches stop x0 x0
| reach_step t x y : reaches stop x0 x -> sys_step t x = Some (Ret y) -> stop (st y) = false -> reaches stop x0 y.

(** A run of the system: the threads in the order given; a thread that cannot run is skipped. *)
Fixpoint run (sched : list nat) (x : sys S C) : outcome (sys S C) :=
  match sched with
  | [] => Ret x
  | t :: r => match sys_step t x with
    | Some (Ret y) => run r y
    | Some o => o
    | None => run r x
    end
  end.

(** A run in which nothing fails and [stop] stays false. *)
Fixpoint quiet_run (stop : S -> bool) (sched : list nat) (x : sys S C) : option (sys S C) :=
  match sched with
  | [] => Some x
  | t :: r => match sys_step t x with
    | Some (Ret y) => if stop (st y) then None else quiet_run stop r y
    | Some _ => None
    | None => quiet_run stop r x
    end
  end.

Lemma quiet_run_reaches stop sched x0 x y : reaches stop x0 x -> quiet_run stop sched x = Some y -> reaches stop x0 y.
Proof.
  revert x. induction sched as [|t r IH]; intros x Hx; cbn [quiet_run]; [by intros [= ->]|]. destruct (sys_step t x) as [[z|e| |u]|] eqn:E; try done; [|by apply IH].
  destruct (stop (st z)) eqn:Er; [done|]. apply IH. by eapply reach_step.
Qed.
End System.

(** Induction on programs. *)
Lemma proc_nested_ind {S C A} (P : proc S C A -> Prop) : (forall a, P (Done a)) -> (forall f, (forall s p s', f s = Go (Ret p) s' -> P p) -> P (Step f)) -> forall p, P p.
Proof.
  intros HD HS. fix IH 1. intros [a|f]; [apply HD|]. apply HS. intros s p s'.
  pose (r := f s). change (r = Go (Ret p) s' -> P p). destruct r as [[q|e| |u] s1|c]; intros E; try discriminate E.
  assert (q = p) as <- by congruence. apply IH.
Qed.

(** ** The section a program is at *)

(** The next section of [p] runs [m]: in every state it has the outcome of [m] and leaves the state that [m]
    leaves; how [p] goes on is left open. *)
Definition next_section {S C A} (p : proc S C A) (m : M S unit) : Prop :=
  match p with
  | Done _ => False
  | Step f => forall s, match f s, m s with
      | Go (Ret _) s1, (Ret _, s2) => s1 = s2
      | Go (Err e) s1, (Err e', s2) => e = e' /\ s1 = s2
      | Go Panic s1, (Panic, s2) => s1 = s2
      | Go (Undef u) s1, (Undef u', s2) => u = u' /\ s1 = s2
      | _, _ => False
      end
  end.

Lemma section_next {S C A} (m : M S A) : next_section (section (C := C) m) (do! m in ret tt).
Proof. intros s. unfold bind. by destruct (m s) as [[] ?]. Qed.

Lemma pbind_next {S C A B} (p : proc S C A) (k : A -> proc S C B) m : next_section p m -> next_section (pbind p k) m.
Proof. destruct p as [a|f]; [done|]. cbn [pbind next_section]. intros Hp s. specialize (Hp s). by destruct (f s) as [[] ?|], (m s) as [[] ?]. Qed.

(** ** Counting *)

Section Count.
Context {A : Type} `{EqDecision A}.

Definition cnt (x : A) (l : list A) : nat := length (filter (fun y => y = x) l).

Lemma cnt_cons x y l : cnt x (y :: l) = ((if decide (y = x) then 1 else 0) + cnt x l)%nat.
Proof. unfold cnt. rewrite filter_cons. by destruct (decide (y = x)). Qed.

Lemma cnt_nil x : cnt x [] = 0%nat. Proof. done. Qed.

Lemma cnt_elem x l : (0 < cnt x l)%nat <-> x ∈ l.
Proof.
  induction l as [|y l IH]; [rewrite cnt_nil, elem_of_nil; lia|]. rewrite cnt_cons, elem_of_cons. destruct (decide (y = x)) as [->|]; [split; [by left|lia]|].
  rewrite Nat.add_0_l, IH. split; [by right|]. by intros [?|?].
Qed.

Lemma cnt_zero x l : cnt x l = 0%nat <-> x ∉ l.
Proof. rewrite <- cnt_elem. lia. Qed.
End Count.
#[global] Arguments cnt : simpl never.

(** The sum of [f] over the threads. *)
Definition total {X} (f : X -> nat) (G : list X) : nat := sum_list_with f G.

Lemma total_insert {X} (f : X -> nat) G t o o' : G !! t = Some o -> (total f (<[t := o']> G) + f o = total f G + f o')%nat.
Proof.
  unfold total. revert t. induction G as [|y G IH]; intros [|t] Hl; simplify_eq/=; [lia|]. specialize (IH _ Hl). lia.
Qed.

Lemma total_le {X} (f : X -> nat) G t o : G !! t = Some o -> (f o <= total f G)%nat.
Proof. unfold total. revert t. induction G as [|y G IH]; intros [|t] Hl; simplify_eq/=; [lia|]. specialize (IH _ Hl). lia. Qed.

Lemma total_two {X} (f : X -> nat) G t t' o o' : t <> t' -> G !! t = Some o -> G !! t' = Some o' -> (f o + f o' <= total f G)%nat.
Proof.
  unfold total. revert t t'. induction G as [|y G IH]; intros [|t] [|t'] Hne Hl Hl'; simplify_eq/=; try done.
  - pose proof (total_le f _ _ _ Hl'). unfold total in *. lia.
  - pose proof (total_le f _ _ _ Hl). unfold total in *. lia.
  - specialize (IH t t' ltac:(congruence) Hl Hl'). lia.
Qed.

Lemma total_pos {X} (f : X -> nat) G : (0 < total f G)%nat -> exists t o, G !! t = Some o /\ (0 < f o)%nat.
Proof.
  unfold total. induction G as [|y G IH]; simpl; [lia|]. intros H. destruct (f y) eqn:E; [|exists 0%nat, y; split; [done|lia]].
  destruct (IH H) as (t & o & ? & ?). by exists (S t), o.
Qed.

Lemma total_same {X} (f : X -> nat) G t o o' : G !! t = Some o -> f o' = f o -> total f (<[t := o']> G) = total f G.
Proof. intros Ho E. pose proof (total_insert f G t o o' Ho). lia. Qed.

Lemma total_bound {X} (f : X -> nat) k G : (forall t x, G !! t = Some x -> (f x <= k)%nat) -> (total f G <= k * length G)%nat.
Proof.
  unfold total. induction G as [|x G IH]; intros Hb; cbn; [lia|]. pose proof (Hb 0%nat x eq_refl). pose proof (IH (fun t => Hb (S t))). lia.
Qed.

Lemma cnt_length {A} `{EqDecision A} (x : A) l : (cnt x l <= length l)%nat.
Proof. induction l as [|y l IH]; [done|]. rewrite cnt_cons. cbn. destruct (decide (y = x)); lia. Qed.

Lemma cnt_perm {A} `{EqDecision A} (x : A) l l' : l ≡ₚ l' -> cnt x l = cnt x l'.
Proof. intros E. unfold cnt. by rewrite E. Qed.

Lemma cnt_fmap_perm {A B} `{EqDecision B} (f : A -> B) x l l' : l ≡ₚ l' -> cnt x (f <$> l) = cnt x (f <$> l').
Proof. intros E. apply cnt_perm. by rewrite E. Qed.

(** ** The logic *)

Section Logic.
Context {S C O : Type} `{Machine S C} (inv : S -> list O -> Prop) (stop : S -> bool) (excused : M S unit -> S -> Prop).

(** [ok strict t o p Q]: thread [t] runs [p] from what it owns, [o], to a result and what it owns
    then, related by [Q]; it runs when it does not sleep. It is never undefined; if [strict], it panics only in sections and
    states that are [excused]. The reasoning ends when [stop] becomes true. *)
Fixpoint ok {A} (strict : bool) (t : nat) (o : O) (p : proc S C A) (Q : A -> O -> Prop) : Prop :=
  match p with
  | Done a => Q a o
  | Step f => forall s G, inv s G -> G !! t = Some o -> sleeps t s = false ->
      match f s with
      | Block c => inv (enqueue (c, t) s) G
      | Go (Ret p') s' => stop s' = true \/ exists o', inv s' (<[t := o']> G) /\ ok strict t o' p' Q
      | Go Panic _ => strict = false \/ exists m, next_section p m /\ excused m s
      | Go _ _ => False
      end
  end.

Lemma ok_mono {A} strict t (p : proc S C A) (P Q : A -> O -> Prop) o : ok strict t o p P -> (forall a o', P a o' -> Q a o') -> ok strict t o p Q.
Proof.
  intros Hp HPQ. revert o Hp. induction p as [a|f IH] using proc_nested_ind; intros o; [apply HPQ|]. cbn [ok]. intros Hp s G Hi Ht Hs. specialize (Hp s G Hi Ht Hs).
  destruct (f s) as [[p|e| |u] s'|c] eqn:E; try done. destruct Hp as [Hp|(o' & H1 & H2)]; [by left|]. right. exists o'. split; [done|]. by eapply IH.
Qed.

Lemma ok_bind {A B} strict t o (p : proc S C A) (k : A -> proc S C B) Q : ok strict t o p (fun a o' => ok strict t o' (k a) Q) -> ok strict t o (pbind p k) Q.
Proof.
  revert o. induction p as [a|f IH] using proc_nested_ind; intros o; [done|]. cbn [ok pbind]. intros Hp s G Hi Ht Hs. specialize (Hp s G Hi Ht Hs).
  destruct (f s) as [[p|e| |u] s'|c] eqn:E; try done.
  - destruct Hp as [Hp|(o' & H1 & H2)]; [by left|]. right. exists o'. split; [done|]. by eapply IH.
  - destruct Hp as [Hp|(m & Hm & He)]; [by left|]. right. exists m. split; [|done]. by apply (pbind_next (Step f) k).
Qed.

Lemma ok_done {A} strict t o (a : A) (Q : A -> O -> Prop) : Q a o -> ok strict t o (Done a) Q. Proof. done. Qed.

(** A section. *)
Lemma ok_section {A} strict t o (m : M S A) Q :
  (forall s G, inv s G -> G !! t = Some o -> sleeps t s = false ->
     match m s with
     | (Ret a, s') => stop s' = true \/ exists o', inv s' (<[t := o']> G) /\ Q a o'
     | (Panic, _) => strict = false \/ excused (do! m in ret tt) s
     | _ => False
     end) -> ok strict t o (section m) Q.
Proof.
  intros Hm s G Hi Ht Hs. specialize (Hm s G Hi Ht Hs). destruct (m s) as [[] ?]; try done.
  destruct Hm as [Hm|Hm]; [by left|right]. eexists. split; [apply section_next|done].
Qed.

Lemma ok_waiting {A} strict t o (m : M S (A + C)) Q :
  (forall s G, inv s G -> G !! t = Some o -> sleeps t s = false ->
     match m s with
     | (Ret (inl a), s') => stop s' = true \/ exists o', inv s' (<[t := o']> G) /\ Q a o'
     | (Ret (inr c), _) => inv (enqueue (c, t) s) G
     | (Panic, _) => strict = false
     | _ => False
     end) -> ok strict t o (waiting m) Q.
Proof. intros Hm s G Hi Ht Hs. specialize (Hm s G Hi Ht Hs). destruct (m s) as [[[]| | |] ?]; try done. by left. Qed.

(** A section that only reads. *)
Lemma ok_read {A} strict t o (m : M S A) Q :
  (forall s G, inv s G -> G !! t = Some o -> exists a, m s = (Ret a, s) /\ Q a o) -> ok strict t o (section m) Q.
Proof.
  intros Hm. apply ok_section. intros s G Hi Ht _. destruct (Hm s G Hi Ht) as (a & -> & HQ). right. exists o. split; [|done]. by rewrite list_insert_id.
Qed.

Lemma ok_run_list {X} strict t o (f : X -> proc S C unit) l : (forall x, x ∈ l -> ok strict t o (f x) (fun _ o' => o' = o)) -> ok strict t o (run_list f l) (fun _ o' => o' = o).
Proof.
  induction l as [|x l IH]; intros Hl; [done|]. cbn [run_list]. apply ok_bind. eapply ok_mono; [apply Hl; by left|]. intros _ ? ->. apply IH. intros y Hy. apply Hl. by right.
Qed.

(** The threads own what the invariant says, and their programs keep it and end owning [o0]. *)
Record good (o0 : O) (strict : bool) (x : sys S C) (G : list O) : Prop := mk_good {
  gd_inv : inv (st x) G;
  gd_len : length G = length (thr x);
  gd_thr t p o : thr x !! t = Some p -> G !! t = Some o -> ok strict t o p (fun _ o' => o' = o0);
}.

(** A step of a thread from such a state. *)
Lemma good_step o0 strict x G t : good o0 strict x G ->
  match sys_step t x with
  | Some (Ret y) => stop (st y) = true \/ exists G', good o0 strict y G'
  | Some Panic => strict = false \/ exists p m, thr x !! t = Some p /\ next_section p m /\ excused m (st x)
  | Some _ => False
  | None => True
  end.
Proof.
  intros [I Hl Hp]. unfold sys_step. destruct (thr x !! t) as [[a|f]|] eqn:Et; [done| |done]. destruct (sleeps t (st x)) eqn:Esl; [done|].
  destruct (lookup_lt_is_Some_2 G t) as [o Ho]; [rewrite Hl; by eapply lookup_lt_Some|]. pose proof (Hp _ _ _ Et Ho) as Hs. cbn [ok] in Hs. specialize (Hs _ _ I Ho Esl).
  destruct (f (st x)) as [[p|e| |u] s'|c]; try done; cbn [st].
  - destruct Hs as [Hs|(o' & I' & Hs)]; [by left|]. right. exists (<[t := o']> G). split; [done|cbn; by rewrite !length_insert|]. cbn [thr]. intros t0 p0 o1 Hp0 Ho0. destruct (decide (t0 = t)) as [->|Hne].
    + rewrite list_lookup_insert_eq in Hp0 by (by eapply lookup_lt_Some). rewrite list_lookup_insert_eq in Ho0 by (by eapply lookup_lt_Some). by simplify_eq.
    + rewrite list_lookup_insert_ne in Hp0 by done. rewrite list_lookup_insert_ne in Ho0 by done. by eapply Hp.
  - destruct Hs as [Hs|(m & Hm & He)]; [by left|]. right. by exists (Step f), m.
  - right. exists G. by split.
Qed.

Lemma reaches_good o0 strict x0 G0 x : good o0 strict x0 G0 -> reaches stop x0 x -> exists G, good o0 strict x G.
Proof.
  intros H0. induction 1 as [|t x y _ [G Hg] Hs Hr]; [by exists G0|]. pose proof (good_step o0 strict x G t Hg) as Hst. rewrite Hs in Hst. destruct Hst as [Hst|Hst]; [congruence|done].
Qed.

(** Threads that are done own [o0]. *)
Lemma good_done o0 strict x G t o : good o0 strict x G -> thr x !! t = Some (Done tt) -> G !! t = Some o -> o = o0.
Proof. intros [_ _ Hp] Ht Ho. exact (Hp _ _ _ Ht Ho). Qed.
End Logic.

Arguments ok_mono {S C O _ inv stop excused A} strict t p P Q o.
Arguments good_done {S C O _ inv stop excused} o0 strict x G t o.
Arguments good_step {S C O _ inv stop excused} o0 strict x G t.
