(* ===== verification/TaManager.v ===== *)
(** * The TA manager

    optee_os/core/kernel/tee_ta_manager.c: contexts of loaded trusted applications and the sessions
    open on them, shared by the threads of the core. The mutex tee_ta_mutex protects the lists, the
    reference counts and the flags; a context is entered by one thread at a time (ctx->busy), the
    single-instance contexts together by one thread (the single-instance lock), a session is used
    by the thread that has it locked. With the loading of trusted applications
    (core/kernel/user_ta.c, pseudo_ta.c), the stacks of sessions of the threads (ts_manager.c) and
    the calls of the normal world and of trusted applications (core/tee/entry_std.c, tee_svc.c).

    A function is a [proc] of [Threads]: sections of code that run with the mutex held. Accesses outside the mutex are sections of their
    own. In two places other threads may run where the code keeps the mutex: between the registration
    of a new session and the search for its context, and before a thread waits for a locked session;
    the model has the interleavings of the code and more.

    What a trusted application does when it is entered is a parameter, [ts_ops] below: any calls of the
    TA manager, a panic, any result. So are the outcomes of allocations and of the loading of a user TA
    (ldelf), and the declared pseudo TAs. The configuration is that without
    CFG_CONCURRENT_SINGLE_INSTANCE_TA, CFG_SECURE_DATA_PATH, secure partitions, ftrace and gprof.
    Assertions are checked. *)
From S2P Require Import Prelude Threads.
From stdpp Require Import gmap.
Local Open Scope Z_scope.

(** ** Constants *)

Definition TA_FLAG_SINGLE_INSTANCE : Z := 2 ^ 2.
Definition TA_FLAG_MULTI_SESSION : Z := 2 ^ 3.
Definition TA_FLAG_INSTANCE_KEEP_ALIVE : Z := 2 ^ 4.
Definition TA_FLAG_CONCURRENT : Z := 2 ^ 8.
Definition TA_FLAG_INSTANCE_KEEP_CRASHED : Z := 2 ^ 13.

Definition TEE_ERROR_ACCESS_DENIED : Z := 0xFFFF0001.
Definition TEE_ERROR_BUSY : Z := 0xFFFF000D.
Definition TEE_ERROR_OVERFLOW : Z := 0xFFFF300F.
Definition TEE_ERROR_TARGET_DEAD : Z := 0xFFFF3024.
Definition TEE_LOGIN_TRUSTED_APP : Z := 0xF0000000.
Definition TEE_TIMEOUT_INFINITE : Z := 0xFFFFFFFF.
Definition UINT32_MAX : Z := 0xFFFFFFFF.

(** ** State *)

(** Addresses of contexts and of sessions; numbers of threads. *)
Abbreviation addr := positive.
Abbreviation tid := nat.

(** [struct tee_ta_ctx]; the condition variable is [BusyCv]. [is_user]: the operations of the
    context are [user_ta_ops]. *)
Record tee_ta_ctx := mk_ctx {
  uuid : Z;
  flags : Z;
  panicked : bool;
  c_ref_count : Z;
  busy : bool;
  is_initializing : bool;
  is_releasing : bool;
  is_user : bool;
}.

(** TEE_Time: seconds and milliseconds. TEE_Identity: login method and UUID. *)
Record TEE_Time := mk_time { seconds : Z; millis : Z }.
Record TEE_Identity := mk_identity { login : Z; id_uuid : Z }.
#[global] Instance TEE_Identity_eq_dec : EqDecision TEE_Identity.
Proof. solve_decision. Defined.

(** [struct tee_ta_session]; [lock_thread] is [None] for THREAD_ID_INVALID, [s_ctx] for NULL. *)
Record tee_ta_session := mk_sess {
  id : Z;
  s_ctx : option addr;
  clnt_id : TEE_Identity;
  has_param : bool;
  cancel : bool;
  cancel_mask : bool;
  cancel_time : TEE_Time;
  s_ref_count : Z;
  lock_thread : option tid;
  unlink : bool;
}.

(** The lists of open sessions: that of the normal world, and one in the context of each user TA. *)
Inductive head := Nsec | Utc (c : addr).
#[global] Instance head_eq_dec : EqDecision head.
Proof. solve_decision. Defined.
#[global] Instance head_countable : Countable head.
Proof. refine (inj_countable' (fun h => match h with Nsec => None | Utc c => Some c end) (fun o => match o with None => Nsec | Some c => Utc c end) _). by intros []. Defined.

Inductive cvar := TeeTaCv | InitCv | BusyCv (c : addr) | LockCv (a : addr) | RefcCv (a : addr).
#[global] Instance cvar_eq_dec : EqDecision cvar.
Proof. solve_decision. Defined.

(** [cvq]: threads that wait and have not been woken. [raced] is no state of the code: it records
    that a session was freed while another thread had a reference to it. *)
Record tam := mk_tam {
  ctxs : gmap addr tee_ta_ctx;
  sessions : gmap addr tee_ta_session;
  tee_ctxes : list addr;
  open_sessions : gmap head (list addr);
  tee_ta_single_instance_thread : option tid;
  tee_ta_single_instance_count : Z;
  sess_stack : gmap tid (list addr);
  cvq : list (cvar * tid);
  raced : bool;
}.

(** Programs of threads on this state. *)
Abbreviation proc := (Threads.proc tam cvar).

(** ** Memory *)

Definition the_ctx (c : addr) : M tam tee_ta_ctx := let! s := get in of_opt UseAfterFree (ctxs s !! c).
Definition the_session (a : addr) : M tam tee_ta_session := let! s := get in of_opt UseAfterFree (sessions s !! a).

Definition put_ctxs (f : gmap addr tee_ta_ctx -> gmap addr tee_ta_ctx) : M tam unit := modify (fun s =>
  mk_tam (f (ctxs s)) (sessions s) (tee_ctxes s) (open_sessions s) (tee_ta_single_instance_thread s) (tee_ta_single_instance_count s) (sess_stack s) (cvq s) (raced s)).
Definition put_sessions (f : gmap addr tee_ta_session -> gmap addr tee_ta_session) : M tam unit := modify (fun s =>
  mk_tam (ctxs s) (f (sessions s)) (tee_ctxes s) (open_sessions s) (tee_ta_single_instance_thread s) (tee_ta_single_instance_count s) (sess_stack s) (cvq s) (raced s)).
Definition put_tee_ctxes (f : list addr -> list addr) : M tam unit := modify (fun s =>
  mk_tam (ctxs s) (sessions s) (f (tee_ctxes s)) (open_sessions s) (tee_ta_single_instance_thread s) (tee_ta_single_instance_count s) (sess_stack s) (cvq s) (raced s)).
Definition put_open_sessions (h : head) (l : list addr) : M tam unit := modify (fun s =>
  mk_tam (ctxs s) (sessions s) (tee_ctxes s) (<[h := l]> (open_sessions s)) (tee_ta_single_instance_thread s) (tee_ta_single_instance_count s) (sess_stack s) (cvq s) (raced s)).
Definition put_single_instance (t : option tid) (n : Z) : M tam unit := modify (fun s =>
  mk_tam (ctxs s) (sessions s) (tee_ctxes s) (open_sessions s) t n (sess_stack s) (cvq s) (raced s)).
Definition put_stack (t : tid) (l : list addr) : M tam unit := modify (fun s =>
  mk_tam (ctxs s) (sessions s) (tee_ctxes s) (open_sessions s) (tee_ta_single_instance_thread s) (tee_ta_single_instance_count s) (<[t := l]> (sess_stack s)) (cvq s) (raced s)).
Definition put_cvq (f : list (cvar * tid) -> list (cvar * tid)) : M tam unit := modify (fun s =>
  mk_tam (ctxs s) (sessions s) (tee_ctxes s) (open_sessions s) (tee_ta_single_instance_thread s) (tee_ta_single_instance_count s) (sess_stack s) (f (cvq s)) (raced s)).
Definition put_raced (b : bool) : M tam unit := modify (fun s =>
  mk_tam (ctxs s) (sessions s) (tee_ctxes s) (open_sessions s) (tee_ta_single_instance_thread s) (tee_ta_single_instance_count s) (sess_stack s) (cvq s) (raced s || b)).

Definition upd_ctx (c : addr) (f : tee_ta_ctx -> tee_ta_ctx) : M tam unit := let! x := the_ctx c in put_ctxs (<[c := f x]>).
Definition upd_session (a : addr) (f : tee_ta_session -> tee_ta_session) : M tam unit := let! x := the_session a in put_sessions (<[a := f x]>).

Definition set_busy (b : bool) (x : tee_ta_ctx) := mk_ctx (uuid x) (flags x) (panicked x) (c_ref_count x) b (is_initializing x) (is_releasing x) (is_user x).
Definition set_panicked (x : tee_ta_ctx) := mk_ctx (uuid x) (flags x) true (c_ref_count x) (busy x) (is_initializing x) (is_releasing x) (is_user x).
Definition add_ctx_ref (n : Z) (x : tee_ta_ctx) := mk_ctx (uuid x) (flags x) (panicked x) (u32 (c_ref_count x + n)) (busy x) (is_initializing x) (is_releasing x) (is_user x).
Definition set_initialized (f : Z) (x : tee_ta_ctx) := mk_ctx (uuid x) f (panicked x) (c_ref_count x) (busy x) false (is_releasing x) (is_user x).
Definition set_releasing (x : tee_ta_ctx) := mk_ctx (uuid x) (flags x) (panicked x) (c_ref_count x) (busy x) (is_initializing x) true (is_user x).

Definition set_ctx (c : option addr) (x : tee_ta_session) := mk_sess (id x) c (clnt_id x) (has_param x) (cancel x) (cancel_mask x) (cancel_time x) (s_ref_count x) (lock_thread x) (unlink x).
Definition set_clnt_id (i : TEE_Identity) (x : tee_ta_session) := mk_sess (id x) (s_ctx x) i (has_param x) (cancel x) (cancel_mask x) (cancel_time x) (s_ref_count x) (lock_thread x) (unlink x).
Definition set_param (b : bool) (x : tee_ta_session) := mk_sess (id x) (s_ctx x) (clnt_id x) b (cancel x) (cancel_mask x) (cancel_time x) (s_ref_count x) (lock_thread x) (unlink x).
Definition set_cancel (x : tee_ta_session) := mk_sess (id x) (s_ctx x) (clnt_id x) (has_param x) true (cancel_mask x) (cancel_time x) (s_ref_count x) (lock_thread x) (unlink x).
Definition set_cancel_time (tm : TEE_Time) (x : tee_ta_session) := mk_sess (id x) (s_ctx x) (clnt_id x) (has_param x) (cancel x) (cancel_mask x) tm (s_ref_count x) (lock_thread x) (unlink x).
Definition add_ref (n : Z) (x : tee_ta_session) := mk_sess (id x) (s_ctx x) (clnt_id x) (has_param x) (cancel x) (cancel_mask x) (cancel_time x) (u32 (s_ref_count x + n)) (lock_thread x) (unlink x).
Definition set_lock (t : option tid) (x : tee_ta_session) := mk_sess (id x) (s_ctx x) (clnt_id x) (has_param x) (cancel x) (cancel_mask x) (cancel_time x) (s_ref_count x) t (unlink x).
Definition set_cancel_mask (b : bool) (x : tee_ta_session) := mk_sess (id x) (s_ctx x) (clnt_id x) (has_param x) (cancel x) b (cancel_time x) (s_ref_count x) (lock_thread x) (unlink x).
Definition reset_cancel (x : tee_ta_session) := mk_sess (id x) (s_ctx x) (clnt_id x) (has_param x) false true (cancel_time x) (s_ref_count x) (lock_thread x) (unlink x).
Definition set_unlink (x : tee_ta_session) := mk_sess (id x) (s_ctx x) (clnt_id x) (has_param x) (cancel x) (cancel_mask x) (cancel_time x) (s_ref_count x) (lock_thread x) true.

(** ** Condition variables *)

Fixpoint wake_one (c : cvar) (l : list (cvar * tid)) : list (cvar * tid) :=
  match l with
  | [] => []
  | w :: r => if bool_decide (fst w = c) then r else w :: wake_one c r
  end.
Definition condvar_signal (c : cvar) : M tam unit := put_cvq (wake_one c).
Definition condvar_broadcast (c : cvar) : M tam unit := put_cvq (List.filter (fun w => negb (bool_decide (fst w = c)))).

(** ** The single-instance lock *)

(** [inr]: it has to be waited for. *)
Definition lock_single_instance (t : tid) : M tam (unit + cvar) :=
  let! s := get in
  if bool_decide (tee_ta_single_instance_thread s = Some t) then
    do! put_single_instance (Some t) (tee_ta_single_instance_count s + 1) in ret (inl tt)
  else match tee_ta_single_instance_thread s with
  | Some _ => ret (inr TeeTaCv)
  | None =>
      do! assert_ (tee_ta_single_instance_count s =? 0) in
      do! put_single_instance (Some t) (tee_ta_single_instance_count s + 1) in ret (inl tt)
  end.

Definition unlock_single_instance (t : tid) : M tam unit :=
  let! s := get in
  do! assert_ (bool_decide (tee_ta_single_instance_thread s = Some t)) in
  do! assert_ (0 <? tee_ta_single_instance_count s) in
  let n := tee_ta_single_instance_count s - 1 in
  if n =? 0 then do! put_single_instance None n in condvar_signal TeeTaCv
  else put_single_instance (Some t) n.

Definition has_single_instance_lock (t : tid) : M tam bool :=
  let! s := get in ret (bool_decide (tee_ta_single_instance_thread s = Some t)).

(** ** Entering a context *)

(** The flags of a context do not change once it is initialised: the test before the mutex is taken
    is part of the section. *)
Definition tee_ta_try_set_busy (t : tid) (c : addr) : proc bool := waiting (
    let! x := the_ctx c in
    if has (flags x) TA_FLAG_CONCURRENT then ret (inl true) else
    let single := has (flags x) TA_FLAG_SINGLE_INSTANCE in
    let! w := (if single then lock_single_instance t else ret (inl tt)) in
    match w with
    | inr cv => ret (inr cv)
    | inl _ =>
        let! mine := has_single_instance_lock t in
        if mine then
          let rc := negb (busy x) in
          do! (if busy x && single then unlock_single_instance t else ret tt) in
          do! upd_ctx c (set_busy true) in ret (inl rc)
        else if busy x then ret (inr (BusyCv c))
        else do! upd_ctx c (set_busy true) in ret (inl true)
    end).

Definition tee_ta_set_busy (t : tid) (c : addr) : proc unit :=
  let* ok := tee_ta_try_set_busy t c in
  if ok then Done tt else section panic.

Definition tee_ta_clear_busy (t : tid) (c : addr) : proc unit := section (
    let! x := the_ctx c in
    if has (flags x) TA_FLAG_CONCURRENT then ret tt else
    do! assert_ (busy x) in
    do! upd_ctx c (set_busy false) in
    do! condvar_signal (BusyCv c) in
    if has (flags x) TA_FLAG_SINGLE_INSTANCE then unlock_single_instance t else ret tt).

(** ** References to sessions *)

Definition dec_session_ref_count (a : addr) : M tam unit :=
  let! x := the_session a in
  do! assert_ (0 <? s_ref_count x) in
  do! upd_session a (add_ref (-1)) in
  if s_ref_count x - 1 =? 1 then condvar_signal (RefcCv a) else ret tt.

Definition tee_ta_put_session (t : tid) (a : addr) : proc unit := section (
  let! x := the_session a in
  do! (if bool_decide (lock_thread x = Some t) then
    do! upd_session a (set_lock None) in condvar_signal (LockCv a)
  else ret tt) in
  dec_session_ref_count a).

(** The head of a list in a context is memory of that context. *)
Definition sessions_of (h : head) : M tam (list addr) :=
  do! match h with Nsec => ret tt | Utc c => do! the_ctx c in ret tt end in
  let! s := get in ret (default [] (open_sessions s !! h)).

Fixpoint find_id (i : Z) (l : list addr) : M tam (option addr) :=
  match l with
  | [] => ret None
  | a :: r => let! x := the_session a in if id x =? i then ret (Some a) else find_id i r
  end.

Definition tee_ta_find_session_nolock (i : Z) (h : head) : M tam (option addr) :=
  let! l := sessions_of h in find_id i l.

Definition tee_ta_find_session (i : Z) (h : head) : proc (option addr) := section (tee_ta_find_session_nolock i h).

(** [None]: NULL. The first section, up to the wait; then the rest. *)
Definition tee_ta_get_session (t : tid) (i : Z) (exclusive : bool) (h : head) : proc (option addr) :=
  let* r := section (
    let! f := tee_ta_find_session_nolock i h in
    match f with
    | None => ret (inl None)
    | Some a =>
        let! x := the_session a in
        if unlink x then ret (inl None) else
        do! upd_session a (add_ref 1) in
        if negb exclusive then ret (inl (Some a)) else
        do! assert_ (negb (bool_decide (lock_thread x = Some t))) in
        match lock_thread x with
        | None => do! upd_session a (set_lock (Some t)) in ret (inl (Some a))
        | Some _ => ret (inr a)
        end
    end) in
  match r with
  | inl o => Done o
  | inr a => waiting (
      let! x := the_session a in
      if bool_decide (lock_thread x <> None) && negb (unlink x) then ret (inr (LockCv a)) else
      if unlink x then do! dec_session_ref_count a in ret (inl None) else
      do! upd_session a (set_lock (Some t)) in ret (inl (Some a)))
  end.

(** [TAILQ_REMOVE()] of an element that is not in the list is undefined. *)
Definition TAILQ_REMOVE (x : addr) (l : list addr) : M tam (list addr) :=
  if bool_decide (x ∈ l) then ret (List.filter (fun y => negb (bool_decide (y = x))) l) else undef UseAfterFree.

(** The session leaves its list and is freed; nobody else has a reference. *)
Definition remove_session (a : addr) (h : head) : M tam unit :=
  let! l := sessions_of h in
  let! l' := TAILQ_REMOVE a l in
  do! put_open_sessions h l' in
  do! the_session a in
  put_sessions (delete a).

(** [tee_ta_unlink_session()] and the [free()] that follows it. *)
Definition destroy_session (t : tid) (a : addr) (h : head) : proc unit :=
  do* section (
    let! x := the_session a in
    do! assert_ (1 <=? s_ref_count x) in
    do! assert_ (bool_decide (lock_thread x = Some t)) in
    do! assert_ (negb (unlink x)) in
    do! upd_session a set_unlink in
    condvar_broadcast (LockCv a)) in
  waiting (
    let! x := the_session a in
    if negb (s_ref_count x =? 1) then ret (inr (RefcCv a)) else
    do! remove_session a h in ret (inl tt)).

(** ** Clients and time *)

Inductive requester := KERN_IDENTITY | NSAPP_IDENTITY | Client (i : TEE_Identity).

Definition check_client (x : tee_ta_session) (who : requester) : Z :=
  match who with
  | KERN_IDENTITY => TEE_SUCCESS
  | NSAPP_IDENTITY => if login (clnt_id x) =? TEE_LOGIN_TRUSTED_APP then TEE_ERROR_ACCESS_DENIED else TEE_SUCCESS
  | Client i => if bool_decide (clnt_id x = i) then TEE_SUCCESS else TEE_ERROR_ACCESS_DENIED
  end.

(** Without CFG_SECURE_DATA_PATH. *)
Definition check_params : bool := true.

(** The time stored by [set_invoke_timeout()]; [now] is what tee_time_get_sys_time() gives. *)
Definition cancel_at (now : option TEE_Time) (cancel_req_to : Z) : TEE_Time :=
  let infinite := mk_time UINT32_MAX UINT32_MAX in
  if cancel_req_to =? TEE_TIMEOUT_INFINITE then infinite else
  match now with
  | None => infinite
  | Some cur =>
      let '(o, secs) := add_overflow 32 (seconds cur) (cancel_req_to / 1000) in
      if o then infinite else
      let ms := u32 (millis cur + cancel_req_to mod 1000) in
      if 1000 <? ms then
        let '(o, secs) := add_overflow 32 (seconds cur) 1 in
        if o then infinite else mk_time (u32 (secs + 1)) (ms - 1000)
      else mk_time secs ms
  end.

Definition set_invoke_timeout (a : addr) (now : option TEE_Time) (cancel_req_to : Z) : proc unit :=
  section (upd_session a (set_cancel_time (cancel_at now cancel_req_to))).

Definition tee_ta_session_is_cancelled (x : tee_ta_session) (now : option TEE_Time) : bool :=
  if cancel_mask x then false else if cancel x then true else
  if seconds (cancel_time x) =? UINT32_MAX then false else
  match now with
  | None => false
  | Some cur => (seconds (cancel_time x) <? seconds cur) || ((seconds cur =? seconds (cancel_time x)) && (millis (cancel_time x) <=? millis cur))
  end.

(** ** Closing *)

(** What a context runs: [enter] the code of the trusted application, with the session that is
    entered; [release] and [destroy] the release of its state. *)
Record ts_ops := mk_ops {
  enter : addr -> addr -> proc Z;
  enter_close : addr -> addr -> proc unit;
  release : addr -> proc unit;
}.

(** [ts_push_current_session()], [ts_pop_current_session()] *)
Definition ts_push_current_session (t : tid) (a : addr) : proc unit := section (
  do! the_session a in
  let! s := get in put_stack t (a :: default [] (sess_stack s !! t))).
Definition ts_pop_current_session (t : tid) : proc unit := section (
  let! s := get in put_stack t (tail (default [] (sess_stack s !! t)))).

Definition inside {A} (t : tid) (a : addr) (body : proc A) : proc A :=
  do* ts_push_current_session t a in
  let* r := body in
  do* ts_pop_current_session t in
  Done r.

(** The entry of a trusted application, [user_ta_enter()] or the functions of pseudo TAs: a user TA
    has no cancellation pending when it is left. *)
Definition enter_ta {A} (t : tid) (a c : addr) (body : proc A) : proc A :=
  let* r := inside t a body in
  do* section (let! y := the_ctx c in if is_user y then upd_session a reset_cancel else ret tt) in
  Done r.

Definition keep_alive (x : tee_ta_ctx) : bool := has (flags x) TA_FLAG_SINGLE_INSTANCE && has (flags x) TA_FLAG_INSTANCE_KEEP_ALIVE.
Definition keep_crashed (x : tee_ta_ctx) : bool := keep_alive x && has (flags x) TA_FLAG_INSTANCE_KEEP_CRASHED.

(** [TAILQ_REMOVE(&tee_ctxes, ctx, link)] *)
Definition unlist_ctx (c : addr) : M tam unit :=
  let! s := get in
  let! l := TAILQ_REMOVE c (tee_ctxes s) in
  put_tee_ctxes (fun _ => l).

(** [ops->destroy()]: the state is released and the context freed. *)
Definition destroy_context (ops : ts_ops) (c : addr) : proc unit :=
  do* release ops c in
  section (do! the_ctx c in put_ctxs (delete c)).

(** The last part of [close_session()]: the reference to the context is given back. *)
Definition put_context (ops : ts_ops) (c : addr) : proc unit :=
  let* last := section (
    let! x := the_ctx c in
    do! assert_ (0 <? c_ref_count x) in
    do! upd_ctx c (add_ctx_ref (-1)) in
    if (c_ref_count x - 1 =? 0) && (panicked x && negb (keep_crashed x) || negb (keep_alive x)) then
      do! (if negb (is_releasing x) then do! unlist_ctx c in upd_ctx c set_releasing else ret tt) in
      ret true
    else ret false) in
  if last then destroy_context ops c else Done tt.

Definition close_session (ops : ts_ops) (t : tid) (a : addr) (h : head) : proc unit :=
  let* x := section (the_session a) in
  match s_ctx x with
  | None => destroy_session t a h
  | Some c =>
      let* y := section (the_ctx c) in
      do* (if panicked y then destroy_session t a h
      else
        do* tee_ta_set_busy t c in
        do* set_invoke_timeout a None TEE_TIMEOUT_INFINITE in
        do* enter_ta t a c (enter_close ops a c) in
        do* destroy_session t a h in
        tee_ta_clear_busy t c) in
      put_context ops c
  end.

Definition tee_ta_close_session (ops : ts_ops) (t : tid) (i : Z) (h : head) (who : requester) : proc Z :=
  let* sess := tee_ta_get_session t i true h in
  match sess with
  | None => Done TEE_ERROR_ITEM_NOT_FOUND
  | Some a =>
      let* x := section (the_session a) in
      if negb (check_client x who =? TEE_SUCCESS) then
        do* tee_ta_put_session t a in Done TEE_ERROR_BAD_PARAMETERS
      else
        do* close_session ops t a h in Done TEE_SUCCESS
  end.

(** ** Opening *)

Fixpoint find_uuid (u : Z) (l : list addr) : M tam (option addr) :=
  match l with
  | [] => ret None
  | c :: r => let! x := the_ctx c in if uuid x =? u then ret (Some c) else find_uuid u r
  end.
Definition tee_ta_context_find (u : Z) : M tam (option addr) := let! s := get in find_uuid u (tee_ctxes s).

(** [inr]: the context is being initialised and has to be waited for. *)
Definition tee_ta_init_session_with_context (a : addr) (u : Z) : M tam (Z + cvar) :=
  let! f := tee_ta_context_find u in
  match f with
  | None => ret (inl TEE_ERROR_ITEM_NOT_FOUND)
  | Some c =>
      let! x := the_ctx c in
      if is_initializing x then ret (inr InitCv) else
      if negb (has (flags x) TA_FLAG_SINGLE_INSTANCE) then ret (inl TEE_ERROR_ITEM_NOT_FOUND) else
      if negb (has (flags x) TA_FLAG_MULTI_SESSION) && negb (c_ref_count x =? 0) then ret (inl TEE_ERROR_BUSY) else
      do! upd_ctx c (add_ctx_ref 1) in
      do! upd_session a (set_ctx (Some c)) in
      ret (inl TEE_SUCCESS)
  end.

Fixpoint next_id (fuel : nat) (saved i : Z) (h : head) : M tam Z :=
  match fuel with
  | O => undef OutOfFuel
  | S k =>
      let! f := tee_ta_find_session_nolock i h in
      match f with
      | None => ret i
      | Some _ =>
          let i := u32 (i + 1) in
          let i := if i =? 0 then 1 else i in
          if i =? saved then ret 0 else next_id k saved i h
      end
  end.

(** Each turn but the last finds another session of the list. *)
Definition new_session_id (h : head) : M tam Z :=
  let! l := sessions_of h in
  let! first := match last l with
    | Some a => let! x := the_session a in let i := u32 (id x + 1) in ret (if i =? 0 then 1 else i)
    | None => ret 1
    end in
  next_id (S (length l)) first first h.

(** The addresses of new objects. That of a context was never the address of another, so that a
    use of a context that has been freed is always undefined in the model. *)
Definition contexts_so_far (s : tam) : gset addr :=
  dom (ctxs s) ∪ list_to_set (omap (fun p => match fst p with Utc c => Some c | Nsec => None end) (map_to_list (open_sessions s))).
Definition new_session (s : tam) : addr := fresh (dom (sessions s)).
Definition new_context (s : tam) : addr := fresh (contexts_so_far s).

(** The declared pseudo TAs (UUID and flags), and what the loading of a TA meets: whether memory
    is found for the session, the result of setting up a user TA (or of the allocation of a
    pseudo TA), that of ldelf and the flags it finds. *)
Record loading := mk_loading { calloc_ok : bool; setup : Z; ldelf : Z; ta_flags : Z }.

(** The first part of [tee_ta_init_session()]: the session is registered. *)
Definition add_session (t : tid) (h : head) : M tam (Z + addr) :=
  let! i := new_session_id h in
  if i =? 0 then ret (inl TEE_ERROR_OVERFLOW) else
  let! s := get in
  let a := new_session s in
  do! put_sessions (<[a := mk_sess i None (mk_identity 0 0) false false true (mk_time 0 0) 1 (Some t) false]>) in
  let! l := sessions_of h in
  do! put_open_sessions h (l ++ [a]) in
  ret (inr a).

Definition add_context (a : addr) (u f : Z) (initializing user : bool) : M tam addr :=
  let! s := get in
  let c := new_context s in
  do! put_ctxs (<[c := mk_ctx u f false 1 false initializing false user]>) in
  do! put_open_sessions (Utc c) [] in
  do! upd_session a (set_ctx (Some c)) in
  do! put_tee_ctxes (fun l => l ++ [c]) in
  ret c.

Definition tee_ta_init_pseudo_ta_session (pseudo_tas : list (Z * Z)) (ld : loading) (a : addr) (u : Z) : M tam Z :=
  match List.find (fun p => fst p =? u) pseudo_tas with
  | None => ret TEE_ERROR_ITEM_NOT_FOUND
  | Some (_, f) => if negb (setup ld =? TEE_SUCCESS) then ret TEE_ERROR_OUT_OF_MEMORY else do! add_context a u f false false in ret TEE_SUCCESS
  end.

Definition tee_ta_init_user_ta_session (ld : loading) (a : addr) (u : Z) : M tam (Z + addr) :=
  if negb (setup ld =? TEE_SUCCESS) then ret (inl (setup ld)) else
  let! c := add_context a u 0 true true in ret (inr c).

(** The search for the context, in the order of the code (no secure partition is configured). A
    user TA that has to be loaded is [inr]. *)
Definition find_context (pseudo_tas : list (Z * Z)) (ld : loading) (a : addr) (u : Z) : M tam ((Z + addr) + cvar) :=
  let! r := tee_ta_init_session_with_context a u in
  match r with
  | inr cv => ret (inr cv)
  | inl res =>
      if negb (res =? TEE_ERROR_ITEM_NOT_FOUND) then ret (inl (inl res)) else
      let! res := tee_ta_init_pseudo_ta_session pseudo_tas ld a u in
      if negb (res =? TEE_ERROR_ITEM_NOT_FOUND) then ret (inl (inl res)) else
      let! r := tee_ta_init_user_ta_session ld a u in ret (inl r)
  end.

Definition tee_ta_complete_user_ta_session (t : tid) (ld : loading) (a c : addr) : proc Z :=
  do* inside t a (Done tt) in
  section (
    do! (if ldelf ld =? TEE_SUCCESS then upd_ctx c (set_initialized (ta_flags ld))
    else
      do! upd_session a (set_ctx None) in
      do! unlist_ctx c in
      do! the_ctx c in
      put_ctxs (delete c)) in
    do! condvar_broadcast InitCv in
    ret (ldelf ld)).

(** The new session, or the error. *)
Definition tee_ta_init_session (pseudo_tas : list (Z * Z)) (ld : loading) (t : tid) (h : head) (u : Z) : proc (Z + addr) :=
  if negb (calloc_ok ld) then Done (inl TEE_ERROR_OUT_OF_MEMORY) else
  let* r := section (add_session t h) in
  match r with
  | inl e => Done (inl e)
  | inr a =>
      let* f := waiting (find_context pseudo_tas ld a u) in
      let* res := match f with inl res => Done res | inr c => tee_ta_complete_user_ta_session t ld a c end in
      if res =? TEE_SUCCESS then Done (inr a) else
      do* section (
        let! x := the_session a in
        do! remove_session a h in
        put_raced (negb (s_ref_count x =? 1))) in
      Done (inl res)
  end.

Definition maybe_release_ta_ctx (ops : ts_ops) (c : addr) : proc unit :=
  let* x := section (the_ctx c) in
  if keep_crashed x then Done tt else
  let* was_releasing := section (
    let! x := the_ctx c in
    do! upd_ctx c set_releasing in
    do! (if is_releasing x then ret tt else unlist_ctx c) in
    ret (is_releasing x)) in
  if was_releasing then Done tt else release ops c.

(** [ts_to_ta_ctx(sess->ts_sess.ctx)] *)
Definition ctx_of (a : addr) : proc addr := section (
  let! x := the_session a in of_opt UseAfterFree (s_ctx x)).

(** The context has been entered: run the TA unless it has panicked; [None] if it has. *)
Definition run_ta (ops : ts_ops) (t : tid) (a c : addr) (clnt : option TEE_Identity) (now : option TEE_Time) (to : Z) : proc (option Z) :=
  let* y := section (the_ctx c) in
  let* res := (if panicked y then Done TEE_SUCCESS else
    do* section (match clnt with Some i => upd_session a (set_clnt_id i) | None => ret tt end) in
    do* section (upd_session a (set_param true)) in
    do* set_invoke_timeout a now to in
    let* res := enter_ta t a c (enter ops a c) in
    do* section (upd_session a (set_param false)) in
    Done res) in
  let* y := section (the_ctx c) in
  if panicked y then do* maybe_release_ta_ctx ops c in Done None else Done (Some res).

(** The id of the new session is read before it is put. *)
Definition tee_ta_open_session (pseudo_tas : list (Z * Z)) (ld : loading) (ops : ts_ops) (t : tid) (h : head) (u : Z) (clnt : TEE_Identity) (now : option TEE_Time) (to : Z) : proc (Z + Z) :=
  let* r := tee_ta_init_session pseudo_tas ld t h u in
  match r with
  | inl e => Done (inl e)
  | inr a =>
      if negb check_params then do* close_session ops t a h in Done (inl TEE_ERROR_BAD_PARAMETERS) else
      let* c := ctx_of a in
      let* ok := tee_ta_try_set_busy t c in
      let* res := (if ok then
        let* r := run_ta ops t a c (Some clnt) now to in
        do* tee_ta_clear_busy t c in
        Done (default TEE_ERROR_TARGET_DEAD r)
      else Done TEE_ERROR_BUSY) in
      if negb (res =? TEE_SUCCESS) then do* close_session ops t a h in Done (inl res)
      else
        let* x := section (the_session a) in
        do* tee_ta_put_session t a in
        Done (inr (id x))
  end.

(** ** Commands *)

Definition tee_ta_invoke_command (ops : ts_ops) (t : tid) (a : addr) (who : requester) (now : option TEE_Time) (to : Z) : proc Z :=
  let* x := section (the_session a) in
  if negb (check_client x who =? TEE_SUCCESS) then Done TEE_ERROR_BAD_PARAMETERS else
  if negb check_params then Done TEE_ERROR_BAD_PARAMETERS else
  let* c := ctx_of a in
  do* tee_ta_set_busy t c in
  let* r := run_ta ops t a c None now to in
  do* tee_ta_clear_busy t c in
  Done (default TEE_ERROR_TARGET_DEAD r).

Definition tee_ta_cancel_command (a : addr) (who : requester) : proc Z := section (
  let! x := the_session a in
  if negb (check_client x who =? TEE_SUCCESS) then ret TEE_ERROR_BAD_PARAMETERS else
  do! upd_session a set_cancel in ret TEE_SUCCESS).

(** [entry_invoke_command()], [syscall_invoke_ta_command()]: the session is looked up, used, put. *)
Definition invoke_command (ops : ts_ops) (t : tid) (i : Z) (h : head) (who : requester) (now : option TEE_Time) (to : Z) : proc Z :=
  let* s := tee_ta_get_session t i true h in
  match s with
  | None => Done TEE_ERROR_BAD_PARAMETERS
  | Some a =>
      let* res := tee_ta_invoke_command ops t a who now to in
      do* tee_ta_put_session t a in Done res
  end.

Definition entry_cancel (t : tid) (i : Z) : proc Z :=
  let* s := tee_ta_get_session t i false Nsec in
  match s with
  | None => Done TEE_ERROR_BAD_PARAMETERS
  | Some a =>
      let* res := tee_ta_cancel_command a NSAPP_IDENTITY in
      do* tee_ta_put_session t a in Done res
  end.

(** The cancellation calls of a trusted application, on the current session. *)
Definition ts_get_current_session (t : tid) : M tam addr :=
  let! s := get in match default [] (sess_stack s !! t) with a :: _ => ret a | [] => panic end.

Definition syscall_get_cancellation_flag (t : tid) (now : option TEE_Time) : proc bool := section (
  let! a := ts_get_current_session t in
  let! x := the_session a in
  ret (tee_ta_session_is_cancelled x now)).

(** [syscall_mask_cancellation()] and [syscall_unmask_cancellation()] *)
Definition syscall_set_cancel_mask (t : tid) (b : bool) : proc bool := section (
  let! a := ts_get_current_session t in
  let! x := the_session a in
  do! upd_session a (set_cancel_mask b) in
  ret (cancel_mask x)).

(** ** Statistics of the loaded user TAs *)

Definition MAX_DUMP_SESS_NUM : nat := 16.
Definition sizeof_pta_stats_ta : Z := 88.

(** [struct tee_ta_dump_ctx]; [sess_num] is the number of identifiers. *)
Record tee_ta_dump_ctx := mk_dump { d_uuid : Z; d_panicked : bool; d_sess_id : list Z }.

(** The user TAs of the list of contexts. *)
Fixpoint user_ctxs (l : list addr) : M tam (list addr) :=
  match l with
  | [] => ret []
  | c :: r => let! x := the_ctx c in let! k := user_ctxs r in ret (if is_user x then c :: k else k)
  end.

Fixpoint dump_sessions (n : nat) (c : addr) (l : list addr) : M tam (list Z) :=
  match l with
  | [] => ret []
  | a :: r =>
      let! x := the_session a in
      if bool_decide (s_ctx x = Some c) then
        match n with O => ret [] | S n => let! k := dump_sessions n c r in ret (id x :: k) end
      else dump_sessions n c r
  end.

Fixpoint init_dump_ctx (l : list addr) : M tam (list tee_ta_dump_ctx) :=
  match l with
  | [] => ret []
  | c :: r =>
      let! x := the_ctx c in
      let! open := sessions_of Nsec in
      let! ids := dump_sessions MAX_DUMP_SESS_NUM c open in
      let! k := init_dump_ctx r in
      ret (mk_dump (uuid x) (panicked x) ids :: k)
  end.

Definition dump_ta_memstats (ops : ts_ops) (t : tid) (a : addr) : proc Z :=
  let* x := section (the_session a) in
  match s_ctx x with
  | None => Done TEE_ERROR_ITEM_NOT_FOUND
  | Some c =>
      let* y := section (the_ctx c) in
      if is_initializing y then Done TEE_ERROR_BAD_STATE else
      let* ok := tee_ta_try_set_busy t c in
      if ok then
        let* r := run_ta ops t a c None None TEE_TIMEOUT_INFINITE in
        do* tee_ta_clear_busy t c in
        Done (default TEE_ERROR_TARGET_DEAD r)
      else Done TEE_ERROR_BUSY
  end.

(** The first of the sessions that still exists. *)
Fixpoint first_session (t : tid) (ids : list Z) : proc (option addr) :=
  match ids with
  | [] => Done None
  | i :: r => let* s := tee_ta_get_session t i true Nsec in match s with Some a => Done (Some a) | None => first_session t r end
  end.

(** For each user TA the result of reading its heap; [None] if it has no session. *)
Fixpoint dump_ta_stats (ops : ts_ops) (t : tid) (l : list tee_ta_dump_ctx) : proc (list (tee_ta_dump_ctx * option Z)) :=
  match l with
  | [] => Done []
  | d :: r =>
      let* s := first_session t (d_sess_id d) in
      let* res := match s with
        | None => Done None
        | Some a => let* res := dump_ta_memstats ops t a in do* tee_ta_put_session t a in Done (Some res)
        end in
      let* k := dump_ta_stats ops t r in Done ((d, res) :: k)
  end.

(** The buffer of the caller ([None]: NULL), and whether memory is found for the copy. *)
Record stats_buf := mk_stats_buf { buf_size : option Z; buf_aligned : bool; malloc_ok : bool }.

(** The result, the size that is stored and the statistics. *)
Definition tee_ta_instance_stats (ops : ts_ops) (t : tid) (b : stats_buf) : proc (Z * option Z * list (tee_ta_dump_ctx * option Z)) :=
  let* r := section (
    let! s := get in
    let! us := user_ctxs (tee_ctxes s) in
    let sz := sizeof_pta_stats_ta * Z.of_nat (length us) in
    if sz =? 0 then ret (inl (TEE_ERROR_ITEM_NOT_FOUND, None)) else
    if match buf_size b with None => true | Some n => n <? sz end then ret (inl (TEE_ERROR_SHORT_BUFFER, Some sz)) else
    if negb (buf_aligned b) then ret (inl (TEE_ERROR_BAD_PARAMETERS, None)) else
    if negb (malloc_ok b) then ret (inl (TEE_ERROR_OUT_OF_MEMORY, None)) else
    let! ds := init_dump_ctx us in ret (inr (sz, ds))) in
  match r with
  | inl (e, n) => Done (e, n, [])
  | inr (sz, ds) => let* l := dump_ta_stats ops t ds in Done (TEE_SUCCESS, Some sz, l)
  end.

(** ** Programs of threads

    A call with what the trusted applications do that it enters: the calls they make from inside, in
    order, whether they panic after them, and their result; [closing] for the entry that closes a
    session, [releasing] for the release of a context. release_utc_state() closes the sessions that the
    released TA has open; here these may be any calls. *)
Inductive call : Type :=
| OpenSession (u : Z) (clnt : TEE_Identity) (now : option TEE_Time) (to : Z) (ld : loading)
    (calls : list call) (panics : bool) (res : Z) (closing : list call) (panics_closing : bool) (releasing : list call)
| InvokeCommand (i : Z) (who : requester) (now : option TEE_Time) (to : Z)
    (calls : list call) (panics : bool) (res : Z) (releasing : list call)
| CloseSession (i : Z) (who : requester) (closing : list call) (panics_closing : bool) (releasing : list call)
| CancelCommand (i : Z)
| GetCancellationFlag (now : option TEE_Time)
| SetCancelMask (b : bool)
| InstanceStats (b : stats_buf) (calls : list call) (panics : bool) (res : Z) (releasing : list call).

(** A panic of the trusted application. *)
Definition may_panic (b : bool) (c : addr) : proc unit := if b then section (upd_ctx c set_panicked) else Done tt.

(** User TAs call with the list of their context; only the normal world cancels, only trusted
    applications have a current session. *)
Fixpoint exec (pt : list (Z * Z)) (t : tid) (h : head) (k : call) {struct k} : proc unit :=
  match k with
  | OpenSession u clnt now to ld cs p r cl pc rel =>
      let ops := mk_ops
        (fun _ c => do* run_list (exec pt t (Utc c)) cs in do* may_panic p c in Done r)
        (fun _ c => do* run_list (exec pt t (Utc c)) cl in may_panic pc c)
        (fun c => run_list (exec pt t (Utc c)) rel) in
      do* tee_ta_open_session pt ld ops t h u clnt now to in Done tt
  | InvokeCommand i who now to cs p r rel =>
      let ops := mk_ops
        (fun _ c => do* run_list (exec pt t (Utc c)) cs in do* may_panic p c in Done r)
        (fun _ c => Done tt)
        (fun c => run_list (exec pt t (Utc c)) rel) in
      do* invoke_command ops t i h who now to in Done tt
  | CloseSession i who cl pc rel =>
      let ops := mk_ops
        (fun _ c => Done TEE_SUCCESS)
        (fun _ c => do* run_list (exec pt t (Utc c)) cl in may_panic pc c)
        (fun c => run_list (exec pt t (Utc c)) rel) in
      do* tee_ta_close_session ops t i h who in Done tt
  | CancelCommand i => match h with Nsec => do* entry_cancel t i in Done tt | Utc _ => Done tt end
  | GetCancellationFlag now => match h with Nsec => Done tt | Utc _ => do* syscall_get_cancellation_flag t now in Done tt end
  | SetCancelMask b => match h with Nsec => Done tt | Utc _ => do* syscall_set_cancel_mask t b in Done tt end
  | InstanceStats b cs p r rel =>
      let ops := mk_ops
        (fun _ c => do* run_list (exec pt t (Utc c)) cs in do* may_panic p c in Done r)
        (fun _ c => Done tt)
        (fun c => run_list (exec pt t (Utc c)) rel) in
      do* tee_ta_instance_stats ops t b in Done tt
  end.

(** ** The system *)

Definition tam_init : tam := mk_tam ∅ ∅ [] ∅ None 0 ∅ [] false.

#[global] Instance tam_machine : Machine tam cvar := {
  sleeps t s := existsb (fun w => bool_decide (snd w = t)) (cvq s);
  enqueue w s := mk_tam (ctxs s) (sessions s) (tee_ctxes s) (open_sessions s) (tee_ta_single_instance_thread s) (tee_ta_single_instance_count s) (sess_stack s) (cvq s ++ [w]) (raced s);
}.

Definition start (pt : list (Z * Z)) (progs : list (list call)) : sys tam cvar :=
  mk_sys tam_init (imap (fun t l => run_list (exec pt t Nsec) l) progs).

(** The reference counts, [uint32_t], are below their largest value. *)
Definition counts_below (s : tam) : Prop :=
  map_Forall (fun _ x => c_ref_count x < UINT32_MAX) (ctxs s) /\ map_Forall (fun _ x => s_ref_count x < UINT32_MAX) (sessions s).
Definition full (s : tam) : bool := negb (bool_decide (counts_below s)).

(** States that are reached before a session is freed that another thread refers to, and before a reference
    count is at its largest value. *)
Definition stopped (s : tam) : bool := raced s || full s.
Definition reachable (pt : list (Z * Z)) (progs : list (list call)) : sys tam cvar -> Prop := reaches stopped (start pt progs).
