(* ===== verification/TaManagerInv.v ===== *)
(** * The TA manager: what the threads own

    Reasoning about the programs of [TaManager] thread by thread. A thread owns references to
    sessions, sessions it has locked, references to contexts, contexts it has entered, loads or
    destroys, and its stack of sessions. The invariant ties these to the counters, flags and lists
    of the shared state. *)
From stdpp Require Import gmap.
From S2P Require Import Prelude Threads TaManager.
Local Open Scope Z_scope.

(** ** Ownership *)

(** A locked session: its address, context and list, and whether it is being unlinked. *)
Record lk := mk_lk { l_a : addr; l_ctx : option addr; l_head : head; l_unlink : bool }.

(** References to sessions; locked sessions; references to contexts; contexts entered, concurrent
    ones entered, contexts loaded, destroyed; the sessions on the stack with their context. *)
Record own := mk_own {
  refs : list (addr * head);
  locks : list lk;
  crefs : list addr;
  ents : list addr;
  cents : list addr;
  inits : list addr;
  dtors : list addr;
  stk : list (addr * addr);
}.
Definition own0 : own := mk_own [] [] [] [] [] [] [] [].

Definition attached (o : own) (c : addr) : Prop := exists k, k ∈ locks o /\ l_ctx k = Some c.

(** A context that the thread keeps from being freed. *)
Definition pins (o : own) (c : addr) : Prop := attached o c \/ c ∈ crefs o \/ c ∈ dtors o.
Definition head_ok (o : own) (h : head) : Prop := match h with Nsec => True | Utc c => pins o c end.

Record wf (o : own) : Prop := mk_wf {
  w_nodup : NoDup (l_a <$> locks o);
  w_ents c : c ∈ ents o -> attached o c \/ c ∈ crefs o;
  w_cents c : c ∈ cents o -> attached o c \/ c ∈ crefs o;
  w_inits c : c ∈ inits o -> attached o c;
  w_stk a c : (a, c) ∈ stk o -> (exists k, k ∈ locks o /\ l_a k = a /\ l_ctx k = Some c) /\ (c ∈ ents o \/ c ∈ cents o \/ c ∈ inits o);
}.

Definition nref (a : addr) (o : own) : nat := (cnt a (fst <$> refs o) + cnt a (l_a <$> locks o))%nat.
Definition att (s : tam) : gmap addr (option addr) := s_ctx <$> sessions s.
Definition natt (c : addr) (m : gmap addr (option addr)) : nat := length (filter (fun p => snd p = Some c) (map_to_list m)).

Definition olist (h : head) (s : tam) : list addr := default [] (open_sessions s !! h).
Definition flag (f : Z) (m : gmap addr tee_ta_ctx) (c : addr) : bool := match m !! c with Some x => has (flags x) f | None => false end.
Definition nsing (m : gmap addr tee_ta_ctx) (l : list addr) : nat := length (filter (fun c => flag TA_FLAG_SINGLE_INSTANCE m c = true) l).

(** A session that thread [t] has locked. *)
Definition locked (s : tam) (t : tid) (k : lk) : Prop := exists x, sessions s !! l_a k = Some x /\
  lock_thread x = Some t /\ s_ctx x = l_ctx k /\ unlink x = l_unlink k /\ l_a k ∈ olist (l_head k) s.

(** Sessions and references to them. *)
Record sess_inv (s : tam) (G : list own) : Prop := mk_sess_inv {
  si_count a x : sessions s !! a = Some x -> s_ref_count x = Z.of_nat (total (nref a) G);
  si_ref t o a h : G !! t = Some o -> (a, h) ∈ refs o -> a ∈ olist h s;
  si_lock t o k : G !! t = Some o -> k ∈ locks o -> locked s t k;
  si_owner a x t : sessions s !! a = Some x -> lock_thread x = Some t -> exists o, G !! t = Some o /\ a ∈ (l_a <$> locks o);
  si_list h : NoDup (olist h s);
  si_live h a : a ∈ olist h s -> is_Some (sessions s !! a);
  si_head h h' a : a ∈ olist h s -> a ∈ olist h' s -> h = h';
  si_ctx a x : sessions s !! a = Some x -> lock_thread x = None -> is_Some (s_ctx x);
}.

(** Contexts: references, the flags that a thread has entered, loads or releases them. *)
Record ctx_inv (m : gmap addr tee_ta_ctx) (l : list addr) (at_ : gmap addr (option addr)) (G : list own) : Prop := mk_ctx_inv {
  ci_count c x : m !! c = Some x -> c_ref_count x = Z.of_nat (natt c at_ + total (fun o => cnt c (crefs o)) G);
  ci_att a c : at_ !! a = Some (Some c) -> is_Some (m !! c);
  ci_cref t o c : G !! t = Some o -> c ∈ crefs o -> is_Some (m !! c);
  ci_list : NoDup l;
  ci_listed c : c ∈ l <-> exists x, m !! c = Some x /\ is_releasing x = false;
  ci_busy c x : m !! c = Some x -> total (fun o => cnt c (ents o)) G = if busy x then 1%nat else 0%nat;
  ci_ent t o c : G !! t = Some o -> c ∈ ents o -> flag TA_FLAG_CONCURRENT m c = false;
  ci_init c x : m !! c = Some x -> total (fun o => cnt c (inits o)) G = if is_initializing x then 1%nat else 0%nat;
  ci_ready c x : m !! c = Some x -> is_initializing x = true -> c_ref_count x = 1 /\ busy x = false /\ is_releasing x = false /\ flags x = 0;
  ci_dtor t o c : G !! t = Some o -> c ∈ dtors o -> exists x, m !! c = Some x /\ is_releasing x = true /\ c_ref_count x = 0;
  ci_dtor1 c : (total (fun o => cnt c (dtors o)) G <= 1)%nat;
  ci_conc t o c : G !! t = Some o -> c ∈ cents o -> flag TA_FLAG_CONCURRENT m c = true;
}.

(** The single-instance lock. *)
Record single_inv (m : gmap addr tee_ta_ctx) (th : option tid) (n : Z) (G : list own) : Prop := mk_single_inv {
  li_thread t o : G !! t = Some o -> Z.of_nat (nsing m (ents o)) = if bool_decide (th = Some t) then n else 0;
  li_free : th = None -> n = 0;
  li_held t : th = Some t -> 0 < n /\ is_Some (G !! t);
}.

Definition stack_inv (m : gmap tid (list addr)) (G : list own) : Prop :=
  forall t o, G !! t = Some o -> default [] (m !! t) = fst <$> stk o.

Record inv (s : tam) (G : list own) : Prop := mk_inv {
  i_raced : raced s = false;
  i_wf t o : G !! t = Some o -> wf o;
  i_sess : sess_inv s G;
  i_ctx : ctx_inv (ctxs s) (tee_ctxes s) (att s) G;
  i_single : single_inv (ctxs s) (tee_ta_single_instance_thread s) (tee_ta_single_instance_count s) G;
  i_stack : stack_inv (sess_stack s) G;
}.

(** ** Programs that keep the invariant

    The reasoning ends when a session is freed that another thread refers to, or a reference count is at its
    largest value. *)
Definition counted (s : tam) (G : list own) : Prop := inv s G /\ full s = false.
Abbreviation ok := (Threads.ok counted stopped (fun _ _ => False)).

(** The threads that sleep do not matter. *)
Lemma inv_cvq s G q : inv s G -> inv (mk_tam (ctxs s) (sessions s) (tee_ctxes s) (open_sessions s) (tee_ta_single_instance_thread s) (tee_ta_single_instance_count s) (sess_stack s) q (raced s)) G.
Proof. intros [H1 H2 [S1 S2 S3 S4 S5 S6 S7 S8] H4 H5 H6]. split; done. Qed.

Lemma stop_or {A} (s' : tam) (G : list own) t (a : A) (Q : A -> own -> Prop) : raced s' = true \/ (exists o', inv s' (<[t := o']> G) /\ Q a o') ->
  stopped s' = true \/ exists o', counted s' (<[t := o']> G) /\ Q a o'.
Proof.
  unfold stopped. intros [->|(o' & I & HQ)]; [by left|]. destruct (full s') eqn:Ef; [left; apply orb_true_r|]. right. by exists o'.
Qed.

Lemma not_full s : full s = false <-> counts_below s.
Proof. unfold full. rewrite negb_false_iff. apply bool_decide_eq_true. Qed.

(** Counts that stay in range do not wrap around. *)
Lemma add_ref_count n x : 0 <= s_ref_count x + n <= UINT32_MAX -> s_ref_count (add_ref n x) = s_ref_count x + n.
Proof. intros H. cbn [add_ref s_ref_count]. apply uwrap_small. unfold UINT32_MAX in H. unfold is_u. lia. Qed.
Lemma add_ctx_ref_count n x : 0 <= c_ref_count x + n <= UINT32_MAX -> c_ref_count (add_ctx_ref n x) = c_ref_count x + n.
Proof. intros H. cbn [add_ctx_ref c_ref_count]. apply uwrap_small. unfold UINT32_MAX in H. unfold is_u. lia. Qed.

Lemma ref_range s G a x : inv s G -> full s = false -> sessions s !! a = Some x -> 0 <= s_ref_count x < UINT32_MAX.
Proof. intros I [_ Hf]%not_full Ha. split; [rewrite (si_count _ _ (i_sess _ _ I) _ _ Ha); lia|by apply (Hf a)]. Qed.
Lemma ctx_ref_range s G c x : inv s G -> full s = false -> ctxs s !! c = Some x -> 0 <= c_ref_count x < UINT32_MAX.
Proof. intros I [Hf _]%not_full Hc. split; [rewrite (ci_count _ _ _ _ (i_ctx _ _ I) _ _ Hc); lia|by apply (Hf c)]. Qed.

Lemma ok_sec {A} strict t o (m : M tam A) Q :
  (forall s G, inv s G -> G !! t = Some o -> full s = false ->
     match m s with
     | (Ret a, s') => raced s' = true \/ exists o', inv s' (<[t := o']> G) /\ Q a o'
     | (Panic, _) => strict = false
     | _ => False
     end) -> ok strict t o (section m) Q.
Proof.
  intros H. apply ok_section. intros s G [I Hf] Ht _. specialize (H s G I Ht Hf). destruct (m s) as [[] s']; try done; [|by left]. by apply stop_or.
Qed.

Lemma ok_wait {A} strict t o (m : M tam (A + cvar)) Q :
  (forall s G, inv s G -> G !! t = Some o -> full s = false ->
     match m s with
     | (Ret (inl a), s') => raced s' = true \/ exists o', inv s' (<[t := o']> G) /\ Q a o'
     | (Ret (inr _), _) => True
     | (Panic, _) => strict = false
     | _ => False
     end) -> ok strict t o (waiting m) Q.
Proof.
  intros H. apply ok_waiting. intros s G [I Hf] Ht _. specialize (H s G I Ht Hf). destruct (m s) as [[[]| | |] s']; try done; [by apply stop_or|]. split; [by apply inv_cvq|done].
Qed.

Lemma ok_look {A} strict t o (m : M tam A) Q :
  (forall s G, inv s G -> G !! t = Some o -> exists a, m s = (Ret a, s) /\ Q a o) -> ok strict t o (section m) Q.
Proof. intros H. apply ok_read. intros s G [I _]. by apply H. Qed.

(** ** Frames *)

Lemma lookup_upd {X} (G : list X) t o o' t0 o0 : G !! t = Some o -> <[t := o']> G !! t0 = Some o0 -> t0 = t /\ o0 = o' \/ t0 <> t /\ G !! t0 = Some o0.
Proof.
  intros Ht. destruct (decide (t0 = t)) as [->|Hne]; [|rewrite list_lookup_insert_ne by done; by right].
  rewrite list_lookup_insert_eq by (by eapply lookup_lt_Some). intros [= <-]. by left.
Qed.

Lemma ctx_frame m l at_ G t o o' : ctx_inv m l at_ G -> G !! t = Some o -> crefs o' = crefs o -> ents o' = ents o -> cents o' = cents o -> inits o' = inits o -> dtors o' = dtors o ->
  ctx_inv m l at_ (<[t := o']> G).
Proof.
  intros [H1 H2 H3 H4 H5 H6 H7 H8 H9 H10 H11 H12] Ht Ec Ee Eq Ei Ed. split; try done.
  - intros c x Hc. rewrite (total_same _ _ _ _ _ Ht) by by rewrite Ec. by apply H1.
  - intros t0 o0 c Ht0. destruct (lookup_upd _ _ _ _ _ _ Ht Ht0) as [[-> ->]|[_ ?]]; [rewrite Ec|]; by eapply H3.
  - intros c x Hc. rewrite (total_same _ _ _ _ _ Ht) by by rewrite Ee. by apply H6.
  - intros t0 o0 c Ht0. destruct (lookup_upd _ _ _ _ _ _ Ht Ht0) as [[-> ->]|[_ ?]]; [rewrite Ee|]; by eapply H7.
  - intros c x Hc. rewrite (total_same _ _ _ _ _ Ht) by by rewrite Ei. by apply H8.
  - intros t0 o0 c Ht0. destruct (lookup_upd _ _ _ _ _ _ Ht Ht0) as [[-> ->]|[_ ?]]; [rewrite Ed|]; by eapply H10.
  - intros c. rewrite (total_same _ _ _ _ _ Ht) by by rewrite Ed. by apply H11.
  - intros t0 o0 c Ht0. destruct (lookup_upd _ _ _ _ _ _ Ht Ht0) as [[-> ->]|[_ ?]]; [rewrite Eq|]; by eapply H12.
Qed.

Lemma single_frame m th n G t o o' : single_inv m th n G -> G !! t = Some o -> ents o' = ents o -> single_inv m th n (<[t := o']> G).
Proof.
  intros [H1 H2 H3] Ht Ee. split; [|done|].
  - intros t0 o0 Ht0. destruct (lookup_upd _ _ _ _ _ _ Ht Ht0) as [[-> ->]|[_ ?]]; [rewrite Ee|]; by apply H1.
  - intros t0 E. destruct (H3 t0 E) as [? Hs]. split; [done|]. apply lookup_lt_is_Some in Hs. apply lookup_lt_is_Some. by rewrite length_insert.
Qed.

Lemma stack_frame m G t o o' : stack_inv m G -> G !! t = Some o -> stk o' = stk o -> stack_inv m (<[t := o']> G).
Proof. intros H Ht E t0 o0 Ht0. destruct (lookup_upd _ _ _ _ _ _ Ht Ht0) as [[-> ->]|[_ ?]]; [rewrite E|]; by apply H. Qed.

Lemma sess_frame s s' G t o o' : sess_inv s G -> G !! t = Some o -> sessions s' = sessions s -> open_sessions s' = open_sessions s -> refs o' = refs o -> locks o' = locks o ->
  sess_inv s' (<[t := o']> G).
Proof.
  intros [H1 H2 H3 H4 H5 H6 H7 H8] Ht Es Eo Er El. unfold locked, olist in *. split; unfold locked, olist; rewrite ?Es, ?Eo; try done.
  - intros a x Ha. rewrite (total_same _ _ _ _ _ Ht) by (unfold nref; by rewrite Er, El). by apply H1.
  - intros t0 o0 a h Ht0. destruct (lookup_upd _ _ _ _ _ _ Ht Ht0) as [[-> ->]|[_ ?]]; [rewrite Er|]; by eapply H2.
  - intros t0 o0 k Ht0. destruct (lookup_upd _ _ _ _ _ _ Ht Ht0) as [[-> ->]|[_ ?]]; [rewrite El|]; by eapply H3.
  - intros a x t0 Ha Hl. destruct (H4 a x t0 Ha Hl) as (o1 & Ho1 & Hin). destruct (decide (t0 = t)) as [->|Hne].
    + exists o'. rewrite list_lookup_insert_eq by (by eapply lookup_lt_Some). split; [done|]. rewrite El. by simplify_eq.
    + exists o1. by rewrite list_lookup_insert_ne.
Qed.

Lemma wf_upd (G : list own) t o o' : (forall t o, G !! t = Some o -> wf o) -> G !! t = Some o -> wf o' -> forall t0 o0, <[t := o']> G !! t0 = Some o0 -> wf o0.
Proof. intros H Ht Hw t0 o0 Ht0. destruct (lookup_upd _ _ _ _ _ _ Ht Ht0) as [[-> ->]|[_ ?]]; [done|eauto]. Qed.

(** What sections on sessions leave alone. *)
Record same_ctx (s s' : tam) : Prop := mk_same_ctx {
  e_ctxs : ctxs s' = ctxs s;
  e_list : tee_ctxes s' = tee_ctxes s;
  e_th : tee_ta_single_instance_thread s' = tee_ta_single_instance_thread s;
  e_n : tee_ta_single_instance_count s' = tee_ta_single_instance_count s;
  e_stack : sess_stack s' = sess_stack s;
  e_raced : raced s' = raced s;
}.

Lemma inv_sess s s' G t o o' : inv s G -> G !! t = Some o -> same_ctx s s' -> att s' = att s -> wf o' ->
  crefs o' = crefs o -> ents o' = ents o -> cents o' = cents o -> inits o' = inits o -> dtors o' = dtors o -> stk o' = stk o ->
  sess_inv s' (<[t := o']> G) -> inv s' (<[t := o']> G).
Proof.
  intros [H1 H2 H3 H4 H5 H6] Ht [E1 E2 E3 E4 E5 E6] Ea Hw Ec Ee Eq Ei Ed Es Hs. split; [congruence|by eapply wf_upd|done|..].
  - rewrite E1, E2, Ea. by apply (ctx_frame _ _ _ _ _ o).
  - rewrite E1, E3, E4. by apply (single_frame _ _ _ _ _ o).
  - rewrite E5. by apply (stack_frame _ _ _ o).
Qed.

Lemma att_insert (ss : gmap addr tee_ta_session) a x x' : ss !! a = Some x -> s_ctx x' = s_ctx x -> s_ctx <$> <[a := x']> ss = s_ctx <$> ss.
Proof. intros Ha E. rewrite fmap_insert, E. apply insert_id. by rewrite lookup_fmap, Ha. Qed.

(** A session whose fields other than the counter, the lock and the marks change. *)
Lemma sess_upd s s' G t o a x x' : sess_inv s G -> G !! t = Some o -> sessions s !! a = Some x -> sessions s' = <[a := x']> (sessions s) -> open_sessions s' = open_sessions s ->
  s_ref_count x' = s_ref_count x -> lock_thread x' = lock_thread x -> unlink x' = unlink x -> s_ctx x' = s_ctx x -> sess_inv s' G.
Proof.
  intros [H1 H2 H3 H4 H5 H6 H7 H8] Ht Ha Es Eo Er El Eu Ec. unfold locked, olist in *. split; unfold locked, olist; rewrite ?Es, ?Eo; try done.
  - intros b y. destruct (decide (b = a)) as [->|]; [rewrite lookup_insert_eq; intros [= <-]; rewrite Er; by apply H1|rewrite lookup_insert_ne by done; apply H1].
  - intros t0 o0 k Ht0 Hk. destruct (H3 _ _ _ Ht0 Hk) as (y & Hy & Y1 & Y2 & Y3 & Y4). destruct (decide (l_a k = a)) as [E|].
    + rewrite E in *. exists x'. rewrite lookup_insert_eq. simplify_eq. split; [done|]. by rewrite El, Ec, Eu.
    + exists y. by rewrite lookup_insert_ne.
  - intros b y t0. destruct (decide (b = a)) as [->|]; [rewrite lookup_insert_eq; intros [= <-]; rewrite El; by apply H4|rewrite lookup_insert_ne by done; apply H4].
  - intros h b Hb. destruct (decide (b = a)) as [->|]; [rewrite lookup_insert_eq; eauto|rewrite lookup_insert_ne by done; by eapply H6].
  - intros b y. destruct (decide (b = a)) as [->|]; [rewrite lookup_insert_eq; intros [= <-]; rewrite El, Ec; by eapply H8|rewrite lookup_insert_ne by done; apply H8].
Qed.

(** A section on one session that changes what its thread owns of it. *)
Lemma sess_change s s' G t o o' a x x' : sess_inv s G -> G !! t = Some o -> sessions s !! a = Some x -> sessions s' = <[a := x']> (sessions s) -> open_sessions s' = open_sessions s ->
  (forall b, b <> a -> nref b o' = nref b o) -> s_ref_count x' + Z.of_nat (nref a o) = s_ref_count x + Z.of_nat (nref a o') ->
  (forall b h, (b, h) ∈ refs o' -> (b, h) ∈ refs o \/ b = a /\ a ∈ olist h s) ->
  (forall k, k ∈ locks o' -> l_a k <> a /\ k ∈ locks o \/ l_a k = a /\ lock_thread x' = Some t /\ s_ctx x' = l_ctx k /\ unlink x' = l_unlink k /\ a ∈ olist (l_head k) s) ->
  (forall t0, t0 <> t -> lock_thread x = Some t0 -> lock_thread x' = Some t0 /\ unlink x' = unlink x /\ s_ctx x' = s_ctx x) ->
  (forall t0, lock_thread x' = Some t0 -> t0 = t /\ a ∈ (l_a <$> locks o') \/ t0 <> t /\ lock_thread x = Some t0) ->
  (forall b, b <> a -> b ∈ (l_a <$> locks o) -> b ∈ (l_a <$> locks o')) -> (lock_thread x' = None -> is_Some (s_ctx x')) -> sess_inv s' (<[t := o']> G).
Proof.
  intros [H1 H2 H3 H4 H5 H6 H7 H8] Ht Ha Es Eo N1 N2 R L1 L2 L3 L4 L5. unfold locked, olist in *. split; unfold locked, olist; rewrite ?Es, ?Eo; try done.
  - intros b y. destruct (decide (b = a)) as [->|Hne].
    + rewrite lookup_insert_eq. intros [= <-]. pose proof (total_insert (nref a) G t o o' Ht). pose proof (H1 _ _ Ha). pose proof (total_le (nref a) G t o Ht). lia.
    + rewrite lookup_insert_ne by done. rewrite (total_same _ _ _ _ _ Ht) by by apply N1. apply H1.
  - intros t0 o0 b h Ht0 Hb. destruct (lookup_upd _ _ _ _ _ _ Ht Ht0) as [[-> ->]|[_ ?]]; [|by eapply H2]. destruct (R _ _ Hb) as [?|[-> ?]]; [by eapply H2|done].
  - intros t0 o0 k Ht0 Hk. destruct (lookup_upd _ _ _ _ _ _ Ht Ht0) as [[-> ->]|[Hne Ho0]].
    + destruct (L1 k Hk) as [[Hka Hk']|(<- & Hrest)]; [|exists x'; by rewrite lookup_insert_eq]. destruct (H3 _ _ _ Ht Hk') as (y & Hy & Hr). exists y. by rewrite lookup_insert_ne.
    + destruct (H3 _ _ _ Ho0 Hk) as (y & Hy & Y1 & Y2 & Y3 & Y4). destruct (decide (l_a k = a)) as [E|]; [|exists y; by rewrite lookup_insert_ne].
      rewrite E in *. simplify_eq. destruct (L2 t0 Hne Y1) as (Z1 & Z2 & Z3). exists x'. rewrite lookup_insert_eq. split; [done|]. split; [done|]. split; [congruence|]. split; [congruence|done].
  - intros b y t0 Hb Hy. destruct (decide (b = a)) as [->|Hne].
    + rewrite lookup_insert_eq in Hb. injection Hb as <-. destruct (L3 t0 Hy) as [[-> Hin]|[Hne Hx]].
      * exists o'. rewrite list_lookup_insert_eq by (by eapply lookup_lt_Some). done.
      * destruct (H4 _ _ _ Ha Hx) as (o1 & ? & ?). exists o1. by rewrite list_lookup_insert_ne.
    + rewrite lookup_insert_ne in Hb by done. destruct (H4 _ _ _ Hb Hy) as (o1 & Ho1 & Hin). destruct (decide (t0 = t)) as [->|Hne'].
      * simplify_eq. exists o'. rewrite list_lookup_insert_eq by (by eapply lookup_lt_Some). split; [done|]. by apply L4.
      * exists o1. by rewrite list_lookup_insert_ne.
  - intros h b Hb. destruct (decide (b = a)) as [->|]; [rewrite lookup_insert_eq; eauto|rewrite lookup_insert_ne by done; by eapply H6].
  - intros b y. destruct (decide (b = a)) as [->|]; [rewrite lookup_insert_eq; intros [= <-]; by apply L5|rewrite lookup_insert_ne by done; apply H8].
Qed.
