(* ===== verification/TaManagerSess.v ===== *)
(** * The TA manager: references to sessions

    Specifications of tee_ta_get_session(), tee_ta_put_session() and of the removal of a session, in
    terms of what the thread owns. *)
From stdpp Require Import gmap.
From S2P Require Import Prelude Threads TaManager TaManagerInv.
Local Open Scope Z_scope.

Definition o_refs l o := mk_own l (locks o) (crefs o) (ents o) (cents o) (inits o) (dtors o) (stk o).
Definition o_locks l o := mk_own (refs o) l (crefs o) (ents o) (cents o) (inits o) (dtors o) (stk o).
Definition o_crefs l o := mk_own (refs o) (locks o) l (ents o) (cents o) (inits o) (dtors o) (stk o).
Definition o_ents l o := mk_own (refs o) (locks o) (crefs o) l (cents o) (inits o) (dtors o) (stk o).
Definition o_cents l o := mk_own (refs o) (locks o) (crefs o) (ents o) l (inits o) (dtors o) (stk o).
Definition o_inits l o := mk_own (refs o) (locks o) (crefs o) (ents o) (cents o) l (dtors o) (stk o).
Definition o_dtors l o := mk_own (refs o) (locks o) (crefs o) (ents o) (cents o) (inits o) l (stk o).
Definition o_stk l o := mk_own (refs o) (locks o) (crefs o) (ents o) (cents o) (inits o) (dtors o) l.

(** ** Reading *)

Lemma session_run s a x {B} (k : _ -> M tam B) : sessions s !! a = Some x -> bind (the_session a) k s = k x s.
Proof. intros H. unfold the_session, bind, get. by rewrite H. Qed.

Lemma the_ctx_run s c x {B} (k : _ -> M tam B) : ctxs s !! c = Some x -> bind (the_ctx c) k s = k x s.
Proof. intros H. unfold the_ctx, bind, get. by rewrite H. Qed.

Lemma upd_session_run s a x f : sessions s !! a = Some x -> upd_session a f s = put_sessions (<[a := f x]>) s.
Proof. intros H. unfold upd_session. by rewrite (session_run _ _ x). Qed.

Lemma upd_ctx_run s c x f : ctxs s !! c = Some x -> upd_ctx c f s = put_ctxs (<[c := f x]>) s.
Proof. intros H. unfold upd_ctx. by rewrite (the_ctx_run _ _ x). Qed.

Lemma att_lookup s a x : sessions s !! a = Some x -> att s !! a = Some (s_ctx x).
Proof. intros H. unfold att. by rewrite lookup_fmap, H. Qed.

Section Inv.
Context (s : tam) (G : list own) (t : tid) (o : own) (I : inv s G) (Ht : G !! t = Some o).

Lemma lock_live k : k ∈ locks o -> exists x, sessions s !! l_a k = Some x /\ lock_thread x = Some t /\ s_ctx x = l_ctx k /\ unlink x = l_unlink k /\ l_a k ∈ olist (l_head k) s.
Proof. intros Hk. by apply (si_lock _ _ (i_sess _ _ I) _ _ _ Ht Hk). Qed.

Lemma attached_live c : attached o c -> is_Some (ctxs s !! c).
Proof. intros (k & Hk & Ec). destruct (lock_live k Hk) as (x & Hx & _ & E & _). eapply (ci_att _ _ _ _ (i_ctx _ _ I)). rewrite (att_lookup _ _ _ Hx). by rewrite E, Ec. Qed.

Lemma pins_live c : pins o c -> is_Some (ctxs s !! c).
Proof.
  intros [Ha|[Hc|Hd]]; [by apply attached_live|by eapply (ci_cref _ _ _ _ (i_ctx _ _ I))|].
  destruct (ci_dtor _ _ _ _ (i_ctx _ _ I) _ _ _ Ht Hd) as (x & -> & _). eauto.
Qed.

(** The list of a head that the thread may use. *)
Lemma sessions_of_run h {B} (k : _ -> M tam B) : head_ok o h -> bind (sessions_of h) k s = k (olist h s) s.
Proof.
  intros Hh. unfold sessions_of. destruct h as [|c]; [done|]. destruct (pins_live c Hh) as [x Hx]. unfold bind at 1 2. rewrite (the_ctx_run _ _ x) by done. done.
Qed.

Lemma find_id_run i l : (forall a, a ∈ l -> is_Some (sessions s !! a)) ->
  exists r, find_id i l s = (Ret r, s) /\ match r with Some a => a ∈ l /\ (exists x, sessions s !! a = Some x /\ id x = i) | None => forall a x, a ∈ l -> sessions s !! a = Some x -> id x <> i end.
Proof.
  induction l as [|a l IH]; intros Hl; cbn [find_id]; [exists None; split; [done|]; by intros a x Ha; apply elem_of_nil in Ha|].
  destruct (Hl a ltac:(by left)) as [x Hx]. rewrite (session_run _ _ x) by done. destruct (id x =? i) eqn:E; bool_hyps.
  - exists (Some a). split; [done|]. split; [by left|eauto].
  - destruct IH as (r & -> & Hr); [intros b Hb; apply Hl; by right|]. exists r. split; [done|]. destruct r as [b|]; [destruct Hr; split; [by right|done]|].
    intros b y [->|Hb]%elem_of_cons Hy; [congruence|eauto].
Qed.

Lemma find_nolock_run i h : head_ok o h ->
  exists r, tee_ta_find_session_nolock i h s = (Ret r, s) /\ match r with Some a => a ∈ olist h s /\ (exists x, sessions s !! a = Some x /\ id x = i) | None => forall a x, a ∈ olist h s -> sessions s !! a = Some x -> id x <> i end.
Proof. intros Hh. unfold tee_ta_find_session_nolock. rewrite sessions_of_run by done. apply find_id_run. intros a. apply (si_live _ _ (i_sess _ _ I)). Qed.

(** A session that is not locked by the thread. *)
Lemma not_mine a x : sessions s !! a = Some x -> lock_thread x <> Some t -> a ∉ (l_a <$> locks o).
Proof. intros Ha Hl (k & -> & Hk)%list_elem_of_fmap. destruct (lock_live k Hk) as (y & Hy & E & _). congruence. Qed.
End Inv.

Lemma wf_refs r o : wf o -> wf (o_refs r o).
Proof. by intros [H1 H2 H3 H4 H5]. Qed.

Lemma wf_lock k o : wf o -> l_a k ∉ (l_a <$> locks o) -> wf (o_locks (k :: locks o) o).
Proof.
  intros [H1 H2 H3 H4 H5] Hk. assert (forall c, attached o c -> attached (o_locks (k :: locks o) o) c) as Ha by (intros c (k' & ? & ?); exists k'; split; [by right|done]). split.
  - cbn [o_locks locks fmap list_fmap]. by constructor.
  - intros c Hc. destruct (H2 c Hc); [left; by apply Ha|by right].
  - intros c Hc. destruct (H3 c Hc); [left; by apply Ha|by right].
  - intros c Hc. by apply Ha, H4.
  - intros a c Hs. destruct (H5 _ _ Hs) as [(k' & ? & ?) ?]. split; [exists k'; split; [by right|done]|done].
Qed.

(** ** Changes *)

(** The session [a] becomes [x']; besides, threads may be woken. *)
Record upd1 (s s' : tam) (a : addr) (x' : tee_ta_session) : Prop := mk_upd1 {
  u_sess : sessions s' = <[a := x']> (sessions s);
  u_open : open_sessions s' = open_sessions s;
  u_same : same_ctx s s';
}.

Lemma upd1_att s s' a x x' : upd1 s s' a x' -> sessions s !! a = Some x -> s_ctx x' = s_ctx x -> att s' = att s.
Proof. intros [E _ _] Ha Ec. unfold att. rewrite E. by eapply att_insert. Qed.

Lemma dec_run s a x : sessions s !! a = Some x -> 0 < s_ref_count x -> exists s', dec_session_ref_count a s = (Ret tt, s') /\ upd1 s s' a (add_ref (-1) x).
Proof.
  intros Ha Hr. unfold dec_session_ref_count. rewrite (session_run _ _ x) by done. rewrite (proj2 (Z.ltb_lt 0 _)) by done.
  unfold bind. cbn [assert_ ret]. rewrite (upd_session_run _ _ x) by done. cbn. destruct (_ =? 1); eexists; (split; [reflexivity|]); split; done.
Qed.

Lemma ref_pos s G t o a x : inv s G -> G !! t = Some o -> sessions s !! a = Some x -> (0 < nref a o)%nat -> 0 < s_ref_count x.
Proof. intros I Ht Ha Hn. rewrite (si_count _ _ (i_sess _ _ I) _ _ Ha). pose proof (total_le (nref a) G t o Ht). lia. Qed.

Lemma nref_refs b a h o : nref b (o_refs ((a, h) :: refs o) o) = ((if decide (a = b) then 1 else 0) + nref b o)%nat.
Proof. unfold nref. cbn [o_refs refs locks fmap list_fmap fst]. rewrite cnt_cons. lia. Qed.
Lemma nref_locks b k o : nref b (o_locks (k :: locks o) o) = ((if decide (l_a k = b) then 1 else 0) + nref b o)%nat.
Proof. unfold nref. cbn [o_locks refs locks fmap list_fmap]. rewrite cnt_cons. lia. Qed.

Ltac nrefs := rewrite ?nref_refs, ?nref_locks; cbn [l_a]; repeat case_decide; try congruence; try lia.

Lemma set_lock_count l x : s_ref_count (set_lock l x) = s_ref_count x. Proof. done. Qed.

Section Get.
Context (strict : bool) (t : tid) (o : own) (W : wf o).

(** Taking a reference, without the lock. *)
Lemma take_ref s s' G a h x : inv s G -> full s = false -> G !! t = Some o -> sessions s !! a = Some x -> a ∈ olist h s -> upd1 s s' a (add_ref 1 x) -> inv s' (<[t := o_refs ((a, h) :: refs o) o]> G).
Proof.
  intros I Hfu Ht Ha Hl U. pose proof (ref_range _ _ _ _ I Hfu Ha). pose proof U as [E1 E2 E3]. apply (inv_sess s s' G t o); try done; [by eapply upd1_att|by apply wf_refs|].
  apply (sess_change s s' G t o _ a x (add_ref 1 x)); try done; [apply I|..].
  - intros b Hb. nrefs.
  - rewrite add_ref_count by lia. nrefs.
  - intros b h' Hb. cbn [o_refs refs] in Hb. apply elem_of_cons in Hb as [[= -> ->]|Hb]; [by right|by left].
  - intros k Hk. cbn [o_refs locks] in Hk. destruct (decide (l_a k = a)) as [E|]; [|by left]. right. destruct (lock_live _ _ _ _ I Ht k Hk) as (y & Hy & Hr). rewrite E in *. by simplify_eq.
  - intros t0 Hx. destruct (decide (t0 = t)) as [->|]; [left|by right]. split; [done|]. destruct (si_owner _ _ (i_sess _ _ I) _ _ _ Ha Hx) as (o1 & ? & ?). by simplify_eq.
  - by apply (si_ctx _ _ (i_sess _ _ I) _ _ Ha).
Qed.

(** Taking a reference with the lock. *)
Lemma take_lock s s' G a h x : inv s G -> full s = false -> G !! t = Some o -> sessions s !! a = Some x -> a ∈ olist h s -> lock_thread x = None -> unlink x = false ->
  upd1 s s' a (set_lock (Some t) (add_ref 1 x)) ->
  wf (o_locks (mk_lk a (s_ctx x) h false :: locks o) o) /\ inv s' (<[t := o_locks (mk_lk a (s_ctx x) h false :: locks o) o]> G).
Proof.
  intros I Hfu Ht Ha Hl Hx Hu U. pose proof (ref_range _ _ _ _ I Hfu Ha). pose proof U as [E1 E2 E3]. assert (wf (o_locks (mk_lk a (s_ctx x) h false :: locks o) o)) as W'.
  { apply wf_lock; [done|]. eapply not_mine; [done|done|done|]. congruence. }
  split; [done|]. apply (inv_sess s s' G t o); try done; [by eapply upd1_att|].
  apply (sess_change s s' G t o _ a x (set_lock (Some t) (add_ref 1 x))); try done; [apply I|..].
  - intros b Hb. nrefs.
  - rewrite set_lock_count, add_ref_count by lia. nrefs.
  - intros b h' Hb. by left.
  - intros k Hk. cbn [o_locks locks] in Hk. apply elem_of_cons in Hk as [->|Hk]; [by right|]. left. split; [|done]. intros E.
    destruct (lock_live _ _ _ _ I Ht k Hk) as (y & Hy & E' & _). rewrite E in Hy. congruence.
  - congruence.
  - intros t0 [= <-]. left. split; [done|]. by left.
  - intros b Hb Hin. by right.
Qed.

(** The thread that waited gets the lock. *)
Lemma turn_lock s s' G a h x : inv s G -> G !! t = Some (o_refs ((a, h) :: refs o) o) -> sessions s !! a = Some x -> lock_thread x = None -> unlink x = false ->
  upd1 s s' a (set_lock (Some t) x) ->
  wf (o_locks (mk_lk a (s_ctx x) h false :: locks o) o) /\ inv s' (<[t := o_locks (mk_lk a (s_ctx x) h false :: locks o) o]> G).
Proof.
  intros I Ht Ha Hx Hu U. pose proof U as [E1 E2 E3]. assert (a ∈ olist h s) as Hl by (eapply (si_ref _ _ (i_sess _ _ I)); [exact Ht|by left]).
  assert (wf (o_locks (mk_lk a (s_ctx x) h false :: locks o) o)) as W'.
  { apply wf_lock; [done|]. apply (not_mine _ _ _ _ I Ht _ _ Ha). congruence. }
  split; [done|]. apply (inv_sess s s' G t (o_refs ((a, h) :: refs o) o)); try done; [by eapply upd1_att|].
  apply (sess_change s s' G t (o_refs ((a, h) :: refs o) o) _ a x (set_lock (Some t) x)); try done; [apply I|..].
  - intros b Hb. nrefs.
  - cbn [set_lock s_ref_count]. nrefs.
  - intros b h' Hb. left. by right.
  - intros k Hk. cbn [o_locks locks] in Hk. apply elem_of_cons in Hk as [->|Hk]; [by right|]. left. split; [|done]. intros E.
    destruct (lock_live _ _ _ _ I Ht k Hk) as (y & Hy & E' & _). rewrite E in Hy. congruence.
  - congruence.
  - intros t0 [= <-]. left. split; [done|]. by left.
  - intros b Hb Hin. by right.
Qed.

(** Giving a reference back. *)
Lemma drop_ref s s' G a h x : inv s G -> full s = false -> G !! t = Some (o_refs ((a, h) :: refs o) o) -> sessions s !! a = Some x -> upd1 s s' a (add_ref (-1) x) -> inv s' (<[t := o]> G).
Proof.
  intros I Hfu Ht Ha U. pose proof (ref_range _ _ _ _ I Hfu Ha). assert (0 < s_ref_count x) by (eapply ref_pos; [done|exact Ht|done|nrefs]). pose proof U as [E1 E2 E3]. apply (inv_sess s s' G t (o_refs ((a, h) :: refs o) o)); try done; [by eapply upd1_att|].
  apply (sess_change s s' G t (o_refs ((a, h) :: refs o) o) _ a x (add_ref (-1) x)); try done; [apply I|..].
  - intros b Hb. nrefs.
  - rewrite add_ref_count by lia. nrefs.
  - intros b h' Hb. left. by right.
  - intros k Hk. destruct (decide (l_a k = a)) as [E|]; [|by left]. right. destruct (lock_live _ _ _ _ I Ht k Hk) as (y & Hy & Hr). rewrite E in *. by simplify_eq.
  - intros t0 Hx. destruct (decide (t0 = t)) as [->|]; [left|by right]. split; [done|]. destruct (si_owner _ _ (i_sess _ _ I) _ _ _ Ha Hx) as (o1 & ? & ?). by simplify_eq.
  - by apply (si_ctx _ _ (i_sess _ _ I) _ _ Ha).
Qed.
End Get.

(** The result of tee_ta_get_session(): what the thread owns besides. *)
Definition got (o : own) (exclusive : bool) (h : head) (r : option addr) (o' : own) : Prop :=
  match r with
  | None => o' = o
  | Some a => if exclusive then exists c, o' = o_locks (mk_lk a (Some c) h false :: locks o) o /\ wf o' else o' = o_refs ((a, h) :: refs o) o
  end.

Lemma get_session_ok strict t o i ex h : wf o -> head_ok o h -> (strict = true -> locks o = []) ->
  ok strict t o (tee_ta_get_session t i ex h) (got o ex h).
Proof.
  intros W Hh Hs. unfold tee_ta_get_session. apply ok_bind, ok_sec. intros s G I Ht Hfu.
  destruct (find_nolock_run s G t o I Ht i h Hh) as (r & Hf & Hr). unfold bind at 1. rewrite Hf. destruct r as [a|].
  2:{ right. exists o. split; [by rewrite list_insert_id|done]. }
  destruct Hr as (Hl & x & Ha & _). rewrite (session_run _ _ x) by done. destruct (unlink x) eqn:Eu.
  { right. exists o. split; [by rewrite list_insert_id|done]. }
  unfold bind at 1. rewrite (upd_session_run _ _ x) by done. set (s1 := snd (put_sessions (<[a := add_ref 1 x]>) s)). change (put_sessions (<[a := add_ref 1 x]>) s) with (Ret tt, s1).
  assert (upd1 s s1 a (add_ref 1 x)) as U1 by done. destruct ex; cbn [negb].
  2:{ right. exists (o_refs ((a, h) :: refs o) o). split; [by eapply take_ref|done]. }
  unfold bind at 1. destruct (decide (lock_thread x = Some t)) as [Em|Em].
  { rewrite bool_decide_true by done. cbn. destruct strict; [|done]. destruct (si_owner _ _ (i_sess _ _ I) _ _ _ Ha Em) as (o1 & Ho1 & Hin). simplify_eq. rewrite Hs in Hin by done. by apply elem_of_nil in Hin. }
  rewrite bool_decide_false by done. cbn [negb assert_ ret]. destruct (lock_thread x) as [t0|] eqn:El.
  - right. exists (o_refs ((a, h) :: refs o) o). split; [by eapply take_ref|]. apply ok_wait. intros s2 G2 I2 Ht2 Hfu2.
    destruct (si_live _ _ (i_sess _ _ I2) h a) as [y Hy]; [eapply (si_ref _ _ (i_sess _ _ I2)); [exact Ht2|by left]|]. rewrite (session_run _ _ y) by done.
    destruct (bool_decide (lock_thread y <> None) && negb (unlink y)) eqn:Eb; [done|]. destruct (unlink y) eqn:Euy.
    + destruct (dec_run s2 a y Hy) as (s3 & Hd & U3); [eapply ref_pos; [done|exact Ht2|done|nrefs]|]. unfold bind. rewrite Hd. right. exists o. split; [by eapply drop_ref|done].
    + cbn [negb] in Eb. rewrite andb_true_r in Eb. apply bool_decide_eq_false in Eb. assert (lock_thread y = None) as Ely by (destruct (lock_thread y); [exfalso; by apply Eb|done]).
      unfold bind. rewrite (upd_session_run _ _ y) by done. cbn. right. eexists. match goal with |- inv ?s' _ /\ _ => destruct (turn_lock t o W s2 s' G2 a h y I2 Ht2 Hy Ely Euy) as [Wk Ik]; [done|] end.
      split; [exact Ik|]. destruct (si_ctx _ _ (i_sess _ _ I2) _ _ Hy Ely) as [c Ec]. rewrite Ec in Wk. exists c. by rewrite Ec.
  - unfold bind. rewrite (upd_session_run _ _ (add_ref 1 x)) by (unfold s1; cbn; by rewrite lookup_insert_eq). cbn. right. eexists.
    match goal with |- inv ?s' _ /\ _ => destruct (take_lock t o W s s' G a h x I Hfu Ht Ha Hl El Eu) as [Wk Ik]; [split; [cbn; by rewrite insert_insert_eq|done|done]|] end.
    split; [exact Ik|]. destruct (si_ctx _ _ (i_sess _ _ I) _ _ Ha El) as [c Ec]. rewrite Ec in Wk. exists c. by rewrite Ec.
Qed.

(** Putting a session that the thread has not locked, and one that it has. *)
Lemma put_ref_ok strict t o a h : a ∉ (l_a <$> locks o) -> ok strict t (o_refs ((a, h) :: refs o) o) (tee_ta_put_session t a) (fun _ o' => o' = o).
Proof.
  intros Hn. apply ok_sec. intros s G I Ht Hfu. pose proof (i_wf _ _ I _ _ Ht) as W'.
  destruct (si_live _ _ (i_sess _ _ I) h a) as [x Ha]; [eapply (si_ref _ _ (i_sess _ _ I)); [exact Ht|by left]|]. rewrite (session_run _ _ x) by done.
  rewrite bool_decide_false by (intros E; destruct (si_owner _ _ (i_sess _ _ I) _ _ _ Ha E) as (o1 & Ho1 & Hin); simplify_eq; done).
  destruct (dec_run s a x Ha) as (s' & Hd & U); [eapply ref_pos; [done|exact Ht|done|nrefs]|]. unfold bind. cbn [ret]. rewrite Hd. right. exists o. split; [|done].
  eapply drop_ref; [|done|done|done|done|done]. destruct W' as [H1 H2 H3 H4 H5]. split; done.
Qed.

Lemma lock_fresh k o : wf (o_locks (k :: locks o) o) -> l_a k ∉ (l_a <$> locks o).
Proof. intros [H _ _ _ _]. cbn [o_locks locks fmap list_fmap] in H. by apply NoDup_cons in H as [? _]. Qed.

Lemma put_lock_ok strict t o k : wf o -> is_Some (l_ctx k) -> ok strict t (o_locks (k :: locks o) o) (tee_ta_put_session t (l_a k)) (fun _ o' => o' = o).
Proof.
  intros W Hctx. apply ok_sec. intros s G I Ht Hfu. pose proof (lock_fresh _ _ (i_wf _ _ I _ _ Ht)) as Hfr.
  destruct (lock_live _ _ _ _ I Ht k ltac:(by left)) as (x & Ha & Hx & Hc & _ & Hl). set (a := l_a k) in *. pose proof (ref_range _ _ _ _ I Hfu Ha). assert (0 < s_ref_count x) by (eapply ref_pos; [done|exact Ht|done|nrefs]). rewrite (session_run _ _ x) by done.
  rewrite bool_decide_true by done. unfold bind at 1 2. rewrite (upd_session_run _ _ x) by done.
  set (s1 := snd (condvar_signal (LockCv a) (snd (put_sessions (<[a := set_lock None x]>) s)))).
  change (match put_sessions (<[a := set_lock None x]>) s with (Ret _, s') => condvar_signal (LockCv a) s' | (Err e, s') => (Err e, s') | (Panic, s') => (Panic, s') | (Undef u, s') => (Undef u, s') end) with (Ret tt, s1).
  destruct (dec_run s1 a (set_lock None x)) as (s' & Hd & [E1 E2 E3]); [unfold s1; cbn; by rewrite lookup_insert_eq|cbn; eapply ref_pos; [done|exact Ht|done|nrefs]|].
  rewrite Hd. right. exists o. split; [|done]. assert (upd1 s s' a (add_ref (-1) (set_lock None x))) as U.
  { split; [rewrite E1; unfold s1; cbn; by rewrite insert_insert_eq|rewrite E2; done|destruct E3; split; done]. }
  apply (inv_sess s s' G t (o_locks (k :: locks o) o)); try done; [apply U|by eapply upd1_att|].
  apply (sess_change s s' G t (o_locks (k :: locks o) o) _ a x _ (i_sess _ _ I) Ht Ha (u_sess _ _ _ _ U) (u_open _ _ _ _ U)).
  - intros b Hb. nrefs.
  - rewrite add_ref_count, set_lock_count by (rewrite set_lock_count; lia). nrefs.
  - intros b h' Hb. by left.
  - intros k' Hk'. left. split; [|by right]. intros E. apply Hfr. rewrite <- E. by apply list_elem_of_fmap_2.
  - congruence.
  - done.
  - intros b Hb Hin. cbn [o_locks locks fmap list_fmap] in Hin. by apply elem_of_cons in Hin as [->|?].
  - intros _. cbn [add_ref set_lock s_ctx]. by rewrite Hc.
Qed.

(** ** Removing a session *)

Definition ref_of (oc : option addr) (l : list addr) : list addr := match oc with Some c => c :: l | None => l end.

Lemma natt_delete c (m : gmap addr (option addr)) a oc : m !! a = Some oc -> natt c m = ((if decide (oc = Some c) then 1 else 0) + natt c (delete a m))%nat.
Proof.
  intros Ha. unfold natt. rewrite <- (map_to_list_delete m a oc Ha). rewrite filter_cons. cbn [snd]. by case_decide.
Qed.

Lemma natt_insert c (m : gmap addr (option addr)) a oc : m !! a = None -> natt c (<[a := oc]> m) = ((if decide (oc = Some c) then 1 else 0) + natt c m)%nat.
Proof. intros Ha. rewrite (natt_delete c _ a oc) by apply lookup_insert_eq. by rewrite delete_insert_id. Qed.

Lemma cnt_ref_of c oc l : cnt c (ref_of oc l) = ((if decide (oc = Some c) then 1 else 0) + cnt c l)%nat.
Proof. destruct oc as [c'|]; cbn [ref_of]; [rewrite cnt_cons|]; repeat case_decide; (done || congruence). Qed.

(** The reference of a freed session to its context passes to the thread. *)
Lemma ctx_detach m l at_ G t o o' a oc : ctx_inv m l at_ G -> G !! t = Some o -> at_ !! a = Some oc -> crefs o' = ref_of oc (crefs o) -> ents o' = ents o -> cents o' = cents o -> inits o' = inits o -> dtors o' = dtors o ->
  ctx_inv m l (delete a at_) (<[t := o']> G).
Proof.
  intros C Ht Ha Ec Ee Eq Ei Ed. pose proof C as [H1 H2 H3 H4 H5 H6 H7 H8 H9 H10 H11 H12].
  assert (ctx_inv m l at_ (<[t := o_crefs (crefs o) o']> G)) as [K1 K2 K3 K4 K5 K6 K7 K8 K9 K10 K11 K12].
  { by apply (ctx_frame _ _ _ _ _ o). }
  assert (forall (f : own -> nat), f (o_crefs (crefs o) o') = f o' -> total f (<[t := o']> G) = total f (<[t := o_crefs (crefs o) o']> G)) as Hf.
  { intros f E. rewrite <- (list_insert_insert_eq G t o' (o_crefs (crefs o) o')). eapply total_same; [|by symmetry]. apply list_lookup_insert_eq. by eapply lookup_lt_Some. }
  split; try done.
  - intros c x Hc. rewrite (H1 c x Hc). rewrite (natt_delete c _ a oc Ha). pose proof (total_insert (fun o => cnt c (crefs o)) G t o o' Ht) as T. cbv beta in T. rewrite Ec, cnt_ref_of in T. lia.
  - intros b c Hb. apply lookup_delete_Some in Hb as [_ Hb]. by eapply H2.
  - intros t0 o0 c Ht0 Hin. destruct (lookup_upd _ _ _ _ _ _ Ht Ht0) as [[-> ->]|[_ ?]]; [|by eapply H3]. rewrite Ec in Hin. destruct oc as [c'|]; cbn [ref_of] in Hin; [|by eapply H3].
    apply elem_of_cons in Hin as [->|Hin]; [by eapply H2|by eapply H3].
  - intros c x Hc. rewrite (Hf (fun o => cnt c (ents o))) by done. by apply K6.
  - intros t0 o0 c Ht0. destruct (lookup_upd _ _ _ _ _ _ Ht Ht0) as [[-> ->]|[_ ?]]; [rewrite Ee|]; by eapply H7.
  - intros c x Hc. rewrite (Hf (fun o => cnt c (inits o))) by done. by apply K8.
  - intros t0 o0 c Ht0. destruct (lookup_upd _ _ _ _ _ _ Ht Ht0) as [[-> ->]|[_ ?]]; [rewrite Ed|]; by eapply H10.
  - intros c. rewrite (Hf (fun o => cnt c (dtors o))) by done. by apply K11.
  - intros t0 o0 c Ht0. destruct (lookup_upd _ _ _ _ _ _ Ht Ht0) as [[-> ->]|[_ ?]]; [rewrite Eq|]; by eapply H12.
Qed.

Definition without (a : addr) (l : list addr) : list addr := List.filter (fun y => negb (bool_decide (y = a))) l.
Lemma elem_without a l b : b ∈ without a l <-> b ∈ l /\ b <> a.
Proof.
  unfold without. rewrite !list_elem_of_In, filter_In. rewrite negb_true_iff, bool_decide_eq_false. done.
Qed.
Lemma NoDup_without a l : NoDup l -> NoDup (without a l).
Proof. unfold without. rewrite !NoDup_ListNoDup. apply List.NoDup_filter. Qed.

(** Session [a] has left the list [h] and is freed. *)
Record removed (s s' : tam) (a : addr) (h : head) : Prop := mk_removed {
  m_sess : sessions s' = delete a (sessions s);
  m_open : open_sessions s' = <[h := without a (olist h s)]> (open_sessions s);
  m_same : same_ctx s s';
}.

Lemma removed_olist s s' G a h h0 b : sess_inv s G -> removed s s' a h -> a ∈ olist h s -> b ∈ olist h0 s' <-> b ∈ olist h0 s /\ b <> a.
Proof.
  intros S [_ E _] Ha. unfold olist at 1. rewrite E. destruct (decide (h0 = h)) as [->|Hne].
  - rewrite lookup_insert_eq. cbn [default]. apply elem_without.
  - rewrite lookup_insert_ne by done. fold (olist h0 s). split; [|by intros [? _]]. intros Hb. split; [done|]. intros ->. apply Hne. by eapply (si_head _ _ S).
Qed.

Lemma sess_remove s s' G t o o' k : sess_inv s G -> (forall t o, G !! t = Some o -> wf o) -> G !! t = Some o -> locks o = k :: locks o' -> refs o' = refs o ->
  total (nref (l_a k)) G = 1%nat -> removed s s' (l_a k) (l_head k) -> sess_inv s' (<[t := o']> G).
Proof.
  intros S Wf Ht El Er Htot Rm. pose proof (si_lock _ _ S _ _ k Ht ltac:(rewrite El; by left)) as (x & Hx & _ & _ & _ & Hin). set (a := l_a k) in *.
  pose proof (removed_olist s s' G a (l_head k) ) as Ho. pose proof Rm as [E1 E2 E3]. assert (forall h0 b, b ∈ olist h0 s' <-> b ∈ olist h0 s /\ b <> a) as Hol by (intros; by eapply Ho).
  assert (forall b, nref b o = (if decide (a = b) then 1 else 0) + nref b o')%nat as Hn.
  { intros b. unfold nref. rewrite El, Er. cbn [fmap list_fmap]. rewrite cnt_cons. fold a. lia. }
  assert (forall t0 o0, <[t := o']> G !! t0 = Some o0 -> nref a o0 = 0%nat) as Hz.
  { intros t0 o0 Ht0. destruct (lookup_upd _ _ _ _ _ _ Ht Ht0) as [[-> ->]|[Hne Ho0]].
    - pose proof (total_le (nref a) G t o Ht). rewrite Hn in H. case_decide; [lia|done].
    - pose proof (total_two (nref a) G t t0 o o0 ltac:(done) Ht Ho0). rewrite Hn in H. case_decide; [lia|done]. }
  assert (forall b, b <> a -> total (nref b) (<[t := o']> G) = total (nref b) G) as Hts.
  { intros b Hb. apply (total_same _ _ _ o); [done|]. rewrite Hn. by case_decide. }
  assert (forall t0 o0, <[t := o']> G !! t0 = Some o0 -> exists o1, G !! t0 = Some o1 /\ refs o0 = refs o1 /\ forall k', k' ∈ locks o0 -> k' ∈ locks o1) as Hsub.
  { intros t0 o0 Ht0. destruct (lookup_upd _ _ _ _ _ _ Ht Ht0) as [[-> ->]|[Hne Ho0]]; [exists o|by exists o0]. split; [done|]. split; [done|]. intros k' Hk'. rewrite El. by right. }
  destruct S as [H1 H2 H3 H4 H5 H6 H7 H8]. split.
  - intros b y. rewrite E1. intros [Hb Hy]%lookup_delete_Some. rewrite Hts by done. by apply H1.
  - intros t0 o0 b h0 Ht0 Hb. apply Hol. destruct (Hsub _ _ Ht0) as (o1 & Ho1 & Er1 & _). split; [eapply H2; [exact Ho1|by rewrite <- Er1]|]. intros ->.
    pose proof (Hz _ _ Ht0) as Z. unfold nref in Z. assert (0 < cnt a (fst <$> refs o0))%nat; [|lia]. apply cnt_elem. apply (list_elem_of_fmap_2 fst _ _ Hb).
  - intros t0 o0 k' Ht0 Hk'. destruct (Hsub _ _ Ht0) as (o1 & Ho1 & _ & Hl). destruct (H3 _ _ _ Ho1 (Hl _ Hk')) as (y & Hy & Y1 & Y2 & Y3 & Y4).
    assert (l_a k' <> a) as Hne. { intros E. pose proof (Hz _ _ Ht0) as Z. unfold nref in Z. assert (0 < cnt a (l_a <$> locks o0))%nat; [|lia]. apply cnt_elem. rewrite <- E. by apply list_elem_of_fmap_2. }
    exists y. rewrite E1, lookup_delete_ne by done. split_and!; try done. by apply Hol.
  - intros b y t0. rewrite E1. intros [Hb Hy]%lookup_delete_Some Hl. destruct (H4 _ _ _ Hy Hl) as (o1 & Ho1 & Hin1). destruct (decide (t0 = t)) as [->|Hne].
    + simplify_eq. exists o'. rewrite list_lookup_insert_eq by (by eapply lookup_lt_Some). split; [done|]. rewrite El in Hin1. cbn [fmap list_fmap] in Hin1. fold a in Hin1. by apply elem_of_cons in Hin1 as [?|?].
    + exists o1. by rewrite list_lookup_insert_ne.
  - intros h0. unfold olist. rewrite E2. destruct (decide (h0 = l_head k)) as [->|]; [rewrite lookup_insert_eq; cbn; apply NoDup_without, H5|rewrite lookup_insert_ne by done; apply H5].
  - intros h0 b Hb. apply Hol in Hb as [Hb Hne]. rewrite E1, lookup_delete_ne by done. by eapply H6.
  - intros h0 h1 b Hb Hb'. apply Hol in Hb as [Hb _]. apply Hol in Hb' as [Hb' _]. by eapply H7.
  - intros b y. rewrite E1. intros [_ Hy]%lookup_delete_Some. by apply H8 with b.
Qed.

(** The whole invariant after the removal. *)
Lemma inv_remove s s' G t o o' k : inv s G -> G !! t = Some o -> locks o = k :: locks o' -> refs o' = refs o -> crefs o' = ref_of (l_ctx k) (crefs o) -> ents o' = ents o -> cents o' = cents o -> inits o' = inits o ->
  dtors o' = dtors o -> stk o' = stk o -> wf o' -> total (nref (l_a k)) G = 1%nat -> removed s s' (l_a k) (l_head k) -> inv s' (<[t := o']> G).
Proof.
  intros I Ht El Er Ec Ee Eq Ei Ed Es W' Htot Rm. pose proof (i_sess _ _ I) as S. pose proof (si_lock _ _ S _ _ k Ht ltac:(rewrite El; by left)) as (x & Hx & _ & Hcx & _ & Hin).
  pose proof Rm as [E1 E2 [F1 F2 F3 F4 F5 F6]]. split.
  - rewrite F6. apply I.
  - eapply wf_upd; [apply I|done|done].
  - apply (sess_remove s s' G t o o' k S); try done. apply I.
  - rewrite F1, F2. replace (att s') with (delete (l_a k) (att s)) by (unfold att; rewrite E1; by rewrite fmap_delete).
    apply (ctx_detach _ _ _ _ _ o o' _ (l_ctx k)); try done; [apply I|]. rewrite (att_lookup _ _ _ Hx). by rewrite Hcx.
  - rewrite F1, F3, F4. apply (single_frame _ _ _ _ _ o); [apply I|done|done].
  - rewrite F5. apply (stack_frame _ _ _ o); [apply I|done|done].
Qed.

Lemma wf_relock k k' o : l_a k' = l_a k -> l_ctx k' = l_ctx k -> wf (o_locks (k :: locks o) o) -> wf (o_locks (k' :: locks o) o).
Proof.
  intros Ea Ec [H1 H2 H3 H4 H5]. assert (forall c, attached (o_locks (k :: locks o) o) c -> attached (o_locks (k' :: locks o) o) c) as Hat.
  { intros c (j & Hj & E). cbn [o_locks locks] in Hj. apply elem_of_cons in Hj as [->|Hj]; [exists k'; split; [by left|congruence]|exists j; split; [by right|done]]. }
  split.
  - cbn [o_locks locks fmap list_fmap] in *. by rewrite Ea.
  - intros c Hc. destruct (H2 c Hc) as [?|?]; [left; by apply Hat|by right].
  - intros c Hc. destruct (H3 c Hc) as [?|?]; [left; by apply Hat|by right].
  - intros c Hc. by apply Hat, H4.
  - intros a c Hs. destruct (H5 _ _ Hs) as [(j & Hj & E1 & E2) ?]. split; [|done]. cbn [o_locks locks] in Hj.
    apply elem_of_cons in Hj as [->|Hj]; [exists k'; split; [by left|split; congruence]|exists j; split; [by right|done]].
Qed.

Lemma head_ok_lock k o h : head_ok o h -> head_ok (o_locks (k :: locks o) o) h.
Proof. destruct h as [|c]; [done|]. intros [(j & Hj & E)|?]; [left; exists j; split; [by right|done]|by right]. Qed.

Lemma remove_session_run s G t o a h x : inv s G -> G !! t = Some o -> head_ok o h -> a ∈ olist h s -> sessions s !! a = Some x ->
  exists s', remove_session a h s = (Ret tt, s') /\ removed s s' a h /\ raced s' = raced s.
Proof.
  intros I Ht Hh Hin Ha. unfold remove_session. rewrite (sessions_of_run _ _ _ _ I Ht) by done. unfold bind, TAILQ_REMOVE. rewrite bool_decide_true by done. cbn.
  rewrite Ha. cbn. eexists. split; [reflexivity|]. split; [split; try done|done].
Qed.

(** The second half of [destroy_session]. *)
Lemma unlinked_ok strict t o k : l_unlink k = true -> head_ok o (l_head k) -> wf (o_crefs (ref_of (l_ctx k) (crefs o)) o) ->
  ok strict t (o_locks (k :: locks o) o) (waiting (
    let! x := the_session (l_a k) in
    if negb (s_ref_count x =? 1) then ret (inr (RefcCv (l_a k))) else
    do! remove_session (l_a k) (l_head k) in ret (inl tt))) (fun _ o' => o' = o_crefs (ref_of (l_ctx k) (crefs o)) o).
Proof.
  intros Hu Hok W. apply ok_wait. intros s G I Ht Hfu. destruct (lock_live _ _ _ _ I Ht k ltac:(by left)) as (x & Ha & Hx & Hc & _ & Hl).
  rewrite (session_run _ _ x) by done. destruct (s_ref_count x =? 1) eqn:E1; bool_hyps; [|done]. cbn [negb].
  destruct (remove_session_run s G t _ _ _ x I Ht (head_ok_lock _ _ _ Hok) Hl Ha) as (s' & Hr & Rm & _). unfold bind. rewrite Hr. right. eexists. split; [|reflexivity].
  eapply (inv_remove s s' G t _ _ k); try done. pose proof (si_count _ _ (i_sess _ _ I) _ _ Ha). lia.
Qed.

Lemma destroy_session_ok strict t o k h : l_unlink k = false -> l_head k = h -> head_ok o h -> wf (o_crefs (ref_of (l_ctx k) (crefs o)) o) ->
  ok strict t (o_locks (k :: locks o) o) (destroy_session t (l_a k) h) (fun _ o' => o' = o_crefs (ref_of (l_ctx k) (crefs o)) o).
Proof.
  intros Hu Hh Hok W. unfold destroy_session. apply ok_bind, ok_sec. intros s G I Ht Hfu.
  destruct (lock_live _ _ _ _ I Ht k ltac:(by left)) as (x & Ha & Hx & Hc & Hux & Hl). set (a := l_a k) in *. rewrite (session_run _ _ x) by done.
  assert (0 < s_ref_count x) by (eapply ref_pos; [done|exact Ht|done|nrefs]). rewrite (proj2 (Z.leb_le 1 _)) by lia. rewrite bool_decide_true by done. rewrite Hux, Hu.
  unfold bind. cbn [assert_ negb ret]. rewrite (upd_session_run _ _ x) by done. cbn. right.
  set (k' := mk_lk a (l_ctx k) h true). exists (o_locks (k' :: locks o) o). split.
  - match goal with |- inv ?s' _ => assert (upd1 s s' a (set_unlink x)) as U by (split; done); set (s1 := s') in * end.
    assert (wf (o_locks (k' :: locks o) o)) as W' by (eapply (wf_relock k); [done|done|]; by eapply (i_wf _ _ I)).
    pose proof (lock_fresh _ _ W') as Hfr. cbn [l_a k'] in Hfr. apply (inv_sess s s1 G t (o_locks (k :: locks o) o)); try done; [by eapply upd1_att|].
    apply (sess_change s s1 G t (o_locks (k :: locks o) o) _ a x _ (i_sess _ _ I) Ht Ha (u_sess _ _ _ _ U) (u_open _ _ _ _ U)).
    + intros b Hb. rewrite !nref_locks. cbn [k' l_a]. fold a. done.
    + cbn [set_unlink s_ref_count]. rewrite !nref_locks. cbn [k' l_a]. fold a. lia.
    + intros b h' Hb. by left.
    + intros j Hj. cbn [o_locks locks] in Hj. apply elem_of_cons in Hj as [->|Hj]; [right; cbn [k' l_a l_ctx l_unlink l_head]; rewrite Hh in Hl; done|].
      left. split; [|by right]. intros E. apply Hfr. rewrite <- E. by apply list_elem_of_fmap_2.
    + congruence.
    + intros t0 E. left. cbn in E. split; [congruence|]. by left.
    + intros b Hb Hin. done.
    + cbn [set_unlink lock_thread]. congruence.
  - exact (unlinked_ok strict t o k' eq_refl Hok W).
Qed.
