(* ===== verification/TaManagerCtx.v ===== *)
(** * The TA manager: contexts

    Specifications of entering and leaving a context, of the references to contexts, and of their
    registration, release and destruction, in terms of what the thread owns. *)
From stdpp Require Import gmap.
From S2P Require Import Prelude Threads TaManager TaManagerInv TaManagerSess.
Local Open Scope Z_scope.

(** ** Changing one context *)

Definition b1 (b : bool) : nat := if b then 1%nat else 0%nat.

Lemma flag_upd f (m : gmap addr tee_ta_ctx) c x x' c0 : m !! c = Some x -> flags x' = flags x \/ c0 <> c -> flag f (<[c := x']> m) c0 = flag f m c0.
Proof.
  intros Hc H. unfold flag. destruct (decide (c0 = c)) as [->|]; [|by rewrite lookup_insert_ne]. rewrite lookup_insert_eq, Hc. destruct H as [->|]; done.
Qed.

Lemma nsing_cons m c l : nsing m (c :: l) = (b1 (flag TA_FLAG_SINGLE_INSTANCE m c) + nsing m l)%nat.
Proof. unfold nsing. rewrite filter_cons. by destruct (flag _ m c). Qed.

Lemma nsing_ext m m' l : (forall c, c ∈ l -> flag TA_FLAG_SINGLE_INSTANCE m' c = flag TA_FLAG_SINGLE_INSTANCE m c) -> nsing m' l = nsing m l.
Proof.
  induction l as [|c l IH]; [done|]. intros H. rewrite !nsing_cons, H by (by left). f_equal. apply IH. intros c0 Hc0. apply H. by right.
Qed.

Lemma single_flags m m' th n G : single_inv m th n G -> (forall t o c, G !! t = Some o -> c ∈ ents o -> flag TA_FLAG_SINGLE_INSTANCE m' c = flag TA_FLAG_SINGLE_INSTANCE m c) -> single_inv m' th n G.
Proof. intros [H1 H2 H3] H. split; [|done|done]. intros t o Ht. rewrite (nsing_ext m m'); [by apply H1|]. intros c Hc. by eapply H. Qed.

(** What a section may do to the context [c] and the list, and to the thread's part in it; [d] is the
    change in the number of sessions on [c]. *)
Record change (m : gmap addr tee_ta_ctx) (l l' : list addr) (G : list own) (o o' : own) (c : addr) (x x' : tee_ta_ctx) (d : Z) : Prop := mk_change {
  g_crefs b : b <> c -> cnt b (crefs o') = cnt b (crefs o);
  g_ents b : b <> c -> cnt b (ents o') = cnt b (ents o);
  g_inits b : b <> c -> cnt b (inits o') = cnt b (inits o);
  g_dtors b : b <> c -> cnt b (dtors o') = cnt b (dtors o);
  g_cents b : b ∈ cents o' -> b ∈ cents o \/ b = c /\ has (flags x') TA_FLAG_CONCURRENT = true;
  g_ref : c_ref_count x' + Z.of_nat (cnt c (crefs o)) = c_ref_count x + Z.of_nat (cnt c (crefs o')) + d;
  g_busy : (b1 (busy x') + cnt c (ents o) = b1 (busy x) + cnt c (ents o'))%nat;
  g_init : (b1 (is_initializing x') + cnt c (inits o) = b1 (is_initializing x) + cnt c (inits o'))%nat;
  g_conc : c ∈ ents o' -> has (flags x') TA_FLAG_CONCURRENT = false;
  g_dtor : c ∈ dtors o' -> is_releasing x' = true /\ c_ref_count x' = 0;
  g_keep : is_releasing x = true -> c_ref_count x = 0 -> is_releasing x' = true /\ c_ref_count x' = 0;
  g_dtor1 : (cnt c (dtors o') <= cnt c (dtors o))%nat \/ total (fun o => cnt c (dtors o)) G = 0%nat /\ (cnt c (dtors o') <= 1)%nat;
  g_ready : is_initializing x' = true -> c_ref_count x' = 1 /\ busy x' = false /\ is_releasing x' = false /\ flags x' = 0;
  g_flags : flags x' = flags x \/ is_initializing x = true;
  g_list : NoDup l';
  g_listed b : b ∈ l' <-> (b <> c /\ b ∈ l) \/ (b = c /\ is_releasing x' = false);
}.

Lemma total_zero {X} (f : X -> nat) G t o : total f G = 0%nat -> G !! t = Some o -> f o = 0%nat.
Proof. intros H Ht. pose proof (total_le f G t o Ht). lia. Qed.

Lemma cnt_in {A} `{EqDecision A} (b : A) l l' : cnt b l' = cnt b l -> b ∈ l' -> b ∈ l.
Proof. intros E. rewrite <- !cnt_elem. lia. Qed.

(** A context that is being initialised has not been entered. *)
Lemma init_not_entered m l at_ G t o c x : ctx_inv m l at_ G -> G !! t = Some o -> m !! c = Some x -> is_initializing x = true -> c ∉ ents o /\ c ∉ cents o.
Proof.
  intros C Ht Hc Hi. destruct (ci_ready _ _ _ _ C _ _ Hc Hi) as (_ & Hb & _ & Hf). split.
  - apply cnt_zero. apply (total_zero (fun o => cnt c (ents o)) G t); [|done]. rewrite (ci_busy _ _ _ _ C _ _ Hc). by rewrite Hb.
  - intros Hin. pose proof (ci_conc _ _ _ _ C _ _ _ Ht Hin) as Hq. unfold flag in Hq. rewrite Hc, Hf in Hq. done.
Qed.

Lemma ctx_change m l l' at_ at' G t o o' c x x' d : ctx_inv m l at_ G -> G !! t = Some o -> m !! c = Some x -> change m l l' G o o' c x x' d ->
  (forall b, b <> c -> natt b at' = natt b at_) -> Z.of_nat (natt c at') = Z.of_nat (natt c at_) + d -> (forall a b, at' !! a = Some (Some b) -> b = c \/ exists a', at_ !! a' = Some (Some b)) ->
  ctx_inv (<[c := x']> m) l' at' (<[t := o']> G).
Proof.
  intros C Ht Hc [c1 c2 c3 c4 c5 c6 c7 c8 c9 c10 c11 c12 c13 c14 c15 c16] Na Nc Nat. pose proof C as [H1 H2 H3 H4 H5 H6 H7 H8 H9 H10 H11 H12].
  assert (forall b, is_Some (m !! b) -> is_Some (<[c := x']> m !! b)) as Hl by (intros b Hb; apply lookup_insert_is_Some'; by right).
  assert (forall t0 o0 b f, G !! t0 = Some o0 -> b ∈ ents o0 \/ b ∈ cents o0 -> flag f (<[c := x']> m) b = flag f m b) as Hflag.
  { intros t0 o0 b f Ht0 Hb. apply (flag_upd f m c x x' b Hc). destruct c14 as [?|Hi]; [by left|]. right. intros ->. destruct (init_not_entered _ _ _ _ _ _ _ _ C Ht0 Hc Hi). by destruct Hb. }
  split.
  - intros b y Hb. pose proof (total_insert (fun o => cnt b (crefs o)) G t o o' Ht) as T. cbv beta in T. destruct (decide (b = c)) as [->|Hne].
    + rewrite lookup_insert_eq in Hb. injection Hb as <-. pose proof (H1 _ _ Hc). lia.
    + rewrite lookup_insert_ne in Hb by done. rewrite c1 in T by done. rewrite (H1 _ _ Hb), Na by done. lia.
  - intros a b Hb. destruct (Nat _ _ Hb) as [->|[a' Ha']]; [rewrite lookup_insert_eq; eauto|]. apply Hl. by eapply H2.
  - intros t0 o0 b Ht0 Hb. destruct (lookup_upd _ _ _ _ _ _ Ht Ht0) as [[-> ->]|[_ Ho]]; [|apply Hl; by eapply H3].
    destruct (decide (b = c)) as [->|Hne]; [rewrite lookup_insert_eq; eauto|]. apply Hl. eapply H3; [exact Ht|]. eapply cnt_in; [|exact Hb]. by apply c1.
  - done.
  - intros b. rewrite c16, H5. destruct (decide (b = c)) as [->|Hne].
    + rewrite lookup_insert_eq. split; [intros [[? _]|[_ ?]]; [done|eauto]|]. intros (y & [= <-] & ?). by right.
    + rewrite lookup_insert_ne by done. split; [intros [[_ ?]|[? _]]; done|]. intros ?. by left.
  - intros b y Hb. pose proof (total_insert (fun o => cnt b (ents o)) G t o o' Ht) as T. cbv beta in T. destruct (decide (b = c)) as [->|Hne].
    + rewrite lookup_insert_eq in Hb. injection Hb as <-. pose proof (H6 _ _ Hc). unfold b1 in c7. destruct (busy x), (busy x'); lia.
    + rewrite lookup_insert_ne in Hb by done. rewrite c2 in T by done. rewrite <- (H6 _ _ Hb). lia.
  - intros t0 o0 b Ht0 Hb. destruct (lookup_upd _ _ _ _ _ _ Ht Ht0) as [[-> ->]|[_ Ho]].
    + destruct (decide (b = c)) as [->|Hne]; [unfold flag; rewrite lookup_insert_eq; by apply c9|]. rewrite (flag_upd _ _ _ x) by (done || by right). eapply H7; [exact Ht|]. eapply cnt_in; [|exact Hb]. by apply c2.
    + rewrite (Hflag _ _ _ _ Ho) by (by left). by eapply H7.
  - intros b y Hb. pose proof (total_insert (fun o => cnt b (inits o)) G t o o' Ht) as T. cbv beta in T. destruct (decide (b = c)) as [->|Hne].
    + rewrite lookup_insert_eq in Hb. injection Hb as <-. pose proof (H8 _ _ Hc). unfold b1 in c8. destruct (is_initializing x), (is_initializing x'); lia.
    + rewrite lookup_insert_ne in Hb by done. rewrite c3 in T by done. rewrite <- (H8 _ _ Hb). lia.
  - intros b y Hb. destruct (decide (b = c)) as [->|Hne]; [rewrite lookup_insert_eq in Hb; injection Hb as <-; apply c13|rewrite lookup_insert_ne in Hb by done; by eapply H9].
  - intros t0 o0 b Ht0 Hb. destruct (decide (b = c)) as [->|Hne].
    + exists x'. rewrite lookup_insert_eq. split; [done|]. destruct (lookup_upd _ _ _ _ _ _ Ht Ht0) as [[-> ->]|[_ Ho]]; [by apply c10|].
      destruct (H10 _ _ _ Ho Hb) as (y & Hy & ? & ?). simplify_eq. by apply c11.
    + rewrite lookup_insert_ne by done. destruct (lookup_upd _ _ _ _ _ _ Ht Ht0) as [[-> ->]|[_ Ho]]; [|by eapply H10]. eapply H10; [exact Ht|]. eapply cnt_in; [|exact Hb]. by apply c4.
  - intros b. pose proof (total_insert (fun o => cnt b (dtors o)) G t o o' Ht) as T. cbv beta in T. specialize (H11 b). destruct (decide (b = c)) as [->|Hne]; [destruct c12 as [?|[? ?]]; lia|].
    rewrite c4 in T by done. lia.
  - intros t0 o0 b Ht0 Hb. destruct (lookup_upd _ _ _ _ _ _ Ht Ht0) as [[-> ->]|[_ Ho]].
    + destruct (c5 b Hb) as [Hb'|[-> ?]]; [|unfold flag; by rewrite lookup_insert_eq]. rewrite (Hflag _ _ _ _ Ht) by (by right). by eapply H12.
    + rewrite (Hflag _ _ _ _ Ho) by (by right). by eapply H12.
Qed.

(** The invariant after a section on one context. *)
Record ctx_step (s s' : tam) (c : addr) (x' : tee_ta_ctx) (l' : list addr) (th : option tid) (n : Z) : Prop := mk_ctx_step {
  x_ctxs : ctxs s' = <[c := x']> (ctxs s);
  x_list : tee_ctxes s' = l';
  x_th : tee_ta_single_instance_thread s' = th;
  x_n : tee_ta_single_instance_count s' = n;
  x_sess : sessions s' = sessions s;
  x_open : open_sessions s' = open_sessions s;
  x_stack : sess_stack s' = sess_stack s;
  x_raced : raced s' = raced s;
}.

Lemma inv_ctx s s' G t o o' c x x' l' th n : inv s G -> G !! t = Some o -> ctxs s !! c = Some x -> ctx_step s s' c x' l' th n -> wf o' ->
  refs o' = refs o -> locks o' = locks o -> stk o' = stk o -> change (ctxs s) (tee_ctxes s) l' G o o' c x x' 0 ->
  single_inv (<[c := x']> (ctxs s)) th n (<[t := o']> G) -> inv s' (<[t := o']> G).
Proof.
  intros I Ht Hc [E1 E2 E3 E4 E5 E6 E7 E8] W Er El Es Ch Si. split.
  - rewrite E8. apply I.
  - eapply wf_upd; [apply I|done|done].
  - apply (sess_frame s _ _ _ o); try done. apply I.
  - rewrite E1, E2. unfold att. rewrite E5. eapply ctx_change; [apply I|done|done|done|done|by rewrite Z.add_0_r|eauto].
  - by rewrite E1, E3, E4.
  - rewrite E7. apply (stack_frame _ _ _ o); [apply I|done|done].
Qed.

(** The single-instance lock when a context is entered or left. *)
Lemma single_enter m th n G t o o' c : single_inv m th n G -> G !! t = Some o -> ents o' = c :: ents o ->
  (if flag TA_FLAG_SINGLE_INSTANCE m c then th = None \/ th = Some t else True) ->
  single_inv m (if flag TA_FLAG_SINGLE_INSTANCE m c then Some t else th) (if flag TA_FLAG_SINGLE_INSTANCE m c then n + 1 else n) (<[t := o']> G).
Proof.
  intros [H1 H2 H3] Ht Ee Hth. assert (is_Some (<[t := o']> G !! t)) as Hs by (rewrite list_lookup_insert_eq by (by eapply lookup_lt_Some); eauto).
  destruct (flag _ m c) eqn:Ef.
  - assert (0 <= n) as Hn by (destruct Hth as [E|E]; [rewrite (H2 E); lia|destruct (H3 _ E); lia]). split; [|done|intros t0 [= <-]; split; [lia|done]].
    intros t0 o0 Ht0. destruct (lookup_upd _ _ _ _ _ _ Ht Ht0) as [[-> ->]|[Hne Ho]].
    + rewrite Ee, nsing_cons, Ef, bool_decide_true by done. cbn [b1]. pose proof (H1 _ _ Ht) as E1. destruct Hth as [E|E]; [rewrite bool_decide_false in E1 by (rewrite E; done); rewrite (H2 E); lia|].
      rewrite bool_decide_true in E1 by done. lia.
    + rewrite bool_decide_false by congruence. rewrite (H1 _ _ Ho). rewrite bool_decide_false; [done|]. destruct Hth as [E|E]; rewrite E; congruence.
  - split; [|done|].
    + intros t0 o0 Ht0. destruct (lookup_upd _ _ _ _ _ _ Ht Ht0) as [[-> ->]|[Hne Ho]]; [rewrite Ee, nsing_cons, Ef; by apply H1|by apply H1].
    + intros t0 E. destruct (H3 t0 E) as [? Hs0]. split; [done|]. apply lookup_lt_is_Some in Hs0. apply lookup_lt_is_Some. by rewrite length_insert.
Qed.

Lemma single_leave m th n G t o o' c : single_inv m th n G -> G !! t = Some o -> ents o = c :: ents o' ->
  (flag TA_FLAG_SINGLE_INSTANCE m c = true -> th = Some t /\ 0 < n) /\
  single_inv m (if flag TA_FLAG_SINGLE_INSTANCE m c then (if n - 1 =? 0 then None else Some t) else th) (if flag TA_FLAG_SINGLE_INSTANCE m c then n - 1 else n) (<[t := o']> G).
Proof.
  intros [H1 H2 H3] Ht Ee. assert (is_Some (<[t := o']> G !! t)) as Hs by (rewrite list_lookup_insert_eq by (by eapply lookup_lt_Some); eauto).
  pose proof (H1 _ _ Ht) as Et. rewrite Ee, nsing_cons in Et. destruct (flag _ m c) eqn:Ef; cbn [b1] in Et.
  - destruct (decide (th = Some t)) as [Eth|]; [|rewrite bool_decide_false in Et by done; lia]. rewrite bool_decide_true in Et by done. destruct (H3 _ Eth) as [Hn _]. split; [done|]. split.
    + intros t0 o0 Ht0. destruct (lookup_upd _ _ _ _ _ _ Ht Ht0) as [[-> ->]|[Hne Ho]].
      * destruct (n - 1 =? 0) eqn:E; bool_hyps; [rewrite bool_decide_false by done; lia|rewrite bool_decide_true by done; lia].
      * rewrite (H1 _ _ Ho). rewrite (bool_decide_false (th = Some t0)) by congruence. rewrite bool_decide_false; [done|]. destruct (n - 1 =? 0); congruence.
    + destruct (n - 1 =? 0) eqn:E; bool_hyps; [done|done].
    + intros t0. destruct (n - 1 =? 0) eqn:E; bool_hyps; [done|]. intros [= <-]. split; [lia|done].
  - split; [done|]. split; [|done|].
    + intros t0 o0 Ht0. destruct (lookup_upd _ _ _ _ _ _ Ht Ht0) as [[-> ->]|[Hne Ho]]; [rewrite <- Et; lia|by apply H1].
    + intros t0 E. destruct (H3 t0 E) as [? Hs0]. split; [done|]. apply lookup_lt_is_Some in Hs0. apply lookup_lt_is_Some. by rewrite length_insert.
Qed.

(** ** Entering *)

Definition entered (c : addr) (o o' : own) : Prop := o' = o_ents (c :: ents o) o \/ o' = o_cents (c :: cents o) o.

Lemma wf_ents c o : wf o -> attached o c \/ c ∈ crefs o -> wf (o_ents (c :: ents o) o).
Proof.
  intros [H1 H2 H3 H4 H5] Hc. split; try done.
  - intros b [->|Hb]%elem_of_cons; [done|by apply H2].
  - intros a b Hs. destruct (H5 _ _ Hs) as [Hk [?|?]]; (split; [exact Hk|]); [left; by right|by right].
Qed.
Lemma wf_cents c o : wf o -> attached o c \/ c ∈ crefs o -> wf (o_cents (c :: cents o) o).
Proof.
  intros [H1 H2 H3 H4 H5] Hc. split; try done.
  - intros b [->|Hb]%elem_of_cons; [done|by apply H3].
  - intros a b Hs. destruct (H5 _ _ Hs) as [Hk [?|[?|?]]]; (split; [exact Hk|]); [by left|right; left; by right|by right; right].
Qed.

(** A context that is attached and not being loaded by the thread itself is initialised. *)
Lemma natt_two c (m : gmap addr (option addr)) a b : m !! a = Some (Some c) -> m !! b = Some (Some c) -> a <> b -> (2 <= natt c m)%nat.
Proof.
  intros Ha Hb Hne. rewrite (natt_delete c m a _ Ha), (natt_delete c (delete a m) b (Some c)) by (rewrite lookup_delete_ne; done). rewrite !decide_True by done. lia.
Qed.

Lemma attached_ready s G t o c x : inv s G -> G !! t = Some o -> attached o c -> c ∉ inits o -> ctxs s !! c = Some x -> is_initializing x = false.
Proof.
  intros I Ht (k & Hk & Ec) Hni Hc. destruct (is_initializing x) eqn:Ei; [exfalso|done]. pose proof (i_ctx _ _ I) as C.
  destruct (total_pos (fun o => cnt c (inits o)) G) as (t' & o' & Ho' & Hp); [rewrite (ci_init _ _ _ _ C _ _ Hc), Ei; lia|]. apply cnt_elem in Hp.
  destruct (w_inits _ (i_wf _ _ I _ _ Ho') _ Hp) as (k' & Hk' & Ec'). destruct (lock_live _ _ _ _ I Ht k Hk) as (y & Hy & L1 & C1 & _). destruct (lock_live _ _ _ _ I Ho' k' Hk') as (y' & Hy' & L2 & C2 & _).
  destruct (decide (l_a k = l_a k')) as [E|Hne].
  - rewrite E in Hy. simplify_eq. done.
  - pose proof (natt_two c (att s) (l_a k) (l_a k')) as Hn. rewrite (att_lookup _ _ _ Hy), (att_lookup _ _ _ Hy'), C1, C2 in Hn. specialize (Hn ltac:(congruence) ltac:(congruence) Hne).
    pose proof (ci_count _ _ _ _ C _ _ Hc). destruct (ci_ready _ _ _ _ C _ _ Hc Ei) as (E1 & _). lia.
Qed.

(** Entering changes [busy] and the list of entered contexts only. *)
Lemma enter_change s G t o c x : inv s G -> G !! t = Some o -> ctxs s !! c = Some x -> is_initializing x = false -> has (flags x) TA_FLAG_CONCURRENT = false -> busy x = false ->
  change (ctxs s) (tee_ctxes s) (tee_ctxes s) G o (o_ents (c :: ents o) o) c x (set_busy true x) 0.
Proof.
  intros I Ht Hc Hi Hf Hb. pose proof (i_ctx _ _ I) as C. split; cbn [o_ents crefs ents cents inits dtors set_busy c_ref_count busy is_initializing is_releasing flags]; try done.
  - intros b Hne. by rewrite cnt_cons, decide_False.
  - intros b Hin. by left.
  - lia.
  - rewrite cnt_cons, decide_True by done. rewrite Hb. cbn. lia.
  - intros Hd. destruct (ci_dtor _ _ _ _ C _ _ _ Ht Hd) as (y & ? & ?). by simplify_eq.
  - by left.
  - congruence.
  - by left.
  - apply C.
  - intros b. rewrite (ci_listed _ _ _ _ C). split; [|intros [[_ ?]|[-> ?]]; [done|eauto]]. intros (y & Hy & Hr). destruct (decide (b = c)) as [->|]; [right; by simplify_eq|left; eauto].
Qed.

(** Nothing that is counted changes. *)
Lemma stay_change s G t o o' c x x' : inv s G -> G !! t = Some o -> ctxs s !! c = Some x -> crefs o' = crefs o -> ents o' = ents o -> inits o' = inits o -> dtors o' = dtors o ->
  (forall b, b ∈ cents o' -> b ∈ cents o \/ b = c /\ has (flags x) TA_FLAG_CONCURRENT = true) ->
  c_ref_count x' = c_ref_count x -> busy x' = busy x -> is_initializing x' = is_initializing x -> is_releasing x' = is_releasing x -> flags x' = flags x ->
  change (ctxs s) (tee_ctxes s) (tee_ctxes s) G o o' c x x' 0.
Proof.
  intros I Ht Hc Ec Ee Ei Ed Hq X1 X2 X3 X4 X5. pose proof (i_ctx _ _ I) as C. split; rewrite ?Ec, ?Ee, ?Ei, ?Ed, ?X1, ?X2, ?X3, ?X4, ?X5; try done.
  - lia.
  - intros Hin. pose proof (ci_ent _ _ _ _ C _ _ _ Ht Hin) as Hf. unfold flag in Hf. by rewrite Hc in Hf.
  - intros Hd. destruct (ci_dtor _ _ _ _ C _ _ _ Ht Hd) as (y & ? & ?). by simplify_eq.
  - by left.
  - by eapply (ci_ready _ _ _ _ C).
  - by left.
  - apply C.
  - intros b. rewrite (ci_listed _ _ _ _ C). split; [|intros [[_ ?]|[-> ?]]; [done|eauto]]. intros (y & Hy & Hr). destruct (decide (b = c)) as [->|]; [right; by simplify_eq|left; eauto].
Qed.

Lemma insert_same (s : tam) c x : ctxs s !! c = Some x -> <[c := x]> (ctxs s) = ctxs s.
Proof. apply insert_id. Qed.

Lemma same_step s c x : ctxs s !! c = Some x -> ctx_step s s c x (tee_ctxes s) (tee_ta_single_instance_thread s) (tee_ta_single_instance_count s).
Proof. intros Hc. split; try done. by rewrite insert_same. Qed.

(** The state after entering. *)
Lemma enter_inv s s' G t o c x th n : inv s G -> G !! t = Some o -> attached o c -> ctxs s !! c = Some x -> is_initializing x = false -> has (flags x) TA_FLAG_CONCURRENT = false -> busy x = false ->
  (if has (flags x) TA_FLAG_SINGLE_INSTANCE then tee_ta_single_instance_thread s = None \/ tee_ta_single_instance_thread s = Some t else True) ->
  th = (if has (flags x) TA_FLAG_SINGLE_INSTANCE then Some t else tee_ta_single_instance_thread s) ->
  n = (if has (flags x) TA_FLAG_SINGLE_INSTANCE then tee_ta_single_instance_count s + 1 else tee_ta_single_instance_count s) ->
  ctx_step s s' c (set_busy true x) (tee_ctxes s) th n ->
  wf (o_ents (c :: ents o) o) /\ inv s' (<[t := o_ents (c :: ents o) o]> G).
Proof.
  intros I Ht Hat Hc Hi Hf Hb Hth -> -> St. assert (wf (o_ents (c :: ents o) o)) as W by (apply wf_ents; [by eapply (i_wf _ _ I)|by left]). split; [done|].
  apply (inv_ctx s s' G t o _ c x _ _ _ _ I Ht Hc St W); try done; [by eapply enter_change|].
  apply (single_flags (ctxs s)); [|intros; apply (flag_upd _ _ _ x); [done|by left]].
  pose proof (single_enter (ctxs s) _ _ G t o (o_ents (c :: ents o) o) c (i_single _ _ I) Ht eq_refl) as Hs. unfold flag in Hs. rewrite Hc in Hs. by apply Hs.
Qed.

(** Whoever holds the single-instance lock has entered a context. *)
Lemma single_held s G t o : inv s G -> G !! t = Some o -> tee_ta_single_instance_thread s = Some t -> ents o <> [].
Proof.
  intros I Ht E En. pose proof (li_thread _ _ _ _ (i_single _ _ I) _ _ Ht) as H. rewrite bool_decide_true, En in H by done. destruct (li_held _ _ _ _ (i_single _ _ I) _ E). cbn in H. lia.
Qed.

(** A single-instance context that is busy was entered by the holder of the lock. *)
Lemma busy_single s G c x : inv s G -> ctxs s !! c = Some x -> busy x = true -> has (flags x) TA_FLAG_SINGLE_INSTANCE = true -> tee_ta_single_instance_thread s <> None.
Proof.
  intros I Hc Hb Hf E. destruct (total_pos (fun o => cnt c (ents o)) G) as (t & o & Ho & Hp); [rewrite (ci_busy _ _ _ _ (i_ctx _ _ I) _ _ Hc), Hb; lia|]. apply cnt_elem in Hp.
  pose proof (li_thread _ _ _ _ (i_single _ _ I) _ _ Ho) as H. rewrite bool_decide_false in H by congruence.
  assert (0 < nsing (ctxs s) (ents o))%nat; [|lia]. clear H. induction (ents o) as [|b l IH]; [by apply elem_of_nil in Hp|]. rewrite nsing_cons. apply elem_of_cons in Hp as [<-|Hp]; [|specialize (IH Hp); lia].
  unfold flag. rewrite Hc, Hf. cbn. lia.
Qed.

Definition with_single (th : option tid) (n : Z) (s : tam) : tam :=
  mk_tam (ctxs s) (sessions s) (tee_ctxes s) (open_sessions s) th n (sess_stack s) (cvq s) (raced s).

Lemma lock_single_run s G t : inv s G ->
  lock_single_instance t s = (Ret (inr TeeTaCv), s) \/
  (tee_ta_single_instance_thread s = None \/ tee_ta_single_instance_thread s = Some t) /\ lock_single_instance t s = (Ret (inl tt), with_single (Some t) (tee_ta_single_instance_count s + 1) s).
Proof.
  intros I. unfold lock_single_instance, bind, get. destruct (decide (tee_ta_single_instance_thread s = Some t)) as [E|E].
  - right. split; [by right|]. by rewrite bool_decide_true.
  - rewrite bool_decide_false by done. destruct (tee_ta_single_instance_thread s) as [t'|] eqn:Et; [by left|]. right. split; [by left|].
    rewrite (li_free _ _ _ _ (i_single _ _ I) Et). done.
Qed.

(** Only the condition variables change. *)
Lemma unlock_again s G t : inv s G -> tee_ta_single_instance_thread s = None \/ tee_ta_single_instance_thread s = Some t ->
  exists q, unlock_single_instance t (with_single (Some t) (tee_ta_single_instance_count s + 1) s) =
    (Ret tt, mk_tam (ctxs s) (sessions s) (tee_ctxes s) (open_sessions s) (tee_ta_single_instance_thread s) (tee_ta_single_instance_count s) (sess_stack s) q (raced s)).
Proof.
  intros I Hth. unfold unlock_single_instance, bind, get. cbn [with_single tee_ta_single_instance_thread tee_ta_single_instance_count]. rewrite bool_decide_true by done. cbn [assert_ ret].
  assert (0 <= tee_ta_single_instance_count s) by (destruct Hth as [E|E]; [rewrite (li_free _ _ _ _ (i_single _ _ I) E); lia|destruct (li_held _ _ _ _ (i_single _ _ I) _ E); lia]).
  rewrite (proj2 (Z.ltb_lt 0 _)) by lia. replace (tee_ta_single_instance_count s + 1 - 1) with (tee_ta_single_instance_count s) by lia.
  destruct (tee_ta_single_instance_count s =? 0) eqn:E0; bool_hyps; cbn.
  - destruct Hth as [E|E]; [|destruct (li_held _ _ _ _ (i_single _ _ I) _ E); lia]. rewrite E, E0. by eexists.
  - destruct Hth as [E|E]; [by rewrite (li_free _ _ _ _ (i_single _ _ I) E) in E0|]. rewrite E. by eexists.
Qed.

Lemma set_busy_same s c x : ctxs s !! c = Some x -> busy x = true -> <[c := set_busy true x]> (ctxs s) = ctxs s.
Proof. intros Hc Hb. apply insert_id. rewrite Hc. f_equal. destruct x as [u f p r b i e z]. cbn in *. by subst b. Qed.

Lemma try_set_busy_ok strict t o c : wf o -> attached o c -> c ∉ inits o -> (strict = true -> ents o = []) ->
  ok strict t o (tee_ta_try_set_busy t c) (fun r o' => if r : bool then entered c o o' /\ wf o' else o' = o /\ strict = false).
Proof.
  intros W Hat Hni Hs. apply ok_wait. intros s G I Ht Hfu. destruct (attached_live _ _ _ _ I Ht c Hat) as [x Hc]. pose proof (attached_ready _ _ _ _ _ _ I Ht Hat Hni Hc) as Hi.
  rewrite (the_ctx_run _ _ x) by done. destruct (has (flags x) TA_FLAG_CONCURRENT) eqn:Ef.
  { right. exists (o_cents (c :: cents o) o). assert (wf (o_cents (c :: cents o) o)) as W' by (apply wf_cents; [done|by left]). split; [|split; [by right|done]].
    apply (inv_ctx s s G t o _ c x x _ _ _ I Ht Hc (same_step s c x Hc) W'); try done.
    - eapply stay_change; try done. intros b Hb. cbn [o_cents cents] in Hb. apply elem_of_cons in Hb as [->|?]; [by right|by left].
    - rewrite insert_same by done. apply (single_frame _ _ _ _ _ o); [apply I|done|done]. }
  destruct (has (flags x) TA_FLAG_SINGLE_INSTANCE) eqn:Es.
  - unfold bind at 1. destruct (lock_single_run s G t I) as [->|[Hth ->]]; [done|]. unfold bind at 1. unfold has_single_instance_lock, bind at 1, get. cbn [with_single tee_ta_single_instance_thread ret]. rewrite bool_decide_true by done.
    destruct (busy x) eqn:Eb; cbn [andb negb].
    + destruct (unlock_again s G t I Hth) as (q & Hq). unfold bind. fold (with_single (Some t) (tee_ta_single_instance_count s + 1) s). rewrite Hq. rewrite (upd_ctx_run _ _ x) by done. cbn.
      right. exists o. split; [rewrite set_busy_same, list_insert_id by done; by apply inv_cvq|]. split; [done|]. destruct strict; [exfalso|done].
      pose proof (busy_single s G c x I Hc Eb Es) as Hne. destruct Hth as [?|E]; [done|]. by eapply (single_held s G t o I Ht E), Hs.
    + unfold bind. cbn [ret]. rewrite (upd_ctx_run _ _ x) by done. cbn. right. exists (o_ents (c :: ents o) o).
      match goal with |- inv ?s' _ /\ _ => destruct (enter_inv s s' G t o c x (Some t) (tee_ta_single_instance_count s + 1) I Ht Hat Hc Hi Ef Eb) as [W' I']; rewrite ?Es; try done end.
      split; [exact I'|]. split; [by left|done].
  - unfold bind at 1. cbn [ret]. unfold bind at 1, has_single_instance_lock, bind at 1, get. cbn [ret]. destruct (decide (tee_ta_single_instance_thread s = Some t)) as [E|E].
    + rewrite bool_decide_true by done. destruct (busy x) eqn:Eb; cbn [andb negb]; unfold bind; cbn [ret]; rewrite (upd_ctx_run _ _ x) by done; cbn; right.
      * exists o. split; [rewrite set_busy_same, list_insert_id by done; by destruct s|]. split; [done|]. destruct strict; [exfalso|done]. by eapply (single_held s G t o I Ht E), Hs.
      * exists (o_ents (c :: ents o) o). match goal with |- inv ?s' _ /\ _ => destruct (enter_inv s s' G t o c x (tee_ta_single_instance_thread s) (tee_ta_single_instance_count s) I Ht Hat Hc Hi Ef Eb) as [W' I']; rewrite ?Es; try done end.
        split; [exact I'|]. split; [by left|done].
    + rewrite bool_decide_false by done. destruct (busy x) eqn:Eb; [done|]. unfold bind. rewrite (upd_ctx_run _ _ x) by done. cbn. right.
      exists (o_ents (c :: ents o) o). match goal with |- inv ?s' _ /\ _ => destruct (enter_inv s s' G t o c x (tee_ta_single_instance_thread s) (tee_ta_single_instance_count s) I Ht Hat Hc Hi Ef Eb) as [W' I']; rewrite ?Es; try done end.
      split; [exact I'|]. split; [by left|done].
Qed.

Lemma set_busy_ok strict t o c : wf o -> attached o c -> c ∉ inits o -> (strict = true -> ents o = []) ->
  ok strict t o (tee_ta_set_busy t c) (fun _ o' => entered c o o' /\ wf o').
Proof.
  intros W Hat Hni Hs. apply ok_bind. eapply ok_mono; [by apply try_set_busy_ok|]. intros [] o' H; [done|]. destruct H as [-> ->]. intros s G I Ht. by left.
Qed.

Lemma leave_change s G t o c x : inv s G -> G !! t = Some (o_ents (c :: ents o) o) -> ctxs s !! c = Some x ->
  busy x = true /\ change (ctxs s) (tee_ctxes s) (tee_ctxes s) G (o_ents (c :: ents o) o) o c x (set_busy false x) 0.
Proof.
  intros I Ht Hc. pose proof (i_ctx _ _ I) as C. pose proof (ci_busy _ _ _ _ C _ _ Hc) as Hb. pose proof (total_le (fun o => cnt c (ents o)) G t _ Ht) as Hle. cbn [o_ents ents] in Hle. rewrite cnt_cons, decide_True in Hle by done.
  destruct (busy x) eqn:Eb; [|lia]. split; [done|]. split; cbn [o_ents crefs ents cents inits dtors set_busy c_ref_count busy is_initializing is_releasing flags]; try done.
  - intros b Hne. by rewrite cnt_cons, decide_False.
  - intros b Hin. by left.
  - lia.
  - rewrite cnt_cons, decide_True by done. rewrite Eb. cbn. lia.
  - intros Hin. assert (0 < cnt c (ents o))%nat by (by apply cnt_elem). lia.
  - intros Hd. destruct (ci_dtor _ _ _ _ C _ _ c Ht Hd) as (y & ? & ?). by simplify_eq.
  - by left.
  - intros Hi. destruct (ci_ready _ _ _ _ C _ _ Hc Hi) as (? & ? & ?). congruence.
  - by left.
  - apply C.
  - intros b. rewrite (ci_listed _ _ _ _ C). split; [|intros [[_ ?]|[-> ?]]; [done|eauto]]. intros (y & Hy & Hr). destruct (decide (b = c)) as [->|]; [right; by simplify_eq|left; eauto].
Qed.

Lemma clear_busy_ok strict t o o1 c : wf o -> entered c o o1 -> ok strict t o1 (tee_ta_clear_busy t c) (fun _ o' => o' = o).
Proof.
  intros W He. apply ok_sec. intros s G I Ht Hfu. pose proof (i_wf _ _ I _ _ Ht) as W1. destruct He as [-> | ->].
  - assert (is_Some (ctxs s !! c)) as [x Hc] by (apply (pins_live _ _ _ _ I Ht); destruct (w_ents _ W1 c ltac:(by left)); [by left|by right; left]).
    rewrite (the_ctx_run _ _ x) by done. pose proof (ci_ent _ _ _ _ (i_ctx _ _ I) _ _ c Ht ltac:(by left)) as Ef. unfold flag in Ef. rewrite Hc in Ef. rewrite Ef.
    destruct (leave_change s G t o c x I Ht Hc) as [Eb Ch]. rewrite Eb. unfold bind. cbn [assert_ ret]. rewrite (upd_ctx_run _ _ x) by done. cbn [put_ctxs modify condvar_signal put_cvq].
    destruct (single_leave (ctxs s) _ _ G t (o_ents (c :: ents o) o) o c (i_single _ _ I) Ht eq_refl) as [Hth Si]. unfold flag in Hth, Si. rewrite Hc in Hth, Si.
    assert (forall s' th n, ctx_step s s' c (set_busy false x) (tee_ctxes s) th n -> th = (if has (flags x) TA_FLAG_SINGLE_INSTANCE then if tee_ta_single_instance_count s - 1 =? 0 then None else Some t else tee_ta_single_instance_thread s) ->
      n = (if has (flags x) TA_FLAG_SINGLE_INSTANCE then tee_ta_single_instance_count s - 1 else tee_ta_single_instance_count s) -> inv s' (<[t := o]> G)) as Hend.
    { intros s' th n St -> ->. apply (inv_ctx s s' G t (o_ents (c :: ents o) o) o c x _ _ _ _ I Ht Hc St W); try done. apply (single_flags (ctxs s)); [done|]. intros. apply (flag_upd _ _ _ x); [done|by left]. }
    destruct (has (flags x) TA_FLAG_SINGLE_INSTANCE) eqn:Es.
    + destruct (Hth eq_refl) as [Et Hn]. unfold unlock_single_instance, bind, get. cbn [tee_ta_single_instance_thread tee_ta_single_instance_count]. rewrite bool_decide_true by done. rewrite (proj2 (Z.ltb_lt 0 _)) by done. cbn [assert_ ret].
      destruct (tee_ta_single_instance_count s - 1 =? 0) eqn:E1; cbn; right; exists o; (split; [|done]); (eapply Hend; [split|..]; done).
    + cbn. right. exists o. split; [|done]. eapply Hend; [split|..]; done.
  - assert (is_Some (ctxs s !! c)) as [x Hc] by (apply (pins_live _ _ _ _ I Ht); destruct (w_cents _ W1 c ltac:(by left)); [by left|by right; left]).
    rewrite (the_ctx_run _ _ x) by done. pose proof (ci_conc _ _ _ _ (i_ctx _ _ I) _ _ c Ht ltac:(by left)) as Ef. unfold flag in Ef. rewrite Hc in Ef. rewrite Ef. cbn. right. exists o. split; [|done].
    apply (inv_ctx s s G t (o_cents (c :: cents o) o) o c x x _ _ _ I Ht Hc (same_step s c x Hc) W); try done.
    + eapply stay_change; try done. intros b Hb. left. by right.
    + rewrite insert_same by done. apply (single_frame _ _ _ _ _ (o_cents (c :: cents o) o)); [apply I|done|done].
Qed.

(** ** Panics, release, destruction *)

Lemma may_panic_ok strict t o b c : wf o -> pins o c -> ok strict t o (may_panic b c) (fun _ o' => o' = o).
Proof.
  intros W Hp. destruct b; [|done]. apply ok_sec. intros s G I Ht Hfu. destruct (pins_live _ _ _ _ I Ht c Hp) as [x Hc]. rewrite (upd_ctx_run _ _ x) by done. cbn. right. exists o. split; [|done].
  match goal with |- inv ?s' _ => apply (inv_ctx s s' G t o o c x (set_panicked x) (tee_ctxes s) (tee_ta_single_instance_thread s) (tee_ta_single_instance_count s) I Ht Hc) end; try done.
  - eapply stay_change; try done. intros b Hb. by left.
  - rewrite list_insert_id by done. apply (single_flags (ctxs s)); [apply I|]. intros. apply (flag_upd _ _ _ x); [done|by left].
Qed.

Lemma read_ctx_ok strict t o c (Q : tee_ta_ctx -> own -> Prop) : pins o c -> (forall x, Q x o) -> ok strict t o (section (the_ctx c)) Q.
Proof.
  intros Hp HQ. apply ok_look. intros s G I Ht. destruct (pins_live _ _ _ _ I Ht c Hp) as [x Hc]. exists x. split; [|done]. unfold the_ctx, bind, get. by rewrite Hc.
Qed.

Lemma unlist_run s c : c ∈ tee_ctxes s -> unlist_ctx c s = (Ret tt, mk_tam (ctxs s) (sessions s) (without c (tee_ctxes s)) (open_sessions s) (tee_ta_single_instance_thread s) (tee_ta_single_instance_count s) (sess_stack s) (cvq s) (raced s)).
Proof. intros Hin. unfold unlist_ctx, bind, get, TAILQ_REMOVE. rewrite bool_decide_true by done. done. Qed.

(** A context leaves the list; its references may drop to none. *)
Lemma release_change s G t o o' c x n : inv s G -> G !! t = Some o -> ctxs s !! c = Some x -> 0 <= c_ref_count x + n <= UINT32_MAX -> is_initializing x = false -> ents o' = ents o -> cents o' = cents o -> inits o' = inits o ->
  (forall b, b <> c -> cnt b (crefs o') = cnt b (crefs o)) -> (forall b, b <> c -> cnt b (dtors o') = cnt b (dtors o)) -> c_ref_count x + n + Z.of_nat (cnt c (crefs o)) = c_ref_count x + Z.of_nat (cnt c (crefs o')) ->
  (c ∈ dtors o' -> c_ref_count x + n = 0) -> (is_releasing x = true -> c_ref_count x = 0 -> n = 0) ->
  (cnt c (dtors o') <= cnt c (dtors o))%nat \/ total (fun o => cnt c (dtors o)) G = 0%nat /\ (cnt c (dtors o') <= 1)%nat ->
  change (ctxs s) (tee_ctxes s) (if is_releasing x then tee_ctxes s else without c (tee_ctxes s)) G o o' c x (set_releasing (add_ctx_ref n x)) 0.
Proof.
  intros I Ht Hc Hrg Hi Ee Eq Ei Hcr Hd Hr Hd0 Hk Hd1. pose proof (i_ctx _ _ I) as C. assert (c_ref_count (set_releasing (add_ctx_ref n x)) = c_ref_count x + n) as Hcn by (by apply add_ctx_ref_count). split; rewrite ?Hcn; cbn [set_releasing add_ctx_ref busy is_initializing is_releasing flags]; rewrite ?Ee, ?Eq, ?Ei; try done.
  - intros b Hb. by left.
  - lia.
  - intros Hin. pose proof (ci_ent _ _ _ _ C _ _ _ Ht Hin) as Hf. unfold flag in Hf. by rewrite Hc in Hf.
  - intros Hin. split; [done|by apply Hd0].
  - intros H1 H2. split; [done|]. rewrite (Hk H1 H2). lia.
  - congruence.
  - by left.
  - destruct (is_releasing x); [apply C|apply NoDup_without, C].
  - intros b. destruct (is_releasing x) eqn:Er.
    + split; [|intros [[_ ?]|[_ ?]]; done]. intros Hb. left. split; [|done]. intros ->. apply (ci_listed _ _ _ _ C) in Hb as (y & Hy & Hry). simplify_eq. congruence.
    + rewrite elem_without. split; [intros [? ?]; by left|]. intros [[? ?]|[_ ?]]; [by split|done].
Qed.

Lemma listed_ctx s G c x : inv s G -> ctxs s !! c = Some x -> is_releasing x = false -> c ∈ tee_ctxes s.
Proof. intros I Hc Hr. apply (ci_listed _ _ _ _ (i_ctx _ _ I)). eauto. Qed.

Lemma maybe_release_ok strict t o c ops (Q : unit -> own -> Prop) : wf o -> attached o c -> c ∉ inits o -> Q tt o -> ok strict t o (release ops c) Q -> ok strict t o (maybe_release_ta_ctx ops c) Q.
Proof.
  intros W Hat Hni HQ Hrel. apply ok_bind, read_ctx_ok; [by left|]. intros x0. destruct (keep_crashed x0); [done|]. apply ok_bind, ok_sec. intros s G I Ht Hfu.
  destruct (attached_live _ _ _ _ I Ht c Hat) as [x Hc]. pose proof (attached_ready _ _ _ _ _ _ I Ht Hat Hni Hc) as Hi. rewrite (the_ctx_run _ _ x) by done. unfold bind at 1. rewrite (upd_ctx_run _ _ x) by done.
  pose proof (ctx_ref_range _ _ _ _ I Hfu Hc) as Hrg. cbn [put_ctxs modify]. unfold bind. assert (set_releasing x = set_releasing (add_ctx_ref 0 x)) as Ex by (unfold set_releasing at 2; rewrite add_ctx_ref_count by lia; by rewrite Z.add_0_r).
  assert (change (ctxs s) (tee_ctxes s) (if is_releasing x then tee_ctxes s else without c (tee_ctxes s)) G o o c x (set_releasing x) 0) as Ch.
  { rewrite Ex. eapply release_change; try done; [lia|lia| |by left]. intros Hd. destruct (ci_dtor _ _ _ _ (i_ctx _ _ I) _ _ _ Ht Hd) as (y & ? & _ & ?). simplify_eq. lia. }
  assert (forall s', ctx_step s s' c (set_releasing x) (if is_releasing x then tee_ctxes s else without c (tee_ctxes s)) (tee_ta_single_instance_thread s) (tee_ta_single_instance_count s) -> inv s' (<[t := o]> G)) as Hend.
  { intros s' St. apply (inv_ctx s s' G t o o c x _ _ _ _ I Ht Hc St); try done. rewrite list_insert_id by done. apply (single_flags (ctxs s)); [apply I|]. intros. apply (flag_upd _ _ _ x); [done|by left]. }
  destruct (is_releasing x) eqn:Er.
  - cbn. right. exists o. split; [apply Hend; split; done|done].
  - rewrite unlist_run by (cbn [tee_ctxes]; by eapply listed_ctx). cbn. right. exists o. split; [apply Hend; split; done|done].
Qed.

Lemma cref_ready s G t o c x : inv s G -> G !! t = Some o -> c ∈ crefs o -> ctxs s !! c = Some x -> is_initializing x = false /\ 0 < c_ref_count x.
Proof.
  intros I Ht Hin Hc. pose proof (i_ctx _ _ I) as C. pose proof (ci_count _ _ _ _ C _ _ Hc) as Hn. pose proof (total_le (fun o => cnt c (crefs o)) G t o Ht) as Hle. apply cnt_elem in Hin.
  split; [|lia]. destruct (is_initializing x) eqn:Ei; [exfalso|done]. destruct (total_pos (fun o => cnt c (inits o)) G) as (t' & o' & Ho' & Hp); [rewrite (ci_init _ _ _ _ C _ _ Hc), Ei; lia|]. apply cnt_elem in Hp.
  destruct (w_inits _ (i_wf _ _ I _ _ Ho') _ Hp) as (k' & Hk' & Ec'). destruct (lock_live _ _ _ _ I Ho' k' Hk') as (y' & Hy' & L2 & C2 & _). destruct (ci_ready _ _ _ _ C _ _ Hc Ei) as (E1 & _).
  pose proof (natt_delete c (att s) (l_a k') (Some c)) as Hd. rewrite (att_lookup _ _ _ Hy'), C2, Ec', decide_True in Hd by done. specialize (Hd eq_refl). lia.
Qed.

(** A context without references is freed. *)
Lemma ctx_delete m l at_ G t o o' c : ctx_inv m l at_ G -> G !! t = Some o -> dtors o = c :: dtors o' -> crefs o' = crefs o -> ents o' = ents o -> cents o' = cents o -> inits o' = inits o ->
  (forall t o, G !! t = Some o -> c ∉ ents o /\ c ∉ cents o) -> ctx_inv (delete c m) l at_ (<[t := o']> G).
Proof.
  intros C Ht Ed Ec Ee Eq Ei Hne. pose proof C as [H1 H2 H3 H4 H5 H6 H7 H8 H9 H10 H11 H12]. destruct (H10 _ _ c Ht ltac:(rewrite Ed; by left)) as (x & Hc & Hr & H0).
  pose proof (H1 _ _ Hc) as Hn. rewrite H0 in Hn.
  assert (forall b y, delete c m !! b = Some y -> m !! b = Some y /\ b <> c) as Hl by (intros b y [? ?]%lookup_delete_Some; done).
  assert (forall b, is_Some (m !! b) -> b <> c -> is_Some (delete c m !! b)) as Hl' by (intros b Hb Hbc; by rewrite lookup_delete_ne).
  assert (forall f t0 o0 b, G !! t0 = Some o0 -> b ∈ ents o0 \/ b ∈ cents o0 -> flag f (delete c m) b = flag f m b) as Hf.
  { intros f t0 o0 b Ht0 Hb. unfold flag. rewrite lookup_delete_ne; [done|]. intros <-. destruct (Hne _ _ Ht0). by destruct Hb. }
  split.
  - intros b y Hb. apply Hl in Hb as [Hb _]. rewrite (total_same _ _ _ _ _ Ht) by (by rewrite Ec). by apply H1.
  - intros a b Hb. apply Hl'; [by eapply H2|]. intros ->. pose proof (natt_delete c at_ a _ Hb) as Hd. rewrite decide_True in Hd by done. lia.
  - intros t0 o0 b Ht0 Hb. assert (exists o1, G !! t0 = Some o1 /\ b ∈ crefs o1) as (o1 & Ho1 & Hb1) by (destruct (lookup_upd _ _ _ _ _ _ Ht Ht0) as [[-> ->]|[_ ?]]; [exists o; by rewrite <- Ec|by exists o0]).
    apply Hl'; [by eapply H3|]. intros ->. apply cnt_elem in Hb1. pose proof (total_le (fun o => cnt c (crefs o)) G t0 o1 Ho1). lia.
  - done.
  - intros b. rewrite H5. split; intros (y & Hy & Hry); [|apply Hl in Hy as [? _]; eauto]. exists y. split; [|done]. rewrite lookup_delete_ne; [done|]. intros <-. congruence.
  - intros b y Hb. apply Hl in Hb as [Hb _]. rewrite (total_same _ _ _ _ _ Ht) by (by rewrite Ee). by apply H6.
  - intros t0 o0 b Ht0 Hb. destruct (lookup_upd _ _ _ _ _ _ Ht Ht0) as [[-> ->]|[_ Ho]].
    + rewrite Ee in Hb. rewrite (Hf _ _ _ _ Ht) by (by left). by eapply H7.
    + rewrite (Hf _ _ _ _ Ho) by (by left). by eapply H7.
  - intros b y Hb. apply Hl in Hb as [Hb _]. rewrite (total_same _ _ _ _ _ Ht) by (by rewrite Ei). by apply H8.
  - intros b y Hb. apply Hl in Hb as [Hb _]. by eapply H9.
  - intros t0 o0 b Ht0 Hb. assert (exists o1, G !! t0 = Some o1 /\ b ∈ dtors o1 /\ b <> c) as (o1 & Ho1 & Hb1 & Hbc).
    { pose proof (H11 c) as H11c. destruct (lookup_upd _ _ _ _ _ _ Ht Ht0) as [[-> ->]|[Hn0 Ho]].
      - exists o. split; [done|]. rewrite Ed. split; [by right|]. intros ->. apply cnt_elem in Hb. pose proof (total_le (fun o => cnt c (dtors o)) G t o Ht) as T. cbv beta in T. rewrite Ed, cnt_cons, decide_True in T by done. lia.
      - exists o0. split; [done|]. split; [done|]. intros ->. apply cnt_elem in Hb. pose proof (total_two (fun o => cnt c (dtors o)) G t t0 o o0 ltac:(done) Ht Ho) as T. cbv beta in T. rewrite Ed, cnt_cons, decide_True in T by done. lia. }
    destruct (H10 _ _ _ Ho1 Hb1) as (y & Hy & ?). exists y. by rewrite lookup_delete_ne.
  - intros b. pose proof (total_insert (fun o => cnt b (dtors o)) G t o o' Ht) as T. cbv beta in T. rewrite Ed, cnt_cons in T. specialize (H11 b). lia.
  - intros t0 o0 b Ht0 Hb. destruct (lookup_upd _ _ _ _ _ _ Ht Ht0) as [[-> ->]|[_ Ho]].
    + rewrite Eq in Hb. rewrite (Hf _ _ _ _ Ht) by (by right). by eapply H12.
    + rewrite (Hf _ _ _ _ Ho) by (by right). by eapply H12.
Qed.

(** No thread has entered a context without references. *)
Lemma no_refs s G c x : inv s G -> ctxs s !! c = Some x -> c_ref_count x = 0 -> forall t o, G !! t = Some o -> c ∉ ents o /\ c ∉ cents o.
Proof.
  intros I Hc H0 t o Ht. pose proof (i_wf _ _ I _ _ Ht) as W. pose proof (ci_count _ _ _ _ (i_ctx _ _ I) _ _ Hc) as Hn.
  assert (attached o c \/ c ∈ crefs o -> False) as Hno.
  { intros [(k & Hk & Ec)|Hin].
    - destruct (lock_live _ _ _ _ I Ht k Hk) as (y & Hy & _ & C2 & _). pose proof (natt_delete c (att s) (l_a k) (Some c)) as Hd. rewrite (att_lookup _ _ _ Hy), C2, Ec, decide_True in Hd by done. specialize (Hd eq_refl). lia.
    - apply cnt_elem in Hin. pose proof (total_le (fun o => cnt c (crefs o)) G t o Ht). lia. }
  split; intros Hin; apply Hno; [by apply (w_ents _ W)|by apply (w_cents _ W)].
Qed.

Lemma destroy_context_ok strict t o c ops : wf o -> ok strict t (o_dtors (c :: dtors o) o) (release ops c) (fun _ o' => o' = o_dtors (c :: dtors o) o) ->
  ok strict t (o_dtors (c :: dtors o) o) (destroy_context ops c) (fun _ o' => o' = o).
Proof.
  intros W Hr. apply ok_bind. eapply ok_mono; [exact Hr|]. intros _ o' ->. apply ok_sec. intros s G I Ht Hfu.
  destruct (ci_dtor _ _ _ _ (i_ctx _ _ I) _ _ c Ht ltac:(by left)) as (x & Hc & Hre & H0). rewrite (the_ctx_run _ _ x) by done. cbn. right. exists o. split; [|done]. pose proof (no_refs s G c x I Hc H0) as Hno. split; cbn.
  - apply I.
  - eapply wf_upd; [apply I|done|done].
  - apply (sess_frame s _ _ _ (o_dtors (c :: dtors o) o)); try done. apply I.
  - eapply ctx_delete; try done. apply I.
  - apply (single_flags (ctxs s)); [apply (single_frame _ _ _ _ _ (o_dtors (c :: dtors o) o)); [apply I|done|done]|]. intros t0 o0 b Ht0 Hb. unfold flag. rewrite lookup_delete_ne; [done|]. intros <-.
    destruct (lookup_upd _ _ _ _ _ _ Ht Ht0) as [[-> ->]|[_ Ho]]; [by destruct (Hno _ _ Ht)|by destruct (Hno _ _ Ho)].
  - apply (stack_frame _ _ _ (o_dtors (c :: dtors o) o)); [apply I|done|done].
Qed.

Lemma put_context_ok strict t o c ops : wf o -> ok strict t (o_dtors (c :: dtors o) o) (release ops c) (fun _ o' => o' = o_dtors (c :: dtors o) o) ->
  ok strict t (o_crefs (c :: crefs o) o) (put_context ops c) (fun _ o' => o' = o).
Proof.
  intros W Hr. apply ok_bind, ok_sec. intros s G I Ht Hfu. set (o1 := o_crefs (c :: crefs o) o) in *. assert (c ∈ crefs o1) as Hin by (by left).
  destruct (ci_cref _ _ _ _ (i_ctx _ _ I) _ _ _ Ht Hin) as [x Hc]. destruct (cref_ready _ _ _ _ _ _ I Ht Hin Hc) as [Hi Hp]. pose proof (ctx_ref_range _ _ _ _ I Hfu Hc) as Hrg. pose proof (add_ctx_ref_count (-1) x ltac:(lia)) as Hcn.
  rewrite (the_ctx_run _ _ x) by done. rewrite (proj2 (Z.ltb_lt 0 _)) by done. unfold bind at 1. cbn [assert_ ret]. unfold bind at 1. rewrite (upd_ctx_run _ _ x) by done. cbn [put_ctxs modify].
  set (cond := (_ && _)%bool). destruct cond eqn:Econd.
  - unfold cond in Econd. apply andb_true_iff in Econd as [E0 _]. apply Z.eqb_eq in E0.
    assert (total (fun o => cnt c (dtors o)) G = 0%nat) as Hd0.
    { destruct (total (fun o => cnt c (dtors o)) G) eqn:E; [done|exfalso]. destruct (total_pos (fun o => cnt c (dtors o)) G) as (t' & o' & Ho' & Hp'); [lia|]. apply cnt_elem in Hp'.
      destruct (ci_dtor _ _ _ _ (i_ctx _ _ I) _ _ _ Ho' Hp') as (y & ? & _ & ?). simplify_eq. lia. }
    assert (cnt c (dtors o) = 0%nat) as Hdo by (apply (total_zero (fun o => cnt c (dtors o)) G t o1 Hd0 Ht)).
    assert (forall s', ctx_step s s' c (set_releasing (add_ctx_ref (-1) x)) (if is_releasing x then tee_ctxes s else without c (tee_ctxes s)) (tee_ta_single_instance_thread s) (tee_ta_single_instance_count s) -> inv s' (<[t := o_dtors (c :: dtors o) o]> G)) as Hend.
    { intros s' St. apply (inv_ctx s s' G t o1 (o_dtors (c :: dtors o) o) c x _ _ _ _ I Ht Hc St); try done.
      - destruct W; split; done.
      - eapply release_change; try done.
        + lia.
        + intros b Hb. cbn [o1 o_crefs o_dtors crefs]. by rewrite cnt_cons, decide_False.
        + intros b Hb. cbn [o1 o_crefs o_dtors dtors]. by rewrite cnt_cons, decide_False.
        + cbn [o1 o_crefs o_dtors crefs]. rewrite cnt_cons, decide_True by done. lia.
        + lia.
        + right. split; [done|]. cbn [o_dtors dtors]. rewrite cnt_cons, decide_True by done. lia.
      - apply (single_flags (ctxs s)); [apply (single_frame _ _ _ _ _ o1); [apply I|done|done]|]. intros. apply (flag_upd _ _ _ x); [done|by left]. }
    destruct (is_releasing x) eqn:Er; cbn [negb]; unfold bind.
    + cbn [ret]. right. exists (o_dtors (c :: dtors o) o). split; [|by apply destroy_context_ok]. apply Hend. split; try done. cbn [ctxs]. f_equal. unfold set_releasing. rewrite Hcn. unfold add_ctx_ref. cbn [uuid flags panicked busy is_initializing is_user]. f_equal; [apply Hcn|done].
    + rewrite unlist_run by (cbn [tee_ctxes]; by eapply listed_ctx). cbn [ctxs]. rewrite (upd_ctx_run _ _ (add_ctx_ref (-1) x)) by (cbn; by rewrite lookup_insert_eq). cbn. right. exists (o_dtors (c :: dtors o) o). split; [|by apply destroy_context_ok].
      apply Hend. split; try done. cbn. by rewrite insert_insert_eq.
  - cbn. right. exists o. split; [|done].
    match goal with |- inv ?s' _ => apply (inv_ctx s s' G t o1 o c x (add_ctx_ref (-1) x) (tee_ctxes s) (tee_ta_single_instance_thread s) (tee_ta_single_instance_count s) I Ht Hc) end; try done.
    + pose proof (i_ctx _ _ I) as C. split; rewrite ?Hcn; cbn [o1 o_crefs crefs ents cents inits dtors add_ctx_ref busy is_initializing is_releasing flags]; try done.
      * intros b Hne. by rewrite cnt_cons, decide_False.
      * intros b Hb. by left.
      * rewrite cnt_cons, decide_True by done. lia.
      * intros Hb. pose proof (ci_ent _ _ _ _ C _ _ c Ht Hb) as Hf. unfold flag in Hf. by rewrite Hc in Hf.
      * intros Hd. destruct (ci_dtor _ _ _ _ C _ _ c Ht Hd) as (y & ? & _ & ?). simplify_eq. lia.
      * lia.
      * by left.
      * congruence.
      * by left.
      * apply C.
      * intros b. rewrite (ci_listed _ _ _ _ C). split; [|intros [[_ ?]|[-> ?]]; [done|eauto]]. intros (y & Hy & Hry). destruct (decide (b = c)) as [->|]; [right; by simplify_eq|left; eauto].
    + apply (single_flags (ctxs s)); [apply (single_frame _ _ _ _ _ o1); [apply I|done|done]|]. intros. apply (flag_upd _ _ _ x); [done|by left].
Qed.
