(* ===== verification/TaManagerCalls.v ===== *)
(** * The TA manager: calls

    Opening and closing sessions, commands and cancellation keep the invariant: each leaves its
    thread with what it owned before. *)
From stdpp Require Import gmap.
From S2P Require Import Prelude Threads TaManager TaManagerInv TaManagerSess TaManagerCtx.
Local Open Scope Z_scope.

(** ** Fields of a session *)

(** Fields other than the counter, the lock, the mark and the context. *)
Definition plain (f : tee_ta_session -> tee_ta_session) : Prop := forall x,
  s_ref_count (f x) = s_ref_count x /\ lock_thread (f x) = lock_thread x /\ unlink (f x) = unlink x /\ s_ctx (f x) = s_ctx x.

(** A session that the thread has locked or refers to. *)
Definition holds (o : own) (a : addr) : Prop := a ∈ (l_a <$> locks o) \/ a ∈ (fst <$> refs o).

Lemma holds_live s G t o a : inv s G -> G !! t = Some o -> holds o a -> is_Some (sessions s !! a).
Proof.
  intros I Ht [(k & -> & Hk)%list_elem_of_fmap|([b h] & -> & Hb)%list_elem_of_fmap].
  - destruct (lock_live _ _ _ _ I Ht k Hk) as (x & -> & _). eauto.
  - eapply (si_live _ _ (i_sess _ _ I)), (si_ref _ _ (i_sess _ _ I)); done.
Qed.

Lemma plain_inv s s' G t o a x f : inv s G -> G !! t = Some o -> sessions s !! a = Some x -> plain f -> upd1 s s' a (f x) -> inv s' (<[t := o]> G).
Proof.
  intros I Ht Ha Hp U. destruct (Hp x) as (P1 & P2 & P3 & P4). pose proof U as [E1 E2 E3]. apply (inv_sess s s' G t o); try done; [by eapply upd1_att|by eapply (i_wf _ _ I)|].
  rewrite list_insert_id by done. eapply sess_upd; try done. apply I.
Qed.

Lemma field_ok strict t o a f : plain f -> holds o a -> ok strict t o (section (upd_session a f)) (fun _ o' => o' = o).
Proof.
  intros Hp Hh. apply ok_sec. intros s G I Ht Hfu. destruct (holds_live _ _ _ _ _ I Ht Hh) as [x Ha]. rewrite (upd_session_run _ _ x) by done. cbn. right. exists o. split; [|done].
  by eapply (plain_inv s _ G t o a x f).
Qed.

Lemma read_session_ok strict t o k (Q : tee_ta_session -> own -> Prop) : k ∈ locks o -> (forall x, s_ctx x = l_ctx k -> Q x o) -> ok strict t o (section (the_session (l_a k))) Q.
Proof.
  intros Hk HQ. apply ok_look. intros s G I Ht. destruct (lock_live _ _ _ _ I Ht k Hk) as (x & Ha & _ & Hc & _). exists x. split; [|by apply HQ]. unfold the_session, bind, get. by rewrite Ha.
Qed.

Lemma ctx_of_ok strict t o k c : k ∈ locks o -> l_ctx k = Some c -> ok strict t o (ctx_of (l_a k)) (fun r o' => r = c /\ o' = o).
Proof.
  intros Hk Ec. apply ok_look. intros s G I Ht. destruct (lock_live _ _ _ _ I Ht k Hk) as (x & Ha & _ & Hc & _). exists c. split; [|done]. rewrite (session_run _ _ x) by done. by rewrite Hc, Ec.
Qed.

Lemma timeout_ok strict t o a now to : holds o a -> ok strict t o (set_invoke_timeout a now to) (fun _ o' => o' = o).
Proof. intros H. by apply field_ok. Qed.

Lemma cancel_ok strict t o a who : holds o a -> ok strict t o (tee_ta_cancel_command a who) (fun _ o' => o' = o).
Proof.
  intros Hh. apply ok_sec. intros s G I Ht Hfu. destruct (holds_live _ _ _ _ _ I Ht Hh) as [x Ha]. rewrite (session_run _ _ x) by done. destruct (negb _).
  - right. exists o. by rewrite list_insert_id.
  - unfold bind. rewrite (upd_session_run _ _ x) by done. cbn. right. exists o. split; [|done]. by eapply (plain_inv s _ G t o a x set_cancel).
Qed.

(** ** The stack of sessions *)

Lemma wf_stk k c o : wf o -> k ∈ locks o -> l_ctx k = Some c -> c ∈ ents o \/ c ∈ cents o \/ c ∈ inits o -> wf (o_stk ((l_a k, c) :: stk o) o).
Proof.
  intros [H1 H2 H3 H4 H5] Hk Ec Hin. split; try done. intros a b [[= -> ->]|Hs]%elem_of_cons; [|by apply H5]. split; [|done]. by exists k.
Qed.

Lemma stack_change s s' G t o o' : inv s G -> G !! t = Some o -> refs o' = refs o -> locks o' = locks o -> crefs o' = crefs o -> ents o' = ents o -> cents o' = cents o -> inits o' = inits o -> dtors o' = dtors o -> wf o' ->
  ctxs s' = ctxs s -> sessions s' = sessions s -> tee_ctxes s' = tee_ctxes s -> open_sessions s' = open_sessions s -> tee_ta_single_instance_thread s' = tee_ta_single_instance_thread s ->
  tee_ta_single_instance_count s' = tee_ta_single_instance_count s -> raced s' = raced s -> sess_stack s' = <[t := fst <$> stk o']> (sess_stack s) -> inv s' (<[t := o']> G).
Proof.
  intros I Ht Er El Ec Ee Eq Ei Ed W E1 E2 E3 E4 E5 E6 E7 E8. split.
  - rewrite E7. apply I.
  - eapply wf_upd; [apply I|done|done].
  - apply (sess_frame s _ _ _ o); try done. apply I.
  - unfold att. rewrite E1, E2, E3. apply (ctx_frame _ _ _ _ _ o); try done. apply I.
  - rewrite E1, E5, E6. apply (single_frame _ _ _ _ _ o); try done. apply I.
  - rewrite E8. intros t0 o0 Ht0. destruct (lookup_upd _ _ _ _ _ _ Ht Ht0) as [[-> ->]|[Hne Ho]]; [by rewrite lookup_insert_eq|rewrite lookup_insert_ne by done; by apply (i_stack _ _ I)].
Qed.

Lemma push_ok strict t o k c : wf o -> k ∈ locks o -> l_ctx k = Some c -> c ∈ ents o \/ c ∈ cents o \/ c ∈ inits o ->
  ok strict t o (ts_push_current_session t (l_a k)) (fun _ o' => o' = o_stk ((l_a k, c) :: stk o) o).
Proof.
  intros W Hk Ec Hin. apply ok_sec. intros s G I Ht Hfu. destruct (lock_live _ _ _ _ I Ht k Hk) as (x & Ha & _). rewrite (session_run _ _ x) by done. unfold bind, get. cbn. right.
  eexists. split; [|reflexivity]. eapply (stack_change s _ G t o); try done; [by apply wf_stk|]. cbn. by rewrite (i_stack _ _ I _ _ Ht).
Qed.

Lemma pop_ok strict t o p : wf o -> ok strict t (o_stk (p :: stk o) o) (ts_pop_current_session t) (fun _ o' => o' = o).
Proof.
  intros W. apply ok_sec. intros s G I Ht Hfu. unfold bind, get. cbn. right. exists o. split; [|done]. eapply (stack_change s _ G t (o_stk (p :: stk o) o)); try done. cbn. by rewrite (i_stack _ _ I _ _ Ht).
Qed.

Lemma inside_ok {A} strict t o k c (body : proc A) (P : A -> Prop) : wf o -> k ∈ locks o -> l_ctx k = Some c -> c ∈ ents o \/ c ∈ cents o \/ c ∈ inits o ->
  (wf (o_stk ((l_a k, c) :: stk o) o) -> ok strict t (o_stk ((l_a k, c) :: stk o) o) body (fun r o' => P r /\ o' = o_stk ((l_a k, c) :: stk o) o)) ->
  ok strict t o (inside t (l_a k) body) (fun r o' => P r /\ o' = o).
Proof.
  intros W Hk Ec Hin Hb. apply ok_bind. eapply ok_mono; [by apply (push_ok _ _ _ k c)|]. intros _ o' ->. apply ok_bind. eapply ok_mono; [by apply Hb, wf_stk|].
  intros r o' [HP ->]. apply ok_bind. eapply ok_mono; [by apply pop_ok|]. intros _ o' ->. by apply ok_done.
Qed.

Lemma enter_ta_ok {A} strict t o k c (body : proc A) (P : A -> Prop) : wf o -> k ∈ locks o -> l_ctx k = Some c -> c ∈ ents o \/ c ∈ cents o \/ c ∈ inits o ->
  (wf (o_stk ((l_a k, c) :: stk o) o) -> ok strict t (o_stk ((l_a k, c) :: stk o) o) body (fun r o' => P r /\ o' = o_stk ((l_a k, c) :: stk o) o)) ->
  ok strict t o (enter_ta t (l_a k) c body) (fun r o' => P r /\ o' = o).
Proof.
  intros W Hk Ec Hin Hb. apply ok_bind. eapply ok_mono; [by apply (inside_ok strict t o k c _ P)|]. intros r ? [HP ->]. apply ok_bind. apply (ok_mono _ _ _ (fun _ o' => o' = o)); [|by intros _ ? ->].
  apply ok_sec. intros s G I Ht Hfu. destruct (attached_live _ _ _ _ I Ht c) as [y Hy]; [by exists k|]. rewrite (the_ctx_run _ _ y) by done. destruct (is_user y); [|right; exists o; by rewrite list_insert_id].
  destruct (lock_live _ _ _ _ I Ht k Hk) as (x & Ha & _). rewrite (upd_session_run _ _ x) by done. cbn. right. exists o. split; [|done]. by eapply (plain_inv s _ G t o (l_a k) x reset_cancel).
Qed.

(** ** What is assumed of trusted applications

    They leave the thread with what it owned; [flat] ones do nothing when they are entered. *)
Record ops_ok (strict : bool) (t : tid) (ops : ts_ops) : Prop := mk_ops_ok {
  oo_enter o a c : wf o -> inits o = [] -> pins o c -> ok strict t o (enter ops a c) (fun _ o' => o' = o);
  oo_close o a c : wf o -> inits o = [] -> pins o c -> ok strict t o (enter_close ops a c) (fun _ o' => o' = o);
  oo_release o c : wf o -> inits o = [] -> pins o c -> ok strict t o (release ops c) (fun _ o' => o' = o);
}.

(** A thread that starts a call. *)
Record ready (strict : bool) (o : own) : Prop := mk_ready {
  r_wf : wf o;
  r_inits : inits o = [];
  r_strict : strict = true -> locks o = [] /\ ents o = [];
}.

Lemma o_crefs_id o : o_crefs (crefs o) o = o. Proof. by destruct o. Qed.

Lemma wf_crefs c o : wf o -> wf (o_crefs (c :: crefs o) o).
Proof.
  intros [H1 H2 H3 H4 H5]. split; try done.
  - intros b Hb. destruct (H2 b Hb); [by left|right; by right].
  - intros b Hb. destruct (H3 b Hb); [by left|right; by right].
Qed.

Lemma wf_dtors c o : wf o -> wf (o_dtors (c :: dtors o) o).
Proof. by intros [H1 H2 H3 H4 H5]. Qed.

Lemma head_ok_crefs c o h : head_ok o h -> head_ok (o_crefs (c :: crefs o) o) h.
Proof. destruct h as [|b]; [done|]. intros [?|[?|?]]; [by left|right; left; by right|by right; right]. Qed.

Lemma entered_locks c l o o2 : entered c (o_locks l o) o2 -> exists o3, o2 = o_locks l o3 /\ entered c o o3 /\ locks o3 = locks o.
Proof. intros [-> | ->]; [exists (o_ents (c :: ents o) o)|exists (o_cents (c :: cents o) o)]; (split; [done|split; [|done]]); [by left|by right]. Qed.

Lemma entered_in c o o' : entered c o o' -> c ∈ ents o' \/ c ∈ cents o'.
Proof. intros [-> | ->]; [left|right]; by left. Qed.

(** The reference that a freed session leaves keeps the entered context. *)
Lemma entered_wf c o o' : entered c o o' -> wf o -> wf (o_crefs (c :: crefs o') o').
Proof.
  intros He W. destruct He as [-> | ->]; [apply (wf_ents c (o_crefs (c :: crefs o) o))|apply (wf_cents c (o_crefs (c :: crefs o) o))]; try (by apply wf_crefs); right; by left.
Qed.

(** ** Closing *)

Section Close.
Context (strict : bool) (t : tid) (ops : ts_ops) (Hops : ops_ok strict t ops) (o : own) (R : ready strict o).

Lemma put_ctx_ok c : ok strict t (o_crefs (c :: crefs o) o) (put_context ops c) (fun _ o' => o' = o).
Proof. apply put_context_ok; [apply R|]. apply (oo_release _ _ _ Hops); [apply wf_dtors, R|apply R|]. right. right. by left. Qed.

(** The entry that closes the session, in a context that has been entered. *)
Lemma closing_ok k c o2 : l_unlink k = false -> head_ok o (l_head k) -> l_ctx k = Some c -> entered c (o_locks (k :: locks o) o) o2 -> wf o2 ->
  ok strict t o2 (do* set_invoke_timeout (l_a k) None TEE_TIMEOUT_INFINITE in do* enter_ta t (l_a k) c (enter_close ops (l_a k) c) in
    do* destroy_session t (l_a k) (l_head k) in tee_ta_clear_busy t c) (fun _ o' => o' = o_crefs (c :: crefs o) o).
Proof.
  intros Hu Hh Ec He W2. destruct (entered_locks _ _ _ _ He) as (o3 & -> & He3 & El). rewrite <- El in W2 |- *. apply ok_bind. eapply ok_mono; [apply timeout_ok; left; by left|]. intros _ ? ->. apply ok_bind.
  eapply ok_mono; [apply (enter_ta_ok strict t _ k c _ (fun _ => True)); [done|by left|done|destruct (entered_in _ _ _ He3) as [?|?]; [by left|by right; left]|]|].
  { intros Wi. eapply ok_mono; [apply (oo_close _ _ _ Hops); [done| |]|by intros ? ? ->]; [by destruct He3 as [-> | ->]; apply R|]. left. exists k. split; [by left|done]. }
  intros _ ? [_ ->]. apply ok_bind. eapply ok_mono; [apply destroy_session_ok; try done|].
  - by destruct He3 as [-> | ->].
  - rewrite Ec. cbn [ref_of]. apply (entered_wf c o); [done|apply R].
  - intros _ ? ->. rewrite Ec. cbn [ref_of]. apply clear_busy_ok; [apply wf_crefs, R|]. destruct He3 as [-> | ->]; [by left|by right].
Qed.

Lemma close_session_ok k : wf (o_locks (k :: locks o) o) -> l_unlink k = false -> head_ok o (l_head k) -> ok strict t (o_locks (k :: locks o) o) (close_session ops t (l_a k) (l_head k)) (fun _ o' => o' = o).
Proof.
  intros W Hu Hh. apply ok_bind, read_session_ok; [by left|]. intros x Hx. rewrite Hx. destruct (l_ctx k) as [c|] eqn:Ec.
  - assert (attached (o_locks (k :: locks o) o) c) as Hat by (exists k; split; [by left|done]). apply ok_bind, read_ctx_ok; [by left|]. intros y. apply ok_bind.
    apply (ok_mono _ _ _ (fun _ o' => o' = o_crefs (c :: crefs o) o)); [|intros _ ? ->; apply put_ctx_ok]. destruct (panicked y).
    + eapply ok_mono; [apply destroy_session_ok; try done; rewrite Ec; apply wf_crefs, R|]. intros _ ? ->. by rewrite Ec.
    + apply ok_bind. eapply ok_mono; [apply set_busy_ok; try done|].
      * cbn [o_locks inits]. rewrite (r_inits _ _ R). apply not_elem_of_nil.
      * intros E. by apply (r_strict _ _ R).
      * intros _ o2 [He W2]. by apply closing_ok.
  - eapply ok_mono; [apply destroy_session_ok; try done; rewrite Ec; cbn [ref_of]; rewrite o_crefs_id; apply R|]. intros _ ? ->. rewrite Ec. apply o_crefs_id.
Qed.
End Close.

Lemma tee_ta_close_session_ok strict t ops o i h who : ops_ok strict t ops -> ready strict o -> head_ok o h -> ok strict t o (tee_ta_close_session ops t i h who) (fun _ o' => o' = o).
Proof.
  intros Hops R Hh. apply ok_bind. eapply ok_mono; [apply get_session_ok; [apply R|done|]|]; [intros E; by apply (r_strict _ _ R)|]. intros [a|] o'; cbn [got]; [|by intros ->].
  intros (c & -> & W). set (k := mk_lk a (Some c) h false) in *. change a with (l_a k). change h with (l_head k) at 1. apply ok_bind, read_session_ok; [by left|]. intros x _. destruct (negb _).
  - apply ok_bind. eapply ok_mono; [apply put_lock_ok; [apply R|done]|]. by intros _ ? ->.
  - apply ok_bind. eapply ok_mono; [by apply close_session_ok|]. by intros _ ? ->.
Qed.
