(* ===== verification/TaManagerOpen.v ===== *)
(** * The TA manager: opening sessions

    Identifiers of new sessions, the registration of sessions and of contexts, the loading of
    trusted applications. *)
From stdpp Require Import gmap.
From S2P Require Import Prelude Threads TaManager TaManagerInv TaManagerSess TaManagerCtx TaManagerCalls.
Local Open Scope Z_scope.

(** ** Identifiers *)

(** How far an identifier is from the first one that was tried, on the cycle of identifiers. *)
Definition dist (saved i : Z) : Z := (i - saved) mod UINT32_MAX.

Definition next (i : Z) : Z := if u32 (i + 1) =? 0 then 1 else u32 (i + 1).

Lemma next_range i : 1 <= next i <= UINT32_MAX.
Proof. unfold next, UINT32_MAX. pose proof (uwrap_range 32 (i + 1) ltac:(lia)) as Hu. unfold is_u in Hu. destruct (u32 (i + 1) =? 0) eqn:E; bool_hyps; lia. Qed.

Lemma dist_next saved i : 1 <= saved <= UINT32_MAX -> 1 <= i <= UINT32_MAX -> next i <> saved -> dist saved (next i) = dist saved i + 1.
Proof.
  unfold dist, next, UINT32_MAX. intros Hs Hi Hn. destruct (decide (i = 0xFFFFFFFF)) as [->|Hne].
  - replace (u32 (0xFFFFFFFF + 1)) with 0 in * by done. cbn [Z.eqb] in *.
    rewrite <- (Z_mod_plus_full (1 - saved) 1). rewrite !Z.mod_small by lia. lia.
  - rewrite (uwrap_small 32 (i + 1)) in * by (unfold is_u; lia). destruct (i + 1 =? 0) eqn:E; bool_hyps; [lia|]. destruct (decide (saved <= i)).
    + rewrite !Z.mod_small by lia. lia.
    + rewrite <- (Z_mod_plus_full (i - saved) 1), <- (Z_mod_plus_full (i + 1 - saved) 1). rewrite !Z.mod_small by lia. lia.
Qed.

Lemma dist_range saved i : 0 <= dist saved i < UINT32_MAX.
Proof. apply Z.mod_pos_bound. done. Qed.

Lemma dist_inj saved i j : 1 <= i <= UINT32_MAX -> 1 <= j <= UINT32_MAX -> dist saved i = dist saved j -> i = j.
Proof.
  unfold dist. intros Hi Hj E. assert ((i - j) mod UINT32_MAX = 0) as Hz by (replace (i - j) with ((i - saved) - (j - saved)) by lia; rewrite Zminus_mod, E, Z.sub_diag; done).
  apply Z.mod_divide in Hz as [q Hq]; [|done]. unfold UINT32_MAX in *. nia.
Qed.

(** The identifier before the first is the last. *)
Lemma dist_last saved i j : 1 <= saved <= UINT32_MAX -> 1 <= i <= UINT32_MAX -> 1 <= j <= UINT32_MAX -> next i = saved -> dist saved i <= dist saved j -> j = i.
Proof.
  intros Hs Hi Hj E Hd. apply (dist_inj saved); [done|done|]. pose proof (dist_range saved j). assert (dist saved i = UINT32_MAX - 1); [|lia]. clear Hd H. unfold dist, next, UINT32_MAX in *.
  destruct (decide (i = 0xFFFFFFFF)) as [->|Hne].
  - replace (u32 (0xFFFFFFFF + 1)) with 0 in * by done. cbn [Z.eqb] in *. subst saved. done.
  - rewrite (uwrap_small 32 (i + 1)) in E by (unfold is_u; lia). destruct (i + 1 =? 0) eqn:E'; bool_hyps; [lia|]. subst saved. replace (i - (i + 1)) with (-1) by lia. done.
Qed.

Definition ids (l : list addr) (s : tam) : list Z := omap (fun a => id <$> sessions s !! a) l.

Lemma ids_length l s : (length (ids l s) <= length l)%nat.
Proof. unfold ids. induction l as [|a l IH]; [done|]. cbn [omap list_omap]. destruct (sessions s !! a); cbn; lia. Qed.

Lemma ids_in l s a x : a ∈ l -> sessions s !! a = Some x -> id x ∈ ids l s.
Proof. intros Hl Ha. apply list_elem_of_omap. exists a. split; [done|]. by rewrite Ha. Qed.

Section Ids.
Context (h : head) (s : tam) (Hlive : forall a, a ∈ olist h s -> is_Some (sessions s !! a)) (Hhead : match h with Nsec => True | Utc c => is_Some (ctxs s !! c) end).

Lemma live_list_run {B} (k : _ -> M tam B) : bind (sessions_of h) k s = k (olist h s) s.
Proof. unfold sessions_of. destruct h as [|c]; [done|]. destruct Hhead as [x Hx]. unfold bind at 1 2. by rewrite (the_ctx_run _ _ x). Qed.

(** The identifiers [T] that were tried are those up to [i]; they are taken, and different. *)
Lemma next_id_run fuel saved i T : 1 <= saved <= UINT32_MAX -> 1 <= i <= UINT32_MAX -> (fuel + length T = S (length (olist h s)))%nat -> NoDup T -> T ⊆ ids (olist h s) s ->
  (forall j, 1 <= j <= UINT32_MAX -> j ∈ T <-> dist saved j < dist saved i) -> (forall j, j ∈ T -> 1 <= j <= UINT32_MAX) ->
  exists r, next_id fuel saved i h s = (Ret r, s) /\ (r = 0 /\ (forall j, 1 <= j <= UINT32_MAX -> j ∈ ids (olist h s) s) \/ 1 <= r <= UINT32_MAX /\ r ∉ ids (olist h s) s).
Proof.
  revert i T. induction fuel as [|k IH]; intros i T Hs Hi Hf Hnd Hsub Hd Hr.
  - exfalso. pose proof (ids_length (olist h s) s). assert (length T <= length (ids (olist h s) s))%nat; [|lia].
    apply List.NoDup_incl_length; [by apply NoDup_ListNoDup|]. intros j. rewrite <- !list_elem_of_In. apply Hsub.
  - cbn [next_id]. unfold tee_ta_find_session_nolock. unfold bind at 1. rewrite live_list_run. destruct (find_id_run s i (olist h s) Hlive) as (r & Hfd & Hfound). rewrite Hfd. destruct r as [a|].
    2:{ exists i. split; [done|]. right. split; [done|]. intros (a & Ha & Ea)%list_elem_of_omap. destruct (sessions s !! a) as [x|] eqn:Ex; [|done]. injection Ea as Ea. by eapply Hfound. }
    destruct Hfound as (Hl & x & Ha & <-). fold (next (id x)). destruct (next (id x) =? saved) eqn:E; bool_hyps.
    + exists 0. split; [done|]. left. split; [done|]. intros j Hj. destruct (decide (j ∈ T)) as [?|Hn]; [by apply Hsub|]. assert (j = id x) as ->; [|by eapply ids_in].
      eapply (dist_last saved); try done. rewrite Hd in Hn by done. lia.
    + pose proof (dist_next saved (id x) Hs Hi E) as Hdn. apply (IH (next (id x)) (id x :: T)); try done.
      * apply next_range.
      * cbn. lia.
      * constructor; [|done]. intros Hin. apply Hd in Hin; [lia|done].
      * intros j [->|Hj]%elem_of_cons; [by eapply ids_in|by apply Hsub].
      * intros j Hj. rewrite elem_of_cons, Hd, Hdn by done. split; [intros [->|?]; lia|]. intros Hlt. destruct (decide (dist saved j = dist saved (id x))) as [Eq|]; [left; by eapply dist_inj|right; lia].
      * intros j [->|Hj]%elem_of_cons; [done|by apply Hr].
Qed.

Lemma new_session_id_run : exists r, new_session_id h s = (Ret r, s) /\ (r = 0 /\ (forall j, 1 <= j <= UINT32_MAX -> j ∈ ids (olist h s) s) \/ 1 <= r <= UINT32_MAX /\ r ∉ ids (olist h s) s).
Proof.
  unfold new_session_id. rewrite live_list_run.
  assert (forall i, 1 <= i <= UINT32_MAX -> exists r, next_id (S (length (olist h s))) i i h s = (Ret r, s) /\ (r = 0 /\ (forall j, 1 <= j <= UINT32_MAX -> j ∈ ids (olist h s) s) \/ 1 <= r <= UINT32_MAX /\ r ∉ ids (olist h s) s)) as Hrun.
  { intros i Hi. apply (next_id_run _ i i []); [done|done|cbn [length]; lia|constructor|by intros j ?%elem_of_nil| |by intros j ?%elem_of_nil].
    intros j Hj. rewrite elem_of_nil. unfold dist at 2. rewrite Z.sub_diag, Z.mod_0_l by done. pose proof (dist_range i j). lia. }
  unfold bind. destruct (last (olist h s)) as [a|] eqn:El; [|by apply Hrun].
  destruct (Hlive a) as [x Ha]; [by apply last_Some_elem_of|]. unfold the_session, bind, get. rewrite Ha. apply Hrun, next_range.
Qed.
End Ids.

(** ** A new session *)

Lemma new_session_fresh s : sessions s !! new_session s = None.
Proof. apply (not_elem_of_dom (D := gset addr)). unfold new_session. apply (is_fresh (C := gset addr)). Qed.

(** Nobody refers to a session that does not exist. *)
Lemma absent_session s G a t o : sess_inv s G -> sessions s !! a = None -> G !! t = Some o -> (forall h, a ∉ olist h s) /\ a ∉ (fst <$> refs o) /\ a ∉ (l_a <$> locks o).
Proof.
  intros S Ha Ht. assert (forall h, a ∉ olist h s) as Hl by (intros h Hin; destruct (si_live _ _ S _ _ Hin); congruence). split; [done|]. split.
  - intros ([b h] & -> & Hb)%list_elem_of_fmap. by eapply (Hl h), (si_ref _ _ S).
  - intros (k & -> & Hk)%list_elem_of_fmap. destruct (si_lock _ _ S _ _ _ Ht Hk) as (x & ? & _). congruence.
Qed.

Lemma absent_total s G a : sess_inv s G -> sessions s !! a = None -> total (nref a) G = 0%nat.
Proof.
  intros S Ha. destruct (total (nref a) G) eqn:E; [done|exfalso]. destruct (total_pos (nref a) G) as (t & o & Ht & Hp); [lia|]. destruct (absent_session _ _ _ _ _ S Ha Ht) as (_ & H1 & H2).
  apply cnt_zero in H1, H2. unfold nref in Hp. lia.
Qed.

(** Session [a] has been added to the list [h]. *)
Record added (s s' : tam) (a : addr) (h : head) (x : tee_ta_session) : Prop := mk_added {
  a_sess : sessions s' = <[a := x]> (sessions s);
  a_open : open_sessions s' = <[h := olist h s ++ [a]]> (open_sessions s);
  a_same : same_ctx s s';
}.

Lemma added_olist s s' a h x h0 b : added s s' a h x -> b ∈ olist h0 s' <-> b ∈ olist h0 s \/ b = a /\ h0 = h.
Proof.
  intros [_ E _]. unfold olist at 1. rewrite E. destruct (decide (h0 = h)) as [->|Hne].
  - rewrite lookup_insert_eq. change (b ∈ olist h s ++ [a] <-> b ∈ olist h s \/ b = a /\ h = h). rewrite elem_of_app, list_elem_of_singleton. naive_solver.
  - rewrite lookup_insert_ne by done. fold (olist h0 s). naive_solver.
Qed.

Lemma sess_add s s' G t o o' a h x : sess_inv s G -> G !! t = Some o -> sessions s !! a = None -> added s s' a h x -> s_ref_count x = 1 -> lock_thread x = Some t -> unlink x = false -> s_ctx x = None ->
  refs o' = refs o -> locks o' = mk_lk a None h false :: locks o -> sess_inv s' (<[t := o']> G).
Proof.
  intros S Ht Ha Ad X1 X2 X3 X4 Er El. pose proof Ad as [E1 E2 E3]. pose proof (absent_total _ _ _ S Ha) as Hz. pose proof (fun h0 b => added_olist s s' a h x h0 b Ad) as Hol.
  assert (forall b, nref b o' = (if decide (a = b) then 1 else 0) + nref b o)%nat as Hn by (intros b; unfold nref; rewrite Er, El; cbn [fmap list_fmap l_a]; rewrite cnt_cons; lia).
  assert (forall h0 b, b ∈ olist h0 s -> b <> a) as Hne by (intros h0 b Hb ->; destruct (absent_session _ _ _ _ _ S Ha Ht) as [Hl _]; by apply (Hl h0)).
  pose proof S as [H1 H2 H3 H4 H5 H6 H7 H8]. split.
  - intros b y. rewrite E1. pose proof (total_insert (nref b) G t o o' Ht) as T. rewrite Hn in T. destruct (decide (b = a)) as [->|Hb].
    + rewrite lookup_insert_eq. intros [= <-]. rewrite decide_True in T by done. lia.
    + rewrite lookup_insert_ne by done. intros Hy. rewrite decide_False in T by done. rewrite (H1 _ _ Hy). lia.
  - intros t0 o0 b h0 Ht0 Hb. apply Hol. left. destruct (lookup_upd _ _ _ _ _ _ Ht Ht0) as [[-> ->]|[_ ?]]; [rewrite Er in Hb|]; by eapply H2.
  - assert (forall t0 o0 k, G !! t0 = Some o0 -> k ∈ locks o0 -> locked s' t0 k) as Hk.
    { intros t0 o0 k Ho Hk. destruct (H3 _ _ _ Ho Hk) as (y & Hy & Y1 & Y2 & Y3 & Y4). exists y. rewrite E1, lookup_insert_ne by (intros E; by eapply Hne). split_and!; try done. apply Hol. by left. }
    intros t0 o0 k Ht0 Hin. destruct (lookup_upd _ _ _ _ _ _ Ht Ht0) as [[-> ->]|[_ ?]]; [|by eapply Hk]. rewrite El in Hin. apply elem_of_cons in Hin as [->|Hin]; [|by eapply Hk].
    exists x. cbn [l_a l_ctx l_unlink l_head]. rewrite E1, lookup_insert_eq. split_and!; try done. apply Hol. by right.
  - intros b y t0. rewrite E1. destruct (decide (b = a)) as [->|Hb].
    + rewrite lookup_insert_eq. intros [= <-]. rewrite X2. intros [= <-]. exists o'. rewrite list_lookup_insert_eq by (by eapply lookup_lt_Some). split; [done|]. rewrite El. by left.
    + rewrite lookup_insert_ne by done. intros Hy Hl. destruct (H4 _ _ _ Hy Hl) as (o1 & Ho1 & Hin). destruct (decide (t0 = t)) as [->|Hnt]; [|exists o1; by rewrite list_lookup_insert_ne].
      simplify_eq. exists o'. rewrite list_lookup_insert_eq by (by eapply lookup_lt_Some). split; [done|]. rewrite El. by right.
  - intros h0. unfold olist. rewrite E2. destruct (decide (h0 = h)) as [->|]; [rewrite lookup_insert_eq; cbn [default]|rewrite lookup_insert_ne by done; apply H5].
    apply NoDup_app. split; [apply H5|]. split; [|apply NoDup_singleton]. intros b Hb ->%list_elem_of_singleton. by eapply Hne.
  - intros h0 b [Hb|[-> _]]%Hol; rewrite E1; [rewrite lookup_insert_ne by (intros E; by eapply Hne)|rewrite lookup_insert_eq; eauto]. by eapply H6.
  - intros h0 h1 b [Hb|[-> Eh]]%Hol [Hb'|[Eb Eh']]%Hol; [by eapply H7|subst b; by destruct (Hne _ _ Hb)|by destruct (Hne _ _ Hb')|congruence].
  - intros b y. rewrite E1. destruct (decide (b = a)) as [->|]; [rewrite lookup_insert_eq; intros [= <-]; congruence|rewrite lookup_insert_ne by done; apply H8].
Qed.

(** Only the number of sessions on a context and that they are on live contexts matters. *)
Lemma ctx_att m l at_ at' G : ctx_inv m l at_ G -> (forall c, natt c at' = natt c at_) -> (forall a c, at' !! a = Some (Some c) -> is_Some (m !! c)) -> ctx_inv m l at' G.
Proof. intros [H1 H2 H3 H4 H5 H6 H7 H8 H9 H10 H11 H12] E El. split; try done. intros c x Hc. rewrite E. by apply H1. Qed.

Lemma add_session_ok strict t o h : wf o -> head_ok o h -> ok strict t o (section (add_session t h))
  (fun r o' => match r with inl e => o' = o | inr a => o' = o_locks (mk_lk a None h false :: locks o) o /\ wf o' end).
Proof.
  intros W Hh. apply ok_sec. intros s G I Ht Hfu. unfold add_session. destruct (new_session_id_run h s) as (i & Hi & _); [apply (si_live _ _ (i_sess _ _ I))|by destruct h as [|c]; [|apply (pins_live _ _ _ _ I Ht)]|]. unfold bind at 1. rewrite Hi.
  destruct (i =? 0); [right; exists o; by rewrite list_insert_id|]. unfold bind at 1, get. set (a := new_session s). set (x := mk_sess _ _ _ _ _ _ _ _ _ _). unfold bind at 1. cbn [put_sessions modify].
  pose proof (new_session_fresh s : sessions s !! a = None) as Ha. set (s1 := mk_tam _ _ _ _ _ _ _ _ _).
  assert (forall {B} (k : _ -> M tam B), bind (sessions_of h) k s1 = k (olist h s) s1) as ->.
  { intros B k. unfold sessions_of. destruct h as [|c]; [done|]. destruct (pins_live _ _ _ _ I Ht c Hh) as [y Hy]. unfold bind at 1 2. rewrite (the_ctx_run _ _ y) by done. done. }
  cbn. right. set (o' := o_locks (mk_lk a None h false :: locks o) o). exists o'. assert (wf o') as W' by (apply wf_lock; [done|]; by apply (absent_session _ _ _ _ _ (i_sess _ _ I) Ha Ht)).
  split; [|done]. match goal with |- inv ?z _ => assert (added s z a h x) as Ad by (split; done); set (s' := z) in * end. split.
  - apply I.
  - eapply wf_upd; [apply I|done|done].
  - eapply (sess_add s s' G t o o' a h x); try done. apply I.
  - apply (ctx_frame _ _ (att s') _ _ o); try done. apply (ctx_att _ _ (att s)); [apply I|..]; unfold att; cbn [s' sessions]; rewrite fmap_insert.
    + intros c. by rewrite natt_insert by (by rewrite lookup_fmap, Ha).
    + intros b c Hb. apply lookup_insert_Some in Hb as [[_ ?]|[_ Hb]]; [done|]. by eapply (ci_att _ _ _ _ (i_ctx _ _ I)).
  - apply (single_frame _ _ _ _ _ o); try done. apply I.
  - apply (stack_frame _ _ _ o); try done. apply I.
Qed.

(** ** The context of a session *)

Lemma natt_update c (m : gmap addr (option addr)) a oc oc' : m !! a = Some oc ->
  (natt c (<[a := oc']> m) + (if decide (oc = Some c) then 1 else 0) = natt c m + (if decide (oc' = Some c) then 1 else 0))%nat.
Proof. intros Ha. rewrite (natt_delete c (<[a := oc']> m) a oc') by apply lookup_insert_eq. rewrite (natt_delete c m a oc Ha), delete_insert_eq. lia. Qed.

Lemma sess_olist s s' G : sess_inv s G -> sessions s' = sessions s -> (forall h, olist h s' = olist h s) -> sess_inv s' G.
Proof.
  intros [H1 H2 H3 H4 H5 H6 H7 H8] Es Eo. split; try (rewrite Es; done); intros *; rewrite ?Eo, ?Es; try done; eauto.
  intros Ht Hk. destruct (H3 _ _ _ Ht Hk) as (x & Hx & Hr). exists x. by rewrite Es, Eo.
Qed.

Lemma olist_new h c s : open_sessions s !! Utc c = None -> default [] (<[Utc c := []]> (open_sessions s) !! h) = olist h s.
Proof. intros Hn. unfold olist. destruct (decide (h = Utc c)) as [->|]; [by rewrite lookup_insert_eq, Hn|by rewrite lookup_insert_ne]. Qed.

(** The context of a session that the thread has locked changes. *)
Record rectx (s s' : tam) (t : tid) (o o' : own) (a : addr) (oc oc' : option addr) : Prop := mk_rectx {
  rc_sess x : sessions s !! a = Some x -> sessions s' = <[a := set_ctx oc' x]> (sessions s);
  rc_open h : olist h s' = olist h s;
  rc_refs : refs o' = refs o;
  rc_locks : exists h L, locks o = mk_lk a oc h false :: L /\ locks o' = mk_lk a oc' h false :: L;
}.

Lemma sess_rectx s s' G t o o' a oc oc' : inv s G -> G !! t = Some o -> rectx s s' t o o' a oc oc' -> sess_inv s' (<[t := o']> G).
Proof.
  intros I Ht [Es Eo Er (h & L & E1 & E2)]. pose proof (w_nodup _ (i_wf _ _ I _ _ Ht)) as Hnd. rewrite E1 in Hnd. cbn [fmap list_fmap l_a] in Hnd. apply NoDup_cons in Hnd as [Hnd _].
  destruct (lock_live _ _ _ _ I Ht (mk_lk a oc h false)) as (x & Ha & Hx & Hc & Hu & Hl); [rewrite E1; by left|]. cbn [l_a l_ctx l_unlink l_head] in *. specialize (Es x Ha).
  set (s1 := mk_tam (ctxs s) (<[a := set_ctx oc' x]> (sessions s)) (tee_ctxes s) (open_sessions s) (tee_ta_single_instance_thread s) (tee_ta_single_instance_count s) (sess_stack s) (cvq s) (raced s)).
  apply (sess_olist s1); [|done|intros h0; rewrite Eo; done]. apply (sess_change s s1 G t o o' a x (set_ctx oc' x) (i_sess _ _ I) Ht Ha eq_refl eq_refl).
  - intros b Hb. unfold nref. rewrite Er, E1, E2. done.
  - unfold nref. rewrite Er, E1, E2. cbn [set_ctx s_ref_count fmap list_fmap l_a]. lia.
  - intros b h' Hb. left. by rewrite <- Er.
  - intros k Hk. rewrite E2 in Hk. apply elem_of_cons in Hk as [->|Hk]; [by right|]. left. split; [|rewrite E1; by right]. intros E. apply Hnd. rewrite <- E. by apply list_elem_of_fmap_2.
  - congruence.
  - intros t0 E. left. split; [cbn in E; congruence|]. rewrite E2. by left.
  - intros b Hb. rewrite E1, E2. done.
  - cbn [set_ctx lock_thread]. congruence.
Qed.

Lemma att_rectx s s' t o o' a oc oc' x : sessions s !! a = Some x -> rectx s s' t o o' a oc oc' -> att s' = <[a := oc']> (att s).
Proof. intros Ha [Es _ _ _]. unfold att. rewrite (Es x Ha). by rewrite fmap_insert. Qed.

(** What the rest of the invariant needs. *)
Lemma inv_rectx s s' G t o o' a oc oc' : inv s G -> G !! t = Some o -> rectx s s' t o o' a oc oc' -> wf o' -> raced s' = raced s -> sess_stack s' = sess_stack s -> stk o' = stk o ->
  (att s !! a = Some oc -> att s' = <[a := oc']> (att s) -> ctx_inv (ctxs s') (tee_ctxes s') (<[a := oc']> (att s)) (<[t := o']> G)) ->
  single_inv (ctxs s') (tee_ta_single_instance_thread s') (tee_ta_single_instance_count s') (<[t := o']> G) -> inv s' (<[t := o']> G).
Proof.
  intros I Ht Rc W Er Es Ek Hc Hs. pose proof Rc as [_ _ _ (h & L & E1 & E2)]. destruct (lock_live _ _ _ _ I Ht (mk_lk a oc h false)) as (x & Ha & _ & Hcx & _); [rewrite E1; by left|]. cbn [l_a l_ctx] in *. split.
  - rewrite Er. apply I.
  - eapply wf_upd; [apply I|done|done].
  - by eapply sess_rectx.
  - pose proof (att_rectx _ _ _ _ _ _ _ _ _ Ha Rc) as Ea. rewrite Ea. apply Hc; [|done]. rewrite (att_lookup _ _ _ Ha). by rewrite Hcx.
  - done.
  - rewrite Es. apply (stack_frame _ _ _ o); [apply I|done|done].
Qed.

(** A session joins a context that exists. *)
Lemma attach_ctx s G t o o' a c x : inv s G -> full s = false -> G !! t = Some o -> ctxs s !! c = Some x -> is_initializing x = false -> is_releasing x = false -> att s !! a = Some None ->
  crefs o' = crefs o -> ents o' = ents o -> cents o' = cents o -> inits o' = inits o -> dtors o' = dtors o ->
  ctx_inv (<[c := add_ctx_ref 1 x]> (ctxs s)) (tee_ctxes s) (<[a := Some c]> (att s)) (<[t := o']> G).
Proof.
  intros I Hfu Ht Hc Hi Hr Ha Ec Ee Eq Ei Ed. pose proof (ctx_ref_range _ _ _ _ I Hfu Hc) as Hrg. pose proof (add_ctx_ref_count 1 x ltac:(lia)) as Hcn. pose proof (i_ctx _ _ I) as C. pose proof (fun b => natt_update b (att s) a None (Some c) Ha) as Hn.
  assert (c ∉ dtors o) as Hnd by (intros Hd; destruct (ci_dtor _ _ _ _ C _ _ _ Ht Hd) as (y & ? & ? & _); congruence).
  apply (ctx_change _ (tee_ctxes s) _ (att s) _ G t o o' c x (add_ctx_ref 1 x) 1 C Ht Hc).
  - split; rewrite ?Ec, ?Ee, ?Ei, ?Ed, ?Eq, ?Hcn; cbn [add_ctx_ref busy is_initializing is_releasing flags]; try done; try congruence.
    + intros b Hb. by left.
    + lia.
    + intros Hin. pose proof (ci_ent _ _ _ _ C _ _ _ Ht Hin) as Hf. unfold flag in Hf. by rewrite Hc in Hf.
    + by left.
    + by left.
    + apply C.
    + intros b. rewrite (ci_listed _ _ _ _ C). split; [|intros [[_ ?]|[-> ?]]; [done|eauto]]. intros (y & Hy & Hry). destruct (decide (b = c)) as [->|]; [right; by simplify_eq|left; eauto].
  - intros b Hb. specialize (Hn b). rewrite (decide_False (P := Some c = Some b)) in Hn by congruence. rewrite decide_False in Hn by done. lia.
  - specialize (Hn c). rewrite (decide_True (P := Some c = Some c)) in Hn by done. rewrite decide_False in Hn by done. lia.
  - intros b d [[<- [= <-]]|[_ Hb]]%lookup_insert_Some; [by left|right; eauto].
Qed.

(** No thread has to do with a context that does not exist. *)
Record idle (c : addr) (o : own) : Prop := mk_idle {
  id_crefs : c ∉ crefs o;
  id_ents : c ∉ ents o;
  id_cents : c ∉ cents o;
  id_inits : c ∉ inits o;
  id_dtors : c ∉ dtors o;
}.

Lemma absent_ctx s G c t o : inv s G -> ctxs s !! c = None -> G !! t = Some o -> idle c o.
Proof.
  intros I Hc Ht. pose proof (i_wf _ _ I _ _ Ht) as W. assert (forall b, pins o b -> b <> c) as Hp by (intros b Hb ->; destruct (pins_live _ _ _ _ I Ht c Hb); congruence).
  assert (attached o c \/ c ∈ crefs o -> False) as Hn by (intros [?|?]; eapply (Hp c); try done; [by left|by right; left]).
  split; intros Hin; [apply Hn; by right|apply Hn; by apply (w_ents _ W)|apply Hn; by apply (w_cents _ W)|apply Hn; left; by apply (w_inits _ W)|]. apply (Hp c); [by right; right|done].
Qed.

Lemma idle_total (f : own -> list addr) c G : (forall t o, G !! t = Some o -> c ∉ f o) -> total (fun o => cnt c (f o)) G = 0%nat.
Proof.
  intros H. destruct (total (fun o => cnt c (f o)) G) eqn:E; [done|exfalso]. destruct (total_pos (fun o => cnt c (f o)) G) as (t & o & Ht & Hp); [lia|]. apply cnt_elem in Hp. by eapply H.
Qed.

(** A new context with one session. *)
Lemma ctx_add s G t o o' a c u f b v : inv s G -> G !! t = Some o -> ctxs s !! c = None -> att s !! a = Some None -> (b = true -> f = 0) ->
  crefs o' = crefs o -> ents o' = ents o -> cents o' = cents o -> inits o' = (if b then c :: inits o else inits o) -> dtors o' = dtors o ->
  ctx_inv (<[c := mk_ctx u f false 1 false b false v]> (ctxs s)) (tee_ctxes s ++ [c]) (<[a := Some c]> (att s)) (<[t := o']> G).
Proof.
  intros I Ht Hc Ha Hf Ec Ee Eq Ei Ed. pose proof (i_ctx _ _ I) as C. pose proof (fun t o => absent_ctx s G c t o I Hc) as Hid. pose proof C as [H1 H2 H3 H4 H5 H6 H7 H8 H9 H10 H11 H12].
  set (x := mk_ctx u f false 1 false b false v). pose proof (fun d => natt_update d (att s) a None (Some c) Ha) as Hn.
  assert (natt c (att s) = 0%nat) as Hz.
  { destruct (natt c (att s)) eqn:E; [done|exfalso]. unfold natt in E. destruct (filter _ _) as [|[a0 oc] l] eqn:El; [done|]. assert ((a0, oc) ∈ filter (fun p => snd p = Some c) (map_to_list (att s))) as Hin by (rewrite El; by left).
    apply list_elem_of_filter in Hin as [Hoc Hin]. cbn in Hoc. subst oc. apply elem_of_map_to_list in Hin. destruct (H2 _ _ Hin). congruence. }
  assert (forall f0 d, is_Some (ctxs s !! d) -> flag f0 (<[c := x]> (ctxs s)) d = flag f0 (ctxs s) d) as Hfl by (intros f0 d [y Hd]; unfold flag; rewrite lookup_insert_ne; [done|congruence]).
  assert (forall d, is_Some (ctxs s !! d) -> is_Some (<[c := x]> (ctxs s) !! d)) as Hl by (intros d Hd; apply lookup_insert_is_Some'; by right).
  assert (forall t0 o0 d, G !! t0 = Some o0 -> d ∈ ents o0 \/ d ∈ cents o0 -> is_Some (ctxs s !! d)) as Hent.
  { intros t0 o0 d Ho Hd. apply (pins_live _ _ _ _ I Ho). pose proof (i_wf _ _ I _ _ Ho) as W. assert (attached o0 d \/ d ∈ crefs o0) as [?|?] by (destruct Hd; [by apply (w_ents _ W)|by apply (w_cents _ W)]); [by left|by right; left]. }
  split.
  - intros d y Hd. rewrite (total_same _ _ _ _ _ Ht) by (by rewrite Ec). specialize (Hn d). rewrite (decide_False (P := None = Some d)) in Hn by done. destruct (decide (d = c)) as [->|Hne].
    + rewrite lookup_insert_eq in Hd. injection Hd as <-. cbn [x c_ref_count]. rewrite (idle_total crefs) by (intros; by eapply id_crefs, Hid). rewrite decide_True in Hn by done. lia.
    + rewrite lookup_insert_ne in Hd by done. rewrite decide_False in Hn by congruence. rewrite (H1 _ _ Hd). lia.
  - intros a0 d [[<- [= <-]]|[_ Hd]]%lookup_insert_Some; [rewrite lookup_insert_eq; eauto|]. apply Hl. by eapply H2.
  - intros t0 o0 d Ht0 Hd. apply Hl. destruct (lookup_upd _ _ _ _ _ _ Ht Ht0) as [[-> ->]|[_ ?]]; [rewrite Ec in Hd|]; by eapply H3.
  - apply NoDup_app. split; [done|]. split; [|apply NoDup_singleton]. intros d Hd ->%list_elem_of_singleton. apply H5 in Hd as (y & ? & _). congruence.
  - intros d. rewrite elem_of_app, list_elem_of_singleton, H5. destruct (decide (d = c)) as [->|Hne].
    + rewrite lookup_insert_eq. split; [|by right]. intros _. by exists x.
    + rewrite lookup_insert_ne by done. naive_solver.
  - intros d y Hd. rewrite (total_same _ _ _ _ _ Ht) by (by rewrite Ee). destruct (decide (d = c)) as [->|Hne].
    + rewrite lookup_insert_eq in Hd. injection Hd as <-. apply (idle_total ents). intros; by eapply id_ents, Hid.
    + rewrite lookup_insert_ne in Hd by done. by apply H6.
  - intros t0 o0 d Ht0 Hd. assert (exists o1, G !! t0 = Some o1 /\ d ∈ ents o1) as (o1 & Ho1 & Hd1) by (destruct (lookup_upd _ _ _ _ _ _ Ht Ht0) as [[-> ->]|[_ ?]]; [exists o; by rewrite <- Ee|by exists o0]).
    rewrite Hfl by (eapply Hent; [done|by left]). by eapply H7.
  - intros d y Hd. pose proof (total_insert (fun o => cnt d (inits o)) G t o o' Ht) as T. cbv beta in T. rewrite Ei in T. destruct (decide (d = c)) as [->|Hne].
    + rewrite lookup_insert_eq in Hd. injection Hd as <-. cbn [x is_initializing]. assert (total (fun o => cnt c (inits o)) G = 0%nat) as E0 by (apply (idle_total inits); intros; by eapply id_inits, Hid).
      destruct b; [rewrite cnt_cons, decide_True in T by done|]; lia.
    + rewrite lookup_insert_ne in Hd by done. rewrite <- (H8 _ _ Hd). destruct b; [rewrite cnt_cons, decide_False in T by done|]; lia.
  - intros d y Hd. destruct (decide (d = c)) as [->|Hne]; [rewrite lookup_insert_eq in Hd; injection Hd as <-; cbn; intros E; by rewrite Hf|]. rewrite lookup_insert_ne in Hd by done. by eapply H9.
  - intros t0 o0 d Ht0 Hd. assert (exists y, ctxs s !! d = Some y /\ is_releasing y = true /\ c_ref_count y = 0) as (y & Hy & ?) by (destruct (lookup_upd _ _ _ _ _ _ Ht Ht0) as [[-> ->]|[_ ?]]; [rewrite Ed in Hd|]; by eapply H10).
    exists y. rewrite lookup_insert_ne; [done|congruence].
  - intros d. rewrite (total_same _ _ _ _ _ Ht) by (by rewrite Ed). apply H11.
  - intros t0 o0 d Ht0 Hd. assert (exists o1, G !! t0 = Some o1 /\ d ∈ cents o1) as (o1 & Ho1 & Hd1) by (destruct (lookup_upd _ _ _ _ _ _ Ht Ht0) as [[-> ->]|[_ ?]]; [exists o; by rewrite <- Eq|by exists o0]).
    rewrite Hfl by (eapply Hent; [done|by right]). by eapply H12.
Qed.

(** ** Finding the context *)

Lemma new_context_fresh s : ctxs s !! new_context s = None /\ open_sessions s !! Utc (new_context s) = None.
Proof.
  pose proof (is_fresh (C := gset addr) (contexts_so_far s)) as H. fold (new_context s) in H. unfold contexts_so_far at 1 in H. apply not_elem_of_union in H as [H1 H2]. split; [by apply not_elem_of_dom|].
  destruct (open_sessions s !! Utc (new_context s)) as [l|] eqn:E; [exfalso|done]. apply H2, elem_of_list_to_set, list_elem_of_omap. exists (Utc (new_context s), l). split; [by apply elem_of_map_to_list|done].
Qed.

Lemma wf_inits c o : wf o -> attached o c -> wf (o_inits (c :: inits o) o).
Proof.
  intros [H1 H2 H3 H4 H5] Hc. split; try done.
  - intros b [->|Hb]%elem_of_cons; [done|by apply H4].
  - intros a b Hs. destruct (H5 _ _ Hs) as [Hk [?|[?|?]]]; (split; [exact Hk|]); [by left|by right; left|right; right; by right].
Qed.

Lemma find_uuid_run s u l : (forall c, c ∈ l -> is_Some (ctxs s !! c)) -> exists r, find_uuid u l s = (Ret r, s) /\ match r with Some c => c ∈ l | None => True end.
Proof.
  induction l as [|c l IH]; intros Hl; cbn [find_uuid]; [by exists None|]. destruct (Hl c ltac:(by left)) as [x Hx]. rewrite (the_ctx_run _ _ x) by done.
  destruct (uuid x =? u); [exists (Some c); split; [done|by left]|]. destruct IH as (r & -> & Hr); [intros d Hd; apply Hl; by right|]. exists r. split; [done|]. destruct r; [by right|done].
Qed.

Section Find.
Context (strict : bool) (t : tid) (o : own) (W : wf o) (Hi : inits o = []) (a : addr) (h : head) (Hfr : a ∉ (l_a <$> locks o)).

(** The session is locked and has the context [oc]. *)
Definition opening (oc : option addr) : own := o_locks (mk_lk a oc h false :: locks o) o.
Definition loading_own (c : addr) : own := o_inits (c :: inits o) (opening (Some c)).

Lemma wf_opening oc : wf (opening oc).
Proof. by apply wf_lock. Qed.
Lemma wf_loading c : wf (loading_own c).
Proof. apply (wf_inits c (opening (Some c))); [apply wf_opening|]. eexists. split; [by left|done]. Qed.

Lemma opening_session s G oc : inv s G -> G !! t = Some (opening oc) -> exists x, sessions s !! a = Some x /\ att s !! a = Some oc.
Proof.
  intros I Ht. destruct (lock_live _ _ _ _ I Ht (mk_lk a oc h false) ltac:(by left)) as (x & Ha & _ & Hc & _). cbn [l_a l_ctx] in *. exists x. split; [done|]. rewrite (att_lookup _ _ _ Ha). by rewrite Hc.
Qed.

Lemma attach_inv s s' G c x y : inv s G -> full s = false -> G !! t = Some (opening None) -> ctxs s !! c = Some x -> is_initializing x = false -> is_releasing x = false -> sessions s !! a = Some y ->
  s' = mk_tam (<[c := add_ctx_ref 1 x]> (ctxs s)) (<[a := set_ctx (Some c) y]> (sessions s)) (tee_ctxes s) (open_sessions s) (tee_ta_single_instance_thread s) (tee_ta_single_instance_count s) (sess_stack s) (cvq s) (raced s) ->
  inv s' (<[t := opening (Some c)]> G).
Proof.
  intros I Hfu Ht Hc Hin Hr Ha ->. destruct (opening_session _ _ _ I Ht) as (y' & Ha' & Hat). simplify_eq.
  eapply (inv_rectx s _ G t (opening None) (opening (Some c)) a None (Some c) I Ht); try done; [|apply wf_opening|..].
  - split; try done; [intros z Hz; by simplify_eq|]. by exists h, (locks o).
  - intros _ _. by eapply (attach_ctx s G t (opening None)).
  - apply (single_flags (ctxs s)); [apply (single_frame _ _ _ _ _ (opening None)); [apply I|done|done]|]. intros. apply (flag_upd _ _ _ x); [done|by left].
Qed.

(** The effect of [add_context]. *)
Lemma add_context_run s G u f b v : inv s G -> G !! t = Some (opening None) -> (b = true -> f = 0) ->
  exists c s', add_context a u f b v s = (Ret c, s') /\ inv s' (<[t := if b then loading_own c else opening (Some c)]> G).
Proof.
  intros I Ht Hf. destruct (opening_session _ _ _ I Ht) as (x & Ha & Hat). destruct (new_context_fresh s) as [Hc Ho]. unfold add_context. set (c := new_context s) in *. unfold bind, get. cbn [put_ctxs put_open_sessions modify]. rewrite (upd_session_run _ _ x) by done. cbn.
  exists c. eexists. split; [reflexivity|]. set (o' := if b then loading_own c else opening (Some c)).
  assert (wf o') as W' by (unfold o'; destruct b; [apply wf_loading|apply wf_opening]).
  match goal with |- inv ?z _ => assert (rectx s z t (opening None) o' a None (Some c)) as Rc end.
  { split; [intros y Hy; by simplify_eq|intros h0; by apply olist_new|by destruct b|]. exists h, (locks o). by destruct b. }
  eapply (inv_rectx s _ G t (opening None) o' a None (Some c) I Ht Rc W'); [done|done|by destruct b|..].
  - intros _ _. cbn. by eapply (ctx_add s G t (opening None)); try done; destruct b.
  - cbn. apply (single_flags (ctxs s)); [apply (single_frame _ _ _ _ _ (opening None)); [apply I|done|by destruct b]|]. intros t0 o0 d Ht0 Hd. unfold flag. rewrite lookup_insert_ne; [done|]. intros <-.
    destruct (lookup_upd _ _ _ _ _ _ Ht Ht0) as [[-> ->]|[_ Hg]]; [|by eapply id_ents; [eapply absent_ctx|]]. eapply (id_ents c (opening None)); [by eapply absent_ctx|]. by destruct b.
Qed.

(** What the thread owns after [find_context]. *)
Definition found (r : Z + addr) (o' : own) : Prop :=
  match r with
  | inl res => if decide (res = TEE_SUCCESS) then exists c, o' = opening (Some c) else o' = opening None
  | inr c => o' = loading_own c
  end.

(** A result without effect, or success with a context. *)
Definition attached_or_not (s s' : tam) (G : list own) (res : Z) : Prop :=
  res <> TEE_SUCCESS /\ s' = s \/ res = TEE_SUCCESS /\ exists c, inv s' (<[t := opening (Some c)]> G).

Lemma with_context_run s G u : inv s G -> full s = false -> G !! t = Some (opening None) ->
  exists r s', tee_ta_init_session_with_context a u s = (Ret r, s') /\ match r with inl res => attached_or_not s s' G res | inr _ => True end.
Proof.
  intros I Hfu Ht. destruct (opening_session _ _ _ I Ht) as (y & Ha & _). unfold tee_ta_init_session_with_context, tee_ta_context_find, bind at 1. unfold bind at 1, get.
  destruct (find_uuid_run s u (tee_ctxes s)) as (r & -> & Hr); [intros c Hc; apply (ci_listed _ _ _ _ (i_ctx _ _ I)) in Hc as (x & -> & _); eauto|].
  destruct r as [c|]; [|by eexists _, s; split; [done|left]]. apply (ci_listed _ _ _ _ (i_ctx _ _ I)) in Hr as (x & Hc & Hrel). rewrite (the_ctx_run _ _ x) by done. destruct (is_initializing x) eqn:Ei; [by eexists _, s|].
  destruct (negb (has (flags x) TA_FLAG_SINGLE_INSTANCE)); [by eexists _, s; split; [done|left]|]. destruct (negb (has (flags x) TA_FLAG_MULTI_SESSION) && negb (c_ref_count x =? 0)); [by eexists _, s; split; [done|left]|].
  unfold bind. rewrite (upd_ctx_run _ _ x) by done. cbn [put_ctxs modify]. rewrite (upd_session_run _ _ y) by done. cbn. eexists _, _. split; [reflexivity|]. right. split; [done|]. exists c. by eapply attach_inv.
Qed.

Lemma pseudo_run s G pt ld u : inv s G -> G !! t = Some (opening None) -> exists res s', tee_ta_init_pseudo_ta_session pt ld a u s = (Ret res, s') /\ attached_or_not s s' G res.
Proof.
  intros I Ht. unfold tee_ta_init_pseudo_ta_session. destruct (List.find _ pt) as [[v f]|]; [|by eexists _, s; split; [done|left]]. destruct (negb _); [by eexists _, s; split; [done|left]|].
  destruct (add_context_run s G u f false false I Ht) as (c & s' & Hc & I'); [done|]. unfold bind. rewrite Hc. eexists _, s'. split; [done|]. right. split; [done|]. by exists c.
Qed.

Lemma user_run s G ld u : inv s G -> G !! t = Some (opening None) ->
  exists r s', tee_ta_init_user_ta_session ld a u s = (Ret r, s') /\ match r with inl e => e <> TEE_SUCCESS /\ s' = s | inr c => inv s' (<[t := loading_own c]> G) end.
Proof.
  intros I Ht. unfold tee_ta_init_user_ta_session. destruct (setup ld =? TEE_SUCCESS) eqn:E; bool_hyps; cbn [negb]; [|by eexists _, s].
  destruct (add_context_run s G u 0 true true I Ht) as (c & s' & Hc & I'); [done|]. unfold bind. rewrite Hc. by eexists _, s'.
Qed.

Lemma found_of s s' G res : inv s G -> G !! t = Some (opening None) -> attached_or_not s s' G res -> exists o', inv s' (<[t := o']> G) /\ found (inl res) o'.
Proof.
  intros I Ht [[Hne ->]|[-> [c I']]]; cbn [found].
  - exists (opening None). split; [by rewrite list_insert_id|]. by rewrite decide_False.
  - exists (opening (Some c)). split; [done|]. by exists c.
Qed.

Lemma find_context_ok pt ld u : ok strict t (opening None) (waiting (find_context pt ld a u)) found.
Proof.
  apply ok_wait. intros s G I Ht Hfu. unfold find_context. destruct (with_context_run s G u I Hfu Ht) as (r & s1 & H1 & A1). unfold bind at 1. rewrite H1. destruct r as [res|cv]; [|done].
  destruct (res =? TEE_ERROR_ITEM_NOT_FOUND) eqn:E1; bool_hyps; cbn [negb]; [|right; by eapply found_of]. destruct A1 as [[_ ->]|[-> _]]; [|done].
  destruct (pseudo_run s G pt ld u I Ht) as (res2 & s2 & H2 & A2). unfold bind at 1. rewrite H2. destruct (res2 =? TEE_ERROR_ITEM_NOT_FOUND) eqn:E2; bool_hyps; cbn [negb]; [|right; by eapply found_of].
  destruct A2 as [[_ ->]|[-> _]]; [|done]. destruct (user_run s G ld u I Ht) as (r3 & s3 & H3 & A3). unfold bind. rewrite H3. cbn. right. destruct r3 as [e|c].
  - eapply found_of; [done|done|]. by left.
  - by exists (loading_own c).
Qed.

(** The context that the thread loads. *)
Lemma loading_ctx s G c : inv s G -> G !! t = Some (loading_own c) -> exists x, ctxs s !! c = Some x /\ is_initializing x = true /\ c_ref_count x = 1 /\ is_releasing x = false /\ att s !! a = Some (Some c) /\
  (forall t0 o0, G !! t0 = Some o0 -> c ∉ crefs o0 /\ c ∉ ents o0 /\ c ∉ cents o0 /\ c ∉ dtors o0) /\ natt c (<[a := None]> (att s)) = 0%nat /\ total (fun o => cnt c (inits o)) G = 1%nat.
Proof.
  intros I Ht. pose proof (i_ctx _ _ I) as C. destruct (lock_live _ _ _ _ I Ht (mk_lk a (Some c) h false) ltac:(by left)) as (y & Ha & _ & Hy & _). cbn [l_a l_ctx] in *.
  assert (att s !! a = Some (Some c)) as Hat by (rewrite (att_lookup _ _ _ Ha); by rewrite Hy). destruct (ci_att _ _ _ _ C _ _ Hat) as [x Hc].
  pose proof (total_le (fun o => cnt c (inits o)) G t _ Ht) as Hle. cbn [loading_own o_inits inits] in Hle. rewrite cnt_cons, decide_True in Hle by done. pose proof (ci_init _ _ _ _ C _ _ Hc) as Hin. destruct (is_initializing x) eqn:Ei; [|lia].
  destruct (ci_ready _ _ _ _ C _ _ Hc Ei) as (E1 & _ & E3 & _). pose proof (ci_count _ _ _ _ C _ _ Hc) as Hcnt. pose proof (natt_delete c _ _ _ Hat) as Hd. rewrite decide_True in Hd by done.
  exists x. split_and!; try done.
  - intros t0 o0 Ht0. destruct (init_not_entered _ _ _ _ _ _ _ _ C Ht0 Hc Ei). split_and!; try done.
    + apply cnt_zero. apply (total_zero (fun o => cnt c (crefs o)) G t0); [lia|done].
    + intros Hdt. destruct (ci_dtor _ _ _ _ C _ _ _ Ht0 Hdt) as (z & ? & ? & _). congruence.
  - pose proof (natt_update c _ _ _ None Hat) as Hu. rewrite decide_True, decide_False in Hu by done. lia.
Qed.

Lemma ctx_drop s G c : inv s G -> G !! t = Some (loading_own c) -> ctx_inv (delete c (ctxs s)) (without c (tee_ctxes s)) (<[a := None]> (att s)) (<[t := opening None]> G).
Proof.
  intros I Ht. destruct (loading_ctx s G c I Ht) as (x & Hc & Ei & E1 & E3 & Hat & Hno & Hz & Hone). pose proof (i_ctx _ _ I) as [H1 H2 H3 H4 H5 H6 H7 H8 H9 H10 H11 H12].
  assert (forall d, is_Some (ctxs s !! d) -> d <> c -> is_Some (delete c (ctxs s) !! d)) as Hl by (intros d Hd Hne; by rewrite lookup_delete_ne).
  assert (forall t0 o0, <[t := opening None]> G !! t0 = Some o0 -> exists o1, G !! t0 = Some o1 /\ crefs o0 = crefs o1 /\ ents o0 = ents o1 /\ cents o0 = cents o1 /\ dtors o0 = dtors o1) as Hg.
  { intros t0 o0 Ht0. destruct (lookup_upd _ _ _ _ _ _ Ht Ht0) as [[-> ->]|[_ ?]]; [by exists (loading_own c)|by exists o0]. }
  assert (forall f d, d <> c -> flag f (delete c (ctxs s)) d = flag f (ctxs s) d) as Hf by (intros f d Hd; unfold flag; by rewrite lookup_delete_ne).
  split.
  - intros d y [Hne Hd]%lookup_delete_Some. rewrite (total_same _ _ _ _ _ Ht) by done. pose proof (natt_update d _ _ _ None Hat) as Hu. rewrite !decide_False in Hu by congruence. rewrite (H1 _ _ Hd). lia.
  - intros a0 d Hd. apply Hl.
    + apply lookup_insert_Some in Hd as [[_ ?]|[_ Hd]]; [done|]. by eapply H2.
    + intros ->. pose proof (natt_delete c _ _ _ Hd) as Hn. rewrite decide_True in Hn by done. lia.
  - intros t0 o0 d Ht0 Hd. destruct (Hg _ _ Ht0) as (o1 & Ho1 & Ec & _). rewrite Ec in Hd. apply Hl; [by eapply H3|]. intros ->. by destruct (Hno _ _ Ho1) as (? & ? & ? & ?).
  - by apply NoDup_without.
  - intros d. rewrite elem_without, H5. split.
    + intros [(y & Hy & ?) Hne]. exists y. by rewrite lookup_delete_ne.
    + intros (y & [Hne Hy]%lookup_delete_Some & ?). split; [eauto|done].
  - intros d y [Hne Hd]%lookup_delete_Some. rewrite (total_same _ _ _ _ _ Ht) by done. by apply H6.
  - intros t0 o0 d Ht0 Hd. destruct (Hg _ _ Ht0) as (o1 & Ho1 & _ & Ee & _). rewrite Ee in Hd. rewrite Hf; [by eapply H7|]. intros ->. by destruct (Hno _ _ Ho1) as (? & ? & ? & ?).
  - intros d y [Hne Hd]%lookup_delete_Some. pose proof (total_insert (fun o => cnt d (inits o)) G t _ (opening None) Ht) as T. cbn [loading_own opening o_inits o_locks inits] in T. rewrite cnt_cons, decide_False in T by done. rewrite <- (H8 _ _ Hd). lia.
  - intros d y [Hne Hd]%lookup_delete_Some. by eapply H9.
  - intros t0 o0 d Ht0 Hd. destruct (Hg _ _ Ht0) as (o1 & Ho1 & _ & _ & _ & Ed). rewrite Ed in Hd. destruct (H10 _ _ _ Ho1 Hd) as (y & Hy & ?). exists y. rewrite lookup_delete_ne; [done|]. intros <-. by destruct (Hno _ _ Ho1) as (? & ? & ? & ?).
  - intros d. rewrite (total_same _ _ _ _ _ Ht) by done. apply H11.
  - intros t0 o0 d Ht0 Hd. destruct (Hg _ _ Ht0) as (o1 & Ho1 & _ & _ & Eq & _). rewrite Eq in Hd. rewrite Hf; [by eapply H12|]. intros ->. by destruct (Hno _ _ Ho1) as (? & ? & ? & ?).
Qed.

Lemma initialized_inv s s' G c x f : inv s G -> G !! t = Some (loading_own c) -> ctxs s !! c = Some x ->
  ctx_step s s' c (set_initialized f x) (tee_ctxes s) (tee_ta_single_instance_thread s) (tee_ta_single_instance_count s) -> inv s' (<[t := opening (Some c)]> G).
Proof.
  intros I Ht Hc St. destruct (loading_ctx s G c I Ht) as (x' & Hc' & Ei & E1 & E3 & Hat & Hno & _). simplify_eq. destruct (Hno _ _ Ht) as (N1 & N2 & N3 & N4). pose proof (i_ctx _ _ I) as C.
  apply (inv_ctx s s' G t (loading_own c) (opening (Some c)) c x _ _ _ _ I Ht Hc St (wf_opening _)); try done.
  - split; cbn [loading_own opening o_inits o_locks crefs ents cents inits dtors set_initialized c_ref_count busy is_initializing is_releasing flags]; try done; try congruence.
    + intros b Hne. by rewrite cnt_cons, decide_False.
    + intros b Hb. by left.
    + lia.
    + rewrite cnt_cons, decide_True by done. rewrite Ei. cbn. lia.
    + by left.
    + by right.
    + apply C.
    + intros b. rewrite (ci_listed _ _ _ _ C). split; [|intros [[_ ?]|[-> ?]]; [done|eauto]]. intros (y & Hy & Hr). destruct (decide (b = c)) as [->|]; [right; by simplify_eq|left; eauto].
  - apply (single_flags (ctxs s)); [apply (single_frame _ _ _ _ _ (loading_own c)); [apply I|done|done]|]. intros t0 o0 d Ht0 Hd. apply (flag_upd _ _ _ x); [done|]. right. intros ->.
    destruct (lookup_upd _ _ _ _ _ _ Ht Ht0) as [[-> ->]|[_ Ho]]; [done|]. by destruct (Hno _ _ Ho) as (? & ? & ? & ?).
Qed.

(** What the thread owns when the session has its context, or has none. *)
Definition opened (res : Z) (o' : own) : Prop := if decide (res = TEE_SUCCESS) then exists c, o' = opening (Some c) else o' = opening None.

Lemma complete_ok ld c : ok strict t (loading_own c) (tee_ta_complete_user_ta_session t ld a c) opened.
Proof.
  apply ok_bind. eapply ok_mono; [apply (inside_ok strict t _ (mk_lk a (Some c) h false) c (Done tt) (fun _ => True)); [apply wf_loading|by left|done|right; right; by left|by intros _]|].
  intros _ o' [_ ->]. apply ok_sec. intros s G I Ht Hfu. destruct (loading_ctx s G c I Ht) as (x & Hc & Ei & E1 & E3 & Hat & Hno & _). unfold opened. destruct (ldelf ld =? TEE_SUCCESS) eqn:E; bool_hyps.
  - unfold bind. rewrite (upd_ctx_run _ _ x) by done. cbn. right. exists (opening (Some c)). split; [|rewrite decide_True by done; eauto]. eapply (initialized_inv s _ G c x (ta_flags ld)); try done.
  - destruct (lock_live _ _ _ _ I Ht (mk_lk a (Some c) h false) ltac:(by left)) as (y & Ha & _). cbn [l_a] in Ha. unfold bind. rewrite (upd_session_run _ _ y) by done. cbn [put_sessions modify].
    rewrite unlist_run by (cbn [tee_ctxes]; by eapply listed_ctx). unfold the_ctx, bind, get. cbn [ctxs]. rewrite Hc. cbn. right. exists (opening None). rewrite decide_False by done. split; [|done].
    match goal with |- inv ?z _ => assert (rectx s z t (loading_own c) (opening None) a (Some c) None) as Rc end.
    { split; try done; [intros z Hz; by simplify_eq|]. by exists h, (locks o). }
    eapply (inv_rectx s _ G t _ _ a (Some c) None I Ht Rc (wf_opening _)); try done.
    + intros _ _. cbn. by apply ctx_drop.
    + cbn. apply (single_flags (ctxs s)); [apply (single_frame _ _ _ _ _ (loading_own c)); [apply I|done|done]|]. intros t0 o0 d Ht0 Hd. unfold flag. rewrite lookup_delete_ne; [done|]. intros <-.
      destruct (lookup_upd _ _ _ _ _ _ Ht Ht0) as [[-> ->]|[_ Ho]]; [by destruct (Hno _ _ Ht) as (? & ? & ? & ?)|by destruct (Hno _ _ Ho) as (? & ? & ? & ?)].
Qed.

(** The session is freed when the opening has failed. *)
Lemma failed_ok : head_ok o h -> ok strict t (opening None) (section (let! x := the_session a in do! remove_session a h in put_raced (negb (s_ref_count x =? 1)))) (fun _ o' => o' = o).
Proof.
  intros Hh. apply ok_sec. intros s G I Ht Hfu. destruct (lock_live _ _ _ _ I Ht (mk_lk a None h false) ltac:(by left)) as (x & Ha & _ & _ & _ & Hl). cbn [l_a l_head] in *. rewrite (session_run _ _ x) by done.
  destruct (remove_session_run s G t _ _ _ x I Ht (head_ok_lock _ _ _ Hh) Hl Ha) as (s' & Hr & Rm & Er). unfold bind. rewrite Hr. cbn. destruct (s_ref_count x =? 1) eqn:E; bool_hyps; cbn [negb].
  - right. exists o. split; [|done]. eapply (inv_remove s _ G t (opening None) o (mk_lk a None h false) I Ht); try done.
    + pose proof (si_count _ _ (i_sess _ _ I) _ _ Ha). cbn [l_a]. lia.
    + destruct Rm as [R1 R2 [F1 F2 F3 F4 F5 F6]]. split; [done|done|]. split; try done. cbn. by rewrite orb_false_r.
  - left. cbn. apply orb_true_r.
Qed.
End Find.

Lemma init_session_ok strict t o pt ld h u : wf o -> inits o = [] -> head_ok o h ->
  ok strict t o (tee_ta_init_session pt ld t h u) (fun r o' => match r with inl _ => o' = o | inr a => exists c, o' = o_locks (mk_lk a (Some c) h false :: locks o) o /\ wf o' end).
Proof.
  intros W Hi Hh. unfold tee_ta_init_session. destruct (negb (calloc_ok ld)); [done|]. apply ok_bind. eapply ok_mono; [by apply add_session_ok|]. intros [e|a] o'; [by intros ->|]. intros [-> W1].
  pose proof (lock_fresh _ _ W1 : a ∉ _) as Hfr. apply ok_bind. eapply ok_mono; [by apply find_context_ok|]. intros f o' Hf. apply ok_bind.
  apply (ok_mono _ _ _ (opened o a h)).
  - destruct f as [res|c]; [exact Hf|]. rewrite Hf. by apply complete_ok.
  - intros res o1. unfold opened. destruct (decide (res = TEE_SUCCESS)) as [->|Hne].
    + intros [c ->]. cbn. exists c. split; [done|]. by apply wf_opening.
    + intros ->. rewrite (proj2 (Z.eqb_neq _ _) Hne). apply ok_bind. eapply ok_mono; [by apply failed_ok|]. by intros _ ? ->.
Qed.
