(* ===== verification/TaManagerSafe.v ===== *)
(** * The TA manager: what holds of every interleaving

    The programs of the threads keep the invariant; from it, that no thread uses memory that has
    been freed, that no assertion fails when trusted applications make no calls, and that a trusted
    application is run by one thread at a time. *)
From stdpp Require Import gmap.
From S2P Require Import Prelude Threads TaManager TaManagerInv TaManagerSess TaManagerCtx TaManagerCalls TaManagerOpen.
Local Open Scope Z_scope.

(** ** Running a trusted application *)

Section Run.
Context (strict : bool) (t : tid) (ops : ts_ops) (Hops : ops_ok strict t ops).

Lemma clnt_ok o a clnt : holds o a -> ok strict t o (section (match clnt with Some i => upd_session a (set_clnt_id i) | None => ret tt end)) (fun _ o' => o' = o).
Proof. intros Hh. destruct clnt as [i|]; [by apply field_ok|]. apply ok_look. intros s G I Ht. by exists tt. Qed.

Lemma run_ta_ok o k c clnt now to : wf o -> inits o = [] -> k ∈ locks o -> l_ctx k = Some c -> c ∈ ents o \/ c ∈ cents o -> ok strict t o (run_ta ops t (l_a k) c clnt now to) (fun _ o' => o' = o).
Proof.
  intros W Hi Hk Ec Hin. assert (attached o c) as Hat by (by exists k). assert (holds o (l_a k)) as Hh by (left; by apply list_elem_of_fmap_2).
  apply ok_bind, read_ctx_ok; [by left|]. intros y. apply ok_bind. apply (ok_mono _ _ _ (fun _ o' => o' = o)).
  - destruct (panicked y); [done|]. apply ok_bind. eapply ok_mono; [by apply clnt_ok|]. intros _ ? ->. apply ok_bind. eapply ok_mono; [by apply field_ok|]. intros _ ? ->.
    apply ok_bind. eapply ok_mono; [by apply timeout_ok|]. intros _ ? ->. apply ok_bind.
    eapply ok_mono; [apply (enter_ta_ok strict t o k c _ (fun _ => True)); try done; [destruct Hin as [?|?]; [by left|by right; left]|]|].
    + intros Wi. eapply ok_mono; [apply (oo_enter _ _ _ Hops); [done|done|by left]|]. by intros ? ? ->.
    + intros r ? [_ ->]. apply ok_bind. eapply ok_mono; [by apply field_ok|]. by intros _ ? ->.
  - intros res ? ->. apply ok_bind, read_ctx_ok; [by left|]. intros y'. destruct (panicked y'); [|done]. apply ok_bind.
    apply (ok_mono _ _ _ (fun _ o' => o' = o)); [|by intros _ ? ->]. apply maybe_release_ok; try done; [rewrite Hi; apply not_elem_of_nil|]. apply (oo_release _ _ _ Hops); [done|done|by left].
Qed.

(** A context is entered with the locked session [k], run and left. *)
Lemma entered_run_ok {A} o k c o2 clnt now to (r : option Z -> A) : wf (o_locks (k :: locks o) o) -> inits o = [] -> l_ctx k = Some c -> entered c (o_locks (k :: locks o) o) o2 -> wf o2 ->
  ok strict t o2 (let* x := run_ta ops t (l_a k) c clnt now to in do* tee_ta_clear_busy t c in Done (r x)) (fun _ o' => o' = o_locks (k :: locks o) o).
Proof.
  intros W Hi Ec He W2. apply ok_bind. eapply ok_mono; [apply run_ta_ok; try done|].
  - by destruct He as [-> | ->].
  - destruct He as [-> | ->]; by left.
  - by eapply entered_in.
  - intros x ? ->. apply ok_bind. eapply ok_mono; [by apply (clear_busy_ok _ _ (o_locks (k :: locks o) o))|]. by intros _ ? ->.
Qed.

Context (o : own) (R : ready strict o).

Lemma not_loading (c : addr) : c ∉ inits o.
Proof. rewrite (r_inits _ _ R). apply not_elem_of_nil. Qed.

Lemma open_session_ok pt ld h u clnt now to : head_ok o h -> ok strict t o (tee_ta_open_session pt ld ops t h u clnt now to) (fun _ o' => o' = o).
Proof.
  intros Hh. apply ok_bind. eapply ok_mono; [apply init_session_ok; [apply R|apply R|done]|]. intros [e|a] o'; [by intros ->|]. intros (c & -> & W). cbn [check_params negb].
  set (k := mk_lk a (Some c) h false) in *. assert (attached (o_locks (k :: locks o) o) c) as Hat by (exists k; split; [by left|done]).
  apply ok_bind. eapply ok_mono; [apply (ctx_of_ok _ _ _ k c); [by left|done]|]. intros ? ? [-> ->]. apply ok_bind.
  eapply ok_mono; [apply try_set_busy_ok; try done; [apply not_loading|intros E; by apply (r_strict _ _ R)]|]. intros b o2 Hb. apply ok_bind. apply (ok_mono _ _ _ (fun _ o' => o' = o_locks (k :: locks o) o)).
  - destruct b; [|by destruct Hb as [-> _]]. destruct Hb as [He W2]. apply (entered_run_ok o k c); try done. apply R.
  - intros res ? ->. destruct (negb (res =? TEE_SUCCESS)).
    + apply ok_bind. eapply ok_mono; [by apply (close_session_ok strict t ops Hops o R k)|]. by intros _ ? ->.
    + apply ok_bind. apply (read_session_ok _ _ _ k); [by left|]. intros x _. apply ok_bind. eapply ok_mono; [apply (put_lock_ok _ _ _ k); [apply R|done]|]. by intros _ ? ->.
Qed.

Lemma invoke_command_ok i h who now to : head_ok o h -> ok strict t o (invoke_command ops t i h who now to) (fun _ o' => o' = o).
Proof.
  intros Hh. apply ok_bind. eapply ok_mono; [apply get_session_ok; [apply R|done|intros E; by apply (r_strict _ _ R)]|]. intros [a|] o'; cbn [got]; [|by intros ->]. intros (c & -> & W).
  set (k := mk_lk a (Some c) h false) in *. assert (attached (o_locks (k :: locks o) o) c) as Hat by (exists k; split; [by left|done]). apply ok_bind.
  apply (ok_mono _ _ _ (fun _ o' => o' = o_locks (k :: locks o) o)).
  - apply ok_bind. apply (read_session_ok _ _ _ k); [by left|]. intros x _. destruct (negb _); [done|]. cbn [check_params negb]. apply ok_bind.
    eapply ok_mono; [apply (ctx_of_ok _ _ _ k c); [by left|done]|]. intros ? ? [-> ->]. apply ok_bind.
    eapply ok_mono; [apply set_busy_ok; try done; [apply not_loading|intros E; by apply (r_strict _ _ R)]|]. intros _ o2 [He W2]. apply (entered_run_ok o k c); try done. apply R.
  - intros res ? ->. apply ok_bind. eapply ok_mono; [apply (put_lock_ok _ _ _ k); [apply R|done]|]. by intros _ ? ->.
Qed.
End Run.

Lemma entry_cancel_ok strict t o i : wf o -> locks o = [] -> ok strict t o (entry_cancel t i) (fun _ o' => o' = o).
Proof.
  intros W Hs. apply ok_bind. eapply ok_mono; [by apply get_session_ok|]. intros [a|] o'; cbn [got]; [|by intros ->]. intros ->. apply ok_bind.
  eapply ok_mono; [apply cancel_ok; right; by left|]. intros res ? ->. apply ok_bind. eapply ok_mono; [apply put_ref_ok; rewrite Hs; apply not_elem_of_nil|by intros _ ? ->].
Qed.

(** ** The current session *)

Lemma current_ok {A} strict t o (f : tee_ta_session -> tee_ta_session) (g : tee_ta_session -> A) : plain f -> strict <> true ->
  ok strict t o (section (let! a := ts_get_current_session t in let! x := the_session a in do! upd_session a f in ret (g x))) (fun _ o' => o' = o).
Proof.
  intros Hp Hs. apply ok_sec. intros s G I Ht Hfu. unfold ts_get_current_session, bind at 1, get. unfold bind at 1. rewrite (i_stack _ _ I _ _ Ht). destruct (stk o) as [|[a c] l] eqn:El; cbn [fmap list_fmap fst].
  - cbn. by apply not_true_is_false.
  - destruct (w_stk _ (i_wf _ _ I _ _ Ht) a c) as ((k & Hk & E & _) & _); [rewrite El; by left|]. destruct (lock_live _ _ _ _ I Ht k Hk) as (x & Ha & _). rewrite E in Ha. cbn [ret]. rewrite (session_run _ _ x) by done.
    unfold bind. rewrite (upd_session_run _ _ x) by done. cbn. right. exists o. split; [|done]. by eapply (plain_inv s _ G t o a x f).
Qed.

Lemma mask_ok strict t o b : strict <> true -> ok strict t o (syscall_set_cancel_mask t b) (fun _ o' => o' = o).
Proof. intros Hs. by apply (current_ok strict t o (set_cancel_mask b) cancel_mask). Qed.

Lemma flag_ok strict t o now : strict <> true -> ok strict t o (syscall_get_cancellation_flag t now) (fun _ o' => o' = o).
Proof.
  intros Hs. apply not_true_is_false in Hs. apply ok_sec. intros s G I Ht Hfu. unfold ts_get_current_session, bind at 1, get. unfold bind at 1. rewrite (i_stack _ _ I _ _ Ht). destruct (stk o) as [|[a c] l] eqn:El; cbn [fmap list_fmap fst]; [done|].
  destruct (w_stk _ (i_wf _ _ I _ _ Ht) a c) as ((k & Hk & E & _) & _); [rewrite El; by left|]. destruct (lock_live _ _ _ _ I Ht k Hk) as (x & Ha & _). rewrite E in Ha. cbn [ret]. rewrite (session_run _ _ x) by done.
  right. exists o. by rewrite list_insert_id.
Qed.

(** ** Statistics *)

Lemma user_ctxs_run s l : (forall c, c ∈ l -> is_Some (ctxs s !! c)) -> exists us, user_ctxs l s = (Ret us, s) /\ forall c, c ∈ us -> c ∈ l.
Proof.
  induction l as [|c l IH]; intros Hl; cbn [user_ctxs]; [by exists []|]. destruct (Hl c ltac:(by left)) as [x Hx]. rewrite (the_ctx_run _ _ x) by done.
  destruct IH as (us & Hus & Hin); [intros d Hd; apply Hl; by right|]. unfold bind. rewrite Hus. eexists. split; [reflexivity|]. intros d Hd. destruct (is_user x); [apply elem_of_cons in Hd as [->|Hd]; [by left|]|]; right; by apply Hin.
Qed.

Lemma dump_sessions_run s c l : (forall a, a ∈ l -> is_Some (sessions s !! a)) -> forall n, exists k, dump_sessions n c l s = (Ret k, s).
Proof.
  induction l as [|a l IH]; intros Hl n; cbn [dump_sessions]; [by eexists|]. destruct (Hl a ltac:(by left)) as [x Hx]. rewrite (session_run _ _ x) by done.
  assert (forall n, exists k, dump_sessions n c l s = (Ret k, s)) as Hk by (apply IH; intros b Hb; apply Hl; by right). destruct (bool_decide _); [|apply Hk]. destruct n as [|n]; [by eexists|].
  destruct (Hk n) as (k & E). unfold bind. rewrite E. by eexists.
Qed.

Lemma init_dump_run s l : (forall c, c ∈ l -> is_Some (ctxs s !! c)) -> (forall a, a ∈ olist Nsec s -> is_Some (sessions s !! a)) -> exists ds, init_dump_ctx l s = (Ret ds, s).
Proof.
  intros Hl Ha. induction l as [|c l IH]; cbn [init_dump_ctx]; [by eexists|]. destruct (Hl c ltac:(by left)) as [x Hx]. rewrite (the_ctx_run _ _ x) by done.
  destruct (dump_sessions_run s c (olist Nsec s) Ha MAX_DUMP_SESS_NUM) as (k & Hk). destruct IH as (ds & Hds); [intros d Hd; apply Hl; by right|].
  rewrite (live_list_run Nsec s Ha Logic.I). unfold bind. rewrite Hk, Hds. by eexists.
Qed.

Section Stats.
Context (strict : bool) (t : tid) (ops : ts_ops) (Hops : ops_ok strict t ops) (o : own) (R : ready strict o).

Lemma first_session_ok ids : ok strict t o (first_session t ids) (got o true Nsec).
Proof.
  induction ids as [|i r IH]; cbn [first_session]; [done|]. apply ok_bind. eapply ok_mono; [apply get_session_ok; [apply R|done|intros E; by apply (r_strict _ _ R)]|]. intros [a|] o' Ho'; [exact Ho'|]. cbn [got] in Ho'. by subst o'.
Qed.

Lemma memstats_ok k c : wf (o_locks (k :: locks o) o) -> l_ctx k = Some c -> ok strict t (o_locks (k :: locks o) o) (dump_ta_memstats ops t (l_a k)) (fun _ o' => o' = o_locks (k :: locks o) o).
Proof.
  intros W Ec. assert (attached (o_locks (k :: locks o) o) c) as Hat by (exists k; split; [by left|done]). apply ok_bind, read_session_ok; [by left|]. intros x Hx. rewrite Hx, Ec. apply ok_bind, read_ctx_ok; [by left|].
  intros y. destruct (is_initializing y); [done|]. apply ok_bind. eapply ok_mono; [apply try_set_busy_ok; try done; [apply (not_loading strict o R)|intros E; by apply (r_strict _ _ R)]|]. intros [] o2 Hb; [|by destruct Hb as [-> _]].
  destruct Hb as [He W2]. apply (entered_run_ok strict t ops Hops o k c); try done. apply R.
Qed.

Lemma dump_ta_stats_ok l : ok strict t o (dump_ta_stats ops t l) (fun _ o' => o' = o).
Proof.
  induction l as [|d r IH]; cbn [dump_ta_stats]; [done|]. apply ok_bind. eapply ok_mono; [apply first_session_ok|]. intros sess o' Ho'. apply ok_bind. apply (ok_mono _ _ _ (fun _ o' => o' = o)).
  - destruct sess as [a|]; cbn [got] in Ho'; [|by subst o']. destruct Ho' as (c & -> & W). set (k := mk_lk a (Some c) Nsec false) in *. apply ok_bind. eapply ok_mono; [by apply (memstats_ok k c)|]. intros res ? ->.
    apply ok_bind. eapply ok_mono; [apply (put_lock_ok _ _ _ k); [apply R|done]|]. by intros _ ? ->.
  - intros res ? ->. apply ok_bind. eapply ok_mono; [exact IH|]. by intros k ? ->.
Qed.

Lemma instance_stats_ok b : ok strict t o (tee_ta_instance_stats ops t b) (fun _ o' => o' = o).
Proof.
  apply ok_bind. apply (ok_mono _ _ _ (fun _ o' => o' = o)).
  - apply ok_look. intros s G I Ht. assert (forall c, c ∈ tee_ctxes s -> is_Some (ctxs s !! c)) as Hl by (intros c Hc; apply (ci_listed _ _ _ _ (i_ctx _ _ I)) in Hc as (x & -> & _); eauto).
    destruct (user_ctxs_run s (tee_ctxes s) Hl) as (us & Hus & Hin). destruct (init_dump_run s us) as (ds & Hds); [intros c Hc; by apply Hl, Hin|apply (si_live _ _ (i_sess _ _ I))|].
    unfold bind at 1, get. unfold bind at 1. rewrite Hus. cbv zeta. destruct (_ =? 0); [by eexists|]. destruct (match buf_size b with None => _ | _ => _ end); [by eexists|]. destruct (negb (buf_aligned b)); [by eexists|].
    destruct (negb (malloc_ok b)); [by eexists|]. unfold bind. rewrite Hds. by eexists.
  - intros [[e n]|[sz ds]] ? ->; [done|]. apply ok_bind. eapply ok_mono; [apply dump_ta_stats_ok|]. by intros l ? ->.
Qed.
End Stats.

(** ** Programs *)

(** Trusted applications that make no calls. *)
Definition flat (k : call) : bool :=
  match k with
  | OpenSession _ _ _ _ _ cs _ _ cl _ rel => bool_decide (length cs = 0%nat) && bool_decide (length cl = 0%nat) && bool_decide (length rel = 0%nat)
  | InvokeCommand _ _ _ _ cs _ _ rel => bool_decide (length cs = 0%nat) && bool_decide (length rel = 0%nat)
  | CloseSession _ _ cl _ rel => bool_decide (length cl = 0%nat) && bool_decide (length rel = 0%nat)
  | InstanceStats _ cs _ _ rel => bool_decide (length cs = 0%nat) && bool_decide (length rel = 0%nat)
  | CancelCommand _ | GetCancellationFlag _ | SetCancelMask _ => true
  end.

(** Induction on calls and the calls inside them. *)
Lemma call_nested_ind (P : call -> Prop) :
  (forall u clnt now to ld cs p r cl pc rel, Forall P cs -> Forall P cl -> Forall P rel -> P (OpenSession u clnt now to ld cs p r cl pc rel)) ->
  (forall i who now to cs p r rel, Forall P cs -> Forall P rel -> P (InvokeCommand i who now to cs p r rel)) ->
  (forall i who cl pc rel, Forall P cl -> Forall P rel -> P (CloseSession i who cl pc rel)) ->
  (forall i, P (CancelCommand i)) -> (forall now, P (GetCancellationFlag now)) -> (forall b, P (SetCancelMask b)) ->
  (forall b cs p r rel, Forall P cs -> Forall P rel -> P (InstanceStats b cs p r rel)) -> forall k, P k.
Proof.
  intros H1 H2 H3 H4 H5 H6 H7. fix IH 1.
  intros [u clnt now to ld cs p r cl pc rel|i who now to cs p r rel|i who cl pc rel|i|now|b|b cs p r rel].
  - apply H1; [induction cs|induction cl|induction rel]; constructor; (apply IH || done).
  - apply H2; [induction cs|induction rel]; constructor; (apply IH || done).
  - apply H3; [induction cl|induction rel]; constructor; (apply IH || done).
  - apply H4.
  - apply H5.
  - apply H6.
  - apply H7; [induction cs|induction rel]; constructor; (apply IH || done).
Qed.

Section Exec.
Context (pt : list (Z * Z)) (strict : bool) (t : tid).

(** A call keeps what the thread owns. *)
Definition call_ok (k : call) : Prop := forall o h, ready strict o -> head_ok o h -> (h = Nsec -> locks o = []) -> (strict = true -> h = Nsec /\ flat k = true) -> ok strict t o (exec pt t h k) (fun _ o' => o' = o).

(** In a [strict] program the lists of calls are empty. *)
Definition calls_ok (l : list call) : Prop := forall o c, wf o -> inits o = [] -> pins o c -> ok strict t o (run_list (exec pt t (Utc c)) l) (fun _ o' => o' = o).

Lemma calls_ok_of l : Forall call_ok l -> (strict = true -> bool_decide (length l = 0%nat) = true) -> calls_ok l.
Proof.
  intros Hl Hs o c W Hi Hp. destruct (decide (strict = true)) as [E|E]; [specialize (Hs E); apply bool_decide_eq_true in Hs; by destruct l|]. apply ok_run_list. intros k Hk.
  rewrite Forall_forall in Hl. apply Hl; try done; by split.
Qed.

Lemma ops_of cs p r cl pc rel : calls_ok cs -> calls_ok cl -> calls_ok rel ->
  ops_ok strict t (mk_ops (fun _ c => do* run_list (exec pt t (Utc c)) cs in do* may_panic p c in Done r) (fun _ c => do* run_list (exec pt t (Utc c)) cl in may_panic pc c) (fun c => run_list (exec pt t (Utc c)) rel)).
Proof.
  intros H1 H2 H3. split; cbn [enter enter_close release].
  - intros o _ c W Hi Hp. apply ok_bind. eapply ok_mono; [by apply H1|]. intros _ ? ->. apply ok_bind. eapply ok_mono; [by apply may_panic_ok|]. by intros _ ? ->.
  - intros o _ c W Hi Hp. apply ok_bind. eapply ok_mono; [by apply H2|]. intros _ ? ->. by apply may_panic_ok.
  - intros o c W Hi Hp. by apply H3.
Qed.

Lemma calls_nil : calls_ok [].
Proof. by intros o c. Qed.

Lemma exec_ok k : call_ok k.
Proof.
  induction k as [u clnt now to ld cs p r cl pc rel H1 H2 H3|i who now to cs p r rel H1 H2|i who cl pc rel H1 H2|i|now|b|b cs p r rel H1 H2] using call_nested_ind; intros o h R Hh Hn Hf'; assert (Hf := fun E => proj2 (Hf' E)); cbn [exec flat] in *.
  - apply ok_bind. eapply ok_mono; [apply open_session_ok; [|done|done]|by intros ? ? ->]. apply ops_of; apply calls_ok_of; try done; intros E; specialize (Hf E); by bool_hyps.
  - apply ok_bind. eapply ok_mono; [apply invoke_command_ok; [|done|done]|by intros ? ? ->]. apply (ops_of cs p r [] false rel); [..|apply calls_ok_of]; try apply calls_nil; try apply calls_ok_of; try done; intros E; specialize (Hf E); by bool_hyps.
  - apply ok_bind. eapply ok_mono; [apply tee_ta_close_session_ok; [|done|done]|by intros ? ? ->]. apply (ops_of [] false TEE_SUCCESS cl pc rel); [apply calls_nil|..]; apply calls_ok_of; try done; intros E; specialize (Hf E); by bool_hyps.
  - destruct h; [|done]. apply ok_bind. eapply ok_mono; [apply entry_cancel_ok; [apply R|by apply Hn]|]. by intros ? ? ->.
  - destruct h as [|c]; [done|]. apply ok_bind. eapply ok_mono; [apply flag_ok; intros E; by destruct (Hf' E)|]. by intros ? ? ->.
  - destruct h as [|c]; [done|]. apply ok_bind. eapply ok_mono; [apply mask_ok; intros E; by destruct (Hf' E)|]. by intros ? ? ->.
  - apply ok_bind. eapply ok_mono; [apply instance_stats_ok; [|done]|by intros ? ? ->]. apply (ops_of cs p r [] false rel); [..|apply calls_ok_of]; try apply calls_nil; try apply calls_ok_of; try done; intros E; specialize (Hf E); by bool_hyps.
Qed.
End Exec.

(** ** Reachable states *)

Abbreviation good := (Threads.good counted stopped (fun _ _ => False) own0).

Lemma total_replicate (f : own -> nat) n : f own0 = 0%nat -> total f (replicate n own0) = 0%nat.
Proof. intros E. unfold total. induction n as [|n IH]; [done|]. cbn. lia. Qed.

Lemma wf_own0 : wf own0.
Proof. split; try done; [constructor|by intros c ?%elem_of_nil|by intros c ?%elem_of_nil|by intros c ?%elem_of_nil|by intros a c ?%elem_of_nil]. Qed.

Lemma inv_initial n : inv tam_init (replicate n own0).
Proof.
  assert (forall t o, replicate n own0 !! t = Some o -> o = own0) as H by (intros t o [? _]%lookup_replicate; done).
  split; [done|intros t o ->%H; apply wf_own0|..].
  - split; cbn; try done.
    + intros t o a h ->%H ?%elem_of_nil. done.
    + intros t o k ->%H ?%elem_of_nil. done.
    + intros h. unfold olist. cbn. rewrite lookup_empty. constructor.
    + intros h a. unfold olist. cbn. rewrite lookup_empty. by intros ?%elem_of_nil.
    + intros h h' a. unfold olist. cbn. rewrite lookup_empty. by intros ?%elem_of_nil.
  - split; cbn; try done; try (by intros t o c ->%H ?%elem_of_nil).
    + constructor.
    + intros c. split; [by intros ?%elem_of_nil|]. by intros (x & ? & _).
    + intros c. rewrite total_replicate; [lia|done].
  - split; cbn; try done. intros t o ->%H. done.
  - intros t o ->%H. done.
Qed.

Lemma exec_list_ok pt strict t l : (strict = true -> Forall (fun k => flat k = true) l) -> ok strict t own0 (run_list (exec pt t Nsec) l) (fun _ o' => o' = own0).
Proof.
  intros Hf. apply ok_run_list. intros k Hk. apply (exec_ok pt strict t k); try done; [split; [apply wf_own0|done|done]|]. intros E. specialize (Hf E). split; [done|]. rewrite Forall_forall in Hf. by apply Hf.
Qed.

Lemma good_start pt strict progs : (strict = true -> Forall (Forall (fun k => flat k = true)) progs) -> good strict (start pt progs) (replicate (length progs) own0).
Proof.
  intros Hf. split; [split; [apply inv_initial|done]|cbn; by rewrite length_replicate, length_imap|]. cbn [start thr]. intros t p o Hp [-> _]%lookup_replicate. apply list_lookup_imap_Some in Hp as (l & Hl & ->).
  apply exec_list_ok. intros E. specialize (Hf E). rewrite Forall_lookup in Hf. by eapply Hf.
Qed.

Lemma reachable_good strict pt progs x : (strict = true -> Forall (Forall (fun k => flat k = true)) progs) -> reachable pt progs x -> exists G, good strict x G.
Proof. intros Hf. by eapply reaches_good, good_start. Qed.

(** Thread [t] runs the trusted application of context [c], or loads it: a session of [c] is on its stack. *)
Definition runs_in (x : sys tam cvar) (t : tid) (c : addr) : Prop :=
  is_Some (thr x !! t) /\ exists a y, a ∈ default [] (sess_stack (st x) !! t) /\ sessions (st x) !! a = Some y /\ s_ctx y = Some c.

Definition runs_in_dec (x : sys tam cvar) (t : tid) (c : addr) : bool :=
  bool_decide (is_Some (thr x !! t)) && existsb (fun a => match sessions (st x) !! a with Some y => bool_decide (s_ctx y = Some c) | None => false end) (default [] (sess_stack (st x) !! t)).

Lemma runs_in_dec_true x t c : runs_in_dec x t c = true -> runs_in x t c.
Proof.
  unfold runs_in_dec. rewrite andb_true_iff, bool_decide_eq_true, existsb_exists. intros (Ht & a & Ha & Hc). split; [done|]. exists a. destruct (sessions (st x) !! a) as [y|]; [|done]. exists y.
  apply bool_decide_eq_true in Hc. by rewrite list_elem_of_In.
Qed.

Lemma runs_entered s G t o a y c : inv s G -> G !! t = Some o -> a ∈ default [] (sess_stack s !! t) -> sessions s !! a = Some y -> s_ctx y = Some c -> c ∈ ents o \/ c ∈ cents o \/ c ∈ inits o.
Proof.
  intros I Ht Ha Hy Hc. rewrite (i_stack _ _ I _ _ Ht) in Ha. apply list_elem_of_fmap in Ha as ([a' c'] & -> & Hin). cbn [fst] in *. destruct (w_stk _ (i_wf _ _ I _ _ Ht) _ _ Hin) as ((k & Hk & E1 & E2) & H).
  destruct (lock_live _ _ _ _ I Ht k Hk) as (z & Hz & _ & Ez & _). rewrite E1 in Hz. simplify_eq. congruence.
Qed.

Lemma ents_single s G t o c : inv s G -> G !! t = Some o -> c ∈ ents o -> flag TA_FLAG_SINGLE_INSTANCE (ctxs s) c = true -> tee_ta_single_instance_thread s = Some t.
Proof.
  intros I Ht Hin Hf. pose proof (li_thread _ _ _ _ (i_single _ _ I) _ _ Ht) as H. assert (0 < nsing (ctxs s) (ents o))%nat as Hn.
  { clear H. induction (ents o) as [|b l IH]; [by apply elem_of_nil in Hin|]. rewrite nsing_cons. apply elem_of_cons in Hin as [<-|Hin]; [rewrite Hf; cbn; lia|specialize (IH Hin); lia]. }
  destruct (decide (tee_ta_single_instance_thread s = Some t)); [done|]. rewrite bool_decide_false in H by done. lia.
Qed.

(** What a thread that runs a context that is not concurrent has: it has entered it, or loads it. *)
Lemma runs_not_concurrent x G t c strict : good strict x G -> runs_in x t c -> flag TA_FLAG_CONCURRENT (ctxs (st x)) c = false -> exists o y, G !! t = Some o /\ ctxs (st x) !! c = Some y /\
  (c ∈ ents o /\ busy y = true \/ c ∈ inits o /\ is_initializing y = true /\ flags y = 0).
Proof.
  intros [[I _] Hl _] (Ht & a & z & Ha & Hz & Hc) Hf. apply lookup_lt_is_Some in Ht. rewrite <- Hl in Ht. apply lookup_lt_is_Some in Ht as [o Ho]. pose proof (i_ctx _ _ I) as C.
  destruct (ci_att _ _ _ _ C a c) as [y Hy]; [rewrite (att_lookup _ _ _ Hz); by rewrite Hc|]. exists o, y. split; [done|]. split; [done|].
  destruct (runs_entered _ _ _ _ _ _ _ I Ho Ha Hz Hc) as [Hin|[Hin|Hin]].
  - left. split; [done|]. pose proof (ci_busy _ _ _ _ C _ _ Hy) as Hb. pose proof (total_le (fun o => cnt c (ents o)) G t o Ho). apply cnt_elem in Hin. destruct (busy y); [done|lia].
  - pose proof (ci_conc _ _ _ _ C _ _ _ Ho Hin). congruence.
  - right. split; [done|]. pose proof (ci_init _ _ _ _ C _ _ Hy) as Hb. pose proof (total_le (fun o => cnt c (inits o)) G t o Ho). apply cnt_elem in Hin. destruct (is_initializing y) eqn:Ei; [|lia].
    split; [done|]. by apply (ci_ready _ _ _ _ C _ _ Hy Ei).
Qed.

(** C7. Whatever the normal world asks for from however many threads, whatever trusted applications
    do in turn (calls of the TA manager from inside, panics, any result) and in whatever order the
    threads run, no section uses a session or a context that has been freed or removes from a list
    what is not in it, until an opening that fails frees a session another thread refers to or a
    reference count, 32 bits wide, is at its largest value. If trusted applications make no calls, no
    assertion fails and the core does not panic. *)
Theorem ta_manager_safe pt progs x t : reachable pt progs x ->
  match sys_step t x with Some (Undef _) => False | _ => True end /\ (Forall (Forall (fun k => flat k = true)) progs -> sys_step t x <> Some Panic).
Proof.
  intros Hr. split.
  - destruct (reachable_good false pt progs x ltac:(done) Hr) as [G Hg]. pose proof (good_step own0 false x G t Hg). by destruct (sys_step t x) as [[]|].
  - intros Hf E. destruct (reachable_good true pt progs x ltac:(done) Hr) as [G Hg]. pose proof (good_step own0 true x G t Hg) as H. rewrite E in H. by destruct H as [|(? & ? & _ & _ & [])].
Qed.

(** C8. Two threads never run, or load, the same trusted application at the same time, and never two
    single-instance ones, provided that neither of the two applications has TA_FLAG_CONCURRENT: a
    concurrent one, single-instance or not, takes no lock. As for the safety of the sessions, this is
    shown of the states that are reached before an opening that fails frees a session another thread
    refers to and before a reference count is at its largest value. *)
Theorem ta_manager_exclusive pt progs x t t' c c' : reachable pt progs x -> t <> t' -> runs_in x t c -> runs_in x t' c' ->
  flag TA_FLAG_CONCURRENT (ctxs (st x)) c = false -> flag TA_FLAG_CONCURRENT (ctxs (st x)) c' = false ->
  c <> c' /\ ~ (flag TA_FLAG_SINGLE_INSTANCE (ctxs (st x)) c = true /\ flag TA_FLAG_SINGLE_INSTANCE (ctxs (st x)) c' = true).
Proof.
  intros Hr Hne R R' Hc Hc'. destruct (reachable_good false pt progs x ltac:(done) Hr) as [G Hg]. destruct (runs_not_concurrent _ _ _ _ _ Hg R Hc) as (o & y & Ho & Hy & H). destruct (runs_not_concurrent _ _ _ _ _ Hg R' Hc') as (o' & y' & Ho' & Hy' & H').
  pose proof (gd_inv _ _ _ _ _ _ _ Hg) as [I _]. pose proof (i_ctx _ _ I) as C. split.
  - intros <-. simplify_eq. pose proof (ci_busy _ _ _ _ C _ _ Hy) as B. pose proof (ci_init _ _ _ _ C _ _ Hy) as N.
    destruct H as [[Hin Eb]|(Hin & Ei & _)], H' as [[Hin' _]|(Hin' & Ei' & _)]; apply cnt_elem in Hin, Hin'.
    + pose proof (total_two (fun o => cnt c (ents o)) G t t' o o' Hne Ho Ho'). rewrite Eb in B. lia.
    + destruct (ci_ready _ _ _ _ C _ _ Hy Ei') as (_ & ? & _). congruence.
    + destruct (ci_ready _ _ _ _ C _ _ Hy Ei) as (_ & E & _). rewrite E in B. pose proof (total_le (fun o => cnt c (ents o)) G t' o' Ho'). lia.
    + pose proof (total_two (fun o => cnt c (inits o)) G t t' o o' Hne Ho Ho'). rewrite Ei in N. lia.
  - intros [Hs Hs']. assert (forall o y c, ctxs (st x) !! c = Some y -> flag TA_FLAG_SINGLE_INSTANCE (ctxs (st x)) c = true -> c ∈ ents o /\ busy y = true \/ c ∈ inits o /\ is_initializing y = true /\ flags y = 0 -> c ∈ ents o) as He.
    { intros o0 y0 c0 Hy0 Hf [[? _]|(_ & _ & E)]; [done|]. unfold flag in Hf. rewrite Hy0, E in Hf. done. }
    pose proof (ents_single _ _ _ _ _ I Ho (He _ _ _ Hy Hs H) Hs). pose proof (ents_single _ _ _ _ _ I Ho' (He _ _ _ Hy' Hs' H') Hs'). congruence.
Qed.

(** C19. Of the states that are reached before an opening that fails frees a session another thread
    refers to and before a reference count is at its largest value: when all threads are done
    no lock, no reference and no mark is left behind. Sessions are unlocked and have a live context, a context is counted once for each of its sessions and is
    neither busy nor being loaded, the single-instance lock is free and the stacks are empty. *)
Theorem ta_manager_quiescent pt progs x : reachable pt progs x -> (forall t p, thr x !! t = Some p -> p = Done tt) ->
  (forall a y, sessions (st x) !! a = Some y -> s_ref_count y = 0 /\ lock_thread y = None /\ exists c, s_ctx y = Some c /\ is_Some (ctxs (st x) !! c)) /\
  (forall c y, ctxs (st x) !! c = Some y -> c_ref_count y = Z.of_nat (natt c (att (st x))) /\ busy y = false /\ is_initializing y = false) /\
  tee_ta_single_instance_thread (st x) = None /\ (forall t, is_Some (thr x !! t) -> default [] (sess_stack (st x) !! t) = []).
Proof.
  intros Hr Hd. destruct (reachable_good false pt progs x ltac:(done) Hr) as [G [[I _] Hl Hp]].
  assert (forall t o, G !! t = Some o -> o = own0) as H0.
  { intros t o Ho. destruct (lookup_lt_is_Some_2 (thr x) t) as [p Ht]; [rewrite <- Hl; by eapply lookup_lt_Some|]. pose proof (Hp _ _ _ Ht Ho) as H. by rewrite (Hd _ _ Ht) in H. }
  assert (forall f : own -> nat, f own0 = 0%nat -> total f G = 0%nat) as Hz.
  { intros f E. destruct (total f G) eqn:Et; [done|exfalso]. destruct (total_pos f G) as (t & o & Ho & Hpos); [lia|]. rewrite (H0 _ _ Ho) in Hpos. lia. }
  pose proof (i_sess _ _ I) as S. pose proof (i_ctx _ _ I) as C. split_and!.
  - intros a y Hy. rewrite (si_count _ _ S _ _ Hy), Hz by done. assert (lock_thread y = None) as Hlk.
    { destruct (lock_thread y) as [t|] eqn:E; [exfalso|done]. destruct (si_owner _ _ S _ _ _ Hy E) as (o & Ho & Hin). rewrite (H0 _ _ Ho) in Hin. by apply elem_of_nil in Hin. }
    split; [done|]. split; [done|]. destruct (si_ctx _ _ S _ _ Hy Hlk) as [c Hc]. exists c. split; [done|]. apply (ci_att _ _ _ _ C a). rewrite (att_lookup _ _ _ Hy). by rewrite Hc.
  - intros c y Hy. pose proof (ci_count _ _ _ _ C _ _ Hy) as H1. pose proof (ci_busy _ _ _ _ C _ _ Hy) as H2. pose proof (ci_init _ _ _ _ C _ _ Hy) as H3. rewrite Hz in H1, H2, H3 by done.
    split; [lia|]. split; [by destruct (busy y)|by destruct (is_initializing y)].
  - destruct (tee_ta_single_instance_thread (st x)) as [t|] eqn:E; [exfalso|done]. destruct (li_held _ _ _ _ (i_single _ _ I) _ E) as [Hn [o Ho]]. pose proof (li_thread _ _ _ _ (i_single _ _ I) _ _ Ho) as H. rewrite bool_decide_true, (H0 _ _ Ho) in H by done. cbn in H. lia.
  - intros t Ht. apply lookup_lt_is_Some in Ht. rewrite <- Hl in Ht. apply lookup_lt_is_Some in Ht as [o Ho]. rewrite (i_stack _ _ I _ _ Ho). by rewrite (H0 _ _ Ho).
Qed.

(** C39. The identifier of a new session. The search ends after at most one try more than there are
    sessions in the list, changes nothing, and gives an identifier from 1 to 2^32 - 1 that no session
    of the list has; it gives 0 only if they are all taken. *)
Theorem new_session_id_spec h s : (forall a, a ∈ olist h s -> is_Some (sessions s !! a)) -> match h with Nsec => True | Utc c => is_Some (ctxs s !! c) end ->
  exists i, new_session_id h s = (Ret i, s) /\ (i = 0 /\ (forall j, 1 <= j <= UINT32_MAX -> j ∈ ids (olist h s) s) \/ 1 <= i <= UINT32_MAX /\ i ∉ ids (olist h s) s).
Proof. exact (new_session_id_run h s). Qed.

(** ** Runs *)

(** Two clients: one opens a session to a single-instance TA and closes it, the other opens one to a
    multi-instance TA. *)
Definition nobody : TEE_Identity := mk_identity 0 0.
Definition open_plain (u f ldelf_result : Z) : call := OpenSession u nobody None TEE_TIMEOUT_INFINITE (mk_loading true TEE_SUCCESS ldelf_result f) [] false TEE_SUCCESS [] false [].
Definition two_clients : list (list call) :=
  [[open_plain 7 (TA_FLAG_SINGLE_INSTANCE + TA_FLAG_MULTI_SESSION) TEE_SUCCESS; CloseSession 1 NSAPP_IDENTITY [] false []]; [open_plain 9 0 TEE_SUCCESS]].
Definition after (n m : nat) : sys tam cvar := default (start [] two_clients) (quiet_run stopped (replicate n 0%nat ++ replicate m 1%nat) (start [] two_clients)).

Lemma after_reachable n m : reachable [] two_clients (after n m).
Proof.
  unfold after. destruct (quiet_run _ _) as [y|] eqn:E; cbn [default]; [|constructor]. by eapply quiet_run_reaches; [constructor|].
Qed.

(** Both threads are inside their trusted application. *)
Lemma ta_manager_safe_witness : sys_step 0 (after 12 12) <> Some Panic /\ (if sys_step 0 (after 12 12) is Some (Ret _) then True else False).
Proof.
  split; [|vm_compute; exact I]. apply (ta_manager_safe [] two_clients (after 12 12) 0 (after_reachable 12 12)). apply Forall_forall. intros l Hl.
  apply Forall_forall. intros k Hk. repeat (apply elem_of_cons in Hl as [->|Hl]; [repeat (apply elem_of_cons in Hk as [->|Hk]; [reflexivity|]); by apply elem_of_nil in Hk|]). by apply elem_of_nil in Hl.
Defined.

Lemma ta_manager_exclusive_witness : 1%positive <> 2%positive /\
  ~ (flag TA_FLAG_SINGLE_INSTANCE (ctxs (st (after 12 12))) 1 = true /\ flag TA_FLAG_SINGLE_INSTANCE (ctxs (st (after 12 12))) 2 = true).
Proof.
  apply (ta_manager_exclusive [] two_clients (after 12 12) 0 1 1 2 (after_reachable 12 12)).
  - lia.
  - apply runs_in_dec_true. vm_compute. reflexivity.
  - apply runs_in_dec_true. vm_compute. reflexivity.
  - vm_compute. reflexivity.
  - vm_compute. reflexivity.
Defined.

(** At the end one session is left, on the multi-instance TA. *)
Lemma ta_manager_quiescent_witness : tee_ta_single_instance_thread (st (after 80 80)) = None /\ size (sessions (st (after 80 80))) = 1%nat.
Proof.
  split; [|vm_compute; reflexivity]. apply (ta_manager_quiescent [] two_clients (after 80 80) (after_reachable 80 80)). assert (thr (after 80 80) = [Done tt; Done tt]) as -> by (vm_compute; reflexivity).
  intros [|[|t]] p [= <-]; reflexivity.
Defined.

Lemma new_session_id_spec_witness : exists i, new_session_id Nsec (st (after 80 80)) = (Ret i, st (after 80 80)) /\
  (i = 0 /\ (forall j, 1 <= j <= UINT32_MAX -> j ∈ ids (olist Nsec (st (after 80 80))) (st (after 80 80))) \/ 1 <= i <= UINT32_MAX /\ i ∉ ids (olist Nsec (st (after 80 80))) (st (after 80 80))).
Proof.
  apply new_session_id_spec; [|done]. assert (olist Nsec (st (after 80 80)) = [1%positive]) as -> by (vm_compute; reflexivity). intros a ->%list_elem_of_singleton. eexists. vm_compute. reflexivity.
Defined.

(** ** What goes wrong *)

(** A client that cancels a request on the session that another one is opening: the loading of the
    trusted application fails and the session is freed while the canceller refers to it. *)
Theorem cancel_during_failed_open :
  run (replicate 3 0%nat ++ [1%nat] ++ replicate 5 0%nat ++ [1%nat]) (start [] [[open_plain 7 0 TEE_ERROR_SECURITY]; [CancelCommand 1]]) = Undef UseAfterFree.
Proof. vm_compute. reflexivity. Qed.

(** A single-instance TA with several sessions that opens a session to itself: the deadlock that
    [tee_ta_try_set_busy()] avoids ends in the panic of the core when the new session is closed. *)
Theorem open_session_to_itself_panics :
  run (replicate 40 0%nat) (start [] [[OpenSession 7 nobody None TEE_TIMEOUT_INFINITE (mk_loading true TEE_SUCCESS TEE_SUCCESS (TA_FLAG_SINGLE_INSTANCE + TA_FLAG_MULTI_SESSION))
    [open_plain 7 0 TEE_SUCCESS] false TEE_SUCCESS [] false []]]) = Panic.
Proof. vm_compute. reflexivity. Qed.

(** A timeout of 30.5 s at 100.9 s ends at 102.4 s, not at 131.4 s. *)
Theorem timeout_seconds_lost : cancel_at (Some (mk_time 100 900)) 30500 = mk_time 102 400.
Proof. vm_compute. reflexivity. Qed.

(** A user TA that the normal world opened asks the statistics pseudo TA for the statistics of the
    loaded TAs: its own session is looked up and it is the thread itself that has it locked. *)
Theorem stats_from_user_ta_panics :
  run (replicate 60 0%nat) (start [(99, TA_FLAG_SINGLE_INSTANCE + TA_FLAG_MULTI_SESSION + TA_FLAG_INSTANCE_KEEP_ALIVE)]
    [[OpenSession 7 nobody None TEE_TIMEOUT_INFINITE (mk_loading true TEE_SUCCESS TEE_SUCCESS 0)
      [open_plain 99 0 TEE_SUCCESS; InvokeCommand 1 (Client nobody) None TEE_TIMEOUT_INFINITE [InstanceStats (mk_stats_buf (Some 4096) true true) [] false TEE_SUCCESS []] false TEE_SUCCESS []]
      false TEE_SUCCESS [] false []]]) = Panic.
Proof. vm_compute. reflexivity. Qed.
