(* ===== verification/Shm.v ===== *)
(** * Shared memory of the normal world

    optee_os/core/mm/mobj_dyn_shm.c: memory objects for buffers that the normal world registers by
    the list of their pages and names by a cookie; they are counted, mapped on demand into the core's
    address space and released by cookie. With core/kernel/msg_param.c (lists of pages read from shared
    memory), the parameters of messages in core/tee/entry_std.c, the mapping of parameters for
    pseudo TAs in core/kernel/pseudo_ta.c, the reserved shared memory of core/mm/mobj.c, and the page
    table updates of core/mm/core_mmu.c that they rely on.

    A function is a [proc] of [Threads] or, where it is one section, an [M state]. Sections are the
    code under the spin locks reg_shm_slist_lock (with reg_shm_map_lock nested in it) or reg_shm_map_lock,
    under the mutex shm_mu, and the atomic updates of reference counters. Objects are at addresses that
    are not given out twice: an access to a freed object is [Undef UseAfterFree].

    The normal world may change shared memory at any time: what the core reads there is an argument,
    the value of each read. So is which allocations fail ([faults]), and what trusted applications do
    with their parameters. The configuration is that of the platform: CFG_CORE_DYN_SHM and
    CFG_CORE_RESERVED_SHM without CFG_CORE_FFA, CFG_SECURE_DATA_PATH and CFG_CORE_DYN_PROTMEM, so that
    protmem_list stays empty. Assertions are checked. The translation tables of the dynamic range
    exist, as core_init_mmu_map() creates them. *)
From S2P Require Import Prelude TeeMm RecMutex Threads.
From stdpp Require Import gmap.
Local Open Scope Z_scope.

(** ** Constants *)

Definition SMALL_PAGE_SIZE : Z := 4096.
Definition SMALL_PAGE_MASK : Z := 4095.
Definition CFG_CORE_HEAP_SIZE : Z := 65536.
Definition TEE_NUM_PARAMS : nat := 4.

Definition OPTEE_MSG_ATTR_TYPE_NONE : Z := 0x0.
Definition OPTEE_MSG_ATTR_TYPE_VALUE_INPUT : Z := 0x1.
Definition OPTEE_MSG_ATTR_TYPE_VALUE_OUTPUT : Z := 0x2.
Definition OPTEE_MSG_ATTR_TYPE_VALUE_INOUT : Z := 0x3.
Definition OPTEE_MSG_ATTR_TYPE_RMEM_INPUT : Z := 0x5.
Definition OPTEE_MSG_ATTR_TYPE_RMEM_OUTPUT : Z := 0x6.
Definition OPTEE_MSG_ATTR_TYPE_RMEM_INOUT : Z := 0x7.
Definition OPTEE_MSG_ATTR_TYPE_TMEM_INPUT : Z := 0x9.
Definition OPTEE_MSG_ATTR_TYPE_TMEM_OUTPUT : Z := 0xa.
Definition OPTEE_MSG_ATTR_TYPE_TMEM_INOUT : Z := 0xb.
Definition OPTEE_MSG_ATTR_TYPE_MASK : Z := 0xff.
Definition OPTEE_MSG_ATTR_META : Z := 2 ^ 8.
Definition OPTEE_MSG_ATTR_NONCONTIG : Z := 2 ^ 9.

Definition TEE_PARAM_TYPE_NONE : Z := 0.
Definition TEE_PARAM_TYPE_VALUE_INPUT : Z := 1.
Definition TEE_PARAM_TYPE_VALUE_OUTPUT : Z := 2.
Definition TEE_PARAM_TYPE_VALUE_INOUT : Z := 3.
Definition TEE_PARAM_TYPE_MEMREF_INPUT : Z := 5.
Definition TEE_PARAM_TYPE_MEMREF_OUTPUT : Z := 6.
Definition TEE_PARAM_TYPE_MEMREF_INOUT : Z := 7.

Definition TEE_PARAM_TYPES (t0 t1 t2 t3 : Z) : Z :=
  Z.lor (Z.lor (Z.lor t0 (Z.shiftl t1 4)) (Z.shiftl t2 8)) (Z.shiftl t3 12).
Definition TEE_PARAM_TYPE_GET (t i : Z) : Z := Z.land (Z.shiftr (u32 t) (i * 4)) 0xF.

(** ROUNDUP(x, y) on 64-bit values. *)
Definition ROUNDUP (x y : Z) : Z := u64 (u64 (x + y - 1) / y * y).

(** ** Memory ranges (core/kernel/tee_misc.c, core/mm/core_mmu.c) *)

Definition is_valid_conf_and_notnull_size (b bl a al : Z) : bool :=
  negb ((u64 (b - 1 + bl) <? b) || (u64 (a - 1 + al) <? a)) && negb ((bl =? 0) || (al =? 0)).

Definition core_is_buffer_inside (b bl a al : Z) : bool :=
  is_valid_conf_and_notnull_size b bl a al && ((a <=? b) && (u64 (b - 1 + bl) <=? u64 (a - 1 + al))).

(** What the platform says about memory: the ranges nsec_shared and the discovered non-secure
    memory, the reserved shared memory with its static mapping, and where the dynamic range starts
    (MEM_AREA_SHM_VASPACE). *)
Class Platform := {
  nsec : list (Z * Z);
  shm_pa : Z;
  shm_va : Z;
  shm_size : Z;
  shm_vaspace : Z;
}.

(** core_pbuf_is(CORE_MEM_NON_SEC, ...) *)
Definition core_pbuf_is_nsec `{Platform} (pbuf len : Z) : bool :=
  (len =? 0) || existsb (fun a => core_is_buffer_inside pbuf len a.1 a.2) nsec.

(** ** State *)

(** [struct mobj_reg_shm] with the fields [size] and [refc] of its [struct mobj]. *)
Record mobj_reg_shm := mk_reg {
  cookie : Z;
  m_mm : option tee_mm_entry;
  page_offset : Z;
  mapcount : Z;
  guarded : bool;
  releasing : bool;
  release_frees : bool;
  pages : list Z;
  m_size : Z;
  refc : Z;
}.

(** A [struct mobj *]: the reserved shared memory or a [struct mobj_reg_shm]. *)
Inductive ptr := Shm | Reg (l : Z).
#[export] Instance ptr_eq_dec : EqDecision ptr.
Proof. solve_decision. Defined.

Record param_mem := mk_mem { mem_mobj : option ptr; mem_size : Z; mem_offs : Z }.

(** A member of the union of [struct tee_ta_param]; [Zero] as memset() leaves it. *)
Inductive param_u := Zero | Val (a b : Z) | Mem (m : param_mem).
Record tee_ta_param := mk_param { types : Z; u : list param_u }.

Record state := mk_state {
  heap : gmap Z mobj_reg_shm;
  reg_shm_list : list Z;
  shm_release_waiters : Z;
  core_virt_shm_pool : tee_mm_pool;
  table : gmap Z Z;                  (* translation of the pages of the dynamic range *)
  shm_refc : option Z;               (* the reference counter of shm_mobj; [None]: freed *)
  faults : list bool;                (* for each allocation to come, whether it fails *)
  brk : Z;                           (* the next address that malloc() gives out *)
  shm_cv : list nat;                 (* the threads that wait on shm_cv *)
  running : gmap nat tee_ta_param;   (* the parameters of the TA that a thread executes *)
}.

Definition set_heap f s := mk_state (f (heap s)) (reg_shm_list s) (shm_release_waiters s) (core_virt_shm_pool s) (table s) (shm_refc s) (faults s) (brk s) (shm_cv s) (running s).
Definition set_list f s := mk_state (heap s) (f (reg_shm_list s)) (shm_release_waiters s) (core_virt_shm_pool s) (table s) (shm_refc s) (faults s) (brk s) (shm_cv s) (running s).
Definition set_waiters f s := mk_state (heap s) (reg_shm_list s) (f (shm_release_waiters s)) (core_virt_shm_pool s) (table s) (shm_refc s) (faults s) (brk s) (shm_cv s) (running s).
Definition set_pool p s := mk_state (heap s) (reg_shm_list s) (shm_release_waiters s) p (table s) (shm_refc s) (faults s) (brk s) (shm_cv s) (running s).
Definition set_table f s := mk_state (heap s) (reg_shm_list s) (shm_release_waiters s) (core_virt_shm_pool s) (f (table s)) (shm_refc s) (faults s) (brk s) (shm_cv s) (running s).
Definition set_shm_refc v s := mk_state (heap s) (reg_shm_list s) (shm_release_waiters s) (core_virt_shm_pool s) (table s) v (faults s) (brk s) (shm_cv s) (running s).
Definition set_alloc f b s := mk_state (heap s) (reg_shm_list s) (shm_release_waiters s) (core_virt_shm_pool s) (table s) (shm_refc s) f b (shm_cv s) (running s).
Definition set_shm_cv f s := mk_state (heap s) (reg_shm_list s) (shm_release_waiters s) (core_virt_shm_pool s) (table s) (shm_refc s) (faults s) (brk s) (f (shm_cv s)) (running s).
Definition set_running f s := mk_state (heap s) (reg_shm_list s) (shm_release_waiters s) (core_virt_shm_pool s) (table s) (shm_refc s) (faults s) (brk s) (shm_cv s) (f (running s)).

Definition set_refc v r := mk_reg (cookie r) (m_mm r) (page_offset r) (mapcount r) (guarded r) (releasing r) (release_frees r) (pages r) (m_size r) v.
Definition set_mapcount v r := mk_reg (cookie r) (m_mm r) (page_offset r) v (guarded r) (releasing r) (release_frees r) (pages r) (m_size r) (refc r).
Definition set_mm e r := mk_reg (cookie r) e (page_offset r) (mapcount r) (guarded r) (releasing r) (release_frees r) (pages r) (m_size r) (refc r).
Definition set_guarded b r := mk_reg (cookie r) (m_mm r) (page_offset r) (mapcount r) b (releasing r) (release_frees r) (pages r) (m_size r) (refc r).
Definition set_releasing b r := mk_reg (cookie r) (m_mm r) (page_offset r) (mapcount r) (guarded r) b (release_frees r) (pages r) (m_size r) (refc r).
Definition set_release_frees b r := mk_reg (cookie r) (m_mm r) (page_offset r) (mapcount r) (guarded r) (releasing r) b (pages r) (m_size r) (refc r).

(** The condition variable is the only thing that threads sleep on. *)
#[export] Instance shm_machine : Machine state unit := {|
  sleeps := fun t s => bool_decide (t ∈ shm_cv s);
  enqueue := fun c s => set_shm_cv (cons (snd c)) s;
|}.

Abbreviation P := (proc state unit).
Abbreviation S_ := (M state).

(** ** Access to the parts of the state *)

(** [*r] *)
Definition reg (l : Z) : S_ mobj_reg_shm := let! s := get in of_opt UseAfterFree (heap s !! l).
Definition upd (l : Z) (f : mobj_reg_shm -> mobj_reg_shm) : S_ unit :=
  let! r := reg l in modify (set_heap (<[l := f r]>)).

(** A result of an operation on a part, the part stored by [k]. *)
Definition zoom {X A} (r : outcome A * X) (k : X -> S_ unit) : S_ A :=
  match r with
  | (Ret a, v) => do! k v in ret a
  | (Err e, v) => do! k v in err e
  | (Panic, _) => panic
  | (Undef w, _) => undef w
  end.

Definition on_refc {A} (l : Z) (m : M Z A) : S_ A := let! r := reg l in zoom (m (refc r)) (fun v => upd l (set_refc v)).
Definition on_mapcount {A} (l : Z) (m : M Z A) : S_ A := let! r := reg l in zoom (m (mapcount r)) (fun v => upd l (set_mapcount v)).
Definition on_shm {A} (m : M Z A) : S_ A :=
  let! s := get in let! v := of_opt UseAfterFree (shm_refc s) in zoom (m v) (fun v => modify (set_shm_refc (Some v))).
Definition on_pool {A} (m : M tee_mm_pool A) : S_ A :=
  let! s := get in zoom (m (core_virt_shm_pool s)) (fun p => modify (set_pool p)).

(** [malloc] and [calloc]: [None] for what the heap cannot hold, and when the next of [faults] says. *)
Definition malloc (n : Z) : S_ (option Z) :=
  let! s := get in
  let fails := match faults s with b :: _ => b | [] => false end in
  if (CFG_CORE_HEAP_SIZE <? n) || fails then do! put (set_alloc (tl (faults s)) (brk s) s) in ret None
  else do! put (set_alloc (tl (faults s)) (brk s + 1) s) in ret (Some (brk s)).

(** ** Page tables (core/mm/core_mmu.c) *)

Fixpoint unmap_loop (va : Z) (n : nat) : S_ unit :=
  match n with
  | O => ret tt
  | S n => do! modify (set_table (delete va)) in unmap_loop (va + SMALL_PAGE_SIZE) n
  end.
Definition core_mmu_unmap_pages (vstart num_pages : Z) : S_ unit := unmap_loop vstart (Z.to_nat num_pages).

Fixpoint map_loop (vstart va : Z) (ps : list Z) : S_ Z :=
  match ps with
  | [] => ret TEE_SUCCESS
  | p :: r =>
      if negb (Z.land p SMALL_PAGE_MASK =? 0) then
        do! core_mmu_unmap_pages vstart ((va - vstart) / SMALL_PAGE_SIZE) in ret TEE_ERROR_BAD_PARAMETERS
      else
        let! s := get in
        match table s !! va with
        | Some _ => panic
        | None => do! modify (set_table (<[va := p]>)) in map_loop vstart (va + SMALL_PAGE_SIZE) r
        end
  end.

(** The dynamic range is the one that core_virt_shm_pool manages. *)
Definition core_mmu_map_pages (vstart : Z) (ps : list Z) : S_ Z :=
  if negb (Z.land vstart SMALL_PAGE_MASK =? 0) then ret TEE_ERROR_BAD_PARAMETERS else
  let! s := get in
  let p := core_virt_shm_pool s in
  if negb ((lo p <=? vstart) && (vstart + lenZ ps * SMALL_PAGE_SIZE - 1 <=? lo p + psz p - 1)) then panic
  else map_loop vstart vstart ps.

(** ** Registered shared memory (core/mm/mobj_dyn_shm.c) *)

(** sizeof(struct mobj_reg_shm) is 72. *)
Definition mobj_reg_shm_size (nr_pages : Z) : Z :=
  let '(f1, s1) := mul_overflow 64 8 nr_pages in
  if f1 then 0 else
  let '(f2, s2) := add_overflow 64 72 s1 in
  if f2 then 0 else s2.

Definition mobj_check_offset_and_len (size offset len : Z) : bool :=
  let '(f, end_offs) := add_overflow 64 offset (len - 1) in
  negb (len =? 0) && negb f && (end_offs <? size).

(** The granule 0: the address of a byte. *)
Definition mobj_reg_shm_get_pa (r : mobj_reg_shm) (offst : Z) : option Z :=
  if m_size r <=? offst then None else
  let full_offset := u64 (offst + page_offset r) in
  p ← pages r !! Z.to_nat (full_offset / SMALL_PAGE_SIZE);
  Some (u64 (p + Z.land full_offset SMALL_PAGE_MASK)).

Definition mobj_reg_shm_get_va (l offst len : Z) : S_ (option Z) :=
  let! r := reg l in
  match m_mm r with
  | None => ret None
  | Some e =>
      if negb (mobj_check_offset_and_len (m_size r) offst len) then ret None else
      let! s := get in ret (Some (u64 (tee_mm_get_smem (core_virt_shm_pool s) e + offst + page_offset r)))
  end.

Definition reg_shm_unmap_helper (l : Z) : S_ unit :=
  let! r := reg l in
  match m_mm r with
  | None => panic
  | Some e =>
      let! s := get in
      do! assert_ (TeeMm.shift (core_virt_shm_pool s) =? 12) in
      do! core_mmu_unmap_pages (tee_mm_get_smem (core_virt_shm_pool s) e) (TeeMm.size e) in
      do! on_pool (tee_mm_free (entry_ptr e)) in
      upd l (set_mm None)
  end.

(** SLIST_REMOVE: an element that is not listed is looked for behind the end of the list. *)
Fixpoint slist_remove (l : Z) (h : list Z) : option (list Z) :=
  match h with
  | [] => None
  | x :: r => if x =? l then Some r else h' ← slist_remove l r; Some (x :: h')
  end.

(** With reg_shm_slist_lock held. *)
Definition reg_shm_free_helper (l : Z) : S_ unit :=
  let! r := reg l in
  do! (match m_mm r with Some _ => reg_shm_unmap_helper l | None => ret tt end) in
  let! s := get in
  let! h := of_opt OutOfBounds (slist_remove l (reg_shm_list s)) in
  do! modify (set_list (fun _ => h)) in
  modify (set_heap (delete l)).

Definition mobj_reg_shm_free (l : Z) : P unit :=
  let* r := section (reg l) in
  if guarded r && negb (releasing r) then section (reg_shm_free_helper l)
  else
    do* section (upd l (set_release_frees true)) in
    section (let! s := get in
      if shm_release_waiters s =? 0 then ret tt else modify (set_shm_cv (fun _ => []))).

(** [if (!r->mm) { ... }] of mobj_reg_shm_inc_map(): a window for the object's pages. *)
Definition map_window (l : Z) : S_ Z :=
  let! r := reg l in
  match m_mm r with
  | Some _ => ret TEE_SUCCESS
  | None =>
      let sz := ROUNDUP (u64 (m_size r + page_offset r)) SMALL_PAGE_SIZE in
      let! node := malloc 24 in
      let! mm := on_pool (tee_mm_alloc node sz) in
      match mm with
      | None => ret TEE_ERROR_OUT_OF_MEMORY
      | Some e =>
          do! upd l (set_mm (Some e)) in
          let! s := get in
          let! res := core_mmu_map_pages (tee_mm_get_smem (core_virt_shm_pool s) e)
                        (take (Z.to_nat (sz / SMALL_PAGE_SIZE)) (pages r)) in
          if res =? TEE_SUCCESS then ret TEE_SUCCESS else
          do! on_pool (tee_mm_free (entry_ptr e)) in
          do! upd l (set_mm None) in ret res
      end
  end.

(** The code tries refcount_inc() and, when the count was 0, takes the lock and tries again if another
    thread has set the count by then. Attempts that fail change nothing, so the attempt that succeeds,
    or finds 0 with the lock held, is the whole function. *)
Definition mobj_reg_shm_inc_map (l : Z) : S_ Z :=
  let! inc := on_mapcount l (refcount_inc []) in
  if inc : bool then ret TEE_SUCCESS else
  let! res := map_window l in
  if res =? TEE_SUCCESS then do! on_mapcount l (refcount_set 1) in ret TEE_SUCCESS else ret res.

Definition mobj_reg_shm_dec_map (l : Z) : P Z :=
  let* zero := section (on_mapcount l (refcount_dec [])) in
  if zero : bool then
    do* section (let! r := reg l in
      match m_mm r with
      | Some _ => if mapcount r =? 0 then reg_shm_unmap_helper l else ret tt
      | None => ret tt
      end) in Done TEE_SUCCESS
  else Done TEE_SUCCESS.

Definition mobj_reg_shm_alloc `{Platform} (ps : list Z) (offs ck : Z) : S_ (option Z) :=
  let num_pages := lenZ ps in
  if (num_pages =? 0) || (SMALL_PAGE_SIZE <=? offs) then ret None else
  let sz := mobj_reg_shm_size num_pages in
  if sz =? 0 then ret None else
  let! a := malloc sz in
  match a with
  | None => ret None
  | Some l =>
      if forallb (fun p => (Z.land p SMALL_PAGE_MASK =? 0) && core_pbuf_is_nsec p SMALL_PAGE_SIZE) ps then
        do! modify (set_heap (<[l := mk_reg ck None offs 0 true false false ps
                                       (u64 (u64 (num_pages * SMALL_PAGE_SIZE) - offs)) 1]>)) in
        do! modify (set_list (cons l)) in ret (Some l)
      else ret None
  end.

Definition mobj_reg_shm_unguard (l : Z) : S_ unit := upd l (set_guarded false).

Fixpoint find_cookie (ck : Z) (h : list Z) : S_ (option Z) :=
  match h with
  | [] => ret None
  | l :: h => let! r := reg l in if cookie r =? ck then ret (Some l) else find_cookie ck h
  end.
Definition reg_shm_find_unlocked (ck : Z) : S_ (option Z) := let! s := get in find_cookie ck (reg_shm_list s).

(** ** Memory objects (core/include/mm/mobj.h, core/mm/mobj.c) *)

Definition mobj_get (p : ptr) : S_ unit :=
  let! inc := match p with Shm => on_shm (refcount_inc []) | Reg l => on_refc l (refcount_inc []) end in
  if inc : bool then ret tt else panic.

Definition mobj_put (p : option ptr) : P unit :=
  match p with
  | None => Done tt
  | Some Shm =>
      let* zero := section (on_shm (refcount_dec [])) in
      if zero : bool then section (modify (set_shm_refc None)) else Done tt
  | Some (Reg l) =>
      let* zero := section (on_refc l (refcount_dec [])) in
      if zero : bool then mobj_reg_shm_free l else Done tt
  end.

Definition mobj_inc_map (p : option ptr) : S_ Z :=
  match p with None => ret TEE_ERROR_GENERIC | Some Shm => ret TEE_SUCCESS | Some (Reg l) => mobj_reg_shm_inc_map l end.
Definition mobj_dec_map (p : option ptr) : P Z :=
  match p with None => Done TEE_ERROR_GENERIC | Some Shm => Done TEE_SUCCESS | Some (Reg l) => mobj_reg_shm_dec_map l end.

Section WithPlatform.
Context `{Platform}.

Definition mobj_phys_get_va (offset len : Z) : option Z :=
  if (shm_va =? 0) || negb (mobj_check_offset_and_len shm_size offset len) then None else Some (shm_va + offset).

Definition mobj_get_va (p : option ptr) (offset len : Z) : S_ (option Z) :=
  match p with None => ret None | Some Shm => ret (mobj_phys_get_va offset len) | Some (Reg l) => mobj_reg_shm_get_va l offset len end.

(** The address of a byte of a memory object, [None] if it has no such byte. *)
Definition mobj_byte_pa (s : state) (p : ptr) (i : Z) : option Z :=
  match p with
  | Shm => if (0 <=? i) && (i <? shm_size) then Some (u64 (shm_pa + i)) else None
  | Reg l => if 0 <=? i then r ← heap s !! l; mobj_reg_shm_get_pa r i else None
  end.

(** What the MMU makes of an address of the core. *)
Definition translate (s : state) (va : Z) : option Z :=
  if (shm_va <=? va) && (va <? shm_va + shm_size) then Some (shm_pa + (va - shm_va)) else
  pa ← table s !! (va - va mod SMALL_PAGE_SIZE); Some (pa + va mod SMALL_PAGE_SIZE).

(** An access to [len] bytes at [va], meant for those of object [p] from [offs] on: each address must
    be mapped to that byte, and the byte must be non-secure memory. *)
Definition byte_ok_at (s : state) (p : ptr) (offs va : Z) : bool :=
  match translate s va with
  | Some pa => bool_decide (mobj_byte_pa s p offs = Some pa) && core_pbuf_is_nsec pa 1
  | None => false
  end.
Definition access (p : ptr) (offs va len : Z) : S_ unit :=
  let! s := get in
  if forallb (fun j => byte_ok_at s p (offs + j) (va + j)) (seqZ 0 len) then ret tt else undef OutOfBounds.

Definition mobj_reg_shm_get_by_cookie (ck : Z) : S_ (option ptr) :=
  let! f := reg_shm_find_unlocked ck in
  match f with
  | None => ret None
  | Some l => do! mobj_get (Reg l) in ret (Some (Reg l))
  end.

Definition mobj_reg_shm_release_by_cookie (ck : Z) : P Z :=
  let* f := section (
    let! f := reg_shm_find_unlocked ck in
    match f with
    | None => ret None
    | Some l => let! r := reg l in if guarded r || releasing r then ret None else do! upd l (set_releasing true) in ret (Some l)
    end) in
  match f with
  | None => Done TEE_ERROR_BAD_PARAMETERS
  | Some l =>
      do* mobj_put (Some (Reg l)) in
      do* section (do! modify (set_waiters (fun n => u64 (n + 1))) in let! s := get in assert_ (negb (shm_release_waiters s =? 0))) in
      waiting (let! r := reg l in
        if release_frees r then
          do! reg_shm_free_helper l in
          let! s := get in
          do! assert_ (negb (shm_release_waiters s =? 0)) in
          do! modify (set_waiters (fun n => u64 (n - 1))) in ret (inl TEE_SUCCESS)
        else ret (inr tt))
  end.

Definition mobj_mapped_shm_alloc (ps : list Z) (offs ck : Z) : P (option Z) :=
  let* m := section (mobj_reg_shm_alloc ps offs ck) in
  match m with
  | None => Done None
  | Some l =>
      let* res := section (mobj_reg_shm_inc_map l) in
      if res =? TEE_SUCCESS then Done (Some l) else do* mobj_put (Some (Reg l)) in Done None
  end.

(** ** Lists of pages (core/kernel/msg_param.c) *)

(** Maps the page of the list at [page]: its object and its address. *)
Definition map_list_page (page : Z) : P (option (Z * Z)) :=
  let* m := mobj_mapped_shm_alloc [page] 0 0 in
  match m with
  | None => Done None
  | Some l =>
      let* va := section (let! va := mobj_get_va (Some (Reg l)) 0 SMALL_PAGE_SIZE in
                          match va with Some va => if va =? 0 then panic else ret va | None => panic end) in
      Done (Some (l, va))
  end.

(** [*va]; the [k]-th word read from shared memory is [rd k]. *)
Definition load (l va : Z) : P unit := section (access (Reg l) (va mod SMALL_PAGE_SIZE) va 8).

(** The loop, for [n] more entries: the object to put in the end, and the pages unless it fails. *)
Fixpoint extract_loop (rd : nat -> Z) (k : nat) (l va : Z) (n : nat) (ps : list Z) : P (option Z * option (list Z)) :=
  match n with
  | O => Done (Some l, Some ps)
  | S n =>
      let entry l va k :=
        do* load l va in
        let p := u64 (rd k) in
        if negb (Z.land p SMALL_PAGE_MASK =? 0) then Done (Some l, None)
        else extract_loop rd (S k) l (va + 8) n (ps ++ [p]) in
      if Z.land (va + 8) SMALL_PAGE_MASK =? 0 then
        do* load l va in
        let page := u64 (rd k) in
        if negb (Z.land page SMALL_PAGE_MASK =? 0) then Done (Some l, None) else
        do* mobj_put (Some (Reg l)) in
        let* m := map_list_page page in
        match m with
        | None => Done (None, None)
        | Some (l', va') => entry l' va' (S k)
        end
      else entry l va k
  end.

Definition msg_param_extract_pages (rd : nat -> Z) (buffer num_pages : Z) : P (option (list Z)) :=
  if negb (Z.land buffer SMALL_PAGE_MASK =? 0) then Done None else
  let* m := map_list_page buffer in
  match m with
  | None => Done None
  | Some (l, va) =>
      let* r := extract_loop rd 0 l va (Z.to_nat num_pages) [] in
      do* mobj_put (Reg <$> r.1) in Done r.2
  end.

Definition msg_param_mobj_from_noncontig (rd : nat -> Z) (buf_ptr sz shm_ref : Z) (map_buffer : bool) : P (option Z) :=
  let page_offset := Z.land buf_ptr SMALL_PAGE_MASK in
  let '(f1, size_plus_offs) := add_overflow 64 sz page_offset in
  if f1 then Done None else
  let num_pages := u64 (u64 (size_plus_offs - 1) / SMALL_PAGE_SIZE + 1) in
  let '(f2, msize) := mul_overflow 64 num_pages 8 in
  if f2 then Done None else
  let* b := section (malloc msize) in
  match b with
  | None => Done None
  | Some _ =>
      let* ps := msg_param_extract_pages rd (Z.ldiff buf_ptr SMALL_PAGE_MASK) num_pages in
      match ps with
      | None => Done None
      | Some ps => if map_buffer then mobj_mapped_shm_alloc ps page_offset shm_ref
                   else section (mobj_reg_shm_alloc ps page_offset shm_ref)
      end
  end.
End WithPlatform.
