(* ===== verification/ShmMsg.v ===== *)
(** * Parameters of messages

    core/tee/entry_std.c: the parameters of a message of the normal world are copied in, memory
    references being resolved to memory objects whose reference count is raised for the time of the call,
    and copied out; buffers are registered and unregistered. core/kernel/pseudo_ta.c: the memory
    references are mapped while a pseudo TA runs. Over [Shm]. *)
From S2P Require Import Prelude TeeMm RecMutex Threads Shm.
From stdpp Require Import gmap.
Local Open Scope Z_scope.

(** ** Messages *)

(** [struct optee_msg_param]: the attributes and the three words of the union ([value.a, value.b,
    value.c]; [tmem.buf_ptr, tmem.size, tmem.shm_ref]; [rmem.offs, rmem.size, rmem.shm_ref]), as the core
    reads them (each is read once), and the words that it reads from the list of pages that [tmem] may
    refer to. *)
Record msg_param := mk_msg_param { attr_ : Z; w1_ : Z; w2_ : Z; w3_ : Z; words : nat -> Z }.
Definition attr (p : msg_param) : Z := u64 (attr_ p).
Definition w1 (p : msg_param) : Z := u64 (w1_ p).
Definition w2 (p : msg_param) : Z := u64 (w2_ p).
Definition w3 (p : msg_param) : Z := u64 (w3_ p).

Definition has (v bit : Z) : bool := negb (Z.land v bit =? 0).

Definition is_value (a : Z) : bool := (OPTEE_MSG_ATTR_TYPE_VALUE_INPUT <=? a) && (a <=? OPTEE_MSG_ATTR_TYPE_VALUE_INOUT).
Definition is_tmem (a : Z) : bool := (OPTEE_MSG_ATTR_TYPE_TMEM_INPUT <=? a) && (a <=? OPTEE_MSG_ATTR_TYPE_TMEM_INOUT).
Definition is_rmem (a : Z) : bool := (OPTEE_MSG_ATTR_TYPE_RMEM_INPUT <=? a) && (a <=? OPTEE_MSG_ATTR_TYPE_RMEM_INOUT).

Definition null_mem : param_mem := mk_mem None 0 0.

Section Messages.
Context `{Platform}.

(** ** Copying in (entry_std.c) *)

(** Of shm_mobj: mobj_get_pa() gives its base. *)
Definition param_mem_from_mobj (pa sz : Z) : S_ (option param_mem) :=
  if negb (core_is_buffer_inside pa (Z.max sz 1) shm_pa shm_size) then ret None
  else do! mobj_get Shm in ret (Some (mk_mem (Some Shm) sz (u64 (pa - shm_pa)))).

Definition set_tmem_param (p : msg_param) (a : Z) : P (Z * param_u) :=
  let pa := w1 p in
  let sz := w2 p in
  if pa =? 0 then Done (TEE_SUCCESS, Mem null_mem) else
  if has a OPTEE_MSG_ATTR_NONCONTIG then
    let* m := msg_param_mobj_from_noncontig (words p) pa sz (w3 p) false in
    match m with
    | None => Done (TEE_ERROR_BAD_PARAMETERS, Mem null_mem)
    | Some l => Done (TEE_SUCCESS, Mem (mk_mem (Some (Reg l)) sz 0))
    end
  else
    let* m := section (param_mem_from_mobj pa sz) in
    match m with
    | Some m => Done (TEE_SUCCESS, Mem m)
    | None => Done (TEE_ERROR_BAD_PARAMETERS, Zero)
    end.

Definition mobj_size (p : ptr) : S_ Z :=
  match p with Shm => ret shm_size | Reg l => let! r := reg l in ret (m_size r) end.

Definition set_rmem_param (p : msg_param) : P (Z * param_u) :=
  let* m := section (mobj_reg_shm_get_by_cookie (w3 p)) in
  match m with
  | None => Done (TEE_ERROR_BAD_PARAMETERS, Mem null_mem)
  | Some q =>
      let mem := mk_mem (Some q) (w2 p) (w1 p) in
      let* size := section (mobj_size q) in
      let '(f, req_size) := add_overflow 64 (mem_offs mem) (mem_size mem) in
      if f || (size <? req_size) then Done (TEE_ERROR_SECURITY, Mem mem) else Done (TEE_SUCCESS, Mem mem)
  end.

(** The loop, from the members of the union, parameter types and saved attributes so far. *)
Fixpoint copy_in_loop (ps : list msg_param) (us : list param_u) (pt saved : list Z)
    : P (Z * list param_u * list Z * list Z) :=
  match ps with
  | [] => Done (TEE_SUCCESS, us, pt, saved)
  | p :: ps =>
      let saved := saved ++ [attr p] in
      if has (attr p) OPTEE_MSG_ATTR_META then Done (TEE_ERROR_BAD_PARAMETERS, us ++ [Zero], pt, saved) else
      let a := Z.land (attr p) OPTEE_MSG_ATTR_TYPE_MASK in
      if a =? OPTEE_MSG_ATTR_TYPE_NONE then copy_in_loop ps (us ++ [Zero]) (pt ++ [TEE_PARAM_TYPE_NONE]) saved
      else if is_value a then
        copy_in_loop ps (us ++ [Val (u32 (w1 p)) (u32 (w2 p))])
          (pt ++ [TEE_PARAM_TYPE_VALUE_INPUT + a - OPTEE_MSG_ATTR_TYPE_VALUE_INPUT]) saved
      else if is_tmem a then
        let* r := set_tmem_param p (u32 (attr p)) in
        if negb (r.1 =? TEE_SUCCESS) then Done (r.1, us ++ [r.2], pt, saved)
        else copy_in_loop ps (us ++ [r.2]) (pt ++ [TEE_PARAM_TYPE_MEMREF_INPUT + a - OPTEE_MSG_ATTR_TYPE_TMEM_INPUT]) saved
      else if is_rmem a then
        let* r := set_rmem_param p in
        if negb (r.1 =? TEE_SUCCESS) then Done (r.1, us ++ [r.2], pt, saved)
        else copy_in_loop ps (us ++ [r.2]) (pt ++ [TEE_PARAM_TYPE_MEMREF_INPUT + a - OPTEE_MSG_ATTR_TYPE_RMEM_INPUT]) saved
      else Done (TEE_ERROR_BAD_PARAMETERS, us ++ [Zero], pt, saved)
  end.

(** [A x[TEE_NUM_PARAMS] = { z }] with the first members set. *)
Definition fill {A} (z : A) (l : list A) : list A := l ++ replicate (TEE_NUM_PARAMS - length l) z.
Definition nth_type (pt : list Z) (n : nat) : Z := default TEE_PARAM_TYPE_NONE (pt !! n).

(** The result, [*ta_param] and [saved_attr]. *)
Definition copy_in_params (params : list msg_param) : P (Z * tee_ta_param * list Z) :=
  if Z.of_nat TEE_NUM_PARAMS <? lenZ params then
    Done (TEE_ERROR_BAD_PARAMETERS, mk_param 0 (fill Zero []), fill 0 [])
  else
    let* r := copy_in_loop params [] [] [] in
    let '(res, us, pt, saved) := r in
    let ty := if res =? TEE_SUCCESS then TEE_PARAM_TYPES (nth_type pt 0) (nth_type pt 1) (nth_type pt 2) (nth_type pt 3) else 0 in
    Done (res, mk_param ty (fill Zero us), fill 0 saved).

(** [u[n].mem.mobj]; a value in its place is not a pointer. *)
Definition union_mem (x : option param_u) : option param_mem :=
  match x with Some Zero => Some null_mem | Some (Mem m) => Some m | _ => None end.

Fixpoint cleanup_loop (saved : list Z) (us : list param_u) (n : nat) : P unit :=
  match n, saved, us with
  | S n, a :: saved, x :: us =>
      let a := Z.land a OPTEE_MSG_ATTR_TYPE_MASK in
      do* (if is_tmem a || is_rmem a then
             match union_mem (Some x) with Some m => mobj_put (mem_mobj m) | None => section (undef OutOfBounds) end
           else Done tt) in
      cleanup_loop saved us n
  | _, _, _ => Done tt
  end.
Definition cleanup_shm_refs (saved_attr : list Z) (param : tee_ta_param) (num_params : Z) : P unit :=
  cleanup_loop saved_attr (u param) (Z.to_nat (Z.min (Z.of_nat TEE_NUM_PARAMS) num_params)).

(** ** Copying out *)

(** The [n]-th parameter as it is left in the message. *)
Definition copy_out_one (ta_param : tee_ta_param) (saved : list Z) (n : nat) (p : msg_param) : msg_param :=
  let ty := TEE_PARAM_TYPE_GET (types ta_param) (Z.of_nat n) in
  let a := Z.land (default 0 (saved !! n)) OPTEE_MSG_ATTR_TYPE_MASK in
  if (ty =? TEE_PARAM_TYPE_MEMREF_OUTPUT) || (ty =? TEE_PARAM_TYPE_MEMREF_INOUT) then
    if (a =? OPTEE_MSG_ATTR_TYPE_TMEM_OUTPUT) || (a =? OPTEE_MSG_ATTR_TYPE_TMEM_INOUT)
       || (a =? OPTEE_MSG_ATTR_TYPE_RMEM_OUTPUT) || (a =? OPTEE_MSG_ATTR_TYPE_RMEM_INOUT)
    then mk_msg_param (attr_ p) (w1_ p) (match u ta_param !! n with Some (Mem m) => mem_size m | _ => 0 end) (w3_ p) (words p)
    else p
  else if (ty =? TEE_PARAM_TYPE_VALUE_OUTPUT) || (ty =? TEE_PARAM_TYPE_VALUE_INOUT) then
    match u ta_param !! n with
    | Some (Val a b) => mk_msg_param (attr_ p) a b (w3_ p) (words p)
    | _ => mk_msg_param (attr_ p) 0 0 (w3_ p) (words p)
    end
  else p.
Definition copy_out_param (ta_param : tee_ta_param) (params : list msg_param) (saved : list Z) : list msg_param :=
  imap (copy_out_one ta_param saved) params.

(** ** Pseudo TAs (pseudo_ta.c) *)

(** [TEE_Param]; a buffer at 0 is NULL. *)
Inductive tee_param := PZero | PValue (a b : Z) | PMemref (buffer sz : Z).

Definition is_memref (ty : Z) : bool := (TEE_PARAM_TYPE_MEMREF_INPUT <=? ty) && (ty <=? TEE_PARAM_TYPE_MEMREF_INOUT).
Definition is_value_type (ty : Z) : bool := (TEE_PARAM_TYPE_VALUE_INPUT <=? ty) && (ty <=? TEE_PARAM_TYPE_VALUE_INOUT).

(** The loop from parameter [n] on: the result, the parameters of the pseudo TA and which are mapped. *)
Fixpoint copy_in_param_loop (ty : Z) (us : list param_u) (n : Z) (tp : list tee_param) (did_map : list bool)
    : P (Z * list tee_param * list bool) :=
  match us with
  | [] => Done (TEE_SUCCESS, tp, did_map)
  | x :: us =>
      let t := TEE_PARAM_TYPE_GET ty n in
      if is_value_type t then
        match x with
        | Val a b => copy_in_param_loop ty us (n + 1) (tp ++ [PValue a b]) (did_map ++ [false])
        | Zero => copy_in_param_loop ty us (n + 1) (tp ++ [PValue 0 0]) (did_map ++ [false])
        | Mem _ => section (undef OutOfBounds)
        end
      else if is_memref t then
        match union_mem (Some x) with
        | None => section (undef OutOfBounds)
        | Some mem =>
            if mem_size mem =? 0 then copy_in_param_loop ty us (n + 1) (tp ++ [PMemref 0 0]) (did_map ++ [false])
            else
              let* res := section (mobj_inc_map (mem_mobj mem)) in
              if negb (res =? TEE_SUCCESS) then Done (res, tp, did_map) else
              let* va := section (mobj_get_va (mem_mobj mem) (mem_offs mem) (mem_size mem)) in
              match va with
              | None => Done (TEE_ERROR_BAD_PARAMETERS, tp, did_map ++ [true])
              | Some va => copy_in_param_loop ty us (n + 1) (tp ++ [PMemref va (mem_size mem)]) (did_map ++ [true])
              end
        end
      else copy_in_param_loop ty us (n + 1) (tp ++ [PZero]) (did_map ++ [false])
  end.
Definition copy_in_param (param : tee_ta_param) : P (Z * list tee_param * list bool) :=
  copy_in_param_loop (types param) (u param) 0 [] [].

Definition update_out_one (ty : Z) (tp : list tee_param) (n : nat) (x : param_u) : param_u :=
  let t := TEE_PARAM_TYPE_GET ty (Z.of_nat n) in
  if (t =? TEE_PARAM_TYPE_VALUE_OUTPUT) || (t =? TEE_PARAM_TYPE_VALUE_INOUT) then
    match tp !! n with Some (PValue a b) => Val a b | _ => Val 0 0 end
  else if (t =? TEE_PARAM_TYPE_MEMREF_OUTPUT) || (t =? TEE_PARAM_TYPE_MEMREF_INOUT) then
    match x, tp !! n with
    | Mem m, Some (PMemref _ sz) => Mem (mk_mem (mem_mobj m) sz (mem_offs m))
    | Zero, Some (PMemref _ sz) => Mem (mk_mem None sz 0)
    | _, _ => x
    end
  else x.
Definition update_out_param (tp : list tee_param) (param : tee_ta_param) : tee_ta_param :=
  mk_param (types param) (imap (update_out_one (types param) tp) (u param)).

Fixpoint unmap_loop_param (us : list param_u) (did_map : list bool) : P unit :=
  match us, did_map with
  | x :: us, d :: did_map =>
      do* (if d : bool then
             match union_mem (Some x) with
             | Some m => let* res := mobj_dec_map (mem_mobj m) in section (assert_ (res =? TEE_SUCCESS))
             | None => section (undef OutOfBounds)
             end
           else Done tt) in
      unmap_loop_param us did_map
  | _, _ => Done tt
  end.
Definition unmap_mapped_param (param : tee_ta_param) (did_map : list bool) : P unit := unmap_loop_param (u param) did_map.

(** What an entry point of a pseudo TA does with its parameters: the bytes it reads or writes (parameter,
    first byte, number), its result and what it leaves in the parameters. *)
Record pta_run := mk_pta_run { accesses : list (nat * Z * Z); result : Z; outs : list tee_param }.

(** It keeps to the buffers it is given. *)
Class pta_ok (pta : Z -> list tee_param -> pta_run) : Prop :=
  pta_in_bounds : forall ty tp n i len, (n, i, len) ∈ accesses (pta ty tp) ->
    exists b sz, tp !! n = Some (PMemref b sz) /\ 0 <= i /\ 0 <= len /\ i + len <= sz.

Definition pta_access (us : list param_u) (tp : list tee_param) (x : nat * Z * Z) : P unit :=
  let '(n, i, len) := x in
  if len =? 0 then Done tt else
  match us !! n, tp !! n with
  | Some (Mem m), Some (PMemref b _) =>
      match mem_mobj m with
      | Some p => section (access p (mem_offs m + i) (b + i) len)
      | None => section (undef OutOfBounds)
      end
  | _, _ => section (undef OutOfBounds)
  end.

(** pseudo_ta_enter_invoke_cmd(), and pseudo_ta_enter_open_session() behind create_entry_point(). *)
Definition pseudo_ta_enter (pta : Z -> list tee_param -> pta_run) (param : tee_ta_param) : P (Z * tee_ta_param) :=
  let* r := copy_in_param param in
  let '(res, tp, did_map) := r in
  if negb (res =? TEE_SUCCESS) then do* unmap_mapped_param param did_map in Done (res, param) else
  let run := pta (types param) tp in
  do* run_list (pta_access (u param) tp) (accesses run) in
  let param' := update_out_param (outs run) param in
  do* unmap_mapped_param param' did_map in
  Done (result run, param').

(** ** Messages (entry_std.c) *)

(** What the TA manager makes of a message: no session is entered, with an error; a pseudo TA is; or a
    user TA is, that returns a result and leaves its parameters changed in what is copied out. *)
Inductive ta :=
| NoTa (res : Z)
| Pseudo (pta : Z -> list tee_param -> pta_run)
| User (res : Z) (outs : list tee_param).

Definition ta_call (t : nat) (x : ta) (param : tee_ta_param) : P (Z * tee_ta_param) :=
  match x with
  | NoTa res => Done (res, param)
  | Pseudo pta =>
      do* section (modify (set_running (<[t := param]>))) in
      let* r := pseudo_ta_enter pta param in
      do* section (modify (set_running (delete t))) in Done r
  | User res outs =>
      do* section (modify (set_running (<[t := param]>))) in
      do* section (modify (set_running (delete t))) in Done (res, update_out_param outs param)
  end.

(** The result and the parameters of the message; [x] is [None] if tee_ta_get_session() finds no session. *)
Definition entry_invoke_command (t : nat) (params : list msg_param) (x : option ta) : P (Z * list msg_param) :=
  let* r := copy_in_params params in
  let '(res, param, saved) := r in
  if negb (res =? TEE_SUCCESS) then do* cleanup_shm_refs saved param (lenZ params) in Done (res, params) else
  match x with
  | None => do* cleanup_shm_refs saved param (lenZ params) in Done (TEE_ERROR_BAD_PARAMETERS, params)
  | Some x =>
      let* c := ta_call t x param in
      do* cleanup_shm_refs saved c.2 (lenZ params) in Done (c.1, copy_out_param c.2 params saved)
  end.

(** The two meta parameters: UUID of the TA and identity of the client (octets as words). *)
Definition TEE_LOGIN_PUBLIC : Z := 0x00000000.
Definition TEE_LOGIN_REE_KERNEL : Z := 0x80000000.
Definition client_logins : list Z := [0x1; 0x2; 0x4; 0x5; 0x6].

Definition get_open_session_meta (params : list msg_param) : option ((Z * Z) * (Z * (Z * Z))) :=
  let req_attr := Z.lor OPTEE_MSG_ATTR_META OPTEE_MSG_ATTR_TYPE_VALUE_INPUT in
  match params with
  | p0 :: p1 :: _ =>
      if negb (attr p0 =? req_attr) || negb (attr p1 =? req_attr) then None else
      let login := u32 (w3 p1) in
      if (login =? TEE_LOGIN_PUBLIC) || (login =? TEE_LOGIN_REE_KERNEL) then Some ((w1 p0, w2 p0), (login, (0, 0)))
      else if existsb (Z.eqb login) client_logins then Some ((w1 p0, w2 p0), (login, (w1 p1, w2 p1)))
      else None
  | _ => None
  end.

(** tee_ta_open_session() for the UUID and the identity is [x]. *)
Definition entry_open_session (t : nat) (params : list msg_param) (x : (Z * Z) -> Z * (Z * Z) -> ta) : P (Z * list msg_param) :=
  match get_open_session_meta params with
  | None => Done (TEE_ERROR_BAD_PARAMETERS, params)
  | Some (uuid, clnt) =>
      let ps := drop 2 params in
      let* r := copy_in_params ps in
      let '(res, param, saved) := r in
      if negb (res =? TEE_SUCCESS) then do* cleanup_shm_refs saved param (lenZ ps) in Done (res, params) else
      let* c := ta_call t (x uuid clnt) param in
      do* cleanup_shm_refs saved c.2 (lenZ ps) in
      Done (c.1, take 2 params ++ copy_out_param c.2 ps saved)
  end.

Definition register_shm (params : list msg_param) : P Z :=
  match params with
  | [p] =>
      if negb (attr p =? Z.lor OPTEE_MSG_ATTR_TYPE_TMEM_OUTPUT OPTEE_MSG_ATTR_NONCONTIG) then Done TEE_ERROR_BAD_PARAMETERS else
      let* m := msg_param_mobj_from_noncontig (words p) (w1 p) (w2 p) (w3 p) false in
      match m with
      | None => Done TEE_ERROR_BAD_PARAMETERS
      | Some l => do* section (mobj_reg_shm_unguard l) in Done TEE_SUCCESS
      end
  | _ => Done TEE_ERROR_BAD_PARAMETERS
  end.

Definition unregister_shm (params : list msg_param) : P Z :=
  match params with
  | [p] => mobj_reg_shm_release_by_cookie (w3 p)
  | _ => Done TEE_ERROR_BAD_PARAMETERS
  end.

(** The messages with memory parameters. *)
Inductive msg :=
| OpenSession (params : list msg_param) (x : (Z * Z) -> Z * (Z * Z) -> ta)
| InvokeCommand (params : list msg_param) (x : option ta)
| RegisterShm (params : list msg_param)
| UnregisterShm (params : list msg_param).

Definition tee_entry_std (t : nat) (m : msg) : P unit :=
  match m with
  | OpenSession params x => do* entry_open_session t params x in Done tt
  | InvokeCommand params x => do* entry_invoke_command t params x in Done tt
  | RegisterShm params => do* register_shm params in Done tt
  | UnregisterShm params => do* unregister_shm params in Done tt
  end.

(** The threads, each with the messages that it is to serve. *)
Definition threads (ms : list (list msg)) : list (P unit) := imap (fun t => run_list (tee_entry_std t)) ms.

(** After mobj_mapped_shm_init() and default_mobj_init(). *)
Definition shm_start (pool : tee_mm_pool) (f : list bool) (a : Z) : state :=
  mk_state ∅ [] 0 pool ∅ (Some 1) f a [] ∅.

Definition shm_reachable (pool : tee_mm_pool) (f : list bool) (a : Z) (ms : list (list msg)) : sys state unit -> Prop :=
  reaches (fun _ => false) (mk_sys (shm_start pool f a) (threads ms)).
End Messages.
