(* ===== verification/ShmInv.v ===== *)
(** * Shared memory: what the threads own

    Reasoning about the programs of [Shm] and [ShmMsg] thread by thread. A thread owns references to
    memory objects, mappings of them, objects that it is to free or to unmap, objects that it made and has
    not published, releases that it waits for and wake-ups that it owes. The invariant ties these to the
    counters and flags of the objects; apart from that it says what is mapped where. *)
From stdpp Require Import gmap.
From S2P Require Import Prelude TeeMm RecMutex Threads Shm ShmMsg.
Local Open Scope Z_scope.

(** What is assumed of the platform. *)
Class PlatformOk `{Platform} : Prop := {
  p_nsec : (shm_pa, shm_size) ∈ nsec;
  p_size : 0 < shm_size;
  p_pa : 0 <= shm_pa /\ shm_pa + shm_size <= 2 ^ 64;
  p_va : 0 < shm_va /\ shm_va + shm_size <= 2 ^ 64;
  p_vaspace : 0 < shm_vaspace /\ shm_vaspace mod SMALL_PAGE_SIZE = 0;
}.

(** ** Ownership *)

(** What a mapping shows: the window, the pages and the offset into the first. *)
Record win := mk_win { w_mm : tee_mm_entry; w_pages : list Z; w_off : Z }.

Record own := mk_own {
  refs : list (ptr * Z);   (* references, with the size of the object *)
  maps : list (Z * win);   (* mappings *)
  frees : list (Z * bool); (* objects whose last reference it has put, and whether they are guarded *)
  unms : list Z;           (* objects whose last mapping it has put *)
  made : list Z;           (* objects it has made and not published *)
  wts : list Z;            (* objects it releases *)
  nwait : nat;             (* whether it is counted in shm_release_waiters *)
  owes : nat;              (* whether it is to wake up the threads that wait *)
  cur : option tee_ta_param;
}.
Definition own0 : own := mk_own [] [] [] [] [] [] 0 0 None.

Definition o_refs x o := mk_own x (maps o) (frees o) (unms o) (made o) (wts o) (nwait o) (owes o) (cur o).
Definition o_maps x o := mk_own (refs o) x (frees o) (unms o) (made o) (wts o) (nwait o) (owes o) (cur o).
Definition o_frees x o := mk_own (refs o) (maps o) x (unms o) (made o) (wts o) (nwait o) (owes o) (cur o).
Definition o_unms x o := mk_own (refs o) (maps o) (frees o) x (made o) (wts o) (nwait o) (owes o) (cur o).
Definition o_made x o := mk_own (refs o) (maps o) (frees o) (unms o) x (wts o) (nwait o) (owes o) (cur o).
Definition o_wts x o := mk_own (refs o) (maps o) (frees o) (unms o) (made o) x (nwait o) (owes o) (cur o).
Definition o_nwait x o := mk_own (refs o) (maps o) (frees o) (unms o) (made o) (wts o) x (owes o) (cur o).
Definition o_owes x o := mk_own (refs o) (maps o) (frees o) (unms o) (made o) (wts o) (nwait o) x (cur o).
Definition o_cur x o := mk_own (refs o) (maps o) (frees o) (unms o) (made o) (wts o) (nwait o) (owes o) x.

Definition nref (p : ptr) (o : own) : nat := cnt p (fst <$> refs o).
Definition nmap (l : Z) (o : own) : nat := cnt l (fst <$> maps o).
Definition nfree (l : Z) (o : own) : nat := cnt l (fst <$> frees o).
Definition nunm (l : Z) (o : own) : nat := cnt l (unms o).
Definition nmade (l : Z) (o : own) : nat := cnt l (made o).
Definition nwts (l : Z) (o : own) : nat := cnt l (wts o).

(** Parameters whose memory references the thread holds, each inside its object. *)
Definition mem_ok (o : own) (m : param_mem) : Prop :=
  match mem_mobj m with
  | None => mem_size m = 0
  | Some p => exists sz, (p, sz) ∈ refs o /\ 0 <= mem_offs m /\ 0 <= mem_size m /\ mem_offs m + mem_size m <= sz
  end.
Definition param_ok (o : own) (p : tee_ta_param) : Prop := forall n m, u p !! n = Some (Mem m) -> mem_ok o m.

Section Inv.
Context `{PlatformOk}.

(** ** The counters of an object *)

(** The six sums over the threads that concern an object. *)
Record counts := mk_counts { c_ref : nat; c_map : nat; c_free : nat; c_unm : nat; c_made : nat; c_wts : nat }.
Definition counts_of (G : list own) (l : Z) : counts :=
  mk_counts (total (nref (Reg l)) G) (total (nmap l) G) (total (nfree l) G) (total (nunm l) G) (total (nmade l) G) (total (nwts l) G).

Record cnt_ok (r : mobj_reg_shm) (c : counts) : Prop := mk_cnt_ok {
  k_ref : refc r = Z.of_nat (c_ref c) + (if guarded r || releasing r then 0 else 1);
  k_free : Z.of_nat (c_free c) + (if release_frees r then 1 else 0) = (if refc r =? 0 then 1 else 0);
  k_rel : releasing r = true -> guarded r = false;
  k_wts : Z.of_nat (c_wts c) = (if releasing r then 1 else 0);
  k_frees : release_frees r = true -> releasing r = true;
  k_map : Z.of_nat (c_map c) <= mapcount r <= Z.of_nat (c_map c) + 1;
  k_exact : guarded r = false \/ (0 < c_made c)%nat -> mapcount r = Z.of_nat (c_map c);
  k_made : (c_made c <= 1)%nat;
  k_guard : (0 < c_made c)%nat -> guarded r = true;
  k_none : m_mm r = None -> mapcount r = 0;
  k_unm : is_Some (m_mm r) -> mapcount r = 0 -> (0 < c_unm c)%nat;
}.

(** ** Memory *)

Definition page_ok (p : Z) : Prop := is_u 64 p /\ Z.land p SMALL_PAGE_MASK = 0 /\ core_pbuf_is_nsec p SMALL_PAGE_SIZE = true.

(** What does not change while an object exists, apart from its window. *)
Record shape (r : mobj_reg_shm) : Prop := mk_shape {
  sh_pages : Forall page_ok (pages r);
  sh_len : 0 < lenZ (pages r) <= CFG_CORE_HEAP_SIZE;
  sh_off : 0 <= page_offset r < SMALL_PAGE_SIZE;
  sh_size : m_size r = lenZ (pages r) * SMALL_PAGE_SIZE - page_offset r;
}.

Definition va_of (p : tee_mm_pool) (e : tee_mm_entry) (i : Z) : Z := lo p + (offset e + i) * SMALL_PAGE_SIZE.

(** The dynamic range. *)
Record pool_ok (p : tee_mm_pool) : Prop := mk_pool_ok {
  po_shift : TeeMm.shift p = 12;
  po_lo : lo p = shm_vaspace;
  po_apart : lo p + psz p <= shm_va \/ shm_va + shm_size <= lo p;
}.

(** The objects, the list, the address space and its users. *)
Record mem_inv (s : state) : Prop := mk_mem_inv {
  mi_shape l r : heap s !! l = Some r -> shape r;
  mi_list : NoDup (reg_shm_list s);
  mi_listed l : l ∈ reg_shm_list s <-> is_Some (heap s !! l);
  mi_pool : exists head rest, pool_inv (core_virt_shm_pool s) head rest /\ eid head < brk s /\
    (forall e, e ∈ rest <-> exists l r, heap s !! l = Some r /\ m_mm r = Some e);
  mi_pool_ok : pool_ok (core_virt_shm_pool s);
  mi_brk l r : heap s !! l = Some r -> l < brk s;
  mi_eid l r e : heap s !! l = Some r -> m_mm r = Some e -> eid e < brk s /\ TeeMm.size e = lenZ (pages r);
  mi_inj l l' r r' e e' : heap s !! l = Some r -> heap s !! l' = Some r' -> m_mm r = Some e -> m_mm r' = Some e' -> eid e = eid e' -> l = l';
  mi_table va p : table s !! va = Some p <-> exists l r e i, heap s !! l = Some r /\ m_mm r = Some e /\
    pages r !! i = Some p /\ va = va_of (core_virt_shm_pool s) e (Z.of_nat i);
}.

(** ** Threads *)

Definition size_of (s : state) (p : ptr) : option Z :=
  match p with Shm => Some shm_size | Reg l => m_size <$> heap s !! l end.

Definition wf_win (s : state) (l : Z) (w : win) : Prop := exists r, heap s !! l = Some r /\
  m_mm r = Some (w_mm w) /\ pages r = w_pages w /\ page_offset r = w_off w.

Definition NREFS : nat := 8.

Record wf (o : own) : Prop := mk_wf {
  wf_maps l : l ∈ fst <$> maps o -> Reg l ∈ fst <$> refs o;
  wf_made l : l ∈ made o -> Reg l ∈ fst <$> refs o;
  wf_unms l : l ∈ unms o -> Reg l ∈ fst <$> refs o;
  wf_refs : (length (refs o) <= NREFS)%nat;
  wf_nmaps : (length (maps o) <= NREFS)%nat;
  wf_nwait : (nwait o <= 1)%nat;
  wf_cur p : cur o = Some p -> param_ok o p;
}.

Record live (s : state) (o : own) : Prop := mk_live {
  li_refs p sz : (p, sz) ∈ refs o -> size_of s p = Some sz;
  li_maps l w : (l, w) ∈ maps o -> wf_win s l w;
  li_frees l b : (l, b) ∈ frees o -> exists r, heap s !! l = Some r /\ guarded r = b;
  li_wts l : l ∈ wts o -> is_Some (heap s !! l);
}.

Definition asleep (s : state) (G : list own) (t : nat) : Prop := exists o l, G !! t = Some o /\ wts o = [l] /\ (nwait o = 1%nat /\ refs o = [] /\ frees o = [] /\ owes o = 0%nat) /\
  ((exists r, heap s !! l = Some r /\ release_frees r = false) \/ (0 < total owes G)%nat).

Record inv (s : state) (G : list own) : Prop := mk_inv {
  i_cnt l r : heap s !! l = Some r -> cnt_ok r (counts_of G l);
  i_mem : mem_inv s;
  i_wf t o : G !! t = Some o -> wf o;
  i_live t o : G !! t = Some o -> live s o;
  i_shm : shm_refc s = Some (1 + Z.of_nat (total (nref Shm) G));
  i_wait : shm_release_waiters s = Z.of_nat (total nwait G);
  i_cv t : t ∈ shm_cv s -> asleep s G t;
  i_run t p : running s !! t = Some p <-> exists o, G !! t = Some o /\ cur o = Some p;
  i_len : lenZ G <= 2 ^ 20;
}.

(** The look-up of a cookie that finds an object with a count of 0. *)
Definition finds_dead (m : S_ unit) (s : state) : Prop := exists ck l r,
  m = (do! mobj_reg_shm_get_by_cookie ck in ret tt) /\ reg_shm_find_unlocked ck s = (Ret (Some l), s) /\
  heap s !! l = Some r /\ refc r = 0.

Definition ok {A} (t : nat) (o : own) (p : proc state unit A) (Q : A -> own -> Prop) : Prop :=
  Threads.ok inv (fun _ => false) finds_dead true t o p Q.

(** ** Sections *)

Lemma ok_sect {A} t o (m : S_ A) (Q : A -> own -> Prop) :
  (forall s G, inv s G -> G !! t = Some o -> t ∉ shm_cv s ->
     match m s with
     | (Ret a, s') => exists o', inv s' (<[t := o']> G) /\ Q a o'
     | (Panic, _) => finds_dead (do! m in ret tt) s
     | _ => False
     end) -> ok t o (section m) Q.
Proof.
  intros Hm. apply ok_section. intros s G I Ht Hs. specialize (Hm s G I Ht). cbn in Hs. rewrite bool_decide_eq_false in Hs. specialize (Hm Hs).
  destruct (m s) as [[] ?]; auto.
Qed.

Lemma ok_rd {A} t o (m : S_ A) (Q : A -> own -> Prop) :
  (forall s G, inv s G -> G !! t = Some o -> exists a, m s = (Ret a, s) /\ Q a o) -> ok t o (section m) Q.
Proof. apply ok_read. Qed.

Lemma ok_seq {A B} t o (p : proc state unit A) (k : A -> proc state unit B) P Q :
  ok t o p P -> (forall a o', P a o' -> ok t o' (k a) Q) -> ok t o (pbind p k) Q.
Proof. intros Hp Hk. apply ok_bind. eapply (ok_mono true); [exact Hp|done]. Qed.

Lemma ok_conseq {A} t o (p : proc state unit A) P Q : ok t o p P -> (forall a o', P a o' -> Q a o') -> ok t o p Q.
Proof. apply ok_mono. Qed.

Lemma ok_ret {A} t o (a : A) (Q : A -> own -> Prop) : Q a o -> ok t o (Done a) Q. Proof. done. Qed.

(** ** What keeps the parts of the invariant *)

(** What memory management depends on. *)
Definition geo (r : mobj_reg_shm) : list Z * Z * Z * option tee_mm_entry := (pages r, page_offset r, m_size r, m_mm r).
Definition same_geo (s s' : state) : Prop := forall l, geo <$> heap s' !! l = geo <$> heap s !! l.

Lemma same_geo_sym s s' : same_geo s s' -> same_geo s' s. Proof. intros E l. by rewrite E. Qed.

Lemma same_geo_lookup s s' l r : same_geo s s' -> heap s' !! l = Some r -> exists r0, heap s !! l = Some r0 /\ geo r0 = geo r.
Proof. intros E Hr. specialize (E l). rewrite Hr in E. destruct (heap s !! l) as [r0|]; cbn in E; [|done]. injection E as E. exists r0. unfold geo. by split; [|congruence]. Qed.

Lemma same_geo_upd s l r r' : heap s !! l = Some r -> geo r' = geo r -> same_geo s (set_heap (<[l := r']>) s).
Proof. intros Hr E l0. cbn. destruct (decide (l0 = l)) as [->|]; [by rewrite lookup_insert_eq, Hr; cbn; rewrite E|by rewrite lookup_insert_ne]. Qed.

Lemma mem_geo s s' : mem_inv s -> same_geo s s' -> reg_shm_list s' = reg_shm_list s -> core_virt_shm_pool s' = core_virt_shm_pool s ->
  table s' = table s -> brk s' = brk s -> mem_inv s'.
Proof.
  intros [H1 H2 H3 (hd & rs & P1 & P2 & P3) H5 H6 H7 H8 H9] E EL EP ET EB.
  assert (forall l r, heap s' !! l = Some r -> exists r0, heap s !! l = Some r0 /\ geo r0 = geo r) as F by (intros; by apply (same_geo_lookup s s')).
  assert (forall l r, heap s !! l = Some r -> exists r0, heap s' !! l = Some r0 /\ geo r0 = geo r) as F' by (intros; by apply (same_geo_lookup s' s); [apply same_geo_sym|]).
  unfold geo in F, F'. split; rewrite ?EL, ?EP, ?ET, ?EB.
  - intros l r Hr. destruct (F _ _ Hr) as (r0 & Hr0 & [= E1 E2 E3 E4]). destruct (H1 _ _ Hr0) as [S1 S2 S3 S4]. split; congruence.
  - done.
  - intros l. rewrite H3. split; intros [r Hr]; [destruct (F' _ _ Hr) as (? & ? & _)|destruct (F _ _ Hr) as (? & ? & _)]; by eexists.
  - exists hd, rs. do 2 (split; [done|]). intros e. rewrite P3. split; intros (l & r & Hr & Hm); [destruct (F' _ _ Hr) as (r0 & Hr0 & [= E1 E2 E3 E4])|destruct (F _ _ Hr) as (r0 & Hr0 & [= E1 E2 E3 E4])]; exists l, r0; (split; [done|congruence]).
  - done.
  - intros l r Hr. destruct (F _ _ Hr) as (r0 & Hr0 & _). by eapply H6.
  - intros l r e Hr He. destruct (F _ _ Hr) as (r0 & Hr0 & [= E1 E2 E3 E4]). rewrite <- E1. eapply H7; [done|congruence].
  - intros l l' r r' e e' Hr Hr' He He'. destruct (F _ _ Hr) as (r0 & Hr0 & [= E1 E2 E3 E4]). destruct (F _ _ Hr') as (r1 & Hr1 & [= E1' E2' E3' E4']). eapply H8; [exact Hr0|exact Hr1|congruence..].
  - intros va p. rewrite H9. split; intros (l & r & e & i & Hr & Hm & Hp & Hv); [destruct (F' _ _ Hr) as (r0 & Hr0 & [= E1 E2 E3 E4])|destruct (F _ _ Hr) as (r0 & Hr0 & [= E1 E2 E3 E4])];
      exists l, r0, e, i; (split; [done|]); (split; [congruence|]); (split; [congruence|done]).
Qed.

Lemma live_geo s s' o : live s o -> same_geo s s' -> (forall l b, (l, b) ∈ frees o -> guarded <$> heap s' !! l = guarded <$> heap s !! l) -> live s' o.
Proof.
  intros [L1 L2 L3 L4] E Eg. assert (forall l r, heap s !! l = Some r -> exists r0, heap s' !! l = Some r0 /\ geo r0 = geo r) as F' by (intros; by apply (same_geo_lookup s' s); [apply same_geo_sym|]). unfold geo in F'. split.
  - intros [|l] sz Hin; specialize (L1 _ _ Hin); cbn in *; [done|]. destruct (heap s !! l) as [r|] eqn:Hr; [|done]. destruct (F' _ _ Hr) as (r0 & -> & [= E1 E2 E3 E4]). cbn in *. congruence.
  - intros l w Hin. destruct (L2 _ _ Hin) as (r & Hr & M1 & M2 & M3). destruct (F' _ _ Hr) as (r0 & Hr0 & [= E1 E2 E3 E4]). exists r0. repeat split; congruence.
  - intros l b Hin. destruct (L3 _ _ Hin) as (r & Hr & Hg). specialize (Eg _ _ Hin). rewrite Hr in Eg. destruct (heap s' !! l) as [r0|]; cbn in Eg; [|done]. injection Eg as Eg. exists r0. by split; [|congruence].
  - intros l Hin. destruct (L4 _ Hin) as [r Hr]. destruct (F' _ _ Hr) as (r0 & ? & _). by eexists.
Qed.

(** The sums when thread [t] changes what it owns. *)
Record same_at (l : Z) (o o' : own) : Prop := mk_same_at {
  sa_ref : nref (Reg l) o' = nref (Reg l) o; sa_map : nmap l o' = nmap l o; sa_free : nfree l o' = nfree l o;
  sa_unm : nunm l o' = nunm l o; sa_made : nmade l o' = nmade l o; sa_wts : nwts l o' = nwts l o }.

Lemma counts_same G t o o' l : G !! t = Some o -> same_at l o o' -> counts_of (<[t := o']> G) l = counts_of G l.
Proof. intros Ho []. unfold counts_of. by rewrite !(total_same _ G t o o'). Qed.

Lemma same_at_refl l o : same_at l o o. Proof. done. Qed.

Lemma insert_cases (G : list own) t o' t' x : <[t := o']> G !! t' = Some x -> (t' = t /\ x = o') \/ (t' <> t /\ G !! t' = Some x).
Proof. intros Hl. apply list_lookup_insert_Some in Hl as [(-> & -> & _)|[? ?]]; [by left|]. right. by split. Qed.

(** A step of thread [t] that leaves the waiting threads, the reserved memory and the running TAs alone. *)
Lemma inv_frame s s' G t o o' : inv s G -> G !! t = Some o -> t ∉ shm_cv s ->
  shm_cv s' = shm_cv s -> shm_refc s' = shm_refc s -> running s' = running s ->
  shm_release_waiters s' + Z.of_nat (nwait o) = shm_release_waiters s + Z.of_nat (nwait o') ->
  nref Shm o' = nref Shm o -> cur o' = cur o -> (owes o <= owes o')%nat ->
  mem_inv s' -> wf o' -> live s' o' ->
  (forall l r, heap s' !! l = Some r -> cnt_ok r (counts_of (<[t := o']> G) l)) ->
  (forall t' x, t' <> t -> G !! t' = Some x -> live s' x) ->
  (forall t' x l r, t' <> t -> G !! t' = Some x -> l ∈ wts x -> heap s !! l = Some r -> release_frees r = false ->
     (0 < owes o')%nat \/ exists r', heap s' !! l = Some r' /\ release_frees r' = false) ->
  inv s' (<[t := o']> G).
Proof.
  intros I Ht Hcv Ecv Eshm Erun Ewait Es Ec Eo Hm Hwf Hlv Hcnt Hoth Hfr. split.
  - done.
  - done.
  - intros t' x [[-> ->]|[_ ?]]%insert_cases; [done|]. by eapply i_wf.
  - intros t' x [[-> ->]|[? ?]]%insert_cases; [done|]. by eapply Hoth.
  - rewrite Eshm, (total_same _ G t o o') by done. apply I.
  - pose proof (i_wait _ _ I). pose proof (total_insert nwait G t o o' Ht). lia.
  - rewrite Ecv. intros t' Hin. destruct (i_cv _ _ I _ Hin) as (x & l & Hx & Ewt & En & D). assert (t' <> t) by congruence. exists x, l. rewrite list_lookup_insert_ne by done. do 3 (split; [done|]).
    pose proof (total_insert owes G t o o' Ht). pose proof (total_le owes (<[t := o']> G) t o' ltac:(apply list_lookup_insert_eq; by eapply lookup_lt_Some)).
    destruct D as [(r & Hr & E0)|D]; [|right; lia]. destruct (Hfr t' x l r) as [?|?]; [done|done|rewrite Ewt; by left|done|done|right; lia|by left].
  - intros t' p. rewrite Erun, (i_run _ _ I). split; intros (x & Hx & Ex).
    + destruct (decide (t' = t)) as [->|]; [exists o'; rewrite list_lookup_insert_eq by (by eapply lookup_lt_Some); split; [done|congruence]|exists x; by rewrite list_lookup_insert_ne].
    + apply insert_cases in Hx as [[-> ->]|[_ ?]]; [exists o; split; [done|congruence]|by exists x].
  - unfold lenZ. rewrite length_insert. apply I.
Qed.

(** A thread that frees an object is the only one that knows of it. *)
Lemma free_no_ref s G l r t x b : inv s G -> heap s !! l = Some r -> G !! t = Some x -> (l, b) ∈ frees x -> refc r = 0.
Proof.
  intros I Hr Hx Hb. pose proof (k_free _ _ (i_cnt _ _ I _ _ Hr)) as K. pose proof (total_le (nfree l) G t x Hx).
  assert (0 < nfree l x)%nat by (apply cnt_elem, list_elem_of_fmap; by exists (l, b)). cbn in K. destruct (refc r =? 0) eqn:E0; [lia|]. destruct (release_frees r); lia.
Qed.

(** Changes of one object that keep its place in memory. *)
Lemma inv_upd s G t o o' l r r' : inv s G -> G !! t = Some o -> t ∉ shm_cv s -> heap s !! l = Some r -> geo r' = geo r ->
  (forall l', l' <> l -> same_at l' o o') -> nref Shm o' = nref Shm o -> nwait o' = nwait o -> cur o' = cur o -> (owes o <= owes o')%nat ->
  (release_frees r' = true -> release_frees r = true \/ (0 < owes o')%nat) -> (guarded r' <> guarded r -> refc r <> 0) ->
  cnt_ok r' (counts_of (<[t := o']> G) l) -> wf o' -> live (set_heap (<[l := r']>) s) o' ->
  inv (set_heap (<[l := r']>) s) (<[t := o']> G).
Proof.
  intros I Ht Hcv Hr Eg Haway Es Ew Ec Eo Hf Hgd Hc Hwf Hlv. pose proof (same_geo_upd _ _ _ _ Hr Eg) as Gs.
  eapply inv_frame; try done.
  - cbn. lia.
  - by eapply mem_geo; [apply I|..].
  - cbn. intros l0 r0. destruct (decide (l0 = l)) as [->|Hne]; [rewrite lookup_insert_eq; by intros [= <-]|]. rewrite lookup_insert_ne by done. intros Hr0. rewrite (counts_same G t o) by auto. by apply I.
  - intros t' x Hne Hx. eapply live_geo; [by eapply i_live|done|]. intros l0 b Hb. cbn. destruct (decide (l0 = l)) as [->|]; [|by rewrite lookup_insert_ne].
    rewrite lookup_insert_eq, Hr. cbn. f_equal. destruct (decide (guarded r' = guarded r)) as [|N]; [done|]. pose proof (free_no_ref _ _ _ _ _ _ _ I Hr Hx Hb). by specialize (Hgd N).
  - intros t' x l0 r0 _ _ _ Hr0 E0. cbn. destruct (decide (l0 = l)) as [->|]; [|right; exists r0; by rewrite lookup_insert_ne]. rewrite lookup_insert_eq. destruct (release_frees r') eqn:E1; [|right; by exists r'].
    destruct (Hf eq_refl) as [?|?]; [congruence|by left].
Qed.

(** ** Runs of the basic operations *)

Lemma reg_run s l r : heap s !! l = Some r -> reg l s = (Ret r, s).
Proof. intros Hr. unfold reg, bind, get. by rewrite Hr. Qed.

Lemma upd_run s l r f : heap s !! l = Some r -> upd l f s = (Ret tt, set_heap (<[l := f r]>) s).
Proof. intros Hr. unfold upd, bind. by rewrite (reg_run s l r). Qed.

Lemma on_refc_run {A} s l r (m : M Z A) a v : heap s !! l = Some r -> m (refc r) = (Ret a, v) ->
  on_refc l m s = (Ret a, set_heap (<[l := set_refc v r]>) s).
Proof. intros Hr Em. unfold on_refc. rewrite (bind_run _ _ _ _ _ (reg_run s l r Hr)), Em. cbn. unfold bind. by rewrite (upd_run s l r). Qed.

Lemma on_mapcount_run {A} s l r (m : M Z A) a v : heap s !! l = Some r -> m (mapcount r) = (Ret a, v) ->
  on_mapcount l m s = (Ret a, set_heap (<[l := set_mapcount v r]>) s).
Proof. intros Hr Em. unfold on_mapcount. rewrite (bind_run _ _ _ _ _ (reg_run s l r Hr)), Em. cbn. unfold bind. by rewrite (upd_run s l r). Qed.

Lemma on_shm_run {A} s v (m : M Z A) a w : shm_refc s = Some v -> m v = (Ret a, w) -> on_shm m s = (Ret a, set_shm_refc (Some w) s).
Proof. intros Hr Em. unfold on_shm, bind, get, of_opt. rewrite Hr. cbn. by rewrite Em. Qed.

Lemma on_pool_run {A} s (m : M tee_mm_pool A) a p : m (core_virt_shm_pool s) = (Ret a, p) -> on_pool m s = (Ret a, set_pool p s).
Proof. intros Em. unfold on_pool, bind, get. by rewrite Em. Qed.

Lemma inc_zero : refcount_inc [] 0 = (Ret false, 0). Proof. done. Qed.

Lemma inc_run v : 0 < v < 2 ^ 32 - 1 -> refcount_inc [] v = (Ret true, v + 1).
Proof. intros Hv. rewrite refcount_inc_alone by lia. by rewrite uwrap_small by (unfold is_u; lia). Qed.

Lemma find_cookie_run s ck h : (forall l, l ∈ h -> is_Some (heap s !! l)) ->
  exists f, find_cookie ck h s = (Ret f, s) /\ forall l, f = Some l -> l ∈ h.
Proof.
  induction h as [|l h IH]; intros Hh; cbn [find_cookie]; [by exists None|]. destruct (Hh l) as [r Hr]; [by left|]. rewrite (bind_run _ _ _ _ _ (reg_run s l r Hr)).
  destruct (cookie r =? ck); [exists (Some l); split; [done|]; intros ? [= <-]; by left|]. destruct IH as (f & E & Hf); [intros; apply Hh; by right|]. exists f. split; [done|]. intros l0 Hl0. right. by apply Hf.
Qed.

(** ** Bounds of the counters *)

Lemma refs_bound s G p : inv s G -> Z.of_nat (total (nref p) G) <= 2 ^ 23.
Proof.
  intros I. pose proof (i_len _ _ I) as HL. unfold lenZ in HL. pose proof (total_bound (nref p) NREFS G) as B. rewrite Nat2Z.inj_le, Nat2Z.inj_mul in B. unfold NREFS in *. enough (Z.of_nat (total (nref p) G) <= 8 * Z.of_nat (length G)) by lia. apply B.
  intros t x Hx. unfold nref. etransitivity; [apply cnt_length|]. rewrite length_fmap. by eapply i_wf.
Qed.

Lemma maps_bound s G l : inv s G -> Z.of_nat (total (nmap l) G) <= 2 ^ 23.
Proof.
  intros I. pose proof (i_len _ _ I) as HL. unfold lenZ in HL. pose proof (total_bound (nmap l) NREFS G) as B. rewrite Nat2Z.inj_le, Nat2Z.inj_mul in B. unfold NREFS in *. enough (Z.of_nat (total (nmap l) G) <= 8 * Z.of_nat (length G)) by lia. apply B.
  intros t x Hx. unfold nmap. etransitivity; [apply cnt_length|]. rewrite length_fmap. by eapply i_wf.
Qed.

Lemma wait_bound s G : inv s G -> 0 <= shm_release_waiters s <= 2 ^ 20.
Proof.
  intros I. pose proof (i_len _ _ I) as HL. unfold lenZ in HL. pose proof (total_bound nwait 1 G (fun t x Hx => wf_nwait _ (i_wf _ _ I t x Hx))). rewrite (i_wait _ _ I). lia.
Qed.

Lemma refc_bound s G l r : inv s G -> heap s !! l = Some r -> 0 <= refc r <= 2 ^ 23 + 1 /\ 0 <= mapcount r <= 2 ^ 23 + 1.
Proof.
  intros I Hr. pose proof (refs_bound s G (Reg l) I). pose proof (maps_bound s G l I). destruct (i_cnt _ _ I _ _ Hr) as [K1 _ _ _ _ K2 _ _ _ _ _]. cbn in K1, K2. destruct (_ || _); lia.
Qed.

(** A reference keeps its object. *)
Lemma ref_live s G t o l : inv s G -> G !! t = Some o -> Reg l ∈ fst <$> refs o -> exists r, heap s !! l = Some r /\ 0 < refc r.
Proof.
  intros I Ht Hin. apply list_elem_of_fmap in Hin as ([p sz] & Ep & Hin). cbn in Ep. subst p. pose proof (li_refs _ _ (i_live _ _ I _ _ Ht) _ _ Hin) as E. cbn in E.
  destruct (heap s !! l) as [r|] eqn:Hr; [|done]. exists r. split; [done|]. pose proof (k_ref _ _ (i_cnt _ _ I _ _ Hr)) as K. cbn in K. pose proof (total_le (nref (Reg l)) G t o Ht).
  assert (0 < nref (Reg l) o)%nat by (apply cnt_elem, list_elem_of_fmap; by exists (Reg l, sz)). destruct (_ || _); lia.
Qed.

End Inv.

(** The six sums for object [l] when thread [t] goes from [o] to [o']. *)
Ltac sums l Ht o' :=
  match type of Ht with ?G !! ?t = Some ?o =>
    pose proof (total_insert (nref (Reg l)) G t o o' Ht); pose proof (total_insert (nmap l) G t o o' Ht);
    pose proof (total_insert (nfree l) G t o o' Ht); pose proof (total_insert (nunm l) G t o o' Ht);
    pose proof (total_insert (nmade l) G t o o' Ht); pose proof (total_insert (nwts l) G t o o' Ht)
  end.
