(* ===== verification/ShmMem.v ===== *)
(** * Shared memory: windows

    The operations of [Shm] that change what is mapped where keep [mem_inv]: a window of the core's
    address space belongs to one object and shows its pages. *)
From stdpp Require Import gmap.
From S2P Require Import Prelude TeeMm RecMutex Threads Shm ShmMsg ShmInv.
Local Open Scope Z_scope.

Section Mem.
Context `{PlatformOk}.

(** The rest of the state. *)
Record same_misc (s s' : state) : Prop := mk_same_misc {
  sm_wait : shm_release_waiters s' = shm_release_waiters s;
  sm_shm : shm_refc s' = shm_refc s;
  sm_cv : shm_cv s' = shm_cv s;
  sm_run : running s' = running s;
}.

(** ** Loops over pages *)

Lemma unmap_loop_run va n s : exists T, unmap_loop va n s = (Ret tt, set_table (fun _ => T) s) /\
  forall a p, T !! a = Some p <-> table s !! a = Some p /\ ~ exists i, (i < n)%nat /\ a = va + Z.of_nat i * SMALL_PAGE_SIZE.
Proof.
  revert va s. induction n as [|n IH]; intros va s; cbn [unmap_loop].
  - exists (table s). split; [by destruct s|]. intros a p. split; [|by intros []]. intros E. split; [done|]. intros (i & Hi & _). lia.
  - rewrite (bind_run _ _ _ tt (set_table (delete va) s)) by done. destruct (IH (va + SMALL_PAGE_SIZE) (set_table (delete va) s)) as (T & -> & HT). exists T. split; [done|]. intros a p. rewrite HT. cbn [table set_table]. rewrite lookup_delete_Some. unfold SMALL_PAGE_SIZE. split.
    + intros [[Hne E] Hn]. split; [done|]. intros ([|i] & Hi & ->); [lia|]. apply Hn. exists i. split; lia.
    + intros [E Hn]. split; [split; [|done]|]; [intros <-; apply Hn; exists 0%nat; lia|]. intros (i & Hi & ->). apply Hn. exists (S i). split; lia.
Qed.

Lemma map_loop_run v0 va ps s : Forall (fun p => Z.land p SMALL_PAGE_MASK = 0) ps ->
  (forall i, (i < length ps)%nat -> table s !! (va + Z.of_nat i * SMALL_PAGE_SIZE) = None) ->
  exists T, map_loop v0 va ps s = (Ret TEE_SUCCESS, set_table (fun _ => T) s) /\
    forall a p, T !! a = Some p <-> table s !! a = Some p \/ exists i, ps !! i = Some p /\ a = va + Z.of_nat i * SMALL_PAGE_SIZE.
Proof.
  revert va s. induction ps as [|q ps IH]; intros va s Ha Hn; cbn [map_loop].
  - exists (table s). split; [by destruct s|]. intros a p. split; [by left|]. by intros [|(i & ? & _)].
  - apply Forall_cons in Ha as [Hq Ha]. rewrite Hq. cbn [Z.eqb negb]. rewrite (bind_run _ _ _ s s) by done. pose proof (Hn 0%nat ltac:(cbn; lia)) as Hq0. rewrite Z.mul_0_l, Z.add_0_r in Hq0. rewrite Hq0. rewrite (bind_run _ _ _ tt (set_table (<[va := q]>) s)) by done.
    destruct (IH (va + SMALL_PAGE_SIZE) (set_table (<[va := q]>) s) Ha) as (T & -> & HT).
    { intros i Hi. cbn [table set_table]. rewrite lookup_insert_ne by (unfold SMALL_PAGE_SIZE; lia). specialize (Hn (S i) ltac:(cbn; lia)). rewrite <- Hn. f_equal. unfold SMALL_PAGE_SIZE. lia. }
    exists T. split; [done|]. intros a p. rewrite HT. cbn [table set_table]. rewrite lookup_insert_Some. unfold SMALL_PAGE_SIZE in *. split.
    + intros [[[<- <-]|[? ?]]|(i & Hi & ->)]; [right; exists 0%nat; split; [done|lia]|by left|right; exists (S i); split; [done|lia]].
    + intros [E|([|i] & Hi & ->)]; [left; right; split; [|done]; intros <-; congruence|left; left; split; [lia|cbn in Hi; congruence]|right; exists i; split; [done|lia]].
Qed.

(** ** Windows *)

Lemma win_entry s l r e : mem_inv s -> heap s !! l = Some r -> m_mm r = Some e -> exists head rest, pool_inv (core_virt_shm_pool s) head rest /\ e ∈ rest /\ entry_ok (core_virt_shm_pool s) e.
Proof.
  intros M Hr He. destruct (mi_pool _ M) as (hd & rs & P1 & _ & P3). exists hd, rs. assert (e ∈ rs) as Hin by (apply P3; by exists l, r). do 2 (split; [done|]). eapply inv_entry; [done|]. by right.
Qed.

Lemma smem_va s l r e : mem_inv s -> heap s !! l = Some r -> m_mm r = Some e ->
  tee_mm_get_smem (core_virt_shm_pool s) e = va_of (core_virt_shm_pool s) e 0 /\
  lo (core_virt_shm_pool s) <= va_of (core_virt_shm_pool s) e 0 /\ va_of (core_virt_shm_pool s) e (TeeMm.size e) <= lo (core_virt_shm_pool s) + psz (core_virt_shm_pool s).
Proof.
  intros M Hr He. destruct (win_entry _ _ _ _ M Hr He) as (hd & rs & P1 & _ & O). destruct (smem_bounds _ e (pi_geo _ _ _ P1) O) as (S1 & S2 & S3). destruct O as [O1 O2 O3].
  unfold va_of, SMALL_PAGE_SIZE. rewrite S1, S2 in S3. rewrite S1. rewrite !(po_shift _ (mi_pool_ok _ M)) in *. change (2 ^ 12) with 4096 in *. lia.
Qed.

Lemma windows_apart s l l' r r' e e' i j : mem_inv s -> l <> l' -> heap s !! l = Some r -> heap s !! l' = Some r' -> m_mm r = Some e -> m_mm r' = Some e' ->
  0 <= i < TeeMm.size e -> 0 <= j < TeeMm.size e' -> va_of (core_virt_shm_pool s) e i <> va_of (core_virt_shm_pool s) e' j.
Proof.
  intros M Hne Hr Hr' He He' Hi Hj. destruct (win_entry _ _ _ _ M Hr He) as (hd & rs & P1 & Hin & _). assert (e' ∈ rs) as Hin'.
  { destruct (mi_pool _ M) as (hd' & rs' & P1' & _ & P3). pose proof (pi_chain _ _ _ P1) as C. rewrite (pi_chain _ _ _ P1') in C. injection C as -> ->. apply P3. by exists l', r'. }
  assert (eid e <> eid e') as Hid by (intros E; apply Hne; by eapply mi_inj). destruct (inv_disjoint _ _ _ e e' P1 Hin Hin' Hid); unfold va_of, fin, SMALL_PAGE_SIZE in *; lia.
Qed.

(** ** Unmapping *)

Lemma unmap_helper_run s l r e : mem_inv s -> heap s !! l = Some r -> m_mm r = Some e ->
  exists s', reg_shm_unmap_helper l s = (Ret tt, s') /\ mem_inv s' /\ heap s' = <[l := set_mm None r]> (heap s) /\ reg_shm_list s' = reg_shm_list s /\ same_misc s s'.
Proof.
  intros M Hr He. destruct (win_entry _ _ _ _ M Hr He) as (hd & rs & P1 & Hin & O). destruct (smem_va _ _ _ _ M Hr He) as (Sm & _ & _). unfold reg_shm_unmap_helper. rewrite (bind_run _ _ _ _ _ (reg_run s l r Hr)), He, (bind_run _ _ _ s s) by done.
  rewrite (po_shift _ (mi_pool_ok _ M)). cbn [Z.eqb]. rewrite (bind_run _ _ _ tt s) by done. unfold core_mmu_unmap_pages.
  destruct (unmap_loop_run (tee_mm_get_smem (core_virt_shm_pool s) e) (Z.to_nat (TeeMm.size e)) s) as (T & ET & HT). rewrite (bind_run _ _ _ _ _ ET).
  destruct (free_entry _ _ _ _ P1 Hin) as (rs' & EF & P1' & Ers). rewrite (bind_run _ _ _ tt (set_pool (with_chain (core_virt_shm_pool s) (hd :: rs')) (set_table (fun _ => T) s))) by (by apply on_pool_run).
  rewrite (upd_run _ l r) by done. eexists. split; [done|]. split; [|by repeat split].
  destruct (mi_eid _ M _ _ _ Hr He) as [Hb Hsz]. assert (e ∉ rs') as Hnin.
  { pose proof (pi_nodup _ _ _ P1) as ND. rewrite fmap_cons, NoDup_cons, Ers, fmap_cons, NoDup_cons in ND. destruct ND as (_ & ND & _). intros C. apply ND. apply list_elem_of_fmap. by exists e. }
  assert (forall l' r' e', l' <> l -> heap s !! l' = Some r' -> m_mm r' = Some e' -> e' <> e) as Dist by (intros l' r' e' Hne Hr' He' ->; apply Hne; by eapply mi_inj).
  destruct (mi_pool _ M) as (hd2 & rs2 & P2 & Hhd & P3). pose proof (pi_chain _ _ _ P1) as C. rewrite (pi_chain _ _ _ P2) in C. injection C as -> ->. destruct (mi_pool_ok _ M) as [Q1 Q2 Q3].
  split; cbn [heap set_heap reg_shm_list core_virt_shm_pool set_pool set_table table brk].
  - intros l0 r0 [[-> <-]|[? Hr0]]%lookup_insert_Some; [destruct (mi_shape _ M _ _ Hr); by split|by eapply mi_shape].
  - apply M.
  - intros l0. rewrite (mi_listed _ M). destruct (decide (l0 = l)) as [->|]; [rewrite lookup_insert_eq, Hr; by split; eauto|by rewrite lookup_insert_ne].
  - exists hd, rs'. do 2 (split; [done|]). intros e0. split.
    + intros Hin0. assert (e0 ∈ rs) as Hin1 by (rewrite Ers; by right). apply P3 in Hin1 as (l0 & r0 & Hr0 & He0). exists l0, r0. split; [|done]. rewrite lookup_insert_ne; [done|]. intros <-. congruence.
    + intros (l0 & r0 & [[<- <-]|[Hne Hr0]]%lookup_insert_Some & He0); [done|]. assert (e0 ∈ rs) as Hin1 by (apply P3; by exists l0, r0). rewrite Ers in Hin1. apply elem_of_cons in Hin1 as [->|]; [|done]. by destruct (Dist l0 r0 e).
  - by split.
  - intros l0 r0 [[<- <-]|[? Hr0]]%lookup_insert_Some; by eapply mi_brk.
  - intros l0 r0 e0 [[<- <-]|[? Hr0]]%lookup_insert_Some ?; [done|by eapply mi_eid].
  - intros l0 l1 r0 r1 e0 e1 [[<- <-]|[? Hr0]]%lookup_insert_Some [[<- <-]|[? Hr1]]%lookup_insert_Some ? ?; try done. by eapply mi_inj.
  - intros a p. rewrite HT, (mi_table _ M), Sm. unfold va_of. cbn. split.
    + intros [(l0 & r0 & e0 & i & Hr0 & He0 & Hp & Hv) Hn]. exists l0, r0, e0, i. split; [|done]. rewrite lookup_insert_ne; [done|]. intros <-. simplify_eq. apply Hn. exists i. apply lookup_lt_Some in Hp. unfold lenZ in Hsz. split; [lia|unfold SMALL_PAGE_SIZE; lia].
    + intros (l0 & r0 & e0 & i & [[<- <-]|[Hne Hr0]]%lookup_insert_Some & He0 & Hp & Hv); [done|]. split; [by exists l0, r0, e0, i|]. intros (j & Hj & ->). destruct (mi_eid _ M _ _ _ Hr0 He0) as [_ Hsz0]. apply lookup_lt_Some in Hp. unfold lenZ in Hsz0.
      apply (windows_apart s l l0 r r0 e e0 (Z.of_nat j) (Z.of_nat i)); try done; [lia|lia|]. unfold va_of, SMALL_PAGE_SIZE in *. lia.
Qed.

(** ** Freeing an object *)

Lemma slist_remove_run l h : l ∈ h -> exists h', slist_remove l h = Some h' /\ h ≡ₚ l :: h'.
Proof.
  induction h as [|x h IH]; intros Hin; [by apply elem_of_nil in Hin|]. cbn [slist_remove]. destruct (x =? l) eqn:E; bool_hyps; [subst; by exists h|]. apply elem_of_cons in Hin as [->|Hin]; [done|]. destruct (IH Hin) as (h' & -> & Eh). exists (x :: h'). split; [done|]. rewrite Eh. constructor.
Qed.

Lemma mem_delete s l r h : mem_inv s -> heap s !! l = Some r -> m_mm r = None -> reg_shm_list s ≡ₚ l :: h -> mem_inv (set_heap (delete l) (set_list (fun _ => h) s)).
Proof.
  intros M Hr Hm Eh. pose proof (mi_list _ M) as ND. rewrite Eh in ND. apply NoDup_cons in ND as [Hl ND].
  assert (forall l0 r0, delete l (heap s) !! l0 = Some r0 -> l0 <> l /\ heap s !! l0 = Some r0) as F by (intros l0 r0 [? ?]%lookup_delete_Some; done). destruct (mi_pool_ok _ M) as [Q1 Q2 Q3].
  split; cbn [heap set_heap reg_shm_list set_list core_virt_shm_pool table brk].
  - intros l0 r0 [_ Hr0]%F. by eapply mi_shape.
  - done.
  - intros l0. pose proof (mi_listed _ M l0) as E. rewrite Eh, elem_of_cons in E. destruct (decide (l0 = l)) as [->|Hne]; [rewrite lookup_delete_eq; split; [done|by intros []]|]. rewrite lookup_delete_ne by done. rewrite <- E. naive_solver.
  - destruct (mi_pool _ M) as (hd & rs & P1 & P2 & P3). exists hd, rs. do 2 (split; [done|]). intros e. rewrite P3. split; intros (l0 & r0 & Hr0 & He0).
    + exists l0, r0. split; [|done]. rewrite lookup_delete_ne; [done|]. intros <-. congruence.
    + apply F in Hr0 as [_ Hr0]. by exists l0, r0.
  - by split.
  - intros l0 r0 [_ Hr0]%F. by eapply mi_brk.
  - intros l0 r0 e0 [_ Hr0]%F. by eapply mi_eid.
  - intros l0 l1 r0 r1 e0 e1 [_ Hr0]%F [_ Hr1]%F. by eapply mi_inj.
  - intros a p. rewrite (mi_table _ M). split; intros (l0 & r0 & e0 & i & Hr0 & He0 & Hp & Hv); exists l0, r0, e0, i; (split; [|done]).
    + rewrite lookup_delete_ne; [done|]. intros <-. congruence.
    + by apply F in Hr0 as [_ ?].
Qed.

Lemma free_helper_run s l r : mem_inv s -> heap s !! l = Some r ->
  exists s', reg_shm_free_helper l s = (Ret tt, s') /\ mem_inv s' /\ heap s' = delete l (heap s) /\ same_misc s s'.
Proof.
  intros M Hr. unfold reg_shm_free_helper. rewrite (bind_run _ _ _ _ _ (reg_run s l r Hr)).
  assert (exists s1 r1, (match m_mm r with Some _ => reg_shm_unmap_helper l | None => ret tt end) s = (Ret tt, s1) /\ mem_inv s1 /\ heap s1 !! l = Some r1 /\ m_mm r1 = None /\ delete l (heap s1) = delete l (heap s) /\ reg_shm_list s1 = reg_shm_list s /\ same_misc s s1) as (s1 & r1 & E1 & M1 & Hr1 & Hm1 & Ed & El & Sm).
  { destruct (m_mm r) as [e|] eqn:He; [|exists s, r; do 6 (split; [done|]); done]. destruct (unmap_helper_run s l r e M Hr He) as (s1 & E1 & M1 & Eh & El & Sm). exists s1, (set_mm None r). do 2 (split; [done|]). rewrite Eh. rewrite lookup_insert_eq, delete_insert_eq. do 4 (split; [done|]). done. }
  rewrite (bind_run _ _ _ _ _ E1), (bind_run _ _ _ s1 s1) by done. destruct (slist_remove_run l (reg_shm_list s1)) as (h & Eh & Ph); [rewrite (mi_listed _ M1); by exists r1|]. rewrite Eh. rewrite (bind_run _ _ _ h s1) by done. rewrite (bind_run _ _ _ tt (set_list (fun _ => h) s1)) by done.
  eexists. split; [done|]. split; [by eapply mem_delete|]. split; [done|]. destruct Sm. by split.
Qed.

(** ** Allocation *)

Lemma malloc_run n s : exists a b, malloc n s = (Ret a, set_alloc (tl (faults s)) b s) /\ brk s <= b /\ (forall l, a = Some l -> l = brk s /\ b = brk s + 1 /\ n <= CFG_CORE_HEAP_SIZE).
Proof.
  unfold malloc, bind, get. destruct (CFG_CORE_HEAP_SIZE <? n) eqn:E; cbn [orb].
  - exists None, (brk s). split; [done|]. split; [lia|done].
  - bool_hyps. destruct (match faults s with b :: _ => b | [] => false end); [exists None, (brk s); split; [done|]; split; [lia|done]|]. exists (Some (brk s)), (brk s + 1). split; [done|]. split; [lia|]. intros l [= <-]. split; [done|]. split; [done|lia].
Qed.

Lemma mem_brk s f b : mem_inv s -> brk s <= b -> mem_inv (set_alloc f b s).
Proof.
  intros [H1 H2 H3 (hd & rs & P1 & P2 & P3) H5 H6 H7 H8 H9] Hb. split; cbn; try done.
  - exists hd, rs. split; [done|]. split; [lia|done].
  - intros l r Hr. specialize (H6 _ _ Hr). lia.
  - intros l r e Hr He. destruct (H7 _ _ _ Hr He). split; [lia|done].
Qed.

(** A new object. *)
Lemma mem_insert s l r : mem_inv s -> heap s !! l = None -> l < brk s -> shape r -> m_mm r = None -> mem_inv (set_list (cons l) (set_heap (<[l := r]>) s)).
Proof.
  intros M Hn Hb Hs Hm. destruct (mi_pool_ok _ M) as [Q1 Q2 Q3].
  assert (forall l0 r0 e0, <[l := r]> (heap s) !! l0 = Some r0 -> m_mm r0 = Some e0 -> heap s !! l0 = Some r0) as F by (intros l0 r0 e0 [[_ <-]|[_ ?]]%lookup_insert_Some ?; [congruence|done]).
  assert (forall l0 r0, heap s !! l0 = Some r0 -> <[l := r]> (heap s) !! l0 = Some r0) as F' by (intros l0 r0 Hr0; rewrite lookup_insert_ne; [done|congruence]).
  split; cbn [heap set_heap reg_shm_list set_list core_virt_shm_pool table brk].
  - intros l0 r0 [[_ <-]|[_ Hr0]]%lookup_insert_Some; [done|by eapply mi_shape].
  - apply NoDup_cons. split; [|apply M]. rewrite (mi_listed _ M), Hn. by intros [].
  - intros l0. rewrite elem_of_cons, (mi_listed _ M). destruct (decide (l0 = l)) as [->|]; [rewrite lookup_insert_eq; split; [eauto|by left]|]. rewrite lookup_insert_ne by done. naive_solver.
  - destruct (mi_pool _ M) as (hd & rs & P1 & P2 & P3). exists hd, rs. do 2 (split; [done|]). intros e. rewrite P3. split; intros (l0 & r0 & Hr0 & He0); exists l0, r0; eauto.
  - by split.
  - intros l0 r0 [[<- <-]|[_ Hr0]]%lookup_insert_Some; [done|by eapply mi_brk].
  - intros l0 r0 e0 Hr0 He0. eapply mi_eid; eauto.
  - intros l0 l1 r0 r1 e0 e1 Hr0 Hr1 He0 He1. eapply (mi_inj _ M); eauto.
  - intros a p. rewrite (mi_table _ M). split; intros (l0 & r0 & e0 & i & Hr0 & He0 & Hp & Hv); exists l0, r0, e0, i; eauto.
Qed.

(** ** Mapping *)

Lemma roundup_pages n off : 0 < n <= CFG_CORE_HEAP_SIZE -> 0 <= off < SMALL_PAGE_SIZE ->
  ROUNDUP (u64 (n * SMALL_PAGE_SIZE - off + off)) SMALL_PAGE_SIZE = n * SMALL_PAGE_SIZE.
Proof.
  unfold ROUNDUP, CFG_CORE_HEAP_SIZE, SMALL_PAGE_SIZE. intros Hn Ho. rewrite (uwrap_small 64 (n * 4096 - off + off)) by (unfold is_u; lia). rewrite (uwrap_small 64 (n * 4096 - off + off + 4096 - 1)) by (unfold is_u; lia).
  replace (n * 4096 - off + off + 4096 - 1) with (4095 + n * 4096) by lia. rewrite Z.div_add, (Z.div_small 4095) by lia. apply uwrap_small. unfold is_u. lia.
Qed.

Lemma blocks_pages p n : TeeMm.shift p = 12 -> 0 < n -> blocks p (n * SMALL_PAGE_SIZE) = n.
Proof.
  intros Hs Hn. unfold blocks, SMALL_PAGE_SIZE. rewrite (proj2 (Z.eqb_neq _ _)) by lia. rewrite Hs, Z.shiftr_div_pow2 by lia. change (2 ^ 12) with 4096. replace (n * 4096 - 1) with (4095 + (n - 1) * 4096) by lia. rewrite Z.div_add, (Z.div_small 4095) by lia. lia.
Qed.

Lemma land_page v : Z.land v SMALL_PAGE_MASK = v mod SMALL_PAGE_SIZE.
Proof. unfold SMALL_PAGE_MASK, SMALL_PAGE_SIZE. change 4095 with (Z.ones 12). by rewrite Z.land_ones. Qed.

(** The state with a new window [e] that shows the pages of object [l]. *)
Lemma mem_map s l r hd rs rs' e T : mem_inv s -> heap s !! l = Some r -> m_mm r = None -> pool_inv (core_virt_shm_pool s) hd rs ->
  pool_inv (with_chain (core_virt_shm_pool s) (hd :: rs')) hd rs' -> (forall x, x ∈ rs' <-> x = e \/ x ∈ rs) -> e ∉ rs ->
  eid e < brk s -> (forall x, x ∈ rs -> eid x <> eid e) -> TeeMm.size e = lenZ (pages r) ->
  (forall a p, T !! a = Some p <-> table s !! a = Some p \/ exists i, pages r !! i = Some p /\ a = va_of (core_virt_shm_pool s) e (Z.of_nat i)) ->
  mem_inv (set_table (fun _ => T) (set_heap (<[l := set_mm (Some e) r]>) (set_pool (with_chain (core_virt_shm_pool s) (hd :: rs')) s))).
Proof.
  intros M Hr Hm P1 P1' Hin Hnin Hid Hne Hsz HT. destruct (mi_pool _ M) as (hd2 & rs2 & P2 & Hhd & P3). pose proof (pi_chain _ _ _ P1) as C. rewrite (pi_chain _ _ _ P2) in C. injection C as -> ->. destruct (mi_pool_ok _ M) as [Q1 Q2 Q3].
  assert (forall l0 r0 e0, heap s !! l0 = Some r0 -> m_mm r0 = Some e0 -> l0 <> l /\ e0 ∈ rs) as F by (intros l0 r0 e0 Hr0 He0; split; [congruence|apply P3; by exists l0, r0]).
  split; cbn [heap set_heap reg_shm_list core_virt_shm_pool set_pool set_table table brk].
  - intros l0 r0 [[-> <-]|[? Hr0]]%lookup_insert_Some; [destruct (mi_shape _ M _ _ Hr); by split|by eapply mi_shape].
  - apply M.
  - intros l0. rewrite (mi_listed _ M). destruct (decide (l0 = l)) as [->|]; [rewrite lookup_insert_eq, Hr; by split; eauto|by rewrite lookup_insert_ne].
  - exists hd, rs'. do 2 (split; [done|]). intros e0. rewrite Hin. split.
    + intros [->|Hin0]; [exists l, (set_mm (Some e) r); by rewrite lookup_insert_eq|]. apply P3 in Hin0 as (l0 & r0 & Hr0 & He0). exists l0, r0. split; [|done]. rewrite lookup_insert_ne; [done|]. by destruct (F _ _ _ Hr0 He0).
    + intros (l0 & r0 & [[<- <-]|[? Hr0]]%lookup_insert_Some & He0); [left; by injection He0|right; by eapply F].
  - by split.
  - intros l0 r0 [[<- <-]|[? Hr0]]%lookup_insert_Some; by eapply mi_brk.
  - intros l0 r0 e0 [[<- <-]|[? Hr0]]%lookup_insert_Some He0; [injection He0 as <-; by split|by eapply mi_eid].
  - intros l0 l1 r0 r1 e0 e1 [[<- <-]|[? Hr0]]%lookup_insert_Some [[<- <-]|[? Hr1]]%lookup_insert_Some He0 He1 E; [done| | |by eapply mi_inj].
    + injection He0 as <-. destruct (F _ _ _ Hr1 He1) as [_ Hi]. by destruct (Hne e1 Hi).
    + injection He1 as <-. destruct (F _ _ _ Hr0 He0) as [_ Hi]. by destruct (Hne e0 Hi).
  - intros a p. rewrite HT, (mi_table _ M). unfold va_of. cbn. split.
    + intros [(l0 & r0 & e0 & i & Hr0 & He0 & Hp & Hv)|(i & Hp & Hv)]; [exists l0, r0, e0, i; split; [|done]; rewrite lookup_insert_ne; [done|]; by destruct (F _ _ _ Hr0 He0)|]. exists l, (set_mm (Some e) r), e, i. by rewrite lookup_insert_eq.
    + intros (l0 & r0 & e0 & i & [[<- <-]|[? Hr0]]%lookup_insert_Some & He0 & Hp & Hv); [injection He0 as <-; right; by exists i|left; by exists l0, r0, e0, i].
Qed.

Lemma map_window_run s l r : mem_inv s -> heap s !! l = Some r ->
  exists res s' e, map_window l s = (Ret res, s') /\ mem_inv s' /\ heap s' = <[l := set_mm e r]> (heap s) /\ same_misc s s' /\
    (is_Some (m_mm r) -> e = m_mm r) /\ (res = TEE_SUCCESS -> is_Some e) /\ (res <> TEE_SUCCESS -> e = m_mm r).
Proof.
  intros M Hr. unfold map_window. rewrite (bind_run _ _ _ _ _ (reg_run s l r Hr)).
  assert (set_mm (m_mm r) r = r) as Er by (by destruct r). destruct (m_mm r) as [e|] eqn:He.
  { exists TEE_SUCCESS, s, (Some e). rewrite Er, insert_id by done. do 3 (split; [done|]). by repeat split. }
  destruct (mi_shape _ M _ _ Hr) as [S1 S2 S3 S4]. rewrite S4, roundup_pages by done. destruct (malloc_run 24 s) as (a & b & Em & Hb & Ha). rewrite (bind_run _ _ _ _ _ Em). set (s1 := set_alloc (tl (faults s)) b s).
  assert (mem_inv s1) as M1 by (by apply mem_brk). destruct (mi_pool _ M1) as (hd & rs & P1 & Hhd & P3).
  assert (is_u 64 (lenZ (pages r) * SMALL_PAGE_SIZE)) as Hu by (unfold is_u, CFG_CORE_HEAP_SIZE, SMALL_PAGE_SIZE in *; lia).
  assert (forall x, x ∈ rs -> eid x < brk s) as Hold by (intros x Hx; apply P3 in Hx as (l0 & r0 & Hr0 & He0); by apply (mi_eid _ M _ _ _ Hr0 He0)).
  assert (eid hd < brk s) as Hhd0. { destruct (mi_pool _ M) as (hd2 & rs2 & P2 & H2 & _). pose proof (pi_chain _ _ _ P1) as C. cbn in C. rewrite (pi_chain _ _ _ P2) in C. by injection C as -> _. }
  assert (exists res s', TEE_ERROR_OUT_OF_MEMORY = res /\ s' = s1 /\ mem_inv s' /\ heap s' = <[l := set_mm None r]> (heap s) /\ same_misc s s') as (res0 & s0 & Eres0 & Es0 & Ms0 & Hh0 & Sm0). { exists TEE_ERROR_OUT_OF_MEMORY, s1. do 3 (split; [done|]). split; [by rewrite Er, insert_id|by repeat split]. }
  destruct a as [a|].
  2:{ rewrite (bind_run _ _ _ None s1); [exists res0, s0, None; subst; do 4 (split; [done|]); split; [done|]; split; [intros E; discriminate E|done]|]. unfold on_pool, bind, get, tee_mm_alloc, tee_mm_alloc_flags, TeeMm.P, bind, get. cbn. pose proof (pi_chain _ _ _ P1) as C. cbn in C. rewrite C. by destruct s. }
  destruct (Ha a eq_refl) as (-> & -> & _).
  destruct (alloc_run (core_virt_shm_pool s1) hd rs (brk s) _ P1 Hu) as [[N _]|(e & rs' & EA & Eid & Esz & P1' & Hin & Hdis)].
  { rewrite list_elem_of_fmap. intros (x & Ex & Hx). apply elem_of_cons in Hx as [->|Hx]; [lia|]. specialize (Hold x Hx). lia. }
  { rewrite (bind_run _ _ _ None s1); [exists res0, s0, None; subst; do 4 (split; [done|]); split; [done|]; split; [intros E; discriminate E|done]|]. rewrite (on_pool_run _ _ _ _ N). by destruct s. }
  rewrite (bind_run _ _ _ _ _ (on_pool_run _ _ _ _ EA)). set (s2 := set_pool (with_chain (core_virt_shm_pool s1) (hd :: rs')) s1).
  rewrite (bind_run _ _ _ _ _ (upd_run s2 l r (set_mm (Some e)) Hr)). set (s3 := set_heap (<[l := set_mm (Some e) r]>) s2). rewrite (bind_run _ _ _ s3 s3) by done.
  pose proof (mi_pool_ok _ M) as [Q1 Q2 Q3]. rewrite blocks_pages in Esz by (done || lia). rewrite Z.div_mul by done. rewrite take_ge by (unfold lenZ; lia).
  assert (e ∈ rs') as Hine by (apply Hin; by left). destruct (inv_entry _ _ _ e P1' ltac:(by right)) as [O1 O2 O3].
  destruct (smem_bounds _ e (pi_geo _ _ _ P1') ltac:(by split)) as (B1 & B2 & B3). cbn [core_virt_shm_pool s3 s2 set_heap set_pool].
  assert (tee_mm_get_smem (with_chain (core_virt_shm_pool s1) (hd :: rs')) e = va_of (core_virt_shm_pool s) e 0) as EV by (rewrite B1; unfold va_of, SMALL_PAGE_SIZE; cbn; rewrite Q1; lia).
  rewrite B2, EV, Esz in B3. cbn [lo psz TeeMm.shift with_chain core_virt_shm_pool s1 set_alloc] in B3. rewrite Q1 in B3. change (2 ^ 12) with 4096 in B3. rewrite EV.
  assert (forall i, (i < length (pages r))%nat -> table s3 !! (va_of (core_virt_shm_pool s) e 0 + Z.of_nat i * SMALL_PAGE_SIZE) = None) as Hfree.
  { intros i Hi. cbn. destruct (table s !! _) as [q|] eqn:Eq; [|done]. apply (mi_table _ M) in Eq as (l0 & r0 & e0 & j & Hr0 & He0 & Hp & Hv). destruct (mi_eid _ M _ _ _ Hr0 He0) as [_ Hs0]. apply lookup_lt_Some in Hp.
    destruct (Hdis e0 ltac:(apply P3; by exists l0, r0)); unfold va_of, fin, SMALL_PAGE_SIZE, lenZ in *; lia. }
  destruct (map_loop_run (va_of (core_virt_shm_pool s) e 0) (va_of (core_virt_shm_pool s) e 0) (pages r) s3) as (T & ET & HT); [by eapply Forall_impl; [exact S1|]; intros q (_ & ? & _)|done|].
  rewrite (bind_run _ _ _ TEE_SUCCESS (set_table (fun _ => T) s3)).
  2:{ unfold core_mmu_map_pages. rewrite land_page. assert (va_of (core_virt_shm_pool s) e 0 mod SMALL_PAGE_SIZE = 0) as -> by (unfold va_of; rewrite Q2, Z.mod_add by done; apply p_vaspace). cbn [Z.eqb negb]. rewrite (bind_run _ _ _ s3 s3) by done. cbn [core_virt_shm_pool s3 s2 set_heap set_pool s1 set_alloc lo psz with_chain].
      assert (lo (core_virt_shm_pool s) <= va_of (core_virt_shm_pool s) e 0) by (unfold va_of, SMALL_PAGE_SIZE; lia). rewrite !(proj2 (Z.leb_le _ _)) by (unfold SMALL_PAGE_SIZE; lia). cbn [andb negb]. exact ET. }
  cbn [Z.eqb TEE_SUCCESS]. eexists TEE_SUCCESS, _, (Some e). split; [done|]. split; [|split; [done|]; split; [by split|]; split; [by intros [? ?]|]; by split; [eauto|]].
  apply (mem_map s1 l r hd rs rs' e T); try done.
  - intros C. apply Hold in C. lia.
  - cbn. lia.
  - intros x Hx. apply Hold in Hx. lia.
  - intros q p. rewrite HT. cbn [table s3 s2 set_heap set_pool s1 set_alloc core_virt_shm_pool]. unfold va_of. split; (intros [?|(i & ? & ->)]; [by left|right; exists i; split; [done|unfold SMALL_PAGE_SIZE; lia]]).
Qed.
End Mem.
