(* ===== verification/ShmObj.v ===== *)
(** * Shared memory: references and releases

    The operations of [Shm] on reference counts, flags and the list, in the logic of [ShmInv]. *)
From stdpp Require Import gmap.
From S2P Require Import Prelude TeeMm RecMutex Threads Shm ShmMsg ShmInv ShmMem.
Local Open Scope Z_scope.

Section Obj.
Context `{PlatformOk}.

(** ** Putting a reference *)

(** A reference to [l] is given up; its maker also gives up what it knows, with the mapping that it
    leaves to the object or without. *)
Record drops (l : Z) (o o' : own) : Prop := mk_drops {
  dr_refs : exists sz, refs o ≡ₚ (Reg l, sz) :: refs o';
  dr_frees : frees o' = frees o;
  dr_unms : unms o' = unms o;
  dr_wts : wts o' = wts o;
  dr_nwait : nwait o' = nwait o;
  dr_owes : owes o' = owes o;
  dr_cur : cur o' = cur o;
  dr_maps : (maps o' = maps o /\ (made o' = made o \/ made o ≡ₚ l :: made o')) \/ exists w, maps o ≡ₚ (l, w) :: maps o' /\ made o ≡ₚ l :: made o';
}.

Lemma drops_same l o o' : drops l o o' -> forall l', l' <> l -> same_at l' o o'.
Proof.
  intros [[sz E1] E2 E3 E4 E5 E6 E7 E8] l' Hne. split; unfold nref, nmap, nfree, nunm, nmade, nwts; rewrite ?E2, ?E3, ?E4; try done.
  - rewrite (cnt_fmap_perm fst _ _ _ E1). cbn. rewrite cnt_cons. by rewrite decide_False by congruence.
  - destruct E8 as [[-> _]|(w & E8 & _)]; [done|]. rewrite (cnt_fmap_perm fst _ _ _ E8). cbn. rewrite cnt_cons. by rewrite decide_False by congruence.
  - destruct E8 as [[_ [->|E8]]|(w & _ & E8)]; [done|..]; rewrite (cnt_perm _ _ _ E8), cnt_cons; by rewrite decide_False by congruence.
Qed.

Lemma drops_at l o o' : drops l o o' -> nref (Reg l) o = S (nref (Reg l) o') /\ nref Shm o' = nref Shm o /\
  ((nmap l o' = nmap l o /\ (nmade l o' <= nmade l o)%nat) \/ (nmap l o = S (nmap l o') /\ nmade l o = S (nmade l o'))).
Proof.
  intros [[sz E1] _ _ _ _ _ _ E8]. unfold nref, nmap, nmade. rewrite !(cnt_fmap_perm fst _ _ _ E1). cbn. rewrite !cnt_cons, decide_True, decide_False by done. split; [lia|]. split; [lia|].
  destruct E8 as [[-> [->|Ed]]|(w & Em & Ed)]; [by left|left; rewrite (cnt_perm _ _ _ Ed), cnt_cons; split; [done|lia]|right]. rewrite (cnt_fmap_perm fst _ _ _ Em), (cnt_perm _ _ _ Ed). cbn. rewrite !cnt_cons, decide_True by done. lia.
Qed.

Lemma dec_refc_ok t o o' l : wf o' -> drops l o o' ->
  ok t o (section (on_refc l (refcount_dec []))) (fun z o1 => if z : bool then exists b, o1 = o_frees ((l, b) :: frees o) o' else o1 = o').
Proof.
  intros Hwf D. apply ok_sect. intros s G I Ht Hcv. destruct (dr_refs _ _ _ D) as [sz Er].
  destruct (ref_live s G t o l I Ht) as (r & Hr & Hpos); [rewrite Er; by left|]. pose proof (refc_bound _ _ _ _ I Hr) as [Bd _].
  rewrite (on_refc_run s l r _ _ _ Hr (refcount_dec_alone (refc r) ltac:(lia))). pose proof (i_cnt _ _ I _ _ Hr) as K.
  set (o1 := if refc r =? 1 then o_frees ((l, guarded r) :: frees o) o' else o'). exists o1. split; [|by unfold o1; destruct (refc r =? 1); eauto].
  destruct (drops_at _ _ _ D) as (N1 & N2 & N3). pose proof (drops_same _ _ _ D) as Sm. pose proof D as [_ D2 D3 D4 D5 D6 D7 _].
  assert (refs o1 = refs o' /\ maps o1 = maps o' /\ unms o1 = unms o' /\ made o1 = made o' /\ wts o1 = wts o' /\ nwait o1 = nwait o' /\ owes o1 = owes o' /\ cur o1 = cur o') as (O1 & O2 & O3 & O4 & O5 & O6 & O7 & O8) by (unfold o1; by destruct (refc r =? 1)).
  assert (nfree l o1 = (nfree l o + if (refc r =? 1)%Z then 1 else 0)%nat) as N4. { unfold o1, nfree. destruct (refc r =? 1); cbn; [rewrite cnt_cons, decide_True by done; lia|rewrite D2; lia]. }
  eapply inv_upd; try done.
  - intros l' Hne. destruct (Sm l' Hne). split; unfold nref, nmap, nunm, nmade, nwts in *; rewrite ?O1, ?O2, ?O3, ?O4, ?O5; try done. unfold nfree, o1. destruct (refc r =? 1); cbn; [by rewrite cnt_cons, decide_False by congruence|by rewrite D2].
  - unfold nref in *. by rewrite O1.
  - congruence.
  - congruence.
  - rewrite O7, D6. lia.
  - cbn. by left.
  - sums l Ht o1. assert (nref (Reg l) o1 = nref (Reg l) o' /\ nmap l o1 = nmap l o' /\ nmade l o1 = nmade l o' /\ nunm l o1 = nunm l o /\ nwts l o1 = nwts l o) as (Z1 & Z2 & Z3 & Z4 & Z5) by (unfold nref, nmap, nmade, nunm, nwts; by rewrite O1, O2, O3, O4, O5, D3, D4).
    pose proof (total_le (nmade l) G t o Ht). destruct K as [K1 K2 K3 K4 K5 K6 K7 K8 K9 K10 K11]. cbn in K1, K2, K4, K6, K7, K8, K9, K11. split; cbn; try done.
    + destruct (guarded r), (releasing r); cbn in *; lia.
    + destruct (release_frees r), (refc r =? 1) eqn:E1, (refc r - 1 =? 0) eqn:E2, (refc r =? 0) eqn:E3; lia.
    + destruct (releasing r); lia.
    + destruct N3 as [[? ?]|[? ?]]; [lia|]. pose proof (K7 ltac:(right; lia)). lia.
    + intros D0. destruct N3 as [[? ?]|[? ?]]; [rewrite K7; [lia|destruct D0; [by left|right; lia]]|]. destruct D0 as [D0|D0]; [|lia]. rewrite K9 in D0 by lia. done.
    + lia.
    + intros. apply K9. lia.
    + intros Hs Hz. specialize (K11 Hs Hz). lia.
  - destruct Hwf as [W1 W2 W3 W4 W5 W5' W6]. split; rewrite ?O1, ?O2, ?O3, ?O4, ?O6, ?O8; try done. intros p Hp n m Hm. specialize (W6 p Hp n m Hm). unfold mem_ok in *. by rewrite O1.
  - pose proof (i_live _ _ I _ _ Ht) as Lv. assert (live s o1) as Lv1.
    { destruct Lv as [L1 L2 L3 L4]. split; rewrite ?O1, ?O2, ?O5.
      - intros p z Hin. apply L1. rewrite Er. by right.
      - intros l0 w Hin. apply L2. destruct (dr_maps _ _ _ D) as [[<- _]|(w0 & -> & _)]; [done|by right].
      - unfold o1. destruct (refc r =? 1); cbn; [|rewrite D2; apply L3]. intros l0 b [[= -> ->]|Hin]%elem_of_cons; [by exists r|by apply L3].
      - rewrite D4. apply L4. }
    eapply live_geo; [exact Lv1|by eapply same_geo_upd|]. intros l0 b _. cbn. destruct (decide (l0 = l)) as [->|]; [by rewrite lookup_insert_eq, Hr|by rewrite lookup_insert_ne].
Qed.

(** ** Changes that do not matter *)

Lemma wf_same o o' : refs o' = refs o -> maps o' = maps o -> unms o' = unms o -> made o' = made o -> cur o' = cur o -> nwait o' = nwait o -> wf o -> wf o'.
Proof. intros E1 E2 E3 E4 E5 E6 [W1 W2 W3 W4 W5 W5' W6]. split; rewrite ?E1, ?E2, ?E3, ?E4, ?E5, ?E6; try done. intros p Hp n m Hm. specialize (W6 p Hp n m Hm). unfold mem_ok in *. by rewrite E1. Qed.

Lemma live_sub s o o' : live s o -> (forall x, x ∈ refs o' -> x ∈ refs o) -> (forall x, x ∈ maps o' -> x ∈ maps o) -> (forall x, x ∈ frees o' -> x ∈ frees o) -> (forall x, x ∈ wts o' -> x ∈ wts o) -> live s o'.
Proof. intros [L1 L2 L3 L4] F1 F2 F3 F4. split; eauto. Qed.

(** [live] depends on the objects only. *)
Lemma live_heap s s' o : live s o -> heap s' = heap s -> live s' o.
Proof. intros [L1 L2 L3 L4] E. split; unfold size_of, wf_win in *; rewrite ?E; done. Qed.

Lemma mem_misc s s' : mem_inv s -> heap s' = heap s -> reg_shm_list s' = reg_shm_list s -> core_virt_shm_pool s' = core_virt_shm_pool s -> table s' = table s -> brk s' = brk s -> mem_inv s'.
Proof. intros M E1 E2 E3 E4 E5. eapply mem_geo; try done. intros l. by rewrite E1. Qed.

(** ** The last reference is put *)

Lemma live_delete s s' x l : live s x -> heap s' = delete l (heap s) -> nref (Reg l) x = 0%nat -> nmap l x = 0%nat -> nfree l x = 0%nat -> nwts l x = 0%nat -> live s' x.
Proof.
  intros [L1 L2 L3 L4] E N1%cnt_zero N2%cnt_zero N3%cnt_zero N4%cnt_zero. rewrite !list_elem_of_fmap in *. split; unfold size_of, wf_win; rewrite E.
  - intros [|l0] sz Hin; specialize (L1 _ _ Hin); [done|]. destruct (decide (l0 = l)) as [->|]; [|by rewrite lookup_delete_ne]. destruct N1. by exists (Reg l, sz).
  - intros l0 w Hin. destruct (L2 _ _ Hin) as (r & Hr & ?). exists r. split; [|done]. rewrite lookup_delete_ne; [done|]. intros ->. apply N2. by exists (l0, w).
  - intros l0 b Hin. destruct (L3 _ _ Hin) as (r & Hr & ?). exists r. split; [|done]. rewrite lookup_delete_ne; [done|]. intros ->. apply N3. by exists (l0, b).
  - intros l0 Hin. rewrite lookup_delete_ne; [by apply L4|]. congruence.
Qed.

Lemma inv_delete s s' G t o o' l r : inv s G -> G !! t = Some o -> t ∉ shm_cv s -> heap s !! l = Some r ->
  mem_inv s' -> heap s' = delete l (heap s) -> shm_cv s' = shm_cv s -> shm_refc s' = shm_refc s -> running s' = running s ->
  shm_release_waiters s' + Z.of_nat (nwait o) = shm_release_waiters s + Z.of_nat (nwait o') ->
  nref Shm o' = nref Shm o -> cur o' = cur o -> (owes o <= owes o')%nat -> wf o' -> live s o' -> (forall l', l' <> l -> same_at l' o o') ->
  total (nref (Reg l)) (<[t := o']> G) = 0%nat -> total (nfree l) (<[t := o']> G) = 0%nat -> total (nwts l) (<[t := o']> G) = 0%nat ->
  inv s' (<[t := o']> G).
Proof.
  intros I Ht Hcv Hr M' Eh Ecv Eshm Erun Ew Es Ec Eo Hwf Hlv Sm T1 T2 T3.
  assert (forall t' x, <[t := o']> G !! t' = Some x -> wf x -> nref (Reg l) x = 0%nat /\ nmap l x = 0%nat /\ nfree l x = 0%nat /\ nwts l x = 0%nat) as N.
  { intros t' x Hx Hw. pose proof (total_le (nref (Reg l)) _ _ _ Hx). pose proof (total_le (nfree l) _ _ _ Hx). pose proof (total_le (nwts l) _ _ _ Hx). split; [lia|]. split; [|lia]. apply cnt_zero. intros C%(wf_maps _ Hw)%cnt_elem. unfold nref in *. lia. }
  assert (<[t := o']> G !! t = Some o') as Ht' by (apply list_lookup_insert_eq; by eapply lookup_lt_Some).
  eapply inv_frame; try done.
  - destruct (N t o' Ht' Hwf) as (? & ? & ? & ?). by eapply live_delete.
  - rewrite Eh. intros l0 r0 [Hne Hr0]%lookup_delete_Some. rewrite (counts_same G t o) by auto. by apply I.
  - intros t' x Hne Hx. assert (<[t := o']> G !! t' = Some x) as Hx' by (by rewrite list_lookup_insert_ne). destruct (N t' x Hx') as (? & ? & ? & ?); [by eapply i_wf|]. eapply live_delete; try done. by eapply i_live.
  - intros t' x l0 r0 Hne Hx Hw Hr0 E0. right. exists r0. split; [|done]. rewrite Eh, lookup_delete_ne; [done|]. intros ->. assert (<[t := o']> G !! t' = Some x) as Hx' by (by rewrite list_lookup_insert_ne). destruct (N t' x Hx') as (_ & _ & _ & N4); [by eapply i_wf|]. apply cnt_zero in N4. done.
Qed.

(** The thread that put the last reference frees a guarded object itself. *)
Lemma free_guarded_ok t o l F : frees o = (l, true) :: F -> ok t o (section (reg_shm_free_helper l)) (fun _ o' => o' = o_frees F o).
Proof.
  intros EF. apply ok_sect. intros s G I Ht Hcv. pose proof (i_live _ _ I _ _ Ht) as Lv. destruct (li_frees _ _ Lv l true) as (r & Hr & Hg); [rewrite EF; by left|].
  assert (refc r = 0) as E0 by (eapply free_no_ref; [done|done|done|rewrite EF; by left]).
  destruct (free_helper_run s l r (i_mem _ _ I) Hr) as (s' & -> & M' & Eh & [S1 S2 S3 S4]). exists (o_frees F o). split; [|done]. pose proof (i_cnt _ _ I _ _ Hr) as [K1 K2 K3 K4 K5 _ _ _ _ _ _]. cbn in K1, K2, K4. rewrite E0 in K2. cbn in K2.
  assert (releasing r = false) as Er. { destruct (releasing r) eqn:E; [|done]. rewrite K3 in Hg by done. done. } rewrite Er, Hg, E0 in *. cbn in K1, K4. set (o' := o_frees F o). sums l Ht o'.
  assert (nfree l o = S (nfree l o')) as N by (unfold nfree, o'; rewrite EF; cbn; rewrite cnt_cons, decide_True by done; lia).
  assert (nref (Reg l) o' = nref (Reg l) o /\ nwts l o' = nwts l o) as [N1 N2] by done.
  eapply inv_delete; try done.
  - cbn. lia.
  - by eapply wf_same; [..|by eapply i_wf].
  - eapply live_sub; [exact Lv|done|done| |done]. intros x Hx. rewrite EF. by right.
  - intros l' Hne. split; try done. unfold nfree, o'. rewrite EF. cbn. by rewrite cnt_cons, decide_False by congruence.
  - lia.
  - destruct (release_frees r); lia.
  - lia.
Qed.

(** Otherwise it tells the thread that releases the object. *)
Lemma set_frees_ok t o l F : frees o = (l, false) :: F -> ok t o (section (upd l (set_release_frees true))) (fun _ o' => o' = o_owes (S (owes o)) (o_frees F o)).
Proof.
  intros EF. apply ok_sect. intros s G I Ht Hcv. pose proof (i_live _ _ I _ _ Ht) as Lv. destruct (li_frees _ _ Lv l false) as (r & Hr & Hg); [rewrite EF; by left|].
  assert (refc r = 0) as E0 by (eapply free_no_ref; [done|done|done|rewrite EF; by left]).
  rewrite (upd_run s l r) by done. set (o' := o_owes (S (owes o)) (o_frees F o)). exists o'. split; [|done]. pose proof (i_cnt _ _ I _ _ Hr) as [K1 K2 K3 K4 K5 K6 K7 K8 K9 K10 K11]. cbn in K1, K2, K4, K6, K7, K8, K9, K11. rewrite E0 in K2. cbn in K2. rewrite Hg in *.
  assert (releasing r = true) as Er. { destruct (releasing r) eqn:E; [done|]. cbn in K1. lia. } sums l Ht o'.
  assert (nfree l o = S (nfree l o')) as N by (unfold nfree, o'; rewrite EF; cbn; rewrite cnt_cons, decide_True by done; lia).
  assert (nref (Reg l) o' = nref (Reg l) o /\ nwts l o' = nwts l o /\ nmap l o' = nmap l o /\ nmade l o' = nmade l o /\ nunm l o' = nunm l o) as (N1 & N2 & N3 & N4 & N5) by done.
  eapply inv_upd; try done.
  - intros l' Hne. split; try done. unfold nfree, o'. rewrite EF. cbn. by rewrite cnt_cons, decide_False by congruence.
  - cbn. lia.
  - cbn. right. lia.
  - rewrite Er in *. cbn in K1. split; cbn; rewrite ?Er, ?Hg; cbn; try done; try lia.
    + rewrite E0. cbn. destruct (release_frees r); lia.
    + intros Hs Hz. specialize (K11 Hs Hz). lia.
  - by eapply wf_same; [..|by eapply i_wf].
  - eapply live_geo; [eapply (live_sub _ o o'); [exact Lv|done|done| |done]|by eapply same_geo_upd|].
    + intros x Hx. rewrite EF. by right.
    + intros l0 b _. cbn. destruct (decide (l0 = l)) as [->|]; [by rewrite lookup_insert_eq, Hr|by rewrite lookup_insert_ne].
Qed.

(** A step that leaves the objects alone. *)
Lemma inv_misc s s' G t o o' : inv s G -> G !! t = Some o ->
  heap s' = heap s -> reg_shm_list s' = reg_shm_list s -> core_virt_shm_pool s' = core_virt_shm_pool s -> table s' = table s -> brk s' = brk s ->
  (forall l, same_at l o o') -> wf o' -> live s o' ->
  shm_refc s' = Some (1 + Z.of_nat (total (nref Shm) (<[t := o']> G))) -> shm_release_waiters s' = Z.of_nat (total nwait (<[t := o']> G)) ->
  (forall t', t' ∈ shm_cv s' -> asleep s (<[t := o']> G) t') ->
  (running s' !! t = cur o' /\ forall t', t' <> t -> running s' !! t' = running s !! t') -> inv s' (<[t := o']> G).
Proof.
  intros I Ht E1 E2 E3 E4 E5 Sm Hwf Hlv Eshm Ew Hq [Er1 Er2]. split.
  - rewrite E1. intros l r Hr. rewrite (counts_same G t o) by done. by apply I.
  - apply (mem_misc s); try done. apply I.
  - intros t' x [[-> ->]|[_ ?]]%insert_cases; [done|by eapply i_wf].
  - intros t' x [[-> ->]|[_ ?]]%insert_cases; (eapply live_heap; [|done]); [done|by eapply i_live].
  - done.
  - done.
  - intros t' Hin. destruct (Hq t' Hin) as (x & l & Hx). exists x, l. by rewrite E1.
  - intros t' p. destruct (decide (t' = t)) as [->|Hne].
    + rewrite Er1, list_lookup_insert_eq by (by eapply lookup_lt_Some). split; [by exists o'|]. by intros (? & [= <-] & ?).
    + rewrite Er2, list_lookup_insert_ne by done. apply I.
  - unfold lenZ. rewrite length_insert. apply I.
Qed.

Lemma run_cur s G t o : inv s G -> G !! t = Some o -> running s !! t = cur o.
Proof. intros I Ht. destruct (cur o) eqn:E; [apply (i_run _ _ I); by exists o|]. destruct (running s !! t) eqn:Er; [|done]. apply (i_run _ _ I) in Er as (o1 & Ho1 & E1). congruence. Qed.

(** The condition variable. *)
Lemma inv_cv s G t o o' q : inv s G -> G !! t = Some o -> refs o' = refs o -> maps o' = maps o -> frees o' = frees o -> unms o' = unms o -> made o' = made o -> wts o' = wts o -> nwait o' = nwait o -> cur o' = cur o ->
  (forall t', t' ∈ q -> asleep s (<[t := o']> G) t') -> inv (set_shm_cv (fun _ => q) s) (<[t := o']> G).
Proof.
  intros I Ht E1 E2 E3 E4 E5 E6 E7 E8 Hq. eapply inv_misc; try done.
  - intros l; split; unfold nref, nmap, nfree, nunm, nmade, nwts; congruence.
  - eapply wf_same; [..|by eapply i_wf]; done.
  - eapply live_sub; [by eapply i_live|..]; congruence.
  - rewrite (total_same _ G t o o') by (done || unfold nref; congruence). apply I.
  - rewrite (total_same _ G t o o') by done. apply I.
  - split; [|done]. rewrite E8. by apply (run_cur s G).
Qed.

Lemma broadcast_ok t o n : owes o = S n ->
  ok t o (section (let! s := get in if shm_release_waiters s =? 0 then ret tt else modify (set_shm_cv (fun _ => [])))) (fun _ o' => o' = o_owes n o).
Proof.
  intros Eo. apply ok_sect. intros s G I Ht Hcv. rewrite (bind_run _ _ _ s s) by done. destruct (shm_release_waiters s =? 0) eqn:Ew; bool_hyps; cbn.
  - exists (o_owes n o). split; [|done]. assert (shm_cv s = []) as Eq.
    { destruct (shm_cv s) as [|t' q] eqn:Eq; [done|]. destruct (i_cv _ _ I t') as (x & l & Hx & _ & En & _); [rewrite Eq; by left|]. pose proof (i_wait _ _ I). pose proof (total_le nwait _ _ _ Hx). lia. }
    pose proof (inv_cv s G t o (o_owes n o) [] I Ht eq_refl eq_refl eq_refl eq_refl eq_refl eq_refl eq_refl eq_refl ltac:(intros t' Hin; by apply elem_of_nil in Hin)) as I'. destruct s. cbn in *. by subst.
  - exists (o_owes n o). split; [|done]. eapply inv_cv; try done. intros t' Hin. by apply elem_of_nil in Hin.
Qed.

Lemma free_ok t o l b F : frees o = (l, b) :: F -> ok t o (mobj_reg_shm_free l) (fun _ o' => o' = o_frees F o).
Proof.
  intros EF. unfold mobj_reg_shm_free. eapply (ok_seq t o _ _ (fun r o' => o' = o /\ guarded r && negb (releasing r) = b)).
  - apply ok_rd. intros s G I Ht. destruct (li_frees _ _ (i_live _ _ I _ _ Ht) l b) as (r & Hr & Hg); [rewrite EF; by left|]. exists r. rewrite (reg_run s l r) by done. split; [done|]. split; [done|].
    destruct (i_cnt _ _ I _ _ Hr) as [_ _ K3 _ _ _ _ _ _ _ _]. subst b. destruct (guarded r) eqn:E; [|done]. destruct (releasing r); [|done]. by specialize (K3 eq_refl).
  - intros r o' [-> ->]. destruct b; [by apply free_guarded_ok|]. eapply ok_seq; [by apply set_frees_ok|]. intros _ o' ->. eapply ok_conseq; [by apply broadcast_ok|]. intros _ o' ->. by destruct o.
Qed.

(** ** References *)

Lemma put_drops_ok t o o' l : wf o' -> drops l o o' -> ok t o (mobj_put (Some (Reg l))) (fun _ o1 => o1 = o').
Proof.
  intros Hwf D. unfold mobj_put. eapply ok_seq; [by apply dec_refc_ok|]. intros [] o1 E; [|done]. destruct E as [b ->]. eapply ok_conseq; [by eapply (free_ok _ _ l b (frees o))|]. intros _ o2 ->. rewrite <- (dr_frees _ _ _ D). by destruct o'.
Qed.

(** The reserved memory: its count stays above 0. *)
Lemma inv_shm s G t o o' v : inv s G -> G !! t = Some o -> t ∉ shm_cv s -> nwait o' = nwait o -> owes o' = owes o -> cur o' = cur o ->
  (forall l, same_at l o o') -> v + Z.of_nat (nref Shm o) = default 0 (shm_refc s) + Z.of_nat (nref Shm o') -> wf o' -> live s o' ->
  inv (set_shm_refc (Some v) s) (<[t := o']> G).
Proof.
  intros I Ht Hcv E7 E8 E9 Sm Ev Hwf Hlv. eapply inv_misc; try done.
  - cbn. rewrite (i_shm _ _ I) in Ev. cbn in Ev. pose proof (total_insert (nref Shm) G t o o' Ht). f_equal. lia.
  - rewrite (total_same _ G t o o') by done. apply I.
  - intros t' Hin. cbn in Hin. destruct (i_cv _ _ I t' Hin) as (x & l & Hx & D). rewrite <- (total_same owes G t o o') in D by done. exists x, l. rewrite list_lookup_insert_ne by congruence. done.
  - split; [|done]. rewrite E9. by apply (run_cur s G).
Qed.

Lemma wf_add o x : wf o -> (length (refs o) < NREFS)%nat -> wf (o_refs (x :: refs o) o).
Proof.
  intros [W1 W2 W3 W4 W5 W5' W6] Hl. split; cbn; try done; try (intros l Hin; right; auto).
  intros p Hp n m Hm. specialize (W6 p Hp n m Hm). unfold mem_ok in *. cbn. destruct (mem_mobj m); [|done]. destruct W6 as (sz & ? & ?). exists sz. split; [by right|done].
Qed.

Lemma put_ok t o p sz R : refs o ≡ₚ (p, sz) :: R -> wf (o_refs R o) -> ok t o (mobj_put (Some p)) (fun _ o' => o' = o_refs R o).
Proof.
  intros E Hwf. destruct p as [|l].
  2:{ apply put_drops_ok; [done|]. split; try done; [by exists sz|left; split; [done|by left]]. }
  unfold mobj_put. eapply (ok_seq _ _ _ _ (fun z o' => z = false /\ o' = o_refs R o)); [|by intros _ o' [-> ->]].
  apply ok_sect. intros s G I Ht Hcv. pose proof (refs_bound s G Shm I) as B. pose proof (i_shm _ _ I) as Es. pose proof (total_le (nref Shm) G t o Ht) as Hle.
  assert (nref Shm o = S (nref Shm (o_refs R o)) /\ forall l, nref (Reg l) (o_refs R o) = nref (Reg l) o) as [N1 N2].
  { unfold nref. cbn. split; intros; rewrite (cnt_fmap_perm fst _ _ _ E); cbn; rewrite cnt_cons; [by rewrite decide_True|by rewrite decide_False]. }
  rewrite (on_shm_run s _ _ _ _ Es (refcount_dec_alone (1 + Z.of_nat (total (nref Shm) G)) ltac:(lia))). exists (o_refs R o). split; [|split; [apply Z.eqb_neq; lia|done]].
  eapply inv_shm; try done; [rewrite Es; cbn [from_option]; unfold id; lia|]. eapply live_sub; [by eapply i_live|..]; try done. intros x Hx. rewrite E. by right.
Qed.

Lemma get_shm_run s G t o : inv s G -> G !! t = Some o -> t ∉ shm_cv s -> (length (refs o) < NREFS)%nat ->
  exists s', mobj_get Shm s = (Ret tt, s') /\ inv s' (<[t := o_refs ((Shm, shm_size) :: refs o) o]> G).
Proof.
  intros I Ht Hcv Hl. pose proof (refs_bound s G Shm I) as B. pose proof (i_shm _ _ I) as Es. unfold mobj_get. rewrite (bind_run _ _ _ _ _ (on_shm_run s _ _ _ _ Es (inc_run (1 + Z.of_nat (total (nref Shm) G)) ltac:(lia)))). eexists. split; [done|].
  eapply inv_shm; try done.
  - assert (nref Shm (o_refs ((Shm, shm_size) :: refs o) o) = S (nref Shm o)) as -> by (unfold nref; cbn; by rewrite cnt_cons, decide_True). rewrite Es. cbn [from_option]. unfold id. lia.
  - apply wf_add; [by eapply i_wf|done].
  - destruct (i_live _ _ I _ _ Ht) as [L1 L2 L3 L4]. split; try done. cbn. intros p sz [[= -> ->]|?]%elem_of_cons; [done|auto].
Qed.

(** One more reference to an object. *)
Lemma inv_ref s G t o l r r' o' : inv s G -> G !! t = Some o -> t ∉ shm_cv s -> (length (refs o) < NREFS)%nat -> heap s !! l = Some r -> geo r' = geo r ->
  release_frees r' = release_frees r -> guarded r' = guarded r -> refs o' = (Reg l, m_size r) :: refs o -> maps o' = maps o -> frees o' = frees o -> unms o' = unms o -> made o' = made o -> nwait o' = nwait o -> owes o' = owes o -> cur o' = cur o ->
  (wts o' = wts o \/ wts o' = l :: wts o) -> cnt_ok r' (counts_of (<[t := o']> G) l) -> inv (set_heap (<[l := r']>) s) (<[t := o']> G).
Proof.
  intros I Ht Hcv Hl Hr Eg Ef Egd E1 E2 E3 E4 E5 E6 E7 E8 E9 Hc. pose proof (i_live _ _ I _ _ Ht) as Lv. eapply inv_upd; try done.
  - intros l' Hne. split; unfold nref, nmap, nfree, nunm, nmade, nwts; rewrite ?E1, ?E2, ?E3, ?E4, ?E5; try done; [cbn; by rewrite cnt_cons, decide_False by congruence|]. destruct E9 as [->| ->]; [done|]. by rewrite cnt_cons, decide_False by congruence.
  - unfold nref. rewrite E1. cbn. by rewrite cnt_cons, decide_False.
  - lia.
  - rewrite Ef. by left.
  - eapply (wf_same (o_refs ((Reg l, m_size r) :: refs o) o)); try done. apply wf_add; [by eapply i_wf|done].
  - apply (live_geo s); [|by eapply same_geo_upd|intros l0 b _; cbn; destruct (decide (l0 = l)) as [->|]; [by rewrite lookup_insert_eq, Hr; cbn; rewrite Egd|by rewrite lookup_insert_ne]].
    destruct Lv as [L1 L2 L3 L4]. split; rewrite ?E1, ?E2, ?E3; try done.
    + intros p sz [[= -> ->]|?]%elem_of_cons; [|auto]. cbn. by rewrite Hr.
    + destruct E9 as [->| ->]; [done|]. intros l0 [->|?]%elem_of_cons; [by rewrite Hr|auto].
Qed.

Lemma find_unlocked_run s G ck : inv s G -> exists f, reg_shm_find_unlocked ck s = (Ret f, s) /\ forall l, f = Some l -> exists r, l ∈ reg_shm_list s /\ heap s !! l = Some r.
Proof.
  intros I. unfold reg_shm_find_unlocked. rewrite (bind_run _ _ _ s s) by done. destruct (find_cookie_run s ck (reg_shm_list s)) as (f & -> & Hf); [intros l; apply (mi_listed _ (i_mem _ _ I))|]. exists f. split; [done|].
  intros l Hl. specialize (Hf l Hl). destruct (proj1 (mi_listed _ (i_mem _ _ I) l) Hf) as [r Hr]. by exists r.
Qed.

(** A look-up takes a reference, or finds an object whose count is 0. *)
Lemma get_by_cookie_ok t o ck : (length (refs o) < NREFS)%nat ->
  ok t o (section (mobj_reg_shm_get_by_cookie ck)) (fun p o' => match p with None => o' = o | Some p => exists l sz, p = Reg l /\ o' = o_refs ((Reg l, sz) :: refs o) o end).
Proof.
  intros Hl. apply ok_sect. intros s G I Ht Hcv. unfold mobj_reg_shm_get_by_cookie. destruct (find_unlocked_run s G ck I) as (f & Ef & Hf). rewrite (bind_run _ _ _ _ _ Ef). destruct f as [l|]; cbn.
  2:{ exists o. split; [by rewrite list_insert_id|done]. }
  destruct (Hf l eq_refl) as (r & Hin & Hr). pose proof (refc_bound _ _ _ _ I Hr) as [Bd _]. unfold mobj_get, bind at 1. destruct (decide (refc r = 0)) as [E0|N0].
  { unfold bind. rewrite (on_refc_run s l r (refcount_inc []) false 0 Hr); [|by rewrite E0]. by exists ck, l, r. }
  unfold bind. rewrite (on_refc_run s l r _ _ _ Hr (inc_run (refc r) ltac:(lia))). set (o' := o_refs ((Reg l, m_size r) :: refs o) o). exists o'. split; [|by exists l, (m_size r)].
  eapply inv_ref; try done; [by left|]. sums l Ht o'. assert (nref (Reg l) o' = S (nref (Reg l) o)) as N1 by (unfold nref, o'; cbn; by rewrite cnt_cons, decide_True).
  assert (nfree l o' = nfree l o /\ nwts l o' = nwts l o /\ nmap l o' = nmap l o /\ nmade l o' = nmade l o /\ nunm l o' = nunm l o) as (N2 & N3 & N4 & N5 & N6) by done.
  destruct (i_cnt _ _ I _ _ Hr) as [K1 K2 K3 K4 K5 K6 K7 K8 K9 K10 K11]. cbn in K1, K2, K4, K6, K7, K8, K9, K11. split; cbn; try done; try lia.
  - destruct (refc r + 1 =? 0) eqn:E1, (refc r =? 0) eqn:E2; lia.
  - intros D. rewrite K7; [lia|]. destruct D; [by left|right; lia].
  - intros. apply K9. lia.
  - intros Hs Hz. specialize (K11 Hs Hz). lia.
Qed.

(** ** Release *)

Definition releasing_own (l sz : Z) (o : own) : own := o_wts (l :: wts o) (o_refs ((Reg l, sz) :: refs o) o).

Lemma start_release_ok t o ck : (length (refs o) < NREFS)%nat ->
  ok t o (section (let! f := reg_shm_find_unlocked ck in
    match f with
    | None => ret None
    | Some l => let! r := reg l in if guarded r || releasing r then ret None else do! upd l (set_releasing true) in ret (Some l)
    end)) (fun f o' => match f with None => o' = o | Some l => exists sz, o' = releasing_own l sz o end).
Proof.
  intros Hl. apply ok_sect. intros s G I Ht Hcv. destruct (find_unlocked_run s G ck I) as (f & Ef & Hf). rewrite (bind_run _ _ _ _ _ Ef). destruct f as [l|]; cbn.
  2:{ exists o. split; [by rewrite list_insert_id|done]. }
  destruct (Hf l eq_refl) as (r & Hin & Hr). rewrite (bind_run _ _ _ _ _ (reg_run s l r Hr)). destruct (guarded r || releasing r) eqn:Eg; cbn.
  { exists o. split; [by rewrite list_insert_id|done]. }
  apply orb_false_iff in Eg as [Eg Er]. rewrite (bind_run _ _ _ _ _ (upd_run s l r _ Hr)). cbn. set (o' := releasing_own l (m_size r) o). exists o'. split; [|by exists (m_size r)].
  eapply inv_ref; try done; [by right|]. sums l Ht o'. assert (nref (Reg l) o' = S (nref (Reg l) o) /\ nwts l o' = S (nwts l o)) as [N1 N3] by (unfold nref, nwts, o'; cbn; by rewrite !cnt_cons, !decide_True).
  assert (nfree l o' = nfree l o /\ nmap l o' = nmap l o /\ nmade l o' = nmade l o /\ nunm l o' = nunm l o) as (N2 & N4 & N5 & N6) by done.
  destruct (i_cnt _ _ I _ _ Hr) as [K1 K2 K3 K4 K5 K6 K7 K8 K9 K10 K11]. cbn in K1, K2, K4, K6, K7, K8, K9, K11. rewrite Eg, Er in *. cbn in K1. split; cbn; rewrite ?Eg; cbn; try done; try lia.
  intros Hs Hz. specialize (K11 Hs Hz). lia.
Qed.

(** Waiting for the last reference to go. *)
Lemma inc_waiters_ok t o l : nwait o = 0%nat -> wts o = [l] ->
  ok t o (section (do! modify (set_waiters (fun n => u64 (n + 1))) in let! s := get in assert_ (negb (shm_release_waiters s =? 0)))) (fun _ o' => o' = o_nwait 1 o).
Proof.
  intros En Ew. apply ok_sect. intros s G I Ht Hcv. pose proof (wait_bound s G I) as B. rewrite (bind_run _ _ _ tt (set_waiters (fun n => u64 (n + 1)) s)) by done. rewrite (bind_run _ _ _ (set_waiters (fun n => u64 (n + 1)) s) (set_waiters (fun n => u64 (n + 1)) s)) by done.
  cbn [shm_release_waiters set_waiters]. assert (u64 (shm_release_waiters s + 1) = shm_release_waiters s + 1) as E by (apply uwrap_small; unfold is_u; lia). rewrite E, (proj2 (Z.eqb_neq _ _)) by lia. cbn. exists (o_nwait 1 o). split; [|done].
  pose proof (total_insert nwait G t o (o_nwait 1 o) Ht) as Tn. cbn in Tn. eapply inv_misc; try done.
  - pose proof (i_wf _ _ I _ _ Ht) as [W1 W2 W3 W4 W5 W5' W6]. by split.
  - eapply live_sub; [by eapply i_live|..]; done.
  - rewrite (total_same _ G t o) by done. apply I.
  - cbn. rewrite E. pose proof (i_wait _ _ I). lia.
  - intros t' Hin. cbn in Hin. destruct (i_cv _ _ I t' Hin) as (x & l0 & Hx & D). rewrite <- (total_same owes G t o (o_nwait 1 o)) in D by done. exists x, l0. rewrite list_lookup_insert_ne by congruence. done.
  - split; [|done]. cbn. by rewrite (run_cur s G t o).
Qed.

Lemma wait_release_ok t o l : nwait o = 1%nat -> wts o = [l] -> refs o = [] -> frees o = [] -> owes o = 0%nat ->
  ok t o (waiting (let! r := reg l in
        if release_frees r then
          do! reg_shm_free_helper l in
          let! s := get in
          do! assert_ (negb (shm_release_waiters s =? 0)) in
          do! modify (set_waiters (fun n => u64 (n - 1))) in ret (inl TEE_SUCCESS)
        else ret (inr tt))) (fun _ o' => o' = o_nwait 0 (o_wts [] o)).
Proof.
  intros En Ew E1 E2 E3. apply ok_waiting. intros s G I Ht Hs. cbn in Hs. rewrite bool_decide_eq_false in Hs. destruct (li_wts _ _ (i_live _ _ I _ _ Ht) l) as [r Hr]; [rewrite Ew; by left|]. rewrite (bind_run _ _ _ _ _ (reg_run s l r Hr)). destruct (release_frees r) eqn:Ef; cbn [ret].
  2:{ cbn. rewrite <- (list_insert_id G t o Ht). eapply (inv_cv s G t o o (t :: shm_cv s)); try done. rewrite list_insert_id by done. intros t' [->|Hin]%elem_of_cons; [|by apply I]. exists o, l. do 3 (split; [done|]). left. by exists r. }
  destruct (free_helper_run s l r (i_mem _ _ I) Hr) as (s' & E & M' & Eh & [S1 S2 S3 S4]). rewrite (bind_run _ _ _ _ _ E), (bind_run _ _ _ s' s') by done. rewrite S1. pose proof (wait_bound s G I) as B.
  pose proof (total_le nwait G t o Ht) as Hle. pose proof (i_wait _ _ I) as Hw. rewrite (proj2 (Z.eqb_neq _ _)) by lia. rewrite (bind_run _ _ _ tt s') by done. cbn. right. set (o' := o_nwait 0 (o_wts [] o)). exists o'. split; [|done].
  destruct (i_cnt _ _ I _ _ Hr) as [K1 K2 K3 K4 K5 K6 K7 K8 K9 K10 K11]. cbn in K1, K2, K4. pose proof (K5 Ef) as Er. specialize (K3 Er). rewrite Er, K3, Ef in *. cbn in K1, K2. assert (refc r = 0) as E0 by (destruct (refc r =? 0) eqn:E0; lia). sums l Ht o'.
  assert (nwts l o = 1%nat /\ nwts l o' = 0%nat) as [N1 N2] by (unfold nwts, o'; rewrite Ew; cbn; by rewrite cnt_cons, decide_True, cnt_nil). assert (nref (Reg l) o' = nref (Reg l) o /\ nfree l o' = nfree l o) as [N3 N4] by done.
  eapply inv_delete; try done.
  - by apply (mem_misc s').
  - cbn. rewrite S1, En, uwrap_small by (unfold is_u; lia). lia.
  - pose proof (i_wf _ _ I _ _ Ht) as [W1 W2 W3 W4 W5 W5' W6]. split; try done. cbn. lia.
  - eapply live_sub; [by eapply i_live|..]; try done. intros x Hx. by apply elem_of_nil in Hx.
  - intros l' Hne. split; try done. unfold nwts, o'. rewrite Ew. cbn. by rewrite cnt_cons, decide_False by congruence.
  - lia.
  - rewrite E0 in K2. cbn in K2. lia.
  - lia.
Qed.

Lemma own0_wf : wf own0.
Proof. split; cbn; unfold NREFS; try lia; try (intros l Hin; by apply elem_of_nil in Hin); done. Qed.

Lemma release_ok t ck : ok t own0 (mobj_reg_shm_release_by_cookie ck) (fun _ o' => o' = own0).
Proof.
  unfold mobj_reg_shm_release_by_cookie. eapply ok_seq; [apply start_release_ok; cbn; unfold NREFS; lia|]. intros [l|] o1 E; [|by subst]. destruct E as [sz ->].
  eapply ok_seq; [eapply (put_ok t _ (Reg l) sz []); [done|by eapply wf_same; [..|exact own0_wf]]|]. intros _ o1 ->. eapply ok_seq; [by apply (inc_waiters_ok _ _ l)|]. intros _ o1 ->. eapply ok_conseq; [by apply wait_release_ok|]. by intros _ o1 ->.
Qed.
End Obj.
