(* ===== verification/ShmMap.v ===== *)
(** * Shared memory: objects made, published and mapped

    Allocation, publication, mapping and unmapping of objects in the logic of [ShmInv], and accesses
    through windows. *)
From stdpp Require Import gmap.
From S2P Require Import Prelude TeeMm RecMutex Threads Shm ShmMsg ShmInv ShmMem ShmObj.
Local Open Scope Z_scope.

Section Map.
Context `{PlatformOk}.

(** ** New objects *)

Lemma inv_alloc s G f b : inv s G -> brk s <= b -> inv (set_alloc f b s) G.
Proof.
  intros I Hb. split; cbn; try apply I.
  - apply mem_brk; [apply I|done].
  - intros t o Ho. eapply live_heap; [by eapply i_live|done].
Qed.

(** Nothing is owned of an address that is not in use. *)
Lemma counts_absent s G l : inv s G -> heap s !! l = None -> counts_of G l = mk_counts 0 0 0 0 0 0.
Proof.
  intros I Hn. assert (forall f, (forall t x, G !! t = Some x -> f x = 0%nat) -> total f G = 0%nat) as Z by (intros f Hf; pose proof (total_bound f 0 G ltac:(intros t x Hx; rewrite (Hf t x Hx); lia)); lia).
  assert (forall t x, G !! t = Some x -> Reg l ∉ fst <$> refs x) as Nr by (intros t x Hx Hin; destruct (ref_live s G t x l I Hx Hin) as (r & ? & _); congruence).
  unfold counts_of. f_equal; apply Z; intros t x Hx; pose proof (i_live _ _ I _ _ Hx) as Lx; pose proof (i_wf _ _ I _ _ Hx) as Wx; apply cnt_zero; intros Hin.
  - by apply (Nr t x).
  - apply (Nr t x Hx). by apply wf_maps.
  - apply list_elem_of_fmap in Hin as ([l0 b] & -> & Hin). destruct (li_frees _ _ Lx _ _ Hin) as (r & ? & _). cbn in *. congruence.
  - apply (Nr t x Hx). by apply wf_unms.
  - apply (Nr t x Hx). by apply wf_made.
  - destruct (li_wts _ _ Lx _ Hin). congruence.
Qed.

Definition made_own (l sz : Z) (o : own) : own := o_made (l :: made o) (o_refs ((Reg l, sz) :: refs o) o).

Lemma inv_made s G t o l r : inv s G -> G !! t = Some o -> t ∉ shm_cv s -> (length (refs o) < NREFS)%nat -> heap s !! l = None -> l < brk s -> shape r ->
  m_mm r = None -> mapcount r = 0 -> guarded r = true -> releasing r = false -> release_frees r = false -> refc r = 1 ->
  inv (set_list (cons l) (set_heap (<[l := r]>) s)) (<[t := made_own l (m_size r) o]> G).
Proof.
  intros I Ht Hcv Hl Hn Hb Hs R1 R2 R3 R4 R5 R6. set (o' := made_own l (m_size r) o). pose proof (counts_absent s G l I Hn) as C0. injection C0 as C1 C2 C3 C4 C5 C6. sums l Ht o'.
  assert (nref (Reg l) o' = S (nref (Reg l) o) /\ nmade l o' = S (nmade l o)) as [N1 N2] by (unfold nref, nmade, o'; cbn; by rewrite !cnt_cons, !decide_True).
  assert (nfree l o' = nfree l o /\ nwts l o' = nwts l o /\ nmap l o' = nmap l o /\ nunm l o' = nunm l o) as (N3 & N4 & N5 & N6) by done.
  assert (forall x, live s x -> live (set_list (cons l) (set_heap (<[l := r]>) s)) x) as Ext.
  { intros x [L1 L2 L3 L4]. assert (forall l0 r0, heap s !! l0 = Some r0 -> <[l := r]> (heap s) !! l0 = Some r0) as F by (intros l0 r0 Hr0; rewrite lookup_insert_ne; [done|congruence]). split; unfold size_of, wf_win; cbn.
    - intros [|l0] sz Hin; specialize (L1 _ _ Hin); cbn in *; [done|]. destruct (heap s !! l0) as [r0|] eqn:Hr0; [|done]. by rewrite (F _ _ Hr0).
    - intros l0 w Hin. destruct (L2 _ _ Hin) as (r0 & Hr0 & ?). exists r0. split; [by apply F|done].
    - intros l0 b Hin. destruct (L3 _ _ Hin) as (r0 & Hr0 & ?). exists r0. split; [by apply F|done].
    - intros l0 Hin. destruct (L4 _ Hin) as [r0 Hr0]. exists r0. by apply F. }
  eapply inv_frame; try done.
  - apply mem_insert; try done. apply I.
  - pose proof (wf_add o (Reg l, m_size r) (i_wf _ _ I _ _ Ht) Hl) as [W1 W2 W3 W4 W5 W5' W6]. split; try done. cbn. intros l0 [->|Hin]%elem_of_cons; [by left|by apply W2].
  - pose proof (Ext o (i_live _ _ I _ _ Ht)) as [L1 L2 L3 L4]. split; try done. cbn. intros p sz [[= -> ->]|Hin]%elem_of_cons; [cbn; by rewrite lookup_insert_eq|by apply L1].
  - cbn. intros l0 r0 [[<- <-]|[Hne Hr0]]%lookup_insert_Some.
    + split; cbn; rewrite ?R1, ?R2, ?R3, ?R4, ?R5, ?R6; cbn; try done; lia.
    + rewrite (counts_same G t o); [by apply I|done|]. split; try done; unfold nref, nmade, o'; cbn; by rewrite cnt_cons, decide_False by congruence.
  - intros t' x Hne Hx. apply Ext. by eapply i_live.
  - intros t' x l0 r0 _ _ _ Hr0 E0. right. exists r0. cbn. rewrite lookup_insert_ne; [done|congruence].
Qed.

Lemma page_nsec_bytes p j : is_u 64 p -> core_pbuf_is_nsec p SMALL_PAGE_SIZE = true -> 0 <= j < SMALL_PAGE_SIZE -> core_pbuf_is_nsec (p + j) 1 = true /\ p + j < 2 ^ 64.
Proof.
  unfold core_pbuf_is_nsec, SMALL_PAGE_SIZE. cbn [Z.eqb orb]. rewrite !existsb_exists. intros Hp ([a al] & Hin & Hi) Hj. cbn in Hi. unfold core_is_buffer_inside, is_valid_conf_and_notnull_size in *.
  rewrite !andb_true_iff, !negb_true_iff, !orb_false_iff, !Z.ltb_ge, !Z.leb_le, !Z.eqb_neq in Hi. destruct Hi as [[[H1 H2] [H3 H4]] [H5 H6]]. unfold is_u in *.
  assert (p + 4095 < 2 ^ 64) as Hb. { destruct (decide (p + 4095 < 2 ^ 64)); [done|]. unfold uwrap in H1. replace (p - 1 + 4096) with (p + 4095 - 2 ^ 64 + 1 * 2 ^ 64) in H1 by lia. rewrite Z.mod_add, Z.mod_small in H1 by lia. lia. }
  rewrite (uwrap_small 64 (p - 1 + 4096)) in H6 by (unfold is_u; lia). split; [|lia]. exists (a, al). split; [done|]. cbn. rewrite !andb_true_iff, !negb_true_iff, !orb_false_iff, !Z.ltb_ge, !Z.leb_le, !Z.eqb_neq.
  replace (p + j - 1 + 1) with (p + j) by lia. rewrite (uwrap_small 64 (p + j)) by (unfold is_u; lia). repeat split; lia.
Qed.

Lemma alloc_ok t o ps offs ck : (length (refs o) < NREFS)%nat -> Forall (is_u 64) ps -> 0 <= offs ->
  ok t o (section (mobj_reg_shm_alloc ps offs ck)) (fun m o' => match m with None => o' = o | Some l => o' = made_own l (lenZ ps * SMALL_PAGE_SIZE - offs) o end).
Proof.
  intros Hl Hu Ho. apply ok_sect. intros s G I Ht Hcv. unfold mobj_reg_shm_alloc. destruct ((lenZ ps =? 0) || (SMALL_PAGE_SIZE <=? offs)) eqn:E1; [exists o; split; [by rewrite list_insert_id|done]|]. apply orb_false_iff in E1 as [E1 E2]. bool_hyps. pose proof (lenZ_nonneg ps).
  destruct (mobj_reg_shm_size (lenZ ps) =? 0) eqn:E3; [exists o; split; [by rewrite list_insert_id|done]|]. bool_hyps. destruct (malloc_run (mobj_reg_shm_size (lenZ ps)) s) as (a & b & Em & Hb & Ha). rewrite (bind_run _ _ _ _ _ Em).
  pose proof (inv_alloc s G (tl (faults s)) b I Hb) as I1. destruct a as [l|]; [|exists o; split; [by rewrite list_insert_id|done]]. destruct (Ha l eq_refl) as (-> & -> & Hn).
  destruct (forallb _ ps) eqn:Ef; cbn; [|exists o; split; [by rewrite list_insert_id|done]].
  assert (lenZ ps <= CFG_CORE_HEAP_SIZE) as Hlen. { unfold mobj_reg_shm_size, mul_overflow, add_overflow in Hn, E3. destruct (2 ^ 64 <=? 8 * lenZ ps) eqn:O1; [done|]. bool_hyps. rewrite (uwrap_small 64 (8 * lenZ ps)) in Hn, E3 by (unfold is_u; lia). destruct (2 ^ 64 <=? 72 + 8 * lenZ ps) eqn:O2; [done|]. bool_hyps. rewrite uwrap_small in Hn by (unfold is_u; lia). lia. }
  set (r := mk_reg _ _ _ _ _ _ _ _ _ _). assert (m_size r = lenZ ps * SMALL_PAGE_SIZE - offs) as Es. { cbn. unfold CFG_CORE_HEAP_SIZE, SMALL_PAGE_SIZE in *. rewrite (uwrap_small 64 (lenZ ps * 4096)) by (unfold is_u; lia). apply uwrap_small. unfold is_u. lia. }
  exists (made_own (brk s) (m_size r) o). split; [|by rewrite Es]. apply (inv_made (set_alloc (tl (faults s)) (brk s + 1) s) G t o (brk s) r); try done.
  - cbn. destruct (heap s !! brk s) as [r0|] eqn:E; [|done]. pose proof (mi_brk _ (i_mem _ _ I) _ _ E). lia.
  - cbn. lia.
  - split; [|cbn; lia|cbn; lia|done]. cbn. apply Forall_forall. intros p Hp. rewrite forallb_forall in Ef. specialize (Ef p ltac:(by apply list_elem_of_In)). apply andb_true_iff in Ef as [F1 F2]. bool_hyps. rewrite Forall_forall in Hu. split; [by apply Hu|done].
Qed.

(** ** Publication *)

Lemma unguard_ok t o o' l sz : refs o ≡ₚ (Reg l, sz) :: refs o' -> made o ≡ₚ l :: made o' -> maps o' = maps o -> frees o' = frees o -> unms o' = unms o -> wts o' = wts o -> nwait o' = nwait o -> owes o' = owes o -> cur o' = cur o -> wf o' ->
  ok t o (section (mobj_reg_shm_unguard l)) (fun _ o1 => o1 = o').
Proof.
  intros E1 E2 E3 E4 E5 E6 E7 E8 E9 Hwf. apply ok_sect. intros s G I Ht Hcv. destruct (ref_live s G t o l I Ht) as (r & Hr & Hpos); [rewrite E1; by left|]. unfold mobj_reg_shm_unguard. rewrite (upd_run s l r) by done. exists o'. split; [|done]. sums l Ht o'.
  assert (nref (Reg l) o = S (nref (Reg l) o') /\ nmade l o = S (nmade l o')) as [N1 N2] by (unfold nref, nmade; rewrite (cnt_fmap_perm fst _ _ _ E1), (cnt_perm _ _ _ E2); cbn; by rewrite !cnt_cons, !decide_True).
  assert (nfree l o' = nfree l o /\ nwts l o' = nwts l o /\ nmap l o' = nmap l o /\ nunm l o' = nunm l o) as (N3 & N4 & N5 & N6) by (unfold nfree, nwts, nmap, nunm; repeat split; congruence).
  destruct (i_cnt _ _ I _ _ Hr) as [K1 K2 K3 K4 K5 K6 K7 K8 K9 K10 K11]. cbn in K1, K2, K4, K6, K7, K8, K9, K11. pose proof (total_le (nmade l) G t o Ht). pose proof (K9 ltac:(lia)) as Hg. rewrite Hg in *. cbn in K1. assert (releasing r = false) as Er by (destruct (releasing r); [by specialize (K3 eq_refl)|done]).
  eapply inv_upd; try done.
  - intros l' Hne. split; unfold nref, nmap, nfree, nunm, nmade, nwts; rewrite ?E3, ?E4, ?E5, ?E6; try done; [rewrite (cnt_fmap_perm fst _ _ _ E1)|rewrite (cnt_perm _ _ _ E2)]; cbn; by rewrite cnt_cons, decide_False by congruence.
  - unfold nref. rewrite (cnt_fmap_perm fst _ _ _ E1). cbn. by rewrite cnt_cons, decide_False.
  - lia.
  - cbn. by left.
  - intros _. lia.
  - rewrite Er in *. split; cbn; rewrite ?Er; cbn; try done; try lia.
    intros Hs Hz. specialize (K11 Hs Hz). lia.
  - apply (live_geo s); [|by eapply same_geo_upd|].
    + eapply live_sub; [by eapply i_live|..]; rewrite ?E3, ?E4, ?E6; try done. intros x Hx. rewrite E1. by right.
    + intros l0 b Hb. cbn. destruct (decide (l0 = l)) as [->|]; [|by rewrite lookup_insert_ne]. rewrite E4 in Hb. pose proof (free_no_ref _ _ _ _ _ _ _ I Hr Ht Hb). lia.
Qed.

(** ** Mapping *)

Lemma set_heap_id s l r : heap s !! l = Some r -> set_heap (<[l := r]>) s = s.
Proof. intros Hr. unfold set_heap. rewrite insert_id by done. by destruct s. Qed.

(** A change of the window of an object that a thread does not rely on. *)
Lemma live_remap s s' x l r r' : live s x -> heap s !! l = Some r -> heap s' = <[l := r']> (heap s) ->
  pages r' = pages r -> page_offset r' = page_offset r -> m_size r' = m_size r -> guarded r' = guarded r -> (m_mm r' = m_mm r \/ nmap l x = 0%nat) -> live s' x.
Proof.
  intros [L1 L2 L3 L4] Hr Eh R1 R2 R3 R4 Hm. split; unfold size_of, wf_win; rewrite Eh.
  - intros [|l0] sz Hin; specialize (L1 _ _ Hin); cbn in *; [done|]. destruct (decide (l0 = l)) as [->|]; [rewrite lookup_insert_eq; rewrite Hr in L1; cbn in *; congruence|by rewrite lookup_insert_ne].
  - intros l0 w Hin. destruct (L2 _ _ Hin) as (r0 & Hr0 & W1 & W2 & W3). destruct (decide (l0 = l)) as [->|]; [|exists r0; by rewrite lookup_insert_ne]. exists r'. rewrite lookup_insert_eq. simplify_eq. destruct Hm as [Hm|Hm%cnt_zero]; [repeat split; congruence|]. destruct Hm. apply list_elem_of_fmap. by exists (l, w).
  - intros l0 b Hin. destruct (L3 _ _ Hin) as (r0 & Hr0 & Hg). destruct (decide (l0 = l)) as [->|]; [exists r'; rewrite lookup_insert_eq; simplify_eq; by split|exists r0; by rewrite lookup_insert_ne].
  - intros l0 Hin. destruct (decide (l0 = l)) as [->|]; [by rewrite lookup_insert_eq|rewrite lookup_insert_ne by done; by apply L4].
Qed.

(** Changes of the window of an object, while nobody relies on it. *)
Lemma inv_remap s s' G t o o' l r r' : inv s G -> G !! t = Some o -> t ∉ shm_cv s -> heap s !! l = Some r -> mem_inv s' -> heap s' = <[l := r']> (heap s) -> same_misc s s' ->
  pages r' = pages r -> page_offset r' = page_offset r -> m_size r' = m_size r -> guarded r' = guarded r -> release_frees r' = release_frees r ->
  (m_mm r' = m_mm r \/ total (nmap l) G = 0%nat) -> (forall l', l' <> l -> same_at l' o o') -> nref Shm o' = nref Shm o -> nwait o' = nwait o -> cur o' = cur o -> owes o' = owes o ->
  cnt_ok r' (counts_of (<[t := o']> G) l) -> wf o' -> live s' o' -> inv s' (<[t := o']> G).
Proof.
  intros I Ht Hcv Hr M' Eh [S1 S2 S3 S4] R1 R2 R3 R4 R5 Hm Sm Es Ew Ec Eo Hc Hwf Hlv. eapply inv_frame; try done.
  - rewrite S1, Ew. done.
  - rewrite Eo. done.
  - rewrite Eh. intros l0 r0 [[<- <-]|[Hne Hr0]]%lookup_insert_Some; [done|]. rewrite (counts_same G t o) by auto. by apply I.
  - intros t' x Hne Hx. eapply (live_remap s s' x l r r'); try done; [by eapply i_live|]. destruct Hm; [by left|right]. pose proof (total_le (nmap l) _ _ _ Hx). lia.
  - intros t' x l0 r0 _ _ _ Hr0 E0. right. rewrite Eh. destruct (decide (l0 = l)) as [->|]; [exists r'; rewrite lookup_insert_eq; split; [done|congruence]|exists r0; by rewrite lookup_insert_ne].
Qed.

(** The bytes a window shows. *)
Definition win_size (w : win) : Z := lenZ (w_pages w) * SMALL_PAGE_SIZE - w_off w.

(** A window for object [l], as large as the references say. *)
Definition win_ok (o : own) (l : Z) (w : win) : Prop := 0 <= w_off w < SMALL_PAGE_SIZE /\ forall sz, (Reg l, sz) ∈ refs o -> win_size w = sz.

Definition win_of (r : mobj_reg_shm) (e : tee_mm_entry) : win := mk_win e (pages r) (page_offset r).

Lemma wf_add_map o l w : wf o -> Reg l ∈ fst <$> refs o -> (length (maps o) < NREFS)%nat -> wf (o_maps ((l, w) :: maps o) o).
Proof. intros [W1 W2 W3 W4 W5 W5' W6] Hin Hl. split; try done. cbn. intros l0 [->|?]%elem_of_cons; auto. Qed.

Lemma inc_map_ok t o l : Reg l ∈ fst <$> refs o -> (length (maps o) < NREFS)%nat ->
  ok t o (section (mobj_reg_shm_inc_map l)) (fun res o' => if res =? TEE_SUCCESS then exists w, win_ok o l w /\ o' = o_maps ((l, w) :: maps o) o else o' = o).
Proof.
  intros Hin Hl. apply ok_sect. intros s G I Ht Hcv. destruct (ref_live s G t o l I Ht Hin) as (r & Hr & _). pose proof (refc_bound _ _ _ _ I Hr) as [_ Bd]. unfold mobj_reg_shm_inc_map.
  destruct (i_cnt _ _ I _ _ Hr) as [K1 K2 K3 K4 K5 K6 K7 K8 K9 K10 K11]. cbn in K1, K2, K4, K6, K7, K8, K9, K11. pose proof (i_live _ _ I _ _ Ht) as Lv.
  assert (forall e, win_ok o l (win_of r e)) as Wok.
  { intros e. destruct (mi_shape _ (i_mem _ _ I) _ _ Hr) as [S1 S2 S3 S4]. split; [done|]. intros sz Hsz. pose proof (li_refs _ _ Lv _ _ Hsz) as E. cbn in E. rewrite Hr in E. injection E as <-. by rewrite S4. }
  destruct (decide (mapcount r = 0)) as [E0|N0].
  - rewrite (bind_run _ _ _ _ _ (on_mapcount_run s l r (refcount_inc []) false 0 Hr ltac:(by rewrite E0))). assert (set_mapcount 0 r = r) as -> by (destruct r; cbn in *; by subst). rewrite set_heap_id by done.
    destruct (map_window_run s l r (i_mem _ _ I) Hr) as (res & s' & e & Ew & M' & Eh & Sm & He1 & He2 & He3). rewrite (bind_run _ _ _ _ _ Ew). destruct (res =? TEE_SUCCESS) eqn:Er; bool_hyps.
    + destruct (He2 Er) as [e0 ->]. assert (heap s' !! l = Some (set_mm (Some e0) r)) as Hr' by (rewrite Eh; apply lookup_insert_eq). rewrite (bind_run _ _ _ _ _ (on_mapcount_run s' l _ (refcount_set 1) tt 1 Hr' eq_refl)). cbn.
      set (o' := o_maps ((l, win_of r e0) :: maps o) o). exists o'. split; [|exists (win_of r e0); by split]. sums l Ht o'. assert (nmap l o' = S (nmap l o)) as N1 by (unfold nmap, o'; cbn; by rewrite cnt_cons, decide_True).
      assert (nref (Reg l) o' = nref (Reg l) o /\ nfree l o' = nfree l o /\ nwts l o' = nwts l o /\ nmade l o' = nmade l o /\ nunm l o' = nunm l o) as (N2 & N3 & N4 & N5 & N6) by done.
      set (r' := set_mapcount 1 (set_mm (Some e0) r)). assert (heap (set_heap (<[l := r']>) s') = <[l := r']> (heap s)) as Eh' by (cbn; by rewrite Eh, insert_insert_eq).
      eapply (inv_remap s _ G t o o' l r r'); try done.
      * eapply mem_geo; [exact M'|by eapply same_geo_upd; [exact Hr'|]|done..].
      * destruct Sm. by split.
      * right. lia.
      * intros l' Hne. split; try done. unfold nmap, o'. cbn. by rewrite cnt_cons, decide_False by congruence.
      * split; cbn; try done; try lia. intros. apply K9. lia.
      * apply wf_add_map; [by eapply i_wf|done|done].
      * assert (live (set_heap (<[l := r']>) s') o) as [L1 L2 L3 L4] by (eapply (live_remap s _ o l r r'); try done; right; pose proof (total_le (nmap l) _ _ _ Ht); lia). split; try done. cbn. intros l0 w [[= -> ->]|Hi]%elem_of_cons; [exists r'; cbn; by rewrite lookup_insert_eq|by apply L2].
    + cbn. rewrite (proj2 (Z.eqb_neq _ _) Er). exists o. split; [|done]. rewrite (He3 Er) in Eh. assert (set_mm (m_mm r) r = r) as Ei by (by destruct r). rewrite Ei in Eh.
      eapply (inv_remap s s' G t o o l r r); try done; [by left|rewrite list_insert_id by done; by apply I|by eapply i_wf|]. eapply live_heap; [exact Lv|]. by rewrite Eh, insert_id.
  - rewrite (bind_run _ _ _ _ _ (on_mapcount_run s l r _ _ _ Hr (inc_run (mapcount r) ltac:(lia)))). cbn. destruct (m_mm r) as [e|] eqn:He; [|by specialize (K10 eq_refl)].
    set (o' := o_maps ((l, win_of r e) :: maps o) o). exists o'. split; [|exists (win_of r e); by split]. sums l Ht o'. assert (nmap l o' = S (nmap l o)) as N1 by (unfold nmap, o'; cbn; by rewrite cnt_cons, decide_True).
    assert (nref (Reg l) o' = nref (Reg l) o /\ nfree l o' = nfree l o /\ nwts l o' = nwts l o /\ nmade l o' = nmade l o /\ nunm l o' = nunm l o) as (N2 & N3 & N4 & N5 & N6) by done.
    eapply inv_upd; try done.
    + intros l' Hne. split; try done. unfold nmap, o'. cbn. by rewrite cnt_cons, decide_False by congruence.
    + cbn. by left.
    + split; cbn; rewrite ?He; try done; try lia.
      * intros D. rewrite K7; [lia|]. destruct D; [by left|right; lia].
      * intros. apply K9. lia.
    + apply wf_add_map; [by eapply i_wf|done|done].
    + apply (live_geo s); [|by eapply same_geo_upd|].
      * destruct Lv as [L1 L2 L3 L4]. split; try done. cbn. intros l0 w [[= -> ->]|Hi]%elem_of_cons; [by exists r|auto].
      * intros l0 b Hb. cbn. destruct (decide (l0 = l)) as [->|]; [by rewrite lookup_insert_eq, Hr|by rewrite lookup_insert_ne].
Qed.

(** ** Unmapping *)

Lemma wf_sub_map o o' : wf o -> refs o' = refs o -> (forall x, x ∈ maps o' -> x ∈ maps o) -> (length (maps o') <= length (maps o))%nat -> (forall l, l ∈ unms o' -> l ∈ unms o \/ Reg l ∈ fst <$> refs o) -> made o' = made o -> nwait o' = nwait o -> cur o' = cur o -> wf o'.
Proof.
  intros [W1 W2 W3 W4 W5 W5' W6] E1 E2 E3 E4 E5 E6 E7. split; rewrite ?E1, ?E5, ?E6, ?E7; try done.
  - intros l (x & -> & Hx)%list_elem_of_fmap. apply W1, list_elem_of_fmap. exists x. auto.
  - intros l [?|?]%E4; auto.
  - lia.
  - intros p Hp n m Hm. specialize (W6 p Hp n m Hm). unfold mem_ok in *. by rewrite E1.
Qed.

Lemma dec_mapcount_ok t o l w Mp : Reg l ∈ fst <$> refs o -> maps o ≡ₚ (l, w) :: Mp ->
  ok t o (section (on_mapcount l (refcount_dec []))) (fun z o' => o' = if z : bool then o_unms (l :: unms o) (o_maps Mp o) else o_maps Mp o).
Proof.
  intros Hin Em. apply ok_sect. intros s G I Ht Hcv. destruct (ref_live s G t o l I Ht Hin) as (r & Hr & _). pose proof (refc_bound _ _ _ _ I Hr) as [_ Bd]. pose proof (total_le (nmap l) _ _ _ Ht) as Hle.
  assert (nmap l o = S (cnt l (fst <$> Mp))) as N0 by (unfold nmap; rewrite (cnt_fmap_perm fst _ _ _ Em); cbn; by rewrite cnt_cons, decide_True). destruct (i_cnt _ _ I _ _ Hr) as [K1 K2 K3 K4 K5 K6 K7 K8 K9 K10 K11]. cbn in K1, K2, K4, K6, K7, K8, K9, K11.
  rewrite (on_mapcount_run s l r _ _ _ Hr (refcount_dec_alone (mapcount r) ltac:(lia))). set (z := mapcount r =? 1). set (o' := if z then o_unms (l :: unms o) (o_maps Mp o) else o_maps Mp o). exists o'. split; [|done]. sums l Ht o'.
  assert (refs o' = refs o /\ maps o' = Mp /\ frees o' = frees o /\ made o' = made o /\ wts o' = wts o /\ nwait o' = nwait o /\ owes o' = owes o /\ cur o' = cur o) as (O1 & O2 & O3 & O4 & O5 & O6 & O7 & O8) by (unfold o'; by destruct z).
  assert (nref (Reg l) o' = nref (Reg l) o /\ nfree l o' = nfree l o /\ nwts l o' = nwts l o /\ nmade l o' = nmade l o /\ nmap l o' = cnt l (fst <$> Mp)) as (N1 & N2 & N3 & N4 & N5) by (unfold nref, nfree, nwts, nmade, nmap; by rewrite O1, O2, O3, O4, O5).
  assert (nunm l o' = (nunm l o + if z then 1 else 0)%nat) as N6 by (unfold nunm, o'; destruct z; cbn; [rewrite cnt_cons, decide_True by done; lia|lia]).
  eapply inv_upd; try done.
  - intros l' Hne. split; unfold nref, nfree, nwts, nmade, nmap; rewrite ?O1, ?O2, ?O3, ?O4, ?O5; try done; [rewrite (cnt_fmap_perm fst _ _ _ Em); cbn; by rewrite cnt_cons, decide_False by congruence|]. unfold nunm, o'. destruct z; cbn; [by rewrite cnt_cons, decide_False by congruence|done].
  - unfold nref. by rewrite O1.
  - rewrite O7. lia.
  - cbn. by left.
  - split; cbn; try done; try lia.
    + intros D. rewrite K7; [lia|]. destruct D; [by left|right; lia].
    + intros. apply K9. lia.
    + intros Hn. specialize (K10 Hn). lia.
    + intros Hs Hz. unfold z in N6. destruct (mapcount r =? 1) eqn:E; lia.
  - eapply wf_sub_map; [by eapply i_wf|done|rewrite O2; intros x Hx; rewrite Em; by right|rewrite O2, Em; cbn; lia| |done..]. unfold o'. intros l0. destruct z; cbn; [|by left]. intros [->|?]%elem_of_cons; [by right|by left].
  - apply (live_geo s); [|by eapply same_geo_upd|].
    + eapply live_sub; [by eapply i_live|..]; rewrite ?O1, ?O2, ?O3, ?O5; try done. intros x Hx. rewrite Em. by right.
    + intros l0 b Hb. cbn. destruct (decide (l0 = l)) as [->|]; [by rewrite lookup_insert_eq, Hr|by rewrite lookup_insert_ne].
Qed.

Lemma unmap_ok t o l U : Reg l ∈ fst <$> refs o -> unms o = l :: U ->
  ok t o (section (let! r := reg l in
      match m_mm r with
      | Some _ => if mapcount r =? 0 then reg_shm_unmap_helper l else ret tt
      | None => ret tt
      end)) (fun _ o' => o' = o_unms U o).
Proof.
  intros Hin Eu. apply ok_sect. intros s G I Ht Hcv. destruct (ref_live s G t o l I Ht Hin) as (r & Hr & _). rewrite (bind_run _ _ _ _ _ (reg_run s l r Hr)). set (o' := o_unms U o). sums l Ht o'. pose proof (i_live _ _ I _ _ Ht) as Lv.
  destruct (i_cnt _ _ I _ _ Hr) as [K1 K2 K3 K4 K5 K6 K7 K8 K9 K10 K11]. cbn in K1, K2, K4, K6, K7, K8, K9, K11.
  assert (nref (Reg l) o' = nref (Reg l) o /\ nfree l o' = nfree l o /\ nwts l o' = nwts l o /\ nmade l o' = nmade l o /\ nmap l o' = nmap l o) as (N1 & N2 & N3 & N4 & N5) by done.
  assert (forall l', l' <> l -> same_at l' o o') as Sm by (intros l' Hne; split; try done; unfold nunm, o'; rewrite Eu; cbn; by rewrite cnt_cons, decide_False by congruence).
  assert (wf o') as Hwf by (eapply wf_sub_map; [by eapply i_wf|try done..]; intros l0 Hl0; left; rewrite Eu; by right).
  assert (m_mm r = None \/ mapcount r <> 0 -> inv s (<[t := o']> G)) as Stay.
  { intros D. pose proof (inv_upd s G t o o' l r r I Ht Hcv Hr eq_refl Sm eq_refl eq_refl eq_refl ltac:(done) ltac:(by left) ltac:(done)) as U0. rewrite set_heap_id in U0 by done. apply U0; [|done|eapply live_sub; [exact Lv|done..]].
    split; cbn; try done; try lia.
    - intros D'. rewrite K7; [lia|]. destruct D'; [by left|right; lia].
    - intros. apply K9. lia.
    - intros [e He] Hz. destruct D; congruence. }
  destruct (m_mm r) as [e|] eqn:He; [|exists o'; split; [by apply Stay; left|done]]. destruct (mapcount r =? 0) eqn:Ez; bool_hyps; [|exists o'; split; [by apply Stay; right|done]].
  destruct (unmap_helper_run s l r e (i_mem _ _ I) Hr He) as (s' & -> & M' & Eh & El & Smi). exists o'. split; [|done]. eapply (inv_remap s s' G t o o' l r (set_mm None r)); try done.
  - right. lia.
  - split; cbn; try done; try lia. intros. apply K9. lia.
  - apply (live_sub _ o); try done. eapply (live_remap s s' o l r); try done. right. pose proof (total_le (nmap l) _ _ _ Ht). lia.
Qed.

Lemma dec_map_ok t o l w Mp : Reg l ∈ fst <$> refs o -> maps o ≡ₚ (l, w) :: Mp -> ok t o (mobj_reg_shm_dec_map l) (fun res o' => res = TEE_SUCCESS /\ o' = o_maps Mp o).
Proof.
  intros Hin Em. unfold mobj_reg_shm_dec_map. eapply ok_seq; [by eapply dec_mapcount_ok|]. intros [] o' ->; [|done]. eapply ok_seq; [by eapply (unmap_ok _ _ l (unms o))|]. intros _ o' ->. apply ok_ret. by destruct o.
Qed.

(** ** Access *)

Definition win_va (w : win) (i : Z) : Z := shm_vaspace + offset (w_mm w) * SMALL_PAGE_SIZE + w_off w + i.

(** A mapped object. *)
Record mapped (s : state) (l : Z) (w : win) (r : mobj_reg_shm) : Prop := mk_mapped {
  mp_heap : heap s !! l = Some r;
  mp_mm : m_mm r = Some (w_mm w);
  mp_pages : pages r = w_pages w;
  mp_off : page_offset r = w_off w;
  mp_size : m_size r = win_size w;
  mp_shape : shape r;
  mp_va : tee_mm_get_smem (core_virt_shm_pool s) (w_mm w) = shm_vaspace + offset (w_mm w) * SMALL_PAGE_SIZE;
  mp_top : forall i, 0 <= i < win_size w -> shm_vaspace <= win_va w i < lo (core_virt_shm_pool s) + psz (core_virt_shm_pool s);
  mp_64 : lo (core_virt_shm_pool s) + psz (core_virt_shm_pool s) < 2 ^ 64;
}.

Lemma map_live s G t o l w : inv s G -> G !! t = Some o -> (l, w) ∈ maps o -> exists r, mapped s l w r.
Proof.
  intros I Ht Hin. destruct (li_maps _ _ (i_live _ _ I _ _ Ht) _ _ Hin) as (r & Hr & W1 & W2 & W3). exists r. pose proof (i_mem _ _ I) as M. pose proof (mi_shape _ M _ _ Hr) as Sh. pose proof Sh as [S1 S2 S3 S4]. destruct (smem_va _ _ _ _ M Hr W1) as (V1 & V2 & V3). destruct (mi_eid _ M _ _ _ Hr W1) as [_ Esz]. destruct (mi_pool_ok _ M) as [Q1 Q2 Q3].
  destruct (win_entry _ _ _ _ M Hr W1) as (hd & rs & P1 & _ & [O1 O2 O3]). pose proof (ge_lo _ (pi_geo _ _ _ P1)) as [_ Hhi].
  split; try done; unfold win_size, win_va, va_of in *; rewrite <- ?W2, <- ?W3.
  - done.
  - rewrite V1, Q2. unfold SMALL_PAGE_SIZE. lia.
  - intros i Hi. rewrite Esz in V3. unfold SMALL_PAGE_SIZE in *. lia.
Qed.

Lemma check_offset_true size offs len : 0 <= offs -> 0 < len -> offs + len <= size -> size < 2 ^ 64 -> mobj_check_offset_and_len size offs len = true.
Proof.
  intros Ho Hl Hs Hz. unfold mobj_check_offset_and_len, add_overflow. rewrite (proj2 (Z.eqb_neq len 0)), (proj2 (Z.leb_gt _ _)) by lia. cbn. rewrite uwrap_small by (unfold is_u; lia). lia.
Qed.

Lemma check_offset_inv size offs len : mobj_check_offset_and_len size offs len = true -> 0 <= offs -> 0 <= len -> 0 < len /\ offs + len <= size.
Proof.
  unfold mobj_check_offset_and_len, add_overflow. intros E Ho Hl. destruct (len =? 0) eqn:E1; [done|]. destruct (2 ^ 64 <=? offs + (len - 1)) eqn:E2; [done|]. cbn in E. bool_hyps. rewrite uwrap_small in E by (unfold is_u; lia). lia.
Qed.

Lemma get_va_run s G t o l w offs len : inv s G -> G !! t = Some o -> (l, w) ∈ maps o -> 0 <= offs -> 0 <= len ->
  mobj_get_va (Some (Reg l)) offs len s = (Ret (if mobj_check_offset_and_len (win_size w) offs len then Some (win_va w offs) else None), s).
Proof.
  intros I Ht Hin Ho Hl. destruct (map_live s G t o l w I Ht Hin) as (r & [M1 M2 M3 M4 M5 M6 M7 M8 M9]). unfold mobj_get_va, mobj_reg_shm_get_va. rewrite (bind_run _ _ _ _ _ (reg_run s l r M1)), M2, M5.
  destruct (mobj_check_offset_and_len (win_size w) offs len) eqn:E; cbn [negb]; [|done]. rewrite (bind_run _ _ _ s s) by done. unfold ret. do 3 f_equal. rewrite M7, M4. apply check_offset_inv in E as [E1 E2]; [|done|done]. specialize (M8 offs ltac:(lia)). unfold win_va in *.
  destruct p_vaspace. rewrite uwrap_small by (unfold is_u; lia). lia.
Qed.

Lemma get_va_ok t o l w offs len : (l, w) ∈ maps o -> 0 <= offs -> 0 <= len ->
  ok t o (section (mobj_get_va (Some (Reg l)) offs len)) (fun va o' => o' = o /\ va = if mobj_check_offset_and_len (win_size w) offs len then Some (win_va w offs) else None).
Proof. intros Hin Ho Hl. apply ok_rd. intros s G I Ht. rewrite (get_va_run s G t o l w) by done. by eexists. Qed.

Lemma byte_mapped s G t o l w i : inv s G -> G !! t = Some o -> (l, w) ∈ maps o -> 0 <= i < win_size w -> byte_ok_at s (Reg l) i (win_va w i) = true.
Proof.
  intros I Ht Hin Hi. destruct (map_live s G t o l w I Ht Hin) as (r & [M1 M2 M3 M4 M5 [S1 S2 S3 S4] M7 M8 M9]). specialize (M8 i Hi). pose proof (i_mem _ _ I) as M. destruct (mi_pool_ok _ M) as [Q1 Q2 Q3]. destruct p_vaspace as [Hv Hv0].
  set (f := i + w_off w). rewrite M4 in S3. assert (0 <= f < lenZ (w_pages w) * SMALL_PAGE_SIZE) as Hf by (unfold win_size in Hi; unfold f; lia).
  assert (0 <= f / SMALL_PAGE_SIZE) as Hd by (apply Z.div_pos; [lia|done]).
  assert (is_Some (w_pages w !! Z.to_nat (f / SMALL_PAGE_SIZE))) as [p Hp]. { apply lookup_lt_is_Some_2. unfold lenZ in Hf. assert (f / SMALL_PAGE_SIZE < Z.of_nat (length (w_pages w))) by (apply Z.div_lt_upper_bound; unfold SMALL_PAGE_SIZE in *; lia). lia. }
  assert (page_ok p) as (P1 & P2 & P3) by (rewrite M3 in S1; rewrite Forall_forall in S1; apply S1; by eapply list_elem_of_lookup_2).
  assert (win_va w i = va_of (core_virt_shm_pool s) (w_mm w) (f / SMALL_PAGE_SIZE) + f mod SMALL_PAGE_SIZE) as Ev. { unfold win_va, va_of. rewrite Q2. pose proof (Z.div_mod f SMALL_PAGE_SIZE ltac:(done)). unfold f, SMALL_PAGE_SIZE in *. lia. }
  assert (0 <= f mod SMALL_PAGE_SIZE < SMALL_PAGE_SIZE) as Hmb by (by apply Z.mod_pos_bound). assert (win_va w i mod SMALL_PAGE_SIZE = f mod SMALL_PAGE_SIZE) as Em.
  { rewrite Ev. unfold va_of. rewrite Q2. rewrite <- Zplus_mod_idemp_l. rewrite Z.mod_add by done. rewrite Hv0. by rewrite Z.add_0_l, Zmod_mod. }
  destruct (page_nsec_bytes p (f mod SMALL_PAGE_SIZE) P1 P3 Hmb) as [Hn Hb]. unfold byte_ok_at, translate.
  assert ((shm_va <=? win_va w i) && (win_va w i <? shm_va + shm_size) = false) as -> by (destruct Q3; [rewrite (proj2 (Z.leb_gt _ _)) by lia; done|rewrite (proj2 (Z.ltb_ge (win_va w i) _)) by lia; apply andb_false_r]).
  assert (table s !! (win_va w i - win_va w i mod SMALL_PAGE_SIZE) = Some p) as ->.
  { apply (mi_table _ M). exists l, r, (w_mm w), (Z.to_nat (f / SMALL_PAGE_SIZE)). split; [done|]. split; [done|]. split; [by rewrite M3|]. rewrite Em, Ev, Z2Nat.id by done. lia. }
  cbn [mbind option_bind]. rewrite Em, Hn, andb_true_r. apply bool_decide_eq_true. cbn. rewrite (proj2 (Z.leb_le 0 i)) by lia. rewrite M1. cbn. unfold mobj_reg_shm_get_pa. rewrite M5, (proj2 (Z.leb_gt _ _)) by lia. rewrite M4. fold f.
  rewrite (uwrap_small 64 f) by (unfold is_u, CFG_CORE_HEAP_SIZE, SMALL_PAGE_SIZE in *; rewrite M3 in S2; lia). rewrite M3, Hp. cbn. f_equal. rewrite land_page. unfold is_u in P1. apply uwrap_small. unfold is_u. lia.
Qed.

Lemma byte_reserved s i : 0 <= i < shm_size -> byte_ok_at s Shm i (shm_va + i) = true.
Proof.
  intros Hi. destruct p_pa, p_va. unfold byte_ok_at, translate. rewrite (proj2 (Z.leb_le _ _)), (proj2 (Z.ltb_lt _ _)) by lia. cbn. replace (shm_va + i - shm_va) with i by lia. rewrite (proj2 (Z.leb_le 0 i)), (proj2 (Z.ltb_lt i _)) by lia. cbn. rewrite uwrap_small by (unfold is_u; lia). rewrite bool_decide_true by done. cbn.
  unfold core_pbuf_is_nsec. cbn [Z.eqb orb]. apply existsb_exists. exists (shm_pa, shm_size). split; [apply list_elem_of_In; apply p_nsec|]. cbn. unfold core_is_buffer_inside, is_valid_conf_and_notnull_size. pose proof p_size.
  rewrite !andb_true_iff, !negb_true_iff, !orb_false_iff, !Z.ltb_ge, !Z.leb_le, !Z.eqb_neq. rewrite !(uwrap_small 64) by (unfold is_u; lia). lia.
Qed.

(** Bytes that a thread may access at [va]: those of an object from [offs] on, [len] of them. *)
Definition window (o : own) (p : ptr) (offs va len : Z) : Prop :=
  match p with
  | Shm => va = shm_va + offs /\ 0 <= offs /\ offs + len <= shm_size
  | Reg l => exists w, (l, w) ∈ maps o /\ va = win_va w offs /\ 0 <= offs /\ offs + len <= win_size w
  end.

Lemma access_ok t o p offs va len i n : window o p offs va len -> 0 <= i -> i + n <= len -> ok t o (section (access p (offs + i) (va + i) n)) (fun _ o' => o' = o).
Proof.
  intros W Hi Hn. apply ok_rd. intros s G I Ht. exists tt. split; [|done]. unfold access. rewrite (bind_run _ _ _ s s) by done.
  assert (forallb (fun j => byte_ok_at s p (offs + i + j) (va + i + j)) (seqZ 0 n) = true) as ->; [|done]. apply forallb_forall. intros j Hj%list_elem_of_In%elem_of_seqZ. destruct p as [|l]; cbn in W.
  - destruct W as (-> & ? & ?). replace (shm_va + offs + i + j) with (shm_va + (offs + i + j)) by lia. apply byte_reserved. lia.
  - destruct W as (w & Hin & -> & ? & ?). replace (win_va w offs + i + j) with (win_va w (offs + i + j)) by (unfold win_va; lia). eapply byte_mapped; try done. lia.
Qed.
End Map.
