(* ===== verification/ShmCalls.v ===== *)
(** * Shared memory: parameters of calls

    Lists of pages, copying parameters in and out, and mapping them for pseudo TAs, in the logic of
    [ShmInv]. *)
From stdpp Require Import gmap.
From S2P Require Import Prelude TeeMm RecMutex Threads Shm ShmMsg ShmInv ShmMem ShmObj ShmMap.
Local Open Scope Z_scope.

Section Calls.
Context `{PlatformOk}.

(** ** Objects that are mapped by their maker *)

Definition mapped_own (l sz : Z) (w : win) (o : own) : own := o_maps ((l, w) :: maps o) (made_own l sz o).

Lemma wf_made_own l sz o : wf o -> (length (refs o) < NREFS)%nat -> wf (made_own l sz o).
Proof. intros Hwf Hl. pose proof (wf_add o (Reg l, sz) Hwf Hl) as [W1 W2 W3 W4 W5 W5' W6]. split; try done. cbn. intros l0 [->|?]%elem_of_cons; [by left|by apply W2]. Qed.

Lemma drops_made l sz o : drops l (made_own l sz o) o.
Proof. split; try done; [by exists sz|]. left. split; [done|by right]. Qed.

Lemma drops_mapped l sz w o : drops l (mapped_own l sz w o) o.
Proof. split; try done; [by exists sz|]. right. by exists w. Qed.

(** Giving up the knowledge that nobody else has mapped an object. *)
Lemma inv_forget s G t o l sz : inv s G -> G !! t = Some (made_own l sz o) -> inv s (<[t := o_refs ((Reg l, sz) :: refs o) o]> G).
Proof.
  intros I Ht. set (o1 := made_own l sz o) in *. set (o2 := o_refs ((Reg l, sz) :: refs o) o).
  assert (forall l', nref (Reg l') o2 = nref (Reg l') o1 /\ nmap l' o2 = nmap l' o1 /\ nfree l' o2 = nfree l' o1 /\ nunm l' o2 = nunm l' o1 /\ nwts l' o2 = nwts l' o1 /\ (nmade l' o2 <= nmade l' o1)%nat) as N by (intros l'; do 5 (split; [done|]); unfold nmade, o1; cbn; rewrite cnt_cons; lia).
  split.
  - intros l' r Hr. destruct (N l') as (N1 & N2 & N3 & N4 & N5 & N6). destruct (i_cnt _ _ I _ _ Hr) as [K1 K2 K3 K4 K5 K6 K7 K8 K9 K10 K11]. pose proof (total_insert (nmade l') G t o1 o2 Ht). unfold counts_of in *. rewrite (total_same (nref _) G t o1 o2), (total_same (nmap _) G t o1 o2), (total_same (nfree _) G t o1 o2), (total_same (nunm _) G t o1 o2), (total_same (nwts _) G t o1 o2) by done. cbn in K1, K2, K4, K6, K7, K8, K9, K11. split; cbn; try done; [|lia|].
    + intros D. apply K7. destruct D; [by left|right; lia].
    + intros. apply K9. lia.
  - apply I.
  - intros t' x [[-> ->]|[_ ?]]%insert_cases; [|by eapply i_wf]. destruct (i_wf _ _ I _ _ Ht) as [W1 W2 W3 W4 W5 W5' W6]. split; try done. cbn. intros l0 Hl0. apply W2. by right.
  - intros t' x [[-> ->]|[_ ?]]%insert_cases; [|by eapply i_live]. eapply live_sub; [by eapply i_live|done..].
  - rewrite (total_same _ G t o1 o2) by done. apply I.
  - rewrite (total_same _ G t o1 o2) by done. apply I.
  - intros t' Hin. destruct (i_cv _ _ I t' Hin) as (x & l0 & Hx & D). rewrite <- (total_same owes G t o1 o2) in D by done. destruct (decide (t' = t)) as [->|]; [|exists x, l0; by rewrite list_lookup_insert_ne]. exists o2, l0. rewrite list_lookup_insert_eq by (by eapply lookup_lt_Some). simplify_eq. done.
  - intros t' p. rewrite (i_run _ _ I). destruct (decide (t' = t)) as [->|]; [|by rewrite list_lookup_insert_ne]. rewrite list_lookup_insert_eq by (by eapply lookup_lt_Some). split; intros (x & Hx & Ex); simplify_eq; by eexists.
  - unfold lenZ. rewrite length_insert. apply I.
Qed.

(** ** Lists of pages *)

Lemma mapped_alloc_ok t o ps offs ck : wf o -> (length (refs o) < NREFS)%nat -> (length (maps o) < NREFS)%nat -> Forall (is_u 64) ps -> 0 <= offs ->
  ok t o (mobj_mapped_shm_alloc ps offs ck) (fun m o' => match m with None => o' = o | Some l => exists w, 0 <= w_off w < SMALL_PAGE_SIZE /\ win_size w = lenZ ps * SMALL_PAGE_SIZE - offs /\ o' = mapped_own l (lenZ ps * SMALL_PAGE_SIZE - offs) w o end).
Proof.
  intros Hwf Hl Hm Hu Ho. unfold mobj_mapped_shm_alloc. eapply ok_seq; [by apply alloc_ok|]. intros [l|] o1 ->; [|done]. set (sz := lenZ ps * SMALL_PAGE_SIZE - offs).
  eapply ok_seq; [apply inc_map_ok; [by left|done]|]. intros res o2. cbn beta. destruct (res =? TEE_SUCCESS); intros E.
  - destruct E as (w & [W1 W2] & ->). apply ok_ret. exists w. split; [done|]. split; [apply W2; by left|done].
  - subst o2. eapply (ok_seq _ _ _ _ (fun _ o' => o' = o)); [|intros _ o3 ->; by apply ok_ret]. apply (put_drops_ok t _ o); [done|apply drops_made].
Qed.

(** What is owned while a page of a list is mapped. *)
Definition list_own (l : Z) (w : win) (o : own) : own := mapped_own l SMALL_PAGE_SIZE w o.

Lemma put_list_ok t o l w : wf o -> ok t (list_own l w o) (mobj_put (Some (Reg l))) (fun _ o' => o' = o).
Proof. intros Hwf. apply put_drops_ok; [done|apply drops_mapped]. Qed.

Lemma map_list_page_ok t o page : wf o -> (length (refs o) < NREFS)%nat -> (length (maps o) < NREFS)%nat -> is_u 64 page ->
  ok t o (map_list_page page) (fun m o' => match m with None => o' = o | Some (l, va) => exists w, w_off w = 0 /\ win_size w = SMALL_PAGE_SIZE /\ va = win_va w 0 /\ o' = list_own l w o end).
Proof.
  intros Hwf Hl Hm Hu. unfold map_list_page. eapply ok_seq; [apply mapped_alloc_ok; try done; by constructor|]. intros [l|] o1 E; [|by apply ok_ret]. destruct E as (w & W1 & W2 & ->). change (lenZ [page] * SMALL_PAGE_SIZE - 0) with SMALL_PAGE_SIZE in *.
  assert (w_off w = 0) as W0 by (unfold win_size, SMALL_PAGE_SIZE in *; lia). eapply (ok_seq _ _ _ _ (fun va o' => va = win_va w 0 /\ o' = list_own l w o)); [|intros va o' [-> ->]; apply ok_ret; by exists w].
  apply ok_rd. intros s G I Ht. assert ((l, w) ∈ maps (list_own l w o)) as Hin by (by left). rewrite (bind_run _ _ _ _ _ (get_va_run s G t _ l w 0 SMALL_PAGE_SIZE I Ht Hin ltac:(done) ltac:(done))), W2, check_offset_true by done.
  destruct (map_live s G t _ l w I Ht Hin) as (r & Mp). pose proof (mp_top _ _ _ _ Mp 0) as Tp. rewrite W2 in Tp. specialize (Tp ltac:(done)). destruct p_vaspace. rewrite (proj2 (Z.eqb_neq _ _)) by lia. by eexists.
Qed.

(** [k] is the place in the mapped page of the next entry. *)
Lemma extract_loop_ok t o rd : wf o -> (length (refs o) < NREFS)%nat -> (length (maps o) < NREFS)%nat -> forall n j l w k ps, w_off w = 0 -> win_size w = SMALL_PAGE_SIZE -> 0 <= k < SMALL_PAGE_SIZE -> k mod 8 = 0 -> Forall (is_u 64) ps ->
  ok t (list_own l w o) (extract_loop rd j l (win_va w k) n ps) (fun r o' => match r.1 with None => o' = o | Some l' => exists w', o' = list_own l' w' o end /\ match r.2 with None => True | Some ps' => Forall (is_u 64) ps' /\ length ps' = (n + length ps)%nat end).
Proof.
  intros Hwf Hl Hm. induction n as [|n IH]; intros j l w k ps W0 Ws Hk Hk8 Hps; cbn [extract_loop]; [apply ok_ret; cbn; by split; [exists w|]|].
  assert (forall l w k, w_off w = 0 -> win_size w = SMALL_PAGE_SIZE -> 0 <= k < SMALL_PAGE_SIZE -> k mod 8 = 0 -> ok t (list_own l w o) (load l (win_va w k)) (fun _ o' => o' = list_own l w o)) as Load.
  { intros l0 w0 k0 E1 E2 E3 E4. unfold load. assert (win_va w0 k0 mod SMALL_PAGE_SIZE = k0) as ->.
    { destruct p_vaspace as [_ Hv]. unfold win_va. rewrite E1, Z.add_0_r, <- Zplus_mod_idemp_l, Z.mod_add, Hv by done. rewrite Z.add_0_l. by apply Z.mod_small. }
    replace k0 with (k0 + 0) at 1 by lia. replace (win_va w0 k0) with (win_va w0 k0 + 0) by lia. apply (access_ok t _ (Reg l0) k0 (win_va w0 k0) (SMALL_PAGE_SIZE - k0)); [|lia|].
    - exists w0. split; [by left|]. split; [done|]. lia.
    - unfold SMALL_PAGE_SIZE in *. pose proof (Z.div_mod k0 8 ltac:(lia)). lia. }
  assert (forall j l w k, w_off w = 0 -> win_size w = SMALL_PAGE_SIZE -> 0 <= k < SMALL_PAGE_SIZE - 8 -> k mod 8 = 0 ->
    ok t (list_own l w o) (do* load l (win_va w k) in let p := u64 (rd j) in if negb (Z.land p SMALL_PAGE_MASK =? 0) then Done (Some l, None) else extract_loop rd (S j) l (win_va w k + 8) n (ps ++ [p]))
     (fun r o' => match r.1 with None => o' = o | Some l' => exists w', o' = list_own l' w' o end /\ match r.2 with None => True | Some ps' => Forall (is_u 64) ps' /\ length ps' = (S n + length ps)%nat end)) as Entry.
  { intros j0 l0 w0 k0 E1 E2 E3 E4. unfold SMALL_PAGE_SIZE in E3. eapply ok_seq; [apply Load; try done; unfold SMALL_PAGE_SIZE; lia|]. intros _ o1 ->. cbn zeta. destruct (negb _); [apply ok_ret; cbn; split; [by exists w0|done]|].
    replace (win_va w0 k0 + 8) with (win_va w0 (k0 + 8)) by (unfold win_va; lia). eapply ok_conseq; [apply IH; try done|].
    - unfold SMALL_PAGE_SIZE. lia.
    - rewrite <- Zplus_mod_idemp_l, E4. done.
    - apply Forall_app. split; [done|]. constructor; [by apply uwrap_range|done].
    - cbn. intros [m q] o'. cbn. intros [? ?]. split; [done|]. destruct q; [|done]. rewrite length_app in *. cbn in *. split; [naive_solver|]. destruct_and!. lia. }
  destruct (Z.land (win_va w k + 8) SMALL_PAGE_MASK =? 0) eqn:El.
  - eapply ok_seq; [by apply Load|]. intros _ o1 ->. cbn zeta. destruct (negb _); [apply ok_ret; cbn; split; [by exists w|done]|]. eapply ok_seq; [by apply put_list_ok|]. intros _ o1 ->.
    eapply ok_seq; [apply map_list_page_ok; try done; by apply uwrap_range|]. intros [[l' va']|] o1 E; [|subst; by apply ok_ret]. destruct E as (w' & E1 & E2 & -> & ->). by apply (Entry (S j) l' w' 0).
  - apply (Entry j l w k); try done. bool_hyps. rewrite land_page in El. destruct (decide (k = SMALL_PAGE_SIZE - 8)) as [->|]; [|unfold SMALL_PAGE_SIZE in *; pose proof (Z.div_mod k 8 ltac:(lia)); lia]. exfalso. apply El. destruct p_vaspace as [_ Hv]. unfold win_va. rewrite W0, Z.add_0_r. replace (shm_vaspace + offset (w_mm w) * SMALL_PAGE_SIZE + (SMALL_PAGE_SIZE - 8) + 8) with (shm_vaspace + (offset (w_mm w) + 1) * SMALL_PAGE_SIZE) by (unfold SMALL_PAGE_SIZE; lia). by rewrite Z.mod_add.
Qed.
Lemma extract_pages_ok t o rd buffer n : wf o -> (length (refs o) < NREFS)%nat -> (length (maps o) < NREFS)%nat -> is_u 64 buffer ->
  ok t o (msg_param_extract_pages rd buffer n) (fun ps o' => o' = o /\ match ps with None => True | Some ps => Forall (is_u 64) ps /\ lenZ ps = Z.max 0 n end).
Proof.
  intros Hwf Hl Hm Hu. unfold msg_param_extract_pages. destruct (negb _); [by apply ok_ret|]. eapply ok_seq; [by apply map_list_page_ok|]. intros [[l va]|] o1 E; [|subst; by apply ok_ret]. destruct E as (w & E1 & E2 & -> & ->).
  eapply ok_seq; [by apply extract_loop_ok|]. intros [m q] o1 [Eo Eq]. cbn in Eo, Eq. eapply (ok_seq _ _ _ _ (fun _ o' => o' = o)).
  - destruct m as [l'|]; cbn; [|by apply ok_ret]. destruct Eo as [w' ->]. by apply put_list_ok.
  - intros _ o2 ->. apply ok_ret. split; [done|]. cbn. destruct q as [ps|]; [|done]. destruct Eq as [? Eq]. split; [done|]. unfold lenZ. cbn in Eq. lia.
Qed.

Lemma malloc_ok t o n : ok t o (section (malloc n)) (fun a o' => o' = o /\ (is_Some a -> n <= CFG_CORE_HEAP_SIZE)).
Proof.
  apply ok_sect. intros s G I Ht Hcv. destruct (malloc_run n s) as (a & b & -> & Hb & Ha). exists o. split; [|split; [done|]; intros [l ->]; by destruct (Ha l eq_refl) as (_ & _ & ?)]. rewrite list_insert_id by done. by apply inv_alloc.
Qed.

(** The object made of a list of pages; with [keep] its maker goes on knowing that nobody mapped it. *)
Definition new_own (keep : bool) (l sz : Z) (o : own) : own := if keep then made_own l sz o else o_refs ((Reg l, sz) :: refs o) o.

Lemma alloc_keep_ok t o ps offs ck keep : (length (refs o) < NREFS)%nat -> Forall (is_u 64) ps -> 0 <= offs ->
  ok t o (section (mobj_reg_shm_alloc ps offs ck)) (fun m o' => match m with None => o' = o | Some l => o' = new_own keep l (lenZ ps * SMALL_PAGE_SIZE - offs) o end).
Proof.
  intros Hl Hu Ho. pose proof (alloc_ok t o ps offs ck Hl Hu Ho) as A. destruct keep; [exact A|]. intros s G I Ht Hs. specialize (A s G I Ht Hs). cbn in A |- *. destruct (mobj_reg_shm_alloc ps offs ck s) as [[m| | |] s']; try done. destruct A as [|(o1 & I1 & Q)]; [done|]. right. destruct m as [l|]; [|by exists o1].
  cbn in Q. subst o1. exists (new_own false l (lenZ ps * SMALL_PAGE_SIZE - offs) o). split; [|done]. eapply inv_forget in I1; [|apply list_lookup_insert_eq; by eapply lookup_lt_Some]. by rewrite list_insert_insert_eq in I1.
Qed.

Lemma from_noncontig_ok t o rd buf_ptr sz shm_ref keep : wf o -> (length (refs o) < NREFS)%nat -> (length (maps o) < NREFS)%nat -> is_u 64 buf_ptr -> is_u 64 sz ->
  ok t o (msg_param_mobj_from_noncontig rd buf_ptr sz shm_ref false) (fun m o' => match m with None => o' = o | Some l => exists sz', sz <= sz' /\ o' = new_own keep l sz' o end).
Proof.
  intros Hwf Hl Hm Hb Hz. unfold msg_param_mobj_from_noncontig. rewrite land_page. set (off := buf_ptr mod SMALL_PAGE_SIZE). assert (0 <= off < SMALL_PAGE_SIZE) as Ho by (by apply Z.mod_pos_bound).
  unfold add_overflow. destruct (2 ^ 64 <=? sz + off) eqn:O1; [by apply ok_ret|]. bool_hyps. unfold is_u, SMALL_PAGE_SIZE in *. rewrite (uwrap_small 64 (sz + off)) by (unfold is_u; lia). set (n := u64 (u64 (sz + off - 1) / 4096 + 1)).
  unfold mul_overflow. destruct (2 ^ 64 <=? n * 8) eqn:O2; [by apply ok_ret|]. bool_hyps. eapply ok_seq; [apply malloc_ok|]. intros [a|] o1 [-> Ha]; [|by apply ok_ret]. specialize (Ha ltac:(by eexists)).
  assert (0 <= n < 2 ^ 64) as Hn by (apply uwrap_range; lia). rewrite uwrap_small in Ha by (unfold is_u; lia). unfold CFG_CORE_HEAP_SIZE in Ha.
  assert (sz + off <= n * 4096) as Hfit.
  { destruct (decide (sz + off = 0)) as [E|]; [lia|]. unfold n in *. rewrite (uwrap_small 64 (sz + off - 1)) in * by (unfold is_u; lia). rewrite uwrap_small in * by (unfold is_u; Z.div_mod_to_equations; lia). Z.div_mod_to_equations. lia. }
  eapply ok_seq; [apply extract_pages_ok; try done; unfold is_u, SMALL_PAGE_MASK; change 4095 with (2 ^ 12 - 1); rewrite ldiff_mask by lia; change (2 ^ 12) with 4096; Z.div_mod_to_equations; lia|].
  intros [ps|] o1 [-> Hps]; [|by apply ok_ret]. destruct Hps as [Hps Hlen]. eapply ok_conseq; [apply (alloc_keep_ok t o ps off shm_ref keep); [done|done|lia]|]. intros [l|] o1 ->; [|done]. eexists. split; [|done]. unfold SMALL_PAGE_SIZE. lia.
Qed.

(** ** Types of parameters *)

Lemma lor_shift a b k : 0 <= k -> 0 <= a < 2 ^ k -> Z.lor a (Z.shiftl b k) = a + b * 2 ^ k.
Proof.
  intros Hk Ha. rewrite <- Z.shiftl_mul_pow2 by done. symmetry. apply Z.add_nocarry_lor. apply Z.bits_inj'. intros n Hn. rewrite Z.land_spec, Z.bits_0. destruct (decide (n < k)).
  - rewrite Z.shiftl_spec_low by lia. apply andb_false_r.
  - destruct (decide (a = 0)) as [->|]; [by rewrite Z.bits_0|]. rewrite (Z.bits_above_log2 a n); [done|lia|]. apply Z.log2_lt_pow2; [lia|]. pose proof (Z.pow_le_mono_r 2 k n). lia.
Qed.

Lemma types_get t0 t1 t2 t3 n : is_u 4 t0 -> is_u 4 t1 -> is_u 4 t2 -> is_u 4 t3 -> 0 <= n < 4 ->
  TEE_PARAM_TYPE_GET (TEE_PARAM_TYPES t0 t1 t2 t3) n = nth (Z.to_nat n) [t0; t1; t2; t3] 0.
Proof.
  unfold is_u. change (2 ^ 4) with 16. intros H0' H1 H2 H3 Hn. unfold TEE_PARAM_TYPE_GET, TEE_PARAM_TYPES. rewrite (lor_shift t0 t1 4), (lor_shift _ t2 8), (lor_shift _ t3 12) by lia. rewrite uwrap_small by (unfold is_u; lia). change 15 with (Z.ones 4). rewrite Z.land_ones, Z.shiftr_div_pow2 by lia. change (2 ^ 4) with 16. change (2 ^ 8) with 256. change (2 ^ 12) with 4096.
  assert (n = 0 \/ n = 1 \/ n = 2 \/ n = 3) as [->|[->|[->| ->]]] by lia; [change (Z.to_nat 0) with 0%nat; change (2 ^ (0 * 4)) with 1|change (Z.to_nat 1) with 1%nat; change (2 ^ (1 * 4)) with 16|change (Z.to_nat 2) with 2%nat; change (2 ^ (2 * 4)) with 256|change (Z.to_nat 3) with 3%nat; change (2 ^ (3 * 4)) with 4096]; cbn [nth]; Z.div_mod_to_equations; lia.
Qed.

(** ** Parameters in memory *)

(** The reference that goes with a parameter. *)
Definition slot (x : param_u) (y : option (ptr * Z)) : Prop :=
  match x, y with
  | Mem m, Some (p, _) => mem_mobj m = Some p
  | Mem m, None => mem_mobj m = None
  | _, None => True
  | _, Some _ => False
  end.
Definition bounded (x : param_u) (y : option (ptr * Z)) : Prop :=
  match x, y with
  | Mem m, Some (_, sz) => 0 <= mem_offs m /\ 0 <= mem_size m /\ mem_offs m + mem_size m <= sz
  | Mem m, None => mem_size m = 0
  | _, _ => True
  end.
Definition mem_attr (a : Z) : bool := is_tmem (Z.land a OPTEE_MSG_ATTR_TYPE_MASK) || is_rmem (Z.land a OPTEE_MSG_ATTR_TYPE_MASK).
Definition saved_as (a : Z) (x : param_u) : Prop := match x with Val _ _ => mem_attr a = false | Mem _ => mem_attr a = true | Zero => True end.
Definition kind_ok (ty : Z) (x : param_u) : Prop :=
  is_u 4 ty /\ match x with Mem _ => is_memref ty = true | Val _ _ => is_value_type ty = true | Zero => ty = TEE_PARAM_TYPE_NONE end.

(** The thread owns the references of parameters and nothing else. *)
Definition holding (o : own) (ys : list (option (ptr * Z))) : Prop := o = o_refs (refs o) own0 /\ refs o ≡ₚ omap id ys /\ (length ys <= TEE_NUM_PARAMS)%nat.

Lemma omap_length {A} (ys : list (option A)) : (length (omap id ys) <= length ys)%nat.
Proof. induction ys as [|[a|] ys IH]; cbn; lia. Qed.

Lemma holding_wf o ys : holding o ys -> wf o /\ (length (refs o) < NREFS)%nat /\ (length (maps o) < NREFS)%nat.
Proof.
  intros (E & Er & Hl). pose proof (omap_length ys). assert (length (refs o) <= 4)%nat by (rewrite Er; unfold TEE_NUM_PARAMS in *; lia). unfold NREFS. rewrite E. cbn. split; [|lia]. split; cbn; unfold NREFS; try lia; try (intros l Hin; by apply elem_of_nil in Hin); done.
Qed.

Lemma holding_add o ys x : holding o ys -> (length ys < TEE_NUM_PARAMS)%nat -> holding (o_refs (x :: refs o) o) (ys ++ [Some x]).
Proof.
  intros (E & Er & _) Hl. split; [rewrite E at 2; cbn; by rewrite E at 1|]. split; [|rewrite length_app; cbn; lia]. cbn. rewrite omap_app, Er. cbn. by rewrite Permutation_app_comm.
Qed.

Lemma holding_none o ys : holding o ys -> (length ys < TEE_NUM_PARAMS)%nat -> holding o (ys ++ [None]).
Proof. intros (E & Er & _) Hl. split; [done|]. split; [|rewrite length_app; cbn; lia]. by rewrite omap_app, app_nil_r. Qed.

(** What copying a parameter in leaves. *)
Definition copied (ys : list (option (ptr * Z))) (r : Z * param_u) (o' : own) : Prop :=
  exists y, holding o' (ys ++ [y]) /\ slot r.2 y /\ (forall a b, r.2 <> Val a b) /\ (r.1 = TEE_SUCCESS -> bounded r.2 y /\ exists m, r.2 = Mem m).

Lemma set_tmem_ok t o ys p a : holding o ys -> (length ys < TEE_NUM_PARAMS)%nat -> ok t o (set_tmem_param p a) (copied ys).
Proof.
  intros Ho Hl. destruct (holding_wf _ _ Ho) as (Hwf & Hr & Hm). unfold set_tmem_param. assert (is_u 64 (w1 p) /\ is_u 64 (w2 p)) as [U1 U2] by (split; by apply uwrap_range).
  destruct (w1 p =? 0). { apply ok_ret. exists None. split; [by apply holding_none|]. split; [done|]. split; [done|]. intros _. split; [done|by eexists]. }
  destruct (has a OPTEE_MSG_ATTR_NONCONTIG).
  - eapply ok_seq; [by apply (from_noncontig_ok t o _ _ _ _ false)|]. intros [l|] o1 E; apply ok_ret.
    + destruct E as (sz & Hsz & ->). exists (Some (Reg l, sz)). split; [by apply holding_add|]. split; [done|]. split; [done|]. intros _. split; [|by eexists]. cbn. unfold is_u in *. lia.
    + subst o1. exists None. split; [by apply holding_none|]. split; [done|]. split; [done|]. done.
  - eapply (ok_seq _ _ _ _ (fun m o' => match m with None => o' = o | Some m => exists sz, o' = o_refs ((Shm, sz) :: refs o) o /\ mem_mobj m = Some Shm /\ 0 <= mem_offs m /\ 0 <= mem_size m /\ mem_offs m + mem_size m <= sz end)).
    + apply ok_sect. intros s G I Ht Hcv. unfold param_mem_from_mobj. destruct (core_is_buffer_inside _ _ _ _) eqn:Ei; cbn [negb]; [|exists o; split; [by rewrite list_insert_id|done]].
      destruct (get_shm_run s G t o I Ht Hcv Hr) as (s' & Es & I'). rewrite (bind_run _ _ _ _ _ Es). cbn. eexists. split; [exact I'|]. exists shm_size. split; [done|]. split; [done|]. cbn.
      unfold core_is_buffer_inside, is_valid_conf_and_notnull_size in Ei. rewrite !andb_true_iff, !negb_true_iff, !orb_false_iff, !Z.ltb_ge, !Z.leb_le, !Z.eqb_neq in Ei. destruct Ei as [[[E1 E2] [E3 E4]] [E5 E6]]. destruct p_pa as [Q1 Q2]. pose proof p_size. unfold is_u in *.
      rewrite (uwrap_small 64 (shm_pa - 1 + shm_size)) in E6 by (unfold is_u; lia). rewrite (uwrap_small 64 (w1 p - shm_pa)) by (unfold is_u; lia). split; [lia|]. split; [lia|].
      assert (w1 p - 1 + w2 p `max` 1 < 2 ^ 64) as Hn. { destruct (decide (w1 p - 1 + w2 p `max` 1 < 2 ^ 64)); [done|]. unfold uwrap in E1. replace (w1 p - 1 + w2 p `max` 1) with (w1 p - 1 + w2 p `max` 1 - 2 ^ 64 + 1 * 2 ^ 64) in E1 by lia. rewrite Z.mod_add, Z.mod_small in E1 by lia. lia. }
      rewrite uwrap_small in E6 by (unfold is_u; lia). lia.
    + intros [m|] o1 E; apply ok_ret.
      * destruct E as (sz & -> & E1 & E2). exists (Some (Shm, sz)). split; [by apply holding_add|]. split; [done|]. split; [done|]. intros _. split; [done|by eexists].
      * subst o1. exists None. split; [by apply holding_none|]. by split.
Qed.

Lemma set_rmem_ok t o ys p : holding o ys -> (length ys < TEE_NUM_PARAMS)%nat -> ok t o (set_rmem_param p) (copied ys).
Proof.
  intros Ho Hl. destruct (holding_wf _ _ Ho) as (Hwf & Hr & Hm). unfold set_rmem_param. assert (is_u 64 (w1 p) /\ is_u 64 (w2 p)) as [U1 U2] by (split; by apply uwrap_range).
  eapply ok_seq; [by apply get_by_cookie_ok|]. intros [q|] o1 E. 2:{ subst. apply ok_ret. exists None. split; [by apply holding_none|]. by split. }
  destruct E as (l & sz & -> & ->). eapply (ok_seq _ _ _ _ (fun z o' => z = sz /\ o' = o_refs ((Reg l, sz) :: refs o) o)).
  { apply ok_rd. intros s G I Ht. pose proof (li_refs _ _ (i_live _ _ I _ _ Ht) (Reg l) sz ltac:(by left)) as E. cbn in E. destruct (heap s !! l) as [r|] eqn:Er; [|done]. injection E as <-. unfold mobj_size. rewrite (bind_run _ _ _ _ _ (reg_run s l r Er)). by eexists. }
  intros z o1 [-> ->]. pose proof (holding_add _ _ (Reg l, sz) Ho Hl) as Ho'. unfold add_overflow. cbn [mem_offs mem_size]. destruct (_ || _) eqn:Eo; apply ok_ret; (exists (Some (Reg l, sz)); split; [done|]; split; [done|]; split; [done|]); [done|].
  intros _. split; [|by eexists]. apply orb_false_iff in Eo as [E1 E2]. bool_hyps. unfold is_u in *. rewrite uwrap_small in E2 by (unfold is_u; lia). cbn. lia.
Qed.

(** The state of the loop: what it has copied and owns. *)
Definition copying (o : own) (us : list param_u) (saved : list Z) (ys : list (option (ptr * Z))) : Prop := holding o ys /\ Forall2 slot us ys /\ Forall2 saved_as saved us.
Definition complete (us : list param_u) (pt : list Z) (ys : list (option (ptr * Z))) : Prop := Forall2 bounded us ys /\ Forall2 kind_ok pt us.

Lemma Forall2_snoc {A B} (R : A -> B -> Prop) l k x y : Forall2 R l k -> R x y -> Forall2 R (l ++ [x]) (k ++ [y]).
Proof. intros Hl Hx. apply Forall2_app; [done|]. constructor; [done|constructor]. Qed.

Lemma copying_snoc o o' us saved ys x a y : copying o us saved ys -> holding o' (ys ++ [y]) -> slot x y -> saved_as a x -> copying o' (us ++ [x]) (saved ++ [a]) (ys ++ [y]).
Proof. intros (H1 & H2 & H3) Ho Hs Ha. split; [done|]. split; by apply Forall2_snoc. Qed.

Lemma complete_snoc us pt ys x ty y : complete us pt ys -> bounded x y -> kind_ok ty x -> complete (us ++ [x]) (pt ++ [ty]) (ys ++ [y]).
Proof. intros [H1 H2] Hb Hk. split; by apply Forall2_snoc. Qed.

Lemma mem_type a lo' hi : lo' = OPTEE_MSG_ATTR_TYPE_TMEM_INPUT \/ lo' = OPTEE_MSG_ATTR_TYPE_RMEM_INPUT -> hi = lo' + 2 -> lo' <= a <= hi -> is_u 4 (TEE_PARAM_TYPE_MEMREF_INPUT + a - lo') /\ is_memref (TEE_PARAM_TYPE_MEMREF_INPUT + a - lo') = true.
Proof.
  unfold is_u, is_memref, TEE_PARAM_TYPE_MEMREF_INPUT, TEE_PARAM_TYPE_MEMREF_INOUT. change (2 ^ 4) with 16. intros _ -> Ha. split; lia.
Qed.

Lemma copy_in_loop_ok t : forall ps o us pt saved ys, copying o us saved ys -> complete us pt ys -> (length ys + length ps <= TEE_NUM_PARAMS)%nat ->
  ok t o (copy_in_loop ps us pt saved) (fun r o' => let '(res, us', pt', saved') := r in exists ys', copying o' us' saved' ys' /\ (length us' <= length us + length ps)%nat /\ (res = TEE_SUCCESS -> complete us' pt' ys')).
Proof.
  induction ps as [|p ps IH]; intros o us pt saved ys Hc Hk Hl; cbn [copy_in_loop]; [apply ok_ret; exists ys; split; [done|]; split; [lia|done]|]. cbn in Hl. pose proof Hc as (Ho & _ & _).
  assert (forall a, ok t o (Done (TEE_ERROR_BAD_PARAMETERS, us ++ [Zero], pt, saved ++ [a])) (fun r o' => let '(res, us', pt', saved') := r in exists ys', copying o' us' saved' ys' /\ (length us' <= length us + length (p :: ps))%nat /\ (res = TEE_SUCCESS -> complete us' pt' ys'))) as Bad.
  { intros a. apply ok_ret. exists (ys ++ [None]). split; [|split; [rewrite length_app; cbn; lia|done]]. eapply copying_snoc; try done. apply holding_none; [done|lia]. }
  destruct (has _ _); [apply Bad|]. set (a := Z.land (attr p) OPTEE_MSG_ATTR_TYPE_MASK).
  assert (forall x ty y o', holding o' (ys ++ [y]) -> slot x y -> saved_as (attr p) x -> bounded x y -> kind_ok ty x ->
    ok t o' (copy_in_loop ps (us ++ [x]) (pt ++ [ty]) (saved ++ [attr p])) (fun r o' => let '(res, us', pt', saved') := r in exists ys', copying o' us' saved' ys' /\ (length us' <= length us + length (p :: ps))%nat /\ (res = TEE_SUCCESS -> complete us' pt' ys'))) as Go.
  { intros x ty y o' H1 H2 H3 H4 H5. eapply ok_conseq; [apply (IH o' _ _ _ (ys ++ [y])); [by eapply copying_snoc|by apply complete_snoc|rewrite length_app; cbn; lia]|]. intros [[[res us'] pt'] saved'] o1 (ys' & ? & Hlen & ?). exists ys'. split; [done|]. split; [rewrite length_app in Hlen; cbn in Hlen |- *; lia|done]. }
  destruct (a =? OPTEE_MSG_ATTR_TYPE_NONE); [by eapply (Go Zero _ None); [apply holding_none; [done|lia]|..]|].
  assert (forall lo' hi, lo' = OPTEE_MSG_ATTR_TYPE_TMEM_INPUT \/ lo' = OPTEE_MSG_ATTR_TYPE_RMEM_INPUT -> hi = lo' + 2 -> lo' <= a <= hi -> mem_attr (attr p) = true -> forall r o', copied ys r o' ->
    ok t o' (if negb (r.1 =? TEE_SUCCESS) then Done (r.1, us ++ [r.2], pt, saved ++ [attr p]) else copy_in_loop ps (us ++ [r.2]) (pt ++ [TEE_PARAM_TYPE_MEMREF_INPUT + a - lo']) (saved ++ [attr p]))
      (fun r o' => let '(res, us', pt', saved') := r in exists ys', copying o' us' saved' ys' /\ (length us' <= length us + length (p :: ps))%nat /\ (res = TEE_SUCCESS -> complete us' pt' ys'))) as Mm.
  { intros lo' hi Hlo Hhi Ha Hma [res x] o' (y & H1 & H2 & H3 & H4). cbn in *. assert (saved_as (attr p) x) as Hsv by (by destruct x as [|? ?|?]; [|by destruct (H3 a0 b)|]). destruct (res =? TEE_SUCCESS) eqn:Er; bool_hyps; cbn [negb].
    - destruct (H4 Er) as [Hb [m ->]]. destruct (mem_type a lo' hi Hlo Hhi Ha) as [T1 T2]. by eapply (Go (Mem m) _ y).
    - apply ok_ret. exists (ys ++ [y]). split; [by eapply copying_snoc|]. split; [rewrite length_app; cbn; lia|done]. }
  destruct (is_value a) eqn:Ev.
  { eapply (Go _ _ None); [apply holding_none; [done|lia]|done| |done|].
    - cbn. unfold mem_attr. fold a. unfold is_value, is_tmem, is_rmem in *. unfold OPTEE_MSG_ATTR_TYPE_VALUE_INPUT, OPTEE_MSG_ATTR_TYPE_VALUE_INOUT, OPTEE_MSG_ATTR_TYPE_TMEM_INPUT, OPTEE_MSG_ATTR_TYPE_TMEM_INOUT, OPTEE_MSG_ATTR_TYPE_RMEM_INPUT, OPTEE_MSG_ATTR_TYPE_RMEM_INOUT in *. lia.
    - unfold kind_ok, is_u, is_value_type, is_value in *. unfold OPTEE_MSG_ATTR_TYPE_VALUE_INPUT, OPTEE_MSG_ATTR_TYPE_VALUE_INOUT, TEE_PARAM_TYPE_VALUE_INPUT, TEE_PARAM_TYPE_VALUE_INOUT in *. change (2 ^ 4) with 16. split; lia. }
  destruct (is_tmem a) eqn:Et; [|destruct (is_rmem a) eqn:Er; [|apply Bad]].
  - eapply ok_seq; [by apply (set_tmem_ok t o ys); [|lia]|]. intros r o'. apply (Mm _ OPTEE_MSG_ATTR_TYPE_TMEM_INOUT); [by left|done|unfold is_tmem in Et; lia|]. unfold mem_attr. fold a. by rewrite Et.
  - eapply ok_seq; [by apply (set_rmem_ok t o ys); [|lia]|]. intros r o'. apply (Mm _ OPTEE_MSG_ATTR_TYPE_RMEM_INOUT); [by right|done|unfold is_rmem in Er; lia|]. unfold mem_attr. fold a. by rewrite Er, orb_true_r.
Qed.

Definition typed (param : tee_ta_param) : Prop := forall n x, u param !! n = Some x -> kind_ok (TEE_PARAM_TYPE_GET (types param) (Z.of_nat n)) x.

(** What copy_in_params() leaves for a message with [n] parameters. *)
Definition received (n : nat) (r : Z * tee_ta_param * list Z) (o : own) : Prop := let '(res, param, saved) := r in
  exists ys, copying o (u param) saved ys /\ length (u param) = TEE_NUM_PARAMS /\ Forall (eq 0) (drop (Nat.min TEE_NUM_PARAMS n) saved) /\
    (res = TEE_SUCCESS -> Forall2 bounded (u param) ys /\ typed param).

Lemma Forall2_fill {A B} (R : A -> B -> Prop) x y l k : Forall2 R l k -> R x y -> Forall2 R (fill x l) (fill y k).
Proof. intros Hl Hx. unfold fill. rewrite (Forall2_length _ _ _ Hl). apply Forall2_app; [done|]. by apply Forall2_replicate. Qed.

Lemma copying_fill o us saved ys : copying o us saved ys -> copying o (fill Zero us) (fill 0 saved) (fill None ys) /\ length (fill Zero us) = TEE_NUM_PARAMS.
Proof.
  intros ((E & Er & Hl) & H2 & H3). pose proof (Forall2_length _ _ _ H2) as L2. split; [|unfold fill; rewrite length_app, length_replicate; lia]. split; [|split; by apply Forall2_fill]. split; [done|]. unfold fill. split; [|rewrite length_app, length_replicate; lia].
  rewrite omap_app, Er. induction (TEE_NUM_PARAMS - length ys)%nat; cbn; [by rewrite app_nil_r|done].
Qed.

Lemma own0_copying : copying own0 [] [] []. Proof. split; [|by split]. split; [done|]. by split; [|cbn; lia]. Qed.

Lemma nth_type_kind pt us n : Forall2 kind_ok pt us -> kind_ok (nth_type pt n) (default Zero (us !! n)).
Proof.
  intros F. unfold nth_type. destruct (pt !! n) as [ty|] eqn:E.
  - destruct (Forall2_lookup_l _ _ _ _ _ F E) as (x & -> & ?). done.
  - assert (us !! n = None) as -> by (apply lookup_ge_None; rewrite <- (Forall2_length _ _ _ F); by apply lookup_ge_None). done.
Qed.

Lemma typed_params us pt : Forall2 kind_ok pt us -> (length us <= TEE_NUM_PARAMS)%nat -> typed (mk_param (TEE_PARAM_TYPES (nth_type pt 0) (nth_type pt 1) (nth_type pt 2) (nth_type pt 3)) (fill Zero us)).
Proof.
  intros F Hl n x. cbn [u types]. intros Hx. assert (n < 4)%nat as Hn by (apply lookup_lt_Some in Hx; unfold fill in Hx; rewrite length_app, length_replicate in Hx; unfold TEE_NUM_PARAMS in *; lia).
  assert (x = default Zero (us !! n)) as ->.
  { unfold fill in Hx. destruct (us !! n) as [x'|] eqn:E; [rewrite lookup_app_l in Hx by (by eapply lookup_lt_Some); cbn; congruence|]. rewrite lookup_app_r in Hx by (by apply lookup_ge_None). by apply lookup_replicate in Hx as [-> _]. }
  pose proof (nth_type_kind pt us) as K. assert (forall k, is_u 4 (nth_type pt k)) as U by (intros k; by apply (K k F)). rewrite types_get, Nat2Z.id by (done || lia). destruct n as [|[|[|[|n]]]]; [apply (K 0%nat F)|apply (K 1%nat F)|apply (K 2%nat F)|apply (K 3%nat F)|lia].
Qed.

Lemma copy_in_params_ok t params : ok t own0 (copy_in_params params) (received (length params)).
Proof.
  unfold copy_in_params. destruct (_ <? _) eqn:El; bool_hyps.
  - apply ok_ret. destruct (copying_fill _ _ _ _ own0_copying) as [C L]. exists (fill None []). split; [done|]. split; [done|]. split; [|done]. unfold lenZ, TEE_NUM_PARAMS in *. rewrite Nat.min_l by lia. constructor.
  - eapply ok_seq; [apply (copy_in_loop_ok t params own0 [] [] [] []); [apply own0_copying|by split|unfold lenZ in El; cbn; lia]|]. intros [[[res us] pt] saved] o' (ys & C & Hlen & Hk). apply ok_ret. destruct (copying_fill _ _ _ _ C) as [C' L]. pose proof C as (_ & C2 & C3). cbn in Hlen.
    exists (fill None ys). split; [done|]. split; [done|]. split.
    + unfold fill. unfold lenZ in El. rewrite Nat.min_r by lia. rewrite drop_app_ge by (rewrite (Forall2_length _ _ _ C3); lia). rewrite drop_replicate. apply Forall_replicate. done.
    + intros ->. destruct (Hk eq_refl) as [K1 K2]. split; [by apply Forall2_fill|]. cbn [Z.eqb TEE_SUCCESS]. apply typed_params; [done|]. unfold lenZ in El. lia.
Qed.

(** ** Cleaning up *)

Lemma holding_nil o ys : holding o ys -> Forall (eq None) ys -> o = own0.
Proof.
  intros (E & Er & _) F. assert (omap id ys = []) as En. { clear E Er. induction F as [|y ys <- _ IH]; [done|]. cbn. by rewrite IH. }
  rewrite En in Er. apply Permutation_nil_r in Er. rewrite E, Er. done.
Qed.

Lemma no_mem_none saved us ys : Forall (eq 0) saved -> Forall2 saved_as saved us -> Forall2 slot us ys -> Forall (eq None) ys.
Proof.
  intros F. revert us ys. induction F as [|a saved <- _ IH]; intros us ys H1 H2; inversion H1; subst; inversion H2; subst; constructor; [|by eapply IH]. destruct y as [|? ?|m]; [by destruct y0|by destruct y0|done].
Qed.

Lemma cleanup_loop_ok t : forall us saved ys n o, holding o ys -> Forall2 slot us ys -> Forall2 saved_as saved us -> Forall (eq 0) (drop n saved) -> ok t o (cleanup_loop saved us n) (fun _ o' => o' = own0).
Proof.
  induction us as [|x us IH]; intros saved ys n o Ho Hs Hv Hd.
  - inversion Hs; subst. inversion Hv; subst. assert (o = own0) as -> by (by eapply holding_nil). by destruct n.
  - inversion Hs as [|? y ? ys' Hy Hys]; subst. inversion Hv as [|a ? saved' ? Ha Hsv]; subst. destruct n as [|n]; [apply ok_ret; eapply holding_nil; [done|]; by eapply no_mem_none|]. cbn [cleanup_loop]. change (is_tmem _ || is_rmem _) with (mem_attr a). cbn in Hd.
    assert (y = None -> holding o ys') as Hnone by (intros ->; destruct Ho as (E & Er & Hl); split; [done|]; split; [done|cbn in Hl; lia]).
    eapply (ok_seq _ _ _ _ (fun _ o' => holding o' ys')); [|intros _ o' Ho'; by apply (IH saved' ys')].
    destruct (mem_attr a) eqn:Em; cbn [union_mem].
    + destruct x as [|v1 v2|m]; [apply ok_ret; apply Hnone; by destruct y|cbn in Ha; congruence|]. cbn in Hy. destruct y as [[p sz]|]; [|rewrite Hy; by apply ok_ret, Hnone]. rewrite Hy.
      destruct Ho as (E & Er & Hl). assert (holding (o_refs (omap id ys') o) ys') as Ho' by (split; [by rewrite E|]; split; [done|cbn in Hl; lia]). eapply ok_conseq; [apply (put_ok t o p sz (omap id ys')); [done|by apply (holding_wf _ ys')]|]. by intros _ o' ->.
    + apply ok_ret, Hnone. destruct x as [|? ?|?]; [by destruct y|by destruct y|cbn in Ha; congruence].
Qed.
End Calls.
