(* ===== verification/ShmSafe.v ===== *)
(** * Shared memory: the theorems

    Calls of trusted applications and whole messages in the logic of [ShmInv], and what follows for any
    number of threads that serve any messages: no access goes astray, references held by calls in
    progress are good, a release is always woken up, and nothing is left over. *)
From stdpp Require Import gmap.
From S2P Require Import Prelude TeeMm RecMutex Threads Shm ShmMsg ShmInv ShmMem ShmObj ShmMap ShmCalls.
Local Open Scope Z_scope.

Section Safe.
Context `{PlatformOk}.

(** ** Pseudo TAs *)

(** The mapping that goes with a parameter and its flag in did_map. *)
Definition map_slot (x : param_u) (k : bool * option (Z * win)) : Prop :=
  if k.1 then match union_mem (Some x) with
    | Some m => match mem_mobj m with
      | Some (Reg l) => exists w, k.2 = Some (l, w)
      | Some Shm => k.2 = None
      | None => False
      end
    | None => False
    end
  else k.2 = None.

(** A buffer that the pseudo TA is given. *)
Definition view (o : own) (x : param_u) (p : tee_param) : Prop :=
  match p with
  | PMemref b sz => sz = 0 \/ exists m q, x = Mem m /\ mem_mobj m = Some q /\ window o q (mem_offs m) b sz
  | _ => True
  end.

Definition held (o : own) (x : param_u) : Prop := forall m, x = Mem m -> mem_ok o m.

(** The thread owns [b] and the mappings [ks]. *)
Definition mapping (b o : own) (ks : list (bool * option (Z * win))) : Prop := o = o_maps (maps o) b /\ maps o ≡ₚ omap snd ks.

Lemma view_mono o o' x p : (forall k, k ∈ maps o -> k ∈ maps o') -> view o x p -> view o' x p.
Proof. intros Hs. destruct p as [| |b sz]; cbn; try done. intros [?|(m & q & E1 & E2 & W)]; [by left|right]. exists m, q. split; [done|]. split; [done|]. destruct q as [|l]; [done|]. destruct W as (w & ? & ?). exists w. split; [auto|done]. Qed.

Lemma omap_snd_length (ks : list (bool * option (Z * win))) : (length (omap snd ks) <= length ks)%nat.
Proof. induction ks as [|[d [a|]] ks IH]; cbn; lia. Qed.

Lemma mapping_add b o ks d l w : mapping b o ks -> mapping b (o_maps ((l, w) :: maps o) o) (ks ++ [(d, Some (l, w))]).
Proof. intros [E Em]. split; [rewrite E at 2; by rewrite E at 1|]. cbn. rewrite omap_app, Em. cbn. by rewrite Permutation_app_comm. Qed.

Lemma mapping_none b o ks d : mapping b o ks -> mapping b o (ks ++ [(d, None)]).
Proof. intros [E Em]. split; [done|]. by rewrite omap_app, app_nil_r. Qed.

Lemma mobj_inc_map_ok t b o ks m : mapping b o ks -> (length ks < TEE_NUM_PARAMS)%nat -> mem_ok b m -> mem_size m <> 0 ->
  ok t o (section (mobj_inc_map (mem_mobj m))) (fun res o' => if res =? TEE_SUCCESS then exists k, mapping b o' (ks ++ [(true, k)]) /\ map_slot (Mem m) (true, k) /\ (forall l w, k = Some (l, w) -> (l, w) ∈ maps o') /\ (forall x, x ∈ maps o -> x ∈ maps o') else o' = o).
Proof.
  intros Mp Hl Hm Hz. unfold mem_ok in Hm. unfold map_slot. cbn [union_mem fst snd]. destruct (mem_mobj m) as [[|l]|]; [| |lia].
  - apply ok_rd. intros s G I Ht. exists TEE_SUCCESS. split; [done|]. cbn. exists None. split; [by apply mapping_none|]. by split.
  - destruct Hm as (sz & Hin & _). pose proof Mp as [E Em]. eapply ok_conseq; [apply inc_map_ok|].
    + rewrite E. cbn. apply list_elem_of_fmap. by exists (Reg l, sz).
    + rewrite Em. pose proof (omap_snd_length ks). unfold NREFS, TEE_NUM_PARAMS in *. lia.
    + intros res o'. cbn beta. destruct (res =? TEE_SUCCESS); [|done]. intros (w & _ & ->). exists (Some (l, w)). split; [by apply mapping_add|]. split; [by exists w|]. split; [intros ? ? [= -> ->]; by left|]. intros x Hx. by right.
Qed.

Lemma mobj_get_va_ok t o m k : map_slot (Mem m) (true, k) -> (forall l w, k = Some (l, w) -> (l, w) ∈ maps o) -> 0 <= mem_offs m -> 0 <= mem_size m ->
  ok t o (section (mobj_get_va (mem_mobj m) (mem_offs m) (mem_size m))) (fun va o' => o' = o /\ forall b, va = Some b -> exists q, mem_mobj m = Some q /\ window o q (mem_offs m) b (mem_size m)).
Proof.
  unfold map_slot. cbn [union_mem fst snd]. intros Hs Hk Ho Hz. destruct (mem_mobj m) as [[|l]|]; [| |done].
  - apply ok_rd. intros s G I Ht. eexists. split; [done|]. split; [done|]. intros b E. exists Shm. split; [done|]. unfold mobj_phys_get_va in E. destruct (shm_va =? 0); [done|]. destruct (mobj_check_offset_and_len _ _ _) eqn:Ec; [|done]. injection E as <-. apply check_offset_inv in Ec as [? ?]; [|done|done]. by repeat split.
  - destruct Hs as [w ->]. eapply ok_conseq; [apply (get_va_ok t o l w); [by apply Hk|done|done]|]. intros va o' [-> ->]. split; [done|]. intros b E. exists (Reg l). split; [done|]. destruct (mobj_check_offset_and_len _ _ _) eqn:Ec; [|done]. injection E as <-. apply check_offset_inv in Ec as [? ?]; [|done|done]. exists w. split; [by apply Hk|]. by repeat split.
Qed.

(** What copy_in_param() leaves: the mappings of the first parameters, of all if it succeeds. *)
Definition mapped_in (b : own) (us : list param_u) (r : Z * list tee_param * list bool) (o : own) : Prop := let '(res, tp, did) := r in
  exists ks us1 us2, did = fst <$> ks /\ mapping b o ks /\ us = us1 ++ us2 /\ Forall2 map_slot us1 ks /\ (res = TEE_SUCCESS -> us2 = [] /\ Forall2 (view o) us1 tp).

Lemma copy_in_param_loop_ok t ty b : forall us n us0 tp ks o, mapping b o ks -> Forall2 map_slot us0 ks -> Forall2 (view o) us0 tp -> (length us0 + length us <= TEE_NUM_PARAMS)%nat ->
  (forall i x, us !! i = Some x -> kind_ok (TEE_PARAM_TYPE_GET ty (n + Z.of_nat i)) x) -> Forall (held b) us ->
  ok t o (copy_in_param_loop ty us n tp (fst <$> ks)) (mapped_in b (us0 ++ us)).
Proof.
  induction us as [|x us IH]; intros n us0 tp ks o Mp Hs Hv Hl Hk Hh; cbn [copy_in_param_loop].
  { apply ok_ret. exists ks, us0, []. split; [done|]. split; [done|]. split; [done|]. split; [done|]. by intros _. }
  cbn in Hl. pose proof (Forall2_length _ _ _ Hs) as L1. apply Forall_cons in Hh as [Hx Hh]. pose proof (Hk 0%nat x eq_refl) as [_ K]. rewrite Z.add_0_r in K.
  assert (forall k p o', mapping b o' (ks ++ [k]) -> map_slot x k -> view o' x p -> (forall z, z ∈ maps o -> z ∈ maps o') ->
    ok t o' (copy_in_param_loop ty us (n + 1) (tp ++ [p]) ((fst <$> ks) ++ [k.1])) (mapped_in b (us0 ++ x :: us))) as Go.
  { intros k p o' H1 H2 H3 H4. replace ((fst <$> ks) ++ [k.1]) with (fst <$> ks ++ [k]) by (by rewrite fmap_app). rewrite (cons_middle x us0 us), app_assoc. apply IH; try done.
    - by apply Forall2_snoc.
    - apply Forall2_snoc; [|done]. eapply Forall2_impl; [exact Hv|]. intros y q. by apply view_mono.
    - rewrite length_app. cbn. lia.
    - intros i y Hy. replace (n + 1 + Z.of_nat i) with (n + Z.of_nat (S i)) by lia. by apply Hk. }
  destruct (is_value_type _) eqn:Ev.
  { destruct x as [|v1 v2|m]; [..|cbn in K; exfalso; unfold is_memref, is_value_type, TEE_PARAM_TYPE_VALUE_INPUT, TEE_PARAM_TYPE_VALUE_INOUT, TEE_PARAM_TYPE_MEMREF_INPUT, TEE_PARAM_TYPE_MEMREF_INOUT in *; lia]; apply (Go (false, None)); try done; by apply mapping_none. }
  destruct (is_memref _) eqn:Em; [|apply (Go (false, None)); try done; by apply mapping_none].
  destruct x as [|v1 v2|m]; cbn [union_mem]; [apply (Go (false, None) (PMemref 0 0)); try done; [by apply mapping_none|by left]|congruence|].
  destruct (mem_size m =? 0) eqn:Ez; bool_hyps; [apply (Go (false, None) (PMemref 0 0)); try done; [by apply mapping_none|by left]|]. specialize (Hx m eq_refl).
  eapply ok_seq; [apply (mobj_inc_map_ok t b o ks m); try done; lia|]. intros res o'. cbn beta. destruct (res =? TEE_SUCCESS) eqn:Er; bool_hyps; cbn [negb].
  - intros (k & Mp' & Sl & Hin & Hsub). assert (0 <= mem_offs m /\ 0 <= mem_size m) as [? ?]. { unfold mem_ok in Hx. destruct (mem_mobj m); [destruct Hx as (? & ? & ? & ? & ?); by split|lia]. }
    eapply ok_seq; [by apply (mobj_get_va_ok t o' m k)|]. intros [va|] o2 [-> Hva].
    + apply (Go (true, k)); try done. destruct (Hva va eq_refl) as (q & ? & ?). right. by exists m, q.
    + apply ok_ret. exists (ks ++ [(true, k)]), (us0 ++ [Mem m]), us. split; [by rewrite fmap_app|]. split; [done|]. split; [by rewrite <- app_assoc|]. split; [by apply Forall2_snoc|done].
  - intros ->. apply ok_ret. exists ks, us0, (Mem m :: us). do 3 (split; [done|]). split; [done|]. by intros ->.
Qed.

Lemma unmap_params_ok t b : maps b = [] -> forall us us2 ks o, mapping b o ks -> Forall2 map_slot us ks -> Forall (fun x => forall m l, union_mem (Some x) = Some m -> mem_mobj m = Some (Reg l) -> Reg l ∈ fst <$> refs b) us ->
  ok t o (unmap_loop_param (us ++ us2) (fst <$> ks)) (fun _ o' => o' = b).
Proof.
  intros Eb. induction us as [|x us IH]; intros us2 ks o [E Em] Hs Hh.
  - inversion Hs; subst. cbn in Em. apply Permutation_nil_r in Em. assert (o = b) as -> by (rewrite E, Em, <- Eb; by destruct b). cbn. by destruct us2.
  - inversion Hs as [|? k ? ks' Hk Hks]; subst. apply Forall_cons in Hh as [Hx Hh]. cbn [app fmap list_fmap unmap_loop_param]. eapply (ok_seq _ _ _ _ (fun _ o' => mapping b o' ks')); [|intros _ o' Mp'; by apply IH].
    destruct k as [d z]. unfold map_slot in Hk. cbn [fst snd] in *. destruct d; [|subst z; by apply ok_ret]. destruct (union_mem (Some x)) as [m|] eqn:Eu; [|done].
    eapply (ok_seq _ _ _ _ (fun res o' => res = TEE_SUCCESS /\ mapping b o' ks')); [|intros res o' [-> Mp']; apply ok_rd; by exists tt]. destruct (mem_mobj m) as [[|l]|] eqn:Emm; cbn [mobj_dec_map]; [subst z; by apply ok_ret| |done].
    destruct Hk as [w ->]. eapply ok_conseq; [eapply (dec_map_ok t o l w (omap snd ks')); [rewrite E; by eapply Hx|done]|]. intros res o' [-> ->]. split; [done|]. split; [by rewrite E|done].
Qed.

(** Copying out keeps the objects of the parameters. *)
Definition same_mobj (x x' : param_u) : Prop :=
  match x, x' with Mem m, Mem m' => mem_mobj m' = mem_mobj m | Val _ _, Val _ _ | Zero, Zero => True | _, _ => False end.

Lemma update_out_one_same ty tp n x : kind_ok (TEE_PARAM_TYPE_GET ty (Z.of_nat n)) x -> same_mobj x (update_out_one ty tp n x).
Proof.
  intros [_ K]. unfold update_out_one. set (y := TEE_PARAM_TYPE_GET ty (Z.of_nat n)) in *. unfold is_memref, is_value_type, TEE_PARAM_TYPE_NONE, TEE_PARAM_TYPE_VALUE_INPUT, TEE_PARAM_TYPE_VALUE_OUTPUT, TEE_PARAM_TYPE_VALUE_INOUT, TEE_PARAM_TYPE_MEMREF_INPUT, TEE_PARAM_TYPE_MEMREF_OUTPUT, TEE_PARAM_TYPE_MEMREF_INOUT in *.
  destruct x as [|v1 v2|m].
  - by rewrite K.
  - destruct (_ || _); [by destruct (tp !! n) as [[]|]|]. replace ((y =? 6) || (y =? 7)) with false by lia. done.
  - replace ((y =? 2) || (y =? 3)) with false by lia. destruct (_ || _); [|done]. by destruct (tp !! n) as [[]|].
Qed.

Lemma update_out_same tp param : typed param -> Forall2 same_mobj (u param) (u (update_out_param tp param)).
Proof.
  intros T. apply Forall2_lookup. intros i. cbn. rewrite list_lookup_imap. destruct (u param !! i) as [x|] eqn:E; cbn; constructor. apply update_out_one_same. by apply T.
Qed.

Lemma same_mobj_refl param : Forall2 same_mobj (u param) (u param).
Proof. apply Forall2_lookup. intros i. destruct (u param !! i) as [[]|]; by constructor. Qed.

Lemma Forall2_trans_l {A B} (R : A -> B -> Prop) (S : A -> A -> Prop) l l' k : (forall x x' y, S x x' -> R x y -> R x' y) -> Forall2 S l l' -> Forall2 R l k -> Forall2 R l' k.
Proof. intros HR Hs. revert k. induction Hs; intros k Hr; inversion Hr; subst; constructor; eauto. Qed.

Lemma map_slot_same x x' k : same_mobj x x' -> map_slot x k -> map_slot x' k.
Proof. unfold same_mobj, map_slot. destruct x, x', k.1; cbn; try done. by intros ->. Qed.

Lemma slot_same x x' y : same_mobj x x' -> slot x y -> slot x' y.
Proof. unfold same_mobj, slot. destruct x, x'; try done. by intros ->. Qed.

Lemma saved_as_same x x' a : same_mobj x x' -> saved_as a x -> saved_as a x'.
Proof. by destruct x, x'. Qed.

Lemma pseudo_ta_enter_ok t b pta param `{!pta_ok pta} : maps b = [] -> typed param -> length (u param) = TEE_NUM_PARAMS -> param_ok b param ->
  ok t b (pseudo_ta_enter pta param) (fun r o' => o' = b /\ Forall2 same_mobj (u param) (u r.2)).
Proof.
  intros Eb Ht Hl Hp. unfold pseudo_ta_enter, copy_in_param. assert (Forall (held b) (u param)) as Hh by (apply Forall_lookup; intros i x Hx m ->; by eapply Hp).
  eapply ok_seq; [apply (copy_in_param_loop_ok t (types param) b (u param) 0 [] [] [] b); try done; [by split; [destruct b; cbn in *|rewrite Eb]|cbn; lia]|]. intros [[res tp] did] o (ks & us1 & us2 & -> & Mp & Eu & Hs & Hok). cbn [app] in Eu.
  assert (forall us', Forall2 same_mobj (u param) us' -> exists us1' us2', us' = us1' ++ us2' /\ Forall2 map_slot us1' ks /\ Forall (fun x => forall m l, union_mem (Some x) = Some m -> mem_mobj m = Some (Reg l) -> Reg l ∈ fst <$> refs b) us1') as Un.
  { intros us' Hsm. rewrite Eu in Hsm, Hh. apply Forall2_app_inv_l in Hsm as (us1' & us2' & H1 & _ & ->). apply Forall_app in Hh as [Hh _]. exists us1', us2'. split; [done|]. split; [eapply Forall2_trans_l; [apply map_slot_same|exact H1|done]|].
    apply Forall_lookup. intros i x' Hx' m l Em El. destruct (Forall2_lookup_r _ _ _ _ _ H1 Hx') as (x & Hx & Sm). rewrite Forall_lookup in Hh. specialize (Hh _ _ Hx). destruct x' as [|? ?|m']; cbn in Em; [by injection Em as <-|done|injection Em as <-]. destruct x as [|? ?|m0]; try done. cbn in Sm. specialize (Hh m0 eq_refl). unfold mem_ok in Hh. rewrite <- Sm, El in Hh. destruct Hh as (sz & Hin & _). apply list_elem_of_fmap. by exists (Reg l, sz). }
  destruct (res =? TEE_SUCCESS) eqn:Er; bool_hyps; cbn [negb].
  - destruct (Hok Er) as [-> Hv]. rewrite app_nil_r in Eu. subst us1. eapply (ok_seq _ _ _ _ (fun _ o' => o' = o)).
    + apply ok_run_list. intros [[n i] len] Hx. destruct (pta_in_bounds _ _ _ _ _ Hx) as (bf & sz & Htp & Hi & Hlen & Hb). unfold pta_access. destruct (len =? 0) eqn:El; bool_hyps; [done|]. rewrite Htp. destruct (Forall2_lookup_r _ _ _ _ _ Hv Htp) as (x & -> & V). destruct V as [->|(m & q & -> & Eq & W)]; [lia|]. rewrite Eq. by eapply access_ok.
    + intros _ o' ->. cbn zeta. pose proof (update_out_same (outs (pta (types param) tp)) param Ht) as Sm. destruct (Un _ Sm) as (us1' & us2' & Eu' & H1 & H2). eapply ok_seq; [unfold unmap_mapped_param; rewrite Eu'; by apply unmap_params_ok|]. intros _ o' ->. by apply ok_ret.
  - destruct (Un _ (same_mobj_refl param)) as (us1' & us2' & Eu' & H1 & H2). eapply ok_seq; [unfold unmap_mapped_param; rewrite Eu'; by apply unmap_params_ok|]. intros _ o' ->. apply ok_ret. split; [done|apply same_mobj_refl].
Qed.

(** ** Calls *)

Definition ta_ok (x : ta) : Prop := match x with Pseudo pta => pta_ok pta | _ => True end.

Lemma set_running_ok t o c f : wf o -> (forall p, c = Some p -> param_ok o p) -> (forall r : gmap nat tee_ta_param, f r !! t = c) -> (forall r t', t' <> t -> f r !! t' = r !! t') ->
  ok t o (section (modify (set_running f))) (fun _ o' => o' = o_cur c o).
Proof.
  intros Hwf Hc F1 F2. apply ok_sect. intros s G I Ht Hcv. cbn. exists (o_cur c o). split; [|done]. eapply inv_misc; try done.
  - destruct Hwf as [W1 W2 W3 W4 W5 W5' W6]. by split.
  - eapply live_sub; [by eapply i_live|done..].
  - rewrite (total_same _ G t o) by done. apply I.
  - rewrite (total_same _ G t o) by done. apply I.
  - intros t' Hin. cbn in Hin. destruct (i_cv _ _ I t' Hin) as (x & l0 & Hx & D). rewrite <- (total_same owes G t o (o_cur c o)) in D by done. exists x, l0. rewrite list_lookup_insert_ne by congruence. done.
  - cbn. split; [apply F1|]. intros. by apply F2.
Qed.

Lemma ta_call_ok t x param o : ta_ok x -> wf o -> cur o = None -> maps o = [] -> typed param -> length (u param) = TEE_NUM_PARAMS -> param_ok o param ->
  ok t o (ta_call t x param) (fun r o' => o' = o /\ Forall2 same_mobj (u param) (u r.2)).
Proof.
  intros Hx Hwf Ec Em Ht Hl Hp. assert (forall p, o_cur None (o_cur (Some p) o) = o) as Eo by (intros p; destruct o; cbn in *; by subst).
  assert (ok t o (section (modify (set_running (<[t := param]>)))) (fun _ o' => o' = o_cur (Some param) o)) as Set_.
  { apply set_running_ok; [done|by intros ? [= <-]|intros; apply lookup_insert_eq|intros; by apply lookup_insert_ne]. }
  assert (wf (o_cur (Some param) o)) as Hwf' by (destruct Hwf as [W1 W2 W3 W4 W5 W5' W6]; split; try done; by intros ? [= <-]).
  assert (ok t (o_cur (Some param) o) (section (modify (set_running (delete t)))) (fun _ o' => o' = o)) as Unset.
  { eapply ok_conseq; [apply (set_running_ok t _ None); [done|done|intros; apply lookup_delete_eq|intros; by apply lookup_delete_ne]|]. by intros _ o' ->. }
  destruct x as [res|pta|res os]; cbn [ta_call].
  - apply ok_ret. split; [done|apply same_mobj_refl].
  - eapply ok_seq; [exact Set_|]. intros _ o' ->. cbn in Hx. eapply ok_seq; [by apply (pseudo_ta_enter_ok t _ pta)|]. intros r o' [-> Sm]. eapply ok_seq; [exact Unset|]. intros _ o' ->. by apply ok_ret.
  - eapply ok_seq; [exact Set_|]. intros _ o' ->. eapply ok_seq; [exact Unset|]. intros _ o' ->. apply ok_ret. split; [done|by apply update_out_same].
Qed.

(** A call with its parameters copied in, and the clean-up behind it. *)
Lemma cleanup_ok t o (ps : list msg_param) res param param' saved : received (length ps) (res, param, saved) o -> Forall2 same_mobj (u param) (u param') -> ok t o (cleanup_shm_refs saved param' (lenZ ps)) (fun _ o' => o' = own0).
Proof.
  intros (ys & (Ho & H2 & H3) & Hl & Hd & _) Sm. unfold cleanup_shm_refs. eapply (cleanup_loop_ok t _ _ ys); [done|eapply Forall2_trans_l; [apply slot_same|exact Sm|done]| |].
  - apply Forall2_flip. eapply Forall2_trans_l; [|exact Sm|by apply Forall2_flip]. intros x x' a. apply saved_as_same.
  - unfold lenZ. replace (Z.to_nat (Z.of_nat TEE_NUM_PARAMS `min` Z.of_nat (length ps))) with (Nat.min TEE_NUM_PARAMS (length ps)) by lia. done.
Qed.

Lemma received_call t n x param saved o : ta_ok x -> received n (TEE_SUCCESS, param, saved) o -> ok t o (ta_call t x param) (fun r o' => o' = o /\ Forall2 same_mobj (u param) (u r.2)).
Proof.
  intros Hx (ys & (Ho & H2 & H3) & Hl & Hd & Hk). destruct (Hk eq_refl) as [Hb Ht]. destruct (holding_wf _ _ Ho) as (Hwf & _ & _). pose proof Ho as (E & Er & _). apply ta_call_ok; try done; [by rewrite E..|]. intros i m Hm. destruct (Forall2_lookup_l _ _ _ _ _ H2 Hm) as (y & Hy & Sl). destruct (Forall2_lookup_l _ _ _ _ _ Hb Hm) as (y' & Hy' & Bd). simplify_eq. unfold mem_ok. cbn in Sl, Bd. destruct y as [[p sz]|]; rewrite Sl; [|done]. exists sz. split; [|done]. rewrite Er. apply list_elem_of_omap. exists (Some (p, sz)). split; [by eapply list_elem_of_lookup_2|done].
Qed.

Definition msg_ok (m : msg) : Prop :=
  match m with
  | OpenSession _ x => forall uuid clnt, ta_ok (x uuid clnt)
  | InvokeCommand _ (Some x) => ta_ok x
  | _ => True
  end.

Lemma entry_invoke_ok t params x : (forall y, x = Some y -> ta_ok y) -> ok t own0 (entry_invoke_command t params x) (fun _ o' => o' = own0).
Proof.
  intros Hx. unfold entry_invoke_command. eapply ok_seq; [apply copy_in_params_ok|]. intros [[res param] saved] o Hr. destruct (res =? TEE_SUCCESS) eqn:Er; bool_hyps; cbn [negb].
  - subst res. destruct x as [x|].
    + eapply ok_seq; [by eapply received_call; [apply Hx|]|]. intros c o' [-> Sm]. eapply ok_seq; [by eapply cleanup_ok|]. intros _ o' ->. by apply ok_ret.
    + eapply ok_seq; [eapply cleanup_ok; [exact Hr|apply same_mobj_refl]|]. intros _ o' ->. by apply ok_ret.
  - eapply ok_seq; [eapply cleanup_ok; [exact Hr|apply same_mobj_refl]|]. intros _ o' ->. by apply ok_ret.
Qed.

Lemma entry_open_ok t params x : (forall uuid clnt, ta_ok (x uuid clnt)) -> ok t own0 (entry_open_session t params x) (fun _ o' => o' = own0).
Proof.
  intros Hx. unfold entry_open_session. destruct (get_open_session_meta params) as [[uuid clnt]|]; [|by apply ok_ret]. eapply ok_seq; [apply copy_in_params_ok|]. intros [[res param] saved] o Hr. destruct (res =? TEE_SUCCESS) eqn:Er; bool_hyps; cbn [negb].
  - subst res. eapply ok_seq; [by eapply received_call; [apply Hx|]|]. intros c o' [-> Sm]. eapply ok_seq; [by eapply cleanup_ok|]. intros _ o' ->. by apply ok_ret.
  - eapply ok_seq; [eapply cleanup_ok; [exact Hr|apply same_mobj_refl]|]. intros _ o' ->. by apply ok_ret.
Qed.

Lemma register_ok t params : ok t own0 (register_shm params) (fun _ o' => o' = own0).
Proof.
  unfold register_shm. destruct params as [|p [|? ?]]; [by apply ok_ret| |by apply ok_ret]. destruct (negb _); [by apply ok_ret|]. pose proof own0_wf.
  eapply ok_seq; [apply (from_noncontig_ok t own0 _ _ _ _ true); [done|cbn; unfold NREFS; lia..|by apply uwrap_range|by apply uwrap_range]|]. intros [l|] o E; [|subst; by apply ok_ret]. destruct E as (sz & _ & ->). eapply ok_seq; [by apply (unguard_ok t _ own0 l sz)|]. intros _ o ->. by apply ok_ret.
Qed.

Lemma tee_entry_ok t m : msg_ok m -> ok t own0 (tee_entry_std t m) (fun _ o' => o' = own0).
Proof.
  intros Hm. destruct m as [params x|params x|params|params]; cbn [tee_entry_std].
  - eapply ok_seq; [by apply entry_open_ok|]. intros _ o ->. by apply ok_ret.
  - eapply ok_seq; [by apply entry_invoke_ok; destruct x; [intros ? [= <-]|]|]. intros _ o ->. by apply ok_ret.
  - eapply ok_seq; [apply register_ok|]. intros _ o ->. by apply ok_ret.
  - unfold unregister_shm. destruct params as [|p [|? ?]]; [by apply ok_ret| |by apply ok_ret]. eapply ok_seq; [apply release_ok|]. intros _ o ->. by apply ok_ret.
Qed.

(** ** The system *)

(** A pool without entries for the dynamic range, and addresses for malloc() that are not in use. *)
Definition start_ok (pool : tee_mm_pool) (a : Z) : Prop := exists head, pool_inv pool head [] /\ pool_ok pool /\ eid head < a.

Lemma total_own0 (f : own -> nat) n : f own0 = 0%nat -> total f (replicate n own0) = 0%nat.
Proof. intros E. induction n as [|n IH]; [done|]. cbn. by rewrite E. Qed.

Lemma start_inv pool f a n : start_ok pool a -> Z.of_nat n <= 2 ^ 20 -> inv (shm_start pool f a) (replicate n own0).
Proof.
  intros (hd & P1 & P2 & P3) Hn. split; cbn.
  - intros l r Hr. by rewrite lookup_empty in Hr.
  - split; cbn; try done; try (intros; match goal with E : ∅ !! _ = Some _ |- _ => by rewrite lookup_empty in E end).
    + constructor.
    + intros l. rewrite lookup_empty. split; [by intros ?%elem_of_nil|by intros []].
    + exists hd, []. do 2 (split; [done|]). intros e. split; [by intros ?%elem_of_nil|]. intros (l & r & Hr & _). by rewrite lookup_empty in Hr.
    + intros va p. rewrite lookup_empty. split; [done|]. intros (l & r & e & i & Hr & _). by rewrite lookup_empty in Hr.
  - intros t o [-> _]%lookup_replicate. apply own0_wf.
  - intros t o [-> _]%lookup_replicate. split; cbn; intros; by match goal with E : _ ∈ [] |- _ => apply elem_of_nil in E end.
  - by rewrite total_own0.
  - by rewrite total_own0.
  - intros t Hin. by apply elem_of_nil in Hin.
  - intros t p. rewrite lookup_empty. split; [done|]. by intros (o & [-> _]%lookup_replicate & ?).
  - unfold lenZ. by rewrite length_replicate.
Qed.

Definition shm_good : sys state unit -> list own -> Prop := good inv (fun _ => false) finds_dead own0 true.

Lemma shm_reachable_good pool f a ms x : start_ok pool a -> lenZ ms <= 2 ^ 20 -> Forall (Forall msg_ok) ms -> shm_reachable pool f a ms x -> exists G, shm_good x G.
Proof.
  intros Hs Hn Hm Hr. eapply (reaches_good _ _ _ _ _ _ (replicate (length ms) own0)); [|exact Hr]. split; cbn.
  - by apply start_inv.
  - unfold threads. by rewrite length_imap, length_replicate.
  - intros t p o Hp [-> _]%lookup_replicate. unfold threads in Hp. rewrite list_lookup_imap in Hp. destruct (ms !! t) as [l|] eqn:El; [|done]. injection Hp as <-. apply ok_run_list. intros m Hin. apply tee_entry_ok. rewrite Forall_lookup in Hm. specialize (Hm _ _ El). rewrite Forall_forall in Hm. by apply Hm.
Qed.

(** The bytes of an object that a thread holds a reference to. *)
Lemma ref_bytes s G t o p sz i : inv s G -> G !! t = Some o -> (p, sz) ∈ refs o -> 0 <= i < sz -> exists pa, mobj_byte_pa s p i = Some pa /\ core_pbuf_is_nsec pa 1 = true.
Proof.
  intros I Ht Hin Hi. pose proof (li_refs _ _ (i_live _ _ I _ _ Ht) _ _ Hin) as E. destruct p as [|l]; cbn in E.
  - injection E as <-. pose proof (byte_reserved s i Hi) as B. unfold byte_ok_at in B. destruct (translate s (shm_va + i)) as [pa|]; [|done]. apply andb_true_iff in B as [B1 B2]. apply bool_decide_eq_true in B1. by exists pa.
  - destruct (heap s !! l) as [r|] eqn:Er; [|done]. injection E as <-. destruct (mi_shape _ (i_mem _ _ I) _ _ Er) as [S1 S2 S3 S4]. cbn. rewrite (proj2 (Z.leb_le 0 i)) by lia. rewrite Er. cbn. unfold mobj_reg_shm_get_pa. rewrite (proj2 (Z.leb_gt _ _)) by lia.
    set (f := i + page_offset r). assert (0 <= f < lenZ (pages r) * SMALL_PAGE_SIZE) as Hf by (unfold f; lia). rewrite (uwrap_small 64 f) by (unfold is_u, CFG_CORE_HEAP_SIZE, SMALL_PAGE_SIZE in *; lia).
    assert (0 <= f / SMALL_PAGE_SIZE < lenZ (pages r)) as Hd by (unfold SMALL_PAGE_SIZE in *; Z.div_mod_to_equations; lia). destruct (lookup_lt_is_Some_2 (pages r) (Z.to_nat (f / SMALL_PAGE_SIZE))) as [p Hp]; [unfold lenZ in Hd; lia|]. rewrite Hp. cbn. eexists. split; [done|].
    rewrite Forall_lookup in S1. destruct (S1 _ _ Hp) as (P1 & P2 & P3). rewrite land_page. destruct (page_nsec_bytes p (f mod SMALL_PAGE_SIZE) P1 P3 ltac:(by apply Z.mod_pos_bound)) as [Hn Hb]. assert (0 <= f mod SMALL_PAGE_SIZE < SMALL_PAGE_SIZE) by (by apply Z.mod_pos_bound). unfold is_u in P1. rewrite uwrap_small by (unfold is_u; lia). done.
Qed.
End Safe.

(** ** The theorems *)

(** C9. Any number of threads (up to 2^20) serve any messages, in any order, on a platform whose shared
    memory is set up. No access of the core, or of a pseudo TA that keeps to its buffers, reaches memory
    that is not the buffer meant, or that is secure; no freed object is used, nothing is freed or
    unmapped twice, and no assertion fails but one: the core panics in the look-up of a cookie
    (mobj_reg_shm_get_by_cookie()), and there only when it finds a registered object whose last
    reference has been put and that is still listed. *)
Theorem shm_safe `{PlatformOk} pool f a ms x t : start_ok pool a -> lenZ ms <= 2 ^ 20 -> Forall (Forall msg_ok) ms -> shm_reachable pool f a ms x ->
  match sys_step t x with
  | Some (Ret _) | None => True
  | Some Panic => exists p ck l r, thr x !! t = Some p /\ next_section p (do! mobj_reg_shm_get_by_cookie ck in ret tt) /\
      reg_shm_find_unlocked ck (st x) = (Ret (Some l), st x) /\ heap (st x) !! l = Some r /\ refc r = 0
  | Some (Err _) | Some (Undef _) => False
  end.
Proof.
  intros Hs Hn Hm Hr. destruct (shm_reachable_good pool f a ms x Hs Hn Hm Hr) as [G Hg]. pose proof (good_step own0 true x G t Hg) as St. destruct (sys_step t x) as [[y| | |]|]; try done.
  destruct St as [St|(p & m & Hp & Hx & ck & l & r & -> & Hf & Hl)]; [done|]. by exists p, ck, l, r.
Qed.

(** C10. While a trusted application runs, each memory reference it was given is NULL and empty or lies in a
    memory object that is referenced; every byte of it exists and is non-secure memory. *)
Theorem shm_params_valid `{PlatformOk} pool f a ms x t p n m : start_ok pool a -> lenZ ms <= 2 ^ 20 -> Forall (Forall msg_ok) ms -> shm_reachable pool f a ms x ->
  running (st x) !! t = Some p -> u p !! n = Some (Mem m) ->
  match mem_mobj m with
  | None => mem_size m = 0
  | Some q => (forall l, q = Reg l -> exists r, heap (st x) !! l = Some r /\ 0 < refc r) /\
      forall i, 0 <= i < mem_size m -> exists pa, mobj_byte_pa (st x) q (mem_offs m + i) = Some pa /\ core_pbuf_is_nsec pa 1 = true
  end.
Proof.
  intros Hs Hn Hm Hr Hp Hu. destruct (shm_reachable_good pool f a ms x Hs Hn Hm Hr) as [G Hg]. pose proof (gd_inv _ _ _ _ _ _ _ Hg) as I. apply (i_run _ _ I) in Hp as (o & Ho & Hc). pose proof (wf_cur _ (i_wf _ _ I _ _ Ho) _ Hc _ _ Hu) as Mk. unfold mem_ok in Mk.
  destruct (mem_mobj m) as [q|]; [|done]. destruct Mk as (sz & Hin & H1 & H2 & H3). split.
  - intros l ->. eapply ref_live; [done|done|]. apply list_elem_of_fmap. by exists (Reg l, sz).
  - intros i Hi. eapply ref_bytes; [done|done|done|]. lia.
Qed.

(** Threads that are done or asleep own nothing that another waits for. *)
Lemma quiet_own `{PlatformOk} x G t o : shm_good x G -> (forall t p, thr x !! t = Some p -> p = Done tt \/ t ∈ shm_cv (st x)) -> G !! t = Some o -> o = own0 \/ (refs o = [] /\ frees o = [] /\ owes o = 0%nat).
Proof.
  intros Hg Hq Ho. pose proof (gd_inv _ _ _ _ _ _ _ Hg) as I. destruct (lookup_lt_is_Some_2 (thr x) t) as [p Hp]; [rewrite <- (gd_len _ _ _ _ _ _ _ Hg); by eapply lookup_lt_Some|].
  destruct (Hq t p Hp) as [->|Hin]; [left; by eapply good_done|right]. destruct (i_cv _ _ I _ Hin) as (o' & l & Ho' & _ & (_ & ? & ? & ?) & _). by simplify_eq.
Qed.

(** C20. No wake-up is lost: when every thread is done or waits for the release of an object, none waits.
    Nothing is left then of the work of the calls: the registered objects have the reference of their
    registration and are not mapped, no window is in use. *)
Theorem shm_quiescent `{PlatformOk} pool f a ms x : start_ok pool a -> lenZ ms <= 2 ^ 20 -> Forall (Forall msg_ok) ms -> shm_reachable pool f a ms x ->
  (forall t p, thr x !! t = Some p -> p = Done tt \/ t ∈ shm_cv (st x)) ->
  shm_cv (st x) = [] /\ shm_release_waiters (st x) = 0 /\ shm_refc (st x) = Some 1 /\ table (st x) = ∅ /\ length (chain (core_virt_shm_pool (st x))) = 1%nat /\
  forall l r, heap (st x) !! l = Some r -> refc r = 1 /\ guarded r = false /\ releasing r = false /\ mapcount r = 0 /\ m_mm r = None.
Proof.
  intros Hs Hn Hm Hr Hq. destruct (shm_reachable_good pool f a ms x Hs Hn Hm Hr) as [G Hg]. pose proof (gd_inv _ _ _ _ _ _ _ Hg) as I.
  assert (forall k, (forall o, refs o = [] /\ frees o = [] /\ owes o = 0%nat -> k o = 0%nat) -> total k G = 0%nat) as Zr.
  { intros k Hk. destruct (decide (total k G = 0%nat)); [done|]. destruct (total_pos k G ltac:(lia)) as (t & o & Ho & Hpos). assert (k o = 0%nat); [apply Hk|lia]. destruct (quiet_own x G t o Hg Hq Ho) as [->|?]; done. }
  assert (total owes G = 0%nat) as Z0 by (apply Zr; naive_solver). assert (forall l, total (nref (Reg l)) G = 0%nat) as Z1 by (intros l; apply Zr; intros o (E & _ & _); unfold nref; by rewrite E). assert (forall l, total (nfree l) G = 0%nat) as Z2 by (intros l; apply Zr; intros o (_ & E & _); unfold nfree; by rewrite E).
  assert (shm_cv (st x) = []) as Ecv.
  { destruct (shm_cv (st x)) as [|t q] eqn:Eq; [done|]. destruct (i_cv _ _ I t) as (o & l & Ho & Ew & _ & D); [rewrite Eq; by left|]. destruct D as [(r & Er & Ef)|D]; [|lia]. destruct (i_cnt _ _ I _ _ Er) as [K1 K2 K3 K4 K5 _ _ _ _ _ _]. cbn in K1, K2, K4. rewrite Z1, Z2, Ef in *. pose proof (total_le (nwts l) _ _ _ Ho) as Hle. assert (nwts l o = 1%nat) as N by (unfold nwts; rewrite Ew; by rewrite cnt_cons, decide_True).
    destruct (releasing r) eqn:E; [|lia]. rewrite (K3 eq_refl) in K1. cbn in K1. rewrite K1 in K2. done. }
  assert (forall t o, G !! t = Some o -> o = own0) as Own.
  { intros t o Ho. destruct (lookup_lt_is_Some_2 (thr x) t) as [p Hp]; [rewrite <- (gd_len _ _ _ _ _ _ _ Hg); by eapply lookup_lt_Some|]. destruct (Hq t p Hp) as [->|Hin]; [by eapply good_done|]. rewrite Ecv in Hin. by apply elem_of_nil in Hin. }
  assert (forall k, k own0 = 0%nat -> total k G = 0%nat) as Zo. { intros k Hk. destruct (decide (total k G = 0%nat)); [done|]. destruct (total_pos k G ltac:(lia)) as (t & o & Ho & Hpos). rewrite (Own t o Ho) in Hpos. lia. }
  assert (forall l r, heap (st x) !! l = Some r -> refc r = 1 /\ guarded r = false /\ releasing r = false /\ mapcount r = 0 /\ m_mm r = None) as Obj.
  { intros l r Er. destruct (i_cnt _ _ I _ _ Er) as [K1 K2 K3 K4 K5 K6 K7 _ _ _ K11]. cbn in K1, K2, K4, K6, K7, K11. rewrite !Zo in * by done.
    assert (releasing r = false) as Erl by (destruct (releasing r); [lia|done]). assert (release_frees r = false) as Efr by (destruct (release_frees r); [by rewrite K5 in Erl|done]). rewrite Erl, Efr in *.
    assert (guarded r = false) as Eg by (destruct (guarded r); [cbn in K1; by rewrite K1 in K2|done]). rewrite Eg in *. cbn in K1. specialize (K7 ltac:(by left)). cbn in K7. do 4 (split; [done|]). destruct (m_mm r) as [e|]; [|done]. specialize (K11 ltac:(by eexists) K7). lia. }
  split; [done|]. split; [by rewrite (i_wait _ _ I), Zo|]. split; [by rewrite (i_shm _ _ I), Zo|]. split.
  - apply map_empty. intros va. destruct (table (st x) !! va) as [p|] eqn:E; [|done]. apply (mi_table _ (i_mem _ _ I)) in E as (l & r & e & i & Er & Ee & _). destruct (Obj _ _ Er) as (_ & _ & _ & _ & ?). congruence.
  - split; [|done]. destruct (mi_pool _ (i_mem _ _ I)) as (hd & rs & P1 & _ & P3). rewrite (pi_chain _ _ _ P1). destruct rs as [|e rs]; [done|]. destruct (proj1 (P3 e) ltac:(by left)) as (l & r & Er & Ee). destruct (Obj _ _ Er) as (_ & _ & _ & _ & ?). congruence.
Qed.
