(* ===== verification/ShmExample.v ===== *)
(** * Shared memory: runs

    A platform, messages and schedules: the theorems of [ShmSafe] applied to states that are reached, and
    what the code does in corner cases. *)
From stdpp Require Import gmap.
From S2P Require Import Prelude TeeMm RecMutex Threads Shm ShmMsg ShmInv ShmMem ShmObj ShmMap ShmCalls ShmSafe.
Local Open Scope Z_scope.

(** The reserved memory of the platform (CFG_SHMEM_START, CFG_SHMEM_SIZE), some non-secure DRAM, and where
    the ranges are mapped. *)
#[local] Instance rpi5 : Platform := {|
  nsec := [(0x08000000, 0x00400000); (0x40000000, 0x40000000)];
  shm_pa := 0x08000000;
  shm_va := 0x30000000;
  shm_size := 0x00400000;
  shm_vaspace := 0x10000000;
|}.

#[local] Instance rpi5_ok : PlatformOk.
Proof. split; cbn; try lia; [by left|done]. Qed.

Definition vaspace_pool : tee_mm_pool := mk_pool [mk_entry 1 0 0] 0x10000000 0x2000000 false 12.

Lemma vaspace_pool_ok : start_ok vaspace_pool 2.
Proof.
  exists (mk_entry 1 0 0). split; [|split; [split; cbn; (done || lia)|done]]. split; try done.
  - by repeat constructor.
  - constructor; [|constructor]. split; cbn; try done.
  - cbn. constructor; [by intros ?%elem_of_nil|constructor].
Qed.

(** ** Messages *)

(** A buffer of 8000 bytes at offset 16 of a page, its pages listed one by one. *)
Definition shm_param (ck : Z) : msg_param := mk_msg_param (OPTEE_MSG_ATTR_TYPE_TMEM_OUTPUT + OPTEE_MSG_ATTR_NONCONTIG) 0x40000010 8000 ck (fun k => 0x40000000 + 4096 * Z.of_nat k).
(** 5000 bytes of it from offset 16 on. *)
Definition rmem_param (ck : Z) : msg_param := mk_msg_param OPTEE_MSG_ATTR_TYPE_RMEM_INOUT 16 5000 ck (fun _ => 0).
(** A part of the reserved memory. *)
Definition tmem_param : msg_param := mk_msg_param OPTEE_MSG_ATTR_TYPE_TMEM_INOUT 0x08000100 50 0 (fun _ => 0).
Definition value_param : msg_param := mk_msg_param OPTEE_MSG_ATTR_TYPE_VALUE_INOUT 5 50 0 (fun _ => 0).

(** A pseudo TA that uses the whole of its first buffer. *)
Definition use_all (ty : Z) (tp : list tee_param) : pta_run :=
  mk_pta_run (match tp with PMemref _ sz :: _ => if 0 <=? sz then [(0%nat, 0, sz)] else [] | _ => [] end) TEE_SUCCESS [PMemref 0 77; PMemref 0 3; PValue 8 9].

#[local] Instance use_all_ok : pta_ok use_all.
Proof.
  intros ty tp n i len. cbn. destruct tp as [|[| |b sz] tp]; try by intros ?%elem_of_nil. destruct (0 <=? sz) eqn:E; [|by intros ?%elem_of_nil]. bool_hyps. intros [= -> -> ->]%list_elem_of_singleton. exists b, sz. repeat split; lia.
Qed.

(** One thread registers a buffer and unregisters it; another uses it in between. *)
Definition two_threads : list (list msg) :=
  [[RegisterShm [shm_param 7]; UnregisterShm [shm_param 7]];
   [InvokeCommand [rmem_param 7; tmem_param; value_param] (Some (Pseudo use_all))]].

Definition shm_x0 : sys state unit := mk_sys (shm_start vaspace_pool [] 2) (threads two_threads).
Definition shm_after (sched : list nat) : sys state unit := match quiet_run (fun _ => false) sched shm_x0 with Some y => y | None => shm_x0 end.

Lemma shm_after_reachable sched : shm_reachable vaspace_pool [] 2 two_threads (shm_after sched).
Proof.
  unfold shm_after. destruct (quiet_run _ sched shm_x0) as [y|] eqn:E; [|apply reach_start]. eapply quiet_run_reaches; [apply reach_start|exact E].
Qed.

Lemma two_threads_ok : Forall (Forall msg_ok) two_threads.
Proof. repeat constructor. apply use_all_ok. Qed.

(** ** Findings *)

(** The unregistering thread has put the last reference and not yet freed the object: the call that looks
    its cookie up panics the core. *)
Example shm_lookup_panics : match sys_step 1 (shm_after (replicate 13 0%nat)) with Some Panic => True | _ => False end.
Proof. vm_compute. exact I. Qed.

(** The attributes that optee_msg.h gives for OPTEE_MSG_CMD_REGISTER_SHM are refused. *)
Lemma register_documented_attr_refused p : attr p = OPTEE_MSG_ATTR_TYPE_TMEM_INPUT \/ attr p = Z.lor OPTEE_MSG_ATTR_TYPE_TMEM_INPUT OPTEE_MSG_ATTR_NONCONTIG -> register_shm [p] = Done TEE_ERROR_BAD_PARAMETERS.
Proof. unfold register_shm. by intros [->| ->]. Qed.

(** copy_in_params() that fails keeps the references it has taken: the caller has to clean up, which
    get_protmem_config() does not. *)
Definition copy_in_alone : sys state unit :=
  mk_sys (shm_start vaspace_pool [] 2) [do* register_shm [shm_param 7] in do* copy_in_params [rmem_param 7; mk_msg_param OPTEE_MSG_ATTR_META 0 0 0 (fun _ => 0)] in Done tt].
Example copy_in_error_keeps_reference : match run (replicate 20 0%nat) copy_in_alone with
  | Ret x => refc <$> heap (st x) !! 5 = Some 2 /\ thr x = [Done tt]
  | _ => False
  end.
Proof. vm_compute. done. Qed.

(** ** Witnesses *)

(** At the panic the thread looks up a cookie and finds an object with a count of 0. *)
Lemma shm_safe_witness : let x := shm_after (replicate 13 0%nat) in exists p ck l r, thr x !! 1%nat = Some p /\
  next_section p (do! mobj_reg_shm_get_by_cookie ck in ret tt) /\
  reg_shm_find_unlocked ck (st x) = (Ret (Some l), st x) /\ heap (st x) !! l = Some r /\ refc r = 0.
Proof.
  intros x. pose proof (shm_safe vaspace_pool [] 2 two_threads x 1 vaspace_pool_ok ltac:(done) two_threads_ok (shm_after_reachable _)) as S. pose proof shm_lookup_panics as P. fold x in P.
  destruct (sys_step 1 x) as [[]|]; done.
Defined.

(** The unregistering thread sleeps, the pseudo TA runs: its first parameter. *)
Definition shm_busy : sys state unit := shm_after (replicate 11 0%nat ++ replicate 3 1%nat ++ replicate 10 0%nat ++ [1%nat]).
Lemma shm_params_valid_witness : 0%nat ∈ shm_cv (st shm_busy) /\ exists pa, mobj_byte_pa (st shm_busy) (Reg 5) (16 + 4999) = Some pa /\ core_pbuf_is_nsec pa 1 = true.
Proof.
  split; [vm_compute; left|]. destruct (running (st shm_busy) !! 1%nat) as [p|] eqn:E; [|by vm_compute in E].
  pose proof (shm_params_valid vaspace_pool [] 2 two_threads shm_busy 1 p 0 (mk_mem (Some (Reg 5)) 5000 16) vaspace_pool_ok ltac:(done) two_threads_ok (shm_after_reachable _) E) as V.
  assert (u p !! 0%nat = Some (Mem (mk_mem (Some (Reg 5)) 5000 16))) as Eu by (vm_compute in E; injection E as <-; reflexivity). destruct (V Eu) as [_ W]. apply (W 4999). cbn. lia.
Defined.

(** Both threads done: the object is gone. *)
Definition shm_end : sys state unit := shm_after (replicate 11 0%nat ++ replicate 3 1%nat ++ replicate 10 0%nat ++ replicate 20 1%nat ++ replicate 4 0%nat).
Lemma shm_quiescent_witness : shm_refc (st shm_end) = Some 1 /\ heap (st shm_end) = ∅.
Proof.
  split; [|vm_compute; reflexivity]. assert (thr shm_end = [Done tt; Done tt]) as Et by (vm_compute; reflexivity).
  apply (shm_quiescent vaspace_pool [] 2 two_threads shm_end vaspace_pool_ok ltac:(done) two_threads_ok (shm_after_reachable _)). rewrite Et. intros [|[|t]] p [= <-]; by left.
Defined.
