(* ===== verification/Pobj.v ===== *)
(** * Persistent objects that are open

    [core/tee/tee_pobj.c]: the core keeps one [struct tee_pobj] for each persistent object that some
    trusted application has open, with a reference count and the flags of its first opener; a new
    open is checked against these flags. The model keeps the list of the objects with their
    addresses, in list order. The functions run under [pobjs_mutex], so each is one step.

    The clients of the interface hold the pointers [tee_pobj_get()] returned. The system of the
    theorems has, besides the list, the handles that are open, each with the flags it was opened
    with; the reference counts and the flag checks are shown to say the right thing about them. *)
From S2P Require Import Prelude.
#[local] Open Scope Z_scope.

Definition TEE_DATA_FLAG_ACCESS_READ : Z := 0x00000001.
Definition TEE_DATA_FLAG_ACCESS_WRITE : Z := 0x00000002.
Definition TEE_DATA_FLAG_ACCESS_WRITE_META : Z := 0x00000004.
Definition TEE_DATA_FLAG_SHARE_READ : Z := 0x00000010.
Definition TEE_DATA_FLAG_SHARE_WRITE : Z := 0x00000020.
Definition TEE_DATA_FLAG_OVERWRITE : Z := 0x00000400.

Record tee_pobj := Pobj {
  refcnt : Z;                   (* uint32_t; [set_refcnt] wraps around *)
  uuid : list Z;
  obj_id : list Z;              (* obj_id_len is its length *)
  flags : Z;
  obj_info_usage : Z;
  temporary : bool;
  creating : bool;
  fops : Z;
}.

Inductive tee_pobj_usage :=
| TEE_POBJ_USAGE_OPEN
| TEE_POBJ_USAGE_RENAME
| TEE_POBJ_USAGE_CREATE
| TEE_POBJ_USAGE_ENUM.

#[export] Instance tee_pobj_usage_eq_dec : EqDecision tee_pobj_usage.
Proof. solve_decision. Defined.

(** [tee_pobjs]: the objects with their addresses. *)
Definition pobjs := list (Z * tee_pobj).

Definition pobj_need_usage_lock (o : tee_pobj) : bool :=
  negb (Z.land (flags o) (Z.lor TEE_DATA_FLAG_SHARE_WRITE TEE_DATA_FLAG_SHARE_READ) =? 0).

Definition tee_pobj_check_access (oflags nflags : Z) : Z :=
  if has oflags TEE_DATA_FLAG_ACCESS_WRITE_META || has nflags TEE_DATA_FLAG_ACCESS_WRITE_META
  then TEE_ERROR_ACCESS_CONFLICT
  else if (has oflags TEE_DATA_FLAG_ACCESS_READ || has nflags TEE_DATA_FLAG_ACCESS_READ) &&
          negb (has nflags TEE_DATA_FLAG_SHARE_READ && has oflags TEE_DATA_FLAG_SHARE_READ)
  then TEE_ERROR_ACCESS_CONFLICT
  else if negb (Z.land nflags TEE_DATA_FLAG_SHARE_READ =? Z.land oflags TEE_DATA_FLAG_SHARE_READ)
  then TEE_ERROR_ACCESS_CONFLICT
  else if (has oflags TEE_DATA_FLAG_ACCESS_WRITE || has nflags TEE_DATA_FLAG_ACCESS_WRITE) &&
          negb (has nflags TEE_DATA_FLAG_SHARE_WRITE && has oflags TEE_DATA_FLAG_SHARE_WRITE)
  then TEE_ERROR_ACCESS_CONFLICT
  else if negb (Z.land nflags TEE_DATA_FLAG_SHARE_WRITE =? Z.land oflags TEE_DATA_FLAG_SHARE_WRITE)
  then TEE_ERROR_ACCESS_CONFLICT
  else TEE_SUCCESS.

(** The test of the search loop. *)
Definition same_object (u id : list Z) (f : Z) (o : tee_pobj) : bool :=
  bool_decide (length id = length (obj_id o)) && bool_decide (id = obj_id o) &&
  bool_decide (u = uuid o) && (f =? fops o).

(** The search loop does not stop at a match: the last one counts. *)
Fixpoint find_pobj (l : pobjs) (u id : list Z) (f : Z) (acc : option (Z * tee_pobj)) :
    option (Z * tee_pobj) :=
  match l with
  | [] => acc
  | (a, o) :: r => find_pobj r u id f (if same_object u id f o then Some (a, o) else acc)
  end.

(** Writing through the pointer [a]. *)
Definition update (a : Z) (g : tee_pobj -> tee_pobj) (l : pobjs) : pobjs :=
  (fun p => if p.1 =? a then (p.1, g p.2) else p) <$> l.

Definition set_refcnt (n : Z) (o : tee_pobj) : tee_pobj :=
  Pobj (u32 n) (uuid o) (obj_id o) (flags o) (obj_info_usage o) (temporary o) (creating o) (fops o).

(** [calloc_] is the address of the object [calloc()] returns, [malloc_ok] whether the copy of the
    identifier can be allocated. The result is the return code and [*obj]. *)
Definition tee_pobj_get (calloc_ : option Z) (malloc_ok : bool) (u id : list Z) (fl : Z)
    (usage : tee_pobj_usage) (f : Z) : M pobjs (Z * option Z) :=
  let! l := get in
  match find_pobj l u id f None with
  | Some (a, o) =>
      if decide (usage = TEE_POBJ_USAGE_ENUM) then
        do! modify (update a (set_refcnt (refcnt o + 1))) in
        ret (TEE_SUCCESS, Some a)
      else if creating o ||
              (bool_decide (usage = TEE_POBJ_USAGE_CREATE) && negb (has fl TEE_DATA_FLAG_OVERWRITE))
      then ret (TEE_ERROR_ACCESS_CONFLICT, None)
      else
        let res := tee_pobj_check_access (flags o) fl in
        if res =? TEE_SUCCESS then
          do! modify (update a (set_refcnt (refcnt o + 1))) in
          ret (TEE_SUCCESS, Some a)
        else ret (res, None)
  | None =>
      match calloc_ with
      | None => ret (TEE_ERROR_OUT_OF_MEMORY, None)
      | Some a =>
          if negb malloc_ok then ret (TEE_ERROR_OUT_OF_MEMORY, None)
          else
            let c := bool_decide (usage = TEE_POBJ_USAGE_CREATE) in
            do! modify (fun l => l ++ [(a, Pobj 1 u id fl 0 c c f)]) in
            ret (TEE_SUCCESS, Some a)
      end
  end.

(** The object behind a pointer; a pointer to nothing is a dangling one. *)
Definition deref (a : Z) : M pobjs tee_pobj :=
  let! l := get in
  of_opt OutOfBounds (snd <$> find (fun p => p.1 =? a) l).

Definition tee_pobj_create_final (a : Z) : M pobjs unit :=
  let! _ := deref a in
  modify (update a (fun o =>
    Pobj (refcnt o) (uuid o) (obj_id o) (flags o) (obj_info_usage o) false false (fops o))).

Definition tee_pobj_release (obj : option Z) : M pobjs Z :=
  match obj with
  | None => ret TEE_ERROR_BAD_PARAMETERS
  | Some a =>
      let! o := deref a in
      do! modify (update a (set_refcnt (refcnt o - 1))) in
      let! o' := deref a in
      do! (if refcnt o' =? 0 then modify (List.filter (fun p => negb (p.1 =? a))) else ret tt) in
      ret TEE_SUCCESS
  end.

Definition tee_pobj_rename (malloc_ok : bool) (obj : option Z) (id : option (list Z)) : M pobjs Z :=
  match obj, id with
  | Some a, Some i =>
      let! o := deref a in
      if negb (refcnt o =? 1) then ret TEE_ERROR_BAD_STATE
      else if negb malloc_ok then ret TEE_ERROR_OUT_OF_MEMORY
      else
        do! modify (update a (fun o =>
          Pobj (refcnt o) (uuid o) i (flags o) (obj_info_usage o) (temporary o) (creating o) (fops o))) in
        ret TEE_SUCCESS
  | _, _ => ret TEE_ERROR_BAD_PARAMETERS
  end.

(** ** The rule for sharing (GlobalPlatform, as the comments of the code quote it)

    Two handles on one object: neither may have been opened to write its metadata; if either was
    opened for reading both must share reading; both share reading or neither; the same for
    writing. *)
Definition share_ok (acc share f g : Z) : Prop :=
  (has f acc = true \/ has g acc = true -> has f share = true /\ has g share = true) /\
  has f share = has g share.

Definition compatible (f g : Z) : Prop :=
  has f TEE_DATA_FLAG_ACCESS_WRITE_META = false /\ has g TEE_DATA_FLAG_ACCESS_WRITE_META = false /\
  share_ok TEE_DATA_FLAG_ACCESS_READ TEE_DATA_FLAG_SHARE_READ f g /\
  share_ok TEE_DATA_FLAG_ACCESS_WRITE TEE_DATA_FLAG_SHARE_WRITE f g.

(** ** Clients: the handles that are open *)

(** A handle: the object, the flags asked for, whether it only enumerates, and whether it is the
    one that brought the object into the list. *)
Record handle := Handle { h_obj : Z; h_flags : Z; h_enum : bool; h_first : bool }.

Record sys := Sys { objs : pobjs; handles : list handle }.

Inductive op :=
| Get (calloc_ : option Z) (malloc_ok : bool) (u id : list Z) (fl : Z) (usage : tee_pobj_usage) (f : Z)
| CreateFinal (i : nat)
| Release (i : nat)
| Rename (malloc_ok : bool) (i : nat) (id : list Z).

(** One call; the client uses the handle at position [i] of the open ones. [None]: it has none. *)
Definition exec (o : op) (s : sys) : option (outcome sys) :=
  let run {A} (m : M pobjs A) (k : A -> list handle) : outcome sys :=
    match m (objs s) with
    | (Ret r, l) => Ret (Sys l (k r))
    | (Err e, _) => Err e
    | (Panic, _) => Panic
    | (Undef u, _) => Undef u
    end in
  match o with
  | Get c mk u id fl usage f =>
      Some (run (tee_pobj_get c mk u id fl usage f) (fun '(rc, p) =>
        match p with
        | Some a => handles s ++ [Handle a fl (bool_decide (usage = TEE_POBJ_USAGE_ENUM))
                                    (bool_decide (find_pobj (objs s) u id f None = None))]
        | None => handles s
        end))
  | CreateFinal i =>
      h ← handles s !! i; Some (run (tee_pobj_create_final (h_obj h)) (fun _ => handles s))
  | Release i =>
      h ← handles s !! i;
      Some (run (tee_pobj_release (Some (h_obj h))) (fun _ => delete i (handles s)))
  | Rename mk i id =>
      h ← handles s !! i;
      Some (run (tee_pobj_rename mk (Some (h_obj h)) (Some id)) (fun _ => handles s))
  end.

(** [calloc()] returns memory that is not in use; there are fewer than 2^32 - 1 handles. *)
Definition op_ok (o : op) (s : sys) : Prop :=
  match o with
  | Get (Some a) _ _ _ _ _ _ => a ∉ (objs s).*1 /\ lenZ (handles s) < 2 ^ 32 - 1
  | Get None _ _ _ _ _ _ => lenZ (handles s) < 2 ^ 32 - 1
  | _ => True
  end.

Inductive reachable : sys -> Prop :=
| reach_init : reachable (Sys [] [])
| reach_step s o s' : reachable s -> op_ok o s -> exec o s = Some (Ret s') -> reachable s'.

(** ** The flag checks *)

Lemma land_eq_has f g k : 0 <= k ->
  (Z.land f (2 ^ k) =? Z.land g (2 ^ k)) = eqb (has f (2 ^ k)) (has g (2 ^ k)).
Proof.
  intros Hk. unfold has.
  assert (forall x, Z.land x (2 ^ k) = 0 \/ Z.land x (2 ^ k) = 2 ^ k) as Hl.
  { intros x. destruct (Z.testbit x k) eqn:E; [right|left]; apply Z.bits_inj'; intros n Hn;
      rewrite Z.land_spec, ?Z.bits_0; rewrite Z.pow2_bits_eqb by done;
      (destruct (k =? n) eqn:En; bool_hyps; [subst n; by rewrite E | by rewrite andb_false_r]). }
  pose proof (pow2_pos k Hk).
  destruct (Hl f) as [-> | ->], (Hl g) as [-> | ->]; rewrite ?Z.eqb_refl;
    repeat (rewrite (proj2 (Z.eqb_neq _ _)) by lia); done.
Qed.

(** The two tests the code makes for a kind of access decide the rule for it. *)
Lemma share_spec acc k f g : 0 <= k ->
  share_ok acc (2 ^ k) f g <->
  (has f acc || has g acc) && negb (has g (2 ^ k) && has f (2 ^ k)) = false /\
  negb (Z.land g (2 ^ k) =? Z.land f (2 ^ k)) = false.
Proof.
  intros Hk. rewrite land_eq_has by done. unfold share_ok.
  destruct (has f acc), (has g acc), (has f (2 ^ k)), (has g (2 ^ k)); simpl; naive_solver.
Qed.

(** [tee_pobj_check_access()] decides the sharing rule. *)
Lemma check_access_spec f g : tee_pobj_check_access f g = TEE_SUCCESS <-> compatible f g.
Proof.
  unfold tee_pobj_check_access, compatible.
  pose proof (share_spec TEE_DATA_FLAG_ACCESS_READ 4 f g ltac:(lia)) as Hr.
  pose proof (share_spec TEE_DATA_FLAG_ACCESS_WRITE 5 f g ltac:(lia)) as Hw.
  change (2 ^ 4) with TEE_DATA_FLAG_SHARE_READ in Hr. change (2 ^ 5) with TEE_DATA_FLAG_SHARE_WRITE in Hw.
  rewrite Hr, Hw. clear Hr Hw.
  destruct (has f TEE_DATA_FLAG_ACCESS_WRITE_META), (has g TEE_DATA_FLAG_ACCESS_WRITE_META); cbn [orb];
    repeat match goal with |- context [if ?b then _ else _] => destruct b end; naive_solver.
Qed.

Lemma share_sym acc sh f g : share_ok acc sh f g -> share_ok acc sh g f.
Proof. unfold share_ok. destruct (has f acc), (has g acc), (has f sh), (has g sh); intuition. Qed.

Lemma share_common acc sh f g h : share_ok acc sh f g -> share_ok acc sh f h -> share_ok acc sh g h.
Proof.
  unfold share_ok. intros [A1 A2] [B1 B2]. rewrite <- A2, <- B2 in *.
  destruct (has g acc), (has h acc), (has f sh); intuition.
Qed.

Lemma compatible_sym f g : compatible f g -> compatible g f.
Proof. intros (A1 & A2 & A3 & A4). split_and!; [done | done | by apply share_sym..]. Qed.

(** Two handles that were both checked against the flags of a third are compatible. *)
Lemma compatible_common f g h : compatible f g -> compatible f h -> compatible g h.
Proof.
  intros (A1 & A2 & A3 & A4) (B1 & B2 & B3 & B4). split_and!; [done | done | by eapply share_common..].
Qed.

(** ** The list of objects *)

Definition obj_at (l : pobjs) (a : Z) : option tee_pobj := snd <$> find (fun p => p.1 =? a) l.

Lemma obj_at_cons x o l a : obj_at ((x, o) :: l) a = if x =? a then Some o else obj_at l a.
Proof. unfold obj_at. simpl. by destruct (x =? a). Qed.

Lemma obj_at_update l a g b :
  obj_at (update a g l) b = if b =? a then g <$> obj_at l a else obj_at l b.
Proof.
  induction l as [|[x o] l IH]; [by destruct (b =? a)|].
  unfold update in *. rewrite fmap_cons. cbn [fst snd].
  destruct (x =? a) eqn:Ex; bool_hyps; subst; rewrite !obj_at_cons.
  - rewrite Z.eqb_refl. destruct (b =? a) eqn:Eb; bool_hyps; subst.
    + by rewrite Z.eqb_refl.
    + rewrite (proj2 (Z.eqb_neq a b)) by lia. apply IH.
  - rewrite (proj2 (Z.eqb_neq x a)) by lia. destruct (x =? b) eqn:Exb; bool_hyps; subst.
    + by rewrite (proj2 (Z.eqb_neq b a)) by lia.
    + apply IH.
Qed.

Lemma obj_at_None l a : obj_at l a = None <-> a ∉ l.*1.
Proof.
  induction l as [|[x o] l IH]; [split; [intros _; apply not_elem_of_nil | done]|].
  rewrite obj_at_cons, fmap_cons, not_elem_of_cons. cbn [fst].
  destruct (x =? a) eqn:E; bool_hyps; naive_solver.
Qed.

Lemma obj_at_app l a o b : a ∉ l.*1 ->
  obj_at (l ++ [(a, o)]) b = if b =? a then Some o else obj_at l b.
Proof.
  intros Ha. induction l as [|[x p] l IH]; cbn [app].
  - rewrite obj_at_cons. destruct (b =? a) eqn:E, (a =? b) eqn:E'; bool_hyps; (done || lia).
  - rewrite !obj_at_cons, IH by set_solver. rewrite fmap_cons, not_elem_of_cons in Ha. cbn [fst] in Ha.
    destruct (x =? b) eqn:Ex, (b =? a) eqn:Eb; bool_hyps; try done. lia.
Qed.

Lemma obj_at_filter l a b :
  obj_at (List.filter (fun p => negb (p.1 =? a)) l) b = if b =? a then None else obj_at l b.
Proof.
  induction l as [|[x o] l IH]; [by destruct (b =? a)|]. cbn [List.filter fst].
  destruct (x =? a) eqn:Ex; cbn [negb]; rewrite ?obj_at_cons, IH; bool_hyps;
    destruct (b =? a) eqn:Eb, (x =? b) eqn:Exb; bool_hyps; try done; lia.
Qed.

Lemma update_fst a g l : (update a g l).*1 = l.*1.
Proof. induction l as [|[x o] l IH]; [done|]. unfold update in *. rewrite !fmap_cons, IH. simpl. by destruct (x =? a). Qed.

Lemma obj_at_In l a o : NoDup l.*1 -> (a, o) ∈ l -> obj_at l a = Some o.
Proof.
  induction l as [|[x p] l IH]; intros Hn Hin; [by apply elem_of_nil in Hin|].
  rewrite fmap_cons in Hn. apply NoDup_cons in Hn as [Hx Hn]. rewrite obj_at_cons.
  apply elem_of_cons in Hin as [[= -> ->]|Hin]; [by rewrite Z.eqb_refl|].
  destruct (x =? a) eqn:E; bool_hyps; [|by apply IH]. subst x.
  destruct Hx. cbn [fst]. by apply (list_elem_of_fmap_2' _ _ (a, o)).
Qed.

Lemma find_pobj_In l u id f acc a o :
  find_pobj l u id f acc = Some (a, o) -> acc = Some (a, o) \/ (a, o) ∈ l /\ same_object u id f o = true.
Proof.
  revert acc. induction l as [|[x p] l IH]; intros acc H; simpl in H; [by left|].
  apply IH in H as [H|[H1 H2]]; [|right; split; [by apply elem_of_cons; right | done]].
  destruct (same_object u id f p) eqn:E; [|by left]. injection H as -> ->.
  right. split; [by apply elem_of_cons; left | done].
Qed.

(** ** Counting handles *)

Definition count (a : Z) (hs : list handle) : Z := lenZ (List.filter (fun h => h_obj h =? a) hs).

Lemma count_app a hs h : count a (hs ++ [h]) = count a hs + Z.b2z (h_obj h =? a).
Proof.
  unfold count. rewrite List.filter_app, lenZ_app. simpl. by destruct (h_obj h =? a).
Qed.

Lemma count_delete a hs i h : hs !! i = Some h ->
  count a (delete i hs) = count a hs - Z.b2z (h_obj h =? a).
Proof.
  revert i. induction hs as [|x hs IH]; intros [|i] H; simplify_eq/=; unfold count in *; simpl.
  - destruct (h_obj h =? a); unfold lenZ; simpl length; simpl Z.b2z; lia.
  - destruct (h_obj x =? a); unfold lenZ in *; simpl length; rewrite ?Nat2Z.inj_succ, (IH i H); lia.
Qed.

Lemma count_pos a hs i h : hs !! i = Some h -> h_obj h = a -> 1 <= count a hs.
Proof.
  intros H Ha. pose proof (count_delete a hs i h H) as E. rewrite Ha, Z.eqb_refl in E. simpl Z.b2z in E.
  unfold count in *. pose proof (lenZ_nonneg (List.filter (fun h => h_obj h =? a) (delete i hs))). lia.
Qed.

Lemma count_none a hs : (forall i h, hs !! i = Some h -> h_obj h <> a) -> count a hs = 0.
Proof.
  unfold count. induction hs as [|x hs IH]; intros H; [done|]. cbn [List.filter].
  rewrite (proj2 (Z.eqb_neq _ _)) by (by apply (H 0%nat)). apply IH. intros i. apply (H (S i)).
Qed.

Lemma count_le a hs : 0 <= count a hs <= lenZ hs.
Proof.
  unfold count, lenZ. pose proof (List.filter_length_le (fun h => h_obj h =? a) hs). lia.
Qed.

(** ** The invariant *)

(** What the object says about a handle on it. *)
Definition handle_ok (o : tee_pobj) (h : handle) : Prop :=
  (if h_first h then h_flags h = flags o else h_enum h = true \/ compatible (flags o) (h_flags h)) /\
  (creating o = true -> h_enum h = true \/ h_first h = true).

Record inv (s : sys) : Prop := {
  inv_nodup : NoDup (objs s).*1;
  inv_live i h : handles s !! i = Some h -> is_Some (obj_at (objs s) (h_obj h));
  inv_count a o : obj_at (objs s) a = Some o -> refcnt o = count a (handles s) /\ 1 <= refcnt o;
  inv_handle a o i h :
    obj_at (objs s) a = Some o -> handles s !! i = Some h -> h_obj h = a -> handle_ok o h;
  inv_first i j h h' :
    handles s !! i = Some h -> handles s !! j = Some h' ->
    h_first h = true -> h_first h' = true -> h_obj h = h_obj h' -> i = j;
  inv_len : lenZ (handles s) < 2 ^ 32;
}.

Lemma lookup_snoc_cases {A} (l : list A) x i y :
  (l ++ [x]) !! i = Some y -> l !! i = Some y \/ i = length l /\ y = x.
Proof.
  intros H. apply lookup_app_Some in H as [H|[Hl H]]; [by left|].
  right. apply list_lookup_singleton_Some in H as [H ->]. split; [lia | done].
Qed.

Lemma lenZ_snoc {A} (l : list A) x : lenZ (l ++ [x]) = lenZ l + 1.
Proof. by rewrite lenZ_app. Qed.

(** A further handle on an object that is in the list. *)
Lemma inv_bump s a o h :
  inv s -> obj_at (objs s) a = Some o -> h_obj h = a -> h_first h = false -> handle_ok o h ->
  lenZ (handles s) < 2 ^ 32 - 1 ->
  inv (Sys (update a (set_refcnt (refcnt o + 1)) (objs s)) (handles s ++ [h])).
Proof.
  intros [H1 H2 H3 H4 H5 H6] Ho Ha Hf Hok Hl. destruct (H3 a o Ho) as [Hc Hpos].
  pose proof (count_le a (handles s)). split; cbn [objs handles].
  - by rewrite update_fst.
  - intros i h' Hi. rewrite obj_at_update. apply lookup_snoc_cases in Hi as [Hi|[_ ->]].
    + destruct (h_obj h' =? a) eqn:E; bool_hyps; [by rewrite Ho | by eapply H2].
    + by rewrite Ha, Z.eqb_refl, Ho.
  - intros b p Hb. rewrite obj_at_update in Hb. rewrite count_app, Ha.
    destruct (b =? a) eqn:E; bool_hyps.
    + subst b. rewrite Ho in Hb. injection Hb as <-. rewrite Z.eqb_refl. simpl.
      rewrite uwrap_small by (unfold is_u; lia). lia.
    + rewrite (proj2 (Z.eqb_neq a b)) by lia. rewrite Z.add_0_r. by apply H3.
  - intros b p i h' Hb Hi Hh'. rewrite obj_at_update in Hb. apply lookup_snoc_cases in Hi as [Hi|[_ ->]].
    + destruct (b =? a) eqn:E; bool_hyps; [|by eapply H4]. subst b. rewrite Ho in Hb. injection Hb as <-.
      by eapply (H4 a o).
    + rewrite <- Hh', Ha, Z.eqb_refl, Ho in Hb. by injection Hb as <-.
  - intros i j x y Hi Hj Hx Hy. apply lookup_snoc_cases in Hi as [Hi|[_ ->]]; [|congruence].
    apply lookup_snoc_cases in Hj as [Hj|[_ ->]]; [|congruence]. by apply (H5 i j x y).
  - rewrite lenZ_snoc. lia.
Qed.

(** The first handle on an object, which joins the list. *)
Lemma inv_new s a o h :
  inv s -> a ∉ (objs s).*1 -> h_obj h = a -> refcnt o = 1 -> h_first h = true -> h_flags h = flags o ->
  lenZ (handles s) < 2 ^ 32 - 1 -> inv (Sys (objs s ++ [(a, o)]) (handles s ++ [h])).
Proof.
  intros [H1 H2 H3 H4 H5 H6] Hn Ha Hr Hf Hfl Hl.
  assert (forall i h', handles s !! i = Some h' -> h_obj h' <> a) as Hne.
  { intros i h' Hi He. destruct (H2 i h' Hi) as [p Hp]. rewrite He in Hp.
    by rewrite (proj2 (obj_at_None _ _) Hn) in Hp. }
  pose proof (count_none a (handles s) Hne) as Hc.
  split; cbn [objs handles].
  - rewrite fmap_app. apply NoDup_app. split; [done|]. split; [|apply NoDup_singleton].
    intros x Hx Hx'. apply list_elem_of_singleton in Hx'. cbn in Hx'. by subst x.
  - intros i h' Hi. rewrite obj_at_app by done. apply lookup_snoc_cases in Hi as [Hi|[_ ->]].
    + rewrite (proj2 (Z.eqb_neq _ _)) by (by eapply Hne). by eapply H2.
    + by rewrite Ha, Z.eqb_refl.
  - intros b p Hb. rewrite obj_at_app in Hb by done. rewrite count_app, Ha.
    destruct (b =? a) eqn:E; bool_hyps.
    + subst b. injection Hb as <-. rewrite Z.eqb_refl, Hc. simpl. lia.
    + rewrite (proj2 (Z.eqb_neq a b)) by lia. rewrite Z.add_0_r. by apply H3.
  - intros b p i h' Hb Hi Hh'. rewrite obj_at_app in Hb by done.
    apply lookup_snoc_cases in Hi as [Hi|[_ ->]].
    + rewrite <- Hh', (proj2 (Z.eqb_neq _ _)) in Hb by (by eapply Hne). by eapply (H4 (h_obj h')).
    + rewrite <- Hh', Ha, Z.eqb_refl in Hb. injection Hb as <-. unfold handle_ok. rewrite Hf. auto.
  - intros i j x y Hi Hj Hx Hy Hxy.
    apply lookup_snoc_cases in Hi as [Hi|[-> ->]]; apply lookup_snoc_cases in Hj as [Hj|[-> ->]].
    + by apply (H5 i j x y).
    + destruct (Hne i x Hi). congruence.
    + destruct (Hne j y Hj). congruence.
    + done.
  - rewrite lenZ_snoc. lia.
Qed.

(** Writing the fields of an object that the handles do not depend on. *)
Lemma inv_write s a g :
  inv s ->
  (forall o, refcnt (g o) = refcnt o /\ flags (g o) = flags o /\ (creating (g o) = true -> creating o = true)) ->
  inv (Sys (update a g (objs s)) (handles s)).
Proof.
  intros [H1 H2 H3 H4 H5 H6] Hg. 
  assert (forall b p, obj_at (update a g (objs s)) b = Some p ->
    exists o, obj_at (objs s) b = Some o /\ refcnt p = refcnt o /\ flags p = flags o /\
      (creating p = true -> creating o = true)) as Hu.
  { intros b p Hb. rewrite obj_at_update in Hb. destruct (b =? a) eqn:E; bool_hyps; [|by exists p].
    subst b. destruct (obj_at (objs s) a) as [o|]; [|done]. injection Hb as <-. exists o.
    split; [done | apply Hg]. }
  split; cbn [objs handles]; [by rewrite update_fst | | | | done | done].
  - intros i h Hi. rewrite obj_at_update. destruct (h_obj h =? a) eqn:E; bool_hyps; [|by eapply H2].
    rewrite <- E. apply fmap_is_Some. by eapply H2.
  - intros b p Hb. destruct (Hu b p Hb) as (o & Ho & -> & _). by apply H3.
  - intros b p i h Hb Hi Hh. destruct (Hu b p Hb) as (o & Ho & _ & Ef & Ec).
    destruct (H4 b o i h Ho Hi Hh) as [Hx Hy]. unfold handle_ok. rewrite Ef. auto.
Qed.

(** Positions in a list from which the element at [i] has been deleted. *)
Definition before_delete (i j : nat) : nat := if decide (j < i)%nat then j else S j.

Lemma lookup_delete_before {A} (l : list A) i j x :
  delete i l !! j = Some x -> l !! before_delete i j = Some x.
Proof.
  unfold before_delete. intros H. destruct (decide (j < i)%nat).
  - by rewrite list_lookup_delete_lt in H.
  - by rewrite list_lookup_delete_ge in H by lia.
Qed.

Lemma before_delete_inj i j k : before_delete i j = before_delete i k -> j = k.
Proof. unfold before_delete. repeat destruct (decide _); lia. Qed.

Lemma before_delete_ne i j : before_delete i j <> i.
Proof. unfold before_delete. destruct (decide _); lia. Qed.

(** One handle less; the object goes with the last one. *)
Lemma inv_release s i h o l' :
  inv s -> handles s !! i = Some h -> obj_at (objs s) (h_obj h) = Some o ->
  NoDup l'.*1 ->
  (forall b, obj_at l' b =
     if b =? h_obj h then (if refcnt o =? 1 then None else Some (set_refcnt (refcnt o - 1) o))
     else obj_at (objs s) b) ->
  inv (Sys l' (delete i (handles s))).
Proof.
  intros [H1 H2 H3 H4 H5 H6] Hi Ho Hnd Hl'. destruct (H3 _ _ Ho) as [Hc Hpos].
  pose proof (count_le (h_obj h) (handles s)).
  split; cbn [objs handles]; [done | | | | |].
  - intros j x Hj. rewrite Hl'. pose proof (lookup_delete_before _ _ _ _ Hj) as Hj'.
    destruct (h_obj x =? h_obj h) eqn:E; bool_hyps; [|by eapply H2].
    destruct (refcnt o =? 1) eqn:E1; bool_hyps; [|done]. exfalso.
    pose proof (count_pos _ _ _ _ Hj E) as Hp. rewrite (count_delete _ _ _ _ Hi), Z.eqb_refl in Hp.
    simpl in Hp. lia.
  - intros b p Hb. rewrite Hl' in Hb. rewrite (count_delete _ _ _ _ Hi).
    destruct (b =? h_obj h) eqn:E; bool_hyps.
    + destruct (refcnt o =? 1) eqn:E1; bool_hyps; simplify_eq. rewrite Z.eqb_refl. simpl.
      rewrite uwrap_small by (unfold is_u; lia). lia.
    + rewrite (proj2 (Z.eqb_neq (h_obj h) b)) by lia. rewrite Z.sub_0_r. by apply H3.
  - intros b p j x Hb Hj Hx. rewrite Hl' in Hb. apply lookup_delete_before in Hj.
    destruct (b =? h_obj h) eqn:E; bool_hyps; [|by eapply H4].
    destruct (refcnt o =? 1); simplify_eq. by eapply (H4 (h_obj h) o).
  - intros j k x y Hj Hk. apply lookup_delete_before in Hj, Hk. intros Hx Hy Hxy.
    apply (before_delete_inj i), (H5 _ _ x y); done.
  - eapply Z.le_lt_trans; [|exact H6]. unfold lenZ.
    rewrite length_delete by (by exists h). lia.
Qed.

Lemma deref_at l a o : obj_at l a = Some o -> deref a l = (Ret o, l).
Proof. unfold deref, bind, get, obj_at. by intros ->. Qed.

Lemma get_found_inv s a o fl usage :
  inv s -> obj_at (objs s) a = Some o -> lenZ (handles s) < 2 ^ 32 - 1 ->
  (usage = TEE_POBJ_USAGE_ENUM \/ creating o = false /\ compatible (flags o) fl) ->
  inv (Sys (update a (set_refcnt (refcnt o + 1)) (objs s))
         (handles s ++ [Handle a fl (bool_decide (usage = TEE_POBJ_USAGE_ENUM)) false])).
Proof.
  intros Hs Ho Hl Hok. apply inv_bump; try done. unfold handle_ok. simpl.
  destruct Hok as [->|[Hc Hk]]; [by rewrite bool_decide_eq_true_2 by done; auto | rewrite Hc; auto].
Qed.

Lemma get_inv s c mk u id fl usage f :
  inv s -> op_ok (Get c mk u id fl usage f) s ->
  exists s', exec (Get c mk u id fl usage f) s = Some (Ret s') /\ inv s'.
Proof.
  intros Hs Hok. assert (lenZ (handles s) < 2 ^ 32 - 1) as Hl by (destruct c; simpl in Hok; tauto).
  unfold exec, tee_pobj_get, bind, get. destruct (find_pobj (objs s) u id f None) as [[a o]|] eqn:Ef.
  - assert (obj_at (objs s) a = Some o) as Ho.
    { apply find_pobj_In in Ef as [Ef|[Ef _]]; [done|]. apply obj_at_In; [by apply inv_nodup | done]. }
    rewrite (bool_decide_eq_false_2 (Some (a, o) = None)) by done.
    destruct (decide (usage = TEE_POBJ_USAGE_ENUM)) as [Hu|Hu].
    { eexists. split; [done|]. apply get_found_inv; auto. }
    destruct (creating o || _) eqn:Ec; bool_hyps; [exists s; split; [by destruct s | done]|].
    destruct (_ =? TEE_SUCCESS) eqn:Er; bool_hyps; [|exists s; split; [by destruct s | done]].
    eexists. split; [done|]. apply get_found_inv; try done. right. split; [done|].
    by apply check_access_spec.
  - rewrite (bool_decide_eq_true_2 (None = None)) by done.
    destruct c as [a|]; [|exists s; split; [by destruct s | done]].
    destruct (negb mk); [exists s; split; [by destruct s | done]|].
    destruct Hok as [Hn _]. eexists. split; [done|]. by apply inv_new.
Qed.

Lemma release_inv s i h :
  inv s -> handles s !! i = Some h -> exists s', exec (Release i) s = Some (Ret s') /\ inv s'.
Proof.
  intros Hs Hi. destruct (inv_live s Hs i h Hi) as [o Ho]. pose proof (inv_count s Hs _ _ Ho) as [Hc Hp].
  pose proof (count_le (h_obj h) (handles s)). pose proof (inv_len s Hs).
  unfold exec. rewrite Hi. cbn [mbind option_bind]. unfold tee_pobj_release.
  rewrite (bind_run _ _ _ _ _ (deref_at _ _ _ Ho)). unfold bind at 1, modify at 1.
  assert (obj_at (update (h_obj h) (set_refcnt (refcnt o - 1)) (objs s)) (h_obj h)
          = Some (set_refcnt (refcnt o - 1) o)) as Ho' by (by rewrite obj_at_update, Z.eqb_refl, Ho).
  rewrite (bind_run _ _ _ _ _ (deref_at _ _ _ Ho')). cbn [set_refcnt refcnt].
  rewrite uwrap_small by (unfold is_u; lia).
  destruct (refcnt o - 1 =? 0) eqn:E; bool_hyps; (eexists; split; [done|]); eapply inv_release; try done.
  - assert (forall l : pobjs, NoDup l.*1 -> NoDup (List.filter (fun p => negb (p.1 =? h_obj h)) l).*1) as Hnd.
    { intros l. induction l as [|p l IH]; [done|]. rewrite fmap_cons. intros [Hp' Hl]%NoDup_cons.
      cbn [List.filter]. destruct (negb _); [|by apply IH]. rewrite fmap_cons. apply NoDup_cons.
      split; [|by apply IH]. intros Hin. destruct Hp'. apply list_elem_of_fmap in Hin as (q & -> & Hq).
      apply list_elem_of_In, List.filter_In in Hq as [Hq _]. by apply list_elem_of_fmap_2, list_elem_of_In. }
    apply Hnd. rewrite update_fst. by apply inv_nodup.
  - intros b. rewrite obj_at_filter, obj_at_update. rewrite (proj2 (Z.eqb_eq (refcnt o) 1)) by lia.
    by destruct (b =? h_obj h).
  - rewrite update_fst. by apply inv_nodup.
  - intros b. rewrite obj_at_update, (proj2 (Z.eqb_neq (refcnt o) 1)) by lia.
    destruct (b =? h_obj h); [by rewrite Ho | done].
Qed.

Lemma pobj_exec_inv o s r : inv s -> op_ok o s -> exec o s = Some r -> exists s', r = Ret s' /\ inv s'.
Proof.
  intros Hs Hok E. destruct o as [c mk u id fl usage f|i|i|mk i id].
  - destruct (get_inv s c mk u id fl usage f Hs Hok) as (s' & E' & Hs'). simplify_eq. eauto.
  - unfold exec in E. destruct (handles s !! i) as [h|] eqn:Hi; simplify_eq/=.
    destruct (inv_live s Hs i h Hi) as [o Ho]. unfold tee_pobj_create_final.
    rewrite (bind_run _ _ _ _ _ (deref_at _ _ _ Ho)). eexists. split; [done|]. by apply inv_write.
  - destruct (handles s !! i) as [h|] eqn:Hi; [|by simpl in E; rewrite Hi in E].
    destruct (release_inv s i h Hs Hi) as (s' & E' & Hs'). simplify_eq. eauto.
  - unfold exec in E. destruct (handles s !! i) as [h|] eqn:Hi; simplify_eq/=.
    destruct (inv_live s Hs i h Hi) as [o Ho]. unfold tee_pobj_rename.
    rewrite (bind_run _ _ _ _ _ (deref_at _ _ _ Ho)).
    destruct (negb (refcnt o =? 1)); [exists s; split; [by destruct s | done]|].
    destruct (negb mk); [exists s; split; [by destruct s | done]|].
    eexists. split; [done|]. by apply inv_write.
Qed.

Lemma pobj_reachable_inv s : reachable s -> inv s.
Proof.
  induction 1 as [|s o s' _ IH Hok E].
  - split; try done. constructor.
  - by destruct (pobj_exec_inv _ _ _ IH Hok E) as (? & [= <-] & ?).
Qed.

Lemma handles_compatible s i j h h' :
  inv s -> i <> j -> handles s !! i = Some h -> handles s !! j = Some h' ->
  h_obj h = h_obj h' -> h_enum h = false -> h_enum h' = false -> compatible (h_flags h) (h_flags h').
Proof.
  intros Hs Hne Hi Hj Ho He He'. destruct (inv_live s Hs i h Hi) as [o Hob].
  destruct (inv_handle s Hs _ _ _ _ Hob Hi eq_refl) as [H1 _].
  destruct (inv_handle s Hs _ _ _ _ Hob Hj (eq_sym Ho)) as [H2 _].
  destruct (h_first h) eqn:Ef, (h_first h') eqn:Ef'.
  - destruct Hne. by apply (inv_first s Hs i j h h').
  - destruct H2 as [H2|H2]; [congruence|]. by rewrite H1.
  - destruct H1 as [H1|H1]; [congruence|]. rewrite H2. by apply compatible_sym.
  - destruct H1 as [H1|H1], H2 as [H2|H2]; try congruence. by eapply compatible_common.
Qed.

(** C23. Sharing of persistent objects. Whatever calls the clients make, in whatever order, with
    whatever allocation failures, as long as calloc() returns memory that is not in use and fewer than
    2^32 - 1 handles are open (refcnt is a uint32_t and would wrap around): a handle that is open points
    to an object in the list; an object's reference count is the number of handles open on it, and it is
    freed with the last one; any two handles on one object, those that only enumerate apart, were opened
    with flags that the GlobalPlatform sharing rule allows together, although each was only compared
    with the flags of the first opener; an object whose creation is not finished has at most one such
    handle (none, when the creator has released it and an enumeration still has it); and every call a
    client can make returns. *)
Theorem tee_pobj_sharing (s : sys) :
  reachable s ->
  (forall i h, handles s !! i = Some h -> is_Some (obj_at (objs s) (h_obj h))) /\
  (forall a o, obj_at (objs s) a = Some o -> refcnt o = count a (handles s) /\ 1 <= refcnt o) /\
  (forall i j h h', i <> j -> handles s !! i = Some h -> handles s !! j = Some h' ->
     h_obj h = h_obj h' -> h_enum h = false -> h_enum h' = false -> compatible (h_flags h) (h_flags h')) /\
  (forall i j h h' o, handles s !! i = Some h -> handles s !! j = Some h' -> h_obj h = h_obj h' ->
     h_enum h = false -> h_enum h' = false -> obj_at (objs s) (h_obj h) = Some o -> creating o = true -> i = j) /\
  (forall o r, op_ok o s -> exec o s = Some r -> exists s', r = Ret s').
Proof.
  intros Hr. pose proof (pobj_reachable_inv s Hr) as Hs. split_and!.
  - intros i h. by apply (inv_live s Hs).
  - intros a o. by apply (inv_count s Hs).
  - intros i j h h'. by apply handles_compatible.
  - intros i j h h' o Hi Hj Ho He He' Hob Hc.
    destruct (inv_handle s Hs _ _ _ _ Hob Hi eq_refl) as [_ H1].
    destruct (inv_handle s Hs _ _ _ _ Hob Hj (eq_sym Ho)) as [_ H2].
    destruct (H1 Hc) as [?|Hf1], (H2 Hc) as [?|Hf2]; try congruence. by apply (inv_first s Hs i j h h').
  - intros o r Hok E. destruct (pobj_exec_inv o s r Hs Hok E) as (s' & -> & _). eauto.
Qed.

(** A reader that shares reading, and a second one. *)
Definition ex_first : sys :=
  Sys [(4096, Pobj 1 [1] [7] 0x11 0 false false 1)] [Handle 4096 0x11 false true].

Definition ex_shared : sys :=
  Sys [(4096, Pobj 2 [1] [7] 0x11 0 false false 1)]
    [Handle 4096 0x11 false true; Handle 4096 0x11 false false].

Lemma tee_pobj_sharing_witness : reachable ex_shared /\ compatible 0x11 0x11.
Proof.
  assert (reachable ex_first) as H1.
  { refine (reach_step (Sys [] []) (Get (Some 4096) true [1] [7] 0x11 TEE_POBJ_USAGE_OPEN 1) _ reach_init _ _);
      [split; [apply not_elem_of_nil | reflexivity] | reflexivity]. }
  assert (reachable ex_shared) as Hr.
  { refine (reach_step ex_first (Get None false [1] [7] 0x11 TEE_POBJ_USAGE_OPEN 1) _ H1 _ _); reflexivity. }
  split; [exact Hr|].
  refine (proj1 (proj2 (proj2 (tee_pobj_sharing ex_shared Hr))) 0%nat 1%nat (Handle 4096 0x11 false true)
            (Handle 4096 0x11 false false) _ _ _ _ _ _); (discriminate || reflexivity).
Defined.
