(* ===== verification/Pkcs11Attrs.v ===== *)
(** * Serialized attributes of the PKCS#11 trusted application

    [ta/pkcs11/src/serializer.c] and the attribute list operations of
    [ta/pkcs11/src/attributes.c].

    An object's attributes live in one heap block: a [struct obj_attrs] header (the byte size and
    the number of the attributes) followed by the attributes, each an 8-byte header (identifier and
    size) and its value. The model keeps the block as its bytes, so every field access, pointer
    step and [TEE_MemMove()] of the code is an access to that byte string, undefined outside it.
    The theorems relate the block to the list of (identifier, value) pairs it stands for.

    The allocator is a parameter: [alloc n] tells whether [TEE_Malloc()] or [TEE_Realloc()] of [n]
    bytes succeeds. [size_t] has 64 bits. *)
From S2P Require Import Prelude.
#[local] Open Scope Z_scope.

Definition PKCS11_CKR_OK : Z := 0.
Definition PKCS11_CKR_GENERAL_ERROR : Z := 0x0005.
Definition PKCS11_CKR_FUNCTION_FAILED : Z := 0x0006.
Definition PKCS11_CKR_ARGUMENTS_BAD : Z := 0x0007.
Definition PKCS11_CKR_DEVICE_MEMORY : Z := 0x0031.
Definition PKCS11_CKR_TEMPLATE_INCONSISTENT : Z := 0x00d1.
Definition PKCS11_CKR_BUFFER_TOO_SMALL : Z := 0x0150.
Definition PKCS11_RV_NOT_FOUND : Z := 0x80000000.

Definition PKCS11_CKA_OPTEE_FLAGS_HIDDEN : Z := Z.lor 0x80000000 0x00010000.

(** ** Reading client arguments (serializer.c) *)

(** [struct serialargs], with the bytes of the client's buffer; [start] and [next] are addresses. *)
Record serialargs := SerialArgs { input : list Z; start : Z; next : Z; size : Z }.

Definition serialargs_init (input : list Z) (start size : Z) : serialargs :=
  SerialArgs input start start size.

Definition set_next (a : Z) : M serialargs unit :=
  modify (fun s => SerialArgs (input s) (start s) a (size s)).

(** The result is the return code and [*out]; [None] is the null pointer. *)
Definition serialargs_get_ptr (sz : Z) : M serialargs (Z * option Z) :=
  let! args := get in
  let ptr := next args in
  let '(ovf, next_end) := add_overflow 64 (next args) sz in
  if ovf then ret (PKCS11_CKR_ARGUMENTS_BAD, None)
  else if sz =? 0 then ret (PKCS11_CKR_OK, None)
  else if start args + size args <? next_end then ret (PKCS11_CKR_ARGUMENTS_BAD, None)
  else
    do! set_next (next args + sz) in
    ret (PKCS11_CKR_OK, Some ptr).

(** [TEE_MemMove(out, src, sz)] from the client's buffer; nothing is read when [sz] is 0. *)
Definition read_input (src : option Z) (sz : Z) : M serialargs (list Z) :=
  let! args := get in
  match src with
  | Some p => of_opt OutOfBounds (rd (input args) (p - start args) sz)
  | None => if sz =? 0 then ret [] else undef OutOfBounds
  end.

(** The result is the return code and the bytes written to [out]. *)
Definition serialargs_get (sz : Z) : M serialargs (Z * list Z) :=
  let! p := serialargs_get_ptr sz in
  let '(rc, src) := p in
  if rc =? 0 then
    let! d := read_input src sz in
    ret (rc, d)
  else ret (rc, []).

(** The result is the return code and the bytes of [*out], [None] for the null pointer. *)
Definition alloc_and_get (alloc : Z -> bool) (orig_next : Z) (buf0 : list Z) (sz0 : Z) :
    M serialargs (Z * option (list Z)) :=
  let '(ovf, sz) := add_overflow 64 (lenZ buf0) sz0 in
  if ovf then ret (PKCS11_CKR_ARGUMENTS_BAD, None)
  else if sz =? 0 then ret (PKCS11_CKR_OK, None)
  else
    let! p := serialargs_get_ptr sz0 in
    let '(rc, src) := p in
    if negb (rc =? 0) then ret (rc, None)
    else if negb (alloc sz) then
      do! set_next orig_next in
      ret (PKCS11_CKR_DEVICE_MEMORY, None)
    else
      let! d := read_input src sz0 in
      ret (PKCS11_CKR_OK, Some (buf0 ++ d)).

Definition serialargs_alloc_and_get (alloc : Z -> bool) (sz : Z) : M serialargs (Z * option (list Z)) :=
  let! args := get in
  alloc_and_get alloc (next args) [] sz.

(** Both ABI structures start with two 32-bit words: [id, size] and [attrs_size, attrs_count]. *)
Definition word0 (h : list Z) : Z := le_val (take 4 h).
Definition word1 (h : list Z) : Z := le_val (take 4 (drop 4 h)).

Definition serialargs_alloc_get_one_attribute (alloc : Z -> bool) : M serialargs (Z * option (list Z)) :=
  let! args := get in
  let orig_next := next args in
  let! p := serialargs_get 8 in
  let '(rc, head) := p in
  if negb (rc =? 0) then ret (rc, None)
  else alloc_and_get alloc orig_next head (word1 head).

Definition serialargs_alloc_get_attributes (alloc : Z -> bool) : M serialargs (Z * option (list Z)) :=
  let! args := get in
  let orig_next := next args in
  let! p := serialargs_get 8 in
  let '(rc, attr) := p in
  if negb (rc =? 0) then ret (rc, None)
  else alloc_and_get alloc orig_next attr (word0 attr).

Definition serialargs_remaining_bytes : M serialargs bool :=
  let! args := get in
  ret (next args <? start args + size args).

(** ** Building a block *)

(** [TEE_Realloc()]: the bytes up to the smaller of the two sizes are kept; those beyond have no
    defined value, and the callers write them. *)
Definition realloc (b : list Z) (n : Z) : list Z :=
  take (Z.to_nat n) (b ++ replicate (Z.to_nat n) 0).

(** [serialize(&buf, &blen, data, len)] on the block in the state; the result is the return code
    and [blen]. *)
Definition serialize (alloc : Z -> bool) (blen : Z) (data : list Z) : M (list Z) (Z * Z) :=
  let '(ovf, nlen) := add_overflow 64 blen (lenZ data) in
  if ovf then ret (PKCS11_CKR_ARGUMENTS_BAD, blen)
  else if negb (alloc nlen) then ret (PKCS11_CKR_DEVICE_MEMORY, blen)
  else
    let! b := get in
    let! b' := of_opt OutOfBounds (wr (realloc b nlen) blen data) in
    do! put b' in
    ret (PKCS11_CKR_OK, nlen).

(** ** The attribute list (attributes.c) *)

(** A 32-bit field of the block. *)
Definition field (off : Z) : M (list Z) Z :=
  let! b := get in
  let! d := of_opt OutOfBounds (rd b off 4) in
  ret (le_val d).

Definition set_field (off v : Z) : M (list Z) unit :=
  let! b := get in
  let! b' := of_opt OutOfBounds (wr b off (le_bytes 4 v)) in
  put b'.

Definition attrs_size : M (list Z) Z := field 0.
Definition attrs_count : M (list Z) Z := field 4.

(** The header of the attribute at offset [cur]: [(id, size)]. *)
Definition attr_head (b : list Z) (cur : Z) : option (Z * Z) :=
  d ← rd b cur 8; Some (word0 d, word1 d).

Definition init_attributes_head (alloc : Z -> bool) : Z * option (list Z) :=
  if alloc 8 then (PKCS11_CKR_OK, Some (replicate 8 0)) else (PKCS11_CKR_DEVICE_MEMORY, None).

Definition add_attribute (alloc : Z -> bool) (attribute : Z) (data : list Z) : M (list Z) Z :=
  let! asz := attrs_size in
  let! p := serialize alloc (8 + asz) (le_bytes 4 attribute) in
  let '(rc, buf_len) := p in
  if negb (rc =? 0) then ret rc else
  let! p := serialize alloc buf_len (le_bytes 4 (lenZ data)) in
  let '(rc, buf_len) := p in
  if negb (rc =? 0) then ret rc else
  let! p := serialize alloc buf_len data in
  let '(rc, buf_len) := p in
  if negb (rc =? 0) then ret rc else
  let! asz := attrs_size in
  do! set_field 0 (u32 (asz + (8 + lenZ data))) in
  let! cnt := attrs_count in
  do! set_field 4 (u32 (cnt + 1)) in
  ret rc.

(** The loop of [_remove_attribute()]. A turn that goes on moves [cur] by 8 bytes at least, so the
    size of the block is enough fuel. *)
Fixpoint remove_loop (fuel : nat) (attribute : Z) (empty : bool) (cur end_ : Z) : M (list Z) Z :=
  match fuel with
  | O => panic
  | S f =>
      if negb (cur <? end_) then ret PKCS11_RV_NOT_FOUND else
      let! b := get in
      let! ref := of_opt OutOfBounds (attr_head b cur) in
      let '(id, sz) := ref in
      let next_off := 8 + sz in
      if negb (id =? attribute) then remove_loop f attribute empty (cur + next_off) end_
      else if empty && negb (sz =? 0) then ret PKCS11_CKR_FUNCTION_FAILED
      else
        let! d := of_opt OutOfBounds (rd b (cur + next_off) (end_ - (cur + next_off))) in
        let! b' := of_opt OutOfBounds (wr b cur d) in
        do! put b' in
        let! cnt := attrs_count in
        do! set_field 4 (u32 (cnt - 1)) in
        let! asz := attrs_size in
        do! set_field 0 (u32 (asz - next_off)) in
        ret PKCS11_CKR_OK
  end.

Definition remove_attribute (attribute : Z) (empty : bool) : M (list Z) Z :=
  let! asz := attrs_size in
  remove_loop (S (Z.to_nat asz)) attribute empty 8 (8 + asz).

Definition remove_empty_attribute (attribute : Z) : M (list Z) Z := remove_attribute attribute true.

(** The loop of [get_attribute_ptrs()]: the final [cur], [found], and the entries stored in [attr]
    (offsets in the block, [None] for a null pointer) and [attr_size]. *)
Fixpoint ptrs_loop (fuel : nat) (b : list Z) (attribute max_found cur end_ found : Z) :
    M (list Z) (Z * Z * list (option Z * Z)) :=
  match fuel with
  | O => panic
  | S f =>
      if negb (cur <? end_) then ret (cur, found, []) else
      let! ref := of_opt OutOfBounds (attr_head b cur) in
      let '(id, sz) := ref in
      let next_off := 8 + sz in
      if negb (id =? attribute) then ptrs_loop f b attribute max_found (cur + next_off) end_ found
      else
        let found := found + 1 in
        if max_found =? 0 then ptrs_loop f b attribute max_found (cur + next_off) end_ found
        else
          let entry := (if sz =? 0 then None else Some (cur + 8), sz) in
          if found =? max_found then ret (cur, found, [entry])
          else
            let! r := ptrs_loop f b attribute max_found (cur + next_off) end_ found in
            let '(cur', found', l) := r in
            ret (cur', found', entry :: l)
  end.

(** The result is [*count] and the entries. *)
Definition get_attribute_ptrs (attribute count : Z) : M (list Z) (Z * list (option Z * Z)) :=
  let! b := get in
  let! asz := attrs_size in
  let! r := ptrs_loop (S (Z.to_nat asz)) b attribute count 8 (8 + asz) 0 in
  let '(cur, found, l) := r in
  do! (if 8 + asz <? cur then panic else ret tt) in
  ret (found, l).

(** The result is the return code, [*attr_ptr] and [*attr_size] (null and 0, as the callers
    initialise them, when nothing is found). *)
Definition get_attribute_ptr (attribute : Z) : M (list Z) (Z * option Z * Z) :=
  let! r := get_attribute_ptrs attribute 1 in
  let '(count, l) := r in
  let '(p, sz) := default (None, 0) (head l) in
  ret (if count =? 0 then PKCS11_RV_NOT_FOUND
       else if negb (count =? 1) then PKCS11_CKR_GENERAL_ERROR
       else PKCS11_CKR_OK, p, sz).

(** [sz] bytes of the block at a pointer [get_attribute_ptr()] returned. *)
Definition deref (p : option Z) (sz : Z) : M (list Z) (list Z) :=
  let! b := get in
  match p with
  | Some a => of_opt OutOfBounds (rd b a sz)
  | None => if sz =? 0 then ret [] else undef OutOfBounds
  end.

(** [attr_size] is [*attr_size] on entry, [None] when the pointer is null. The result is the return
    code, the bytes copied to [attr] and [*attr_size]. *)
Definition get_attribute (attribute : Z) (attr_size : option Z) :
    M (list Z) (Z * list Z * option Z) :=
  let! r := get_attribute_ptr attribute in
  let '(rc, p, sz) := r in
  if negb (rc =? 0) then ret (rc, [], attr_size)
  else if match attr_size with Some n => n <? sz | None => false end
  then ret (PKCS11_CKR_BUFFER_TOO_SMALL, [], Some sz)
  else
    let! d := deref p sz in
    ret (PKCS11_CKR_OK, d, (fun _ => sz) <$> attr_size).

Definition set_attribute (alloc : Z -> bool) (attribute : Z) (data : list Z) : M (list Z) Z :=
  let! rc := remove_attribute attribute false in
  if negb (rc =? PKCS11_CKR_OK) && negb (rc =? PKCS11_RV_NOT_FOUND) then ret rc
  else add_attribute alloc attribute data.

(** The loop of [modify_attributes_list()] over the block [head]; the state is [*dst]. *)
Fixpoint modify_loop (fuel : nat) (alloc : Z -> bool) (head : list Z) (cur end_ : Z) : M (list Z) Z :=
  match fuel with
  | O => panic
  | S f =>
      if negb (cur <? end_) then ret PKCS11_CKR_OK else
      let! ref := of_opt OutOfBounds (attr_head head cur) in
      let '(id, sz) := ref in
      let! d := of_opt OutOfBounds (rd head (cur + 8) sz) in
      let! rc := set_attribute alloc id d in
      if negb (rc =? 0) then ret rc
      else modify_loop f alloc head (cur + (8 + sz)) end_
  end.

Definition modify_attributes_list (alloc : Z -> bool) (head : list Z) : M (list Z) Z :=
  let! d := of_opt OutOfBounds (rd head 0 4) in
  let asz := le_val d in
  modify_loop (S (Z.to_nat asz)) alloc head 8 (8 + asz).

Definition get_bool (attribute : Z) : M (list Z) bool :=
  let! r := get_attribute attribute (Some 1) in
  let '(rc, d, _) := r in
  if rc =? PKCS11_RV_NOT_FOUND then ret false
  else
    do! assert_ (rc =? PKCS11_CKR_OK) in
    ret (negb (default 0 (head d) =? 0)).

Definition attribute_is_hidden (id : Z) : bool :=
  Z.land id PKCS11_CKA_OPTEE_FLAGS_HIDDEN =? PKCS11_CKA_OPTEE_FLAGS_HIDDEN.

(** The test both matching functions make on the result of [get_attribute_ptr()]: [true] when the
    attribute at [ref_attr] of the block [ref] differs from the one found. *)
Definition mismatch (ref : list Z) (ref_attr rsz rc : Z) (value : option Z) (sz : Z) : M (list Z) bool :=
  match value with
  | None => ret true
  | Some _ =>
      if negb (rc =? 0) || negb (sz =? rsz) then ret true
      else
        let! x := of_opt OutOfBounds (rd ref (ref_attr + 8) sz) in
        let! y := deref value sz in
        ret (negb (bool_decide (x = y)))
  end.

(** The loop of [attributes_match_reference()], [k] turns to go; the state is the candidate. *)
Fixpoint match_loop (k : nat) (ref : list Z) (ref_attr : Z) : M (list Z) bool :=
  match k with
  | O => ret true
  | S k' =>
      let! h := of_opt OutOfBounds (attr_head ref ref_attr) in
      let '(id, rsz) := h in
      if attribute_is_hidden id then ret false else
      let! r := get_attribute_ptr id in
      let '(rc, value, sz) := r in
      let! bad := mismatch ref ref_attr rsz rc value sz in
      if bad : bool then ret false
      else match_loop k' ref (ref_attr + (8 + rsz))
  end.

Definition attributes_match_reference (ref : list Z) : M (list Z) bool :=
  let! d := of_opt OutOfBounds (rd ref 4 4) in
  match_loop (Z.to_nat (le_val d)) ref 8.

(** The loop of [attributes_match_add_reference()]; the state is [*head]. *)
Fixpoint match_add_loop (k : nat) (alloc : Z -> bool) (ref : list Z) (ref_attr : Z) : M (list Z) Z :=
  match k with
  | O => ret PKCS11_CKR_OK
  | S k' =>
      let! h := of_opt OutOfBounds (attr_head ref ref_attr) in
      let '(id, rsz) := h in
      let! r := get_attribute_ptr id in
      let '(rc, value, sz) := r in
      if rc =? PKCS11_RV_NOT_FOUND then
        let! d := of_opt OutOfBounds (rd ref (ref_attr + 8) rsz) in
        let! rc := add_attribute alloc id d in
        if negb (rc =? 0) then ret rc
        else match_add_loop k' alloc ref (ref_attr + (8 + rsz))
      else
        let! bad := mismatch ref ref_attr rsz rc value sz in
        if bad : bool then ret PKCS11_CKR_TEMPLATE_INCONSISTENT
        else match_add_loop k' alloc ref (ref_attr + (8 + rsz))
  end.

Definition attributes_match_add_reference (alloc : Z -> bool) (ref : list Z) : M (list Z) Z :=
  let! d := of_opt OutOfBounds (rd ref 4 4) in
  match_add_loop (Z.to_nat (le_val d)) alloc ref 8.

(** ** What a block stands for *)

Abbreviation attr := (Z * list Z)%type.

(** The serialized form of one attribute and of a list of them. *)
Definition enc1 (a : attr) : list Z := le_bytes 4 a.1 ++ le_bytes 4 (lenZ a.2) ++ a.2.
Definition enc (l : list attr) : list Z := l ≫= enc1.

(** [rep b l]: the block [b] holds the attributes [l]; after a removal it may be longer than it
    says. The whole fits the 32-bit size fields. *)
Definition rep (b : list Z) (l : list attr) : Prop :=
  Forall (fun a => is_u 32 a.1) l /\ lenZ (enc l) < 2 ^ 32 /\
  exists slack, b = le_bytes 4 (lenZ (enc l)) ++ le_bytes 4 (lenZ l) ++ enc l ++ slack.

(** The operations on the list. *)
Fixpoint find_attr (id : Z) (l : list attr) : option (list Z) :=
  match l with
  | [] => None
  | (i, d) :: r => if i =? id then Some d else find_attr id r
  end.

Fixpoint del_attr (id : Z) (l : list attr) : list attr :=
  match l with
  | [] => []
  | (i, d) :: r => if i =? id then r else (i, d) :: del_attr id r
  end.

Definition upd_attr (l : list attr) (a : attr) : list attr := del_attr a.1 l ++ [a].

Lemma enc_app l k : enc (l ++ k) = enc l ++ enc k.
Proof. unfold enc. by rewrite bind_app. Qed.

Lemma enc_cons a l : enc (a :: l) = enc1 a ++ enc l.
Proof. done. Qed.

Lemma lenZ_enc1 a : lenZ (enc1 a) = 8 + lenZ a.2.
Proof. unfold enc1. rewrite !lenZ_app. unfold lenZ. rewrite !length_le_bytes. lia. Qed.

Lemma lenZ_enc_cons a l : lenZ (enc (a :: l)) = 8 + lenZ a.2 + lenZ (enc l).
Proof. rewrite enc_cons, lenZ_app, lenZ_enc1. lia. Qed.

Lemma lenZ_enc_app l k : lenZ (enc (l ++ k)) = lenZ (enc l) + lenZ (enc k).
Proof. by rewrite enc_app, lenZ_app. Qed.

Lemma length_enc_le l : 8 * lenZ l <= lenZ (enc l).
Proof.
  induction l as [|a l IH]; [done|]. rewrite lenZ_enc_cons.
  change (lenZ (a :: l)) with (Z.of_nat (S (length l))). unfold lenZ in *. lia.
Qed.

Lemma lenZ_le4 z : lenZ (le_bytes 4 z) = 4.
Proof. unfold lenZ. by rewrite length_le_bytes. Qed.

Lemma word_head a b : is_u 32 a -> is_u 32 b ->
  word0 (le_bytes 4 a ++ le_bytes 4 b) = a /\ word1 (le_bytes 4 a ++ le_bytes 4 b) = b.
Proof.
  intros Ha Hb. unfold word0, word1.
  rewrite take_app_length', drop_app_length' by (by rewrite length_le_bytes).
  rewrite take_ge by (by rewrite length_le_bytes).
  rewrite !le_val_le_bytes. split; by apply uwrap_small.
Qed.

Lemma le_val_word a : is_u 32 a -> le_val (le_bytes 4 a) = a.
Proof. intros. rewrite le_val_le_bytes. by apply uwrap_small. Qed.

(** The header of an attribute found at offset [lenZ p]. *)
Lemma attr_head_at p a s off :
  off = lenZ p -> is_u 32 a.1 -> lenZ a.2 < 2 ^ 32 ->
  attr_head (p ++ enc1 a ++ s) off = Some (a.1, lenZ a.2).
Proof.
  intros -> H1 H2. unfold attr_head, enc1.
  rewrite <- !app_assoc, (app_assoc (le_bytes 4 a.1)).
  rewrite rd_at; [|done|by rewrite lenZ_app, !lenZ_le4]. cbn [mbind option_bind].
  destruct (word_head a.1 (lenZ a.2)) as [-> ->]; [done | split; [apply lenZ_nonneg | done] | done].
Qed.

Lemma attr_data_at p a s off n :
  off = lenZ p + 8 -> n = lenZ a.2 -> rd (p ++ enc1 a ++ s) off n = Some a.2.
Proof.
  intros -> ->. unfold enc1. rewrite <- !app_assoc, (app_assoc (le_bytes 4 a.1)), (app_assoc p).
  apply rd_at; [|done]. rewrite !lenZ_app, !lenZ_le4. lia.
Qed.

(** The two header fields of a block. *)
Lemma rep_rd_size b l : rep b l -> rd b 0 4 = Some (le_bytes 4 (lenZ (enc l))).
Proof. intros (_ & Hl & slack & ->). apply (rd_at []); by rewrite ?lenZ_le4. Qed.

Lemma rep_rd_count b l : rep b l -> rd b 4 4 = Some (le_bytes 4 (lenZ l)).
Proof. intros (_ & Hl & slack & ->). apply rd_at; by rewrite lenZ_le4. Qed.

Lemma rep_size_range b l : rep b l -> is_u 32 (lenZ (enc l)).
Proof. intros (_ & Hl & _). split; [apply lenZ_nonneg | done]. Qed.

Lemma rep_count_range b l : rep b l -> is_u 32 (lenZ l).
Proof.
  intros (_ & Hl & _). pose proof (length_enc_le l). pose proof (lenZ_nonneg l). split; [done | lia].
Qed.

Lemma rep_size b l : rep b l -> attrs_size b = (Ret (lenZ (enc l)), b).
Proof.
  intros H. unfold attrs_size, field, bind, get. rewrite (rep_rd_size _ _ H). unfold of_opt, ret.
  by rewrite (le_val_word _ (rep_size_range _ _ H)).
Qed.

Lemma attr_len b l a : rep b l -> a ∈ l -> is_u 32 a.1 /\ lenZ a.2 < 2 ^ 32.
Proof.
  intros (Hf & Hl & _) Ha. rewrite Forall_forall in Hf. split; [by apply Hf|].
  apply list_elem_of_split in Ha as (l1 & l2 & ->). rewrite lenZ_enc_app, lenZ_enc_cons in Hl.
  pose proof (lenZ_nonneg (enc l1)). pose proof (lenZ_nonneg (enc l2)). lia.
Qed.

(** ** The loops skip the attributes they do not look for *)

Definition attr_ok (a : attr) : Prop := is_u 32 a.1 /\ lenZ a.2 < 2 ^ 32.

Lemma remove_loop_skip l1 fuel id e p r end_ :
  Forall attr_ok l1 -> Forall (fun a => a.1 <> id) l1 ->
  lenZ p + lenZ (enc l1) <= end_ ->
  remove_loop (length l1 + fuel) id e (lenZ p) end_ (p ++ enc l1 ++ r) =
  remove_loop fuel id e (lenZ p + lenZ (enc l1)) end_ (p ++ enc l1 ++ r).
Proof.
  intros Hok Hid. revert p. induction l1 as [|a l1 IH]; intros p He.
  { by rewrite Z.add_0_r. }
  inversion_clear Hok as [|? ? [Ha1 Ha2] Hok']. inversion_clear Hid as [|? ? Hne Hid'].
  rewrite lenZ_enc_cons in *. pose proof (lenZ_nonneg a.2). pose proof (lenZ_nonneg (enc l1)).
  rewrite enc_cons, <- app_assoc. cbn [length Nat.add remove_loop].
  rewrite (proj2 (Z.ltb_lt _ _)) by lia. cbn [negb]. unfold bind at 1, get. unfold bind at 1.
  rewrite attr_head_at by done. cbn [of_opt ret].
  unfold ret at 1. rewrite (proj2 (Z.eqb_neq _ _)) by done. cbn [negb].
  rewrite (app_assoc p). rewrite <- lenZ_enc1, <- lenZ_app.
  rewrite IH by (done || rewrite lenZ_app, lenZ_enc1; lia).
  f_equal. rewrite lenZ_app. lia.
Qed.

(** A block by its fields and its body. *)
Definition blk (x y : Z) (r : list Z) : list Z := le_bytes 4 x ++ le_bytes 4 y ++ r.

Lemma blk_size x y r : is_u 32 x -> attrs_size (blk x y r) = (Ret x, blk x y r).
Proof.
  intros H. unfold attrs_size, field, bind, get, blk.
  rewrite (rd_at [] (le_bytes 4 x) _ 0 4 eq_refl (eq_sym (lenZ_le4 x)) : rd (le_bytes 4 x ++ _) 0 4 = _).
  unfold of_opt, ret. by rewrite le_val_word.
Qed.

Lemma blk_count x y r : is_u 32 y -> attrs_count (blk x y r) = (Ret y, blk x y r).
Proof.
  intros H. unfold attrs_count, field, bind, get, blk. rewrite rd_at by (by rewrite lenZ_le4).
  unfold of_opt, ret. by rewrite le_val_word.
Qed.

Lemma blk_set_size x y r v : set_field 0 v (blk x y r) = (Ret tt, blk v y r).
Proof.
  unfold set_field, bind, get, blk.
  rewrite (wr_at [] (le_bytes 4 x) _ (le_bytes 4 v) 0 eq_refl ltac:(by rewrite !lenZ_le4) :
            wr (le_bytes 4 x ++ _) 0 _ = _).
  done.
Qed.

Lemma blk_set_count x y r v : set_field 4 v (blk x y r) = (Ret tt, blk x v r).
Proof. unfold set_field, bind, get, blk. by rewrite wr_at by (by rewrite ?lenZ_le4). Qed.

Lemma lenZ_blk x y r : lenZ (blk x y r) = 8 + lenZ r.
Proof. unfold blk. rewrite !lenZ_app, !lenZ_le4. lia. Qed.

Lemma blk_app x y r s : blk x y r ++ s = blk x y (r ++ s).
Proof. unfold blk. by rewrite <- !app_assoc. Qed.

(** [TEE_MemMove()] to a place from which there is room. *)
Lemma wr_short (p x s d : list Z) off :
  off = lenZ p -> lenZ d <= lenZ x -> wr (p ++ x ++ s) off d = Some (p ++ d ++ drop (length d) x ++ s).
Proof.
  intros -> Hd. rewrite <- (take_drop (length d) x) at 1. rewrite <- app_assoc.
  apply wr_at; [done|]. unfold lenZ in *. rewrite length_take. lia.
Qed.

Lemma find_attr_Some id l d :
  find_attr id l = Some d ->
  exists l1 l2, l = l1 ++ (id, d) :: l2 /\ Forall (fun a => a.1 <> id) l1 /\ del_attr id l = l1 ++ l2.
Proof.
  induction l as [|[i x] l IH]; simpl; [done|]. destruct (i =? id) eqn:E; bool_hyps.
  - intros [= ->]. subst i. by exists [], l.
  - intros H. destruct (IH H) as (l1 & l2 & -> & H1 & ->). exists ((i, x) :: l1), l2.
    split; [done|]. split; [by constructor | done].
Qed.

Lemma find_attr_None id l :
  find_attr id l = None -> Forall (fun a => a.1 <> id) l /\ del_attr id l = l.
Proof.
  induction l as [|[i x] l IH]; simpl; [done|]. destruct (i =? id) eqn:E; bool_hyps; [done|].
  intros H. destruct (IH H) as [H1 ->]. split; [by constructor | done].
Qed.

Lemma rep_blk b l : rep b l <->
  Forall (fun a => is_u 32 a.1) l /\ lenZ (enc l) < 2 ^ 32 /\
  exists slack, b = blk (lenZ (enc l)) (lenZ l) (enc l ++ slack).
Proof. done. Qed.

Lemma rep_ok b l : rep b l -> Forall attr_ok l.
Proof. intros H. apply Forall_forall. intros a Ha. by eapply attr_len. Qed.

(** The fuel of the loops, as what the skipped attributes use and the rest. *)
Lemma loop_fuel l1 l2 : exists f, S (Z.to_nat (lenZ (enc (l1 ++ l2)))) = (length l1 + S f)%nat.
Proof.
  exists (Z.to_nat (lenZ (enc (l1 ++ l2))) - length l1)%nat. rewrite lenZ_enc_app.
  pose proof (length_enc_le l1). pose proof (lenZ_nonneg (enc l2)). unfold lenZ in *. lia.
Qed.

Definition remove_spec (id : Z) (e : bool) (b : list Z) (l : list attr) : Prop :=
  match find_attr id l with
  | None => remove_attribute id e b = (Ret PKCS11_RV_NOT_FOUND, b)
  | Some d =>
      if e && negb (lenZ d =? 0) then remove_attribute id e b = (Ret PKCS11_CKR_FUNCTION_FAILED, b)
      else exists b', remove_attribute id e b = (Ret PKCS11_CKR_OK, b') /\ rep b' (del_attr id l)
  end.

(** The turn that finds the attribute. *)
Lemma remove_found x y l1 d l2 slack id e f :
  is_u 32 x -> is_u 32 y -> attr_ok (id, d) ->
  x = lenZ (enc (l1 ++ (id, d) :: l2)) ->
  let r := enc l1 ++ enc1 (id, d) ++ enc l2 ++ slack in
  remove_loop (S f) id e (8 + lenZ (enc l1)) (8 + x) (blk x y r) =
  if e && negb (lenZ d =? 0) then (Ret PKCS11_CKR_FUNCTION_FAILED, blk x y r)
  else (Ret PKCS11_CKR_OK,
        blk (u32 (x - (8 + lenZ d))) (u32 (y - 1))
          (enc l1 ++ enc l2 ++ drop (length (enc l2)) (enc1 (id, d) ++ enc l2) ++ slack)).
Proof.
  intros Hx Hy [Hi Hd] Ex r. rewrite lenZ_enc_app, lenZ_enc_cons in Ex. simpl in Hi, Hd, Ex.
  pose proof (lenZ_nonneg (enc l1)). pose proof (lenZ_nonneg (enc l2)). pose proof (lenZ_nonneg d).
  assert (8 + lenZ (enc l1) = lenZ (blk x y (enc l1))) as Ep by (by rewrite lenZ_blk).
  assert (blk x y r = blk x y (enc l1) ++ enc1 (id, d) ++ enc l2 ++ slack) as Er by (by rewrite blk_app).
  cbn [remove_loop]. rewrite (proj2 (Z.ltb_lt _ _)) by lia. cbn [negb]. unfold bind at 1, get at 1.
  unfold bind at 1. rewrite Er at 1. rewrite attr_head_at by done. cbn [of_opt ret].
  unfold ret at 1. rewrite Z.eqb_refl. cbn [negb fst snd].
  destruct (e && _); [done|].
  unfold bind at 1. rewrite Er at 1.
  rewrite (app_assoc (blk x y (enc l1))), rd_at;
    [|rewrite lenZ_app, lenZ_enc1, <- Ep; simpl; lia | simpl; lia].
  unfold of_opt at 1, ret at 1. unfold bind at 1. rewrite Er at 1.
  rewrite (app_assoc (enc1 _)), wr_short;
    [|done | rewrite lenZ_app; pose proof (lenZ_nonneg (enc1 (id, d))); lia].
  unfold of_opt at 1, ret at 1. unfold bind at 1, put at 1. rewrite blk_app.
  rewrite (bind_run _ _ _ _ _ (blk_count _ _ _ Hy)).
  rewrite (bind_run _ _ _ _ _ (blk_set_count _ _ _ _)).
  rewrite (bind_run _ _ _ _ _ (blk_size _ _ _ Hx)).
  rewrite (bind_run _ _ _ _ _ (blk_set_size _ _ _ _)). done.
Qed.

Lemma blk_nil_app x y r : blk x y [] ++ r = blk x y r.
Proof. by rewrite blk_app. Qed.

Lemma remove_skip_blk l1 fuel id e x y r end_ :
  Forall attr_ok l1 -> Forall (fun a => a.1 <> id) l1 -> 8 + lenZ (enc l1) <= end_ ->
  remove_loop (length l1 + fuel) id e 8 end_ (blk x y (enc l1 ++ r)) =
  remove_loop fuel id e (8 + lenZ (enc l1)) end_ (blk x y (enc l1 ++ r)).
Proof.
  intros Hok Hne He. rewrite <- blk_nil_app.
  assert (lenZ (blk x y []) = 8) as E by (by rewrite lenZ_blk).
  rewrite <- E at 1 2. rewrite remove_loop_skip by (done || lia). by rewrite E.
Qed.

(** [_remove_attribute()] on the loop it is. *)
Lemma remove_attribute_run id e b l : rep b l ->
  remove_attribute id e b = remove_loop (S (Z.to_nat (lenZ (enc l)))) id e 8 (8 + lenZ (enc l)) b.
Proof. intros H. exact (bind_run _ _ _ _ _ (rep_size _ _ H)). Qed.

Lemma remove_absent id e b l : rep b l -> find_attr id l = None ->
  remove_attribute id e b = (Ret PKCS11_RV_NOT_FOUND, b).
Proof.
  intros H Hf. destruct (find_attr_None _ _ Hf) as [Hne _]. rewrite (remove_attribute_run _ _ _ _ H).
  pose proof (rep_ok _ _ H) as Hok. destruct H as (_ & _ & slack & ->).
  fold (blk (lenZ (enc l)) (lenZ l) (enc l ++ slack)).
  destruct (loop_fuel l []) as [f Ef]. rewrite app_nil_r in Ef. rewrite Ef.
  rewrite remove_skip_blk by (done || lia). cbn [remove_loop].
  by rewrite (proj2 (Z.ltb_ge _ _)) by lia.
Qed.

Lemma del_sizes l1 d l2 (id : Z) :
  lenZ (enc (l1 ++ (id, d) :: l2)) - (8 + lenZ d) = lenZ (enc (l1 ++ l2)) /\
  lenZ (l1 ++ (id, d) :: l2) - 1 = lenZ (l1 ++ l2).
Proof.
  rewrite !lenZ_enc_app, lenZ_enc_cons, !lenZ_app. simpl.
  change (lenZ ((id, d) :: l2)) with (Z.of_nat (S (length l2))). unfold lenZ. lia.
Qed.

Lemma remove_present id e b l d : rep b l -> find_attr id l = Some d ->
  if e && negb (lenZ d =? 0) then remove_attribute id e b = (Ret PKCS11_CKR_FUNCTION_FAILED, b)
  else exists b', remove_attribute id e b = (Ret PKCS11_CKR_OK, b') /\ rep b' (del_attr id l).
Proof.
  intros H Hf. destruct (find_attr_Some _ _ _ Hf) as (l1 & l2 & El & Hne & Ed).
  rewrite (remove_attribute_run _ _ _ _ H), Ed.
  pose proof (rep_ok _ _ H) as Hok. pose proof (rep_size_range _ _ H) as Hx.
  pose proof (rep_count_range _ _ H) as Hy. destruct H as (Hu & Hl & slack & ->).
  fold (blk (lenZ (enc l)) (lenZ l) (enc l ++ slack)). rewrite El in Hok, Hu.
  apply Forall_app in Hok as [Hok1 [Hok2 _]%Forall_cons].
  apply Forall_app in Hu as [Hu1 [_ Hu2]%Forall_cons].
  assert (enc l ++ slack = enc l1 ++ enc1 (id, d) ++ enc l2 ++ slack) as Ee
    by (by rewrite El, enc_app, enc_cons, <- !app_assoc).
  destruct (loop_fuel l1 ((id, d) :: l2)) as [f Ef]. rewrite <- El in Ef.
  destruct (del_sizes l1 d l2 id) as [E1 E2]. rewrite <- El in E1, E2.
  rewrite Ee, Ef, remove_skip_blk; [|done | done | ].
  2: { pose proof (lenZ_nonneg (enc l2)). pose proof (lenZ_nonneg d). rewrite El, lenZ_enc_app, lenZ_enc_cons.
       simpl. lia. }
  rewrite remove_found by (done || by rewrite <- El).
  destruct (e && _); [done|]. eexists. split; [done|]. rewrite E1, E2.
  pose proof (lenZ_nonneg (enc (l1 ++ l2))). pose proof (lenZ_nonneg (l1 ++ l2)).
  pose proof (lenZ_nonneg d). destruct Hx, Hy.
  rewrite !uwrap_small by (unfold is_u; lia). split; [by apply Forall_app|].
  split; [lia|]. eexists. unfold blk. by rewrite enc_app, <- !app_assoc.
Qed.

Lemma remove_attribute_spec id e b l : rep b l -> remove_spec id e b l.
Proof.
  intros H. unfold remove_spec. destruct (find_attr id l) as [d|] eqn:E;
    [by apply remove_present | by apply (remove_absent _ _ _ l)].
Qed.

(** ** Adding *)

Lemma serialize_at alloc p r data n :
  n = lenZ p -> lenZ p + lenZ data < 2 ^ 64 ->
  serialize alloc n data (p ++ r) =
  if alloc (lenZ p + lenZ data) then (Ret (PKCS11_CKR_OK, lenZ p + lenZ data), p ++ data)
  else (Ret (PKCS11_CKR_DEVICE_MEMORY, lenZ p), p ++ r).
Proof.
  intros -> H. pose proof (lenZ_nonneg p). pose proof (lenZ_nonneg data). unfold serialize, add_overflow.
  rewrite (proj2 (Z.leb_gt _ _)) by done. rewrite uwrap_small by (unfold is_u; lia).
  destruct (alloc _); [|done]. cbn [negb]. unfold bind at 1, get.
  assert (exists x, realloc (p ++ r) (lenZ p + lenZ data) = p ++ x ++ [] /\ lenZ x = lenZ data) as (x & Ex & Hx).
  { exists (take (length data) (r ++ replicate (Z.to_nat (lenZ p + lenZ data)) 0)).
    unfold realloc, lenZ in *. rewrite app_nil_r, <- app_assoc.
    replace (Z.to_nat (Z.of_nat (length p) + Z.of_nat (length data))) with (length p + length data)%nat by lia.
    rewrite take_app_add. split; [done|]. rewrite length_take, length_app, length_replicate. lia. }
  rewrite Ex, wr_at by done. unfold bind, of_opt, ret, put. by rewrite app_nil_r.
Qed.

(** Whether the three reallocations of [add_attribute()] succeed. *)
Definition add_allocs (alloc : Z -> bool) (sz n : Z) : bool :=
  alloc (8 + sz + 4) && alloc (8 + sz + 8) && alloc (8 + sz + 8 + n).

Definition add_spec (alloc : Z -> bool) (id : Z) (d b : list Z) (l : list attr) : Prop :=
  exists b', add_attribute alloc id d b =
      (Ret (if add_allocs alloc (lenZ (enc l)) (lenZ d) then PKCS11_CKR_OK else PKCS11_CKR_DEVICE_MEMORY), b') /\
    rep b' (if add_allocs alloc (lenZ (enc l)) (lenZ d) then l ++ [(id, d)] else l).

(** A block is its header and attributes, whatever follows them. *)
Lemma rep_prefix b l : rep b l ->
  let p := blk (lenZ (enc l)) (lenZ l) (enc l) in
  lenZ p = 8 + lenZ (enc l) /\ (exists s, b = p ++ s) /\ forall x, rep (p ++ x) l.
Proof.
  intros (H1 & H2 & s & ->) p. split; [apply lenZ_blk|].
  split; [exists s; unfold p; by rewrite blk_app|].
  intros x. split; [done|]. split; [done|]. exists x. apply blk_app.
Qed.

Lemma rep_add b l id d :
  rep b l -> is_u 32 id -> lenZ (enc l) + (8 + lenZ d) < 2 ^ 32 ->
  rep (blk (u32 (lenZ (enc l) + (8 + lenZ d))) (u32 (lenZ l + 1)) (enc l ++ enc1 (id, d))) (l ++ [(id, d)]).
Proof.
  intros (H1 & H2 & _) Hid Hd. pose proof (lenZ_nonneg d). pose proof (lenZ_nonneg (enc l)).
  pose proof (lenZ_nonneg l). pose proof (length_enc_le l).
  assert (enc (l ++ [(id, d)]) = enc l ++ enc1 (id, d)) as E
    by (rewrite enc_app; unfold enc at 2; simpl; by rewrite app_nil_r).
  rewrite !uwrap_small by (unfold is_u; lia).
  split; [apply Forall_app; split; [done | by apply Forall_singleton]|].
  split; [rewrite E, lenZ_app, lenZ_enc1; simpl; lia|].
  exists []. rewrite E, !lenZ_app, lenZ_enc1, app_nil_r. done.
Qed.

(** An allocation failed: the attributes are as before. *)
Ltac out_of_memory Hk :=
  cbn [andb negb]; rewrite ?app_nil_r, <- ?app_assoc; eexists; split; [reflexivity | apply Hk].

Lemma add_attribute_spec alloc id d b l :
  rep b l -> is_u 32 id -> lenZ (enc l) + (8 + lenZ d) < 2 ^ 32 -> add_spec alloc id d b l.
Proof.
  intros H Hid Hd. pose proof (rep_add _ _ _ _ H Hid Hd) as Hadd.
  destruct (rep_prefix _ _ H) as (EP & [s Hb] & Hk). set (P := blk _ _ (enc l)) in *.
  unfold add_spec, add_allocs. pose proof (lenZ_nonneg d). pose proof (lenZ_nonneg (enc l)).
  unfold add_attribute. rewrite (bind_run _ _ _ _ _ (rep_size _ _ H)). subst b. unfold bind at 1.
  rewrite serialize_at by (rewrite ?lenZ_le4; lia). rewrite lenZ_le4, EP.
  destruct (alloc (8 + lenZ (enc l) + 4)); [|out_of_memory Hk]. cbn [negb Z.eqb PKCS11_CKR_OK].
  unfold bind at 1. rewrite <- (app_nil_r (P ++ _)).
  rewrite serialize_at by (rewrite ?lenZ_app, ?lenZ_le4; lia).
  rewrite lenZ_app, !lenZ_le4, EP. replace (8 + lenZ (enc l) + 4 + 4) with (8 + lenZ (enc l) + 8) by lia.
  destruct (alloc (8 + lenZ (enc l) + 8)); [|out_of_memory Hk]. cbn [negb Z.eqb PKCS11_CKR_OK].
  unfold bind at 1. rewrite <- (app_nil_r ((P ++ _) ++ _)).
  rewrite serialize_at by (rewrite ?lenZ_app, ?lenZ_le4; lia).
  rewrite !lenZ_app, !lenZ_le4, EP. replace (8 + lenZ (enc l) + 4 + 4) with (8 + lenZ (enc l) + 8) by lia.
  destruct (alloc (8 + lenZ (enc l) + 8 + lenZ d)); [|out_of_memory Hk].
  cbn [negb Z.eqb PKCS11_CKR_OK andb]. rewrite <- !app_assoc. fold (enc1 (id, d)). unfold P. rewrite blk_app.
  rewrite (bind_run _ _ _ _ _ (blk_size _ _ _ (rep_size_range _ _ H))).
  rewrite (bind_run _ _ _ _ _ (blk_set_size _ _ _ _)).
  rewrite (bind_run _ _ _ _ _ (blk_count _ _ _ (rep_count_range _ _ H))).
  rewrite (bind_run _ _ _ _ _ (blk_set_count _ _ _ _)).
  eexists. split; [done | exact Hadd].
Qed.

(** ** Looking up *)

(** The values stored under [id], in order. *)
Fixpoint matches (id : Z) (l : list attr) : list (list Z) :=
  match l with
  | [] => []
  | (i, d) :: r => if i =? id then d :: matches id r else matches id r
  end.

(** An entry [get_attribute_ptrs()] stores: where the value is in the block, and its size. *)
Definition denotes (b : list Z) (e : option Z * Z) (d : list Z) : Prop :=
  e.2 = lenZ d /\
  match e.1 with
  | None => d = []
  | Some a => d <> [] /\ rd b a (lenZ d) = Some d
  end.

Lemma matches_find id l : head (matches id l) = find_attr id l.
Proof. induction l as [|[i d] l IH]; simpl; [done|]. by destruct (i =? id). Qed.

(** How many matches a call that asks for [m] reports after [f] earlier ones, and which it stores. *)
Definition reported (m f : Z) (ms : list (list Z)) : Z :=
  if m =? 0 then lenZ ms else Z.min (lenZ ms) (m - f).
Definition stored (m f : Z) (ms : list (list Z)) : list (list Z) :=
  if m =? 0 then [] else take (Z.to_nat (m - f)) ms.

Lemma reported_nil m f : m = 0 \/ f < m -> reported m f [] = 0.
Proof.
  unfold reported. change (lenZ []) with 0. destruct (m =? 0) eqn:E; [done|]. bool_hyps. lia.
Qed.

Lemma reported_cons m f d ms : m = 0 \/ f < m ->
  reported m f (d :: ms) = (if negb (m =? 0) && (f + 1 =? m) then 1 else 1 + reported m (f + 1) ms).
Proof.
  unfold reported. change (lenZ (d :: ms)) with (Z.of_nat (S (length ms))). unfold lenZ.
  destruct (m =? 0) eqn:E, (f + 1 =? m) eqn:E'; bool_hyps; simpl negb; cbn [andb]; lia.
Qed.

Lemma stored_cons m f d ms : 0 < m -> f < m ->
  stored m f (d :: ms) = d :: (if f + 1 =? m then [] else stored m (f + 1) ms).
Proof.
  intros H1 H2. unfold stored. rewrite (proj2 (Z.eqb_neq m 0)) by lia.
  replace (Z.to_nat (m - f)) with (S (Z.to_nat (m - (f + 1)))) by lia. cbn [take]. f_equal.
  destruct (f + 1 =? m) eqn:E; bool_hyps; [|done].
  by replace (Z.to_nat (m - (f + 1))) with 0%nat by lia.
Qed.

Lemma denotes_at p (a : attr) s :
  denotes (p ++ enc1 a ++ s) (if lenZ a.2 =? 0 then None else Some (lenZ p + 8), lenZ a.2) a.2.
Proof.
  split; [done|]. destruct (lenZ a.2 =? 0) eqn:E; bool_hyps; simpl.
  - unfold lenZ in E. destruct a.2; [done | simpl in E; lia].
  - split; [|by apply attr_data_at]. intros Hn. by rewrite Hn in E.
Qed.

Lemma ptrs_loop_spec l fuel b s p r id m end_ f :
  b = p ++ enc l ++ r -> Forall attr_ok l -> end_ = lenZ p + lenZ (enc l) ->
  (length l < fuel)%nat -> 0 <= f -> (m = 0 \/ f < m) ->
  exists cur es, ptrs_loop fuel b id m (lenZ p) end_ f s =
      (Ret (cur, f + reported m f (matches id l), es), s) /\
    cur <= end_ /\ Forall2 (denotes b) es (stored m f (matches id l)).
Proof.
  intros Hb Hok He Hf H0 Hm. revert fuel p f Hb He Hf H0 Hm.
  induction l as [|[i d] l IH]; intros [|fuel] p f Hb He Hf H0 Hm; try (simpl in Hf; lia).
  { cbn [ptrs_loop matches]. change (lenZ (enc [])) with 0 in He. rewrite (proj2 (Z.ltb_ge _ _)) by lia.
    exists (lenZ p), []. rewrite reported_nil, Z.add_0_r by done. split; [done|]. split; [lia|].
    unfold stored. destruct (m =? 0); [constructor|]. by rewrite take_nil. }
  inversion_clear Hok as [|? ? Ha Hok']. pose proof Ha as [Ha1 Ha2]. simpl in Ha1, Ha2.
  rewrite lenZ_enc_cons in He. simpl in He. pose proof (lenZ_nonneg d). pose proof (lenZ_nonneg (enc l)).
  rewrite enc_cons, <- app_assoc in Hb.
  pose proof (attr_head_at p (i, d) (enc l ++ r) _ eq_refl Ha1 Ha2) as Hh. rewrite <- Hb in Hh.
  pose proof (denotes_at p (i, d) (enc l ++ r)) as Hd. rewrite <- Hb in Hd.
  assert (lenZ (p ++ enc1 (i, d)) = lenZ p + (8 + lenZ d)) as Ep by (by rewrite lenZ_app, lenZ_enc1).
  rewrite app_assoc in Hb. specialize (IH Hok' fuel (p ++ enc1 (i, d))). rewrite Ep in IH.
  cbn [ptrs_loop matches length] in *. rewrite (proj2 (Z.ltb_lt _ _)) by lia. cbn [negb].
  cbn [fst snd] in Hh, Hd. unfold bind at 1. rewrite Hh. unfold of_opt, ret at 1.
  destruct (i =? id); cbn [negb]; [|apply IH; try done; lia].
  rewrite reported_cons by done. destruct (m =? 0) eqn:Em; cbn [negb andb].
  { destruct (IH (f + 1)) as (cur & es & E & Hc & Hs); [done | lia | lia | lia | lia |].
    exists cur, es. rewrite E. split; [by rewrite Z.add_assoc|]. split; [done|].
    unfold stored in *. by rewrite Em in *. }
  bool_hyps. rewrite stored_cons by lia. destruct (f + 1 =? m) eqn:Em'.
  { eexists _, _. split; [reflexivity|]. split; [lia|]. by apply Forall2_cons_2. }
  bool_hyps. destruct (IH (f + 1)) as (cur & es & E & Hc & Hs); [done | lia | lia | lia | lia |].
  unfold bind. rewrite E. eexists cur, _. split; [by rewrite Z.add_assoc|]. split; [done|]. by constructor.
Qed.

Lemma get_attribute_ptrs_spec id count b l :
  rep b l -> 0 <= count ->
  exists es, get_attribute_ptrs id count b = (Ret (reported count 0 (matches id l), es), b) /\
    Forall2 (denotes b) es (stored count 0 (matches id l)).
Proof.
  intros H Hc. pose proof (rep_ok _ _ H) as Hok. pose proof (rep_size _ _ H) as Hs.
  destruct H as (_ & _ & slack & Hb). rewrite app_assoc in Hb.
  pose proof (length_enc_le l) as Hle. pose proof (lenZ_nonneg (enc l)).
  destruct (ptrs_loop_spec l (S (Z.to_nat (lenZ (enc l)))) b b _ slack id count
    (8 + lenZ (enc l)) 0 Hb Hok) as (cur & es & E & Hcur & Hes);
    [by rewrite lenZ_app, !lenZ_le4 | unfold lenZ in *; lia | done | lia |].
  exists es. split; [|done]. unfold get_attribute_ptrs. unfold bind at 1, get.
  rewrite (bind_run _ _ _ _ _ Hs). rewrite lenZ_app, !lenZ_le4 in E. change (4 + 4) with 8 in E.
  rewrite (bind_run _ _ _ _ _ E). rewrite (proj2 (Z.ltb_ge _ _)) by lia. done.
Qed.

Lemma get_attribute_ptr_spec id b l : rep b l ->
  match find_attr id l with
  | None => get_attribute_ptr id b = (Ret (PKCS11_RV_NOT_FOUND, None, 0), b)
  | Some d => exists p, get_attribute_ptr id b = (Ret (PKCS11_CKR_OK, p, lenZ d), b) /\ denotes b (p, lenZ d) d
  end.
Proof.
  intros H. destruct (get_attribute_ptrs_spec id 1 b l H) as (es & E & Hes); [lia|].
  unfold get_attribute_ptr. rewrite (bind_run _ _ _ _ _ E), <- matches_find.
  destruct (matches id l) as [|d ms]; simpl.
  - by inversion Hes.
  - rewrite stored_cons in Hes by lia. inversion Hes as [|[p n] ? ? ? [Hn Hp] Hr]; subst.
    inversion Hr; subst. simpl in Hn. subst n. exists p. split; [|done].
    rewrite reported_cons by lia. done.
Qed.

Lemma deref_denotes b p d : denotes b (p, lenZ d) d -> deref p (lenZ d) b = (Ret d, b).
Proof.
  intros [_ H]. unfold deref, bind, get. destruct p as [a|]; simpl in H.
  - destruct H as [_ ->]. done.
  - by subst d.
Qed.

(** [get_attribute()] copies out the first value stored under [id] when it fits the caller's size. *)
Definition get_result (id : Z) (n : option Z) (l : list attr) : Z * list Z * option Z :=
  match find_attr id l with
  | None => (PKCS11_RV_NOT_FOUND, [], n)
  | Some d =>
      if match n with Some n => n <? lenZ d | None => false end
      then (PKCS11_CKR_BUFFER_TOO_SMALL, [], Some (lenZ d))
      else (PKCS11_CKR_OK, d, (fun _ => lenZ d) <$> n)
  end.

Lemma get_attribute_spec id n b l : rep b l -> get_attribute id n b = (Ret (get_result id n l), b).
Proof.
  intros H. pose proof (get_attribute_ptr_spec id b l H) as Hp. unfold get_attribute, get_result.
  destruct (find_attr id l) as [d|].
  - destruct Hp as (p & E & Hd). rewrite (bind_run _ _ _ _ _ E). simpl.
    destruct (match n with Some _ => _ | None => _ end); [done|].
    by rewrite (bind_run _ _ _ _ _ (deref_denotes _ _ _ Hd)).
  - by rewrite (bind_run _ _ _ _ _ Hp).
Qed.

(** [get_bool()]: absent or empty is false; a value of several bytes fails the assertion. *)
Definition bool_result (id : Z) (l : list attr) : outcome bool :=
  match find_attr id l with
  | None => Ret false
  | Some [] => Ret false
  | Some [x] => Ret (negb (x =? 0))
  | Some _ => Panic
  end.

Lemma get_bool_spec id b l : rep b l -> get_bool id b = (bool_result id l, b).
Proof.
  intros H. unfold get_bool. rewrite (bind_run _ _ _ _ _ (get_attribute_spec id (Some 1) b l H)).
  unfold get_result, bool_result. destruct (find_attr id l) as [[|x [|y d]]|]; try done.
  rewrite (proj2 (Z.ltb_lt _ _)); [done|]. unfold lenZ. simpl length. lia.
Qed.

(** ** The operations on a block, as operations on the list *)

Inductive aop :=
| Add (id : Z) (d : list Z)
| SetAttr (id : Z) (d : list Z)
| RemoveEmpty (id : Z)
| Modify (l : list attr).

Definition a_add (alloc : Z -> bool) (a : attr) (l : list attr) : Z * list attr :=
  if add_allocs alloc (lenZ (enc l)) (lenZ a.2) then (PKCS11_CKR_OK, l ++ [a])
  else (PKCS11_CKR_DEVICE_MEMORY, l).

Definition a_set (alloc : Z -> bool) (a : attr) (l : list attr) : Z * list attr :=
  a_add alloc a (del_attr a.1 l).

Fixpoint a_modify (alloc : Z -> bool) (as_ : list attr) (l : list attr) : Z * list attr :=
  match as_ with
  | [] => (PKCS11_CKR_OK, l)
  | a :: r => let '(rc, l') := a_set alloc a l in
              if negb (rc =? 0) then (rc, l') else a_modify alloc r l'
  end.

Definition a_remove_empty (id : Z) (l : list attr) : Z * list attr :=
  match find_attr id l with
  | None => (PKCS11_RV_NOT_FOUND, l)
  | Some [] => (PKCS11_CKR_OK, del_attr id l)
  | Some _ => (PKCS11_CKR_FUNCTION_FAILED, l)
  end.

Definition a_step (alloc : Z -> bool) (o : aop) (l : list attr) : Z * list attr :=
  match o with
  | Add id d => a_add alloc (id, d) l
  | SetAttr id d => a_set alloc (id, d) l
  | RemoveEmpty id => a_remove_empty id l
  | Modify as_ => a_modify alloc as_ l
  end.

(** The block a caller passes for a list of attributes. *)
Definition block_of (l : list attr) : list Z := blk (lenZ (enc l)) (lenZ l) (enc l).

Definition c_step (alloc : Z -> bool) (o : aop) : M (list Z) Z :=
  match o with
  | Add id d => add_attribute alloc id d
  | SetAttr id d => set_attribute alloc id d
  | RemoveEmpty id => remove_empty_attribute id
  | Modify as_ => modify_attributes_list alloc (block_of as_)
  end.

(** What an operation may add to a block. *)
Definition op_attrs (o : aop) : list attr :=
  match o with
  | Add id d | SetAttr id d => [(id, d)]
  | RemoveEmpty _ => []
  | Modify as_ => as_
  end.

Definition refines (m : M (list Z) Z) (f : list attr -> Z * list attr) (b : list Z) (l : list attr) : Prop :=
  exists b', m b = (Ret (f l).1, b') /\ rep b' (f l).2.

Lemma del_attr_le id l : lenZ (enc (del_attr id l)) <= lenZ (enc l).
Proof.
  induction l as [|[i d] l IH]; [simpl; lia|]. cbn [del_attr]. pose proof (lenZ_nonneg d).
  destruct (i =? id); rewrite !lenZ_enc_cons; cbn [snd]; lia.
Qed.

Lemma add_refines alloc a b l :
  rep b l -> is_u 32 a.1 -> lenZ (enc l) + lenZ (enc [a]) < 2 ^ 32 ->
  refines (add_attribute alloc a.1 a.2) (a_add alloc a) b l.
Proof.
  intros H Hi Hd. rewrite lenZ_enc_cons in Hd. change (lenZ (enc [])) with 0 in Hd.
  destruct (add_attribute_spec alloc a.1 a.2 b l H Hi) as (b' & E & Hr); [lia|].
  exists b'. unfold a_add. destruct a as [i d]. simpl in *. by destruct (add_allocs _ _ _).
Qed.

Lemma set_refines alloc a b l :
  rep b l -> is_u 32 a.1 -> lenZ (enc l) + lenZ (enc [a]) < 2 ^ 32 ->
  refines (set_attribute alloc a.1 a.2) (a_set alloc a) b l.
Proof.
  intros H Hi Hd. pose proof (del_attr_le a.1 l). unfold refines, set_attribute, a_set.
  pose proof (remove_attribute_spec a.1 false b l H) as Hs. unfold remove_spec in Hs.
  destruct (find_attr a.1 l) as [d|] eqn:Ef; cbn [andb] in Hs.
  - destruct Hs as (b1 & E1 & H1). rewrite (bind_run _ _ _ _ _ E1). cbn.
    apply add_refines; [done | done | lia].
  - destruct (find_attr_None _ _ Ef) as [_ Ed]. rewrite Ed in *. rewrite (bind_run _ _ _ _ _ Hs).
    apply add_refines; done.
Qed.

Lemma remove_empty_refines id b l : rep b l ->
  refines (remove_empty_attribute id) (a_remove_empty id) b l.
Proof.
  intros H. unfold refines, remove_empty_attribute, a_remove_empty.
  pose proof (remove_attribute_spec id true b l H) as Hs. unfold remove_spec in Hs.
  destruct (find_attr id l) as [[|x d]|]; [done | | by exists b].
  rewrite (proj2 (Z.eqb_neq _ _)) in Hs by (unfold lenZ; simpl length; lia). by exists b.
Qed.

Lemma lenZ_enc_del_add a l : lenZ (enc (del_attr a.1 l ++ [a])) <= lenZ (enc l) + lenZ (enc [a]).
Proof. rewrite lenZ_enc_app. pose proof (del_attr_le a.1 l). lia. Qed.

Lemma modify_loop_refines alloc fuel head p as_ r b l :
  head = p ++ enc as_ ++ r -> Forall attr_ok as_ -> (length as_ < fuel)%nat ->
  rep b l -> lenZ (enc l) + lenZ (enc as_) < 2 ^ 32 ->
  refines (modify_loop fuel alloc head (lenZ p) (lenZ p + lenZ (enc as_))) (a_modify alloc as_) b l.
Proof.
  revert fuel p b l. induction as_ as [|[i d] as_ IH]; intros [|fuel] p b l Hh Hok Hf Hr Hs;
    try (simpl in Hf; lia).
  { exists b. cbn [modify_loop a_modify]. by rewrite Z.add_0_r, Z.ltb_irrefl. }
  inversion_clear Hok as [|? ? [Ha1 Ha2] Hok']. cbn [fst snd] in Ha1, Ha2.
  rewrite lenZ_enc_cons in *. cbn [snd] in *. pose proof (lenZ_nonneg d). pose proof (lenZ_nonneg (enc as_)).
  rewrite enc_cons, <- app_assoc in Hh. pose proof (lenZ_enc1 (i, d)) as E1. cbn [snd] in E1.
  unfold refines. cbn [modify_loop a_modify]. rewrite (proj2 (Z.ltb_lt _ _)) by lia. cbn [negb].
  assert (attr_head head (lenZ p) = Some (i, lenZ d)) as -> by (rewrite Hh; by apply (attr_head_at p (i, d))).
  assert (rd head (lenZ p + 8) (lenZ d) = Some d) as Hd by (rewrite Hh; by apply (attr_data_at p (i, d))).
  unfold bind at 1. unfold of_opt at 1, ret at 1. unfold bind at 1. rewrite Hd. unfold of_opt at 1, ret at 1.
  destruct (set_refines alloc (i, d) b l Hr Ha1) as (b1 & E & Hr1).
  { rewrite lenZ_enc_cons. change (lenZ (enc [])) with 0. cbn [snd]. lia. }
  cbn [fst snd] in E. rewrite (bind_run _ _ _ _ _ E).
  destruct (a_set alloc (i, d) l) as [rc l'] eqn:Ea. cbn [fst snd] in *.
  destruct (negb (rc =? 0)) eqn:Erc; [by exists b1|].
  replace (lenZ p + (8 + lenZ d)) with (lenZ (p ++ enc1 (i, d))) by (rewrite lenZ_app; lia).
  replace (lenZ p + (8 + lenZ d + lenZ (enc as_))) with (lenZ (p ++ enc1 (i, d)) + lenZ (enc as_))
    by (rewrite lenZ_app; lia).
  apply IH; [by rewrite <- app_assoc | done | simpl in Hf; lia | done |].
  pose proof (lenZ_enc_del_add (i, d) l) as Hle. pose proof (del_attr_le i l).
  rewrite lenZ_enc_cons in Hle. change (lenZ (enc [])) with 0 in Hle. cbn [fst snd] in Hle.
  unfold a_set, a_add in Ea. destruct (add_allocs _ _ _); simplify_eq; cbn [fst] in *; lia.
Qed.

Lemma step_refines alloc o b l :
  rep b l -> Forall (fun a => is_u 32 a.1) (op_attrs o) ->
  lenZ (enc l) + lenZ (enc (op_attrs o)) < 2 ^ 32 ->
  refines (c_step alloc o) (a_step alloc o) b l.
Proof.
  intros H Hid Hs. destruct o as [id d|id d|id|as_]; cbn [c_step a_step op_attrs] in *.
  - apply Forall_cons_1 in Hid as [Hid _]. exact (add_refines alloc (id, d) b l H Hid Hs).
  - apply Forall_cons_1 in Hid as [Hid _]. exact (set_refines alloc (id, d) b l H Hid Hs).
  - exact (remove_empty_refines id b l H).
  - assert (rep (block_of as_) as_) as Ha.
    { split; [done|]. split; [pose proof (lenZ_nonneg (enc l)); lia|]. exists [].
      unfold block_of, blk. by rewrite app_nil_r. }
    unfold modify_attributes_list, refines. unfold bind at 1. rewrite (rep_rd_size _ _ Ha).
    unfold of_opt, ret. rewrite (le_val_word _ (rep_size_range _ _ Ha)).
    pose proof (length_enc_le as_). pose proof (lenZ_nonneg as_).
    apply (modify_loop_refines alloc _ (block_of as_) (blk (lenZ (enc as_)) (lenZ as_) []) as_ []);
      [unfold block_of; by rewrite blk_app, app_nil_r | by eapply rep_ok | unfold lenZ in *; lia | done | done].
Qed.

(** A sequence of operations, and the codes they return. *)
Fixpoint c_run (alloc : Z -> bool) (ops : list aop) : M (list Z) (list Z) :=
  match ops with
  | [] => ret []
  | o :: r => let! rc := c_step alloc o in let! rcs := c_run alloc r in ret (rc :: rcs)
  end.

Fixpoint a_run (alloc : Z -> bool) (ops : list aop) (l : list attr) : list Z * list attr :=
  match ops with
  | [] => ([], l)
  | o :: r => let '(rc, l') := a_step alloc o l in
              let '(rcs, l'') := a_run alloc r l' in (rc :: rcs, l'')
  end.

Lemma a_add_le alloc a l : lenZ (enc (a_add alloc a l).2) <= lenZ (enc l) + lenZ (enc [a]).
Proof.
  unfold a_add. pose proof (lenZ_nonneg (enc [a])).
  destruct (add_allocs _ _ _); cbn [snd]; rewrite ?lenZ_enc_app; lia.
Qed.

Lemma a_set_le alloc a l : lenZ (enc (a_set alloc a l).2) <= lenZ (enc l) + lenZ (enc [a]).
Proof. unfold a_set. pose proof (a_add_le alloc a (del_attr a.1 l)). pose proof (del_attr_le a.1 l). lia. Qed.

Lemma a_modify_le alloc as_ l : lenZ (enc (a_modify alloc as_ l).2) <= lenZ (enc l) + lenZ (enc as_).
Proof.
  revert l. induction as_ as [|a as_ IH]; intros l; cbn [a_modify snd];
    [change (lenZ (enc [])) with 0; lia|].
  rewrite lenZ_enc_cons. pose proof (a_set_le alloc a l) as Hs. rewrite lenZ_enc_cons in Hs.
  change (lenZ (enc [])) with 0 in Hs. pose proof (lenZ_nonneg (enc as_)).
  destruct (a_set alloc a l) as [rc l']. cbn [snd] in *. destruct (negb _); cbn [snd]; [lia|].
  specialize (IH l'). lia.
Qed.

Lemma a_step_le alloc o l : lenZ (enc (a_step alloc o l).2) <= lenZ (enc l) + lenZ (enc (op_attrs o)).
Proof.
  destruct o; cbn [a_step op_attrs]; [apply a_add_le | apply a_set_le | | apply a_modify_le].
  unfold a_remove_empty. pose proof (del_attr_le id l).
  destruct (find_attr id l) as [[]|]; cbn [snd]; change (lenZ (enc [])) with 0; lia.
Qed.

Lemma run_refines alloc ops b l :
  rep b l -> Forall (fun a => is_u 32 a.1) (ops ≫= op_attrs) ->
  lenZ (enc l) + lenZ (enc (ops ≫= op_attrs)) < 2 ^ 32 ->
  exists b', c_run alloc ops b = (Ret (a_run alloc ops l).1, b') /\ rep b' (a_run alloc ops l).2.
Proof.
  revert b l. induction ops as [|o ops IH]; intros b l H Hid Hs; [by exists b|].
  rewrite bind_cons in *. apply Forall_app in Hid as [Hid1 Hid2]. rewrite lenZ_enc_app in Hs.
  pose proof (lenZ_nonneg (enc (op_attrs o))). pose proof (lenZ_nonneg (enc (ops ≫= op_attrs))).
  destruct (step_refines alloc o b l H Hid1) as (b1 & E1 & Hb1); [lia|].
  pose proof (a_step_le alloc o l) as Hle. cbn [c_run a_run]. rewrite (bind_run _ _ _ _ _ E1).
  destruct (a_step alloc o l) as [rc l1]. cbn [fst snd] in *.
  destruct (IH b1 l1 Hb1 Hid2) as (b2 & E2 & Hb2); [lia|]. rewrite (bind_run _ _ _ _ _ E2).
  destruct (a_run alloc ops l1) as [rcs l2]. by exists b2.
Qed.

(** C21. The serialized attributes refine the list of (identifier, value) pairs. Starting from the
    block [init_attributes_head()] returns, whatever sequence of [add_attribute()],
    [set_attribute()], [remove_empty_attribute()] and [modify_attributes_list()] is run, with
    whatever allocation failures, every access stays inside the block, each call returns the code
    and has the effect of the list operation ([a_step]: append, replace by appending, delete an
    empty value, replace one after the other), and afterwards [get_attribute()], [get_bool()] and
    [get_attribute_ptrs()] answer from that list: the first value under the identifier, the number
    of values, and pointers to the values. The sizes involved add up to less than 2^32. *)
Theorem pkcs11_attributes_refine (alloc : Z -> bool) (ops : list aop) (b0 : list Z) :
  init_attributes_head alloc = (PKCS11_CKR_OK, Some b0) ->
  Forall (fun a => is_u 32 a.1) (ops ≫= op_attrs) -> lenZ (enc (ops ≫= op_attrs)) < 2 ^ 32 ->
  exists b, c_run alloc ops b0 = (Ret (a_run alloc ops []).1, b) /\
    (forall id n, get_attribute id n b = (Ret (get_result id n (a_run alloc ops []).2), b)) /\
    (forall id, get_bool id b = (bool_result id (a_run alloc ops []).2, b)) /\
    (forall id count, 0 <= count -> exists es,
       get_attribute_ptrs id count b =
         (Ret (reported count 0 (matches id (a_run alloc ops []).2), es), b) /\
       Forall2 (denotes b) es (stored count 0 (matches id (a_run alloc ops []).2))).
Proof.
  intros Hi Hid Hs. assert (rep b0 []) as H0.
  { unfold init_attributes_head in Hi. destruct (alloc 8); simplify_eq.
    split; [done|]. split; [done|]. by exists []. }
  destruct (run_refines alloc ops b0 [] H0 Hid) as (b & E & Hb); [change (lenZ (enc [])) with 0; lia|].
  exists b. split; [done|]. split; [intros; by apply get_attribute_spec|].
  split; [intros; by apply get_bool_spec | intros; by apply get_attribute_ptrs_spec].
Qed.

Lemma pkcs11_attributes_refine_witness :
  exists b, c_run (fun _ => true)
      [Add 3 [65; 66]; Add 1 [1]; SetAttr 3 [67]; Add 16 []; RemoveEmpty 16; Modify [(1, [0]); (17, [9; 9; 9])]]
      (replicate 8 0) = (Ret [0; 0; 0; 0; 0; 0], b) /\
    get_attribute 3 (Some 8) b = (Ret (PKCS11_CKR_OK, [67], Some 1), b) /\ get_bool 1 b = (Ret false, b).
Proof.
  destruct (pkcs11_attributes_refine (fun _ => true)
    [Add 3 [65; 66]; Add 1 [1]; SetAttr 3 [67]; Add 16 []; RemoveEmpty 16; Modify [(1, [0]); (17, [9; 9; 9])]]
    (replicate 8 0)) as (b & E & Hg & Hb & _); [reflexivity | | vm_compute; reflexivity |].
  - repeat (apply Forall_cons_2; [unfold is_u; simpl; lia|]). apply Forall_nil_2.
  - exists b. split; [exact E|]. split; [exact (Hg 3 (Some 8)) | exact (Hb 1)].
Defined.

(** ** Matching *)

(** What the code accepts as the same attribute: an equal, non-empty value. *)
Definition same_value (d x : list Z) : bool := negb (lenZ d =? 0) && bool_decide (d = x).

Definition ref_matches (l : list attr) (a : attr) : bool :=
  negb (attribute_is_hidden a.1) &&
  match find_attr a.1 l with Some d => same_value d a.2 | None => false end.

Fixpoint a_match_add (alloc : Z -> bool) (ref l : list attr) : Z * list attr :=
  match ref with
  | [] => (PKCS11_CKR_OK, l)
  | a :: r =>
      match find_attr a.1 l with
      | None => let '(rc, l') := a_add alloc a l in
                if negb (rc =? 0) then (rc, l') else a_match_add alloc r l'
      | Some d => if same_value d a.2 then a_match_add alloc r l
                  else (PKCS11_CKR_TEMPLATE_INCONSISTENT, l)
      end
  end.

Lemma mismatch_spec b p a s v d :
  denotes b (v, lenZ d) d ->
  mismatch (p ++ enc1 a ++ s) (lenZ p) (lenZ a.2) PKCS11_CKR_OK v (lenZ d) b =
  (Ret (negb (same_value d a.2)), b).
Proof.
  intros H. pose proof (deref_denotes b v d H) as Hd. unfold mismatch, same_value.
  destruct H as [_ H]. destruct v as [o|]; cbn [fst] in H; [|by subst d].
  destruct H as [Hne _]. rewrite (proj2 (Z.eqb_neq (lenZ d) 0)).
  2: { unfold lenZ. destruct d; [done | simpl; lia]. }
  cbn [negb orb andb Z.eqb PKCS11_CKR_OK].
  destruct (lenZ d =? lenZ a.2) eqn:E; cbn [negb]; bool_hyps.
  - unfold bind at 1. rewrite attr_data_at by done. unfold of_opt, ret at 1.
    rewrite (bind_run _ _ _ _ _ Hd). unfold ret. do 3 f_equal. apply bool_decide_ext. naive_solver.
  - rewrite bool_decide_eq_false_2 by congruence. done.
Qed.

Lemma match_loop_spec b l lr p r :
  rep b l -> Forall attr_ok lr ->
  match_loop (length lr) (p ++ enc lr ++ r) (lenZ p) b = (Ret (forallb (ref_matches l) lr), b).
Proof.
  intros H Hok. revert p. induction lr as [|a lr IH]; intros p; [done|].
  inversion_clear Hok as [|? ? [Ha1 Ha2] Hok']. cbn [length match_loop forallb].
  rewrite enc_cons, <- app_assoc. unfold bind at 1. rewrite attr_head_at by done.
  unfold of_opt, ret at 1. unfold ref_matches at 1. destruct (attribute_is_hidden a.1); [done|].
  pose proof (get_attribute_ptr_spec a.1 b l H) as Hp.
  destruct (find_attr a.1 l) as [d|]; cbn [negb andb].
  - destruct Hp as (v & E & Hd). rewrite (bind_run _ _ _ _ _ E).
    rewrite (bind_run _ _ _ _ _ (mismatch_spec _ _ _ _ _ _ Hd)).
    destruct (same_value d a.2); cbn [negb andb]; [|done].
    rewrite app_assoc. rewrite <- lenZ_enc1, <- lenZ_app. by apply IH.
  - rewrite (bind_run _ _ _ _ _ Hp). done.
Qed.

Lemma match_add_loop_spec alloc b l lr p r :
  rep b l -> Forall attr_ok lr -> lenZ (enc l) + lenZ (enc lr) < 2 ^ 32 ->
  refines (match_add_loop (length lr) alloc (p ++ enc lr ++ r) (lenZ p)) (a_match_add alloc lr) b l.
Proof.
  intros H Hok Hs. revert p b l H Hs. induction lr as [|a lr IH]; intros p b l H Hs; [by exists b|].
  inversion_clear Hok as [|? ? [Ha1 Ha2] Hok']. rewrite lenZ_enc_cons in Hs.
  pose proof (lenZ_nonneg a.2). pose proof (lenZ_nonneg (enc lr)).
  unfold refines. cbn [length match_add_loop a_match_add].
  rewrite enc_cons, <- app_assoc. unfold bind at 1. rewrite attr_head_at by done.
  unfold of_opt at 1, ret at 1. pose proof (get_attribute_ptr_spec a.1 b l H) as Hp.
  assert (lenZ p + (8 + lenZ a.2) = lenZ (p ++ enc1 a)) as Ep by (by rewrite lenZ_app, lenZ_enc1).
  destruct (find_attr a.1 l) as [d|].
  - destruct Hp as (v & E & Hd). rewrite (bind_run _ _ _ _ _ E). cbn [Z.eqb PKCS11_CKR_OK PKCS11_RV_NOT_FOUND].
    rewrite (bind_run _ _ _ _ _ (mismatch_spec _ _ _ _ _ _ Hd)).
    destruct (same_value d a.2); cbn [negb]; [|by exists b].
    rewrite app_assoc, Ep. apply IH; [done | done | lia].
  - rewrite (bind_run _ _ _ _ _ Hp). cbn [Z.eqb PKCS11_RV_NOT_FOUND Pos.eqb].
    unfold bind at 1. rewrite attr_data_at by done. unfold of_opt at 1, ret at 1.
    destruct (add_refines alloc a b l H Ha1) as (b1 & E1 & Hb1).
    { rewrite lenZ_enc_cons. change (lenZ (enc [])) with 0. lia. }
    rewrite (bind_run _ _ _ _ _ E1). pose proof (a_add_le alloc a l) as Hle.
    rewrite lenZ_enc_cons in Hle. change (lenZ (enc [])) with 0 in Hle.
    destruct (a_add alloc a l) as [rc l']. cbn [fst snd] in *.
    destruct (negb (rc =? 0)); [by exists b1|].
    rewrite app_assoc, Ep. apply IH; [done | done | lia].
Qed.

(** A reference block, as the loops walk it. *)
Lemma rep_body b l : rep b l -> exists p r, b = p ++ enc l ++ r /\ lenZ p = 8.
Proof.
  intros (_ & _ & s & ->). exists (blk (lenZ (enc l)) (lenZ l) []), s.
  split; [by rewrite blk_app | by rewrite lenZ_blk].
Qed.

(** Matching, on both functions. [attributes_match_reference()] tells whether every attribute
    of the reference is one that is not hidden and whose identifier the candidate has, first
    occurrence first, with the same value, and that value is not empty: an empty value matches
    nothing, not even itself. [attributes_match_add_reference()] appends the attributes of the
    reference that are missing and fails with TEMPLATE_INCONSISTENT on the first one that is there
    with another value, or with an empty one. Neither leaves the blocks they are given. *)
Theorem pkcs11_attributes_match (alloc : Z -> bool) (b ref : list Z) (l lr : list attr) :
  rep b l -> rep ref lr -> lenZ (enc l) + lenZ (enc lr) < 2 ^ 32 ->
  attributes_match_reference ref b = (Ret (forallb (ref_matches l) lr), b) /\
  refines (attributes_match_add_reference alloc ref) (a_match_add alloc lr) b l.
Proof.
  intros H Hr Hs. pose proof (rep_rd_count _ _ Hr) as Hc. pose proof (rep_ok _ _ Hr) as Hok.
  pose proof (rep_count_range _ _ Hr) as Hn. destruct (rep_body _ _ Hr) as (p & r & -> & Hp).
  unfold attributes_match_reference, attributes_match_add_reference, refines. unfold bind at 1 2.
  rewrite Hc. unfold of_opt, ret. rewrite (le_val_word _ Hn). unfold lenZ at 1 2. rewrite Nat2Z.id, <- Hp.
  split; [by apply match_loop_spec | by apply match_add_loop_spec].
Qed.

(** An object with an empty label does not match its own attributes. *)
Lemma pkcs11_attributes_match_witness :
  attributes_match_reference (block_of [(1, [1]); (3, [])]) (block_of [(1, [1]); (3, [])]) =
    (Ret false, block_of [(1, [1]); (3, [])]).
Proof.
  refine (proj1 (pkcs11_attributes_match (fun _ => true) _ _ [(1, [1]); (3, [])] [(1, [1]); (3, [])] _ _ _)).
  - split; [repeat (apply Forall_cons_2; [unfold is_u; simpl; lia|]); apply Forall_nil_2|].
    split; [vm_compute; reflexivity | by exists []].
  - split; [repeat (apply Forall_cons_2; [unfold is_u; simpl; lia|]); apply Forall_nil_2|].
    split; [vm_compute; reflexivity | by exists []].
  - vm_compute; reflexivity.
Defined.

(** ** Client arguments, as a parser of the bytes that remain *)

Definition args_wf (s : serialargs) : Prop :=
  bytes_ok (input s) /\ lenZ (input s) = size s /\
  0 <= start s <= next s /\ next s <= start s + size s /\ start s + size s < 2 ^ 64.

Definition remaining (s : serialargs) : list Z := drop (Z.to_nat (next s - start s)) (input s).

(** [m] behaves as the parser [f] of the bytes that remain, and stays in the same buffer. *)
Definition parses {A} (m : M serialargs A) (f : list Z -> A * list Z) (s : serialargs) : Prop :=
  exists s', m s = (Ret (f (remaining s)).1, s') /\ args_wf s' /\ input s' = input s /\
    start s' = start s /\ remaining s' = (f (remaining s)).2.

Definition p_get (sz : Z) (r : list Z) : (Z * list Z) * list Z :=
  if sz <=? lenZ r then ((PKCS11_CKR_OK, take (Z.to_nat sz) r), drop (Z.to_nat sz) r)
  else ((PKCS11_CKR_ARGUMENTS_BAD, []), r).

(** A structure of 8 bytes, the number of bytes that follow it being [body] of it. Its header is
    consumed even when the body is missing, but not when the allocation fails. *)
Definition p_struct (alloc : Z -> bool) (body : list Z -> Z) (r : list Z) : (Z * option (list Z)) * list Z :=
  if 8 <=? lenZ r then
    let n := body (take 8 r) in
    if 8 + n <=? lenZ r then
      if alloc (8 + n) then ((PKCS11_CKR_OK, Some (take (Z.to_nat (8 + n)) r)), drop (Z.to_nat (8 + n)) r)
      else ((PKCS11_CKR_DEVICE_MEMORY, None), r)
    else ((PKCS11_CKR_ARGUMENTS_BAD, None), drop 8 r)
  else ((PKCS11_CKR_ARGUMENTS_BAD, None), r).

(** The arguments with the cursor [n] bytes further on. *)
Definition advance (n : Z) (s : serialargs) : serialargs :=
  SerialArgs (input s) (start s) (next s + n) (size s).

Lemma lenZ_remaining s : args_wf s -> lenZ (remaining s) = start s + size s - next s.
Proof. intros (_ & H & ? & ? & ?). unfold remaining, lenZ in *. rewrite length_drop. lia. Qed.

Lemma advance_wf n s : args_wf s -> 0 <= n <= lenZ (remaining s) ->
  args_wf (advance n s) /\ remaining (advance n s) = drop (Z.to_nat n) (remaining s).
Proof.
  intros H Hn. rewrite (lenZ_remaining _ H) in Hn. destruct H as (H0 & H1 & H2 & H3 & H4).
  split; [unfold args_wf; simpl; repeat split; (done || lia)|].
  unfold remaining, advance. simpl. rewrite drop_drop. f_equal. lia.
Qed.

Lemma advance_0 s : advance 0 s = s.
Proof. destruct s. unfold advance. simpl. by rewrite Z.add_0_r. Qed.

Lemma get_ptr_spec sz s : args_wf s -> 0 <= sz < 2 ^ 64 ->
  serialargs_get_ptr sz s =
  if sz <=? lenZ (remaining s)
  then (Ret (PKCS11_CKR_OK, if sz =? 0 then None else Some (next s)), advance sz s)
  else (Ret (PKCS11_CKR_ARGUMENTS_BAD, None), s).
Proof.
  intros H Hsz. rewrite (lenZ_remaining _ H). destruct H as (H0 & H1 & H2 & H3 & H4).
  unfold serialargs_get_ptr, add_overflow, bind, get.
  destruct (2 ^ 64 <=? next s + sz) eqn:Eo; bool_hyps.
  { by rewrite (proj2 (Z.leb_gt _ _)) by lia. }
  destruct (sz =? 0) eqn:Ez; bool_hyps.
  { subst sz. rewrite (proj2 (Z.leb_le _ _)) by lia. by rewrite advance_0. }
  rewrite uwrap_small by (unfold is_u; lia).
  destruct (sz <=? _) eqn:E; bool_hyps.
  - by rewrite (proj2 (Z.ltb_ge _ _)) by lia.
  - by rewrite (proj2 (Z.ltb_lt _ _)) by lia.
Qed.

(** Reading what [serialargs_get_ptr()] has just returned. *)
Lemma read_input_spec sz s : args_wf s -> 0 <= sz <= lenZ (remaining s) ->
  read_input (if sz =? 0 then None else Some (next s)) sz (advance sz s) =
  (Ret (take (Z.to_nat sz) (remaining s)), advance sz s).
Proof.
  intros H Hsz. rewrite (lenZ_remaining _ H) in Hsz. destruct H as (H0 & H1 & H2 & H3 & H4).
  unfold read_input, bind, get. destruct (sz =? 0) eqn:E; bool_hyps; [by subst sz|].
  simpl. rewrite rd_in by lia. done.
Qed.

Lemma serialargs_get_parses sz s : args_wf s -> 0 <= sz < 2 ^ 64 ->
  parses (serialargs_get sz) (p_get sz) s.
Proof.
  intros H Hsz. unfold parses, serialargs_get, p_get. unfold bind at 1. rewrite get_ptr_spec by done.
  destruct (sz <=? _) eqn:E; bool_hyps; [|by exists s].
  exists (advance sz s). cbn [Z.eqb PKCS11_CKR_OK]. rewrite (bind_run _ _ _ _ _ (read_input_spec sz s H ltac:(lia))).
  destruct (advance_wf sz s H) as [Hw Hr]; [lia|]. by rewrite Hr.
Qed.

Lemma word_range h : bytes_ok h -> is_u 32 (word0 h) /\ is_u 32 (word1 h).
Proof.
  intros H. assert (forall x, bytes_ok x -> is_u 32 (le_val (take 4 x))) as Hw.
  { intros x Hx. destruct (le_val_range (take 4 x) (Forall_take _ _ _ Hx)) as [Hl Hh].
    split; [done|]. eapply Z.lt_le_trans; [apply Hh|]. apply Z.pow_le_mono_r; [lia|].
    unfold lenZ. rewrite length_take. lia. }
  split; [by apply Hw | by apply Hw, Forall_drop].
Qed.

(** [serialargs_get()] of a header followed by [alloc_and_get()] of its body. *)
Lemma struct_parses alloc (body : list Z -> Z) s :
  args_wf s -> (forall h, bytes_ok h -> is_u 32 (body h)) ->
  parses (let! args := get in
          let orig_next := next args in
          let! p := serialargs_get 8 in
          let '(rc, h) := p in
          if negb (rc =? 0) then ret (rc, None) else alloc_and_get alloc orig_next h (body h))
    (p_struct alloc body) s.
Proof.
  intros H Hb. unfold parses, p_struct. unfold bind at 1, get.
  destruct (serialargs_get_parses 8 s H ltac:(lia)) as (s1 & E1 & Hw1 & Hi1 & Hs1 & Hr1).
  unfold p_get in *. destruct (8 <=? lenZ (remaining s)) eqn:E8; cbn [fst snd] in *; bool_hyps.
  2: { exists s1. rewrite (bind_run _ _ _ _ _ E1). done. }
  rewrite (bind_run _ _ _ _ _ E1). cbn [Z.eqb negb PKCS11_CKR_OK].
  set (h := take (Z.to_nat 8) (remaining s)) in *. change (take 8 (remaining s)) with h.
  assert (lenZ h = 8) as Hlh by (unfold h, lenZ in *; rewrite length_take; lia).
  destruct (Hb h) as [Hn0 Hn1]; [apply Forall_take, Forall_drop, H|]. set (n := body h) in *.
  unfold alloc_and_get, add_overflow. rewrite Hlh, (proj2 (Z.leb_gt _ _)) by lia.
  rewrite uwrap_small by (unfold is_u; lia). rewrite (proj2 (Z.eqb_neq _ _)) by lia.
  unfold bind at 1. rewrite get_ptr_spec by (done || lia).
  assert (lenZ (remaining s1) = lenZ (remaining s) - 8) as Hl1
    by (rewrite Hr1; unfold lenZ in *; rewrite length_drop; lia).
  destruct (8 + n <=? lenZ (remaining s)) eqn:En; bool_hyps.
  2: { rewrite (proj2 (Z.leb_gt _ _)) by lia. by exists s1. }
  rewrite (proj2 (Z.leb_le _ _)) by lia. cbn [Z.eqb negb PKCS11_CKR_OK].
  destruct (alloc (8 + n)); cbn [negb fst snd].
  - exists (advance n s1). rewrite (bind_run _ _ _ _ _ (read_input_spec n s1 Hw1 ltac:(lia))).
    destruct (advance_wf n s1 Hw1 ltac:(lia)) as [Hw Hr].
    replace (Z.to_nat (8 + n)) with (Z.to_nat 8 + Z.to_nat n)%nat by lia.
    rewrite <- take_take_drop, <- drop_drop, Hr, Hr1. done.
  - exists s. split; [|done].
    assert (size s1 = size s) as Hsz by (destruct Hw1 as (_ & <- & _), H as (_ & <- & _); by rewrite Hi1).
    unfold bind, set_next, modify, advance, ret. simpl. rewrite Hi1, Hs1, Hsz. by destruct s.
Qed.

Lemma p_struct_roundtrip alloc body r x :
  8 <= lenZ x -> 8 + body (take 8 x) = lenZ x -> alloc (lenZ x) = true ->
  p_struct alloc body (x ++ r) = ((PKCS11_CKR_OK, Some x), r).
Proof.
  intros Hx Hb Ha. unfold p_struct. pose proof (lenZ_nonneg r). rewrite lenZ_app.
  rewrite (proj2 (Z.leb_le _ _)) by lia.
  rewrite take_app_le by (unfold lenZ in *; lia). rewrite Hb, (proj2 (Z.leb_le _ _)), Ha by lia.
  unfold lenZ. rewrite Nat2Z.id, take_app_length, drop_app_length. done.
Qed.

Lemma take8_words a c r : take 8 (le_bytes 4 a ++ le_bytes 4 c ++ r) = le_bytes 4 a ++ le_bytes 4 c.
Proof. rewrite app_assoc, take_app_length'; [done|]. by rewrite length_app, !length_le_bytes. Qed.

(** C36. Reading the arguments of a client, whatever bytes it sent. From arguments that describe
    the client's buffer ([args_wf]), [serialargs_get()], [serialargs_alloc_get_one_attribute()] and
    [serialargs_alloc_get_attributes()] read nothing outside it and behave as parsers of the bytes
    that remain: they deliver exactly the bytes asked for, or the header with the body it announces,
    or refuse with ARGUMENTS_BAD when these are not all there, and stay in the buffer. In
    particular they read back a serialized attribute and a serialized attribute list. *)
Theorem serialargs_parse (alloc : Z -> bool) (s : serialargs) :
  args_wf s ->
  (forall sz, 0 <= sz < 2 ^ 64 -> parses (serialargs_get sz) (p_get sz) s) /\
  parses (serialargs_alloc_get_one_attribute alloc) (p_struct alloc word1) s /\
  parses (serialargs_alloc_get_attributes alloc) (p_struct alloc word0) s /\
  (forall a r, attr_ok a -> alloc (lenZ (enc1 a)) = true ->
     p_struct alloc word1 (enc1 a ++ r) = ((PKCS11_CKR_OK, Some (enc1 a)), r)) /\
  (forall l r, lenZ (enc l) < 2 ^ 32 -> alloc (lenZ (block_of l)) = true ->
     p_struct alloc word0 (block_of l ++ r) = ((PKCS11_CKR_OK, Some (block_of l)), r)).
Proof.
  intros H. split_and!.
  - intros sz Hsz. by apply serialargs_get_parses.
  - apply struct_parses; [done|]. intros h Hh. by apply word_range.
  - apply struct_parses; [done|]. intros h Hh. by apply word_range.
  - intros a r [H1 H2] Ha. pose proof (lenZ_nonneg a.2).
    apply p_struct_roundtrip; [rewrite lenZ_enc1; lia | | done].
    unfold enc1 at 1. rewrite take8_words, lenZ_enc1.
    by destruct (word_head a.1 (lenZ a.2) H1 (conj (lenZ_nonneg _) H2)) as [_ ->].
  - intros l r Hl Ha. pose proof (lenZ_nonneg (enc l)). pose proof (length_enc_le l).
    pose proof (lenZ_nonneg l).
    apply p_struct_roundtrip; [unfold block_of; rewrite lenZ_blk; lia | | done].
    unfold block_of at 1, blk. rewrite take8_words. unfold block_of. rewrite lenZ_blk.
    by destruct (word_head (lenZ (enc l)) (lenZ l)) as [-> _]; [unfold is_u; lia..|].
Qed.

Lemma serialargs_parse_witness :
  exists s', serialargs_alloc_get_one_attribute (fun _ => true)
      (serialargs_init (enc1 (3, [65; 66]) ++ [7]) 4096 11) =
    (Ret (PKCS11_CKR_OK, Some (enc1 (3, [65; 66]))), s') /\ remaining s' = [7].
Proof.
  destruct (serialargs_parse (fun _ => true) (serialargs_init (enc1 (3, [65; 66]) ++ [7]) 4096 11))
    as (_ & (s' & E & _ & _ & _ & Hr) & _).
  - split; [|vm_compute; repeat split; discriminate].
    repeat (apply Forall_cons_2; [split; vm_compute; (discriminate || reflexivity)|]). apply Forall_nil_2.
  - exists s'. split; [exact E | exact Hr].
Defined.
