(* ===== verification/Pkcs11Pin.v ===== *)
(** * Authentication to a PKCS#11 token

    The PIN and identity based authentication of the PKCS#11 trusted application:
    [check_so_pin()], [check_user_pin()], [set_pin()] of [ta/pkcs11/src/pkcs11_token.c], the hashing,
    the identity functions and the database update of [ta/pkcs11/src/persistent_token.c], and
    [lib/libutee/tee_uuid_from_str.c]. The state is the token; a non-zero return code is an [Err].

    The services of the TEE (random numbers, the digest, storage, the identity of the client) are an
    argument: their results during a call. The digest itself is a parameter [sha256] of the model.
    The option CFG_PKCS11_TA_AUTH_TEE_IDENTITY is on, as it is by default. *)
From Stdlib Require Import ZifyBool.
From S2P Require Import Prelude Pkcs11Attrs.
#[local] Open Scope Z_scope.

Definition PKCS11_CKR_ENCRYPTED_DATA_INVALID : Z := 0x0040.
Definition PKCS11_CKR_PIN_INCORRECT : Z := 0x00a0.
Definition PKCS11_CKR_PIN_INVALID : Z := 0x00a1.
Definition PKCS11_CKR_PIN_LEN_RANGE : Z := 0x00a2.
Definition PKCS11_CKR_PIN_LOCKED : Z := 0x00a4.
Definition PKCS11_CKR_SESSION_READ_ONLY : Z := 0x00b5.
Definition PKCS11_CKR_SIGNATURE_INVALID : Z := 0x00c0.
Definition PKCS11_CKR_TOKEN_WRITE_PROTECTED : Z := 0x00e2.
Definition PKCS11_CKR_USER_PIN_NOT_INITIALIZED : Z := 0x0102.

Definition TEE_ERROR_CIPHERTEXT_INVALID : Z := 0xF0100006.
Definition TEE_ERROR_BAD_FORMAT : Z := 0xFFFF0005.
Definition TEE_ERROR_MAC_INVALID : Z := 0xFFFF3071.
Definition TEE_ERROR_SIGNATURE_INVALID : Z := 0xFFFF3072.

Definition PKCS11_CKFT_RNG : Z := 2 ^ 0.
Definition PKCS11_CKFT_WRITE_PROTECTED : Z := 2 ^ 1.
Definition PKCS11_CKFT_LOGIN_REQUIRED : Z := 2 ^ 2.
Definition PKCS11_CKFT_USER_PIN_INITIALIZED : Z := 2 ^ 3.
Definition PKCS11_CKFT_PROTECTED_AUTHENTICATION_PATH : Z := 2 ^ 8.
Definition PKCS11_CKFT_TOKEN_INITIALIZED : Z := 2 ^ 10.
Definition PKCS11_CKFT_USER_PIN_COUNT_LOW : Z := 2 ^ 16.
Definition PKCS11_CKFT_USER_PIN_FINAL_TRY : Z := 2 ^ 17.
Definition PKCS11_CKFT_USER_PIN_LOCKED : Z := 2 ^ 18.
Definition PKCS11_CKFT_USER_PIN_TO_BE_CHANGED : Z := 2 ^ 19.
Definition PKCS11_CKFT_SO_PIN_COUNT_LOW : Z := 2 ^ 20.
Definition PKCS11_CKFT_SO_PIN_FINAL_TRY : Z := 2 ^ 21.
Definition PKCS11_CKFT_SO_PIN_LOCKED : Z := 2 ^ 22.
Definition PKCS11_CKFT_SO_PIN_TO_BE_CHANGED : Z := 2 ^ 23.

Definition PKCS11_TOKEN_PIN_SIZE_MAX : Z := 128.
Definition PKCS11_TOKEN_PIN_SIZE_MIN : Z := 4.
Definition PKCS11_TOKEN_SO_PIN_COUNT_MAX : Z := 7.
Definition PKCS11_TOKEN_USER_PIN_COUNT_MAX : Z := 7.
Definition PKCS11_TOKEN_LABEL_SIZE : Z := 32.
Definition TEE_MAX_HASH_SIZE : nat := 64.

Inductive pkcs11_user_type := PKCS11_CKU_SO | PKCS11_CKU_USER.

Definition user_code (u : pkcs11_user_type) : Z :=
  match u with PKCS11_CKU_SO => 0 | PKCS11_CKU_USER => 1 end.

(** The persistent state. [so_auth] and [user_auth] are the unions of the PIN hash and the TEE
    identity, as their 64 bytes. *)
Record token_persistent_main := mk_main {
  label : list Z;
  flags : Z;
  so_pin_count : Z;
  so_pin_salt : Z;
  so_auth : list Z;
  user_pin_count : Z;
  user_pin_salt : Z;
  user_auth : list Z;
}.

(** The part of [struct ck_token] that concerns authentication: the copy in memory and the one in
    the storage. *)
Record token_db := mk_token_db { db_main : token_persistent_main; stored : token_persistent_main }.

(** What the TEE services do during a call. *)
Record tee_env := mk_env {
  e_identity : option (list Z);      (* TEE_GetPropertyAsIdentity(): the 20 bytes of the identity *)
  e_random : Z;                      (* TEE_GenerateRandom() *)
  e_alloc_op : Z;                    (* TEE_AllocateOperation() *)
  e_digest : Z;                      (* TEE_DigestDoFinal() *)
  e_open_db : Z;                     (* open_db_file() *)
  e_write_db : Z;                    (* TEE_WriteObjectData() *)
  e_malloc : Z -> bool;              (* TEE_Malloc() *)
}.

Definition tee2pkcs_error (res : Z) : Z :=
  if res =? TEE_SUCCESS then PKCS11_CKR_OK
  else if res =? TEE_ERROR_BAD_PARAMETERS then PKCS11_CKR_ARGUMENTS_BAD
  else if res =? TEE_ERROR_CIPHERTEXT_INVALID then PKCS11_CKR_ENCRYPTED_DATA_INVALID
  else if res =? TEE_ERROR_OUT_OF_MEMORY then PKCS11_CKR_DEVICE_MEMORY
  else if res =? TEE_ERROR_SHORT_BUFFER then PKCS11_CKR_BUFFER_TOO_SMALL
  else if (res =? TEE_ERROR_MAC_INVALID) || (res =? TEE_ERROR_SIGNATURE_INVALID) then PKCS11_CKR_SIGNATURE_INVALID
  else PKCS11_CKR_GENERAL_ERROR.

(** ** Parsing a UUID (tee_uuid_from_str.c) *)

Definition hex (c : Z) : Z :=
  let lc := if (65 <=? c) && (c <=? 90) then c + 32 else c in
  if (48 <=? lc) && (lc <=? 57) then lc - 48
  else if (97 <=? lc) && (lc <=? 102) then lc - 97 + 10
  else -1.

Fixpoint parse_hex (s : list Z) (v : Z) : option Z :=
  match s with
  | [] => Some v
  | c :: r => if hex c =? -1 then None else parse_hex r (u32 (u32 (Z.shiftl v 4) + hex c))
  end.

Definition parse_hex_at (s : list Z) (p n : nat) : option Z := parse_hex (take n (drop p s)) 0.

(** The offsets of the eight bytes of [clockSeqAndNode]. *)
Definition node_offsets : list nat := [19; 21; 24; 26; 28; 30; 32; 34]%nat.

(** On a string without its terminating NUL; the result is the 16 bytes of the structure. *)
Definition tee_uuid_from_str (s : list Z) : option (list Z) :=
  if negb (length s =? 36)%nat then None
  else if negb (forallb (fun i => bool_decide (s !! i = Some 45)) [8; 13; 18; 23]%nat) then None
  else
    lo ← parse_hex_at s 0 8;
    mid ← parse_hex_at s 9 4;
    hi ← parse_hex_at s 14 4;
    node ← mapM (fun p => parse_hex_at s p 2) node_offsets;
    Some (le_bytes 4 lo ++ le_bytes 2 mid ++ le_bytes 2 hi ++ (u8 <$> node)).

Section Token.
Context (sha256 : list Z -> list Z).

Abbreviation K := (M token_db).

(** ** Hashing and storage (persistent_token.c) *)

Definition update_persistent_db (e : tee_env) : K unit :=
  do! (if negb (e_open_db e =? TEE_SUCCESS) then panic else ret tt) in
  do! (if negb (e_write_db e =? TEE_SUCCESS) then panic else ret tt) in
  modify (fun t => mk_token_db (db_main t) (db_main t)).

(** A PIN is a pointer into the client's buffer and a size; the pointer is NULL for the empty PIN. *)
Abbreviation pin_arg := (option (list Z)).
Definition pin_size (pin : pin_arg) : Z := lenZ (default [] pin).

(** The digest fails without touching the hash buffer. *)
Definition do_hash {S} (e : tee_env) (user : pkcs11_user_type) (pin : pin_arg) (salt : Z) : M S (list Z) :=
  if negb (e_alloc_op e =? TEE_SUCCESS) then err (tee2pkcs_error (e_alloc_op e))
  else if negb (e_digest e =? TEE_SUCCESS) then err PKCS11_CKR_GENERAL_ERROR
  else
    let h := sha256 (le_bytes 4 (user_code user) ++ le_bytes 4 salt ++ default [] pin) in
    ret (h ++ replicate (TEE_MAX_HASH_SIZE - length h) 0).

(** The result is [*salt] and [hash]. *)
Definition hash_pin {S} (e : tee_env) (user : pkcs11_user_type) (pin : pin_arg) : M S (Z * list Z) :=
  let s := if u32 (e_random e) =? 0 then 1 else u32 (e_random e) in
  let! h := do_hash e user pin s in
  ret (s, h).

Definition verify_pin {S} (e : tee_env) (user : pkcs11_user_type) (pin : pin_arg) (salt : Z) (hash : list Z) :
    M S unit :=
  let! h := do_hash e user pin salt in
  if bool_decide (h = hash) then ret tt else err PKCS11_CKR_PIN_INCORRECT.

(** ** Identities (persistent_token.c) *)

Definition TEE_LOGIN_PUBLIC : Z := 0.
Definition TEE_LOGIN_USER : Z := 1.
Definition TEE_LOGIN_GROUP : Z := 2.
Definition PKCS11_AUTH_TEE_IDENTITY_PUBLIC : list Z := [112; 117; 98; 108; 105; 99].   (* "public" *)
Definition PKCS11_AUTH_TEE_IDENTITY_USER : list Z := [117; 115; 101; 114; 58].         (* "user:" *)
Definition PKCS11_AUTH_TEE_IDENTITY_GROUP : list Z := [103; 114; 111; 117; 112; 58].   (* "group:" *)

(** The characters of a C string, up to its NUL. *)
Fixpoint c_str (b : list Z) : list Z :=
  match b with
  | [] => []
  | c :: r => if c =? 0 then [] else c :: c_str r
  end.

(** What follows the first colon; [None] without one. *)
Fixpoint after_colon (s : list Z) : option (list Z) :=
  match s with
  | [] => None
  | c :: r => if c =? 58 then Some r else after_colon r
  end.

Definition identity_bytes (login : Z) (uuid : list Z) : list Z := le_bytes 4 login ++ uuid.

(** The PIN read as an access control string "<login type>:<client id>". *)
Definition parse_acl (pin : list Z) : option (list Z) :=
  let acl_string := c_str pin in
  let uuid_str := after_colon acl_string in
  let with_uuid login := u ← uuid_str; i ← tee_uuid_from_str u; Some (identity_bytes login i) in
  if bool_decide (acl_string = PKCS11_AUTH_TEE_IDENTITY_PUBLIC) then Some (identity_bytes TEE_LOGIN_PUBLIC (replicate 16 0))
  else if bool_decide (PKCS11_AUTH_TEE_IDENTITY_USER `prefix_of` acl_string) then with_uuid TEE_LOGIN_USER
  else if bool_decide (PKCS11_AUTH_TEE_IDENTITY_GROUP `prefix_of` acl_string) then with_uuid TEE_LOGIN_GROUP
  else None.

(** [TEE_MemMove(&..._identity, &identity, sizeof(identity))] into the union. *)
Definition put_identity (identity auth : list Z) : list Z := identity ++ drop 20 auth.

(** The PIN hash or identity of a user. *)
Definition auth_of (u : pkcs11_user_type) (m : token_persistent_main) : list Z :=
  match u with PKCS11_CKU_SO => so_auth m | PKCS11_CKU_USER => user_auth m end.

Definition with_main (f : token_persistent_main -> token_persistent_main) : K unit :=
  modify (fun t => mk_token_db (f (db_main t)) (stored t)).

Definition set_flags (fl : Z) (m : token_persistent_main) : token_persistent_main :=
  mk_main (label m) fl (so_pin_count m) (so_pin_salt m) (so_auth m) (user_pin_count m) (user_pin_salt m) (user_auth m).
(** Counter, salt and hash or identity of one of the two users. *)
Definition set_so (c s : Z) (a : list Z) (m : token_persistent_main) : token_persistent_main :=
  mk_main (label m) (flags m) c s a (user_pin_count m) (user_pin_salt m) (user_auth m).
Definition set_user (c s : Z) (a : list Z) (m : token_persistent_main) : token_persistent_main :=
  mk_main (label m) (flags m) (so_pin_count m) (so_pin_salt m) (so_auth m) c s a.

Definition so_pin_flags : Z :=
  Z.lor (Z.lor (Z.lor PKCS11_CKFT_SO_PIN_COUNT_LOW PKCS11_CKFT_SO_PIN_FINAL_TRY) PKCS11_CKFT_SO_PIN_LOCKED)
    PKCS11_CKFT_SO_PIN_TO_BE_CHANGED.
Definition user_pin_flags : Z :=
  Z.lor (Z.lor (Z.lor PKCS11_CKFT_USER_PIN_COUNT_LOW PKCS11_CKFT_USER_PIN_FINAL_TRY) PKCS11_CKFT_USER_PIN_LOCKED)
    PKCS11_CKFT_USER_PIN_TO_BE_CHANGED.

Definition setup_so_identity_auth_from_client (e : tee_env) : K unit :=
  match e_identity e with
  | None => err PKCS11_CKR_PIN_INVALID
  | Some i =>
      with_main (fun m =>
        set_flags (Z.lor (flags m) PKCS11_CKFT_PROTECTED_AUTHENTICATION_PATH)
          (set_so (so_pin_count m) 0 (put_identity i (so_auth m)) m))
  end.

Definition setup_identity_auth_from_pin (e : tee_env) (user_type : pkcs11_user_type) (pin : pin_arg) : K unit :=
  let! t := get in
  do! assert_ (has (flags (db_main t)) PKCS11_CKFT_PROTECTED_AUTHENTICATION_PATH) in
  let! identity :=
    match pin with
    | None => match e_identity e with Some i => ret i | None => err PKCS11_CKR_PIN_INVALID end
    | Some p =>
        do! guard_err (negb (e_malloc e (u64 (lenZ p + 1)))) PKCS11_CKR_DEVICE_MEMORY in
        match parse_acl p with Some i => ret i | None => err PKCS11_CKR_PIN_INVALID end
    end in
  with_main (fun m =>
    match user_type with
    | PKCS11_CKU_SO =>
        set_flags (Z.ldiff (flags m) so_pin_flags) (set_so 0 0 (put_identity identity (so_auth m)) m)
    | PKCS11_CKU_USER =>
        set_flags (Z.lor (Z.ldiff (flags m) user_pin_flags) PKCS11_CKFT_USER_PIN_INITIALIZED)
          (set_user 0 0 (put_identity identity (user_auth m)) m)
    end).

Definition verify_identity_auth (e : tee_env) (user_type : pkcs11_user_type) : K unit :=
  let! t := get in
  do! assert_ (has (flags (db_main t)) PKCS11_CKFT_PROTECTED_AUTHENTICATION_PATH) in
  match e_identity e with
  | None => err PKCS11_CKR_PIN_INVALID
  | Some i =>
      if bool_decide (take 20 (auth_of user_type (db_main t)) = i) then ret tt else err PKCS11_CKR_PIN_INCORRECT
  end.

(** ** Trying a PIN (pkcs11_token.c) *)

(** The flags and the counter with one more failure noted. *)
Definition count_failure (low final locked max : Z) (p : Z * Z) : Z * Z :=
  let '(fl, n) := p in
  let fl := Z.lor fl low in
  let n := u32 (n + 1) in
  if n =? max - 1 then (Z.lor fl final, n)
  else if n =? max then (Z.lor fl locked, n)
  else (fl, n).

(** The flags and the counter after a try that [verify_pin()] did not reject ([rc] is its result). *)
Definition settle (low final locked max rc : Z) (p : Z * Z) : Z * Z :=
  let '(fl, n) := p in
  let n := if negb (rc =? 0) then u32 (n - 1) else 0 in
  let fl := Z.ldiff fl locked in
  if n <? max - 1 then
    let fl := Z.ldiff fl final in
    (if n =? 0 then Z.ldiff fl low else fl, n)
  else (fl, n).

(** The fields and flags of the two users. *)
Definition low_flag (u : pkcs11_user_type) : Z :=
  match u with PKCS11_CKU_SO => PKCS11_CKFT_SO_PIN_COUNT_LOW | PKCS11_CKU_USER => PKCS11_CKFT_USER_PIN_COUNT_LOW end.
Definition final_flag (u : pkcs11_user_type) : Z :=
  match u with PKCS11_CKU_SO => PKCS11_CKFT_SO_PIN_FINAL_TRY | PKCS11_CKU_USER => PKCS11_CKFT_USER_PIN_FINAL_TRY end.
Definition locked_flag (u : pkcs11_user_type) : Z :=
  match u with PKCS11_CKU_SO => PKCS11_CKFT_SO_PIN_LOCKED | PKCS11_CKU_USER => PKCS11_CKFT_USER_PIN_LOCKED end.
Definition pin_count_max (u : pkcs11_user_type) : Z :=
  match u with PKCS11_CKU_SO => PKCS11_TOKEN_SO_PIN_COUNT_MAX | PKCS11_CKU_USER => PKCS11_TOKEN_USER_PIN_COUNT_MAX end.
Definition count_of (u : pkcs11_user_type) (m : token_persistent_main) : Z * Z :=
  (flags m, match u with PKCS11_CKU_SO => so_pin_count m | PKCS11_CKU_USER => user_pin_count m end).
Definition salt_of (u : pkcs11_user_type) (m : token_persistent_main) : Z :=
  match u with PKCS11_CKU_SO => so_pin_salt m | PKCS11_CKU_USER => user_pin_salt m end.
Definition put_count (u : pkcs11_user_type) (p : Z * Z) (m : token_persistent_main) : token_persistent_main :=
  set_flags (fst p)
    match u with
    | PKCS11_CKU_SO => set_so (snd p) (so_pin_salt m) (so_auth m) m
    | PKCS11_CKU_USER => set_user (snd p) (user_pin_salt m) (user_auth m) m
    end.
Definition fail_count (u : pkcs11_user_type) (p : Z * Z) : Z * Z :=
  count_failure (low_flag u) (final_flag u) (locked_flag u) (pin_count_max u) p.

(** What [check_so_pin()] and [check_user_pin()] both do with a PIN that is not locked: the failure
    is noted and stored before the PIN is looked at, and taken back afterwards. *)
Definition try_pin (u : pkcs11_user_type) (e : tee_env) (pin : pin_arg) : K unit :=
  do! with_main (fun m => put_count u (fail_count u (count_of u m)) m) in
  do! update_persistent_db e in
  let! t := get in
  let db := db_main t in
  let! rc := rc_of (verify_pin e u pin (salt_of u db) (auth_of u db)) in
  if rc =? PKCS11_CKR_PIN_INCORRECT then
    if has (flags db) (locked_flag u) then err PKCS11_CKR_PIN_LOCKED else err PKCS11_CKR_PIN_INCORRECT
  else
    do! with_main (fun m => put_count u
      (settle (low_flag u) (final_flag u) (locked_flag u) (pin_count_max u) rc (count_of u m)) m) in
    do! update_persistent_db e in
    guard_err (negb (rc =? 0)) rc.

Definition check_so_pin (e : tee_env) (pin : pin_arg) : K unit :=
  let! t := get in
  let db := db_main t in
  do! assert_ (has (flags db) PKCS11_CKFT_TOKEN_INITIALIZED) in
  if has (flags db) PKCS11_CKFT_PROTECTED_AUTHENTICATION_PATH then verify_identity_auth e PKCS11_CKU_SO
  else if has (flags db) PKCS11_CKFT_SO_PIN_LOCKED then err PKCS11_CKR_PIN_LOCKED
  else try_pin PKCS11_CKU_SO e pin.

Definition check_user_pin (e : tee_env) (pin : pin_arg) : K unit :=
  let! t := get in
  let db := db_main t in
  do! guard_err (negb (has (flags db) PKCS11_CKFT_USER_PIN_INITIALIZED)) PKCS11_CKR_USER_PIN_NOT_INITIALIZED in
  if has (flags db) PKCS11_CKFT_PROTECTED_AUTHENTICATION_PATH then verify_identity_auth e PKCS11_CKU_USER
  else
    do! assert_ (negb (user_pin_salt db =? 0)) in
    if has (flags db) PKCS11_CKFT_USER_PIN_LOCKED then err PKCS11_CKR_PIN_LOCKED
    else try_pin PKCS11_CKU_USER e pin.

(** ** Setting a PIN (pkcs11_token.c) *)

(** The new PIN's length check and hash, with the flags to clear besides those of the PIN. *)
Definition set_pin_hash (e : tee_env) (user_type : pkcs11_user_type) (new_pin : pin_arg) (flags_clear : Z) : K unit :=
  do! guard_err ((pin_size new_pin <? PKCS11_TOKEN_PIN_SIZE_MIN) || (PKCS11_TOKEN_PIN_SIZE_MAX <? pin_size new_pin))
    PKCS11_CKR_PIN_LEN_RANGE in
  let! p := hash_pin e user_type new_pin in
  let '(salt, hash) := p in
  do! with_main (fun m =>
    match user_type with
    | PKCS11_CKU_SO =>
        set_flags (Z.ldiff (flags m) (Z.lor flags_clear so_pin_flags)) (set_so 0 salt hash m)
    | PKCS11_CKU_USER =>
        set_flags (Z.lor (Z.ldiff (flags m) (Z.lor flags_clear user_pin_flags)) PKCS11_CKFT_USER_PIN_INITIALIZED)
          (set_user 0 salt hash m)
    end) in
  update_persistent_db e.

(** [rw]: the session is read/write. *)
Definition set_pin (e : tee_env) (rw : bool) (new_pin : pin_arg) (user_type : pkcs11_user_type) : K unit :=
  let! t := get in
  let db := db_main t in
  do! guard_err (has (flags db) PKCS11_CKFT_WRITE_PROTECTED) PKCS11_CKR_TOKEN_WRITE_PROTECTED in
  do! guard_err (negb rw) PKCS11_CKR_SESSION_READ_ONLY in
  let user_pin := has (flags db) PKCS11_CKFT_USER_PIN_INITIALIZED in
  if has (flags db) PKCS11_CKFT_PROTECTED_AUTHENTICATION_PATH then
    let! rc := rc_of (setup_identity_auth_from_pin e user_type new_pin) in
    if rc =? PKCS11_CKR_OK then update_persistent_db e
    else if (rc =? PKCS11_CKR_PIN_INVALID) && negb user_pin then
      set_pin_hash e user_type new_pin PKCS11_CKFT_PROTECTED_AUTHENTICATION_PATH
    else err rc
  else
    match user_type, new_pin with
    | PKCS11_CKU_SO, None =>
        if negb user_pin then
          do! with_main (fun m => set_flags (Z.lor (flags m) PKCS11_CKFT_PROTECTED_AUTHENTICATION_PATH) m) in
          let! rc := rc_of (setup_identity_auth_from_pin e PKCS11_CKU_SO None) in
          if negb (rc =? 0) then
            do! with_main (fun m => set_flags (Z.ldiff (flags m) PKCS11_CKFT_PROTECTED_AUTHENTICATION_PATH) m) in
            err rc
          else update_persistent_db e
        else set_pin_hash e user_type new_pin 0
    | _, _ => set_pin_hash e user_type new_pin 0
    end.

(** ** Initialising a token (pkcs11_token.c) *)

(** [entry_ck_token_initialize()] from the authentication to the update of the database. *)
Definition token_initialize (e : tee_env) (new_label : list Z) (pin : pin_arg) : K unit :=
  let! t := get in
  let db := db_main t in
  do! (if has (flags db) PKCS11_CKFT_TOKEN_INITIALIZED then
         if has (flags db) PKCS11_CKFT_PROTECTED_AUTHENTICATION_PATH then verify_identity_auth e PKCS11_CKU_SO
         else
           let! rc := rc_of (verify_pin e PKCS11_CKU_SO pin (so_pin_salt db) (so_auth db)) in
           if rc =? 0 then ret tt
           else if negb (rc =? PKCS11_CKR_PIN_INCORRECT) then err rc
           else
             do! with_main (fun m => put_count PKCS11_CKU_SO (fail_count PKCS11_CKU_SO (count_of PKCS11_CKU_SO m)) m) in
             do! update_persistent_db e in
             err PKCS11_CKR_PIN_INCORRECT
       else
         match pin with
         | None => setup_so_identity_auth_from_client e
         | Some _ =>
             do! guard_err ((pin_size pin <? PKCS11_TOKEN_PIN_SIZE_MIN) || (PKCS11_TOKEN_PIN_SIZE_MAX <? pin_size pin))
               PKCS11_CKR_ARGUMENTS_BAD in
             let! p := hash_pin e PKCS11_CKU_SO pin in
             let '(salt, hash) := p in
             with_main (fun m => set_so (so_pin_count m) salt hash m)
         end) in
  do! with_main (fun m =>
    mk_main new_label
      (Z.ldiff (Z.lor (Z.ldiff (flags m) so_pin_flags) PKCS11_CKFT_TOKEN_INITIALIZED)
         (Z.lor PKCS11_CKFT_USER_PIN_INITIALIZED user_pin_flags))
      0 (so_pin_salt m) (so_auth m) (user_pin_count m) 0 (user_auth m)) in
  update_persistent_db e.
End Token.

(** ** Counting failures *)

(** The counter and its three flags agree: some failures, one try left, locked. *)
Record pin_ok (low final locked : Z) (p : Z * Z) : Prop := mk_pin_ok {
  po_range : 0 <= snd p <= 7;
  po_low : has (fst p) low = (0 <? snd p);
  po_final : has (fst p) final = (6 <=? snd p);
  po_locked : has (fst p) locked = (7 <=? snd p);
}.

Section Count.
Context (a b c : Z) (Ha : 0 <= a) (Hb : 0 <= b) (Hc : 0 <= c) (Hab : a <> b) (Hac : a <> c) (Hbc : b <> c).

Lemma count_failure_ok p : pin_ok (2 ^ a) (2 ^ b) (2 ^ c) p -> snd p < 7 ->
  pin_ok (2 ^ a) (2 ^ b) (2 ^ c) (count_failure (2 ^ a) (2 ^ b) (2 ^ c) 7 p) /\
  snd (count_failure (2 ^ a) (2 ^ b) (2 ^ c) 7 p) = snd p + 1.
Proof.
  destruct p as [fl n]. intros [Hr Hl Hf Hk] Hn. simpl in *. unfold count_failure.
  rewrite uwrap_small by (unfold is_u; lia). case_tests; bool_hyps; simpl; (split; [|done]); split; simpl;
    rewrite ?has_lor, ?Z.pow2_bits_eqb by done; rewrite ?Hl, ?Hf, ?Hk; rewrite ?Z.eqb_refl;
    repeat (rewrite (proj2 (Z.eqb_neq _ _)) by done); lia.
Qed.

(** A try that could not be verified leaves no trace. *)
Lemma settle_back p rc : pin_ok (2 ^ a) (2 ^ b) (2 ^ c) p -> snd p < 7 -> rc <> 0 ->
  settle (2 ^ a) (2 ^ b) (2 ^ c) 7 rc (count_failure (2 ^ a) (2 ^ b) (2 ^ c) 7 p) = p.
Proof.
  destruct p as [fl n]. intros [Hr Hl Hf Hk] Hn Hrc. simpl in *. unfold count_failure.
  rewrite !has_bit in * by done. rewrite uwrap_small by (unfold is_u; lia). unfold settle.
  rewrite (proj2 (Z.eqb_neq rc 0)) by done. cbn [negb].
  case_tests; bool_hyps; rewrite uwrap_small in * by (unfold is_u; lia); f_equal; try lia;
    apply Z.bits_inj'; intros k Hk0; rewrite ?Z.ldiff_spec, ?Z.lor_spec, ?Z.pow2_bits_eqb by done;
    destruct (a =? k) eqn:Ea; bool_hyps; subst; rewrite ?Hl;
    try (rewrite (proj2 (Z.eqb_neq b _)), (proj2 (Z.eqb_neq c _)) by done; lia);
    destruct (b =? k) eqn:Eb; bool_hyps; subst; rewrite ?Hf;
    try (rewrite (proj2 (Z.eqb_neq c _)) by done; lia);
    destruct (c =? k) eqn:Ec; bool_hyps; subst; rewrite ?Hk; lia.
Qed.

(** A correct PIN clears the counter and its flags. *)
Lemma settle_clear p : pin_ok (2 ^ a) (2 ^ b) (2 ^ c) p -> snd p < 7 ->
  settle (2 ^ a) (2 ^ b) (2 ^ c) 7 0 (count_failure (2 ^ a) (2 ^ b) (2 ^ c) 7 p) =
  (Z.ldiff (fst p) (Z.lor (Z.lor (2 ^ a) (2 ^ b)) (2 ^ c)), 0).
Proof.
  destruct p as [fl n]. intros [Hr Hl Hf Hk] Hn. simpl in *. unfold count_failure, settle.
  case_tests; f_equal; apply Z.bits_inj'; intros k Hk0;
    rewrite ?Z.ldiff_spec, ?Z.lor_spec; destruct (Z.testbit (2 ^ a) k), (Z.testbit (2 ^ b) k), (Z.testbit (2 ^ c) k);
    simpl; rewrite ?orb_false_r, ?andb_true_r, ?andb_false_r, ?orb_true_r; done.
Qed.

(** Other flags are left alone. *)
Lemma count_failure_other p k : 0 <= k -> k <> a -> k <> b -> k <> c ->
  has (fst (count_failure (2 ^ a) (2 ^ b) (2 ^ c) 7 p)) (2 ^ k) = has (fst p) (2 ^ k).
Proof.
  intros Hk Na Nb Nc. destruct p as [fl n]. unfold count_failure.
  case_tests; simpl; rewrite !has_lor, ?Z.pow2_bits_eqb by done;
    rewrite !(proj2 (Z.eqb_neq _ k)) by done; by rewrite !orb_false_r.
Qed.
End Count.

(** ** Trying a PIN *)

Section Checks.
Context (sha256 : list Z -> list Z).

(** The result of verifying a PIN. *)
Definition pin_rc (e : tee_env) (u : pkcs11_user_type) (pin : option (list Z)) (salt : Z) (hash : list Z) : Z :=
  match fst (verify_pin sha256 e u pin salt hash tt) with Err rc => rc | _ => 0 end.

Lemma ldiff_lor f m : has f m = false -> Z.ldiff (Z.lor f m) m = f.
Proof.
  unfold has. intros H. bool_hyps. apply Z.bits_inj'. intros n Hn. apply (f_equal (fun x => Z.testbit x n)) in H.
  rewrite Z.land_spec, Z.bits_0 in H. rewrite Z.ldiff_spec, Z.lor_spec.
  destruct (Z.testbit f n), (Z.testbit m n); done.
Qed.

Lemma tee2pkcs_error_cases r : r <> 0 -> tee2pkcs_error r <> 0 /\ tee2pkcs_error r <> PKCS11_CKR_PIN_INCORRECT.
Proof.
  intros Hr. unfold tee2pkcs_error. rewrite (proj2 (Z.eqb_neq r TEE_SUCCESS)) by done.
  repeat case_test; done.
Qed.

Lemma do_hash_run {S} e u pin salt :
  (exists rc, rc <> 0 /\ rc <> PKCS11_CKR_PIN_INCORRECT /\ forall s : S, do_hash sha256 e u pin salt s = (Err rc, s)) \/
  (exists h, forall s : S, do_hash sha256 e u pin salt s = (Ret h, s)).
Proof.
  unfold do_hash. destruct (e_alloc_op e =? TEE_SUCCESS) eqn:E1; cbn [negb]; bool_hyps.
  - destruct (e_digest e =? TEE_SUCCESS); cbn [negb]; [by right; eexists | left; by exists PKCS11_CKR_GENERAL_ERROR].
  - left. destruct (tee2pkcs_error_cases _ E1). eexists. split_and!; done.
Qed.

Lemma verify_pin_run {S} e u pin salt hash (s : S) :
  rc_of (verify_pin sha256 e u pin salt hash) s = (Ret (pin_rc e u pin salt hash), s).
Proof.
  unfold rc_of, pin_rc, verify_pin, bind, do_hash.
  destruct (e_alloc_op e =? TEE_SUCCESS) eqn:E1; simpl; [|done].
  destruct (e_digest e =? TEE_SUCCESS) eqn:E2; simpl; [|done]. by case_bool_decide.
Qed.

(** A token whose database is stored. *)
Definition synced (m : token_persistent_main) : token_db := mk_token_db m m.

Definition storage_ok (e : tee_env) : Prop := e_open_db e = TEE_SUCCESS /\ e_write_db e = TEE_SUCCESS.

Lemma with_main_run f m m' : with_main f (mk_token_db m m') = (Ret tt, mk_token_db (f m) m').
Proof. done. Qed.

Lemma update_run e m m' : storage_ok e -> update_persistent_db e (mk_token_db m m') = (Ret tt, synced m).
Proof. intros [H1 H2]. unfold update_persistent_db. by rewrite H1, H2. Qed.

Definition pin_wf (u : pkcs11_user_type) (m : token_persistent_main) : Prop :=
  pin_ok (low_flag u) (final_flag u) (locked_flag u) (count_of u m).

Lemma count_of_put u p m : count_of u (put_count u p m) = p.
Proof. by destruct u, p. Qed.

Lemma put_put_count u p q m : put_count u p (put_count u q m) = put_count u p m.
Proof. by destruct u. Qed.

Lemma put_count_id u m : put_count u (count_of u m) m = m.
Proof. by destruct u, m. Qed.

Lemma auth_of_put u v p m : auth_of u (put_count v p m) = auth_of u m /\ salt_of u (put_count v p m) = salt_of u m.
Proof. by destruct u, v. Qed.

Lemma fail_count_wf u p : pin_ok (low_flag u) (final_flag u) (locked_flag u) p -> snd p < 7 ->
  pin_ok (low_flag u) (final_flag u) (locked_flag u) (fail_count u p) /\ snd (fail_count u p) = snd p + 1.
Proof. destruct u; by apply count_failure_ok. Qed.

Lemma settle_failed u p rc : pin_ok (low_flag u) (final_flag u) (locked_flag u) p -> snd p < 7 ->
  settle (low_flag u) (final_flag u) (locked_flag u) (pin_count_max u) rc (fail_count u p) =
  if rc =? 0 then (Z.ldiff (fst p) (Z.lor (Z.lor (low_flag u) (final_flag u)) (locked_flag u)), 0) else p.
Proof.
  intros Hp Hn. destruct (rc =? 0) eqn:E; bool_hyps; [subst rc|]; destruct u.
  - exact (settle_clear 20 21 22 p Hp Hn).
  - exact (settle_clear 16 17 18 p Hp Hn).
  - by apply (settle_back 20 21 22).
  - by apply (settle_back 16 17 18).
Qed.

(** The flags of a failure-free counter. *)
Definition reset_count (u : pkcs11_user_type) (m : token_persistent_main) : Z * Z :=
  (Z.ldiff (flags m) (Z.lor (Z.lor (low_flag u) (final_flag u)) (locked_flag u)), 0).

(** A try on a PIN that is not locked. *)
Definition tried (u : pkcs11_user_type) (rc : Z) (m : token_persistent_main) : outcome unit * token_db :=
  if rc =? 0 then (Ret tt, synced (put_count u (reset_count u m) m))
  else if rc =? PKCS11_CKR_PIN_INCORRECT then
    (Err (if snd (count_of u m) =? 6 then PKCS11_CKR_PIN_LOCKED else PKCS11_CKR_PIN_INCORRECT),
     synced (put_count u (fail_count u (count_of u m)) m))
  else (Err rc, synced m).

Lemma try_pin_run u e pin m : storage_ok e -> pin_wf u m -> snd (count_of u m) < 7 ->
  try_pin sha256 u e pin (synced m) = tried u (pin_rc e u pin (salt_of u m) (auth_of u m)) m.
Proof.
  intros He Hw Hn. unfold try_pin, tried. set (p := count_of u m) in *. set (q := fail_count u p).
  rewrite (bind_run _ _ _ tt (mk_token_db (put_count u q m) m)) by done.
  rewrite (bind_run _ _ _ _ _ (update_run e _ _ He)). rewrite (bind_run _ _ _ _ _ (eq_refl : get _ = _)).
  cbn [db_main synced]. destruct (auth_of_put u u q m) as [-> ->].
  rewrite (bind_run _ _ _ _ _ (verify_pin_run _ _ _ _ _ _)). set (rc := pin_rc _ _ _ _ _).
  destruct (fail_count_wf u p Hw Hn) as [Hq Hq1]. fold q in Hq, Hq1.
  assert (flags (put_count u q m) = fst q) as Ef by (by destruct u).
  destruct (rc =? PKCS11_CKR_PIN_INCORRECT) eqn:E.
  { bool_hyps. rewrite E. rewrite Ef, (po_locked _ _ _ _ Hq), Hq1.
    replace (7 <=? snd p + 1) with (snd p =? 6) by lia. by destruct (snd p =? 6). }
  unfold synced at 1. rewrite (bind_run _ _ _ _ _ (with_main_run _ _ _)). cbv beta.
  rewrite (bind_run _ _ _ _ _ (update_run e _ _ He)), count_of_put, put_put_count.
  unfold q. rewrite settle_failed by done. destruct (rc =? 0) eqn:E0; cbn [negb guard_err]; [done|].
  unfold p. by rewrite put_count_id.
Qed.

(** ** The invariant *)

(** The counters agree with their flags, and the user's PIN, once set, has a salt. *)
Record db_ok (m : token_persistent_main) : Prop := mk_db_ok {
  ok_so : pin_wf PKCS11_CKU_SO m;
  ok_user : has (flags m) PKCS11_CKFT_USER_PIN_INITIALIZED = true -> pin_wf PKCS11_CKU_USER m;
  ok_salt : has (flags m) PKCS11_CKFT_USER_PIN_INITIALIZED = true ->
    has (flags m) PKCS11_CKFT_PROTECTED_AUTHENTICATION_PATH = false -> user_pin_salt m <> 0;
}.

Lemma pin_ok_ext l f k p q : snd q = snd p ->
  has (fst q) l = has (fst p) l -> has (fst q) f = has (fst p) f -> has (fst q) k = has (fst p) k ->
  pin_ok l f k p -> pin_ok l f k q.
Proof. intros Hn Hl Hf Hk []. split; rewrite ?Hn, ?Hl, ?Hf, ?Hk; done. Qed.

Lemma pin_ok_zero l f k p : snd p = 0 ->
  has (fst p) l = false -> has (fst p) f = false -> has (fst p) k = false -> pin_ok l f k p.
Proof. intros Hn Hl Hf Hk. split; rewrite ?Hl, ?Hf, ?Hk, Hn; (done || lia). Qed.

(** Decides a flag of a word built with constants. *)
Ltac flags_tac :=
  unfold pin_wf, count_of, low_flag, final_flag, locked_flag, PKCS11_CKFT_USER_PIN_INITIALIZED,
    PKCS11_CKFT_PROTECTED_AUTHENTICATION_PATH, PKCS11_CKFT_TOKEN_INITIALIZED, PKCS11_CKFT_USER_PIN_COUNT_LOW,
    PKCS11_CKFT_USER_PIN_FINAL_TRY, PKCS11_CKFT_USER_PIN_LOCKED, PKCS11_CKFT_SO_PIN_COUNT_LOW,
    PKCS11_CKFT_SO_PIN_FINAL_TRY, PKCS11_CKFT_SO_PIN_LOCKED in *;
  cbn [fst snd flags so_pin_count user_pin_count user_pin_salt set_flags set_so set_user put_count] in *;
  rewrite ?has_lor, ?has_ldiff, ?has_lor, ?has_ldiff in * by lia;
  repeat match goal with
  | |- context [Z.testbit ?m ?k] =>
      let v := eval vm_compute in (Z.testbit m k) in
      lazymatch v with true => idtac | false => idtac end; change (Z.testbit m k) with v
  | H : context [Z.testbit ?m ?k] |- _ =>
      let v := eval vm_compute in (Z.testbit m k) in
      lazymatch v with true => idtac | false => idtac end; change (Z.testbit m k) with v in H
  end;
  cbn [negb] in *; rewrite ?andb_true_r, ?andb_false_r, ?orb_false_r, ?orb_true_r in *.

(** The database with a new PIN for [u]: [cl] are the other flags to clear. *)
Definition new_pin_db (u : pkcs11_user_type) (cl s : Z) (a : list Z) (m : token_persistent_main) : token_persistent_main :=
  match u with
  | PKCS11_CKU_SO => set_flags (Z.ldiff (flags m) (Z.lor cl so_pin_flags)) (set_so 0 s a m)
  | PKCS11_CKU_USER =>
      set_flags (Z.lor (Z.ldiff (flags m) (Z.lor cl user_pin_flags)) PKCS11_CKFT_USER_PIN_INITIALIZED) (set_user 0 s a m)
  end.

Lemma new_pin_db_ok u cl s a m : db_ok m ->
  (cl = 0 /\ (s <> 0 \/ has (flags m) PKCS11_CKFT_PROTECTED_AUTHENTICATION_PATH = true)) \/
  (cl = PKCS11_CKFT_PROTECTED_AUTHENTICATION_PATH /\ s <> 0 /\
   has (flags m) PKCS11_CKFT_USER_PIN_INITIALIZED = false) ->
  db_ok (new_pin_db u cl s a m).
Proof.
  intros [Hs Hu Hk] Hc. destruct u; destruct Hc as [[-> Hc]|(-> & Hc & Hi)]; split; intros; unfold new_pin_db in *;
    flags_tac; try congruence; try (by apply pin_ok_zero; simpl; flags_tac);
    try (by (eapply pin_ok_ext; [..|by eauto]); simpl; flags_tac); try by eauto.
  by destruct Hc; [|congruence].
Qed.

(** A database in which the failures of [u] are counted anew. *)
Lemma put_count_ok u p m : db_ok m -> pin_ok (low_flag u) (final_flag u) (locked_flag u) p ->
  (forall k, 0 <= k -> Z.testbit (Z.lor (low_flag u) (Z.lor (final_flag u) (locked_flag u))) k = false ->
     has (fst p) (2 ^ k) = has (flags m) (2 ^ k)) ->
  db_ok (put_count u p m).
Proof.
  destruct p as [fl n]. intros [Hs Hu Hk] Hp Ho. cbn [fst] in Ho.
  assert (has fl (2 ^ 3) = has (flags m) (2 ^ 3)) as H3 by (apply Ho; [lia | by destruct u]).
  assert (has fl (2 ^ 8) = has (flags m) (2 ^ 8)) as H8 by (apply Ho; [lia | by destruct u]).
  destruct u; split; intros; flags_tac; rewrite ?H3, ?H8 in *; try done; try by eauto.
  - eapply pin_ok_ext; [..|by eauto]; simpl; try apply Ho; try lia; try done.
  - eapply pin_ok_ext; [..|exact Hs]; simpl; try apply Ho; try lia; try done.
Qed.

Lemma fail_count_ok u m : db_ok m -> pin_wf u m -> snd (count_of u m) < 7 ->
  db_ok (put_count u (fail_count u (count_of u m)) m).
Proof.
  intros Hm Hw Hn. apply put_count_ok; [done | by apply fail_count_wf|]. intros k Hk Hb.
  rewrite !Z.lor_spec in Hb. apply orb_false_iff in Hb as [Ha [Hb Hc]%orb_false_iff].
  unfold fail_count. destruct u; unfold low_flag, final_flag, locked_flag in *;
    [apply (count_failure_other 20 21 22) | apply (count_failure_other 16 17 18)]; try lia;
    intros ->; try discriminate Ha; try discriminate Hb; discriminate Hc.
Qed.

Lemma reset_count_ok u m : db_ok m -> db_ok (put_count u (reset_count u m) m).
Proof.
  intros Hm. apply put_count_ok; [done| |].
  - destruct u; apply pin_ok_zero; unfold reset_count; flags_tac; try done; cbn [fst]; flags_tac; done.
  - intros k Hk Hb. unfold reset_count. cbn [fst]. rewrite has_ldiff by done. rewrite Z.lor_assoc in Hb.
    by rewrite Hb, andb_true_r.
Qed.

(** ** What each operation does to the database *)

(** The token can be authenticated to as [u] with a PIN. *)
Definition pin_mode (u : pkcs11_user_type) (m : token_persistent_main) : Prop :=
  has (flags m) PKCS11_CKFT_PROTECTED_AUTHENTICATION_PATH = false /\
  match u with
  | PKCS11_CKU_SO => has (flags m) PKCS11_CKFT_TOKEN_INITIALIZED = true
  | PKCS11_CKU_USER => has (flags m) PKCS11_CKFT_USER_PIN_INITIALIZED = true
  end.

Definition check_pin (u : pkcs11_user_type) : tee_env -> option (list Z) -> M token_db unit :=
  match u with PKCS11_CKU_SO => check_so_pin sha256 | PKCS11_CKU_USER => check_user_pin sha256 end.

Lemma pin_mode_wf u m : db_ok m -> pin_mode u m -> pin_wf u m.
Proof. intros [] [_ H]. destruct u; auto. Qed.

Lemma check_pin_run u e pin m : db_ok m -> pin_mode u m -> storage_ok e ->
  check_pin u e pin (synced m) =
  if snd (count_of u m) =? 7 then (Err PKCS11_CKR_PIN_LOCKED, synced m)
  else tried u (pin_rc e u pin (salt_of u m) (auth_of u m)) m.
Proof.
  intros Hm Hu He. pose proof (pin_mode_wf u m Hm Hu) as [Hr _ _ Hk]. destruct Hu as [Hp Hi].
  assert (has (flags m) (locked_flag u) = (snd (count_of u m) =? 7)) as Hl
    by (change (flags m) with (fst (count_of u m)); rewrite Hk; lia).
  destruct u; unfold check_pin, check_so_pin, check_user_pin, locked_flag in *;
    rewrite (bind_run _ _ _ _ _ (eq_refl : get (synced m) = (Ret (synced m), synced m))); cbn [db_main synced];
    rewrite Hi, Hp.
  - rewrite (bind_run _ _ _ _ _ (eq_refl : assert_ true _ = _)), Hl. case_test; bool_hyps; [done|].
    apply try_pin_run; [done | by apply (ok_so m) | lia].
  - rewrite (bind_run _ _ _ _ _ (eq_refl : guard_err (negb true) _ _ = _)).
    rewrite (proj2 (Z.eqb_neq _ _)) by (by apply (ok_salt m)).
    rewrite (bind_run _ _ _ _ _ (eq_refl : assert_ (negb false) _ = _)), Hl. case_test; bool_hyps; [done|].
    apply try_pin_run; [done | by apply (ok_user m) | lia].
Qed.

(** The run ends with a return code and a stored database that satisfies the invariant. *)
Definition sound (r : outcome unit * token_db) (m : token_persistent_main) : Prop :=
  exists m', snd r = synced m' /\ db_ok m' /\ (fst r = Ret tt \/ exists rc, fst r = Err rc /\ rc <> 0) /\
    (has (flags m) PKCS11_CKFT_TOKEN_INITIALIZED = true -> has (flags m') PKCS11_CKFT_TOKEN_INITIALIZED = true).

Lemma sound_err m rc : db_ok m -> rc <> 0 -> sound (Err rc, synced m) m.
Proof. intros Hm Hrc. exists m. split_and!; [done | done | by right; exists rc | done]. Qed.

Lemma put_count_init u m p : has (fst p) PKCS11_CKFT_TOKEN_INITIALIZED = has (flags m) PKCS11_CKFT_TOKEN_INITIALIZED ->
  has (flags m) PKCS11_CKFT_TOKEN_INITIALIZED = true ->
  has (flags (put_count u p m)) PKCS11_CKFT_TOKEN_INITIALIZED = true.
Proof. intros E H. unfold put_count. by rewrite <- E in H. Qed.

Lemma fail_count_init u p :
  has (fst (fail_count u p)) PKCS11_CKFT_TOKEN_INITIALIZED = has (fst p) PKCS11_CKFT_TOKEN_INITIALIZED.
Proof.
  unfold fail_count, PKCS11_CKFT_TOKEN_INITIALIZED.
  destruct u; [by apply (count_failure_other 20 21 22) | by apply (count_failure_other 16 17 18)].
Qed.

Lemma tried_sound u rc m : db_ok m -> pin_wf u m -> snd (count_of u m) < 7 -> sound (tried u rc m) m.
Proof.
  intros Hm Hw Hn. unfold tried. destruct (rc =? 0) eqn:E0; bool_hyps; [|destruct (rc =? _) eqn:E; bool_hyps].
  - eexists. split; [done|]. split; [by apply reset_count_ok|]. split; [by left|].
    apply put_count_init. unfold reset_count. cbn [fst]. destruct u; flags_tac; done.
  - eexists. split; [done|]. split; [by apply fail_count_ok|].
    split; [right; eexists; split; [done | by case_test]|].
    apply put_count_init. by rewrite fail_count_init.
  - by apply sound_err.
Qed.

Lemma verify_identity_run e u m : has (flags m) PKCS11_CKFT_PROTECTED_AUTHENTICATION_PATH = true ->
  exists o, verify_identity_auth e u (synced m) = (o, synced m) /\
    (o = Ret tt \/ exists rc, o = Err rc /\ rc <> 0).
Proof.
  intros Hp. unfold verify_identity_auth, bind, get, assert_. cbn [db_main synced]. rewrite Hp. unfold ret at 1.
  destruct (e_identity e); [case_bool_decide|]; eauto 6.
Qed.

Lemma check_pin_sound u e pin m : db_ok m -> storage_ok e ->
  (u = PKCS11_CKU_SO -> has (flags m) PKCS11_CKFT_TOKEN_INITIALIZED = true) -> sound (check_pin u e pin (synced m)) m.
Proof.
  intros Hm He Hi. destruct (has (flags m) PKCS11_CKFT_PROTECTED_AUTHENTICATION_PATH) eqn:Hp.
  - destruct (verify_identity_run e u m Hp) as (o & E & Ho).
    assert (sound (o, synced m) m) as Hs by (exists m; split_and!; done).
    destruct u; unfold check_pin, check_so_pin, check_user_pin;
      rewrite (bind_run _ _ _ _ _ (eq_refl : get (synced m) = (Ret (synced m), synced m))); cbn [db_main synced].
    + rewrite Hi by done. rewrite (bind_run _ _ _ _ _ (eq_refl : assert_ true _ = _)), Hp. by rewrite E.
    + destruct (has (flags m) PKCS11_CKFT_USER_PIN_INITIALIZED) eqn:Hu; [|by apply sound_err].
      rewrite (bind_run _ _ _ _ _ (eq_refl : guard_err (negb true) _ _ = _)), Hp. by rewrite E.
  - assert (pin_mode u m -> sound (check_pin u e pin (synced m)) m) as Hmode.
    { intros Hu. rewrite check_pin_run by done. case_test; bool_hyps; [by apply sound_err|].
      pose proof (pin_mode_wf u m Hm Hu) as Hw. pose proof (po_range _ _ _ _ Hw). apply tried_sound; [done|done|lia]. }
    destruct u; [by apply Hmode; split; auto|].
    destruct (has (flags m) PKCS11_CKFT_USER_PIN_INITIALIZED) eqn:Hu; [by apply Hmode|].
    unfold check_pin, check_user_pin, bind, get. cbn [db_main synced]. rewrite Hu. by apply sound_err.
Qed.

Lemma hash_pin_run {S} e u pin : storage_ok e ->
  (exists rc, rc <> 0 /\ forall s : S, hash_pin sha256 e u pin s = (Err rc, s)) \/
  (exists salt h, salt <> 0 /\ forall s : S, hash_pin sha256 e u pin s = (Ret (salt, h), s)).
Proof.
  intros He. unfold hash_pin. set (salt := if _ =? 0 then 1 else _).
  assert (salt <> 0) as Hs by (unfold salt; case_test; bool_hyps; done).
  destruct (@do_hash_run S e u pin salt) as [(rc & H & _ & E)|(h & E)]; [left; exists rc | right; exists salt, h];
    (split; [done|]); intros s; unfold bind; by rewrite E.
Qed.

Lemma set_pin_hash_sound e u pin cl m : db_ok m -> storage_ok e ->
  cl = 0 \/ (cl = PKCS11_CKFT_PROTECTED_AUTHENTICATION_PATH /\ has (flags m) PKCS11_CKFT_USER_PIN_INITIALIZED = false) ->
  sound (set_pin_hash sha256 e u pin cl (synced m)) m.
Proof.
  intros Hm He Hc. unfold set_pin_hash. destruct (_ || _); [by apply sound_err|].
  rewrite (bind_run _ _ _ _ _ (eq_refl : guard_err false _ _ = _)).
  destruct (@hash_pin_run token_db e u pin He) as [(rc & Hrc & E)|(salt & h & Hs & E)].
  - unfold bind. rewrite E. by apply sound_err.
  - rewrite (bind_run _ _ _ _ _ (E _)). unfold synced at 1. rewrite (bind_run _ _ _ _ _ (with_main_run _ _ _)).
    rewrite update_run by done. exists (new_pin_db u cl salt h m). split; [by destruct u|].
    split; [apply new_pin_db_ok; [done | by destruct Hc as [->|[-> ?]]; [left; auto | right]]|]. split; [by left|].
    intros Hi. destruct u; unfold new_pin_db; destruct Hc as [->|[-> ?]]; flags_tac; by rewrite Hi.
Qed.

Lemma setup_identity_run e u pin m m' : has (flags m) PKCS11_CKFT_PROTECTED_AUTHENTICATION_PATH = true ->
  (exists rc, setup_identity_auth_from_pin e u pin (mk_token_db m m') = (Err rc, mk_token_db m m') /\ rc <> 0) \/
  (exists a, setup_identity_auth_from_pin e u pin (mk_token_db m m') = (Ret tt, mk_token_db (new_pin_db u 0 0 a m) m')).
Proof.
  intros Hp. unfold setup_identity_auth_from_pin.
  rewrite (bind_run _ _ _ _ _ (eq_refl : get (mk_token_db m m') = (Ret _, _))). cbn [db_main].
  rewrite Hp, (bind_run _ _ _ _ _ (eq_refl : assert_ true _ = _)).
  assert (forall i, exists a, with_main (fun m => match u with
    | PKCS11_CKU_SO => set_flags (Z.ldiff (flags m) so_pin_flags) (set_so 0 0 (put_identity i (so_auth m)) m)
    | PKCS11_CKU_USER => set_flags (Z.lor (Z.ldiff (flags m) user_pin_flags) PKCS11_CKFT_USER_PIN_INITIALIZED)
          (set_user 0 0 (put_identity i (user_auth m)) m) end) (mk_token_db m m') =
    (Ret tt, mk_token_db (new_pin_db u 0 0 a m) m')) as Hset by (intros i; destruct u; by eexists).
  destruct pin as [p|].
  - unfold bind, guard_err. destruct (negb _); [left; by eexists|]. unfold ret at 1.
    destruct (parse_acl p) as [i|]; [right; apply Hset | left; by eexists].
  - unfold bind. destruct (e_identity e) as [i|]; [right; apply Hset | left; by eexists].
Qed.

Lemma set_pin_sound e rw pin u m : db_ok m -> storage_ok e -> sound (set_pin sha256 e rw pin u (synced m)) m.
Proof.
  intros Hm He. unfold set_pin.
  rewrite (bind_run _ _ _ _ _ (eq_refl : get (synced m) = (Ret (synced m), synced m))). cbn [db_main synced].
  destruct (has (flags m) PKCS11_CKFT_WRITE_PROTECTED); [by apply sound_err|].
  rewrite (bind_run _ _ _ _ _ (eq_refl : guard_err false _ _ = _)).
  destruct rw; [|by apply sound_err]. rewrite (bind_run _ _ _ _ _ (eq_refl : guard_err (negb true) _ _ = _)).
  destruct (has (flags m) PKCS11_CKFT_PROTECTED_AUTHENTICATION_PATH) eqn:Hp.
  - destruct (setup_identity_run e u pin m m Hp) as [(rc & E & Hrc)|(a & E)].
    + assert (rc_of (setup_identity_auth_from_pin e u pin) (synced m) = (Ret rc, synced m)) as E1
        by (unfold rc_of, synced; by rewrite E).
      rewrite (bind_run _ _ _ _ _ E1). rewrite (proj2 (Z.eqb_neq rc PKCS11_CKR_OK)) by done.
      destruct (_ && _) eqn:G; [|by apply sound_err]. bool_hyps. apply set_pin_hash_sound; auto.
    + assert (rc_of (setup_identity_auth_from_pin e u pin) (synced m) = (Ret 0, mk_token_db (new_pin_db u 0 0 a m) m)) as E1
        by (unfold rc_of, synced; by rewrite E).
      rewrite (bind_run _ _ _ _ _ E1). cbn [Z.eqb PKCS11_CKR_OK]. rewrite update_run by done.
      eexists. split; [done|]. split; [apply new_pin_db_ok; [done|]; left; auto|]. split; [by left|].
      intros Hi. destruct u; unfold new_pin_db; flags_tac; by rewrite Hi.
  - assert (sound (set_pin_hash sha256 e u pin 0 (synced m)) m) as Hh by (apply set_pin_hash_sound; auto).
    destruct u, pin; try exact Hh.
    destruct (has (flags m) PKCS11_CKFT_USER_PIN_INITIALIZED) eqn:Hu; cbn [negb]; [exact Hh|].
    unfold synced at 1. rewrite (bind_run _ _ _ _ _ (with_main_run _ _ _)).
    set (m1 := set_flags (Z.lor (flags m) PKCS11_CKFT_PROTECTED_AUTHENTICATION_PATH) m).
    assert (has (flags m1) PKCS11_CKFT_PROTECTED_AUTHENTICATION_PATH = true) as Hp1 by (unfold m1; flags_tac; done).
    assert (db_ok m1) as Hm1.
    { unfold m1. destruct Hm as [Hs Hu' Hk]. split; intros; flags_tac; try congruence.
      by eapply pin_ok_ext; [..|exact Hs]; cbn [fst snd]; flags_tac. }
    destruct (setup_identity_run e PKCS11_CKU_SO None m1 m Hp1) as [(rc & E & Hrc)|(a & E)].
    + assert (rc_of (setup_identity_auth_from_pin e PKCS11_CKU_SO None) (mk_token_db m1 m) = (Ret rc, mk_token_db m1 m)) as E1
        by (unfold rc_of; by rewrite E).
      rewrite (bind_run _ _ _ _ _ E1). rewrite (proj2 (Z.eqb_neq rc 0)) by done. cbn [negb].
      rewrite (bind_run _ _ _ _ _ (with_main_run _ _ _)).
      replace (set_flags _ m1) with m; [by apply sound_err|]. unfold m1. cbn [set_flags flags].
      destruct m as [l fl sc ss sa uc us ua]. unfold set_flags. cbn [label flags so_pin_count so_pin_salt so_auth
        user_pin_count user_pin_salt user_auth]. f_equal. by rewrite ldiff_lor.
    + assert (rc_of (setup_identity_auth_from_pin e PKCS11_CKU_SO None) (mk_token_db m1 m) =
        (Ret 0, mk_token_db (new_pin_db PKCS11_CKU_SO 0 0 a m1) m)) as E1 by (unfold rc_of; by rewrite E).
      rewrite (bind_run _ _ _ _ _ E1). cbn [Z.eqb negb]. rewrite update_run by done.
      eexists. split; [done|]. split; [apply new_pin_db_ok; [done|]; left; auto|]. split; [by left|].
      intros Hi. unfold new_pin_db, m1; flags_tac; rewrite ?Hi; done.
Qed.

Lemma token_initialize_sound e l pin m : db_ok m -> storage_ok e ->
  has (flags m) PKCS11_CKFT_SO_PIN_LOCKED = false -> sound (token_initialize sha256 e l pin (synced m)) m.
Proof.
  intros Hm He Hl. unfold token_initialize.
  rewrite (bind_run _ _ _ _ _ (eq_refl : get (synced m) = (Ret (synced m), synced m))). cbn [db_main synced].
  set (auth := if has (flags m) PKCS11_CKFT_TOKEN_INITIALIZED then _ else _).
  assert ((exists m', auth (synced m) = (Ret tt, mk_token_db m' m)) \/
          (exists rc m', auth (synced m) = (Err rc, synced m') /\ sound (Err rc, synced m') m)) as Ha.
  { unfold auth. destruct (has (flags m) PKCS11_CKFT_TOKEN_INITIALIZED) eqn:Hi.
    - destruct (has (flags m) PKCS11_CKFT_PROTECTED_AUTHENTICATION_PATH) eqn:Hp.
      + destruct (verify_identity_run e PKCS11_CKU_SO m Hp) as (o & E & [->|(rc & -> & Hrc)]); rewrite E;
          [left; by exists m | right; exists rc, m; split; [done | by apply sound_err]].
      + rewrite (bind_run _ _ _ _ _ (verify_pin_run _ _ _ _ _ _)). set (rc := pin_rc _ _ _ _ _).
        destruct (rc =? 0) eqn:E0; bool_hyps; [left; by exists m|]. right.
        destruct (rc =? PKCS11_CKR_PIN_INCORRECT) eqn:E1; cbn [negb]; bool_hyps;
          [|exists rc, m; split; [done | by apply sound_err]].
        unfold synced at 1. rewrite (bind_run _ _ _ _ _ (with_main_run _ _ _)), (bind_run _ _ _ _ _ (update_run e _ _ He)).
        do 2 eexists. split; [done|]. pose proof (tried_sound PKCS11_CKU_SO rc m Hm (ok_so m Hm)) as Hs.
        unfold tried in Hs. rewrite E1 in Hs.
        destruct (Hs ltac:(pose proof (po_locked _ _ _ _ (ok_so m Hm)) as Hk; cbn [count_of fst snd] in Hk |- *;
          unfold locked_flag in Hk; rewrite Hl in Hk; pose proof (po_range _ _ _ _ (ok_so m Hm)); cbn [count_of snd] in *; lia))
          as (m' & A & B & C & D).
        exists m'. split; [exact A|]. split; [exact B|]. split; [right; by eexists | exact D].
    - destruct pin as [p|].
      + destruct (_ || _); [right; exists PKCS11_CKR_ARGUMENTS_BAD, m; split; [done | by apply sound_err]|].
        rewrite (bind_run _ _ _ _ _ (eq_refl : guard_err false _ _ = _)).
        destruct (@hash_pin_run token_db e PKCS11_CKU_SO (Some p) He) as [(rc & Hrc & E)|(salt & h & Hs & E)].
        * right. exists rc, m. unfold bind. rewrite E. split; [done | by apply sound_err].
        * left. rewrite (bind_run _ _ _ _ _ (E _)). by eexists.
      + unfold setup_so_identity_auth_from_client. destruct (e_identity e); [left; by eexists|].
        right. exists PKCS11_CKR_PIN_INVALID, m. split; [done | by apply sound_err]. }
  destruct Ha as [(m' & E)|(rc & m' & E & Hs)]; [|unfold bind at 1; by rewrite E].
  rewrite (bind_run _ _ _ _ _ E), (bind_run _ _ _ _ _ (with_main_run _ _ _)), update_run by done.
  eexists. split; [done|]. split; [|split; [by left | intros _; flags_tac; done]].
  split; intros; flags_tac; try done. apply pin_ok_zero; cbn [fst snd]; flags_tac; done.
Qed.

(** ** Sequences of tries *)

(** The state after a sequence of tries. *)
Fixpoint try_all (u : pkcs11_user_type) (es : list (tee_env * option (list Z))) (t : token_db) : token_db :=
  match es with
  | [] => t
  | (e, p) :: r => try_all u r (snd (check_pin u e p t))
  end.

Lemma fail_count_other u p k : In k [3; 8; 10] -> has (fst (fail_count u p)) (2 ^ k) = has (fst p) (2 ^ k).
Proof.
  intros Hk. unfold fail_count.
  destruct u; [apply (count_failure_other 20 21 22) | apply (count_failure_other 16 17 18)];
    simpl in Hk; destruct Hk as [<-|[<-|[<-|[]]]]; lia.
Qed.

Lemma pin_mode_fail u m : pin_mode u m -> pin_mode u (put_count u (fail_count u (count_of u m)) m).
Proof.
  intros [Hp Hi]. assert (forall k, In k [3; 8; 10] ->
    has (flags (put_count u (fail_count u (count_of u m)) m)) (2 ^ k) = has (flags m) (2 ^ k)) as Hk
    by (intros k Hk; destruct u; exact (fail_count_other _ _ k Hk)).
  split; [|destruct u].
  - unfold PKCS11_CKFT_PROTECTED_AUTHENTICATION_PATH in *. rewrite (Hk 8); [done | simpl; tauto].
  - unfold PKCS11_CKFT_TOKEN_INITIALIZED in *. rewrite (Hk 10); [done | simpl; tauto].
  - unfold PKCS11_CKFT_USER_PIN_INITIALIZED in *. rewrite (Hk 3); [done | simpl; tauto].
Qed.

(** One wrong try: the counter goes up until it is 7. *)
Lemma wrong_try u e p m : db_ok m -> pin_mode u m -> storage_ok e ->
  pin_rc e u p (salt_of u m) (auth_of u m) = PKCS11_CKR_PIN_INCORRECT ->
  exists m', snd (check_pin u e p (synced m)) = synced m' /\ db_ok m' /\ pin_mode u m' /\
    salt_of u m' = salt_of u m /\ auth_of u m' = auth_of u m /\
    snd (count_of u m') = Z.min 7 (snd (count_of u m) + 1).
Proof.
  intros Hm Hu He Hrc. rewrite check_pin_run by done. rewrite Hrc.
  pose proof (pin_mode_wf u m Hm Hu) as Hw. pose proof (po_range _ _ _ _ Hw).
  destruct (snd (count_of u m) =? 7) eqn:E; bool_hyps.
  - exists m. split_and!; try done. lia.
  - destruct (fail_count_wf u (count_of u m) Hw ltac:(lia)) as [_ Hc].
    exists (put_count u (fail_count u (count_of u m)) m). destruct (auth_of_put u u (fail_count u (count_of u m)) m) as [-> ->].
    split_and!; try done; [by apply fail_count_ok; [| |lia] | by apply pin_mode_fail | rewrite count_of_put; lia].
Qed.

Lemma wrong_tries u es m : db_ok m -> pin_mode u m ->
  Forall (fun ep => storage_ok ep.1 /\ pin_rc ep.1 u ep.2 (salt_of u m) (auth_of u m) = PKCS11_CKR_PIN_INCORRECT) es ->
  exists m', try_all u es (synced m) = synced m' /\ db_ok m' /\ pin_mode u m' /\
    salt_of u m' = salt_of u m /\ auth_of u m' = auth_of u m /\
    snd (count_of u m') = Z.min 7 (snd (count_of u m) + lenZ es).
Proof.
  revert m. induction es as [|[e p] es IH]; intros m Hm Hu Hes.
  - exists m. pose proof (po_range _ _ _ _ (pin_mode_wf u m Hm Hu)). change (lenZ []) with 0.
    split_and!; try done. lia.
  - apply Forall_cons in Hes as [[He Hrc] Hes]. cbn [try_all fst snd] in *.
    destruct (wrong_try u e p m Hm Hu He Hrc) as (m1 & -> & Hm1 & Hu1 & Hs1 & Ha1 & Hc1).
    destruct (IH m1 Hm1 Hu1) as (m2 & -> & Hm2 & Hu2 & Hs2 & Ha2 & Hc2); [by rewrite Hs1, Ha1|].
    exists m2. split_and!; try done; try congruence. rewrite Hc2, Hc1. unfold lenZ. cbn [length]. lia.
Qed.

(** C17. Guessing a PIN. From a token whose counters are consistent, in PIN mode, after any sequence
    of tries with wrong PINs: as long as the failures since the last success are fewer than 7 the
    right PIN is accepted, and resets the counter; from the seventh failure on every PIN, right or
    wrong, is refused with PIN_LOCKED and nothing changes. The database in the storage is always the
    one in memory, so restarting does not bring tries back. *)
Theorem pin_lockout u m es : db_ok m -> pin_mode u m ->
  Forall (fun ep => storage_ok ep.1 /\ pin_rc ep.1 u ep.2 (salt_of u m) (auth_of u m) = PKCS11_CKR_PIN_INCORRECT) es ->
  let t := try_all u es (synced m) in
  stored t = db_main t /\
  (snd (count_of u m) + lenZ es < 7 -> forall e p, storage_ok e -> pin_rc e u p (salt_of u m) (auth_of u m) = 0 ->
     exists t', check_pin u e p t = (Ret tt, t') /\ snd (count_of u (db_main t')) = 0) /\
  (7 <= snd (count_of u m) + lenZ es -> forall e p, storage_ok e -> check_pin u e p t = (Err PKCS11_CKR_PIN_LOCKED, t)).
Proof.
  intros Hm Hu Hes t. destruct (wrong_tries u es m Hm Hu Hes) as (m' & E & Hm' & Hu' & Hs & Ha & Hc).
  unfold t. rewrite E. split; [done|]. split.
  - intros Hn e p He Hrc. rewrite check_pin_run by done. rewrite (proj2 (Z.eqb_neq _ 7)) by lia.
    rewrite Hs, Ha, Hrc. eexists. split; [done|]. cbn [db_main synced]. by rewrite count_of_put.
  - intros Hn e p He. rewrite check_pin_run by done. by rewrite (proj2 (Z.eqb_eq _ 7)) by lia.
Qed.
(** ** Setting a PIN, then trying one *)

(** The bytes that stand for a PIN in the database. *)
Definition pin_digest (u : pkcs11_user_type) (salt : Z) (p : option (list Z)) : list Z :=
  let h := sha256 (le_bytes 4 (user_code u) ++ le_bytes 4 salt ++ default [] p) in
  h ++ replicate (TEE_MAX_HASH_SIZE - length h) 0.

Definition crypto_ok (e : tee_env) : Prop := e_alloc_op e = TEE_SUCCESS /\ e_digest e = TEE_SUCCESS.

Lemma pin_rc_digest e u p salt a : crypto_ok e ->
  pin_rc e u p salt a = if bool_decide (pin_digest u salt p = a) then 0 else PKCS11_CKR_PIN_INCORRECT.
Proof.
  intros [H1 H2]. unfold pin_rc, verify_pin, do_hash, bind. rewrite H1, H2. cbn [negb Z.eqb TEE_SUCCESS ret].
  fold (pin_digest u salt p). by case_bool_decide.
Qed.

Lemma hash_pin_ok {S} e u p (s : S) : crypto_ok e -> exists salt, salt <> 0 /\
  hash_pin sha256 e u p s = (Ret (salt, pin_digest u salt p), s).
Proof.
  intros [H1 H2]. unfold hash_pin. set (salt := if _ =? 0 then 1 else _). exists salt.
  split; [unfold salt; case_test; bool_hyps; done|]. unfold do_hash, bind. by rewrite H1, H2.
Qed.

Definition pin_len_ok (p : option (list Z)) : Prop :=
  PKCS11_TOKEN_PIN_SIZE_MIN <= pin_size p <= PKCS11_TOKEN_PIN_SIZE_MAX.

Lemma set_pin_hash_run e u p cl m : storage_ok e -> crypto_ok e -> pin_len_ok p ->
  exists salt, salt <> 0 /\
    set_pin_hash sha256 e u p cl (synced m) = (Ret tt, synced (new_pin_db u cl salt (pin_digest u salt p) m)).
Proof.
  intros Hs Hc [H1 H2]. unfold set_pin_hash.
  rewrite (proj2 (Z.ltb_ge _ _) H1), (proj2 (Z.ltb_ge _ _) H2).
  rewrite (bind_run _ _ _ _ _ (eq_refl : guard_err (false || false) _ _ = _)).
  destruct (hash_pin_ok e u p (synced m) Hc) as (salt & Hne & E). exists salt. split; [done|].
  rewrite (bind_run _ _ _ _ _ E). unfold synced at 1. rewrite (bind_run _ _ _ _ _ (with_main_run _ _ _)).
  rewrite update_run by done. by destruct u.
Qed.

Lemma set_pin_hash_path e u p m : has (flags m) PKCS11_CKFT_WRITE_PROTECTED = false ->
  has (flags m) PKCS11_CKFT_PROTECTED_AUTHENTICATION_PATH = false -> pin_len_ok p ->
  set_pin sha256 e true p u (synced m) = set_pin_hash sha256 e u p 0 (synced m).
Proof.
  intros Hw Hp [Hl _]. unfold set_pin.
  rewrite (bind_run _ _ _ _ _ (eq_refl : get (synced m) = (Ret (synced m), synced m))). cbn [db_main synced].
  rewrite Hw, Hp. rewrite (bind_run _ _ _ _ _ (eq_refl : guard_err false _ _ = _)).
  rewrite (bind_run _ _ _ _ _ (eq_refl : guard_err (negb true) _ _ = _)). destruct u, p; try done.
Qed.

(** A fresh PIN is tried from a clean counter. *)
Lemma new_pin_check u cl salt a m e q : db_ok (new_pin_db u cl salt a m) -> pin_mode u (new_pin_db u cl salt a m) ->
  storage_ok e ->
  fst (check_pin u e q (synced (new_pin_db u cl salt a m))) =
  let rc := pin_rc e u q salt a in if rc =? 0 then Ret tt else Err rc.
Proof.
  intros Hm Hu He. rewrite check_pin_run by done.
  replace (snd (count_of u (new_pin_db u cl salt a m))) with 0 by (by destruct u). cbn [Z.eqb].
  replace (salt_of u (new_pin_db u cl salt a m)) with salt by (by destruct u).
  replace (auth_of u (new_pin_db u cl salt a m)) with a by (by destruct u).
  cbv zeta. unfold tried. replace (snd (count_of u (new_pin_db u cl salt a m))) with 0 by (by destruct u).
  destruct (_ =? 0); [done|]. destruct (_ =? PKCS11_CKR_PIN_INCORRECT) eqn:E; bool_hyps; [by rewrite E | done].
Qed.

(** C34. Setting a PIN takes effect, while storage and the cryptographic services work. On an
    initialised token in PIN mode that is not write protected, a new PIN of 4 to 128 bytes set in a
    read/write session is stored at once, with a fresh counter; from then on a PIN is accepted exactly
    when its salted digest is the one of the new PIN, and refused as incorrect otherwise. The other
    user's PIN, salt and counter are untouched. *)
Theorem set_pin_check e e' u p q m : db_ok m -> storage_ok e -> crypto_ok e -> storage_ok e' -> crypto_ok e' ->
  has (flags m) PKCS11_CKFT_WRITE_PROTECTED = false ->
  has (flags m) PKCS11_CKFT_PROTECTED_AUTHENTICATION_PATH = false ->
  has (flags m) PKCS11_CKFT_TOKEN_INITIALIZED = true -> pin_len_ok p ->
  exists m' salt, set_pin sha256 e true p u (synced m) = (Ret tt, synced m') /\ db_ok m' /\ salt <> 0 /\
    (forall v, v <> u -> auth_of v m' = auth_of v m /\ salt_of v m' = salt_of v m /\
                        snd (count_of v m') = snd (count_of v m)) /\
    fst (check_pin u e' q (synced m')) =
      if bool_decide (pin_digest u salt q = pin_digest u salt p) then Ret tt else Err PKCS11_CKR_PIN_INCORRECT.
Proof.
  intros Hm He Hc He' Hc' Hw Hp Hi Hl. rewrite set_pin_hash_path by done.
  destruct (set_pin_hash_run e u p 0 m He Hc Hl) as (salt & Hne & E).
  assert (db_ok (new_pin_db u 0 salt (pin_digest u salt p) m)) as Hm' by (apply new_pin_db_ok; auto).
  eexists _, salt. split; [exact E|]. split; [done|]. split; [done|]. split; [by destruct u, v|].
  rewrite new_pin_check; [|done| |done].
  - rewrite pin_rc_digest by done. by case_bool_decide.
  - unfold pin_mode. destruct u; unfold new_pin_db; flags_tac; rewrite ?Hp, ?Hi; done.
Qed.

(** The two authentication modes mixed. On a token whose security officer is authenticated by
    its TEE identity, before the user's PIN is set, the officer setting the user's PIN to one that is
    no access control string puts the token in PIN mode: the officer is no longer recognised by
    identity but by a PIN whose digest would have to be the bytes of that identity. *)
Theorem init_pin_loses_so e e' p q m : db_ok m -> storage_ok e -> crypto_ok e -> storage_ok e' -> crypto_ok e' ->
  has (flags m) PKCS11_CKFT_WRITE_PROTECTED = false ->
  has (flags m) PKCS11_CKFT_PROTECTED_AUTHENTICATION_PATH = true ->
  has (flags m) PKCS11_CKFT_USER_PIN_INITIALIZED = false ->
  has (flags m) PKCS11_CKFT_TOKEN_INITIALIZED = true -> has (flags m) PKCS11_CKFT_SO_PIN_LOCKED = false ->
  e_malloc e (u64 (lenZ p + 1)) = true -> parse_acl p = None -> pin_len_ok (Some p) ->
  exists m', set_pin sha256 e true (Some p) PKCS11_CKU_USER (synced m) = (Ret tt, synced m') /\
    has (flags m') PKCS11_CKFT_PROTECTED_AUTHENTICATION_PATH = false /\ so_auth m' = so_auth m /\
    (fst (check_so_pin sha256 e' q (synced m')) = Ret tt -> pin_digest PKCS11_CKU_SO (so_pin_salt m) q = so_auth m).
Proof.
  intros Hm He Hc He' Hc' Hw Hp Hu Hi Hk Hmal Hacl Hl.
  destruct (set_pin_hash_run e PKCS11_CKU_USER (Some p) PKCS11_CKFT_PROTECTED_AUTHENTICATION_PATH m He Hc Hl)
    as (salt & Hne & E).
  set (m' := new_pin_db PKCS11_CKU_USER _ _ _ m) in *.
  assert (db_ok m') as Hm' by (apply new_pin_db_ok; auto).
  assert (pin_mode PKCS11_CKU_SO m') as Hmode
    by (unfold pin_mode, m', new_pin_db; flags_tac; rewrite Hi; done).
  exists m'. split; [|split; [apply Hmode|]; split; [done|]].
  - rewrite <- E. unfold set_pin.
    rewrite (bind_run _ _ _ _ _ (eq_refl : get (synced m) = (Ret (synced m), synced m))). cbn [db_main synced].
    rewrite Hw, Hp, Hu. rewrite (bind_run _ _ _ _ _ (eq_refl : guard_err false _ _ = _)).
    rewrite (bind_run _ _ _ _ _ (eq_refl : guard_err (negb true) _ _ = _)).
    unfold setup_identity_auth_from_pin, rc_of, bind, get, assert_, guard_err. cbn [db_main synced].
    by rewrite Hp, Hmal, Hacl.
  - change (check_so_pin sha256) with (check_pin PKCS11_CKU_SO). rewrite check_pin_run by done.
    pose proof (po_locked _ _ _ _ (ok_so m Hm)) as Hlk. pose proof (po_range _ _ _ _ (ok_so m Hm)) as Hr.
    cbn [count_of fst snd] in *. unfold locked_flag in Hlk. rewrite Hk in Hlk.
    change (so_pin_count m') with (so_pin_count m). rewrite (proj2 (Z.eqb_neq (so_pin_count m) 7)) by lia.
    rewrite pin_rc_digest by done. change (salt_of PKCS11_CKU_SO m') with (so_pin_salt m).
    change (auth_of PKCS11_CKU_SO m') with (so_auth m). by case_bool_decide.
Qed.

(** The authentication operations keep the token consistent. Whatever the PINs, the client's
    identity and the services' results, as long as the storage works: no assertion fails, the call
    ends with success or an error code, the counters and their flags agree, a user PIN in PIN mode
    has its salt, what is in memory is what is stored, and an initialised token stays initialised.
    [check_so_pin()] and the initialisation have the guard of their callers: the token is
    initialised, the officer's PIN is not locked. *)
Lemma token_auth_sound e m : db_ok m -> storage_ok e ->
  (forall p, has (flags m) PKCS11_CKFT_TOKEN_INITIALIZED = true -> sound (check_so_pin sha256 e p (synced m)) m) /\
  (forall p, sound (check_user_pin sha256 e p (synced m)) m) /\
  (forall rw p u, sound (set_pin sha256 e rw p u (synced m)) m) /\
  (forall l p, has (flags m) PKCS11_CKFT_SO_PIN_LOCKED = false ->
     sound (token_initialize sha256 e l p (synced m)) m).
Proof.
  intros Hm He. split_and!; intros.
  - by apply (check_pin_sound PKCS11_CKU_SO).
  - by apply (check_pin_sound PKCS11_CKU_USER).
  - by apply set_pin_sound.
  - by apply token_initialize_sound.
Qed.
End Checks.

(** ** Witnesses *)

Module Witness.
(** A stand-in for the digest, services that work, and a token initialised with the PIN "1234" on
    which the user's PIN is then set to "12345"; [dbi] is initialised by identity. *)
Definition digest (l : list Z) : list Z := take 32 l.
Definition env0 : tee_env := mk_env (Some (identity_bytes TEE_LOGIN_USER (replicate 16 7))) 9 0 0 0 0 (fun _ => true).
Definition so0 : option (list Z) := Some [49; 50; 51; 52].
Definition user0 : option (list Z) := Some [49; 50; 51; 52; 53].
Definition blank : token_persistent_main :=
  mk_main [] (Z.lor PKCS11_CKFT_RNG PKCS11_CKFT_LOGIN_REQUIRED) 0 0 (replicate 64 0) 0 0 (replicate 64 0).
Definition db0 : token_persistent_main := db_main (snd (token_initialize digest env0 [65] so0 (synced blank))).
Definition db1 : token_persistent_main := db_main (snd (set_pin digest env0 true user0 PKCS11_CKU_USER (synced db0))).
Definition dbi : token_persistent_main := db_main (snd (token_initialize digest env0 [65] None (synced blank))).

Ltac concrete_ok := split; [split| |]; vm_compute; try done; intros _; split; vm_compute; done.

Lemma db0_ok : db_ok db0.
Proof. concrete_ok. Defined.
Lemma db1_ok : db_ok db1.
Proof. concrete_ok. Defined.
Lemma dbi_ok : db_ok dbi.
Proof. concrete_ok. Defined.
End Witness.

(** Three tries with the officer's PIN leave the user four more; ten lock the user out. *)
Lemma pin_lockout_witness :
  exists t', check_pin Witness.digest PKCS11_CKU_USER Witness.env0 Witness.user0
    (try_all Witness.digest PKCS11_CKU_USER (replicate 3 (Witness.env0, Witness.so0)) (synced Witness.db1)) = (Ret tt, t') /\
    snd (count_of PKCS11_CKU_USER (db_main t')) = 0.
Proof.
  refine (proj1 (proj2 (pin_lockout Witness.digest PKCS11_CKU_USER Witness.db1 (replicate 3 (Witness.env0, Witness.so0))
    Witness.db1_ok _ _)) _ Witness.env0 Witness.user0 _ _); [by split; vm_compute| |done|by split|by vm_compute].
  repeat constructor; vm_compute; done.
Defined.

Lemma set_pin_check_witness :
  exists m' salt, set_pin Witness.digest Witness.env0 true Witness.user0 PKCS11_CKU_USER (synced Witness.db0) =
    (Ret tt, synced m') /\ db_ok m' /\ salt <> 0 /\
    (forall v, v <> PKCS11_CKU_USER -> auth_of v m' = auth_of v Witness.db0 /\ salt_of v m' = salt_of v Witness.db0 /\
       snd (count_of v m') = snd (count_of v Witness.db0)) /\
    fst (check_pin Witness.digest PKCS11_CKU_USER Witness.env0 Witness.user0 (synced m')) =
      if bool_decide (pin_digest Witness.digest PKCS11_CKU_USER salt Witness.user0 =
                      pin_digest Witness.digest PKCS11_CKU_USER salt Witness.user0)
      then Ret tt else Err PKCS11_CKR_PIN_INCORRECT.
Proof.
  apply (set_pin_check Witness.digest Witness.env0 Witness.env0 PKCS11_CKU_USER Witness.user0 Witness.user0 Witness.db0
    Witness.db0_ok); by split || by vm_compute.
Defined.

Lemma init_pin_loses_so_witness :
  exists m', set_pin Witness.digest Witness.env0 true Witness.user0 PKCS11_CKU_USER (synced Witness.dbi) =
    (Ret tt, synced m') /\
    has (flags m') PKCS11_CKFT_PROTECTED_AUTHENTICATION_PATH = false /\ so_auth m' = so_auth Witness.dbi /\
    (fst (check_so_pin Witness.digest Witness.env0 None (synced m')) = Ret tt ->
     pin_digest Witness.digest PKCS11_CKU_SO (so_pin_salt Witness.dbi) None = so_auth Witness.dbi).
Proof.
  apply (init_pin_loses_so Witness.digest Witness.env0 Witness.env0 [49; 50; 51; 52; 53] None Witness.dbi Witness.dbi_ok);
    by split || by vm_compute.
Defined.
