(* ===== verification/Pkcs11Session.v ===== *)
(** * Clients, sessions and objects of the PKCS#11 trusted application

    The session layer of [ta/pkcs11/src/pkcs11_token.c]: registration of clients, opening and closing
    of sessions, login and logout, the commands that set PINs and initialise a token; and the life
    of objects: [create_object()], [destroy_object()], the lookup of object handles and the commands
    of [object.c] that use them, with the list of persistent objects of [persistent_token.c].

    The state is the whole TA. Clients, sessions and objects are in the lists that link them: a
    client's sessions are the sessions of [w_sessions] that point to it, in the order of its
    [session_list], and the objects of a session or token are those of [w_objects] it owns. A
    pointer is an address; following one that is in no list is a use after free.

    Authentication is that of [Pkcs11Pin], the handle databases are those of [HandleDb.Pkcs11], and
    attributes and command arguments are read with [Pkcs11Attrs]. The services of the TEE are an
    argument. What frees memory only (active processing, search contexts) drops the reference. *)
From S2P Require Import Prelude HandleDb Pkcs11Attrs Pkcs11Pin.
#[local] Open Scope Z_scope.

Definition PKCS11_CKR_SLOT_ID_INVALID : Z := 0x0003.
Definition PKCS11_CKR_ACTION_PROHIBITED : Z := 0x001b.
Definition PKCS11_CKR_KEY_FUNCTION_NOT_PERMITTED : Z := 0x0068.
Definition PKCS11_CKR_OBJECT_HANDLE_INVALID : Z := 0x0082.
Definition PKCS11_CKR_OPERATION_ACTIVE : Z := 0x0090.
Definition PKCS11_CKR_OPERATION_NOT_INITIALIZED : Z := 0x0091.
Definition PKCS11_CKR_SESSION_HANDLE_INVALID : Z := 0x00b3.
Definition PKCS11_CKR_SESSION_PARALLEL_NOT_SUPPORTED : Z := 0x00b4.
Definition PKCS11_CKR_SESSION_EXISTS : Z := 0x00b6.
Definition PKCS11_CKR_SESSION_READ_ONLY_EXISTS : Z := 0x00b7.
Definition PKCS11_CKR_SESSION_READ_WRITE_SO_EXISTS : Z := 0x00b8.
Definition PKCS11_CKR_USER_ALREADY_LOGGED_IN : Z := 0x0100.
Definition PKCS11_CKR_USER_NOT_LOGGED_IN : Z := 0x0101.
Definition PKCS11_CKR_USER_TYPE_INVALID : Z := 0x0103.
Definition PKCS11_CKR_USER_ANOTHER_ALREADY_LOGGED_IN : Z := 0x0104.

Definition PKCS11_CKFSS_RW_SESSION : Z := 2 ^ 1.
Definition PKCS11_CKFSS_SERIAL_SESSION : Z := 2 ^ 2.

Definition PKCS11_CKA_CLASS : Z := 0x0000.
Definition PKCS11_CKA_TOKEN : Z := 0x0001.
Definition PKCS11_CKA_PRIVATE : Z := 0x0002.
Definition PKCS11_CKA_DESTROYABLE : Z := 0x0172.
Definition PKCS11_CKA_ALWAYS_AUTHENTICATE : Z := 0x0202.
Definition PKCS11_CKO_UNDEFINED_ID : Z := 0xFFFFFFFF.
Definition TEE_ERROR_ACCESS_DENIED : Z := 0xFFFF0001.

(** ** The state *)

Inductive pkcs11_session_state :=
| PKCS11_CKS_RO_PUBLIC_SESSION | PKCS11_CKS_RO_USER_FUNCTIONS
| PKCS11_CKS_RW_PUBLIC_SESSION | PKCS11_CKS_RW_USER_FUNCTIONS | PKCS11_CKS_RW_SO_FUNCTIONS.

Inductive pkcs11_proc_state :=
| PKCS11_SESSION_READY | PKCS11_SESSION_ENCRYPTING | PKCS11_SESSION_DECRYPTING | PKCS11_SESSION_DIGESTING
| PKCS11_SESSION_DIGESTING_ENCRYPTING | PKCS11_SESSION_DECRYPTING_DIGESTING | PKCS11_SESSION_SIGNING
| PKCS11_SESSION_SIGNING_ENCRYPTING | PKCS11_SESSION_VERIFYING | PKCS11_SESSION_DECRYPTING_VERIFYING
| PKCS11_SESSION_SIGNING_RECOVER | PKCS11_SESSION_VERIFYING_RECOVER | PKCS11_SESSION_BUSY.

(** The fields the session layer uses. *)
Record active_processing := mk_proc { p_state : pkcs11_proc_state; p_always_authen : bool }.

(** The handles found, and the index of the next one to return. *)
Record pkcs11_find_objects := mk_find { f_handles : list Z; f_next : Z }.

Record pkcs11_session := mk_session {
  s_addr : Z;
  s_client : Z;
  s_token : nat;
  s_handle : Z;
  s_state : pkcs11_session_state;
  s_processing : option active_processing;
  s_find_ctx : option pkcs11_find_objects;
}.

Record pkcs11_client := mk_client { c_addr : Z; c_session_db : handle_db; c_object_db : handle_db }.

(** The list an object is in. *)
Inductive owner := InSession (s : Z) | InToken (t : nat).

#[export] Instance owner_eq_dec : EqDecision owner.
Proof. solve_decision. Defined.
#[export] Instance state_eq_dec : EqDecision pkcs11_session_state.
Proof. solve_decision. Defined.

Record pkcs11_object := mk_object {
  o_addr : Z;
  o_owner : owner;
  o_attributes : option (list Z);       (* NULL until loaded, for a persistent object *)
  o_token : option nat;
  o_uuid : option (list Z);
}.

Inductive pkcs11_token_state := PKCS11_TOKEN_RESET | PKCS11_TOKEN_READ_WRITE | PKCS11_TOKEN_READ_ONLY.

Record ck_token := mk_ck_token {
  t_state : pkcs11_token_state;
  t_session_count : Z;
  t_rw_session_count : Z;
  t_db : token_db;
  t_objs : list (list Z);               (* db_objs: the UUIDs of the persistent objects *)
}.

Record world := mk_world {
  w_clients : list pkcs11_client;
  w_sessions : list pkcs11_session;
  w_objects : list pkcs11_object;
  w_tokens : list ck_token;
}.

(** What the TEE services do during a call. *)
Record ta_env := mk_ta_env {
  v_tee : tee_env;                      (* those of the authentication; TEE_Malloc(), TEE_Realloc() *)
  v_addr : option Z;                    (* TEE_Malloc() of a client, session or object *)
  v_junk : Z;                           (* what reallocated memory holds *)
  v_uuids : list (list Z);              (* TEE_GenerateRandom() of UUIDs, one draw after the other *)
  v_create : Z;                         (* TEE_CreatePersistentObject() *)
  v_open : Z;                           (* the system call that opens a persistent object by its UUID *)
  v_seek : Z;                           (* TEE_SeekObjectData() *)
  v_truncate : Z;                       (* TEE_TruncateObjectData() *)
}.

#[local] Notation W := (M world).

Definition set_sessions (l : list pkcs11_session) (w : world) : world :=
  mk_world (w_clients w) l (w_objects w) (w_tokens w).
Definition set_objects (l : list pkcs11_object) (w : world) : world :=
  mk_world (w_clients w) (w_sessions w) l (w_tokens w).
Definition set_clients (l : list pkcs11_client) (w : world) : world :=
  mk_world l (w_sessions w) (w_objects w) (w_tokens w).
Definition set_tokens (l : list ck_token) (w : world) : world :=
  mk_world (w_clients w) (w_sessions w) (w_objects w) l.

(** [p->...] *)
Definition deref {A} (addr : A -> Z) (p : Z) (l : list A) : W A :=
  of_opt UseAfterFree (List.find (fun x => addr x =? p) l).

Definition the_session (s : Z) : W pkcs11_session := let! w := get in deref s_addr s (w_sessions w).
Definition the_client (c : Z) : W pkcs11_client := let! w := get in deref c_addr c (w_clients w).
Definition the_object (o : Z) : W pkcs11_object := let! w := get in deref o_addr o (w_objects w).
Definition the_token (t : nat) : W ck_token := let! w := get in of_opt OutOfBounds (w_tokens w !! t).

Definition upd {A} (sel : A -> bool) (f : A -> A) (l : list A) : list A := (fun x => if sel x then f x else x) <$> l.

Definition upd_sessions (sel : pkcs11_session -> bool) (f : pkcs11_session -> pkcs11_session) : W unit :=
  modify (fun w => set_sessions (upd sel f (w_sessions w)) w).
Definition upd_client (c : Z) (f : pkcs11_client -> pkcs11_client) : W unit :=
  modify (fun w => set_clients (upd (fun x => c_addr x =? c) f (w_clients w)) w).
Definition upd_token (t : nat) (f : ck_token -> ck_token) : W unit :=
  modify (fun w => set_tokens (alter f t (w_tokens w)) w).

(** Running a call on a part of the state. *)
Definition in_session_db {A} (c : Z) (m : M handle_db A) : W A :=
  let! cl := the_client c in
  let '(o, db) := m (c_session_db cl) in
  do! upd_client c (fun x => mk_client (c_addr x) db (c_object_db x)) in
  fun w => (o, w).
Definition in_object_db {A} (c : Z) (m : M handle_db A) : W A :=
  let! cl := the_client c in
  let '(o, db) := m (c_object_db cl) in
  do! upd_client c (fun x => mk_client (c_addr x) (c_session_db x) db) in
  fun w => (o, w).
Definition in_token {A} (t : nat) (m : M token_db A) : W A :=
  let! tk := the_token t in
  let '(o, db) := m (t_db tk) in
  do! upd_token t (fun x => mk_ck_token (t_state x) (t_session_count x) (t_rw_session_count x) db (t_objs x)) in
  fun w => (o, w).
Definition on_block {A} (b : option (list Z)) (m : M (list Z) A) : W A :=
  let! b := of_opt OutOfBounds b in
  fun w => (fst (m b), w).

(** ** Sessions and clients (pkcs11_token.h, pkcs11_token.c) *)

Definition pkcs11_session_is_read_write (s : pkcs11_session) : bool :=
  match s_state s with
  | PKCS11_CKS_RW_PUBLIC_SESSION | PKCS11_CKS_RW_USER_FUNCTIONS | PKCS11_CKS_RW_SO_FUNCTIONS => true
  | _ => false
  end.
Definition pkcs11_session_is_public (s : pkcs11_session) : bool :=
  match s_state s with PKCS11_CKS_RO_PUBLIC_SESSION | PKCS11_CKS_RW_PUBLIC_SESSION => true | _ => false end.
Definition pkcs11_session_is_user (s : pkcs11_session) : bool :=
  match s_state s with PKCS11_CKS_RO_USER_FUNCTIONS | PKCS11_CKS_RW_USER_FUNCTIONS => true | _ => false end.
Definition pkcs11_session_is_so (s : pkcs11_session) : bool :=
  match s_state s with PKCS11_CKS_RW_SO_FUNCTIONS => true | _ => false end.

Definition set_state (st : pkcs11_session_state) (s : pkcs11_session) : pkcs11_session :=
  mk_session (s_addr s) (s_client s) (s_token s) (s_handle s) st (s_processing s) (s_find_ctx s).
Definition set_processing (p : option active_processing) (s : pkcs11_session) : pkcs11_session :=
  mk_session (s_addr s) (s_client s) (s_token s) (s_handle s) (s_state s) p (s_find_ctx s).
Definition set_find_ctx (f : option pkcs11_find_objects) (s : pkcs11_session) : pkcs11_session :=
  mk_session (s_addr s) (s_client s) (s_token s) (s_handle s) (s_state s) (s_processing s) f.

Definition is_session (a : Z) (s : pkcs11_session) : bool := s_addr s =? a.

(** The client's session list. *)
Definition session_list (c : Z) (w : world) : list pkcs11_session :=
  List.filter (fun s => s_client s =? c) (w_sessions w).

Definition get_token (token_id : Z) : W (option nat) :=
  let! w := get in
  ret (if token_id <? lenZ (w_tokens w) then Some (Z.to_nat token_id) else None).

Definition get_token_id (t : nat) : W Z :=
  let! w := get in
  do! assert_ (Z.of_nat t <? lenZ (w_tokens w)) in
  ret (Z.of_nat t).

(** 0 is NULL. *)
Definition tee_session2client (tee_session : Z) : W Z :=
  let! w := get in
  ret (if existsb (fun c => c_addr c =? tee_session) (w_clients w) then tee_session else 0).

Definition pkcs11_handle2session (handle client : Z) : W Z := in_session_db client (Pkcs11.handle_lookup handle).

Definition token_invalidate_object_handles (obj : Z) : W unit :=
  let! w := get in
  for_each (c_addr <$> w_clients w) (fun c =>
    let! handle := in_object_db c (Pkcs11.handle_lookup_handle obj) in
    if negb (handle =? 0) then in_object_db c (Pkcs11.handle_invalidate handle) else ret tt).

Definition register_client (v : ta_env) : W Z :=
  match v_addr v with
  | None => ret 0
  | Some a =>
      do! modify (fun w => set_clients (mk_client a (mk_db [] 0) (mk_db [] 0) :: w_clients w) w) in
      ret a
  end.

(** [release_active_processing()] and [release_session_find_obj_context()] *)
Definition release_active_processing (s : Z) : W unit := upd_sessions (is_session s) (set_processing None).
Definition release_session_find_obj_context (s : Z) : W unit := upd_sessions (is_session s) (set_find_ctx None).

Inductive processing_func :=
| PKCS11_FUNCTION_DIGEST | PKCS11_FUNCTION_GENERATE | PKCS11_FUNCTION_GENERATE_PAIR | PKCS11_FUNCTION_DERIVE
| PKCS11_FUNCTION_WRAP | PKCS11_FUNCTION_UNWRAP | PKCS11_FUNCTION_ENCRYPT | PKCS11_FUNCTION_DECRYPT
| PKCS11_FUNCTION_SIGN | PKCS11_FUNCTION_VERIFY | PKCS11_FUNCTION_SIGN_RECOVER | PKCS11_FUNCTION_VERIFY_RECOVER
| PKCS11_FUNCTION_IMPORT | PKCS11_FUNCTION_COPY | PKCS11_FUNCTION_MODIFY | PKCS11_FUNCTION_DESTROY
| PKCS11_FUNCTION_UNKNOWN.

(** The objects are given by their attributes. *)
Definition set_processing_state (v : ta_env) (s : Z) (function : processing_func) (obj1 obj2 : option pkcs11_object) :
    W unit :=
  let! se := the_session s in
  do! guard_err (match s_processing se with Some _ => true | None => false end) PKCS11_CKR_OPERATION_ACTIVE in
  let! state :=
    match function with
    | PKCS11_FUNCTION_ENCRYPT => ret PKCS11_SESSION_ENCRYPTING
    | PKCS11_FUNCTION_DECRYPT => ret PKCS11_SESSION_DECRYPTING
    | PKCS11_FUNCTION_SIGN => ret PKCS11_SESSION_SIGNING
    | PKCS11_FUNCTION_VERIFY => ret PKCS11_SESSION_VERIFYING
    | PKCS11_FUNCTION_DIGEST => ret PKCS11_SESSION_DIGESTING
    | PKCS11_FUNCTION_DERIVE | PKCS11_FUNCTION_WRAP | PKCS11_FUNCTION_UNWRAP => ret PKCS11_SESSION_BUSY
    | _ => panic
    end in
  do! guard_err (match v_addr v with Some _ => false | None => true end) PKCS11_CKR_DEVICE_MEMORY in
  let authen (o : option pkcs11_object) :=
    match o with Some o => on_block (o_attributes o) (get_bool PKCS11_CKA_ALWAYS_AUTHENTICATE) | None => ret false end in
  let! a1 := authen obj1 in
  let! a2 := authen obj2 in
  upd_sessions (is_session s) (set_processing (Some (mk_proc state (a1 || a2)))).

(** ** Persistent objects (persistent_token.c) *)

(** -1 when it is not there, or no UUID is given. *)
Definition get_persistent_obj_idx (uuids : list (list Z)) (uuid : option (list Z)) : Z :=
  match uuid with
  | None => -1
  | Some u => match list_find (fun x => x = u) uuids with Some (i, _) => Z.of_nat i | None => -1 end
  end.

Definition set_objs (l : list (list Z)) (t : ck_token) : ck_token :=
  mk_ck_token (t_state t) (t_session_count t) (t_rw_session_count t) (t_db t) l.

(** The UUID the loop ends with. *)
Definition create_object_uuid (v : ta_env) (t : nat) (obj : pkcs11_object) : W (Z * pkcs11_object) :=
  do! assert_ (match o_uuid obj with None => true | Some _ => false end) in
  if negb (e_malloc (v_tee v) 16) then ret (PKCS11_CKR_DEVICE_MEMORY, obj)
  else
    let! tk := the_token t in
    let! u := of_opt NoMoreRandom
      (List.find (fun u => negb (0 <=? get_persistent_obj_idx (t_objs tk) (Some u))) (v_uuids v)) in
    ret (PKCS11_CKR_OK, mk_object (o_addr obj) (o_owner obj) (o_attributes obj) (Some t) (Some u)).

(** The result is the return code. The write that fails leaves the new list in memory. *)
Definition unregister_persistent_object (v : ta_env) (t : nat) (uuid : option (list Z)) : W Z :=
  match uuid with
  | None => ret PKCS11_CKR_OK
  | Some u =>
      let! tk := the_token t in
      let idx := get_persistent_obj_idx (t_objs tk) (Some u) in
      if idx <? 0 then ret PKCS11_RV_NOT_FOUND
      else if negb (e_malloc (v_tee v) (4 + (lenZ (t_objs tk) - 1) * 16)) then ret PKCS11_CKR_DEVICE_MEMORY
      else if negb (e_open_db (v_tee v) =? TEE_SUCCESS) then ret (tee2pkcs_error (e_open_db (v_tee v)))
      else if negb (v_seek v =? TEE_SUCCESS) then ret (tee2pkcs_error (v_seek v))
      else
        do! upd_token t (fun x => set_objs (take (Z.to_nat idx) (t_objs tk) ++ drop (S (Z.to_nat idx)) (t_objs tk)) x) in
        ret (tee2pkcs_error (e_write_db (v_tee v)))
  end.

Definition register_persistent_object (v : ta_env) (t : nat) (uuid : list Z) : W Z :=
  let! tk := the_token t in
  if 0 <=? get_persistent_obj_idx (t_objs tk) (Some uuid) then panic
  else if negb (e_malloc (v_tee v) (4 + (lenZ (t_objs tk) + 1) * 16)) then ret PKCS11_CKR_DEVICE_MEMORY
  else if negb (e_open_db (v_tee v) =? TEE_SUCCESS) then ret (tee2pkcs_error (e_open_db (v_tee v)))
  else if negb (v_truncate v =? TEE_SUCCESS) then ret (tee2pkcs_error (v_truncate v))
  else if negb (v_seek v =? TEE_SUCCESS) then ret (tee2pkcs_error (v_seek v))
  else if negb (e_write_db (v_tee v) =? TEE_SUCCESS) then ret (tee2pkcs_error (e_write_db (v_tee v)))
  else
    do! upd_token t (fun x => set_objs (t_objs tk ++ [uuid]) x) in
    ret PKCS11_CKR_OK.

(** [TEE_OpenPersistentObject()] of libutee: results it does not expect from the system call panic
    the TA. The call refuses a NULL identifier. *)
Definition TEE_OpenPersistentObject (v : ta_env) (uuid : option (list Z)) : W Z :=
  let res := match uuid with Some _ => v_open v | None => TEE_ERROR_ACCESS_DENIED end in
  if (res =? TEE_SUCCESS) || (res =? TEE_ERROR_ITEM_NOT_FOUND) || (res =? TEE_ERROR_ACCESS_CONFLICT) ||
     (res =? TEE_ERROR_OUT_OF_MEMORY) || (res =? TEE_ERROR_CORRUPT_OBJECT) || (res =? TEE_ERROR_STORAGE_NOT_AVAILABLE)
  then ret res else panic.

(** [LIST_REMOVE(obj, link)] *)
Definition list_remove (obj : Z) : W unit :=
  modify (fun w => set_objects (List.filter (fun o => negb (o_addr o =? obj)) (w_objects w)) w).

Definition destroy_object_uuid (t : nat) (obj : pkcs11_object) : W unit :=
  let! tk := the_token t in
  assert_ (get_persistent_obj_idx (t_objs tk) (o_uuid obj) <? 0).

(** ** Objects (object.c) *)

Definition pkcs11_object2handle (obj c : Z) : W Z := in_object_db c (Pkcs11.handle_lookup_handle obj).

Definition cleanup_volatile_obj_ref (obj : Z) : W unit := list_remove obj.

Definition cleanup_persistent_object (v : ta_env) (obj : pkcs11_object) (t : nat) : W unit :=
  do! TEE_OpenPersistentObject v (o_uuid obj) in
  do! destroy_object_uuid t obj in
  cleanup_volatile_obj_ref (o_addr obj).

(** "Try twice otherwise panic!" *)
Definition unregister_twice (v : ta_env) (t : nat) (uuid : option (list Z)) : W unit :=
  let! rc := unregister_persistent_object v t uuid in
  if negb (rc =? 0) then
    let! rc := unregister_persistent_object v t uuid in
    if negb (rc =? 0) then panic else ret tt
  else ret tt.

(** [handle_put(get_object_handle_db(session), pkcs11_object2handle(obj, session))] *)
Definition put_object_handle (c obj : Z) : W unit :=
  let! handle := pkcs11_object2handle obj c in
  do! in_object_db c (Pkcs11.handle_put handle) in ret tt.

Definition destroy_object (v : ta_env) (s obj : Z) (session_only : bool) : W unit :=
  let! se := the_session s in
  let! o := the_object obj in
  if session_only then
    do! put_object_handle (s_client se) obj in
    cleanup_volatile_obj_ref obj
  else
    let! tok := on_block (o_attributes o) (get_bool PKCS11_CKA_TOKEN) in
    if tok then
      do! assert_ (match o_uuid o with Some _ => true | None => false end) in
      do! unregister_twice v (s_token se) (o_uuid o) in
      do! put_object_handle (s_client se) obj in
      do! token_invalidate_object_handles obj in
      cleanup_persistent_object v o (s_token se)
    else
      do! put_object_handle (s_client se) obj in
      cleanup_volatile_obj_ref obj.

(** NULL is 0. *)
Definition pkcs11_handle2object (handle s : Z) : W Z :=
  let! se := the_session s in
  let! a := in_object_db (s_client se) (Pkcs11.handle_lookup handle) in
  if a =? 0 then ret 0
  else
    let! o := the_object a in
    match o_token o with
    | None => ret a
    | Some t => ret (if (t =? s_token se)%nat then a else 0)
    end.

(** The new object is in the temporary list until it is complete: in none of [w_objects]. *)
Definition create_object (v : ta_env) (s : Z) (head : list Z) : W Z :=
  let! se := the_session s in
  let c := s_client se in
  let t := s_token se in
  match v_addr v with
  | None => err PKCS11_CKR_DEVICE_MEMORY
  | Some a =>
      let obj := mk_object a (InSession s) (Some head) None None in
      let! obj_handle := in_object_db c (Pkcs11.handle_get (e_malloc (v_tee v)) (v_junk v) a) in
      let fail (rc : Z) (obj : pkcs11_object) : W Z :=
        do! in_object_db c (Pkcs11.handle_put obj_handle) in
        let! tok := on_block (Some head) (get_bool PKCS11_CKA_TOKEN) in
        do! (if tok then cleanup_persistent_object v obj t else cleanup_volatile_obj_ref (o_addr obj)) in
        err rc in
      if obj_handle =? 0 then fail PKCS11_CKR_DEVICE_MEMORY obj
      else
        let! tok := on_block (o_attributes obj) (get_bool PKCS11_CKA_TOKEN) in
        if tok then
          let! r := create_object_uuid v t obj in
          let '(rc, obj) := r in
          if negb (rc =? 0) then fail rc obj
          else if negb (v_create v =? TEE_SUCCESS) then fail (tee2pkcs_error (v_create v)) obj
          else
            let! rc := register_persistent_object v t (default [] (o_uuid obj)) in
            if negb (rc =? 0) then fail rc obj
            else
              do! modify (fun w => set_objects
                (mk_object a (InToken t) (o_attributes obj) (o_token obj) (o_uuid obj) :: w_objects w) w) in
              ret obj_handle
        else
          do! modify (fun w => set_objects (obj :: w_objects w) w) in
          ret obj_handle
  end.

(** ** Opening and closing sessions (pkcs11_token.c) *)

(** The state of the new session [session], from the first of the client's sessions on its token. *)
Fixpoint set_session_state (l : list pkcs11_session) (session : Z) (token : nat) (readonly : bool) : W pkcs11_session_state :=
  match l with
  | [] => ret (if readonly then PKCS11_CKS_RO_PUBLIC_SESSION else PKCS11_CKS_RW_PUBLIC_SESSION)
  | sess :: r =>
      do! assert_ (negb (s_addr sess =? session)) in
      if (s_token sess =? token)%nat then
        match s_state sess with
        | PKCS11_CKS_RW_PUBLIC_SESSION | PKCS11_CKS_RO_PUBLIC_SESSION =>
            ret (if readonly then PKCS11_CKS_RO_PUBLIC_SESSION else PKCS11_CKS_RW_PUBLIC_SESSION)
        | PKCS11_CKS_RO_USER_FUNCTIONS | PKCS11_CKS_RW_USER_FUNCTIONS =>
            ret (if readonly then PKCS11_CKS_RO_USER_FUNCTIONS else PKCS11_CKS_RW_USER_FUNCTIONS)
        | PKCS11_CKS_RW_SO_FUNCTIONS => if readonly then panic else ret PKCS11_CKS_RW_SO_FUNCTIONS
        end
      else set_session_state r session token readonly
  end.

Definition add_counts (n rw : Z) (t : ck_token) : ck_token :=
  mk_ck_token (t_state t) (u32 (t_session_count t + n)) (u32 (t_rw_session_count t + rw)) (t_db t) (t_objs t).

(** [entry_ck_open_session()] once its arguments are read; the result is the handle. *)
Definition open_session (v : ta_env) (client token_id flags : Z) : W Z :=
  let! token := get_token token_id in
  match token with
  | None => err PKCS11_CKR_SLOT_ID_INVALID
  | Some t =>
      do! guard_err (negb (has flags PKCS11_CKFSS_SERIAL_SESSION)) PKCS11_CKR_SESSION_PARALLEL_NOT_SUPPORTED in
      do! guard_err (negb (Z.ldiff flags (Z.lor PKCS11_CKFSS_RW_SESSION PKCS11_CKFSS_SERIAL_SESSION) =? 0))
        PKCS11_CKR_ARGUMENTS_BAD in
      let readonly := negb (has flags PKCS11_CKFSS_RW_SESSION) in
      let! tk := the_token t in
      do! guard_err (negb readonly && match t_state tk with PKCS11_TOKEN_READ_ONLY => true | _ => false end)
        PKCS11_CKR_TOKEN_WRITE_PROTECTED in
      let! w := get in
      do! guard_err (readonly && existsb pkcs11_session_is_so (session_list client w))
        PKCS11_CKR_SESSION_READ_WRITE_SO_EXISTS in
      match v_addr v with
      | None => err PKCS11_CKR_DEVICE_MEMORY
      | Some session =>
          let! handle := in_session_db client (Pkcs11.handle_get (e_malloc (v_tee v)) (v_junk v) session) in
          do! guard_err (handle =? 0) PKCS11_CKR_DEVICE_MEMORY in
          let! state := set_session_state (session_list client w) session t readonly in
          do! modify (fun w => set_sessions (mk_session session client t handle state None None :: w_sessions w) w) in
          do! upd_token t (add_counts 1 (if negb readonly then 1 else 0)) in
          ret handle
      end
  end.

(** The session's [object_list]. *)
Definition session_objects (s : Z) (w : world) : list pkcs11_object :=
  List.filter (fun o => bool_decide (o_owner o = InSession s)) (w_objects w).

(** [while (!LIST_EMPTY(&session->object_list))]; [k] is the number of objects. *)
Fixpoint destroy_session_objects (v : ta_env) (k : nat) (s : Z) : W unit :=
  let! w := get in
  match session_objects s w, k with
  | o :: _, S k' => do! destroy_object v s (o_addr o) true in destroy_session_objects v k' s
  | _, _ => ret tt
  end.

Definition close_ck_session (v : ta_env) (s : Z) : W unit :=
  do! release_active_processing s in
  do! release_session_find_obj_context s in
  let! w := get in
  do! destroy_session_objects v (length (session_objects s w)) s in
  let! se := the_session s in
  do! modify (fun w => set_sessions (List.filter (fun x => negb (is_session s x)) (w_sessions w)) w) in
  do! in_session_db (s_client se) (Pkcs11.handle_put (s_handle se)) in
  upd_token (s_token se) (add_counts (-1) (if pkcs11_session_is_read_write se then -1 else 0)).

(** [TAILQ_FOREACH_SAFE()] over the client's sessions, those of [token] or all of them. *)
Definition close_sessions (v : ta_env) (client : Z) (token : option nat) : W unit :=
  let! w := get in
  for_each (s_addr <$> session_list client w) (fun s =>
    let! se := the_session s in
    if match token with Some t => (s_token se =? t)%nat | None => true end then close_ck_session v s else ret tt).

(** 0 is NULL. *)
Definition unregister_client (v : ta_env) (client : Z) : W unit :=
  if client =? 0 then ret tt
  else
    do! close_sessions v client None in
    modify (fun w => set_clients (List.filter (fun c => negb (c_addr c =? client)) (w_clients w)) w).

(** ** Login and logout (pkcs11_token.c) *)

(** A session of the same client on the same token. *)
Definition same_login (se sess : pkcs11_session) : bool :=
  (s_client sess =? s_client se) && (s_token sess =? s_token se)%nat.

Definition session_login_user (s : Z) : W unit :=
  let! se := the_session s in
  upd_sessions (same_login se) (fun x =>
    set_state (if pkcs11_session_is_read_write x then PKCS11_CKS_RW_USER_FUNCTIONS else PKCS11_CKS_RO_USER_FUNCTIONS) x).

Definition session_login_so (s : Z) : W unit :=
  let! se := the_session s in
  let! w := get in
  for_each (s_addr <$> session_list (s_client se) w) (fun a =>
    let! sess := the_session a in
    if negb (s_token sess =? s_token se)%nat then ret tt
    else if pkcs11_session_is_read_write sess then upd_sessions (is_session a) (set_state PKCS11_CKS_RW_SO_FUNCTIONS)
    else panic).

Definition object_is_private (o : pkcs11_object) : W bool := on_block (o_attributes o) (get_bool PKCS11_CKA_PRIVATE).

(** The token's [object_list]. *)
Definition token_objects (t : nat) (w : world) : list pkcs11_object :=
  List.filter (fun o => bool_decide (o_owner o = InToken t)) (w_objects w).

(** "Destroy private session objects" *)
Definition logout_objects (v : ta_env) (a : Z) : W unit :=
  let! w := get in
  for_each (o_addr <$> session_objects a w) (fun obj =>
    let! o := the_object obj in
    let! private := object_is_private o in
    if private then destroy_object v a obj true else ret tt).

(** "Remove handle of token private objects from sessions object_handle_db" *)
Definition logout_handles (t : nat) (c : Z) : W unit :=
  let! w := get in
  for_each (o_addr <$> token_objects t w) (fun obj =>
    let! o := the_object obj in
    let! handle := pkcs11_object2handle obj c in
    if negb (handle =? 0) then
      let! private := object_is_private o in
      if private then do! in_object_db c (Pkcs11.handle_put handle) in ret tt else ret tt
    else ret tt).

(** The body of the loop, for the session [a] of the client. *)
Definition logout_session (v : ta_env) (se : pkcs11_session) (a : Z) : W unit :=
  let! sess := the_session a in
  if negb (s_token sess =? s_token se)%nat then ret tt
  else
    do! release_active_processing a in
    do! logout_objects v a in
    do! logout_handles (s_token se) (s_client sess) in
    do! release_session_find_obj_context a in
    upd_sessions (is_session a) (fun x =>
      set_state (if pkcs11_session_is_read_write x then PKCS11_CKS_RW_PUBLIC_SESSION else PKCS11_CKS_RO_PUBLIC_SESSION) x).

Definition session_logout (v : ta_env) (s : Z) : W unit :=
  let! se := the_session s in
  let! w := get in
  for_each (s_addr <$> session_list (s_client se) w) (logout_session v se).

(** ** Commands *)

(** The parameters of an invocation: their types, the control buffer (address and bytes) and the size
    of the output buffer. *)
Record request := mk_request { r_ptypes : Z; r_addr : Z; r_ctrl : list Z; r_out_size : Z }.

Definition TEE_PARAM_TYPES (t0 t1 t2 t3 : Z) : Z :=
  Z.lor (Z.lor (Z.lor t0 (Z.shiftl t1 4)) (Z.shiftl t2 8)) (Z.shiftl t3 12).
(** [memref inout, none, none, none] and [memref inout, none, memref output, none] *)
Definition PT_CTRL : Z := TEE_PARAM_TYPES 7 0 0 0.
Definition PT_CTRL_OUT : Z := TEE_PARAM_TYPES 7 0 6 0.

(** Commands run on the state and the arguments that remain to be read. *)
#[local] Notation C := (M (world * serialargs)).

Definition in_world {A} (m : W A) : C A := fun s => let '(o, w) := m (fst s) in (o, (w, snd s)).
Definition in_args {A} (m : M serialargs A) : C A := fun s => let '(o, a) := m (snd s) in (o, (fst s, a)).

(** [serialargs_get(&ctrlargs, ..., n); if (rc) return rc;] *)
Definition arg_bytes (n : Z) : C (list Z) :=
  let! p := in_args (serialargs_get n) in
  let '(rc, d) := p in
  do! guard_err (negb (rc =? 0)) rc in ret d.
Definition arg_u32 : C Z := let! d := arg_bytes 4 in ret (le_val d).

(** [serialargs_get_ptr(&ctrlargs, &p, n); if (rc) return rc;] with the bytes the pointer refers to. *)
Definition arg_ptr (n : Z) : C (option (list Z)) :=
  let! p := in_args (serialargs_get_ptr n) in
  let '(rc, ptr) := p in
  do! guard_err (negb (rc =? 0)) rc in
  match ptr with
  | None => ret None
  | Some _ => let! d := in_args (read_input ptr n) in ret (Some d)
  end.

(** [if (serialargs_remaining_bytes(&ctrlargs)) return PKCS11_CKR_ARGUMENTS_BAD;] *)
Definition no_more_args : C unit :=
  let! b := in_args serialargs_remaining_bytes in guard_err b PKCS11_CKR_ARGUMENTS_BAD.

Definition serialargs_get_session_from_handle (client : Z) : C Z :=
  let! session_handle := arg_u32 in
  let! session := in_world (pkcs11_handle2session session_handle client) in
  do! guard_err (session =? 0) PKCS11_CKR_SESSION_HANDLE_INVALID in
  ret session.

(** [if (!client || ptypes != exp_pt ...) return PKCS11_CKR_ARGUMENTS_BAD;], then the arguments. *)
Definition command {A} (bad : bool) (r : request) (body : C A) : W A := fun w =>
  if bad then (Err PKCS11_CKR_ARGUMENTS_BAD, w)
  else let '(o, s) := body (w, serialargs_init (r_ctrl r) (r_addr r) (lenZ (r_ctrl r))) in (o, fst s).

Definition no_client (client : Z) (r : request) (exp_pt : Z) : bool := (client =? 0) || negb (r_ptypes r =? exp_pt).

(** The results of commands are the bytes of the output buffer. *)
Definition entry_ck_open_session (v : ta_env) (client : Z) (r : request) : W (list Z) :=
  command (no_client client r PT_CTRL_OUT || negb (r_out_size r =? 4)) r (
    let! token_id := arg_u32 in
    let! flags := arg_u32 in
    do! no_more_args in
    let! handle := in_world (open_session v client token_id flags) in
    ret (le_bytes 4 handle)).

Definition entry_ck_close_session (v : ta_env) (client : Z) (r : request) : W (list Z) :=
  command (no_client client r PT_CTRL) r (
    let! session := serialargs_get_session_from_handle client in
    do! no_more_args in
    do! in_world (close_ck_session v session) in
    ret []).

Definition entry_ck_close_all_sessions (v : ta_env) (client : Z) (r : request) : W (list Z) :=
  command (no_client client r PT_CTRL) r (
    let! token_id := arg_u32 in
    do! no_more_args in
    let! token := in_world (get_token token_id) in
    match token with
    | None => err PKCS11_CKR_SLOT_ID_INVALID
    | Some t => do! in_world (close_sessions v client (Some t)) in ret []
    end).

Definition state_code (st : pkcs11_session_state) : Z :=
  match st with
  | PKCS11_CKS_RO_PUBLIC_SESSION => 0 | PKCS11_CKS_RO_USER_FUNCTIONS => 1 | PKCS11_CKS_RW_PUBLIC_SESSION => 2
  | PKCS11_CKS_RW_USER_FUNCTIONS => 3 | PKCS11_CKS_RW_SO_FUNCTIONS => 4
  end.

Definition entry_ck_session_info (client : Z) (r : request) : W (list Z) :=
  command (no_client client r PT_CTRL_OUT || negb (r_out_size r =? 16)) r (
    let! session := serialargs_get_session_from_handle client in
    do! no_more_args in
    let! se := in_world (the_session session) in
    let! slot_id := in_world (get_token_id (s_token se)) in
    ret (le_bytes 4 slot_id ++ le_bytes 4 (state_code (s_state se)) ++
         le_bytes 4 (if pkcs11_session_is_read_write se then Z.lor PKCS11_CKFSS_SERIAL_SESSION PKCS11_CKFSS_RW_SESSION
                     else PKCS11_CKFSS_SERIAL_SESSION) ++ le_bytes 4 0)).

Section Auth.
Context (sha256 : list Z -> list Z).

(** [while (!LIST_EMPTY(&token->object_list))]; [k] is the number of objects. *)
Fixpoint remove_token_objects (v : ta_env) (k : nat) (t : nat) : W unit :=
  let! w := get in
  match token_objects t w, k with
  | o :: _, S k' =>
      do! unregister_twice v t (o_uuid o) in
      do! cleanup_persistent_object v o t in
      remove_token_objects v k' t
  | _, _ => ret tt
  end.

(** [entry_ck_token_initialize()] once its arguments are read. *)
Definition init_token (v : ta_env) (token_id : Z) (new_label : list Z) (pin : option (list Z)) : W unit :=
  let! token := get_token token_id in
  match token with
  | None => err PKCS11_CKR_SLOT_ID_INVALID
  | Some t =>
      let! tk := the_token t in
      do! guard_err (has (flags (db_main (t_db tk))) PKCS11_CKFT_SO_PIN_LOCKED) PKCS11_CKR_PIN_LOCKED in
      let! w := get in
      do! guard_err (existsb (fun c => existsb (fun s => (s_token s =? t)%nat) (session_list (c_addr c) w)) (w_clients w))
        PKCS11_CKR_SESSION_EXISTS in
      do! in_token t (token_initialize sha256 (v_tee v) new_label pin) in
      let! w := get in
      remove_token_objects v (length (token_objects t w)) t
  end.

Definition entry_ck_token_initialize (v : ta_env) (r : request) : W (list Z) :=
  command (negb (r_ptypes r =? PT_CTRL)) r (
    let! token_id := arg_u32 in
    let! pin_size := arg_u32 in
    let! new_label := arg_bytes PKCS11_TOKEN_LABEL_SIZE in
    let! pin := arg_ptr pin_size in
    do! no_more_args in
    do! in_world (init_token v token_id new_label pin) in
    ret []).

(** [entry_ck_init_pin()] once its arguments are read. *)
Definition init_pin (v : ta_env) (s : Z) (pin : option (list Z)) : W unit :=
  let! se := the_session s in
  do! guard_err (negb (pkcs11_session_is_so se)) PKCS11_CKR_USER_NOT_LOGGED_IN in
  let! tk := the_token (s_token se) in
  do! assert_ (has (flags (db_main (t_db tk))) PKCS11_CKFT_TOKEN_INITIALIZED) in
  in_token (s_token se) (set_pin sha256 (v_tee v) (pkcs11_session_is_read_write se) pin PKCS11_CKU_USER).

Definition entry_ck_init_pin (v : ta_env) (client : Z) (r : request) : W (list Z) :=
  command (no_client client r PT_CTRL) r (
    let! session := serialargs_get_session_from_handle client in
    let! pin_size := arg_u32 in
    let! pin := arg_ptr pin_size in
    do! no_more_args in
    do! in_world (init_pin v session pin) in
    ret []).

(** [entry_ck_set_pin()] once its arguments are read. *)
Definition change_pin (v : ta_env) (s : Z) (old_pin pin : option (list Z)) : W unit :=
  let! se := the_session s in
  let e := v_tee v in
  let rw := pkcs11_session_is_read_write se in
  do! guard_err (negb rw) PKCS11_CKR_SESSION_READ_ONLY in
  let! tk := the_token (s_token se) in
  if pkcs11_session_is_so se then
    do! guard_err (negb (has (flags (db_main (t_db tk))) PKCS11_CKFT_TOKEN_INITIALIZED)) PKCS11_CKR_GENERAL_ERROR in
    do! in_token (s_token se) (check_so_pin sha256 e old_pin) in
    in_token (s_token se) (set_pin sha256 e rw pin PKCS11_CKU_SO)
  else
    do! guard_err (negb (has (flags (db_main (t_db tk))) PKCS11_CKFT_USER_PIN_INITIALIZED)) PKCS11_CKR_GENERAL_ERROR in
    do! in_token (s_token se) (check_user_pin sha256 e old_pin) in
    in_token (s_token se) (set_pin sha256 e rw pin PKCS11_CKU_USER).

Definition entry_ck_set_pin (v : ta_env) (client : Z) (r : request) : W (list Z) :=
  command (no_client client r PT_CTRL) r (
    let! session := serialargs_get_session_from_handle client in
    let! old_pin_size := arg_u32 in
    let! pin_size := arg_u32 in
    let! old_pin := arg_ptr old_pin_size in
    let! pin := arg_ptr pin_size in
    do! no_more_args in
    do! in_world (change_pin v session old_pin pin) in
    ret []).

(** [entry_ck_login()] once its arguments are read; [user_type] is the code the client sent. *)
Definition login (v : ta_env) (s user_type : Z) (pin : option (list Z)) : W unit :=
  let! se := the_session s in
  if user_type =? 0 then
    do! guard_err (pkcs11_session_is_so se) PKCS11_CKR_USER_ALREADY_LOGGED_IN in
    do! guard_err (pkcs11_session_is_user se) PKCS11_CKR_USER_ANOTHER_ALREADY_LOGGED_IN in
    let! w := get in
    do! guard_err (existsb (fun x => (s_token x =? s_token se)%nat && negb (pkcs11_session_is_read_write x))
                     (session_list (s_client se) w)) PKCS11_CKR_SESSION_READ_ONLY_EXISTS in
    do! in_token (s_token se) (check_so_pin sha256 (v_tee v) pin) in
    session_login_so s
  else if user_type =? 1 then
    do! guard_err (pkcs11_session_is_so se) PKCS11_CKR_USER_ANOTHER_ALREADY_LOGGED_IN in
    do! guard_err (pkcs11_session_is_user se) PKCS11_CKR_USER_ALREADY_LOGGED_IN in
    do! in_token (s_token se) (check_user_pin sha256 (v_tee v) pin) in
    session_login_user s
  else if user_type =? 2 then err PKCS11_CKR_OPERATION_NOT_INITIALIZED
  else err PKCS11_CKR_USER_TYPE_INVALID.

Definition entry_ck_login (v : ta_env) (client : Z) (r : request) : W (list Z) :=
  command (no_client client r PT_CTRL) r (
    let! session := serialargs_get_session_from_handle client in
    let! user_type := arg_u32 in
    let! pin_size := arg_u32 in
    let! pin := arg_ptr pin_size in
    do! no_more_args in
    do! in_world (login v session user_type pin) in
    ret []).
End Auth.

(** [entry_ck_logout()] once its arguments are read. *)
Definition logout (v : ta_env) (s : Z) : W unit :=
  let! se := the_session s in
  do! guard_err (pkcs11_session_is_public se) PKCS11_CKR_USER_NOT_LOGGED_IN in
  session_logout v s.

Definition entry_ck_logout (v : ta_env) (client : Z) (r : request) : W (list Z) :=
  command (no_client client r PT_CTRL) r (
    let! session := serialargs_get_session_from_handle client in
    do! no_more_args in
    do! in_world (logout v session) in
    ret []).

(** *** Objects *)

Definition get_class (b : option (list Z)) : W Z :=
  let! r := on_block b (get_attribute PKCS11_CKA_CLASS (Some 4)) in
  let '(rc, d, _) := r in
  ret (if negb (rc =? 0) then PKCS11_CKO_UNDEFINED_ID else le_val d).

(** The class is that of a key, data or a certificate. *)
Definition check_access_attrs_against_token (se : pkcs11_session) (o : pkcs11_object) : W unit :=
  let! class := get_class (o_attributes o) in
  if (class =? 4) || (class =? 3) || (class =? 2) || (class =? 0) || (class =? 1) then
    let! private := object_is_private o in
    guard_err (private && (pkcs11_session_is_public se || pkcs11_session_is_so se)) PKCS11_CKR_USER_NOT_LOGGED_IN
  else err PKCS11_CKR_KEY_FUNCTION_NOT_PERMITTED.

(** [entry_destroy_object()] once its arguments are read. *)
Definition destroy_by_handle (v : ta_env) (s object_handle : Z) : W unit :=
  let! object := pkcs11_handle2object object_handle s in
  do! guard_err (object =? 0) PKCS11_CKR_OBJECT_HANDLE_INVALID in
  let! se := the_session s in
  let! o := the_object object in
  let! tok := on_block (o_attributes o) (get_bool PKCS11_CKA_TOKEN) in
  do! guard_err (tok && negb (pkcs11_session_is_read_write se)) PKCS11_CKR_SESSION_READ_ONLY in
  let! rc := rc_of (check_access_attrs_against_token se o) in
  do! guard_err (negb (rc =? 0)) PKCS11_CKR_USER_NOT_LOGGED_IN in
  let! destroyable := on_block (o_attributes o) (get_bool PKCS11_CKA_DESTROYABLE) in
  do! guard_err (negb destroyable) PKCS11_CKR_ACTION_PROHIBITED in
  destroy_object v s object false.

Definition entry_destroy_object (v : ta_env) (client : Z) (r : request) : W (list Z) :=
  command (no_client client r PT_CTRL) r (
    let! session := serialargs_get_session_from_handle client in
    let! object_handle := arg_u32 in
    do! no_more_args in
    do! in_world (destroy_by_handle v session object_handle) in
    ret []).

(** [entry_find_objects()] once its arguments are read: the handles returned. *)
Definition find_objects (s out_size : Z) : W (list Z) :=
  let! se := the_session s in
  match s_find_ctx se with
  | None => err PKCS11_CKR_OPERATION_NOT_INITIALIZED
  | Some ctx =>
      let out := take (Z.to_nat (out_size / 4)) (drop (Z.to_nat (f_next ctx)) (f_handles ctx)) in
      do! upd_sessions (is_session s) (set_find_ctx (Some (mk_find (f_handles ctx) (f_next ctx + lenZ out)))) in
      ret out
  end.

Definition entry_find_objects (client : Z) (r : request) : W (list Z) :=
  command (no_client client r PT_CTRL_OUT) r (
    let! session := serialargs_get_session_from_handle client in
    do! no_more_args in
    let! out := in_world (find_objects session (r_out_size r)) in
    ret (bytes32 out)).

Definition entry_find_objects_final (client : Z) (r : request) : W (list Z) :=
  command (no_client client r PT_CTRL) r (
    let! session := serialargs_get_session_from_handle client in
    do! no_more_args in
    let! se := in_world (the_session session) in
    do! guard_err (match s_find_ctx se with None => true | Some _ => false end) PKCS11_CKR_OPERATION_NOT_INITIALIZED in
    do! in_world (release_session_find_obj_context session) in
    ret []).
