(* ===== verification/Pkcs11SessionInv.v ===== *)
(** * Invariant of the PKCS#11 TA's clients, sessions and objects

    What holds between two commands of the TA modelled in [Pkcs11Session], and the proof that every
    command ends, without a panic or undefined behaviour, in a state where it holds again. The
    invariant has four parts, each about the fields it needs: the session handles of the clients, the
    tokens and their counters, the login state, the objects and their handles. *)
From stdpp Require Import gmap.
From S2P Require Import Prelude HandleDb Pkcs11Attrs Pkcs11Pin Pkcs11Session.
#[local] Open Scope Z_scope.

Definition ptr_ok (p : Z) : Prop := p <> 0 /\ p <> Pkcs11.INVALID_HANDLE_PTR.

(** A session without what login, processing and searches change. *)
Definition strip (s : pkcs11_session) : pkcs11_session :=
  mk_session (s_addr s) (s_client s) (s_token s) (s_handle s) PKCS11_CKS_RO_PUBLIC_SESSION None None.

Definition skeys (w : world) : list pkcs11_session := strip <$> w_sessions w.
Definition sdbs (w : world) : list (Z * handle_db) := (fun c => (c_addr c, c_session_db c)) <$> w_clients w.
Definition odbs (w : world) : list (Z * handle_db) := (fun c => (c_addr c, c_object_db c)) <$> w_clients w.
Definition uuids (w : world) : list (list (list Z)) := t_objs <$> w_tokens w.

(** The handles of each client are those of its sessions. *)
Record sess_ok (cs : list (Z * handle_db)) (ks : list pkcs11_session) : Prop := mk_sess_ok {
  so_clients : NoDup (fst <$> cs) /\ 0 ∉ fst <$> cs;
  so_addrs : NoDup (s_addr <$> ks);
  so_ptr : forall s, s ∈ ks -> ptr_ok (s_addr s) /\ s_client s ∈ fst <$> cs;
  so_wf : forall c db, (c, db) ∈ cs -> db_wf db;
  so_db : forall c db h p, (c, db) ∈ cs ->
    slots 1 db !! h = Some p <-> exists s, s ∈ ks /\ s_client s = c /\ s_handle s = h /\ s_addr s = p;
}.

(** The sessions on a token, and the read/write ones. *)
Definition on_token (t : nat) (s : pkcs11_session) : bool := (s_token s =? t)%nat.
Definition count_sessions (t : nat) (ss : list pkcs11_session) : Z := lenZ (List.filter (on_token t) ss).
Definition count_rw (t : nat) (ss : list pkcs11_session) : Z :=
  lenZ (List.filter (fun s => on_token t s && pkcs11_session_is_read_write s) ss).

Definition token_ok (ss : list pkcs11_session) (t : nat) (tk : ck_token) : Prop :=
  t_session_count tk = u32 (count_sessions t ss) /\ t_rw_session_count tk = u32 (count_rw t ss) /\
  exists m, t_db tk = synced m /\ db_ok m /\
    ((exists s, s ∈ ss /\ s_token s = t /\ s_state s = PKCS11_CKS_RW_SO_FUNCTIONS) ->
     has (flags m) PKCS11_CKFT_TOKEN_INITIALIZED = true).

Record toks_ok (ss : list pkcs11_session) (ts : list ck_token) : Prop := mk_toks_ok {
  to_sess : forall s, s ∈ ss -> (s_token s < length ts)%nat;
  to_tok : forall t tk, ts !! t = Some tk -> token_ok ss t tk;
}.

(** Who is logged in. *)
Definition login_of (s : pkcs11_session) : option pkcs11_user_type :=
  match s_state s with
  | PKCS11_CKS_RO_PUBLIC_SESSION | PKCS11_CKS_RW_PUBLIC_SESSION => None
  | PKCS11_CKS_RO_USER_FUNCTIONS | PKCS11_CKS_RW_USER_FUNCTIONS => Some PKCS11_CKU_USER
  | PKCS11_CKS_RW_SO_FUNCTIONS => Some PKCS11_CKU_SO
  end.

(** A client is logged in to a token in all its sessions there or in none. *)
Definition login_ok (ss : list pkcs11_session) : Prop :=
  forall s1 s2, s1 ∈ ss -> s2 ∈ ss -> same_login s1 s2 = true -> login_of s1 = login_of s2.

(** The attributes are in memory, and the flags the session layer reads are well formed. *)
Definition attrs_ok (tok : bool) (o : pkcs11_object) : Prop :=
  exists b l, o_attributes o = Some b /\ rep b l /\ bool_result PKCS11_CKA_TOKEN l = Ret tok /\
    (exists p, bool_result PKCS11_CKA_PRIVATE l = Ret p) /\ (exists d, bool_result PKCS11_CKA_DESTROYABLE l = Ret d).

(** A client may have a handle to its sessions' objects and to any token's. *)
Definition visible (ks : list pkcs11_session) (c : Z) (o : pkcs11_object) : Prop :=
  match o_owner o with
  | InSession s => exists k, k ∈ ks /\ s_addr k = s /\ s_client k = c
  | InToken _ => True
  end.

Definition obj_wf (ks : list pkcs11_session) (us : list (list (list Z))) (o : pkcs11_object) : Prop :=
  ptr_ok (o_addr o) /\
  match o_owner o with
  | InSession s => (exists k, k ∈ ks /\ s_addr k = s) /\ o_token o = None /\ attrs_ok false o
  | InToken t => o_token o = Some t /\ (o_attributes o = None \/ attrs_ok true o) /\
      exists u l, o_uuid o = Some u /\ us !! t = Some l /\ u ∈ l
  end.

(** A live handle refers to a live object, and an object has at most one handle of a client. *)
Record odb_ok (ks : list pkcs11_session) (os : list pkcs11_object) (c : Z) (db : handle_db) : Prop := mk_odb_ok {
  od_wf : db_wf db;
  od_live : forall h p, slots 1 db !! h = Some p -> p <> Pkcs11.INVALID_HANDLE_PTR ->
    exists o, o ∈ os /\ o_addr o = p /\ visible ks c o /\ o_attributes o <> None;
  od_inj : forall h h' p, slots 1 db !! h = Some p -> slots 1 db !! h' = Some p -> p <> Pkcs11.INVALID_HANDLE_PTR ->
    h = h';
}.

Record objs_ok (cs : list (Z * handle_db)) (ks : list pkcs11_session) (os : list pkcs11_object)
    (us : list (list (list Z))) : Prop := mk_objs_ok {
  oo_addrs : NoDup (o_addr <$> os);
  oo_wf : forall o, o ∈ os -> obj_wf ks us o;
  oo_uuid : forall o o' t, o ∈ os -> o' ∈ os -> o_owner o = InToken t -> o_owner o' = InToken t ->
    o_uuid o = o_uuid o' -> o = o';
  oo_nodup : forall t l, us !! t = Some l -> NoDup l;
  oo_db : forall c db, (c, db) ∈ cs -> odb_ok ks os c db;
}.

Record base_ok (w : world) : Prop := mk_base_ok {
  wo_sess : sess_ok (sdbs w) (skeys w);
  wo_toks : toks_ok (w_sessions w) (w_tokens w);
  wo_objs : objs_ok (odbs w) (skeys w) (w_objects w) (uuids w);
}.

(** All of it; the parts without the login state also hold in the middle of a logout. *)
Definition world_ok (w : world) : Prop := base_ok w /\ login_ok (w_sessions w).

(** ** Pointers *)

(** Updating in place. *)
Lemma elem_of_upd {A} sel (f : A -> A) l y : y ∈ upd sel f l <-> exists x, x ∈ l /\ y = (if sel x then f x else x).
Proof. unfold upd. rewrite list_elem_of_fmap. naive_solver. Qed.

Lemma fmap_upd {A B} (g : A -> B) sel f l : (forall x, sel x = true -> g (f x) = g x) -> g <$> upd sel f l = g <$> l.
Proof.
  intros Hg. unfold upd. rewrite <- list_fmap_compose. apply list_fmap_ext. intros i x _. unfold compose.
  destruct (sel x) eqn:E; auto.
Qed.

Lemma elem_of_filter_fun {A} (p : A -> bool) l x : x ∈ List.filter p l <-> x ∈ l /\ p x = true.
Proof. rewrite !list_elem_of_In. apply filter_In. Qed.

Section Find.
Context {A : Type} (addr : A -> Z).

Lemma find_addr_in l x : NoDup (addr <$> l) -> x ∈ l -> List.find (fun y => addr y =? addr x) l = Some x.
Proof.
  induction l as [|y l IH]; intros Hd Hx; [by apply elem_of_nil in Hx|]. apply NoDup_cons in Hd as [Hn Hd].
  apply elem_of_cons in Hx as [->|Hx]; cbn [List.find]; [by rewrite Z.eqb_refl|].
  rewrite (proj2 (Z.eqb_neq _ _)); [by apply IH|]. intros E. apply Hn. apply list_elem_of_fmap. by exists x.
Qed.

Lemma find_addr_Some l p x : List.find (fun y => addr y =? p) l = Some x -> x ∈ l /\ addr x = p.
Proof. intros [H1 H2]%find_some. bool_hyps. split; [by apply list_elem_of_In | done]. Qed.

Lemma addr_inj l x y : NoDup (addr <$> l) -> x ∈ l -> y ∈ l -> addr x = addr y -> x = y.
Proof.
  intros Hd Hx Hy E. pose proof (find_addr_in l x Hd Hx) as F1. rewrite E, (find_addr_in l y Hd Hy) in F1. congruence.
Qed.

Lemma NoDup_filter_fmap (p : A -> bool) l : NoDup (addr <$> l) -> NoDup (addr <$> List.filter p l).
Proof.
  induction l as [|x l IH]; intros Hd; [done|]. apply NoDup_cons in Hd as [Hn Hd]. cbn [List.filter].
  destruct (p x); [|auto]. apply NoDup_cons. split; [|auto]. intros (y & E & Hy)%list_elem_of_fmap. apply Hn.
  rewrite E. apply elem_of_filter_fun in Hy as [Hy _]. apply list_elem_of_fmap. by exists y.
Qed.
End Find.

Lemma elem_of_strip s w : s ∈ w_sessions w -> strip s ∈ skeys w.
Proof. intros Hs. apply list_elem_of_fmap. by exists s. Qed.

Lemma skeys_elem k w : k ∈ skeys w -> exists s, s ∈ w_sessions w /\ k = strip s.
Proof. intros (s & -> & Hs)%list_elem_of_fmap. by exists s. Qed.

Lemma sess_addrs w : base_ok w -> NoDup (s_addr <$> w_sessions w).
Proof. intros Hw. pose proof (so_addrs _ _ (wo_sess w Hw)) as Hd. unfold skeys in Hd. by rewrite <- list_fmap_compose in Hd. Qed.

Lemma client_addrs w : base_ok w -> NoDup (c_addr <$> w_clients w).
Proof.
  intros Hw. pose proof (proj1 (so_clients _ _ (wo_sess w Hw))) as Hd. unfold sdbs in Hd. by rewrite <- list_fmap_compose in Hd.
Qed.

(** ** Reading and writing the state *)

Lemma the_session_run w s : NoDup (s_addr <$> w_sessions w) -> s ∈ w_sessions w -> the_session (s_addr s) w = (Ret s, w).
Proof. intros Hd Hs. unfold the_session, deref, bind, get. by rewrite (find_addr_in s_addr _ _ Hd Hs). Qed.

Lemma the_client_run w c : NoDup (c_addr <$> w_clients w) -> c ∈ w_clients w -> the_client (c_addr c) w = (Ret c, w).
Proof. intros Hd Hc. unfold the_client, deref, bind, get. by rewrite (find_addr_in c_addr _ _ Hd Hc). Qed.

Lemma the_object_run w o : NoDup (o_addr <$> w_objects w) -> o ∈ w_objects w -> the_object (o_addr o) w = (Ret o, w).
Proof. intros Hd Ho. unfold the_object, deref, bind, get. by rewrite (find_addr_in o_addr _ _ Hd Ho). Qed.

Lemma the_token_run w t tk : w_tokens w !! t = Some tk -> the_token t w = (Ret tk, w).
Proof. intros Ht. unfold the_token, bind, get. by rewrite Ht. Qed.

(** The state with other handle databases for client [c]. *)
Definition put_sdb (c : Z) (db : handle_db) (w : world) : world :=
  set_clients (upd (fun x => c_addr x =? c) (fun x => mk_client (c_addr x) db (c_object_db x)) (w_clients w)) w.
Definition put_odb (c : Z) (db : handle_db) (w : world) : world :=
  set_clients (upd (fun x => c_addr x =? c) (fun x => mk_client (c_addr x) (c_session_db x) db) (w_clients w)) w.

(** A database of an association list replaced. *)
Definition put_db (c : Z) (db : handle_db) (cs : list (Z * handle_db)) : list (Z * handle_db) :=
  upd (fun x => x.1 =? c) (fun x => (x.1, db)) cs.

Lemma sdbs_put_sdb c db w : sdbs (put_sdb c db w) = put_db c db (sdbs w).
Proof.
  unfold sdbs, put_sdb, put_db, upd. cbn [w_clients set_clients]. rewrite <- !list_fmap_compose.
  apply list_fmap_ext. intros i x _. unfold compose. cbn [fst]. by destruct (c_addr x =? c).
Qed.

Lemma odbs_put_odb c db w : odbs (put_odb c db w) = put_db c db (odbs w).
Proof.
  unfold odbs, put_odb, put_db, upd. cbn [w_clients set_clients]. rewrite <- !list_fmap_compose.
  apply list_fmap_ext. intros i x _. unfold compose. cbn [fst]. by destruct (c_addr x =? c).
Qed.

Lemma odbs_put_sdb c db w : odbs (put_sdb c db w) = odbs w.
Proof. unfold odbs, put_sdb. cbn [w_clients set_clients]. by apply fmap_upd. Qed.

Lemma sdbs_put_odb c db w : sdbs (put_odb c db w) = sdbs w.
Proof. unfold sdbs, put_odb. cbn [w_clients set_clients]. by apply fmap_upd. Qed.

Lemma put_db_fst c db cs : (put_db c db cs).*1 = cs.*1.
Proof. unfold put_db. by apply fmap_upd. Qed.

Lemma elem_of_put_db c db cs c' db' : (c', db') ∈ put_db c db cs <->
  (c' <> c /\ (c', db') ∈ cs) \/ (c' = c /\ db' = db /\ c ∈ cs.*1).
Proof.
  unfold put_db. rewrite elem_of_upd. split.
  - intros ([a d] & Hx & E). cbn [fst] in E. destruct (a =? c) eqn:Ea; bool_hyps; simplify_eq; [right|by left].
    split_and!; [done..|]. apply list_elem_of_fmap. by exists (c, d).
  - intros [[Hn Hx]|(-> & -> & Hc)].
    + exists (c', db'). cbn [fst]. by rewrite (proj2 (Z.eqb_neq c' c) Hn).
    + apply list_elem_of_fmap in Hc as ([a d] & -> & Hx). exists (a, d). cbn [fst]. by rewrite Z.eqb_refl.
Qed.

Lemma upd_id {A} (sel : A -> bool) f l : (forall x, x ∈ l -> sel x = true -> f x = x) -> upd sel f l = l.
Proof.
  unfold upd. intros Hf. rewrite <- (list_fmap_id l) at 2. apply list_fmap_ext. intros i x Hx.
  destruct (sel x) eqn:E; [|done]. apply Hf; [by eapply list_elem_of_lookup_2 | done].
Qed.

Lemma upd_ext {A} (sel sel' : A -> bool) f l : (forall x, x ∈ l -> sel x = sel' x) -> upd sel f l = upd sel' f l.
Proof. intros E. apply list_fmap_ext. intros i x Hx%list_elem_of_lookup_2. by rewrite (E x Hx). Qed.

Lemma put_odb_id w c : NoDup (c_addr <$> w_clients w) -> c ∈ w_clients w -> put_odb (c_addr c) (c_object_db c) w = w.
Proof.
  intros Hd Hc. unfold put_odb. rewrite upd_id; [by destruct w|]. intros x Hx E. bool_hyps.
  rewrite (addr_inj c_addr _ x c Hd Hx Hc E). by destruct c.
Qed.

Lemma put_sdb_id w c : NoDup (c_addr <$> w_clients w) -> c ∈ w_clients w -> put_sdb (c_addr c) (c_session_db c) w = w.
Proof.
  intros Hd Hc. unfold put_sdb. rewrite upd_id; [by destruct w|]. intros x Hx E. bool_hyps.
  rewrite (addr_inj c_addr _ x c Hd Hx Hc E). by destruct c.
Qed.

Lemma in_session_db_run {A} w c (m : M handle_db A) o db : NoDup (c_addr <$> w_clients w) -> c ∈ w_clients w ->
  m (c_session_db c) = (o, db) -> in_session_db (c_addr c) m w = (o, put_sdb (c_addr c) db w).
Proof.
  intros Hd Hc E. unfold in_session_db. rewrite (bind_run _ _ _ _ _ (the_client_run w c Hd Hc)), E. done.
Qed.

Lemma in_object_db_run {A} w c (m : M handle_db A) o db : NoDup (c_addr <$> w_clients w) -> c ∈ w_clients w ->
  m (c_object_db c) = (o, db) -> in_object_db (c_addr c) m w = (o, put_odb (c_addr c) db w).
Proof.
  intros Hd Hc E. unfold in_object_db. rewrite (bind_run _ _ _ _ _ (the_client_run w c Hd Hc)), E. done.
Qed.

Lemma find_client w c : c ∈ c_addr <$> w_clients w -> exists cl, cl ∈ w_clients w /\ c_addr cl = c.
Proof. intros (cl & -> & Hc)%list_elem_of_fmap. by exists cl. Qed.

Lemma elem_of_odbs w c : c ∈ w_clients w -> (c_addr c, c_object_db c) ∈ odbs w.
Proof. intros Hc. apply list_elem_of_fmap. by exists c. Qed.

Lemma elem_of_sdbs w c : c ∈ w_clients w -> (c_addr c, c_session_db c) ∈ sdbs w.
Proof. intros Hc. apply list_elem_of_fmap. by exists c. Qed.

Lemma odbs_elem w c db : (c, db) ∈ odbs w -> exists cl, cl ∈ w_clients w /\ c_addr cl = c /\ c_object_db cl = db.
Proof. intros (cl & [= -> ->] & Hc)%list_elem_of_fmap. by exists cl. Qed.

(** ** Forgetting an object *)

(** [db'] is [db] without the handle of [a]. *)
Definition forgets (db db' : handle_db) (a : Z) : Prop :=
  db_wf db' /\ forall h p, p <> Pkcs11.INVALID_HANDLE_PTR ->
    slots 1 db' !! h = Some p <-> slots 1 db !! h = Some p /\ p <> a.

(** The list without the object at [a]. *)
Definition without (a : Z) (os : list pkcs11_object) : list pkcs11_object :=
  List.filter (fun o => negb (o_addr o =? a)) os.

Lemma elem_of_without a os o : o ∈ without a os <-> o ∈ os /\ o_addr o <> a.
Proof. unfold without. rewrite elem_of_filter_fun. by rewrite negb_true_iff, Z.eqb_neq. Qed.

Lemma odb_forget ks os c db db' a : odb_ok ks os c db -> forgets db db' a -> odb_ok ks (without a os) c db'.
Proof.
  intros [Hw Hl Hi] [Hw' Hf]. split; [done| |].
  - intros h p Hs Hp. apply Hf in Hs as [Hs Hne]; [|done]. destruct (Hl h p Hs Hp) as (o & Ho & Ea & Hv). exists o.
    split; [|done]. apply elem_of_without. by rewrite Ea.
  - intros h h' p Hs Hs' Hp. apply Hf in Hs as [Hs _]; [|done]. apply Hf in Hs' as [Hs' _]; [|done]. by apply (Hi h h' p).
Qed.

Lemma odb_forget_keep ks os c db db' a : odb_ok ks os c db -> forgets db db' a -> odb_ok ks os c db'.
Proof.
  intros H Hf. destruct (odb_forget _ _ _ _ _ _ H Hf) as [Hw Hl Hi]. split; [done| |done].
  intros h p Hs Hp. destruct (Hl h p Hs Hp) as (o & Ho & Hv). apply elem_of_without in Ho as [Ho _]. eauto.
Qed.

Lemma forgets_unseen db a : db_wf db -> (forall h, slots 1 db !! h <> Some a) -> forgets db db a.
Proof. intros Hw Hn. split; [done|]. intros h p Hp. split; [|by intros []]. intros Hs. split; [done|]. intros ->. by eapply Hn. Qed.

Lemma forget_put db db' h a : db_wf db' -> slots 1 db' = delete h (slots 1 db) -> slots 1 db !! h = Some a ->
  (forall h' p, slots 1 db !! h = Some p -> slots 1 db !! h' = Some p -> p <> Pkcs11.INVALID_HANDLE_PTR -> h = h') ->
  forgets db db' a.
Proof.
  intros Hw E Ha Hi. split; [done|]. intros h' p Hp. rewrite E, lookup_delete_Some. split.
  - intros [Hne Hs]. split; [done|]. intros ->. by apply Hne, (Hi h' a).
  - intros [Hs Hne]. split; [|done]. intros <-. congruence.
Qed.

Lemma forget_invalidate db db' h a : db_wf db' -> slots 1 db' = <[h := Pkcs11.INVALID_HANDLE_PTR]> (slots 1 db) ->
  slots 1 db !! h = Some a ->
  (forall h' p, slots 1 db !! h = Some p -> slots 1 db !! h' = Some p -> p <> Pkcs11.INVALID_HANDLE_PTR -> h = h') ->
  forgets db db' a.
Proof.
  intros Hw E Ha Hi. split; [done|]. intros h' p Hp. rewrite E, lookup_insert_Some. split.
  - intros [[_ <-]|[Hne Hs]]; [done|]. split; [done|]. intros ->. by apply Hne, (Hi h' a).
  - intros [Hs Hne]. right. split; [|done]. intros <-. congruence.
Qed.

(** ** Object handles *)

(** Only the object handle databases differ. *)
Record odb_only (w w' : world) : Prop := mk_odb_only {
  only_sdbs : sdbs w' = sdbs w;
  only_sess : w_sessions w' = w_sessions w;
  only_objs : w_objects w' = w_objects w;
  only_toks : w_tokens w' = w_tokens w;
}.

Lemma put_odb_only c db w : odb_only w (put_odb c db w).
Proof. split; try done. apply sdbs_put_odb. Qed.

Lemma odb_only_addrs w w' : odb_only w w' -> c_addr <$> w_clients w' = c_addr <$> w_clients w.
Proof.
  intros H. pose proof (f_equal (fmap fst) (only_sdbs _ _ H)) as E. unfold sdbs in E. by rewrite <- !list_fmap_compose in E.
Qed.

Lemma put_odb_clients c db w : c_addr <$> w_clients (put_odb c db w) = c_addr <$> w_clients w.
Proof. apply odb_only_addrs, put_odb_only. Qed.

Section Handles.
Context (w : world) (cl : pkcs11_client) (Hd : NoDup (c_addr <$> w_clients w)) (Hcl : cl ∈ w_clients w).
Context (ks : list pkcs11_session) (os : list pkcs11_object) (Hdb : odb_ok ks os (c_addr cl) (c_object_db cl)).

(** [pkcs11_object2handle()] *)
Lemma object2handle_run a : ptr_ok a -> exists h, pkcs11_object2handle a (c_addr cl) w = (Ret h, w) /\ 0 <= h /\
  ((h = 0 /\ forall i, slots 1 (c_object_db cl) !! i <> Some a) \/ (1 <= h /\ slots 1 (c_object_db cl) !! h = Some a)).
Proof.
  intros [H1 H2]. destruct (pkcs11_find_run _ a (od_wf _ _ _ _ Hdb) H1 H2) as (h & E & Hh). exists h.
  unfold pkcs11_object2handle. rewrite (in_object_db_run w cl _ _ _ Hd Hcl E), (put_odb_id w cl Hd Hcl).
  split; [done|]. split; [lia | done].
Qed.

Lemma object_put_run h a : slots 1 (c_object_db cl) !! h = Some a -> a <> Pkcs11.INVALID_HANDLE_PTR -> 0 <= h ->
  exists x db, in_object_db (c_addr cl) (Pkcs11.handle_put h) w = (Ret x, put_odb (c_addr cl) db w) /\
    forgets (c_object_db cl) db a.
Proof.
  intros Hs Ha Hh. destruct (pkcs11_put_run _ h (od_wf _ _ _ _ Hdb) Hh) as (x & db & E & Hw & Es). exists x, db.
  split; [by apply (in_object_db_run w cl)|]. eapply forget_put; [done..|]. intros h' p. apply (od_inj _ _ _ _ Hdb).
Qed.

Lemma put_object_handle_run a : ptr_ok a ->
  exists db, put_object_handle (c_addr cl) a w = (Ret tt, put_odb (c_addr cl) db w) /\ forgets (c_object_db cl) db a.
Proof.
  intros Ha. destruct (object2handle_run a Ha) as (h & E & Hh & [[-> Hn]|[H1 Hs]]); unfold put_object_handle;
    rewrite (bind_run _ _ _ _ _ E).
  - destruct (pkcs11_put_run _ 0 (od_wf _ _ _ _ Hdb) ltac:(lia)) as (x & db & E' & Hw & Es). exists db.
    rewrite (bind_run _ _ _ _ _ (in_object_db_run w cl _ _ _ Hd Hcl E')). split; [done|].
    rewrite delete_id in Es by (apply slots_none; lia). split; [done|]. intros i p Hp. rewrite Es.
    split; [|by intros []]. intros Hi. split; [done|]. intros ->. by eapply Hn.
  - destruct (object_put_run h a Hs (proj2 Ha) Hh) as (x & db & E' & Hf). exists db.
    by rewrite (bind_run _ _ _ _ _ E').
Qed.

(** The body of [token_invalidate_object_handles()] *)
Lemma invalidate_run a : ptr_ok a ->
  exists db, (let! handle := in_object_db (c_addr cl) (Pkcs11.handle_lookup_handle a) in
     if negb (handle =? 0) then in_object_db (c_addr cl) (Pkcs11.handle_invalidate handle) else ret tt) w =
    (Ret tt, put_odb (c_addr cl) db w) /\ forgets (c_object_db cl) db a.
Proof.
  intros Ha. destruct (object2handle_run a Ha) as (h & E & Hh & [[-> Hn]|[H1 Hs]]);
    unfold pkcs11_object2handle in E; rewrite (bind_run _ _ _ _ _ E).
  - exists (c_object_db cl). rewrite (put_odb_id w cl Hd Hcl). split; [done|]. apply forgets_unseen; [apply Hdb | done].
  - rewrite (proj2 (Z.eqb_neq h 0)) by lia. cbn [negb].
    destruct (pkcs11_invalidate_run _ h a (od_wf _ _ _ _ Hdb) Hs) as (db & E' & Hw & Es). exists db.
    split; [by apply (in_object_db_run w cl)|]. eapply forget_invalidate; [done..|]. intros h' p. apply (od_inj _ _ _ _ Hdb).
Qed.
End Handles.

(** Every client forgets the object. *)
Definition all_forget (cs cs' : list (Z * handle_db)) (a : Z) : Prop :=
  forall c db', (c, db') ∈ cs' -> exists db, (c, db) ∈ cs /\ forgets db db' a.

Lemma token_invalidate_run w a ks os : NoDup (c_addr <$> w_clients w) -> ptr_ok a ->
  (forall c db, (c, db) ∈ odbs w -> odb_ok ks os c db) ->
  exists w', token_invalidate_object_handles a w = (Ret tt, w') /\ odb_only w w' /\ all_forget (odbs w) (odbs w') a.
Proof.
  intros Hd Ha Hdb. pose (I := fun (rest : list Z) (w' : world) => odb_only w w' /\ NoDup rest /\
    (forall c, c ∈ rest -> c ∈ c_addr <$> w_clients w) /\
    forall c db', (c, db') ∈ odbs w' -> exists db, (c, db) ∈ odbs w /\
      if bool_decide (c ∈ rest) then db' = db else forgets db db' a).
  enough (runs (token_invalidate_object_handles a) (fun _ => I []) (fun _ _ => False) w) as Hr.
  { unfold runs in Hr. destruct (token_invalidate_object_handles a w) as [[[]|? | |?] w']; try done.
    destruct Hr as (Ho & _ & _ & Hf). exists w'. split_and!; [done..|]. intros c db' Hc.
    destruct (Hf c db' Hc) as (db & Hc' & Hx). exists db. split; [done|].
    by rewrite bool_decide_eq_false_2 in Hx by (by intros ?%elem_of_nil). }
  unfold token_invalidate_object_handles. do 2 run_step. apply runs_for_each.
  - intros c rest w' (Ho & Hn & Hin & Hf). apply NoDup_cons in Hn as [Hcr Hn].
    assert (c ∈ c_addr <$> w_clients w') as Hc by (rewrite (odb_only_addrs _ _ Ho); apply Hin; set_solver).
    pose proof (odb_only_addrs _ _ Ho) as Ea. apply find_client in Hc as (cl & Hcl & <-).
    destruct (Hf _ _ (elem_of_odbs w' cl Hcl)) as (db & Hdb0 & Eb).
    rewrite bool_decide_eq_true_2 in Eb by set_solver. subst db.
    destruct (invalidate_run w' cl ltac:(by rewrite Ea) Hcl ks os (Hdb _ _ Hdb0) a Ha) as (db' & E & Hfg).
    eapply runs_eq; [exact E|]. split; [|split; [done|split]].
    + destruct Ho, (put_odb_only (c_addr cl) db' w'). split; congruence.
    + intros c' Hc'. apply Hin. set_solver.
    + intros c' d' Hc'. rewrite odbs_put_odb in Hc'. apply elem_of_put_db in Hc' as [[Hne Hc']|(-> & -> & _)].
      * destruct (Hf _ _ Hc') as (d & Hd' & Hx). exists d. split; [done|].
        destruct (decide (c' ∈ rest)) as [Hr|Hr].
        -- rewrite bool_decide_eq_true_2 by done. by rewrite bool_decide_eq_true_2 in Hx by set_solver.
        -- rewrite bool_decide_eq_false_2 by done. by rewrite bool_decide_eq_false_2 in Hx by set_solver.
      * exists (c_object_db cl). split; [done|]. by rewrite bool_decide_eq_false_2.
  - split; [by split|]. split; [done|]. split; [done|]. intros c db Hc. exists db. split; [done|].
    rewrite bool_decide_eq_true_2; [done|]. apply odbs_elem in Hc as (cl & Hcl & <- & _). apply list_elem_of_fmap. by exists cl.
Qed.

(** ** Removing objects *)

Lemma objs_forget_all cs cs' ks os us a : objs_ok cs ks os us -> all_forget cs cs' a -> objs_ok cs' ks (without a os) us.
Proof.
  intros [Ha Hw Hu Hn Hdb] Hf. split.
  - by apply NoDup_filter_fmap.
  - intros o [Ho _]%elem_of_without. auto.
  - intros o o' t [Ho _]%elem_of_without [Ho' _]%elem_of_without. by apply Hu.
  - done.
  - intros c db' Hc. destruct (Hf c db' Hc) as (db & Hc' & Hfg). eapply odb_forget; eauto.
Qed.

(** Nobody else sees a session's object. *)
Lemma session_object_unseen cs ks os us s o k c c' db : objs_ok cs ks os us -> NoDup (s_addr <$> ks) -> o ∈ os ->
  o_owner o = InSession s -> k ∈ ks -> s_addr k = s -> s_client k = c -> (c', db) ∈ cs -> c' <> c ->
  forall h, slots 1 db !! h <> Some (o_addr o).
Proof.
  intros [Ha Hw _ _ Hdb] Hd Ho Ew Hk Es Ec Hc Hne h Hs. destruct (Hw o Ho) as [[_ Hp] _].
  destruct (od_live _ _ _ _ (Hdb _ _ Hc) h _ Hs Hp) as (o' & Ho' & E & Hv & _).
  rewrite (addr_inj o_addr os o' o Ha Ho' Ho E) in Hv. unfold visible in Hv. rewrite Ew in Hv.
  destruct Hv as (k' & Hk' & Es' & Ec'). apply Hne. rewrite <- Ec', <- Ec. f_equal.
  apply (addr_inj s_addr ks k' k Hd Hk' Hk). congruence.
Qed.

Lemma all_forget_put cs c db db' a : NoDup cs.*1 -> (c, db) ∈ cs -> forgets db db' a ->
  (forall c' d, (c', d) ∈ cs -> c' <> c -> db_wf d /\ forall h, slots 1 d !! h <> Some a) ->
  all_forget cs (put_db c db' cs) a.
Proof.
  intros Hd Hc Hf Hn c' d Hx. apply elem_of_put_db in Hx as [[Hne Hx]|(-> & -> & _)]; [|by exists db].
  exists d. split; [done|]. destruct (Hn c' d Hx Hne). by apply forgets_unseen.
Qed.

(** The UUIDs without the one at [i]. *)
Lemma uuid_remove (l : list (list Z)) u : NoDup l -> u ∈ l ->
  exists i, get_persistent_obj_idx l (Some u) = Z.of_nat i /\
    let l' := take i l ++ drop (S i) l in NoDup l' /\ forall x, x ∈ l' <-> x ∈ l /\ x <> u.
Proof.
  intros Hd Hu. destruct (list_find_elem_of (fun x => x = u) l u Hu eq_refl) as [[i x] E].
  unfold get_persistent_obj_idx. rewrite E. exists i. split; [done|].
  apply list_find_Some in E as (Hi & -> & _). pose proof (lookup_lt_Some _ _ _ Hi) as Hlt.
  rewrite <- (take_drop_middle l i u Hi) in Hd. cbv zeta. apply NoDup_app in Hd as (Hd1 & Hd2 & Hd3).
  apply NoDup_cons in Hd3 as [Hn Hd3]. split.
  - apply NoDup_app. split_and!; [done| |done]. intros x Hx Hx'. apply (Hd2 x Hx). set_solver.
  - intros x. rewrite <- (take_drop_middle l i u Hi) at 3. rewrite !elem_of_app, elem_of_cons. split; [|naive_solver].
    intros [Hx|Hx]; (split; [by auto|]); intros ->; [|done]. apply (Hd2 u Hx). set_solver.
Qed.

Lemma uuid_absent (l : list (list Z)) u : u ∉ l -> get_persistent_obj_idx l (Some u) = -1.
Proof.
  intros Hu. unfold get_persistent_obj_idx. destruct (list_find _ l) as [[i x]|] eqn:E; [|done].
  apply list_find_Some in E as (Hi & -> & _). by apply list_elem_of_lookup_2 in Hi.
Qed.

Lemma objs_unregister cs ks os us t l u l' a : objs_ok cs ks os us ->
  us !! t = Some l -> NoDup l' -> (forall x, x ∈ l' <-> x ∈ l /\ x <> u) ->
  (forall o, o ∈ os -> o_addr o <> a -> o_owner o = InToken t -> o_uuid o <> Some u) ->
  objs_ok cs ks (without a os) us -> objs_ok cs ks (without a os) (<[t := l']> us).
Proof.
  intros H0 Ht Hd Hl Ho [Ha Hw Hu Hn Hdb]. pose proof (lookup_lt_Some _ _ _ Ht) as Hlt. split; try done.
  - intros o Hin. specialize (Hw o Hin). apply elem_of_without in Hin as [Hin Hne]. destruct Hw as [Hp Hw]. split; [done|].
    destruct (o_owner o) as [s|t'] eqn:Eo; [done|]. destruct Hw as (E1 & E2 & u' & l0 & Eu & El & Hu').
    split; [done|]. split; [done|]. destruct (decide (t' = t)) as [->|Hne'].
    + exists u', l'. rewrite list_lookup_insert_eq by done. split_and!; [done..|]. apply Hl. rewrite Ht in El.
      injection El as <-. split; [done|]. intros ->. by apply (Ho o Hin Hne Eo).
    + exists u', l0. by rewrite list_lookup_insert_ne by done.
  - intros t' l0 El. destruct (decide (t' = t)) as [->|Hne].
    + rewrite list_lookup_insert_eq in El by done. by injection El as <-.
    + rewrite list_lookup_insert_ne in El by done. eauto.
Qed.

Lemma on_block_bool w b l id v : rep b l -> bool_result id l = Ret v -> on_block (Some b) (get_bool id) w = (Ret v, w).
Proof. intros Hr Hb. unfold on_block, of_opt, bind, ret. by rewrite (get_bool_spec id b l Hr), Hb. Qed.

(** ** Preservation by updates of a part *)

Lemma toks_ok_objs ss ts t l : toks_ok ss ts -> toks_ok ss (alter (set_objs l) t ts).
Proof.
  intros [Hs Ht]. split; [intros s Hin; rewrite length_alter; auto|]. intros i tk E.
  destruct (decide (i = t)) as [->|Hne].
  - rewrite list_lookup_alter_eq in E. apply fmap_Some in E as (tk0 & E & ->). exact (Ht t tk0 E).
  - rewrite list_lookup_alter_ne in E by done. by apply Ht.
Qed.

Lemma uuids_alter w t l : t_objs <$> alter (set_objs l) t (w_tokens w) = <[t := l]> (uuids w).
Proof.
  unfold uuids. apply list_eq. intros i. rewrite list_lookup_fmap. destruct (decide (i = t)) as [->|Hne].
  - rewrite list_lookup_alter_eq. destruct (w_tokens w !! t) as [tk|] eqn:E; cbn [fmap option_fmap option_map].
    + rewrite list_lookup_insert_eq; [done|]. rewrite length_fmap. by eapply lookup_lt_Some.
    + rewrite list_insert_ge; [by rewrite list_lookup_fmap, E|]. rewrite length_fmap. by apply lookup_ge_None.
  - rewrite list_lookup_alter_ne, list_lookup_insert_ne by done. by rewrite list_lookup_fmap.
Qed.

(** The state with fewer objects and handles. *)
Lemma world_objs w w' : base_ok w -> sdbs w' = sdbs w -> w_sessions w' = w_sessions w ->
  toks_ok (w_sessions w) (w_tokens w') -> objs_ok (odbs w') (skeys w) (w_objects w') (uuids w') -> base_ok w'.
Proof.
  intros [H1 H2 H3] E1 E2 Ht Ho. split; unfold skeys in *; rewrite ?E1, ?E2; done.
Qed.

(** ** Destroying objects *)

(** Results of opening an object's file that [TEE_OpenPersistentObject()] returns. *)
Definition open_ok (v : ta_env) : Prop :=
  In (v_open v) [TEE_SUCCESS; TEE_ERROR_ITEM_NOT_FOUND; TEE_ERROR_ACCESS_CONFLICT; TEE_ERROR_OUT_OF_MEMORY;
                 TEE_ERROR_CORRUPT_OBJECT; TEE_ERROR_STORAGE_NOT_AVAILABLE].

(** The services the removal of a persistent object needs: the storage works, opening the object's
    file ends as it may, and there is memory for the shorter list. *)
Record storage_up (v : ta_env) (w : world) : Prop := mk_storage_up {
  su_db : storage_ok (v_tee v);
  su_seek : v_seek v = TEE_SUCCESS;
  su_open : open_ok v;
  su_mem : forall l n, l ∈ uuids w -> 0 <= n <= lenZ l -> e_malloc (v_tee v) (4 + n * 16) = true;
}.

Section Destroy.
Context (v : ta_env) (w : world) (Hw : base_ok w).

Lemma obj_in o : o ∈ w_objects w -> ptr_ok (o_addr o) /\ the_object (o_addr o) w = (Ret o, w).
Proof.
  intros Ho. split; [apply (oo_wf _ _ _ _ (wo_objs w Hw) o Ho)|]. apply the_object_run; [apply (wo_objs w Hw) | done].
Qed.

Lemma sess_in s : s ∈ w_sessions w -> the_session (s_addr s) w = (Ret s, w) /\
  exists c, c ∈ w_clients w /\ c_addr c = s_client s /\ odb_ok (skeys w) (w_objects w) (c_addr c) (c_object_db c).
Proof.
  intros Hs. split; [apply the_session_run; [by apply sess_addrs | done]|].
  destruct (so_ptr _ _ (wo_sess w Hw) _ (elem_of_strip s w Hs)) as [_ Hc]. cbn [strip s_client] in Hc.
  unfold sdbs in Hc. rewrite <- list_fmap_compose in Hc. apply find_client in Hc as (c & Hc & E). exists c.
  split_and!; [done..|]. apply (oo_db _ _ _ _ (wo_objs w Hw)). by apply elem_of_odbs.
Qed.

(** A session's object, by one of the client's sessions. *)
Lemma forget_session_object s o k c db : s ∈ w_sessions w -> o ∈ w_objects w -> o_owner o = InSession (s_addr k) ->
  k ∈ w_sessions w -> s_client k = s_client s -> c ∈ w_clients w -> c_addr c = s_client s ->
  forgets (c_object_db c) db (o_addr o) ->
  base_ok (set_objects (without (o_addr o) (w_objects w)) (put_odb (c_addr c) db w)).
Proof.
  intros Hs Ho Ew Hk Ek Hc Ec Hf. apply (world_objs w); [done| |done|apply Hw|].
  - apply (sdbs_put_odb (c_addr c) db w).
  - change (odbs (set_objects _ _)) with (odbs (put_odb (c_addr c) db w)). rewrite odbs_put_odb.
    apply (objs_forget_all (odbs w)); [apply Hw|]. apply (all_forget_put _ _ (c_object_db c)).
    + unfold odbs. rewrite <- list_fmap_compose. by apply client_addrs.
    + by apply elem_of_odbs.
    + done.
    + intros c' d Hx Hne. split; [by eapply od_wf, (oo_db _ _ _ _ (wo_objs w Hw))|].
      apply (session_object_unseen _ _ _ _ (s_addr k) o (strip k) (c_addr c) c' d (wo_objs w Hw)); try done.
      * apply (wo_sess w Hw).
      * by apply elem_of_strip.
      * cbn. congruence.
Qed.

Lemma destroy_session_only_run s o : s ∈ w_sessions w -> o ∈ w_objects w -> o_owner o = InSession (s_addr s) ->
  exists w', destroy_object v (s_addr s) (o_addr o) true w = (Ret tt, w') /\ base_ok w' /\
    w_sessions w' = w_sessions w /\ w_objects w' = without (o_addr o) (w_objects w) /\ w_tokens w' = w_tokens w.
Proof.
  intros Hs Ho Ew. destruct (sess_in s Hs) as [Es (c & Hc & Ec & Hdb)]. destruct (obj_in o Ho) as [Hp Eo].
  destruct (put_object_handle_run w c (client_addrs w Hw) Hc _ _ Hdb (o_addr o) Hp) as (db & E & Hf).
  unfold destroy_object. rewrite (bind_run _ _ _ _ _ Es), (bind_run _ _ _ _ _ Eo), <- Ec, (bind_run _ _ _ _ _ E).
  eexists. split; [reflexivity|]. split; [|done]. by apply (forget_session_object s o s).
Qed.

Lemma unregister_run t tk u : storage_up v w -> w_tokens w !! t = Some tk -> u ∈ t_objs tk ->
  exists l, unregister_twice v t (Some u) w = (Ret tt, set_tokens (alter (set_objs l) t (w_tokens w)) w) /\
    NoDup l /\ forall x, x ∈ l <-> x ∈ t_objs tk /\ x <> u.
Proof.
  intros [[Ho Hwr] Hsk _ Hm] Ht Hu.
  assert (uuids w !! t = Some (t_objs tk)) as Hut by (unfold uuids; by rewrite list_lookup_fmap, Ht).
  pose proof (oo_nodup _ _ _ _ (wo_objs w Hw) t _ Hut) as Hd.
  destruct (uuid_remove (t_objs tk) u Hd Hu) as (i & Ei & Hl). eexists. split; [|exact Hl].
  unfold unregister_twice, unregister_persistent_object. rewrite (bind_run _ _ _ 0 (set_tokens (alter (set_objs
    (take i (t_objs tk) ++ drop (S i) (t_objs tk))) t (w_tokens w)) w)); [done|].
  rewrite (bind_run _ _ _ _ _ (the_token_run w t tk Ht)), Ei. rewrite (proj2 (Z.ltb_ge _ 0)) by lia.
  rewrite (Hm (t_objs tk)); [|by eapply list_elem_of_lookup_2|
    destruct (t_objs tk); [by apply elem_of_nil in Hu|unfold lenZ; cbn [length]; lia]].
  rewrite Ho, Hsk, Nat2Z.id. cbn [negb Z.eqb TEE_SUCCESS]. rewrite Hwr. done.
Qed.
End Destroy.

Lemma open_object_run v w u : open_ok v -> TEE_OpenPersistentObject v (Some u) w = (Ret (v_open v), w).
Proof.
  unfold open_ok, TEE_OpenPersistentObject. intros Hop. simpl in Hop.
  destruct Hop as [<-|[<-|[<-|[<-|[<-|[<-|[]]]]]]]; done.
Qed.

Lemma forgets_trans db1 db2 db3 a : forgets db1 db2 a -> forgets db2 db3 a -> forgets db1 db3 a.
Proof.
  intros [_ H1] [Hw H2]. split; [done|]. intros h p Hp. rewrite H2, H1 by done. naive_solver.
Qed.

Lemma set_objs_lookup w t tk l : w_tokens w !! t = Some tk ->
  w_tokens (set_tokens (alter (set_objs l) t (w_tokens w)) w) !! t = Some (set_objs l tk).
Proof. intros Ht. cbn [w_tokens set_tokens]. by rewrite list_lookup_alter_eq, Ht. Qed.

Lemma cleanup_persistent_run v w o t tk u : open_ok v -> w_tokens w !! t = Some tk -> o_uuid o = Some u -> u ∉ t_objs tk ->
  cleanup_persistent_object v o t w = (Ret tt, set_objects (without (o_addr o) (w_objects w)) w).
Proof.
  intros Hv Ht Hu Hn. unfold cleanup_persistent_object. rewrite Hu, (bind_run _ _ _ _ _ (open_object_run v w u Hv)).
  assert (destroy_object_uuid t o w = (Ret tt, w)) as E; [|by rewrite (bind_run _ _ _ _ _ E)].
  unfold destroy_object_uuid. rewrite (bind_run _ _ _ _ _ (the_token_run w t tk Ht)), Hu. by rewrite uuid_absent.
Qed.

(** The objects and UUIDs without a token object that every client has forgotten. *)
Lemma world_without_token_object w w' o t tk u l : base_ok w -> o ∈ w_objects w -> o_owner o = InToken t ->
  w_tokens w !! t = Some tk -> o_uuid o = Some u -> NoDup l -> (forall x, x ∈ l <-> x ∈ t_objs tk /\ x <> u) ->
  sdbs w' = sdbs w -> w_sessions w' = w_sessions w -> w_objects w' = without (o_addr o) (w_objects w) ->
  w_tokens w' = alter (set_objs l) t (w_tokens w) -> all_forget (odbs w) (odbs w') (o_addr o) -> base_ok w'.
Proof.
  intros Hw Ho Ew Ht Hu Hd Hl E1 E2 E3 E4 Hf. apply (world_objs w); [done..|rewrite E4; apply toks_ok_objs, Hw|].
  unfold uuids at 1. rewrite E3, E4, uuids_alter. pose proof (wo_objs w Hw) as H.
  apply (objs_unregister (odbs w') _ _ _ _ (t_objs tk) u); [|unfold uuids; by rewrite list_lookup_fmap, Ht|done..| |].
  - destruct H as [Ha Hwf Hu' Hn Hdb]. split; try done. intros c db' Hc. destruct (Hf c db' Hc) as (db & Hc' & Hfg).
    eapply odb_forget_keep; eauto.
  - intros o' Ho' Hne Ew' Eu. apply Hne. f_equal. apply (oo_uuid _ _ _ _ H o' o t); [done..|]. congruence.
  - by apply (objs_forget_all (odbs w)).
Qed.

Lemma token_of_session w s : base_ok w -> s ∈ w_sessions w -> exists tk, w_tokens w !! s_token s = Some tk.
Proof. intros Hw Hs. apply lookup_lt_is_Some_2. by apply (to_sess _ _ (wo_toks w Hw)). Qed.

Lemma destroy_token_object_run v w s o : base_ok w -> storage_up v w -> s ∈ w_sessions w -> o ∈ w_objects w ->
  o_owner o = InToken (s_token s) -> o_attributes o <> None ->
  exists w', destroy_object v (s_addr s) (o_addr o) false w = (Ret tt, w') /\ base_ok w' /\
    w_sessions w' = w_sessions w /\ w_objects w' = without (o_addr o) (w_objects w).
Proof.
  intros Hw Hv Hs Ho Ew Hat. destruct (sess_in w Hw s Hs) as [Es (c & Hc & Ec & Hdb)]. destruct (obj_in w Hw o Ho) as [Hp Eo].
  destruct (token_of_session w s Hw Hs) as [tk Ht]. pose proof (client_addrs w Hw) as Hcd.
  pose proof (oo_wf _ _ _ _ (wo_objs w Hw) o Ho) as [_ Hwf]. rewrite Ew in Hwf.
  destruct Hwf as (Etk & [|(b & al & Eb & Hrep & Htok & _)] & u & l0 & Hu & Hl0 & Hul); [done|].
  unfold uuids in Hl0. rewrite list_lookup_fmap, Ht in Hl0. injection Hl0 as <-.
  destruct (unregister_run v w Hw (s_token s) tk u Hv Ht Hul) as (l & Eun & Hd & Hl).
  set (w1 := set_tokens _ w) in *. assert (NoDup (c_addr <$> w_clients w1)) as Hd1 by done.
  destruct (put_object_handle_run w1 c Hd1 Hc _ _ Hdb (o_addr o) Hp) as (db & Ep & Hf). set (w2 := put_odb _ _ w1) in *.
  destruct (token_invalidate_run w2 (o_addr o) (skeys w) (w_objects w)) as (w3 & Ei & Honly & Hall).
  { unfold w2. by rewrite put_odb_clients. }
  { done. }
  { intros c' d. unfold w2. rewrite odbs_put_odb. intros [[Hne Hx]|(-> & -> & _)]%elem_of_put_db;
      [by apply (oo_db _ _ _ _ (wo_objs w Hw)) | exact (odb_forget_keep _ _ _ _ _ _ Hdb Hf)]. }
  assert (w_tokens w3 = w_tokens w1) as Et3 by (by rewrite (only_toks _ _ Honly)).
  eexists. split; [|split; [|split]].
  - unfold destroy_object. rewrite (bind_run _ _ _ _ _ Es), (bind_run _ _ _ _ _ Eo), Eb.
    rewrite (bind_run _ _ _ _ _ (on_block_bool w b al _ _ Hrep Htok)), Hu.
    rewrite (bind_run _ _ _ _ _ (eq_refl : assert_ true w = _)), (bind_run _ _ _ _ _ Eun), <- Ec.
    rewrite (bind_run _ _ _ _ _ Ep), (bind_run _ _ _ _ _ Ei).
    apply (cleanup_persistent_run v w3 o (s_token s) (set_objs l tk) u); [apply Hv| |done|].
    + rewrite Et3. by apply set_objs_lookup.
    + cbn [t_objs set_objs]. intros Hin. by apply Hl in Hin as [_ ?].
  - apply (world_without_token_object w _ o (s_token s) tk u l); try done.
    + transitivity (sdbs w3); [done|]. rewrite (only_sdbs _ _ Honly). unfold w2. by rewrite sdbs_put_odb.
    + cbn. by rewrite (only_sess _ _ Honly).
    + cbn. by rewrite (only_objs _ _ Honly).
    + intros c' d' Hx. destruct (Hall c' d' Hx) as (d & Hx2 & Hf2). unfold w2 in Hx2. rewrite odbs_put_odb in Hx2.
      apply elem_of_put_db in Hx2 as [[Hne Hx2]|(-> & -> & _)]; [by exists d|].
      exists (c_object_db c). split; [by apply elem_of_odbs | by eapply forgets_trans].
  - cbn. by rewrite (only_sess _ _ Honly).
  - cbn. by rewrite (only_objs _ _ Honly).
Qed.

(** [pkcs11_handle2object()]: NULL, or an object this session may use. *)
Lemma handle2object_run w s h : base_ok w -> s ∈ w_sessions w -> 0 <= h ->
  exists a, pkcs11_handle2object h (s_addr s) w = (Ret a, w) /\
    (a = 0 \/ exists o, o ∈ w_objects w /\ o_addr o = a /\ o_attributes o <> None /\
       match o_owner o with
       | InSession s' => exists k, k ∈ w_sessions w /\ s_addr k = s' /\ s_client k = s_client s
       | InToken t => t = s_token s
       end).
Proof.
  intros Hw Hs Hh. destruct (sess_in w Hw s Hs) as [Es (c & Hc & Ec & Hdb)].
  unfold pkcs11_handle2object. rewrite (bind_run _ _ _ _ _ Es), <- Ec.
  pose proof (in_object_db_run w c _ _ _ (client_addrs w Hw) Hc (pkcs11_lookup_run _ h (od_wf _ _ _ _ Hdb) Hh)) as E.
  rewrite (put_odb_id w c (client_addrs w Hw) Hc) in E. rewrite (bind_run _ _ _ _ _ E).
  destruct (slots 1 (c_object_db c) !! h) as [p|] eqn:Esl; [|exists 0; auto].
  destruct (p =? Pkcs11.INVALID_HANDLE_PTR) eqn:Ei; bool_hyps; [exists 0; auto|].
  destruct (od_live _ _ _ _ Hdb h p Esl Ei) as (o & Ho & <- & Hv & Hat). destruct (obj_in w Hw o Ho) as [[Hp _] Eo].
  rewrite (proj2 (Z.eqb_neq _ 0) Hp), (bind_run _ _ _ _ _ Eo).
  pose proof (oo_wf _ _ _ _ (wo_objs w Hw) o Ho) as [_ Hwf]. unfold visible in Hv.
  destruct (o_owner o) as [s'|t] eqn:Ew.
  - destruct Hwf as (_ & -> & _). exists (o_addr o). split; [done|]. right. exists o. rewrite Ew. split_and!; [done..|].
    destruct Hv as (k & Hk & <- & Ek). apply skeys_elem in Hk as (k' & Hk & ->). exists k'. split_and!; [done..|].
    cbn in Ek. congruence.
  - destruct Hwf as (-> & _). destruct (t =? s_token s)%nat eqn:Et; [|exists 0; auto].
    exists (o_addr o). split; [done|]. right. exists o. rewrite Ew. split_and!; [done..|]. by apply Nat.eqb_eq.
Qed.

(** An object that is in memory. *)
Lemma loaded w o : base_ok w -> o ∈ w_objects w -> o_attributes o <> None ->
  exists tok, attrs_ok tok o /\ tok = match o_owner o with InSession _ => false | InToken _ => true end.
Proof.
  intros Hw Ho Ha. pose proof (oo_wf _ _ _ _ (wo_objs w Hw) o Ho) as [_ Hwf]. destruct (o_owner o).
  - exists false. split; [apply Hwf | done].
  - exists true. split; [|done]. by destruct Hwf as (_ & [|] & _).
Qed.

Lemma check_access_run w se o tok : attrs_ok tok o -> exists rc, rc_of (check_access_attrs_against_token se o) w = (Ret rc, w).
Proof.
  intros (b & l & Eb & Hr & _ & (p & Hp) & _). unfold check_access_attrs_against_token, rc_of, get_class, object_is_private.
  rewrite Eb. unfold on_block, of_opt, bind, ret.
  pose proof (get_attribute_spec PKCS11_CKA_CLASS (Some 4) b l Hr) as Eg.
  destruct (get_attribute PKCS11_CKA_CLASS (Some 4) b) as [o' b'] eqn:E. injection Eg as -> ->. cbn [fst].
  destruct (get_result _ _ _) as [[rc d] n]. destruct (_ || _); [|by eexists].
  rewrite (get_bool_spec _ b l Hr), Hp. cbn [fst]. destruct (p && _); by eexists.
Qed.

Lemma destroy_by_handle_sound v w s h : base_ok w -> storage_up v w -> s ∈ w_sessions w -> 0 <= h ->
  runs (destroy_by_handle v (s_addr s) h)
    (fun _ w' => base_ok w' /\ w_sessions w' = w_sessions w /\ exists o, o ∈ w_objects w /\
       w_objects w' = without (o_addr o) (w_objects w) /\
       match o_owner o with
       | InSession s' => exists k, k ∈ w_sessions w /\ s_addr k = s' /\ s_client k = s_client s
       | InToken t => t = s_token s
       end)
    (fun rc w' => rc <> 0 /\ w' = w) w.
Proof.
  intros Hw Hv Hs Hh. destruct (handle2object_run w s h Hw Hs Hh) as (a & E & Ha). unfold destroy_by_handle.
  apply runs_bind, (runs_eq _ _ _ _ _ _ E). apply runs_bind, runs_guard; [done|]. intros Ha0. bool_hyps.
  destruct Ha as [|(o & Ho & <- & Hat & Hown)]; [done|].
  destruct (sess_in w Hw s Hs) as [Es (c & Hc & Ec & Hdb)]. destruct (obj_in w Hw o Ho) as [Hp Eo].
  apply runs_bind, (runs_eq _ _ _ _ _ _ Es). apply runs_bind, (runs_eq _ _ _ _ _ _ Eo).
  destruct (loaded w o Hw Ho Hat) as (tok & Hok & Et). pose proof Hok as (b & l & Eb & Hr & Htok & _ & (d & Hd)).
  rewrite Eb. apply runs_bind, (runs_eq _ _ _ _ _ _ (on_block_bool w b l _ _ Hr Htok)).
  apply runs_bind, runs_guard; [done|]. intros _. destruct (check_access_run w s o tok Hok) as (rc & Erc).
  apply runs_bind, (runs_eq _ _ _ _ _ _ Erc). apply runs_bind, runs_guard; [done|]. intros _.
  apply runs_bind, (runs_eq _ _ _ _ _ _ (on_block_bool w b l _ _ Hr Hd)). apply runs_bind, runs_guard; [done|]. intros _.
  destruct (o_owner o) as [s'|t] eqn:Ew; subst tok.
  - destruct Hown as (k & Hk & <- & Ek).
    destruct (put_object_handle_run w c (client_addrs w Hw) Hc _ _ Hdb (o_addr o) Hp) as (db & E' & Hf).
    eapply runs_eq.
    + unfold destroy_object. rewrite (bind_run _ _ _ _ _ Es), (bind_run _ _ _ _ _ Eo), Eb.
      rewrite (bind_run _ _ _ _ _ (on_block_bool w b l _ _ Hr Htok)), <- Ec, (bind_run _ _ _ _ _ E'). reflexivity.
    + split; [by apply (forget_session_object w Hw s o k)|]. split; [done|]. exists o. rewrite Ew. eauto 6.
  - subst t. destruct (destroy_token_object_run v w s o Hw Hv Hs Ho Ew Hat) as (w' & E' & Hw' & Es' & Eo').
    apply (runs_eq _ _ _ _ _ _ E'). split_and!; [done..|]. exists o. by rewrite Ew.
Qed.

(** ** Updates of sessions *)

Lemma filter_upd {A} (p : A -> bool) sel f l : (forall x, x ∈ l -> sel x = true -> p (f x) = p x) ->
  lenZ (List.filter p (upd sel f l)) = lenZ (List.filter p l).
Proof.
  induction l as [|x l IH]; intros Hp; [done|]. unfold upd. rewrite fmap_cons. fold (upd sel f l). cbn [List.filter].
  assert (p (if sel x then f x else x) = p x) as -> by (destruct (sel x) eqn:E; [apply Hp; set_solver | done]).
  unfold lenZ in *. destruct (p x); cbn [length]; [rewrite !Nat2Z.inj_succ; f_equal|]; apply IH; set_solver.
Qed.

Definition upd_world (sel : pkcs11_session -> bool) (f : pkcs11_session -> pkcs11_session) (w : world) : world :=
  set_sessions (upd sel f (w_sessions w)) w.

(** An update that keeps what identifies the sessions and whether they are read/write; the security
    officer is only logged in on an initialised token. *)
Lemma base_upd w sel f : base_ok w ->
  (forall s, s ∈ w_sessions w -> sel s = true -> strip (f s) = strip s /\
     pkcs11_session_is_read_write (f s) = pkcs11_session_is_read_write s /\
     (s_state (f s) = PKCS11_CKS_RW_SO_FUNCTIONS -> forall tk, w_tokens w !! s_token s = Some tk ->
        has (flags (db_main (t_db tk))) PKCS11_CKFT_TOKEN_INITIALIZED = true)) ->
  base_ok (upd_world sel f w).
Proof.
  intros [Hs Ht Ho] Hf. assert (forall s, s ∈ w_sessions w -> sel s = true -> s_token (f s) = s_token s) as Etk.
  { intros s Hin Hsel. destruct (Hf s Hin Hsel) as [E _]. by injection E. }
  assert (skeys (upd_world sel f w) = skeys w) as Ek.
  { unfold skeys, upd_world, upd. cbn [w_sessions set_sessions]. rewrite <- list_fmap_compose. apply list_fmap_ext.
    intros i s Hi. unfold compose. destruct (sel s) eqn:E; [|done]. apply Hf; [by eapply list_elem_of_lookup_2 | done]. }
  split; rewrite ?Ek; [done| |done]. destruct Ht as [Hl Ht]. split; cbn [w_sessions w_tokens upd_world set_sessions].
  - intros s (x & Hx & ->)%elem_of_upd. destruct (sel x) eqn:E; [rewrite (Etk x Hx E)|]; by apply Hl.
  - intros t tk Etok. destruct (Ht t tk Etok) as (H1 & H2 & m & Em & Hm & Hso). split; [|split].
    + rewrite H1. f_equal. symmetry. apply filter_upd. intros x Hx E. unfold on_token. by rewrite (Etk x Hx E).
    + rewrite H2. f_equal. symmetry. apply filter_upd. intros x Hx E. unfold on_token. rewrite (Etk x Hx E).
      f_equal. by destruct (Hf x Hx E) as (_ & -> & _).
    + exists m. split; [done|]. split; [done|]. intros (s & (x & Hx & ->)%elem_of_upd & Et & Est).
      destruct (sel x) eqn:E; [|by apply Hso; exists x]. rewrite (Etk x Hx E) in Et.
      destruct (Hf x Hx E) as (_ & _ & Hi). specialize (Hi Est tk). rewrite Et, Em in Hi. by apply Hi.
Qed.

Lemma so_initialized w s tk : base_ok w -> s ∈ w_sessions w -> s_state s = PKCS11_CKS_RW_SO_FUNCTIONS ->
  w_tokens w !! s_token s = Some tk -> has (flags (db_main (t_db tk))) PKCS11_CKFT_TOKEN_INITIALIZED = true.
Proof.
  intros Hw Hs Est Ht. destruct (to_tok _ _ (wo_toks w Hw) _ _ Ht) as (_ & _ & m & -> & _ & Hso). apply Hso. by exists s.
Qed.

(** Processing and searches. *)
Lemma base_upd_keep w sel f : base_ok w -> (forall s, strip (f s) = strip s /\ s_state (f s) = s_state s) ->
  base_ok (upd_world sel f w).
Proof.
  intros Hw Hf. apply base_upd; [done|]. intros s Hs _. destruct (Hf s) as [E1 E2]. split; [done|].
  split; [unfold pkcs11_session_is_read_write; by rewrite E2|]. intros Est tk. apply so_initialized; [done..|congruence].
Qed.

Lemma login_upd_keep ss sel f : login_ok ss -> (forall s, strip (f s) = strip s /\ s_state (f s) = s_state s) ->
  login_ok (upd sel f ss).
Proof.
  intros Hl Hf s1 s2 (x1 & H1 & ->)%elem_of_upd (x2 & H2 & ->)%elem_of_upd.
  assert (forall x, login_of (if sel x then f x else x) = login_of x /\ s_client (if sel x then f x else x) = s_client x /\
    s_token (if sel x then f x else x) = s_token x) as Hx.
  { intros x. destruct (sel x); [|done]. destruct (Hf x) as [E1 E2]. injection E1 as _ E3 E4 _.
    unfold login_of. by rewrite E2. }
  destruct (Hx x1) as (-> & E1 & E2), (Hx x2) as (-> & E3 & E4). unfold same_login. rewrite E1, E2, E3, E4.
  by apply Hl.
Qed.

Lemma world_upd_keep w sel f : world_ok w -> (forall s, strip (f s) = strip s /\ s_state (f s) = s_state s) ->
  world_ok (upd_world sel f w).
Proof. intros [Hb Hl] Hf. split; [by apply base_upd_keep | by apply login_upd_keep]. Qed.

(** The sessions of a client on a token, all changed to the same login state. *)
Lemma same_login_refl s : same_login s s = true.
Proof. unfold same_login. by rewrite Z.eqb_refl, Nat.eqb_refl. Qed.

Lemma same_login_iff s s' : same_login s s' = true <-> s_client s' = s_client s /\ s_token s' = s_token s.
Proof. unfold same_login. by rewrite andb_true_iff, Z.eqb_eq, Nat.eqb_eq. Qed.

Lemma login_upd_all ss se f u : login_ok ss -> (forall s, strip (f s) = strip s /\ login_of (f s) = u) ->
  login_ok (upd (same_login se) f ss).
Proof.
  intros Hl Hf s1 s2 (x1 & H1 & ->)%elem_of_upd (x2 & H2 & ->)%elem_of_upd.
  assert (forall x, s_client (if same_login se x then f x else x) = s_client x /\
    s_token (if same_login se x then f x else x) = s_token x) as Hx.
  { intros x. destruct (same_login se x); [|done]. destruct (Hf x) as [E1 _]. by injection E1. }
  destruct (Hx x1) as (E1 & E2), (Hx x2) as (E3 & E4). rewrite same_login_iff, E1, E2, E3, E4. intros [Ec Et].
  destruct (same_login se x1) eqn:S1, (same_login se x2) eqn:S2.
  - by rewrite (proj2 (Hf x1)), (proj2 (Hf x2)).
  - apply same_login_iff in S1 as [A B]. assert (same_login se x2 = true) by (apply same_login_iff; split; congruence). congruence.
  - apply same_login_iff in S2 as [A B]. assert (same_login se x1 = true) by (apply same_login_iff; split; congruence). congruence.
  - apply Hl; [done..|]. by apply same_login_iff.
Qed.

(** ** The token's database *)

Definition set_db (db : token_db) (t : ck_token) : ck_token :=
  mk_ck_token (t_state t) (t_session_count t) (t_rw_session_count t) db (t_objs t).
Definition put_tdb (t : nat) (m : token_persistent_main) (w : world) : world :=
  set_tokens (alter (set_db (synced m)) t (w_tokens w)) w.

Definition initialized (m : token_persistent_main) : Prop := has (flags m) PKCS11_CKFT_TOKEN_INITIALIZED = true.

Lemma base_put_tdb w t tk m m' : base_ok w -> w_tokens w !! t = Some tk -> t_db tk = synced m -> db_ok m' ->
  (initialized m -> initialized m') -> base_ok (put_tdb t m' w).
Proof.
  intros [Hs [Hl Ht] Ho] Et Em Hm' Hi. split; [done| |].
  - split; cbn [w_tokens put_tdb set_tokens w_sessions].
    + intros s Hin. rewrite length_alter. auto.
    + intros i tk' E. destruct (decide (i = t)) as [->|Hne].
      * rewrite list_lookup_alter_eq, Et in E. injection E as <-.
        destruct (Ht t tk Et) as (H1 & H2 & m0 & Em0 & _ & Hso). split; [done|]. split; [done|]. exists m'.
        split; [done|]. split; [done|]. intros Hex. apply Hi. rewrite Em in Em0. injection Em0 as <-. by apply Hso.
      * rewrite list_lookup_alter_ne in E by done. by apply Ht.
  - assert (uuids (put_tdb t m' w) = uuids w) as E; [|rewrite E; exact Ho].
    unfold uuids, put_tdb. cbn [w_tokens set_tokens]. apply list_eq. intros i. rewrite !list_lookup_fmap.
    destruct (decide (i = t)) as [->|Hne]; [|by rewrite list_lookup_alter_ne].
    rewrite list_lookup_alter_eq. by destruct (w_tokens w !! t).
Qed.

(** What an authentication call leaves: another database for the token. *)
Definition tdb_changed (w : world) (t : nat) (m : token_persistent_main) (w' : world) : Prop :=
  exists m', w' = put_tdb t m' w /\ base_ok w' /\ db_ok m' /\ (initialized m -> initialized m').

Lemma in_token_sound w t tk m k : base_ok w -> w_tokens w !! t = Some tk -> t_db tk = synced m -> sound (k (synced m)) m ->
  runs (in_token t k) (fun _ => tdb_changed w t m) (fun rc w' => rc <> 0 /\ tdb_changed w t m w') w.
Proof.
  intros Hw Ht Em (m' & E & Hm' & Ho & Hi). unfold in_token. apply runs_bind, (runs_eq _ _ _ _ _ _ (the_token_run w t tk Ht)).
  rewrite Em. destruct (k (synced m)) as [o db]. cbn [fst snd] in *. subst db. apply runs_bind, runs_modify.
  assert (tdb_changed w t m (put_tdb t m' w)) as Hc.
  { exists m'. split_and!; [done| |done|done]. by apply (base_put_tdb w t tk m). }
  unfold runs. by destruct Ho as [->|(rc & -> & Hrc)].
Qed.

Lemma token_db_of w t tk : base_ok w -> w_tokens w !! t = Some tk -> exists m, t_db tk = synced m /\ db_ok m.
Proof. intros Hw Ht. destruct (to_tok _ _ (wo_toks w Hw) _ _ Ht) as (_ & _ & m & Em & Hm & _). eauto. Qed.

Lemma put_tdb_lookup w t tk m : w_tokens w !! t = Some tk -> w_tokens (put_tdb t m w) !! t = Some (set_db (synced m) tk).
Proof. intros Ht. cbn [w_tokens put_tdb set_tokens]. by rewrite list_lookup_alter_eq, Ht. Qed.

(** ** Loops over the client's sessions on a token *)

Section Loop.
Context (w : world) (s : pkcs11_session) (Hd : NoDup (s_addr <$> w_sessions w)).

(** The sessions the loop has seen, when [rest] remain. *)
Definition seen (rest : list Z) (x : pkcs11_session) : bool := same_login s x && bool_decide (s_addr x ∉ rest).

Definition remain (rest : list Z) : Prop := NoDup rest /\
  forall a, a ∈ rest -> exists x, x ∈ w_sessions w /\ s_addr x = a /\ s_client x = s_client s.

Lemma remain_start : remain (s_addr <$> session_list (s_client s) w).
Proof.
  split; [by apply NoDup_filter_fmap|]. intros a (x & -> & Hx)%list_elem_of_fmap.
  apply elem_of_filter_fun in Hx as [Hx E]. bool_hyps. by exists x.
Qed.

Lemma remain_cons a rest : remain (a :: rest) -> remain rest /\ a ∉ rest /\
  exists x, x ∈ w_sessions w /\ s_addr x = a /\ s_client x = s_client s.
Proof.
  intros [[Ha Hn]%NoDup_cons Hin]. split; [split; [done|] | split; [done|]].
  - intros b Hb. apply Hin, elem_of_cons. by right.
  - apply Hin, elem_of_cons. by left.
Qed.

Lemma seen_nil x : seen [] x = same_login s x.
Proof. unfold seen. rewrite bool_decide_eq_true_2 by (by intros ?%elem_of_nil). apply andb_true_r. Qed.

Lemma seen_start x : x ∈ w_sessions w -> seen (s_addr <$> session_list (s_client s) w) x = false.
Proof.
  intros Hx. unfold seen. destruct (same_login s x) eqn:E; [|done]. apply bool_decide_eq_false_2. intros Hn. apply Hn.
  apply list_elem_of_fmap. exists x. split; [done|]. apply elem_of_filter_fun. split; [done|].
  apply same_login_iff in E as [-> _]. apply Z.eqb_refl.
Qed.

Lemma seen_head x rest : seen (s_addr x :: rest) x = false.
Proof.
  unfold seen. rewrite bool_decide_eq_false_2; [apply andb_false_r|]. intros Hn. apply Hn, elem_of_cons. by left.
Qed.

(** Seeing [x] makes the difference for [x] only. *)
Lemma seen_step x y rest : x ∈ w_sessions w -> y ∈ w_sessions w -> s_addr x ∉ rest ->
  seen rest y = seen (s_addr x :: rest) y || (same_login s x && (s_addr y =? s_addr x)).
Proof.
  intros Hx Hy Hr. destruct (s_addr y =? s_addr x) eqn:E; bool_hyps.
  - rewrite (addr_inj s_addr _ y x Hd Hy Hx E), seen_head. unfold seen. by rewrite bool_decide_eq_true_2.
  - rewrite andb_false_r, orb_false_r. unfold seen. f_equal. apply bool_decide_ext. rewrite not_elem_of_cons. naive_solver.
Qed.

Lemma seen_skip x y rest : x ∈ w_sessions w -> y ∈ w_sessions w -> s_addr x ∉ rest -> same_login s x = false ->
  seen rest y = seen (s_addr x :: rest) y.
Proof. intros Hx Hy Hr E. rewrite (seen_step x y rest Hx Hy Hr), E. apply orb_false_r. Qed.

(** Updating [x] after those seen before. *)
Lemma upd_seen_step f x rest : (forall y, s_addr (f y) = s_addr y) -> x ∈ w_sessions w -> s_addr x ∉ rest ->
  same_login s x = true ->
  upd (is_session (s_addr x)) f (upd (seen (s_addr x :: rest)) f (w_sessions w)) = upd (seen rest) f (w_sessions w).
Proof.
  intros Hf Hx Hr Hsl. unfold upd. rewrite <- list_fmap_compose. apply list_fmap_ext. intros i y Hy%list_elem_of_lookup_2.
  unfold compose. rewrite (seen_step x y rest Hx Hy Hr), Hsl. cbn [andb]. unfold is_session.
  destruct (s_addr y =? s_addr x) eqn:E; bool_hyps.
  - rewrite (addr_inj s_addr _ y x Hd Hy Hx E), seen_head, Z.eqb_refl. done.
  - rewrite orb_false_r. destruct (seen _ y); rewrite ?Hf; by rewrite (proj2 (Z.eqb_neq _ _) E).
Qed.
End Loop.

(** [session_login_so()]: all the client's sessions on the token are read/write. *)
Lemma session_login_so_run w s : base_ok w -> s ∈ w_sessions w ->
  (forall x, x ∈ w_sessions w -> same_login s x = true -> pkcs11_session_is_read_write x = true) ->
  session_login_so (s_addr s) w = (Ret tt, upd_world (same_login s) (set_state PKCS11_CKS_RW_SO_FUNCTIONS) w).
Proof.
  intros Hw Hs Hrw. pose proof (sess_addrs w Hw) as Hd. pose (st := set_state PKCS11_CKS_RW_SO_FUNCTIONS).
  pose (I := fun rest w' => w' = upd_world (seen s rest) st w /\ remain w s rest).
  enough (runs (session_login_so (s_addr s)) (fun _ => I []) (fun _ _ => False) w) as Hr.
  { unfold runs in Hr. destruct (session_login_so (s_addr s) w) as [[[]|? | |?] w']; try done.
    destruct Hr as (-> & _). unfold upd_world. rewrite (upd_ext (seen s []) (same_login s)); [done|]. intros x _. apply seen_nil. }
  unfold session_login_so. apply runs_bind, (runs_eq _ _ _ _ _ _ (the_session_run w s Hd Hs)), runs_bind, runs_get.
  apply runs_for_each.
  - intros a rest w' (-> & Hrem). apply remain_cons in Hrem as (Hrem & Ha & x & Hx & <- & Ex).
    apply runs_bind. eapply runs_eq; [apply (the_session_run _ x)|]; cbn [w_sessions upd_world set_sessions].
    { by rewrite fmap_upd. }
    { apply elem_of_upd. exists x. by rewrite seen_head. }
    cbv beta. destruct (s_token x =? s_token s)%nat eqn:Et; cbn [negb].
    + assert (same_login s x = true) as Hsl by (unfold same_login; by rewrite Ex, Z.eqb_refl, Et).
      rewrite (Hrw x Hx Hsl). apply runs_modify. split; [|done].
      change (set_sessions (upd (is_session (s_addr x)) st (upd (seen s (s_addr x :: rest)) st (w_sessions w))) w =
              set_sessions (upd (seen s rest) st (w_sessions w)) w). by rewrite upd_seen_step.
    + apply runs_ret. split; [|done]. unfold upd_world. f_equal. apply upd_ext. intros y Hy. symmetry.
      apply (seen_skip w s Hd x y rest Hx Hy Ha). unfold same_login. by rewrite Et, andb_false_r.
  - split; [|by apply remain_start]. unfold upd_world. rewrite upd_id; [by destruct w|]. intros x Hx E. by rewrite seen_start in E.
Qed.

(** Sessions and objects are as before. *)
Definition same_use (w w' : world) : Prop := w_sessions w' = w_sessions w /\ w_objects w' = w_objects w.

Section Auth.
Context (sha256 : list Z -> list Z) (v : ta_env) (Hv : storage_ok (v_tee v)).

Lemma init_pin_sound w s pin : world_ok w -> s ∈ w_sessions w ->
  runs (init_pin sha256 v (s_addr s) pin) (fun _ w' => world_ok w' /\ same_use w w')
    (fun rc w' => rc <> 0 /\ world_ok w' /\ same_use w w') w.
Proof.
  intros [Hw Hl] Hs. destruct (sess_in w Hw s Hs) as [Es _]. destruct (token_of_session w s Hw Hs) as [tk Ht].
  destruct (token_db_of w _ tk Hw Ht) as (m & Em & Hm). unfold init_pin.
  apply runs_bind, (runs_eq _ _ _ _ _ _ Es), runs_bind, runs_guard; [done|]. intros Hso. bool_hyps.
  apply runs_bind, (runs_eq _ _ _ _ _ _ (the_token_run w _ tk Ht)), runs_bind, runs_assert.
  { apply (so_initialized w s); [done..| |done]. unfold pkcs11_session_is_so in Hso. by destruct (s_state s). }
  eapply runs_mono; [apply (in_token_sound w _ tk m _ Hw Ht Em); by apply set_pin_sound|..].
  - by intros _ w' (m' & -> & Hb & _).
  - by intros rc w' [Hrc (m' & -> & Hb & _)].
Qed.

Lemma change_pin_sound w s old_pin pin : world_ok w -> s ∈ w_sessions w ->
  runs (change_pin sha256 v (s_addr s) old_pin pin) (fun _ w' => world_ok w' /\ same_use w w')
    (fun rc w' => rc <> 0 /\ world_ok w' /\ same_use w w') w.
Proof.
  intros [Hw Hl] Hs. destruct (sess_in w Hw s Hs) as [Es _]. destruct (token_of_session w s Hw Hs) as [tk Ht].
  destruct (token_db_of w _ tk Hw Ht) as (m & Em & Hm). unfold change_pin.
  apply runs_bind, (runs_eq _ _ _ _ _ _ Es), runs_bind, runs_guard; [done|]. intros _.
  apply runs_bind, (runs_eq _ _ _ _ _ _ (the_token_run w _ tk Ht)).
  assert (forall u (check : M token_db unit), sound (check (synced m)) m ->
    runs (do! in_token (s_token s) check in
          in_token (s_token s) (set_pin sha256 (v_tee v) (pkcs11_session_is_read_write s) pin u))
      (fun _ w' => world_ok w' /\ same_use w w') (fun rc w' => rc <> 0 /\ world_ok w' /\ same_use w w') w) as Hset.
  { intros u check Hc. apply runs_bind. eapply runs_mono; [apply (in_token_sound w _ tk m _ Hw Ht Em Hc)|..].
    - intros _ w' (m' & -> & Hb & Hm' & _).
      eapply runs_mono; [apply (in_token_sound _ _ _ m' _ Hb (put_tdb_lookup _ _ tk m' Ht) eq_refl); by apply set_pin_sound|..].
      + by intros _ w' (m2 & -> & Hb' & _).
      + by intros rc w' [Hrc (m2 & -> & Hb' & _)].
    - by intros rc w' [Hrc (m' & -> & Hb & _)]. }
  rewrite Em. cbn [db_main synced]. destruct (pkcs11_session_is_so s); apply runs_bind, runs_guard; try done; intros Hi; bool_hyps.
  - apply Hset. by apply (check_pin_sound sha256 PKCS11_CKU_SO).
  - apply Hset. by apply (check_pin_sound sha256 PKCS11_CKU_USER).
Qed.

(** A session after a login of [u]. *)
Definition login_as (u : pkcs11_user_type) (x : pkcs11_session) : pkcs11_session :=
  set_state match u with
            | PKCS11_CKU_SO => PKCS11_CKS_RW_SO_FUNCTIONS
            | PKCS11_CKU_USER =>
                if pkcs11_session_is_read_write x then PKCS11_CKS_RW_USER_FUNCTIONS else PKCS11_CKS_RO_USER_FUNCTIONS
            end x.

Lemma login_as_keys u x : strip (login_as u x) = strip x /\ login_of (login_as u x) = Some u.
Proof. split; [done|]. unfold login_as, login_of, set_state. cbn [s_state]. destruct u; [done|]. by case_test. Qed.

Lemma world_login w s u : world_ok w ->
  (u = PKCS11_CKU_SO -> forall x, x ∈ w_sessions w -> same_login s x = true -> pkcs11_session_is_read_write x = true) ->
  (u = PKCS11_CKU_SO -> forall tk, w_tokens w !! s_token s = Some tk -> initialized (db_main (t_db tk))) ->
  world_ok (upd_world (same_login s) (login_as u) w).
Proof.
  intros [Hb Hl] Hrw Hi. split; [|by apply (login_upd_all _ _ _ (Some u)); [|apply login_as_keys]].
  apply base_upd; [done|]. intros x Hx Hsl. split; [apply login_as_keys|]. split.
  - destruct u; [by rewrite (Hrw eq_refl x Hx Hsl)|]. unfold login_as, set_state, pkcs11_session_is_read_write. cbn [s_state]. by destruct (s_state x).
  - apply same_login_iff in Hsl as [_ ->]. destruct u; [intros _; by apply Hi|]. unfold login_as, set_state. cbn [s_state].
    by destruct (pkcs11_session_is_read_write x).
Qed.

(** The state after a login. *)
Definition logged_in (w : world) (s : pkcs11_session) (u : pkcs11_user_type) (w' : world) : Prop :=
  world_ok w' /\ w_clients w' = w_clients w /\ w_objects w' = w_objects w /\
  w_sessions w' = upd (same_login s) (login_as u) (w_sessions w).

(** Nobody is logged in, the officer's login finds no read-only session, and the PIN is accepted. *)
Definition may_login (w : world) (s : pkcs11_session) (u : pkcs11_user_type) (pin : option (list Z)) : Prop :=
  login_of s = None /\
  (u = PKCS11_CKU_SO -> forall x, x ∈ w_sessions w -> same_login s x = true -> pkcs11_session_is_read_write x = true) /\
  forall tk, w_tokens w !! s_token s = Some tk -> fst (check_pin sha256 u (v_tee v) pin (t_db tk)) = Ret tt.

(** The guard that refuses a login while somebody is logged in. *)
Lemma logged_in_guards s : (pkcs11_session_is_so s = true -> login_of s <> None) /\
  (pkcs11_session_is_user s = true -> login_of s <> None) /\
  (pkcs11_session_is_so s = false -> pkcs11_session_is_user s = false -> login_of s = None).
Proof. unfold pkcs11_session_is_so, pkcs11_session_is_user, login_of. by destruct (s_state s). Qed.

Lemma read_only_exists w s :
  existsb (fun x => (s_token x =? s_token s)%nat && negb (pkcs11_session_is_read_write x)) (session_list (s_client s) w) = false <->
  forall x, x ∈ w_sessions w -> same_login s x = true -> pkcs11_session_is_read_write x = true.
Proof.
  rewrite <- not_true_iff_false, existsb_exists. split.
  - intros Hro x Hx [Hc Ht]%same_login_iff. destruct (pkcs11_session_is_read_write x) eqn:E; [done|]. exfalso. apply Hro. exists x.
    rewrite Ht, Nat.eqb_refl, E. split; [|done]. apply filter_In. split; [by apply list_elem_of_In|]. by rewrite Hc, Z.eqb_refl.
  - intros Hall (x & Hx & [Et Er]%andb_true_iff). apply filter_In in Hx as [Hx%list_elem_of_In Hc%Z.eqb_eq].
    apply Nat.eqb_eq in Et. rewrite Hall in Er; [done..|]. by apply same_login_iff.
Qed.

(** The check of the PIN during a login. *)
Lemma login_check w s tk m u pin : base_ok w -> w_tokens w !! s_token s = Some tk -> t_db tk = synced m -> db_ok m ->
  (u = PKCS11_CKU_SO -> initialized m) ->
  runs (in_token (s_token s) (check_pin sha256 u (v_tee v) pin))
    (fun _ w' => tdb_changed w (s_token s) m w' /\ forall t, w_tokens w !! s_token s = Some t ->
       fst (check_pin sha256 u (v_tee v) pin (t_db t)) = Ret tt)
    (fun rc w' => rc <> 0 /\ tdb_changed w (s_token s) m w' /\ ~ may_login w s u pin) w.
Proof.
  intros Hw Ht Em Hm Hi.
  assert (fst (in_token (s_token s) (check_pin sha256 u (v_tee v) pin) w) = fst (check_pin sha256 u (v_tee v) pin (t_db tk))) as Ef.
  { unfold in_token. rewrite (bind_run _ _ _ _ _ (the_token_run w _ tk Ht)). by destruct (check_pin _ _ _ _ _). }
  eapply runs_mono; [apply runs_outcome, (in_token_sound w _ tk m _ Hw Ht Em), (check_pin_sound sha256 u); done|..].
  - intros [] w' [Hc E]. split; [done|]. intros t. rewrite Ht. intros [= <-]. congruence.
  - intros rc w' [[Hrc Hc] E]. split_and!; [done..|]. intros (_ & _ & Hck). rewrite (Hck tk Ht) in Ef. congruence.
Qed.

Lemma login_sound w s user_type pin : world_ok w -> s ∈ w_sessions w ->
  (user_type = 0 -> forall tk, w_tokens w !! s_token s = Some tk -> initialized (db_main (t_db tk))) ->
  runs (login sha256 v (s_addr s) user_type pin)
    (fun _ w' => exists u, user_type = user_code u /\ may_login w s u pin /\ logged_in w s u w')
    (fun rc w' => rc <> 0 /\ world_ok w' /\ same_use w w' /\
       forall u, user_type = user_code u -> ~ may_login w s u pin) w.
Proof.
  intros [Hw Hl] Hs Hi. destruct (sess_in w Hw s Hs) as [Es _]. destruct (token_of_session w s Hw Hs) as [tk Ht].
  destruct (token_db_of w _ tk Hw Ht) as (m & Em & Hm). unfold login. apply runs_bind, (runs_eq _ _ _ _ _ _ Es).
  destruct (logged_in_guards s) as (Hgs & Hgu & Hgn).
  destruct (user_type =? 0) eqn:E0; bool_hyps; [|destruct (user_type =? 1) eqn:E1; bool_hyps].
  - assert (forall u, user_type = user_code u -> u = PKCS11_CKU_SO) as Hu by (intros []; cbn; [done|lia]).
    apply runs_bind, runs_guard; [intros H%Hgs; split_and!; [done..|]; by intros u _ [??]|]. intros H1.
    apply runs_bind, runs_guard; [intros H%Hgu; split_and!; [done..|]; by intros u _ [??]|]. intros H2.
    apply runs_bind, runs_get, runs_bind, runs_guard.
    { intros Hro. split_and!; [done..|]. intros u ->%Hu (_ & Hrw & _). pose proof (proj2 (read_only_exists w s) (Hrw eq_refl)). congruence. }
    intros Hrw. pose proof (proj1 (read_only_exists w s) Hrw) as Hall. apply runs_bind. eapply runs_mono.
    + apply (login_check w s tk m PKCS11_CKU_SO pin Hw Ht Em Hm). intros _. specialize (Hi E0 tk Ht). by rewrite Em in Hi.
    + intros _ w' [(m' & -> & Hb & _ & Hinit) Hck]. eapply runs_eq; [by apply session_login_so_run|].
      exists PKCS11_CKU_SO. split; [done|]. split; [split; [by apply Hgn | by split]|]. split; [|done].
      apply (world_login (put_tdb (s_token s) m' w) s PKCS11_CKU_SO); [done|done|].
      intros _ tk'. rewrite (put_tdb_lookup w _ tk m' Ht). intros [= <-]. apply Hinit. specialize (Hi E0 tk Ht). by rewrite Em in Hi.
    + intros rc w' (Hrc & (m' & -> & Hb & _) & Hno). split_and!; [done..|]. by intros u ->%Hu.
  - assert (forall u, user_type = user_code u -> u = PKCS11_CKU_USER) as Hu by (intros []; cbn; [lia|done]).
    apply runs_bind, runs_guard; [intros H%Hgs; split_and!; [done..|]; by intros u _ [??]|]. intros H1.
    apply runs_bind, runs_guard; [intros H%Hgu; split_and!; [done..|]; by intros u _ [??]|]. intros H2.
    apply runs_bind. eapply runs_mono; [by apply (login_check w s tk m PKCS11_CKU_USER pin Hw Ht Em Hm)|..].
    + intros _ w' [(m' & -> & Hb & _) Hck]. unfold session_login_user.
      apply runs_bind. eapply runs_eq; [by apply (the_session_run (put_tdb (s_token s) m' w) s (sess_addrs w Hw))|].
      apply runs_modify. exists PKCS11_CKU_USER. split; [done|]. split; [split; [by apply Hgn | by split]|]. split; [|done].
      by apply (world_login (put_tdb (s_token s) m' w) s PKCS11_CKU_USER).
    + intros rc w' (Hrc & (m' & -> & Hb & _) & Hno). split_and!; [done..|]. by intros u ->%Hu.
  - assert (forall u, user_type <> user_code u) as Hu by (intros []; cbn; lia).
    destruct (user_type =? 2); apply runs_err; split_and!; try done; by intros u ?%Hu.
Qed.
End Auth.
