(* ===== verification/Pkcs11SessionSafe.v ===== *)
(** * The commands of the PKCS#11 TA keep its invariant

    Opening and closing of sessions, logout, creation of objects and initialisation of a token
    preserve [world_ok], and so do the commands built on them and on the calls of
    [Pkcs11SessionInv]; what a login and a logout achieve; and the states in which the code fails. *)
From stdpp Require Import gmap.
From S2P Require Import Prelude HandleDb Pkcs11Attrs Pkcs11Pin Pkcs11Session Pkcs11SessionInv.
#[local] Open Scope Z_scope.

(** ** Closing a session *)

Lemma filter_fmap_comm {A B} (p : B -> bool) (q : A -> bool) (g : A -> B) l : (forall x, q x = p (g x)) ->
  g <$> List.filter q l = List.filter p (g <$> l).
Proof.
  intros E. induction l as [|x l IH]; [done|]. rewrite fmap_cons. cbn [List.filter]. rewrite E. destruct (p (g x));
    [rewrite fmap_cons|]; by rewrite IH.
Qed.

(** A list without the element at [a]. *)
Lemma filter_remove_count (p : pkcs11_session -> bool) l k : NoDup (s_addr <$> l) -> k ∈ l ->
  lenZ (List.filter p (List.filter (fun x => negb (is_session (s_addr k) x)) l)) =
  lenZ (List.filter p l) - (if p k then 1 else 0).
Proof.
  induction l as [|x l IH]; intros Hd Hk; [by apply elem_of_nil in Hk|]. rewrite fmap_cons in Hd.
  apply NoDup_cons in Hd as [Hn Hd]. cbn [List.filter]. unfold is_session at 1.
  destruct (s_addr x =? s_addr k) eqn:E; bool_hyps; cbn [negb].
  - assert (k = x) as ->.
    { apply elem_of_cons in Hk as [->|Hk]; [done|]. exfalso. apply Hn. rewrite E. apply list_elem_of_fmap. by exists k. }
    assert (List.filter (fun y => negb (is_session (s_addr x) y)) l = l) as ->.
    { clear IH Hk E. induction l as [|y l IH]; [done|]. rewrite fmap_cons in *. apply not_elem_of_cons in Hn as [Hy Hn].
      apply NoDup_cons in Hd as [_ Hd]. cbn [List.filter]. unfold is_session at 1.
      rewrite (proj2 (Z.eqb_neq _ _)) by congruence. cbn [negb]. by rewrite IH. }
    unfold lenZ. destruct (p x); cbn [length]; lia.
  - apply elem_of_cons in Hk as [->|Hk]; [done|]. cbn [List.filter]. specialize (IH Hd Hk). unfold lenZ in *.
    destruct (p x); cbn [length]; lia.
Qed.

Definition drop_session (a : Z) (ks : list pkcs11_session) : list pkcs11_session :=
  List.filter (fun x => negb (is_session a x)) ks.

Lemma elem_of_drop_session a ks s : s ∈ drop_session a ks <-> s ∈ ks /\ s_addr s <> a.
Proof. unfold drop_session. rewrite elem_of_filter_fun. unfold is_session. by rewrite negb_true_iff, Z.eqb_neq. Qed.

Lemma sess_ok_remove cs ks k db db' : sess_ok cs ks -> k ∈ ks -> (s_client k, db) ∈ cs -> db_wf db' ->
  slots 1 db' = delete (s_handle k) (slots 1 db) ->
  sess_ok (put_db (s_client k) db' cs) (drop_session (s_addr k) ks).
Proof.
  intros [[Hc1 Hc2] Ha Hp Hwf Hdb] Hk Hdk Hwf' E. split.
  - by rewrite put_db_fst.
  - by apply NoDup_filter_fmap.
  - intros s [Hs _]%elem_of_drop_session. rewrite put_db_fst. auto.
  - intros c d [[_ Hx]|(_ & -> & _)]%elem_of_put_db; eauto.
  - intros c d h p [[Hne Hx]|(-> & -> & _)]%elem_of_put_db.
    + rewrite (Hdb c d h p Hx). split; intros (s & Hs & Ec & Hr); exists s; (split; [|done]).
      * apply elem_of_drop_session. split; [done|]. intros Es. apply Hne. rewrite <- Ec. f_equal.
        by apply (addr_inj s_addr ks).
      * by apply elem_of_drop_session in Hs as [Hs _].
    + rewrite E, lookup_delete_Some, (Hdb _ _ _ _ Hdk). split.
      * intros [Hne (s & Hs & Ec & Eh & Ep)]. exists s. split; [|done]. apply elem_of_drop_session. split; [done|].
        intros Es. apply Hne. rewrite <- Eh. f_equal. symmetry. by apply (addr_inj s_addr ks).
      * intros (s & Hs & Ec & Eh & Ep). apply elem_of_drop_session in Hs as [Hs Hne]. split; [|by exists s].
        intros Ehk. apply Hne. pose proof (proj2 (Hdb _ _ (s_handle k) (s_addr s) Hdk)) as A.
        pose proof (proj2 (Hdb _ _ (s_handle k) (s_addr k) Hdk)) as B.
        rewrite A in B by (exists s; split_and!; congruence). specialize (B ltac:(by exists k)). congruence.
Qed.

Lemma objs_remove_session cs ks os us a : objs_ok cs ks os us -> (forall o, o ∈ os -> o_owner o <> InSession a) ->
  objs_ok cs (drop_session a ks) os us.
Proof.
  intros [Ha Hw Hu Hn Hdb] Ho. split; try done.
  - intros o Hin. destruct (Hw o Hin) as [Hp Hx]. split; [done|]. specialize (Ho o Hin). destruct (o_owner o) as [s|t]; [|done].
    destruct Hx as ((k & Hk & Es) & Hx). split; [|done]. exists k. split; [|done]. apply elem_of_drop_session. naive_solver.
  - intros c db Hc. destruct (Hdb c db Hc) as [Hwf Hl Hi]. split; [done| |done]. intros h p Hs Hp.
    destruct (Hl h p Hs Hp) as (o & Hin & Ea & Hv & Hat). exists o. split_and!; [done..| |done]. specialize (Ho o Hin).
    unfold visible in *. destruct (o_owner o) as [s|t]; [|done]. destruct Hv as (k & Hk & Es & Ec). exists k.
    split_and!; [|done..]. apply elem_of_drop_session. naive_solver.
Qed.

Lemma u32_add n d : u32 (u32 n + d) = u32 (n + d).
Proof. unfold uwrap. by rewrite Zplus_mod_idemp_l. Qed.

Lemma toks_remove ss ts k : toks_ok ss ts -> NoDup (s_addr <$> ss) -> k ∈ ss ->
  toks_ok (drop_session (s_addr k) ss)
    (alter (add_counts (-1) (if pkcs11_session_is_read_write k then -1 else 0)) (s_token k) ts).
Proof.
  intros [Hl Ht] Hd Hk. split.
  - intros s [Hs _]%elem_of_drop_session. rewrite length_alter. auto.
  - intros t tk E. assert (exists tk0, ts !! t = Some tk0 /\ tk = if (s_token k =? t)%nat
      then add_counts (-1) (if pkcs11_session_is_read_write k then -1 else 0) tk0 else tk0) as (tk0 & E0 & ->).
    { destruct (decide (s_token k = t)) as [<-|Hne].
      - rewrite list_lookup_alter_eq in E. apply fmap_Some in E as (tk0 & E & ->). exists tk0. by rewrite Nat.eqb_refl.
      - rewrite list_lookup_alter_ne in E by done. exists tk. by rewrite (proj2 (Nat.eqb_neq _ _)). }
    destruct (Ht t tk0 E0) as (H1 & H2 & m & Em & Hm & Hso).
    assert (t_db (if (s_token k =? t)%nat then add_counts (-1) (if pkcs11_session_is_read_write k then -1 else 0) tk0 else tk0)
      = t_db tk0) as Edb by (by destruct (s_token k =? t)%nat).
    split; [|split].
    + unfold count_sessions, drop_session. rewrite filter_remove_count by done. unfold on_token at 2.
      destruct (s_token k =? t)%nat; [|by rewrite Z.sub_0_r]. cbn [t_session_count add_counts]. by rewrite H1, u32_add.
    + unfold count_rw, drop_session. rewrite filter_remove_count by done. unfold on_token at 2.
      destruct (s_token k =? t)%nat; cbn [andb]; [|by rewrite Z.sub_0_r]. cbn [t_rw_session_count add_counts].
      rewrite H2, u32_add. f_equal. unfold count_rw. destruct (pkcs11_session_is_read_write k); lia.
    + exists m. rewrite Edb. split_and!; [done..|]. intros (s & Hs & Hr). apply Hso. exists s. split; [|done].
      by apply elem_of_drop_session in Hs as [Hs _].
Qed.

Lemma filter_filter_le {A} (p q : A -> bool) l : (length (List.filter p (List.filter q l)) <= length (List.filter p l))%nat.
Proof. induction l as [|x l IH]; [done|]. cbn [List.filter]. destruct (q x); cbn [List.filter]; destruct (p x); cbn [length]; lia. Qed.

Lemma filter_filter_lt {A} (p q : A -> bool) l x : x ∈ l -> p x = true -> q x = false ->
  (length (List.filter p (List.filter q l)) < length (List.filter p l))%nat.
Proof.
  intros Hx Hp Hq. induction l as [|y l IH]; [by apply elem_of_nil in Hx|]. cbn [List.filter].
  apply elem_of_cons in Hx as [<-|Hx].
  - rewrite Hq, Hp. cbn [length]. pose proof (filter_filter_le p q l). lia.
  - specialize (IH Hx). destruct (q y); cbn [List.filter]; destruct (p y); cbn [length]; lia.
Qed.

Lemma elem_of_session_objects a w o : o ∈ session_objects a w <-> o ∈ w_objects w /\ o_owner o = InSession a.
Proof. unfold session_objects. rewrite elem_of_filter_fun. by rewrite bool_decide_eq_true. Qed.

Lemma destroy_session_objects_run v s k w : base_ok w -> s ∈ w_sessions w ->
  (length (session_objects (s_addr s) w) <= k)%nat ->
  exists w', destroy_session_objects v k (s_addr s) w = (Ret tt, w') /\ base_ok w' /\ w_sessions w' = w_sessions w /\
    w_tokens w' = w_tokens w /\
    (forall o, o ∈ w_objects w' <-> o ∈ w_objects w /\ o_owner o <> InSession (s_addr s)).
Proof.
  revert w. induction k as [|k IH]; intros w Hw Hs Hk; destruct (session_objects (s_addr s) w) as [|o r] eqn:El;
    try (cbn [length] in Hk; lia).
  1, 2: exists w; unfold destroy_session_objects, bind, get; rewrite El; split_and!; [done..|]; intros o;
    (split; [|by intros []]); intros Ho; (split; [done|]); intros Ew;
    assert (o ∈ session_objects (s_addr s) w) as Hin by (by apply elem_of_session_objects); rewrite El in Hin;
    by apply elem_of_nil in Hin.
  assert (o ∈ session_objects (s_addr s) w) as Ho by (rewrite El; set_solver).
  apply elem_of_session_objects in Ho as [Ho Ew].
  destruct (destroy_session_only_run v w Hw s o Hs Ho Ew) as (w1 & E1 & Hw1 & Es1 & Eo1 & Et1).
  destruct (IH w1) as (w2 & E2 & Hw2 & Es2 & Et2 & Ho2); [done | by rewrite Es1| |].
  { pose proof (filter_filter_lt (fun o => bool_decide (o_owner o = InSession (s_addr s)))
      (fun x => negb (o_addr x =? o_addr o)) (w_objects w) o Ho) as Hlt.
    unfold session_objects in *. rewrite Eo1. unfold without. rewrite El in Hlt. cbn [length] in *.
    rewrite bool_decide_eq_true_2, Z.eqb_refl in Hlt by done. specialize (Hlt eq_refl eq_refl). lia. }
  exists w2. cbn [destroy_session_objects]. rewrite (bind_run _ _ _ _ _ (eq_refl : get w = (Ret w, w))), El.
  rewrite (bind_run _ _ _ _ _ E1). split_and!; [done | done | congruence | congruence|].
  intros o'. rewrite Ho2, Eo1, elem_of_without. split; [naive_solver|]. intros [Ho' Hne]. split_and!; [done| |done].
  intros Ea. apply Hne. by rewrite (addr_inj o_addr (w_objects w) o' o (oo_addrs _ _ _ _ (wo_objs w Hw)) Ho' Ho Ea).
Qed.

(** The session without its processing and search. *)
Definition idle (s : pkcs11_session) : pkcs11_session := set_find_ctx None (set_processing None s).

Definition closed (w : world) (s : pkcs11_session) (w' : world) : Prop :=
  base_ok w' /\ w_sessions w' = drop_session (s_addr s) (w_sessions w) /\
  (forall o, o ∈ w_objects w' <-> o ∈ w_objects w /\ o_owner o <> InSession (s_addr s)).

Lemma drop_session_upd a sel f ss : (forall x, sel x = is_session a x) -> (forall x, s_addr (f x) = s_addr x) ->
  drop_session a (upd sel f ss) = drop_session a ss.
Proof.
  intros Hsel Hf. induction ss as [|x ss IH]; [done|]. unfold upd, drop_session in *. rewrite fmap_cons. cbn [List.filter].
  rewrite Hsel. assert (is_session a (if is_session a x then f x else x) = is_session a x) as ->.
  { unfold is_session. destruct (s_addr x =? a) eqn:E; [by rewrite Hf | done]. }
  destruct (is_session a x); cbn [negb]; [done | by rewrite IH].
Qed.

(** ** Session handles *)

Lemma session_in w s : base_ok w -> s ∈ w_sessions w ->
  exists c, c ∈ w_clients w /\ c_addr c = s_client s /\ db_wf (c_session_db c) /\ 
    slots 1 (c_session_db c) !! s_handle s = Some (s_addr s).
Proof.
  intros Hw Hs. destruct (sess_in w Hw s Hs) as [_ (c & Hc & Ec & _)]. exists c. split_and!; [done..| |].
  - by eapply so_wf, elem_of_sdbs; [apply Hw|].
  - apply (so_db _ _ (wo_sess w Hw) _ _ _ _ (elem_of_sdbs w c Hc)). exists (strip s).
    split_and!; [by apply elem_of_strip | done..].
Qed.

Lemma remove_session_ok w s c db : base_ok w -> s ∈ w_sessions w -> c ∈ w_clients w -> c_addr c = s_client s ->
  db_wf db -> slots 1 db = delete (s_handle s) (slots 1 (c_session_db c)) ->
  (forall o, o ∈ w_objects w -> o_owner o <> InSession (s_addr s)) ->
  base_ok (set_tokens (alter (add_counts (-1) (if pkcs11_session_is_read_write s then -1 else 0)) (s_token s) (w_tokens w))
    (put_sdb (c_addr c) db (set_sessions (drop_session (s_addr s) (w_sessions w)) w))).
Proof.
  intros Hw Hs Hc Ec Hdb E Ho. set (w' := set_tokens _ _).
  assert (skeys w' = drop_session (s_addr s) (skeys w)) as Ek by (apply filter_fmap_comm; done).
  assert (sdbs w' = put_db (s_client s) db (sdbs w)) as Es by (rewrite <- Ec; exact (sdbs_put_sdb (c_addr c) db (set_sessions (drop_session (s_addr s) (w_sessions w)) w))).
  assert (odbs w' = odbs w) as Eo
    by exact (odbs_put_sdb (c_addr c) db (set_sessions (drop_session (s_addr s) (w_sessions w)) w)).
  assert (uuids w' = uuids w) as Eu.
  { unfold uuids, w'. cbn [w_tokens set_tokens]. apply list_eq. intros i. rewrite !list_lookup_fmap.
    destruct (decide (i = s_token s)) as [->|Hne]; [|by rewrite list_lookup_alter_ne].
    rewrite list_lookup_alter_eq. by destruct (w_tokens w !! s_token s). }
  split; rewrite ?Ek, ?Es, ?Eo, ?Eu.
  - apply (sess_ok_remove _ _ (strip s) (c_session_db c)); [apply Hw | by apply elem_of_strip| |done|done].
    cbn [strip s_client]. rewrite <- Ec. by apply elem_of_sdbs.
  - by apply toks_remove; [apply Hw | apply sess_addrs|].
  - apply objs_remove_session; [apply Hw | done].
Qed.

Lemma close_ck_session_run v w s : base_ok w -> s ∈ w_sessions w ->
  exists w', close_ck_session v (s_addr s) w = (Ret tt, w') /\ closed w s w'.
Proof.
  intros Hw Hs.
  set (w1 := upd_world (is_session (s_addr s)) (set_processing None) w).
  set (w2 := upd_world (is_session (s_addr s)) (set_find_ctx None) w1).
  assert (base_ok w2) as Hw2 by (do 2 (apply base_upd_keep; [|done]); done).
  assert (idle s ∈ w_sessions w2) as Hs2.
  { apply elem_of_upd. exists (set_processing None s). unfold is_session. cbn [s_addr set_processing]. rewrite Z.eqb_refl.
    split; [|done]. apply elem_of_upd. exists s. unfold is_session. by rewrite Z.eqb_refl. }
  destruct (destroy_session_objects_run v (idle s) (length (session_objects (s_addr s) w2)) w2 Hw2 Hs2 (le_n _))
    as (w3 & E3 & Hw3 & Es3 & Et3 & Ho3). rewrite <- Es3 in Hs2.
  destruct (session_in w3 (idle s) Hw3 Hs2) as (c & Hc & Ec & Hwf & Hsl).
  assert (0 <= s_handle s) as Hh by (apply slots_Some in Hsl as (_ & Hh & _); exact Hh).
  destruct (pkcs11_put_run (c_session_db c) (s_handle s) Hwf Hh) as (x & db & Eput & Hwf' & Edel).
  eexists. split.
  - unfold close_ck_session. rewrite (bind_run _ _ _ tt w1) by done. rewrite (bind_run _ _ _ tt w2) by done.
    rewrite (bind_run _ _ _ w2 w2) by done. change (s_addr s) with (s_addr (idle s)) at 1. rewrite (bind_run _ _ _ _ _ E3).
    rewrite (bind_run _ _ _ (idle s) w3) by (by apply (the_session_run w3 (idle s)); [apply sess_addrs|]).
    rewrite (bind_run _ _ _ tt (set_sessions (drop_session (s_addr s) (w_sessions w3)) w3)) by done.
    rewrite <- Ec. rewrite (bind_run _ _ _ x (put_sdb (c_addr c) db (set_sessions (drop_session (s_addr s) (w_sessions w3)) w3)))
      by (apply (in_session_db_run _ c); [exact (client_addrs w3 Hw3)|done|done]).
    reflexivity.
  - split; [|split].
    + apply (remove_session_ok w3 (idle s) c db); try done. intros o Ho. by apply Ho3 in Ho as [_ ?].
    + cbn. rewrite Es3. unfold w2, w1, upd_world. cbn [w_sessions set_sessions]. by rewrite !drop_session_upd.
    + exact Ho3.
Qed.

Lemma login_sub ss ss' : login_ok ss -> (forall s, s ∈ ss' -> s ∈ ss) -> login_ok ss'.
Proof. intros Hl Hsub s1 s2 H1 H2. apply Hl; auto. Qed.

(** The sessions [close_sessions()] closes. *)
Definition to_close (c : Z) (token : option nat) (s : pkcs11_session) : bool :=
  (s_client s =? c) && match token with Some t => (s_token s =? t)%nat | None => true end.

Lemma close_sessions_run v w c token : world_ok w ->
  exists w', close_sessions v c token w = (Ret tt, w') /\ world_ok w' /\
    (forall s, s ∈ w_sessions w' <-> s ∈ w_sessions w /\ to_close c token s = false) /\
    (forall o x, x ∈ w_sessions w -> s_client x <> c -> o_owner o = InSession (s_addr x) -> o ∈ w_objects w' <-> o ∈ w_objects w).
Proof.
  intros [Hw Hl]. pose proof (sess_addrs w Hw) as Hd.
  pose (I := fun (rest : list Z) (w' : world) => base_ok w' /\ NoDup rest /\
    (forall s, s ∈ w_sessions w' <-> s ∈ w_sessions w /\ ~ (to_close c token s = true /\ s_addr s ∉ rest)) /\
    (forall a, a ∈ rest -> exists s, s ∈ w_sessions w /\ s_addr s = a /\ s_client s = c) /\
    (forall o x, x ∈ w_sessions w -> s_client x <> c -> o_owner o = InSession (s_addr x) -> o ∈ w_objects w' <-> o ∈ w_objects w)).
  enough (runs (close_sessions v c token) (fun _ => I []) (fun _ _ => False) w) as Hr.
  { unfold runs in Hr. destruct (close_sessions v c token w) as [[[]|? | |?] w']; try done.
    destruct Hr as (Hb & _ & Hs & _ & Ho). exists w'.
    assert (forall s, s ∈ w_sessions w' <-> s ∈ w_sessions w /\ to_close c token s = false) as Hs'.
    { intros s. rewrite Hs. assert (s_addr s ∉ []) by (by intros ?%elem_of_nil). destruct (to_close c token s); naive_solver. }
    split; [done|]. split; [|by split]. split; [done|]. apply (login_sub (w_sessions w)); [done|]. intros s Hin. by apply Hs' in Hin as [? _]. }
  unfold close_sessions. apply runs_bind, runs_get, runs_for_each.
  - intros a rest w' (Hb & Hn & Hs & Hin & Ho). apply NoDup_cons in Hn as [Ha Hn].
    destruct (Hin a ltac:(set_solver)) as (s & Hsw & <- & Ec).
    assert (s ∈ w_sessions w') as Hsw' by (apply Hs; split; [done|]; set_solver).
    apply runs_bind. eapply runs_eq; [by apply the_session_run; [apply sess_addrs|]|].
    assert (forall x, x ∈ w_sessions w -> s_addr x = s_addr s -> x = s) as Hx by (intros x Hx; by apply (addr_inj s_addr (w_sessions w))).
    assert (to_close c token s = match token with Some t => (s_token s =? t)%nat | None => true end) as Etc
      by (unfold to_close; by rewrite Ec, Z.eqb_refl).
    rewrite <- Etc. destruct (to_close c token s) eqn:Eclose.
    + destruct (close_ck_session_run v w' s Hb Hsw') as (w2 & E & Hb2 & Es2 & Eo2). eapply runs_eq; [exact E|].
      split_and!; [done..| |intros a Ha'; apply Hin; set_solver|].
      2: { intros o x Hxw Hxc Eo. rewrite Eo2, <- (Ho o x Hxw Hxc Eo). split; [by intros []|]. intros Hino. split; [done|].
        rewrite Eo. intros [= Ea]. apply Hxc. by rewrite (Hx x Hxw Ea). }
      intros x. rewrite Es2, elem_of_drop_session, Hs. split.
      * intros [[Hxw Hnc] Hne]. split; [done|]. intros [Htc Hxr]. apply Hnc. split; [done|]. by apply not_elem_of_cons.
      * intros [Hxw Hnc]. assert (s_addr x <> s_addr s) as Hne.
        2: { split; [split; [done|]|done]. intros [Htc [_ Hxr]%not_elem_of_cons]. by apply Hnc. }
        intros Ea. apply Hnc. rewrite (Hx x Hxw Ea). done.
    + apply runs_ret. split_and!; [done..| |intros a Ha'; apply Hin; set_solver|done].
      intros x. rewrite Hs. split; intros [Hxw Hnc]; (split; [done|]); intros [Htc Hxr]; apply Hnc; (split; [done|]);
        [|by apply not_elem_of_cons in Hxr as [_ ?]].
      apply not_elem_of_cons. split; [|done]. intros Ea. rewrite (Hx x Hxw Ea) in Htc. congruence.
  - split_and!; [done|by apply NoDup_filter_fmap| | |done].
    + intros s. split; [|by intros []]. intros Hs. split; [done|]. intros [Htc Hnr]. apply Hnr. apply list_elem_of_fmap. exists s.
      split; [done|]. apply elem_of_filter_fun. split; [done|]. by apply andb_true_iff in Htc as [? _].
    + intros a (s & -> & Hs)%list_elem_of_fmap. apply elem_of_filter_fun in Hs as [Hs E]. bool_hyps. by exists s.
Qed.

Lemma filter_pairs (p : Z -> bool) (g : pkcs11_client -> handle_db) l :
  (fun c => (c_addr c, g c)) <$> List.filter (fun c => p (c_addr c)) l =
  List.filter (fun x => p x.1) ((fun c => (c_addr c, g c)) <$> l).
Proof. by apply filter_fmap_comm. Qed.

(** A client without sessions can be dropped. *)
Lemma world_drop_client w c : world_ok w -> (forall s, s ∈ w_sessions w -> s_client s <> c) ->
  world_ok (set_clients (List.filter (fun x => negb (c_addr x =? c)) (w_clients w)) w).
Proof.
  intros [[Hs Ht Ho] Hl] Hn. split; [|done]. split; [|done|].
  - unfold sdbs. cbn [w_clients set_clients]. rewrite (filter_pairs (fun a => negb (a =? c)) c_session_db).
    fold (sdbs w). destruct Hs as [[H1 H2] H3 H4 H5 H6].
    assert (forall x, x ∈ List.filter (fun x : Z * handle_db => negb (x.1 =? c)) (sdbs w) <-> x ∈ sdbs w /\ x.1 <> c) as Hf.
    { intros x. by rewrite elem_of_filter_fun, negb_true_iff, Z.eqb_neq. }
    split.
    + split; [by apply NoDup_filter_fmap|]. intros (x & E & Hx)%list_elem_of_fmap. apply H2. rewrite E. apply list_elem_of_fmap.
      exists x. split; [done|]. by apply Hf in Hx as [? _].
    + done.
    + intros s Hin. destruct (H4 s Hin) as [Hp (x & E & Hx)%list_elem_of_fmap]. split; [done|]. rewrite E. apply list_elem_of_fmap.
      exists x. split; [done|]. apply Hf. split; [done|]. rewrite <- E. apply skeys_elem in Hin as (k & Hk & ->). exact (Hn k Hk).
    + intros a d [Hx _]%Hf. eauto.
    + intros a d h p [Hx _]%Hf. by apply H6.
  - unfold odbs. cbn [w_clients set_clients]. rewrite (filter_pairs (fun a => negb (a =? c)) c_object_db).
    fold (odbs w). destruct Ho as [H1 H2 H3 H4 H5]. split; try done. intros a d [Hx _]%elem_of_filter_fun. by apply H5.
Qed.

Lemma unregister_client_run v w c : world_ok w -> exists w', unregister_client v c w = (Ret tt, w') /\ world_ok w'.
Proof.
  intros Hw. unfold unregister_client. destruct (c =? 0); [by eexists|].
  destruct (close_sessions_run v w c None Hw) as (w1 & E & Hw1 & Hs & _). rewrite (bind_run _ _ _ _ _ E).
  eexists. split; [reflexivity|]. apply world_drop_client; [done|]. intros s Hin Ec. apply Hs in Hin as [_ Htc].
  unfold to_close in Htc. by rewrite Ec, Z.eqb_refl in Htc.
Qed.

(** ** Opening a session *)

(** The address the allocator gives is that of nothing alive. *)
Definition fresh_addr (v : ta_env) (w : world) : Prop := forall a, v_addr v = Some a ->
  ptr_ok a /\ a ∉ c_addr <$> w_clients w /\ a ∉ s_addr <$> w_sessions w /\ a ∉ o_addr <$> w_objects w.

(** The heap is smaller than 8 GiB. *)
Definition heap_ok (v : ta_env) : Prop := forall n, e_malloc (v_tee v) n = true -> n <= 2 ^ 33.

Lemma register_client_ok v w : world_ok w -> fresh_addr v w ->
  runs (register_client v) (fun _ => world_ok) (fun _ _ => False) w.
Proof.
  intros [[Hs Ht Ho] Hl] Hf. unfold register_client. destruct (v_addr v) as [a|] eqn:Ea; [|done].
  destruct (Hf a Ea) as ([Hp1 Hp2] & Hc & Hn & _). apply runs_bind, runs_modify, runs_ret. split; [|done].
  assert (a ∉ (sdbs w).*1) as Hc' by (unfold sdbs; by rewrite <- list_fmap_compose).
  split; [|done|].
  - change (sdbs _) with ((a, mk_db [] 0) :: sdbs w). destruct Hs as [[H1 H2] H3 H4 H5 H6]. split.
    + rewrite fmap_cons. split; [by apply NoDup_cons|]. apply not_elem_of_cons. done.
    + done.
    + intros s Hin. destruct (H4 s Hin). split; [done|]. rewrite fmap_cons. set_solver.
    + intros c db [[= -> ->]|Hx]%elem_of_cons; [apply empty_wf | eauto].
    + intros c db h p [[= -> ->]|Hx]%elem_of_cons; [|by apply H6]. rewrite slots_empty, lookup_empty. split; [done|].
      intros (s & Hin & Ec & _). destruct (H4 s Hin) as [_ Hcl]. by rewrite Ec in Hcl.
  - change (odbs _) with ((a, mk_db [] 0) :: odbs w). destruct Ho as [H1 H2 H3 H4 H5]. split; try done.
    intros c db [[= -> ->]|Hx]%elem_of_cons; [|by apply H5]. split; [apply empty_wf|..]; intros h; intros; by rewrite slots_empty in *.
Qed.

Lemma set_session_state_run w l a t readonly : (forall s, s ∈ l -> s_addr s <> a) ->
  (readonly = true -> forall s, s ∈ l -> pkcs11_session_is_so s = false) ->
  exists st, set_session_state l a t readonly w = (Ret st, w) /\ forall s, s_state s = st ->
    pkcs11_session_is_read_write s = negb readonly /\
    login_of s = match List.find (on_token t) l with Some s' => login_of s' | None => None end.
Proof.
  intros Ha Hro. induction l as [|x l IH]; cbn [set_session_state List.find].
  - eexists. split; [reflexivity|]. intros s E. unfold pkcs11_session_is_read_write, login_of. rewrite E. by destruct readonly.
  - rewrite (proj2 (Z.eqb_neq _ _) (Ha x ltac:(set_solver))). rewrite (bind_run _ _ _ _ _ (eq_refl : assert_ (negb false) w = _)).
    unfold on_token at 1. destruct (s_token x =? t)%nat; [|apply IH; intros; [apply Ha | apply Hro]; set_solver].
    unfold login_of, pkcs11_session_is_read_write. pose proof (fun R => Hro R x ltac:(set_solver)) as Hx.
    unfold pkcs11_session_is_so in Hx.
    destruct (s_state x); destruct readonly; try (eexists; split; [reflexivity|]; intros s E; by rewrite E).
    by specialize (Hx eq_refl).
Qed.

Lemma sess_ok_add cs ks k db db' : sess_ok cs ks -> ptr_ok (s_addr k) -> s_addr k ∉ s_addr <$> ks -> (s_client k, db) ∈ cs ->
  db_wf db' -> slots 1 db !! s_handle k = None -> slots 1 db' = <[s_handle k := s_addr k]> (slots 1 db) ->
  sess_ok (put_db (s_client k) db' cs) (k :: ks).
Proof.
  intros [[Hc1 Hc2] Ha Hp Hwf Hdb] Hk Hn Hdk Hwf' Hf E.
  assert (s_client k ∈ cs.*1) as Hck by (apply list_elem_of_fmap; by exists (s_client k, db)). split.
  - by rewrite put_db_fst.
  - rewrite fmap_cons. by apply NoDup_cons.
  - intros s [->|Hs]%elem_of_cons; rewrite put_db_fst; [done | auto].
  - intros c d [[_ Hx]|(_ & -> & _)]%elem_of_put_db; eauto.
  - intros c d h p [[Hne Hx]|(-> & -> & _)]%elem_of_put_db.
    + rewrite (Hdb c d h p Hx). split; intros (s & Hs & Ec & Hr); exists s; [set_solver|].
      apply elem_of_cons in Hs as [->|Hs]; [by destruct Hne | done].
    + rewrite E, lookup_insert_Some, (Hdb _ _ _ _ Hdk). split.
      * intros [[<- <-]|[Hne (s & Hs & Hr)]]; [exists k; set_solver | exists s; set_solver].
      * intros (s & Hs & Ec & Eh & Ep). apply elem_of_cons in Hs as [->|Hs]; [by left|]. right. split; [|by exists s].
        intros Ehk. assert (slots 1 db !! s_handle k = Some (s_addr s)) as Hx; [|congruence].
        apply (Hdb _ _ _ _ Hdk). exists s. split_and!; congruence.
Qed.

Lemma objs_add_session cs ks os us k : objs_ok cs ks os us -> objs_ok cs (k :: ks) os us.
Proof.
  intros [Ha Hw Hu Hn Hdb]. split; try done.
  - intros o Hin. destruct (Hw o Hin) as [Hp Hx]. split; [done|]. destruct (o_owner o) as [s|t]; [|done].
    destruct Hx as ((k' & Hk & Es) & Hx). split; [|done]. exists k'. set_solver.
  - intros c db Hc. destruct (Hdb c db Hc) as [Hwf Hl Hi]. split; [done| |done]. intros h p Hs Hp.
    destruct (Hl h p Hs Hp) as (o & Hin & Ea & Hv & Hat). exists o. split_and!; [done..| |done].
    unfold visible in *. destruct (o_owner o) as [s|t]; [|done]. destruct Hv as (k' & Hk & Es & Ec). exists k'. set_solver.
Qed.

Lemma toks_add ss ts k n : toks_ok ss ts -> (s_token k < length ts)%nat ->
  n = (if pkcs11_session_is_read_write k then 1 else 0) ->
  (s_state k = PKCS11_CKS_RW_SO_FUNCTIONS -> exists s, s ∈ ss /\ s_token s = s_token k /\ s_state s = PKCS11_CKS_RW_SO_FUNCTIONS) ->
  toks_ok (k :: ss) (alter (add_counts 1 n) (s_token k) ts).
Proof.
  intros [Hl Ht] Hk -> Hsk. split.
  - intros s [->|Hs]%elem_of_cons; rewrite length_alter; auto.
  - intros t tk E. assert (exists tk0, ts !! t = Some tk0 /\ tk = if (s_token k =? t)%nat
      then add_counts 1 (if pkcs11_session_is_read_write k then 1 else 0) tk0 else tk0) as (tk0 & E0 & ->).
    { destruct (decide (s_token k = t)) as [<-|Hne].
      - rewrite list_lookup_alter_eq in E. apply fmap_Some in E as (tk0 & E & ->). exists tk0. by rewrite Nat.eqb_refl.
      - rewrite list_lookup_alter_ne in E by done. exists tk. by rewrite (proj2 (Nat.eqb_neq _ _)). }
    destruct (Ht t tk0 E0) as (H1 & H2 & m & Em & Hm & Hso). unfold count_sessions, count_rw in *. unfold token_ok, count_sessions, count_rw.
    cbn [List.filter]. change (on_token t k) with (s_token k =? t)%nat. destruct (s_token k =? t)%nat eqn:Et; cbn [andb].
    + split; [|split].
      * cbn [t_session_count add_counts]. rewrite H1, u32_add. f_equal. unfold lenZ. cbn [length]. lia.
      * cbn [t_rw_session_count add_counts]. rewrite H2, u32_add. f_equal.
        destruct (pkcs11_session_is_read_write k); unfold lenZ; cbn [length]; lia.
      * exists m. split_and!; [done..|]. intros (s & [->|Hs]%elem_of_cons & Est & Ess); apply Hso; [|by exists s].
        rewrite <- Est. by apply Hsk.
    + split_and!; [done..|]. exists m. split_and!; [done..|]. intros (s & [->|Hs]%elem_of_cons & Est & Ess).
      * rewrite Est, Nat.eqb_refl in Et. done.
      * apply Hso. by exists s.
Qed.

Lemma login_add ss k : login_ok ss ->
  login_of k = match List.find (on_token (s_token k)) (List.filter (fun s => s_client s =? s_client k) ss) with
               | Some s => login_of s | None => None end ->
  login_ok (k :: ss).
Proof.
  intros Hl Hk.
  assert (forall s, s ∈ ss -> same_login k s = true -> login_of k = login_of s) as Hks.
  { intros s Hs Hsl. destruct (List.find _ _) as [s'|] eqn:Ef.
    2: { exfalso. apply same_login_iff in Hsl as [E1 E2]. pose proof (find_none _ _ Ef s) as Hn. unfold on_token in Hn.
      rewrite E2, Nat.eqb_refl in Hn. discriminate Hn. apply filter_In. split; [by apply list_elem_of_In|]. by rewrite E1, Z.eqb_refl. }
    apply find_some in Ef as [Hin Htok]. apply filter_In in Hin as [Hin Hc]. rewrite Hk. apply Hl; [by apply list_elem_of_In|done|].
    apply same_login_iff in Hsl as [E1 E2]. unfold on_token in Htok. bool_hyps. apply Nat.eqb_eq in Htok. apply same_login_iff.
    split; congruence. }
  intros s1 s2 [->|H1]%elem_of_cons [->|H2]%elem_of_cons Hsl; [done|auto| |by apply Hl].
  symmetry. apply Hks; [done|]. apply same_login_iff in Hsl as [E1 E2]. apply same_login_iff. split; congruence.
Qed.

Lemma open_session_sound v w c token_id fl : world_ok w -> fresh_addr v w -> heap_ok v -> c ∈ c_addr <$> w_clients w ->
  0 <= token_id ->
  runs (open_session v c token_id fl)
    (fun h w' => world_ok w' /\ 1 <= h < 2 ^ 30 /\ w_objects w' = w_objects w /\ exists s, w_sessions w' = s :: w_sessions w /\ s_client s = c /\
       s_handle s = h /\ Z.of_nat (s_token s) = token_id /\ pkcs11_session_is_read_write s = has fl PKCS11_CKFSS_RW_SESSION)
    (fun rc w' => rc <> 0 /\ w' = w) w.
Proof.
  intros [Hw Hl] Hf Hheap Hc Hid. apply find_client in Hc as (cl & Hcl & <-). unfold open_session.
  apply runs_bind. unfold get_token. apply runs_bind, runs_get, runs_ret. destruct (token_id <? lenZ (w_tokens w)) eqn:Et;
    [|by apply runs_err]. bool_hyps. set (t := Z.to_nat token_id).
  destruct (lookup_lt_is_Some_2 (w_tokens w) t) as [tk Htk]; [unfold lenZ, t in *; lia|].
  do 2 (apply runs_bind, runs_guard; [done|]; intros _).
  apply runs_bind, (runs_eq _ _ _ _ _ _ (the_token_run w t tk Htk)), runs_bind, runs_guard; [done|]. intros _.
  apply runs_bind, runs_get, runs_bind, runs_guard; [done|]. intros Hso. destruct (v_addr v) as [a|] eqn:Ea; [|by apply runs_err].
  destruct (Hf a Ea) as ([Ha1 Ha2] & _ & Has & _).
  assert (db_wf (c_session_db cl)) as Hwf by (by eapply so_wf, elem_of_sdbs; [apply Hw|]).
  destruct (pkcs11_get_body _ (v_junk v) Hheap a _ Hwf Ha1 Ha2) as (r & db & Eg & Hwf' & Hr).
  pose proof (in_session_db_run w cl _ _ _ (client_addrs w Hw) Hcl Eg) as Eg'.
  apply runs_bind, (runs_eq _ _ _ _ _ _ Eg'). destruct r as [h|]; cbn [default].
  2: { subst db. rewrite (put_sdb_id w cl (client_addrs w Hw) Hcl). by apply runs_bind, runs_guard. }
  destruct Hr as (Hh & Hfree & Hins & _). apply runs_bind, runs_guard; [intros Hh0; apply Z.eqb_eq in Hh0; cbn in Hh0; exfalso; lia|]. intros _.
  assert (forall s, s ∈ session_list (c_addr cl) w -> s ∈ w_sessions w /\ s_client s = c_addr cl) as Hsl.
  { intros s [Hs E]%elem_of_filter_fun. bool_hyps. done. }
  destruct (set_session_state_run (put_sdb (c_addr cl) db w) (session_list (c_addr cl) w) a t
    (negb (has fl PKCS11_CKFSS_RW_SESSION))) as (st & Est & Hst).
  { intros s [Hs _]%Hsl <-. apply Has. apply list_elem_of_fmap. by exists s. }
  { intros Hro s Hs. rewrite Hro in Hso. cbn [andb] in Hso. apply not_true_iff_false. intros E.
    apply not_true_iff_false in Hso. apply Hso, existsb_exists. exists s. split; [by apply list_elem_of_In | done]. }
  apply runs_bind, (runs_eq _ _ _ _ _ _ Est), runs_bind, runs_modify, runs_bind, runs_modify, runs_ret.
  set (k := mk_session a (c_addr cl) t h st None None). destruct (Hst k eq_refl) as [Hrw Hlog]. rewrite negb_involutive in Hrw.
  split; [|split; [done|]; split; [done|]; exists k; split_and!; [done..| |done]; cbn; unfold t; lia].
  set (w' := set_tokens _ _). assert (sdbs w' = put_db (s_client k) db (sdbs w)) as Es by exact (sdbs_put_sdb (c_addr cl) db w).
  assert (odbs w' = odbs w) as Eo by exact (odbs_put_sdb (c_addr cl) db w).
  assert (uuids w' = uuids w) as Eu.
  { unfold uuids, w'. cbn [w_tokens set_tokens]. apply list_eq. intros i. rewrite !list_lookup_fmap.
    destruct (decide (i = t)) as [->|Hne]; [|by rewrite list_lookup_alter_ne]. rewrite list_lookup_alter_eq.
    cbn. by rewrite Htk. }
  assert (login_ok (k :: w_sessions w)) as Hl' by (by apply login_add).
  split; [|exact Hl']. split; rewrite ?Es, ?Eo, ?Eu.
  - apply (sess_ok_add _ _ (strip k) (c_session_db cl)); [apply Hw | done | | by apply elem_of_sdbs | done | done | done].
    change (a ∉ s_addr <$> skeys w). unfold skeys. by rewrite <- list_fmap_compose.
  - apply (toks_add (w_sessions w) (w_tokens w) k); [apply Hw | by eapply lookup_lt_Some | by rewrite Hrw, negb_involutive |].
    intros Eso. assert (login_of k = Some PKCS11_CKU_SO) as Elk by (unfold login_of; by rewrite Eso). rewrite Hlog in Elk.
    destruct (List.find _ _) as [s'|] eqn:Ef; [|done]. apply find_some in Ef as [Hin Htok]. apply list_elem_of_In, Hsl in Hin as [Hin _].
    exists s'. split; [done|]. apply Nat.eqb_eq in Htok. split; [done|]. unfold login_of in Elk. by destruct (s_state s').
  - apply objs_add_session. apply Hw.
Qed.

(** ** Logout *)

(** The object has the private attribute. *)
Definition private_object (o : pkcs11_object) : bool :=
  match o_attributes o with
  | Some b => match fst (get_bool PKCS11_CKA_PRIVATE b) with Ret p => p | _ => false end
  | None => false
  end.

Lemma object_is_private_run w o tok : attrs_ok tok o -> object_is_private o w = (Ret (private_object o), w).
Proof.
  intros (b & l & Eb & Hr & _ & (p & Hp) & _). unfold object_is_private, private_object. rewrite Eb.
  rewrite (on_block_bool w b l _ p Hr Hp). by rewrite (get_bool_spec _ b l Hr), Hp.
Qed.

Lemma logout_objects_run v w s : base_ok w -> s ∈ w_sessions w ->
  exists w', logout_objects v (s_addr s) w = (Ret tt, w') /\ base_ok w' /\ w_sessions w' = w_sessions w /\
    w_tokens w' = w_tokens w /\
    (forall o, o ∈ w_objects w' <-> o ∈ w_objects w /\ ~ (o_owner o = InSession (s_addr s) /\ private_object o = true)).
Proof.
  intros Hw Hs. pose proof (oo_addrs _ _ _ _ (wo_objs w Hw)) as Hd.
  pose (I := fun (rest : list Z) (w' : world) => base_ok w' /\ w_sessions w' = w_sessions w /\ w_tokens w' = w_tokens w /\
    NoDup rest /\ (forall a, a ∈ rest -> exists o, o ∈ w_objects w /\ o_addr o = a /\ o_owner o = InSession (s_addr s)) /\
    (forall o, o ∈ w_objects w' <-> o ∈ w_objects w /\
       ~ ((o_owner o = InSession (s_addr s) /\ private_object o = true) /\ o_addr o ∉ rest))).
  enough (runs (logout_objects v (s_addr s)) (fun _ => I []) (fun _ _ => False) w) as Hr.
  { unfold runs in Hr. destruct (logout_objects v (s_addr s) w) as [[[]|? | |?] w']; try done.
    destruct Hr as (Hb & Es & Et & _ & _ & Ho). exists w'. split_and!; [done..|]. intros o. rewrite Ho.
    assert (o_addr o ∉ []) by (by intros ?%elem_of_nil). naive_solver. }
  unfold logout_objects. apply runs_bind, runs_get, runs_for_each.
  - intros a rest w' (Hb & Es & Et & Hn & Hin & Ho). apply NoDup_cons in Hn as [Ha Hn].
    destruct (Hin a ltac:(set_solver)) as (o & How & <- & Ew).
    assert (o ∈ w_objects w') as How' by (apply Ho; split; [done|]; set_solver).
    assert (forall x, x ∈ w_objects w -> o_addr x = o_addr o -> x = o) as Hx by (intros x Hx; by apply (addr_inj o_addr (w_objects w))).
    assert (attrs_ok false o) as Hat.
    { pose proof (oo_wf _ _ _ _ (wo_objs w Hw) o How) as [_ Hwf]. rewrite Ew in Hwf. apply Hwf. }
    destruct (obj_in w' Hb o How') as [_ Eo].
    apply runs_bind, (runs_eq _ _ _ _ _ _ Eo), runs_bind, (runs_eq _ _ _ _ _ _ (object_is_private_run w' o false Hat)).
    destruct (private_object o) eqn:Ep.
    + rewrite <- Es in Hs. destruct (destroy_session_only_run v w' Hb s o Hs How' Ew) as (w2 & E2 & Hb2 & Es2 & Eo2 & Et2).
      apply (runs_eq _ _ _ _ _ _ E2). split_and!; [done | congruence | congruence | done | intros; apply Hin; set_solver |].
      intros x. rewrite Eo2, elem_of_without, Ho. split.
      * intros [[Hxw Hnc] Hne]. split; [done|]. intros [Hpx Hxr]. apply Hnc. split; [done|]. by apply not_elem_of_cons.
      * intros [Hxw Hnc]. assert (o_addr x <> o_addr o) as Hne.
        { intros Ea. apply Hnc. by rewrite (Hx x Hxw Ea). }
        split; [|done]. split; [done|]. intros [Hpx [_ Hxr]%not_elem_of_cons]. by apply Hnc.
    + apply runs_ret. split_and!; [done..| intros; apply Hin; set_solver |]. intros x. rewrite Ho.
      split; intros [Hxw Hnc]; (split; [done|]); intros [Hpx Hxr]; apply Hnc; (split; [done|]);
        [|by apply not_elem_of_cons in Hxr as [_ ?]].
      apply not_elem_of_cons. split; [|done]. intros Ea. rewrite (Hx x Hxw Ea) in Hpx. destruct Hpx. congruence.
  - split_and!; [done..|by apply NoDup_filter_fmap| |].
    + intros a (o & -> & Hin)%list_elem_of_fmap. apply elem_of_session_objects in Hin as [Hin Ew]. by exists o.
    + intros o. split; [|by intros []]. intros Ho. split; [done|]. intros [[Ew _] Hnr]. apply Hnr. apply list_elem_of_fmap.
      exists o. split; [done|]. by apply elem_of_session_objects.
Qed.

Lemma elem_of_token_objects t w o : o ∈ token_objects t w <-> o ∈ w_objects w /\ o_owner o = InToken t.
Proof. unfold token_objects. rewrite elem_of_filter_fun. by rewrite bool_decide_eq_true. Qed.

(** The client has no handle to a private object of the token. *)
Definition no_private_handles (w : world) (c : Z) (t : nat) : Prop := forall db o h, (c, db) ∈ odbs w -> o ∈ w_objects w ->
  o_owner o = InToken t -> private_object o = true -> slots 1 db !! h <> Some (o_addr o).

Lemma base_forget_handle w cl db a : base_ok w -> cl ∈ w_clients w -> forgets (c_object_db cl) db a ->
  base_ok (put_odb (c_addr cl) db w).
Proof.
  intros Hw Hcl Hf. apply (world_objs w); [done|apply sdbs_put_odb|done|apply Hw|]. rewrite odbs_put_odb.
  pose proof (wo_objs w Hw) as [H1 H2 H3 H4 H5]. split; try done.
  intros c d [[Hne Hx]|(-> & -> & _)]%elem_of_put_db; [by apply H5|]. eapply odb_forget_keep; [|exact Hf]. by apply H5, elem_of_odbs.
Qed.

Lemma logout_handles_run w t c : base_ok w -> c ∈ c_addr <$> w_clients w ->
  exists w', logout_handles t c w = (Ret tt, w') /\ base_ok w' /\ odb_only w w' /\ no_private_handles w' c t.
Proof.
  intros Hw Hc. pose proof (oo_addrs _ _ _ _ (wo_objs w Hw)) as Hd.
  pose (I := fun (rest : list Z) (w' : world) => base_ok w' /\ odb_only w w' /\ NoDup rest /\
    (forall a, a ∈ rest -> exists o, o ∈ w_objects w /\ o_addr o = a /\ o_owner o = InToken t) /\
    (forall db o h, (c, db) ∈ odbs w' -> o ∈ w_objects w' -> o_owner o = InToken t -> private_object o = true ->
       slots 1 db !! h = Some (o_addr o) -> o_addr o ∈ rest)).
  enough (runs (logout_handles t c) (fun _ => I []) (fun _ _ => False) w) as Hr.
  { unfold runs in Hr. destruct (logout_handles t c w) as [[[]|? | |?] w']; try done.
    destruct Hr as (Hb & Ho & _ & _ & Hp). exists w'. split_and!; [done..|]. intros db o h H1 H2 H3 H4 H5.
    by apply (Hp db o h), elem_of_nil in H5. }
  unfold logout_handles. apply runs_bind, runs_get, runs_for_each.
  - intros a rest w' (Hb & Ho & Hn & Hin & Hp). apply NoDup_cons in Hn as [Ha Hn].
    destruct (Hin a ltac:(set_solver)) as (o & How & <- & Ew).
    assert (o ∈ w_objects w') as How' by (by rewrite (only_objs _ _ Ho)). destruct (obj_in w' Hb o How') as [Hptr Eo].
    rewrite <- (odb_only_addrs _ _ Ho) in Hc. apply find_client in Hc as (cl & Hcl & <-).
    pose proof (oo_db _ _ _ _ (wo_objs w' Hb) _ _ (elem_of_odbs w' cl Hcl)) as Hdb.
    destruct (object2handle_run w' cl (client_addrs w' Hb) Hcl _ _ Hdb (o_addr o) Hptr) as (h & Eh & Hh0 & Hh).
    assert (forall db, (c_addr cl, db) ∈ odbs w' -> db = c_object_db cl) as Huniq.
    { intros db Hx. apply odbs_elem in Hx as (cl' & Hcl' & Ea & <-). f_equal. by apply (addr_inj c_addr (w_clients w') cl' cl (client_addrs w' Hb)). }
    apply runs_bind, (runs_eq _ _ _ _ _ _ Eo), runs_bind, (runs_eq _ _ _ _ _ _ Eh).
    assert (forall x, x ∈ w_objects w' -> o_addr x = o_addr o -> x = o) as Hx.
    { intros x Hx. apply (addr_inj o_addr (w_objects w')); [apply (wo_objs w' Hb)|done..]. }
    destruct Hh as [[-> Hnone]|[Hpos Hsome]].
    + apply runs_ret. split_and!; [done..| intros; apply Hin; set_solver |]. intros db x i H1 H2 H3 H4 H5.
      pose proof (Hp db x i H1 H2 H3 H4 H5) as Hr. apply elem_of_cons in Hr as [Er|Hr]; [|done]. exfalso.
      rewrite (Huniq db H1), Er in H5. by apply (Hnone i).
    + rewrite (proj2 (Z.eqb_neq h 0)) by lia. cbn [negb].
      destruct (od_live _ _ _ _ Hdb h _ Hsome (proj2 Hptr)) as (o' & Ho' & Ea' & _ & Hat'). rewrite (Hx o' Ho' Ea') in Hat'.
      destruct (loaded w' o Hb How' Hat') as (tok & Hok & _).
      apply runs_bind, (runs_eq _ _ _ _ _ _ (object_is_private_run w' o tok Hok)).
      destruct (private_object o) eqn:Epr.
      * destruct (object_put_run w' cl (client_addrs w' Hb) Hcl _ _ Hdb h (o_addr o) Hsome (proj2 Hptr) Hh0) as (x & db & Eput & Hfg).
        apply runs_bind, (runs_eq _ _ _ _ _ _ Eput), runs_ret.
        split; [by apply (base_forget_handle w' cl db (o_addr o))|]. split; [|split; [done|split]].
        -- destruct Ho, (put_odb_only (c_addr cl) db w'). split; congruence.
        -- intros; apply Hin; set_solver.
        -- intros d y i H1 H2 H3 H4 H5. rewrite odbs_put_odb in H1.
           apply elem_of_put_db in H1 as [[Hne _]|(_ & -> & _)]; [done|].
           assert (o_addr y <> Pkcs11.INVALID_HANDLE_PTR) as Hyp by (by destruct (obj_in w' Hb y H2) as [[] _]).
           apply (proj2 Hfg) in H5 as [H5 Hya]; [|done].
           pose proof (Hp _ y i (elem_of_odbs w' cl Hcl) H2 H3 H4 H5) as Hr. by apply elem_of_cons in Hr as [?|?].
      * apply runs_ret. split_and!; [done..| intros; apply Hin; set_solver |]. intros db x i H1 H2 H3 H4 H5.
        pose proof (Hp db x i H1 H2 H3 H4 H5) as Hr. apply elem_of_cons in Hr as [Er|Hr]; [|done]. exfalso.
        rewrite (Hx x H2 Er) in H4. congruence.
  - split_and!; [done|by split|by apply NoDup_filter_fmap| |].
    + intros a (o & -> & Hin)%list_elem_of_fmap. apply elem_of_token_objects in Hin as [Hin Ew]. by exists o.
    + intros db o h _ Ho Ew _ _. apply list_elem_of_fmap. exists o. split; [done|]. by apply elem_of_token_objects.
Qed.

(** A session after a logout. *)
Definition logged_out_session (x : pkcs11_session) : pkcs11_session :=
  set_state (if pkcs11_session_is_read_write x then PKCS11_CKS_RW_PUBLIC_SESSION else PKCS11_CKS_RO_PUBLIC_SESSION) (idle x).

Lemma upd_upd {A} sel (f g : A -> A) l : (forall x, sel (g x) = sel x) -> upd sel f (upd sel g l) = upd sel (fun x => f (g x)) l.
Proof.
  intros Hs. unfold upd. rewrite <- list_fmap_compose. apply list_fmap_ext. intros i x _. unfold compose.
  destruct (sel x) eqn:E; [by rewrite Hs, E | by rewrite E].
Qed.

Lemma logout_session_run v w se s : base_ok w -> s ∈ w_sessions w -> s_token s = s_token se ->
  exists w', logout_session v se (s_addr s) w = (Ret tt, w') /\ base_ok w' /\
    w_sessions w' = upd (is_session (s_addr s)) logged_out_session (w_sessions w) /\ w_tokens w' = w_tokens w /\
    (forall o, o ∈ w_objects w' <-> o ∈ w_objects w /\ ~ (o_owner o = InSession (s_addr s) /\ private_object o = true)) /\
    no_private_handles w' (s_client s) (s_token s).
Proof.
  intros Hw Hs Et. pose proof (the_session_run w s (sess_addrs w Hw) Hs) as Es.
  set (w1 := upd_world (is_session (s_addr s)) (set_processing None) w).
  assert (base_ok w1) as Hw1 by (by apply base_upd_keep).
  assert (set_processing None s ∈ w_sessions w1) as Hs1.
  { apply elem_of_upd. exists s. unfold is_session. by rewrite Z.eqb_refl. }
  destruct (logout_objects_run v w1 (set_processing None s) Hw1 Hs1) as (w2 & E2 & Hw2 & Es2 & Et2 & Ho2).
  assert (s_client s ∈ c_addr <$> w_clients w2) as Hc.
  { rewrite <- Es2 in Hs1. destruct (sess_in w2 Hw2 _ Hs1) as [_ (c & Hc & Ec & _)]. apply list_elem_of_fmap. by exists c. }
  destruct (logout_handles_run w2 (s_token s) (s_client s) Hw2 Hc) as (w3 & E3 & Hw3 & Ho3 & Hnp).
  set (w4 := upd_world (is_session (s_addr s)) (set_find_ctx None) w3).
  set (pub := fun x : pkcs11_session => set_state (if pkcs11_session_is_read_write x then PKCS11_CKS_RW_PUBLIC_SESSION else PKCS11_CKS_RO_PUBLIC_SESSION) x).
  exists (upd_world (is_session (s_addr s)) pub w4). split_and!.
  - unfold logout_session. rewrite (bind_run _ _ _ _ _ Es), Et, Nat.eqb_refl. cbn [negb].
    rewrite (bind_run _ _ _ tt w1) by done. rewrite (bind_run _ _ _ tt w2) by exact E2. rewrite <- Et.
    rewrite (bind_run _ _ _ _ _ E3). done.
  - apply base_upd; [by apply base_upd_keep|]. intros x Hx _. split; [done|]. split.
    + unfold pub, pkcs11_session_is_read_write, set_state. cbn [s_state]. by destruct (s_state x).
    + unfold pub, set_state. cbn [s_state]. by destruct (pkcs11_session_is_read_write x).
  - unfold upd_world, w4. cbn [w_sessions set_sessions upd_world]. rewrite (only_sess _ _ Ho3), Es2.
    unfold w1, upd_world. cbn [w_sessions set_sessions]. rewrite !upd_upd by done. done.
  - cbn. rewrite (only_toks _ _ Ho3). by rewrite Et2.
  - cbn [w_objects upd_world set_sessions w4]. intros o. rewrite (only_objs _ _ Ho3). by rewrite Ho2.
  - exact Hnp.
Qed.

Definition logged_out (w : world) (s : pkcs11_session) (w' : world) : Prop :=
  world_ok w' /\ w_sessions w' = upd (same_login s) logged_out_session (w_sessions w) /\ w_tokens w' = w_tokens w /\
  (forall o, o ∈ w_objects w' <-> o ∈ w_objects w /\
     ~ (private_object o = true /\ exists x, x ∈ w_sessions w /\ same_login s x = true /\ o_owner o = InSession (s_addr x))) /\
  no_private_handles w' (s_client s) (s_token s).

(** What the loop of [session_logout()] has done when the sessions [rest] remain. *)
Record logout_inv (w : world) (s : pkcs11_session) (rest : list Z) (w' : world) : Prop := mk_logout_inv {
  li_base : base_ok w';
  li_sess : w_sessions w' = upd (seen s rest) logged_out_session (w_sessions w);
  li_toks : w_tokens w' = w_tokens w;
  li_rest : remain w s rest;
  li_objs : forall o, o ∈ w_objects w' <-> o ∈ w_objects w /\
    ~ (private_object o = true /\ exists x, x ∈ w_sessions w /\ seen s rest x = true /\ o_owner o = InSession (s_addr x));
  li_handles : s_addr s ∈ rest \/ no_private_handles w' (s_client s) (s_token s);
}.

Lemma logout_inv_start w s : base_ok w -> s ∈ w_sessions w -> logout_inv w s (s_addr <$> session_list (s_client s) w) w.
Proof.
  intros Hw Hs. split; [done| |done|by apply remain_start; apply sess_addrs| |].
  - rewrite upd_id; [done|]. intros x Hx E. by rewrite seen_start in E.
  - intros o. split; [|by intros []]. intros Ho. split; [done|]. intros [_ (x & Hx & E & _)]. by rewrite seen_start in E.
  - left. apply list_elem_of_fmap. exists s. split; [done|]. apply elem_of_filter_fun. split; [done|]. apply Z.eqb_refl.
Qed.

Lemma logout_inv_step v w s a rest w' : base_ok w -> logout_inv w s (a :: rest) w' -> s ∈ w_sessions w ->
  runs (logout_session v s a) (fun _ => logout_inv w s rest) (fun _ _ => False) w'.
Proof.
  intros Hw [Hb Es Et Hrem Ho Hp] Hs. pose proof (sess_addrs w Hw) as Hd.
  apply remain_cons in Hrem as (Hrem & Ha & x & Hx & <- & Ex).
  assert (x ∈ w_sessions w') as Hx' by (rewrite Es; apply elem_of_upd; exists x; by rewrite seen_head).
  destruct (decide (s_token x = s_token s)) as [Etk|Etk].
  - assert (same_login s x = true) as Hsl by (by apply same_login_iff).
    destruct (logout_session_run v w' s x Hb Hx' Etk) as (w2 & E2 & Hb2 & Es2 & Et2 & Ho2 & Hp2).
    apply (runs_eq _ _ _ _ _ _ E2). split; [done| |congruence|done| |right; by rewrite Ex, Etk in Hp2].
    + rewrite Es2, Es. by apply upd_seen_step.
    + intros o. rewrite Ho2, Ho. split.
      * intros [[Hin1 Hng] Hn2]. split; [done|]. intros [Hpr (y & Hy & Hsy & Eow)].
        rewrite (seen_step w s Hd x y rest Hx Hy Ha), Hsl in Hsy. bool_hyps.
        destruct Hsy as [Hsy|Hsy]; [apply Hng; eauto|]. bool_hyps. apply Hn2. split; [congruence | done].
      * intros [Hin1 Hng]. split; [split; [done|]|].
        -- intros [Hpr (y & Hy & Hsy & Eow)]. apply Hng. split; [done|]. exists y.
           by rewrite (seen_step w s Hd x y rest Hx Hy Ha), Hsy.
        -- intros [Eow Hpr]. apply Hng. split; [done|]. exists x.
           by rewrite (seen_step w s Hd x x rest Hx Hx Ha), Hsl, Z.eqb_refl, orb_true_r.
  - assert (same_login s x = false) as Hsl by (apply not_true_iff_false; by intros [_ E]%same_login_iff).
    pose proof (fun y Hy => seen_skip w s Hd x y rest Hx Hy Ha Hsl) as Hsk. eapply runs_eq.
    { unfold logout_session. rewrite (bind_run _ _ _ _ _ (the_session_run w' x (sess_addrs w' Hb) Hx')).
      rewrite (proj2 (Nat.eqb_neq _ _) Etk). reflexivity. }
    split; [done| |done|done| |].
    + rewrite Es. symmetry. by apply upd_ext.
    + intros o. rewrite Ho. split; intros [Hin1 Hng]; (split; [done|]); intros [Hpr (y & Hy & Hsy & Eow)];
        apply Hng; (split; [done|]); exists y; (split; [done|]); (split; [|done]); [by rewrite <- Hsk | by rewrite Hsk].
    + destruct Hp as [Hp|Hp]; [|by right]. apply elem_of_cons in Hp as [Hp|Hp]; [|by left]. exfalso. apply Etk. f_equal.
      symmetry. by apply (addr_inj s_addr (w_sessions w)).
Qed.

Lemma session_logout_run v w s : world_ok w -> s ∈ w_sessions w ->
  exists w', session_logout v (s_addr s) w = (Ret tt, w') /\ logged_out w s w'.
Proof.
  intros [Hw Hl] Hs. enough (runs (session_logout v (s_addr s)) (fun _ => logout_inv w s []) (fun _ _ => False) w) as Hr.
  { unfold runs in Hr. destruct (session_logout v (s_addr s) w) as [[[]|? | |?] w']; try done.
    destruct Hr as [Hb Es Et _ Ho Hp]. rewrite (upd_ext (seen s []) (same_login s)) in Es by (intros; apply seen_nil).
    exists w'. split; [done|]. split; [split; [done|]|split_and!; [done..| |]].
    - rewrite Es. apply (login_upd_all _ _ _ None); [done|]. intros x. split; [done|]. unfold login_of, logged_out_session, set_state.
      cbn [s_state]. by destruct (pkcs11_session_is_read_write x).
    - intros o. rewrite Ho. setoid_rewrite seen_nil. done.
    - destruct Hp as [Hp|Hp]; [by apply elem_of_nil in Hp | done]. }
  unfold session_logout. apply runs_bind. eapply runs_eq; [by apply the_session_run; [apply sess_addrs|]|].
  apply runs_bind, runs_get, runs_for_each; [|by apply logout_inv_start]. intros a rest w' Hi. by apply logout_inv_step.
Qed.

(** ** Creating objects *)

Lemma odb_ext ks os c db db' : odb_ok ks os c db -> db_wf db' -> slots 1 db' = slots 1 db -> odb_ok ks os c db'.
Proof. intros [H1 H2 H3] Hw E. split; [done|..]; rewrite E; done. Qed.

Lemma odb_more ks os c db o : odb_ok ks os c db -> odb_ok ks (o :: os) c db.
Proof.
  intros [H1 H2 H3]. split; [done| |done]. intros h p Hs Hp. destruct (H2 h p Hs Hp) as (x & Hx & Hr). exists x. set_solver.
Qed.

Lemma odb_add ks os c db db' h o : odb_ok ks os c db -> db_wf db' -> slots 1 db' = <[h := o_addr o]> (slots 1 db) ->
  o_addr o ∉ o_addr <$> os -> visible ks c o -> o_attributes o <> None -> odb_ok ks (o :: os) c db'.
Proof.
  intros [H1 H2 H3] Hw E Hn Hv Hat.
  assert (forall i, slots 1 db !! i = Some (o_addr o) -> o_addr o = Pkcs11.INVALID_HANDLE_PTR) as Hno.
  { intros i Hi. destruct (decide (o_addr o = Pkcs11.INVALID_HANDLE_PTR)) as [|Hne]; [done|].
    destruct (H2 i _ Hi Hne) as (x & Hx & Ea & _). exfalso. apply Hn. apply list_elem_of_fmap. by exists x. }
  split; [done|..]; rewrite E.
  - intros i p Hi Hp. apply lookup_insert_Some in Hi as [[_ <-]|[_ Hi]]; [exists o; set_solver|].
    destruct (H2 i p Hi Hp) as (x & Hx & Hr). exists x. set_solver.
  - intros i j p Hi Hj Hp. apply lookup_insert_Some in Hi as [[<- Ep]|[Hne Hi]];
      apply lookup_insert_Some in Hj as [[<- Ep']|[Hne' Hj]]; [done| | |by apply (H3 i j p)].
    + subst p. by apply Hno in Hj.
    + subst p. by apply Hno in Hi.
Qed.

(** The UUIDs only grow. *)
Definition uuids_grow (us us' : list (list (list Z))) : Prop :=
  (forall t l, us !! t = Some l -> exists l', us' !! t = Some l' /\ forall u, u ∈ l -> u ∈ l') /\
  forall t l, us' !! t = Some l -> NoDup l.

Lemma objs_add cs ks os us us' c db db' h o : objs_ok cs ks os us -> NoDup cs.*1 -> (c, db) ∈ cs -> db_wf db' ->
  slots 1 db' = <[h := o_addr o]> (slots 1 db) -> o_addr o ∉ o_addr <$> os -> visible ks c o -> o_attributes o <> None ->
  uuids_grow us us' -> obj_wf ks us' o ->
  (forall x t, x ∈ os -> o_owner x = InToken t -> o_owner o = InToken t -> o_uuid x <> o_uuid o) ->
  objs_ok (put_db c db' cs) ks (o :: os) us'.
Proof.
  intros [Ha Hw Hu Hn Hdb] Hd Hc Hwf E Hfr Hv Hat [Hg Hnd] Ho Hun. split.
  - rewrite fmap_cons. by apply NoDup_cons.
  - intros x [->|Hx]%elem_of_cons; [done|]. destruct (Hw x Hx) as [Hp Hr]. split; [done|].
    destruct (o_owner x) as [s|t]; [done|]. destruct Hr as (E1 & E2 & u & l & Eu & El & Hul). split_and!; [done..|].
    destruct (Hg t l El) as (l' & El' & Hl'). exists u, l'. auto.
  - intros x y t [->|Hx]%elem_of_cons [->|Hy]%elem_of_cons Ex Ey Euu; [done| | |by apply (Hu x y t)].
    + exfalso. by apply (Hun y t Hy Ey Ex).
    + exfalso. by apply (Hun x t Hx Ex Ey).
  - done.
  - intros c' d [[Hne Hx]|(-> & -> & _)]%elem_of_put_db; [apply odb_more; by apply Hdb|].
    by apply (odb_add _ _ _ db db' h); [apply Hdb|..].
Qed.

(** The attributes of the new object are well formed. *)
Definition head_ok (head : list Z) (tok : bool) : Prop := attrs_ok tok (mk_object 0 (InSession 0) (Some head) None None).

(** What creating a persistent object needs besides: an object handle, memory and a fresh UUID. *)
Definition persistent_mem (v : ta_env) (w : world) (s : pkcs11_session) : Prop :=
  open_ok v /\ e_malloc (v_tee v) 16 = true /\
  (forall a cl, v_addr v = Some a -> cl ∈ w_clients w -> c_addr cl = s_client s ->
     fst (Pkcs11.handle_get (e_malloc (v_tee v)) (v_junk v) a (c_object_db cl)) <> Ret 0) /\
  exists u, u ∈ v_uuids v /\ forall tk, w_tokens w !! s_token s = Some tk -> u ∉ t_objs tk.

Definition created (w : world) (h : Z) (w' : world) : Prop :=
  world_ok w' /\ 1 <= h < 2 ^ 30 /\ w_sessions w' = w_sessions w /\ exists o, w_objects w' = o :: w_objects w.

(** The handle given back, and the object dropped: nothing has changed for the others. *)
Lemma create_fail_ok w cl db db2 a : world_ok w -> cl ∈ w_clients w -> db_wf db2 ->
  slots 1 db2 = slots 1 (c_object_db cl) -> a ∉ o_addr <$> w_objects w ->
  world_ok (set_objects (without a (w_objects w)) (put_odb (c_addr cl) db2 (put_odb (c_addr cl) db w))).
Proof.
  intros [Hw Hl] Hcl Hwf Es Ha. split; [|exact Hl].
  assert (without a (w_objects w) = w_objects w) as Ew.
  { unfold without. clear -Ha. induction (w_objects w) as [|o l IH]; [done|]. rewrite fmap_cons in Ha. apply not_elem_of_cons in Ha as [Hn Ha].
    cbn [List.filter]. rewrite (proj2 (Z.eqb_neq _ _)) by done. cbn [negb]. by rewrite IH. }
  apply (world_objs w); [done| |done|apply Hw|].
  - transitivity (sdbs (put_odb (c_addr cl) db w)); [apply (sdbs_put_odb (c_addr cl) db2)|apply sdbs_put_odb].
  - cbn [w_objects set_objects]. rewrite Ew. change (odbs (set_objects _ _)) with (odbs (put_odb (c_addr cl) db2 (put_odb (c_addr cl) db w))).
    rewrite !odbs_put_odb. pose proof (wo_objs w Hw) as [H1 H2 H3 H4 H5]. split; try done.
    intros c d [[Hne Hx]|(-> & -> & _)]%elem_of_put_db.
    + apply elem_of_put_db in Hx as [[_ Hx]|(-> & _)]; [by apply H5 | done].
    + eapply odb_ext; [|done|exact Es]. by apply H5, elem_of_odbs.
Qed.

Lemma idx_fresh l u : (0 <=? get_persistent_obj_idx l (Some u)) = false <-> u ∉ l.
Proof.
  split; [|by intros; rewrite uuid_absent]. intros Hi Hu. destruct (list_find_elem_of (fun x => x = u) l u Hu eq_refl) as [[i x] E].
  unfold get_persistent_obj_idx in Hi. rewrite E in Hi. bool_hyps. lia.
Qed.

Lemma create_uuid_run v w w' s head a o tk : persistent_mem v w s -> w_tokens w' !! s_token s = Some tk -> w_tokens w !! s_token s = Some tk ->
  exists u, create_object_uuid v (s_token s) (mk_object a o (Some head) None None) w' =
    (Ret (PKCS11_CKR_OK, mk_object a o (Some head) (Some (s_token s)) (Some u)), w') /\ u ∉ t_objs tk.
Proof.
  intros (_ & Hm & _ & u & Hu & Hn) Ht' Ht. unfold create_object_uuid. cbn [o_uuid]. rewrite (bind_run _ _ _ tt w') by done.
  rewrite Hm. cbn [negb]. rewrite (bind_run _ _ _ _ _ (the_token_run w' _ tk Ht')).
  destruct (List.find _ (v_uuids v)) as [u'|] eqn:Ef.
  - apply find_some in Ef as [_ Hu']. apply negb_true_iff, idx_fresh in Hu'. exists u'. done.
  - exfalso. pose proof (find_none _ _ Ef u ltac:(by apply list_elem_of_In)) as Hx. apply negb_false_iff in Hx.
    specialize (Hn tk Ht). apply idx_fresh in Hn. congruence.
Qed.

(** [register_persistent_object()] of an unregistered UUID: it fails, or the UUID is added. *)
Lemma register_run v w' t tk u : w_tokens w' !! t = Some tk -> u ∉ t_objs tk ->
  (exists rc, register_persistent_object v t u w' = (Ret rc, w') /\ rc <> 0) \/
  register_persistent_object v t u w' = (Ret 0, set_tokens (alter (set_objs (t_objs tk ++ [u])) t (w_tokens w')) w').
Proof.
  intros Ht Hn. unfold register_persistent_object. rewrite (bind_run _ _ _ _ _ (the_token_run w' t tk Ht)).
  rewrite (proj2 (idx_fresh _ _) Hn).
  assert (forall r, (r =? TEE_SUCCESS) = false -> tee2pkcs_error r <> 0) as Hr.
  { intros r E. bool_hyps. by apply tee2pkcs_error_cases. }
  repeat (match goal with |- context [negb ?b] => destruct b eqn:?; cbn [negb]; [|left; by eexists; split; [reflexivity|auto]] end).
  by right.
Qed.

Lemma uuids_grow_add w t tk u : base_ok w -> w_tokens w !! t = Some tk -> u ∉ t_objs tk ->
  uuids_grow (uuids w) (t_objs <$> alter (set_objs (t_objs tk ++ [u])) t (w_tokens w)).
Proof.
  intros Hw Ht Hn. rewrite uuids_alter. pose proof (oo_nodup _ _ _ _ (wo_objs w Hw)) as Hnd.
  assert (uuids w !! t = Some (t_objs tk)) as Hut by (unfold uuids; by rewrite list_lookup_fmap, Ht).
  pose proof (lookup_lt_Some _ _ _ Hut) as Hlt. split.
  - intros i l El. destruct (decide (i = t)) as [->|Hne]; [|exists l; by rewrite list_lookup_insert_ne].
    exists (t_objs tk ++ [u]). rewrite list_lookup_insert_eq by done. split; [done|]. rewrite Hut in El. injection El as <-.
    intros x Hx. apply elem_of_app. by left.
  - intros i l El. destruct (decide (i = t)) as [->|Hne]; [|rewrite list_lookup_insert_ne in El by done; eauto].
    rewrite list_lookup_insert_eq in El by done. injection El as <-. apply NoDup_app. split_and!; [by eapply Hnd| |apply NoDup_singleton].
    intros x Hx Hx'%list_elem_of_singleton. by subst.
Qed.

Section Create.
Context (v : ta_env) (w : world) (s : pkcs11_session) (head : list Z) (tok : bool).
Context (Hw : world_ok w) (Hs : s ∈ w_sessions w) (Hf : fresh_addr v w) (Hheap : heap_ok v) (Hhead : head_ok head tok).
Context (Hmem : tok = true -> persistent_mem v w s).

Lemma head_bool w' : on_block (Some head) (get_bool PKCS11_CKA_TOKEN) w' = (Ret tok, w').
Proof. destruct Hhead as (b & l & [= <-] & Hr & Ht & _). by apply (on_block_bool w' head l). Qed.

(** The error path: [obj] has a UUID that is not registered, or is no persistent object. *)
Lemma create_fail_run cl db h a obj rc : cl ∈ w_clients w -> c_addr cl = s_client s -> db_wf db -> 0 <= h ->
  delete h (slots 1 db) = slots 1 (c_object_db cl) -> a ∉ o_addr <$> w_objects w -> o_addr obj = a -> rc <> 0 ->
  (tok = true -> open_ok v /\ exists tk u, w_tokens w !! s_token s = Some tk /\ o_uuid obj = Some u /\ u ∉ t_objs tk) ->
  runs (do! in_object_db (s_client s) (Pkcs11.handle_put h) in
        let! tok := on_block (Some head) (get_bool PKCS11_CKA_TOKEN) in
        do! (if tok then cleanup_persistent_object v obj (s_token s) else cleanup_volatile_obj_ref (o_addr obj)) in
        err rc) (created w) (fun rc w' => rc <> 0 /\ world_ok w') (put_odb (c_addr cl) db w).
Proof.
  intros Hcl Ec Hwf Hh Edel Ha Eo Hrc Htok. destruct (pkcs11_put_run db h Hwf Hh) as (x & db2 & Eput & Hwf2 & Es2).
  set (w1 := put_odb (c_addr cl) db w). set (cl1 := mk_client (c_addr cl) (c_session_db cl) db).
  assert (cl1 ∈ w_clients w1) as Hcl1 by (apply elem_of_upd; exists cl; by rewrite Z.eqb_refl).
  assert (NoDup (c_addr <$> w_clients w1)) as Hd1 by (unfold w1; rewrite put_odb_clients; apply client_addrs, Hw).
  pose proof (in_object_db_run w1 cl1 _ _ _ Hd1 Hcl1 Eput) as E1. cbn [c_addr cl1] in E1. rewrite Ec in E1.
  apply runs_bind, (runs_eq _ _ _ _ _ _ E1), runs_bind, (runs_eq _ _ _ _ _ _ (head_bool _)). apply runs_bind.
  assert (world_ok (set_objects (without a (w_objects w)) (put_odb (c_addr cl) db2 w1))) as Hok
    by (apply create_fail_ok; [done..|by rewrite Es2|done]). rewrite Ec in Hok.
  destruct tok.
  - destruct (Htok eq_refl) as (Hop & tk & u & Htk & Hu & Hn).
    eapply runs_eq; [by apply (cleanup_persistent_run v _ obj (s_token s) tk u)|]. apply runs_err. split; [done|]. by rewrite Eo.
  - unfold cleanup_volatile_obj_ref, list_remove. apply runs_modify, runs_err. split; [done|]. by rewrite Eo.
Qed.

(** The new object linked. *)
Lemma create_link_ok cl db h a o ts : cl ∈ w_clients w -> c_addr cl = s_client s -> db_wf db ->
  slots 1 db = <[h := a]> (slots 1 (c_object_db cl)) -> a ∉ o_addr <$> w_objects w -> o_addr o = a ->
  visible (skeys w) (s_client s) o -> o_attributes o = Some head -> toks_ok (w_sessions w) ts ->
  uuids_grow (uuids w) (t_objs <$> ts) -> obj_wf (skeys w) (t_objs <$> ts) o ->
  (forall x t, x ∈ w_objects w -> o_owner x = InToken t -> o_owner o = InToken t -> o_uuid x <> o_uuid o) ->
  world_ok (set_objects (o :: w_objects w) (set_tokens ts (put_odb (c_addr cl) db w))).
Proof.
  intros Hcl Ec Hwf Edb Ha Eo Hv Hat Hts Hg Ho Hun. destruct Hw as [Hb Hl]. split; [|exact Hl].
  apply (world_objs w); [done|exact (sdbs_put_odb (c_addr cl) db w)|done|done|].
  change (odbs _) with (odbs (put_odb (c_addr cl) db w)). rewrite odbs_put_odb.
  apply (objs_add _ _ _ (uuids w) _ _ (c_object_db cl) _ h); [apply Hb | |by apply elem_of_odbs|done|by rewrite Eo|by rewrite Eo| |
    congruence|done|done|done].
  - unfold odbs. rewrite <- list_fmap_compose. by apply client_addrs.
  - by rewrite Ec.
Qed.

Lemma create_object_sound :
  runs (create_object v (s_addr s) head) (created w) (fun rc w' => rc <> 0 /\ world_ok w') w.
Proof.
  pose proof Hw as [Hb Hl]. destruct (sess_in w Hb s Hs) as [Es (cl & Hcl & Ec & Hdb)].
  destruct (token_of_session w s Hb Hs) as [tk Htk].
  unfold create_object. apply runs_bind, (runs_eq _ _ _ _ _ _ Es). destruct (v_addr v) as [a|] eqn:Ea; [|by apply runs_err].
  destruct (Hf a Ea) as ([Ha1 Ha2] & _ & _ & Hao).
  destruct (pkcs11_get_body _ (v_junk v) Hheap a _ (od_wf _ _ _ _ Hdb) Ha1 Ha2) as (r & db & Eg & Hwf & Hr).
  pose proof (in_object_db_run w cl _ _ _ (client_addrs w Hb) Hcl Eg) as Eg'. rewrite Ec in Eg'.
  apply runs_bind, (runs_eq _ _ _ _ _ _ Eg'). rewrite <- Ec at 2. destruct r as [h|]; cbn [from_option id].
  2: { subst db. cbn [Z.eqb]. apply (create_fail_run cl _ 0 a); try done; [apply delete_id, slots_none; lia|]. intros Ht. exfalso.
       destruct (Hmem Ht) as (_ & _ & Hx & _). apply (Hx a cl Ea Hcl Ec). by rewrite Eg. }
  destruct Hr as (Hh & Hfree & Eins & _). rewrite (proj2 (Z.eqb_neq h 0)) by lia. cbn [o_attributes].
  apply runs_bind, (runs_eq _ _ _ _ _ _ (head_bool _)).
  assert (delete h (slots 1 db) = slots 1 (c_object_db cl)) as Edel by (by rewrite Eins, delete_insert_id).
  pose proof Hmem as Hmem'. pose proof Hhead as Hhead'. destruct tok as [] eqn:Etok in Hmem', Hhead' |- *.
  - destruct (create_uuid_run v w (put_odb (c_addr cl) db w) s head a (InSession (s_addr s)) tk (Hmem' eq_refl) Htk Htk) as (u & Eu & Hu).
    apply runs_bind, (runs_eq _ _ _ _ _ _ Eu). cbn [negb Z.eqb PKCS11_CKR_OK].
    assert (forall rc o, o_addr o = a -> o_uuid o = Some u -> rc <> 0 -> runs
      (do! in_object_db (s_client s) (Pkcs11.handle_put h) in
       let! tok := on_block (Some head) (get_bool PKCS11_CKA_TOKEN) in
       do! (if tok then cleanup_persistent_object v o (s_token s) else cleanup_volatile_obj_ref (o_addr o)) in
       err rc) (created w) (fun rc w' => rc <> 0 /\ world_ok w') (put_odb (c_addr cl) db w)) as Hfail.
    { intros rc o Eo Euo Hrc. apply (create_fail_run cl db h a); try done; [lia|]. intros _. split; [apply (Hmem' eq_refl)|]. eauto. }
    destruct (v_create v =? TEE_SUCCESS) eqn:Ecr; cbn [negb]; bool_hyps;
      [|apply Hfail; [done..|by apply tee2pkcs_error_cases]].
    apply runs_bind. cbn [o_uuid from_option id].
    destruct (register_run v (put_odb (c_addr cl) db w) (s_token s) tk u Htk Hu) as [(rc & Er & Hrc)|Er];
      apply (runs_eq _ _ _ _ _ _ Er).
    + rewrite (proj2 (Z.eqb_neq rc 0) Hrc). cbn [negb]. by apply Hfail.
    + cbn [negb Z.eqb]. apply runs_bind, runs_modify, runs_ret. split; [|split; [done|]; split; [done|by eexists]].
      pose proof (uuids_grow_add w (s_token s) tk u Hb Htk Hu) as Hgr.
      apply (create_link_ok cl db h a (mk_object a (InToken (s_token s)) (Some head) (Some (s_token s)) (Some u))
        (alter (set_objs (t_objs tk ++ [u])) (s_token s) (w_tokens w))); try done; [apply toks_ok_objs, Hb| |].
      * split; [done|]. cbn [o_owner o_token o_attributes o_uuid]. split; [done|]. split; [right; exact Hhead'|].
        exists u, (t_objs tk ++ [u]). rewrite uuids_alter, list_lookup_insert_eq;
          [|unfold uuids; rewrite length_fmap; by eapply lookup_lt_Some]. split_and!; [done..|]. apply elem_of_app. right. by apply list_elem_of_singleton.
      * intros x t Hx Ex [= <-] Eux. pose proof (oo_wf _ _ _ _ (wo_objs w Hb) x Hx) as [_ Hwx]. rewrite Ex in Hwx.
        destruct Hwx as (_ & _ & u' & l & Eu' & El & Hul). unfold uuids in El. rewrite list_lookup_fmap, Htk in El. injection El as <-.
        rewrite Eu' in Eux. injection Eux as ->. done.
  - apply runs_bind, runs_modify, runs_ret. split; [|split; [done|]; split; [done|by eexists]].
    apply (create_link_ok cl db h a (mk_object a (InSession (s_addr s)) (Some head) None None) (w_tokens w)); try done.
    + exists (strip s). split; [by apply elem_of_strip | done].
    + apply Hb.
    + split; [intros t l El; eauto|]. apply (wo_objs w Hb).
    + split; [done|]. cbn [o_owner o_token o_attributes]. split; [exists (strip s); split; [by apply elem_of_strip | done]|]. split; [done | exact Hhead'].
Qed.
End Create.

(** ** Initialising a token *)

(** No client has a handle to an object of the token. *)
Definition unreferenced (w : world) (t : nat) : Prop := forall c db o h, (c, db) ∈ odbs w -> o ∈ w_objects w ->
  o_owner o = InToken t -> slots 1 db !! h <> Some (o_addr o).

Lemma storage_up_shrink v w w' t tk l : storage_up v w -> w_tokens w !! t = Some tk -> NoDup l ->
  (forall x, x ∈ l -> x ∈ t_objs tk) -> w_tokens w' = alter (set_objs l) t (w_tokens w) -> storage_up v w'.
Proof.
  intros [H1 H2 H3 H4] Ht Hd Hl E. split; [done..|]. intros l' n Hin Hn. unfold uuids in Hin. rewrite E, uuids_alter in Hin.
  apply list_elem_of_lookup in Hin as [i Hi]. assert (uuids w !! t = Some (t_objs tk)) as Hut by (unfold uuids; by rewrite list_lookup_fmap, Ht).
  destruct (decide (i = t)) as [->|Hne].
  - rewrite list_lookup_insert_eq in Hi by (by eapply lookup_lt_Some). injection Hi as <-.
    apply (H4 (t_objs tk)); [by eapply list_elem_of_lookup_2|].
    pose proof (submseteq_length _ _ (NoDup_submseteq _ _ Hd Hl)). unfold lenZ in *. lia.
  - rewrite list_lookup_insert_ne in Hi by done. apply (H4 l'); [by eapply list_elem_of_lookup_2 | done].
Qed.

Lemma remove_token_objects_run v t k w : base_ok w -> storage_up v w -> (t < length (w_tokens w))%nat -> unreferenced w t ->
  (length (token_objects t w) <= k)%nat ->
  exists w', remove_token_objects v k t w = (Ret tt, w') /\ base_ok w' /\ w_sessions w' = w_sessions w /\
    (forall o, o ∈ w_objects w' <-> o ∈ w_objects w /\ o_owner o <> InToken t).
Proof.
  revert w. induction k as [|k IH]; intros w Hw Hv Hlt Hun Hk; destruct (token_objects t w) as [|o r] eqn:El;
    try (cbn [length] in Hk; lia).
  1, 2: exists w; unfold remove_token_objects, bind, get; rewrite El; split_and!; [done..|]; intros o;
    (split; [|by intros []]); intros Ho; (split; [done|]); intros Ew;
    assert (o ∈ token_objects t w) as Hin by (by apply elem_of_token_objects); rewrite El in Hin; by apply elem_of_nil in Hin.
  assert (o ∈ token_objects t w) as Ho by (rewrite El; set_solver). apply elem_of_token_objects in Ho as [Ho Ew].
  destruct (lookup_lt_is_Some_2 _ _ Hlt) as [tk Ht]. pose proof (oo_wf _ _ _ _ (wo_objs w Hw) o Ho) as [_ Hwf]. rewrite Ew in Hwf.
  destruct Hwf as (_ & _ & u & l0 & Hu & Hl0 & Hul). unfold uuids in Hl0. rewrite list_lookup_fmap, Ht in Hl0. injection Hl0 as <-.
  destruct (unregister_run v w Hw t tk u Hv Ht Hul) as (l & Eun & Hd & Hl). set (w1 := set_tokens _ w) in *.
  pose proof (cleanup_persistent_run v w1 o t (set_objs l tk) u (su_open _ _ Hv) (set_objs_lookup w t tk l Ht) Hu) as Ecl.
  specialize (Ecl ltac:(cbn [t_objs set_objs]; intros Hin; by apply Hl in Hin as [_ ?])). set (w2 := set_objects _ w1) in *.
  assert (base_ok w2) as Hw2.
  { apply (world_without_token_object w w2 o t tk u l); try done. intros c db Hc. exists db. split; [done|].
    apply forgets_unseen; [by eapply od_wf, (oo_db _ _ _ _ (wo_objs w Hw))|]. intros h. by apply (Hun c db o h). }
  destruct (IH w2 Hw2) as (w3 & E3 & Hw3 & Es3 & Ho3).
  { by apply (storage_up_shrink v w w2 t tk l Hv Ht Hd ltac:(intros x Hx; by apply Hl in Hx as [? _])). }
  { cbn. by rewrite length_alter. }
  { intros c db x h Hc Hx. apply elem_of_without in Hx as [Hx _]. by apply (Hun c db x h). }
  { pose proof (filter_filter_lt (fun o => bool_decide (o_owner o = InToken t)) (fun x => negb (o_addr x =? o_addr o)) (w_objects w) o Ho) as Hx.
    unfold token_objects in *. change (w_objects w2) with (without (o_addr o) (w_objects w)). unfold without. rewrite El in Hx. cbn [length] in *.
    rewrite bool_decide_eq_true_2, Z.eqb_refl in Hx by done. specialize (Hx eq_refl eq_refl). lia. }
  exists w3. cbn [remove_token_objects]. rewrite (bind_run _ _ _ _ _ (eq_refl : get w = (Ret w, w))), El, Hu.
  rewrite (bind_run _ _ _ _ _ Eun), (bind_run _ _ _ _ _ Ecl). split_and!; [done|done|done|].
  intros x. rewrite Ho3. change (w_objects w2) with (without (o_addr o) (w_objects w)). rewrite elem_of_without.
  split; [naive_solver|]. intros [Hx Hne]. split_and!; [done| |done]. intros Ea. apply Hne.
  by rewrite (addr_inj o_addr (w_objects w) x o (oo_addrs _ _ _ _ (wo_objs w Hw)) Hx Ho Ea).
Qed.

Lemma init_token_sound sha256 v w token_id l pin : world_ok w -> storage_up v w -> 0 <= token_id ->
  unreferenced w (Z.to_nat token_id) ->
  runs (init_token sha256 v token_id l pin)
    (fun _ w' => world_ok w' /\ w_sessions w' = w_sessions w /\
       forall o, o ∈ w_objects w' <-> o ∈ w_objects w /\ o_owner o <> InToken (Z.to_nat token_id))
    (fun rc w' => rc <> 0 /\ world_ok w' /\ same_use w w') w.
Proof.
  intros [Hw Hl] Hv Hid Hun. unfold init_token, get_token. apply runs_bind, runs_bind, runs_get, runs_ret.
  destruct (token_id <? lenZ (w_tokens w)) eqn:Et; [|by apply runs_err]. bool_hyps. set (t := Z.to_nat token_id) in *.
  assert (t < length (w_tokens w))%nat as Hlt by (unfold lenZ, t in *; lia).
  destruct (lookup_lt_is_Some_2 _ _ Hlt) as [tk Htk]. destruct (token_db_of w _ tk Hw Htk) as (m & Em & Hm).
  apply runs_bind, (runs_eq _ _ _ _ _ _ (the_token_run w t tk Htk)), runs_bind, runs_guard; [done|]. intros Hlk. rewrite Em in Hlk.
  apply runs_bind, runs_get, runs_bind, runs_guard; [done|]. intros _. apply runs_bind. eapply runs_mono.
  - apply (in_token_sound w t tk m _ Hw Htk Em). apply token_initialize_sound; [done|apply Hv|done].
  - intros _ w' (m' & -> & Hb & _). apply runs_bind, runs_get.
    destruct (remove_token_objects_run v t (length (token_objects t (put_tdb t m' w))) (put_tdb t m' w) Hb) as (w2 & E2 & Hb2 & Es2 & Ho2).
    + assert (uuids (put_tdb t m' w) = uuids w) as Eu.
      { unfold uuids, put_tdb. cbn [w_tokens set_tokens]. apply list_eq. intros i. rewrite !list_lookup_fmap.
        destruct (decide (i = t)) as [->|Hne]; [|by rewrite list_lookup_alter_ne]. rewrite list_lookup_alter_eq. by destruct (w_tokens w !! t). }
      destruct Hv as [H1 H2 H3 H4]. split; [done..|]. by rewrite Eu.
    + cbn. by rewrite length_alter.
    + done.
    + done.
    + apply (runs_eq _ _ _ _ _ _ E2). split; [|done]. split; [done|]. by rewrite Es2.
  - by intros rc w' [Hrc (m' & -> & Hb & _)].
Qed.
