(* ===== verification/Pkcs11Boot.v ===== *)
(** * Start of the PKCS#11 trusted application

    [TA_CreateEntryPoint()] calls [pkcs11_init()], which sets up the tokens: [init_persistent_db()] of
    [persistent_token.c] loads a token's database and makes an object instance for each persistent
    object, or creates the database of a new token. A TA that starts has the invariant of
    [Pkcs11SessionInv]. Reads of the database and the memory for each object may fail. *)
From S2P Require Import Prelude HandleDb Pkcs11Attrs Pkcs11Pin Pkcs11Session Pkcs11SessionInv.
#[local] Open Scope Z_scope.

#[local] Notation W := (M world).

(** What the allocator gives for an object: no memory for its UUID, no memory for the instance, or the
    instance at an address. *)
Inductive instance_mem := NoUuid | NoObject | At (a : Z).
#[global] Instance instance_mem_eq_dec : EqDecision instance_mem.
Proof. solve_decision. Defined.

(** What the storage and the allocator give for a token. The [tf_read] fields say that a
    [TEE_ReadObjectData()] reads what is asked for. *)
Record token_file := mk_file {
  tf_open : Z;                          (* open_db_file() *)
  tf_read_main : bool;
  tf_main : token_persistent_main;      (* the first part of the file *)
  tf_read_count : bool;
  tf_read_uuids : bool;
  tf_uuids : list (list Z);             (* the second part *)
  tf_create : Z;                        (* TEE_CreatePersistentObject() of a new file *)
  tf_malloc : Z -> bool;                (* TEE_Malloc(), TEE_Realloc() of the databases *)
  tf_mem : list instance_mem;           (* TEE_Malloc() for the objects, one after the other; then none is left *)
}.

Definition SIZEOF_DB_MAIN : Z := 184.
Definition SIZEOF_DB_OBJS : Z := 4.
Definition SIZEOF_UUID : Z := 16.

(** The database of a new token: all '*' as the label, and the rest 0 but for the flags. *)
Definition new_db_main : token_persistent_main :=
  mk_main (replicate 32 42)
    (Z.lor (Z.lor (Z.lor PKCS11_CKFT_SO_PIN_TO_BE_CHANGED PKCS11_CKFT_USER_PIN_TO_BE_CHANGED) PKCS11_CKFT_RNG)
       PKCS11_CKFT_LOGIN_REQUIRED) 0 0 (replicate 64 0) 0 0 (replicate 64 0).

(** The instances of the objects from index [idx] on; [false] when there is no memory for a UUID. *)
Fixpoint load_objects (t : nat) (us : list (list Z)) (mem : list instance_mem) : W bool :=
  match us with
  | [] => ret true
  | u :: us' =>
      match mem with
      | At a :: mem' =>
          do! modify (fun w => set_objects (mk_object a (InToken t) None (Some t) (Some u) :: w_objects w) w) in
          load_objects t us' mem'
      | NoObject :: _ => panic
      | _ => ret false
      end
  end.

(** [token->db_main = db_main; token->db_objs = db_objs;] *)
Definition set_databases (t : nat) (m : token_persistent_main) (us : list (list Z)) : W unit :=
  upd_token t (fun x => mk_ck_token (t_state x) (t_session_count x) (t_rw_session_count x) (synced m) us).

(** [false] is NULL. *)
Definition init_persistent_db (f : token_file) (t : nat) : W bool :=
  if negb (tf_malloc f SIZEOF_DB_MAIN) || negb (tf_malloc f SIZEOF_DB_OBJS) then ret false
  else if tf_open f =? TEE_SUCCESS then
    if negb (tf_read_main f && tf_read_count f) then panic
    else
      let count := lenZ (tf_uuids f) in
      if (0 <? count) && negb (tf_malloc f (SIZEOF_DB_OBJS + count * SIZEOF_UUID)) then ret false
      else if (0 <? count) && negb (tf_read_uuids f) then panic
      else
        let! ok := load_objects t (tf_uuids f) (tf_mem f) in
        if negb ok then ret false
        else do! set_databases t (tf_main f) (tf_uuids f) in ret true
  else if tf_open f =? TEE_ERROR_ITEM_NOT_FOUND then
    if negb (tf_malloc f (SIZEOF_DB_MAIN + SIZEOF_DB_OBJS)) then ret false
    else if negb (tf_create f =? TEE_SUCCESS) then ret false
    else do! set_databases t new_db_main [] in ret true
  else ret false.

Definition pkcs11_token_init (f : token_file) (t : nat) : W Z :=
  let! ok := init_persistent_db f t in
  if negb ok then ret TEE_ERROR_SECURITY
  else
    let! tk := the_token t in
    do! match t_state tk with
        | PKCS11_TOKEN_RESET => upd_token t (fun x => mk_ck_token PKCS11_TOKEN_READ_WRITE 0 0 (t_db x) (t_objs x))
        | _ => ret tt
        end in
    ret TEE_SUCCESS.

(** The loop over the tokens, [id] being the next; [files] are those of the tokens that remain. *)
Fixpoint init_tokens (files : list token_file) (id : nat) (res : Z) : W Z :=
  match files with
  | [] => ret res
  | f :: files' =>
      let! res := pkcs11_token_init f id in
      if negb (res =? TEE_SUCCESS) then ret res else init_tokens files' (S id) res
  end.

Definition pkcs11_init (files : list token_file) : W Z := init_tokens files 0 TEE_ERROR_GENERIC.

(** The TA at load: no clients, and the static array of tokens, all 0. *)
Definition zero_main : token_persistent_main := mk_main (replicate 32 0) 0 0 0 (replicate 64 0) 0 0 (replicate 64 0).
Definition loaded_ta (n : nat) : world :=
  mk_world [] [] [] (replicate n (mk_ck_token PKCS11_TOKEN_RESET 0 0 (synced zero_main) [])).

(** ** The invariant after the start *)

(** The addresses of the instances. *)
Definition tf_addrs (f : token_file) : list Z := omap (fun m => if m is At a then Some a else None) (tf_mem f).

(** What the TA finds: databases it wrote, and addresses the allocator gives. *)
Record file_ok (f : token_file) : Prop := mk_file_ok {
  fo_main : db_ok (tf_main f);
  fo_uuids : NoDup (tf_uuids f);
  fo_addrs : Forall ptr_ok (tf_addrs f);
}.

Definition files_ok (files : list token_file) : Prop := Forall file_ok files /\ NoDup (mjoin (tf_addrs <$> files)).

(** Without clients and sessions, the invariant is about tokens and their objects only. *)
Lemma started_ok w : w_clients w = [] -> w_sessions w = [] ->
  (forall t tk, w_tokens w !! t = Some tk -> t_session_count tk = 0 /\ t_rw_session_count tk = 0 /\
     NoDup (t_objs tk) /\ exists m, t_db tk = synced m /\ db_ok m) ->
  NoDup (o_addr <$> w_objects w) ->
  (forall o, o ∈ w_objects w -> exists t tk u, o = mk_object (o_addr o) (InToken t) None (Some t) (Some u) /\
     ptr_ok (o_addr o) /\ w_tokens w !! t = Some tk /\ u ∈ t_objs tk) ->
  (forall o o', o ∈ w_objects w -> o' ∈ w_objects w -> o_owner o = o_owner o' -> o_uuid o = o_uuid o' -> o = o') ->
  world_ok w.
Proof.
  intros Hc Hs Ht Hd Ho Hu. split; [split|rewrite Hs; by intros ? ? ?%elem_of_nil].
  - unfold sdbs, skeys. rewrite Hc, Hs. split; try (by intros; exfalso; eapply elem_of_nil); try constructor; [constructor|].
    by intros ?%elem_of_nil.
  - split; [rewrite Hs; by intros ? ?%elem_of_nil|]. intros t tk E. destruct (Ht t tk E) as (E1 & E2 & _ & m & Em & Hm).
    rewrite Hs. split_and!; [by rewrite E1 | by rewrite E2|]. exists m. split_and!; [done..|]. by intros (s & ?%elem_of_nil & _).
  - unfold odbs, skeys, uuids. rewrite Hc, Hs. split; [done| | | |by intros ? ? ?%elem_of_nil].
    + intros o Hin. destruct (Ho o Hin) as (t & tk & u & -> & Hp & E & Hut). split; [done|]. cbn [o_owner o_token o_attributes o_uuid].
      split_and!; [done | by left|]. exists u, (t_objs tk). by rewrite list_lookup_fmap, E.
    + intros o o' t Hin Hin' E E' Eu. apply Hu; [done..|congruence|done].
    + intros t l E. rewrite list_lookup_fmap in E. apply fmap_Some in E as (tk & E & ->). by apply (Ht t tk E).
Qed.

(** *** The state after the start *)

Definition uuids_of (f : token_file) : list (list Z) := if tf_open f =? TEE_SUCCESS then tf_uuids f else [].
Definition main_of (f : token_file) : token_persistent_main := if tf_open f =? TEE_SUCCESS then tf_main f else new_db_main.
Definition token_of (f : token_file) : ck_token := mk_ck_token PKCS11_TOKEN_READ_WRITE 0 0 (synced (main_of f)) (uuids_of f).
Definition instance (t : nat) (u : list Z) (a : Z) : pkcs11_object := mk_object a (InToken t) None (Some t) (Some u).
Definition objects_of (t : nat) (f : token_file) : list pkcs11_object := reverse (zip_with (instance t) (uuids_of f) (tf_addrs f)).
Definition all_objects (fs : list token_file) : list pkcs11_object := mjoin (reverse (imap objects_of fs)).

(** [fs] are the files of the tokens set up, [n] more tokens are reset. *)
Definition booted (fs : list token_file) (n : nat) : world :=
  mk_world [] [] (all_objects fs) ((token_of <$> fs) ++ w_tokens (loaded_ta n)).

Lemma all_objects_snoc fs f : all_objects (fs ++ [f]) = objects_of (length fs) f ++ all_objects fs.
Proof. unfold all_objects. rewrite imap_app, reverse_app. cbn. by rewrite Nat.add_0_r. Qed.

Lemma elem_of_objects_of o t f : o ∈ objects_of t f <->
  exists i u a, uuids_of f !! i = Some u /\ tf_addrs f !! i = Some a /\ o = instance t u a.
Proof.
  unfold objects_of. rewrite elem_of_reverse, elem_of_lookup_zip_with. split; intros (i & u & a & ? & ? & ?); eauto 8.
Qed.

Lemma elem_of_all_objects o fs : o ∈ all_objects fs <-> exists t f, fs !! t = Some f /\ o ∈ objects_of t f.
Proof.
  unfold all_objects. rewrite list_elem_of_join. split.
  - intros (l & Ho & Hl). rewrite elem_of_reverse in Hl. apply elem_of_lookup_imap in Hl as (t & f & -> & E). eauto.
  - intros (t & f & E & Ho). exists (objects_of t f). split; [done|]. apply elem_of_reverse, elem_of_lookup_imap. eauto.
Qed.

Lemma object_addr_in o t f : o ∈ objects_of t f -> o_addr o ∈ tf_addrs f.
Proof. intros (i & u & a & _ & E & ->)%elem_of_objects_of. by eapply list_elem_of_lookup_2. Qed.

(** An instance for every object. *)
Definition file_loaded (f : token_file) : Prop := (length (uuids_of f) <= length (tf_addrs f))%nat.

Lemma objects_uuid fs t f u : Forall file_loaded fs -> fs !! t = Some f -> u ∈ uuids_of f <->
  exists o, o ∈ all_objects fs /\ o_owner o = InToken t /\ o_uuid o = Some u /\ o_attributes o = None.
Proof.
  intros Hf Ef. split.
  - intros Hu. apply list_elem_of_lookup in Hu as [i Hi].
    assert (is_Some (tf_addrs f !! i)) as [a Ha].
    { pose proof (Forall_lookup_1 _ _ _ _ Hf Ef) as Hl. unfold file_loaded in Hl. apply lookup_lt_is_Some_2. apply lookup_lt_Some in Hi. lia. }
    exists (instance t u a). split; [|done]. apply elem_of_all_objects. exists t, f. split; [done|]. apply elem_of_objects_of. by exists i, u, a.
  - intros (o & Ho & Et & Eu & _). apply elem_of_all_objects in Ho as (t' & f' & Ef' & Ho).
    apply elem_of_objects_of in Ho as (i & u' & a & Hi & _ & ->). injection Et as ->. injection Eu as ->.
    rewrite Ef in Ef'. injection Ef' as ->. by eapply list_elem_of_lookup_2.
Qed.

Lemma NoDup_zip_addrs t us addrs : NoDup addrs -> NoDup (o_addr <$> zip_with (instance t) us addrs).
Proof.
  revert addrs. induction us as [|u us IH]; intros addrs Hd; [constructor|]. destruct addrs as [|a addrs]; [constructor|].
  apply NoDup_cons in Hd as [Ha Hd]. cbn [zip_with]. rewrite fmap_cons. apply NoDup_cons. split; [|by apply IH].
  intros (o & E & Ho)%list_elem_of_fmap. apply elem_of_lookup_zip_with in Ho as (i & u' & a' & -> & _ & Hi).
  apply Ha. cbn in E. subst a. by eapply list_elem_of_lookup_2.
Qed.

Lemma objects_nodup fs : NoDup (mjoin (tf_addrs <$> fs)) -> NoDup (o_addr <$> all_objects fs).
Proof.
  induction fs as [|f fs IH] using rev_ind; intros Hd; [constructor|].
  rewrite fmap_app, join_app in Hd. cbn [fmap list_fmap mjoin list_join foldr] in Hd. rewrite app_nil_r in Hd.
  apply NoDup_app in Hd as (H1 & H2 & H3). rewrite all_objects_snoc, fmap_app. apply NoDup_app. split_and!; [| |by apply IH].
  - unfold objects_of. rewrite fmap_reverse, reverse_Permutation. by apply NoDup_zip_addrs.
  - intros a (o & -> & Ho)%list_elem_of_fmap (o' & E & Ho')%list_elem_of_fmap.
    apply elem_of_all_objects in Ho' as (t & f' & Hf & Ho'). apply object_addr_in in Ho, Ho'.
    apply (H2 (o_addr o)); [|done]. rewrite E. apply list_elem_of_join. exists (tf_addrs f'). split; [done|].
    apply list_elem_of_fmap. exists f'. split; [done|]. by eapply list_elem_of_lookup_2.
Qed.

Lemma new_db_ok : db_ok new_db_main.
Proof. split; [split| |]; vm_compute; try done; by intros. Qed.

Lemma booted_ok fs : files_ok fs -> world_ok (booted fs 0).
Proof.
  intros [Hf Hd]. assert (forall t f, fs !! t = Some f -> file_ok f) as Hfo by (intros t f E; by eapply Forall_lookup_1).
  assert (forall t, w_tokens (booted fs 0) !! t = token_of <$> fs !! t) as Htk
    by (intros t; cbn [booted w_tokens loaded_ta replicate]; by rewrite app_nil_r, list_lookup_fmap).
  assert (forall f, file_ok f -> NoDup (uuids_of f)) as Hnd
    by (intros f Ho; unfold uuids_of; destruct (_ =? _); [apply Ho | constructor]).
  apply started_ok; try done.
  - intros t tk E. rewrite Htk in E. apply fmap_Some in E as (f & E & ->). split_and!; [done..|by eapply Hnd, Hfo|].
    exists (main_of f). split; [done|]. unfold main_of. destruct (_ =? _); [by apply (fo_main f), (Hfo t) | apply new_db_ok].
  - by apply objects_nodup.
  - intros o (t & f & E & Ho)%elem_of_all_objects. apply elem_of_objects_of in Ho as (i & u & a & Hu & Ha & ->).
    exists t, (token_of f), u. rewrite Htk, E. split_and!; [done| |done|by eapply list_elem_of_lookup_2].
    eapply Forall_lookup_1; [|exact Ha]. apply (fo_addrs f), (Hfo t f E).
  - intros o o' (t & f & E & Ho)%elem_of_all_objects (t' & f' & E' & Ho')%elem_of_all_objects.
    apply elem_of_objects_of in Ho as (i & u & a & Hu & Ha & ->). apply elem_of_objects_of in Ho' as (i' & u' & a' & Hu' & Ha' & ->).
    cbn [instance o_owner o_uuid]. intros [= <-] [= <-]. rewrite E in E'. injection E' as <-.
    rewrite (NoDup_lookup _ _ _ _ (Hnd f (Hfo t f E)) Hu' Hu) in Ha'. congruence.
Qed.

(** *** Running the start *)

(** Memory and storage work. *)
Definition file_up (f : token_file) : Prop :=
  (tf_open f = TEE_SUCCESS \/ tf_open f = TEE_ERROR_ITEM_NOT_FOUND) /\ tf_create f = TEE_SUCCESS /\ (forall n, tf_malloc f n = true) /\
  tf_read_main f = true /\ tf_read_count f = true /\ tf_read_uuids f = true /\
  (length (tf_uuids f) <= length (tf_mem f))%nat /\ Forall (fun m => exists a, m = At a) (tf_mem f).

(** What ends in [TEE_Panic()]: a database that is there cannot be read, or there is no memory for an instance. *)
Definition file_panics (f : token_file) : Prop :=
  tf_open f = TEE_SUCCESS /\ (tf_read_main f = false \/ tf_read_count f = false \/ tf_uuids f <> [] /\ tf_read_uuids f = false \/
    NoObject ∈ take (length (tf_uuids f)) (tf_mem f)).

(** [m] returns with [Q], or panics and [P] holds. *)
Definition boots {A} (m : W A) (Q : A -> world -> Prop) (P : Prop) (w : world) : Prop :=
  match m w with (Ret a, w') => Q a w' | (Panic, _) => P | _ => False end.

Lemma boots_ret {A} (a : A) (Q : A -> world -> Prop) P w : Q a w -> boots (ret a) Q P w.
Proof. done. Qed.

Lemma boots_bind {A B} (m : W A) (k : A -> W B) (Q : B -> world -> Prop) P w : boots m (fun a w' => boots (k a) Q P w') P w -> boots (bind m k) Q P w.
Proof. unfold boots, bind. by destruct (m w) as [[] ?]. Qed.

Lemma boots_mono {A} (m : W A) (Q R : A -> world -> Prop) (P P' : Prop) w : boots m Q P w -> (forall a w', Q a w' -> R a w') -> (P -> P') -> boots m R P' w.
Proof. unfold boots. destruct (m w) as [[] ?]; auto. Qed.

Lemma boots_eq {A} (m : W A) (Q : A -> world -> Prop) P w a w' : m w = (Ret a, w') -> Q a w' -> boots m Q P w.
Proof. unfold boots. by intros ->. Qed.

Lemma load_objects_run t us mem w :
  boots (load_objects t us mem)
    (fun ok w' => ((length us <= length mem)%nat -> Forall (fun m => exists a, m = At a) mem -> ok = true) /\
       (ok = true -> exists addrs mem', mem = (At <$> addrs) ++ mem' /\ length addrs = length us /\
          w' = set_objects (reverse (zip_with (instance t) us addrs) ++ w_objects w) w)) (NoObject ∈ take (length us) mem) w.
Proof.
  revert mem w. induction us as [|u us IH]; intros mem w; cbn [load_objects].
  - apply boots_ret. split; [done|]. intros _. exists [], mem. by destruct w.
  - destruct mem as [|[| |a] mem].
    + apply boots_ret. split; [cbn; lia|done].
    + apply boots_ret. split; [|done]. intros _ [[? [=]] _]%Forall_cons.
    + left.
    + apply boots_bind. eapply boots_eq; [done|]. eapply boots_mono; [apply IH|cbv beta|].
      * intros ok w' [H1 H2]. split; [intros Hl [_ Hm]%Forall_cons; apply H1; [cbn in Hl; lia|done]|]. intros Hok.
        destruct (H2 Hok) as (addrs & mem' & -> & El & ->). exists (a :: addrs), mem'. cbn [zip_with fmap list_fmap length app w_objects set_objects].
        split_and!; [done|lia|]. by rewrite reverse_cons, <- app_assoc.
      * intros H. cbn [length take]. by right.
Qed.

Lemma addrs_prefix f addrs mem : tf_mem f = (At <$> addrs) ++ mem -> exists l, tf_addrs f = addrs ++ l.
Proof.
  intros E. unfold tf_addrs. rewrite E, omap_app. eexists. f_equal. clear E. induction addrs as [|a l IH]; [done|]. cbn. by rewrite IH.
Qed.

Lemma zip_with_prefix {A B C} (g : A -> B -> C) l k k' : length k = length l -> zip_with g l (k ++ k') = zip_with g l k.
Proof. revert k. induction l as [|x l IH]; intros [|y k] E; simplify_eq/=; [done|]. by rewrite IH. Qed.

Lemma lookup_booted fs n : w_tokens (booted fs (S n)) !! length fs = Some (mk_ck_token PKCS11_TOKEN_RESET 0 0 (synced zero_main) []).
Proof. cbn [booted w_tokens]. rewrite lookup_app_r; rewrite length_fmap; [|lia]. by rewrite Nat.sub_diag. Qed.

(** The token at the end of those set up. *)
Lemma alter_booted fs n g os :
  set_tokens (alter g (length fs) (w_tokens (booted fs (S n)))) (set_objects os (booted fs (S n))) =
  mk_world [] [] os ((token_of <$> fs) ++ g (mk_ck_token PKCS11_TOKEN_RESET 0 0 (synced zero_main) []) :: w_tokens (loaded_ta n)).
Proof.
  unfold set_tokens, set_objects. cbn [booted w_clients w_sessions w_tokens loaded_ta replicate]. f_equal.
  rewrite <- (length_fmap token_of fs). by rewrite alter_app_r_alt, Nat.sub_diag by lia.
Qed.

(** The token with its databases, and the objects. *)
Definition with_db (fs : list token_file) (f : token_file) (n : nat) : world :=
  mk_world [] [] (all_objects (fs ++ [f]))
    ((token_of <$> fs) ++ mk_ck_token PKCS11_TOKEN_RESET 0 0 (synced (main_of f)) (uuids_of f) :: w_tokens (loaded_ta n)).

Lemma set_databases_run fs f n w : w = set_objects (all_objects (fs ++ [f])) (booted fs (S n)) ->
  set_databases (length fs) (main_of f) (uuids_of f) w = (Ret tt, with_db fs f n).
Proof. intros ->. unfold set_databases, upd_token, modify. f_equal. exact (alter_booted fs n _ (all_objects (fs ++ [f]))). Qed.

Lemma init_db_run f fs n :
  boots (init_persistent_db f (length fs))
    (fun ok w' => (file_up f -> ok = true) /\ (ok = true -> w' = with_db fs f n /\ file_loaded f)) (file_panics f) (booted fs (S n)).
Proof.
  unfold init_persistent_db. set (Q := fun ok w' => _).
  assert (~ file_up f -> forall w, boots (ret false) Q (file_panics f) w) as Hfail by (intros H w; by apply boots_ret).
  assert (forall x, tf_malloc f x = false -> forall w, boots (ret false) Q (file_panics f) w) as Hmem
    by (intros x E; apply Hfail; intros (_ & _ & Hx & _); by rewrite Hx in E).
  assert (forall w, w = set_objects (all_objects (fs ++ [f])) (booted fs (S n)) -> file_loaded f ->
    boots (do! set_databases (length fs) (main_of f) (uuids_of f) in ret true) Q (file_panics f) w) as Hset.
  { intros w Ew Hl. apply boots_bind, (boots_eq _ _ _ _ _ _ (set_databases_run fs f n w Ew)). by apply boots_ret. }
  destruct (tf_malloc f SIZEOF_DB_MAIN) eqn:E1; cbn [negb orb]; [|by eapply Hmem].
  destruct (tf_malloc f SIZEOF_DB_OBJS) eqn:E2; cbn [negb]; [|by eapply Hmem].
  unfold main_of, uuids_of, file_loaded, uuids_of in Hset. destruct (tf_open f =? TEE_SUCCESS) eqn:Eo.
  - destruct (tf_read_main f && tf_read_count f) eqn:Er; cbn [negb]; bool_hyps.
    2: { split; [done|]. destruct (tf_read_main f), (tf_read_count f); naive_solver. }
    assert (forall b, (0 <? lenZ (tf_uuids f)) && b = true -> tf_uuids f <> [] /\ b = true) as Hc by (intros b; by destruct (tf_uuids f), b).
    destruct ((0 <? _) && negb (tf_malloc f _)) eqn:E3; [apply Hc in E3 as [_ E3%negb_true_iff]; by eapply Hmem|].
    destruct ((0 <? _) && negb (tf_read_uuids f)) eqn:E4; [apply Hc in E4 as [? E4%negb_true_iff]; split; naive_solver|].
    apply boots_bind. eapply boots_mono; [apply load_objects_run|cbv beta|].
    + intros ok w' [H1 H2]. destruct ok; cbn [negb]; [|apply Hfail; intros (_ & _ & _ & _ & _ & _ & Hl & Hm); by specialize (H1 Hl Hm)].
      destruct (H2 eq_refl) as (addrs & mem' & Em & El & ->). destruct (addrs_prefix f addrs mem' Em) as [l Ea].
      apply Hset; [|rewrite Ea, length_app; lia]. rewrite all_objects_snoc. unfold objects_of, uuids_of. by rewrite (proj2 (Z.eqb_eq _ _) Eo), Ea, zip_with_prefix.
    + intros Hn. split; [done|]. by repeat right.
  - destruct (tf_open f =? TEE_ERROR_ITEM_NOT_FOUND) eqn:Ei.
    + destruct (tf_malloc f (_ + _)) eqn:E3; cbn [negb]; [|by eapply Hmem].
      destruct (tf_create f =? TEE_SUCCESS) eqn:Ec; cbn [negb]; bool_hyps; [|by apply Hfail; intros (_ & ? & _)].
      apply Hset; [|cbn; lia]. rewrite all_objects_snoc. unfold objects_of, uuids_of. rewrite (proj2 (Z.eqb_neq _ _) Eo). done.
    + bool_hyps. apply Hfail. by intros ([|] & _).
Qed.

Lemma token_init_run f fs n :
  boots (pkcs11_token_init f (length fs))
    (fun res w' => (file_up f -> res = TEE_SUCCESS) /\ (res = TEE_SUCCESS -> w' = booted (fs ++ [f]) n /\ file_loaded f)) (file_panics f)
    (booted fs (S n)).
Proof.
  unfold pkcs11_token_init. apply boots_bind. eapply boots_mono; [by apply (init_db_run f fs n)| |done].
  intros ok w' [H1 H2]. destruct ok; cbn [negb]; [|by apply boots_ret; split; [intros H%H1|]]. destruct (H2 eq_refl) as [-> Hl].
  apply boots_bind. eapply boots_eq; [apply the_token_run; cbn [with_db w_tokens]; rewrite lookup_app_r; rewrite length_fmap;
    [by rewrite Nat.sub_diag | lia]|]. cbn [t_state].
  apply boots_bind. eapply boots_eq; [done|]. apply boots_ret. split; [done|]. intros _. split; [|done]. unfold set_tokens, with_db, booted.
  cbn [w_clients w_sessions w_objects w_tokens]. f_equal. rewrite <- (length_fmap token_of fs).
  rewrite alter_app_r_alt, Nat.sub_diag by lia. cbn. by rewrite fmap_app, <- app_assoc.
Qed.

Lemma init_tokens_run files fs res :
  boots (init_tokens files (length fs) res)
    (fun res' w' => (Forall file_up files -> (files = [] -> res = TEE_SUCCESS) -> res' = TEE_SUCCESS) /\
       (res' = TEE_SUCCESS -> w' = booted (fs ++ files) 0 /\ Forall file_loaded files)) (Exists file_panics files) (booted fs (length files)).
Proof.
  revert fs res. induction files as [|f files IH]; intros fs res; cbn [init_tokens length].
  - apply boots_ret. split; [auto|]. rewrite app_nil_r. split; [done|constructor].
  - apply boots_bind. eapply boots_mono; [by apply token_init_run| |by left]. intros r w' [H1 H2].
    destruct (r =? TEE_SUCCESS) eqn:Er; cbn [negb]; bool_hyps.
    2: { apply boots_ret. split; [|done]. intros Hu _. apply H1. by apply Forall_cons in Hu as [? _]. }
    destruct (H2 Er) as [-> Hl]. specialize (IH (fs ++ [f]) r). rewrite length_app, Nat.add_1_r in IH. rewrite <- app_assoc in IH. cbn [app] in IH.
    eapply boots_mono; [exact IH|cbv beta|by right]. intros r' w2 [H3 H4]. split.
    + intros Hu _. apply Forall_cons in Hu as [_ Hu]. by apply H3.
    + intros E. destruct (H4 E) as [-> Hls]. split; [done|]. by constructor.
Qed.

Lemma init_run files : files_ok files ->
  boots (pkcs11_init files) (fun res w' => (Forall file_up files -> files <> [] -> res = TEE_SUCCESS) /\
    (res = TEE_SUCCESS -> w' = booted files 0 /\ Forall file_loaded files /\ world_ok w')) (Exists file_panics files) (loaded_ta (length files)).
Proof.
  intros Hf. pose proof (booted_ok files Hf) as Hok.
  change (loaded_ta (length files)) with (booted [] (length files)).
  eapply boots_mono; [by apply (init_tokens_run files [] TEE_ERROR_GENERIC)|cbv beta|done]. intros res w' [H1 H2].
  split; [intros Hu Hne; by apply H1|]. intros E. by destruct (H2 E) as [-> ?].
Qed.

(** C33. The start of the PKCS#11 TA. [pkcs11_init()], on databases the TA wrote and whatever memory and
    storage do, returns success or an error, or panics; it panics only where a database that exists
    cannot be read or there is no memory for the instance of one of its objects. When memory and storage
    work it succeeds. After success, each token is in its read/write state without sessions, with the
    database of its file (a fresh one when there is no file), the invariant of the TA holds, and the
    object list of each token has one instance for each persistent object of the file, and no other. *)
Theorem pkcs11_init_loads files : files_ok files ->
  match pkcs11_init files (loaded_ta (length files)) with
  | (Ret res, w) =>
      (Forall file_up files -> files <> [] -> res = TEE_SUCCESS) /\
      (res = TEE_SUCCESS -> world_ok w /\ w_clients w = [] /\ w_sessions w = [] /\ w_tokens w = token_of <$> files /\
         forall t f u, files !! t = Some f -> (u ∈ uuids_of f <->
           exists o, o ∈ w_objects w /\ o_owner o = InToken t /\ o_uuid o = Some u /\ o_attributes o = None))
  | (Panic, _) => Exists file_panics files
  | _ => False
  end.
Proof.
  intros Hf. pose proof (init_run files Hf) as Hi. unfold boots in Hi. destruct (pkcs11_init _ _) as [[res| | |] w] eqn:E; try done.
  destruct Hi as [H1 H2]. split; [done|]. intros Hr. destruct (H2 Hr) as (-> & Hl & Hw). split_and!; [done..|apply app_nil_r|].
  intros t f u Ef. by rewrite (objects_uuid files t f u).
Qed.

(** A file with two objects: loaded, and with no memory for the second instance. *)
Definition two_objects (m : instance_mem) : token_file :=
  mk_file TEE_SUCCESS true Pkcs11Pin.Witness.db1 true true [[7]; [8]] 0 (fun _ => true) [At 3000; m].

Lemma two_objects_ok m : m = At 3001 \/ m = NoObject -> files_ok [two_objects m].
Proof.
  intros Hm. split; [|destruct Hm as [-> | ->]; by apply (bool_decide_unpack _)]. constructor; [|constructor].
  split; [apply Pkcs11Pin.Witness.db1_ok|by apply (bool_decide_unpack _)|]. destruct Hm as [-> | ->]; repeat constructor; vm_compute; done.
Qed.

Lemma pkcs11_init_loads_witness :
  (exists w, pkcs11_init [two_objects (At 3001)] (loaded_ta 1) = (Ret TEE_SUCCESS, w) /\ w_tokens w = [token_of (two_objects (At 3001))] /\
    exists o, o ∈ w_objects w /\ o_owner o = InToken 0 /\ o_uuid o = Some [8] /\ o_attributes o = None) /\
  fst (pkcs11_init [two_objects NoObject] (loaded_ta 1)) = Panic /\ Exists file_panics [two_objects NoObject].
Proof.
  split.
  - pose proof (pkcs11_init_loads [two_objects (At 3001)] (two_objects_ok _ (or_introl eq_refl))) as H.
    exists (snd (pkcs11_init [two_objects (At 3001)] (loaded_ta 1))). split; [vm_compute; reflexivity|].
    destruct H as [_ H]. destruct (H eq_refl) as (_ & _ & _ & Ht & Hu). split; [exact Ht|]. apply (Hu 0%nat _ [8] eq_refl). vm_compute. right. left.
  - split; [vm_compute; reflexivity|]. exact (pkcs11_init_loads [two_objects NoObject] (two_objects_ok _ (or_intror eq_refl))).
Defined.
