(* ===== verification/Pkcs11Entry.v ===== *)
(** * Entry points of the PKCS#11 trusted application

    The entry points of [ta/pkcs11/src/entry.c]: clients register and leave, and their commands go
    through [TA_InvokeCommandEntryPoint()] to the handlers of [Pkcs11Session]. Every handler, on any
    arguments, ends with a result or an error code and keeps the invariant of the TA, and so does
    every sequence of calls from the start of the TA; what a login and a logout achieve; and the
    states in which a command makes the TA panic or follow a dangling pointer.

    Commands of the other parts of the TA (processing, attributes of objects) are not here; a call
    of [create_object()], which they make, is a step of its own. *)
From stdpp Require Import gmap relations.
From S2P Require Import Prelude HandleDb Pkcs11Attrs Pkcs11Pin Pkcs11Session Pkcs11SessionInv Pkcs11SessionSafe Pkcs11Boot.
#[local] Open Scope Z_scope.

#[local] Notation W := (M world).
#[local] Notation C := (M (world * serialargs)).

(** ** Entry points (entry.c) *)

(** The result code, and the session context for the client. *)
Definition TA_OpenSessionEntryPoint (v : ta_env) : W (Z * Z) :=
  let! client := register_client v in
  ret (if client =? 0 then (TEE_ERROR_OUT_OF_MEMORY, 0) else (TEE_SUCCESS, client)).

Definition TA_CloseSessionEntryPoint (v : ta_env) (tee_session : Z) : W unit :=
  let! client := tee_session2client tee_session in
  unregister_client v client.

Inductive pkcs11_ta_cmd :=
| PKCS11_CMD_OPEN_SESSION | PKCS11_CMD_CLOSE_SESSION | PKCS11_CMD_CLOSE_ALL_SESSIONS | PKCS11_CMD_SESSION_INFO
| PKCS11_CMD_INIT_TOKEN | PKCS11_CMD_INIT_PIN | PKCS11_CMD_SET_PIN | PKCS11_CMD_LOGIN | PKCS11_CMD_LOGOUT
| PKCS11_CMD_DESTROY_OBJECT | PKCS11_CMD_FIND_OBJECTS | PKCS11_CMD_FIND_OBJECTS_FINAL.

Definition TEE_PARAM_TYPE_GET (t i : Z) : Z := Z.land (Z.shiftr t (i * 4)) 0xf.
Definition TEE_PARAM_TYPE_MEMREF_OUTPUT : Z := 6.
Definition TEE_PARAM_TYPE_MEMREF_INOUT : Z := 7.

(** The return code of a handler with the output. *)
Definition with_rc (m : W (list Z)) : W (Z * list Z) := fun w =>
  match m w with
  | (Ret out, w') => (Ret (PKCS11_CKR_OK, out), w')
  | (Err rc, w') => (Ret (rc, []), w')
  | (Panic, w') => (Panic, w')
  | (Undef u, w') => (Undef u, w')
  end.

Section Dispatch.
Context (sha256 : list Z -> list Z) (v : ta_env).

(** The [switch (cmd)]. *)
Definition handler (cmd : pkcs11_ta_cmd) (client : Z) (r : request) : W (list Z) :=
  match cmd with
  | PKCS11_CMD_OPEN_SESSION => entry_ck_open_session v client r
  | PKCS11_CMD_CLOSE_SESSION => entry_ck_close_session v client r
  | PKCS11_CMD_CLOSE_ALL_SESSIONS => entry_ck_close_all_sessions v client r
  | PKCS11_CMD_SESSION_INFO => entry_ck_session_info client r
  | PKCS11_CMD_INIT_TOKEN => entry_ck_token_initialize sha256 v r
  | PKCS11_CMD_INIT_PIN => entry_ck_init_pin sha256 v client r
  | PKCS11_CMD_SET_PIN => entry_ck_set_pin sha256 v client r
  | PKCS11_CMD_LOGIN => entry_ck_login sha256 v client r
  | PKCS11_CMD_LOGOUT => entry_ck_logout v client r
  | PKCS11_CMD_DESTROY_OBJECT => entry_destroy_object v client r
  | PKCS11_CMD_FIND_OBJECTS => entry_find_objects client r
  | PKCS11_CMD_FIND_OBJECTS_FINAL => entry_find_objects_final client r
  end.

(** The GlobalPlatform result and, once a handler has run, the PKCS#11 return code written to the
    first parameter and the output. *)
Definition TA_InvokeCommandEntryPoint (tee_session : Z) (cmd : pkcs11_ta_cmd) (r : request) : W (Z * option (Z * list Z)) :=
  let! client := tee_session2client tee_session in
  if client =? 0 then ret (TEE_ERROR_SECURITY, None)
  else
    let t0 := TEE_PARAM_TYPE_GET (r_ptypes r) 0 in
    if negb ((t0 =? TEE_PARAM_TYPE_MEMREF_OUTPUT) || (t0 =? TEE_PARAM_TYPE_MEMREF_INOUT)) || (lenZ (r_ctrl r) <? 4)
    then ret (TEE_ERROR_BAD_PARAMETERS, None)
    else
      let! p := with_rc (handler cmd client r) in
      ret (if p.1 =? PKCS11_CKR_BUFFER_TOO_SMALL then TEE_ERROR_SHORT_BUFFER else TEE_SUCCESS, Some p).
End Dispatch.

(** ** Reading the arguments of a command *)

(** The control buffer of a request is memory of the TA. *)
Definition request_ok (r : request) : Prop :=
  bytes_ok (r_ctrl r) /\ 0 <= r_addr r /\ r_addr r + lenZ (r_ctrl r) < 2 ^ 64.

Section Args.
Context (w : world) (a : serialargs) (Ha : args_wf a).

Lemma runs_in_world {B} (m : W B) (Q : B -> world * serialargs -> Prop) E :
  runs m (fun x w' => Q x (w', a)) (fun e w' => E e (w', a)) w -> runs (in_world m) Q E (w, a).
Proof. unfold runs, in_world. cbn [fst snd]. by destruct (m w) as [[] ?]. Qed.

Lemma runs_arg_bytes n (Q : list Z -> world * serialargs -> Prop) (E : Z -> world * serialargs -> Prop) : 0 <= n < 2 ^ 64 ->
  (forall d a', d = take (Z.to_nat n) (remaining a) -> lenZ d = n -> bytes_ok d -> args_wf a' -> Q d (w, a')) -> (forall rc a', rc <> 0 -> E rc (w, a')) ->
  runs (arg_bytes n) Q E (w, a).
Proof.
  intros Hn HQ HE. destruct (serialargs_get_parses n a Ha Hn) as (a' & Eg & Hw & _). unfold arg_bytes. apply runs_bind.
  apply (runs_eq _ _ _ _ (p_get n (remaining a)).1 (w, a')); [unfold in_args; cbn [fst snd]; by rewrite Eg|].
  unfold p_get. destruct (n <=? lenZ (remaining a)) eqn:El; cbn [fst snd]; bool_hyps.
  - apply runs_bind, runs_guard; [done|]. intros _. apply runs_ret, HQ; [done| |apply Forall_take, Forall_drop, Ha|done].
    unfold lenZ in *. rewrite length_take. lia.
  - apply runs_bind, runs_guard; [intros _; by apply HE | done].
Qed.

Lemma runs_arg_u32 (Q : Z -> world * serialargs -> Prop) (E : Z -> world * serialargs -> Prop) :
  (forall x a', x = le_val (take 4 (remaining a)) -> is_u 32 x -> args_wf a' -> Q x (w, a')) -> (forall rc a', rc <> 0 -> E rc (w, a')) ->
  runs arg_u32 Q E (w, a).
Proof.
  intros HQ HE. apply runs_bind, runs_arg_bytes; [done| |done]. intros d a' Ed Hd Hb Ha'. apply runs_ret, HQ; [by rewrite Ed| |done].
  pose proof (le_val_range d Hb) as Hr. by rewrite Hd in Hr.
Qed.

Lemma runs_arg_ptr n (Q : option (list Z) -> world * serialargs -> Prop) (E : Z -> world * serialargs -> Prop) : is_u 32 n ->
  (forall p a', args_wf a' -> Q p (w, a')) -> (forall rc a', rc <> 0 -> E rc (w, a')) -> runs (arg_ptr n) Q E (w, a).
Proof.
  intros Hn HQ HE. assert (0 <= n < 2 ^ 64) as Hn' by (unfold is_u in Hn; lia). unfold arg_ptr. apply runs_bind.
  unfold in_args at 1. unfold runs at 1. cbn [fst snd]. rewrite (get_ptr_spec n a Ha Hn').
  destruct (n <=? lenZ (remaining a)) eqn:El; bool_hyps.
  - apply runs_bind, runs_guard; [done|]. intros _.
    pose proof (read_input_spec n a Ha ltac:(lia)) as Er. destruct (advance_wf n a Ha ltac:(lia)) as [Hw _].
    destruct (n =? 0) eqn:E0; [by apply runs_ret, HQ|]. apply runs_bind. eapply runs_eq; [|by apply runs_ret, HQ].
    unfold in_args. cbn [fst snd]. by rewrite Er.
  - apply runs_bind, runs_guard; [intros _; by apply HE | done].
Qed.

Lemma runs_no_more_args (Q : unit -> world * serialargs -> Prop) (E : Z -> world * serialargs -> Prop) :
  Q tt (w, a) -> (forall rc a', rc <> 0 -> E rc (w, a')) -> runs no_more_args Q E (w, a).
Proof.
  intros HQ HE. apply runs_bind. unfold in_args, serialargs_remaining_bytes, bind, get, ret, runs. cbn [fst snd].
  apply runs_guard; [intros _; by apply HE | done].
Qed.
End Args.

(** A session handle from the client is that of one of its sessions. *)
Lemma handle2session_run w c h : base_ok w -> c ∈ c_addr <$> w_clients w -> 0 <= h ->
  exists p, pkcs11_handle2session h c w = (Ret p, w) /\
    (p <> 0 -> exists s, s ∈ w_sessions w /\ s_addr s = p /\ s_client s = c /\ s_handle s = h).
Proof.
  intros Hw Hc Hh. apply find_client in Hc as (cl & Hcl & <-).
  pose proof (so_wf _ _ (wo_sess w Hw) _ _ (elem_of_sdbs w cl Hcl)) as Hwf.
  unfold pkcs11_handle2session. rewrite (in_session_db_run w cl _ _ _ (client_addrs w Hw) Hcl (pkcs11_lookup_run _ h Hwf Hh)).
  rewrite (put_sdb_id w cl (client_addrs w Hw) Hcl). eexists. split; [reflexivity|].
  destruct (slots 1 (c_session_db cl) !! h) as [p|] eqn:Es; [|done]. destruct (p =? Pkcs11.INVALID_HANDLE_PTR); [done|]. intros _.
  apply (so_db _ _ (wo_sess w Hw) _ _ _ _ (elem_of_sdbs w cl Hcl)) in Es as (k & Hk & Ec & Eh & Ep).
  apply skeys_elem in Hk as (s & Hs & ->). by exists s.
Qed.

Lemma runs_arg_session w a c (Q : Z -> world * serialargs -> Prop) (E : Z -> world * serialargs -> Prop) : args_wf a ->
  base_ok w -> c ∈ c_addr <$> w_clients w ->
  (forall s a', s ∈ w_sessions w -> s_client s = c -> args_wf a' -> Q (s_addr s) (w, a')) ->
  (forall rc a', rc <> 0 -> E rc (w, a')) -> runs (serialargs_get_session_from_handle c) Q E (w, a).
Proof.
  intros Ha Hw Hc HQ HE. apply runs_bind, runs_arg_u32; [done| |done]. intros h a' _ [Hh _] Ha'.
  destruct (handle2session_run w c h Hw Hc Hh) as (p & Ep & Hp). apply runs_bind, runs_in_world, (runs_eq _ _ _ _ _ _ Ep).
  apply runs_bind, runs_guard; [intros _; by apply HE|]. intros Hp0. bool_hyps. apply runs_ret.
  destruct (Hp Hp0) as (s & Hs & <- & Ec & _). by apply HQ.
Qed.

Lemma runs_command {A} bad r (body : C A) (Q : A -> world -> Prop) (E : Z -> world -> Prop) w : request_ok r ->
  E PKCS11_CKR_ARGUMENTS_BAD w ->
  (forall a, args_wf a -> remaining a = r_ctrl r -> runs body (fun x s => Q x (fst s)) (fun e s => E e (fst s)) (w, a)) ->
  runs (command bad r body) Q E w.
Proof.
  intros (Hb & H0 & H1) HE Hr. unfold command. destruct bad; [by apply runs_err|].
  set (a := serialargs_init _ _ _). specialize (Hr a). unfold runs in *. destruct (body (w, a)) as [o [w' a']]. cbn [fst snd] in *.
  apply Hr; [|unfold remaining, a; cbn [serialargs_init next start input]; by rewrite Z.sub_diag].
  pose proof (lenZ_nonneg (r_ctrl r)). unfold args_wf, a, serialargs_init. cbn [input start next size].
  split_and!; (done || lia).
Qed.

(** ** Handlers *)

(** What client [c] does leaves the sessions of the other clients and their objects as they are. *)
Definition isolated (c : Z) (w w' : world) : Prop :=
  (forall s, s_client s <> c -> s ∈ w_sessions w' <-> s ∈ w_sessions w) /\
  (forall o x, x ∈ w_sessions w -> s_client x <> c -> o_owner o = InSession (s_addr x) -> o ∈ w_objects w' <-> o ∈ w_objects w).

(** How a call of client [c] leaves the state: whatever it returns, the error code is not 0 and the
    invariant holds. *)
Definition good (c : Z) (w w' : world) : Prop := world_ok w' /\ isolated c w w'.
Definition keeps {A} (c : Z) (m : W A) (w : world) : Prop := runs m (fun _ => good c w) (fun rc w' => rc <> 0 /\ good c w w') w.

Lemma good_same c w w' : world_ok w' -> same_use w w' -> good c w w'.
Proof. intros Hw [Es Eo]. split; [done|]. split; intros; by rewrite ?Es, ?Eo. Qed.

(** Sessions of the client changed in place. *)
Lemma isolated_upd c w w' sel f : w_sessions w' = upd sel f (w_sessions w) ->
  (forall x, x ∈ w_sessions w -> sel x = true -> s_client x = c /\ s_client (f x) = c) ->
  (forall o x, x ∈ w_sessions w -> s_client x <> c -> o_owner o = InSession (s_addr x) -> o ∈ w_objects w' <-> o ∈ w_objects w) ->
  isolated c w w'.
Proof.
  intros Es Hf Ho. split; [|done]. intros s Hs. rewrite Es, elem_of_upd. split.
  - intros (x & Hx & E). destruct (sel x) eqn:Ex; [|by subst]. subst s. by destruct (Hf x Hx Ex).
  - intros Hin. exists s. split; [done|]. destruct (sel s) eqn:Ex; [|done]. by destruct (Hf s Hin Ex).
Qed.

Lemma world_base w : world_ok w -> base_ok w.
Proof. by intros []. Qed.

Lemma u32_nonneg x : is_u 32 x -> 0 <= x.
Proof. by intros []. Qed.

Ltac args :=
  repeat match goal with
  | |- runs (bind _ _) _ _ _ => apply runs_bind
  | |- runs arg_u32 _ _ _ => apply runs_arg_u32; [done| |done]; intros ? ? ? ? ?
  | |- runs (arg_bytes _) _ _ _ => apply runs_arg_bytes; [done|done| |done]; intros ? ? ? ? ? ?
  | |- runs (arg_ptr _) _ _ _ => apply runs_arg_ptr; [done|done| |done]; intros ? ? ?
  | |- runs no_more_args _ _ _ => apply runs_no_more_args; [|done]
  | |- runs (serialargs_get_session_from_handle _) _ _ _ =>
      apply runs_arg_session; [done|by apply world_base|done| |done]; intros ? ? ? ? ?
  end.

(** The last call of a handler, on the state. *)
Lemma runs_last {A B} c (m : W A) (x : B) w a : keeps c m w ->
  runs (in_world m) (fun _ s => runs (ret x) (fun _ s' => good c w (fst s')) (fun rc s' => rc <> 0 /\ good c w (fst s')) s)
    (fun rc s => rc <> 0 /\ good c w (fst s)) (w, a).
Proof. intros Hm. apply runs_in_world. eapply runs_mono; [exact Hm| |done]. intros ? w' Hw'. by apply runs_ret. Qed.

Lemma keeps_mono {A} c (m : W A) w (Q : A -> world -> Prop) (E : Z -> world -> Prop) : runs m Q E w ->
  (forall x w', Q x w' -> good c w w') -> (forall rc w', E rc w' -> rc <> 0 /\ good c w w') -> keeps c m w.
Proof. intros Hm HQ HE. by eapply runs_mono. Qed.

Section Handlers.
Context (sha256 : list Z -> list Z) (v : ta_env) (w : world) (c : Z) (r : request).
Context (Hw : world_ok w) (Hg : good c w w) (Hc : c ∈ c_addr <$> w_clients w) (Hr : request_ok r).

Lemma session_other s x : s ∈ w_sessions w -> x ∈ w_sessions w -> s_client s = c -> s_client x <> c -> s_addr x <> s_addr s.
Proof. intros Hs Hx Es Ex E. by rewrite (addr_inj s_addr (w_sessions w) x s (sess_addrs w (world_base w Hw)) Hx Hs E) in Ex. Qed.

(** A call on a session of the client. *)
Lemma session_call {A} (bad : bool) (m : Z -> W A) : (forall s, s ∈ w_sessions w -> s_client s = c -> keeps c (m (s_addr s)) w) ->
  keeps c (command bad r (let! session := serialargs_get_session_from_handle c in
                       do! no_more_args in
                       do! in_world (m session) in ret (@nil Z))) w.
Proof. intros Hm. apply runs_command; [done..|]. intros a Ha _. args. by apply runs_last, Hm. Qed.

Lemma handler_close_session : keeps c (entry_ck_close_session v c r) w.
Proof.
  apply session_call. intros s Hs Ec. pose proof Hw as [Hb Hl].
  destruct (close_ck_session_run v w s Hb Hs) as (w' & E & Hb' & Es & Eo). apply (runs_eq _ _ _ _ _ _ E). split.
  - split; [done|]. apply (login_sub (w_sessions w)); [done|]. rewrite Es. by intros x [Hx _]%elem_of_drop_session.
  - split.
    + intros x Hx. rewrite Es, elem_of_drop_session. split; [by intros []|]. intros Hin. split; [done|]. by apply session_other.
    + intros o x Hx Hxc Eow. rewrite Eo. split; [by intros []|]. intros Ho. split; [done|]. rewrite Eow. intros [= Ea].
      by apply (session_other s x).
Qed.

Lemma handler_logout : keeps c (entry_ck_logout v c r) w.
Proof.
  apply session_call. intros s Hs Ec. pose proof Hw as [Hb _]. destruct (sess_in w Hb s Hs) as [Es _].
  unfold logout. apply runs_bind, (runs_eq _ _ _ _ _ _ Es), runs_bind, runs_guard; [done|]. intros _.
  destruct (session_logout_run v w s Hw Hs) as (w' & E & Hout). apply (runs_eq _ _ _ _ _ _ E).
  destruct Hout as (Hw' & Ex & _ & Eo & _). split; [done|].
  apply (isolated_upd c w w' _ _ Ex); [intros x _ [Ex' _]%same_login_iff; by rewrite <- Ec, <- Ex'|].
  intros o x Hx Hxc Eow. rewrite Eo. split; [by intros []|]. intros Ho. split; [done|]. intros [_ (y & Hy & [Ey _]%same_login_iff & Eoy)]. rewrite Eow in Eoy. injection Eoy as Ea.
  apply (session_other y x); (done || congruence).
Qed.

Lemma handler_close_all : keeps c (entry_ck_close_all_sessions v c r) w.
Proof.
  apply runs_command; [done..|]. intros a Ha _. args. unfold get_token. apply runs_in_world, runs_bind, runs_get, runs_ret.
  destruct (_ <? _); [|by apply runs_err]. apply runs_bind, runs_last.
  destruct (close_sessions_run v w c (Some (Z.to_nat x)) Hw) as (w' & E & Hw' & Es & Eo). apply (runs_eq _ _ _ _ _ _ E).
  split; [done|]. split; [|done]. intros y Hy. rewrite Es. split; [by intros []|]. intros Hin. split; [done|].
  unfold to_close. by rewrite (proj2 (Z.eqb_neq _ _) Hy).
Qed.

Lemma handler_session_info : keeps c (entry_ck_session_info c r) w.
Proof.
  apply runs_command; [done..|]. intros a Ha _. args. pose proof Hw as [Hb _]. destruct (sess_in w Hb s ltac:(done)) as [Es _].
  apply runs_in_world, (runs_eq _ _ _ _ _ _ Es), runs_bind, runs_in_world, runs_bind, runs_get, runs_bind, runs_assert.
  - pose proof (to_sess _ _ (wo_toks w Hb) s ltac:(done)). apply Z.ltb_lt. unfold lenZ. lia.
  - by apply runs_ret, runs_ret.
Qed.

Lemma handler_open_session : fresh_addr v w -> heap_ok v -> keeps c (entry_ck_open_session v c r) w.
Proof.
  intros Hf Hh. apply runs_command; [done..|]. intros a Ha _. args. apply runs_in_world. eapply runs_mono.
  - apply (open_session_sound v w c x x0); try done. by apply u32_nonneg.
  - intros h w' (Hw' & _ & Eo & k & Es & Ek & _). apply runs_ret. cbn [fst]. split; [done|]. split; [|by rewrite Eo].
    intros y Hy. rewrite Es, elem_of_cons. split; [|by right]. by intros [->|].
  - by intros rc w' [? ->].
Qed.

Lemma handler_init_pin : storage_ok (v_tee v) -> keeps c (entry_ck_init_pin sha256 v c r) w.
Proof.
  intros Hv. apply runs_command; [done..|]. intros a Ha _. args. apply runs_last.
  eapply keeps_mono; [by apply init_pin_sound|..]; [intros _ w' [] | intros rc w' (? & ? & ?); split; [done|]]; by apply good_same.
Qed.

Lemma handler_set_pin : storage_ok (v_tee v) -> keeps c (entry_ck_set_pin sha256 v c r) w.
Proof.
  intros Hv. apply runs_command; [done..|]. intros a Ha _. args. apply runs_last.
  eapply keeps_mono; [by apply change_pin_sound|..]; [intros _ w' [] | intros rc w' (? & ? & ?); split; [done|]]; by apply good_same.
Qed.

Lemma handler_login : storage_ok (v_tee v) ->
  (forall s tk, s ∈ w_sessions w -> s_client s = c -> w_tokens w !! s_token s = Some tk -> initialized (db_main (t_db tk))) ->
  keeps c (entry_ck_login sha256 v c r) w.
Proof.
  intros Hv Hi. apply runs_command; [done..|]. intros a Ha _. args. apply runs_last.
  eapply keeps_mono; [apply (login_sound sha256 v Hv w s x p); [done..|]|..].
  - intros _ tk. by apply Hi.
  - intros _ w' (u & _ & _ & Hw' & _ & Eo & Es). split; [done|].
    apply (isolated_upd c w w' _ _ Es); [intros y _ [Ey _]%same_login_iff; cbn; by rewrite Ey | by rewrite Eo].
  - intros rc w' (Hrc & Hw' & Hu & _). split; [done | by apply good_same].
Qed.

Lemma handler_destroy_object : storage_up v w -> keeps c (entry_destroy_object v c r) w.
Proof.
  intros Hv. apply runs_command; [done..|]. intros a Ha _. args. apply runs_last. pose proof Hw as [Hb Hl].
  eapply keeps_mono; [apply (destroy_by_handle_sound v w s x Hb Hv); [done|]|..].
  - by apply u32_nonneg.
  - intros _ w' (Hb' & Es & o & Ho & Eo & Hown). split; [split; [done | by rewrite Es]|]. split; [by rewrite Es|].
    intros o' y Hy Hyc Eow. rewrite Eo, elem_of_without. split; [by intros []|]. intros Ho'. split; [done|]. intros Ea.
    rewrite (addr_inj o_addr (w_objects w) o' o (oo_addrs _ _ _ _ (wo_objs w Hb)) Ho' Ho Ea) in Eow. rewrite Eow in Hown.
    destruct Hown as (k & Hk & Eka & Ekc). apply (session_other k y); (done || congruence).
  - by intros rc w' [? ->].
Qed.

Lemma handler_token_initialize : storage_up v w -> unreferenced w (Z.to_nat (le_val (take 4 (r_ctrl r)))) ->
  keeps c (entry_ck_token_initialize sha256 v r) w.
Proof.
  intros Hv Hun. apply runs_command; [done..|]. intros a Ha Ea. args. apply runs_last.
  eapply keeps_mono; [apply (init_token_sound sha256 v w x d p Hw Hv); [by apply u32_nonneg|subst x; by rewrite Ea]|..].
  - intros _ w' (Hw' & Es & Eo). split; [done|]. split; [by rewrite Es|]. intros o y Hy _ Eow. rewrite Eo, Eow. naive_solver.
  - intros rc w' (Hrc & Hw' & Hu). split; [done | by apply good_same].
Qed.

Lemma handler_find_objects : keeps c (entry_find_objects c r) w.
Proof.
  apply runs_command; [done..|]. intros a Ha _. args. pose proof Hw as [Hb _]. destruct (sess_in w Hb s ltac:(done)) as [Es _].
  apply runs_in_world. unfold find_objects. apply runs_bind, (runs_eq _ _ _ _ _ _ Es). destruct (s_find_ctx s); [|by apply runs_err].
  apply runs_bind, runs_modify, runs_ret, runs_ret. split; [by apply world_upd_keep|].
  eapply (isolated_upd c w); [reflexivity| |done]. intros y Hy Ey%Z.eqb_eq. by rewrite (addr_inj s_addr (w_sessions w) y s (sess_addrs w Hb)).
Qed.

Lemma handler_find_final : keeps c (entry_find_objects_final c r) w.
Proof.
  apply runs_command; [done..|]. intros a Ha _. args. pose proof Hw as [Hb _]. destruct (sess_in w Hb s ltac:(done)) as [Es _].
  apply runs_in_world, (runs_eq _ _ _ _ _ _ Es), runs_bind, runs_guard; [done|]. intros _.
  apply runs_bind, runs_last, runs_modify. split; [by apply world_upd_keep|].
  eapply (isolated_upd c w); [reflexivity| |done]. intros y Hy Ey%Z.eqb_eq. by rewrite (addr_inj s_addr (w_sessions w) y s (sess_addrs w Hb)).
Qed.
End Handlers.

(** ** All commands *)

(** The services during a call: the storage works, and what is allocated is new. *)
Record services_ok (v : ta_env) (w : world) : Prop := mk_services_ok {
  sv_storage : storage_up v w;
  sv_addr : fresh_addr v w;
  sv_heap : heap_ok v;
}.

(** What the code expects of a command without checking it: a login finds the tokens of the client's
    sessions initialised, and no client has a handle to an object of a token that is initialised. *)
Definition expects (cmd : pkcs11_ta_cmd) (c : Z) (r : request) (w : world) : Prop :=
  match cmd with
  | PKCS11_CMD_LOGIN => forall s tk, s ∈ w_sessions w -> s_client s = c -> w_tokens w !! s_token s = Some tk ->
      initialized (db_main (t_db tk))
  | PKCS11_CMD_INIT_TOKEN => unreferenced w (Z.to_nat (le_val (take 4 (r_ctrl r))))
  | _ => True
  end.

Lemma handler_keeps sha256 v w cmd c r : world_ok w -> c ∈ c_addr <$> w_clients w -> request_ok r -> services_ok v w ->
  expects cmd c r w -> keeps c (handler sha256 v cmd c r) w.
Proof.
  intros Hw Hc Hr [Hs Hf Hh] He. assert (good c w w) as Hg by (by apply good_same). destruct cmd; cbn [handler].
  - by apply handler_open_session.
  - by apply handler_close_session.
  - by apply handler_close_all.
  - by apply handler_session_info.
  - by apply handler_token_initialize.
  - apply handler_init_pin; try done. apply Hs.
  - apply handler_set_pin; try done. apply Hs.
  - apply handler_login; try done. apply Hs.
  - by apply handler_logout.
  - by apply handler_destroy_object.
  - by apply handler_find_objects.
  - by apply handler_find_final.
Qed.

Lemma tee_session2client_run p w :
  tee_session2client p w = (Ret (if bool_decide (p ∈ c_addr <$> w_clients w) then p else 0), w).
Proof.
  unfold tee_session2client, bind, get, ret. do 2 f_equal. destruct (existsb _ _) eqn:E.
  - apply existsb_exists in E as (c & Hc & Ec). bool_hyps. rewrite bool_decide_eq_true_2; [done|].
    apply list_elem_of_fmap. exists c. split; [done|]. by apply list_elem_of_In.
  - rewrite bool_decide_eq_false_2; [done|]. intros (c & -> & Hc)%list_elem_of_fmap. apply not_true_iff_false in E.
    apply E, existsb_exists. exists c. split; [by apply list_elem_of_In | apply Z.eqb_refl].
Qed.

(** The command each function of [pkcs11_token.c] and [object.c] serves, called for the client [p]. *)
Definition served_by (sha256 : list Z -> list Z) (v : ta_env) (p : Z) (r : request) : list (pkcs11_ta_cmd * W (list Z)) :=
  [ (PKCS11_CMD_INIT_TOKEN, entry_ck_token_initialize sha256 v r);
    (PKCS11_CMD_OPEN_SESSION, entry_ck_open_session v p r);
    (PKCS11_CMD_CLOSE_SESSION, entry_ck_close_session v p r);
    (PKCS11_CMD_CLOSE_ALL_SESSIONS, entry_ck_close_all_sessions v p r);
    (PKCS11_CMD_SESSION_INFO, entry_ck_session_info p r);
    (PKCS11_CMD_LOGIN, entry_ck_login sha256 v p r);
    (PKCS11_CMD_LOGOUT, entry_ck_logout v p r);
    (PKCS11_CMD_INIT_PIN, entry_ck_init_pin sha256 v p r);
    (PKCS11_CMD_SET_PIN, entry_ck_set_pin sha256 v p r);
    (PKCS11_CMD_FIND_OBJECTS, entry_find_objects p r);
    (PKCS11_CMD_FIND_OBJECTS_FINAL, entry_find_objects_final p r);
    (PKCS11_CMD_DESTROY_OBJECT, entry_destroy_object v p r) ].

(** The first parameter of the request can take a return code. *)
Definition answerable (r : request) : Prop :=
  (TEE_PARAM_TYPE_GET (r_ptypes r) 0 = TEE_PARAM_TYPE_MEMREF_OUTPUT \/ TEE_PARAM_TYPE_GET (r_ptypes r) 0 = TEE_PARAM_TYPE_MEMREF_INOUT) /\
  4 <= lenZ (r_ctrl r).

(** What the client reads after [m] has run from [w] to [w']: the return code and the output. *)
Definition replies (m : W (list Z)) (w : world) (rc : Z) (out : list Z) (w' : world) : Prop :=
  m w = (Ret out, w') /\ rc = PKCS11_CKR_OK \/ m w = (Err rc, w') /\ rc <> PKCS11_CKR_OK /\ out = [].

(** How [TA_InvokeCommandEntryPoint()] answers command [cmd] of [p]: a caller it does not know and
    parameters it cannot answer in are refused, and nothing changes; any other request is answered by
    what the function that serves the command does. *)
Definition answer (sha256 : list Z -> list Z) (v : ta_env) (w : world) (p : Z) (cmd : pkcs11_ta_cmd) (r : request)
    (a : Z * option (Z * list Z)) (w' : world) : Prop :=
  if decide (p ∈ c_addr <$> w_clients w) then
    (~ answerable r /\ a = (TEE_ERROR_BAD_PARAMETERS, None) /\ w' = w) \/
    (answerable r /\ exists m rc out, (cmd, m) ∈ served_by sha256 v p r /\ replies m w rc out w' /\
       a = (if decide (rc = PKCS11_CKR_BUFFER_TOO_SMALL) then TEE_ERROR_SHORT_BUFFER else TEE_SUCCESS, Some (rc, out)))
  else a = (TEE_ERROR_SECURITY, None) /\ w' = w.

Lemma handler_served sha256 v cmd p r : (cmd, handler sha256 v cmd p r) ∈ served_by sha256 v p r.
Proof. unfold served_by. destruct cmd; cbn [handler]; set_solver. Qed.

Lemma answerable_iff r : negb ((TEE_PARAM_TYPE_GET (r_ptypes r) 0 =? TEE_PARAM_TYPE_MEMREF_OUTPUT) ||
    (TEE_PARAM_TYPE_GET (r_ptypes r) 0 =? TEE_PARAM_TYPE_MEMREF_INOUT)) || (lenZ (r_ctrl r) <? 4) = false <-> answerable r.
Proof. unfold answerable. rewrite orb_false_iff, negb_false_iff, orb_true_iff, !Z.eqb_eq, Z.ltb_ge. done. Qed.

Lemma runs_with_rc (m : W (list Z)) (Q : Z * list Z -> world -> Prop) (F : Z -> world -> Prop) p w :
  keeps p m w -> (forall rc out w', replies m w rc out w' -> good p w w' -> Q (rc, out) w') -> runs (with_rc m) Q F w.
Proof.
  unfold keeps, runs, with_rc, replies. intros Hm HQ. destruct (m w) as [[] w'] eqn:E; try done.
  - apply HQ; [by left|done].
  - destruct Hm. apply HQ; [by right|done].
Qed.

Lemma invoke_sound sha256 v w p cmd r : world_ok w -> request_ok r -> services_ok v w -> expects cmd p r w ->
  runs (TA_InvokeCommandEntryPoint sha256 v p cmd r) (fun a w' => answer sha256 v w p cmd r a w' /\ good p w w') (fun _ _ => False) w.
Proof.
  intros Hw Hr Hs He. assert (good p w w) as Hg by (by apply good_same). unfold TA_InvokeCommandEntryPoint, answer.
  apply runs_bind, (runs_eq _ _ _ _ _ _ (tee_session2client_run p w)).
  case_bool_decide as Hp; [|apply runs_ret; by rewrite decide_False].
  pose proof (proj2 (so_clients _ _ (wo_sess w (world_base w Hw)))) as H0. unfold sdbs in H0. rewrite <- list_fmap_compose in H0.
  rewrite (proj2 (Z.eqb_neq p 0)) by (intros ->; done). pose proof (answerable_iff r) as Ha.
  destruct (negb _ || _); [apply runs_ret; rewrite decide_True by done; split; [left; by split; [intros [=]%Ha|]|done]|].
  apply runs_bind. eapply runs_with_rc; [by apply (handler_keeps sha256 v w cmd p r)|]. intros rc out w' Hrep Hg'. apply runs_ret. rewrite decide_True by done. split; [right|done].
  split; [by apply Ha|]. exists (handler sha256 v cmd p r), rc, out. split; [apply handler_served|]. split; [done|]. cbn [fst].
  destruct (Z.eqb_spec rc PKCS11_CKR_BUFFER_TOO_SMALL); [by rewrite decide_True|by rewrite decide_False].
Qed.

Lemma open_client_sound v w : world_ok w -> services_ok v w ->
  runs (TA_OpenSessionEntryPoint v) (fun _ => world_ok) (fun _ _ => False) w.
Proof.
  intros Hw [_ Hf _]. apply runs_bind. eapply runs_mono; [by apply register_client_ok| |done]. cbv beta. intros c w' Hw'. by apply runs_ret.
Qed.

Lemma close_client_sound v w p : world_ok w -> runs (TA_CloseSessionEntryPoint v p) (fun _ => world_ok) (fun _ _ => False) w.
Proof.
  intros Hw. apply runs_bind, (runs_eq _ _ _ _ _ _ (tee_session2client_run p w)).
  destruct (unregister_client_run v w (if bool_decide (p ∈ c_addr <$> w_clients w) then p else 0) Hw) as (w' & E & Hw').
  by apply (runs_eq _ _ _ _ _ _ E).
Qed.

(** ** Sequences of calls *)

(** A call of the TA, with the services during it. *)
Inductive ta_call :=
| OpenClient (v : ta_env)
| CloseClient (v : ta_env) (p : Z)
| Invoke (v : ta_env) (p : Z) (cmd : pkcs11_ta_cmd) (r : request)
| CreateObject (v : ta_env) (s : Z) (head : list Z).

Definition run_call (sha256 : list Z -> list Z) (k : ta_call) : W unit :=
  match k with
  | OpenClient v => do! TA_OpenSessionEntryPoint v in ret tt
  | CloseClient v p => TA_CloseSessionEntryPoint v p
  | Invoke v p cmd r => do! TA_InvokeCommandEntryPoint sha256 v p cmd r in ret tt
  | CreateObject v s head => do! rc_of (create_object v s head) in ret tt
  end.

Definition allowed (w : world) (k : ta_call) : Prop :=
  match k with
  | OpenClient v => services_ok v w
  | CloseClient _ _ => True
  | Invoke v p cmd r => services_ok v w /\ request_ok r /\ expects cmd p r w
  | CreateObject v s head => services_ok v w /\ exists se tok, se ∈ w_sessions w /\ s_addr se = s /\ head_ok head tok /\
      (tok = true -> persistent_mem v w se)
  end.

Definition ta_step (sha256 : list Z -> list Z) (w w' : world) : Prop :=
  exists k, allowed w k /\ snd (run_call sha256 k w) = w'.

Lemma runs_rc_of {A} (m : W A) (P : world -> Prop) (E : Z -> world -> Prop) F w : runs m (fun _ => P) E w ->
  (forall rc w', E rc w' -> P w') -> runs (rc_of m) (fun _ => P) F w.
Proof. unfold runs, rc_of. intros Hm HE. destruct (m w) as [[] ?]; try done. by eapply HE. Qed.

Lemma runs_drop {A} (m : W A) (P : world -> Prop) w : runs m (fun _ => P) (fun _ _ => False) w ->
  runs (do! m in ret tt) (fun _ => P) (fun _ _ => False) w.
Proof. intros Hm. apply runs_bind. eapply runs_mono; [exact Hm| |done]. cbv beta. intros ? w' Hw'. by apply runs_ret. Qed.

Lemma call_sound sha256 w k : world_ok w -> allowed w k -> runs (run_call sha256 k) (fun _ => world_ok) (fun _ _ => False) w.
Proof.
  intros Hw Hk. destruct k as [v|v p|v p cmd r|v s head]; cbn [run_call allowed] in *.
  - by apply runs_drop, open_client_sound.
  - by apply close_client_sound.
  - destruct Hk as (Hs & Hr & He). apply runs_drop.
    eapply runs_mono; [by apply (invoke_sound sha256 v w p cmd r)| |done]. by intros ? w' [_ []].
  - destruct Hk as (Hs & se & tok & Hse & <- & Hh & Hm). apply runs_drop.
    eapply runs_rc_of; [eapply runs_mono; [apply (create_object_sound v w se head tok Hw Hse); [apply Hs|apply Hs|done..]|..]|].
    + by intros ? w' [].
    + intros rc w' H. exact H.
    + by intros rc w' [].
Qed.

Lemma reachable_ok sha256 w0 w : world_ok w0 -> rtc (ta_step sha256) w0 w -> world_ok w.
Proof.
  intros Hw Hr. induction Hr as [w0|w0 w1 w2 (k & Hk & <-) Hr IH]; [done|]. apply IH.
  pose proof (call_sound sha256 w0 k Hw Hk) as Hs. unfold runs in Hs. by destruct (run_call sha256 k w0) as [[] w1].
Qed.

(** ** Correctness *)

(** C3. The PKCS#11 TA keeps its state consistent. From a start on databases it wrote itself, clients
    register and leave, invoke the modelled commands in any order and with any arguments, and create
    objects from well-formed attributes. Every state reached satisfies the invariant (a client's handles
    lead to its own live sessions and to live objects it may see, session counters are exact, a client's
    sessions on a token agree on the login), and every further call returns: no panic, no dangling
    pointer, no access outside a buffer. [allowed] assumes of each call: storage works; addresses are
    new; a heap below 8 GiB; memory to write a shortened list of object UUIDs; for a new token object
    also a handle, memory for a UUID and an unused UUID; LOGIN finds the client's tokens initialised;
    INIT_TOKEN finds no handle to the token's objects. Otherwise the TA can fail:
    create_no_memory_panics, so_login_panics, init_token_leaves_handles. *)
Theorem ta_reachable_ok sha256 files w0 w : files_ok files ->
  pkcs11_init files (loaded_ta (length files)) = (Ret TEE_SUCCESS, w0) -> rtc (ta_step sha256) w0 w ->
  world_ok w /\ forall k, allowed w k -> fst (run_call sha256 k w) = Ret tt.
Proof.
  intros Hf E Hr. pose proof (init_run files Hf) as Hi. unfold boots in Hi. rewrite E in Hi. destruct Hi as [_ Hi].
  assert (world_ok w) as Hw by (apply (reachable_ok sha256 w0); [by apply Hi | done]). split; [done|]. intros k Hk.
  pose proof (call_sound sha256 w k Hw Hk) as Hs. unfold runs in Hs. by destruct (run_call sha256 k w) as [[[]| | |] w1].
Qed.

(** C14. Login, while the storage works, on any session of the TA; for user type SO the token has to be
    initialised, since the TA panics otherwise (so_login_panics). [entry_ck_login()] with user type SO
    or USER succeeds exactly when nobody is logged in, the PIN check of the token accepts (and, for SO,
    the client has no read-only session on the token); then all the sessions of that client on that
    token, and no others, are in the state of that user, and handles and objects are as before. Else it
    returns an error and no session changes its state. *)
Theorem login_effect sha256 v w s user_type pin : world_ok w -> storage_ok (v_tee v) -> s ∈ w_sessions w ->
  (user_type = 0 -> forall tk, w_tokens w !! s_token s = Some tk -> initialized (db_main (t_db tk))) ->
  runs (login sha256 v (s_addr s) user_type pin)
    (fun _ w' => exists u, user_type = user_code u /\ may_login sha256 v w s u pin /\ logged_in w s u w' /\
       forall x, x ∈ w_sessions w' -> same_login s x = true -> login_of x = Some u)
    (fun rc w' => rc <> 0 /\ world_ok w' /\ same_use w w' /\
       forall u, user_type = user_code u -> ~ may_login sha256 v w s u pin) w.
Proof.
  intros Hw Hv Hs Hi. eapply runs_mono; [by apply login_sound| |done]. intros _ w' (u & Eu & Hm & Hl). exists u. split_and!; [done..|].
  destruct Hl as (_ & _ & _ & Es). rewrite Es. intros x (y & _ & ->)%elem_of_upd Hx. destruct (same_login s y) eqn:Ey;
    [apply login_as_keys | congruence].
Qed.

(** C15. Logout. [entry_ck_logout()] on a session that is logged in always succeeds: the sessions of
    the client on the token are public again, each read/write as before, without active processing or
    search; their private session objects are destroyed, and no other object is; and the client has
    no handle left to a private object of the token. On a public session it is refused, and nothing
    changes. *)
Theorem logout_effect v w s : world_ok w -> s ∈ w_sessions w ->
  runs (logout v (s_addr s))
    (fun _ w' => login_of s <> None /\ logged_out w s w' /\ forall x, x ∈ w_sessions w' -> same_login s x = true ->
       login_of x = None /\ s_processing x = None /\ s_find_ctx x = None)
    (fun rc w' => rc = PKCS11_CKR_USER_NOT_LOGGED_IN /\ w' = w /\ login_of s = None) w.
Proof.
  intros Hw Hs. destruct (sess_in w (world_base w Hw) s Hs) as [Es _]. unfold logout. apply runs_bind, (runs_eq _ _ _ _ _ _ Es).
  assert (pkcs11_session_is_public s = true <-> login_of s = None) as Hp
    by (unfold pkcs11_session_is_public, login_of; by destruct (s_state s)).
  apply runs_bind, runs_guard; [intros H; by rewrite <- Hp|]. intros H.
  destruct (session_logout_run v w s Hw Hs) as (w' & E & Hout). apply (runs_eq _ _ _ _ _ _ E). split_and!; [|done|].
  - intros H'. apply Hp in H'. congruence.
  - destruct Hout as (_ & Ex & _). rewrite Ex. intros x (y & _ & ->)%elem_of_upd Hx. destruct (same_login s y) eqn:Ey; [|congruence].
    unfold logged_out_session, login_of, set_state. cbn [s_state s_processing s_find_ctx idle set_find_ctx set_processing].
    by destruct (pkcs11_session_is_read_write y).
Qed.

(** C16. The answer of the TA, and the isolation of its clients, under the conditions of [services_ok]
    (storage works, new addresses, a heap below 8 GiB, memory to write a shortened UUID list) and
    [expects] (LOGIN finds the client's tokens initialised, INIT_TOKEN finds no handle to the token's
    objects; see so_login_panics and init_token_leaves_handles). [TA_InvokeCommandEntryPoint()] refuses
    a caller that is no registered client with TEE_ERROR_SECURITY, and a request whose first parameter
    cannot take a return code with TEE_ERROR_BAD_PARAMETERS, and then nothing changes. Any other request
    is run by the one function that serves its command, for the calling client; the answer is that
    function's return code and output, none beside an error, with TEE_ERROR_SHORT_BUFFER exactly for
    BUFFER_TOO_SMALL. The sessions of the other clients and the objects in them are as before. *)
Theorem ta_invoke_answers sha256 v w p cmd r : world_ok w -> request_ok r -> services_ok v w -> expects cmd p r w ->
  runs (TA_InvokeCommandEntryPoint sha256 v p cmd r)
    (fun a w' => answer sha256 v w p cmd r a w' /\ isolated p w w') (fun _ _ => False) w.
Proof. intros. eapply runs_mono; [by apply invoke_sound| |done]. by intros a w' [Ha [_ Hi]]. Qed.

(** A login as SO on a token that is not initialised makes the TA panic: [entry_ck_login()] does not
    check what [check_so_pin()] asserts. *)
Theorem so_login_panics sha256 v w s tk pin : world_ok w -> s ∈ w_sessions w -> login_of s = None ->
  (forall x, x ∈ w_sessions w -> same_login s x = true -> pkcs11_session_is_read_write x = true) ->
  w_tokens w !! s_token s = Some tk -> ~ initialized (db_main (t_db tk)) ->
  fst (login sha256 v (s_addr s) 0 pin w) = Panic.
Proof.
  intros Hw Hs Hn Hrw Ht Hi. destruct (sess_in w (world_base w Hw) s Hs) as [Es _]. unfold login.
  rewrite (bind_run _ _ _ _ _ Es). cbn [Z.eqb]. destruct (logged_in_guards s) as (H1 & H2 & _).
  destruct (pkcs11_session_is_so s); [by destruct H1|]. destruct (pkcs11_session_is_user s); [by destruct H2|].
  do 2 (rewrite (bind_run _ _ _ tt w) by done). rewrite (bind_run _ _ _ w w) by done.
  rewrite (proj2 (read_only_exists w s) Hrw), (bind_run _ _ _ tt w) by done.
  assert (check_so_pin sha256 (v_tee v) pin (t_db tk) = (Panic, t_db tk)) as Ec.
  { apply not_true_iff_false in Hi. unfold check_so_pin. rewrite (bind_run _ _ _ (t_db tk) (t_db tk)) by done. by rewrite Hi. }
  unfold in_token, bind at 1 2. rewrite (the_token_run w _ tk Ht), Ec. done.
Qed.

(** The error path of [create_object()] for a token object that has no UUID yet. *)
Lemma create_fail_panics v w cl db h a s head rc : base_ok w -> cl ∈ w_clients w -> c_addr cl = s_client s -> db_wf db -> 0 <= h ->
  head_ok head true ->
  fst ((do! in_object_db (s_client s) (Pkcs11.handle_put h) in
        let! tok := on_block (Some head) (get_bool PKCS11_CKA_TOKEN) in
        do! (if tok then cleanup_persistent_object v (mk_object a (InSession (s_addr s)) (Some head) None None) (s_token s)
             else cleanup_volatile_obj_ref a) in
        (err rc : W Z)) (put_odb (s_client s) db w)) = Panic.
Proof.
  intros Hw Hcl Ec Hwf Hh Hhead. rewrite <- Ec. destruct (pkcs11_put_run db h Hwf Hh) as (x & db2 & Eput & _ & _).
  set (w1 := put_odb (c_addr cl) db w). set (cl1 := mk_client (c_addr cl) (c_session_db cl) db).
  assert (cl1 ∈ w_clients w1) as Hcl1 by (apply elem_of_upd; exists cl; by rewrite Z.eqb_refl).
  assert (NoDup (c_addr <$> w_clients w1)) as Hd1 by (unfold w1; rewrite put_odb_clients; by apply client_addrs).
  pose proof (in_object_db_run w1 cl1 _ _ _ Hd1 Hcl1 Eput) as E1. cbn [c_addr cl1] in E1.
  rewrite (bind_run _ _ _ _ _ E1). destruct Hhead as (b & l & [= <-] & Hr & Ht & _).
  rewrite (bind_run _ _ _ _ _ (on_block_bool _ head l _ _ Hr Ht)). done.
Qed.

(** Creating a token object when the allocation of its UUID fails makes the TA panic: the error path
    opens the persistent object by a null identifier. *)
Theorem create_no_memory_panics v w s head : world_ok w -> s ∈ w_sessions w -> fresh_addr v w -> heap_ok v -> head_ok head true ->
  v_addr v <> None -> e_malloc (v_tee v) 16 = false -> fst (create_object v (s_addr s) head w) = Panic.
Proof.
  intros [Hb _] Hs Hf Hheap Hhead Ha Hm. destruct (sess_in w Hb s Hs) as [Es (cl & Hcl & Ec & Hdb)].
  unfold create_object. rewrite (bind_run _ _ _ _ _ Es). destruct (v_addr v) as [a|] eqn:Ea; [|done].
  destruct (Hf a Ea) as ([Ha1 Ha2] & _).
  destruct (pkcs11_get_body _ (v_junk v) Hheap a _ (od_wf _ _ _ _ Hdb) Ha1 Ha2) as (r & db & Eg & Hwf & Hr).
  pose proof (in_object_db_run w cl _ _ _ (client_addrs w Hb) Hcl Eg) as Eg'. rewrite Ec in Eg'.
  rewrite (bind_run _ _ _ _ _ Eg'). destruct r as [h|]; cbn [from_option id].
  2: { cbn [Z.eqb]. by apply (create_fail_panics v w cl db 0 a). }
  destruct Hr as (Hh & _). rewrite (proj2 (Z.eqb_neq h 0)) by lia. cbn [o_attributes]. pose proof Hhead as (b & l & [= <-] & Hrep & Ht & _).
  rewrite (bind_run _ _ _ _ _ (on_block_bool _ head l _ _ Hrep Ht)).
  rewrite (bind_run _ _ _ (PKCS11_CKR_DEVICE_MEMORY, mk_object a (InSession (s_addr s)) (Some head) None None) (put_odb (s_client s) db w))
    by (unfold create_object_uuid; cbn [o_uuid]; rewrite (bind_run _ _ _ tt (put_odb (s_client s) db w)) by done; by rewrite Hm).
  apply (create_fail_panics v w cl db h a s head PKCS11_CKR_DEVICE_MEMORY); (done || lia).
Qed.

(** ** A run of the TA *)

Module Scenario.
(** Services that work, with [a] the address of what is allocated and [u] the UUID that is drawn. *)
Definition digest : list Z -> list Z := Pkcs11Pin.Witness.digest.
Definition tee : tee_env := mk_env (Some (identity_bytes TEE_LOGIN_USER (replicate 16 7))) 9 0 0 0 0 (fun n => n <=? 2 ^ 33).
Definition env (a : Z) (u : list Z) : ta_env := mk_ta_env tee (Some a) 170 [u] 0 0 0 0.
Definition req (pt : Z) (ctrl : list Z) (out : Z) : request := mk_request pt 4096 ctrl out.
Definition word : Z -> list Z := le_bytes 4.

(** One token, without a database so far. *)
Definition files : list token_file := [mk_file TEE_ERROR_ITEM_NOT_FOUND true new_db_main true true [] 0 (fun _ => true) []].
Definition booted_ta : world := snd (pkcs11_init files (loaded_ta 1)).

(** The attributes of a data object. *)
Definition head (tok private : Z) : list Z :=
  block_of [(PKCS11_CKA_CLASS, word 0); (PKCS11_CKA_TOKEN, [tok]); (PKCS11_CKA_PRIVATE, [private]); (PKCS11_CKA_DESTROYABLE, [1])].

(** The client 1000 initialises the token with the officer's PIN 1234, opens the session 2000 and
    logs in as the officer; sets the user's PIN 12345, logs out, logs in as the user, and creates a
    private token object and a private session object. *)
Definition call (cmd : pkcs11_ta_cmd) (ctrl : list Z) : ta_call := Invoke (env 1 []) 1000 cmd (req PT_CTRL ctrl 0).
Definition open_calls : list ta_call :=
  [ OpenClient (env 1000 []);
    call PKCS11_CMD_INIT_TOKEN (word 0 ++ word 4 ++ replicate 32 65 ++ [49; 50; 51; 52]);
    Invoke (env 2000 []) 1000 PKCS11_CMD_OPEN_SESSION (req PT_CTRL_OUT (word 0 ++ word 6) 4) ].
Definition user_calls : list ta_call :=
  [ call PKCS11_CMD_LOGIN (word 1 ++ word 0 ++ word 4 ++ [49; 50; 51; 52]);
    call PKCS11_CMD_INIT_PIN (word 1 ++ word 5 ++ [49; 50; 51; 52; 53]);
    call PKCS11_CMD_LOGOUT (word 1);
    call PKCS11_CMD_LOGIN (word 1 ++ word 1 ++ word 5 ++ [49; 50; 51; 52; 53]);
    CreateObject (env 3000 [7]) 2000 (head 1 1);
    CreateObject (env 3001 [7]) 2000 (head 0 1) ].

Definition after (ks : list ta_call) (w : world) : world := foldl (fun w k => snd (run_call digest k w)) w ks.
Definition opened : world := after open_calls booted_ta.
Definition in_use : world := after user_calls opened.

(** Conditions that can be evaluated. *)
Lemma env_services a u w :
  bool_decide (a <> 0 /\ a <> Pkcs11.INVALID_HANDLE_PTR /\ a ∉ c_addr <$> w_clients w /\ a ∉ s_addr <$> w_sessions w /\
               a ∉ o_addr <$> w_objects w) = true ->
  forallb (fun l => lenZ l <=? 1000) (uuids w) = true -> services_ok (env a u) w.
Proof.
  intros (H1 & H2 & H3)%bool_decide_eq_true Hl. rewrite forallb_forall in Hl. split.
  - split; [by split|done|by left|]. intros l n Hin Hn. specialize (Hl l (proj1 (list_elem_of_In _ _) Hin)). cbn. lia.
  - by intros ? [= <-].
  - intros n. cbn. lia.
Qed.

Lemma req_ok pt ctrl out : forallb (fun b => (0 <=? b) && (b <? 256)) ctrl = true -> lenZ ctrl <=? 100000 = true ->
  request_ok (req pt ctrl out).
Proof.
  intros Hb Hl. rewrite forallb_forall in Hb. split_and!; cbn; [|lia..]. apply Forall_forall. intros b Hin.
  specialize (Hb b (proj1 (list_elem_of_In _ _) Hin)). unfold byte_ok. lia.
Qed.

Lemma all_initialized w c r : forallb (fun tk => has (flags (db_main (t_db tk))) PKCS11_CKFT_TOKEN_INITIALIZED) (w_tokens w) = true ->
  expects PKCS11_CMD_LOGIN c r w.
Proof.
  rewrite forallb_forall. intros Hi s tk _ _ Ht%list_elem_of_lookup_2. by apply Hi, list_elem_of_In.
Qed.

Lemma no_objects w c r : w_objects w = [] -> expects PKCS11_CMD_INIT_TOKEN c r w.
Proof. intros E. intros c' db o h _ Ho. rewrite E in Ho. by apply elem_of_nil in Ho. Qed.

(** [steps ks w]: all of [ks] may be called one after the other. *)
Fixpoint steps (ks : list ta_call) (w : world) : Prop :=
  match ks with [] => True | k :: ks' => allowed w k /\ steps ks' (snd (run_call digest k w)) end.

Lemma steps_reach ks w : steps ks w -> rtc (ta_step digest) w (after ks w).
Proof.
  revert w. induction ks as [|k ks IH]; intros w; [constructor|]. intros [Hk Hks]. eapply rtc_l; [by exists k|]. by apply IH.
Qed.

Lemma steps_cons k ks w w' : allowed w k -> snd (run_call digest k w) = w' -> steps ks w' -> steps (k :: ks) w.
Proof. by intros Hk <- Hks. Qed.

Lemma head_attrs tok private : head_ok (head tok private) (negb (tok =? 0)).
Proof.
  eexists _, [(PKCS11_CKA_CLASS, word 0); (PKCS11_CKA_TOKEN, [tok]); (PKCS11_CKA_PRIVATE, [private]); (PKCS11_CKA_DESTROYABLE, [1])].
  split; [reflexivity|]. split; [|by split_and!; eauto]. split; [repeat constructor; vm_compute; done|]. split; [done|].
  exists []. unfold head, block_of, blk. by rewrite app_nil_r.
Qed.

Ltac eval_tac := vm_compute; reflexivity.
Ltac services := apply env_services; eval_tac.
Ltac call_tac :=
  split; [services|]; split; [apply req_ok; eval_tac|]; first [exact I | apply all_initialized; eval_tac | apply no_objects; eval_tac].
Ltac persistent_tac := intros _; split_and!;
  [by left|reflexivity
  |intros a cl [= <-] ->%list_elem_of_singleton _; vm_compute; discriminate
  |exists [7]; split; [by apply list_elem_of_singleton|]; intros tk [= <-]; by apply not_elem_of_nil].
Ltac create_tac b :=
  split; [services|]; eexists _, b; split; [by apply list_elem_of_singleton|]; split; [reflexivity|];
  split; [exact (head_attrs (if b then 1 else 0) 1)|first [done | persistent_tac]].
Ltac step_tac := eapply steps_cons;
  [lazymatch goal with
   | |- allowed _ (OpenClient _) => services
   | |- allowed _ (CreateObject _ _ (head 1 _)) => create_tac true
   | |- allowed _ (CreateObject _ _ (head 0 _)) => create_tac false
   | |- _ => call_tac
   end|vm_compute; reflexivity|].

Lemma all_steps : steps (open_calls ++ user_calls) booted_ta.
Proof.
  unfold open_calls, user_calls, call. cbn [app].
  assert (exists w, w = booted_ta) as [w E] by eauto. rewrite <- E. vm_compute in E. subst w.
  repeat step_tac. exact I.
Qed.

Lemma booted_world_ok : world_ok booted_ta.
Proof.
  assert (booted_ta = booted files 0) as -> by (vm_compute; reflexivity). apply booted_ok. split; [|constructor].
  constructor; [|constructor]. split; [apply new_db_ok|constructor|constructor].
Qed.

Lemma steps_app ks ks' w : steps (ks ++ ks') w -> steps ks w /\ steps ks' (after ks w).
Proof.
  revert w. induction ks as [|k ks IH]; intros w; [done|]. intros [Hk Hks]. destruct (IH _ Hks). by split; [split|].
Qed.

Lemma opened_reached : rtc (ta_step digest) booted_ta opened.
Proof. exact (steps_reach open_calls booted_ta (proj1 (steps_app open_calls user_calls booted_ta all_steps))). Qed.

Lemma in_use_reached : rtc (ta_step digest) opened in_use.
Proof. exact (steps_reach user_calls opened (proj2 (steps_app open_calls user_calls booted_ta all_steps))). Qed.

Lemma opened_ok : world_ok opened.
Proof. exact (reachable_ok digest booted_ta opened booted_world_ok opened_reached). Qed.

Lemma in_use_ok : world_ok in_use.
Proof. exact (reachable_ok digest opened in_use opened_ok in_use_reached). Qed.
End Scenario.

Lemma ta_reachable_ok_witness : files_ok Scenario.files /\
  fst (pkcs11_init Scenario.files (loaded_ta 1)) = Ret TEE_SUCCESS /\
  world_ok Scenario.in_use /\ forall k, allowed Scenario.in_use k -> fst (run_call Scenario.digest k Scenario.in_use) = Ret tt.
Proof.
  assert (files_ok Scenario.files) as Hf.
  { split; [|constructor]. constructor; [|constructor]. split; [apply new_db_ok|constructor|constructor]. }
  split; [exact Hf|]. split; [reflexivity|].
  apply (ta_reachable_ok Scenario.digest Scenario.files Scenario.booted_ta Scenario.in_use Hf); [vm_compute; reflexivity|].
  exact (transitivity Scenario.opened_reached Scenario.in_use_reached).
Defined.

(** The officer logs in after the token was initialised. *)
Lemma login_effect_witness : exists s, s ∈ w_sessions Scenario.opened /\
  runs (login Scenario.digest (Scenario.env 1 []) (s_addr s) 0 (Some [49; 50; 51; 52]))
    (fun _ w' => exists u, 0 = user_code u /\ may_login Scenario.digest (Scenario.env 1 []) Scenario.opened s u (Some [49; 50; 51; 52]) /\
       logged_in Scenario.opened s u w' /\ forall x, x ∈ w_sessions w' -> same_login s x = true -> login_of x = Some u)
    (fun rc w' => rc <> 0 /\ world_ok w' /\ same_use Scenario.opened w' /\
       forall u, 0 = user_code u -> ~ may_login Scenario.digest (Scenario.env 1 []) Scenario.opened s u (Some [49; 50; 51; 52]))
    Scenario.opened.
Proof.
  exists (mk_session 2000 1000 0 1 PKCS11_CKS_RW_PUBLIC_SESSION None None).
  assert (mk_session 2000 1000 0 1 PKCS11_CKS_RW_PUBLIC_SESSION None None ∈ w_sessions Scenario.opened) as Hs
    by (vm_compute; by apply list_elem_of_singleton).
  split; [exact Hs|]. apply (login_effect Scenario.digest (Scenario.env 1 []) Scenario.opened _ 0 (Some [49; 50; 51; 52])
    Scenario.opened_ok); [by split|exact Hs|]. intros _ tk. vm_compute. by intros [= <-].
Defined.

(** The user logs out. *)
Lemma logout_effect_witness : exists s, s ∈ w_sessions Scenario.in_use /\
  runs (logout (Scenario.env 1 []) (s_addr s))
    (fun _ w' => login_of s <> None /\ logged_out Scenario.in_use s w' /\ forall x, x ∈ w_sessions w' -> same_login s x = true ->
       login_of x = None /\ s_processing x = None /\ s_find_ctx x = None)
    (fun rc w' => rc = PKCS11_CKR_USER_NOT_LOGGED_IN /\ w' = Scenario.in_use /\ login_of s = None) Scenario.in_use.
Proof.
  exists (mk_session 2000 1000 0 1 PKCS11_CKS_RW_USER_FUNCTIONS None None).
  assert (mk_session 2000 1000 0 1 PKCS11_CKS_RW_USER_FUNCTIONS None None ∈ w_sessions Scenario.in_use) as Hs
    by (vm_compute; by apply list_elem_of_singleton).
  split; [exact Hs|]. exact (logout_effect (Scenario.env 1 []) Scenario.in_use _ Scenario.in_use_ok Hs).
Defined.

(** The user destroys the token object. *)
Lemma ta_invoke_answers_witness :
  runs (TA_InvokeCommandEntryPoint Scenario.digest (Scenario.env 1 []) 1000 PKCS11_CMD_DESTROY_OBJECT
          (Scenario.req PT_CTRL (Scenario.word 1 ++ Scenario.word 1) 0))
    (fun a w' => answer Scenario.digest (Scenario.env 1 []) Scenario.in_use 1000 PKCS11_CMD_DESTROY_OBJECT (Scenario.req PT_CTRL (Scenario.word 1 ++ Scenario.word 1) 0) a w' /\
       isolated 1000 Scenario.in_use w') (fun _ _ => False) Scenario.in_use.
Proof.
  apply (ta_invoke_answers Scenario.digest (Scenario.env 1 []) Scenario.in_use 1000 PKCS11_CMD_DESTROY_OBJECT);
    [exact Scenario.in_use_ok|apply Scenario.req_ok; vm_compute; reflexivity|apply Scenario.env_services; vm_compute; reflexivity|exact I].
Defined.

(** A session on the token before it is initialised. *)
Lemma so_login_panics_witness :
  let w := Scenario.after [OpenClient (Scenario.env 1000 []); Invoke (Scenario.env 2000 []) 1000 PKCS11_CMD_OPEN_SESSION
             (Scenario.req PT_CTRL_OUT (Scenario.word 0 ++ Scenario.word 6) 4)] Scenario.booted_ta in
  fst (login Scenario.digest (Scenario.env 1 []) 2000 0 (Some [49; 50; 51; 52]) w) = Panic.
Proof.
  set (ks := [_; _]). intros w. assert (Scenario.steps ks Scenario.booted_ta) as Hst.
  { unfold ks. eapply Scenario.steps_cons; [Scenario.services|reflexivity|].
    eapply Scenario.steps_cons; [split; [Scenario.services|]; split; [apply Scenario.req_ok; vm_compute; reflexivity|exact I]|reflexivity|exact I]. }
  pose proof (reachable_ok _ _ _ Scenario.booted_world_ok (Scenario.steps_reach ks _ Hst)) as Hw.
  apply (so_login_panics Scenario.digest (Scenario.env 1 []) w (mk_session 2000 1000 0 1 PKCS11_CKS_RW_PUBLIC_SESSION None None)
    (mk_ck_token PKCS11_TOKEN_READ_WRITE 1 1 (synced new_db_main) []) (Some [49; 50; 51; 52]) Hw).
  - vm_compute. by apply list_elem_of_singleton.
  - done.
  - intros x Hx _. vm_compute in Hx. apply list_elem_of_singleton in Hx as ->. done.
  - vm_compute. reflexivity.
  - vm_compute. discriminate.
Defined.

(** The user creates a token object with no memory for a UUID. *)
Lemma create_no_memory_panics_witness :
  let tee := mk_env None 9 0 0 0 0 (fun n => (n <=? 2 ^ 33) && negb (n =? 16)) in
  fst (create_object (mk_ta_env tee (Some 4000) 170 [] 0 0 0 0) 2000 (Scenario.head 1 1) Scenario.in_use) = Panic.
Proof.
  intros tee.
  apply (create_no_memory_panics (mk_ta_env tee (Some 4000) 170 [] 0 0 0 0) Scenario.in_use
    (mk_session 2000 1000 0 1 PKCS11_CKS_RW_USER_FUNCTIONS None None) (Scenario.head 1 1) Scenario.in_use_ok).
  - vm_compute. by apply list_elem_of_singleton.
  - intros a [= <-]. apply (bool_decide_unpack _). vm_compute. exact I.
  - intros n. cbn. lia.
  - exact (Scenario.head_attrs 1 1).
  - done.
  - done.
Defined.

(** Initialising a token destroys its objects and leaves the clients' handles to them: a client that
    holds one, and opens a session again, makes the TA follow a dangling pointer by any command on the
    handle. Here it closes its session, the token is initialised, it opens a session and destroys
    the object 1. *)
Theorem init_token_leaves_handles :
  let ks := [Scenario.call PKCS11_CMD_CLOSE_SESSION (Scenario.word 1);
             Scenario.call PKCS11_CMD_INIT_TOKEN (Scenario.word 0 ++ Scenario.word 4 ++ replicate 32 65 ++ [49; 50; 51; 52]);
             Invoke (Scenario.env 2000 []) 1000 PKCS11_CMD_OPEN_SESSION (Scenario.req PT_CTRL_OUT (Scenario.word 0 ++ Scenario.word 6) 4)] in
  rtc (ta_step Scenario.digest) Scenario.booted_ta Scenario.in_use /\
  (forall i k, ks !! i = Some k -> fst (run_call Scenario.digest k (Scenario.after (take i ks) Scenario.in_use)) = Ret tt) /\
  w_objects (Scenario.after ks Scenario.in_use) = [] /\
  fst (run_call Scenario.digest (Scenario.call PKCS11_CMD_DESTROY_OBJECT (Scenario.word 1 ++ Scenario.word 1))
         (Scenario.after ks Scenario.in_use)) = Undef UseAfterFree.
Proof.
  intros ks. split; [exact (transitivity Scenario.opened_reached Scenario.in_use_reached)|].
  split; [|split; vm_compute; reflexivity].
  intros i k Hk. do 3 (destruct i as [|i]; [injection Hk as <-; vm_compute; reflexivity|]). by destruct i.
Qed.
