(* ===== verification/Base64.v ===== *)
(** * Base64 ([lib/libutils/ext/base64.c])

    The encoder writes its groups of four characters into the caller's buffer; the decoder reads
    characters one by one with a four-state machine, storing a byte when it is complete and there is
    room. Buffers are byte strings; a read or a write outside them is undefined. *)
From S2P Require Import Prelude.
#[local] Open Scope Z_scope.

(** "ABC...XYZabc...xyz0123456789+/" *)
Definition base64_table : list Z := seqZ 65 26 ++ seqZ 97 26 ++ seqZ 48 10 ++ [43; 47].

Definition PAD : Z := 61.                        (* '=' *)

Definition base64_enc_len (size : Z) : Z := u64 (4 * (u64 (size + 2) / 3) + 1).

(** [buf[off] = c] on the caller's buffer. *)
Definition put_char (off c : Z) : M (list Z) unit :=
  let! b := get in
  let! b' := of_opt OutOfBounds (wr b off [c]) in
  put b'.

(** [base64_table[i & 0x3f]] *)
Definition digit (i : Z) : M (list Z) Z := idx base64_table (Z.land i 0x3f).

(** The 24 bits of the group at [n]; absent bytes are 0. *)
Definition group (d : list Z) (dlen n : Z) : M (list Z) Z :=
  let! x := idx d n in
  let igrp := u32 (Z.shiftl x 8) in
  let! igrp := (if n + 1 <? dlen then let! y := idx d (n + 1) in ret (Z.lor igrp y) else ret igrp) in
  let igrp := u32 (Z.shiftl igrp 8) in
  if n + 2 <? dlen then let! y := idx d (n + 2) in ret (Z.lor igrp y) else ret igrp.

(** The loop of [base64_enc()]; a turn advances [n] by 3, so [dlen] turns are enough. *)
Fixpoint enc_loop (fuel : nat) (d : list Z) (dlen n boffs : Z) : M (list Z) Z :=
  match fuel with
  | O => panic
  | S f =>
      if negb (n <? dlen) then ret boffs else
      let! igrp := group d dlen n in
      let! c := digit (Z.shiftr igrp 18) in
      do! put_char boffs c in
      let! c := digit (Z.shiftr igrp 12) in
      do! put_char (boffs + 1) c in
      let! c := (if n + 1 <? dlen then digit (Z.shiftr igrp 6) else ret PAD) in
      do! put_char (boffs + 2) c in
      let! c := (if n + 2 <? dlen then digit igrp else ret PAD) in
      do! put_char (boffs + 3) c in
      enc_loop f d dlen (n + 3) (boffs + 4)
  end.

(** The state is [buf]; the result is the return value and [*blen]. *)
Definition base64_enc (d : list Z) (dlen blen : Z) : M (list Z) (bool * Z) :=
  let n := base64_enc_len dlen in
  if blen <? n then ret (false, n)
  else
    let! boffs := enc_loop (S (Z.to_nat dlen)) d dlen 0 0 in
    do! put_char boffs 0 in
    ret (true, boffs + 1).

(** The search of [get_idx()] in the table, from position [n]. *)
Fixpoint get_idx_from (t : list Z) (n ch : Z) : option Z :=
  match t with
  | [] => None
  | c :: r => if ch =? c then Some n else get_idx_from r (n + 1) ch
  end.

Definition get_idx (ch : Z) : option Z := get_idx_from base64_table 0 ch.

(** [if (b && m < *blen) b[m] = v;] *)
Definition store (has_buf : bool) (blen m v : Z) : M (list Z) unit :=
  if has_buf && (m <? blen) then put_char m v else ret tt.

(** The loop of [base64_dec()]: [n] is the position, [m] the bytes so far, [s] the state and [byte]
    the bits kept for the next byte. The result is [m]. *)
Fixpoint dec_loop (fuel : nat) (data : list Z) (size : Z) (has_buf : bool) (blen n m s byte : Z) :
    M (list Z) (option Z) :=
  match fuel with
  | O => ret (Some m)
  | S f =>
      if negb (n <? size) then ret (Some m) else
      let! ch := idx data n in
      if ch =? 0 then ret (Some m)
      else if ch =? PAD then ret (Some m)
      else
        match get_idx ch with
        | None => dec_loop f data size has_buf blen (n + 1) m s byte
        | Some i =>
            if s =? 0 then dec_loop f data size has_buf blen (n + 1) m 1 (u8 (Z.shiftl i 2))
            else if s =? 1 then
              do! store has_buf blen m (u8 (Z.lor byte (Z.shiftr i 4))) in
              dec_loop f data size has_buf blen (n + 1) (m + 1) 2 (u8 (Z.shiftl (Z.land i 0xf) 4))
            else if s =? 2 then
              do! store has_buf blen m (u8 (Z.lor byte (Z.shiftr i 2))) in
              dec_loop f data size has_buf blen (n + 1) (m + 1) 3 (u8 (Z.shiftl (Z.land i 0x3) 6))
            else if s =? 3 then
              do! store has_buf blen m (u8 (Z.lor byte i)) in
              dec_loop f data size has_buf blen (n + 1) (m + 1) 0 byte
            else ret None
        end
  end.

(** The state is the output buffer, [has_buf] whether the caller gave one; the result is the return
    value and [*blen]. The loop runs at most [size] times, which is its fuel. *)
Definition base64_dec (data : list Z) (size : Z) (has_buf : bool) (blen : Z) : M (list Z) (bool * Z) :=
  let! r := dec_loop (Z.to_nat size) data size has_buf blen 0 0 0 0 in
  match r with
  | None => ret (false, blen)
  | Some m => ret (((m =? 0) && (blen =? 0)) || (has_buf && (m <=? blen)), m)
  end.

(** "Many hands" *)
Example enc_example :
  base64_enc [77; 97; 110; 121; 32] 5 16 (replicate 16 1) =
  (Ret (true, 9), [84; 87; 70; 117; 101; 83; 65; 61; 0; 1; 1; 1; 1; 1; 1; 1]).
Proof. reflexivity. Qed.

Example dec_example :
  base64_dec [84; 87; 70; 10; 117; 101; 83; 65; 61; 0] 10 true 8 (replicate 8 1) =
  (Ret (true, 5), [77; 97; 110; 121; 32; 1; 1; 1]).
Proof. reflexivity. Qed.

(** ** The encoding of a byte string *)

Definition T (i : Z) : Z := default 0 (base64_table !! Z.to_nat i).

Fixpoint chars (d : list Z) : list Z :=
  match d with
  | [] => []
  | [a] => [T (a / 4); T (a mod 4 * 16); PAD; PAD]
  | [a; b] => [T (a / 4); T (a mod 4 * 16 + b / 16); T (b mod 16 * 4); PAD]
  | a :: b :: c :: r =>
      T (a / 4) :: T (a mod 4 * 16 + b / 16) :: T (b mod 16 * 4 + c / 64) :: T (c mod 64) :: chars r
  end.

(** Induction over a byte string by groups of three. *)
Lemma group_ind (P : list Z -> Prop) :
  P [] -> (forall a, P [a]) -> (forall a b, P [a; b]) ->
  (forall a b c r, P r -> P (a :: b :: c :: r)) -> forall d, P d.
Proof.
  intros H0 H1 H2 H3 d. enough (P d /\ (forall a, P (a :: d)) /\ forall a b, P (a :: b :: d)) by tauto.
  induction d as [|x d (IH1 & IH2 & IH3)]; [auto|]. split; [apply IH2|]. split; [intros; apply IH3|].
  intros a b. apply H3, IH1.
Qed.

Lemma lor_low k x y : 0 <= k -> 0 <= y < 2 ^ k -> Z.lor (x * 2 ^ k) y = x * 2 ^ k + y.
Proof.
  intros Hk Hy. assert (Z.land (x * 2 ^ k) y = 0) as H0.
  { apply Z.bits_inj'. intros n Hn. rewrite Z.land_spec, Z.bits_0.
    destruct (Z.lt_ge_cases n k); [by rewrite Z.mul_pow2_bits_low by done|].
    rewrite <- (Z.mod_small y (2 ^ k)) by done. rewrite Z.mod_pow2_bits_high by lia. apply andb_false_r. }
  rewrite <- Z.lxor_lor by done. symmetry. by apply Z.add_nocarry_lxor.
Qed.

Lemma T_idx i (s : list Z) : 0 <= i < 64 -> idx base64_table i s = (Ret (T i), s).
Proof.
  intros Hi. destruct (lookup_lt_is_Some_2 base64_table (Z.to_nat i)) as [c Hc].
  { change (length base64_table) with 64%nat. lia. }
  rewrite (idx_in _ _ c) by (lia || done). unfold T. by rewrite Hc.
Qed.

Lemma digit_at i j (s : list Z) : Z.land i 0x3f = j -> digit i s = (Ret (T j), s).
Proof.
  intros <-. unfold digit. apply T_idx. change 0x3f with (Z.ones 6). rewrite Z.land_ones by lia.
  apply Z.mod_pos_bound. lia.
Qed.

(** What the decoder makes of the characters of the table. *)
Lemma T_facts i : 0 <= i < 64 -> get_idx (T i) = Some i /\ T i <> 0 /\ T i <> PAD.
Proof.
  intros Hi.
  assert (forallb (fun i => bool_decide (get_idx (T i) = Some i) && negb (T i =? 0) && negb (T i =? PAD))
            (seqZ 0 64) = true) as H by (vm_compute; reflexivity).
  rewrite List.forallb_forall in H. specialize (H i). rewrite <- list_elem_of_In in H.
  assert (i ∈ seqZ 0 64) as Hin by (apply elem_of_seqZ; lia). specialize (H Hin). bool_hyps.
  split; [|done].
  by eapply bool_decide_eq_true_1.
Qed.

(** A group of bytes as a number, and its four digits. *)
Lemma group_number a b c : byte_ok a -> byte_ok b -> byte_ok c ->
  Z.lor (u32 (Z.shiftl (Z.lor (u32 (Z.shiftl a 8)) b) 8)) c = a * 65536 + b * 256 + c.
Proof.
  unfold byte_ok. intros. rewrite !Z.shiftl_mul_pow2 by lia.
  rewrite (uwrap_small 32 (a * 2 ^ 8)) by (unfold is_u; lia).
  rewrite lor_low by lia. rewrite uwrap_small by (unfold is_u; lia). rewrite lor_low by lia. lia.
Qed.

Lemma digits a b c : byte_ok a -> byte_ok b -> byte_ok c ->
  let g := a * 65536 + b * 256 + c in
  Z.land (Z.shiftr g 18) 0x3f = a / 4 /\ Z.land (Z.shiftr g 12) 0x3f = a mod 4 * 16 + b / 16 /\
  Z.land (Z.shiftr g 6) 0x3f = b mod 16 * 4 + c / 64 /\ Z.land g 0x3f = c mod 64.
Proof.
  intros Ha Hb Hc g. unfold byte_ok in *. change 0x3f with (Z.ones 6).
  rewrite !Z.land_ones, !Z.shiftr_div_pow2 by lia. unfold g.
  change (2 ^ 18) with 262144. change (2 ^ 12) with 4096. change (2 ^ 6) with 64.
  repeat split; Z.div_mod_to_equations; lia.
Qed.

(** The three bytes the decoder puts together again. *)
Lemma undigits a b c : byte_ok a -> byte_ok b -> byte_ok c ->
  let i0 := a / 4 in let i1 := a mod 4 * 16 + b / 16 in let i2 := b mod 16 * 4 + c / 64 in
  u8 (Z.lor (u8 (Z.shiftl i0 2)) (Z.shiftr i1 4)) = a /\
  u8 (Z.lor (u8 (Z.shiftl (Z.land i1 0xf) 4)) (Z.shiftr i2 2)) = b /\
  u8 (Z.lor (u8 (Z.shiftl (Z.land i2 0x3) 6)) (c mod 64)) = c.
Proof.
  intros Ha Hb Hc i0 i1 i2. unfold byte_ok in *. change 0xf with (Z.ones 4). change 0x3 with (Z.ones 2).
  rewrite !Z.land_ones, !Z.shiftr_div_pow2, !Z.shiftl_mul_pow2 by lia. unfold i0, i1, i2.
  assert (forall k x y, 0 <= k -> 0 <= x * 2 ^ k < 256 -> 0 <= y < 2 ^ k -> x * 2 ^ k + y < 256 ->
    u8 (Z.lor (u8 (x * 2 ^ k)) y) = x * 2 ^ k + y) as Hj.
  { intros k x y Hk Hx Hy Hs. rewrite (uwrap_small 8 (x * 2 ^ k)) by (unfold is_u; lia).
    rewrite lor_low by lia. apply uwrap_small. unfold is_u. lia. }
  rewrite !Hj by (lia || (change (2 ^ 2) with 4; change (2 ^ 4) with 16; change (2 ^ 6) with 64;
    Z.div_mod_to_equations; lia)).
  change (2 ^ 2) with 4; change (2 ^ 4) with 16; change (2 ^ 6) with 64.
  repeat split; Z.div_mod_to_equations; lia.
Qed.

(** ** The encoder *)

Lemma put_char_at p x r c off : off = lenZ p -> put_char off c (p ++ x :: r) = (Ret tt, p ++ c :: r).
Proof.
  intros ->. unfold put_char, bind, get. change (x :: r) with ([x] ++ r).
  by rewrite (wr_at p [x] r [c]).
Qed.

(** Four characters in a row. *)
Lemma put_group p x0 x1 x2 x3 r c0 c1 c2 c3 :
  put_char (lenZ p) c0 (p ++ x0 :: x1 :: x2 :: x3 :: r) = (Ret tt, p ++ c0 :: x1 :: x2 :: x3 :: r) /\
  put_char (lenZ p + 1) c1 (p ++ c0 :: x1 :: x2 :: x3 :: r) = (Ret tt, p ++ c0 :: c1 :: x2 :: x3 :: r) /\
  put_char (lenZ p + 2) c2 (p ++ c0 :: c1 :: x2 :: x3 :: r) = (Ret tt, p ++ c0 :: c1 :: c2 :: x3 :: r) /\
  put_char (lenZ p + 3) c3 (p ++ c0 :: c1 :: c2 :: x3 :: r) = (Ret tt, p ++ c0 :: c1 :: c2 :: c3 :: r).
Proof.
  pose proof (put_char_at p x0 (x1 :: x2 :: x3 :: r) c0 _ eq_refl) as E0.
  pose proof (put_char_at (p ++ [c0]) x1 (x2 :: x3 :: r) c1 (lenZ p + 1) ltac:(by rewrite lenZ_app)) as E1.
  pose proof (put_char_at (p ++ [c0; c1]) x2 (x3 :: r) c2 (lenZ p + 2) ltac:(by rewrite lenZ_app)) as E2.
  pose proof (put_char_at (p ++ [c0; c1; c2]) x3 r c3 (lenZ p + 3) ltac:(by rewrite lenZ_app)) as E3.
  rewrite <- !app_assoc in E1, E2, E3. cbn [app] in E1, E2, E3. done.
Qed.

Lemma idx_app {S} (p r : list Z) k (s : S) : 0 <= k -> idx (p ++ r) (lenZ p + k) s = idx r k s.
Proof.
  intros Hk. pose proof (lenZ_nonneg p). unfold idx. rewrite !(proj2 (Z.leb_le _ _)) by lia.
  rewrite lookup_app_r by (unfold lenZ; lia). repeat f_equal. unfold lenZ. lia.
Qed.

Lemma lenZ_cons {A} (x : A) l : lenZ (x :: l) = 1 + lenZ l.
Proof. unfold lenZ. simpl length. lia. Qed.

(** The group behind [pre], complete or not. *)
Lemma group_at pre a r dlen (s : list Z) :
  bytes_ok (a :: r) -> dlen = lenZ pre + lenZ (a :: r) ->
  group (pre ++ a :: r) dlen (lenZ pre) s =
  (Ret (a * 65536 + default 0 (r !! 0%nat) * 256 + default 0 (r !! 1%nat)), s).
Proof.
  intros Hb ->. inversion_clear Hb as [|? ? Ha Hr].
  assert (byte_ok 0) as Hz by (unfold byte_ok; lia).
  assert (forall k x, 0 <= k -> (a :: r) !! Z.to_nat k = Some x -> idx (pre ++ a :: r) (lenZ pre + k) s = (Ret x, s)) as Hi.
  { intros k x Hk Hx. rewrite idx_app by done. by apply idx_in. }
  pose proof (Hi 0 a ltac:(lia) eq_refl) as H0. rewrite Z.add_0_r in H0. rewrite !lenZ_cons.
  unfold group. rewrite (bind_run _ _ _ _ _ H0). destruct r as [|b [|c r]]; rewrite ?lenZ_cons.
  - change (lenZ []) with 0. rewrite !(proj2 (Z.ltb_ge _ _)) by lia. unfold bind, ret. simpl.
    rewrite <- (group_number a 0 0) by done. by rewrite !Z.lor_0_r.
  - change (lenZ []) with 0. rewrite (proj2 (Z.ltb_lt _ _)), (proj2 (Z.ltb_ge _ _)) by lia.
    inversion_clear Hr as [|? ? Hb _]. unfold bind. rewrite (Hi 1 b ltac:(lia) eq_refl). unfold ret. simpl.
    rewrite <- (group_number a b 0) by done. by rewrite !Z.lor_0_r.
  - pose proof (lenZ_nonneg r). rewrite !(proj2 (Z.ltb_lt _ _)) by lia.
    inversion_clear Hr as [|? ? Hb Hr']. inversion_clear Hr' as [|? ? Hc _].
    unfold bind. rewrite (Hi 1 b ltac:(lia) eq_refl). unfold ret. rewrite (Hi 2 c ltac:(lia) eq_refl). simpl.
    by rewrite <- (group_number a b c).
Qed.

(** One turn of the loop: the four characters of the group. *)
Definition quad (a : Z) (r : list Z) : list Z :=
  let b := default 0 (r !! 0%nat) in let c := default 0 (r !! 1%nat) in
  [T (a / 4); T (a mod 4 * 16 + b / 16);
   if bool_decide (1 <= length r)%nat then T (b mod 16 * 4 + c / 64) else PAD;
   if bool_decide (2 <= length r)%nat then T (c mod 64) else PAD].

Lemma chars_quad a r : chars (a :: r) = quad a r ++ chars (drop 2 r).
Proof.
  destruct r as [|b [|c r]]; unfold quad; simpl; try done.
  - by rewrite Z.add_0_r.
  - by rewrite Z.add_0_r.
Qed.

Lemma enc_turn fuel pre a r p x0 x1 x2 x3 rest :
  bytes_ok (a :: r) ->
  enc_loop (S fuel) (pre ++ a :: r) (lenZ pre + lenZ (a :: r)) (lenZ pre) (lenZ p) (p ++ x0 :: x1 :: x2 :: x3 :: rest)
  = enc_loop fuel (pre ++ a :: r) (lenZ pre + lenZ (a :: r)) (lenZ pre + 3) (lenZ p + 4) (p ++ quad a r ++ rest).
Proof.
  intros Hb. set (b := default 0 (r !! 0%nat)). set (c := default 0 (r !! 1%nat)).
  assert (byte_ok a /\ byte_ok b /\ byte_ok c) as (Ha & Hbb & Hcc).
  { inversion_clear Hb as [|? ? Ha Hr]. split; [done|]. unfold b, c.
    destruct r as [|y [|z r]]; simpl; [unfold byte_ok; lia | |];
      [inversion_clear Hr; split; [done | unfold byte_ok; lia]|].
    inversion_clear Hr as [|? ? H1 H2]. by inversion_clear H2. }
  destruct (digits a b c Ha Hbb Hcc) as (D0 & D1 & D2 & D3).
  cbn [enc_loop]. pose proof (lenZ_nonneg r). rewrite (proj2 (Z.ltb_lt _ _)) by (rewrite lenZ_cons; lia).
  cbn [negb]. rewrite (bind_run _ _ _ _ _ (group_at pre a r _ _ Hb eq_refl)). fold b c.
  rewrite (bind_run _ _ _ _ _ (digit_at _ _ _ D0)).
  set (c2 := if bool_decide (1 <= length r)%nat then T (b mod 16 * 4 + c / 64) else PAD).
  set (c3 := if bool_decide (2 <= length r)%nat then T (c mod 64) else PAD).
  destruct (put_group p x0 x1 x2 x3 rest (T (a / 4)) (T (a mod 4 * 16 + b / 16)) c2 c3) as (E0 & E1 & E2 & E3).
  rewrite (bind_run _ _ _ _ _ E0), (bind_run _ _ _ _ _ (digit_at _ _ _ D1)), (bind_run _ _ _ _ _ E1).
  assert (forall t, (if lenZ pre + 1 <? lenZ pre + lenZ (a :: r)
    then digit (Z.shiftr (a * 65536 + b * 256 + c) 6) else ret PAD) t = (Ret c2, t)) as F2.
  { intros t. unfold c2. rewrite lenZ_cons. unfold lenZ. case_bool_decide.
    - rewrite (proj2 (Z.ltb_lt _ _)) by lia. by apply digit_at.
    - by rewrite (proj2 (Z.ltb_ge _ _)) by lia. }
  assert (forall t, (if lenZ pre + 2 <? lenZ pre + lenZ (a :: r)
    then digit (a * 65536 + b * 256 + c) else ret PAD) t = (Ret c3, t)) as F3.
  { intros t. unfold c3. rewrite lenZ_cons. unfold lenZ. case_bool_decide.
    - rewrite (proj2 (Z.ltb_lt _ _)) by lia. by apply digit_at.
    - by rewrite (proj2 (Z.ltb_ge _ _)) by lia. }
  rewrite (bind_run _ _ _ _ _ (F2 _)), (bind_run _ _ _ _ _ E2).
  rewrite (bind_run _ _ _ _ _ (F3 _)), (bind_run _ _ _ _ _ E3). done.
Qed.

Lemma length_quad a r : length (quad a r) = 4%nat.
Proof. done. Qed.

(** The encoder writes the characters of the bytes that remain. *)
Lemma enc_loop_spec fuel pre d p rest :
  bytes_ok d -> (length d < fuel)%nat -> (length (chars d) <= length rest)%nat ->
  enc_loop fuel (pre ++ d) (lenZ pre + lenZ d) (lenZ pre) (lenZ p) (p ++ rest) =
  (Ret (lenZ p + lenZ (chars d)), p ++ chars d ++ drop (length (chars d)) rest).
Proof.
  revert pre d p rest. induction fuel as [|fuel IH]; intros pre d p rest Hb Hf Hr; [lia|].
  destruct d as [|a r].
  { cbn [enc_loop]. change (lenZ []) with 0. rewrite Z.add_0_r, Z.ltb_irrefl. cbn [negb].
    unfold ret. simpl. change (lenZ []) with 0. by rewrite Z.add_0_r. }
  rewrite chars_quad in *. rewrite length_app, length_quad in Hr.
  destruct rest as [|x0 [|x1 [|x2 [|x3 rest]]]]; try (simpl in Hr; lia).
  rewrite enc_turn by done.
  assert (lenZ (p ++ quad a r) = lenZ p + 4) as Ep by (by rewrite lenZ_app).
  assert (drop (length (quad a r ++ chars (drop 2 r))) (x0 :: x1 :: x2 :: x3 :: rest)
          = drop (length (chars (drop 2 r))) rest) as Ed by (by rewrite length_app).
  rewrite Ed, lenZ_app. change (lenZ (quad a r)) with 4. cbn [length] in Hr, Hf.
  destruct (decide (2 <= length r)%nat) as [H2|H2].
  - specialize (IH (pre ++ a :: take 2 r) (drop 2 r) (p ++ quad a r) rest).
    assert (lenZ (pre ++ a :: take 2 r) = lenZ pre + 3) as E1.
    { unfold lenZ. rewrite length_app. cbn [length]. rewrite length_take. lia. }
    assert (lenZ pre + 3 + lenZ (drop 2 r) = lenZ pre + lenZ (a :: r)) as E2
      by (unfold lenZ; cbn [length]; rewrite length_drop; lia).
    rewrite Ep, E1, E2, <- !app_assoc in IH. cbn [app] in IH. rewrite take_drop in IH.
    rewrite IH; [do 2 f_equal; lia | | rewrite length_drop; lia | lia].
    apply Forall_drop. by inversion Hb.
  - rewrite (drop_ge r) by lia. cbn [chars length drop app]. change (lenZ []) with 0.
    destruct fuel as [|fuel]; [lia|]. cbn [enc_loop].
    rewrite (proj2 (Z.ltb_ge _ _)) by (unfold lenZ; cbn [length]; lia). cbn [negb].
    unfold ret. by rewrite Z.add_0_r, app_nil_r.
Qed.

Lemma lenZ_chars d : lenZ (chars d) = 4 * ((lenZ d + 2) / 3).
Proof.
  induction d as [|a|a b|a b c r IH] using group_ind; try done.
  cbn [chars]. rewrite !lenZ_cons, IH. Z.div_mod_to_equations. lia.
Qed.

Lemma base64_enc_len_chars d : lenZ d < 2 ^ 32 -> base64_enc_len (lenZ d) = lenZ (chars d) + 1.
Proof.
  intros Hl. pose proof (lenZ_nonneg d). pose proof (lenZ_chars d) as Hc. unfold base64_enc_len.
  rewrite (uwrap_small 64 (lenZ d + 2)) by (unfold is_u; lia). rewrite <- Hc.
  apply uwrap_small. unfold is_u; Z.div_mod_to_equations; lia.
Qed.

Lemma base64_enc_spec d p blen :
  bytes_ok d -> lenZ d < 2 ^ 32 -> lenZ (chars d) + 1 <= blen -> blen <= lenZ p ->
  base64_enc d (lenZ d) blen p =
  (Ret (true, lenZ (chars d) + 1), chars d ++ 0 :: drop (S (length (chars d))) p).
Proof.
  intros Hb Hl Hn Hp. unfold base64_enc. rewrite base64_enc_len_chars by done.
  rewrite (proj2 (Z.ltb_ge _ _)) by lia.
  pose proof (enc_loop_spec (S (Z.to_nat (lenZ d))) [] d [] p Hb ltac:(unfold lenZ; lia)
    ltac:(unfold lenZ in *; lia)) as E. cbn [app] in E. change (lenZ []) with 0 in E. rewrite !Z.add_0_l in E.
  rewrite (bind_run _ _ _ _ _ E).
  destruct (drop (length (chars d)) p) as [|x r] eqn:Ed.
  { apply (f_equal length) in Ed. rewrite length_drop in Ed. unfold lenZ in *. simpl in Ed. lia. }
  rewrite (bind_run _ _ _ _ _ (put_char_at (chars d) x r 0 _ eq_refl)).
  replace (drop (S (length (chars d))) p) with r; [done|].
  rewrite <- Nat.add_1_r, <- drop_drop, Ed. done.
Qed.

(** ** The decoder *)

(** The loop stops at the end of the string and at padding. *)
Lemma dec_stop fuel data n ch size blen m st byte buf :
  data !! Z.to_nat n = Some ch -> ch = 0 \/ ch = PAD -> 0 <= n < size ->
  dec_loop (S fuel) data size true blen n m st byte buf = (Ret (Some m), buf).
Proof.
  intros Hd Hc Hs. cbn [dec_loop]. rewrite (proj2 (Z.ltb_lt _ _)) by lia. cbn [negb].
  rewrite (bind_run _ _ _ _ _ (idx_in data n ch _ ltac:(lia) Hd)). destruct Hc as [-> | ->]; done.
Qed.

Section turns.
  Context (fuel : nat) (data : list Z) (i n size blen : Z) (p q : list Z) (x byte m : Z).
  Context (Hd : data !! Z.to_nat n = Some (T i)) (Hi : 0 <= i < 64) (Hs : 0 <= n < size).

  (** A character of the table: the loop's dispatch on the state. *)
Lemma dec_digit st buf :
    dec_loop (S fuel) data size true blen n m st byte buf =
    (if st =? 0 then dec_loop fuel data size true blen (n + 1) m 1 (u8 (Z.shiftl i 2))
     else if st =? 1 then
       do! store true blen m (u8 (Z.lor byte (Z.shiftr i 4))) in
       dec_loop fuel data size true blen (n + 1) (m + 1) 2 (u8 (Z.shiftl (Z.land i 0xf) 4))
     else if st =? 2 then
       do! store true blen m (u8 (Z.lor byte (Z.shiftr i 2))) in
       dec_loop fuel data size true blen (n + 1) (m + 1) 3 (u8 (Z.shiftl (Z.land i 0x3) 6))
     else if st =? 3 then
       do! store true blen m (u8 (Z.lor byte i)) in
       dec_loop fuel data size true blen (n + 1) (m + 1) 0 byte
     else ret None) buf.
  Proof.
    destruct (T_facts i Hi) as (Hg & H0 & Hp). cbn [dec_loop].
    rewrite (proj2 (Z.ltb_lt _ _)) by lia. cbn [negb].
    rewrite (bind_run _ _ _ _ _ (idx_in data n _ _ ltac:(lia) Hd)).
    rewrite (proj2 (Z.eqb_neq (T i) 0)), (proj2 (Z.eqb_neq (T i) PAD)) by done. by rewrite Hg.
  Qed.

Lemma dec_0 buf :
    dec_loop (S fuel) data size true blen n m 0 byte buf =
    dec_loop fuel data size true blen (n + 1) m 1 (u8 (Z.shiftl i 2)) buf.
  Proof. exact (dec_digit 0 buf). Qed.

  (** The three states that complete a byte. *)
  Context (Hm : m = lenZ p) (Hl : m < blen).

Lemma store_at v : store true blen m v (p ++ x :: q) = (Ret tt, p ++ v :: q).
  Proof. unfold store. rewrite (proj2 (Z.ltb_lt _ _)) by done. by apply put_char_at. Qed.

Lemma dec_1 :
    dec_loop (S fuel) data size true blen n m 1 byte (p ++ x :: q) =
    dec_loop fuel data size true blen (n + 1) (m + 1) 2
      (u8 (Z.shiftl (Z.land i 0xf) 4)) (p ++ u8 (Z.lor byte (Z.shiftr i 4)) :: q).
  Proof. rewrite (dec_digit 1). exact (bind_run _ _ _ _ _ (store_at _)). Qed.

Lemma dec_2 :
    dec_loop (S fuel) data size true blen n m 2 byte (p ++ x :: q) =
    dec_loop fuel data size true blen (n + 1) (m + 1) 3
      (u8 (Z.shiftl (Z.land i 0x3) 6)) (p ++ u8 (Z.lor byte (Z.shiftr i 2)) :: q).
  Proof. rewrite (dec_digit 2). exact (bind_run _ _ _ _ _ (store_at _)). Qed.

Lemma dec_3 :
    dec_loop (S fuel) data size true blen n m 3 byte (p ++ x :: q) =
    dec_loop fuel data size true blen (n + 1) (m + 1) 0 byte (p ++ u8 (Z.lor byte i) :: q).
  Proof. rewrite (dec_digit 3). exact (bind_run _ _ _ _ _ (store_at _)). Qed.
End turns.

(** The characters behind [pre]. *)
Lemma char_at (pre l : list Z) n k ch :
  l !! k = Some ch -> n = lenZ pre + Z.of_nat k -> (pre ++ l) !! Z.to_nat n = Some ch.
Proof.
  intros Hk ->. rewrite lookup_app_r by (unfold lenZ; lia). rewrite <- Hk. f_equal. unfold lenZ. lia.
Qed.

(** The first two characters of a group complete its first byte. *)
Lemma dec_two fuel pre i0 i1 l size blen p x q byte :
  0 <= i0 < 64 -> 0 <= i1 < 64 -> lenZ pre + 1 < size -> lenZ p < blen ->
  dec_loop (S (S fuel)) (pre ++ T i0 :: T i1 :: l) size true blen (lenZ pre) (lenZ p) 0 byte (p ++ x :: q) =
  dec_loop fuel (pre ++ T i0 :: T i1 :: l) size true blen (lenZ pre + 2) (lenZ p + 1) 2
    (u8 (Z.shiftl (Z.land i1 0xf) 4)) (p ++ u8 (Z.lor (u8 (Z.shiftl i0 2)) (Z.shiftr i1 4)) :: q).
Proof.
  intros H0 H1 Hs Hm. pose proof (lenZ_nonneg pre).
  rewrite (dec_0 _ _ i0) by (lia || by eapply (char_at _ _ _ 0); [|lia]).
  rewrite (dec_1 _ _ i1) by (lia || by eapply (char_at _ _ _ 1); [|lia]).
  by rewrite <- Z.add_assoc.
Qed.

Lemma cons_middle (a : Z) p q : p ++ a :: q = (p ++ [a]) ++ q.
Proof. by rewrite <- app_assoc. Qed.

(** The decoder turns the characters of a byte string into the bytes. *)
Lemma dec_chars_spec d fuel pre r size blen p q byte :
  bytes_ok d -> (length (chars d) < fuel)%nat -> lenZ pre + lenZ (chars d) < size ->
  (length d <= length q)%nat -> lenZ p + lenZ d <= blen ->
  dec_loop fuel (pre ++ chars d ++ 0 :: r) size true blen (lenZ pre) (lenZ p) 0 byte (p ++ q) =
  (Ret (Some (lenZ p + lenZ d)), p ++ d ++ drop (length d) q).
Proof.
  revert fuel pre p q byte. induction d as [|a|a b|a b c d IH] using group_ind;
    intros fuel pre p q byte Hb Hf Hs Hq Hl; cbn [chars] in *; rewrite ?lenZ_cons in *;
    change (lenZ []) with 0 in *; cbn [length] in *; pose proof (lenZ_nonneg pre);
    assert (byte_ok 0) as Hz by (split; lia).
  - destruct fuel as [|fuel]; [lia|]. rewrite Z.add_0_r.
    rewrite (dec_stop _ _ _ 0); [done | by apply (char_at _ _ _ 0); [|lia] | by left | lia].
  - destruct q as [|x q]; [simpl in Hq; lia|]. destruct fuel as [|[|[|fuel]]]; try lia.
    inversion_clear Hb as [|? ? Ha _]. destruct (undigits a 0 0 Ha Hz Hz) as (U & _). rewrite !Z.add_0_r in U.
    unfold byte_ok in *. cbn [app].
    rewrite dec_two by (lia || Z.div_mod_to_equations; lia). rewrite U.
    rewrite (dec_stop _ _ _ PAD); [done | by apply (char_at _ _ _ 2); [|lia] | by right | lia].
  - destruct q as [|x [|y q]]; try (simpl in Hq; lia). destruct fuel as [|[|[|[|fuel]]]]; try lia.
    inversion_clear Hb as [|? ? Ha Hb']. inversion_clear Hb' as [|? ? Hb _].
    destruct (undigits a b 0 Ha Hb Hz) as (U & V & _). rewrite !Z.add_0_r in *. unfold byte_ok in *. cbn [app].
    rewrite dec_two by (lia || Z.div_mod_to_equations; lia). rewrite U.
    rewrite (cons_middle a p (y :: q)), (dec_2 _ _ (b mod 16 * 4));
      [ | by apply (char_at _ _ _ 2); [|lia] | Z.div_mod_to_equations; lia | lia | by rewrite lenZ_app | lia].
    rewrite V, <- app_assoc.
    rewrite (dec_stop _ _ _ PAD); [| by apply (char_at _ _ _ 3); [|lia] | by right | lia].
    do 3 f_equal. lia.
  - destruct q as [|x [|y [|z q]]]; try (simpl in Hq; lia). destruct fuel as [|[|[|[|fuel]]]]; try lia.
    inversion_clear Hb as [|? ? Ha Hb']. inversion_clear Hb' as [|? ? Hb Hc'].
    inversion_clear Hc' as [|? ? Hc Hd].
    destruct (undigits a b c Ha Hb Hc) as (U & V & W). unfold byte_ok in *. cbn [app].
    pose proof (lenZ_nonneg d). pose proof (lenZ_nonneg (chars d)).
    rewrite dec_two by (lia || Z.div_mod_to_equations; lia). rewrite U.
    rewrite (cons_middle a p (y :: z :: q)), (dec_2 _ _ (b mod 16 * 4 + c / 64));
      [ | by apply (char_at _ _ _ 2); [|lia] | Z.div_mod_to_equations; lia | lia | by rewrite lenZ_app | lia].
    rewrite V, (cons_middle b (p ++ [a]) (z :: q)), (dec_3 _ _ (c mod 64));
      [ | by apply (char_at _ _ _ 3); [|lia] | Z.div_mod_to_equations; lia | lia
        | rewrite !lenZ_app; change (lenZ [a]) with 1; change (lenZ [b]) with 1; lia | lia].
    rewrite W. rewrite <- !app_assoc. cbn [app].
    specialize (IH fuel (pre ++ [T (a / 4); T (a mod 4 * 16 + b / 16); T (b mod 16 * 4 + c / 64); T (c mod 64)])
      (p ++ [a; b; c]) q (u8 (Z.shiftl (Z.land (b mod 16 * 4 + c / 64) 3) 6))).
    rewrite !lenZ_app, <- !app_assoc, !lenZ_cons in IH. change (lenZ []) with 0 in IH. cbn [app] in IH.
    replace (lenZ pre + 2 + 1 + 1) with (lenZ pre + (1 + (1 + (1 + (1 + 0))))) by lia.
    replace (lenZ p + 1 + 1 + 1) with (lenZ p + (1 + (1 + (1 + 0)))) by lia.
    cbn [length] in Hq. rewrite IH by (done || lia). do 3 f_equal. lia.
Qed.

Lemma base64_dec_spec d r blen p :
  bytes_ok d -> lenZ d <= blen -> blen <= lenZ p ->
  base64_dec (chars d ++ 0 :: r) (lenZ (chars d) + 1) true blen p = (Ret (true, lenZ d), d ++ drop (length d) p).
Proof.
  intros Hb Hl Hp. pose proof (lenZ_nonneg d). unfold base64_dec.
  pose proof (dec_chars_spec d (Z.to_nat (lenZ (chars d) + 1)) [] r (lenZ (chars d) + 1) blen [] p 0 Hb
    ltac:(unfold lenZ; lia) ltac:(change (lenZ []) with 0; lia) ltac:(unfold lenZ in *; lia)
    ltac:(change (lenZ []) with 0; lia)) as E.
  cbn [app] in E. change (lenZ []) with 0 in E. rewrite Z.add_0_l in E.
  rewrite (bind_run _ _ _ _ _ E). rewrite (proj2 (Z.leb_le _ _)) by lia. by rewrite orb_true_r.
Qed.

(** C40. What [base64_enc()] writes, [base64_dec()] reads back: the encoding needs exactly the
    [base64_enc_len()] bytes it announces and leaves the rest of the buffer alone, and decoding it
    (with the terminating NUL, into any buffer that has the room) returns the bytes and their number,
    again leaving the rest of the buffer alone. *)
Theorem base64_roundtrip d buf blen out olen :
  bytes_ok d -> lenZ d < 2 ^ 32 -> base64_enc_len (lenZ d) <= blen <= lenZ buf ->
  lenZ d <= olen <= lenZ out ->
  exists s,
    base64_enc d (lenZ d) blen buf =
      (Ret (true, base64_enc_len (lenZ d)), s ++ drop (length s) buf) /\
    lenZ s = base64_enc_len (lenZ d) /\
    base64_dec (s ++ drop (length s) buf) (lenZ s) true olen out =
      (Ret (true, lenZ d), d ++ drop (length d) out).
Proof.
  intros Hb Hl Hn Ho. pose proof (base64_enc_len_chars d Hl) as En. rewrite En in *.
  exists (chars d ++ [0]). rewrite length_app, Nat.add_1_r, <- app_assoc, lenZ_app. split_and!; [|done|].
  - apply base64_enc_spec; done || lia.
  - apply base64_dec_spec; done || lia.
Qed.

Lemma base64_roundtrip_witness :
  exists s,
    base64_enc [77; 97; 110; 121] 4 9 (replicate 10 1) = (Ret (true, 9), s ++ [1]) /\ lenZ s = 9 /\
    base64_dec (s ++ [1]) 9 true 6 (replicate 6 2) = (Ret (true, 4), [77; 97; 110; 121; 2; 2]).
Proof.
  destruct (base64_roundtrip [77; 97; 110; 121] (replicate 10 1) 9 (replicate 6 2) 6) as (s & E & L & D);
    [repeat (apply Forall_cons_2; [split; lia|]); apply Forall_nil_2
    | reflexivity | split; vm_compute; discriminate | split; vm_compute; discriminate |].
  exists s. change (base64_enc_len (lenZ [77; 97; 110; 121])) with 9 in *.
  assert (length s = 9)%nat as Ls by (unfold lenZ in L; lia). rewrite Ls, L in *. split_and!; done.
Defined.
